(* ===== verification/_CoqProject ===== *)
-Q . S2P
Prelude.v
RingBuffer.v
IndexedStore.v
DeltaFifo.v
Informer.v
Common.v
ConsistentHash.v
Types.v
Heap.v
Backoff.v
SchedQueue.v
ApiTypes.v
ClusterTree.v
SchedulerController.v
Partition.v
Openstack.v
DispatcherProcess.v
DistributorProcess.v
SiteTree.v
Strconv.v
FieldSelector.v
EtcdStore.v
Revision.v
WatchCache.v
Cacher.v
CacherClients.v
EtcdWatch.v
EtcdList.v
EtcdCache.v
StorageClusters.v
StringSets.v
SiteCacheInfo.v
Cache.v
CacheProofs.v
CacheStacks.v
Labels.v
LabelParser.v
Framework.v
Floats.v
WorkQueue.v
FlavorPlugin.v
FlavorProofs.v
Plugins.v
Strategy.v
Binder.v
ClusterEvents.v
Collector.v
ClusterController.v
Schedule.v
PodEvents.v
PodStore.v
PodSelection.v
PodWatch.v
PodEtcd.v
FrameworkProofs.v
Deployed.v
FilterProofs.v
ReserveProofs.v
ScheduleProofs.v
ClusterProofs.v
CollectorProofs.v
PodProofs.v
PodJourney.v
