(* ===== verification/Prelude.v ===== *)
(** * Global Resource Scheduler: a verification library

    The Global Resource Scheduler places pods and allocations on a fleet of clusters
    ("sites") spread over the world.  Its own code is under [src/globalscheduler]; the
    rest of the repository is the Kubernetes-derived platform it runs on, of which this
    development models the parts that carry its requests: informers, work queues, field
    selectors, the API server's pods with their watch cache, and the storage in etcd with
    its lists and watches.  The resource collector under [src/resourcecollector] reports
    what the sites have.  A request passes through three kinds of processes:

    - a _distributor_ ([controllers/distributor]) owns a range of pod hash keys and
      gives each pending pod or new allocation to a scheduler that covers its location;
    - a _scheduler_ ([pkg/scheduler]) keeps the waiting stacks in a queue and the sites
      in a cache, and chooses a site for each stack;
    - a _dispatcher_ ([controllers/dispatcher]) owns a range of cluster names and creates
      or deletes the servers of bound pods and allocations at the OpenStack service of
      their cluster.

    Three controllers divide the work: the scheduler controller gives clusters to
    schedulers through a tree of locations, the dispatcher and distributor controllers
    give ranges to dispatchers and distributors.

    ** Files

    Shared:
    - [Prelude]: 64-bit integers, results of fallible calls, slices, binary search,
      tactics and hints.
    - [Types], [ApiTypes]: the structs of [pkg/scheduler/types/types.go],
      [client/typed/typed.go] and [pkg/apis/*/v1/types.go], and the keys of
      [pkg/scheduler/utils/utils.go].
    - [Strconv], [Floats]: the functions of Go's [strings], [strconv], [regexp] and
      [math] that the code calls, and facts on [float64].
    - [StringSets] ([pkg/scheduler/utils/sets/string.go]): sets of strings.
    - [WorkQueue] ([client-go/util/workqueue]): the queue with its dirty and processing
      sets, the rate limiters and the delaying queue.

    Platform:
    - [RingBuffer] ([utils/buffer/ring_growing.go]), [IndexedStore]
      ([client-go/tools/cache/thread_safe_store.go]), [DeltaFifo] ([delta_fifo.go]) and
      [Informer] ([reflector.go], [shared_informer.go]): from lists and watch events to the
      local store and the notifications of the handlers.
    - [FieldSelector] ([apimachinery/pkg/fields]): selectors on fields, their parser and
      printer.
    - [EtcdStore] ([apiserver/pkg/storage/etcd3/store.go]): reading, creating, updating and
      deleting over a record of etcd transactions with its laws.
    - [EtcdWatch] ([etcd3/watcher.go], [event.go]): from the events of etcd to the changes of
      selected objects, and the ranges of keys that an API server with a part of the data
      watches.
    - [EtcdList] ([etcd3/store.go], [errors.go], [client-go/tools/pager]): lists in pages and
      over several storage clusters, their tokens, and the choice of the cluster of a key.
    - [StorageClusters] ([storage/storagecluster], [storagebackend/factory/etcd3.go]): which
      tenant has which storage cluster, and the clients of a storage for these clusters.
    - [Revision] ([apimachinery/pkg/util/diff/compare.go]), [WatchCache]
      ([storage/cacher/watch_cache.go]) and [Cacher] ([storage/cacher/cacher.go]): the order
      of revisions, the window of events with its objects, and the dispatch of events to the
      watchers as a step relation; [CacherClients]: an informer that lists and watches.
    - [PodStore] ([pkg/registry/core/pod], [apiserver/pkg/registry], the typed client): the
      creation of pods with their hash, bindings, status updates, selectable fields and the
      list requests of the processes.

    Controllers:
    - [Common] ([controllers/util/common.go]): [EvenlyDivide], the sorted name slice,
      [RemoveCluster].
    - [ClusterTree] ([controllers/util/union/union.go],
      [controllers/scheduler/scheduler_cluster_union.go]): the reference-counted unions
      of cluster properties and the location tree.
    - [SchedulerController] ([controllers/scheduler/scheduler_controller.go]): informer
      handlers and the balancing of clusters among schedulers; the API server is a state
      with [Get] and [Update].
    - [Partition] ([dispatcher_controller.go], [distributor_controller.go]): modules
      [Dispatchers] and [Distributors], their handlers and balancing.
    - [ClusterController] ([controllers/cluster/cluster_controller.go]): the worker that
      forwards the events of clusters to the resource collector.
    - [ConsistentHash] ([controllers/util/consistenthashing]): the hash ring.

    Processes:
    - [Openstack] ([controllers/util/openstack/openstack.go]): the HTTP requests and the
      state monad with panics in which they are written.
    - [DispatcherProcess] ([dispatcher_process.go]): creation and deletion of servers,
      rollback, the caches of hosts and tokens.
    - [DistributorProcess] ([distributor_process.go]): the list of schedulers and the
      choice of one.

    Scheduler:
    - [Heap] ([pkg/scheduler/utils/heap.go] with [container/heap]), [Backoff]
      ([internal/queue/stack_backoff.go]) and [SchedQueue]
      ([internal/queue/scheduling_queue.go]): the scheduling queue.
    - [SiteTree] ([internal/cache/site_tree.go]), [SiteCacheInfo]
      ([sitecacheinfo/sitecache_info.go]) and [Cache] ([internal/cache/cache.go],
      [snapshot.go]): the cache of sites and its snapshot; [CacheProofs] and
      [CacheStacks] hold its theorems.
    - [Labels] and [LabelParser] ([pkg/scheduler/labels]): requirements, selectors, their
      lexer, parser and printer, and label sets.
    - [Framework] ([framework/interfaces]): status values, the cycle state, and the runs
      of the extension points; [FrameworkProofs] bounds the weighted scores.
    - [FlavorPlugin], [Plugins], [Strategy], [Binder] ([framework/plugins]): the plugins.
      [Strategy] and [Binder] contain the theorems on them; [FlavorProofs],
      [FilterProofs] and [ReserveProofs] those on the flavor plugin, on the filters and
      on the placing of stacks on sites.
    - [Schedule] ([pkg/scheduler/scheduler.go]): the scheduling algorithm; [Deployed]
      ([algorithmprovider/registry.go]): the policy that the repository ships;
      [ScheduleProofs]: the two together.
    - [ClusterEvents] and [ClusterProofs] ([eventhandlers.go], [scheduler.go], [service]):
      from the events of clusters to the sites of the snapshot.
    - [PodEvents] and [PodProofs] ([eventhandlers.go], [scheduler.go]): from the events of
      pods to their binding.

    Resource collector:
    - [Collector] ([src/resourcecollector/pkg/collector]): the cache of regions, the gRPC
      service, the rounds of collection and the reports to the schedulers.
    - [CollectorProofs]: the collector with the cluster controller and the scheduler's side
      of the reports.

    Compositions:
    - [PodSelection]: the ranges that the controllers give, as the API server matches them.
    - [PodJourney]: distributor, API server, scheduler and dispatcher in a row.
    - [EtcdCache]: the pages and the watch of etcd, the watch cache and the cacher.
    - [PodWatch] ([registry/generic/registry/store.go], [core/pod/strategy.go]): the keys and
      the selection of pods, the cacher and the informer of a distributor.
    - [PodEtcd]: all of these, from etcd to the informer.

    The components meet in these places.  [plain_world] says what scheduling needs of the
    snapshot: the cluster events establish it for any history
    ([cluster_events_make_schedulable_sites]), and [suitable_allocation_is_placed] and
    [pod_is_bound_or_refused] assume it.  The worker of [PodProofs] takes its stack from
    the queue of [SchedQueue], and the cluster worker from the queue of [WorkQueue].
    [PodSelection] takes the ranges of [Partition] through the text of [PodStore]'s requests
    and the parser of [FieldSelector] to the match on a stored pod; [PodJourney] runs the
    processes on one stored pod; [CollectorProofs] takes a capacity from the cloud to the
    scheduler's snapshot.  The updates of [PodStore] are atomic steps, which is what
    [guaranteed_update_is_atomic] shows of the storage below.  [fed_step] of [EtcdCache] joins
    a step of the cacher with what etcd held at the version of its cache: a list of
    [EtcdList] or an event of [EtcdWatch] is the only way in which the cache changes.
    [StorageClusters] gives [EtcdList] its data clusters and the cluster of a tenant.

    ** How the code is represented

    A Go [int] or [int64] is a [Z], with [wrap64] where an operation can overflow; a
    [float64] is a [SpecFloat] number.  A slice is a list; nil and empty slices are not
    distinguished.  A map is a [gmap]; the order in which Go visits it is a parameter of
    the operation, of which the theorems only assume that it visits each entry once.
    Where the code shares mutable objects (the items of the cache's linked list, the
    entries of a snapshot) they live in a heap of addresses.  An error return is
    [result]; a panic, a fatal log or a self-deadlock is [None].  A method that holds a
    lock throughout is one atomic step; the blocked [Pop] of the queue is a state of its
    own that a broadcast wakes.  The clock, the API server, the HTTP transport with the
    OpenStack service, and random identifiers are parameters.  Log output and metrics are
    left out.

    Loops whose recursion is not structural take fuel, and the theorems show that it
    suffices: the sift loops of the heap and the binary search halve an interval, so its
    length is enough; the backoff loop doubles, so the number of attempts is enough; the
    flush of the backoff queue pops an element each time round; the site iterator moves
    past a zone or takes a site in each step; the walk of the snapshot follows a list
    whose length is at most the size of the heap; [EvenlyDivide] makes as many rounds as
    ranges are asked for; the balancing of schedulers descends the tree, which has six
    levels; the lexer of selectors takes a character and its parser an item in each
    round; the combinations of flavors are as many as the product of the numbers of
    choices.  The loop of a guaranteed update takes one turn more than others write in
    between, and draining an informer takes one turn per queued key.  A page of a list with a
    selector takes at most one read more than there are keys, one without takes one; and there
    are at most as many pages as objects.

    ** What the theorems show

    The comment of each theorem states the conditions under which it holds; the theorems named
    in the findings show what happens outside of them.

    - End to end: a pending pod goes through distributor, scheduler and dispatcher and ends
      with a server in the cloud of a suitable site ([pod_reaches_its_cloud]); exactly one
      distributor watches a pending pod and exactly one dispatcher a bound one
      ([pending_pod_has_one_distributor], [bound_pod_has_one_dispatcher]).
    - Informers: after any history of lists, watch events and resynchronisations a drained
      informer holds what the API server holds ([informer_catches_up]), the handlers are
      told what happened to the store, the indices answer exactly, and the buffer between
      them loses nothing.  [relist_agrees_exactly_when_safe] says for which lists this
      holds.
    - Storage: a guaranteed update is one atomic change of the state that etcd holds, and it
      returns.  The pages of a list are together what etcd held at one revision
      ([pages_are_the_list]), a list over several clusters has the objects of all
      ([clusters_are_listed]), the objects of a tenant go to the server that its storage
      cluster has now ([tenants_reach_their_clusters]), a watch with a selector is a correct account of the selected
      objects ([filtered_watch_is_an_account]), and the servers that share the keys watch
      every key ([partitions_watch_every_key]).
    - Watch cache: it answers a request for the changes since a version with exactly these or
      refuses it ([watch_cache_serves_every_change]); a watcher is sent the changes of its
      selection in order, whatever else happens ([watcher_sees_what_it_selects]); no step
      panics ([cacher_never_panics]).  Filled with the pages of etcd and fed by its watch, the
      cache holds what etcd holds ([cache_is_filled_and_follows]), and the informer of a
      distributor exactly its pending pods ([distributor_informer_follows_etcd]).
    - Scheduling queue: no history of valid calls panics or puts a stack in two places
      ([queue_invariant]), and none loses a stack unless tenants share its name
      ([queue_conserves_stacks]); [Pop] returns the oldest stack, is
      woken, and misses no move request (these as theorems outside the manifest); flushes terminate; the heap refines a finite map
      with extraction of a least element and drains in order; backoff doubles up to its
      maximum.
    - Cache: the linked list and the generations are kept by every update, and the
      incremental snapshot equals a full copy ([snapshot_is_full_copy]); a round of the
      site tree visits every site once; the stored flavor counts are the greatest that
      fit.  Two theorems state how this fails: a forgotten stack hides updates of other
      sites, and assumed stacks never expire.
    - Controllers: [EvenlyDivide] partitions its interval up to the largest 64-bit
      integer; clusters are partitioned among dispatchers and hash keys among
      distributors; the tree stands for exactly the live clusters; every live cluster is
      served by a scheduler.
    - Processes: an allocation is created completely or rolled back completely; a
      scheduler is chosen exactly when one matches, and a pod for a served cluster is
      always assigned; the list of schedulers follows the informer.
    - Scheduling: with the shipped policy an allocation is placed with exactly its
      replicas on suitable sites within their capacities, or refused
      ([suitable_allocation_is_placed]); the flavor plugin agrees with a declarative
      definition of what a site can host; the location strategy divides the replicas;
      binding deducts exactly what was chosen; the sums of weighted scores do not
      overflow.
    - Events: any history of cluster events, retries and reports gives a snapshot that can
      be scheduled on, each handled event installs its site, and a pod is bound or its
      refusal recorded in one turn of the worker.
    - Work queue: no item is queued or handed out twice at once, an added item is handed
      out, a failed one comes back after a delay that doubles.
    - Selectors: parsing what was printed gives back the selector, for labels and for
      fields, and the label parser returns for every string.
    - Collector: a round brings the scheduler's capacities up to date, and a created cluster
      is collected; adding or removing a node of the hash ring moves only its members.
    - The theorems of kind "error" in the manifest, and the theorems that its findings
      name, prove deviations from what the code means to do, each on the branch where it
      happens.

    ** What is not modelled

    The checks of requests in [pkg/scheduler/service] are not modelled in this version.  Of
    the platform, only what carries the scheduler's requests is: admission, authorisation,
    the other resources, the node agents and the transport are not.  Whether [http.NewRequest]
    takes an address is a parameter of the OpenStack client and of the collector, where a
    refused address is a nil request and a panic.  etcd itself, the
    validation of pods, the encoding of objects and the text of list tokens are parameters;
    what is relied on of etcd are the records [laws] of [EtcdStore] and [range_laws] of
    [EtcdList] and the predicate [written] of [EtcdWatch].  The goroutines of a watch, its
    first synchronisation and its restart after a new partition, the broadcast of announcements
    (a storage takes each before the next notification), bookmarks, leases and
    compaction as a process are not modelled.  [Informer] takes lists and events from an
    interface ([lists], [server_event]), which [CacherClients] discharges.
    Process start-up, client construction, custom resource definitions, gRPC forwarding of
    cluster events and generated code are input and output only.  Of the modelled files,
    the extension points that no plugin implements, the dump of the debugger, the deep
    copies and the text form of label maps are left out.  The token bucket of the rate
    limiter, the switch that simulates spot resources and the status updates at the API server are
    parameters. *)

From Stdlib Require Export ZArith Lia.
From Stdlib Require Export Ascii.
From stdpp Require Export base list gmap strings sorting.

#[export] Set Default Goal Selector "!".

(** ** Machine integers

    Go's [int] and [int64] are 64-bit two's complement integers (the programs
    are built for 64-bit targets).  They are modelled as [Z]; an operation that
    can leave the representable range goes through [wrap64]. *)
Definition MaxInt64 : Z := 9223372036854775807.
Definition MinInt64 : Z := -9223372036854775808.

Definition wrap64 (z : Z) : Z := (z + 2 ^ 63) `mod` 2 ^ 64 - 2 ^ 63.

Definition int64_range (z : Z) : Prop := (MinInt64 <= z <= MaxInt64)%Z.

Lemma wrap64_id z : int64_range z -> wrap64 z = z.
Proof.
  intros H. unfold wrap64, int64_range, MinInt64, MaxInt64 in *.
  rewrite Z.mod_small; lia.
Qed.

Lemma wrap64_range z : int64_range (wrap64 z).
Proof.
  unfold wrap64, int64_range, MinInt64, MaxInt64.
  pose proof (Z.mod_pos_bound (z + 2 ^ 63) (2 ^ 64) ltac:(lia)). lia.
Qed.

(** That a sum or difference does not leave the range. *)
Ltac int64 := unfold int64_range, MinInt64, MaxInt64 in *; lia.

Create HintDb go discriminated.
#[export] Hint Resolve wrap64_range : go.
#[export] Hint Extern 1 (int64_range _) => int64 : go.

(** ** Results of fallible calls

    A Go function that returns [(value, error)] is modelled with [result]; the
    error carries the message the source formats (its constant part).  A call
    that can panic returns [option]: [None] is the panic. *)
Inductive result (A : Type) : Type :=
  | Ok (a : A)
  | Err (msg : string).
Arguments Ok {A} a.
Arguments Err {A} msg.

Definition is_ok {A} (r : result A) : bool :=
  match r with Ok _ => true | Err _ => false end.

(** [bind_simpl] reduces a bind whose first call is known to return or to panic. *)
Tactic Notation "bind_simpl" := cbn [mbind option_bind].
Tactic Notation "bind_simpl" "in" hyp(H) := cbn [mbind option_bind] in H.
Tactic Notation "bind_simpl" "in" "*" := cbn [mbind option_bind] in *.

(** ** Go slices *)

(** [s\[i\], s\[n-1\] = s\[n-1\], s\[i\]; s\[:n-1\]]: the swap-and-truncate removal
    that the controllers use.  An index outside the slice panics. *)
Definition swap_remove {A} (l : list A) (i : nat) : option (list A) :=
  x ← l !! i; y ← last l; Some (removelast (<[i := y]> l)).

(** The index of the first element satisfying [f], 0 when there is none: Go's
    [var idx int; for i, v := range l { if f(v) { idx = i; break } }]. *)
Fixpoint first_index_from {A} (f : A -> bool) (i : nat) (l : list A) : nat :=
  match l with
  | [] => 0
  | x :: l' => if f x then i else first_index_from f (S i) l'
  end.

Definition first_index {A} (f : A -> bool) (l : list A) : nat := first_index_from f 0 l.

Lemma removelast_snoc {A} (l : list A) x : removelast (l ++ [x]) = l.
Proof. rewrite removelast_app by done. simpl. apply app_nil_r. Qed.

Lemma swap_remove_perm {A} (l : list A) i x :
  l !! i = Some x -> ∃ l', swap_remove l i = Some l' ∧ l ≡ₚ x :: l'.
Proof.
  intros Hi. unfold swap_remove. rewrite Hi. simpl.
  destruct l as [|a l _] using rev_ind; [done|].
  rewrite last_snoc. simpl. eexists. split; [done|].
  destruct (decide (i = length l)) as [->|Hne].
  - rewrite list_lookup_middle in Hi by done. simplify_eq.
    rewrite <- (Nat.add_0_r (length l)), insert_app_r. simpl.
    rewrite removelast_snoc. apply Permutation_app_comm.
  - assert (i < length l) by (apply lookup_lt_Some in Hi; rewrite length_app in Hi; simpl in Hi; lia).
    rewrite insert_app_l, removelast_snoc by done. rewrite lookup_app_l in Hi by done.
    rewrite <- (take_drop_middle l i x Hi) at 1. rewrite (insert_take_drop l i a) by done.
    rewrite <- app_assoc. simpl. rewrite <- Permutation_middle. f_equiv. f_equiv.
    symmetry. apply Permutation_cons_append.
Qed.

Lemma swap_remove_panics {A} (l : list A) i :
  length l <= i -> swap_remove l i = None.
Proof. intros Hi. unfold swap_remove. by rewrite lookup_ge_None_2. Qed.

Lemma first_index_from_found {A} (f : A -> bool) l i x k :
  l !! k = Some x -> f x = true ->
  ∃ j y, first_index_from f i l = i + j ∧ j <= k ∧ l !! j = Some y ∧ f y = true.
Proof.
  revert i k. induction l as [|a l IH]; intros i k Hk Hx; [done|]. simpl.
  destruct (f a) eqn:Ha.
  - exists 0, a. split_and!; [lia|lia|done|done].
  - destruct k as [|k]; simpl in Hk; [congruence|].
    destruct (IH (S i) k Hk Hx) as (j & y & Hj & ? & ? & ?).
    exists (S j), y. split_and!; [lia|lia|done|done].
Qed.

Lemma first_index_found {A} (f : A -> bool) l x :
  x ∈ l -> f x = true -> ∃ y, l !! first_index f l = Some y ∧ f y = true.
Proof.
  intros [k Hk]%list_elem_of_lookup Hx.
  destruct (first_index_from_found f l 0 x k Hk Hx) as (j & y & Hj & _ & ? & ?).
  exists y. unfold first_index. by rewrite Hj.
Qed.

Lemma first_index_from_none {A} (f : A -> bool) l i :
  (forall x, x ∈ l -> f x = false) -> first_index_from f i l = 0.
Proof.
  revert i. induction l as [|a l IH]; intros i H; [done|]. simpl.
  rewrite (H a) by constructor. apply IH. intros x Hx. apply H. by constructor.
Qed.

(** ** The standard library's binary search

    [sort.Search(n, f)]: the loop halves [\[i, j)], so [n] iterations are
    enough (each one shortens the interval). *)
Fixpoint search_loop (fuel : nat) (f : nat -> bool) (i j : nat) : nat :=
  match fuel with
  | O => i
  | S fuel =>
      if i <? j then
        let h := (i + j) / 2 in
        if f h then search_loop fuel f i h else search_loop fuel f (S h) j
      else i
  end.

Definition sort_Search (n : nat) (f : nat -> bool) : nat := search_loop n f 0 n.

Lemma search_loop_spec fuel f n i j :
  (forall a b, a <= b -> b < n -> f a = true -> f b = true) ->
  j - i <= fuel -> i <= j <= n ->
  (forall k, k < i -> f k = false) -> (forall k, j <= k < n -> f k = true) ->
  let r := search_loop fuel f i j in
  i <= r <= j ∧ (forall k, k < r -> f k = false) ∧ (forall k, r <= k < n -> f k = true).
Proof.
  intros Hmono. revert i j. induction fuel as [|fuel IH]; intros i j Hf Hij Hlo Hhi; cbn [search_loop].
  - split_and!; [lia|lia|done|]. intros k Hk. apply Hhi. lia.
  - destruct (Nat.ltb_spec i j); [|split_and!; [lia|lia|done|intros k Hk; apply Hhi; lia]].
    pose proof (Nat.div_mod_eq (i + j) 2). pose proof (Nat.mod_upper_bound (i + j) 2 ltac:(lia)).
    set (h := (i + j) / 2) in *. destruct (f h) eqn:Eh.
    + destruct (IH i h ltac:(lia) ltac:(lia) Hlo) as (? & ? & ?).
      { intros k Hk. apply (Hmono h); [lia|lia|done]. }
      split_and!; [lia|lia|done|done].
    + destruct (IH (S h) j ltac:(lia) ltac:(lia)) as (? & ? & ?); [|done|].
      * intros k Hk. destruct (f k) eqn:Ek; [|done].
        rewrite (Hmono k h) in Eh; [done|lia|lia|done].
      * split_and!; [lia|lia|done|done].
Qed.

Lemma sort_Search_spec n f :
  (forall a b, a <= b -> b < n -> f a = true -> f b = true) ->
  let r := sort_Search n f in
  r <= n ∧ (forall k, k < r -> f k = false) ∧ (forall k, r <= k < n -> f k = true).
Proof.
  intros Hmono. destruct (search_loop_spec n f n 0 n Hmono) as (? & ? & ?); [lia|lia|intros; lia|intros; lia|].
  unfold sort_Search. split_and!; [lia|done|done].
Qed.
