(* ===== verification/RingBuffer.v ===== *)
(** * The notifications of an informer's listener

    Models the growing ring buffer [vendor/k8s.io/utils/buffer/ring_growing.go] and the
    loop [pop] of [client-go/tools/cache/shared_informer.go] that holds the notifications
    of a listener until its handler takes them.  The buffer refines a list, and the loop
    delivers in order without losing or repeating a notification. *)
From S2P Require Import Prelude.

Section Ring.
Context {T : Type}.

(** Go's [copy]. *)
Definition go_copy (dst src : list (option T)) : list (option T) := take (length dst) src ++ drop (length src) dst.

(** The slots without an element are nil.  The sizes are those of slices in memory and
    do not overflow (buffer/ring_growing.go:21-26). *)
Record RingGrowing := mkRing { data : list (option T); ring_n : nat; beg : nat; readable : nat }.

(** (buffer/ring_growing.go:29-34) *)
Definition NewRingGrowing (initialSize : nat) : RingGrowing := mkRing (replicate initialSize None) initialSize 0 0.

(** [None] is a panic; the inner option is the nil that is returned with false
    (buffer/ring_growing.go:37-51). *)
Definition ReadOne (r : RingGrowing) : option (RingGrowing * option T * bool) :=
  if readable r =? 0 then Some (r, None, false)
  else
    element ← data r !! beg r;
    Some (mkRing (<[beg r := None]> (data r)) (ring_n r) (if beg r =? ring_n r - 1 then 0 else S (beg r)) (readable r - 1), element, true).

(** The larger buffer, with the elements from its start (buffer/ring_growing.go:55-69 WriteOne). *)
Definition ring_grow (r : RingGrowing) : RingGrowing :=
  let newN := ring_n r * 2 in
  let newData := replicate newN None in
  let to := beg r + readable r in
  let newData :=
    if to <=? ring_n r then go_copy newData (take (to - beg r) (drop (beg r) (data r)))
    else
      let copied := length (drop (beg r) (data r)) in
      let newData := go_copy newData (drop (beg r) (data r)) in
      take copied newData ++ go_copy (drop copied newData) (take (to mod ring_n r) (data r)) in
  mkRing newData newN 0 (readable r).

(** An empty buffer without slots makes the remainder panic (buffer/ring_growing.go:54-72). *)
Definition WriteOne (r : RingGrowing) (x : T) : option RingGrowing :=
  let r := if readable r =? ring_n r then ring_grow r else r in
  if ring_n r =? 0 then None
  else Some (mkRing (<[(readable r + beg r) mod ring_n r := Some x]> (data r)) (ring_n r) (beg r) (S (readable r))).

(** ** The buffer holds a list *)

Record ring_holds (r : RingGrowing) (l : list T) : Prop := {
  rh_length : length (data r) = ring_n r;
  rh_beg : beg r < ring_n r;
  rh_readable : readable r = length l;
  rh_room : length l <= ring_n r;
  rh_slots : forall i x, l !! i = Some x -> data r !! ((beg r + i) mod ring_n r) = Some (Some x) }.

Lemma new_ring_holds n : 0 < n -> ring_holds (NewRingGrowing n) [].
Proof. intros Hn. split; cbn; [apply length_replicate|lia|done|lia|done]. Qed.

Lemma slot_eq a b n : a < n -> b <= n -> (a + b) mod n = if decide (a + b < n) then a + b else a + b - n.
Proof.
  intros Ha Hb. case_decide; [by apply Nat.mod_small|]. replace (a + b) with (a + b - n + 1 * n) at 1 by lia.
  rewrite Nat.Div0.mod_add. destruct (decide (a + b - n < n)); [by apply Nat.mod_small|]. lia.
Qed.

Lemma ReadOne_empty r : ring_holds r [] -> ReadOne r = Some (r, None, false).
Proof. intros [_ _ Hr _ _]. unfold ReadOne. by rewrite Hr. Qed.

Lemma ReadOne_holds r x l : ring_holds r (x :: l) -> ∃ r', ReadOne r = Some (r', Some x, true) ∧ ring_holds r' l.
Proof.
  intros [Hlen Hbeg Hr Hroom Hs]. unfold ReadOne. rewrite Hr. cbn [length] in *. cbn [Nat.eqb].
  pose proof (Hs 0 x eq_refl) as H0. rewrite slot_eq, decide_True in H0 by lia. rewrite Nat.add_0_r in H0. rewrite H0. bind_simpl.
  eexists. split; [done|]. split; cbn [data ring_n beg readable].
  - by rewrite length_insert.
  - destruct (Nat.eqb_spec (beg r) (ring_n r - 1)); lia.
  - lia.
  - lia.
  - intros i y Hi. assert (i < length l) by by eapply lookup_lt_Some. specialize (Hs (S i) y Hi).
    rewrite slot_eq in Hs by lia. destruct (Nat.eqb_spec (beg r) (ring_n r - 1)) as [E|E].
    + rewrite slot_eq by lia. rewrite decide_False in Hs by lia. rewrite decide_True by lia.
      rewrite list_lookup_insert_ne by lia. rewrite <- Hs. f_equal. lia.
    + rewrite slot_eq by lia. case_decide; case_decide; try lia; rewrite list_lookup_insert_ne by lia; rewrite <- Hs; f_equal; lia.
Qed.

Lemma go_copy_whole dst src : length src <= length dst -> go_copy dst src = src ++ drop (length src) dst.
Proof. intros H. unfold go_copy. by rewrite take_ge. Qed.

(** A full buffer is copied in the order in which it is read. *)
Lemma grow_data r l : ring_holds r l -> readable r = ring_n r ->
  ∃ rest, data (ring_grow r) = drop (beg r) (data r) ++ take (beg r) (data r) ++ rest ∧ length rest = ring_n r.
Proof.
  intros [Hlen Hbeg Hr Hroom _] Hfull. unfold ring_grow. cbn [data]. rewrite Hfull. destruct (Nat.leb_spec (beg r + ring_n r) (ring_n r)).
  - assert (beg r = 0) as -> by lia. rewrite drop_0. cbn [take app]. rewrite go_copy_whole by (rewrite length_take, length_replicate; lia).
    rewrite take_ge by lia. exists (drop (length (data r)) (replicate (ring_n r * 2) None)). split; [done|]. rewrite length_drop, length_replicate. lia.
  - rewrite (go_copy_whole (replicate _ _)) by (rewrite length_drop, length_replicate; lia). rewrite take_app_length, drop_app_length.
    replace ((beg r + ring_n r) mod ring_n r) with (beg r) by (rewrite slot_eq, decide_False by lia; lia).
    rewrite go_copy_whole by (rewrite length_take, length_drop, length_replicate, length_drop; lia).
    eexists. split; [done|]. rewrite !length_drop, length_replicate, length_take. lia.
Qed.

Lemma grow_holds r l : ring_holds r l -> readable r = ring_n r -> ring_holds (ring_grow r) l.
Proof.
  intros Hr Hfull. destruct (grow_data r l Hr Hfull) as (rest & Hdata & Hrest). destruct Hr as [Hlen Hbeg Hr Hroom Hs].
  split; [|cbn; lia|done|cbn; lia|].
  - rewrite Hdata, !length_app, length_drop, length_take, Hrest. cbn. lia.
  - intros i x Hi. assert (i < length l) by by eapply lookup_lt_Some. specialize (Hs i x Hi). rewrite Hdata. cbn [beg ring_n ring_grow Nat.add].
    rewrite Nat.mod_small by lia. rewrite slot_eq in Hs by lia. case_decide.
    + rewrite lookup_app_l by (rewrite length_drop; lia). by rewrite lookup_drop.
    + rewrite lookup_app_r by (rewrite length_drop; lia). rewrite length_drop, lookup_app_l by (rewrite length_take; lia).
      rewrite lookup_take_lt by lia. rewrite <- Hs. f_equal. lia.
Qed.

Lemma WriteOne_holds r l x : ring_holds r l -> ∃ r', WriteOne r x = Some r' ∧ ring_holds r' (l ++ [x]).
Proof.
  intros Hr0. unfold WriteOne. set (r1 := if readable r =? ring_n r then ring_grow r else r). assert (ring_holds r1 l ∧ length l < ring_n r1) as [Hr Hroom].
  { unfold r1. destruct (Nat.eqb_spec (readable r) (ring_n r)) as [E|E].
    - split; [by apply grow_holds|]. destruct Hr0 as [_ Hb Hr _ _]. cbn. lia.
    - split; [done|]. destruct Hr0 as [_ _ Hr Hroom _]. lia. }
  clearbody r1. destruct Hr as [Hlen Hbeg Hre _ Hs]. destruct (Nat.eqb_spec (ring_n r1) 0); [lia|]. eexists. split; [done|].
  assert (forall i, i <= length l -> (beg r1 + i) mod ring_n r1 < ring_n r1) as Hlt by (intros; apply Nat.mod_upper_bound; lia).
  split; cbn [data ring_n beg readable]; [by rewrite length_insert|done|rewrite length_app; cbn; lia|rewrite length_app; cbn; lia|].
  intros i y Hi. rewrite (Nat.add_comm (readable r1)), Hre. destruct (decide (i < length l)) as [Hl|Hl].
  - rewrite lookup_app_l in Hi by done. rewrite list_lookup_insert_ne; [by apply Hs|]. rewrite !slot_eq by lia. repeat case_decide; lia.
  - rewrite lookup_app_r in Hi by lia. apply list_lookup_singleton_Some in Hi as [Hi <-]. assert (i = length l) as -> by lia.
    rewrite list_lookup_insert_eq; [done|]. rewrite Hlen. by apply Hlt.
Qed.
End Ring.
Arguments RingGrowing : clear implicits.

(** ** The loop that delivers *)

Section Listener.
Context {T : Type}.

(** The variables of the loop: the notification that is offered to the handler and
    whether the case that offers it is enabled
    (tools/cache/shared_informer.go:605-606 pop). *)
Record pop_loop := mkPop { nextCh : bool; notification : option T; pendingNotifications : RingGrowing T }.

(** (tools/cache/shared_informer.go:582-595 newProcessListener) *)
Definition new_pop (bufferSize : nat) : pop_loop := mkPop false None (NewRingGrowing bufferSize).

(** The handler takes what is offered; [None] inside: the case is disabled
    (tools/cache/shared_informer.go:609-615 pop). *)
Definition pop_dispatch (p : pop_loop) : option (option (pop_loop * option T)) :=
  if nextCh p then
    '(r, n, ok) ← ReadOne (pendingNotifications p);
    Some (Some (mkPop ok n r, notification p))
  else Some None.

(** A notification arrives (tools/cache/shared_informer.go:616-626 pop). *)
Definition pop_receive (p : pop_loop) (x : T) : option pop_loop :=
  match notification p with
  | None => Some (mkPop true (Some x) (pendingNotifications p))
  | Some _ => r ← WriteOne (pendingNotifications p) x; Some (mkPop (nextCh p) (notification p) r)
  end.

(** What is waiting. *)
Definition pop_waiting (p : pop_loop) (l : list T) : Prop :=
  match notification p with
  | None => nextCh p = false ∧ l = [] ∧ ring_holds (pendingNotifications p) []
  | Some x => nextCh p = true ∧ ∃ l', l = x :: l' ∧ ring_holds (pendingNotifications p) l'
  end.

Lemma receive_waiting p l x : pop_waiting p l -> ∃ p', pop_receive p x = Some p' ∧ pop_waiting p' (l ++ [x]).
Proof.
  unfold pop_waiting, pop_receive. destruct (notification p) as [y|].
  - intros (Hn & l' & -> & Hr). destruct (WriteOne_holds _ _ x Hr) as (r' & -> & Hr'). eexists. split; [done|]. cbn. split; [done|]. by eexists.
  - intros (_ & -> & Hr). eexists. split; [done|]. cbn. split; [done|]. by eexists.
Qed.

Lemma dispatch_waiting p l : pop_waiting p l ->
  match l with
  | [] => pop_dispatch p = Some None
  | x :: l' => ∃ p', pop_dispatch p = Some (Some (p', Some x)) ∧ pop_waiting p' l'
  end.
Proof.
  unfold pop_waiting, pop_dispatch. destruct (notification p) as [x|].
  - intros (-> & l' & -> & Hr). destruct l' as [|y l'].
    + rewrite ReadOne_empty by done. bind_simpl. eexists. split; done.
    + destruct (ReadOne_holds _ _ _ Hr) as (r' & -> & Hr'). bind_simpl. eexists. split; [done|]. cbn. split; [done|]. by eexists.
  - by intros (-> & -> & _).
Qed.

(** Arrivals, and turns of the handler. *)
Inductive listener_event := Arrives (x : T) | Takes.

(** The deliveries of a history; a turn of the handler with nothing on offer waits. *)
Fixpoint listen (p : pop_loop) (es : list listener_event) : option (pop_loop * list (option T)) :=
  match es with
  | [] => Some (p, [])
  | Arrives x :: es => p ← pop_receive p x; listen p es
  | Takes :: es =>
      o ← pop_dispatch p;
      match o with
      | None => listen p es
      | Some (p, x) => '(p, out) ← listen p es; Some (p, x :: out)
      end
  end.

Definition arrivals (es : list listener_event) : list T := omap (fun e => match e with Arrives x => Some x | Takes => None end) es.

Lemma listen_waiting es : forall p l, pop_waiting p l -> ∃ p' out rest, listen p es = Some (p', Some <$> out) ∧ pop_waiting p' rest ∧ l ++ arrivals es = out ++ rest.
Proof.
  induction es as [|[x|] es IH]; intros p l Hl; cbn [listen arrivals omap list_omap].
  - exists p, [], l. split; [done|]. by rewrite app_nil_r.
  - destruct (receive_waiting p l x Hl) as (p1 & -> & H1). bind_simpl. destruct (IH p1 _ H1) as (p' & out & rest & E & Hw & Heq).
    exists p', out, rest. split; [done|]. split; [done|]. rewrite <- Heq, <- app_assoc. done.
  - pose proof (dispatch_waiting p l Hl) as Hd. destruct l as [|x l].
    + rewrite Hd. bind_simpl. by apply IH.
    + destruct Hd as (p1 & -> & H1). bind_simpl. destruct (IH p1 _ H1) as (p' & out & rest & -> & Hw & Heq). bind_simpl.
      exists p', (x :: out), rest. split; [done|]. split; [done|]. cbn. f_equal. exact Heq.
Qed.

(** C37.  A listener gets every notification once and in order: whatever the arrivals and
    the turns of its handler, the loop never panics, what was delivered and what still
    waits are together what has arrived, and as many further turns as notifications wait
    deliver the rest. *)
Theorem listener_delivers_in_order (bufferSize : nat) (es : list listener_event) : 0 < bufferSize ->
  ∃ p out rest, listen (new_pop bufferSize) es = Some (p, Some <$> out) ∧ arrivals es = out ++ rest ∧
    ∃ p', listen p (replicate (length rest) Takes) = Some (p', Some <$> rest).
Proof.
  intros Hb. destruct (listen_waiting es (new_pop bufferSize) []) as (p & out & rest & E & Hw & Heq).
  { cbn. split; [done|]. split; [done|]. by apply new_ring_holds. }
  exists p, out, rest. split; [done|]. split; [done|]. clear E Heq. revert p Hw. induction rest as [|x rest IH]; intros p Hw; [by exists p|].
  destruct (dispatch_waiting p _ Hw) as (p1 & E & H1). cbn [length replicate listen]. rewrite E. bind_simpl. destruct (IH p1 H1) as (p' & ->). by exists p'.
Qed.
End Listener.

(** A buffer of one slot that grows. *)
Lemma listener_delivers_in_order_witness : ∃ p out rest,
  listen (new_pop 1) [Arrives 1; Arrives 2; Arrives 3; Takes; Arrives 4; Arrives 5; Takes] = Some (p, Some <$> out) ∧ [1; 2; 3; 4; 5] = out ++ rest.
Proof.
  destruct (listener_delivers_in_order 1 [Arrives 1; Arrives 2; Arrives 3; Takes; Arrives 4; Arrives 5; Takes]) as (p & out & rest & E & H & _); [lia|].
  exists p, out, rest. split; [exact E|exact H].
Defined.
