(* ===== verification/IndexedStore.v ===== *)
(** * The store of an informer with its indices

    Models [client-go/tools/cache/thread_safe_store.go]: a map of objects with indices that
    are updated incrementally.  The theorem shows that they are always those of a full
    computation, so a query returns exactly the matching objects.  The functions of the
    indexers are parameters, and so is the order in which a map is visited. *)
From S2P Require Import Prelude.

(** An index maps a value to the keys of the objects that have it; the functions compute
    the values of an object ([index.go]). *)
Abbreviation IndexFunc obj := (obj -> result (list string)).
Abbreviation Index := (gmap string (gset string)).
Abbreviation Indexers obj := (gmap string (IndexFunc obj)).
Abbreviation Indices := (gmap string Index).

Section Store.
Context {obj : Type} (range : forall A : Type, gmap string A -> list (string * A)).

(** (tools/cache/thread_safe_store.go:58-66) *)
Record threadSafeMap := mkStore { store_items : gmap string obj; indexers : Indexers obj; indices : Indices }.

(** (tools/cache/thread_safe_store.go:305-311) *)
Definition NewThreadSafeStore (indexers : Indexers obj) (indices : Indices) : threadSafeMap := mkStore ∅ indexers indices.

(** (tools/cache/thread_safe_store.go:267-274 updateIndices) *)
Definition insert_values (key : string) (indexValues : list string) (index : Index) : Index :=
  foldl (fun index v => <[v := {[key]} ∪ default ∅ (index !! v)]> index) index indexValues.

(** Emptied sets stay (tools/cache/thread_safe_store.go:291-296 deleteFromIndices). *)
Definition remove_values (key : string) (indexValues : list string) (index : Index) : Index :=
  foldl (fun index v => match index !! v with Some set => <[v := set ∖ {[key]}]> index | None => index end) index indexValues.

(** An indexer that fails panics (tools/cache/thread_safe_store.go:280-298). *)
Definition deleteFromIndices (fs : Indexers obj) (ix : Indices) (o : obj) (key : string) : option Indices :=
  foldl (fun acc e =>
    ix ← acc;
    match e.2 o with
    | Err _ => None
    | Ok indexValues => Some (match ix !! e.1 with None => ix | Some index => <[e.1 := remove_values key indexValues index]> ix end)
    end) (Some ix) (range _ fs).

(** (tools/cache/thread_safe_store.go:256-275 updateIndices) *)
Definition insert_into_indices (fs : Indexers obj) (ix : Indices) (o : obj) (key : string) : option Indices :=
  foldl (fun acc e =>
    ix ← acc;
    match e.2 o with
    | Err _ => None
    | Ok indexValues => Some (<[e.1 := insert_values key indexValues (default ∅ (ix !! e.1))]> ix)
    end) (Some ix) (range _ fs).

(** (tools/cache/thread_safe_store.go:251-276) *)
Definition updateIndices (fs : Indexers obj) (ix : Indices) (oldObj : option obj) (newObj : obj) (key : string) : option Indices :=
  ix ← match oldObj with Some old => deleteFromIndices fs ix old key | None => Some ix end;
  insert_into_indices fs ix newObj key.

(** (tools/cache/thread_safe_store.go:68-74 Add) *)
Definition ts_Add (c : threadSafeMap) (key : string) (o : obj) : option threadSafeMap :=
  ix ← updateIndices (indexers c) (indices c) (store_items c !! key) o key;
  Some (mkStore (<[key := o]> (store_items c)) (indexers c) ix).

(** (tools/cache/thread_safe_store.go:76-82 Update) *)
Definition ts_Update (c : threadSafeMap) (key : string) (o : obj) : option threadSafeMap :=
  ix ← updateIndices (indexers c) (indices c) (store_items c !! key) o key;
  Some (mkStore (<[key := o]> (store_items c)) (indexers c) ix).

(** (tools/cache/thread_safe_store.go:84-91 Delete) *)
Definition ts_Delete (c : threadSafeMap) (key : string) : option threadSafeMap :=
  match store_items c !! key with
  | Some o => ix ← deleteFromIndices (indexers c) (indices c) o key; Some (mkStore (delete key (store_items c)) (indexers c) ix)
  | None => Some c
  end.

(** (tools/cache/thread_safe_store.go:93-98 Get) *)
Definition ts_Get (c : threadSafeMap) (key : string) : option obj := store_items c !! key.

(** (tools/cache/thread_safe_store.go:100-108 List) *)
Definition ts_List (c : threadSafeMap) : list obj := (range _ (store_items c)).*2.

(** (tools/cache/thread_safe_store.go:112-120 ListKeys) *)
Definition ts_ListKeys (c : threadSafeMap) : list string := (range _ (store_items c)).*1.

(** (tools/cache/thread_safe_store.go:122-132 Replace) *)
Definition ts_Replace (c : threadSafeMap) (items : gmap string obj) : option threadSafeMap :=
  ix ← foldl (fun acc e => ix ← acc; updateIndices (indexers c) ix None e.2 e.1) (Some ∅) (range _ items);
  Some (mkStore items (indexers c) ix).

(** Go's visit of a set of keys. *)
Definition range_set (s : gset string) : list string := (range unit (gset_to_gmap tt s)).*1.

(** The objects of some keys; a nil for a key without an object.
    (tools/cache/thread_safe_store.go:167-170 Index) *)
Definition objects_of (c : threadSafeMap) (s : gset string) : list (option obj) := (fun key => store_items c !! key) <$> range_set s.

(** (tools/cache/thread_safe_store.go:136-172 Index) *)
Definition ts_Index (c : threadSafeMap) (indexName : string) (o : obj) : result (list (option obj)) :=
  match indexers c !! indexName with
  | None => Err "Index does not exist"
  | Some indexFunc =>
      match indexFunc o with
      | Err e => Err e
      | Ok indexKeys =>
          let index := default ∅ (indices c !! indexName) in
          let returnKeySet := match indexKeys with
            | [indexKey] => default ∅ (index !! indexKey)
            | _ => foldl (fun s indexKey => s ∪ default ∅ (index !! indexKey)) ∅ indexKeys
            end in
          Ok (objects_of c returnKeySet)
      end
  end.

(** (tools/cache/thread_safe_store.go:175-193 ByIndex) *)
Definition ts_ByIndex (c : threadSafeMap) (indexName indexKey : string) : result (list (option obj)) :=
  match indexers c !! indexName with
  | None => Err "Index does not exist"
  | Some _ => Ok (objects_of c (default ∅ (default ∅ (indices c !! indexName) !! indexKey)))
  end.

(** The keys are sorted by the set (tools/cache/thread_safe_store.go:197-210 IndexKeys). *)
Definition ts_IndexKeys (sorted : gset string -> list string) (c : threadSafeMap) (indexName indexKey : string) : result (list string) :=
  match indexers c !! indexName with
  | None => Err "Index does not exist"
  | Some _ => Ok (sorted (default ∅ (default ∅ (indices c !! indexName) !! indexKey)))
  end.

(** Values whose set has become empty are listed too
    (tools/cache/thread_safe_store.go:212-222 ListIndexFuncValues). *)
Definition ts_ListIndexFuncValues (c : threadSafeMap) (indexName : string) : list string := (range _ (default ∅ (indices c !! indexName))).*1.

(** (tools/cache/thread_safe_store.go:228-247 AddIndexers) *)
Definition ts_AddIndexers (c : threadSafeMap) (newIndexers : Indexers obj) : threadSafeMap * option string :=
  if Nat.ltb 0 (size (store_items c)) then (c, Some "cannot add indexers to running index"%string)
  else if bool_decide (dom (indexers c) ∩ dom newIndexers = (∅ : gset string)) then (mkStore (store_items c) (newIndexers ∪ indexers c) (indices c), None)
  else (c, Some "indexer conflict"%string).

(** ** The indices are those of a full computation *)

Hypothesis Hrange : forall A (m : gmap string A), range A m ≡ₚ map_to_list m.

(** The keys under a value of an index. *)
Definition keys_at (ix : Indices) (name v : string) : gset string := default ∅ (default ∅ (ix !! name) !! v).

Definition has_value (f : IndexFunc obj) (o : obj) (v : string) : Prop := ∃ vs, f o = Ok vs ∧ v ∈ vs.

(** No indexer fails. *)
Definition total_indexers (fs : Indexers obj) : Prop := forall name f o, fs !! name = Some f -> is_ok (f o) = true.

Definition indices_ok (fs : Indexers obj) (items : gmap string obj) (ix : Indices) : Prop :=
  forall name f v key, fs !! name = Some f -> (key ∈ keys_at ix name v <-> ∃ o, items !! key = Some o ∧ has_value f o v).

Lemma insert_values_at key vs : forall (index : Index) v,
  default ∅ (insert_values key vs index !! v) = (if decide (v ∈ vs) then {[key]} else ∅) ∪ default ∅ (index !! v).
Proof.
  induction vs as [|w vs IH]; intros index v; unfold insert_values in *; cbn [foldl].
  - rewrite decide_False by apply not_elem_of_nil. set_solver.
  - rewrite IH. destruct (decide (v = w)) as [->|Hne].
    + rewrite lookup_insert_eq, (decide_True (P := w ∈ w :: vs)) by constructor. cbn [default]. case_decide; set_solver.
    + rewrite lookup_insert_ne by done. rewrite (decide_ext (v ∈ w :: vs) (v ∈ vs)); [done|]. rewrite elem_of_cons. naive_solver.
Qed.

Lemma remove_values_at key vs : forall (index : Index) v,
  default ∅ (remove_values key vs index !! v) = default ∅ (index !! v) ∖ (if decide (v ∈ vs) then {[key]} else ∅).
Proof.
  induction vs as [|w vs IH]; intros index v; unfold remove_values in *; cbn [foldl].
  - rewrite decide_False by apply not_elem_of_nil. set_solver.
  - rewrite IH. destruct (decide (v = w)) as [->|Hne].
    + rewrite (decide_True (P := w ∈ w :: vs)) by constructor. destruct (index !! w) as [s|] eqn:E; [rewrite lookup_insert_eq|rewrite E]; cbn [default]; case_decide; set_solver.
    + rewrite (decide_ext (v ∈ w :: vs) (v ∈ vs)) by (rewrite elem_of_cons; naive_solver).
      destruct (index !! w); [by rewrite lookup_insert_ne|done].
Qed.

Definition values_of (f : IndexFunc obj) (o : obj) : list string := match f o with Ok vs => vs | Err _ => [] end.

(** A loop over the indexers that changes each index on its own. *)
Lemma fold_indexers (step : Indices -> string -> list string -> Indices) (F : list string -> string -> gset string -> gset string) o fs ix : total_indexers fs ->
  (forall ix name vs v, keys_at (step ix name vs) name v = F vs v (keys_at ix name v)) ->
  (forall ix name vs name' v, name' <> name -> keys_at (step ix name vs) name' v = keys_at ix name' v) ->
  ∃ ix', foldl (fun acc e => ix ← acc; match e.2 o with Err _ => None | Ok vs => Some (step ix e.1 vs) end) (Some ix) (range _ fs) = Some ix' ∧
    forall name v, keys_at ix' name v = match fs !! name with Some f => F (values_of f o) v (keys_at ix name v) | None => keys_at ix name v end.
Proof.
  intros Ht Hname Hother. assert (forall e, e ∈ range _ fs -> is_ok (e.2 o) = true) as Hok.
  { intros [name f]. rewrite Hrange, elem_of_map_to_list. apply Ht. }
  assert (NoDup (range _ fs).*1) as Hnd by (rewrite Hrange; apply NoDup_fst_map_to_list).
  assert (forall name f, fs !! name = Some f <-> (name, f) ∈ range _ fs) as Hin by (intros; by rewrite Hrange, elem_of_map_to_list).
  assert (∃ ix', foldl (fun acc e => ix ← acc; match e.2 o with Err _ => None | Ok vs => Some (step ix e.1 vs) end) (Some ix) (range _ fs) = Some ix' ∧
    (forall name f v, (name, f) ∈ range _ fs -> keys_at ix' name v = F (values_of f o) v (keys_at ix name v)) ∧
    (forall name v, name ∉ (range _ fs).*1 -> keys_at ix' name v = keys_at ix name v)) as (ix' & E & H1 & H2).
  { clear Hin Ht. revert ix Hok Hnd. generalize (range _ fs). intros l. induction l as [|[name f] l IH]; intros ix Hok Hnd.
    - exists ix. split_and!; [done| |done]. by intros ? ? ? ?%elem_of_nil.
    - cbn [foldl fst snd] in *. bind_simpl. apply NoDup_cons in Hnd as [Hn Hnd]. pose proof (Hok (name, f) ltac:(left)) as Hf. cbn [snd] in Hf.
      destruct (f o) as [vs|] eqn:Ef; [|done]. destruct (IH (step ix name vs)) as (ix' & E & H1 & H2); [intros e He; apply Hok; by right|done|].
      exists ix'. split; [done|]. split.
      + intros name' f' v [[= -> ->]|Hin]%elem_of_cons; [rewrite H2, Hname by done; unfold values_of; by rewrite Ef|]. rewrite (H1 name' f' v Hin), Hother; [done|].
        intros ->. apply Hn. by apply (list_elem_of_fmap_2 fst _ (name, f')).
      + intros name' v [Hne Hni]%not_elem_of_cons. rewrite H2 by done. by apply Hother. }
  exists ix'. split; [exact E|]. intros name v. destruct (fs !! name) as [f|] eqn:Ef.
  - by apply H1, Hin.
  - rewrite H2; [done|]. intros ([name' f] & -> & Hi)%list_elem_of_fmap. apply Hin in Hi. cbn in Ef. congruence.
Qed.

Lemma insert_into_indices_at fs ix o key : total_indexers fs -> ∃ ix', insert_into_indices fs ix o key = Some ix' ∧
  forall name v, keys_at ix' name v = match fs !! name with Some f => (if decide (v ∈ values_of f o) then {[key]} else ∅) ∪ keys_at ix name v | None => keys_at ix name v end.
Proof.
  intros Ht. destruct (fold_indexers (fun ix name vs => <[name := insert_values key vs (default ∅ (ix !! name))]> ix)
    (fun (vs : list string) (v : string) (s : gset string) => (if decide (v ∈ vs) then {[key]} else ∅) ∪ s) o fs ix Ht) as (ix' & E & H).
  - intros. unfold keys_at. rewrite lookup_insert_eq. apply insert_values_at.
  - intros. unfold keys_at. by rewrite lookup_insert_ne.
  - by exists ix'.
Qed.

Lemma deleteFromIndices_at fs ix o key : total_indexers fs -> ∃ ix', deleteFromIndices fs ix o key = Some ix' ∧
  forall name v, keys_at ix' name v = match fs !! name with Some f => keys_at ix name v ∖ (if decide (v ∈ values_of f o) then {[key]} else ∅) | None => keys_at ix name v end.
Proof.
  intros Ht. destruct (fold_indexers (fun ix name vs => match ix !! name with None => ix | Some index => <[name := remove_values key vs index]> ix end)
    (fun (vs : list string) (v : string) (s : gset string) => s ∖ (if decide (v ∈ vs) then {[key]} else ∅)) o fs ix Ht) as (ix' & E & H).
  - intros ix1 name vs v. unfold keys_at. destruct (ix1 !! name) as [index|] eqn:Ei; [rewrite lookup_insert_eq; cbn [default]; apply remove_values_at|].
    rewrite Ei. cbn [default]. rewrite lookup_empty. cbn [default]. set_solver.
  - intros ix1 name vs name' v Hne. unfold keys_at. destruct (ix1 !! name); [by rewrite lookup_insert_ne|done].
  - by exists ix'.
Qed.

Lemma has_value_in f o v : has_value f o v <-> v ∈ values_of f o.
Proof.
  unfold has_value, values_of. destruct (f o) as [vs|]; split.
  - by intros (? & [= <-] & H).
  - intros H. by exists vs.
  - by intros (? & ? & _).
  - by intros ?%elem_of_nil.
Qed.

Lemma deleteFromIndices_ok fs items ix o key : total_indexers fs -> indices_ok fs items ix -> items !! key = Some o ->
  ∃ ix', deleteFromIndices fs ix o key = Some ix' ∧ indices_ok fs (delete key items) ix'.
Proof.
  intros Ht Hok Hold. destruct (deleteFromIndices_at fs ix o key Ht) as (ix1 & E & H1). exists ix1. split; [done|]. intros name f v key' Hf. rewrite H1, Hf.
  specialize (Hok name f v key' Hf). setoid_rewrite lookup_delete_Some. rewrite elem_of_difference, Hok. split.
  - intros [(o' & Ho' & Hv) Hn]. exists o'. split; [split; [|done]|done]. intros <-. apply Hn. rewrite Hold in Ho'. injection Ho' as <-.
    rewrite decide_True by by apply has_value_in. by apply elem_of_singleton.
  - intros (o' & (Hne & Ho') & Hv). split; [by exists o'|]. case_decide; set_solver.
Qed.

Lemma updateIndices_ok fs items ix o key : total_indexers fs -> indices_ok fs items ix ->
  ∃ ix', updateIndices fs ix (items !! key) o key = Some ix' ∧ indices_ok fs (<[key := o]> items) ix'.
Proof.
  intros Ht Hok. unfold updateIndices.
  assert (∃ ix1, match items !! key with Some old => deleteFromIndices fs ix old key | None => Some ix end = Some ix1 ∧ indices_ok fs (delete key items) ix1) as (ix1 & -> & Hok1).
  { destruct (items !! key) as [old|] eqn:Hold; [|exists ix; by rewrite delete_id].
    by apply deleteFromIndices_ok. }
  bind_simpl. destruct (insert_into_indices_at fs ix1 o key Ht) as (ix' & -> & H'). exists ix'. split; [done|]. intros name f v key' Hf. rewrite H', Hf.
  rewrite elem_of_union, (Hok1 name f v key' Hf). setoid_rewrite lookup_delete_Some. setoid_rewrite lookup_insert_Some. split.
  - intros [Hin|(o' & (Hne & Ho') & Hv)]; [|exists o'; split; [by right|done]]. case_decide as Hv; [|set_solver]. apply elem_of_singleton in Hin as ->.
    exists o. split; [by left|by apply has_value_in].
  - intros (o' & [[<- <-]|[Hne Ho']] & Hv); [left|right; by exists o']. rewrite decide_True by by apply has_value_in. by apply elem_of_singleton.
Qed.

Lemma fold_update_ok fs l : total_indexers fs -> forall items ix, NoDup l.*1 -> (forall key, key ∈ l.*1 -> items !! key = None) -> indices_ok fs items ix ->
  ∃ ix', foldl (fun acc e => ix ← acc; updateIndices fs ix None e.2 e.1) (Some ix) l = Some ix' ∧
    indices_ok fs (list_to_map l ∪ items) ix'.
Proof.
  intros Ht. induction l as [|[key o] l IH]; intros items ix Hnd Hnew Hok; cbn [foldl fmap list_fmap fst snd] in *.
  - exists ix. split; [done|]. cbn. by rewrite map_empty_union.
  - apply NoDup_cons in Hnd as [Hk Hnd]. bind_simpl. destruct (updateIndices_ok fs items ix o key Ht Hok) as (ix1 & E1 & Hok1).
    rewrite Hnew in E1 by left. rewrite E1. destruct (IH (<[key := o]> items) ix1) as (ix' & E & Hok'); [done| |done|].
    + intros key' Hk'. rewrite lookup_insert_ne by (intros ->; done). apply Hnew. by right.
    + exists ix'. split; [done|]. cbn [list_to_map foldr fst snd uncurry]. by rewrite <- insert_union_l, insert_union_r by by apply not_elem_of_list_to_map.
Qed.

Lemma range_list_to_map (items : gmap string obj) : list_to_map (range _ items) = items.
Proof. rewrite (list_to_map_proper (range _ items) (map_to_list items)); [apply list_to_map_to_list|rewrite Hrange; apply NoDup_fst_map_to_list|apply Hrange]. Qed.

(** ** The store as a map *)

(** What may be called on the store. *)
Inductive store_op :=
  | StoreAdd (key : string) (o : obj) | StoreUpdate (key : string) (o : obj) | StoreDelete (key : string)
  | StoreReplace (items : gmap string obj) | StoreAddIndexers (fs : Indexers obj).

Definition store_step (c : threadSafeMap) (op : store_op) : option threadSafeMap :=
  match op with
  | StoreAdd key o => ts_Add c key o
  | StoreUpdate key o => ts_Update c key o
  | StoreDelete key => ts_Delete c key
  | StoreReplace items => ts_Replace c items
  | StoreAddIndexers fs => Some (ts_AddIndexers c fs).1
  end.

Definition map_step (m : gmap string obj) (op : store_op) : gmap string obj :=
  match op with
  | StoreAdd key o | StoreUpdate key o => <[key := o]> m
  | StoreDelete key => delete key m
  | StoreReplace items => items
  | StoreAddIndexers _ => m
  end.

Definition total_op (op : store_op) : Prop := match op with StoreAddIndexers fs => total_indexers fs | _ => True end.

(** Only registered indexers have indices. *)
Record store_ok (c : threadSafeMap) : Prop := {
  st_total : total_indexers (indexers c);
  st_known : forall name, is_Some (indices c !! name) -> is_Some (indexers c !! name);
  st_indices : indices_ok (indexers c) (store_items c) (indices c) }.

Lemma fold_keeps_known (g : Indices -> string * IndexFunc obj -> option Indices) (fs : Indexers obj) ix ix' l :
  (forall ix e ix', g ix e = Some ix' -> forall name, is_Some (ix' !! name) -> is_Some (ix !! name) ∨ name = e.1) ->
  (forall e, e ∈ l -> is_Some (fs !! e.1)) -> foldl (fun acc e => ix ← acc; g ix e) (Some ix) l = Some ix' ->
  (forall name, is_Some (ix !! name) -> is_Some (fs !! name)) -> forall name, is_Some (ix' !! name) -> is_Some (fs !! name).
Proof.
  intros Hg. revert ix. induction l as [|e l IH]; intros ix Hl; cbn [foldl]; [by intros [= <-]|]. bind_simpl. destruct (g ix e) as [ix1|] eqn:E.
  - intros Hf Hk. apply (IH ix1); [intros e' He'; apply Hl; by right|done|]. intros name Hn. destruct (Hg ix e ix1 E name Hn) as [H| ->]; [by apply Hk|apply Hl; left].
  - intros Hf. exfalso. clear -Hf. induction l as [|e' l IHl]; [done|]. apply IHl. exact Hf.
Qed.

Lemma range_known (fs : Indexers obj) e : e ∈ range _ fs -> is_Some (fs !! e.1).
Proof. destruct e as [name f]. rewrite Hrange, elem_of_map_to_list. by eexists. Qed.

Lemma insert_into_indices_known fs ix o key ix' : insert_into_indices fs ix o key = Some ix' ->
  (forall name, is_Some (ix !! name) -> is_Some (fs !! name)) -> forall name, is_Some (ix' !! name) -> is_Some (fs !! name).
Proof.
  apply fold_keeps_known; [|apply range_known]. intros ix1 e ix2. destruct (e.2 o); [|done]. intros [= <-] name [i Hi].
  destruct (decide (name = e.1)) as [->|Hne]; [by right|left]. rewrite lookup_insert_ne in Hi by done. by eexists.
Qed.

Lemma deleteFromIndices_known fs ix o key ix' : deleteFromIndices fs ix o key = Some ix' ->
  (forall name, is_Some (ix !! name) -> is_Some (fs !! name)) -> forall name, is_Some (ix' !! name) -> is_Some (fs !! name).
Proof.
  apply fold_keeps_known; [|apply range_known]. intros ix1 e ix2. destruct (e.2 o); [|done]. intros [= <-] name [i Hi].
  destruct (ix1 !! e.1) eqn:E; [|left; by eexists]. destruct (decide (name = e.1)) as [->|Hne]; [by right|left]. rewrite lookup_insert_ne in Hi by done. by eexists.
Qed.

Lemma updateIndices_known fs ix old o key ix' : updateIndices fs ix old o key = Some ix' ->
  (forall name, is_Some (ix !! name) -> is_Some (fs !! name)) -> forall name, is_Some (ix' !! name) -> is_Some (fs !! name).
Proof.
  unfold updateIndices. intros Hu Hk. destruct (match old with Some _ => _ | None => _ end) as [ix1|] eqn:E; [|done]. bind_simpl in Hu.
  apply (insert_into_indices_known _ _ _ _ _ Hu). destruct old as [o'|]; [by apply (deleteFromIndices_known _ _ _ _ _ E)|by injection E as <-].
Qed.

Lemma store_put_ok c key o : store_ok c -> ∃ c', ts_Add c key o = Some c' ∧ store_ok c' ∧ store_items c' = <[key := o]> (store_items c) ∧ indexers c' = indexers c.
Proof.
  intros [Ht Hk Hi]. unfold ts_Add. destruct (updateIndices_ok _ _ _ o key Ht Hi) as (ix' & E & Hi'). rewrite E. bind_simpl. eexists. split; [done|].
  split; [|done]. split; [done| |done]. by apply (updateIndices_known _ _ _ _ _ _ E).
Qed.

Lemma store_delete_ok c key : store_ok c -> ∃ c', ts_Delete c key = Some c' ∧ store_ok c' ∧ store_items c' = delete key (store_items c) ∧ indexers c' = indexers c.
Proof.
  intros [Ht Hk Hi]. unfold ts_Delete. destruct (store_items c !! key) as [o|] eqn:Ho.
  - destruct (deleteFromIndices_ok _ _ _ o key Ht Hi Ho) as (ix' & E & Hi'). rewrite E. bind_simpl. eexists. split; [done|]. split; [|done].
    split; [done| |done]. by apply (deleteFromIndices_known _ _ _ _ _ E).
  - exists c. split_and!; [done|done|by rewrite delete_id|done].
Qed.

Lemma store_replace_ok c items : store_ok c -> ∃ c', ts_Replace c items = Some c' ∧ store_ok c' ∧ store_items c' = items.
Proof.
  intros [Ht Hk Hi]. unfold ts_Replace. destruct (fold_update_ok (indexers c) (range _ items) Ht ∅ ∅) as (ix' & E & Hi').
  - rewrite Hrange. apply NoDup_fst_map_to_list.
  - intros. apply lookup_empty.
  - intros name f v key Hf. unfold keys_at. rewrite lookup_empty. cbn [default]. rewrite lookup_empty. cbn [default]. split; [set_solver|].
    intros (o & Ho & _). by rewrite lookup_empty in Ho.
  - rewrite E. bind_simpl. eexists. split; [done|]. split; [|done]. rewrite map_union_empty, range_list_to_map in Hi'. split; [done| |done].
    cbn [indices indexers]. clear Hi Hi' Hk. assert (forall name, is_Some ((∅ : Indices) !! name) -> is_Some (indexers c !! name)) as H by (intros name [? Hx]; by rewrite lookup_empty in Hx).
    revert E H. generalize (∅ : Indices). generalize (range _ items). intros l. induction l as [|e l IH]; intros ix; cbn [foldl]; [by intros [= <-]|]. bind_simpl.
    destruct (updateIndices (indexers c) ix None e.2 e.1) as [ix1|] eqn:Eu; [|intros Hf; exfalso; clear -Hf; induction l as [|e' l IHl]; [done|by apply IHl]].
    intros Hf H. apply (IH ix1 Hf). by apply (updateIndices_known _ _ _ _ _ _ Eu).
Qed.

Lemma store_add_indexers_ok c fs : store_ok c -> total_indexers fs -> let c' := (ts_AddIndexers c fs).1 in store_ok c' ∧ store_items c' = store_items c.
Proof.
  intros [Ht Hk Hi] Hfs. unfold ts_AddIndexers. destruct (Nat.ltb_spec 0 (size (store_items c))); [done|]. case_bool_decide as Hd; [|done]. split; [|done].
  assert (store_items c = ∅) as He by (apply map_size_empty_inv; lia).
  split; cbn [fst indexers indices store_items].
  - intros name f o [Hf|[_ Hf]]%lookup_union_Some_raw; [by eapply Hfs|by eapply Ht].
  - intros name Hn. apply lookup_union_is_Some. right. by apply Hk.
  - intros name f v key Hf. rewrite He. apply lookup_union_Some_raw in Hf as [Hf|[_ Hf]].
    + assert (indices c !! name = None) as Hnone.
      { destruct (indices c !! name) eqn:E; [|done]. destruct (Hk name) as [f' Hf']; [by eexists|]. exfalso.
        assert (name ∈ dom (indexers c) ∩ dom fs) as Hin by (apply elem_of_intersection; split; apply elem_of_dom; by eexists). set_solver. }
      unfold keys_at. rewrite Hnone. cbn [default]. rewrite lookup_empty. cbn [default]. split; [set_solver|]. intros (o & Ho & _). by rewrite lookup_empty in Ho.
    + rewrite (Hi name f v key Hf), He. done.
Qed.

Lemma store_step_ok c op : store_ok c -> total_op op -> ∃ c', store_step c op = Some c' ∧ store_ok c' ∧ store_items c' = map_step (store_items c) op.
Proof.
  intros Hc Hop. destruct op as [key o|key o|key|items|fs]; cbn [store_step map_step].
  - destruct (store_put_ok c key o Hc) as (c' & H1 & H2 & H3 & _). by exists c'.
  - destruct (store_put_ok c key o Hc) as (c' & H1 & H2 & H3 & _). by exists c'.
  - destruct (store_delete_ok c key Hc) as (c' & H1 & H2 & H3 & _). by exists c'.
  - by apply store_replace_ok.
  - destruct (store_add_indexers_ok c fs Hc Hop). by eexists.
Qed.

Definition run_store (c : threadSafeMap) (ops : list store_op) : option threadSafeMap := foldl (fun acc op => c ← acc; store_step c op) (Some c) ops.

Lemma run_store_ok ops : forall c, store_ok c -> Forall total_op ops ->
  ∃ c', run_store c ops = Some c' ∧ store_ok c' ∧ store_items c' = foldl map_step (store_items c) ops.
Proof.
  induction ops as [|op ops IH]; intros c Hc Hops; [by exists c|]. apply Forall_cons in Hops as [Hop Hops].
  destruct (store_step_ok c op Hc Hop) as (c1 & E & Hc1 & Hm). unfold run_store in *. cbn [foldl]. bind_simpl. rewrite E, <- Hm. by apply IH.
Qed.

Lemma new_store_ok fs : total_indexers fs -> store_ok (NewThreadSafeStore fs ∅).
Proof.
  intros Ht. split; [done| |].
  - cbn. intros name [i Hi]. by rewrite lookup_empty in Hi.
  - intros name f v key Hf. cbn [indices store_items NewThreadSafeStore]. unfold keys_at. rewrite lookup_empty. cbn [default]. rewrite lookup_empty. cbn [default].
    split; [set_solver|]. intros (o & Ho & _). by rewrite lookup_empty in Ho.
Qed.

(** The objects of a map that satisfy a condition. *)
Definition matching (P : obj -> bool) (items : gmap string obj) : list (option obj) := (fun kv => Some kv.2) <$> filter (fun kv => P kv.2 = true) (map_to_list items).

Lemma range_set_elements s : range_set s ≡ₚ elements s.
Proof.
  unfold range_set. rewrite Hrange. apply NoDup_Permutation; [apply NoDup_fst_map_to_list|apply NoDup_elements|]. intros key.
  rewrite elem_of_elements, list_elem_of_fmap. split.
  - intros ([k []] & -> & Hk). apply elem_of_map_to_list, lookup_gset_to_gmap_Some in Hk. by destruct Hk.
  - intros Hk. exists (key, tt). split; [done|]. by apply elem_of_map_to_list, lookup_gset_to_gmap_Some.
Qed.

Lemma NoDup_fst_filter (P : obj -> bool) (l : list (string * obj)) : NoDup l.*1 -> NoDup (filter (fun kv => P kv.2 = true) l).*1.
Proof.
  induction l as [|[k o] l IH]; [done|]. cbn [fmap list_fmap fst]. intros [Hk Hnd]%NoDup_cons. rewrite filter_cons. case_decide; [|by apply IH].
  cbn [fmap list_fmap fst]. apply NoDup_cons. split; [|by apply IH]. intros (kv & -> & [_ Hin]%list_elem_of_filter)%list_elem_of_fmap. apply Hk.
  by apply list_elem_of_fmap_2.
Qed.

Lemma objects_matching c s P : (forall key, key ∈ s <-> ∃ o, store_items c !! key = Some o ∧ P o = true) -> objects_of c s ≡ₚ matching P (store_items c).
Proof.
  intros Hs. unfold objects_of, matching. rewrite range_set_elements.
  assert (elements s ≡ₚ (filter (fun kv => P kv.2 = true) (map_to_list (store_items c))).*1) as Hp.
  { apply NoDup_Permutation; [apply NoDup_elements| |].
    - apply NoDup_fst_filter, NoDup_fst_map_to_list.
    - intros key. rewrite elem_of_elements, Hs, list_elem_of_fmap. split.
      + intros (o & Ho & HP). exists (key, o). split; [done|]. apply list_elem_of_filter. split; [done|]. by apply elem_of_map_to_list.
      + intros ([k o] & -> & [HP Hin]%list_elem_of_filter). apply elem_of_map_to_list in Hin. by exists o. }
  rewrite Hp, <- list_fmap_compose. erewrite list_fmap_ext; [done|]. intros i [k o] Hi%list_elem_of_lookup_2. cbn.
  apply list_elem_of_filter in Hi as [_ Hi]. by apply elem_of_map_to_list in Hi.
Qed.

(** C27.  Queries of the store are exact: after any history of calls that starts with an
    empty store, in which no indexer fails, no call panics, the objects are those of the
    map that the calls describe, and each query by an index returns exactly the objects
    that have the value (or share one with the given object), each once; a query of an
    unknown index is an error. *)
Theorem store_queries_are_exact fs ops : total_indexers fs -> Forall total_op ops ->
  ∃ c, run_store (NewThreadSafeStore fs ∅) ops = Some c ∧ store_items c = foldl map_step ∅ ops ∧
    forall indexName, match indexers c !! indexName with
      | None => (forall v, is_ok (ts_ByIndex c indexName v) = false) ∧ (forall o, is_ok (ts_Index c indexName o) = false)
      | Some f =>
          (forall v, ∃ l, ts_ByIndex c indexName v = Ok l ∧ l ≡ₚ matching (fun o => bool_decide (v ∈ values_of f o)) (store_items c)) ∧
          (forall o, ∃ l, ts_Index c indexName o = Ok l ∧
             l ≡ₚ matching (fun o' => bool_decide (Exists (fun v => v ∈ values_of f o') (values_of f o))) (store_items c))
      end.
Proof.
  intros Hfs Hops. destruct (run_store_ok ops _ (new_store_ok fs Hfs) Hops) as (c & E & [Ht Hk Hi] & Hitems). exists c. split; [done|]. split; [done|]. intros name.
  unfold ts_ByIndex, ts_Index. destruct (indexers c !! name) as [f|] eqn:Hf; [|done].
  assert (forall v key, key ∈ keys_at (indices c) name v <-> ∃ o, store_items c !! key = Some o ∧ bool_decide (v ∈ values_of f o) = true) as Hv.
  { intros v key. rewrite (Hi name f v key Hf). setoid_rewrite has_value_in. by setoid_rewrite bool_decide_eq_true. }
  split.
  - intros v. eexists. split; [done|]. apply objects_matching. intros key. apply (Hv v key).
  - intros o. pose proof (Ht name f o Hf) as Hok. assert (f o = Ok (values_of f o)) as -> by (unfold values_of; by destruct (f o)).
    eexists. split; [done|]. generalize (values_of f o) as vs. intros vs.
    apply objects_matching. intros key. setoid_rewrite bool_decide_eq_true.
    assert (forall s, key ∈ foldl (fun s v => s ∪ keys_at (indices c) name v) s vs <-> key ∈ s ∨ ∃ o', store_items c !! key = Some o' ∧ Exists (fun v => v ∈ values_of f o') vs) as Hall.
    { clear -Hv. induction vs as [|v vs IH]; intros s; cbn [foldl]; [split; [by left|intros [?|(? & _ & ?%Exists_nil)]; done]|].
      rewrite IH, elem_of_union, Hv. setoid_rewrite Exists_cons. setoid_rewrite bool_decide_eq_true. naive_solver. }
    destruct vs as [|v [|v' vs]]; [etrans; [apply Hall|]; set_solver| |etrans; [apply Hall|]; set_solver].
    etrans; [apply (Hv v key)|]. setoid_rewrite Exists_cons. setoid_rewrite Exists_nil. setoid_rewrite bool_decide_eq_true. naive_solver.
Qed.
End Store.
Arguments threadSafeMap : clear implicits.

(** Objects that are their namespaces. *)
Definition demo_indexers : Indexers string := {["namespace"%string := fun o => Ok [o]]}.

Definition demo_ops : list store_op := [StoreAdd "a" "ns1"; StoreAdd "b" "ns1"; StoreUpdate "a" "ns2"; StoreAdd "c" "ns1"; StoreDelete "b"]%string.
Definition demo_store_run : option (threadSafeMap string) := run_store (fun A m => map_to_list m) (NewThreadSafeStore demo_indexers ∅) demo_ops.

Lemma demo_store_indexer : (c ← demo_store_run; indexers c !! "namespace"%string) = Some (fun o => Ok [o]).
Proof. vm_compute. reflexivity. Qed.

Lemma demo_store_items : matching (fun o => bool_decide ("ns1"%string ∈ [o])) (foldl map_step ∅ demo_ops) = [Some "ns1"%string].
Proof. vm_compute. reflexivity. Qed.

Lemma store_queries_are_exact_witness : ∃ c, demo_store_run = Some c ∧
  ts_ByIndex (fun A m => map_to_list m) c "namespace" "ns1" = Ok [Some "ns1"%string].
Proof.
  destruct (store_queries_are_exact (fun A m => map_to_list m) (fun A m => reflexivity _) demo_indexers demo_ops) as (c & E & Hm & H).
  - unfold demo_indexers. intros name f o [<- <-]%lookup_singleton_Some. done.
  - by repeat constructor.
  - exists c. split; [exact E|]. pose proof demo_store_indexer as Hi. unfold demo_store_run in Hi. rewrite E in Hi. cbn [mbind option_bind] in Hi.
    specialize (H "namespace"%string). rewrite Hi in H. destruct H as [H _]. destruct (H "ns1"%string) as (l & -> & Hp).
    rewrite Hm in Hp. pose proof demo_store_items as Hd. unfold values_of in Hp. rewrite Hd in Hp.
    by apply Permutation_singleton_r in Hp as ->.
Defined.
