(* ===== verification/DeltaFifo.v ===== *)
(** * The queue of changes of an informer

    Models [client-go/tools/cache/delta_fifo.go]: the changes of each object collect in a
    list until the consumer takes them, in the order in which the objects were first
    changed.  The objects of the consumer are behind an interface of two methods. *)
From S2P Require Import Prelude.

Local Open Scope Z_scope.

Section Fifo.
Context {obj : Type} (keyFunc : obj -> result string).

(** What stands in a delta: an object, or the note that it is gone, with the last known
    state when there is one (tools/cache/delta_fifo.go:652-655 DeletedFinalStateUnknown). *)
Inductive Object := Plain (o : obj) | FinalStateUnknown (key : string) (o : option Object).

(** (tools/cache/delta_fifo.go:594-606) *)
Inductive DeltaType := Added | Updated | Deleted | Sync.

(** (tools/cache/delta_fifo.go:612-615) *)
Record Delta := mkDelta { Delta_Type : DeltaType; Delta_Object : Object }.

(** (tools/cache/delta_fifo.go:578-591) *)
Record KeyListerGetter := mkKnown { known_ListKeys : list string; known_GetByKey : string -> result (option Object) }.

(** The objects that the consumer knows are an argument of the methods that read them
    (tools/cache/delta_fifo.go:96-127). *)
Record DeltaFIFO := mkFifo { items : gmap string (list Delta); fifo_queue : list string; populated : bool; initialPopulationCount : Z; fifo_closed : bool }.

(** (tools/cache/delta_fifo.go:59-68) *)
Definition NewDeltaFIFO : DeltaFIFO := mkFifo ∅ [] false 0 false.

Definition set_items (f : DeltaFIFO) (m : gmap string (list Delta)) (q : list string) : DeltaFIFO :=
  mkFifo m q (populated f) (initialPopulationCount f) (fifo_closed f).
Definition set_populated (f : DeltaFIFO) (n : Z) : DeltaFIFO := mkFifo (items f) (fifo_queue f) true n (fifo_closed f).

(** (tools/cache/delta_fifo.go:141-146) *)
Definition Close (f : DeltaFIFO) : DeltaFIFO := mkFifo (items f) (fifo_queue f) (populated f) (initialPopulationCount f) true.

(** (tools/cache/delta_fifo.go:632-637) *)
Definition Newest (d : list Delta) : option Delta := last d.

(** The key of an object (tools/cache/delta_fifo.go:157-160 KeyOf). *)
Definition KeyOf (o : Object) : result string := match o with FinalStateUnknown key _ => Ok key | Plain o => keyFunc o end.

(** The key of deltas (tools/cache/delta_fifo.go:150-161 KeyOf). *)
Definition KeyOfDeltas (d : list Delta) : result string := match Newest d with None => Err "0 length Deltas object; can't get key" | Some n => KeyOf (Delta_Object n) end.

(** (tools/cache/delta_fifo.go:165-169) *)
Definition HasSynced (f : DeltaFIFO) : bool := populated f && (initialPopulationCount f =? 0).

(** Of two deletions the one with the most information is kept
    (tools/cache/delta_fifo.go:287-296). *)
Definition isDeletionDup (a b : Delta) : option Delta :=
  match Delta_Type a, Delta_Type b with
  | Deleted, Deleted => match Delta_Object b with FinalStateUnknown _ _ => Some a | Plain _ => Some b end
  | _, _ => None
  end.

(** (tools/cache/delta_fifo.go:278-284) *)
Definition isDup (a b : Delta) : option Delta := isDeletionDup a b.

(** (tools/cache/delta_fifo.go:261-273) *)
Definition dedupDeltas (deltas : list Delta) : list Delta :=
  match reverse deltas with
  | a :: b :: rest => match isDup a b with Some out => reverse rest ++ [out] | None => deltas end
  | _ => deltas
  end.

(** (tools/cache/delta_fifo.go:300-303) *)
Definition willObjectBeDeletedLocked (f : DeltaFIFO) (id : string) : bool :=
  match Newest (default [] (items f !! id)) with Some (mkDelta Deleted _) => true | _ => false end.

(** The list of changes is never empty here; the branch that removes it is kept
    (tools/cache/delta_fifo.go:307-335). *)
Definition queueActionLocked (f : DeltaFIFO) (actionType : DeltaType) (o : Object) : DeltaFIFO * option string :=
  match KeyOf o with
  | Err e => (f, Some e)
  | Ok id =>
      if match actionType with Sync => willObjectBeDeletedLocked f id | _ => false end then (f, None)
      else
        let newDeltas := dedupDeltas (default [] (items f !! id) ++ [mkDelta actionType o]) in
        match newDeltas with
        | [] => (set_items f (delete id (items f)) (fifo_queue f), None)
        | _ => (set_items f (<[id := newDeltas]> (items f)) (match items f !! id with Some _ => fifo_queue f | None => fifo_queue f ++ [id] end), None)
        end
  end.

(** (tools/cache/delta_fifo.go:173-178 Add) *)
Definition df_Add (f : DeltaFIFO) (o : Object) : DeltaFIFO * option string := queueActionLocked (set_populated f (initialPopulationCount f)) Added o.

(** (tools/cache/delta_fifo.go:181-186 Update) *)
Definition df_Update (f : DeltaFIFO) (o : Object) : DeltaFIFO * option string := queueActionLocked (set_populated f (initialPopulationCount f)) Updated o.

(** (tools/cache/delta_fifo.go:191-220 Delete) *)
Definition df_Delete (known : option KeyListerGetter) (f : DeltaFIFO) (o : Object) : DeltaFIFO * option string :=
  match KeyOf o with
  | Err e => (f, Some e)
  | Ok id =>
      let f := set_populated f (initialPopulationCount f) in
      let skip := match known with
        | None => negb (bool_decide (is_Some (items f !! id)))
        | Some k =>
            match known_GetByKey k id with
            | Ok None => negb (bool_decide (is_Some (items f !! id)))
            | _ => false
            end
        end in
      if skip then (f, None) else queueActionLocked f Deleted o
  end.

(** (tools/cache/delta_fifo.go:248-257) *)
Definition addIfNotPresent (f : DeltaFIFO) (id : string) (deltas : list Delta) : DeltaFIFO :=
  let f := set_populated f (initialPopulationCount f) in
  match items f !! id with
  | Some _ => f
  | None => set_items f (<[id := deltas]> (items f)) (fifo_queue f ++ [id])
  end.

(** [None]: an empty list of deltas has no newest one to read
    (tools/cache/delta_fifo.go:231-244 AddIfNotPresent). *)
Definition df_AddIfNotPresent (f : DeltaFIFO) (deltas : list Delta) : option (DeltaFIFO * option string) :=
  n ← Newest deltas;
  match KeyOf (Delta_Object n) with
  | Err e => Some (f, Some e)
  | Ok id => Some (addIfNotPresent f id deltas, None)
  end.

(** [None]: an empty list of deltas has no newest one to read
    (tools/cache/delta_fifo.go:346-352 listLocked). *)
Definition df_List (range : forall A : Type, gmap string A -> list (string * A)) (f : DeltaFIFO) : option (list Object) :=
  mapM (fun e => Delta_Object <$> Newest e.2) (range _ (items f)).

(** (tools/cache/delta_fifo.go:356-364 ListKeys) *)
Definition df_ListKeys (range : forall A : Type, gmap string A -> list (string * A)) (f : DeltaFIFO) : list string := (range _ (items f)).*1.

(** (tools/cache/delta_fifo.go:380-390 GetByKey) *)
Definition df_GetByKey (f : DeltaFIFO) (key : string) : option (list Delta) := items f !! key.

(** (tools/cache/delta_fifo.go:369-375 Get) *)
Definition df_Get (f : DeltaFIFO) (o : Object) : result (option (list Delta)) :=
  match KeyOf o with Err e => Err e | Ok key => Ok (df_GetByKey f key) end.

Section Pop.
(** What the consumer does with the deltas, under the lock; the outcome asks for a retry
    or not. *)
Inductive processed := Done | Failed (e : string) | ErrRequeue (e : option string).
Context {S : Type} (process : S -> list Delta -> S * processed).

Inductive popped := Waiting | FIFOClosedError | Popped (d : list Delta) (err : option string).

(** The rest of the queue after the first key; keys without deltas are passed over
    (tools/cache/delta_fifo.go:414-444 Pop). *)
Fixpoint pop_queue (q : list string) (f : DeltaFIFO) (s : S) : DeltaFIFO * S * popped :=
  match q with
  | [] => (set_items f (items f) [], s, if fifo_closed f then FIFOClosedError else Waiting)
  | id :: q =>
      let f := mkFifo (items f) q (populated f) (if 0 <? initialPopulationCount f then initialPopulationCount f - 1 else initialPopulationCount f) (fifo_closed f) in
      match items f !! id with
      | None => pop_queue q f s
      | Some item =>
          let f := set_items f (delete id (items f)) q in
          match process s item with
          | (s, ErrRequeue e) => (addIfNotPresent f id item, s, Popped item e)
          | (s, Failed e) => (f, s, Popped item (Some e))
          | (s, Done) => (f, s, Popped item None)
          end
      end
  end.

(** (tools/cache/delta_fifo.go:411-445 Pop) *)
Definition df_Pop (f : DeltaFIFO) (s : S) : DeltaFIFO * S * popped := pop_queue (fifo_queue f) f s.
End Pop.

(** A loop that ends at the first error. *)
Fixpoint until_error {A} (step : DeltaFIFO -> A -> DeltaFIFO * option string) (f : DeltaFIFO) (l : list A) : DeltaFIFO * option string :=
  match l with
  | [] => (f, None)
  | x :: l => match step f x with (f, Some e) => (f, Some e) | (f, None) => until_error step f l end
  end.

Section Visit.
Context (range : forall A : Type, gmap string A -> list (string * A)).

(** The listed objects (tools/cache/delta_fifo.go:456-465 Replace). *)
Definition replace_listed (f : DeltaFIFO) (list : list Object) : DeltaFIFO * option string :=
  until_error (fun f item => match KeyOf item with Err e => (f, Some e) | Ok _ => queueActionLocked f Sync item end) f list.

(** The known objects that are not listed (tools/cache/delta_fifo.go:496-513 Replace). *)
Definition replace_deleted (k : KeyListerGetter) (f : DeltaFIFO) (keys : gset string) : DeltaFIFO * option string :=
  until_error (fun f key => queueActionLocked f Deleted (FinalStateUnknown key (match known_GetByKey k key with Ok o => o | Err _ => None end)))
    f (filter (fun key => key ∉ keys) (known_ListKeys k)).

(** Without known objects the queue's own keys are used.  The loop writes to the map it
    visits, but only under keys that are there (tools/cache/delta_fifo.go:470-484 Replace). *)
Definition replace_own (f : DeltaFIFO) (keys : gset string) : DeltaFIFO * option string :=
  until_error (fun f e => queueActionLocked f Deleted (FinalStateUnknown e.1 (Delta_Object <$> Newest e.2)))
    f (filter (fun e => e.1 ∉ keys) (range _ (items f))).

(** The keys of a list of objects. *)
Definition keys_of (l : list Object) : gset string := list_to_set (omap (fun o => match KeyOf o with Ok k => Some k | Err _ => None end) l).

(** (tools/cache/delta_fifo.go:451-522 Replace) *)
Definition df_Replace (known : option KeyListerGetter) (f : DeltaFIFO) (list : list Object) : DeltaFIFO * option string :=
  match replace_listed f list with
  | (f, Some e) => (f, Some e)
  | (f, None) =>
      let keys := keys_of list in
      let gone := match known with
        | None => length (filter (fun e => e.1 ∉ keys) (range _ (items f)))
        | Some k => length (filter (fun key => key ∉ keys) (known_ListKeys k))
        end in
      match match known with None => replace_own f keys | Some k => replace_deleted k f keys end with
      | (f, Some e) => (f, Some e)
      | (f, None) => (if populated f then f else set_populated f (Z.of_nat (length list + gone)), None)
      end
  end.
End Visit.

(** (tools/cache/delta_fifo.go:549-575) *)
Definition syncKeyLocked (k : KeyListerGetter) (f : DeltaFIFO) (key : string) : DeltaFIFO * option string :=
  match known_GetByKey k key with
  | Err _ | Ok None => (f, None)
  | Ok (Some o) =>
      match KeyOf o with
      | Err e => (f, Some e)
      | Ok id => match default [] (items f !! id) with _ :: _ => (f, None) | [] => queueActionLocked f Sync o end
      end
  end.

(** (tools/cache/delta_fifo.go:525-540 Resync) *)
Definition df_Resync (known : option KeyListerGetter) (f : DeltaFIFO) : DeltaFIFO * option string :=
  match known with
  | None => (f, None)
  | Some k => until_error (syncKeyLocked k) f (known_ListKeys k)
  end.

(** ** The keys in the queue are those with deltas *)

Record fifo_ok (f : DeltaFIFO) : Prop := {
  fo_nodup : NoDup (fifo_queue f);
  fo_queue : forall id, id ∈ fifo_queue f <-> is_Some (items f !! id);
  fo_deltas : forall id ds, items f !! id = Some ds -> ds <> [] ∧ Forall (fun d => KeyOf (Delta_Object d) = Ok id) ds }.

(** What the changes make of the state of an object. *)
Definition delta_effect (old : option Object) (d : Delta) : option Object := match Delta_Type d with Deleted => None | _ => Some (Delta_Object d) end.
Definition net (old : option Object) (ds : list Delta) : option Object := foldl delta_effect old ds.

(** Deletions are of objects that exist. *)
Fixpoint chain_ok (old : option Object) (ds : list Delta) : Prop :=
  match ds with
  | [] => True
  | d :: ds => (Delta_Type d = Deleted -> is_Some old) ∧ chain_ok (delta_effect old d) ds
  end.

Lemma net_snoc old l d : net old (l ++ [d]) = delta_effect (net old l) d.
Proof. unfold net. by rewrite foldl_app. Qed.

Lemma chain_ok_app old l l' : chain_ok old (l ++ l') <-> chain_ok old l ∧ chain_ok (net old l) l'.
Proof. revert old. induction l as [|d l IH]; intros old; cbn [app chain_ok net foldl]; [tauto|]. rewrite IH. unfold net. tauto. Qed.

(** Adding a delta, with the merging of two deletions. *)
Lemma dedup_snoc l d : (dedupDeltas (l ++ [d]) = l ++ [d] ∧ (Delta_Type d = Deleted -> forall b, last l = Some b -> Delta_Type b <> Deleted)) ∨
  ∃ l' b out, l = l' ++ [b] ∧ Delta_Type b = Deleted ∧ Delta_Type d = Deleted ∧ Delta_Type out = Deleted ∧ (out = b ∨ out = d) ∧ dedupDeltas (l ++ [d]) = l' ++ [out].
Proof.
  unfold dedupDeltas. rewrite reverse_snoc. destruct l as [|b l' _] using rev_ind; [by left|]. rewrite reverse_snoc, last_snoc. unfold isDup, isDeletionDup.
  destruct (Delta_Type d) eqn:Ed; [by left|by left| |by left]. destruct (Delta_Type b) eqn:Eb; [left; split; [done|]; intros _ ? [= <-]; congruence..| |].
  2:{ left; split; [done|]; intros _ ? [= <-]; congruence. }
  right. rewrite reverse_involutive. destruct (Delta_Object b).
  - exists l', b, b. split_and!; try done. by left.
  - exists l', b, d. split_and!; try done. by right.
Qed.

Lemma dedup_net old l d : net old (dedupDeltas (l ++ [d])) = delta_effect (net old l) d.
Proof.
  destruct (dedup_snoc l d) as [[-> _]|(l' & b & out & -> & Hb & Hd & Ho & _ & ->)]; [apply net_snoc|]. rewrite !net_snoc. unfold delta_effect. by rewrite Ho, Hd.
Qed.

Lemma dedup_chain old l d : chain_ok old l -> (Delta_Type d = Deleted -> l = [] -> is_Some old) -> chain_ok old (dedupDeltas (l ++ [d])).
Proof.
  intros Hl Hd. destruct (dedup_snoc l d) as [[-> Hlast]|(l' & b & out & -> & Hb & _ & Ho & _ & ->)].
  - apply chain_ok_app. split; [done|]. cbn. split; [|done]. intros Ed. destruct l as [|b l' _] using rev_ind; [by apply Hd|].
    rewrite net_snoc. specialize (Hlast Ed b). rewrite last_snoc in Hlast. unfold delta_effect. destruct (Delta_Type b); try by eexists. by destruct Hlast.
  - apply chain_ok_app in Hl as [Hl Hlb]. apply chain_ok_app. split; [done|]. cbn in *. split; [|done]. intros _. by apply Hlb.
Qed.

Lemma dedup_keys id l d : Forall (fun d => KeyOf (Delta_Object d) = Ok id) l -> KeyOf (Delta_Object d) = Ok id ->
  dedupDeltas (l ++ [d]) <> [] ∧ Forall (fun d => KeyOf (Delta_Object d) = Ok id) (dedupDeltas (l ++ [d])).
Proof.
  intros Hl Hd. destruct (dedup_snoc l d) as [[-> _]|(l' & b & out & -> & _ & _ & _ & Ho & ->)]; (split; [by intros [_ [=]]%app_nil|]).
  - apply Forall_app. split; [done|by constructor].
  - apply Forall_app in Hl as [Hl Hb]. apply Forall_app. split; [done|]. apply Forall_cons in Hb as [Hb _]. apply Forall_singleton. destruct Ho as [->| ->]; [exact Hb|exact Hd].
Qed.

(** ** Effects of the operations on what is pending *)

(** The state of an object once the consumer has taken everything. *)
Definition pending (f : DeltaFIFO) (known : gmap string Object) (id : string) : option Object := net (known !! id) (default [] (items f !! id)).

(** The queue is consistent with the objects that the consumer knows. *)
Record consistent (f : DeltaFIFO) (known : gmap string Object) : Prop := {
  cs_fifo : fifo_ok f;
  cs_keys : forall id o, known !! id = Some o -> KeyOf o = Ok id;
  cs_chain : forall id ds, items f !! id = Some ds -> chain_ok (known !! id) ds }.

Lemma pending_nil f known id : items f !! id = None -> pending f known id = known !! id.
Proof. intros H. unfold pending. by rewrite H. Qed.

(** A change is queued. *)
Lemma queue_action_ok f known t o id : consistent f known -> KeyOf o = Ok id ->
  (t = Deleted -> items f !! id = None -> is_Some (known !! id)) -> (t = Sync -> willObjectBeDeletedLocked f id = false) ->
  ∃ f', queueActionLocked f t o = (f', None) ∧ consistent f' known ∧
    (forall id', pending f' known id' = if decide (id' = id) then (match t with Deleted => None | _ => Some o end) else pending f known id') ∧
    (forall id', is_Some (items f' !! id') <-> id' = id ∨ is_Some (items f !! id')) ∧ populated f' = populated f ∧
    (forall id', id' <> id -> items f' !! id' = items f !! id').
Proof.
  intros [[Hnd Hq Hds] Hk Hc] Hid Hdel Hsync. unfold queueActionLocked. rewrite Hid.
  assert ((match t with Sync => willObjectBeDeletedLocked f id | _ => false end) = false) as -> by (destruct t; try done; by apply Hsync).
  set (l := default [] (items f !! id)). assert (Forall (fun d => KeyOf (Delta_Object d) = Ok id) l ∧ chain_ok (known !! id) l) as [Hkeys Hchain].
  { unfold l. destruct (items f !! id) as [ds|] eqn:E; [|done]. split; [by apply (Hds id ds)|by apply Hc]. }
  destruct (dedup_keys id l (mkDelta t o) Hkeys Hid) as [Hne Hkeys']. set (l' := dedupDeltas (l ++ [mkDelta t o])) in *.
  assert (net (known !! id) l' = match t with Deleted => None | _ => Some o end) as Hnet by (unfold l'; by rewrite dedup_net).
  assert (chain_ok (known !! id) l') as Hchain'.
  { apply dedup_chain; [done|]. cbn. intros Ht Hl. apply Hdel; [done|]. unfold l in Hl. destruct (items f !! id) as [ds|] eqn:E; [|done]. by destruct (Hds id ds E). }
  clearbody l'. destruct l' as [|d0 l']; [done|]. eexists. split; [done|]. split; [split; [split| |]|]; cbn [items fifo_queue set_items].
  - destruct (items f !! id) eqn:E; [done|]. apply NoDup_app. split; [done|]. split; [|apply NoDup_singleton]. intros x Hx ->%list_elem_of_singleton.
    apply Hq in Hx. rewrite E in Hx. by destruct Hx.
  - intros id'. assert (is_Some (<[id := d0 :: l']> (items f) !! id') <-> id' = id ∨ is_Some (items f !! id')) as ->.
    { destruct (decide (id' = id)) as [->|Hn]; [rewrite lookup_insert_eq; split; [by left|by eexists]|]. rewrite lookup_insert_ne by done. tauto. }
    destruct (items f !! id) eqn:E; [rewrite Hq|rewrite elem_of_app, list_elem_of_singleton, Hq; tauto]. split; [by right|]. intros [->|?]; [by eexists|done].
  - intros id' ds. rewrite lookup_insert_Some. intros [[<- <-]|[_ H]]; [done|by apply Hds].
  - done.
  - intros id' ds. rewrite lookup_insert_Some. intros [[<- <-]|[_ H]]; [done|by apply Hc].
  - split_and!; [| |done|].
    + intros id'. unfold pending. cbn [items set_items]. case_decide as E; [subst; by rewrite lookup_insert_eq|by rewrite lookup_insert_ne].
    + intros id'. destruct (decide (id' = id)) as [->|Hn]; [rewrite lookup_insert_eq; split; [by left|by eexists]|]. rewrite lookup_insert_ne by done. tauto.
    + intros id' Hn. by rewrite lookup_insert_ne.
Qed.

Lemma consistent_same f f' known : items f' = items f -> fifo_queue f' = fifo_queue f -> consistent f known ->
  consistent f' known ∧ forall id, pending f' known id = pending f known id.
Proof.
  intros Hi Hq [[H1 H2 H3] H4 H5]. unfold pending. rewrite Hi. split; [|done]. split; [split|done|]; rewrite ?Hi, ?Hq; done.
Qed.

(** Additions and updates. *)
Lemma put_ok f known t o id : t = Added ∨ t = Updated -> consistent f known -> KeyOf o = Ok id ->
  ∃ f', queueActionLocked (set_populated f (initialPopulationCount f)) t o = (f', None) ∧ consistent f' known ∧
    forall id', pending f' known id' = if decide (id' = id) then Some o else pending f known id'.
Proof.
  intros Ht Hc Hid. destruct (consistent_same f (set_populated f (initialPopulationCount f)) known eq_refl eq_refl Hc) as [Hc1 Hp1].
  destruct (queue_action_ok _ known t o id Hc1 Hid) as (f' & E & Hc' & Hp' & _); [by destruct Ht as [-> | ->]..|]. exists f'. split; [done|]. split; [done|].
  intros id'. rewrite Hp'. case_decide; [by destruct Ht as [-> | ->]|done].
Qed.

(** What the queue relies on: the objects of the consumer are those of a map. *)
Record represents (k : KeyListerGetter) (known : gmap string Object) : Prop := {
  rep_get : forall key, known_GetByKey k key = Ok (known !! key);
  rep_nodup : NoDup (known_ListKeys k);
  rep_keys : forall key, key ∈ known_ListKeys k <-> is_Some (known !! key) }.

Lemma df_Delete_ok k f known o id : represents k known -> consistent f known -> KeyOf o = Ok id ->
  ∃ f', df_Delete (Some k) f o = (f', None) ∧ consistent f' known ∧
    forall id', pending f' known id' = if decide (id' = id) then None else pending f known id'.
Proof.
  intros [Hget _ _] Hc Hid. unfold df_Delete. rewrite Hid, Hget.
  destruct (consistent_same f (set_populated f (initialPopulationCount f)) known eq_refl eq_refl Hc) as [Hc1 Hp1]. cbn [items set_populated].
  assert (known !! id = None ∧ items f !! id = None ∨ (is_Some (known !! id) ∨ is_Some (items f !! id))) as [[Hk Hi]|Hex].
  { destruct (known !! id), (items f !! id); eauto. }
  - rewrite Hk, Hi, bool_decide_false by by intros [? ?]. cbn [negb]. eexists. split; [done|]. split; [done|]. intros id'. case_decide as E; [|done].
    subst id'. rewrite (Hp1 id). by rewrite pending_nil.
  - assert ((match known !! id with None => negb (bool_decide (is_Some (items f !! id))) | Some _ => false end) = false) as Hskip.
    { destruct (known !! id); [done|]. destruct Hex as [[? ?]|Hex]; [done|]. by rewrite bool_decide_true. }
    assert (match Ok (known !! id) with Ok None => negb (bool_decide (is_Some (items f !! id))) | _ => false end = false) as ->.
    { by destruct (known !! id). }
    destruct (queue_action_ok _ known Deleted o id Hc1 Hid) as (f' & E & Hc' & Hp' & _); [|done|].
    { intros _ Hi. cbn in Hi. destruct Hex as [Hex|Hex]; [done|]. rewrite Hi in Hex. by destruct Hex. }
    exists f'. split; [done|]. split; [done|]. intros id'. rewrite Hp'. by case_decide.
Qed.

(** The listed objects of a [Replace]. *)
Lemma replace_listed_ok known l : forall f, consistent f known -> Forall (fun o => is_ok (KeyOf o) = true) l -> NoDup (omap (fun o => match KeyOf o with Ok k => Some k | Err _ => None end) l) ->
  ∃ f', replace_listed f l = (f', None) ∧ consistent f' known ∧ populated f' = populated f ∧
    (forall id, id ∉ keys_of l -> items f' !! id = items f !! id) ∧
    (forall o id, o ∈ l -> KeyOf o = Ok id -> if willObjectBeDeletedLocked f id then items f' !! id = items f !! id else pending f' known id = Some o ∧ is_Some (items f' !! id)).
Proof.
  induction l as [|o l IH]; intros f Hc Hl Hnd.
  { exists f. split_and!; try done. by intros o id ?%elem_of_nil. }
  apply Forall_cons in Hl as [Ho Hl]. destruct (KeyOf o) as [key|] eqn:Hkey; [|done]. cbn [omap list_omap] in Hnd. rewrite Hkey in Hnd. apply NoDup_cons in Hnd as [Hnew Hnd].
  assert (forall id, id ∉ keys_of (o :: l) -> id <> key ∧ id ∉ keys_of l) as Hkeys.
  { intros id. unfold keys_of. cbn [omap list_omap]. rewrite Hkey. cbn. set_solver. }
  assert (key ∉ keys_of l) as Hkl by (unfold keys_of; by rewrite elem_of_list_to_set).
  assert (∃ f1, queueActionLocked f Sync o = (f1, None) ∧ consistent f1 known ∧ populated f1 = populated f ∧ (forall id, id <> key -> items f1 !! id = items f !! id) ∧
    (if willObjectBeDeletedLocked f key then items f1 !! key = items f !! key else pending f1 known key = Some o ∧ is_Some (items f1 !! key))) as (f1 & E1 & Hc1 & Hpop & Hi1 & Hk1).
  { destruct (willObjectBeDeletedLocked f key) eqn:Hw.
    - exists f. split; [unfold queueActionLocked; by rewrite Hkey, Hw|done].
    - destruct (queue_action_ok f known Sync o key Hc Hkey) as (f1 & E & Hc1 & Hp1 & Hi1 & Hpop & Ho1); [done|done|]. exists f1. split_and!; try done.
      + rewrite Hp1. by rewrite decide_True.
      + apply Hi1. by left. }
  destruct (IH f1 Hc1 Hl Hnd) as (f' & E & Hc' & Hpop' & Hout & Hin). exists f'. unfold replace_listed in *. cbn [until_error]. rewrite Hkey, E1. split; [done|]. split; [done|].
  split; [congruence|]. split.
  - intros id [Hne Hn]%Hkeys. rewrite Hout by done. by apply Hi1.
  - intros o' id [->|Hin']%elem_of_cons Hid.
    + rewrite Hkey in Hid. injection Hid as <-. destruct (willObjectBeDeletedLocked f key); [by rewrite Hout|]. unfold pending. rewrite Hout by done. exact Hk1.
    + assert (id <> key) as Hne. { intros ->. apply Hkl. unfold keys_of. apply elem_of_list_to_set, list_elem_of_omap. exists o'. split; [done|]. by rewrite Hid. }
      specialize (Hin o' id Hin' Hid). assert (willObjectBeDeletedLocked f1 id = willObjectBeDeletedLocked f id) as Hw by (unfold willObjectBeDeletedLocked; by rewrite Hi1).
      rewrite Hw in Hin. destruct (willObjectBeDeletedLocked f id); [rewrite Hin; by apply Hi1|done].
Qed.

Lemma delete_each_ok k known l : represents k known -> Forall (fun key => is_Some (known !! key)) l -> forall f, consistent f known ->
  ∃ f', until_error (fun f key => queueActionLocked f Deleted (FinalStateUnknown key (match known_GetByKey k key with Ok o => o | Err _ => None end))) f l = (f', None) ∧
    consistent f' known ∧ populated f' = populated f ∧
    (forall id, pending f' known id = if decide (id ∈ l) then None else pending f known id).
Proof.
  intros [Hget _ _]. induction 1 as [|key l Hkey Hl IH]; intros f Hc.
  { exists f. split_and!; try done. }
  destruct (queue_action_ok f known Deleted (FinalStateUnknown key (match known_GetByKey k key with Ok o => o | Err _ => None end)) key Hc eq_refl)
    as (f1 & E1 & Hc1 & Hp1 & _ & Hpop1 & _); [done|done|].
  destruct (IH f1 Hc1) as (f' & E & Hc' & Hpop & Hp). exists f'. cbn [until_error]. rewrite E1. split; [done|]. split; [done|]. split; [congruence|]. intros id.
  rewrite Hp, Hp1. destruct (decide (id ∈ l)) as [Hin|Hin]; [by rewrite decide_True by (by right)|]. case_decide as E2.
  - rewrite decide_True by (subst; by left). done.
  - rewrite decide_False; [done|]. by intros [?|?]%elem_of_cons.
Qed.

(** [Replace], exactly: a listed object becomes the state, unless its deletion is still
    queued; a known object that is not listed is deleted; a queued object that is neither
    stays. *)
Lemma df_Replace_ok range k f known l : represents k known -> consistent f known -> Forall (fun o => is_ok (KeyOf o) = true) l ->
  NoDup (omap (fun o => match KeyOf o with Ok k => Some k | Err _ => None end) l) ->
  ∃ f', df_Replace range (Some k) f l = (f', None) ∧ consistent f' known ∧
    (forall o id, o ∈ l -> KeyOf o = Ok id -> pending f' known id = if willObjectBeDeletedLocked f id then pending f known id else Some o) ∧
    (forall id, id ∉ keys_of l -> pending f' known id = if decide (is_Some (known !! id)) then None else pending f known id).
Proof.
  intros Hr Hc Hl Hnd. destruct (replace_listed_ok known l f Hc Hl Hnd) as (f1 & E1 & Hc1 & Hpop1 & Hout1 & Hin1). unfold df_Replace. rewrite E1.
  set (gone := filter (fun key => key ∉ keys_of l) (known_ListKeys k)). assert (Forall (fun key => is_Some (known !! key)) gone) as Hgone.
  { apply Forall_forall. intros key [_ Hkey]%list_elem_of_filter. by apply (rep_keys _ _ Hr). }
  destruct (delete_each_ok k known gone Hr Hgone f1 Hc1) as (f2 & E2 & Hc2 & Hpop2 & Hp2). unfold replace_deleted. fold gone. rewrite E2. eexists. split; [done|].
  set (f3 := if populated f2 then f2 else _). destruct (consistent_same f2 f3 known) as [Hc3 Hp3]; [unfold f3; by destruct (populated f2)..|done|]. split; [done|].
  assert (forall id, (id ∈ gone) <-> ((id ∉ keys_of l) ∧ is_Some (known !! id))) as Hg.
  { intros id. unfold gone. rewrite list_elem_of_filter. by rewrite (rep_keys _ _ Hr). }
  split.
  - intros o id Hin Hid. rewrite Hp3, Hp2, decide_False.
    + specialize (Hin1 o id Hin Hid). destruct (willObjectBeDeletedLocked f id); [unfold pending; by rewrite Hin1|by destruct Hin1].
    + rewrite Hg. intros [Hn _]. apply Hn. unfold keys_of. apply elem_of_list_to_set, list_elem_of_omap. exists o. split; [done|]. by rewrite Hid.
  - intros id Hid. rewrite Hp3, Hp2. rewrite (decide_ext (id ∈ gone) (is_Some (known !! id))) by (rewrite Hg; tauto).
    case_decide; [done|]. unfold pending. by rewrite Hout1.
Qed.

Lemma df_Resync_ok k f known : represents k known -> consistent f known ->
  ∃ f', df_Resync (Some k) f = (f', None) ∧ consistent f' known ∧ forall id, pending f' known id = pending f known id.
Proof.
  intros Hr. unfold df_Resync. generalize (known_ListKeys k). intros l. revert f. induction l as [|key l IH]; intros f Hc; [by exists f|]. cbn [until_error].
  assert (∃ f1, syncKeyLocked k f key = (f1, None) ∧ consistent f1 known ∧ forall id, pending f1 known id = pending f known id) as (f1 & E1 & Hc1 & Hp1).
  { unfold syncKeyLocked. rewrite (rep_get _ _ Hr). destruct (known !! key) as [o|] eqn:Ho; [|by exists f]. rewrite (cs_keys _ _ Hc key o Ho).
    destruct (default [] (items f !! key)) as [|d ds] eqn:Ed; [|by exists f].
    assert (items f !! key = None) as Hi. { destruct (items f !! key) as [ds|] eqn:E; [|done]. cbn in Ed. subst. by destruct (fo_deltas _ (cs_fifo _ _ Hc) key [] E). }
    destruct (queue_action_ok f known Sync o key Hc (cs_keys _ _ Hc key o Ho)) as (f1 & E & Hc1 & Hp1 & _); [done| |].
    - intros _. unfold willObjectBeDeletedLocked. by rewrite Hi.
    - exists f1. split; [done|]. split; [done|]. intros id. rewrite Hp1. case_decide as Hid; [subst id|done]. by rewrite pending_nil. }
  rewrite E1. destruct (IH f1 Hc1) as (f' & E & Hc' & Hp'). exists f'. split; [done|]. split; [done|]. intros id. by rewrite Hp'.
Qed.

(** Taking the first object. *)
Lemma df_Pop_first {S} (process : S -> list Delta -> S * processed) f s id q : fifo_ok f -> fifo_queue f = id :: q ->
  ∃ ds n, items f !! id = Some ds ∧
    (forall s', process s ds = (s', Done) -> df_Pop process f s = (mkFifo (delete id (items f)) q (populated f) n (fifo_closed f), s', Popped ds None)).
Proof.
  intros [Hnd Hq Hds] E. assert (is_Some (items f !! id)) as [ds Hi] by (apply Hq; rewrite E; left).
  exists ds. eexists. split; [done|]. intros s' Hp. unfold df_Pop. rewrite E. cbn [pop_queue items]. rewrite Hi, Hp. done.
Qed.

Lemma popped_consistent f known id q ds n : consistent f known -> fifo_queue f = id :: q -> items f !! id = Some ds ->
  let f' := mkFifo (delete id (items f)) q (populated f) n (fifo_closed f) in
  let known' := partial_alter (fun old => net old ds) id known in
  consistent f' known' ∧ forall id', pending f' known' id' = pending f known id'.
Proof.
  intros [[Hnd Hq Hds] Hk Hc] E Hi f' known'. rewrite E in Hnd. apply NoDup_cons in Hnd as [Hid Hnd].
  assert (known' !! id = net (known !! id) ds) as Hid' by (unfold known'; by rewrite lookup_partial_alter_eq).
  assert (forall id', id' <> id -> known' !! id' = known !! id') as Hother by (intros id' Hne; unfold known'; by rewrite lookup_partial_alter_ne).
  split; [split; [split| |]|].
  - done.
  - intros id'. cbn. destruct (decide (id' = id)) as [->|Hne]; [rewrite lookup_delete_eq; split; [done|by intros [? ?]]|].
    rewrite lookup_delete_ne by done. rewrite <- Hq, E, elem_of_cons. tauto.
  - intros id' ds'. cbn. rewrite lookup_delete_Some. intros [_ H]. by apply Hds.
  - intros id' o Ho. destruct (decide (id' = id)) as [->|Hne]; [|rewrite Hother in Ho by done; by apply Hk]. rewrite Hid' in Ho.
    destruct (Hds id ds Hi) as [Hne Hkeys]. destruct ds as [|d ds' _] using rev_ind; [done|]. rewrite net_snoc in Ho. apply Forall_app in Hkeys as [_ Hd].
    apply Forall_cons in Hd as [Hd _]. unfold delta_effect in Ho. by destruct (Delta_Type d); simplify_eq.
  - intros id' ds'. cbn. rewrite lookup_delete_Some. intros [Hne H]. rewrite Hother by done. by apply Hc.
  - intros id'. unfold pending. cbn [items f']. destruct (decide (id' = id)) as [->|Hne].
    + rewrite lookup_delete_eq, Hid', Hi. done.
    + by rewrite lookup_delete_ne, Hother by done.
Qed.
End Fifo.
Arguments Object : clear implicits.
Arguments Delta : clear implicits.
Arguments DeltaFIFO : clear implicits.
Arguments KeyListerGetter : clear implicits.
