(* ===== verification/Informer.v ===== *)
(** * Informers

    Models how an informer of [client-go/tools/cache] follows the API server: the reflector
    turns listed objects and watch events into changes ([reflector.go]), the consumer of
    the queue applies them to the indexed store and tells the listeners
    ([shared_informer.go], [store.go]).  The components of this library that handle
    informer events rely on what is proved here.  The API server is the sequence of lists
    and events that it sends. *)
From S2P Require Import Prelude IndexedStore DeltaFifo.

Local Open Scope Z_scope.

Section Informer.
Context {obj : Type} (keyFunc : obj -> result string) (range : forall A : Type, gmap string A -> list (string * A)).

(** ** The store by objects *)

(** [None] is a panic of an indexer, the string an error of the key function
    (tools/cache/store.go:166-173 Add). *)
Definition st_Add (c : threadSafeMap (Object obj)) (o : Object obj) : option (threadSafeMap (Object obj) * option string) :=
  match KeyOf keyFunc o with Err e => Some (c, Some e) | Ok key => c ← ts_Add range c key o; Some (c, None) end.

(** (tools/cache/store.go:176-183 Update) *)
Definition st_Update (c : threadSafeMap (Object obj)) (o : Object obj) : option (threadSafeMap (Object obj) * option string) :=
  match KeyOf keyFunc o with Err e => Some (c, Some e) | Ok key => c ← ts_Update range c key o; Some (c, None) end.

(** (tools/cache/store.go:186-193 Delete) *)
Definition st_Delete (c : threadSafeMap (Object obj)) (o : Object obj) : option (threadSafeMap (Object obj) * option string) :=
  match KeyOf keyFunc o with Err e => Some (c, Some e) | Ok key => c ← ts_Delete range c key; Some (c, None) end.

(** (tools/cache/store.go:237-243 Get) *)
Definition st_Get (c : threadSafeMap (Object obj)) (o : Object obj) : result (option (Object obj)) :=
  match KeyOf keyFunc o with Err e => Err e | Ok key => Ok (ts_Get c key) end.

(** (tools/cache/store.go:255-266 Replace) *)
Definition st_Replace (c : threadSafeMap (Object obj)) (list : list (Object obj)) : option (threadSafeMap (Object obj) * option string) :=
  match foldl (fun acc item => match acc with Err e => Err e | Ok m => match KeyOf keyFunc item with Err e => Err e | Ok key => Ok (<[key := item]> m) end end) (Ok ∅) list with
  | Err e => Some (c, Some e)
  | Ok items => c ← ts_Replace range c items; Some (c, None)
  end.

(** The store as the queue sees it (tools/cache/store.go:203-250 GetByKey). *)
Definition known_of (c : threadSafeMap (Object obj)) : KeyListerGetter obj := mkKnown (ts_ListKeys range c) (fun key => Ok (ts_Get c key)).

(** ** Listeners *)

(** (tools/cache/shared_informer.go:250-261 updateNotification) *)
Inductive notification := updateNotification (oldObj newObj : Object obj) | addNotification (newObj : Object obj) | deleteNotification (oldObj : Object obj).

(** A listener with the notifications that were sent to it, the last one at the end; the
    flag tells whether it is in the list of syncing listeners
    (tools/cache/shared_informer.go:557-580). *)
Record processorListener := mkListener { requestedResyncPeriod : Z; resyncPeriod : Z; nextResync : Z; is_syncing : bool; received : list notification }.

Definition send_to (n : notification) (l : processorListener) : processorListener :=
  mkListener (requestedResyncPeriod l) (resyncPeriod l) (nextResync l) (is_syncing l) (received l ++ [n]).

(** (tools/cache/shared_informer.go:491-504) *)
Definition distribute (listeners : list processorListener) (n : notification) (sync : bool) : list processorListener :=
  (fun l => if sync && negb (is_syncing l) then l else send_to n l) <$> listeners.

(** (tools/cache/shared_informer.go:665-674 shouldResync) *)
Definition listener_shouldResync (now : Z) (l : processorListener) : bool := negb (resyncPeriod l =? 0) && (nextResync l <=? now).

(** (tools/cache/shared_informer.go:527-545) *)
Definition shouldResync (now : Z) (listeners : list processorListener) : list processorListener * bool :=
  ((fun l => if listener_shouldResync now l then mkListener (requestedResyncPeriod l) (resyncPeriod l) (now + resyncPeriod l) true (received l)
    else mkListener (requestedResyncPeriod l) (resyncPeriod l) (nextResync l) false (received l)) <$> listeners,
   existsb (listener_shouldResync now) listeners).

(** (tools/cache/shared_informer.go:368-381) *)
Definition determineResyncPeriod (desired check : Z) : Z := if desired =? 0 then desired else if check =? 0 then 0 else if desired <? check then check else desired.

(** (tools/cache/shared_informer.go:547-555) *)
Definition resyncCheckPeriodChanged (listeners : list processorListener) (resyncCheckPeriod : Z) : list processorListener :=
  (fun l => mkListener (requestedResyncPeriod l) (determineResyncPeriod (requestedResyncPeriod l) resyncCheckPeriod) (nextResync l) (is_syncing l) (received l)) <$> listeners.

(** (tools/cache/shared_informer.go:191-221) *)
Record sharedIndexInformer := mkInformer { indexer : threadSafeMap (Object obj); resyncCheckPeriod : Z; started : bool; stopped : bool; listeners : list processorListener }.

Definition set_informer (s : sharedIndexInformer) (c : threadSafeMap (Object obj)) (l : list processorListener) : sharedIndexInformer :=
  mkInformer c (resyncCheckPeriod s) (started s) (stopped s) l.

Definition minimumResyncPeriod : Z := 1000000000.

(** The period of a new listener, and the informer after the check period has been lowered
    (tools/cache/shared_informer.go:394-412 AddEventHandlerWithResyncPeriod). *)
Definition adjust_period (s : sharedIndexInformer) (resyncPeriod : Z) : sharedIndexInformer * Z :=
  if 0 <? resyncPeriod then
    let resyncPeriod := if resyncPeriod <? minimumResyncPeriod then minimumResyncPeriod else resyncPeriod in
    if resyncPeriod <? resyncCheckPeriod s then
      if started s then (s, resyncCheckPeriod s)
      else (mkInformer (indexer s) resyncPeriod (started s) (stopped s) (resyncCheckPeriodChanged (listeners s) resyncPeriod), resyncPeriod)
    else (s, resyncPeriod)
  else (s, resyncPeriod).

(** A listener that joins later is told of the objects that are there
    (tools/cache/shared_informer.go:385-433). *)
Definition AddEventHandlerWithResyncPeriod (now : Z) (s : sharedIndexInformer) (resyncPeriod : Z) : sharedIndexInformer :=
  if stopped s then s
  else
    let '(s, resyncPeriod) := adjust_period s resyncPeriod in
    let period := determineResyncPeriod resyncPeriod (resyncCheckPeriod s) in
    let sent := if started s then addNotification <$> ts_List range (indexer s) else [] in
    set_informer s (indexer s) (listeners s ++ [mkListener resyncPeriod period (now + period) true sent]).

(** ** Handling changes *)

(** One change; [None] is a panic of an indexer
    (tools/cache/shared_informer.go:441-461 HandleDeltas). *)
Definition handle_delta (s : sharedIndexInformer) (d : Delta obj) : option (sharedIndexInformer * option string) :=
  match Delta_Type d with
  | Deleted =>
      '(c, e) ← st_Delete (indexer s) (Delta_Object d);
      Some match e with Some _ => (s, e) | None => (set_informer s c (distribute (listeners s) (deleteNotification (Delta_Object d)) false), None) end
  | t =>
      let isSync := match t with Sync => true | _ => false end in
      match st_Get (indexer s) (Delta_Object d) with
      | Ok (Some old) =>
          '(c, e) ← st_Update (indexer s) (Delta_Object d);
          Some match e with Some _ => (s, e) | None => (set_informer s c (distribute (listeners s) (updateNotification old (Delta_Object d)) isSync), None) end
      | _ =>
          '(c, e) ← st_Add (indexer s) (Delta_Object d);
          Some match e with Some _ => (s, e) | None => (set_informer s c (distribute (listeners s) (addNotification (Delta_Object d)) isSync), None) end
      end
  end.

(** From the oldest to the newest, until an error (tools/cache/shared_informer.go:435-464). *)
Fixpoint HandleDeltas (s : sharedIndexInformer) (ds : list (Delta obj)) : option (sharedIndexInformer * option string) :=
  match ds with
  | [] => Some (s, None)
  | d :: ds =>
      '(s, e) ← handle_delta s d;
      match e with Some _ => Some (s, e) | None => HandleDeltas s ds end
  end.

(** The consumer of the queue, whose state is lost in a panic. *)
Definition consume (s : option sharedIndexInformer) (ds : list (Delta obj)) : option sharedIndexInformer * processed :=
  match s with
  | None => (None, DeltaFifo.Done)
  | Some s => match HandleDeltas s ds with None => (None, DeltaFifo.Done) | Some (s, None) => (Some s, DeltaFifo.Done) | Some (s, Some e) => (Some s, Failed e) end
  end.

(** One round of [processLoop]; without [RetryOnError] the deltas are not queued again
    (tools/cache/controller.go:172-185 processLoop). *)
Definition process_one (f : DeltaFIFO obj) (s : sharedIndexInformer) : DeltaFIFO obj * option sharedIndexInformer * popped := df_Pop consume f (Some s).

(** ** The reflector *)

Inductive EventType := WatchAdded | WatchModified | WatchDeleted | WatchBookmark | WatchError | WatchOther.

(** An event with its object and the version in its metadata; [None] for an object of
    another type or without metadata. *)
Record Event := mkEvent { ev_Type : EventType; ev_Object : option (obj * string) }.

(** The queue that it writes to and its versions (tools/cache/reflector.go:66-112). *)
Record Reflector := mkReflector { r_store : DeltaFIFO obj; resourceVersion : string; lastSyncResourceVersion : string; listFromResourceVersion : string; eventCount : Z }.

(** Errors of the queue are only logged (tools/cache/reflector.go:535-580). *)
Definition watchHandlerHelper (c : threadSafeMap (Object obj)) (r : Reflector) (event : Event) : Reflector * option string :=
  match ev_Type event with
  | WatchError => (r, Some "the server reports an error"%string)
  | t =>
      match ev_Object event with
      | None => (r, None)
      | Some (o, newResourceVersion) =>
          let f := match t with
            | WatchAdded => (df_Add keyFunc (r_store r) (Plain o)).1
            | WatchModified => (df_Update keyFunc (r_store r) (Plain o)).1
            | WatchDeleted => (df_Delete keyFunc (Some (known_of c)) (r_store r) (Plain o)).1
            | _ => r_store r
            end in
          (mkReflector f newResourceVersion newResourceVersion
             (if String.eqb (listFromResourceVersion r) "" then "0" else listFromResourceVersion r) (eventCount r + 1), None)
      end
  end.

(** The store is replaced by the listed objects
    (tools/cache/reflector.go:457-463). *)
Definition syncWith (c : threadSafeMap (Object obj)) (r : Reflector) (found : list obj) : Reflector * option string :=
  let '(f, e) := df_Replace keyFunc range (Some (known_of c)) (r_store r) (Plain <$> found) in
  (mkReflector f (resourceVersion r) (lastSyncResourceVersion r) (listFromResourceVersion r) (eventCount r), e).

(** The list of a [ListAndWatch], with the version that the server sends along
    (tools/cache/reflector.go:325-338 ListAndWatch). *)
Definition list_objects (c : threadSafeMap (Object obj)) (r : Reflector) (found : list obj) (version : string) : Reflector * option string :=
  match syncWith c r found with
  | (r, Some e) => (r, Some e)
  | (r, None) => (mkReflector (r_store r) version version (listFromResourceVersion r) (eventCount r), None)
  end.

(** The timer of the resync; the listeners that are due are marked first
    (tools/cache/reflector.go:360-366 ListAndWatch). *)
Definition resync_tick (now : Z) (r : Reflector) (s : sharedIndexInformer) : Reflector * sharedIndexInformer * option string :=
  let '(ls, due) := shouldResync now (listeners s) in
  let s := set_informer s (indexer s) ls in
  if (due : bool) then
    let '(f, e) := df_Resync keyFunc (Some (known_of (indexer s))) (r_store r) in
    (mkReflector f (resourceVersion r) (lastSyncResourceVersion r) (listFromResourceVersion r) (eventCount r), s, e)
  else (r, s, None).

(** ** The store follows the server *)

Hypothesis Hrange : forall A (m : gmap string A), range A m ≡ₚ map_to_list m.

Lemma known_represents c : represents (known_of c) (store_items c).
Proof.
  split; cbn [known_of known_GetByKey known_ListKeys]; [done|unfold ts_ListKeys; rewrite Hrange; apply NoDup_fst_map_to_list|].
  intros key. unfold ts_ListKeys. rewrite list_elem_of_fmap. setoid_rewrite Hrange. split.
  - intros ([k o] & -> & Hin). apply elem_of_map_to_list in Hin. by eexists.
  - intros [o Ho]. exists (key, o). split; [done|]. by apply elem_of_map_to_list.
Qed.

(** What the listeners are told of a change. *)
Definition notification_of (old : option (Object obj)) (d : Delta obj) : notification :=
  match Delta_Type d with
  | Deleted => deleteNotification (Delta_Object d)
  | _ => match old with Some o => updateNotification o (Delta_Object d) | None => addNotification (Delta_Object d) end
  end.
Definition is_sync (d : Delta obj) : bool := match Delta_Type d with Sync => true | _ => false end.

Lemma handle_delta_ok s d id : store_ok (indexer s) -> KeyOf keyFunc (Delta_Object d) = Ok id ->
  ∃ c, handle_delta s d = Some (set_informer s c (distribute (listeners s) (notification_of (store_items (indexer s) !! id) d) (is_sync d)), None) ∧ store_ok c ∧
    store_items c = partial_alter (fun old => delta_effect old d) id (store_items (indexer s)) ∧ indexers c = indexers (indexer s).
Proof.
  intros Hs Hid. unfold handle_delta, st_Get, st_Add, st_Update, st_Delete, notification_of, is_sync, delta_effect. rewrite Hid.
  destruct (store_put_ok range Hrange (indexer s) id (Delta_Object d) Hs) as (c & E & Hc & Hi & Hx).
  assert (ts_Update range (indexer s) id (Delta_Object d) = Some c) as E' by exact E. unfold ts_Get.
  destruct (Delta_Type d); try (exists c; split; [destruct (store_items (indexer s) !! id); rewrite ?E, ?E'; bind_simpl; done|split_and!; [done|rewrite Hi; by apply map_eq|done]]).
  all: destruct (store_delete_ok range Hrange (indexer s) id Hs) as (c' & Ed & Hc' & Hi' & Hx').
  exists c'. rewrite Ed. bind_simpl. split_and!; [done|done|rewrite Hi'|done]. done.
Qed.

(** What a sequence of changes of one object sends to a listener. *)
Fixpoint sent_to (l : processorListener) (old : option (Object obj)) (ds : list (Delta obj)) : list notification :=
  match ds with
  | [] => []
  | d :: ds => (if is_sync d && negb (is_syncing l) then [] else [notification_of old d]) ++ sent_to l (delta_effect old d) ds
  end.

Definition receives (l : processorListener) (ns : list notification) : processorListener :=
  mkListener (requestedResyncPeriod l) (resyncPeriod l) (nextResync l) (is_syncing l) (received l ++ ns).

Lemma partial_alter_twice {A} (g h : option A -> option A) (id : string) (m : gmap string A) : partial_alter g id (partial_alter h id m) = partial_alter (fun x => g (h x)) id m.
Proof.
  apply map_eq. intros j. destruct (decide (j = id)) as [->|Hne]; [by rewrite !lookup_partial_alter_eq|by rewrite !lookup_partial_alter_ne].
Qed.

Lemma sent_to_same l l' ds : is_syncing l = is_syncing l' -> forall old, sent_to l old ds = sent_to l' old ds.
Proof. intros Hl. induction ds as [|d ds IH]; intros old; [done|]. cbn [sent_to]. by rewrite Hl, IH. Qed.

Lemma HandleDeltas_ok id ds : Forall (fun d => KeyOf keyFunc (Delta_Object d) = Ok id) ds -> forall s, store_ok (indexer s) ->
  let old := store_items (indexer s) !! id in
  ∃ c, HandleDeltas s ds = Some (set_informer s c ((fun l => receives l (sent_to l old ds)) <$> listeners s), None) ∧ store_ok c ∧
    store_items c = partial_alter (fun old => net old ds) id (store_items (indexer s)) ∧ indexers c = indexers (indexer s).
Proof.
  induction 1 as [|d ds Hd Hds IH]; intros s Hs old.
  - exists (indexer s). split.
    + cbn. do 2 f_equal. destruct s as [c p st sp ls]. unfold set_informer. cbn. f_equal. symmetry. rewrite <- (list_fmap_id ls) at 2. apply list_fmap_ext.
      intros i [] _. unfold receives. cbn. by rewrite app_nil_r.
    + split; [done|]. split; [|done]. apply map_eq. intros j. destruct (decide (j = id)) as [->|Hne]; [by rewrite lookup_partial_alter_eq|by rewrite lookup_partial_alter_ne].
  - destruct (handle_delta_ok s d id Hs Hd) as (c1 & E1 & Hc1 & Hi1 & Hx1). cbn [HandleDeltas]. rewrite E1. bind_simpl.
    set (s1 := set_informer s c1 _). destruct (IH s1 Hc1) as (c & E & Hc & Hi & Hx). exists c. rewrite E. split; [|split; [done|]].
    + do 2 f_equal. unfold s1, set_informer. cbn [indexer resyncCheckPeriod started stopped listeners]. f_equal. unfold distribute. rewrite <- list_fmap_compose.
      apply list_fmap_ext. intros i l _. cbn [compose sent_to]. rewrite Hi1, lookup_partial_alter_eq. fold old.
      destruct (is_sync d && negb (is_syncing l)) eqn:Esync; cbn [app]; [done|]. unfold receives, send_to. cbn [received requestedResyncPeriod resyncPeriod nextResync is_syncing].
      rewrite <- app_assoc. cbn [app]. do 3 f_equal. by apply sent_to_same.
    + rewrite Hi. cbn [s1 indexer set_informer]. rewrite Hi1, partial_alter_twice. split; [done|exact (eq_trans Hx Hx1)].
Qed.

(** One round of the consumer. *)
Lemma process_one_ok f s id q : consistent keyFunc f (store_items (indexer s)) -> store_ok (indexer s) -> fifo_queue f = id :: q ->
  ∃ f' c ds, process_one f s = (f', Some (set_informer s c ((fun l => receives l (sent_to l (store_items (indexer s) !! id) ds)) <$> listeners s)), Popped ds None) ∧
    items f !! id = Some ds ∧ consistent keyFunc f' (store_items c) ∧ store_ok c ∧ fifo_queue f' = q ∧ indexers c = indexers (indexer s) ∧
    store_items c = partial_alter (fun old => net old ds) id (store_items (indexer s)) ∧
    forall id', pending f' (store_items c) id' = pending f (store_items (indexer s)) id'.
Proof.
  intros Hc Hs Hq. destruct (df_Pop_first keyFunc consume f (Some s) id q (cs_fifo _ _ _ Hc) Hq) as (ds & n & Hi & Hpop).
  destruct (fo_deltas _ _ (cs_fifo _ _ _ Hc) id ds Hi) as [_ Hkeys]. destruct (HandleDeltas_ok id ds Hkeys s Hs) as (c & E & Hcs & Hit & Hx).
  destruct (popped_consistent keyFunc f (store_items (indexer s)) id q ds n Hc Hq Hi) as [Hc' Hp']. eexists _, c, ds. split.
  - unfold process_one. apply Hpop. cbn [consume]. by rewrite E.
  - rewrite Hit. split_and!; done.
Qed.

(** The server as it has been seen, the reflector and the informer. *)
Definition informer_state : Type := gmap string obj * Reflector * sharedIndexInformer.

Definition with_store (r : Reflector) (f : DeltaFIFO obj) : Reflector :=
  mkReflector f (resourceVersion r) (lastSyncResourceVersion r) (listFromResourceVersion r) (eventCount r).

Definition server_event (server : gmap string obj) (t : EventType) (id : string) (o : obj) : gmap string obj :=
  match t with WatchDeleted => delete id server | _ => <[id := o]> server end.

(** A list has each object of the server once. *)
Record lists (found : list obj) (server : gmap string obj) : Prop := {
  li_keys : Forall (fun o => is_ok (keyFunc o) = true) found;
  li_nodup : NoDup (omap (fun o => match keyFunc o with Ok k => Some k | Err _ => None end) found);
  li_objects : forall id o, server !! id = Some o <-> o ∈ found ∧ keyFunc o = Ok id }.

(** No listed object has a deletion in the queue, and no other object is in the queue
    that the store does not have. *)
Definition relist_safe (r : Reflector) (s : sharedIndexInformer) (server : gmap string obj) : Prop := forall id,
  match server !! id with
  | Some _ => willObjectBeDeletedLocked (r_store r) id = false
  | None => is_Some (pending (r_store r) (store_items (indexer s)) id) -> is_Some (store_items (indexer s) !! id)
  end.

(** What happens to an informer; the timer of the resync ticks only when [ticks]. *)
Inductive informer_step (ticks : bool) : informer_state -> informer_state -> Prop :=
  | step_watch server r s t o v id (Ht : t = WatchAdded ∨ t = WatchModified ∨ t = WatchDeleted) (Hkey : keyFunc o = Ok id) :
      informer_step ticks (server, r, s) (server_event server t id o, (watchHandlerHelper (indexer s) r (mkEvent t (Some (o, v)))).1, s)
  | step_list server r s server' found v (Hl : lists found server') (Hsafe : relist_safe r s server') :
      informer_step ticks (server, r, s) (server', (list_objects (indexer s) r found v).1, s)
  | step_tick server r s now (Ht : ticks = true) :
      informer_step ticks (server, r, s) (server, (resync_tick now r s).1.1, (resync_tick now r s).1.2)
  | step_consume server r s f' s' ds (Hp : process_one (r_store r) s = (f', Some s', Popped ds None)) :
      informer_step ticks (server, r, s) (server, with_store r f', s')
  | step_join server r s now period (Hst : started s = true) :
      informer_step ticks (server, r, s) (server, r, AddEventHandlerWithResyncPeriod now s period).

Record follows (st : informer_state) : Prop := {
  fl_consistent : consistent keyFunc (r_store st.1.2) (store_items (indexer st.2));
  fl_store : store_ok (indexer st.2);
  fl_pending : forall id, pending (r_store st.1.2) (store_items (indexer st.2)) id = Plain <$> st.1.1 !! id }.

Lemma follows_watch server r s t o v id : t = WatchAdded ∨ t = WatchModified ∨ t = WatchDeleted -> keyFunc o = Ok id -> follows (server, r, s) ->
  follows (server_event server t id o, (watchHandlerHelper (indexer s) r (mkEvent t (Some (o, v)))).1, s).
Proof.
  intros Ht Hkey [Hc Hs Hp]. cbn [fst snd] in *.
  assert (∃ f', r_store (watchHandlerHelper (indexer s) r (mkEvent t (Some (o, v)))).1 = f' ∧ consistent keyFunc f' (store_items (indexer s)) ∧
    forall id', pending f' (store_items (indexer s)) id' = Plain <$> server_event server t id o !! id') as (f' & <- & Hc' & Hp').
  { destruct Ht as [->|[->| ->]]; cbn [watchHandlerHelper ev_Type ev_Object fst r_store server_event].
    - destruct (put_ok keyFunc (r_store r) _ Added (Plain o) id (or_introl eq_refl) Hc Hkey) as (f' & E & Hc' & Hp'). exists f'. unfold df_Add. rewrite E.
      split; [done|]. split; [done|]. intros id'. rewrite Hp'. case_decide as Hid; [subst; by rewrite lookup_insert_eq|by rewrite lookup_insert_ne].
    - destruct (put_ok keyFunc (r_store r) _ Updated (Plain o) id (or_intror eq_refl) Hc Hkey) as (f' & E & Hc' & Hp'). exists f'. unfold df_Update. rewrite E.
      split; [done|]. split; [done|]. intros id'. rewrite Hp'. case_decide as Hid; [subst; by rewrite lookup_insert_eq|by rewrite lookup_insert_ne].
    - destruct (df_Delete_ok keyFunc (known_of (indexer s)) (r_store r) _ (Plain o) id (known_represents _) Hc Hkey) as (f' & E & Hc' & Hp'). exists f'. rewrite E.
      split; [done|]. split; [done|]. intros id'. rewrite Hp'. case_decide as Hid; [subst; by rewrite lookup_delete_eq|by rewrite lookup_delete_ne]. }
  by split.
Qed.

Lemma follows_list server r s server' found v : lists found server' -> relist_safe r s server' -> follows (server, r, s) ->
  follows (server', (list_objects (indexer s) r found v).1, s).
Proof.
  intros [Hk Hnd Ho] Hsafe [Hc Hs Hp]. cbn [fst snd] in *.
  assert (omap (fun o => match KeyOf keyFunc o with Ok k => Some k | Err _ => None end) (Plain <$> found) = omap (fun o => match keyFunc o with Ok k => Some k | Err _ => None end) found) as Hom.
  { clear. induction found as [|o found IH]; [done|]. cbn. destruct (keyFunc o); by rewrite IH. }
  destruct (df_Replace_ok keyFunc range (known_of (indexer s)) (r_store r) _ (Plain <$> found) (known_represents _) Hc) as (f' & E & Hc' & Hin & Hout).
  { apply Forall_fmap. exact Hk. }
  { by rewrite Hom. }
  assert (r_store (list_objects (indexer s) r found v).1 = f') as Ef by (unfold list_objects, syncWith; by rewrite E).
  split; cbn [fst snd]; rewrite ?Ef; [done|done|]. intros id. specialize (Hsafe id). destruct (server' !! id) as [o|] eqn:Hid.
  - apply Ho in Hid as [Hin' Hkey]. rewrite (Hin (Plain o) id) by (try done; by apply list_elem_of_fmap_2). by rewrite Hsafe.
  - rewrite Hout.
    + case_decide as Hkn; [done|]. destruct (pending _ _ id) eqn:Ep; [|done]. exfalso. apply Hkn, Hsafe. by eexists.
    + unfold keys_of. rewrite elem_of_list_to_set, Hom, list_elem_of_omap. intros (o & Hin' & Hkey). destruct (keyFunc o) as [k|] eqn:Ek; [|done]. injection Hkey as ->.
      assert (server' !! id = Some o) as H by (by apply Ho). congruence.
Qed.

Lemma follows_tick server r s now : follows (server, r, s) -> follows (server, (resync_tick now r s).1.1, (resync_tick now r s).1.2).
Proof.
  intros [Hc Hs Hp]. cbn [fst snd] in *. unfold resync_tick. destruct (shouldResync now (listeners s)) as [ls []]; [|by split].
  cbn [indexer set_informer]. destruct (df_Resync_ok keyFunc (known_of (indexer s)) (r_store r) _ (known_represents _) Hc) as (f' & E & Hc' & Hp'). rewrite E.
  split; cbn [fst snd r_store indexer set_informer]; [done|done|]. intros id. by rewrite Hp'.
Qed.

Lemma follows_consume server r s f' s' ds : process_one (r_store r) s = (f', Some s', Popped ds None) -> follows (server, r, s) ->
  follows (server, with_store r f', s').
Proof.
  intros Hpr [Hc Hs Hp]. cbn [fst snd] in *. destruct (fifo_queue (r_store r)) as [|id q] eqn:Hq.
  { unfold process_one, df_Pop in Hpr. rewrite Hq in Hpr. cbn in Hpr. by destruct (fifo_closed _). }
  destruct (process_one_ok (r_store r) s id q Hc Hs Hq) as (f1 & c & ds1 & E & _ & Hc1 & Hs1 & _ & _ & _ & Hp1). rewrite E in Hpr. injection Hpr as <- <- <-.
  split; cbn [fst snd r_store with_store indexer set_informer]; [done|done|]. intros id'. by rewrite Hp1.
Qed.

Lemma join_indexer now s period : indexer (AddEventHandlerWithResyncPeriod now s period) = indexer s.
Proof. unfold AddEventHandlerWithResyncPeriod, adjust_period. destruct (stopped s); [done|]. by repeat case_match; simplify_eq. Qed.

Lemma follows_step ticks st st' : informer_step ticks st st' -> follows st -> follows st'.
Proof.
  intros [server r s t o v id Ht Hkey|server r s server' found v Hl Hsafe|server r s now Ht|server r s f' s' ds Hp|server r s now period Hst].
  - by apply follows_watch.
  - by apply follows_list.
  - apply follows_tick.
  - by apply follows_consume with ds.
  - intros [Hc Hs Hp]. split; cbn [fst snd] in *; by rewrite ?join_indexer.
Qed.

(** As many rounds of the consumer. *)
Fixpoint drain (n : nat) (f : DeltaFIFO obj) (s : sharedIndexInformer) : option (DeltaFIFO obj * sharedIndexInformer) :=
  match n with
  | O => Some (f, s)
  | S n => match process_one f s with (f, Some s, Popped _ None) => drain n f s | _ => None end
  end.

Lemma drain_ok n : forall f s, length (fifo_queue f) = n -> consistent keyFunc f (store_items (indexer s)) -> store_ok (indexer s) ->
  ∃ f' s', drain n f s = Some (f', s') ∧ fifo_queue f' = [] ∧ store_ok (indexer s') ∧ indexers (indexer s') = indexers (indexer s) ∧
    forall id, store_items (indexer s') !! id = pending f (store_items (indexer s)) id.
Proof.
  induction n as [|n IH]; intros f s Hn Hc Hs.
  - destruct (fifo_queue f) eqn:Hq; [|done]. exists f, s. split_and!; try done. intros id. rewrite pending_nil; [done|].
    destruct (items f !! id) eqn:E; [|done]. assert (id ∈ fifo_queue f) as Hin by (apply (fo_queue _ _ (cs_fifo _ _ _ Hc)); by eexists). rewrite Hq in Hin. by apply elem_of_nil in Hin.
  - destruct (fifo_queue f) as [|id q] eqn:Hq; [done|]. destruct (process_one_ok f s id q Hc Hs Hq) as (f1 & c & ds & E & _ & Hc1 & Hs1 & Hq1 & Hx1 & _ & Hp1).
    cbn [drain]. rewrite E. destruct (IH f1 (set_informer s c ((fun l => receives l (sent_to l (store_items (indexer s) !! id) ds)) <$> listeners s))) as (f' & s' & E' & Hq' & Hs' & Hx' & Hp');
      [rewrite Hq1; cbn in Hn; lia|done|done|].
    exists f', s'. split; [done|]. split; [done|]. split; [done|]. split; [by rewrite Hx'|]. intros id'. rewrite Hp'. apply Hp1.
Qed.

(** A new informer: an empty store with its indexers. *)
Definition new_informer (fs : Indexers (Object obj)) (ls : list processorListener) (check : Z) : sharedIndexInformer := mkInformer (NewThreadSafeStore fs ∅) check true false ls.
Definition new_reflector : Reflector := mkReflector NewDeltaFIFO "" "" "0" 0.

Lemma new_follows fs ls check : total_indexers fs -> follows (∅, new_reflector, new_informer fs ls check).
Proof.
  intros Ht. split; cbn [fst snd].
  - split; [split| |]; cbn.
    + constructor.
    + intros id. split; [by intros ?%elem_of_nil|]. intros [? H]. by rewrite lookup_empty in H.
    + intros id ds H. by rewrite lookup_empty in H.
    + intros id o H. by rewrite lookup_empty in H.
    + intros id ds H. by rewrite lookup_empty in H.
  - by apply (new_store_ok range).
  - intros id. unfold pending. cbn. by rewrite !lookup_empty.
Qed.

Lemma run_follows ticks st st' : rtc (informer_step ticks) st st' -> follows st -> follows st'.
Proof. induction 1 as [|st st1 st' Hstep _ IH]; [done|]. intros H. by apply IH, (follows_step ticks st). Qed.

(** C8.  An informer catches up with the server.  After any history of watch events, lists,
    ticks of the resync timer, rounds of the consumer and late listeners, in which the lists
    are taken at safe moments, as many further rounds of the consumer as keys are queued
    empty the queue; none of them fails or panics, and the store then has exactly the
    objects of the server, with indices that are those of a full computation. *)
Theorem informer_catches_up ticks fs ls check server r s : total_indexers fs ->
  rtc (informer_step ticks) (∅, new_reflector, new_informer fs ls check) (server, r, s) ->
  ∃ f' s', drain (length (fifo_queue (r_store r))) (r_store r) s = Some (f', s') ∧ fifo_queue f' = [] ∧ store_items (indexer s') = Plain <$> server ∧ store_ok (indexer s').
Proof.
  intros Ht Hrun. destruct (run_follows _ _ _ Hrun (new_follows fs ls check Ht)) as [Hc Hs Hp]. cbn [fst snd] in *.
  destruct (drain_ok _ (r_store r) s eq_refl Hc Hs) as (f' & s' & E & Hq & Hs' & _ & Hi). exists f', s'. split_and!; try done.
  apply map_eq. intros id. by rewrite Hi, Hp, lookup_fmap.
Qed.

Definition safe_at (r : Reflector) (s : sharedIndexInformer) (server : gmap string obj) (id : string) : Prop :=
  match server !! id with
  | Some _ => willObjectBeDeletedLocked (r_store r) id = false
  | None => is_Some (pending (r_store r) (store_items (indexer s)) id) -> is_Some (store_items (indexer s) !! id)
  end.

(** C39.  The moments at which a list can be taken are exactly the safe ones: after any
    history, when the informer lists the server and then drains its queue, the store agrees
    with the server on an object if and only if that object was safe.  An object that
    was deleted, recreated and listed while its deletion was queued stays out of the store;
    one that was added and vanished before the consumer saw it enters the store for
    good. *)
Theorem relist_agrees_exactly_when_safe ticks fs ls check server r s server' found v : total_indexers fs ->
  rtc (informer_step ticks) (∅, new_reflector, new_informer fs ls check) (server, r, s) -> lists found server' ->
  let r' := (list_objects (indexer s) r found v).1 in
  ∃ f' s', drain (length (fifo_queue (r_store r'))) (r_store r') s = Some (f', s') ∧
    forall id, (store_items (indexer s') !! id = Plain <$> server' !! id) <-> safe_at r s server' id.
Proof.
  intros Ht Hrun [Hk Hnd Ho] r'. destruct (run_follows _ _ _ Hrun (new_follows fs ls check Ht)) as [Hc Hs Hp]. cbn [fst snd] in *.
  assert (omap (fun o => match KeyOf keyFunc o with Ok k => Some k | Err _ => None end) (Plain <$> found) = omap (fun o => match keyFunc o with Ok k => Some k | Err _ => None end) found) as Hom.
  { clear. induction found as [|o found IH]; [done|]. cbn. destruct (keyFunc o); by rewrite IH. }
  destruct (df_Replace_ok keyFunc range (known_of (indexer s)) (r_store r) _ (Plain <$> found) (known_represents _) Hc) as (f1 & E & Hc1 & Hin & Hout).
  { apply Forall_fmap. exact Hk. }
  { by rewrite Hom. }
  assert (r_store r' = f1) as -> by (unfold r', list_objects, syncWith; by rewrite E).
  destruct (drain_ok _ f1 s eq_refl Hc1 Hs) as (f' & s' & Ed & _ & _ & _ & Hi). exists f', s'. split; [done|]. intros id. rewrite Hi. unfold safe_at.
  destruct (server' !! id) as [o|] eqn:Hid.
  - apply Ho in Hid as [Hin' Hkey]. rewrite (Hin (Plain o) id) by (try done; by apply list_elem_of_fmap_2).
    destruct (willObjectBeDeletedLocked (r_store r) id) eqn:Hw; [|done]. split; [|done]. intros Hpend. exfalso.
    unfold willObjectBeDeletedLocked in Hw. unfold pending in Hpend. destruct (default [] (items (r_store r) !! id)) as [|d ds _] using rev_ind; [done|].
    unfold Newest in Hw. rewrite last_snoc in Hw. rewrite net_snoc in Hpend. unfold delta_effect in Hpend. by destruct d as [[] ?].
  - rewrite Hout.
    + case_decide as Hkn; [split; [by intros _ _|done]|]. destruct (pending (r_store r) _ id) as [p|]; split; [done| |by intros _ [? ?]|done].
      intros H. exfalso. apply Hkn, H. by eexists.
    + unfold keys_of. rewrite elem_of_list_to_set, Hom, list_elem_of_omap. intros (o & Hin' & Hkey). destruct (keyFunc o) as [k|] eqn:Ek; [|done]. injection Hkey as ->.
      assert (server' !! id = Some o) as H by (by apply Ho). congruence.
Qed.

(** ** The listeners see the store *)

(** What a handler makes of its notifications: an addition is of an object that is not
    there, an update starts from the state that is there, a deletion is of an object that
    is there. *)
Inductive replays : gmap string (Object obj) -> list notification -> gmap string (Object obj) -> Prop :=
  | replays_nil m : replays m [] m
  | replays_add m o id ns m' (Hkey : KeyOf keyFunc o = Ok id) (Hm : m !! id = None) (Hr : replays (<[id := o]> m) ns m') : replays m (addNotification o :: ns) m'
  | replays_update m old o id ns m' (Hkey : KeyOf keyFunc o = Ok id) (Hm : m !! id = Some old) (Hr : replays (<[id := o]> m) ns m') :
      replays m (updateNotification old o :: ns) m'
  | replays_delete m o id ns m' (Hkey : KeyOf keyFunc o = Ok id) (Hm : is_Some (m !! id)) (Hr : replays (delete id m) ns m') : replays m (deleteNotification o :: ns) m'.

Lemma replays_app m ns m1 ns' m2 : replays m ns m1 -> replays m1 ns' m2 -> replays m (ns ++ ns') m2.
Proof. induction 1; intros H2; [done|econstructor; eauto..]. Qed.

(** A listener that is always told. *)
Lemma replays_sent l id ds : is_syncing l = true -> Forall (fun d => KeyOf keyFunc (Delta_Object d) = Ok id) ds -> forall m, chain_ok (m !! id) ds ->
  replays m (sent_to l (m !! id) ds) (partial_alter (fun old => net old ds) id m).
Proof.
  intros Hl. induction 1 as [|d ds Hd Hds IH]; intros m Hc; cbn [sent_to].
  - assert (partial_alter (fun old => net old []) id m = m) as ->; [|constructor].
    apply map_eq. intros j. destruct (decide (j = id)) as [->|Hne]; [by rewrite lookup_partial_alter_eq|by rewrite lookup_partial_alter_ne].
  - rewrite Hl, andb_false_r. cbn [app]. destruct Hc as [Hdel Hc]. set (m1 := partial_alter (fun old => delta_effect old d) id m).
    assert (m1 !! id = delta_effect (m !! id) d) as Hm1 by (unfold m1; by rewrite lookup_partial_alter_eq).
    assert (replays m1 (sent_to l (delta_effect (m !! id) d) ds) (partial_alter (fun old => net old (d :: ds)) id m)) as Hrest.
    { specialize (IH m1). rewrite Hm1 in IH. unfold m1 in IH at 2. rewrite partial_alter_twice in IH. by apply IH. }
    assert (Delta_Type d <> Deleted -> <[id := Delta_Object d]> m = m1) as Hins.
    { intros Ht. unfold m1, delta_effect. by destruct (Delta_Type d). }
    unfold notification_of. destruct (Delta_Type d) eqn:Ht; try (revert Hrest; destruct (m !! id) as [old|] eqn:Ho; intros Hrest;
      [eapply replays_update|eapply replays_add]; first [exact Hd|exact Ho|rewrite Hins by done; exact Hrest]).
    eapply replays_delete; [exact Hd|by apply Hdel|]. assert (delete id m = m1) as -> by (unfold m1, delta_effect; by rewrite Ht). exact Hrest.
Qed.

Lemma replays_join l : NoDup (omap (fun o => match KeyOf keyFunc o with Ok k => Some k | Err _ => None end) l.*2) -> Forall (fun e => KeyOf keyFunc e.2 = Ok e.1) l ->
  forall m, (forall e, e ∈ l -> m !! e.1 = None) -> replays m (addNotification <$> l.*2) (list_to_map l ∪ m).
Proof.
  intros Hnd Hk. revert Hnd. induction Hk as [|[id o] l Hkey Hk IH]; intros Hnd m Hm; cbn [fmap list_fmap snd].
  - cbn. rewrite map_empty_union. constructor.
  - cbn [fmap list_fmap snd omap list_omap fst] in *. rewrite Hkey in Hnd. apply NoDup_cons in Hnd as [Hnew Hnd].
    assert (forall e, e ∈ l -> e.1 <> id) as Hne.
    { intros [id' o'] He. cbn [fst]. intros ->. apply Hnew. apply list_elem_of_omap. exists o'. split; [by apply (list_elem_of_fmap_2 snd _ (id, o'))|].
      rewrite Forall_forall in Hk. specialize (Hk _ He). cbn in Hk. by rewrite Hk. }
    econstructor; [exact Hkey|apply (Hm (id, o)); left|]. cbn [list_to_map foldr uncurry fst snd].
    replace (<[id := o]> (list_to_map l) ∪ m) with (list_to_map l ∪ <[id := o]> m).
    + apply IH; [done|]. intros e He. rewrite lookup_insert_ne by (symmetry; by apply Hne). apply Hm. by right.
    + rewrite <- insert_union_l, <- insert_union_r; [done|]. apply not_elem_of_list_to_map. intros (e & -> & He)%list_elem_of_fmap. by apply (Hne e He).
Qed.

Definition told (s : sharedIndexInformer) : Prop := Forall (fun l => is_syncing l = true ∧ replays ∅ (received l) (store_items (indexer s))) (listeners s).

Lemma told_consume server r s f' s' ds : process_one (r_store r) s = (f', Some s', Popped ds None) -> follows (server, r, s) -> told s -> told s'.
Proof.
  intros Hpr [Hc Hs Hp] Htold. cbn [fst snd] in *. destruct (fifo_queue (r_store r)) as [|id q] eqn:Hq.
  { unfold process_one, df_Pop in Hpr. rewrite Hq in Hpr. cbn in Hpr. by destruct (fifo_closed _). }
  destruct (process_one_ok (r_store r) s id q Hc Hs Hq) as (f1 & c & ds1 & E & Hds & _ & _ & _ & _ & Hi & _). rewrite E in Hpr. injection Hpr as <- <- <-.
  unfold told. cbn [listeners indexer set_informer]. rewrite Hi. apply Forall_fmap. apply (Forall_impl _ _ _ Htold). intros l [Hl Hr]. cbn. split; [done|].
  eapply replays_app; [exact Hr|]. apply replays_sent; [done| |].
  - by apply (fo_deltas _ _ (cs_fifo _ _ _ Hc) id ds1).
  - by apply (cs_chain _ _ _ Hc).
Qed.

Lemma told_join server r s now period : started s = true -> follows (server, r, s) -> told s -> told (AddEventHandlerWithResyncPeriod now s period).
Proof.
  intros Hst [Hc Hs Hp] Htold. cbn [fst snd] in *. unfold AddEventHandlerWithResyncPeriod. destruct (stopped s); [done|].
  assert (∃ p, adjust_period s period = (s, p)) as [p ->].
  { unfold adjust_period. rewrite Hst. destruct (0 <? period); [|by eexists]. destruct (_ <? resyncCheckPeriod s); by eexists. }
  rewrite Hst. unfold told. cbn [listeners indexer set_informer]. apply Forall_app. split; [done|]. constructor; [|done]. cbn [is_syncing received]. split; [done|].
  assert (list_to_map (range _ (store_items (indexer s))) ∪ ∅ = store_items (indexer s)) as Hm by (by rewrite map_union_empty, (range_list_to_map range Hrange)).
  assert (forall e, e ∈ range _ (store_items (indexer s)) -> KeyOf keyFunc e.2 = Ok e.1) as Hkeys.
  { intros [id o] Hin. rewrite Hrange in Hin. apply elem_of_map_to_list in Hin. by apply (cs_keys _ _ _ Hc). }
  rewrite <- Hm. unfold ts_List. apply replays_join; [|by apply Forall_forall|by intros; apply lookup_empty].
  assert (forall l : list (string * Object obj), (forall e, e ∈ l -> KeyOf keyFunc e.2 = Ok e.1) -> omap (fun o => match KeyOf keyFunc o with Ok k => Some k | Err _ => None end) l.*2 = l.*1) as Hom.
  { clear. intros l. induction l as [|e l IH]; intros H; [done|]. cbn. rewrite (H e) by left. rewrite IH; [done|]. intros e' He'. apply H. by right. }
  rewrite Hom by done. rewrite Hrange. apply NoDup_fst_map_to_list.
Qed.

Lemma told_step st st' : informer_step false st st' -> follows st -> told st.2 -> told st'.2.
Proof.
  intros [server r s t o v id Ht Hkey|server r s server' found v Hl Hsafe|server r s now Ht|server r s f' s' ds Hp|server r s now period Hst]; cbn [snd]; try done.
  - by apply (told_consume server r s f' s' ds).
  - by apply (told_join server r s).
Qed.

(** C28.  Handlers see exactly the store: after any history in which the resync timer does
    not tick, what each listener was sent is a coherent account of the store. Replayed from
    nothing, every addition is of a new object, every update starts from the state the
    handler was told last, every deletion is of an object it has, and the result is the
    present store.  This holds for listeners that join at any time. *)
Theorem handlers_see_the_store fs check server r s : total_indexers fs ->
  rtc (informer_step false) (∅, new_reflector, new_informer fs [] check) (server, r, s) ->
  Forall (fun l => replays ∅ (received l) (store_items (indexer s))) (listeners s).
Proof.
  intros Ht Hrun. assert (follows (∅, new_reflector, new_informer fs [] check) ∧ told (new_informer fs [] check)) as H by (split; [by apply new_follows|constructor]).
  assert (told s) as Htold.
  { change (new_informer fs [] check) with (∅ : gmap string obj, new_reflector, new_informer fs [] check).2 in H at 2. change s with (server, r, s).2. revert H.
    induction Hrun as [|st st1 st' Hstep _ IH]; [by intros [_ ?]|]. intros [Hf Htold]. apply IH. split; [by apply (follows_step false st)|by apply (told_step st)]. }
  apply (Forall_impl _ _ _ Htold). by intros l [_ ?].
Qed.

(** A list is safe when nothing is queued. *)
Lemma idle_relist_safe r s server : items (r_store r) = ∅ -> relist_safe r s server.
Proof.
  intros Hi id. destruct (server !! id); [unfold willObjectBeDeletedLocked; by rewrite Hi, lookup_empty|]. rewrite pending_nil; [done|]. by rewrite Hi, lookup_empty.
Qed.
End Informer.
Arguments sharedIndexInformer : clear implicits.
Arguments Reflector : clear implicits.

(** ** Runs

    Objects with a name and a value, in a store without indexers. *)
Definition demo_obj : Type := string * string.
Definition demo_key (o : demo_obj) : result string := Ok o.1.
Definition demo_visit (A : Type) (m : gmap string A) : list (string * A) := map_to_list m.
Definition demo_informer : sharedIndexInformer demo_obj := new_informer (obj := demo_obj) ∅ [] 0.
Definition demo_a : demo_obj := ("a", "1")%string.
Definition demo_a' : demo_obj := ("a", "2")%string.

Lemma demo_no_indexers : total_indexers (∅ : Indexers (Object demo_obj)).
Proof. intros name f o H. by rewrite lookup_empty in H. Qed.

Lemma demo_lists : lists demo_key [demo_a] {["a"%string := demo_a]}.
Proof.
  split; [by repeat constructor|apply NoDup_singleton|]. intros id o. rewrite lookup_singleton_Some, list_elem_of_singleton. unfold demo_key. split.
  - by intros [<- <-].
  - by intros [-> [= <-]].
Qed.

Lemma demo_lists_nothing : lists demo_key [] ∅.
Proof. split; [constructor|constructor|]. intros id o. rewrite lookup_empty, elem_of_nil. naive_solver. Qed.

Definition demo_listed : Reflector demo_obj := (list_objects demo_key demo_visit (indexer demo_informer) new_reflector [demo_a] "1").1.

Lemma demo_listed_run ticks : rtc (informer_step demo_key demo_visit ticks) (∅, new_reflector, demo_informer) ({["a"%string := demo_a]}, demo_listed, demo_informer).
Proof. apply rtc_once. apply step_list; [apply demo_lists|by apply idle_relist_safe]. Qed.

Lemma informer_catches_up_witness : ∃ f' s',
  drain demo_key demo_visit 1 (r_store (watchHandlerHelper demo_key demo_visit (indexer demo_informer) demo_listed (mkEvent WatchModified (Some (demo_a', "2"%string)))).1) demo_informer = Some (f', s') ∧
  store_items (indexer s') !! "a"%string = Some (Plain demo_a').
Proof.
  destruct (informer_catches_up demo_key demo_visit (fun A m => reflexivity _) true ∅ [] 0 (<["a"%string := demo_a']> {["a"%string := demo_a]})
    (watchHandlerHelper demo_key demo_visit (indexer demo_informer) demo_listed (mkEvent WatchModified (Some (demo_a', "2"%string)))).1 demo_informer demo_no_indexers)
    as (f' & s' & E & _ & Hi & _).
  - eapply rtc_r; [apply demo_listed_run|]. exact (step_watch demo_key demo_visit true {["a"%string := demo_a]} demo_listed demo_informer WatchModified demo_a' "2" "a" (or_intror (or_introl eq_refl)) eq_refl).
  - exists f', s'. split; [exact E|]. rewrite Hi. reflexivity.
Defined.

(** An object that is added and gone again before the consumer has seen it: the list without it
    leaves it in the store. *)
Lemma relist_agrees_exactly_when_safe_witness : ∃ f' s',
  drain demo_key demo_visit 1 (r_store (list_objects demo_key demo_visit (indexer demo_informer) demo_listed [] "2").1) demo_informer = Some (f', s') ∧
  store_items (indexer s') !! "a"%string <> None.
Proof.
  destruct (relist_agrees_exactly_when_safe demo_key demo_visit (fun A m => reflexivity _) true ∅ [] 0 {["a"%string := demo_a]} demo_listed demo_informer ∅ [] "2"
    demo_no_indexers (demo_listed_run true) demo_lists_nothing) as (f' & s' & E & H).
  exists f', s'. split; [exact E|]. intros Hn. destruct (proj1 (H "a"%string)) as [? Hs]; [rewrite Hn; reflexivity|vm_compute; by eexists|]. vm_compute in Hs. discriminate Hs.
Defined.

Definition demo_joined : sharedIndexInformer demo_obj := AddEventHandlerWithResyncPeriod demo_visit 0 demo_informer 0.

Lemma handlers_see_the_store_witness : ∃ f' s', process_one demo_key demo_visit (r_store demo_listed) demo_joined = (f', Some s', Popped [mkDelta Sync (Plain demo_a)] None) ∧
  Forall (fun l => replays demo_key ∅ (received l) (store_items (indexer s'))) (listeners s') ∧ length (listeners s') = 1%nat.
Proof.
  eexists _, _. split; [vm_compute; reflexivity|]. split; [|reflexivity].
  eapply (handlers_see_the_store demo_key demo_visit (fun A m => reflexivity _) ∅ 0 {["a"%string := demo_a]} _ _ demo_no_indexers).
  eapply rtc_r; [eapply rtc_r; [apply demo_listed_run|apply (step_join demo_key demo_visit false _ _ demo_informer 0 0 eq_refl)]|]. eapply step_consume. vm_compute. reflexivity.
Defined.

(** Two listeners, one of which asks for a resync each second.  After a tick the other one
    is not told of a change that a list brings. *)
Definition demo_two : sharedIndexInformer demo_obj :=
  mkInformer (NewThreadSafeStore ∅ ∅) 1000000000 true false [mkListener 0 0 0 true []; mkListener 1000000000 1000000000 1000000000 true []].

Lemma list_after_tick_hides_change : match drain demo_key demo_visit 1 (r_store demo_listed) demo_two with
  | Some (f, s) =>
      let '(r, s, _) := resync_tick demo_key demo_visit 1000000000 (with_store demo_listed f) s in
      match drain demo_key demo_visit 1 (r_store r) s with
      | Some (f, s) =>
          match drain demo_key demo_visit 1 (r_store (list_objects demo_key demo_visit (indexer s) (with_store r f) [demo_a'] "2").1) s with
          | Some (_, s) => store_items (indexer s) !! "a"%string = Some (Plain demo_a') ∧ received <$> listeners s =
              [[addNotification (Plain demo_a)];
               [addNotification (Plain demo_a); updateNotification (Plain demo_a) (Plain demo_a); updateNotification (Plain demo_a) (Plain demo_a')]]
          | None => False
          end
      | None => False
      end
  | None => False
  end.
Proof. vm_compute. split; reflexivity. Qed.
