(* ===== verification/Common.v ===== *)
(** * Shared controller helpers

    Models [globalscheduler/controllers/util/common.go]: removal of a cluster
    name from a slice, the division of an integer interval into ranges that the
    distributor, dispatcher and scheduler controllers use to partition work, and
    the sorted string slices of the dispatcher controller. *)
From S2P Require Import Prelude.

Local Open Scope Z_scope.

(** ** Removal by name *)

(** [RemoveCluster]: the first position holding the name (0 when the name does
    not occur) is swapped with the last element and cut off (common.go:24-34). *)
Definition RemoveCluster (clusters : list string) (clusterName : string) : option (list string) :=
  swap_remove clusters (first_index (fun v => String.eqb v clusterName) clusters).

(** ** Interval division *)

(** The loop of [EvenlyDivide]; [fuel] bounds its iterations by [size]
    (common.go:54-69 EvenlyDivide). *)
Fixpoint evenly_divide_loop (fuel : nat) (size upper chunk md : Z) (i start : Z) : list (Z * Z) :=
  match fuel with
  | O => []
  | S fuel =>
      if i <? size then
        let e := wrap64 (start + chunk - 1) in
        let e := if i <=? md then wrap64 (e + 1) else e in
        if (upper <? start) || (upper <? e) then []
        else (start, e) :: evenly_divide_loop fuel size upper chunk md (i + 1) (wrap64 (e + 1))
      else []
  end.

(** [EvenlyDivide]: Go's [/] and [%] truncate, hence [Z.quot] and [Z.rem]
    (common.go:40-70). *)
Definition EvenlyDivide (size upper : Z) : list (Z * Z) :=
  if size <=? 0 then []
  else evenly_divide_loop (Z.to_nat size) size upper (Z.quot upper size) (Z.rem upper size) 0 0.

(** The full range of the hashes (common.go:36-38). *)
Definition EvenlyDivideInt64 (size : Z) : list (Z * Z) := EvenlyDivide size MaxInt64.

(** ** Sorted string slices *)

(** Go's built-in [copy(dst\[off:\], src)]. *)
Definition go_copy {A} (dst : list A) (off : nat) (src : list A) : list A :=
  take off dst ++ take (length dst - off) src ++ drop (off + length src) dst.

(** [sort.SearchStrings]: the least index whose element is not below [s]. *)
Definition SearchStrings (ss : list string) (s : string) : nat :=
  sort_Search (length ss) (fun i => String.leb s (ss !!! i)).

(** Grow by one, shift the tail right, store (common.go:72-78). *)
Definition InsertIntoSortedArray (ss : list string) (s : string) : list string :=
  let i := SearchStrings ss s in
  let ss := ss ++ [""%string] in
  let ss := go_copy ss (i + 1) (drop i ss) in
  <[i := s]> ss.

(** Shift the tail left over the found position (common.go:80-91). *)
Definition RemoveFromSortedArray (ss : list string) (s : string) : list string :=
  let i := SearchStrings ss s in
  let ssLen := length ss in
  if (Nat.ltb i ssLen && String.eqb (ss !!! i) s)%bool then
    if Nat.ltb 0 ssLen then take (ssLen - 1) (go_copy ss i (drop (i + 1) ss)) else ss
  else ss.

(** * Facts *)

(** ** Interval division *)

(** The left end of range [i]. *)
Definition range_start (size upper i : Z) : Z :=
  i * (upper / size) + Z.min i (upper mod size + 1).

Definition in_range (x : Z) (r : Z * Z) : Prop := r.1 <= x <= r.2.

(** The number of ranges produced. *)
Definition range_count (size upper : Z) : Z := Z.min size (upper + 1).

Section EvenlyDivide.
Context (size upper : Z).
Hypothesis Hsize : 0 < size <= MaxInt64.
Hypothesis Hupper : 0 <= upper <= MaxInt64.

Local Abbreviation count := (range_count size upper).
Local Abbreviation s := (range_start size upper).

(** The arithmetic facts every lemma below starts from. *)
Local Lemma division_facts :
  upper = size * (upper / size) + upper mod size ∧ 0 <= upper mod size < size ∧
  0 <= upper / size ∧ (size <= upper -> 1 <= upper / size) ∧
  (upper < size -> upper / size = 0 ∧ upper mod size = upper).
Proof using Hsize Hupper.
  split_and!.
  - apply Z.div_mod. lia.
  - apply Z.mod_pos_bound. lia.
  - apply Z.mod_pos_bound. lia.
  - apply Z.div_pos; lia.
  - intros. apply Z.div_le_lower_bound; lia.
  - intros. split; [apply Z.div_small|apply Z.mod_small]; lia.
Qed.

Local Ltac division :=
  unfold range_start, range_count in *; pose proof division_facts as (? & ? & ? & ? & ?);
  destruct (Z.le_gt_cases size upper);
  repeat match goal with
  | H : ?P -> _, H' : ?P |- _ => specialize (H H')
  | H : upper / size = 0 ∧ upper mod size = upper |- _ => destruct H as [H ?]; rewrite H in *; clear H
  | H : upper mod size = upper |- _ => rewrite H in *; clear H
  end.

Lemma range_start_total : s count = upper + 1.
Proof using Hsize Hupper.
  division; [rewrite (Z.min_l size)|rewrite (Z.min_r size)]; lia.
Qed.

Lemma range_start_step i : 0 <= i < count -> s i < s (i + 1).
Proof using Hsize Hupper. intros. division; lia. Qed.

Lemma range_start_width i : 0 <= i < count ->
  s (i + 1) - s i = upper / size ∨ s (i + 1) - s i = upper / size + 1.
Proof using Hsize Hupper. intros. unfold range_start. lia. Qed.

Lemma range_start_mono i j : 0 <= i <= j -> s i <= s j.
Proof using Hsize Hupper.
  intros. pose proof division_facts as (_ & _ & ? & _).
  pose proof (Z.mul_nonneg_nonneg (j - i) (upper / size) ltac:(lia) ltac:(lia)).
  unfold range_start. lia.
Qed.

Lemma range_start_upper i : 0 <= i < count -> 0 <= s i ∧ s (i + 1) - 1 <= upper.
Proof using Hsize Hupper.
  intros. split; [pose proof (range_start_mono 0 i ltac:(lia)); division; lia|].
  pose proof (range_start_mono (i + 1) count ltac:(lia)). rewrite range_start_total in *. lia.
Qed.

(** The loop, started at its [i]-th iteration, produces the ranges [i], [i+1], ... *)
Lemma evenly_divide_loop_eq fuel i :
  Z.of_nat fuel = size - i -> 0 <= i <= count ->
  evenly_divide_loop fuel size upper (Z.quot upper size) (Z.rem upper size) i (wrap64 (s i)) =
  (fun k => (s k, s (k + 1) - 1)) <$> seqZ i (count - i).
Proof using Hsize Hupper.
  revert i. induction fuel as [|fuel IH]; intros i Hf Hi; cbn [evenly_divide_loop].
  { rewrite seqZ_nil by (unfold range_count in *; lia). done. }
  destruct (Z.ltb_spec i size); [|lia].
  destruct (decide (i = count)) as [->|Hne].
  { rewrite Z.sub_diag, seqZ_nil by done. rewrite range_start_total.
    assert (upper < MaxInt64) by (unfold range_count in *; lia).
    rewrite (wrap64_id (upper + 1)) by auto with go.
    destruct (Z.ltb_spec upper (upper + 1)); [done|lia]. }
  assert (0 <= i < count) as Hi' by lia.
  pose proof (range_start_upper i Hi') as [? ?]. pose proof (range_start_step i Hi').
  rewrite (wrap64_id (s i)) by auto with go.
  rewrite Z.quot_div_nonneg, Z.rem_mod_nonneg by lia.
  assert (s i + upper / size - 1 = s (i + 1) - 1 - (if i <=? upper mod size then 1 else 0)) as ->.
  { unfold range_start. destruct (Z.leb_spec i (upper mod size)); lia. }
  rewrite (wrap64_id (_ - _ - _)) by (unfold int64_range, MinInt64 in *; case_match; lia).
  assert ((if i <=? upper mod size then
      wrap64 (s (i + 1) - 1 - (if i <=? upper mod size then 1 else 0) + 1)
    else s (i + 1) - 1 - (if i <=? upper mod size then 1 else 0)) = s (i + 1) - 1) as ->.
  { case_match; [|lia]. rewrite wrap64_id by auto with go. lia. }
  destruct (Z.ltb_spec upper (s i)); [lia|].
  destruct (Z.ltb_spec upper (s (i + 1) - 1)); [lia|]. simpl.
  rewrite (seqZ_cons i (count - i)) by lia. simpl. f_equal.
  replace (s (i + 1) - 1 + 1) with (s (i + 1)) by lia.
  specialize (IH (i + 1)). rewrite Z.quot_div_nonneg, Z.rem_mod_nonneg in IH by lia.
  rewrite IH by lia. unfold Z.succ, Z.pred. do 2 f_equal; lia.
Qed.

(** Closed form of the result. *)
Lemma EvenlyDivide_eq :
  EvenlyDivide size upper = (fun k => (s k, s (k + 1) - 1)) <$> seqZ 0 count.
Proof using Hsize Hupper.
  unfold EvenlyDivide. destruct (Z.leb_spec size 0); [lia|].
  pose proof (evenly_divide_loop_eq (Z.to_nat size) 0) as H0.
  replace (s 0) with 0 in H0 by (division; lia). rewrite wrap64_id in H0 by auto with go.
  rewrite H0 by (unfold range_count; lia). by rewrite Z.sub_0_r.
Qed.

Lemma EvenlyDivide_lookup k r :
  EvenlyDivide size upper !! k = Some r <->
  Z.of_nat k < count ∧ r = (s (Z.of_nat k), s (Z.of_nat k + 1) - 1).
Proof using Hsize Hupper.
  rewrite EvenlyDivide_eq, list_lookup_fmap. split.
  - intros (i & [-> ?]%lookup_seqZ & ->)%fmap_Some. split; [lia|done].
  - intros [? ->]. rewrite (lookup_seqZ_lt 0 count k) by lia. done.
Qed.

Lemma EvenlyDivide_length : Z.of_nat (length (EvenlyDivide size upper)) = count.
Proof using Hsize Hupper.
  rewrite EvenlyDivide_eq, length_fmap, length_seqZ. unfold range_count. lia.
Qed.
End EvenlyDivide.

(** Every point below the upper bound lies in some range. *)
Lemma range_containing size upper (n : nat) x :
  0 <= x < range_start size upper (Z.of_nat n) ->
  ∃ k : nat, (k < n)%nat ∧
    range_start size upper (Z.of_nat k) <= x < range_start size upper (Z.of_nat k + 1).
Proof.
  induction n as [|n IH]; intros Hx.
  - unfold range_start in Hx. lia.
  - destruct (Z.lt_ge_cases x (range_start size upper (Z.of_nat n))).
    + destruct IH as (k & ? & ?); [lia|]. exists k. split; [lia|done].
    + exists n. split; [lia|]. replace (Z.of_nat n + 1) with (Z.of_nat (S n)) by lia. lia.
Qed.

(** Dividing [\[0, upper\]] among [size] workers yields
    [min size (upper + 1)] ranges that partition the interval: every point
    belongs to exactly one range, every range is a non-empty part of the
    interval, and two ranges differ in width by at most one.  No step
    overflows: this holds up to [upper = MaxInt64], where the loop's final
    [end + 1] wraps around. *)
Theorem evenly_divide_partition size upper :
  0 < size <= MaxInt64 -> 0 <= upper <= MaxInt64 ->
  Z.of_nat (length (EvenlyDivide size upper)) = Z.min size (upper + 1) ∧
  (forall x, 0 <= x <= upper ->
     ∃ k r, EvenlyDivide size upper !! k = Some r ∧ in_range x r ∧
       forall k' r', EvenlyDivide size upper !! k' = Some r' -> in_range x r' -> k' = k) ∧
  (forall k r, EvenlyDivide size upper !! k = Some r -> 0 <= r.1 <= r.2 ∧ r.2 <= upper) ∧
  (forall k r k' r', EvenlyDivide size upper !! k = Some r ->
     EvenlyDivide size upper !! k' = Some r' -> Z.abs ((r.2 - r.1) - (r'.2 - r'.1)) <= 1).
Proof.
  intros Hs Hu. split_and!.
  - by apply EvenlyDivide_length.
  - intros x Hx. pose proof (range_start_total size upper Hs Hu) as Htot.
    destruct (range_containing size upper (Z.to_nat (range_count size upper)) x) as (k & Hk & Hkx).
    { unfold range_count in *. rewrite Z2Nat.id, Htot by lia. lia. }
    exists k, (range_start size upper (Z.of_nat k), range_start size upper (Z.of_nat k + 1) - 1).
    split_and!; [apply EvenlyDivide_lookup; [done|done|split; [lia|done]]|unfold in_range; simpl; lia..|].
    intros k' r' [? ->]%EvenlyDivide_lookup Hin; [|done|done]. unfold in_range in Hin. simpl in Hin.
    destruct (Z.lt_trichotomy (Z.of_nat k) (Z.of_nat k')) as [Hlt|[?|Hlt]]; [|lia|].
    + pose proof (range_start_mono size upper Hs Hu (Z.of_nat k + 1) (Z.of_nat k') ltac:(lia)). lia.
    + pose proof (range_start_mono size upper Hs Hu (Z.of_nat k' + 1) (Z.of_nat k) ltac:(lia)). lia.
  - intros k r [? ->]%EvenlyDivide_lookup; [|done|done]. simpl.
    pose proof (range_start_upper size upper Hs Hu (Z.of_nat k) ltac:(lia)).
    pose proof (range_start_step size upper Hs Hu (Z.of_nat k) ltac:(lia)). lia.
  - intros k r k' r' [? ->]%EvenlyDivide_lookup [? ->]%EvenlyDivide_lookup; try done. simpl.
    pose proof (range_start_width size upper Hs Hu (Z.of_nat k) ltac:(lia)).
    pose proof (range_start_width size upper Hs Hu (Z.of_nat k') ltac:(lia)). lia.
Qed.

Lemma evenly_divide_partition_witness :
  EvenlyDivide 3 MaxInt64 =
    [(0, 3074457345618258602); (3074457345618258603, 6148914691236517205);
     (6148914691236517206, 9223372036854775807)] ∧
  Z.of_nat (length (EvenlyDivide 3 MaxInt64)) = 3.
Proof.
  split; [vm_compute; reflexivity|].
  apply (evenly_divide_partition 3 MaxInt64); unfold MaxInt64; lia.
Defined.

(** ** Sorted string slices *)

Lemma Sorted_lookup_le (ss : list string) a b x y :
  Sorted String.le ss -> ss !! a = Some x -> ss !! b = Some y -> (a <= b)%nat -> String.le x y.
Proof.
  intros Hs%Sorted_StronglySorted Ha Hb Hab; [|apply _].
  destruct (decide (a = b)) as [->|]; [by simplify_eq|].
  rewrite <- (take_drop (S a) ss) in Hs.
  apply (StronglySorted_app_1_elem_of _ _ _ _ _ Hs); apply list_elem_of_lookup.
  - exists a. rewrite lookup_take_lt by lia. done.
  - exists (b - S a)%nat. rewrite lookup_drop. rewrite <- Hb. f_equal. lia.
Qed.

Lemma SearchStrings_spec ss s :
  Sorted String.le ss ->
  (SearchStrings ss s <= length ss)%nat ∧
  (forall k x, (k < SearchStrings ss s)%nat -> ss !! k = Some x -> String.le x s ∧ x ≠ s) ∧
  (forall k x, (SearchStrings ss s <= k)%nat -> ss !! k = Some x -> String.le s x).
Proof.
  intros Hs. unfold SearchStrings.
  destruct (sort_Search_spec (length ss) (fun i => String.leb s (ss !!! i))) as (Hle & Hlo & Hhi).
  { intros a b Hab Hb Ha.
    destruct (lookup_lt_is_Some_2 ss a ltac:(lia)) as [x Hx].
    destruct (lookup_lt_is_Some_2 ss b ltac:(lia)) as [y Hy].
    rewrite (list_lookup_total_correct _ _ _ Hx) in Ha. rewrite (list_lookup_total_correct _ _ _ Hy).
    apply Is_true_true. trans x; [by apply Is_true_true|].
    by apply (Sorted_lookup_le ss a b). }
  split_and!; [done| |].
  - intros k x Hk Hx. specialize (Hlo k Hk). rewrite (list_lookup_total_correct _ _ _ Hx) in Hlo.
    split.
    + destruct (total String.le x s) as [?|H]; [done|]. unfold String.le in H. by rewrite Hlo in H.
    + intros ->. pose proof (reflexivity s : String.le s s) as H. unfold String.le in H. by rewrite Hlo in H.
  - intros k x Hk Hx. pose proof (lookup_lt_Some _ _ _ Hx).
    specialize (Hhi k ltac:(lia)). rewrite (list_lookup_total_correct _ _ _ Hx) in Hhi.
    by apply Is_true_true.
Qed.

(** What the shifting copies compute. *)
Lemma InsertIntoSortedArray_eq ss s :
  (SearchStrings ss s <= length ss)%nat ->
  InsertIntoSortedArray ss s = take (SearchStrings ss s) ss ++ s :: drop (SearchStrings ss s) ss.
Proof.
  unfold InsertIntoSortedArray. set (i := SearchStrings ss s). intros Hi. unfold go_copy.
  rewrite (drop_app_le ss [""%string] i) by done.
  rewrite (drop_ge (ss ++ _)) by (rewrite !length_app, length_drop; simpl; lia). rewrite app_nil_r.
  rewrite length_app. simpl.
  rewrite (take_app_le (drop i ss)) by (rewrite length_drop; lia).
  rewrite (take_ge (drop i ss)) by (rewrite length_drop; lia).
  destruct (lookup_lt_is_Some_2 (ss ++ [""%string]) i) as [x Hx]; [rewrite length_app; simpl; lia|].
  rewrite Nat.add_1_r. rewrite (take_S_r _ _ _ Hx), (take_app_le ss) by done.
  rewrite <- app_assoc. rewrite insert_app_r_alt by (rewrite length_take; lia).
  rewrite length_take, Nat.min_l, Nat.sub_diag by done. done.
Qed.

Lemma RemoveFromSortedArray_eq ss s x :
  ss !! SearchStrings ss s = Some x -> x = s ->
  RemoveFromSortedArray ss s = take (SearchStrings ss s) ss ++ drop (S (SearchStrings ss s)) ss.
Proof.
  unfold RemoveFromSortedArray. set (i := SearchStrings ss s). intros Hx ->.
  pose proof (lookup_lt_Some _ _ _ Hx). rewrite (list_lookup_total_correct _ _ _ Hx), String.eqb_refl.
  destruct (Nat.ltb_spec i (length ss)); [|lia]. simpl.
  destruct (Nat.ltb_spec 0 (length ss)); [|lia]. unfold go_copy.
  rewrite Nat.add_1_r. rewrite (take_ge (drop (S i) ss)) by (rewrite length_drop; lia).
  rewrite app_assoc, take_app_le by (rewrite length_app, length_take, length_drop; lia).
  apply take_ge. rewrite length_app, length_take, length_drop. lia.
Qed.

Lemma StronglySorted_snoc_cons (l1 l2 : list string) s :
  StronglySorted String.le (l1 ++ l2) ->
  (forall x, x ∈ l1 -> String.le x s) -> (forall x, x ∈ l2 -> String.le s x) ->
  StronglySorted String.le (l1 ++ s :: l2).
Proof.
  rewrite !StronglySorted_app, StronglySorted_cons, Forall_forall. intros (Happ & Hl1 & Hl2) Hlow Hhigh.
  split_and!; [|done..|done]. intros x1 x2 Hx1 [->|Hx2]%elem_of_cons; naive_solver.
Qed.

Lemma InsertIntoSortedArray_sorted ss s :
  Sorted String.le ss ->
  Sorted String.le (InsertIntoSortedArray ss s) ∧ InsertIntoSortedArray ss s ≡ₚ s :: ss.
Proof.
  intros Hs. pose proof (SearchStrings_spec ss s Hs) as (Hi & Hlo & Hhi).
  rewrite InsertIntoSortedArray_eq by done. split.
  - apply StronglySorted_Sorted, StronglySorted_snoc_cons.
    + rewrite take_drop. apply Sorted_StronglySorted; [apply _|done].
    + intros x [k Hk]%list_elem_of_lookup. apply lookup_take_Some in Hk as [? ?]. by eapply Hlo.
    + intros x [k Hk]%list_elem_of_lookup. rewrite lookup_drop in Hk. eapply Hhi; [|done]. lia.
  - rewrite <- Permutation_middle. by rewrite take_drop.
Qed.

Lemma RemoveFromSortedArray_sorted ss s :
  Sorted String.le ss ->
  Sorted String.le (RemoveFromSortedArray ss s) ∧
  (s ∈ ss -> ss ≡ₚ s :: RemoveFromSortedArray ss s) ∧
  (s ∉ ss -> RemoveFromSortedArray ss s = ss).
Proof.
  intros Hs. pose proof (SearchStrings_spec ss s Hs) as (Hi & Hlo & Hhi).
  destruct (ss !! SearchStrings ss s) as [x|] eqn:Hx; [destruct (decide (x = s)) as [->|Hne]|].
  - rewrite (RemoveFromSortedArray_eq ss s s) by done. split_and!.
    + apply StronglySorted_Sorted. apply Sorted_StronglySorted in Hs; [|apply _].
      rewrite <- (take_drop_middle ss _ _ Hx) in Hs.
      rewrite !StronglySorted_app, StronglySorted_cons in Hs. rewrite StronglySorted_app.
      destruct Hs as (Hall & ? & _ & ?). split_and!; [|done..].
      intros x1 x2 ? ?. apply Hall; [done|by right].
    + intros _. rewrite Permutation_middle. by rewrite (take_drop_middle ss _ _ Hx).
    + intros []. by eapply list_elem_of_lookup_2.
  - assert (s ∉ ss) as Hnot.
    { intros [k Hk]%list_elem_of_lookup. destruct (decide (k < SearchStrings ss s)%nat).
      - by destruct (Hlo k s).
      - apply Hne, (anti_symm String.le).
        + apply (Sorted_lookup_le ss (SearchStrings ss s) k); [done..|lia].
        + apply (Hhi _ x (reflexivity _) Hx). }
    assert (RemoveFromSortedArray ss s = ss) as ->; [|done].
    unfold RemoveFromSortedArray. rewrite (list_lookup_total_correct _ _ _ Hx).
    destruct (String.eqb_spec x s); [done|]. by rewrite andb_false_r.
  - assert (s ∉ ss) as Hnot.
    { intros [k Hk]%list_elem_of_lookup. apply lookup_ge_None in Hx.
      pose proof (lookup_lt_Some _ _ _ Hk). by destruct (Hlo k s ltac:(lia)). }
    assert (RemoveFromSortedArray ss s = ss) as ->; [|done].
    unfold RemoveFromSortedArray. apply lookup_ge_None in Hx.
    destruct (Nat.ltb_spec (SearchStrings ss s) (length ss)); [lia|done].
Qed.

(** On a sorted slice, insertion and removal by binary search keep the
    slice sorted, insertion adds exactly one occurrence, removal takes exactly
    one occurrence away (and nothing when the name is absent), and removing the
    name just inserted restores the slice. *)
Theorem sorted_array_ops ss s :
  Sorted String.le ss ->
  (Sorted String.le (InsertIntoSortedArray ss s) ∧ InsertIntoSortedArray ss s ≡ₚ s :: ss) ∧
  (Sorted String.le (RemoveFromSortedArray ss s) ∧
   (s ∈ ss -> ss ≡ₚ s :: RemoveFromSortedArray ss s) ∧
   (s ∉ ss -> RemoveFromSortedArray ss s = ss)) ∧
  RemoveFromSortedArray (InsertIntoSortedArray ss s) s = ss.
Proof.
  intros Hs. destruct (InsertIntoSortedArray_sorted ss s Hs) as [Hsi Hpi].
  split_and!; [done|done|by apply RemoveFromSortedArray_sorted..|].
  destruct (RemoveFromSortedArray_sorted _ s Hsi) as (Hsr & Hpr & _).
  apply (Sorted_unique String.le); [done|done|].
  apply (Permutation_cons_inv (a := s)). rewrite <- Hpr, Hpi; [done|]. rewrite Hpi. constructor.
Qed.

Lemma sorted_array_ops_witness :
  InsertIntoSortedArray ["a"; "c"]%string "b" = ["a"; "b"; "c"]%string ∧
  RemoveFromSortedArray (InsertIntoSortedArray ["a"; "c"]%string "b") "b" = ["a"; "c"]%string.
Proof.
  split; [vm_compute; reflexivity|].
  apply (sorted_array_ops ["a"; "c"]%string "b"). repeat constructor.
Defined.

(** ** Removal by name *)

(** [RemoveCluster] removes one occurrence of a name that is present.  A
    name that is not in a non-empty slice costs the slice its first element
    instead, and an empty slice makes the call panic. *)
Theorem remove_cluster_outcomes clusters name :
  (name ∈ clusters ->
     ∃ rest, RemoveCluster clusters name = Some rest ∧ clusters ≡ₚ name :: rest) ∧
  (forall first tail, clusters = first :: tail -> name ∉ clusters ->
     ∃ rest, RemoveCluster clusters name = Some rest ∧ clusters ≡ₚ first :: rest) ∧
  (clusters = [] -> RemoveCluster clusters name = None).
Proof.
  unfold RemoveCluster. split_and!.
  - intros Hin. destruct (first_index_found (fun v => String.eqb v name) clusters name Hin) as (y & Hy & Hn).
    { apply String.eqb_refl. }
    apply String.eqb_eq in Hn as ->. by apply swap_remove_perm.
  - intros first tail -> Hnot. apply swap_remove_perm. unfold first_index.
    rewrite first_index_from_none; [done|]. intros x Hx. apply String.eqb_neq. congruence.
  - by intros ->.
Qed.

Lemma remove_cluster_outcomes_witness :
  RemoveCluster ["a"; "b"; "c"]%string "b" = Some ["a"; "c"]%string ∧
  RemoveCluster ["a"; "b"; "c"]%string "z" = Some ["c"; "b"]%string ∧
  ∃ rest, RemoveCluster ["a"; "b"; "c"]%string "b" = Some rest ∧ ["a"; "b"; "c"]%string ≡ₚ "b"%string :: rest.
Proof.
  split_and!; [vm_compute; reflexivity..|].
  apply (remove_cluster_outcomes ["a"; "b"; "c"]%string "b"). set_solver.
Defined.
