(* ===== verification/ConsistentHash.v ===== *)
(** * The consistent hash ring

    Models [globalscheduler/controllers/util/consistenthashing/consistent_hashing.go]: nodes
    are placed on a circle of 32-bit hashes, at many places each, and a member belongs to
    the node at the first place after its own hash.  The theorems show that a history
    without collisions keeps every member with its successor, that the lists of members
    per node are exact, and that a node that comes or goes moves no member between the
    others.  Without that assumption the removal of a node breaks the ring. *)
From stdpp Require Import pretty.
From S2P Require Import Prelude.

Local Open Scope Z_scope.

(** ** Hashes *)

(** (consistenthashing/consistent_hashing.go:30-30) *)
Definition VIRTUAL_NODE_NUMBER : Z := 131072.

(** [hash/fnv]'s 32-bit FNV-1: multiply, then mix in the byte. *)
Fixpoint fnv32_from (hash : Z) (s : string) : Z :=
  match s with
  | EmptyString => hash
  | String c s => fnv32_from (Z.lxor ((hash * 16777619) `mod` 2 ^ 32) (Z.of_nat (nat_of_ascii c))) s
  end.

(** (consistenthashing/consistent_hashing.go:65-69) *)
Definition fnv32Hash (key : string) : Z := fnv32_from 2166136261 key.

(** (consistenthashing/consistent_hashing.go:71-73) *)
Definition generateKey (elt : string) (idx : nat) : string := elt +:+ "#" +:+ pretty (N.of_nat idx).

(** ** The ring *)

(** (consistenthashing/consistent_hashing.go:43-50) *)
Record ConsistentHash := mkConsistentHash {
  HashCircle : gmap Z string; SortedHashes : list Z; NumberOfVirtualNodes : Z;
  Members : gmap string string; Results : gmap string (list string) }.

Definition set_ring (ch : ConsistentHash) (circle : gmap Z string) (hashes : list Z) : ConsistentHash :=
  mkConsistentHash circle hashes (NumberOfVirtualNodes ch) (Members ch) (Results ch).
Definition set_members (ch : ConsistentHash) (members : gmap string string) (results : gmap string (list string)) : ConsistentHash :=
  mkConsistentHash (HashCircle ch) (SortedHashes ch) (NumberOfVirtualNodes ch) members results.

(** (consistenthashing/consistent_hashing.go:55-62) *)
Definition New : ConsistentHash := mkConsistentHash ∅ [] VIRTUAL_NODE_NUMBER ∅ ∅.

(** The hashes of a node's places (consistenthashing/consistent_hashing.go:116-119 add). *)
Definition places (ch : ConsistentHash) (elt : string) : list Z :=
  (fun i => fnv32Hash (generateKey elt i)) <$> seq 0 (Z.to_nat (NumberOfVirtualNodes ch)).

(** (consistenthashing/consistent_hashing.go:91-96) *)
Definition addToSortedHashes (ch : ConsistentHash) (elt : list Z) : ConsistentHash :=
  set_ring ch (HashCircle ch) (merge_sort Z.le (SortedHashes ch ++ elt)).

(** The first position is taken when the hash is not there
    (consistenthashing/consistent_hashing.go:245-255). *)
Definition removeKeyFromSortedHashedFromArray (array : list Z) (ele : Z) : option (list Z) :=
  swap_remove array (first_index (fun v => v =? ele) array).

(** (consistenthashing/consistent_hashing.go:233-243) *)
Definition removeElementFromArray (array : list string) (ele : string) : option (list string) :=
  swap_remove array (first_index (fun v => String.eqb v ele) array).

(** (consistenthashing/consistent_hashing.go:98-103) *)
Definition deleteFromSortedHashes (ch : ConsistentHash) (elt : list Z) : option ConsistentHash :=
  hashes ← foldl (fun acc v => acc ← acc; removeKeyFromSortedHashedFromArray acc v) (Some (SortedHashes ch)) elt;
  Some (set_ring ch (HashCircle ch) (merge_sort Z.le hashes)).

(** The position of the first hash after the key, from the start when there is none
    (consistenthashing/consistent_hashing.go:205-217). *)
Definition search (ch : ConsistentHash) (key : Z) : nat :=
  let n := length (SortedHashes ch) in
  let idx := sort_Search n (fun x => key <? nth x (SortedHashes ch) 0) in
  if Nat.ltb idx n then idx else 0%nat.

(** One member on a ring with nodes (consistenthashing/consistent_hashing.go:186-192 Insert). *)
Definition insert_member (ch : ConsistentHash) (v : string) : option ConsistentHash :=
  h ← SortedHashes ch !! search ch (fnv32Hash v);
  let node := default ""%string (HashCircle ch !! h) in
  Some (set_members ch (<[v := node]> (Members ch)) (<[node := default [] (Results ch !! node) ++ [v]]> (Results ch))).

(** (consistenthashing/consistent_hashing.go:178-195 Insert) *)
Definition ch_Insert (ch : ConsistentHash) (names : list string) : option ConsistentHash :=
  if Nat.eqb (size (HashCircle ch)) 0 then Some (set_members ch (foldl (fun m v => <[v := "nil"%string]> m) (Members ch) names) (Results ch))
  else foldl (fun acc v => ch ← acc; insert_member ch v) (Some ch) names.

(** (consistenthashing/consistent_hashing.go:197-203) *)
Definition GetIdList (ch : ConsistentHash) (name : string) : list string := default [] (Results ch !! name).

(** (consistenthashing/consistent_hashing.go:141-150 delete) *)
Definition ch_Delete (ch : ConsistentHash) (elt : string) : option ConsistentHash :=
  match Members ch !! elt with
  | None => Some ch
  | Some res =>
      ids ← removeElementFromArray (default [] (Results ch !! res)) elt;
      Some (set_members ch (delete elt (Members ch)) (<[res := ids]> (Results ch)))
  end.

Section Ring.
(** The order in which [range] visits the members. *)
Context (range : gmap string string -> list (string * string)).

(** (consistenthashing/consistent_hashing.go:220-231) *)
Definition rebalance (ch : ConsistentHash) : option ConsistentHash := ch_Insert (set_members ch (Members ch) ∅) (range (Members ch)).*1.

Definition rebalance_members (ch : ConsistentHash) : option ConsistentHash :=
  if Nat.ltb 0 (size (Members ch)) then rebalance ch else Some ch.

(** (consistenthashing/consistent_hashing.go:112-132 add) *)
Definition ch_Add (ch : ConsistentHash) (elt : list string) : option ConsistentHash :=
  let circle := foldl (fun circle v => foldl (fun circle h => <[h := v]> circle) circle (places ch v)) (HashCircle ch) elt in
  rebalance_members (addToSortedHashes (set_ring ch circle (SortedHashes ch)) (elt ≫= places ch)).

(** (consistenthashing/consistent_hashing.go:159-176 remove) *)
Definition ch_Remove (ch : ConsistentHash) (elt : string) : option ConsistentHash :=
  let circle := foldl (fun circle h => delete h circle) (HashCircle ch) (places ch elt) in
  ch ← deleteFromSortedHashes (set_ring ch circle (SortedHashes ch)) (places ch elt);
  rebalance_members ch.
End Ring.

(** ** Successors *)

(** [h] is the first of the hashes in [P] after [key] on the circle. *)
Definition successor (P : Z -> Prop) (key h : Z) : Prop :=
  P h ∧ ((key < h ∧ forall h', P h' -> key < h' -> h <= h') ∨ ((forall h', P h' -> h' <= key) ∧ forall h', P h' -> h <= h')).

Lemma successor_unique P key h1 h2 : successor P key h1 -> successor P key h2 -> h1 = h2.
Proof.
  intros (H1 & C1) (H2 & C2). destruct C1 as [[L1 M1]|[A1 M1]], C2 as [[L2 M2]|[A2 M2]].
  - specialize (M1 _ H2 L2). specialize (M2 _ H1 L1). lia.
  - specialize (A2 _ H1). lia.
  - specialize (A1 _ H2). lia.
  - specialize (M1 _ H2). specialize (M2 _ H1). lia.
Qed.

(** A new place takes members only from its own successor. *)
Lemma successor_grows (P Q : Z -> Prop) key h h' : (forall x, P x -> Q x) -> successor P key h -> successor Q key h' -> h' = h ∨ ~ P h'.
Proof.
  intros Hsub (Hh & C) (Hh' & C'). destruct (decide (h' = h)) as [|Hne]; [by left|right]. intros HP. apply Hne.
  apply (successor_unique P key); [|by split]. split; [done|].
  destruct C' as [[L M]|[A M]]; [left|right]; split; auto.
Qed.

Lemma successor_ext (P Q : Z -> Prop) key h : (forall x, P x <-> Q x) -> successor P key h -> successor Q key h.
Proof.
  intros HPQ (Hh & C). split; [by apply HPQ|]. destruct C as [[L M]|[A M]]; [left|right]; split; try done; intros h' Hh'; [| |]; try apply A; try apply M; by apply HPQ.
Qed.

Lemma sorted_nth l : StronglySorted Z.le l -> forall a b, (a <= b)%nat -> (b < length l)%nat -> nth a l 0 <= nth b l 0.
Proof.
  induction 1 as [|x l Hs IH Hx]; intros a b Hab Hb; [cbn in Hb; lia|]. destruct a as [|a], b as [|b]; cbn in *; try lia.
  - rewrite Forall_forall in Hx. apply Hx, list_elem_of_In, nth_In. lia.
  - apply IH; lia.
Qed.

(** The binary search finds the successor. *)
Lemma search_successor ch key : StronglySorted Z.le (SortedHashes ch) -> SortedHashes ch <> [] ->
  ∃ h, SortedHashes ch !! search ch key = Some h ∧ successor (.∈ SortedHashes ch) key h.
Proof.
  intros Hs Hne. unfold search. set (l := SortedHashes ch) in *. set (f := fun x => key <? nth x l 0).
  pose proof (sorted_nth l Hs) as Hmono.
  destruct (sort_Search_spec (length l) f) as (Hr & Hlo & Hhi).
  { intros a b Hab Hb. unfold f. rewrite !Z.ltb_lt. specialize (Hmono a b Hab Hb). lia. }
  set (r := sort_Search (length l) f) in *.
  assert (forall h, h ∈ l -> ∃ i, (i < length l)%nat ∧ h = nth i l 0) as Hin.
  { intros h [i Hi]%list_elem_of_lookup. exists i. split; [by apply lookup_lt_Some in Hi|]. symmetry. by apply nth_lookup_Some. }
  assert (0 < length l)%nat as Hpos by (destruct l; [done|cbn; lia]).
  assert (forall i, (i < length l)%nat -> l !! i = Some (nth i l 0)) as Hnth.
  { intros i [x Hx]%lookup_lt_is_Some. by rewrite (nth_lookup_Some _ _ _ _ Hx). }
  destruct (Nat.ltb_spec r (length l)) as [Hlt|Hge].
  - exists (nth r l 0). split; [by apply Hnth|]. split; [by eapply list_elem_of_lookup_2, Hnth|]. left.
    split; [apply Z.ltb_lt, (Hhi r); lia|]. intros h (i & Hi & ->)%Hin Hkey. apply Hmono; [|done].
    destruct (decide (r <= i)%nat) as [|Hn]; [done|]. specialize (Hlo i ltac:(lia)). unfold f in Hlo. apply Z.ltb_ge in Hlo. lia.
  - exists (nth 0 l 0). split; [by apply Hnth|]. split; [by eapply list_elem_of_lookup_2, Hnth|]. right.
    split; intros h (i & Hi & ->)%Hin; [|apply Hmono; lia]. specialize (Hlo i ltac:(lia)). unfold f in Hlo. by apply Z.ltb_ge in Hlo.
Qed.

(** ** Members and their nodes *)

(** The sorted hashes are those of the circle, each once. *)
Definition ring_ok (ch : ConsistentHash) : Prop :=
  StronglySorted Z.le (SortedHashes ch) ∧ NoDup (SortedHashes ch) ∧ forall h, h ∈ SortedHashes ch <-> is_Some (HashCircle ch !! h).

(** The node that the search finds for a member. *)
Definition owner (ch : ConsistentHash) (v : string) : string :=
  default "" (HashCircle ch !! default 0 (SortedHashes ch !! search ch (fnv32Hash v))).

(** What the search means: the node at the successor of the member's hash. *)
Definition owns (ch : ConsistentHash) (v n : string) : Prop :=
  ∃ h, successor (fun h => is_Some (HashCircle ch !! h)) (fnv32Hash v) h ∧ HashCircle ch !! h = Some n.

Definition same_ring (ch ch' : ConsistentHash) : Prop :=
  HashCircle ch' = HashCircle ch ∧ SortedHashes ch' = SortedHashes ch ∧ NumberOfVirtualNodes ch' = NumberOfVirtualNodes ch.

Lemma hashes_empty ch : ring_ok ch -> SortedHashes ch = [] <-> HashCircle ch = ∅.
Proof.
  intros (_ & _ & Hiff). split; intros H.
  - apply map_empty. intros h. destruct (HashCircle ch !! h) eqn:E; [|done]. exfalso.
    assert (h ∈ SortedHashes ch) as Hh by (apply Hiff; eauto). rewrite H in Hh. by apply elem_of_nil in Hh.
  - destruct (SortedHashes ch) as [|h l] eqn:E; [done|]. exfalso.
    assert (is_Some (HashCircle ch !! h)) as [x Hx] by (apply Hiff; by left). by rewrite H, lookup_empty in Hx.
Qed.

Lemma circle_empty ch : Nat.eqb (size (HashCircle ch)) 0 = true <-> HashCircle ch = ∅.
Proof. rewrite Nat.eqb_eq. apply map_size_empty_iff. Qed.

Lemma owner_owns ch v : ring_ok ch -> HashCircle ch <> ∅ ->
  owns ch v (owner ch v) ∧ SortedHashes ch !! search ch (fnv32Hash v) <> None.
Proof.
  intros Hok Hne. assert (SortedHashes ch <> []) as Hl by (by rewrite (hashes_empty ch Hok)). destruct Hok as (Hs & _ & Hiff).
  destruct (search_successor ch (fnv32Hash v) Hs Hl) as (h & Hh & Hsucc). unfold owner. rewrite Hh. cbn.
  split; [|done]. apply (successor_ext _ _ _ _ Hiff) in Hsucc. pose proof Hsucc as [[n Hn] _].
  exists h. split; [done|]. by rewrite Hn.
Qed.

Lemma owns_unique ch v n n' : owns ch v n -> owns ch v n' -> n = n'.
Proof. intros (h & Hh & Hn) (h' & Hh' & Hn'). pose proof (successor_unique _ _ _ _ Hh Hh'). subst. congruence. Qed.

Lemma owner_same ch ch' v : same_ring ch ch' -> owner ch' v = owner ch v.
Proof. intros (H1 & H2 & _). unfold owner, search. by rewrite H1, H2. Qed.

Lemma ring_ok_same ch ch' : same_ring ch ch' -> ring_ok ch -> ring_ok ch'.
Proof. intros (H1 & H2 & _). unfold ring_ok. by rewrite H1, H2. Qed.

Lemma insert_member_eq ch v : ring_ok ch -> HashCircle ch <> ∅ ->
  insert_member ch v = Some (set_members ch (<[v := owner ch v]> (Members ch)) (<[owner ch v := GetIdList ch (owner ch v) ++ [v]]> (Results ch))).
Proof.
  intros Hok Hne. destruct (owner_owns ch v Hok Hne) as [_ Hs]. unfold insert_member, owner, GetIdList.
  by destruct (SortedHashes ch !! search ch (fnv32Hash v)).
Qed.

(** The members inserted into a ring with nodes. *)
Lemma insert_names names : forall ch, ring_ok ch -> HashCircle ch <> ∅ -> ∃ ch',
  foldl (fun acc v => ch ← acc; insert_member ch v) (Some ch) names = Some ch' ∧ same_ring ch ch' ∧
  (forall v, Members ch' !! v = if decide (v ∈ names) then Some (owner ch v) else Members ch !! v) ∧
  (forall n, GetIdList ch' n = GetIdList ch n ++ filter (fun v => owner ch v = n) names).
Proof.
  induction names as [|v names IH]; intros ch Hok Hne.
  - exists ch. split; [done|]. split; [done|]. split; [intros v; by rewrite decide_False by apply not_elem_of_nil|]. intros n. by rewrite app_nil_r.
  - cbn [foldl]. set (ch1 := set_members ch (<[v := owner ch v]> (Members ch)) (<[owner ch v := GetIdList ch (owner ch v) ++ [v]]> (Results ch))).
    assert ((Some ch ≫= fun ch => insert_member ch v) = Some ch1) as -> by (by apply insert_member_eq). destruct (IH ch1) as (ch' & -> & Hsame & Hm & Hr); [done..|]. clear IH.
    exists ch'. split; [done|]. assert (forall x, owner ch1 x = owner ch x) as Ho by (intros x; by apply owner_same).
    split; [done|]. split.
    + intros x. rewrite Hm, Ho. unfold ch1 at 1. cbn [Members set_members]. destruct (decide (x = v)) as [->|Hx].
      * rewrite (decide_True (P := v ∈ v :: names)) by (by left). rewrite lookup_insert_eq. by destruct (decide (v ∈ names)).
      * rewrite lookup_insert_ne by done. destruct (decide (x ∈ names)) as [Hi|Hi]; [by rewrite decide_True by (by right)|].
        by rewrite decide_False by (by intros [?|?]%elem_of_cons).
    + intros n. rewrite Hr, filter_cons. rewrite (list_filter_iff _ (fun x => owner ch x = n)) by (intros x; by rewrite Ho).
      unfold GetIdList at 1, ch1. cbn [Results set_members].
      destruct (decide (owner ch v = n)) as [->|Hn]; [|by rewrite lookup_insert_ne]. rewrite lookup_insert_eq. cbn [default from_option id]. by rewrite <- app_assoc.
Qed.

(** Without nodes the members have none; with nodes each has its owner, and the list of a
    node holds exactly its members. *)
Definition assigned (ch : ConsistentHash) : Prop :=
  (HashCircle ch = ∅ -> (forall v n, Members ch !! v = Some n -> n = "nil"%string) ∧ forall n, GetIdList ch n = []) ∧
  (HashCircle ch <> ∅ -> (forall v n, Members ch !! v = Some n -> n = owner ch v) ∧
     forall n, NoDup (GetIdList ch n) ∧ forall v, v ∈ GetIdList ch n <-> Members ch !! v = Some n).

Lemma nil_members names : forall (m : gmap string string) v,
  foldl (fun m v => <[v := "nil"%string]> m) m names !! v = if decide (v ∈ names) then Some "nil"%string else m !! v.
Proof.
  induction names as [|x names IH]; intros m v; cbn [foldl]; [by rewrite decide_False by apply not_elem_of_nil|]. rewrite IH.
  destruct (decide (v ∈ names)) as [Hi|Hi]; [by rewrite decide_True by (by right)|]. destruct (decide (v = x)) as [->|Hx].
  - by rewrite lookup_insert_eq, decide_True by (by left).
  - rewrite lookup_insert_ne by done. by rewrite decide_False by (by intros [?|?]%elem_of_cons).
Qed.

(** Inserting names of which no list knows. *)
Lemma insert_ok ch names : ring_ok ch -> NoDup names ->
  (HashCircle ch = ∅ -> (forall v n, Members ch !! v = Some n -> v ∉ names -> n = "nil"%string) ∧ forall n, GetIdList ch n = []) ->
  (HashCircle ch <> ∅ -> (forall v n, Members ch !! v = Some n -> v ∉ names -> n = owner ch v) ∧
     forall n, NoDup (GetIdList ch n) ∧ forall v, v ∈ GetIdList ch n <-> Members ch !! v = Some n ∧ v ∉ names) ->
  ∃ ch', ch_Insert ch names = Some ch' ∧ same_ring ch ch' ∧ assigned ch' ∧
    forall v, is_Some (Members ch' !! v) <-> v ∈ names ∨ is_Some (Members ch !! v).
Proof.
  intros Hok Hnd He Hf. unfold ch_Insert. destruct (Nat.eqb (size (HashCircle ch)) 0) eqn:Es.
  - apply circle_empty in Es. destruct (He Es) as [Hm Hr]. eexists. split; [done|]. split; [done|]. split.
    + split; [|by intros []]. intros _. split; [|done]. intros v n. cbn [Members set_members]. rewrite nil_members. case_decide; [by intros [= <-]|]. eauto.
    + intros v. cbn [Members set_members]. rewrite nil_members. case_decide; naive_solver.
  - assert (HashCircle ch <> ∅) as Hne by (intros E; apply circle_empty in E; congruence). destruct (Hf Hne) as [Hm Hr].
    destruct (insert_names names ch Hok Hne) as (ch' & -> & Hsame & Hm' & Hr'). exists ch'. split; [done|]. split; [done|].
    assert (HashCircle ch' = HashCircle ch) as Hc by apply Hsame. split.
    + split; [by rewrite Hc|]. intros _. split.
      * intros v n. rewrite Hm', (owner_same _ _ v Hsame). case_decide; [by intros [= <-]|]. auto.
      * intros n. rewrite Hr'. destruct (Hr n) as [Hn Hi]. split.
        { apply NoDup_app. split; [done|]. split; [|by apply NoDup_filter]. intros v [_ Hv]%Hi [_ Hv']%list_elem_of_filter. done. }
        intros v. rewrite elem_of_app, list_elem_of_filter, Hi, Hm'. case_decide; [|tauto]. split; [intros [[_ []]|[-> _]]; done|].
        intros [= <-]. by right.
    + intros v. rewrite Hm'. case_decide; naive_solver.
Qed.

(** The circle with the places of a node, and without them. *)
Lemma put_places (v : string) l : forall (circle : gmap Z string) h,
  foldl (fun circle h => <[h := v]> circle) circle l !! h = if decide (h ∈ l) then Some v else circle !! h.
Proof.
  induction l as [|x l IH]; intros circle h; cbn [foldl]; [by rewrite decide_False by apply not_elem_of_nil|]. rewrite IH.
  destruct (decide (h ∈ l)) as [Hi|Hi]; [by rewrite decide_True by (by right)|]. destruct (decide (h = x)) as [->|Hx].
  - by rewrite lookup_insert_eq, decide_True by (by left).
  - rewrite lookup_insert_ne by done. by rewrite decide_False by (by intros [?|?]%elem_of_cons).
Qed.

Lemma cut_places l : forall (circle : gmap Z string) h,
  foldl (fun circle h => delete h circle) circle l !! h = if decide (h ∈ l) then None else circle !! h.
Proof.
  induction l as [|x l IH]; intros circle h; cbn [foldl]; [by rewrite decide_False by apply not_elem_of_nil|]. rewrite IH.
  destruct (decide (h ∈ l)) as [Hi|Hi]; [by rewrite decide_True by (by right)|]. destruct (decide (h = x)) as [->|Hx].
  - by rewrite lookup_delete_eq, decide_True by (by left).
  - rewrite lookup_delete_ne by done. by rewrite decide_False by (by intros [?|?]%elem_of_cons).
Qed.

Lemma put_nodes ch elts : forall (circle : gmap Z string) h,
  is_Some (foldl (fun circle v => foldl (fun circle h => <[h := v]> circle) circle (places ch v)) circle elts !! h) <->
  is_Some (circle !! h) ∨ h ∈ elts ≫= places ch.
Proof.
  induction elts as [|v elts IH]; intros circle h; cbn [foldl].
  - split; [by left|]. by intros [?|?%elem_of_nil].
  - rewrite IH, put_places. change ((v :: elts) ≫= places ch) with (places ch v ++ (elts ≫= places ch)). rewrite elem_of_app.
    case_decide; [|tauto]. split; [tauto|]. intros _. left. by eexists.
Qed.

(** Removing hashes that are there takes exactly them. *)
Lemma remove_hashes l : forall hs, NoDup l -> (forall h, h ∈ l -> h ∈ hs) -> ∃ rest,
  foldl (fun acc v => acc ← acc; removeKeyFromSortedHashedFromArray acc v) (Some hs) l = Some rest ∧ hs ≡ₚ l ++ rest.
Proof.
  induction l as [|x l IH]; intros hs Hnd Hin; [by exists hs|]. apply NoDup_cons in Hnd as [Hx Hnd].
  assert (∃ hs1, removeKeyFromSortedHashedFromArray hs x = Some hs1 ∧ hs ≡ₚ x :: hs1) as (hs1 & E1 & Hp1).
  { destruct (first_index_found (fun v => v =? x) hs x) as (y & Hy & Ey); [apply Hin; by left|apply Z.eqb_refl|].
    apply Z.eqb_eq in Ey as ->. by apply swap_remove_perm. }
  destruct (IH hs1 Hnd) as (rest & E & Hp).
  - intros h Hh. assert (h ∈ hs) as Hhs by (apply Hin; by right). rewrite Hp1 in Hhs. apply elem_of_cons in Hhs as [->|?]; done.
  - exists rest. cbn [foldl]. change (Some hs ≫= fun acc => removeKeyFromSortedHashedFromArray acc x) with (removeKeyFromSortedHashedFromArray hs x).
    rewrite E1. split; [done|]. by rewrite Hp1, Hp.
Qed.

Section Histories.
Context (range : gmap string string -> list (string * string)).
Hypothesis Hrange : forall m, range m ≡ₚ map_to_list m.

Lemma range_keys m v : v ∈ (range m).*1 <-> is_Some (m !! v).
Proof.
  rewrite Hrange, list_elem_of_fmap. split.
  - intros ([x n] & -> & Hx%elem_of_map_to_list). by eexists.
  - intros [n Hn]. exists (v, n). split; [done|]. by apply elem_of_map_to_list.
Qed.

Lemma rebalance_ok ch : ring_ok ch -> (Members ch = ∅ -> forall n, GetIdList ch n = []) ->
  ∃ ch', rebalance_members range ch = Some ch' ∧ same_ring ch ch' ∧ assigned ch' ∧
    forall v, is_Some (Members ch' !! v) <-> is_Some (Members ch !! v).
Proof.
  intros Hok Hnone. unfold rebalance_members. destruct (Nat.ltb_spec 0 (size (Members ch))) as [Hs|Hs].
  - unfold rebalance. set (ch1 := set_members ch (Members ch) ∅).
    assert (forall v n, Members ch !! v = Some n -> v ∉ (range (Members ch)).*1 -> False) as Hall.
    { intros v n Hv Hnot. apply Hnot, range_keys. by eexists. }
    destruct (insert_ok ch1 (range (Members ch)).*1) as (ch' & -> & Hsame & Ha & Hd).
    + done.
    + rewrite Hrange. apply NoDup_fst_map_to_list.
    + intros _. split; [intros v n Hv Hnot; by destruct (Hall v n)|done].
    + intros _. split; [intros v n Hv Hnot; by destruct (Hall v n)|]. intros n. split; [constructor|]. intros v.
      split; [by intros ?%elem_of_nil|intros [Hv Hnot]; by destruct (Hall v n)].
    + exists ch'. split; [done|]. split; [done|]. split; [done|]. intros v. rewrite Hd, range_keys. cbn. tauto.
  - assert (Members ch = ∅) as Hm by (apply map_size_empty_iff; lia). exists ch. split; [done|]. split; [done|]. split; [|done].
    split; intros _; (split; [intros v n; by rewrite Hm, lookup_empty|]); [by apply Hnone|].
    intros n. rewrite (Hnone Hm n). split; [constructor|]. intros v. rewrite Hm, lookup_empty. split; [by intros ?%elem_of_nil|done].
Qed.

(** Nodes whose places are free, each once. *)
Definition free_places (ch : ConsistentHash) (elts : list string) : Prop :=
  NoDup (elts ≫= places ch) ∧ Forall (fun h => HashCircle ch !! h = None) (elts ≫= places ch).

(** A node that is on the ring at all its places. *)
Definition on_ring (ch : ConsistentHash) (elt : string) : Prop :=
  NoDup (places ch elt) ∧ Forall (fun h => HashCircle ch !! h = Some elt) (places ch elt).

Lemma unlisted ch : assigned ch -> Members ch = ∅ -> forall n, GetIdList ch n = [].
Proof.
  intros [He Hf] Hm n. destruct (decide (HashCircle ch = ∅)) as [E|E]; [by apply He|]. destruct (Hf E) as [_ Hr].
  destruct (GetIdList ch n) as [|v l] eqn:El; [done|]. assert (v ∈ GetIdList ch n) as Hv by (rewrite El; by left).
  apply Hr in Hv. by rewrite Hm, lookup_empty in Hv.
Qed.

Lemma add_ok ch elts : ring_ok ch -> assigned ch -> free_places ch elts -> ∃ ch',
  ch_Add range ch elts = Some ch' ∧ ring_ok ch' ∧ assigned ch' ∧ NumberOfVirtualNodes ch' = NumberOfVirtualNodes ch ∧
  HashCircle ch' = foldl (fun circle v => foldl (fun circle h => <[h := v]> circle) circle (places ch v)) (HashCircle ch) elts ∧
  forall v, is_Some (Members ch' !! v) <-> is_Some (Members ch !! v).
Proof.
  intros (Hs & Hnd & Hiff) Ha (Hfnd & Hfree). rewrite Forall_forall in Hfree. unfold ch_Add. set (circle := foldl _ _ elts).
  set (ch1 := addToSortedHashes (set_ring ch circle (SortedHashes ch)) (elts ≫= places ch)).
  assert (ring_ok ch1) as Hok1.
  { split; [apply (StronglySorted_merge_sort _)|]. cbn [ch1 SortedHashes HashCircle addToSortedHashes set_ring].
    pose proof (merge_sort_Permutation Z.le (SortedHashes ch ++ (elts ≫= places ch))) as Hp. split.
    - rewrite Hp. apply NoDup_app. split; [done|]. split; [|done]. intros h Hh Hf. apply Hiff in Hh as [x Hx]. by rewrite (Hfree h Hf) in Hx.
    - intros h. rewrite Hp, elem_of_app, Hiff. unfold circle. by rewrite put_nodes. }
  destruct (rebalance_ok ch1 Hok1) as (ch' & E & Hsame & Ha' & Hd); [by apply (unlisted ch Ha)|].
  exists ch'. split; [done|]. split; [by apply (ring_ok_same ch1)|]. split; [done|]. split; [apply Hsame|]. split; [apply Hsame|done].
Qed.

Lemma remove_ok ch elt : ring_ok ch -> assigned ch -> on_ring ch elt -> ∃ ch',
  ch_Remove range ch elt = Some ch' ∧ ring_ok ch' ∧ assigned ch' ∧ NumberOfVirtualNodes ch' = NumberOfVirtualNodes ch ∧
  HashCircle ch' = foldl (fun circle h => delete h circle) (HashCircle ch) (places ch elt) ∧
  forall v, is_Some (Members ch' !! v) <-> is_Some (Members ch !! v).
Proof.
  intros (Hs & Hnd & Hiff) Ha (Hpnd & Hon). rewrite Forall_forall in Hon. unfold ch_Remove, deleteFromSortedHashes. set (circle := foldl _ _ (places ch elt)).
  cbn [SortedHashes set_ring]. destruct (remove_hashes (places ch elt) (SortedHashes ch) Hpnd) as (rest & -> & Hrest).
  { intros h Hh. apply Hiff. rewrite (Hon h Hh). by eexists. }
  bind_simpl. set (ch1 := set_ring _ _ (merge_sort Z.le rest)). rewrite Hrest in Hnd. apply NoDup_app in Hnd as (_ & Hdis & Hnd).
  assert (ring_ok ch1) as Hok1.
  { split; [apply (StronglySorted_merge_sort _)|]. cbn [ch1 SortedHashes HashCircle set_ring].
    pose proof (merge_sort_Permutation Z.le rest) as Hp. split; [by rewrite Hp|]. intros h. rewrite Hp. unfold circle. rewrite cut_places.
    specialize (Hiff h). rewrite Hrest, elem_of_app in Hiff. case_decide as Hh; [|tauto].
    split; [intros Hr; by destruct (Hdis h)|by intros [? ?]]. }
  destruct (rebalance_ok ch1 Hok1) as (ch' & E & Hsame & Ha' & Hd); [by apply (unlisted ch Ha)|].
  exists ch'. split; [done|]. split; [by apply (ring_ok_same ch1)|]. split; [done|]. split; [apply Hsame|]. split; [apply Hsame|done].
Qed.

(** A member is deleted while there are nodes, or when it is not there. *)
Lemma delete_ok ch v : ring_ok ch -> assigned ch -> HashCircle ch <> ∅ ∨ Members ch !! v = None ->
  ∃ ch', ch_Delete ch v = Some ch' ∧ same_ring ch ch' ∧ assigned ch' ∧ Members ch' = delete v (Members ch).
Proof.
  intros Hok Ha Hl. unfold ch_Delete. destruct (Members ch !! v) as [n|] eqn:Hv.
  2:{ exists ch. split; [done|]. split; [done|]. split; [done|]. by rewrite delete_id. }
  destruct Hl as [Hne|]; [|done]. destruct Ha as [_ Hf]. destruct (Hf Hne) as [Hm Hr]. destruct (Hr n) as [Hnd Hin].
  assert (v ∈ GetIdList ch n) as Hvn by (by apply Hin).
  destruct (first_index_found (fun x => String.eqb x v) (GetIdList ch n) v Hvn) as (y & Hy & Ey); [apply String.eqb_refl|].
  apply String.eqb_eq in Ey as ->. destruct (swap_remove_perm _ _ _ Hy) as (ids & E & Hp).
  unfold removeElementFromArray. fold (GetIdList ch n). rewrite E. bind_simpl. eexists. split; [done|]. split; [done|]. split; [|done].
  split; [done|]. intros _. cbn [Members set_members].
  split; [intros x m [_ Hx]%lookup_delete_Some; by apply Hm|]. intros m. unfold GetIdList. cbn [Results set_members].
  destruct (decide (n = m)) as [<-|Hm'].
  - rewrite lookup_insert_eq. cbn. rewrite Hp in Hnd. apply NoDup_cons in Hnd as [Hv' Hnd]. split; [done|]. intros x.
    specialize (Hin x). rewrite Hp, elem_of_cons in Hin. rewrite lookup_delete_Some, <- Hin. split; [intros Hx; split; [congruence|by right]|].
    intros [Hx [->|?]]; done.
  - rewrite lookup_insert_ne by done. destruct (Hr m) as [Hndm Hinm]. split; [done|]. intros x. rewrite lookup_delete_Some, <- Hinm.
    split; [|tauto]. intros Hx. split; [|done]. intros <-. apply Hinm in Hx. congruence.
Qed.
(** ** Histories *)

Inductive ring_op := AddNodes (elts : list string) | RemoveNode (elt : string) | InsertMembers (names : list string) | DeleteMember (name : string).

Definition ring_step (ch : ConsistentHash) (o : ring_op) : option ConsistentHash :=
  match o with
  | AddNodes elts => ch_Add range ch elts
  | RemoveNode elt => ch_Remove range ch elt
  | InsertMembers names => ch_Insert ch names
  | DeleteMember name => ch_Delete ch name
  end.

(** No hash is used twice, nodes are removed and members inserted once, and no member is
    deleted before there is a node. *)
Definition ring_legal (ch : ConsistentHash) (o : ring_op) : Prop :=
  match o with
  | AddNodes elts => free_places ch elts
  | RemoveNode elt => on_ring ch elt
  | InsertMembers names => NoDup names ∧ Forall (fun v => Members ch !! v = None) names
  | DeleteMember name => HashCircle ch <> ∅ ∨ Members ch !! name = None
  end.

Inductive ring_run : ConsistentHash -> list ring_op -> ConsistentHash -> Prop :=
| ring_done ch : ring_run ch [] ch
| ring_next ch o ch1 ops ch2 : ring_legal ch o -> ring_step ch o = Some ch1 -> ring_run ch1 ops ch2 -> ring_run ch (o :: ops) ch2.

Lemma ring_step_ok ch o : ring_ok ch -> assigned ch -> ring_legal ch o ->
  ∃ ch', ring_step ch o = Some ch' ∧ ring_ok ch' ∧ assigned ch'.
Proof.
  intros Hok Ha Hl. destruct o as [elts|elt|names|name]; cbn [ring_step ring_legal] in *.
  - destruct (add_ok ch elts Hok Ha Hl) as (ch' & ? & ? & ? & _). eauto.
  - destruct (remove_ok ch elt Hok Ha Hl) as (ch' & ? & ? & ? & _). eauto.
  - destruct Hl as [Hnd Hnew]. rewrite Forall_forall in Hnew. destruct Ha as [He Hf]. destruct (insert_ok ch names Hok Hnd) as (ch' & ? & ? & ? & _).
    + intros E. destruct (He E) as [Hm Hr]. split; [eauto|done].
    + intros E. destruct (Hf E) as [Hm Hr]. split; [eauto|]. intros n. destruct (Hr n) as [Hndn Hin]. split; [done|]. intros v. rewrite Hin.
      split; [|tauto]. intros Hv. split; [done|]. intros Hn. by rewrite (Hnew v Hn) in Hv.
    + eauto using ring_ok_same.
  - destruct (delete_ok ch name Hok Ha Hl) as (ch' & ? & ? & ? & _). eauto using ring_ok_same.
Qed.

Lemma ring_run_ok ch ops ch' : ring_run ch ops ch' -> ring_ok ch -> assigned ch -> ring_ok ch' ∧ assigned ch'.
Proof.
  induction 1 as [|ch o ch1 ops ch2 Hl Hstep Hrun IH]; [done|]. intros Hok Ha.
  destruct (ring_step_ok ch o Hok Ha Hl) as (ch1' & E & Hok1 & Ha1). simplify_eq. auto.
Qed.

Definition empty_ring (n : Z) : ConsistentHash := mkConsistentHash ∅ [] n ∅ ∅.

Lemma empty_ring_ok n : ring_ok (empty_ring n) ∧ assigned (empty_ring n).
Proof.
  split; [split; [constructor|split; [constructor|]]; intros h; cbn; rewrite lookup_empty; split; [by intros ?%elem_of_nil|by intros [? ?]]|].
  split; [|by intros []]. intros _. split; [|done]. intros v m. cbn. by rewrite lookup_empty.
Qed.

(** Histories of a ring on which no two places collide: whatever nodes and members
    came and went before, the next call returns without a panic; while there are nodes,
    every member belongs to the node at the first place after its hash; and the list of
    each node holds exactly its members, each once. *)
Theorem ring_assigns_successors (places_per_node : Z) (ops : list ring_op) (ch : ConsistentHash) (o : ring_op)
  (Hrun : ring_run (empty_ring places_per_node) ops ch) (Hlegal : ring_legal ch o) :
  ∃ ch', ring_step ch o = Some ch' ∧
    (HashCircle ch' <> ∅ -> (forall v n, Members ch' !! v = Some n -> owns ch' v n) ∧
       forall n, NoDup (GetIdList ch' n) ∧ forall v, v ∈ GetIdList ch' n <-> Members ch' !! v = Some n).
Proof.
  destruct (empty_ring_ok places_per_node) as [Hok0 Ha0]. destruct (ring_run_ok _ _ _ Hrun Hok0 Ha0) as [Hok Ha].
  destruct (ring_step_ok ch o Hok Ha Hlegal) as (ch' & E & Hok' & Ha'). exists ch'. split; [done|]. intros Hne.
  destruct Ha' as [_ Hf]. destruct (Hf Hne) as [Hm Hr]. split; [|done]. intros v n Hv. apply Hm in Hv as ->. by apply owner_owns.
Qed.

(** What makes the hashing consistent: a node that is added takes members from the
    others and moves none between them, and a node that is removed gives up its own
    members only. *)
Theorem ring_changes_are_local (places_per_node : Z) (ops : list ring_op) (ch ch' : ConsistentHash) (elt v n n' : string)
  (Hrun : ring_run (empty_ring places_per_node) ops ch) (Hnodes : HashCircle ch <> ∅) (Hnodes' : HashCircle ch' <> ∅)
  (Hv : Members ch !! v = Some n) (Hv' : Members ch' !! v = Some n') :
  (free_places ch [elt] -> ch_Add range ch [elt] = Some ch' -> n' = n ∨ n' = elt) ∧
  (on_ring ch elt -> ch_Remove range ch elt = Some ch' -> n <> elt -> n' = n).
Proof.
  destruct (empty_ring_ok places_per_node) as [Hok0 Ha0]. destruct (ring_run_ok _ _ _ Hrun Hok0 Ha0) as [Hok Ha].
  assert (owns ch v n) as (h & Hh & Hn) by (destruct (proj2 Ha Hnodes) as [Hm _]; rewrite (Hm _ _ Hv); by apply owner_owns).
  split.
  - intros Hfree Hadd. destruct (add_ok ch [elt] Hok Ha Hfree) as (ch1 & E & Hok' & Ha' & _ & Hc & _). simplify_eq.
    assert (owns ch' v n') as (h' & Hh' & Hn') by (destruct (proj2 Ha' Hnodes') as [Hm _]; rewrite (Hm _ _ Hv'); by apply owner_owns).
    assert (forall x, is_Some (HashCircle ch !! x) -> is_Some (HashCircle ch' !! x)) as Hsub by (intros x Hx; rewrite Hc, put_nodes; by left).
    destruct (successor_grows _ _ _ _ _ Hsub Hh Hh') as [->|Hno]; cbn [foldl] in Hc; rewrite Hc, put_places in Hn'; case_decide; simplify_eq; auto.
    destruct Hno. by eexists.
  - intros Hon Hrem Hne. destruct (remove_ok ch elt Hok Ha Hon) as (ch1 & E & Hok' & Ha' & _ & Hc & _). simplify_eq.
    assert (owns ch' v n') as (h' & Hh' & Hn') by (destruct (proj2 Ha' Hnodes') as [Hm _]; rewrite (Hm _ _ Hv'); by apply owner_owns).
    assert (forall x, is_Some (HashCircle ch' !! x) -> is_Some (HashCircle ch !! x)) as Hsub.
    { intros x. rewrite Hc, cut_places. case_decide; [by intros [? ?]|done]. }
    destruct (successor_grows _ _ _ _ _ Hsub Hh' Hh) as [->|Hno].
    + rewrite Hc, cut_places in Hn'. case_decide; congruence.
    + destruct Hno. rewrite Hc, cut_places, decide_False by (intros Hx; destruct Hon as [_ Hon]; rewrite Forall_forall in Hon; specialize (Hon h Hx); congruence). by eexists.
Qed.
End Histories.

(** A ring with two places per node. *)
Definition demo_ring_ops : list ring_op := [InsertMembers ["pod-1"; "pod-2"; "job"; "zebra"; "x"; "cluster-east"]; AddNodes ["a"; "b"]; DeleteMember "pod-2"; InsertMembers ["west"]]%string.

Definition demo_range (m : gmap string string) : list (string * string) := map_to_list m.

Fixpoint ring_exec (ch : ConsistentHash) (ops : list ring_op) : option ConsistentHash :=
  match ops with [] => Some ch | o :: ops => ch ← ring_step demo_range ch o; ring_exec ch ops end.

#[export] Instance ring_legal_dec ch o : Decision (ring_legal ch o).
Proof. destruct o; cbn [ring_legal]; unfold free_places, on_ring; apply _. Defined.


(** Running the calls and testing that each is legal. *)
Fixpoint legal_run (ch : ConsistentHash) (ops : list ring_op) : bool :=
  match ops with [] => true | o :: ops => bool_decide (ring_legal ch o) && match ring_step demo_range ch o with Some ch => legal_run ch ops | None => false end end.

Lemma exec_run ops : forall ch ch', Is_true (legal_run ch ops) -> ring_exec ch ops = Some ch' -> ring_run demo_range ch ops ch'.
Proof.
  induction ops as [|o ops IH]; intros ch ch' Hl He; cbn [legal_run ring_exec] in *; [simplify_eq; apply ring_done|].
  apply andb_True in Hl as [Ho Hl]. destruct (ring_step demo_range ch o) as [ch1|] eqn:E; [|done].
  eapply ring_next; [by apply (bool_decide_unpack _)|done|by apply IH].
Qed.

Definition demo_ring : ConsistentHash := default (empty_ring 2) (ring_exec (empty_ring 2) demo_ring_ops).

Lemma demo_ring_run : ring_run demo_range (empty_ring 2) demo_ring_ops demo_ring.
Proof.
  apply exec_run; vm_compute; [exact I|reflexivity].
Qed.

Lemma demo_range_ok m : demo_range m ≡ₚ map_to_list m.
Proof. done. Qed.

Lemma ring_assigns_successors_witness : GetIdList demo_ring "b" = ["cluster-east"; "zebra"; "job"; "x"; "pod-1"]%string ∧
  ∃ ch', ring_step demo_range demo_ring (AddNodes ["c"%string]) = Some ch' ∧ (HashCircle ch' <> ∅ -> forall v n, Members ch' !! v = Some n -> owns ch' v n).
Proof.
  split; [vm_compute; reflexivity|].
  destruct (ring_assigns_successors demo_range demo_range_ok 2 demo_ring_ops demo_ring (AddNodes ["c"%string]) demo_ring_run) as (ch' & E & H).
  - apply (bool_decide_unpack _). vm_compute. exact I.
  - exists ch'. split; [exact E|]. intros Hne. apply (H Hne).
Defined.

Definition demo_grown : ConsistentHash := default demo_ring (ch_Add demo_range demo_ring ["c"%string]).

Lemma ring_changes_are_local_witness : ch_Add demo_range demo_ring ["c"%string] = Some demo_grown ∧
  Members demo_ring !! "pod-1"%string = Some "b"%string ∧ Members demo_grown !! "pod-1"%string = Some "c"%string ∧ ("c" = "b" ∨ "c" = "c")%string.
Proof.
  assert (ch_Add demo_range demo_ring ["c"%string] = Some demo_grown) as E by (vm_compute; reflexivity).
  assert (Members demo_grown !! "pod-1"%string = Some "c"%string) as Hv' by (vm_compute; reflexivity).
  split; [exact E|]. split; [vm_compute; reflexivity|]. split; [exact Hv'|].
  apply (ring_changes_are_local demo_range demo_range_ok 2 demo_ring_ops demo_ring demo_grown "c" "pod-1" "b" "c" demo_ring_run);
    [| |vm_compute; reflexivity|exact Hv'| |exact E].
  - intros H. apply (f_equal size) in H. vm_compute in H. discriminate H.
  - intros H. apply (f_equal size) in H. vm_compute in H. discriminate H.
  - apply (bool_decide_unpack _). vm_compute. exact I.
Defined.

(** Removing a node that is not on the ring takes the hashes of others: here all that
    there are, and the next insertion panics. *)
Lemma unknown_node_breaks_ring : let ch := default (empty_ring 2) (ring_exec (empty_ring 2) [AddNodes ["a"]; RemoveNode "b"]%string) in
  size (HashCircle ch) = 2%nat ∧ SortedHashes ch = [] ∧ ch_Insert ch ["m"%string] = None.
Proof. vm_compute. split; [reflexivity|]. split; reflexivity. Qed.

(** Deleting a member before any node was added panics. *)
Lemma member_without_node_cannot_be_deleted n : (ch ← ch_Insert (empty_ring n) ["m"%string]; ch_Delete ch "m") = None.
Proof. reflexivity. Qed.
