(* ===== verification/Types.v ===== *)
(** * Data types of the scheduler

    The structs of [globalscheduler/pkg/scheduler/types/types.go] and the parts
    of [client/typed/typed.go] the modelled code reads.  A Go map is a [gmap], a
    slice is a [list] (nil and empty are not distinguished), a pointer that may
    be nil is an [option], and an [int], [int32] or [int64] is a [Z]. *)
From S2P Require Import Prelude.
From Stdlib Require Export SpecFloat.

Local Open Scope Z_scope.

(** Go's [float64]: IEEE 754 binary64, rounding to nearest even. *)
Definition float64 : Type := spec_float.
Definition fadd : float64 -> float64 -> float64 := SFadd 53 1024.
Definition fsub : float64 -> float64 -> float64 := SFsub 53 1024.
Definition fmul : float64 -> float64 -> float64 := SFmul 53 1024.
Definition fdiv : float64 -> float64 -> float64 := SFdiv 53 1024.
Definition float_of_Z (z : Z) : float64 := binary_normalize 53 1024 z 0 false.
Definition fzero : float64 := S754_zero false.

(** [int64(f)]: truncation towards zero.  Go leaves the conversion of values
    outside the range, infinities and NaN to the implementation; on amd64 it
    gives the least integer. *)
Definition int64_of_float (f : float64) : Z :=
  let trunc s m e :=
    let v := if 0 <=? e then Zpos m * 2 ^ e else Zpos m / 2 ^ (- e) in
    let v := if (s : bool) then - v else v in
    if (MinInt64 <=? v) && (v <=? MaxInt64) then v else MinInt64 in
  match f with
  | S754_zero _ => 0
  | S754_finite s m e => trunc s m e
  | _ => MinInt64
  end.

(** (types/types.go:41-50) *)
Record GeoLocation := mkGeo { Country : string; Area : string; Province : string; City : string }.

(** (types/types.go:53-58) *)
Record CloudRegion := mkCloudRegion { CR_Region : string; CR_AvailabilityZone : list string }.

(** (types/types.go:61-66) *)
Record RegionAzMap := mkRegionAz { RA_Region : string; RA_AvailabilityZone : string }.

(** (types/types.go:69-74) *)
Record Strategy := mkStrategy { LocationStrategy : string; RegionStrategy : string }.

(** (types/types.go:77-82) *)
Record Spot := mkSpot {
  MaxPrice : string; SpotDurationHours : Z; SpotDurationCount : Z; InterruptionPolicy : string }.

(** (types/types.go:84-87) *)
Record Flavor := mkFlavor { FlavorID : string; Flavor_Spot : option Spot }.

(** (types/types.go:90-100) *)
Record Resource := mkResource {
  Resource_Name : string; ResourceType : string; Flavors : list Flavor;
  Storage : gmap string Z; NeedEip : bool; Count : Z; FlavorIDSelected : string }.

(** (types/types.go:301-308) *)
Record LabelRequirement := mkLabelRequirement { LR_Key : string; LR_Operator : string; StrValues : list string }.

(** (types/types.go:103-111) *)
Record Selector := mkSelector {
  Sel_GeoLocation : GeoLocation; Sel_Regions : list CloudRegion; Sel_Operator : string;
  Sel_SiteID : string; Sel_Strategy : Strategy; StackAffinity : list LabelRequirement;
  StackAntiAffinity : list LabelRequirement }.

(** (types/types.go:152-162) *)
Record Selected := mkSelected {
  Selected_SiteID : string; Selected_Region : string; Selected_AvailabilityZone : string;
  Selected_ClusterName : string; Selected_ClusterNamespace : string }.

(** (types/types.go:114-124) *)
Record Stack := mkStack {
  PodName : string; Labels : gmap string string; Resources : list Resource;
  Stack_Selector : Selector; Stack_Selected : Selected; UID : string; CreateTime : Z;
  Tenant : string; PodNamespace : string }.

(** (types/types.go:311-314) *)
Record CPUAndMemory := mkCPUAndMemory { VCPU : Z; Memory : Z }.

(** (types/types.go:322-326) *)
Record AllResInfo := mkAllResInfo {
  CpuAndMem : gmap string CPUAndMemory; AllRes_Storage : gmap string float64; eipNum : Z }.

(** The fields of a forecast the spot filter reads (types/types.go:363-377). *)
Record PreemptibleResource := mkPreemptible {
  PR_InterruptionPolicy : string; Block : bool; Infinite : float64; Finite : gmap string float64 }.

(** (types/types.go:183-192) *)
Record SpotResource := mkSpotResource {
  CpuBlockDelayResource : PreemptibleResource; MemoryBlockDelayResource : PreemptibleResource;
  CpuDelayResource : PreemptibleResource; MemoryDelayResource : PreemptibleResource;
  CpuBlockImmediateResource : PreemptibleResource; MemoryBlockImmediateResource : PreemptibleResource;
  CpuImmediateResource : PreemptibleResource; MemoryImmediateResource : PreemptibleResource }.

(** (typed/typed.go:296-300) *)
Record SiteAttribute := mkSiteAttribute { SA_ID : string; SA_Key : string; SA_Value : string }.

(** The fields of a host the site cache reads (typed/typed.go:273-288). *)
Record Host := mkHost {
  HostID : string; TotalVCPUs : Z; UsedVCPUs : Z; TotalMem : Z; UsedMem : Z;
  Host_ResourceType : string; CPUAllocationRatio : string }.

(** (types/types.go:195-207) *)
Record Site := mkSite {
  SiteID : string; ClusterName : string; ClusterNamespace : string;
  Site_GeoLocation : GeoLocation; Site_RegionAzMap : RegionAzMap; Site_Operator : string;
  Site_Status : string; SiteAttributes : list SiteAttribute; EipTypeName : string;
  SpotResources : gmap string SpotResource; Hosts : list Host }.

(** The copy leaves the attributes, spot resources and hosts empty
    (types/types.go:209-223 Clone). *)
Definition Site_Clone (sn : Site) : Site :=
  mkSite (SiteID sn) (ClusterName sn) (ClusterNamespace sn) (Site_GeoLocation sn) (Site_RegionAzMap sn)
    (Site_Operator sn) (Site_Status sn) [] (EipTypeName sn) ∅ [].

(** The fields of an extra specification the scheduler reads (typed/typed.go:50-110). *)
Record OsExtraSpecs := mkOsExtraSpecs {
  OS_ResourceType : string; CondOperationStatus : string; CondOperationAz : string }.

(** (typed/typed.go:112-155 Flavor) *)
Record TypedFlavor := mkTypedFlavor { Flavor_ID : string; Vcpus : string; Ram : Z; Flavor_OsExtraSpecs : OsExtraSpecs }.

(** (typed/typed.go:158-162) *)
Record RegionFlavor := mkRegionFlavor { RegionFlavorID : string; RF_Region : string; RF_Flavor : TypedFlavor }.

(** (typed/typed.go:244-251) *)
Record IPCommonPool := mkIPCommonPool {
  Pool_Name : string; Pool_Status : string; Pool_Type : string; Pool_Size : Z; Pool_Used : Z; Pool_Cached : Z }.

(** (typed/typed.go:258-261) *)
Record EipPool := mkEipPool { CommonPools : list IPCommonPool; Eip_Region : string }.

(** The fields of a volume pool the site cache reads (typed/typed.go:196-215 VolumeCapabilities). *)
Record VolumePoolInfo := mkVolumePoolInfo {
  VP_AvailabilityZone : string; VP_VolumeType : string; TotalCapacityGb : float64;
  MaxOverSubscriptionRatio : float64; ProvisionedCapacityGb : float64 }.

(** (typed/typed.go:233-236) *)
Record RegionVolumePool := mkRegionVolumePool { StoragePools : list VolumePoolInfo; RVP_Region : string }.

(** A queued stack with its timestamp, in nanoseconds; the attempt counter and
    the first timestamp are never read (interfaces/interface.go:219-231). *)
Record StackInfo := mkStackInfo { SI_Stack : Stack; Timestamp : Z }.

(** ** Names and keys *)

(** (utils/utils.go:254-258) *)
Definition GetStackFullName (stack : Stack) : string := PodName stack +:+ "_" +:+ PodNamespace stack.

(** (utils/utils.go:246-251) *)
Definition GetStackPriority (stack : Stack) : Z := 0.

(** (utils/utils.go:144-157) *)
Definition GetZoneKey (site : Site) : string := SiteID site.

(** (utils/utils.go:159-167) *)
Fixpoint IsContain (allStr : list string) (dst : string) : bool :=
  match allStr with
  | [] => false
  | one :: rest => if String.eqb one dst then true else IsContain rest dst
  end.

(** Constants of the scheduler. *)
Definition SiteStatusNormal : string := "Normal".
Definition SiteStatusOffline : string := "Offline".
Definition SiteStatusSellout : string := "Sellout".
Definition SiteDelimiter : string := "--".
Definition FlavorDelimiter : string := "||".

Lemma IsContain_spec l s : IsContain l s = true <-> s ∈ l.
Proof.
  induction l as [|x l IH]; simpl; [split; [done|by intros ?%elem_of_nil]|].
  rewrite elem_of_cons. destruct (String.eqb_spec x s) as [->|Hne]; [tauto|].
  rewrite IH. split; [by right|by intros [->|]].
Qed.

(** Empty values for concrete inputs. *)
Definition no_geo : GeoLocation := mkGeo "" "" "" "".
Definition no_selector : Selector := mkSelector no_geo [] "" "" (mkStrategy "" "") [] [].
Definition no_selected : Selected := mkSelected "" "" "" "" "".
Definition demo_stack (tenant namespace name uid : string) : Stack :=
  mkStack name ∅ [] no_selector no_selected uid 0 tenant namespace.
