(* ===== verification/Heap.v ===== *)
(** * The keyed heap of the scheduling queue

    Models [globalscheduler/pkg/scheduler/utils/heap.go] together with the
    parts of Go's [container/heap] it calls.  A heap keeps a map from keys to
    items and a slice of keys in heap order; every item records the position of
    its key in the slice.

    The file proves that every operation keeps map and slice consistent and
    never panics, that the slice stays in heap order when the comparison is a
    strict weak order, and that the operations refine insertion, deletion and
    extraction of a least element on a finite map. *)
From S2P Require Import Prelude.

(** The comparisons for which heap order is meaningful. *)
Class StrictWeakOrder {A} (less : A -> A -> bool) : Prop := {
  less_asym : forall x y, less x y = true -> less y x = false;
  less_negtrans : forall x y z, less x y = false -> less y z = false -> less x z = false
}.

Section Heap.
Context {A : Type} (keyFunc : A -> result string) (lessFunc : A -> A -> bool).

(** ** State *)

(** (utils/heap.go:35-38) *)
Record heapItem := mkItem { item_obj : A; item_index : nat }.

(** The key and comparison functions are the section's parameters
    (utils/heap.go:47-61). *)
Record heapData := mkHeap { items : gmap string heapItem; queue : list string }.

(** ** The interface of [container/heap]

    A result [None] is a panic: an index out of range or a nil dereference. *)

(** (utils/heap.go:69-82) *)
Definition Less (h : heapData) (i j : nat) : option bool :=
  if Nat.ltb (length (queue h)) i || Nat.ltb (length (queue h)) j then Some false
  else
    ki ← queue h !! i;
    match items h !! ki with
    | None => Some false
    | Some itemi =>
        kj ← queue h !! j;
        match items h !! kj with
        | None => Some false
        | Some itemj => Some (lessFunc (item_obj itemi) (item_obj itemj))
        end
    end.

(** (utils/heap.go:85-85) *)
Definition Len (h : heapData) : nat := length (queue h).

(** Assignment to the [index] field of the item of a key. *)
Definition set_index (m : gmap string heapItem) (k : string) (i : nat) : option (gmap string heapItem) :=
  it ← m !! k; Some (<[k := mkItem (item_obj it) i]> m).

(** (utils/heap.go:89-95) *)
Definition Swap (h : heapData) (i j : nat) : option heapData :=
  ki ← queue h !! i;
  kj ← queue h !! j;
  let q := <[j := ki]> (<[i := kj]> (queue h)) in
  qi ← q !! i;
  m ← set_index (items h) qi i;
  qj ← q !! j;
  m ← set_index m qj j;
  Some (mkHeap m q).

(** (utils/heap.go:98-103) *)
Definition Push (h : heapData) (key : string) (o : A) : heapData :=
  mkHeap (<[key := mkItem o (length (queue h))]> (items h)) (queue h ++ [key]).

(** The removed object, or nil (utils/heap.go:106-116 Pop). *)
Definition data_Pop (h : heapData) : option (heapData * option A) :=
  key ← last (queue h);
  let q := removelast (queue h) in
  match items h !! key with
  | None => Some (mkHeap (items h) q, None)
  | Some it => Some (mkHeap (delete key (items h)) q, Some (item_obj it))
  end.

(** ** The functions of [container/heap] *)

Fixpoint up (fuel : nat) (h : heapData) (j : nat) : option heapData :=
  match fuel with
  | O => None
  | S fuel =>
      let i := (j - 1) / 2 in
      if Nat.eqb i j then Some h
      else
        l ← Less h j i;
        if l : bool then h' ← Swap h i j; up fuel h' i else Some h
  end.

Fixpoint down (fuel : nat) (h : heapData) (i n : nat) (moved : bool) : option (heapData * bool) :=
  match fuel with
  | O => None
  | S fuel =>
      let j1 := 2 * i + 1 in
      if Nat.leb n j1 then Some (h, moved)
      else
        let j2 := j1 + 1 in
        right ← (if Nat.ltb j2 n then Less h j2 j1 else Some false);
        let j := if right : bool then j2 else j1 in
        l ← Less h j i;
        if l : bool then h' ← Swap h i j; down fuel h' j n true else Some (h, moved)
  end.

(** [down(h, i, n)] and [up(h, j)] with enough fuel for their loops. *)
Definition heap_down (h : heapData) (i n : nat) : option (heapData * bool) := down (S (n - i)) h i n false.
Definition heap_up (h : heapData) (j : nat) : option heapData := up (S j) h j.

(** [if !down(h, i, n) { up(h, i) }], the end of [Remove] and of [Fix]. *)
Definition heap_sift (h : heapData) (i n : nat) : option heapData :=
  '(h, moved) ← heap_down h i n;
  if moved : bool then Some h else heap_up h i.

Definition heap_Push (h : heapData) (key : string) (o : A) : option heapData :=
  let h := Push h key o in heap_up h (Len h - 1).

(** With an empty heap [n] is -1 and the swap is out of range. *)
Definition heap_Pop (h : heapData) : option (heapData * option A) :=
  match Len h with
  | O => None
  | S n => h ← Swap h 0 n; '(h, _) ← heap_down h 0 n; data_Pop h
  end.

Definition heap_Remove (h : heapData) (i : nat) : option (heapData * option A) :=
  match Len h with
  | O => None
  | S n =>
      if Nat.eqb n i then data_Pop h
      else
        h ← Swap h i n;
        h ← heap_sift h i n;
        data_Pop h
  end.

Definition heap_Fix (h : heapData) (i : nat) : option heapData := heap_sift h i (Len h).

(** ** The operations of [Heap]

    The metric recorder is nil for every heap the queue builds. *)

(** (utils/heap.go:244-253) *)
Definition NewHeap : heapData := mkHeap ∅ [].

(** (utils/heap.go:139-154) *)
Definition Add (h : heapData) (o : A) : option (heapData * result unit) :=
  match keyFunc o with
  | Err e => Some (h, Err e)
  | Ok key =>
      match items h !! key with
      | Some it =>
          h ← heap_Fix (mkHeap (<[key := mkItem o (item_index it)]> (items h)) (queue h)) (item_index it);
          Some (h, Ok tt)
      | None => h ← heap_Push h key o; Some (h, Ok tt)
      end
  end.

(** (utils/heap.go:158-170) *)
Definition AddIfNotPresent (h : heapData) (o : A) : option (heapData * result unit) :=
  match keyFunc o with
  | Err e => Some (h, Err e)
  | Ok key =>
      match items h !! key with
      | Some _ => Some (h, Ok tt)
      | None => h ← heap_Push h key o; Some (h, Ok tt)
      end
  end.

(** (utils/heap.go:174-176) *)
Definition Update (h : heapData) (o : A) : option (heapData * result unit) := Add h o.

(** (utils/heap.go:179-192) *)
Definition Delete (h : heapData) (o : A) : option (heapData * result unit) :=
  match keyFunc o with
  | Err e => Some (h, Err e)
  | Ok key =>
      match items h !! key with
      | Some it => '(h, _) ← heap_Remove h (item_index it); Some (h, Ok tt)
      | None => Some (h, Err "object not found")
      end
  end.

(** The root object or nil; a root key without an item is a nil dereference
    (utils/heap.go:119-124). *)
Definition Peek (h : heapData) : option (option A) :=
  match queue h with
  | [] => Some None
  | key :: _ => it ← items h !! key; Some (Some (item_obj it))
  end.

(** (utils/heap.go:200-209) *)
Definition Pop (h : heapData) : option (heapData * result A) :=
  '(h, o) ← heap_Pop h;
  match o with
  | Some o => Some (h, Ok o)
  | None => Some (h, Err "object was removed from heap data")
  end.

(** (utils/heap.go:221-227) *)
Definition GetByKey (h : heapData) (key : string) : option A := item_obj <$> items h !! key.

(** (utils/heap.go:212-218) *)
Definition Get (h : heapData) (o : A) : result (option A) :=
  match keyFunc o with
  | Err e => Err e
  | Ok key => Ok (GetByKey h key)
  end.

(** The objects in the order [range] visits the map (utils/heap.go:230-236). *)
Definition List (range : gmap string heapItem -> list (string * heapItem)) (h : heapData) : list A :=
  (fun kv => item_obj kv.2) <$> range (items h).

(** ** Invariants *)

(** Map and slice describe each other. *)
Definition consistent (h : heapData) : Prop :=
  (forall k it, items h !! k = Some it -> queue h !! item_index it = Some k) ∧
  (forall i k, queue h !! i = Some k -> ∃ o, items h !! k = Some (mkItem o i)).

(** The stored objects, forgetting positions. *)
Definition objs (h : heapData) : gmap string A := item_obj <$> items h.

(** Every object is stored under its own key. *)
Definition keyed (h : heapData) : Prop :=
  forall k o, objs h !! k = Some o -> keyFunc o = Ok k.

Definition heap_wf (h : heapData) : Prop := consistent h ∧ keyed h.

(** The object at a position. *)
Definition view (h : heapData) (i : nat) : option A :=
  k ← queue h !! i; objs h !! k.

Definition parent (i : nat) : nat := (i - 1) / 2.

(** Neither object missing, and the second not below the first. *)
Definition ordered_at (f : nat -> option A) (i j : nat) : Prop :=
  match f i, f j with
  | Some a, Some b => lessFunc b a = false
  | _, _ => True
  end.

(** Heap order of the first [n] positions. *)
Definition ordered (n : nat) (f : nat -> option A) : Prop :=
  forall k, 0 < k < n -> ordered_at f (parent k) k.

Definition heap_ordered (h : heapData) : Prop := ordered (Len h) (view h).

(** Two heaps with the same objects and size. *)
Definition same_content (h h' : heapData) : Prop := objs h' = objs h ∧ Len h' = Len h.

(** ** Positions *)

Lemma parent_lt k : 0 < k -> parent k < k.
Proof. unfold parent. intros. apply Nat.Div0.div_lt_upper_bound; lia. Qed.

Lemma parent_cases k : 0 < k -> k = 2 * parent k + 1 ∨ k = 2 * parent k + 2.
Proof.
  intros. unfold parent. pose proof (Nat.div_mod_eq (k - 1) 2).
  pose proof (Nat.mod_upper_bound (k - 1) 2). lia.
Qed.

Lemma parent_left i : parent (2 * i + 1) = i.
Proof. pose proof (parent_cases (2 * i + 1)). lia. Qed.

Lemma parent_right i : parent (2 * i + 1 + 1) = i.
Proof. pose proof (parent_cases (2 * i + 1 + 1)). lia. Qed.

(** ** Consistency of the primitive steps *)

Lemma consistent_view h i : consistent h -> i < Len h -> ∃ k o,
  queue h !! i = Some k ∧ items h !! k = Some (mkItem o i) ∧ view h i = Some o.
Proof.
  intros [_ Hq] [k Hk]%lookup_lt_is_Some_2. destruct (Hq i k Hk) as [o Ho].
  exists k, o. unfold view, objs. rewrite Hk. simpl. by rewrite lookup_fmap, Ho.
Qed.

Lemma consistent_inj h i j k :
  consistent h -> queue h !! i = Some k -> queue h !! j = Some k -> i = j.
Proof. intros [_ Hq] [o Ho]%Hq [o' Ho']%Hq. congruence. Qed.

Lemma view_ge h i : Len h <= i -> view h i = None.
Proof. intros Hi. unfold view. by rewrite lookup_ge_None_2. Qed.

Lemma Less_spec h i j a b : consistent h ->
  view h i = Some a -> view h j = Some b -> Less h i j = Some (lessFunc a b).
Proof.
  unfold view, Less, objs. intros Hc Ha Hb.
  destruct (queue h !! i) as [ki|] eqn:Hi; [|done]. destruct (queue h !! j) as [kj|] eqn:Hj; [|done].
  simpl in *. pose proof (lookup_lt_Some _ _ _ Hi). pose proof (lookup_lt_Some _ _ _ Hj).
  destruct (Nat.ltb_spec (length (queue h)) i); [lia|]. destruct (Nat.ltb_spec (length (queue h)) j); [lia|].
  rewrite lookup_fmap in *. by destruct (items h !! ki), (items h !! kj); simplify_eq/=.
Qed.

(** What a swap does to the view. *)
Definition swapped (f : nat -> option A) (i j k : nat) : option A :=
  if decide (k = i) then f j else if decide (k = j) then f i else f k.

Lemma Swap_spec h i j : consistent h -> i < Len h -> j < Len h -> i ≠ j ->
  ∃ h', Swap h i j = Some h' ∧ consistent h' ∧ same_content h h' ∧
    forall k, view h' k = swapped (view h) i j k.
Proof.
  intros Hc Hi Hj Hij.
  destruct (consistent_view h i Hc Hi) as (ki & oi & Hki & Hii & Hvi).
  destruct (consistent_view h j Hc Hj) as (kj & oj & Hkj & Hij' & Hvj).
  assert (ki ≠ kj) by (intros ->; apply Hij; eapply consistent_inj; eauto).
  unfold Len in *. eexists. split.
  { unfold Swap, set_index. rewrite Hki; simpl. rewrite Hkj; simpl.
    rewrite (list_lookup_insert_ne _ j i), (list_lookup_insert_eq _ i) by done. simpl.
    rewrite Hij'; simpl. rewrite list_lookup_insert_eq by (rewrite ?length_insert; lia). simpl.
    rewrite lookup_insert_ne, Hii by done. simpl. done. }
  simpl.
  assert (objs (mkHeap (<[ki:={| item_obj := oi; item_index := j |}]>
     (<[kj:={| item_obj := oj; item_index := i |}]> (items h))) (<[j:=ki]> (<[i:=kj]> (queue h)))) = objs h) as Hobjs.
  { unfold objs. simpl. rewrite !fmap_insert. simpl. apply map_eq. intros k.
    destruct (decide (k = ki)) as [->|]; [rewrite lookup_insert_eq, lookup_fmap, Hii; done|].
    rewrite lookup_insert_ne by done.
    destruct (decide (k = kj)) as [->|]; [rewrite lookup_insert_eq, lookup_fmap, Hij'; done|].
    by rewrite lookup_insert_ne. }
  split_and!.
  - destruct Hc as [Hc1 Hc2]. split; simpl.
    + intros k it Hit. destruct (decide (k = ki)) as [->|].
      { rewrite lookup_insert_eq in Hit. simplify_eq/=. by rewrite list_lookup_insert_eq by (rewrite length_insert; lia). }
      rewrite lookup_insert_ne in Hit by done. destruct (decide (k = kj)) as [->|].
      { rewrite lookup_insert_eq in Hit. simplify_eq/=. rewrite list_lookup_insert_ne by done. by rewrite list_lookup_insert_eq. }
      rewrite lookup_insert_ne in Hit by done. apply Hc1 in Hit.
      rewrite !list_lookup_insert_ne; [done|congruence..].
    + intros p k Hp. destruct (decide (p = j)) as [->|].
      { rewrite list_lookup_insert_eq in Hp by (rewrite length_insert; lia). simplify_eq.
        rewrite lookup_insert_eq. by eexists. }
      rewrite list_lookup_insert_ne in Hp by done. destruct (decide (p = i)) as [->|].
      { rewrite list_lookup_insert_eq in Hp by lia. simplify_eq.
        rewrite lookup_insert_ne, lookup_insert_eq by done. by eexists. }
      rewrite list_lookup_insert_ne in Hp by done. destruct (Hc2 p k Hp) as [o Ho].
      exists o. rewrite !lookup_insert_ne; [done|congruence..].
  - split; [done|]. unfold Len. simpl. by rewrite !length_insert.
  - intros k. unfold swapped, view at 1. rewrite Hobjs. simpl.
    destruct (decide (k = i)) as [->|].
    { rewrite list_lookup_insert_ne, list_lookup_insert_eq by done. unfold view. by rewrite Hkj. }
    destruct (decide (k = j)) as [->|].
    { rewrite list_lookup_insert_eq by (rewrite length_insert; lia). unfold view. by rewrite Hki. }
    rewrite !list_lookup_insert_ne by done. done.
Qed.

(** ** Heap order of the sifting loops

    These lemmas are about the view only; [n] positions are occupied. *)

Definition occupied (n : nat) (f : nat -> option A) : Prop := forall k, k < n -> is_Some (f k).

(** Order everywhere but between [j] and its parent. *)
Definition up_inv (n : nat) (f : nat -> option A) (j : nat) : Prop :=
  (forall k, 0 < k < n -> k ≠ j -> ordered_at f (parent k) k) ∧
  (forall c, 0 < c < n -> parent c = j -> 0 < j -> ordered_at f (parent j) c).

(** Order everywhere but between [i] and its children. *)
Definition down_inv (n : nat) (f : nat -> option A) (i : nat) : Prop :=
  (forall k, 0 < k < n -> parent k ≠ i -> ordered_at f (parent k) k) ∧
  (forall c, 0 < c < n -> parent c = i -> 0 < i -> ordered_at f (parent i) c).

(** Order everywhere but around [i]. *)
Definition fix_inv (n : nat) (f : nat -> option A) (i : nat) : Prop :=
  (forall k, 0 < k < n -> parent k ≠ i -> k ≠ i -> ordered_at f (parent k) k) ∧
  (forall c, 0 < c < n -> parent c = i -> 0 < i -> ordered_at f (parent i) c).

Lemma occupied_swapped n f i j : occupied n f -> i < n -> j < n -> occupied n (swapped f i j).
Proof. intros Hf ? ? k ?. unfold swapped. repeat case_decide; auto. Qed.

Lemma swapped_l f i j : swapped f i j i = f j.
Proof. unfold swapped. by rewrite decide_True. Qed.

Lemma swapped_r f i j : swapped f i j j = f i.
Proof. unfold swapped. repeat case_decide; by subst. Qed.

Lemma swapped_ne f i j k : k ≠ i -> k ≠ j -> swapped f i j k = f k.
Proof. intros. unfold swapped. by rewrite !decide_False. Qed.

Lemma ordered_at_ext f g i j i' j' :
  f i = g i' -> f j = g j' -> ordered_at g i' j' -> ordered_at f i j.
Proof. unfold ordered_at. by intros -> ->. Qed.

Section Order.
Context `{!StrictWeakOrder lessFunc}.

Lemma ordered_at_trans n f i j k :
  occupied n f -> j < n -> ordered_at f i j -> ordered_at f j k -> ordered_at f i k.
Proof.
  unfold ordered_at. intros Hf [b ->]%Hf ? ?. destruct (f i), (f k); [|done..].
  by eapply less_negtrans.
Qed.

Lemma ordered_at_less f i j a b :
  f i = Some a -> f j = Some b -> lessFunc b a = true -> ordered_at f j i.
Proof. unfold ordered_at. intros -> ->. apply less_asym. Qed.

(** One step of [up]. *)
Lemma up_inv_step n f j :
  occupied n f -> j < n -> 0 < j -> up_inv n f j -> ordered_at f j (parent j) ->
  up_inv n (swapped f (parent j) j) (parent j).
Proof.
  intros Hf Hj Hj0 [Hord Hgp] Hless. pose proof (parent_lt j Hj0) as Hp. set (i := parent j) in *.
  assert (forall c, 0 < c < n -> parent c = i -> c ≠ j -> ordered_at f j c) as Hsib.
  { intros c Hc Hpc Hcj. eapply (ordered_at_trans n); [done| |exact Hless|]; [lia|].
    rewrite <- Hpc. by apply Hord. }
  split.
  - intros k Hk Hki. destruct (decide (k = j)) as [->|Hkj].
    { eapply ordered_at_ext; [apply swapped_l|apply swapped_r|done]. }
    destruct (decide (parent k = i)) as [Hpk|Hpk].
    { rewrite Hpk. eapply ordered_at_ext; [apply swapped_l|by apply swapped_ne|by apply Hsib]. }
    destruct (decide (parent k = j)) as [Hpk'|Hpk'].
    { rewrite Hpk'. eapply ordered_at_ext; [apply swapped_r|by apply swapped_ne|by apply Hgp]. }
    eapply ordered_at_ext; [by apply swapped_ne..|by apply Hord].
  - intros c Hc Hpc Hi0. pose proof (parent_lt i Hi0).
    assert (ordered_at f (parent i) i) as Hpi by (apply Hord; lia).
    destruct (decide (c = j)) as [->|Hcj].
    { eapply ordered_at_ext; [apply swapped_ne; lia|apply swapped_r|done]. }
    eapply ordered_at_ext; [apply swapped_ne; lia|apply swapped_ne; [|done]|].
    + pose proof (parent_lt c). lia.
    + eapply (ordered_at_trans n _ _ i); [done|lia|done|]. rewrite <- Hpc. by apply Hord.
Qed.

Lemma up_inv_done n f j :
  up_inv n f j -> (j = 0 ∨ ordered_at f (parent j) j) -> ordered n f.
Proof.
  intros [Hord _] Hj k Hk. destruct (decide (k = j)) as [->|]; [|by apply Hord].
  destruct Hj; [lia|done].
Qed.

(** One step of [down]: [j] is the smaller child of [i] and below it. *)
Lemma down_inv_step n f i j :
  occupied n f -> 0 < j < n -> parent j = i -> fix_inv n f i -> ordered_at f j i ->
  (forall c, 0 < c < n -> parent c = i -> ordered_at f j c) ->
  down_inv n (swapped f i j) j.
Proof.
  intros Hf Hj Hpj [Hord Hgp] Hless Hmin. pose proof (parent_lt j) as Hp.
  split.
  - intros k Hk Hpk. destruct (decide (k = j)) as [->|Hkj].
    { rewrite Hpj. eapply ordered_at_ext; [apply swapped_l|apply swapped_r|done]. }
    destruct (decide (parent k = i)) as [Hpk'|Hpk'].
    { rewrite Hpk'. eapply ordered_at_ext; [apply swapped_l|apply swapped_ne; [|done]|by apply Hmin].
      pose proof (parent_lt k). lia. }
    destruct (decide (k = i)) as [->|Hki].
    { eapply ordered_at_ext; [by apply swapped_ne|apply swapped_l|]. apply Hgp; [done..|lia]. }
    eapply ordered_at_ext; [by apply swapped_ne..|by apply Hord].
  - intros c Hc Hpc Hj0. pose proof (parent_lt c). rewrite Hpj.
    eapply ordered_at_ext; [apply swapped_l|apply swapped_ne; lia|].
    rewrite <- Hpc. apply Hord; lia.
Qed.

Lemma down_inv_fix n f i : down_inv n f i -> fix_inv n f i.
Proof. intros [H1 H2]. split; auto. Qed.

Lemma down_inv_done n f i :
  down_inv n f i -> (forall c, 0 < c < n -> parent c = i -> ordered_at f i c) -> ordered n f.
Proof.
  intros [Hord _] Hch k Hk. destruct (decide (parent k = i)) as [Hp|]; [|by apply Hord].
  rewrite Hp. by apply Hch.
Qed.

Lemma fix_inv_up n f i :
  fix_inv n f i -> (forall c, 0 < c < n -> parent c = i -> ordered_at f i c) -> up_inv n f i.
Proof.
  intros [Hord Hgp] Hch. split; [|done]. intros k Hk Hki.
  destruct (decide (parent k = i)) as [Hp|]; [rewrite Hp; by apply Hch|by apply Hord].
Qed.

(** The root is below everything. *)
Lemma ordered_root n f k : occupied n f -> ordered n f -> k < n -> ordered_at f 0 k.
Proof.
  intros Hf Hord. induction (lt_wf k) as [k _ IH]. intros Hk.
  destruct (decide (k = 0)) as [->|Hk0].
  - destruct (Hf 0 Hk) as [a Ha]. unfold ordered_at. rewrite Ha.
    destruct (lessFunc a a) eqn:E; [|done]. by apply less_asym in E as ?; congruence.
  - pose proof (parent_lt k ltac:(lia)).
    eapply (ordered_at_trans n _ _ (parent k)); [done|lia|apply IH; lia|apply Hord; lia].
Qed.

End Order.

(** ** The sifting loops on heaps *)

Lemma consistent_occupied h n : consistent h -> n <= Len h -> occupied n (view h).
Proof. intros Hc Hn k Hk. destruct (consistent_view h k Hc ltac:(lia)) as (? & o & _ & _ & ->). done. Qed.

Lemma same_content_trans h1 h2 h3 : same_content h1 h2 -> same_content h2 h3 -> same_content h1 h3.
Proof. unfold same_content. intros [-> ->] [-> ->]. done. Qed.

(** [up] terminates without a panic, permutes positions and repairs the order. *)
Lemma up_spec fuel h j : consistent h -> j < Len h -> j < fuel ->
  ∃ h', up fuel h j = Some h' ∧ consistent h' ∧ same_content h h' ∧
    (forall k, j < k -> view h' k = view h k) ∧
    (StrictWeakOrder lessFunc -> forall n, j < n <= Len h -> up_inv n (view h) j -> ordered n (view h')).
Proof.
  revert h j. induction fuel as [|fuel IH]; intros h j Hc Hj Hfuel; [lia|]. cbn [up].
  fold (parent j). destruct (Nat.eqb_spec (parent j) j) as [Hpj|Hpj].
  { exists h. split_and!; try done. intros Hs n Hn Hinv. apply (up_inv_done _ _ j); [done|].
    left. destruct (decide (j = 0)); [done|]. pose proof (parent_lt j ltac:(lia)). lia. }
  assert (0 < j) as Hj0. { destruct j; [|lia]. by destruct Hpj. }
  pose proof (parent_lt j Hj0) as Hlt.
  destruct (consistent_view h j Hc Hj) as (_ & a & _ & _ & Ha).
  destruct (consistent_view h (parent j) Hc ltac:(lia)) as (_ & b & _ & _ & Hb).
  rewrite (Less_spec h j (parent j) a b) by done. simpl. destruct (lessFunc a b) eqn:Hab.
  - destruct (Swap_spec h (parent j) j Hc) as (h1 & -> & Hc1 & Hs1 & Hv1); [lia..|]. simpl.
    assert (Len h1 = Len h) as Hl1 by apply Hs1.
    destruct (IH h1 (parent j) Hc1) as (h' & -> & Hc' & Hs' & Hk' & Ho'); [lia..|].
    exists h'. split_and!; [done|done|by eapply same_content_trans| |].
    + intros k Hk. rewrite Hk' by lia. rewrite Hv1. apply swapped_ne; lia.
    + intros Hs n Hn Hinv. apply Ho'; [done|lia|].
      pose proof (up_inv_step n (view h) j) as Hstep.
      assert (up_inv n (swapped (view h) (parent j) j) (parent j)) as Hup.
      { apply Hstep; [apply consistent_occupied; [done|lia]|lia|done|done|].
        by eapply (ordered_at_less _ (parent j) j). }
      destruct Hup as [H1 H2]. split; intros; (eapply ordered_at_ext; [apply Hv1..|]); eauto.
  - exists h. split_and!; try done. intros Hs n Hn Hinv. apply (up_inv_done _ _ j); [done|].
    right. unfold ordered_at. by rewrite Ha, Hb.
Qed.

(** The position [down] compares with [i]: its smaller child. *)
Lemma down_child h i n : consistent h -> n <= Len h -> 2 * i + 1 < n ->
  ∃ r j, (if Nat.ltb (2 * i + 1 + 1) n then Less h (2 * i + 1 + 1) (2 * i + 1) else Some false) = Some r ∧
    j = (if r : bool then 2 * i + 1 + 1 else 2 * i + 1) ∧ i < j < n ∧ parent j = i ∧
    (StrictWeakOrder lessFunc -> forall c, 0 < c < n -> parent c = i -> ordered_at (view h) j c).
Proof.
  intros Hc Hn Hj1.
  destruct (consistent_view h (2 * i + 1) Hc ltac:(lia)) as (_ & a & _ & _ & Ha).
  assert (StrictWeakOrder lessFunc -> forall k x, view h k = Some x -> ordered_at (view h) k k) as Hrefl.
  { intros Hs k x Hk. unfold ordered_at. rewrite Hk. destruct (lessFunc x x) eqn:E; [|done].
    by apply less_asym in E as ?; congruence. }
  destruct (Nat.ltb_spec (2 * i + 1 + 1) n) as [Hj2|Hj2].
  - destruct (consistent_view h (2 * i + 1 + 1) Hc ltac:(lia)) as (_ & b & _ & _ & Hb).
    rewrite (Less_spec h _ _ b a) by done. exists (lessFunc b a). eexists. split_and!; [done..| | | |].
    1-2: case_match; lia.
    { case_match; [apply parent_right|apply parent_left]. }
    intros Hs c Hc0 Hpc. destruct (parent_cases c) as [Hcc|Hcc]; [lia|rewrite Hpc in Hcc..].
    + rewrite Hcc. destruct (lessFunc b a) eqn:Hba; [by eapply ordered_at_less|by eapply Hrefl].
    + replace c with (2 * i + 1 + 1) by lia. destruct (lessFunc b a) eqn:Hba; [by eapply Hrefl|].
      unfold ordered_at. by rewrite Ha, Hb.
  - exists false. eexists. split_and!; [done..|lia|lia|apply parent_left|].
    intros Hs c Hc0 Hpc. destruct (parent_cases c) as [Hcc|Hcc]; [lia|rewrite Hpc in Hcc..]; [|lia].
    rewrite Hcc. by eapply Hrefl.
Qed.

(** [down] terminates without a panic and permutes the first [n] positions; when
    it moves the element it started with it repairs the order, and otherwise
    only the order towards the parent may still be broken. *)
Lemma down_spec fuel h i n moved : consistent h -> n <= Len h -> n - i < fuel ->
  ∃ h' m', down fuel h i n moved = Some (h', m') ∧ consistent h' ∧ same_content h h' ∧
    (forall k, n <= k -> view h' k = view h k) ∧
    (moved = true -> m' = true) ∧
    (StrictWeakOrder lessFunc -> moved = true -> down_inv n (view h) i -> ordered n (view h')) ∧
    (StrictWeakOrder lessFunc -> moved = false -> fix_inv n (view h) i ->
       if m' then ordered n (view h') else h' = h ∧ up_inv n (view h) i).
Proof.
  revert h i moved. induction fuel as [|fuel IH]; intros h i moved Hc Hn Hfuel; [lia|].
  cbn [down]. destruct (Nat.leb_spec n (2 * i + 1)) as [Hle|Hgt].
  { assert (forall c, 0 < c < n -> parent c = i -> ordered_at (view h) i c) as Hno.
    { intros c Hcn Hpc. pose proof (parent_cases c). lia. }
    exists h, moved. split_and!; try done.
    - intros Hs -> Hinv. by apply (down_inv_done n _ i).
    - intros Hs -> Hinv. split; [done|]. by apply fix_inv_up. }
  destruct (down_child h i n Hc Hn Hgt) as (r & j & -> & Hj & Hij & Hpj & Hmin). bind_simpl.
  rewrite <- Hj. clear Hj r.
  destruct (consistent_view h j Hc ltac:(lia)) as (_ & a & _ & _ & Ha).
  destruct (consistent_view h i Hc ltac:(lia)) as (_ & b & _ & _ & Hb).
  rewrite (Less_spec h j i a b) by done. simpl. destruct (lessFunc a b) eqn:Hab.
  - destruct (Swap_spec h i j Hc) as (h1 & -> & Hc1 & Hs1 & Hv1); [lia..|]. simpl.
    assert (Len h1 = Len h) as Hl1 by apply Hs1.
    destruct (IH h1 j true Hc1) as (h' & m' & -> & Hc' & Hs' & Hk' & Hm' & Ho' & _); [lia..|].
    assert (StrictWeakOrder lessFunc -> fix_inv n (view h) i -> ordered n (view h')) as Hdown.
    { intros Hs Hinv. apply Ho'; [done..|].
      assert (down_inv n (swapped (view h) i j) j) as [H1 H2].
      { apply down_inv_step; [by apply consistent_occupied|lia|done|done| |by apply Hmin].
        by eapply ordered_at_less. }
      split; intros; (eapply ordered_at_ext; [apply Hv1..|]); eauto. }
    exists h', m'. rewrite (Hm' eq_refl) in *.
    split_and!; [done|done|by eapply same_content_trans| |done| |].
    + intros k Hk. rewrite Hk' by lia. rewrite Hv1. apply swapped_ne; lia.
    + intros Hs _ Hinv. apply Hdown; [done|]. by apply down_inv_fix.
    + auto.
  - assert (StrictWeakOrder lessFunc -> forall c, 0 < c < n -> parent c = i -> ordered_at (view h) i c) as Hch.
    { intros Hs c Hcn Hpc. apply (ordered_at_trans n _ _ j); [by apply consistent_occupied|lia| |by apply Hmin].
      unfold ordered_at. by rewrite Ha, Hb. }
    exists h, moved. split_and!; try done.
    + intros Hs -> Hinv. apply (down_inv_done n _ i); auto.
    + intros Hs -> Hinv. split; [done|]. apply fix_inv_up; auto.
Qed.

(** ** Removing and adding positions *)

Lemma Swap_same h i : consistent h -> i < Len h -> Swap h i i = Some h.
Proof.
  intros Hc Hi. destruct (consistent_view h i Hc Hi) as (k & o & Hk & Hit & _).
  unfold Swap, set_index. rewrite Hk; simpl. rewrite !(list_insert_id (queue h)) by done.
  rewrite Hk; simpl. rewrite Hit; simpl. rewrite lookup_insert_eq; simpl.
  rewrite insert_insert_eq, insert_id by done. by destruct h.
Qed.

Lemma queue_snoc h n : Len h = S n -> ∃ k, queue h = removelast (queue h) ++ [k] ∧ length (removelast (queue h)) = n.
Proof.
  unfold Len. intros Hl. destruct (queue h) as [|x q _] using rev_ind; [done|].
  exists x. rewrite removelast_snoc. rewrite length_app in Hl. simpl in Hl. split; [done|lia].
Qed.

Lemma data_Pop_spec h n o : consistent h -> Len h = S n -> view h n = Some o ->
  ∃ h' k, data_Pop h = Some (h', Some o) ∧ consistent h' ∧ Len h' = n ∧
    objs h !! k = Some o ∧ objs h' = delete k (objs h) ∧ (forall i, i < n -> view h' i = view h i).
Proof.
  intros Hc Hl Hv. destruct (queue_snoc h n Hl) as (k & Hq & Hn).
  set (q := removelast (queue h)) in *.
  assert (queue h !! n = Some k) as Hk by (rewrite Hq, lookup_app_r, Hn, Nat.sub_diag by lia; done).
  destruct (consistent_view h n Hc ltac:(lia)) as (k' & o' & Hk' & Hit & Hv').
  rewrite Hk in Hk'. injection Hk' as <-. rewrite Hv in Hv'. injection Hv' as <-.
  assert (forall i k', i < n -> queue h !! i = Some k' -> k' ≠ k) as Hne.
  { intros i k' Hi Hik ->. pose proof (consistent_inj h i _ k Hc Hik Hk). lia. }
  assert (forall i, i < length q -> q !! i = queue h !! i) as Hqi.
  { intros i Hi. rewrite Hq at 1. by rewrite lookup_app_l. }
  exists (mkHeap (delete k (items h)) q), k.
  assert (objs (mkHeap (delete k (items h)) q) = delete k (objs h)) as Hobjs by (unfold objs; simpl; by rewrite fmap_delete).
  split_and!; [| |done|by unfold objs; rewrite lookup_fmap, Hit|done|].
  - unfold data_Pop. rewrite Hq at 1. rewrite last_snoc. simpl. by rewrite Hit.
  - destruct Hc as [Hc1 Hc2]. split; simpl.
    + intros k' it [Hkk Hit']%lookup_delete_Some. apply Hc1 in Hit' as Hq'.
      rewrite Hqi; [done|]. apply lookup_lt_Some in Hq' as Hlt. unfold Len in Hl.
      destruct (decide (item_index it = n)) as [He|]; [rewrite He in Hq'; congruence|lia].
    + intros i k' Hik. pose proof (lookup_lt_Some _ _ _ Hik). rewrite Hqi in Hik by done. simpl in *.
      destruct (Hc2 i k' Hik) as [o1 Ho1]. exists o1.
      rewrite lookup_delete_ne; [done|]. apply not_eq_sym. eapply (Hne i); [lia|done].
  - intros i Hi. unfold view. rewrite Hobjs. simpl. rewrite Hqi by lia.
    destruct (queue h !! i) as [k'|] eqn:Hik; [|done]. simpl. rewrite lookup_delete_ne; [done|].
    apply not_eq_sym. by eapply Hne.
Qed.

Lemma Push_spec h k o : consistent h -> items h !! k = None ->
  consistent (Push h k o) ∧ Len (Push h k o) = S (Len h) ∧ objs (Push h k o) = <[k := o]> (objs h) ∧
  (forall i, i < Len h -> view (Push h k o) i = view h i).
Proof.
  intros Hc Hk. unfold Push, Len. simpl.
  assert (objs (mkHeap (<[k:=mkItem o (length (queue h))]> (items h)) (queue h ++ [k])) = <[k := o]> (objs h)) as Hobjs.
  { unfold objs. simpl. by rewrite fmap_insert. }
  split_and!; [|rewrite length_app; simpl; lia|done|].
  - destruct Hc as [Hc1 Hc2]. split; simpl.
    + intros k' it [[<- <-]|[Hne Hit]]%lookup_insert_Some; simpl.
      * by rewrite lookup_app_r, Nat.sub_diag by lia.
      * apply Hc1 in Hit. by apply lookup_app_l_Some.
    + intros i k' [Hi|[Hi Hi']]%lookup_app_Some.
      * destruct (Hc2 i k' Hi) as [o' Ho']. exists o'. rewrite lookup_insert_ne; congruence.
      * apply list_lookup_singleton_Some in Hi' as [Hi' <-]. exists o. rewrite lookup_insert_eq.
        do 2 f_equal. lia.
  - intros i Hi. unfold view. rewrite Hobjs. simpl. rewrite lookup_app_l by done.
    destruct (queue h !! i) as [k'|] eqn:Hq; [|done]. simpl. destruct Hc as [_ Hc2].
    destruct (Hc2 i k' Hq) as [o' Ho']. rewrite lookup_insert_ne; congruence.
Qed.

Lemma ordered_change n f g i : StrictWeakOrder lessFunc ->
  occupied n f -> ordered n f -> i < n -> (forall k, k < n -> k ≠ i -> g k = f k) -> fix_inv n g i.
Proof.
  intros Hs Hf Hord Hi Hg. split.
  - intros k Hk Hpk Hki. pose proof (parent_lt k).
    eapply ordered_at_ext; [apply Hg; lia|apply Hg; lia|by apply Hord].
  - intros c Hc Hpc Hi0. pose proof (parent_lt c). pose proof (parent_lt i).
    eapply ordered_at_ext; [apply Hg; lia|apply Hg; lia|].
    apply (ordered_at_trans n _ _ i); [done..| |].
    + apply Hord. lia.
    + rewrite <- Hpc. by apply Hord.
Qed.

Lemma ordered_ext n f g : (forall k, k < n -> g k = f k) -> ordered n f -> ordered n g.
Proof.
  intros Hg Hord k Hk. pose proof (parent_lt k).
  eapply ordered_at_ext; [apply Hg; lia|apply Hg; lia|by apply Hord].
Qed.

Lemma heap_sift_spec h i n : consistent h -> i < n <= Len h ->
  ∃ h', heap_sift h i n = Some h' ∧ consistent h' ∧ same_content h h' ∧
    (forall k, n <= k -> view h' k = view h k) ∧
    (StrictWeakOrder lessFunc -> fix_inv n (view h) i -> ordered n (view h')).
Proof.
  intros Hc Hi. unfold heap_sift, heap_down.
  destruct (down_spec (S (n - i)) h i n false Hc) as (h1 & m & -> & Hc1 & Hs1 & Hv1 & _ & _ & Ho1); [lia..|].
  simpl. destruct m.
  - exists h1. split_and!; auto.
  - assert (Len h1 = Len h) as Hl by apply Hs1. unfold heap_up.
    destruct (up_spec (S i) h1 i Hc1) as (h2 & -> & Hc2 & Hs2 & Hv2 & Ho2); [lia..|].
    exists h2. split_and!; [done|done|by eapply same_content_trans| |].
    + intros k Hk. rewrite Hv2 by lia. by apply Hv1.
    + intros Hs Hinv. destruct (Ho1 Hs eq_refl Hinv) as [-> Hup]. apply Ho2; [done|lia|done].
Qed.

Lemma heap_Push_spec h k o : consistent h -> items h !! k = None ->
  ∃ h', heap_Push h k o = Some h' ∧ consistent h' ∧ objs h' = <[k := o]> (objs h) ∧
    (StrictWeakOrder lessFunc -> heap_ordered h -> heap_ordered h').
Proof.
  intros Hc Hk. destruct (Push_spec h k o Hc Hk) as (Hc1 & Hl1 & Ho1 & Hv1).
  unfold heap_Push, heap_up. rewrite Hl1, Nat.sub_succ, Nat.sub_0_r.
  destruct (up_spec (S (Len h)) (Push h k o) (Len h) Hc1) as (h' & -> & Hc' & [Hs1' Hs2'] & _ & Hord); [lia..|].
  exists h'. split_and!; [done|done|congruence|].
  intros Hs Ho. unfold heap_ordered. rewrite Hs2', Hl1. apply Hord; [done|lia|]. split.
  - intros c Hc0 Hne. pose proof (parent_lt c).
    eapply ordered_at_ext; [apply Hv1; lia|apply Hv1; lia|apply Ho; lia].
  - intros c Hc0 Hpc. pose proof (parent_lt c). lia.
Qed.

Lemma heap_Remove_spec h i o : consistent h -> view h i = Some o ->
  ∃ h' k, heap_Remove h i = Some (h', Some o) ∧ consistent h' ∧ objs h !! k = Some o ∧
    objs h' = delete k (objs h) ∧ (StrictWeakOrder lessFunc -> heap_ordered h -> heap_ordered h').
Proof.
  intros Hc Hv. assert (i < Len h) as Hi.
  { destruct (decide (i < Len h)); [done|]. by rewrite view_ge in Hv by lia. }
  unfold heap_Remove. destruct (Len h) as [|n] eqn:Hl; [lia|].
  destruct (Nat.eqb_spec n i) as [->|Hni].
  { destruct (data_Pop_spec h i o Hc Hl Hv) as (h' & k & -> & Hc' & Hl' & Hk & Hobjs & Hv').
    exists h', k. split_and!; try done. intros Hs Ho. unfold heap_ordered in *. rewrite Hl' in *.
    apply (ordered_ext _ (view h)); [done|]. intros c Hcn. apply Ho. lia. }
  destruct (Swap_spec h i n Hc) as (h1 & -> & Hc1 & [Ho1 Hl1] & Hv1); [lia..|]. bind_simpl.
  destruct (heap_sift_spec h1 i n Hc1) as (h2 & -> & Hc2 & [Ho2 Hl2] & Hv2 & Hord); [lia|].
  bind_simpl.
  destruct (data_Pop_spec h2 n o Hc2) as (h' & k & -> & Hc' & Hl' & Hk & Hobjs & Hv').
  { congruence. }
  { rewrite Hv2, Hv1, swapped_r by lia. done. }
  exists h', k. split_and!; [done|done|congruence|congruence|].
  intros Hs Ho. unfold heap_ordered in *. rewrite Hl' in *. apply (ordered_ext _ (view h2)); [done|].
  apply Hord; [done|]. apply (ordered_change n (view h)); [done| | |lia|].
  - apply consistent_occupied; [done|lia].
  - intros c Hcn. apply Ho. lia.
  - intros k' Hk' Hne. rewrite Hv1. apply swapped_ne; lia.
Qed.

Lemma heap_Pop_spec h : consistent h -> 0 < Len h ->
  ∃ h' k o, heap_Pop h = Some (h', Some o) ∧ consistent h' ∧ objs h !! k = Some o ∧
    objs h' = delete k (objs h) ∧ view h 0 = Some o ∧
    (StrictWeakOrder lessFunc -> heap_ordered h -> heap_ordered h').
Proof.
  intros Hc Hpos. destruct (consistent_view h 0 Hc Hpos) as (_ & o & _ & _ & Hv0).
  unfold heap_Pop. destruct (Len h) as [|n] eqn:Hl; [lia|].
  assert (∃ h1, Swap h 0 n = Some h1 ∧ consistent h1 ∧ same_content h h1 ∧
    view h1 n = Some o ∧ (forall k, k < n -> k ≠ 0 -> view h1 k = view h k)) as (h1 & -> & Hc1 & [Ho1 Hl1] & Hn1 & Hv1).
  { destruct (decide (n = 0)) as [->|Hn].
    - exists h. rewrite Swap_same by (done || lia). done.
    - destruct (Swap_spec h 0 n Hc) as (h1 & -> & Hc1 & Hs1 & Hv1); [lia..|]. exists h1.
      split_and!; try done; [by rewrite Hv1, swapped_r|]. intros k Hk Hk0. rewrite Hv1. apply swapped_ne; lia. }
  bind_simpl. unfold heap_down.
  destruct (down_spec (S (n - 0)) h1 0 n false Hc1) as (h2 & m & -> & Hc2 & [Ho2 Hl2] & Hv2 & _ & _ & Hord); [lia..|].
  bind_simpl.
  destruct (data_Pop_spec h2 n o Hc2) as (h' & k & -> & Hc' & Hl' & Hk & Hobjs & Hv').
  { congruence. }
  { rewrite Hv2 by lia. done. }
  exists h', k, o. split_and!; [done|done|congruence|congruence|done|].
  intros Hs Ho. unfold heap_ordered in *. rewrite Hl' in *. apply (ordered_ext _ (view h2)); [done|].
  destruct n as [|n]; [intros c ?; lia|].
  assert (fix_inv (S n) (view h1) 0) as Hfix.
  { apply (ordered_change _ (view h)); [done| | |lia|done].
    - apply consistent_occupied; [done|lia].
    - intros c Hcn. apply Ho. lia. }
  specialize (Hord Hs eq_refl Hfix). destruct m; [done|]. destruct Hord as [-> Hup].
  apply (up_inv_done _ _ 0); [done|by left].
Qed.

Lemma keyed_objs h k o : keyed h -> objs h !! k = Some o -> keyFunc o = Ok k.
Proof. auto. Qed.

Lemma items_objs h k : items h !! k = None <-> objs h !! k = None.
Proof. unfold objs. rewrite lookup_fmap. by destruct (items h !! k). Qed.

Lemma keyed_insert h h' k o :
  keyed h -> keyFunc o = Ok k -> objs h' = <[k := o]> (objs h) -> keyed h'.
Proof.
  intros Hk Hok Ho k' o'. rewrite Ho, lookup_insert_Some. intros [[<- <-]|[_ H]]; [done|by apply Hk].
Qed.

Lemma keyed_delete h h' k : keyed h -> objs h' = delete k (objs h) -> keyed h'.
Proof. intros Hk Ho k' o'. rewrite Ho, lookup_delete_Some. intros [_ H]. by apply Hk. Qed.

(** [Add] inserts or replaces. *)
Lemma Add_spec h o k : heap_wf h -> keyFunc o = Ok k ->
  ∃ h', Add h o = Some (h', Ok tt) ∧ heap_wf h' ∧ objs h' = <[k := o]> (objs h) ∧
    (StrictWeakOrder lessFunc -> heap_ordered h -> heap_ordered h').
Proof.
  intros [Hc Hk] Hok. unfold Add. rewrite Hok. destruct (items h !! k) as [it|] eqn:Hit.
  - set (h1 := mkHeap _ _).
    assert (objs h1 = <[k := o]> (objs h)) as Ho1 by (unfold objs, h1; simpl; by rewrite fmap_insert).
    destruct Hc as [Hc1 Hc2]. pose proof (Hc1 k it Hit) as Hq.
    assert (consistent h1) as Hch1.
    { split; simpl.
      - intros k' it' [[<- <-]|[_ Hit']]%lookup_insert_Some; [done|by apply Hc1].
      - intros i k' Hi. destruct (decide (k' = k)) as [->|].
        + exists o. rewrite lookup_insert_eq. do 2 f_equal. destruct (Hc2 i k Hi) as [o' Ho']. by simplify_eq/=.
        + rewrite lookup_insert_ne by done. by apply Hc2. }
    destruct (heap_sift_spec h1 (item_index it) (Len h1) Hch1) as (h' & Hs & Hc' & [Ho' Hl'] & _ & Hord).
    { split; [|done]. by apply lookup_lt_Some in Hq. }
    unfold heap_Fix. rewrite Hs. bind_simpl. exists h'.
    split_and!; [done|split; [done|eapply keyed_insert; [done..|congruence]]|congruence|].
    intros Hsw Hho. unfold heap_ordered. rewrite Hl'. apply Hord; [done|].
    apply (ordered_change _ (view h)); [done|by apply consistent_occupied|done|by apply lookup_lt_Some in Hq|].
    intros k' _ Hne. unfold view. rewrite Ho1. simpl. destruct (queue h !! k') as [kk|] eqn:Hkk; [|done]. simpl.
    rewrite lookup_insert_ne; [done|]. intros ->. by apply Hne, (consistent_inj h k' _ kk).
  - destruct (heap_Push_spec h k o Hc Hit) as (h' & -> & Hc' & Ho' & Hord). bind_simpl.
    exists h'. split_and!; [done|split; [done|by eapply keyed_insert]|done..].
Qed.

Lemma Delete_spec h o k o' : heap_wf h -> keyFunc o = Ok k -> objs h !! k = Some o' ->
  ∃ h', Delete h o = Some (h', Ok tt) ∧ heap_wf h' ∧ objs h' = delete k (objs h) ∧
    (StrictWeakOrder lessFunc -> heap_ordered h -> heap_ordered h').
Proof.
  intros [Hc Hk] Hok Ho'. unfold Delete. rewrite Hok. unfold objs in Ho'. rewrite lookup_fmap in Ho'.
  destruct (items h !! k) as [it|] eqn:Hit; [|done]. simplify_eq/=.
  destruct (heap_Remove_spec h (item_index it) (item_obj it) Hc) as (h' & k' & -> & Hc' & Hk' & Ho & Hord).
  { unfold view. destruct Hc as [Hc1 _]. rewrite (Hc1 k it Hit). simpl. unfold objs. by rewrite lookup_fmap, Hit. }
  bind_simpl. assert (k' = k) as ->.
  { apply Hk in Hk' as He. assert (objs h !! k = Some (item_obj it)) as He'%Hk; [|congruence].
    unfold objs. by rewrite lookup_fmap, Hit. }
  exists h'. split_and!; [done|split; [done|by eapply keyed_delete]|done..].
Qed.

Lemma Delete_absent h o k : keyFunc o = Ok k -> objs h !! k = None ->
  Delete h o = Some (h, Err "object not found").
Proof. intros Hok Hk%items_objs. unfold Delete. by rewrite Hok, Hk. Qed.

Lemma Pop_spec h : heap_wf h -> 0 < Len h ->
  ∃ h' o k, Pop h = Some (h', Ok o) ∧ heap_wf h' ∧ keyFunc o = Ok k ∧ objs h !! k = Some o ∧
    objs h' = delete k (objs h) ∧ view h 0 = Some o ∧
    (StrictWeakOrder lessFunc -> heap_ordered h -> heap_ordered h').
Proof.
  intros [Hc Hk] Hpos. destruct (heap_Pop_spec h Hc Hpos) as (h' & k & o & Hp & Hc' & Hko & Ho & Hv & Hord).
  exists h', o, k. unfold Pop. rewrite Hp. simpl.
  split_and!; [done|split; [done|by eapply keyed_delete]|by apply Hk|done..].
Qed.

Lemma Peek_spec h : consistent h -> Peek h = Some (view h 0).
Proof.
  intros Hc. unfold Peek, view. destruct (queue h) as [|k q] eqn:Hq; [done|]. simpl.
  destruct (proj2 Hc 0 k) as [o Ho]; [by rewrite Hq|]. rewrite Ho. unfold objs. by rewrite lookup_fmap, Ho.
Qed.

Lemma root_minimal h o k' o' : StrictWeakOrder lessFunc -> heap_wf h -> heap_ordered h ->
  view h 0 = Some o -> objs h !! k' = Some o' -> lessFunc o' o = false.
Proof.
  intros Hs [Hc _] Hord Hv Ho'. unfold objs in Ho'. rewrite lookup_fmap in Ho'.
  destruct (items h !! k') as [it|] eqn:Hit; [|done]. simplify_eq/=. pose proof (proj1 Hc k' it Hit) as Hq.
  assert (view h (item_index it) = Some (item_obj it)) as Hvi.
  { unfold view. rewrite Hq. simpl. unfold objs. by rewrite lookup_fmap, Hit. }
  pose proof (ordered_root (Len h) (view h) (item_index it)) as Hr. unfold ordered_at in Hr.
  rewrite Hv, Hvi in Hr. apply Hr; [by apply consistent_occupied|done|by apply lookup_lt_Some in Hq].
Qed.

(** ** Refinement of an abstract priority map *)

Inductive heap_op :=
  | OpAdd (o : A)
  | OpAddIfNotPresent (o : A)
  | OpUpdate (o : A)
  | OpDelete (o : A)
  | OpPop.

(** Results: the error value of an operation, or the object a [Pop] returns. *)
Definition heap_out : Type := result (option A).

Definition no_value (r : heapData * result unit) : heapData * heap_out :=
  (r.1, match r.2 with Ok _ => Ok None | Err e => Err e end).

Definition heap_step (h : heapData) (op : heap_op) : option (heapData * heap_out) :=
  match op with
  | OpAdd o => no_value <$> Add h o
  | OpAddIfNotPresent o => no_value <$> AddIfNotPresent h o
  | OpUpdate o => no_value <$> Update h o
  | OpDelete o => no_value <$> Delete h o
  | OpPop => '(h, r) ← Pop h; Some (h, match r with Ok o => Ok (Some o) | Err e => Err e end)
  end.

(** What the operations mean on the finite map of stored objects. *)
Inductive pq_step : gmap string A -> heap_op -> heap_out -> gmap string A -> Prop :=
  | pq_key_error m op o e :
      op = OpAdd o ∨ op = OpAddIfNotPresent o ∨ op = OpUpdate o ∨ op = OpDelete o ->
      keyFunc o = Err e -> pq_step m op (Err e) m
  | pq_add m op o k :
      op = OpAdd o ∨ op = OpUpdate o -> keyFunc o = Ok k ->
      pq_step m op (Ok None) (<[k := o]> m)
  | pq_add_present m o k :
      keyFunc o = Ok k -> is_Some (m !! k) -> pq_step m (OpAddIfNotPresent o) (Ok None) m
  | pq_add_absent m o k :
      keyFunc o = Ok k -> m !! k = None -> pq_step m (OpAddIfNotPresent o) (Ok None) (<[k := o]> m)
  | pq_delete m o k :
      keyFunc o = Ok k -> is_Some (m !! k) -> pq_step m (OpDelete o) (Ok None) (delete k m)
  | pq_delete_absent m o k :
      keyFunc o = Ok k -> m !! k = None -> pq_step m (OpDelete o) (Err "object not found") m
  | pq_pop m o k :
      m !! k = Some o -> (forall k' o', m !! k' = Some o' -> lessFunc o' o = false) ->
      pq_step m OpPop (Ok (Some o)) (delete k m).

(** Runs of operations; [heap_run] stops with [None] at a panic. *)
Fixpoint heap_run (h : heapData) (ops : list heap_op) : option (heapData * list heap_out) :=
  match ops with
  | [] => Some (h, [])
  | op :: ops =>
      '(h, r) ← heap_step h op;
      '(h, rs) ← heap_run h ops;
      Some (h, r :: rs)
  end.

Inductive pq_run : gmap string A -> list heap_op -> list heap_out -> gmap string A -> Prop :=
  | pq_run_nil m : pq_run m [] [] m
  | pq_run_cons m op r m' ops rs m'' :
      pq_step m op r m' -> pq_run m' ops rs m'' -> pq_run m (op :: ops) (r :: rs) m''.

(** No prefix of the operations pops more than it can have stored. *)
Fixpoint pops_guarded (h : heapData) (ops : list heap_op) : bool :=
  match ops with
  | [] => true
  | op :: ops =>
      match op with OpPop => Nat.ltb 0 (Len h) | _ => true end &&
      match heap_step h op with Some (h', _) => pops_guarded h' ops | None => true end
  end.

Lemma heap_step_refines h op : StrictWeakOrder lessFunc -> heap_wf h -> heap_ordered h ->
  (op = OpPop -> 0 < Len h) ->
  ∃ h' r, heap_step h op = Some (h', r) ∧ heap_wf h' ∧ heap_ordered h' ∧ pq_step (objs h) op r (objs h').
Proof.
  intros Hs Hwf Hord Hpop.
  assert (forall o, ∃ h' r, no_value <$> Add h o = Some (h', r) ∧ heap_wf h' ∧ heap_ordered h' ∧
    forall op, op = OpAdd o ∨ op = OpUpdate o -> pq_step (objs h) op r (objs h')) as Hadd.
  { intros o. destruct (keyFunc o) as [k|e] eqn:Hk.
    - destruct (Add_spec h o k Hwf Hk) as (h' & -> & Hwf' & Ho & Hord'). exists h', (Ok None). simpl.
      rewrite Ho. split_and!; auto. intros op' ?. by eapply pq_add.
    - unfold Add. rewrite Hk. exists h, (Err e). split_and!; try done. intros op' Hop. eapply pq_key_error; [|done].
      destruct Hop as [->| ->]; tauto. }
  destruct op as [o|o|o|o|]; cbn [heap_step].
  - destruct (Hadd o) as (h' & r & ? & ? & ? & ?). exists h', r. split_and!; auto.
  - destruct (keyFunc o) as [k|e] eqn:Hk.
    + destruct (objs h !! k) as [o'|] eqn:Hko.
      * unfold AddIfNotPresent. rewrite Hk. destruct (items h !! k) eqn:Hit; [|by apply items_objs in Hit; congruence].
        exists h, (Ok None). split_and!; try done. by eapply pq_add_present; [|eexists].
      * destruct (Add_spec h o k Hwf Hk) as (h' & Hadd' & Hwf' & Ho & Hord'). exists h', (Ok None).
        unfold AddIfNotPresent, Add in *. rewrite Hk in *. rewrite (proj2 (items_objs h k) Hko) in *.
        rewrite Hadd', Ho. split_and!; auto. by eapply pq_add_absent.
    + unfold AddIfNotPresent. rewrite Hk. exists h, (Err e). split_and!; try done. eapply pq_key_error; [|done]. auto.
  - destruct (Hadd o) as (h' & r & ? & ? & ? & ?). exists h', r. split_and!; auto.
  - destruct (keyFunc o) as [k|e] eqn:Hk.
    + destruct (objs h !! k) as [o'|] eqn:Hko.
      * destruct (Delete_spec h o k o' Hwf Hk Hko) as (h' & -> & Hwf' & Ho & Hord'). exists h', (Ok None).
        simpl. rewrite Ho. split_and!; auto. by eapply pq_delete; [|eexists].
      * rewrite (Delete_absent h o k) by done. exists h, (Err "object not found").
        split_and!; [done..|]. by eapply pq_delete_absent.
    + unfold Delete. rewrite Hk. exists h, (Err e). split_and!; try done. eapply pq_key_error; [|done]. auto.
  - destruct (Pop_spec h Hwf (Hpop eq_refl)) as (h' & o & k & -> & Hwf' & Hk & Hko & Ho & Hv & Hord').
    exists h', (Ok (Some o)). simpl. rewrite Ho. split_and!; auto. apply pq_pop; [done|].
    intros k' o' Ho'. by apply (root_minimal h o k' o').
Qed.

Lemma NewHeap_wf : heap_wf NewHeap ∧ heap_ordered NewHeap ∧ objs NewHeap = ∅.
Proof.
  unfold NewHeap. split_and!.
  - split; [split; simpl; intros ? ? ?; done|intros ? ?; done].
  - intros k. unfold Len. simpl. lia.
  - unfold objs. apply fmap_empty.
Qed.

(** ** Draining *)

(** Pops until the heap is empty. *)
Fixpoint drain (fuel : nat) (h : heapData) : option (list A) :=
  match fuel with
  | O => Some []
  | S fuel => '(h, r) ← Pop h; match r with Ok o => (o ::.) <$> drain fuel h | Err _ => None end
  end.

Lemma Len_objs h : consistent h -> size (objs h) = Len h.
Proof.
  intros [Hc1 Hc2]. unfold objs. rewrite map_size_fmap. rewrite <- size_dom. unfold Len.
  assert (dom (items h) = list_to_set (queue h)) as ->.
  { apply set_eq. intros k. rewrite elem_of_dom, elem_of_list_to_set, list_elem_of_lookup. split.
    - intros [it Hit]. by exists (item_index it); apply Hc1.
    - intros [i Hi]. destruct (Hc2 i k Hi) as [o ->]. by eexists. }
  apply size_list_to_set. apply NoDup_alt. intros i j k Hi Hj. destruct (Hc2 i k Hi), (Hc2 j k Hj). congruence.
Qed.

Lemma drain_spec n h : StrictWeakOrder lessFunc -> heap_wf h -> heap_ordered h -> Len h = n ->
  ∃ l, drain n h = Some l ∧ l ≡ₚ (map_to_list (objs h)).*2 ∧ StronglySorted (fun x y => lessFunc y x = false) l.
Proof.
  revert h. induction n as [|n IH]; intros h Hs Hwf Hord Hl.
  - exists []. split_and!; [done| |constructor].
    assert (objs h = ∅) as ->; [|by rewrite map_to_list_empty].
    apply map_size_empty_iff. rewrite Len_objs; [done|apply Hwf].
  - destruct (Pop_spec h Hwf) as (h' & o & k & Hp & Hwf' & Hk & Hko & Ho & Hv & Hord'); [lia|].
    destruct (IH h' Hs Hwf') as (l & Hd & Hl' & Hsort); [by apply Hord'| |].
    { rewrite <- Len_objs by apply Hwf'. rewrite Ho. rewrite map_size_delete_Some by (by eexists).
      rewrite Len_objs by apply Hwf. lia. }
    exists (o :: l). cbn [drain]. rewrite Hp. bind_simpl. rewrite Hd. split_and!; [done| |].
    + rewrite Hl', Ho. rewrite <- (map_to_list_delete (objs h) k o Hko). done.
    + constructor; [done|]. apply Forall_forall. intros x Hx.
      assert (x ∈ (map_to_list (objs h')).*2) as Hin by (by rewrite <- Hl').
      apply list_elem_of_fmap in Hin as ([k' x'] & -> & Hin%elem_of_map_to_list). simpl.
      rewrite Ho in Hin. apply lookup_delete_Some in Hin as [_ Hin]. by apply (root_minimal h o k' x').
Qed.

End Heap.

Arguments heapItem A : clear implicits.
Arguments heapData A : clear implicits.
Arguments heap_op A : clear implicits.

Lemma heap_run_refines {A} (keyFunc : A -> result string) lessFunc h ops :
  StrictWeakOrder lessFunc -> heap_wf keyFunc h -> heap_ordered lessFunc h ->
  if pops_guarded keyFunc lessFunc h ops then
    ∃ h' rs, heap_run keyFunc lessFunc h ops = Some (h', rs) ∧ heap_wf keyFunc h' ∧ heap_ordered lessFunc h' ∧
      pq_run keyFunc lessFunc (objs h) ops rs (objs h')
  else heap_run keyFunc lessFunc h ops = None.
Proof.
  intros Hs. revert h. induction ops as [|op ops IH]; intros h Hwf Hord; cbn [pops_guarded heap_run].
  { exists h, []. split_and!; try done. constructor. }
  destruct (match op with OpPop => Nat.ltb 0 (Len h) | _ => true end) eqn:Hg; simpl.
  - destruct (heap_step_refines keyFunc lessFunc h op Hs Hwf Hord) as (h1 & r & -> & Hwf1 & Hord1 & Hst).
    { intros ->. by apply Nat.ltb_lt. }
    simpl. specialize (IH h1 Hwf1 Hord1). destruct (pops_guarded keyFunc lessFunc h1 ops).
    + destruct IH as (h' & rs & -> & Hwf' & Hord' & Hrun). exists h', (r :: rs). split_and!; try done.
      by econstructor.
    + by rewrite IH.
  - destruct op; try done. apply Nat.ltb_ge in Hg. cbn [heap_step].
    unfold Pop, heap_Pop. by replace (Len h) with 0 by lia.
Qed.

(** C25.  The heap implements a priority map.  Run any sequence of [Add],
    [AddIfNotPresent], [Update], [Delete] and [Pop] on a new heap, with a
    comparison that is a strict weak order.  The only panic is a [Pop] of an
    empty heap; otherwise the returned values are those of insertion,
    replacement, deletion and extraction of a least object on the finite map
    of stored objects, and map and key slice stay consistent and heap ordered. *)
Theorem heap_implements_priority_map {A} (keyFunc : A -> result string) lessFunc ops :
  StrictWeakOrder lessFunc ->
  if pops_guarded keyFunc lessFunc NewHeap ops then
    ∃ h rs, heap_run keyFunc lessFunc NewHeap ops = Some (h, rs) ∧
      pq_run keyFunc lessFunc ∅ ops rs (objs h) ∧ heap_wf keyFunc h ∧ heap_ordered lessFunc h
  else heap_run keyFunc lessFunc NewHeap ops = None.
Proof.
  intros Hs. destruct (NewHeap_wf keyFunc lessFunc) as (Hwf & Hord & Ho).
  pose proof (heap_run_refines keyFunc lessFunc NewHeap ops Hs Hwf Hord) as Hr.
  destruct (pops_guarded keyFunc lessFunc NewHeap ops); [|done].
  destruct Hr as (h & rs & ? & ? & ? & Hrun). exists h, rs. by rewrite Ho in Hrun.
Qed.

(** A comparison and a key for concrete runs. *)
Definition demo_key (o : string * nat) : result string := Ok o.1.
Definition demo_less (x y : string * nat) : bool := Nat.ltb x.2 y.2.

Lemma demo_less_order : StrictWeakOrder demo_less.
Proof.
  split; unfold demo_less; intros *; rewrite ?Nat.ltb_lt, ?Nat.ltb_ge; lia.
Qed.

Definition demo_ops : list (heap_op (string * nat)) :=
  [OpAdd ("a"%string, 5); OpAdd ("b"%string, 3); OpAdd ("c"%string, 9); OpUpdate ("c"%string, 1); OpPop;
   OpDelete ("b"%string, 0); OpDelete ("b"%string, 0); OpPop].

Lemma heap_implements_priority_map_witness :
  snd <$> heap_run demo_key demo_less NewHeap demo_ops =
    Some [Ok None; Ok None; Ok None; Ok None; Ok (Some ("c"%string, 1)); Ok None; Err "object not found";
          Ok (Some ("a"%string, 5))] ∧
  ∃ h rs, heap_run demo_key demo_less NewHeap demo_ops = Some (h, rs) ∧
    pq_run demo_key demo_less ∅ demo_ops rs (objs h) ∧ heap_wf demo_key h ∧ heap_ordered demo_less h.
Proof.
  split; [vm_compute; reflexivity|].
  exact (heap_implements_priority_map demo_key demo_less demo_ops demo_less_order).
Defined.

(** Popping a consistent, ordered heap until it is empty takes exactly as
    many pops as it has keys, none of which fails, and returns every stored
    object once, in non-decreasing order. *)
Theorem heap_drain_sorted {A} (keyFunc : A -> result string) lessFunc h :
  StrictWeakOrder lessFunc -> heap_wf keyFunc h -> heap_ordered lessFunc h ->
  ∃ l, drain lessFunc (Len h) h = Some l ∧ l ≡ₚ (map_to_list (objs h)).*2 ∧
    StronglySorted (fun x y => lessFunc y x = false) l.
Proof. intros. by apply (drain_spec keyFunc). Qed.

(** The heap built by three insertions. *)
Definition demo_heap : heapData (string * nat) :=
  mkHeap {["a"%string := mkItem ("a"%string, 5) 2; "b"%string := mkItem ("b"%string, 3) 0;
           "c"%string := mkItem ("c"%string, 9) 1]} ["b"; "c"; "a"]%string.

Lemma demo_heap_wf : heap_wf demo_key demo_heap ∧ heap_ordered demo_less demo_heap.
Proof.
  split; [split; [split|]|].
  - intros k it. cbn. rewrite !lookup_insert_Some, lookup_singleton_Some.
    by intros [[<- <-]|[? [[<- <-]|[? [<- <-]]]]].
  - intros [|[|[|i]]] k Hk; simplify_eq/=; eexists; vm_compute; reflexivity.
  - intros k o. unfold objs, demo_heap. cbn [items]. rewrite !fmap_insert, map_fmap_singleton, !lookup_insert_Some, lookup_singleton_Some.
    by intros [[<- <-]|[? [[<- <-]|[? [<- <-]]]]].
  - intros [|[|[|i]]] Hk; vm_compute; try done; unfold Len in Hk; simpl in Hk; lia.
Qed.

Lemma heap_drain_sorted_witness :
  drain demo_less 3 demo_heap = Some [("b"%string, 3); ("a"%string, 5); ("c"%string, 9)] ∧
  ∃ l, drain demo_less (Len demo_heap) demo_heap = Some l ∧ l ≡ₚ (map_to_list (objs demo_heap)).*2 ∧
    StronglySorted (fun x y => demo_less y x = false) l.
Proof.
  split; [vm_compute; reflexivity|].
  exact (heap_drain_sorted demo_key demo_less demo_heap demo_less_order (proj1 demo_heap_wf) (proj2 demo_heap_wf)).
Defined.
