(* ===== verification/Backoff.v ===== *)
(** * Backoff of unschedulable stacks

    Models [globalscheduler/pkg/scheduler/internal/queue/stack_backoff.go].
    Times and durations are nanoseconds; the zero [time.Time] is 0.  The file
    gives the closed form of the backoff duration and the properties of the
    backoff times the scheduling queue relies on. *)
From S2P Require Import Prelude Types.

Local Open Scope Z_scope.

(** The identity of a stack: tenant, namespace and name. *)
Record NamespacedName := mkNN { NN_Tenant : string; NN_Namespace : string; NN_Name : string }.

#[export] Instance NamespacedName_eq_dec : EqDecision NamespacedName.
Proof. solve_decision. Defined.

#[export] Instance NamespacedName_countable : Countable NamespacedName.
Proof.
  refine (inj_countable' (fun n => (NN_Tenant n, NN_Namespace n, NN_Name n))
    (fun '(t, ns, n) => mkNN t ns n) _).
  by intros [].
Defined.

(** (stack_backoff.go:28-39) *)
Record StackBackoffMap := mkBackoff {
  initialDuration : Z;
  maxDuration : Z;
  stackAttempts : gmap NamespacedName Z;
  stackLastUpdateTime : gmap NamespacedName Z }.

(** (stack_backoff.go:42-49) *)
Definition NewStackBackoffMap (initial maximal : Z) : StackBackoffMap := mkBackoff initial maximal ∅ ∅.

(** The loop of [calculateBackoffDuration], [n] iterations of it left
    (stack_backoff.go:69-74 calculateBackoffDuration). *)
Fixpoint backoff_loop (n : nat) (maximal d : Z) : Z :=
  match n with
  | O => d
  | S n =>
      let d := wrap64 (d * 2) in
      if maximal <? d then maximal else backoff_loop n maximal d
  end.

(** (stack_backoff.go:66-77) *)
Definition calculateBackoffDuration (pbm : StackBackoffMap) (nsStack : NamespacedName) : Z :=
  match stackAttempts pbm !! nsStack with
  | Some attempts => backoff_loop (Z.to_nat (attempts - 1)) (maxDuration pbm) (initialDuration pbm)
  | None => initialDuration pbm
  end.

(** The end of the backoff and whether there is one; a missing update time reads
    as the zero time (stack_backoff.go:52-62). *)
Definition GetBackoffTime (pbm : StackBackoffMap) (nsStack : NamespacedName) : Z * bool :=
  match stackAttempts pbm !! nsStack with
  | None => (0, false)
  | Some _ =>
      (default 0 (stackLastUpdateTime pbm !! nsStack) + calculateBackoffDuration pbm nsStack, true)
  end.

(** (stack_backoff.go:81-91) *)
Definition ClearStackBackoff (pbm : StackBackoffMap) (nsStack : NamespacedName) : StackBackoffMap :=
  mkBackoff (initialDuration pbm) (maxDuration pbm)
    (delete nsStack (stackAttempts pbm)) (delete nsStack (stackLastUpdateTime pbm)).

(** One entry of the garbage collection at time [now]
    (stack_backoff.go:100-102 CleanupStacksCompletesBackingoff). *)
Definition cleanup_one (now : Z) (pbm : StackBackoffMap) (kv : NamespacedName * Z) : StackBackoffMap :=
  if kv.2 + maxDuration pbm <? now then ClearStackBackoff pbm kv.1 else pbm.

(** [range] is the order in which the map is visited, [clk n] the [n]-th reading
    of the clock; the result includes the number of readings made
    (stack_backoff.go:96-104). *)
Definition CleanupStacksCompletesBackingoff
    (range : gmap NamespacedName Z -> list (NamespacedName * Z)) (clk : nat -> Z) (t : nat)
    (pbm : StackBackoffMap) : StackBackoffMap * nat :=
  foldl (fun '(pbm, t) kv => (cleanup_one (clk t) pbm kv, S t)) (pbm, t) (range (stackLastUpdateTime pbm)).

(** (stack_backoff.go:108-113) *)
Definition BackoffStack (now : Z) (pbm : StackBackoffMap) (nsStack : NamespacedName) : StackBackoffMap :=
  mkBackoff (initialDuration pbm) (maxDuration pbm)
    (<[nsStack := wrap64 (default 0 (stackAttempts pbm !! nsStack) + 1)]> (stackAttempts pbm))
    (<[nsStack := now]> (stackLastUpdateTime pbm)).

(** ** Facts *)

(** The durations the queue is built with satisfy this. *)
Definition durations_ok (pbm : StackBackoffMap) : Prop :=
  0 < initialDuration pbm <= maxDuration pbm ∧ 2 * maxDuration pbm <= MaxInt64.

Lemma backoff_loop_eq n maximal d :
  0 < d <= maximal -> 2 * maximal <= MaxInt64 ->
  backoff_loop n maximal d = Z.min (d * 2 ^ Z.of_nat n) maximal.
Proof.
  intros Hd Hm. revert d Hd. induction n as [|n IH]; intros d Hd; cbn [backoff_loop].
  { rewrite Z.pow_0_r. lia. }
  rewrite wrap64_id by auto with go.
  assert (0 < 2 ^ Z.of_nat n) by (apply Z.pow_pos_nonneg; lia).
  rewrite Nat2Z.inj_succ, Z.pow_succ_r by lia. destruct (Z.ltb_spec maximal (d * 2)).
  - rewrite Z.min_r; [done|]. pose proof (Z.mul_le_mono_nonneg_l 1 (2 ^ Z.of_nat n) (d * 2) ltac:(lia) ltac:(lia)). lia.
  - rewrite IH by lia. f_equal. lia.
Qed.

Lemma calculate_eq pbm ns a : durations_ok pbm -> stackAttempts pbm !! ns = Some a ->
  calculateBackoffDuration pbm ns = Z.min (initialDuration pbm * 2 ^ Z.of_nat (Z.to_nat (a - 1))) (maxDuration pbm).
Proof. intros [? ?] Ha. unfold calculateBackoffDuration. rewrite Ha. by apply backoff_loop_eq. Qed.

Lemma calculate_bounds pbm ns : durations_ok pbm ->
  initialDuration pbm <= calculateBackoffDuration pbm ns <= maxDuration pbm.
Proof.
  intros Hd. destruct (stackAttempts pbm !! ns) as [a|] eqn:Ha.
  - rewrite (calculate_eq pbm ns a) by done. destruct Hd as [? ?].
    assert (0 < 2 ^ Z.of_nat (Z.to_nat (a - 1))) by (apply Z.pow_pos_nonneg; lia).
    pose proof (Z.mul_le_mono_nonneg_l 1 (2 ^ Z.of_nat (Z.to_nat (a - 1))) (initialDuration pbm) ltac:(lia) ltac:(lia)). lia.
  - unfold calculateBackoffDuration. rewrite Ha. unfold durations_ok in Hd. lia.
Qed.

Lemma BackoffStack_lookup now pbm ns a :
  default 0 (stackAttempts pbm !! ns) = a -> 0 <= a < MaxInt64 ->
  stackAttempts (BackoffStack now pbm ns) !! ns = Some (a + 1).
Proof.
  intros Ha Hr. simpl. rewrite lookup_insert_eq, Ha, wrap64_id; [done|]. int64.
Qed.

(** After its [a+1]-th failed attempt a stack backs off for
    [initial * 2^a], cut at the maximal duration; the backoff starts when the
    attempt is recorded, so it ends strictly later than that and at most
    [maxDuration] later. *)
Theorem backoff_doubles_up_to_max now pbm ns a :
  durations_ok pbm -> default 0 (stackAttempts pbm !! ns) = a -> 0 <= a < MaxInt64 ->
  GetBackoffTime (BackoffStack now pbm ns) ns =
    (now + Z.min (initialDuration pbm * 2 ^ a) (maxDuration pbm), true) ∧
  now < (GetBackoffTime (BackoffStack now pbm ns) ns).1 <= now + maxDuration pbm.
Proof.
  intros Hd Ha Hr. pose proof (BackoffStack_lookup now pbm ns a Ha Hr) as Hl.
  assert (durations_ok (BackoffStack now pbm ns)) as Hd' by done.
  pose proof (calculate_bounds _ ns Hd') as Hb.
  pose proof (calculate_eq _ ns _ Hd' Hl) as He. unfold GetBackoffTime. rewrite Hl.
  assert (stackLastUpdateTime (BackoffStack now pbm ns) !! ns = Some now) as -> by apply lookup_insert_eq.
  change (initialDuration (BackoffStack now pbm ns)) with (initialDuration pbm) in *.
  change (maxDuration (BackoffStack now pbm ns)) with (maxDuration pbm) in *.
  cbn [from_option fst]. unfold id. split.
  - rewrite He. replace (Z.of_nat (Z.to_nat (a + 1 - 1))) with a by lia. done.
  - destruct Hd. lia.
Qed.

Lemma backoff_doubles_up_to_max_witness :
  let pbm := NewStackBackoffMap 1000000000 10000000000 in
  let s := mkNN "t" "ns" "a" in
  GetBackoffTime (BackoffStack 7 (BackoffStack 5 pbm s) s) s = (2000000007, true).
Proof.
  pose (pbm := BackoffStack 5 (NewStackBackoffMap 1000000000 10000000000) (mkNN "t" "ns" "a")).
  destruct (backoff_doubles_up_to_max 7 pbm (mkNN "t" "ns" "a") 1) as [H _].
  - unfold durations_ok, MaxInt64. simpl. lia.
  - vm_compute. reflexivity.
  - unfold MaxInt64. lia.
  - exact H.
Defined.
