(* ===== verification/SchedQueue.v ===== *)
(** * The scheduling queue

    Models [globalscheduler/pkg/scheduler/internal/queue/scheduling_queue.go]
    (with the comparison of [framework/plugins/queuesort/priority_sort.go]): the
    active heap, the backoff heap, the map of unschedulable stacks and the map
    of nominated stacks, and every operation on them.

    Each operation runs under the queue's lock and is a function on the state.
    The clock is an oracle [clk]: its [n]-th reading is [clk n], and the state
    counts the readings made.  The order in which Go visits a map is an oracle
    too.  [None] is a panic.  A call of [cond.Broadcast] increments a counter, so
    that the wake-ups of a blocked [Pop] can be reasoned about. *)
From S2P Require Import Prelude Types Heap Backoff.

Local Open Scope Z_scope.

(** ** Nominated stacks *)

(** (scheduling_queue.go:663-671) *)
Record nominatedStackMap := mkNominated {
  nominatedStacks : gmap string (list Stack);
  nominatedStackToSite : gmap string string }.

(** (scheduling_queue.go:740-745) *)
Definition newNominatedStackMap : nominatedStackMap := mkNominated ∅ ∅.

(** (scheduling_queue.go:90-93) *)
Definition NominatedSiteID (stack : Stack) : string := "".

(** The slice without its first stack of the given UID. *)
Fixpoint remove_uid (uid : string) (l : list Stack) : list Stack :=
  match l with
  | [] => []
  | np :: l => if String.eqb (UID np) uid then l else np :: remove_uid uid l
  end.

(** (scheduling_queue.go:695-710 delete) *)
Definition nominated_delete (npm : nominatedStackMap) (p : Stack) : nominatedStackMap :=
  match nominatedStackToSite npm !! UID p with
  | None => npm
  | Some nnn =>
      let l := default [] (nominatedStacks npm !! nnn) in
      let m :=
        if existsb (fun np => String.eqb (UID np) (UID p)) l then
          match remove_uid (UID p) l with
          | [] => delete nnn (nominatedStacks npm)
          | l' => <[nnn := l']> (nominatedStacks npm)
          end
        else nominatedStacks npm in
      mkNominated m (delete (UID p) (nominatedStackToSite npm))
  end.

(** (scheduling_queue.go:673-693 add) *)
Definition nominated_add (npm : nominatedStackMap) (p : Stack) (siteID : string) : nominatedStackMap :=
  let npm := nominated_delete npm p in
  let nnn := if String.eqb siteID "" then NominatedSiteID p else siteID in
  if String.eqb nnn "" then npm
  else
    let toSite := <[UID p := nnn]> (nominatedStackToSite npm) in
    let l := default [] (nominatedStacks npm !! nnn) in
    if existsb (fun np => String.eqb (UID np) (UID p)) l then mkNominated (nominatedStacks npm) toSite
    else mkNominated (<[nnn := l ++ [p]]> (nominatedStacks npm)) toSite.

(** A nil [oldStack] is dereferenced when both stacks nominate no site, which is
    always (scheduling_queue.go:712-731 update). *)
Definition nominated_update (npm : nominatedStackMap) (oldStack : option Stack) (newStack : Stack) :
    option nominatedStackMap :=
  old ← oldStack;
  let siteID :=
    if String.eqb (NominatedSiteID old) "" && String.eqb (NominatedSiteID newStack) "" then
      default ""%string (nominatedStackToSite npm !! UID old)
    else ""%string in
  Some (nominated_add (nominated_delete npm old) newStack siteID).

(** (scheduling_queue.go:733-738) *)
Definition stacksForSite (npm : nominatedStackMap) (siteID : string) : list Stack :=
  default [] (nominatedStacks npm !! siteID).

(** ** The queue *)

(** (scheduling_queue.go:102-134) *)
Record PriorityQueue := mkPQ {
  stackBackoff : StackBackoffMap;
  activeQ : heapData StackInfo;
  stackBackoffQ : heapData StackInfo;
  unschedulableQ : gmap string StackInfo;
  nominated : nominatedStackMap;
  schedulingCycle : Z;
  moveRequestCycle : Z;
  closed : bool;
  clock_reads : nat;
  broadcasts : nat }.

Definition set_backoff (p : PriorityQueue) b := mkPQ b (activeQ p) (stackBackoffQ p) (unschedulableQ p) (nominated p)
  (schedulingCycle p) (moveRequestCycle p) (closed p) (clock_reads p) (broadcasts p).
Definition set_active (p : PriorityQueue) a := mkPQ (stackBackoff p) a (stackBackoffQ p) (unschedulableQ p) (nominated p)
  (schedulingCycle p) (moveRequestCycle p) (closed p) (clock_reads p) (broadcasts p).
Definition set_backoffQ (p : PriorityQueue) q := mkPQ (stackBackoff p) (activeQ p) q (unschedulableQ p) (nominated p)
  (schedulingCycle p) (moveRequestCycle p) (closed p) (clock_reads p) (broadcasts p).
Definition set_unschedulable (p : PriorityQueue) u := mkPQ (stackBackoff p) (activeQ p) (stackBackoffQ p) u (nominated p)
  (schedulingCycle p) (moveRequestCycle p) (closed p) (clock_reads p) (broadcasts p).
Definition set_nominated (p : PriorityQueue) n := mkPQ (stackBackoff p) (activeQ p) (stackBackoffQ p) (unschedulableQ p) n
  (schedulingCycle p) (moveRequestCycle p) (closed p) (clock_reads p) (broadcasts p).
Definition set_cycle (p : PriorityQueue) c := mkPQ (stackBackoff p) (activeQ p) (stackBackoffQ p) (unschedulableQ p)
  (nominated p) c (moveRequestCycle p) (closed p) (clock_reads p) (broadcasts p).
Definition set_move (p : PriorityQueue) c := mkPQ (stackBackoff p) (activeQ p) (stackBackoffQ p) (unschedulableQ p)
  (nominated p) (schedulingCycle p) c (closed p) (clock_reads p) (broadcasts p).
Definition set_closed (p : PriorityQueue) c := mkPQ (stackBackoff p) (activeQ p) (stackBackoffQ p) (unschedulableQ p)
  (nominated p) (schedulingCycle p) (moveRequestCycle p) c (clock_reads p) (broadcasts p).
Definition set_reads (p : PriorityQueue) t := mkPQ (stackBackoff p) (activeQ p) (stackBackoffQ p) (unschedulableQ p)
  (nominated p) (schedulingCycle p) (moveRequestCycle p) (closed p) t (broadcasts p).
Definition broadcast (p : PriorityQueue) := mkPQ (stackBackoff p) (activeQ p) (stackBackoffQ p) (unschedulableQ p)
  (nominated p) (schedulingCycle p) (moveRequestCycle p) (closed p) (clock_reads p) (S (broadcasts p)).

(** ** Keys and comparisons *)

(** (scheduling_queue.go:762-766) *)
Definition stackInfoKeyFunc (si : StackInfo) : result string :=
  let stack := SI_Stack si in
  Ok (Tenant stack +:+ "/" +:+ PodNamespace stack +:+ "/" +:+ PodName stack).

(** (scheduling_queue.go:250-256) *)
Definition nsNameForStack (stack : Stack) : NamespacedName :=
  mkNN (Tenant stack) (PodNamespace stack) (PodName stack).

(** (scheduling_queue.go:149-155) *)
Definition activeQComp (s1 s2 : StackInfo) : bool :=
  let prio1 := GetStackPriority (SI_Stack s1) in
  let prio2 := GetStackPriority (SI_Stack s2) in
  (prio2 <? prio1) || ((prio1 =? prio2) && (Timestamp s1 <? Timestamp s2)).

(** The queue-sort plugin gives every stack priority 1 (priority_sort.go:44-48 Less). *)
Definition PrioritySort_Less (s1 s2 : StackInfo) : bool :=
  let GetStackPriority (_ : Stack) := 1 in
  let p1 := GetStackPriority (SI_Stack s1) in
  let p2 := GetStackPriority (SI_Stack s2) in
  (p2 <? p1) || ((p1 =? p2) && (Timestamp s1 <? Timestamp s2)).

(** (scheduling_queue.go:587-593) *)
Definition stacksCompareBackoffCompleted (pbm : StackBackoffMap) (s1 s2 : StackInfo) : bool :=
  let bo1 := (GetBackoffTime pbm (nsNameForStack (SI_Stack s1))).1 in
  let bo2 := (GetBackoffTime pbm (nsNameForStack (SI_Stack s2))).1 in
  bo1 <? bo2.

(** (scheduling_queue.go:140-144) *)
Definition newStackInfoNoTimestamp (stack : Stack) : StackInfo := mkStackInfo stack 0.

(** ** Unschedulable stacks *)

(** (scheduling_queue.go:625-628 addOrUpdate) *)
Definition unsched_addOrUpdate (u : gmap string StackInfo) (pInfo : StackInfo) : gmap string StackInfo :=
  <[GetStackFullName (SI_Stack pInfo) := pInfo]> u.

(** (scheduling_queue.go:631-634 delete) *)
Definition unsched_delete (u : gmap string StackInfo) (stack : Stack) : gmap string StackInfo :=
  delete (GetStackFullName stack) u.

(** (scheduling_queue.go:638-644 get) *)
Definition unsched_get (u : gmap string StackInfo) (stack : Stack) : option StackInfo :=
  u !! GetStackFullName stack.

(** ** Operations *)

Section Queue.
(** The clock, the map iteration orders, the comparison of the framework's
    queue-sort plugin (nil when no framework or plugin is configured), and
    [reflect.DeepEqual] on stacks. *)
Context (clk : nat -> Z)
  (range_backoff : gmap NamespacedName Z -> list (NamespacedName * Z))
  (range_unsched : gmap string StackInfo -> list (string * StackInfo))
  (queueSortFunc : option (StackInfo -> StackInfo -> bool))
  (DeepEqual : option Stack -> option Stack -> bool).

(** The active heap's comparison (scheduling_queue.go:164-174 NewPriorityQueueWithClock). *)
Definition comp : StackInfo -> StackInfo -> bool :=
  match queueSortFunc with Some f => f | None => activeQComp end.

(** (scheduling_queue.go:163-191) *)
Definition NewPriorityQueueWithClock : PriorityQueue :=
  mkPQ (NewStackBackoffMap 1000000000 10000000000) NewHeap NewHeap ∅ newNominatedStackMap 0 (-1) false 0 0.

(** One reading of the clock. *)
Definition Now (p : PriorityQueue) : Z * PriorityQueue :=
  (clk (clock_reads p), set_reads p (S (clock_reads p))).

(** The clock is never nil (scheduling_queue.go:603-614). *)
Definition newStackInfo (p : PriorityQueue) (stack : Stack) : StackInfo * PriorityQueue :=
  let '(now, p) := Now p in (mkStackInfo stack now, p).

Definition activeQ_Add (p : PriorityQueue) (si : StackInfo) : option (PriorityQueue * result unit) :=
  '(h, r) ← Add stackInfoKeyFunc comp (activeQ p) si; Some (set_active p h, r).

Definition backoffQ_Add (p : PriorityQueue) (si : StackInfo) : option (PriorityQueue * result unit) :=
  '(h, r) ← Add stackInfoKeyFunc (stacksCompareBackoffCompleted (stackBackoff p)) (stackBackoffQ p) si;
  Some (set_backoffQ p h, r).

Definition backoffQ_Delete (p : PriorityQueue) (si : StackInfo) : option (PriorityQueue * result unit) :=
  '(h, r) ← Delete stackInfoKeyFunc (stacksCompareBackoffCompleted (stackBackoff p)) (stackBackoffQ p) si;
  Some (set_backoffQ p h, r).

Definition in_activeQ (p : PriorityQueue) (si : StackInfo) : option StackInfo :=
  match Get stackInfoKeyFunc (activeQ p) si with Ok o => o | Err _ => None end.

Definition in_backoffQ (p : PriorityQueue) (si : StackInfo) : option StackInfo :=
  match Get stackInfoKeyFunc (stackBackoffQ p) si with Ok o => o | Err _ => None end.

Definition nominate (p : PriorityQueue) (stack : Stack) (siteID : string) : PriorityQueue :=
  set_nominated p (nominated_add (nominated p) stack siteID).

(** (scheduling_queue.go:201-221 Add) *)
Definition pq_Add (p : PriorityQueue) (stack : Stack) : option (PriorityQueue * result unit) :=
  let '(pInfo, p) := newStackInfo p stack in
  '(p, err) ← activeQ_Add p pInfo;
  if is_ok err then
    let p :=
      match unsched_get (unschedulableQ p) stack with
      | Some _ => set_unschedulable p (unsched_delete (unschedulableQ p) stack)
      | None => p
      end in
    '(p, _) ← backoffQ_Delete p pInfo;
    Some (broadcast (nominate p stack ""), Ok tt)
  else Some (p, err).

(** (scheduling_queue.go:225-247 AddIfNotPresent) *)
Definition pq_AddIfNotPresent (p : PriorityQueue) (stack : Stack) : option (PriorityQueue * result unit) :=
  match unsched_get (unschedulableQ p) stack with
  | Some _ => Some (p, Ok tt)
  | None =>
      let '(pInfo, p) := newStackInfo p stack in
      match in_activeQ p pInfo, in_backoffQ p pInfo with
      | None, None =>
          '(p, err) ← activeQ_Add p pInfo;
          if is_ok err then Some (broadcast (nominate p stack ""), err) else Some (p, err)
      | _, _ => Some (p, Ok tt)
      end
  end.

(** (scheduling_queue.go:259-261) *)
Definition clearStackBackoff (p : PriorityQueue) (stack : Stack) : PriorityQueue :=
  set_backoff p (ClearStackBackoff (stackBackoff p) (nsNameForStack stack)).

(** (scheduling_queue.go:265-271) *)
Definition isStackBackingOff (p : PriorityQueue) (stack : Stack) : bool * PriorityQueue :=
  let '(boTime, exists_) := GetBackoffTime (stackBackoff p) (nsNameForStack stack) in
  if exists_ then let '(now, p) := Now p in (now <? boTime, p) else (false, p).

(** (scheduling_queue.go:275-283) *)
Definition backoffStack (p : PriorityQueue) (stack : Stack) : PriorityQueue :=
  let '(pbm, t) := CleanupStacksCompletesBackingoff range_backoff clk (clock_reads p) (stackBackoff p) in
  let p := set_reads (set_backoff p pbm) t in
  let stackID := nsNameForStack stack in
  let '(boTime, found) := GetBackoffTime (stackBackoff p) stackID in
  let '(again, p) := if found then let '(now, p) := Now p in (boTime <? now, p) else (true, p) in
  if again then
    let '(now, p) := Now p in set_backoff p (BackoffStack now (stackBackoff p) stackID)
  else p.

(** (scheduling_queue.go:296-327) *)
Definition AddUnschedulableIfNotPresent (p : PriorityQueue) (stack : Stack) (stackSchedulingCycle : Z) :
    option (PriorityQueue * result unit) :=
  match unsched_get (unschedulableQ p) stack with
  | Some _ => Some (p, Err "stack is already present in unschedulableQ")
  | None =>
      let '(pInfo, p) := newStackInfo p stack in
      match in_activeQ p pInfo, in_backoffQ p pInfo with
      | Some _, _ => Some (p, Err "stack is already present in the activeQ")
      | None, Some _ => Some (p, Err "stack is already present in the backoffQ")
      | None, None =>
          let p := backoffStack p stack in
          if stackSchedulingCycle <=? moveRequestCycle p then
            '(p, err) ← backoffQ_Add p pInfo;
            if is_ok err then Some (nominate p stack "", Ok tt)
            else Some (p, Err "error adding stack to the backoff queue")
          else
            let p := set_unschedulable p (unsched_addOrUpdate (unschedulableQ p) pInfo) in
            Some (nominate p stack "", Ok tt)
      end
  end.

(** The loop of [flushBackoffQCompleted]: its deferred broadcasts happen when it
    returns, [n] of them so far; [fuel] bounds the stacks it moves
    (scheduling_queue.go:334-359 flushBackoffQCompleted). *)
Fixpoint flush_loop (fuel : nat) (p : PriorityQueue) (n : nat) : option PriorityQueue :=
  let return_ p := Some (Nat.iter n broadcast p) in
  match fuel with
  | O => None
  | S fuel =>
      raw ← Peek (stackBackoffQ p);
      match raw with
      | None => return_ p
      | Some rawStackInfo =>
          let stack := SI_Stack rawStackInfo in
          let less := stacksCompareBackoffCompleted (stackBackoff p) in
          let '(boTime, found) := GetBackoffTime (stackBackoff p) (nsNameForStack stack) in
          if found then
            let '(now, p) := Now p in
            if now <? boTime then return_ p
            else
              '(h, r) ← Pop less (stackBackoffQ p);
              let p := set_backoffQ p h in
              match r with
              | Err _ => return_ p
              | Ok _ => '(p, _) ← activeQ_Add p rawStackInfo; flush_loop fuel p (S n)
              end
          else
            '(h, _) ← Pop less (stackBackoffQ p);
            let p := set_backoffQ p h in
            '(p, _) ← activeQ_Add p rawStackInfo;
            flush_loop fuel p (S n)
      end
  end.

(** (scheduling_queue.go:330-360) *)
Definition flushBackoffQCompleted (p : PriorityQueue) : option PriorityQueue :=
  flush_loop (S (Len (stackBackoffQ p))) p 0.

(** [t.Sub(u)], which saturates. *)
Definition time_Sub (t u : Z) : Z := Z.max MinInt64 (Z.min MaxInt64 (t - u)).

(** (scheduling_queue.go:48-48) *)
Definition unschedulableQTimeInterval : Z := 60000000000.

(** The body of the two move loops (scheduling_queue.go:519-528 moveStacksToActiveQueue). *)
Definition move_one (p : PriorityQueue) (pInfo : StackInfo) : option PriorityQueue :=
  let '(backing, p) := isStackBackingOff p (SI_Stack pInfo) in
  '(p, _) ← (if backing : bool then backoffQ_Add p pInfo else activeQ_Add p pInfo);
  Some p.

(** (scheduling_queue.go:518-530 moveStacksToActiveQueue) *)
Fixpoint move_stacks (p : PriorityQueue) (l : list StackInfo) : option PriorityQueue :=
  match l with
  | [] => Some p
  | pInfo :: l =>
      p ← move_one p pInfo;
      move_stacks (set_unschedulable p (unsched_delete (unschedulableQ p) (SI_Stack pInfo))) l
  end.

(** (scheduling_queue.go:517-533) *)
Definition moveStacksToActiveQueue (p : PriorityQueue) (l : list StackInfo) : option PriorityQueue :=
  p ← move_stacks p l;
  Some (broadcast (set_move p (schedulingCycle p))).

(** (scheduling_queue.go:364-380) *)
Definition flushUnschedulableQLeftover (p : PriorityQueue) : option PriorityQueue :=
  let '(currentTime, p) := Now p in
  let stacksToMove :=
    filter (fun pInfo => unschedulableQTimeInterval < time_Sub currentTime (Timestamp pInfo))
      (range_unsched (unschedulableQ p)).*2 in
  match stacksToMove with
  | [] => Some p
  | _ => moveStacksToActiveQueue p stacksToMove
  end.

(** What a call of [Pop] does: it waits, fails, or returns a stack. *)
Inductive pop_result :=
  | Waiting
  | PopErr (msg : string)
  | Popped (stack : Stack).

(** (scheduling_queue.go:385-404 Pop) *)
Definition pq_Pop (p : PriorityQueue) : option (PriorityQueue * pop_result) :=
  if Nat.eqb (Len (activeQ p)) 0 then
    if closed p then Some (p, PopErr "scheduling queue is closed") else Some (p, Waiting)
  else
    '(h, r) ← Pop comp (activeQ p);
    let p := set_active p h in
    match r with
    | Err e => Some (p, PopErr e)
    | Ok pInfo => Some (set_cycle p (wrap64 (schedulingCycle p + 1)), Popped (SI_Stack pInfo))
    end.

(** [DeepCopy] of a stack returns the stack itself (scheduling_queue.go:408-414). *)
Definition isStackUpdated (oldStack : option Stack) (newStack : Stack) : bool :=
  negb (DeepEqual oldStack (Some newStack)).

(** The end of [Update]: an unschedulable stack, or one in no queue
    (scheduling_queue.go:449-474 Update). *)
Definition update_unqueued (p : PriorityQueue) (oldStack : option Stack) (newStack : Stack) :
    option (PriorityQueue * result unit) :=
  match unsched_get (unschedulableQ p) newStack with
  | Some usStackInfo =>
      npm ← nominated_update (nominated p) oldStack newStack;
      let p := set_nominated p npm in
      let newStackInfo := mkStackInfo newStack (Timestamp usStackInfo) in
      if isStackUpdated oldStack newStack then
        let p := clearStackBackoff p newStack in
        let p := set_unschedulable p (unsched_delete (unschedulableQ p) (SI_Stack usStackInfo)) in
        '(p, err) ← activeQ_Add p newStackInfo;
        Some (if is_ok err then broadcast p else p, err)
      else Some (set_unschedulable p (unsched_addOrUpdate (unschedulableQ p) newStackInfo), Ok tt)
  | None =>
      let '(si, p) := newStackInfo p newStack in
      '(p, err) ← activeQ_Add p si;
      Some (if is_ok err then broadcast (nominate p newStack "") else p, err)
  end.

(** (scheduling_queue.go:420-475 Update) *)
Definition pq_Update (p : PriorityQueue) (oldStack : option Stack) (newStack : Stack) :
    option (PriorityQueue * result unit) :=
  match oldStack with
  | None => update_unqueued p oldStack newStack
  | Some old =>
      match in_activeQ p (newStackInfoNoTimestamp old), in_backoffQ p (newStackInfoNoTimestamp old) with
      | Some oldStackInfo, _ =>
          npm ← nominated_update (nominated p) oldStack newStack;
          let p := set_nominated p npm in
          '(h, err) ← Update stackInfoKeyFunc comp (activeQ p) (mkStackInfo newStack (Timestamp oldStackInfo));
          Some (set_active p h, err)
      | None, Some oldStackInfo =>
          npm ← nominated_update (nominated p) oldStack newStack;
          let p := set_nominated p npm in
          '(p, _) ← backoffQ_Delete p (newStackInfoNoTimestamp old);
          '(p, err) ← activeQ_Add p (mkStackInfo newStack (Timestamp oldStackInfo));
          Some (if is_ok err then broadcast p else p, err)
      | None, None => update_unqueued p oldStack newStack
      end
  end.

(** (scheduling_queue.go:479-490 Delete) *)
Definition pq_Delete (p : PriorityQueue) (stack : Stack) : option PriorityQueue :=
  let p := set_nominated p (nominated_delete (nominated p) stack) in
  '(h, err) ← Delete stackInfoKeyFunc comp (activeQ p) (newStackInfoNoTimestamp stack);
  let p := set_active p h in
  if is_ok err then Some p
  else
    let p := clearStackBackoff p stack in
    '(p, _) ← backoffQ_Delete p (newStackInfoNoTimestamp stack);
    Some (set_unschedulable p (unsched_delete (unschedulableQ p) stack)).

(** (scheduling_queue.go:499-510 MoveAllToActiveQueue) *)
Fixpoint move_all (p : PriorityQueue) (l : list StackInfo) : option PriorityQueue :=
  match l with
  | [] => Some p
  | pInfo :: l => p ← move_one p pInfo; move_all p l
  end.

(** (scheduling_queue.go:496-514) *)
Definition MoveAllToActiveQueue (p : PriorityQueue) : option PriorityQueue :=
  p ← move_all p (range_unsched (unschedulableQ p)).*2;
  Some (broadcast (set_move (set_unschedulable p ∅) (schedulingCycle p))).

(** (scheduling_queue.go:563-568) *)
Definition Close (p : PriorityQueue) : PriorityQueue := broadcast (set_closed p true).

(** (scheduling_queue.go:571-575) *)
Definition DeleteNominatedStackIfExists (p : PriorityQueue) (stack : Stack) : PriorityQueue :=
  set_nominated p (nominated_delete (nominated p) stack).

(** (scheduling_queue.go:581-585) *)
Definition UpdateNominatedStackForSite (p : PriorityQueue) (stack : Stack) (siteID : string) : PriorityQueue :=
  nominate p stack siteID.

(** (scheduling_queue.go:538-542) *)
Definition NominatedStacksForSite (p : PriorityQueue) (siteID : string) : list Stack :=
  stacksForSite (nominated p) siteID.

(** The stacks of the three queues, the maps visited in [range] order
    (scheduling_queue.go:546-560). *)
Definition PendingStacks (range_items : gmap string (heapItem StackInfo) -> list (string * heapItem StackInfo))
    (p : PriorityQueue) : list Stack :=
  SI_Stack <$> (List range_items (activeQ p) ++ List range_items (stackBackoffQ p) ++
                (range_unsched (unschedulableQ p)).*2).

(** (scheduling_queue.go:596-600) *)
Definition NumUnschedulableStacks (p : PriorityQueue) : nat := size (unschedulableQ p).

(** ** Stack names *)

Fixpoint no_slash (s : string) : bool :=
  match s with
  | EmptyString => true
  | String c s => negb (Ascii.eqb c "/"%char) && no_slash s
  end.

(** Tenants, namespaces and pod names are path segments: they hold no slash. *)
Definition valid_names (stack : Stack) : Prop :=
  no_slash (Tenant stack) = true ∧ no_slash (PodNamespace stack) = true ∧ no_slash (PodName stack) = true.

Definition stack_key (stack : Stack) : string :=
  Tenant stack +:+ "/" +:+ PodNamespace stack +:+ "/" +:+ PodName stack.

Definition info_key (si : StackInfo) : string := stack_key (SI_Stack si).

Lemma split_slash a b c d : no_slash a = true -> no_slash b = true ->
  a +:+ "/" +:+ c = b +:+ "/" +:+ d -> a = b ∧ c = d.
Proof.
  revert b. induction a as [|x a IH]; intros [|y b] Ha Hb Heq; simpl in *; simplify_eq; [done|done..|].
  apply andb_prop in Ha as [_ Ha]. apply andb_prop in Hb as [_ Hb].
  destruct (IH b Ha Hb) as [-> ->]; done.
Qed.

Lemma stack_key_inj s s' : valid_names s -> valid_names s' -> stack_key s = stack_key s' ->
  Tenant s = Tenant s' ∧ PodNamespace s = PodNamespace s' ∧ PodName s = PodName s'.
Proof.
  intros (Ht & Hn & _) (Ht' & Hn' & _) Heq.
  destruct (split_slash _ _ _ _ Ht Ht' Heq) as [-> Heq'].
  by destruct (split_slash _ _ _ _ Hn Hn' Heq') as [-> ->].
Qed.

Lemma stack_key_fullname s s' : valid_names s -> valid_names s' -> stack_key s = stack_key s' ->
  GetStackFullName s = GetStackFullName s'.
Proof.
  intros Hv Hv' Hk. destruct (stack_key_inj s s' Hv Hv' Hk) as (_ & Hn & Hp).
  unfold GetStackFullName. congruence.
Qed.

(** ** The contents of the three queues *)

(** The maps [A], [B] (by key) and [U] (by full name) of the active, backoff and
    unschedulable stacks hold a stack in at most one place. *)
Record separated (A B U : gmap string StackInfo) : Prop := {
  sep_AB : forall k a b, A !! k = Some a -> B !! k = Some b -> False;
  sep_U : forall fn e, U !! fn = Some e ->
    fn = GetStackFullName (SI_Stack e) ∧ valid_names (SI_Stack e) ∧ A !! info_key e = None ∧ B !! info_key e = None }.

(** A key is waiting in one of the queues. *)
Definition waiting (A B U : gmap string StackInfo) (k : string) : Prop :=
  is_Some (A !! k) ∨ is_Some (B !! k) ∨ ∃ fn e, U !! fn = Some e ∧ info_key e = k.

Lemma separated_mono A B U A' B' U' :
  A' ⊆ A -> B' ⊆ B -> U' ⊆ U -> separated A B U -> separated A' B' U'.
Proof.
  intros HA HB HU [H1 H2]. split.
  - intros k a b Ha Hb. exact (H1 k a b (lookup_weaken _ _ _ _ Ha HA) (lookup_weaken _ _ _ _ Hb HB)).
  - intros fn e He. destruct (H2 fn e) as (? & ? & HAe & HBe); [by eapply lookup_weaken|].
    split_and!; [done..|exact (lookup_weaken_None _ _ _ HAe HA)|exact (lookup_weaken_None _ _ _ HBe HB)].
Qed.

Lemma separated_insert_A A B U k si : separated A B U -> B !! k = None ->
  (forall fn e, U !! fn = Some e -> info_key e ≠ k) -> separated (<[k := si]> A) B U.
Proof.
  intros [H1 H2] HB HU. split.
  - intros k' a b [[<- <-]|[Hne Ha]]%lookup_insert_Some Hb; [congruence|by eapply H1].
  - intros fn e He. destruct (H2 fn e He) as (? & ? & HAe & HBe). split_and!; [done..| |done].
    rewrite lookup_insert_ne; [done|]. apply not_eq_sym. by eapply HU.
Qed.

Lemma separated_insert_B A B U k si : separated A B U -> A !! k = None ->
  (forall fn e, U !! fn = Some e -> info_key e ≠ k) -> separated A (<[k := si]> B) U.
Proof.
  intros [H1 H2] HA HU. split.
  - intros k' a b Ha [[<- <-]|[Hne Hb]]%lookup_insert_Some; [congruence|by eapply H1].
  - intros fn e He. destruct (H2 fn e He) as (? & ? & HAe & HBe). split_and!; [done..|].
    rewrite lookup_insert_ne; [done|]. apply not_eq_sym. by eapply HU.
Qed.

Lemma separated_insert_U A B U si : separated A B U -> valid_names (SI_Stack si) ->
  A !! info_key si = None -> B !! info_key si = None ->
  separated A B (<[GetStackFullName (SI_Stack si) := si]> U).
Proof.
  intros [H1 H2] Hv HA HB. split; [done|].
  intros fn e [[<- <-]|[Hne He]]%lookup_insert_Some; [done|by apply H2].
Qed.

(** A full name that does not occur in [U] belongs to no stack of [U]. *)
Lemma separated_absent A B U stack : separated A B U -> valid_names stack ->
  U !! GetStackFullName stack = None -> forall fn e, U !! fn = Some e -> info_key e ≠ stack_key stack.
Proof.
  intros [_ H2] Hv HN fn e He Hk. destruct (H2 fn e He) as (-> & Hve & _).
  rewrite (stack_key_fullname _ stack Hve Hv Hk) in He. congruence.
Qed.

(** Two different unschedulable stacks have different keys. *)
Lemma separated_U_inj A B U fn e fn' e' : separated A B U ->
  U !! fn = Some e -> U !! fn' = Some e' -> info_key e = info_key e' -> fn = fn'.
Proof.
  intros [_ H2] He He' Hk. destruct (H2 fn e He) as (-> & Hv & _). destruct (H2 fn' e' He') as (-> & Hv' & _).
  by apply stack_key_fullname.
Qed.

(** No unschedulable stack shares the full name of [stack] under another key. *)
Definition no_clash (U : gmap string StackInfo) (stack : Stack) : Prop :=
  forall e, U !! GetStackFullName stack = Some e -> info_key e = stack_key stack.

Lemma waiting_off A B U A' B' U' k :
  (forall k', k' ≠ k -> A' !! k' = A !! k') -> (forall k', k' ≠ k -> B' !! k' = B !! k') ->
  (forall fn e, info_key e ≠ k -> U' !! fn = Some e <-> U !! fn = Some e) ->
  forall k', k' ≠ k -> waiting A' B' U' k' <-> waiting A B U k'.
Proof.
  intros HA HB HU k' Hk. unfold waiting. rewrite HA, HB by done.
  assert ((∃ fn e, U' !! fn = Some e ∧ info_key e = k') <-> (∃ fn e, U !! fn = Some e ∧ info_key e = k')) as ->; [|done].
  split; intros (fn & e & He & <-); exists fn, e; split; try done; by apply HU.
Qed.

(** Deleting the full name of a stack only touches its key. *)
Lemma unsched_delete_off U stack fn e : no_clash U stack ->
  info_key e ≠ stack_key stack -> unsched_delete U stack !! fn = Some e <-> U !! fn = Some e.
Proof.
  intros Hnc Hne. unfold unsched_delete. rewrite lookup_delete_Some. split; [by intros [_ ?]|].
  intros He. split; [|done]. intros <-. by apply Hnc in He.
Qed.

(** ** The invariant of the queue *)

Definition queue_wf (p : PriorityQueue) : Prop :=
  heap_wf stackInfoKeyFunc (activeQ p) ∧ heap_ordered comp (activeQ p) ∧
  heap_wf stackInfoKeyFunc (stackBackoffQ p) ∧
  separated (objs (activeQ p)) (objs (stackBackoffQ p)) (unschedulableQ p).

Definition queued (p : PriorityQueue) : string -> Prop :=
  waiting (objs (activeQ p)) (objs (stackBackoffQ p)) (unschedulableQ p).

(** The queues agree on every key but [k]. *)
Definition same_but (p p' : PriorityQueue) (k : string) : Prop :=
  forall k', k' ≠ k -> queued p' k' <-> queued p k'.

Context {Hcomp : StrictWeakOrder comp}.

Lemma activeQ_Add_spec p si :
  heap_wf stackInfoKeyFunc (activeQ p) -> heap_ordered comp (activeQ p) ->
  ∃ h, activeQ_Add p si = Some (set_active p h, Ok tt) ∧ heap_wf stackInfoKeyFunc h ∧
    heap_ordered comp h ∧ objs h = <[info_key si := si]> (objs (activeQ p)).
Proof.
  intros Hwf Hord. destruct (Add_spec stackInfoKeyFunc comp (activeQ p) si (info_key si) Hwf eq_refl) as (h & Ha & ? & ? & Ho).
  exists h. unfold activeQ_Add. rewrite Ha. split_and!; auto.
Qed.

Lemma backoffQ_Add_spec p si : heap_wf stackInfoKeyFunc (stackBackoffQ p) ->
  ∃ h, backoffQ_Add p si = Some (set_backoffQ p h, Ok tt) ∧ heap_wf stackInfoKeyFunc h ∧
    objs h = <[info_key si := si]> (objs (stackBackoffQ p)).
Proof.
  intros Hwf. destruct (Add_spec stackInfoKeyFunc (stacksCompareBackoffCompleted (stackBackoff p)) (stackBackoffQ p) si
    (info_key si) Hwf eq_refl) as (h & Ha & ? & ? & _).
  exists h. unfold backoffQ_Add. rewrite Ha. split_and!; auto.
Qed.

Lemma heap_Delete_total less h si : heap_wf stackInfoKeyFunc h ->
  ∃ h' r, Delete stackInfoKeyFunc less h si = Some (h', r) ∧ heap_wf stackInfoKeyFunc h' ∧
    objs h' = delete (info_key si) (objs h) ∧ (is_ok r = true <-> is_Some (objs h !! info_key si)) ∧
    (StrictWeakOrder less -> heap_ordered less h -> heap_ordered less h').
Proof.
  intros Hwf. destruct (objs h !! info_key si) as [o|] eqn:Ho.
  - destruct (Delete_spec stackInfoKeyFunc less h si (info_key si) o Hwf eq_refl Ho) as (h' & -> & ? & ? & ?).
    exists h', (Ok tt). split_and!; done.
  - rewrite (Delete_absent stackInfoKeyFunc less h si (info_key si)) by done. exists h, (Err "object not found").
    split_and!; try done. by rewrite delete_id.
Qed.

Lemma backoffQ_Delete_spec p si : heap_wf stackInfoKeyFunc (stackBackoffQ p) ->
  ∃ h r, backoffQ_Delete p si = Some (set_backoffQ p h, r) ∧ heap_wf stackInfoKeyFunc h ∧
    objs h = delete (info_key si) (objs (stackBackoffQ p)).
Proof.
  intros Hwf. destruct (heap_Delete_total (stacksCompareBackoffCompleted (stackBackoff p)) _ si Hwf)
    as (h & r & Hd & ? & ? & _).
  exists h, r. unfold backoffQ_Delete. by rewrite Hd.
Qed.

Lemma in_activeQ_eq p si : in_activeQ p si = objs (activeQ p) !! info_key si.
Proof. unfold in_activeQ, Get, objs. simpl. by rewrite lookup_fmap. Qed.

Lemma in_backoffQ_eq p si : in_backoffQ p si = objs (stackBackoffQ p) !! info_key si.
Proof. unfold in_backoffQ, Get, objs. simpl. by rewrite lookup_fmap. Qed.

(** Readings of the clock, backoff bookkeeping and nominations leave the queues alone. *)
Definition same_queues (p p' : PriorityQueue) : Prop :=
  activeQ p' = activeQ p ∧ stackBackoffQ p' = stackBackoffQ p ∧ unschedulableQ p' = unschedulableQ p ∧
  schedulingCycle p' = schedulingCycle p ∧ moveRequestCycle p' = moveRequestCycle p ∧
  closed p' = closed p ∧ broadcasts p' = broadcasts p.

Lemma backoffStack_same p stack : same_queues p (backoffStack p stack).
Proof.
  unfold backoffStack. destruct (CleanupStacksCompletesBackingoff _ _ _ _) as [pbm t].
  destruct (GetBackoffTime _ _) as [bo []]; simpl; [destruct (bo <? clk t)|]; done.
Qed.

Lemma isStackBackingOff_same p stack : same_queues p (isStackBackingOff p stack).2.
Proof. unfold isStackBackingOff. by destruct (GetBackoffTime _ _) as [bo []]. Qed.

(** *** Adding *)

Lemma separated_add A B U stack si : separated A B U -> valid_names stack -> SI_Stack si = stack ->
  separated (<[info_key si := si]> A) (delete (info_key si) B) (unsched_delete U stack).
Proof.
  intros Hsep Hv <-. apply separated_insert_A; [|by rewrite lookup_delete_eq|].
  - eapply separated_mono; [| | |exact Hsep]; [done|apply delete_subseteq..].
  - apply (separated_absent A B _ (SI_Stack si)); [|done|apply lookup_delete_eq].
    eapply separated_mono; [| | |exact Hsep]; [done..|apply delete_subseteq].
Qed.

Lemma pq_Add_spec p stack : queue_wf p -> valid_names stack ->
  ∃ p', pq_Add p stack = Some (p', Ok tt) ∧ queue_wf p' ∧ queued p' (stack_key stack) ∧
    (no_clash (unschedulableQ p) stack -> same_but p p' (stack_key stack)) ∧
    broadcasts p' = S (broadcasts p).
Proof.
  intros (Hwa & Hoa & Hwb & Hsep) Hv. unfold pq_Add, newStackInfo, Now.
  set (si := mkStackInfo stack _). set (p1 := set_reads _ _).
  destruct (activeQ_Add_spec p1 si Hwa Hoa) as (ha & -> & Hwa' & Hoa' & Ha'). cbn [mbind option_bind is_ok].
  set (p2 := match unsched_get _ _ with Some _ => _ | None => _ end).
  assert (p2 = set_unschedulable (set_active p1 ha) (unsched_delete (unschedulableQ p) stack)) as ->.
  { unfold p2, unsched_get, unsched_delete. simpl. destruct (unschedulableQ p !! _) eqn:E; [done|].
    rewrite delete_id by done. by destruct p. }
  destruct (backoffQ_Delete_spec (set_unschedulable (set_active p1 ha) (unsched_delete (unschedulableQ p) stack)) si Hwb)
    as (hb & r & -> & Hwb' & Hb'). bind_simpl.
  eexists. split_and!; [done|split_and!; try done| |..|done]; simpl.
  - rewrite Ha', Hb'. by apply separated_add.
  - left. simpl. rewrite Ha', lookup_insert_eq. done.
  - intros Hnc. intros k' Hne. unfold queued. simpl. rewrite Ha', Hb'. simpl.
    apply (waiting_off _ _ _ _ _ _ (stack_key stack)); [| | |done]; intros.
    + by rewrite lookup_insert_ne by done.
    + by rewrite lookup_delete_ne by done.
    + by apply unsched_delete_off.
Qed.

Lemma pq_AddIfNotPresent_spec p stack : queue_wf p -> valid_names stack ->
  ∃ p', pq_AddIfNotPresent p stack = Some (p', Ok tt) ∧ queue_wf p' ∧
    (no_clash (unschedulableQ p) stack -> queued p' (stack_key stack)) ∧ same_but p p' (stack_key stack) ∧
    (Len (activeQ p) = 0%nat -> Len (activeQ p') ≠ 0%nat -> broadcasts p' = S (broadcasts p)).
Proof.
  intros (Hwa & Hoa & Hwb & Hsep) Hv. unfold pq_AddIfNotPresent, newStackInfo, Now.
  destruct (unsched_get (unschedulableQ p) stack) as [e|] eqn:Hu.
  { exists p. split_and!; try done. intros Hnc. right. right. exists (GetStackFullName stack), e. by split; [|apply Hnc]. }
  set (si := mkStackInfo stack _). set (p1 := set_reads _ _). rewrite in_activeQ_eq, in_backoffQ_eq.
  change (info_key si) with (stack_key stack). cbn [activeQ stackBackoffQ set_reads p1].
  destruct (objs (activeQ p) !! stack_key stack) as [a|] eqn:Ha.
  { exists p1. split_and!; try done. intros _. left. by exists a. }
  destruct (objs (stackBackoffQ p) !! stack_key stack) as [b|] eqn:Hb.
  { exists p1. split_and!; try done. intros _. right. left. by exists b. }
  destruct (activeQ_Add_spec p1 si Hwa Hoa) as (ha & -> & Hwa' & Hoa' & Ha'). cbn [mbind option_bind is_ok].
  eexists. split_and!; [done|split_and!; try done|..]; simpl.
  - rewrite Ha'. apply separated_insert_A; [done|done|]. by eapply separated_absent.
  - intros _. left. simpl. by rewrite Ha', lookup_insert_eq.
  - intros k' Hne. unfold queued. simpl. rewrite Ha'. simpl.
    apply (waiting_off _ _ _ _ _ _ (stack_key stack)); [| | |done]; intros; [|done|done].
    by rewrite lookup_insert_ne.
  - done.
Qed.

(** *** Unschedulable stacks *)

Lemma AddUnschedulable_spec p stack c : queue_wf p -> valid_names stack ->
  ∃ p' r, AddUnschedulableIfNotPresent p stack c = Some (p', r) ∧ queue_wf p' ∧
    same_but p p' (stack_key stack) ∧
    (no_clash (unschedulableQ p) stack -> queued p' (stack_key stack)) ∧
    (¬ queued p (stack_key stack) -> no_clash (unschedulableQ p) stack -> r = Ok tt ∧
       if c <=? moveRequestCycle p then is_Some (objs (stackBackoffQ p') !! stack_key stack)
       else is_Some (unschedulableQ p' !! GetStackFullName stack)) ∧
    objs (activeQ p') = objs (activeQ p) ∧ activeQ p' = activeQ p ∧
    (unsched_get (unschedulableQ p) stack ≠ None -> p' = p ∧ r = Err "stack is already present in unschedulableQ").
Proof.
  intros (Hwa & Hoa & Hwb & Hsep) Hv. unfold AddUnschedulableIfNotPresent, newStackInfo, Now.
  destruct (unsched_get (unschedulableQ p) stack) as [e|] eqn:Hu.
  { assert (no_clash (unschedulableQ p) stack -> queued p (stack_key stack)) as Hq.
    { intros Hnc. right. right. exists (GetStackFullName stack), e. by split; [|apply Hnc]. }
    eexists p, _. split_and!; try done. intros Hnq Hnc. by apply Hq in Hnc. }
  set (si := mkStackInfo stack _). set (p1 := set_reads _ _). rewrite in_activeQ_eq, in_backoffQ_eq.
  change (info_key si) with (stack_key stack). cbn [activeQ stackBackoffQ set_reads p1].
  destruct (objs (activeQ p) !! stack_key stack) as [a|] eqn:Ha.
  { assert (queued p (stack_key stack)) as Hq by (left; by exists a). eexists p1, _. by split_and!. }
  destruct (objs (stackBackoffQ p) !! stack_key stack) as [b|] eqn:Hb.
  { assert (queued p (stack_key stack)) as Hq by (right; left; by exists b). eexists p1, _. by split_and!. }
  destruct (backoffStack_same p1 stack) as (Ea & Eb & Eu & _ & Em & _ & _). set (p2 := backoffStack p1 stack) in *.
  cbn [activeQ stackBackoffQ unschedulableQ moveRequestCycle set_reads p1] in Ea, Eb, Eu, Em. rewrite Em.
  pose proof (separated_absent _ _ _ stack Hsep Hv Hu) as Habs.
  destruct (c <=? moveRequestCycle p).
  - destruct (backoffQ_Add_spec p2 si) as (hb & -> & Hwb' & Hb'); [by rewrite Eb|]. cbn [mbind option_bind is_ok].
    rewrite Eb in Hb'. change (info_key si) with (stack_key stack) in Hb'.
    eexists _, _. split_and!; [done|split_and!; simpl; rewrite ?Ea; try done| | | | |done|done]; simpl.
    + rewrite Eu, Hb'. by apply separated_insert_B.
    + intros k' Hne. unfold queued. simpl. rewrite Ea, Eu, Hb'.
      apply (waiting_off _ _ _ _ _ _ (stack_key stack)); [| | |done]; intros; [done| |done]. by rewrite lookup_insert_ne.
    + intros _. right. left. simpl. by rewrite Hb', lookup_insert_eq.
    + intros _ _. split; [done|]. by rewrite Hb', lookup_insert_eq.
    + by rewrite Ea.
  - eexists _, _. split_and!; [done|split_and!; simpl; rewrite ?Ea, ?Eb; try done| | | | |done|done]; simpl.
    + rewrite Eu. by apply separated_insert_U.
    + intros k' Hne. unfold queued. simpl. rewrite Ea, Eb, Eu.
      apply (waiting_off _ _ _ _ _ _ (stack_key stack)); [done|done| |done]. intros fn e He.
      unfold unsched_addOrUpdate. rewrite lookup_insert_Some. split; [intros [[_ <-]|[_ ?]]; [by destruct He|done]|].
      intros Hfn. right. split; [|done]. intros <-. unfold unsched_get in Hu. simpl in Hfn. congruence.
    + intros _. right. right. exists (GetStackFullName stack), si. split; [|done]. simpl. rewrite Eu. apply lookup_insert_eq.
    + intros _ _. split; [done|]. rewrite Eu. unfold unsched_addOrUpdate. by rewrite lookup_insert_eq.
    + by rewrite Ea.
Qed.

(** *** Popping *)

Lemma objs_Len h : heap_wf stackInfoKeyFunc h -> Len h = 0%nat <-> objs h = ∅.
Proof. intros [Hc _]. rewrite <- Len_objs by done. apply map_size_empty_iff. Qed.

(** The outcome of a [Pop]. *)
Definition pop_outcome (p p' : PriorityQueue) (r : pop_result) : Prop :=
  match r with
  | Popped stack =>
      ∃ si, SI_Stack si = stack ∧ objs (activeQ p) !! info_key si = Some si ∧
        objs (activeQ p') = delete (info_key si) (objs (activeQ p)) ∧
        (forall k si', objs (activeQ p) !! k = Some si' -> comp si' si = false) ∧
        schedulingCycle p' = wrap64 (schedulingCycle p + 1) ∧
        stackBackoffQ p' = stackBackoffQ p ∧ unschedulableQ p' = unschedulableQ p
  | Waiting => p' = p ∧ objs (activeQ p) = ∅ ∧ closed p = false
  | PopErr msg => p' = p ∧ objs (activeQ p) = ∅ ∧ closed p = true ∧ msg = "scheduling queue is closed"%string
  end.

Lemma pq_Pop_spec p : queue_wf p ->
  ∃ p' r, pq_Pop p = Some (p', r) ∧ queue_wf p' ∧ pop_outcome p p' r.
Proof.
  intros (Hwa & Hoa & Hwb & Hsep). unfold pq_Pop.
  destruct (Nat.eqb_spec (Len (activeQ p)) 0) as [Hl|Hl].
  { apply objs_Len in Hl; [|done]. destruct (closed p) eqn:Hc; eexists p, _; (split_and!; [done..|]); by split_and!. }
  destruct (Pop_spec stackInfoKeyFunc comp (activeQ p) Hwa ltac:(lia)) as (h & si & k & -> & Hwf & Hk & Hko & Ho & Hv & Hord).
  injection Hk as <-. bind_simpl. eexists _, _.
  split_and!; [done|split_and!; simpl; auto|].
  - rewrite Ho. eapply separated_mono; [| | |exact Hsep]; [apply delete_subseteq|done..].
  - exists si. split_and!; try done. intros k' si' Hk'. by eapply (root_minimal stackInfoKeyFunc comp (activeQ p)).
Qed.

(** Popping removes the popped key and nothing else. *)
Lemma pop_outcome_queued p p' r : queue_wf p -> pop_outcome p p' r ->
  match r with
  | Popped stack => queued p (stack_key stack) ∧ ¬ queued p' (stack_key stack) ∧ same_but p p' (stack_key stack)
  | _ => forall k, queued p' k <-> queued p k
  end.
Proof.
  intros (_ & _ & _ & [HAB HU]) Hr. destruct r as [|msg|stack]; [by destruct Hr as [-> _]..|].
  destruct Hr as (si & <- & Hsi & Ho & _ & _ & Eb & Eu). unfold queued, same_but, queued. rewrite Ho, Eb, Eu.
  fold (info_key si). split_and!.
  - left. by exists si.
  - intros [[? Hx]|[[b Hb]|(fn & e & He & Hk)]].
    + by rewrite lookup_delete_eq in Hx.
    + by eapply HAB.
    + destruct (HU fn e He) as (_ & _ & HA & _). rewrite Hk in HA. congruence.
  - intros k' Hne. apply (waiting_off _ _ _ _ _ _ (info_key si)); [|done..]. intros. by rewrite lookup_delete_ne.
Qed.

(** *** Deletion *)

Lemma pq_Delete_spec p stack : queue_wf p -> valid_names stack ->
  ∃ p', pq_Delete p stack = Some p' ∧ queue_wf p' ∧ ¬ queued p' (stack_key stack) ∧
    (no_clash (unschedulableQ p) stack -> same_but p p' (stack_key stack)) ∧
    (objs (activeQ p) = ∅ -> objs (activeQ p') = ∅).
Proof.
  intros (Hwa & Hoa & Hwb & Hsep) Hv. unfold pq_Delete. set (si := newStackInfoNoTimestamp stack).
  set (p1 := set_nominated _ _).
  destruct (heap_Delete_total comp (activeQ p1) si Hwa) as (ha & r & -> & Hwa' & Ha' & Hr & Hoa').
  bind_simpl. change (info_key si) with (stack_key stack) in *. simpl in Ha', Hr.
  destruct (is_ok r).
  - assert (is_Some (objs (activeQ p) !! stack_key stack)) as [a Ha] by (by apply Hr).
    eexists. split_and!; [done|split_and!; simpl; auto|..]; simpl.
    + rewrite Ha'. eapply separated_mono; [| | |exact Hsep]; [apply delete_subseteq|done..].
    + destruct Hsep as [HAB HU]. unfold queued. simpl. rewrite Ha'.
      intros [[? Hx]|[[b Hb]|(fn & e & He & Hk)]]; [by rewrite lookup_delete_eq in Hx|by eapply HAB|].
      destruct (HU fn e He) as (_ & _ & HA & _). rewrite Hk in HA. congruence.
    + intros _ k' Hne. unfold queued. simpl. rewrite Ha'.
      apply (waiting_off _ _ _ _ _ _ (stack_key stack)); [|done..]. intros. by rewrite lookup_delete_ne.
    + intros He. by rewrite Ha', He, delete_empty.
  - destruct (backoffQ_Delete_spec (clearStackBackoff (set_active p1 ha) stack) si Hwb) as (hb & rb & -> & Hwb' & Hb').
    bind_simpl. simpl in Hb'. change (info_key si) with (stack_key stack) in Hb'.
    eexists. split_and!; [done|split_and!; simpl; auto|..]; simpl.
    + rewrite Ha', Hb'. eapply separated_mono; [| | |exact Hsep]; apply delete_subseteq.
    + unfold queued. simpl. rewrite Ha', Hb'.
      intros [[? Hx]|[[? Hx]|(fn & e & He & Hk)]]; [by rewrite lookup_delete_eq in Hx..|].
      revert He Hk. apply (separated_absent (objs (activeQ p)) (objs (stackBackoffQ p))); [|done|apply lookup_delete_eq].
      eapply separated_mono; [| | |exact Hsep]; [done..|apply delete_subseteq].
    + intros Hnc k' Hne. unfold queued. simpl. rewrite Ha', Hb'.
      apply (waiting_off _ _ _ _ _ _ (stack_key stack)); [| | |done]; intros;
        [by rewrite lookup_delete_ne..|by apply unsched_delete_off].
    + intros He. by rewrite Ha', He, delete_empty.
Qed.

(** *** Moving unschedulable stacks *)

(** [move_one] puts the stack in the active or the backoff heap. *)
Lemma move_one_spec p si :
  heap_wf stackInfoKeyFunc (activeQ p) -> heap_ordered comp (activeQ p) -> heap_wf stackInfoKeyFunc (stackBackoffQ p) ->
  ∃ p', move_one p si = Some p' ∧ heap_wf stackInfoKeyFunc (activeQ p') ∧ heap_ordered comp (activeQ p') ∧
    heap_wf stackInfoKeyFunc (stackBackoffQ p') ∧ unschedulableQ p' = unschedulableQ p ∧
    schedulingCycle p' = schedulingCycle p ∧ broadcasts p' = broadcasts p ∧ moveRequestCycle p' = moveRequestCycle p ∧
    ((objs (activeQ p') = <[info_key si := si]> (objs (activeQ p)) ∧ objs (stackBackoffQ p') = objs (stackBackoffQ p)) ∨
     (objs (stackBackoffQ p') = <[info_key si := si]> (objs (stackBackoffQ p)) ∧ objs (activeQ p') = objs (activeQ p))).
Proof.
  intros Hwa Hoa Hwb. unfold move_one. pose proof (isStackBackingOff_same p (SI_Stack si)) as Hsame.
  destruct (isStackBackingOff p (SI_Stack si)) as [backing p1]. cbn [snd] in Hsame.
  destruct Hsame as (Ea & Eb & Eu & Ec & Em & _ & Ebr).
  destruct backing.
  - destruct (backoffQ_Add_spec p1 si) as (h & -> & Hwf & Ho); [by rewrite Eb|]. bind_simpl.
    eexists. split; [done|]. simpl. rewrite Ea. rewrite Eb in Ho. split_and!; try done. by right.
  - destruct (activeQ_Add_spec p1 si) as (h & -> & Hwf & Hord & Ho); [by rewrite Ea..|]. bind_simpl.
    eexists. split; [done|]. simpl. rewrite Eb. rewrite Ea in Ho. split_and!; try done. by left.
Qed.

(** The stacks to move are unschedulable stacks, each listed once. *)
Definition movable (U : gmap string StackInfo) (l : list StackInfo) : Prop :=
  NoDup l ∧ forall e, e ∈ l -> U !! GetStackFullName (SI_Stack e) = Some e.

Lemma separated_move A B U e : separated A B U -> U !! GetStackFullName (SI_Stack e) = Some e ->
  separated (<[info_key e := e]> A) B (unsched_delete U (SI_Stack e)) ∧
  separated A (<[info_key e := e]> B) (unsched_delete U (SI_Stack e)).
Proof.
  intros Hsep He. destruct (sep_U _ _ _ Hsep _ _ He) as (_ & _ & HA & HB).
  assert (separated A B (unsched_delete U (SI_Stack e))) as Hsep'.
  { eapply separated_mono; [| | |exact Hsep]; [done..|apply delete_subseteq]. }
  assert (forall fn e', unsched_delete U (SI_Stack e) !! fn = Some e' -> info_key e' ≠ info_key e) as Hne.
  { unfold unsched_delete. intros fn e' [Hfn He']%lookup_delete_Some Hk. apply Hfn. symmetry.
    by eapply (separated_U_inj A B U fn e' _ e). }
  split; [by apply separated_insert_A|by apply separated_insert_B].
Qed.

Lemma move_stacks_spec p l : queue_wf p -> movable (unschedulableQ p) l ->
  ∃ p', move_stacks p l = Some p' ∧ queue_wf p' ∧ (forall k, queued p' k <-> queued p k) ∧
    schedulingCycle p' = schedulingCycle p ∧ broadcasts p' = broadcasts p ∧
    (forall fn e, unschedulableQ p' !! fn = Some e <-> unschedulableQ p !! fn = Some e ∧ e ∉ l).
Proof.
  revert p. induction l as [|e l IH]; intros p Hwf [Hnd Hmov].
  { exists p. split_and!; try done. intros fn e. split; [intros; split; [done|apply not_elem_of_nil]|by intros [? _]]. }
  cbn [move_stacks]. pose proof Hwf as (Hwa & Hoa & Hwb & Hsep).
  destruct (move_one_spec p e Hwa Hoa Hwb) as (p1 & -> & Hwa1 & Hoa1 & Hwb1 & Eu & Ec & Ebr & _ & Hmv).
  bind_simpl. set (p2 := set_unschedulable _ _).
  assert (unschedulableQ p !! GetStackFullName (SI_Stack e) = Some e) as He by (apply Hmov; left).
  destruct (separated_move _ _ _ e Hsep He) as [HsA HsB].
  assert (queue_wf p2) as Hwf2.
  { split_and!; try done. simpl. rewrite Eu. destruct Hmv as [[-> ->]|[-> ->]]; done. }
  apply NoDup_cons in Hnd as [Hni Hnd].
  destruct (IH p2 Hwf2) as (p' & -> & Hwf' & Hq' & Ec' & Ebr' & Hu').
  { split; [done|]. intros e' He'. simpl. rewrite Eu. unfold unsched_delete. rewrite lookup_delete_ne.
    - apply Hmov. by right.
    - intros Hfn. assert (unschedulableQ p !! GetStackFullName (SI_Stack e') = Some e') as He''.
      { apply Hmov. by right. }
      rewrite <- Hfn, He in He''. by simplify_eq. }
  exists p'. split_and!; try done; [|by rewrite Ec'|by rewrite Ebr'|].
  - intros k. rewrite Hq'. unfold queued, p2. simpl. rewrite Eu. destruct (decide (k = info_key e)) as [->|Hne].
    + split; intros _; [right; right; by exists (GetStackFullName (SI_Stack e)), e|].
      unfold waiting. destruct Hmv as [[-> _]|[-> _]]; rewrite lookup_insert_eq; eauto.
    + apply (waiting_off _ _ _ _ _ _ (info_key e)); [| | |done]; 
        [intros; destruct Hmv as [[Hx Hy]|[Hx Hy]]; rewrite ?Hx, ?Hy, ?lookup_insert_ne by done; done..|].
      intros fn e' Hk. apply unsched_delete_off; [|done]. intros e'' He''. rewrite He in He''. by simplify_eq.
  - intros fn e'. rewrite Hu'. unfold p2. simpl. rewrite Eu. unfold unsched_delete.
    rewrite lookup_delete_Some, not_elem_of_cons. split.
    + intros [[Hfn He'] Hn]. split_and!; try done. intros ->. apply Hfn. by destruct (sep_U _ _ _ Hsep _ _ He') as [-> _].
    + intros [He' [Hne Hn]]. split_and!; try done. intros <-. congruence.
Qed.

(** The loop of [MoveAllToActiveQueue] does not touch the map it iterates over. *)
Lemma move_one_unsched p u si :
  move_one (set_unschedulable p u) si = (fun p' => set_unschedulable p' u) <$> move_one p si.
Proof.
  unfold move_one, isStackBackingOff, backoffQ_Add, activeQ_Add, Now. simpl.
  destruct (GetBackoffTime (stackBackoff p) (nsNameForStack (SI_Stack si))) as [bo []]; simpl.
  - destruct (clk (clock_reads p) <? bo); simpl; by destruct (Add _ _ _ si) as [[? ?]|].
  - by destruct (Add _ _ _ si) as [[? ?]|].
Qed.

Lemma move_one_preserves p si p' : move_one p si = Some p' -> unschedulableQ p' = unschedulableQ p.
Proof.
  unfold move_one. pose proof (isStackBackingOff_same p (SI_Stack si)) as (_ & _ & Eu & _).
  destruct (isStackBackingOff p (SI_Stack si)) as [b p1]. simpl in Eu. rewrite <- Eu.
  destruct b; unfold backoffQ_Add, activeQ_Add; destruct (Add _ _ _ si) as [[h r]|]; simpl; intros; by simplify_eq.
Qed.

Lemma set_unschedulable_twice p u u' : set_unschedulable (set_unschedulable p u) u' = set_unschedulable p u'.
Proof. done. Qed.

Lemma move_all_stacks p l u :
  move_all (set_unschedulable p u) l = (fun p' => set_unschedulable p' u) <$> move_stacks p l.
Proof.
  revert p. induction l as [|e l IH]; intros p; [done|]. cbn [move_all move_stacks].
  rewrite move_one_unsched. destruct (move_one p e) as [p1|] eqn:Hm; [|done]. cbn [fmap option_fmap option_map mbind option_bind].
  rewrite <- IH. done.
Qed.

Section Moves.
(** Go visits every entry of a map exactly once. *)
Hypothesis Hrange : forall m, range_unsched m ≡ₚ map_to_list m.

Lemma elem_of_range U e : (exists fn, U !! fn = Some e) <-> e ∈ (range_unsched U).*2.
Proof.
  rewrite Hrange, list_elem_of_fmap. split.
  - intros [fn He]. exists (fn, e). by rewrite elem_of_map_to_list.
  - intros ([fn e'] & -> & He). exists fn. by apply elem_of_map_to_list.
Qed.

Lemma movable_range A B U : separated A B U -> movable U (range_unsched U).*2.
Proof.
  intros Hsep. split.
  - rewrite Hrange. apply NoDup_fmap_2_strong; [|apply NoDup_map_to_list].
    intros [fn e] [fn' e'] He%elem_of_map_to_list He'%elem_of_map_to_list Heq. simpl in Heq. subst e'.
    f_equal. by eapply (separated_U_inj A B U fn e fn' e).
  - intros e [fn He]%elem_of_range. by destruct (sep_U _ _ _ Hsep fn e He) as [-> _].
Qed.

Lemma movable_sublist U l l' : l' `sublist_of` l -> movable U l -> movable U l'.
Proof.
  intros Hsub [Hnd Hin]. split; [by eapply sublist_NoDup|]. intros e He. apply Hin.
  by eapply elem_of_sublist.
Qed.

Lemma MoveAll_spec p : queue_wf p ->
  ∃ p', MoveAllToActiveQueue p = Some p' ∧ queue_wf p' ∧ (forall k, queued p' k <-> queued p k) ∧
    unschedulableQ p' = ∅ ∧ moveRequestCycle p' = schedulingCycle p ∧ schedulingCycle p' = schedulingCycle p ∧
    broadcasts p' = S (broadcasts p).
Proof.
  intros Hwf. pose proof Hwf as (_ & _ & _ & Hsep). unfold MoveAllToActiveQueue.
  destruct (move_stacks_spec p _ Hwf (movable_range _ _ _ Hsep)) as (p1 & Hm & Hwf1 & Hq1 & Ec1 & Eb1 & Hu1).
  assert (unschedulableQ p1 = ∅) as Hu.
  { apply map_empty. intros fn. destruct (unschedulableQ p1 !! fn) as [e|] eqn:He; [|done].
    apply Hu1 in He as [He Hn]. destruct Hn. apply elem_of_range. by exists fn. }
  pose proof (move_all_stacks p (range_unsched (unschedulableQ p)).*2 (unschedulableQ p)) as Hma.
  replace (set_unschedulable p (unschedulableQ p)) with p in Hma by (by destruct p).
  rewrite Hma, Hm. cbn [fmap option_fmap option_map mbind option_bind].
  rewrite set_unschedulable_twice. replace (set_unschedulable p1 ∅) with p1 by (rewrite <- Hu; by destruct p1).
  eexists. split_and!; try done; simpl; by rewrite ?Ec1, ?Eb1.
Qed.

Lemma flushUnschedulable_spec p : queue_wf p ->
  ∃ p', flushUnschedulableQLeftover p = Some p' ∧ queue_wf p' ∧ (forall k, queued p' k <-> queued p k) ∧
    (objs (activeQ p') = objs (activeQ p) ∨ broadcasts p' = S (broadcasts p)) ∧
    (forall fn e, unschedulableQ p' !! fn = Some e ->
       time_Sub (clk (clock_reads p)) (Timestamp e) <= unschedulableQTimeInterval) ∧
    schedulingCycle p' = schedulingCycle p ∧
    (moveRequestCycle p' = moveRequestCycle p ∨ moveRequestCycle p' = schedulingCycle p).
Proof.
  intros Hwf. pose proof Hwf as (_ & _ & _ & Hsep). unfold flushUnschedulableQLeftover, Now.
  set (p1 := set_reads _ _). set (P := fun pInfo : StackInfo => _). set (l := filter P _).
  assert (queue_wf p1) as Hwf1 by done.
  assert (movable (unschedulableQ p1) l) as Hmov.
  { eapply movable_sublist; [apply sublist_filter|by eapply movable_range]. }
  assert (forall fn e, unschedulableQ p !! fn = Some e -> e ∉ l ->
    time_Sub (clk (clock_reads p)) (Timestamp e) <= unschedulableQTimeInterval) as Hold.
  { intros fn e He Hn. apply Z.nlt_ge. intros Hlt. apply Hn. apply list_elem_of_filter. split; [done|].
    apply elem_of_range. by exists fn. }
  clearbody l. destruct l as [|e l].
  { exists p1. split_and!; auto. intros fn e He. eapply Hold; [done|apply not_elem_of_nil]. }
  unfold moveStacksToActiveQueue.
  destruct (move_stacks_spec p1 (e :: l) Hwf1 Hmov) as (p2 & -> & Hwf2 & Hq2 & Ec2 & Eb2 & Hu2).
  bind_simpl. eexists. split_and!; try done; simpl.
  - right. by rewrite Eb2.
  - intros fn e' [He' Hn]%Hu2. by eapply Hold.
  - by right.
Qed.
End Moves.

(** *** Flushing the backoff heap *)

Lemma iter_broadcast n p : let p' := Nat.iter n broadcast p in
  activeQ p' = activeQ p ∧ stackBackoffQ p' = stackBackoffQ p ∧ unschedulableQ p' = unschedulableQ p ∧
  schedulingCycle p' = schedulingCycle p ∧ moveRequestCycle p' = moveRequestCycle p ∧
  stackBackoff p' = stackBackoff p ∧ clock_reads p' = clock_reads p ∧ broadcasts p' = (n + broadcasts p)%nat.
Proof. induction n as [|n IH]; [done|]. simpl in *. destruct IH as (-> & -> & -> & -> & -> & -> & -> & ->). done. Qed.

(** The head of the backoff heap, if any, is still backing off at the last
    reading of the clock. *)
Definition head_backing_off (p : PriorityQueue) : Prop :=
  match view (stackBackoffQ p) 0 with
  | None => True
  | Some si => ∃ bo, GetBackoffTime (stackBackoff p) (nsNameForStack (SI_Stack si)) = (bo, true) ∧
      clk (pred (clock_reads p)) < bo
  end.

Lemma separated_flush A B U k si b : separated A B U -> B !! k = Some b ->
  separated (<[k := si]> A) (delete k B) U ∧
  forall k', waiting (<[k := si]> A) (delete k B) U k' <-> waiting A B U k'.
Proof.
  intros Hsep Hk. split.
  - apply separated_insert_A; [|apply lookup_delete_eq|].
    + eapply separated_mono; [| | |exact Hsep]; [done|apply delete_subseteq|done].
    + intros fn e He <-. destruct (sep_U _ _ _ Hsep fn e He) as (_ & _ & _ & HB). congruence.
  - intros k'. destruct (decide (k' = k)) as [->|Hne].
    + split; intros _; [right; left; by exists b|]. left. by rewrite lookup_insert_eq.
    + apply (waiting_off _ _ _ _ _ _ k); [| |done|done]; intros; by rewrite ?lookup_insert_ne, ?lookup_delete_ne.
Qed.

(** One move: the peeked stack is the one popped. *)
Lemma flush_move p si : queue_wf p -> view (stackBackoffQ p) 0 = Some si ->
  ∃ hb ha, Pop (stacksCompareBackoffCompleted (stackBackoff p)) (stackBackoffQ p) = Some (hb, Ok si) ∧
    Len (stackBackoffQ p) = S (Len hb) ∧
    activeQ_Add (set_backoffQ p hb) si = Some (set_active (set_backoffQ p hb) ha, Ok tt) ∧
    queue_wf (set_active (set_backoffQ p hb) ha) ∧
    (forall k, queued (set_active (set_backoffQ p hb) ha) k <-> queued p k).
Proof.
  intros (Hwa & Hoa & Hwb & Hsep) Hv. set (less := stacksCompareBackoffCompleted (stackBackoff p)).
  assert (0 < Len (stackBackoffQ p))%nat as Hpos.
  { destruct (Len (stackBackoffQ p)) eqn:Hl; [|lia]. by rewrite view_ge in Hv by lia. }
  destruct (Pop_spec stackInfoKeyFunc less (stackBackoffQ p) Hwb Hpos) as (hb & si' & k & Hp & Hwb' & Hk & Hko & Hb & Hv' & _).
  rewrite Hv in Hv'. injection Hv' as <-. injection Hk as <-. change (stack_key (SI_Stack si)) with (info_key si) in *.
  destruct (activeQ_Add_spec (set_backoffQ p hb) si Hwa Hoa) as (ha & Hadd & Hwa' & Hoa' & Ha). simpl in Ha.
  destruct (separated_flush _ _ _ _ si si Hsep Hko) as [Hsep' Hwait].
  exists hb, ha. split_and!; try done.
  - rewrite <- (Len_objs (stackBackoffQ p)), <- (Len_objs hb) by apply Hwb || apply Hwb'. rewrite Hb.
    rewrite map_size_delete_Some by (by eexists). rewrite (Len_objs (stackBackoffQ p)) by apply Hwb. lia.
  - split_and!; try done. simpl. by rewrite Ha, Hb.
  - unfold queued. simpl. by rewrite Ha, Hb.
Qed.

(** What the flush guarantees. *)
Definition flushed (p p' : PriorityQueue) (n : nat) : Prop :=
  queue_wf p' ∧ (forall k, queued p' k <-> queued p k) ∧ head_backing_off p' ∧
  unschedulableQ p' = unschedulableQ p ∧ schedulingCycle p' = schedulingCycle p ∧
  moveRequestCycle p' = moveRequestCycle p ∧
  (n + broadcasts p <= broadcasts p')%nat ∧
  (objs (activeQ p') = objs (activeQ p) ∨ (broadcasts p < broadcasts p')%nat).

Lemma flushed_return p n : queue_wf p -> head_backing_off p -> flushed p (Nat.iter n broadcast p) n.
Proof.
  intros Hwf Hh. destruct (iter_broadcast n p) as (Ea & Eb & Eu & Ec & Em & Ebo & Er & En).
  unfold flushed, queue_wf, queued, head_backing_off in *. rewrite Ea, Eb, Eu, Ec, Em, Ebo, Er, En. split_and!; auto; try apply Hwf.
Qed.

Lemma flush_loop_spec fuel p n : queue_wf p -> (Len (stackBackoffQ p) < fuel)%nat ->
  ∃ p', flush_loop fuel p n = Some p' ∧ flushed p p' n.
Proof.
  revert p n. induction fuel as [|fuel IH]; intros p n Hwf Hfuel; [lia|]. cbn [flush_loop].
  rewrite Peek_spec by apply Hwf. bind_simpl.
  destruct (view (stackBackoffQ p) 0) as [si|] eqn:Hv.
  2:{ eexists. split; [done|]. apply flushed_return; [done|]. unfold head_backing_off. by rewrite Hv. }
  assert (forall p1, queue_wf p1 -> (forall k, queued p1 k <-> queued p k) ->
    unschedulableQ p1 = unschedulableQ p -> schedulingCycle p1 = schedulingCycle p ->
    moveRequestCycle p1 = moveRequestCycle p -> broadcasts p1 = broadcasts p ->
    (Len (stackBackoffQ p1) < fuel)%nat -> ∃ p', flush_loop fuel p1 (S n) = Some p' ∧ flushed p p' n) as Hrec.
  { intros p1 Hwf1 Hq1 Eu Ec Em Eb Hl. destruct (IH p1 (S n) Hwf1 Hl) as (p' & -> & Hw & Hq & Hh & Hu & Hc & Hm & Hn & _).
    exists p'. split; [done|]. unfold flushed. split_and!; [done|intros; by rewrite Hq|done|congruence..|lia|right; lia]. }
  destruct (GetBackoffTime (stackBackoff p) (nsNameForStack (SI_Stack si))) as [bo found] eqn:Hbo. destruct found.
  - unfold Now. destruct (Z.ltb_spec (clk (clock_reads p)) bo) as [Hlt|Hge].
    + eexists. split; [done|]. change (flushed p (Nat.iter n broadcast (set_reads p (S (clock_reads p)))) n).
      apply (flushed_return (set_reads p (S (clock_reads p))) n); [done|]. unfold head_backing_off. simpl. rewrite Hv. by exists bo.
    + destruct (flush_move (set_reads p (S (clock_reads p))) si Hwf Hv) as (hb & ha & Hp & Hl & Hadd & Hwf' & Hq').
      cbn [stackBackoffQ stackBackoff set_reads] in *. rewrite Hp. bind_simpl. rewrite Hadd. bind_simpl.
      apply Hrec; try done. simpl. lia.
  - destruct (flush_move p si Hwf Hv) as (hb & ha & Hp & Hl & Hadd & Hwf' & Hq').
    rewrite Hp. bind_simpl. rewrite Hadd. bind_simpl.
    apply Hrec; try done. simpl. lia.
Qed.

(** *** Updating *)

(** What an insertion of [stack] guarantees. *)
Definition inserted (p p' : PriorityQueue) (stack : Stack) : Prop :=
  queue_wf p' ∧ queued p' (stack_key stack) ∧
  (no_clash (unschedulableQ p) stack -> same_but p p' (stack_key stack)) ∧
  (objs (activeQ p) = ∅ -> objs (activeQ p') = ∅ ∨ broadcasts p' = S (broadcasts p)) ∧
  schedulingCycle p' = schedulingCycle p ∧ moveRequestCycle p' = moveRequestCycle p.

Lemma inserted_active p p' stack si U : SI_Stack si = stack ->
  heap_wf stackInfoKeyFunc (activeQ p') -> heap_ordered comp (activeQ p') -> heap_wf stackInfoKeyFunc (stackBackoffQ p') ->
  separated (objs (activeQ p')) (objs (stackBackoffQ p')) U -> unschedulableQ p' = U ->
  objs (activeQ p') = <[stack_key stack := si]> (objs (activeQ p)) ->
  (forall k, k ≠ stack_key stack -> objs (stackBackoffQ p') !! k = objs (stackBackoffQ p) !! k) ->
  (no_clash (unschedulableQ p) stack ->
     forall fn e, info_key e ≠ stack_key stack -> U !! fn = Some e <-> unschedulableQ p !! fn = Some e) ->
  (objs (activeQ p) = ∅ -> broadcasts p' = S (broadcasts p)) ->
  schedulingCycle p' = schedulingCycle p -> moveRequestCycle p' = moveRequestCycle p ->
  inserted p p' stack.
Proof.
  intros <- Hwa Hoa Hwb Hsep Eu Ea Eb HU Hbr Ec Em. unfold inserted. split_and!; auto.
  - split_and!; try done. by rewrite Eu.
  - left. by rewrite Ea, lookup_insert_eq.
  - intros Hnc k Hne. unfold queued. rewrite Eu.
    apply (waiting_off _ _ _ _ _ _ (stack_key (SI_Stack si))); auto. intros. by rewrite Ea, lookup_insert_ne.
Qed.

Lemma update_unqueued_spec p old new : queue_wf p -> valid_names new ->
  objs (activeQ p) !! stack_key new = None -> objs (stackBackoffQ p) !! stack_key new = None ->
  ∃ p', update_unqueued p (Some old) new = Some (p', Ok tt) ∧ inserted p p' new.
Proof.
  intros (Hwa & Hoa & Hwb & Hsep) Hv HA HB. unfold update_unqueued, nominated_update. bind_simpl.
  destruct (unsched_get (unschedulableQ p) new) as [us|] eqn:Hu.
  - destruct (sep_U _ _ _ Hsep _ _ Hu) as (Hfn & _). set (si := mkStackInfo new (Timestamp us)).
    set (p1 := set_nominated _ _). destruct (isStackUpdated (Some old) new).
    + assert (separated (objs (activeQ p)) (objs (stackBackoffQ p)) (unsched_delete (unschedulableQ p) new)) as Hsep'.
      { eapply separated_mono; [| | |exact Hsep]; [done..|apply delete_subseteq]. }
      set (p2 := set_unschedulable _ _).
      assert (unschedulableQ p2 = unsched_delete (unschedulableQ p) new) as Eu.
      { unfold p2, unsched_delete. simpl. by rewrite Hfn. }
      destruct (activeQ_Add_spec p2 si Hwa Hoa) as (ha & -> & Hwa' & Hoa' & Ha). cbn [mbind option_bind is_ok].
      eexists. split; [done|].
      eapply (inserted_active _ _ new si (unsched_delete (unschedulableQ p) new)); try done.
      * simpl. rewrite Ha. apply separated_insert_A; [done|done|].
        eapply separated_absent; [exact Hsep'|done|]. apply lookup_delete_eq.
      * intros. by apply unsched_delete_off.
    + eexists. split; [done|]. unfold inserted. split_and!; auto; simpl.
      * split_and!; try done. by apply separated_insert_U.
      * right. right. exists (GetStackFullName new), si. split; [|done]. simpl. apply lookup_insert_eq.
      * intros Hnc k Hne. unfold queued. simpl.
        apply (waiting_off _ _ _ _ _ _ (stack_key new)); [done|done| |done]. intros fn e He.
        unfold unsched_addOrUpdate. rewrite lookup_insert_Some. simpl. split.
        -- intros [[_ <-]|[_ ?]]; [by destruct He|done].
        -- intros Hfe. right. split; [|done]. intros <-. by apply He, Hnc.
  - unfold newStackInfo, Now. set (si := mkStackInfo new _). set (p1 := set_reads _ _).
    destruct (activeQ_Add_spec p1 si Hwa Hoa) as (ha & -> & Hwa' & Hoa' & Ha). cbn [mbind option_bind is_ok].
    eexists. split; [done|]. eapply (inserted_active _ _ new si (unschedulableQ p)); try done.
    simpl. rewrite Ha. apply separated_insert_A; [done|done|]. by eapply separated_absent.
Qed.

Lemma pq_Update_spec p old new : queue_wf p -> valid_names new -> stack_key old = stack_key new ->
  ∃ p', pq_Update p (Some old) new = Some (p', Ok tt) ∧ inserted p p' new.
Proof.
  intros Hwf Hv Hkey. pose proof Hwf as (Hwa & Hoa & Hwb & Hsep). unfold pq_Update.
  rewrite in_activeQ_eq, in_backoffQ_eq. change (info_key (newStackInfoNoTimestamp old)) with (stack_key old). rewrite Hkey.
  destruct (objs (activeQ p) !! stack_key new) as [a|] eqn:Ha.
  - assert (forall fn e, unschedulableQ p !! fn = Some e -> info_key e ≠ stack_key new) as Hne.
    { intros fn e He Hk. destruct (sep_U _ _ _ Hsep fn e He) as (_ & _ & HAe & _). rewrite Hk in HAe. congruence. }
    unfold nominated_update. bind_simpl. set (p1 := set_nominated _ _). set (si := mkStackInfo new _).
    destruct (Add_spec stackInfoKeyFunc comp (activeQ p1) si (stack_key new) Hwa eq_refl) as (ha & Hadd & Hwa' & Ho & Hoa').
    unfold Update. rewrite Hadd. bind_simpl. eexists. split; [done|].
    eapply (inserted_active _ _ new si (unschedulableQ p)); try done; [by apply Hoa'| |].
    + simpl. rewrite Ho. apply separated_insert_A; [done| |done].
      destruct (objs (stackBackoffQ p) !! stack_key new) eqn:Hb; [|done]. by destruct (sep_AB _ _ _ Hsep _ _ _ Ha Hb).
    + intros He. by rewrite He in Ha.
  - destruct (objs (stackBackoffQ p) !! stack_key new) as [b|] eqn:Hb; [|by apply update_unqueued_spec].
    unfold nominated_update. bind_simpl. set (p1 := set_nominated _ _). set (si := mkStackInfo new _).
    destruct (backoffQ_Delete_spec p1 (newStackInfoNoTimestamp old) Hwb) as (hb & r & -> & Hwb' & Hob). bind_simpl.
    change (info_key (newStackInfoNoTimestamp old)) with (stack_key old) in Hob. rewrite Hkey in Hob.
    destruct (activeQ_Add_spec (set_backoffQ p1 hb) si Hwa Hoa) as (ha & -> & Hwa' & Hoa' & Ho). cbn [mbind option_bind is_ok].
    eexists. split; [done|]. eapply (inserted_active _ _ new si (unschedulableQ p)); try done; simpl.
    + rewrite Ho, Hob. by apply (separated_flush _ _ _ (stack_key new) si b).
    + intros k Hne. rewrite Hob. by rewrite lookup_delete_ne.
Qed.

(** ** Calls on the queue *)

Inductive queue_call :=
  | CallAdd (stack : Stack)
  | CallAddIfNotPresent (stack : Stack)
  | CallAddUnschedulable (stack : Stack) (cycle : Z)
  | CallFlushBackoff
  | CallFlushUnschedulable
  | CallPop
  | CallUpdate (oldStack newStack : Stack)
  | CallDelete (stack : Stack)
  | CallMoveAll
  | CallClose
  | CallNominate (stack : Stack) (siteID : string)
  | CallDeleteNominated (stack : Stack).

Definition queue_step (p : PriorityQueue) (call : queue_call) : option PriorityQueue :=
  match call with
  | CallAdd s => fst <$> pq_Add p s
  | CallAddIfNotPresent s => fst <$> pq_AddIfNotPresent p s
  | CallAddUnschedulable s c => fst <$> AddUnschedulableIfNotPresent p s c
  | CallFlushBackoff => flushBackoffQCompleted p
  | CallFlushUnschedulable => flushUnschedulableQLeftover p
  | CallPop => fst <$> pq_Pop p
  | CallUpdate o n => fst <$> pq_Update p (Some o) n
  | CallDelete s => pq_Delete p s
  | CallMoveAll => MoveAllToActiveQueue p
  | CallClose => Some (Close p)
  | CallNominate s site => Some (UpdateNominatedStackForSite p s site)
  | CallDeleteNominated s => Some (DeleteNominatedStackIfExists p s)
  end.

(** Names are valid, and an update does not change the identity of the stack. *)
Definition valid_call (call : queue_call) : Prop :=
  match call with
  | CallAdd s | CallAddIfNotPresent s | CallAddUnschedulable s _ | CallDelete s => valid_names s
  | CallUpdate o n => valid_names n ∧ stack_key o = stack_key n
  | _ => True
  end.

(** No unschedulable stack of another tenant shares the full name. *)
Definition clash_free (p : PriorityQueue) (call : queue_call) : Prop :=
  match call with
  | CallAdd s | CallAddIfNotPresent s | CallAddUnschedulable s _ | CallDelete s | CallUpdate _ s =>
      no_clash (unschedulableQ p) s
  | _ => True
  end.

(** The keys that wait in the queue after a call; a pop takes the stack that it returns, and
    takes none only from an empty active queue. *)
Definition conserved (p p' : PriorityQueue) (call : queue_call) : Prop :=
  match call with
  | CallAdd s | CallAddIfNotPresent s | CallAddUnschedulable s _ | CallUpdate _ s =>
      forall k, queued p' k <-> queued p k ∨ k = stack_key s
  | CallDelete s => forall k, queued p' k <-> queued p k ∧ k ≠ stack_key s
  | CallPop => ∃ r, pq_Pop p = Some (p', r) ∧
      match r with
      | Popped s => queued p (stack_key s) ∧ forall k, queued p' k <-> queued p k ∧ k ≠ stack_key s
      | Waiting | PopErr _ => objs (activeQ p) = ∅ ∧ forall k, queued p' k <-> queued p k
      end
  | _ => forall k, queued p' k <-> queued p k
  end.

Lemma conserved_insert p p' k0 : same_but p p' k0 -> queued p' k0 ->
  forall k, queued p' k <-> queued p k ∨ k = k0.
Proof. intros Hs Hq k. destruct (decide (k = k0)) as [->|Hne]; [tauto|]. rewrite (Hs k Hne). tauto. Qed.

Lemma conserved_delete p p' k0 : same_but p p' k0 -> ¬ queued p' k0 ->
  forall k, queued p' k <-> queued p k ∧ k ≠ k0.
Proof. intros Hs Hq k. destruct (decide (k = k0)) as [->|Hne]; [tauto|]. rewrite (Hs k Hne). tauto. Qed.

Section Calls.
Hypothesis Hrange : forall m, range_unsched m ≡ₚ map_to_list m.

(** Every valid call returns, keeps the invariant, conserves the stacks, and
    wakes a waiting [Pop] when it makes an empty active queue non-empty. *)
Lemma queue_step_spec p call : queue_wf p -> valid_call call ->
  ∃ p', queue_step p call = Some p' ∧ queue_wf p' ∧ (clash_free p call -> conserved p p' call) ∧
    (objs (activeQ p) = ∅ -> objs (activeQ p') = ∅ ∨ (broadcasts p < broadcasts p')%nat).
Proof.
  intros Hwf Hv. destruct call as [s|s|s c| | | |o n|s| | |s site|s]; cbn [queue_step valid_call clash_free conserved] in *.
  - destruct (pq_Add_spec p s Hwf Hv) as (p' & -> & Hwf' & Hq & Hs & Hb). exists p'. split_and!; try done.
    + intros Hnc. apply conserved_insert; auto.
    + right. lia.
  - destruct (pq_AddIfNotPresent_spec p s Hwf Hv) as (p' & -> & Hwf' & Hq & Hs & Hb). exists p'. split_and!; try done.
    + intros Hnc. apply conserved_insert; auto.
    + intros He. destruct (decide (objs (activeQ p') = ∅)) as [|Hne]; [by left|right].
      rewrite <- objs_Len in He by apply Hwf. rewrite <- objs_Len in Hne by apply Hwf'. rewrite Hb by done. lia.
  - destruct (AddUnschedulable_spec p s c Hwf Hv) as (p' & r & -> & Hwf' & Hs & Hq & _ & Ea & _). exists p'. split_and!; try done.
    + intros Hnc. apply conserved_insert; auto.
    + intros He. left. by rewrite Ea.
  - destruct (flush_loop_spec (S (Len (stackBackoffQ p))) p 0 Hwf) as (p' & Hf & Hfl); [lia|].
    destruct Hfl as (Hwf' & Hq & _ & _ & _ & _ & _ & Hb). exists p'. split_and!; try done. intros He. by rewrite <- He.
  - destruct (flushUnschedulable_spec Hrange p Hwf) as (p' & -> & Hwf' & Hq & Hb & _). exists p'. split_and!; try done.
    intros He. destruct Hb as [->| ->]; [by left|right; lia].
  - destruct (pq_Pop_spec p Hwf) as (p' & r & E & Hwf' & Hr). rewrite E. exists p'. split; [done|]. split; [done|]. split.
    + intros _. exists r. split; [done|]. pose proof (pop_outcome_queued p p' r Hwf Hr) as Hq. destruct r as [|msg|s]; [by destruct Hr as (_ & He & _)..|].
      destruct Hq as (Hq1 & Hq2 & Hq3). split; [done|]. by apply conserved_delete.
    + intros He. left. destruct r as [|msg|s]; [by destruct Hr as [-> _]..|].
      destruct Hr as (si & _ & _ & -> & _). by rewrite He, delete_empty.
  - destruct Hv as [Hv Hk]. destruct (pq_Update_spec p o n Hwf Hv Hk) as (p' & -> & Hwf' & Hq & Hs & Hb & _ & _).
    exists p'. split_and!; try done; [intros Hnc; apply conserved_insert; auto|].
    intros He. destruct (Hb He) as [->| ->]; [by left|right; lia].
  - destruct (pq_Delete_spec p s Hwf Hv) as (p' & -> & Hwf' & Hq & Hs & Hb). exists p'. split_and!; auto.
    intros Hnc. apply conserved_delete; auto.
  - destruct (MoveAll_spec Hrange p Hwf) as (p' & -> & Hwf' & Hq & _ & _ & _ & Hb). exists p'. split_and!; try done.
    right. lia.
  - exists (Close p). split_and!; try done. right. simpl. lia.
  - eexists. split_and!; [done..|by left].
  - eexists. split_and!; [done..|by left].
Qed.

(** States the queue can reach. *)
Inductive reachable : PriorityQueue -> Prop :=
  | reach_new : reachable NewPriorityQueueWithClock
  | reach_step p call p' : reachable p -> valid_call call -> queue_step p call = Some p' -> reachable p'.

Lemma NewPriorityQueue_wf : queue_wf NewPriorityQueueWithClock.
Proof.
  destruct (NewHeap_wf stackInfoKeyFunc comp) as (Hwf & Hord & Ho). by split_and!.
Qed.

Lemma reachable_wf p : reachable p -> queue_wf p.
Proof.
  induction 1 as [|p call p' _ IH Hv Hst]; [apply NewPriorityQueue_wf|].
  destruct (queue_step_spec p call IH Hv) as (p1 & Hst' & Hwf & _). congruence.
Qed.
End Calls.
End Queue.

(** ** The two comparisons are strict weak orders *)

#[export] Instance activeQComp_order : StrictWeakOrder activeQComp.
Proof. split; unfold activeQComp, GetStackPriority; simpl; intros *; rewrite ?Z.ltb_lt, ?Z.ltb_ge; lia. Qed.

#[export] Instance PrioritySort_Less_order : StrictWeakOrder PrioritySort_Less.
Proof. split; unfold PrioritySort_Less; simpl; intros *; rewrite ?Z.ltb_lt, ?Z.ltb_ge; lia. Qed.

#[export] Instance comp_order_none : StrictWeakOrder (comp None).
Proof. exact activeQComp_order. Qed.

(** ** Properties *)

(** C3.  Whatever calls are made, in whatever order and at whatever times, on a new queue,
    no call panics or fails to terminate, and a stack sits in at most one of the active heap,
    the backoff heap and the unschedulable map; both heaps keep their map and slice consistent,
    and the active heap stays ordered.  The calls name stacks whose tenants, namespaces and names
    have no slash, and an update names the stack that it replaces, with the same key; the
    comparison of the active heap is a strict weak order. *)
Theorem queue_invariant clk range_backoff range_unsched queueSortFunc DeepEqual p :
  StrictWeakOrder (comp queueSortFunc) -> (forall m, range_unsched m ≡ₚ map_to_list m) ->
  reachable clk range_backoff range_unsched queueSortFunc DeepEqual p ->
  queue_wf queueSortFunc p ∧
  forall call, valid_call call ->
    ∃ p', queue_step clk range_backoff range_unsched queueSortFunc DeepEqual p call = Some p'.
Proof.
  intros Hc Hr Hp. pose proof (reachable_wf _ _ _ _ _ Hr p Hp) as Hwf. split; [done|].
  intros call Hv. destruct (queue_step_spec clk range_backoff range_unsched queueSortFunc DeepEqual Hr p call Hwf Hv)
    as (p' & ? & _). by exists p'.
Qed.

(** Concrete oracles: the clock ticks once per reading, maps are visited in key order. *)
Definition demo_clk (n : nat) : Z := Z.of_nat n.
Definition run_calls (clk : nat -> Z) (calls : list queue_call) : option PriorityQueue :=
  foldl (fun p call => p ← p; queue_step clk map_to_list map_to_list None (fun _ _ => false) p call) (Some NewPriorityQueueWithClock) calls.
Definition demo_call (p : PriorityQueue) (call : queue_call) : option PriorityQueue :=
  queue_step demo_clk map_to_list map_to_list None (fun _ _ => false) p call.
Definition demo_calls (calls : list queue_call) : option PriorityQueue := run_calls demo_clk calls.
Definition stackA : Stack := demo_stack "t1" "default" "a" "u1".
Definition stackA2 : Stack := demo_stack "t2" "default" "a" "u2".
Definition stackB : Stack := demo_stack "t1" "default" "b" "u3".

Lemma calls_reachable clk calls p : Forall valid_call calls -> run_calls clk calls = Some p ->
  reachable clk map_to_list map_to_list None (fun _ _ => false) p.
Proof.
  revert p. induction calls as [|call calls IH] using rev_ind; intros p Hv Hp.
  - injection Hp as <-. apply reach_new.
  - apply Forall_app in Hv as [Hv Hc]. unfold run_calls in Hp. rewrite foldl_snoc in Hp.
    apply bind_Some in Hp as (p0 & Hp0 & Hp). rewrite Forall_singleton in Hc.
    apply (reach_step _ _ _ _ _ p0 call); [by apply IH|done|done].
Qed.

Lemma demo_reachable calls p : Forall valid_call calls -> demo_calls calls = Some p ->
  reachable demo_clk map_to_list map_to_list None (fun _ _ => false) p.
Proof. exact (calls_reachable demo_clk calls p). Qed.

Lemma queue_invariant_witness :
  ∃ p, demo_calls [CallAdd stackA; CallAdd stackB; CallPop] = Some p ∧ queue_wf None p.
Proof.
  destruct (demo_calls [CallAdd stackA; CallAdd stackB; CallPop]) as [p|] eqn:Hp; [|vm_compute in Hp; congruence].
  exists p. split; [done|].
  apply (queue_invariant demo_clk map_to_list map_to_list None (fun _ _ => false)); [apply _|done|].
  apply (demo_reachable [CallAdd stackA; CallAdd stackB; CallPop]); [repeat constructor|exact Hp].
Defined.

(** C30.  No stack gets lost and none appears from nowhere: after any call on a well-formed
    queue the waiting stacks are those before it, plus the added or updated one, minus the
    deleted one or the one that the pop returns; a pop that returns none found the active queue
    empty.  The moves between the queues (flushes, move requests) keep the set.  The calls name
    stacks as above, and no stack of another tenant with the name and the namespace of
    the call's stack is unschedulable ([clash_free]): the unschedulable map is keyed without
    the tenant. *)
Theorem queue_conserves_stacks clk range_backoff range_unsched queueSortFunc DeepEqual p call :
  StrictWeakOrder (comp queueSortFunc) -> (forall m, range_unsched m ≡ₚ map_to_list m) ->
  queue_wf queueSortFunc p -> valid_call call -> clash_free p call ->
  ∃ p', queue_step clk range_backoff range_unsched queueSortFunc DeepEqual p call = Some p' ∧ conserved queueSortFunc p p' call.
Proof.
  intros Hc Hr Hwf Hv Hcf. destruct (queue_step_spec clk range_backoff range_unsched queueSortFunc DeepEqual Hr p call Hwf Hv)
    as (p' & ? & _ & Hcons & _). exists p'. auto.
Qed.

Lemma new_queue_wf : queue_wf None NewPriorityQueueWithClock.
Proof. apply NewPriorityQueue_wf. Qed.

(** Of two stacks the older one is popped and the other stays. *)
Lemma queue_conserves_stacks_witness :
  ∃ p p', demo_calls [CallAdd stackB; CallAdd stackA] = Some p ∧ demo_call p CallPop = Some p' ∧
    pq_Pop None p = Some (p', Popped stackB) ∧ queued p "t1/default/b" ∧ ¬ queued p' "t1/default/b" ∧ queued p' "t1/default/a".
Proof.
  destruct (demo_calls [CallAdd stackB; CallAdd stackA]) as [p|] eqn:Hp; [|vm_compute in Hp; congruence].
  assert ((fun p => (bool_decide (is_Some (objs (activeQ p) !! "t1/default/a"%string)), snd <$> pq_Pop None p)) <$> demo_calls [CallAdd stackB; CallAdd stackA] = Some (true, Some (Popped stackB)))
    as Hpop by (vm_compute; reflexivity). rewrite Hp in Hpop. injection Hpop as Ha Hpop. apply bool_decide_eq_true in Ha.
  destruct (queue_conserves_stacks demo_clk map_to_list map_to_list None (fun _ _ => false) p CallPop) as (p' & Hs & r & Hr & Hcons); [apply _|done| |done|done|].
  { apply (reachable_wf demo_clk map_to_list map_to_list None (fun _ _ => false)); [done|]. apply (demo_reachable [CallAdd stackB; CallAdd stackA]); [repeat constructor|exact Hp]. }
  rewrite Hr in Hpop. injection Hpop as ->. destruct Hcons as [Hin Hcons]. exists p, p'. split; [done|]. split; [done|]. split; [done|].
  split; [exact Hin|]. split; [intros Hq; apply Hcons in Hq as [_ Hne]; by apply Hne|]. apply Hcons. split; [by left|discriminate].
Defined.

(** The unschedulable map forgets the tenant: while a stack of one tenant
    is unschedulable, a stack of another tenant with the same name and
    namespace is rejected when it comes back unschedulable, so that it waits
    in no queue any more; and deleting the second tenant's stack silently
    drops the first tenant's. *)
Theorem tenants_share_unschedulable_slot clk range_backoff queueSortFunc p e s c :
  StrictWeakOrder (comp queueSortFunc) ->
  queue_wf queueSortFunc p -> valid_names s -> ¬ queued p (stack_key s) ->
  unschedulableQ p !! GetStackFullName s = Some e -> Tenant (SI_Stack e) ≠ Tenant s ->
  AddUnschedulableIfNotPresent clk range_backoff p s c =
    Some (p, Err "stack is already present in unschedulableQ") ∧
  ∃ p', pq_Delete queueSortFunc p s = Some p' ∧ queued p (info_key e) ∧ ¬ queued p' (info_key e).
Proof.
  intros Hc Hwf Hv Hnq He Ht. split.
  { unfold AddUnschedulableIfNotPresent, unsched_get. by rewrite He. }
  pose proof Hwf as (Hwa & Hoa & Hwb & Hsep). destruct (sep_U _ _ _ Hsep _ _ He) as (_ & _ & HA & HB).
  assert (objs (activeQ p) !! stack_key s = None) as Has.
  { destruct (objs (activeQ p) !! stack_key s) eqn:E; [|done]. destruct Hnq. left. by eexists. }
  unfold pq_Delete. rewrite (Delete_absent _ _ _ _ (stack_key s)) by done. cbn [mbind option_bind is_ok].
  set (p1 := clearStackBackoff _ _).
  destruct (backoffQ_Delete_spec p1 (newStackInfoNoTimestamp s) Hwb) as (hb & r & -> & Hwb' & Hb). bind_simpl.
  eexists. split_and!; [done|right; right; by exists (GetStackFullName s), e|].
  unfold queued, unsched_delete. simpl. intros [[? Hx]|[[? Hx]|(fn & e' & [Hfn He']%lookup_delete_Some & Hk)]].
  - congruence.
  - rewrite Hb in Hx. apply lookup_delete_Some in Hx as [_ Hx]. simpl in Hx. congruence.
  - apply Hfn. symmetry. by eapply (separated_U_inj _ _ _ fn e' _ e).
Qed.

Lemma tenants_share_unschedulable_slot_witness :
  ∃ p, demo_calls [CallAddUnschedulable stackA 1] = Some p ∧
    snd <$> AddUnschedulableIfNotPresent demo_clk map_to_list p stackA2 1 =
      Some (Err "stack is already present in unschedulableQ") ∧
    ∃ p', pq_Delete None p stackA2 = Some p' ∧ ¬ queued p' "t1/default/a".
Proof.
  destruct (queue_step_spec demo_clk map_to_list map_to_list None (fun _ _ => false) ltac:(done)
    NewPriorityQueueWithClock (CallAddUnschedulable stackA 1) new_queue_wf ltac:(done)) as (p & Hp & Hwf & _).
  assert ((fun p => (unschedulableQ p, objs (activeQ p), objs (stackBackoffQ p))) <$>
    demo_call NewPriorityQueueWithClock (CallAddUnschedulable stackA 1) =
    Some ({["a_default"%string := mkStackInfo stackA 0]}, ∅, ∅)) as Hq by (vm_compute; reflexivity).
  unfold demo_call in Hq. rewrite Hp in Hq. injection Hq as Hu Ha Hb.
  destruct (tenants_share_unschedulable_slot demo_clk map_to_list None p (mkStackInfo stackA 0) stackA2 1) as [H1 H2].
  - apply _.
  - exact Hwf.
  - done.
  - unfold queued. rewrite Hu, Ha, Hb. intros [[? H]|[[? H]|(fn & e & He & Hk)]]; [by rewrite lookup_empty in H..|].
    apply lookup_singleton_Some in He as [_ <-]. vm_compute in Hk. congruence.
  - rewrite Hu. vm_compute. reflexivity.
  - vm_compute. congruence.
  - exists p. split; [exact Hp|]. rewrite H1. split; [done|]. destruct H2 as (p' & ? & _ & ?). by exists p'.
Defined.

(** [Pop] serves first come, first served: with the built-in comparison
    or with the queue-sort plugin, the stack returned is one that entered the
    active queue no later than every other, it leaves the queue, and the
    scheduling cycle advances.  On an empty active queue the call waits, or
    fails once the queue is closed. *)
Theorem pop_returns_oldest queueSortFunc p :
  queueSortFunc = None ∨ queueSortFunc = Some PrioritySort_Less ->
  queue_wf queueSortFunc p ->
  ∃ p' r, pq_Pop queueSortFunc p = Some (p', r) ∧ queue_wf queueSortFunc p' ∧
    match r with
    | Popped stack =>
        ∃ t, objs (activeQ p) !! stack_key stack = Some (mkStackInfo stack t) ∧
          objs (activeQ p') = delete (stack_key stack) (objs (activeQ p)) ∧
          (forall k si, objs (activeQ p) !! k = Some si -> t <= Timestamp si) ∧
          schedulingCycle p' = wrap64 (schedulingCycle p + 1)
    | Waiting => p' = p ∧ objs (activeQ p) = ∅ ∧ closed p = false
    | PopErr msg => p' = p ∧ objs (activeQ p) = ∅ ∧ closed p = true
    end.
Proof.
  intros Hq Hwf. assert (StrictWeakOrder (comp queueSortFunc)) as Hc by (destruct Hq as [->| ->]; apply _).
  destruct (pq_Pop_spec queueSortFunc p Hwf) as (p' & r & Hp & Hwf' & Hr). exists p', r. split_and!; try done.
  destruct r as [|msg|stack]; [done|by destruct Hr as (? & ? & ? & _)|].
  destruct Hr as ([s t] & Hs & Hsi & Ho & Hmin & Hcy & _). simpl in Hs. subst s. exists t. split_and!; try done.
  intros k si Hk. apply Hmin in Hk. destruct Hq as [->| ->]; simpl in Hk;
    unfold activeQComp, PrioritySort_Less, GetStackPriority in Hk; simpl in Hk; apply Z.ltb_ge in Hk; done.
Qed.

Lemma pop_returns_oldest_witness :
  ∃ p, demo_calls [CallAdd stackB; CallAdd stackA] = Some p ∧
    ∃ p', pq_Pop None p = Some (p', Popped stackB) ∧ queue_wf None p'.
Proof.
  destruct (demo_calls [CallAdd stackB; CallAdd stackA]) as [p|] eqn:Hp; [|vm_compute in Hp; congruence].
  exists p. split; [done|]. destruct (pop_returns_oldest None p) as (p' & r & Hpop & Hwf' & _); [by left| |].
  - apply (reachable_wf demo_clk map_to_list map_to_list None (fun _ _ => false)); [done|].
    apply (demo_reachable [CallAdd stackB; CallAdd stackA]); [repeat constructor|exact Hp].
  - exists p'. split; [|done]. rewrite Hpop. do 2 f_equal.
    assert ((fun p => snd <$> pq_Pop None p) <$> demo_calls [CallAdd stackB; CallAdd stackA] = Some (Some (Popped stackB)))
      as H by (vm_compute; reflexivity).
    rewrite Hp in H. simpl in H. rewrite Hpop in H. by injection H as ->.
Defined.

(** No wake-up is lost: whenever a call turns an empty active queue into a
    non-empty one it broadcasts, so a [Pop] that waits looks again. *)
Theorem waiting_pop_is_woken clk range_backoff range_unsched queueSortFunc DeepEqual p call p' :
  StrictWeakOrder (comp queueSortFunc) -> (forall m, range_unsched m ≡ₚ map_to_list m) ->
  queue_wf queueSortFunc p -> valid_call call ->
  queue_step clk range_backoff range_unsched queueSortFunc DeepEqual p call = Some p' ->
  Len (activeQ p) = 0%nat -> (0 < Len (activeQ p'))%nat -> (broadcasts p < broadcasts p')%nat.
Proof.
  intros Hc Hr Hwf Hv Hst Hl Hl'.
  destruct (queue_step_spec clk range_backoff range_unsched queueSortFunc DeepEqual Hr p call Hwf Hv)
    as (p1 & Hst1 & Hwf1 & _ & Hb). rewrite Hst in Hst1. injection Hst1 as <-.
  apply objs_Len in Hl; [|apply Hwf]. destruct (Hb Hl) as [He|]; [|done].
  apply objs_Len in He; [lia|apply Hwf1].
Qed.

Lemma waiting_pop_is_woken_witness :
  ∃ p p', demo_calls [CallAddUnschedulable stackA 1] = Some p ∧ demo_call p CallMoveAll = Some p' ∧
    Len (activeQ p) = 0%nat ∧ (Len (activeQ p') + Len (stackBackoffQ p') = 1)%nat ∧
    ((0 < Len (activeQ p'))%nat -> (broadcasts p < broadcasts p')%nat).
Proof.
  destruct (demo_calls [CallAddUnschedulable stackA 1]) as [p|] eqn:Hp; [|vm_compute in Hp; congruence].
  assert ((fun p => (fun p' => (Len (activeQ p), Len (activeQ p') + Len (stackBackoffQ p'))%nat) <$> demo_call p CallMoveAll)
    <$> demo_calls [CallAddUnschedulable stackA 1] = Some (Some (0, 1)%nat)) as H by (vm_compute; reflexivity).
  rewrite Hp in H. apply fmap_Some in H as (? & [= <-] & H). symmetry in H. apply fmap_Some in H as (p' & Hp' & [= Hl Hl']).
  exists p, p'. split_and!; try done. intros Hpos.
  apply (waiting_pop_is_woken demo_clk map_to_list map_to_list None (fun _ _ => false) p CallMoveAll p'); try done.
  - apply _.
  - apply (reachable_wf demo_clk map_to_list map_to_list None (fun _ _ => false)); [done|].
    apply (demo_reachable [CallAddUnschedulable stackA 1]); [repeat constructor|exact Hp].
Defined.

(** A move request reaches stacks that are being scheduled: it empties the
    unschedulable map into the active and backoff queues, and a stack popped
    before the request that comes back unschedulable after it goes to the
    backoff queue, to be retried, and not to the unschedulable map. *)
Theorem move_request_reaches_inflight clk range_backoff range_unsched queueSortFunc p s c :
  StrictWeakOrder (comp queueSortFunc) -> (forall m, range_unsched m ≡ₚ map_to_list m) ->
  queue_wf queueSortFunc p -> valid_names s -> ¬ queued p (stack_key s) -> c <= schedulingCycle p ->
  ∃ p1 p2, MoveAllToActiveQueue clk range_unsched queueSortFunc p = Some p1 ∧ unschedulableQ p1 = ∅ ∧
    (forall k, queued p1 k <-> queued p k) ∧
    AddUnschedulableIfNotPresent clk range_backoff p1 s c = Some (p2, Ok tt) ∧
    is_Some (objs (stackBackoffQ p2) !! stack_key s) ∧ unschedulableQ p2 = ∅.
Proof.
  intros Hc Hr Hwf Hv Hnq Hle.
  destruct (MoveAll_spec clk range_unsched queueSortFunc Hr p Hwf) as (p1 & Hm & Hwf1 & Hq1 & Hu1 & Hm1 & Hs1 & _).
  destruct (AddUnschedulable_spec clk range_backoff queueSortFunc p1 s c Hwf1 Hv) as (p2 & r & Ha & Hwf2 & _ & _ & Hok & _).
  assert (no_clash (unschedulableQ p1) s) as Hnc by (rewrite Hu1; intros e; by rewrite lookup_empty).
  destruct Hok as [-> Hin]; [by rewrite Hq1|done|]. rewrite Hm1 in Hin.
  destruct (Z.leb_spec c (schedulingCycle p)); [|lia].
  exists p1, p2. split_and!; try done. apply map_empty. intros fn.
  destruct (unschedulableQ p2 !! fn) as [e|] eqn:He; [|done]. exfalso.
  revert Ha. unfold AddUnschedulableIfNotPresent, unsched_get, newStackInfo, Now. rewrite Hu1, lookup_empty.
  destruct (in_activeQ _ _); [done|]. destruct (in_backoffQ _ _); [done|].
  destruct (backoffStack_same clk range_backoff (set_reads p1 (S (clock_reads p1))) s) as (_ & _ & Eu & _ & Em & _).
  rewrite Em. simpl in Em. simpl. rewrite Hm1. destruct (Z.leb_spec c (schedulingCycle p)); [|lia].
  unfold backoffQ_Add. destruct (Add _ _ _ _) as [[h r]|]; [|done]. simpl. destruct r; [|done]. simpl.
  intros [= <-]. simpl in He. rewrite Eu in He. simpl in He. by rewrite Hu1, lookup_empty in He.
Qed.

Lemma move_request_reaches_inflight_witness :
  ∃ p1 p2, MoveAllToActiveQueue demo_clk map_to_list None NewPriorityQueueWithClock = Some p1 ∧ unschedulableQ p1 = ∅ ∧
    (forall k, queued p1 k <-> queued NewPriorityQueueWithClock k) ∧
    AddUnschedulableIfNotPresent demo_clk map_to_list p1 stackA 0 = Some (p2, Ok tt) ∧
    is_Some (objs (stackBackoffQ p2) !! stack_key stackA) ∧ unschedulableQ p2 = ∅.
Proof.
  apply (move_request_reaches_inflight demo_clk map_to_list map_to_list None); try done; [apply _|].
  intros [[? H]|[[? H]|(fn & e & H & _)]]; vm_compute in H; congruence.
Defined.

(** C36.  Flushing the backoff queue of a well-formed queue terminates and loses no stack; it
    stops only when the queue is empty or its head is still backing off.  Flushing the
    unschedulable map terminates and loses no stack either, and none that stays in the map has
    waited longer than the interval. *)
Theorem flushes_make_progress clk range_unsched queueSortFunc p :
  StrictWeakOrder (comp queueSortFunc) -> (forall m, range_unsched m ≡ₚ map_to_list m) -> queue_wf queueSortFunc p ->
  (∃ p', flushBackoffQCompleted clk queueSortFunc p = Some p' ∧ (forall k, queued p' k <-> queued p k) ∧
     head_backing_off clk p') ∧
  (∃ p', flushUnschedulableQLeftover clk range_unsched queueSortFunc p = Some p' ∧ (forall k, queued p' k <-> queued p k) ∧
     forall fn e, unschedulableQ p' !! fn = Some e ->
       time_Sub (clk (clock_reads p)) (Timestamp e) <= unschedulableQTimeInterval).
Proof.
  intros Hc Hr Hwf. split.
  - destruct (flush_loop_spec clk queueSortFunc (S (Len (stackBackoffQ p))) p 0 Hwf) as (p' & Hf & Hfl); [lia|].
    destruct Hfl as (_ & Hq & Hh & _). by exists p'.
  - destruct (flushUnschedulable_spec clk range_unsched queueSortFunc Hr p Hwf) as (p' & Hf & _ & Hq & _ & Hu & _). by exists p'.
Qed.

(** A clock that jumps ahead by a hundred seconds. *)
Definition late_clk (n : nat) : Z := if Nat.ltb n 6 then Z.of_nat n else 100000000000 + Z.of_nat n.
Definition stackC : Stack := demo_stack "t1" "default" "c" "u4".
Definition late_history : list queue_call := [CallMoveAll; CallAddUnschedulable stackA 0; CallAddUnschedulable stackB 1; CallAddUnschedulable stackC 0].

(** The keys in the three queues. *)
Definition queue_keys (p : PriorityQueue) : list string * list string * list string :=
  ((map_to_list (objs (activeQ p))).*1, (map_to_list (objs (stackBackoffQ p))).*1, (map_to_list (unschedulableQ p)).*1).

(** Of two stacks that back off one is moved and the other, added after the jump, is left at
    the head; and a stack that has waited too long leaves the unschedulable map. *)
Lemma flushes_make_progress_witness : ∃ p p1 p2, run_calls late_clk late_history = Some p ∧ queue_keys p = ([], ["t1/default/c"; "t1/default/a"], ["b_default"])%string ∧
  flushBackoffQCompleted late_clk None p = Some p1 ∧ queue_keys p1 = (["t1/default/a"], ["t1/default/c"], ["b_default"])%string ∧
  view (stackBackoffQ p1) 0 <> None ∧ head_backing_off late_clk p1 ∧
  flushUnschedulableQLeftover late_clk map_to_list None p = Some p2 ∧ queue_keys p2 = (["t1/default/b"], ["t1/default/c"; "t1/default/a"], [])%string ∧
  (forall k, queued p2 k <-> queued p k) ∧ forall fn e, unschedulableQ p2 !! fn = Some e -> time_Sub (late_clk (clock_reads p)) (Timestamp e) <= unschedulableQTimeInterval.
Proof.
  destruct (run_calls late_clk late_history) as [p|] eqn:Hp; [|vm_compute in Hp; congruence].
  assert ((fun p => (queue_keys p, (fun p1 => (queue_keys p1, bool_decide (view (stackBackoffQ p1) 0 = None))) <$> flushBackoffQCompleted late_clk None p,
      queue_keys <$> flushUnschedulableQLeftover late_clk map_to_list None p)) <$> run_calls late_clk late_history =
    Some (([], ["t1/default/c"; "t1/default/a"], ["b_default"]), Some ((["t1/default/a"], ["t1/default/c"], ["b_default"]), false), Some (["t1/default/b"], ["t1/default/c"; "t1/default/a"], []))%string)
    as Hkeys by (vm_compute; reflexivity). rewrite Hp in Hkeys. apply (inj Some), pair_eq in Hkeys as [[H0 H1]%pair_eq H2].
  destruct (flushes_make_progress late_clk map_to_list None p comp_order_none ltac:(done)) as [(p1 & Hf1 & _ & Hh) (p2 & Hf2 & Hq & Hu)].
  { apply (reachable_wf late_clk map_to_list map_to_list None (fun _ _ => false)); [done|]. apply (calls_reachable late_clk late_history); [repeat constructor|exact Hp]. }
  rewrite Hf1 in H1. rewrite Hf2 in H2. apply (inj Some), pair_eq in H1 as [H1 Hv]. apply (inj Some) in H2. apply bool_decide_eq_false in Hv.
  exists p, p1, p2. split; [done|]. split; [exact H0|]. split; [exact Hf1|]. split; [exact H1|]. split; [exact Hv|]. split; [exact Hh|]. split; [exact Hf2|]. split; [exact H2|]. split; [exact Hq|exact Hu].
Defined.

(** ** Nominations *)

(** The two maps of the nominations describe each other. *)
Definition nominated_wf (npm : nominatedStackMap) : Prop :=
  (forall uid site, nominatedStackToSite npm !! uid = Some site ->
     ∃ s, s ∈ stacksForSite npm site ∧ UID s = uid) ∧
  (forall site l, nominatedStacks npm !! site = Some l ->
     l ≠ [] ∧ NoDup (UID <$> l) ∧ forall s, s ∈ l -> nominatedStackToSite npm !! UID s = Some site).

Lemma remove_uid_elem uid l s : NoDup (UID <$> l) -> s ∈ remove_uid uid l <-> s ∈ l ∧ UID s ≠ uid.
Proof.
  induction l as [|np l IH]; simpl; intros Hnd.
  { split; [by intros ?%elem_of_nil|by intros [?%elem_of_nil _]]. }
  apply NoDup_cons in Hnd as [Hni Hnd]. destruct (String.eqb_spec (UID np) uid) as [<-|Hne].
  - rewrite elem_of_cons. split; [|by intros [[->|?] ?]]. intros Hs. split; [by right|].
    intros Heq. apply Hni. rewrite <- Heq. by apply list_elem_of_fmap_2.
  - rewrite !elem_of_cons, IH by done. split; [by intros [->|[? ?]]; auto|by intros [[->|?] ?]; auto].
Qed.

Lemma remove_uid_NoDup uid l : NoDup (UID <$> l) -> NoDup (UID <$> remove_uid uid l).
Proof.
  induction l as [|np l IH]; simpl; [done|]. intros Hnd. pose proof Hnd as [Hni Hnd']%NoDup_cons.
  case_match; [done|]. simpl. apply NoDup_cons. split; [|auto].
  intros (s & Heq & Hs)%list_elem_of_fmap. apply remove_uid_elem in Hs as [Hs _]; [|done].
  apply Hni. rewrite Heq. by apply list_elem_of_fmap_2.
Qed.

Lemma existsb_uid uid l : existsb (fun np => String.eqb (UID np) uid) l = true <-> uid ∈ (UID <$> l).
Proof.
  rewrite existsb_exists, list_elem_of_fmap. split.
  - intros (s & Hs & Heq%String.eqb_eq). exists s. split; [done|]. by apply list_elem_of_In.
  - intros (s & -> & Hs). exists s. split; [by apply list_elem_of_In|apply String.eqb_refl].
Qed.

Lemma stacksForSite_elem npm site s : nominated_wf npm -> s ∈ stacksForSite npm site ->
  nominatedStackToSite npm !! UID s = Some site.
Proof.
  intros [_ H2]. unfold stacksForSite. destruct (nominatedStacks npm !! site) as [l|] eqn:Hl; simpl.
  - by apply (H2 site l).
  - by intros ?%elem_of_nil.
Qed.

Lemma nominated_delete_spec npm p : nominated_wf npm ->
  nominated_wf (nominated_delete npm p) ∧ nominatedStackToSite (nominated_delete npm p) !! UID p = None ∧
  forall site s, s ∈ stacksForSite (nominated_delete npm p) site <-> s ∈ stacksForSite npm site ∧ UID s ≠ UID p.
Proof.
  intros Hwf. pose proof Hwf as [H1 H2]. unfold nominated_delete.
  destruct (nominatedStackToSite npm !! UID p) as [nnn|] eqn:Hs.
  2:{ split_and!; try done. intros site s. split; [|by intros [? _]]. intros Hin. split; [done|].
      intros Heq. apply (stacksForSite_elem npm) in Hin; [|done]. congruence. }
  destruct (H1 (UID p) nnn Hs) as (s0 & Hs0 & Hu0). unfold stacksForSite in Hs0.
  destruct (nominatedStacks npm !! nnn) as [l|] eqn:Hl; [|by apply elem_of_nil in Hs0]. simpl in *.
  destruct (H2 nnn l Hl) as (_ & Hnd & Hto).
  assert (existsb (fun np => String.eqb (UID np) (UID p)) l = true) as ->.
  { apply existsb_uid. rewrite <- Hu0. by apply list_elem_of_fmap_2. }
  set (m := match remove_uid (UID p) l with [] => _ | _ => _ end).
  assert (forall site, default [] (m !! site) = if decide (site = nnn) then remove_uid (UID p) l else default [] (nominatedStacks npm !! site)) as Hm.
  { intros site. unfold m. destruct (remove_uid (UID p) l) eqn:Hr; case_decide; subst;
      by rewrite ?lookup_delete_eq, ?lookup_delete_ne, ?lookup_insert_eq, ?lookup_insert_ne by done. }
  assert (forall site s, s ∈ default [] (m !! site) <-> s ∈ stacksForSite npm site ∧ UID s ≠ UID p) as Hel.
  { intros site s. rewrite Hm. unfold stacksForSite. case_decide as Hd.
    - subst site. rewrite Hl. simpl. by apply remove_uid_elem.
    - split; [|by intros [? _]]. intros Hin. split; [done|]. intros Heq.
      apply (stacksForSite_elem npm site) in Hin; [|done]. congruence. }
  split_and!; [|apply lookup_delete_eq|done]. split; simpl.
  - intros uid site [Hne Hsite]%lookup_delete_Some. destruct (H1 uid site Hsite) as (s & Hin & <-).
    exists s. split; [|done]. apply Hel. by split; [|apply not_eq_sym].
  - intros site l' Hl'. assert (forall s, s ∈ l' -> s ∈ stacksForSite npm site ∧ UID s ≠ UID p) as Hl''.
    { intros s Hin. apply Hel. by rewrite Hl'. }
    split_and!.
    + intros ->. revert Hl'. unfold m. destruct (remove_uid (UID p) l) eqn:Hr; intros Hl'.
      * apply lookup_delete_Some in Hl' as [_ Hl']. by destruct (H2 site [] Hl').
      * apply lookup_insert_Some in Hl' as [[_ ?]|[_ Hl']]; [done|]. by destruct (H2 site [] Hl').
    + assert (l' = default [] (m !! site)) as -> by (by rewrite Hl'). rewrite Hm. case_decide; [by apply remove_uid_NoDup|].
      destruct (nominatedStacks npm !! site) as [l1|] eqn:E; simpl; [by destruct (H2 site l1 E) as (_ & ? & _)|constructor].
    + intros s Hin. destruct (Hl'' s Hin) as [Hin' Hne]. rewrite lookup_delete_ne by (by apply not_eq_sym).
      by apply (stacksForSite_elem npm).
Qed.

Lemma nominated_add_spec npm p siteID : nominated_wf npm ->
  nominated_wf (nominated_add npm p siteID) ∧
  forall site s, s ∈ stacksForSite (nominated_add npm p siteID) site <->
    (s ∈ stacksForSite npm site ∧ UID s ≠ UID p) ∨ (s = p ∧ site = siteID ∧ siteID ≠ ""%string).
Proof.
  intros Hwf. destruct (nominated_delete_spec npm p Hwf) as (Hwf1 & Hno & Hel). unfold nominated_add.
  set (npm1 := nominated_delete npm p) in *. destruct (String.eqb_spec siteID "") as [->|Hsite].
  { simpl. split; [done|]. intros site s. rewrite Hel. split; [by left|]. by intros [?|(_ & _ & ?)]. }
  destruct (String.eqb_spec siteID ""); [done|]. fold (stacksForSite npm1 siteID).
  destruct (existsb _ _) eqn:Hex.
  { apply existsb_uid, list_elem_of_fmap in Hex as (s & Hu & Hin). apply Hel in Hin as [_ ?]. congruence. }
  destruct Hwf1 as [H1 H2]. unfold nominated_wf, stacksForSite. simpl.
  assert (forall site, default [] (<[siteID := stacksForSite npm1 siteID ++ [p]]> (nominatedStacks npm1) !! site) =
    if decide (site = siteID) then stacksForSite npm1 siteID ++ [p] else stacksForSite npm1 site) as Hd.
  { intros site. case_decide; [subst; by rewrite lookup_insert_eq|by rewrite lookup_insert_ne]. }
  assert (forall site s, s ∈ stacksForSite npm1 site -> nominatedStackToSite npm1 !! UID s = Some site) as Hto.
  { intros site s. by apply stacksForSite_elem. }
  split; [split|].
  - intros uid site. rewrite Hd. intros [[<- <-]|[Hne Hs]]%lookup_insert_Some.
    + exists p. rewrite decide_True by done. split; [|done]. apply elem_of_app. right. by left.
    + destruct (H1 uid site Hs) as (s & Hin & <-). exists s. split; [|done]. case_decide as E; [|done].
      apply elem_of_app. left. by rewrite <- E.
  - intros site l [[<- <-]|[Hne Hl]]%lookup_insert_Some.
    + split_and!; [by intros [_ ?]%app_nil| |].
      * rewrite fmap_app. apply NoDup_app. split_and!.
        -- unfold stacksForSite. destruct (nominatedStacks npm1 !! siteID) as [l|] eqn:E; [|constructor].
           by destruct (H2 siteID l E) as (_ & ? & _).
        -- intros u (s & -> & Hin)%list_elem_of_fmap Hu. apply list_elem_of_singleton in Hu.
           apply Hel in Hin as [_ ?]. done.
        -- apply NoDup_singleton.
      * intros s [Hin|Hin]%elem_of_app.
        -- rewrite lookup_insert_ne; [by apply Hto|]. apply Hel in Hin as [_ ?]. by apply not_eq_sym.
        -- apply list_elem_of_singleton in Hin as ->. apply lookup_insert_eq.
    + destruct (H2 site l Hl) as (? & ? & Ht). split_and!; try done. intros s Hin.
      rewrite lookup_insert_ne; [by apply Ht|]. intros Heq. specialize (Ht s Hin). congruence.
  - intros site s. rewrite Hd. case_decide as E.
    + subst. rewrite elem_of_app, Hel, list_elem_of_singleton. tauto.
    + rewrite Hel. tauto.
Qed.

(** A stack is nominated for at most one site, and once: nominating it for
    a site withdraws any other nomination, deleting withdraws it everywhere,
    no other stack's nomination changes, and an update of a stack keeps its
    nominated site. *)
Theorem nominations_are_unique npm p siteID :
  nominated_wf npm ->
  (nominated_wf (nominated_add npm p siteID) ∧
   forall site s, s ∈ stacksForSite (nominated_add npm p siteID) site <->
     (s ∈ stacksForSite npm site ∧ UID s ≠ UID p) ∨ (s = p ∧ site = siteID ∧ siteID ≠ ""%string)) ∧
  (nominated_wf (nominated_delete npm p) ∧
   forall site s, s ∈ stacksForSite (nominated_delete npm p) site <-> s ∈ stacksForSite npm site ∧ UID s ≠ UID p) ∧
  (forall old site, old ∈ stacksForSite npm site -> site ≠ ""%string -> UID p = UID old ->
     ∃ npm', nominated_update npm (Some old) p = Some npm' ∧ nominated_wf npm' ∧ p ∈ stacksForSite npm' site).
Proof.
  intros Hwf. split; [by apply nominated_add_spec|]. split.
  { destruct (nominated_delete_spec npm p Hwf) as (? & _ & ?). done. }
  intros old site Hold Hsite Hu. eexists. split; [done|]. simpl.
  rewrite (stacksForSite_elem npm site old Hwf Hold). simpl.
  destruct (nominated_delete_spec npm old Hwf) as (Hwf1 & _).
  destruct (nominated_add_spec _ p site Hwf1) as [Hwf2 Hin]. split; [done|]. apply Hin. by right.
Qed.

Lemma nominations_are_unique_witness :
  stacksForSite (nominated_add newNominatedStackMap stackA "s1") "s1" = [stackA] ∧
  nominated_wf (nominated_add newNominatedStackMap stackA "s1").
Proof.
  split; [vm_compute; reflexivity|].
  apply (nominations_are_unique newNominatedStackMap stackA "s1").
  split; intros ? ?; unfold newNominatedStackMap; simpl; by rewrite lookup_empty.
Defined.
