(* ===== verification/ApiTypes.v ===== *)
(** * Custom resources

    The structs of [globalscheduler/pkg/apis/*/v1/types.go] that the controllers
    and the distributor and dispatcher processes read: clusters, schedulers,
    dispatchers, distributors and allocations.  The object metadata is reduced
    to the name and the namespace. *)
From S2P Require Import Prelude.

(** (cluster/v1/types.go:60-63) *)
Record FlavorInfo := mkFlavorInfo { FI_FlavorID : string; FI_TotalCapacity : Z }.
(** (cluster/v1/types.go:64-67) *)
Record StorageSpec := mkStorageSpec { SS_TypeID : string; SS_StorageCapacity : Z }.
(** (cluster/v1/types.go:68-73) *)
Record GeolocationInfo := mkGeolocation { GI_City : string; GI_Province : string; GI_Area : string; GI_Country : string }.
(** (cluster/v1/types.go:74-77) *)
Record RegionInfo := mkRegionInfo { RI_Region : string; RI_AvailabilityZone : string }.
(** (cluster/v1/types.go:78-80) *)
Record OperatorInfo := mkOperatorInfo { OI_Operator : string }.

(** A cluster with its specification (cluster/v1/types.go:37-59). *)
Record Cluster := mkCluster {
  C_Name : string; C_Namespace : string; C_IpAddress : string;
  C_GeoLocation : GeolocationInfo; C_Region : RegionInfo; C_Operator : OperatorInfo;
  C_Flavors : list FlavorInfo; C_Storage : list StorageSpec;
  C_EipCapacity : Z; C_CPUCapacity : Z; C_MemCapacity : Z; C_ServerPrice : Z;
  C_HomeScheduler : string; C_HomeDispatcher : string }.

(** (scheduler/v1/types.go:67-77) *)
Record ClusterUnion := mkUnion {
  U_GeoLocation : list GeolocationInfo; U_Region : list RegionInfo; U_Operator : list OperatorInfo;
  U_Flavors : list FlavorInfo; U_Storage : list StorageSpec; U_EipCapacity : list Z;
  U_CPUCapacity : list Z; U_MemCapacity : list Z; U_ServerPrice : list Z }.

Definition empty_union : ClusterUnion := mkUnion [] [] [] [] [] [] [] [] [].

(** A scheduler with its specification (scheduler/v1/types.go:35-58). *)
Record Scheduler := mkScheduler {
  S_Name : string; S_Namespace : string; S_Location : GeolocationInfo; S_Tag : string;
  S_Cluster : list string; S_Union : ClusterUnion; S_IpAddress : string; S_PortNumber : string }.

(** (dispatcher/v1/types.go:23-43) *)
Record Dispatcher := mkDispatcher { Di_Name : string; Di_Namespace : string; ClusterRange_Start : string; ClusterRange_End : string }.

(** (distributor/v1/types.go:23-40) *)
Record Distributor := mkDistributor { Ds_Name : string; Ds_Namespace : string; Range_Start : Z; Range_End : Z }.

(** ** Decidable equality and countability of the map keys *)

#[export] Instance FlavorInfo_eq_dec : EqDecision FlavorInfo.
Proof. solve_decision. Defined.
#[export] Instance StorageSpec_eq_dec : EqDecision StorageSpec.
Proof. solve_decision. Defined.
#[export] Instance GeolocationInfo_eq_dec : EqDecision GeolocationInfo.
Proof. solve_decision. Defined.
#[export] Instance RegionInfo_eq_dec : EqDecision RegionInfo.
Proof. solve_decision. Defined.
#[export] Instance OperatorInfo_eq_dec : EqDecision OperatorInfo.
Proof. solve_decision. Defined.

#[export] Instance FlavorInfo_countable : Countable FlavorInfo.
Proof.
  refine (inj_countable' (fun x => (FI_FlavorID x, FI_TotalCapacity x)) (fun '(a, b) => mkFlavorInfo a b) _). by intros [].
Defined.
#[export] Instance StorageSpec_countable : Countable StorageSpec.
Proof.
  refine (inj_countable' (fun x => (SS_TypeID x, SS_StorageCapacity x)) (fun '(a, b) => mkStorageSpec a b) _). by intros [].
Defined.
#[export] Instance GeolocationInfo_countable : Countable GeolocationInfo.
Proof.
  refine (inj_countable' (fun x => (GI_City x, GI_Province x, GI_Area x, GI_Country x))
    (fun '(a, b, c, d) => mkGeolocation a b c d) _). by intros [].
Defined.
#[export] Instance RegionInfo_countable : Countable RegionInfo.
Proof.
  refine (inj_countable' (fun x => (RI_Region x, RI_AvailabilityZone x)) (fun '(a, b) => mkRegionInfo a b) _). by intros [].
Defined.
#[export] Instance OperatorInfo_countable : Countable OperatorInfo.
Proof. refine (inj_countable' OI_Operator mkOperatorInfo _). by intros []. Defined.

(** A cluster of the given place and name, for concrete inputs. *)
Definition demo_cluster (country area province city name : string) (price : Z) : Cluster :=
  mkCluster name "default" "" (mkGeolocation city province area country) (mkRegionInfo "r" "az") (mkOperatorInfo "op")
    [mkFlavorInfo "1" 10] [mkStorageSpec "ssd" 20] 1 2 3 price "" "".

(** ** Allocations *)

Module Alloc.

(** (allocation/v1/types.go:93-97) *)
Record Volume := mkVolume { SATA : Z; SAS : Z; SSD : Z }.
(** (allocation/v1/types.go:86-91) *)
Record Spot := mkSpot { MaxPrice : string; SpotDurationHours : Z; SpotDurationCount : Z; InterruptionPolicy : string }.
(** (allocation/v1/types.go:81-84) *)
Record Flavor := mkFlavor { FlavorId : string; FlavorSpot : Spot }.
(** (allocation/v1/types.go:106-111) *)
Record GeoLocation := mkGeo { City : string; Province : string; Area : string; Country : string }.
(** (allocation/v1/types.go:113-116) *)
Record Region := mkRegion { RegionName : string; AvailabilityZone : list string }.
(** The location strategy is the field of [Strategy] (allocation/v1/types.go:99-120 Selector). *)
Record Selector := mkSelector { Sel_GeoLocation : GeoLocation; Regions : list Region; Operator : string; LocationStrategy : string }.
(** (allocation/v1/types.go:129-132) *)
Record ClusterInstance := mkCI { ClusterName : string; InstanceId : string }.
(** (allocation/v1/types.go:122-127) *)
Record VirtualMachine := mkVM { Image : string; SecurityGroupId : string; NicName : string; ClusterInstances : list ClusterInstance }.
(** (allocation/v1/types.go:72-79) *)
Record Resources := mkResources {
  R_Name : string; ResourceType : string; Flavors : list Flavor; Storage : Volume; NeedEip : bool; VM : VirtualMachine }.
(** The phases (allocation/v1/types.go:30-39). *)
Inductive AllocationPhase := AllocationNew | AllocationAssigned | AllocationBound | AllocationScheduled | AllocationFailed | AllocationNotScheduled.
(** (allocation/v1/types.go:59-65) *)
Record AllocationStatus := mkStatus {
  Phase : AllocationPhase; DistributorName : string; DispatcherName : string; SchedulerName : string; ClusterNames : list string }.
(** An allocation: metadata, specification and status (allocation/v1/types.go:44-70). *)
Record Allocation := mkAllocation {
  A_Name : string; A_Namespace : string; A_Tenant : string; CreationTime : Z; DeletionTime : option Z;
  GroupName : string; GroupResources : list Resources; A_Selector : Selector; Replicas : Z; Status : AllocationStatus }.

End Alloc.

(** ** Pods *)

(** What the processes read of the Kubernetes pod: metadata, the virtual machine
    and its selector, the bound cluster and the status.  Times are in nanoseconds. *)
Record Pod := mkPod {
  P_Name : string; P_Namespace : string; P_CreationTime : Z; P_DeletionTime : option Z;
  P_ResourceType : string; P_GeoLocation : Alloc.GeoLocation; P_ClusterName : string;
  P_VMName : string; P_Image : string; P_FlavorIDs : list string; P_Nics : list string; P_SecurityGroupId : string;
  P_Phase : string; P_DispatcherName : string; P_ClusterInstanceId : string }.
