(* ===== verification/ClusterTree.v ===== *)
(** * The tree of clusters

    Models [globalscheduler/controllers/util/union/union.go] and
    [globalscheduler/controllers/scheduler/scheduler_cluster_union.go].  The
    scheduler controller keeps the clusters in a tree whose levels are country,
    area, province, city and name; every node counts how often each property
    value occurs among the clusters below it.

    The main results: insertion and deletion of clusters whose location is
    complete keep every node's counts equal to the counts over the clusters
    whose path goes through it, deletion undoes insertion, and the order of
    insertions does not matter. *)
From S2P Require Import Prelude ApiTypes.

Local Open Scope Z_scope.

#[local] Set Warnings "-register-all".

(** ** Union slices *)

(** Appends a value that does not occur in the slice: [unionServerPrice],
    [unionMemCapacity], [unionCPUCapacity] and [unionEipCapacity] count the
    occurrences in a map first (union.go:57-69 unionServerPrice). *)
Definition union_int64 (u : list Z) (v : Z) : list Z :=
  let m := foldl (fun m x => <[x := default 0 (m !! x) + 1]> m) (∅ : gmap Z Z) u in
  let times := default 0 (m !! v) in
  if times =? 0 then u ++ [v] else u.

(** (union.go:57-69) *)
Definition unionServerPrice (u : list Z) (serverPrice : Z) : list Z := union_int64 u serverPrice.
(** (union.go:71-83) *)
Definition unionMemCapacity (u : list Z) (memCapacity : Z) : list Z := union_int64 u memCapacity.
(** (union.go:85-97) *)
Definition unionCPUCapacity (u : list Z) (cpuCapacity : Z) : list Z := union_int64 u cpuCapacity.
(** (union.go:99-111) *)
Definition unionEipCapacity (u : list Z) (eipCapacity : Z) : list Z := union_int64 u eipCapacity.

(** The loop over the slice with [reflect.DeepEqual] of two pointers, which
    compares the structs they point to. *)
Fixpoint union_found {A} `{EqDecision A} (u : list A) (x : A) : bool :=
  match u with
  | [] => false
  | v :: u => if decide (v = x) then true else union_found u x
  end.

Definition union_struct {A} `{EqDecision A} (u : list A) (x : A) : list A :=
  match u with
  | [] => [x]
  | _ => if union_found u x then u else u ++ [x]
  end.

(** (union.go:113-127) *)
Definition unionOperator (u : list OperatorInfo) (operator : OperatorInfo) : list OperatorInfo := union_struct u operator.
(** (union.go:129-143) *)
Definition unionRegion (u : list RegionInfo) (region : RegionInfo) : list RegionInfo := union_struct u region.
(** (union.go:145-159) *)
Definition unionGeoLocation (u : list GeolocationInfo) (geoLocation : GeolocationInfo) : list GeolocationInfo :=
  union_struct u geoLocation.

(** An empty union takes the new values as they are; otherwise the values not in
    the union are appended after all of them were compared with the old union. *)
Definition union_slice {A} `{EqDecision A} (u xs : list A) : list A :=
  match u with
  | [] => xs
  | _ => u ++ filter (fun x => union_found u x = false) xs
  end.

(** (union.go:161-187) *)
Definition unionStorage (u storage : list StorageSpec) : list StorageSpec := union_slice u storage.
(** (union.go:189-215) *)
Definition unionFlavors (u flavors : list FlavorInfo) : list FlavorInfo := union_slice u flavors.

(** (union.go:26-55) *)
Definition UpdateUnion (u : ClusterUnion) (cluster : Cluster) : ClusterUnion :=
  mkUnion (unionGeoLocation (U_GeoLocation u) (C_GeoLocation cluster))
    (unionRegion (U_Region u) (C_Region cluster))
    (unionOperator (U_Operator u) (C_Operator cluster))
    (unionFlavors (U_Flavors u) (C_Flavors cluster))
    (unionStorage (U_Storage u) (C_Storage cluster))
    (unionEipCapacity (U_EipCapacity u) (C_EipCapacity cluster))
    (unionCPUCapacity (U_CPUCapacity u) (C_CPUCapacity cluster))
    (unionMemCapacity (U_MemCapacity u) (C_MemCapacity cluster))
    (unionServerPrice (U_ServerPrice u) (C_ServerPrice cluster)).

(** ** Counting maps *)

(** (scheduler_cluster_union.go:138-144) *)
Definition addMap {K} `{Countable K} (m : gmap K Z) (key : K) : gmap K Z :=
  match m !! key with
  | Some existedVal => <[key := existedVal + 1]> m
  | None => <[key := 1]> m
  end.

(** (scheduler_cluster_union.go:146-154) *)
Definition delMap {K} `{Countable K} (m : gmap K Z) (key : K) : gmap K Z :=
  match m !! key with
  | Some existedVal =>
      if existedVal <=? 1 then delete key m
      else if 1 <? existedVal then <[key := existedVal - 1]> m
      else m
  | None => m
  end.

(** The maps keyed by values of one type each (scheduler_cluster_union.go:29-39). *)
Record CLusterUnionMap := mkUnionMap {
  GeoLocationMap : gmap GeolocationInfo Z; RegionMap : gmap RegionInfo Z; OperatorMap : gmap OperatorInfo Z;
  FlavorMap : gmap FlavorInfo Z; StorageMap : gmap StorageSpec Z; EipCapacityMap : gmap Z Z;
  CPUCapacityMap : gmap Z Z; MemCapacityMap : gmap Z Z; ServerPriceMap : gmap Z Z }.

Definition empty_union_map : CLusterUnionMap := mkUnionMap ∅ ∅ ∅ ∅ ∅ ∅ ∅ ∅ ∅.

(** (scheduler_cluster_union.go:61-74 AddCluster) *)
Definition add_union (u : CLusterUnionMap) (c : Cluster) : CLusterUnionMap :=
  mkUnionMap (addMap (GeoLocationMap u) (C_GeoLocation c)) (addMap (RegionMap u) (C_Region c))
    (addMap (OperatorMap u) (C_Operator c)) (foldl addMap (FlavorMap u) (C_Flavors c))
    (foldl addMap (StorageMap u) (C_Storage c)) (addMap (EipCapacityMap u) (C_EipCapacity c))
    (addMap (CPUCapacityMap u) (C_CPUCapacity c)) (addMap (MemCapacityMap u) (C_MemCapacity c))
    (addMap (ServerPriceMap u) (C_ServerPrice c)).

(** (scheduler_cluster_union.go:98-111 DelCluster) *)
Definition del_union (u : CLusterUnionMap) (c : Cluster) : CLusterUnionMap :=
  mkUnionMap (delMap (GeoLocationMap u) (C_GeoLocation c)) (delMap (RegionMap u) (C_Region c))
    (delMap (OperatorMap u) (C_Operator c)) (foldl delMap (FlavorMap u) (C_Flavors c))
    (foldl delMap (StorageMap u) (C_Storage c)) (delMap (EipCapacityMap u) (C_EipCapacity c))
    (delMap (CPUCapacityMap u) (C_CPUCapacity c)) (delMap (MemCapacityMap u) (C_MemCapacity c))
    (delMap (ServerPriceMap u) (C_ServerPrice c)).

(** ** The tree *)

(** (scheduler_cluster_union.go:23-27) *)
Inductive ClusterInfoNode := Node {
  infoMap : gmap string ClusterInfoNode;
  clusterUnionMap : CLusterUnionMap;
  clusterMap : gmap string Z }.

(** (scheduler_cluster_union.go:41-57) *)
Definition NewClusterInfoNode : ClusterInfoNode := Node ∅ empty_union_map ∅.

(** (scheduler_cluster_union.go:121-136) *)
Definition getGeoLocationKey (cluster : Cluster) (geoLevel : nat) : string :=
  match geoLevel with
  | 0%nat => GI_Country (C_GeoLocation cluster)
  | 1%nat => GI_Area (C_GeoLocation cluster)
  | 2%nat => GI_Province (C_GeoLocation cluster)
  | 3%nat => GI_City (C_GeoLocation cluster)
  | 4%nat => C_Name cluster
  | _ => ""
  end.

(** [levels] is the number of levels below the node: 5 at the root.  From level 5
    on the key is empty and the recursion stops
    (scheduler_cluster_union.go:59-85 AddCluster). *)
Fixpoint add_cluster (levels : nat) (cin : ClusterInfoNode) (cluster : Cluster) : ClusterInfoNode :=
  let key := getGeoLocationKey cluster (5 - levels) in
  let um := add_union (clusterUnionMap cin) cluster in
  let cm := addMap (clusterMap cin) (C_Name cluster) in
  match levels with
  | O => Node (infoMap cin) um cm
  | S levels =>
      if String.eqb key "" then Node (infoMap cin) um cm
      else
        let child := match infoMap cin !! key with Some n => n | None => NewClusterInfoNode end in
        Node (<[key := add_cluster levels child cluster]> (infoMap cin)) um cm
  end.

(** (scheduler_cluster_union.go:59-85) *)
Definition AddCluster (cin : ClusterInfoNode) (cluster : Cluster) (geoLevel : nat) : ClusterInfoNode :=
  add_cluster (5 - geoLevel) cin cluster.

(** (scheduler_cluster_union.go:87-119 DelCluster) *)
Fixpoint del_cluster (levels : nat) (cin : ClusterInfoNode) (cluster : Cluster) : ClusterInfoNode :=
  let key := getGeoLocationKey cluster (5 - levels) in
  match levels with
  | O => cin
  | S levels =>
      if String.eqb key "" then cin
      else
        match infoMap cin !! key with
        | None => cin
        | Some child =>
            let um := del_union (clusterUnionMap cin) cluster in
            let cm := delMap (clusterMap cin) (C_Name cluster) in
            let child := del_cluster levels child cluster in
            let im :=
              if decide (infoMap child = ∅) then delete key (infoMap cin)
              else <[key := child]> (infoMap cin) in
            Node im um cm
        end
  end.

(** (scheduler_cluster_union.go:87-119) *)
Definition DelCluster (cin : ClusterInfoNode) (cluster : Cluster) (geoLevel : nat) : ClusterInfoNode :=
  del_cluster (5 - geoLevel) cin cluster.

(** ** Union slices: facts *)

Lemma union_found_spec {A} `{EqDecision A} (u : list A) x : union_found u x = true <-> x ∈ u.
Proof.
  induction u as [|v u IH]; simpl; [split; [done|by intros ?%elem_of_nil]|].
  rewrite elem_of_cons. destruct (decide (v = x)) as [->|Hne]; [tauto|]. rewrite IH. split; [tauto|].
  by intros [->|?].
Qed.

Lemma union_found_false {A} `{EqDecision A} (u : list A) x : union_found u x = false <-> x ∉ u.
Proof. rewrite <- not_true_iff_false, union_found_spec. done. Qed.

(** What all the union functions promise: the slice grows at its end, to the
    union of the values. *)
Definition union_ok {A} (u xs u' : list A) : Prop :=
  u `prefix_of` u' ∧ (forall x, x ∈ u' <-> x ∈ u ∨ x ∈ xs) ∧ (NoDup u -> NoDup xs -> NoDup u').

Lemma union_ok_same {A} (u : list A) x : x ∈ u -> union_ok u [x] u.
Proof.
  intros Hin. split_and!; [done| |done]. intros y. rewrite list_elem_of_singleton. split; [by left|]. by intros [?| ->].
Qed.

Lemma union_ok_snoc {A} (u : list A) x : x ∉ u -> union_ok u [x] (u ++ [x]).
Proof.
  intros Hni. split_and!; [by exists [x]|intros y; by rewrite elem_of_app|].
  intros Hnd _. apply NoDup_app. split_and!; [done| |apply NoDup_singleton].
  intros y Hy ->%list_elem_of_singleton. done.
Qed.

Lemma union_struct_ok {A} `{EqDecision A} (u : list A) x : union_ok u [x] (union_struct u x).
Proof.
  unfold union_struct. destruct u as [|v u]; [apply (union_ok_snoc [] x), not_elem_of_nil|].
  destruct (union_found (v :: u) x) eqn:Hf; [apply union_ok_same|apply union_ok_snoc].
  - by apply union_found_spec.
  - by apply union_found_false.
Qed.

Lemma union_slice_ok {A} `{EqDecision A} (u xs : list A) : union_ok u xs (union_slice u xs).
Proof.
  unfold union_slice. destruct u as [|v u].
  { split_and!; [by exists xs| |done]. intros x. split; [by right|]. by intros [?%elem_of_nil|]. }
  set (w := v :: u). split_and!; [by eexists| |].
  - intros x. rewrite elem_of_app, list_elem_of_filter, union_found_false.
    destruct (decide (x ∈ w)); tauto.
  - intros Hu Hxs. apply NoDup_app. split_and!; [done| |by apply NoDup_filter].
    intros x Hx [Hf _]%list_elem_of_filter. by apply union_found_false in Hf.
Qed.

Lemma count_fold_lookup (u : list Z) (m : gmap Z Z) v :
  (forall x n, m !! x = Some n -> 0 < n) ->
  (default 0 (foldl (fun m x => <[x := default 0 (m !! x) + 1]> m) m u !! v) =? 0) =
  negb (bool_decide (v ∈ u)) && (default 0 (m !! v) =? 0).
Proof.
  revert m. induction u as [|y u IH]; intros m Hm; cbn [foldl].
  { by rewrite bool_decide_eq_false_2 by apply not_elem_of_nil. }
  assert (0 <= default 0 (m !! y)) as Hy by (destruct (m !! y) eqn:E; simpl; [apply Hm in E; lia|lia]).
  rewrite IH.
  2:{ intros x n [[<- <-]|[_ Hx]]%lookup_insert_Some; [lia|by eapply Hm]. }
  destruct (decide (v = y)) as [->|Hne].
  - rewrite lookup_insert_eq. rewrite (bool_decide_eq_true_2 (y ∈ y :: u)) by left.
    assert ((default 0 (Some (default 0 (m !! y) + 1)) =? 0) = false) as -> by (apply Z.eqb_neq; simpl; lia).
    apply andb_false_r.
  - rewrite lookup_insert_ne by done. do 2 f_equal. apply bool_decide_ext. rewrite elem_of_cons. tauto.
Qed.

Lemma union_int64_ok u v : union_ok u [v] (union_int64 u v).
Proof.
  unfold union_int64. rewrite count_fold_lookup by (intros x n; by rewrite lookup_empty).
  rewrite lookup_empty. simpl. rewrite andb_true_r. case_bool_decide; simpl; [by apply union_ok_same|by apply union_ok_snoc].
Qed.

(** [UpdateUnion] computes a union: every slice of the result starts with
    the old slice and holds exactly its values and those of the cluster, and
    slices without repetitions stay so. *)
Theorem update_union_is_union u c :
  let u' := UpdateUnion u c in
  union_ok (U_GeoLocation u) [C_GeoLocation c] (U_GeoLocation u') ∧
  union_ok (U_Region u) [C_Region c] (U_Region u') ∧
  union_ok (U_Operator u) [C_Operator c] (U_Operator u') ∧
  union_ok (U_Flavors u) (C_Flavors c) (U_Flavors u') ∧
  union_ok (U_Storage u) (C_Storage c) (U_Storage u') ∧
  union_ok (U_EipCapacity u) [C_EipCapacity c] (U_EipCapacity u') ∧
  union_ok (U_CPUCapacity u) [C_CPUCapacity c] (U_CPUCapacity u') ∧
  union_ok (U_MemCapacity u) [C_MemCapacity c] (U_MemCapacity u') ∧
  union_ok (U_ServerPrice u) [C_ServerPrice c] (U_ServerPrice u').
Proof.
  split_and!; (apply union_struct_ok || apply union_slice_ok || apply union_int64_ok).
Qed.

(** ** Counting maps: facts *)

Section Counts.
Context {K : Type} `{Countable K}.

(** How often a key occurs. *)
Definition occurrences (l : list K) (k : K) : nat := length (filter (fun x => x = k) l).

(** The counting map of a list of keys. *)
Definition counts (l : list K) : gmap K Z := foldr (fun k m => addMap m k) ∅ l.

Lemma occurrences_cons x l k : occurrences (x :: l) k = ((if decide (x = k) then 1 else 0) + occurrences l k)%nat.
Proof. unfold occurrences. rewrite filter_cons. by case_decide. Qed.

Lemma occurrences_perm l l' k : l ≡ₚ l' -> occurrences l k = occurrences l' k.
Proof. intros Hp. unfold occurrences. by rewrite Hp. Qed.

Lemma counts_lookup l k :
  counts l !! k = match occurrences l k with O => None | S n => Some (Z.of_nat (S n)) end.
Proof.
  induction l as [|x l IH]; [apply lookup_empty|]. cbn [counts foldr]. fold (counts l). rewrite occurrences_cons.
  unfold addMap. destruct (decide (x = k)) as [->|Hne].
  - rewrite IH. destruct (occurrences l k) as [|n]; rewrite lookup_insert_eq; [done|]. f_equal. lia.
  - destruct (counts l !! x); rewrite lookup_insert_ne by done; exact IH.
Qed.

Lemma counts_perm l l' : l ≡ₚ l' -> counts l = counts l'.
Proof. intros Hp. apply map_eq. intros k. by rewrite !counts_lookup, (occurrences_perm l l'). Qed.

Lemma counts_elem l k : is_Some (counts l !! k) <-> k ∈ l.
Proof.
  induction l as [|x l IH].
  - rewrite counts_lookup. split; [by intros [? ?]|by intros ?%elem_of_nil].
  - rewrite elem_of_cons, <- IH, !counts_lookup, occurrences_cons. destruct (decide (x = k)) as [->|Hne]; simpl.
    + split; [by left|by eexists].
    + split; [by right|by intros [->|]].
Qed.

Lemma addMap_counts l k : addMap (counts l) k = counts (k :: l).
Proof. done. Qed.

Lemma delMap_counts l k : delMap (counts (k :: l)) k = counts l.
Proof.
  apply map_eq. intros k'. unfold delMap. rewrite !counts_lookup, occurrences_cons, decide_True by done.
  destruct (decide (k' = k)) as [->|Hne].
  - destruct (occurrences l k) as [|n] eqn:Hn; simpl.
    + by rewrite lookup_delete_eq.
    + destruct (Z.leb_spec (Z.of_nat (S (S n))) 1); [lia|]. destruct (Z.ltb_spec 1 (Z.of_nat (S (S n)))); [|lia].
      rewrite lookup_insert_eq. f_equal. lia.
  - assert (counts (k :: l) !! k' = counts l !! k') as Hk.
    { rewrite !counts_lookup, occurrences_cons. by rewrite decide_False. }
    rewrite <- (counts_lookup l k'), <- Hk. simpl.
    case_match; [|case_match]; by rewrite ?lookup_delete_ne, ?lookup_insert_ne.
Qed.

Lemma foldl_addMap_counts l ks : foldl addMap (counts l) ks = counts (ks ++ l).
Proof.
  revert l. induction ks as [|k ks IH]; intros l; [done|]. cbn [foldl]. rewrite addMap_counts, IH.
  apply counts_perm. by rewrite <- Permutation_middle.
Qed.

Lemma foldl_delMap_counts l ks : foldl delMap (counts (ks ++ l)) ks = counts l.
Proof. induction ks as [|k ks IH]; [done|]. cbn [foldl]. by rewrite <- app_comm_cons, delMap_counts. Qed.
End Counts.

(** ** The tree represents a collection of clusters *)

Definition union_of (cs : list Cluster) : CLusterUnionMap :=
  mkUnionMap (counts (C_GeoLocation <$> cs)) (counts (C_Region <$> cs)) (counts (C_Operator <$> cs))
    (counts (cs ≫= C_Flavors)) (counts (cs ≫= C_Storage)) (counts (C_EipCapacity <$> cs))
    (counts (C_CPUCapacity <$> cs)) (counts (C_MemCapacity <$> cs)) (counts (C_ServerPrice <$> cs)).

Lemma union_of_perm cs cs' : cs ≡ₚ cs' -> union_of cs = union_of cs'.
Proof. intros Hp. unfold union_of. f_equal; apply counts_perm; by rewrite Hp. Qed.

Lemma add_union_of cs c : add_union (union_of cs) c = union_of (c :: cs).
Proof. unfold add_union, union_of. simpl. by rewrite !foldl_addMap_counts. Qed.

Lemma del_union_of cs c : del_union (union_of (c :: cs)) c = union_of cs.
Proof.
  unfold del_union, union_of. cbn [GeoLocationMap RegionMap OperatorMap FlavorMap StorageMap EipCapacityMap
    CPUCapacityMap MemCapacityMap ServerPriceMap]. rewrite !fmap_cons, !bind_cons, !delMap_counts, !foldl_delMap_counts. done.
Qed.

(** The clusters whose key at the level with [levels] levels below it is [key]. *)
Definition at_key (levels : nat) (key : string) (cs : list Cluster) : list Cluster :=
  filter (fun c => getGeoLocationKey c (5 - levels) = key) cs.

(** A node with [levels] levels below it stands for the clusters [cs]: its
    counts are theirs, and its children stand for the clusters of each key. *)
Fixpoint represents (levels : nat) (cs : list Cluster) (t : ClusterInfoNode) : Prop :=
  clusterUnionMap t = union_of cs ∧ clusterMap t = counts (C_Name <$> cs) ∧
  match levels with
  | O => infoMap t = ∅
  | S n =>
      forall key,
        match infoMap t !! key with
        | None => key = ""%string ∨ at_key levels key cs = []
        | Some child => key ≠ ""%string ∧ at_key levels key cs ≠ [] ∧ represents n (at_key levels key cs) child
        end
  end.

Lemma at_key_perm levels key cs cs' : cs ≡ₚ cs' -> at_key levels key cs ≡ₚ at_key levels key cs'.
Proof. intros Hp. unfold at_key. by rewrite Hp. Qed.

Lemma at_key_cons levels key c cs :
  at_key levels key (c :: cs) =
    if decide (getGeoLocationKey c (5 - levels) = key) then c :: at_key levels key cs else at_key levels key cs.
Proof. unfold at_key. rewrite filter_cons. by case_decide. Qed.

Lemma elem_of_at_key levels key c cs : c ∈ at_key levels key cs <-> c ∈ cs ∧ getGeoLocationKey c (5 - levels) = key.
Proof. unfold at_key. rewrite list_elem_of_filter. tauto. Qed.

Lemma represents_perm levels cs cs' t : cs ≡ₚ cs' -> represents levels cs t -> represents levels cs' t.
Proof.
  revert cs cs' t. induction levels as [|n IH]; intros cs cs' t Hp (Hu & Hc & Hi); cbn [represents];
    (split_and!; [by rewrite Hu, (union_of_perm cs cs')|by rewrite Hc; apply counts_perm; rewrite Hp|]); [done|].
  intros key. specialize (Hi key). pose proof (at_key_perm (S n) key cs cs' Hp) as Hk.
  destruct (infoMap t !! key) as [child|].
  - destruct Hi as (? & Hne & Hr). split_and!; [done| |by eapply IH].
    intros Hnil. apply Hne. by apply Permutation_nil_r; rewrite Hk, Hnil.
  - destruct Hi as [?|Hnil]; [by left|right]. apply Permutation_nil_r. by rewrite <- Hk, Hnil.
Qed.

(** The tree is determined by what it represents. *)
Lemma represents_unique levels cs t t' : represents levels cs t -> represents levels cs t' -> t = t'.
Proof.
  revert cs t t'. induction levels as [|n IH]; intros cs [im um cm] [im' um' cm'] (Hu & Hc & Hi) (Hu' & Hc' & Hi');
    simpl in *; f_equal; try congruence.
  apply map_eq. intros key. specialize (Hi key). specialize (Hi' key).
  destruct (im !! key) as [child|], (im' !! key) as [child'|]; [|tauto..|done].
  f_equal. destruct Hi as (_ & _ & Hr), Hi' as (_ & _ & Hr'). by eapply IH.
Qed.

Lemma represents_new levels : represents levels [] NewClusterInfoNode.
Proof. destruct levels; simpl; split_and!; try done. intros key. rewrite lookup_empty. by right. Qed.

Lemma represents_add levels cs t c : represents levels cs t -> represents levels (c :: cs) (add_cluster levels t c).
Proof.
  revert cs t. induction levels as [|n IH]; intros cs t (Hu & Hc & Hi).
  { cbn [add_cluster represents clusterUnionMap clusterMap infoMap]. rewrite Hu, Hc, add_union_of. done. }
  cbn [add_cluster]. set (k0 := getGeoLocationKey c (5 - S n)).
  destruct (String.eqb_spec k0 "") as [Hk0|Hk0];
    (split; [simpl; rewrite Hu; apply add_union_of|]); (split; [simpl; by rewrite Hc|]); cbn [infoMap]; intros key;
    rewrite at_key_cons; fold k0.
  - specialize (Hi key). destruct (decide (k0 = key)) as [<-|]; [|done]. rewrite Hk0 in *.
    destruct (infoMap t !! _); [by destruct Hi|by left].
  - destruct (decide (k0 = key)) as [<-|Hne].
    + rewrite lookup_insert_eq. split_and!; [done|done|]. specialize (Hi k0).
      destruct (infoMap t !! k0) as [child|].
      * destruct Hi as (_ & _ & Hr). by apply IH.
      * destruct Hi as [?|Hnil]; [done|]. rewrite Hnil. apply IH, represents_new.
    + rewrite lookup_insert_ne by done. apply Hi.
Qed.

(** A cluster whose location and name are given. *)
Definition complete (c : Cluster) : Prop := forall level, (level < 5)%nat -> getGeoLocationKey c level ≠ ""%string.

Lemma represents_no_children n cs t : represents (S n) cs t -> (n < 5)%nat -> (forall c, c ∈ cs -> complete c) ->
  infoMap t = ∅ <-> cs = [].
Proof.
  intros (_ & _ & Hi) Hn Hcom. split.
  - intros He. destruct cs as [|c cs]; [done|]. specialize (Hi (getGeoLocationKey c (5 - S n))).
    rewrite He, lookup_empty in Hi. destruct Hi as [Hk|Hk].
    + destruct (Hcom c ltac:(by left) (5 - S n)%nat ltac:(lia) Hk).
    + rewrite at_key_cons, decide_True in Hk by done. done.
  - intros ->. apply map_empty. intros key. specialize (Hi key). destruct (infoMap t !! key); [|done].
    by destruct Hi as (_ & [] & _).
Qed.

Lemma del_cluster_S n cin c :
  del_cluster (S n) cin c =
  let key := getGeoLocationKey c (5 - S n) in
  if String.eqb key "" then cin
  else
    match infoMap cin !! key with
    | None => cin
    | Some child =>
        Node (if decide (infoMap (del_cluster n child c) = ∅) then delete key (infoMap cin)
              else <[key := del_cluster n child c]> (infoMap cin))
          (del_union (clusterUnionMap cin) c) (delMap (clusterMap cin) (C_Name c))
    end.
Proof. done. Qed.

Lemma add_cluster_S n cin c :
  add_cluster (S n) cin c =
  let key := getGeoLocationKey c (5 - S n) in
  let um := add_union (clusterUnionMap cin) c in
  let cm := addMap (clusterMap cin) (C_Name c) in
  if String.eqb key "" then Node (infoMap cin) um cm
  else Node (<[key := add_cluster n (default NewClusterInfoNode (infoMap cin !! key)) c]> (infoMap cin)) um cm.
Proof. done. Qed.

Lemma represents_del n cs t c : (n < 5)%nat -> represents (S n) (c :: cs) t ->
  (forall c', c' ∈ c :: cs -> complete c') -> C_Name c ∉ (C_Name <$> cs) ->
  represents (S n) cs (del_cluster (S n) t c).
Proof.
  revert cs t. induction n as [|n IH]; intros cs t Hn (Hu & Hc & Hi) Hcom Hname; rewrite del_cluster_S; cbv zeta;
    set (k0 := getGeoLocationKey c (5 - S _));
    assert (k0 ≠ ""%string) as Hk0 by (apply Hcom; [by left|lia]);
    pose proof (Hi k0) as Hi0; rewrite at_key_cons, decide_True in Hi0 by done;
    (destruct (String.eqb_spec k0 ""); [done|]); destruct (infoMap t !! k0) as [child|] eqn:Hch;
    [destruct Hi0 as (_ & _ & Hr)|by destruct Hi0|destruct Hi0 as (_ & _ & Hr)|by destruct Hi0];
    (split; [simpl; rewrite Hu; apply del_union_of|]);
    (split; [cbn [clusterMap]; rewrite Hc, fmap_cons; apply delMap_counts|]); cbn [infoMap];
    intros key; specialize (Hi key); rewrite at_key_cons in Hi; fold k0 in Hi.
  - destruct Hr as (_ & _ & Hempty). cbn [del_cluster]. rewrite decide_True by done.
    destruct (decide (k0 = key)) as [<-|Hne]; [|by rewrite lookup_delete_ne].
    rewrite lookup_delete_eq. right. apply elem_of_nil_inv. intros c' [Hin Hk]%elem_of_at_key.
    apply Hname. replace (C_Name c) with (C_Name c') by exact Hk. by apply list_elem_of_fmap_2.
  - assert (forall c', c' ∈ at_key (S (S n)) k0 cs -> complete c') as Hcom'.
    { intros c' [Hin _]%elem_of_at_key. apply Hcom. by right. }
    assert (represents (S n) (at_key (S (S n)) k0 cs) (del_cluster (S n) child c)) as Hr'.
    { apply IH; [lia|done| |].
      - intros c' [->|Hin]%elem_of_cons; [apply Hcom; by left|by apply Hcom'].
      - intros (c' & Hk & [Hin _]%elem_of_at_key)%list_elem_of_fmap. apply Hname. rewrite Hk. by apply list_elem_of_fmap_2. }
    pose proof (represents_no_children n _ _ Hr' ltac:(lia) Hcom') as Hnc.
    destruct (decide (infoMap (del_cluster (S n) child c) = ∅)) as [Hd|Hd]; (destruct (decide (k0 = key)) as [<-|Hne];
      [rewrite ?lookup_delete_eq, ?lookup_insert_eq|rewrite ?lookup_delete_ne, ?lookup_insert_ne by done; exact Hi]).
    + right. by apply Hnc.
    + split_and!; [done| |done]. by rewrite <- Hnc.
Qed.

Lemma represents_AddCluster cs t c : represents 5 cs t -> represents 5 (c :: cs) (AddCluster t c 0).
Proof. exact (represents_add 5 cs t c). Qed.

Lemma represents_DelCluster cs t c : represents 5 (c :: cs) t -> (forall c', c' ∈ c :: cs -> complete c') ->
  C_Name c ∉ (C_Name <$> cs) -> represents 5 cs (DelCluster t c 0).
Proof. exact (represents_del 4 cs t c ltac:(lia)). Qed.

(** ** Properties of the tree *)

(** Cluster events as the informer delivers them. *)
Inductive cluster_event :=
  | ClusterAdded (c : Cluster)
  | ClusterDeleted (c : Cluster).

Definition tree_event (t : ClusterInfoNode) (e : cluster_event) : ClusterInfoNode :=
  match e with
  | ClusterAdded c => AddCluster t c 0
  | ClusterDeleted c => DelCluster t c 0
  end.

(** The clusters alive after an event. *)
Inductive live_event : list Cluster -> cluster_event -> list Cluster -> Prop :=
  | live_added cs c : complete c -> C_Name c ∉ (C_Name <$> cs) -> live_event cs (ClusterAdded c) (c :: cs)
  | live_deleted cs c cs' : cs ≡ₚ c :: cs' -> live_event cs (ClusterDeleted c) cs'.

Inductive live_events : list Cluster -> list cluster_event -> list Cluster -> Prop :=
  | live_done cs : live_events cs [] cs
  | live_step cs e cs1 es cs2 : live_event cs e cs1 -> live_events cs1 es cs2 -> live_events cs (e :: es) cs2.

(** All clusters have a location and their names differ. *)
Definition live_ok (cs : list Cluster) : Prop := (forall c, c ∈ cs -> complete c) ∧ NoDup (C_Name <$> cs).

Lemma tree_event_represents cs t e cs' : live_ok cs -> represents 5 cs t -> live_event cs e cs' ->
  live_ok cs' ∧ represents 5 cs' (tree_event t e).
Proof.
  intros [Hcom Hnd] Hr Hev. destruct Hev as [cs c Hc Hn|cs c cs' Hp]; simpl.
  - split; [split|by apply represents_AddCluster].
    + intros c' [->|?]%elem_of_cons; auto.
    + by apply NoDup_cons.
  - rewrite Hp in Hnd. apply NoDup_cons in Hnd as [Hni Hnd].
    assert (forall c', c' ∈ c :: cs' -> complete c') as Hcom' by (intros c'; rewrite <- Hp; apply Hcom).
    split; [split; [intros c' Hin; apply Hcom'; by right|done]|].
    apply represents_DelCluster; [by eapply represents_perm|done|done].
Qed.

Lemma tree_events_represent es cs t cs' : live_ok cs -> represents 5 cs t -> live_events cs es cs' ->
  live_ok cs' ∧ represents 5 cs' (foldl tree_event t es).
Proof.
  revert cs t. induction es as [|e es IH]; intros cs t Hok Hr Hev; inversion Hev; subst; [done|].
  destruct (tree_event_represents cs t e cs1 Hok Hr) as [Hok1 Hr1]; [done|]. by eapply IH.
Qed.

(** C29.  After any sequence of additions of clusters with complete locations and names that no
    live cluster has, and of deletions of live clusters, the tree stands for exactly the live
    clusters: at every node of it, down the path country, area, province, city, name, the
    cluster and property counts are those of the live clusters below the node, a node without
    clusters is gone, and the tree is the one obtained by adding the live clusters to an empty
    tree in any order. *)
Theorem tree_tracks_live_clusters es cs :
  live_events [] es cs ->
  represents 5 cs (foldl tree_event NewClusterInfoNode es) ∧
  forall cs', cs' ≡ₚ cs ->
    foldl tree_event NewClusterInfoNode es = foldr (fun c t => AddCluster t c 0) NewClusterInfoNode cs'.
Proof.
  intros Hev. destruct (tree_events_represent es [] NewClusterInfoNode cs) as [_ Hr];
    [split; [by intros c ?%elem_of_nil|constructor]|apply (represents_new 5)|done|]. split; [done|].
  intros cs' Hp. apply (represents_unique 5 cs); [done|]. apply (represents_perm 5 cs'); [done|].
  clear. induction cs' as [|c cs' IH]; [apply (represents_new 5)|]. by apply represents_AddCluster.
Qed.

Definition demo_c1 : Cluster := demo_cluster "US" "W" "WA" "Seattle" "c1" 7.
Definition demo_c2 : Cluster := demo_cluster "US" "E" "NY" "NYC" "c2" 8.

Lemma tree_tracks_live_clusters_witness :
  live_events [] [ClusterAdded demo_c1; ClusterAdded demo_c2; ClusterDeleted demo_c1] [demo_c2] ∧
  foldl tree_event NewClusterInfoNode [ClusterAdded demo_c1; ClusterAdded demo_c2; ClusterDeleted demo_c1] =
    AddCluster NewClusterInfoNode demo_c2 0.
Proof.
  assert (live_events [] [ClusterAdded demo_c1; ClusterAdded demo_c2; ClusterDeleted demo_c1] [demo_c2]) as Hev.
  { assert (forall c, c = demo_c1 ∨ c = demo_c2 -> complete c) as Hc.
    { intros c [->| ->] level Hl; do 5 (destruct level as [|level]; [done|]); lia. }
    eapply live_step; [apply live_added; [by apply Hc; left|by intros ?%elem_of_nil]|].
    eapply live_step; [apply live_added; [by apply Hc; right|by intros ?%list_elem_of_singleton]|].
    eapply live_step; [apply live_deleted; apply Permutation_swap|constructor]. }
  split; [done|].
  destruct (tree_tracks_live_clusters _ _ Hev) as [_ H]. apply (H [demo_c2]). done.
Defined.

(** Deleting a cluster undoes adding it, node by node, when the tree holds
    clusters with complete locations and different names. *)
Theorem del_cluster_undoes_add t cs c :
  represents 5 cs t -> live_ok cs -> complete c -> C_Name c ∉ (C_Name <$> cs) ->
  DelCluster (AddCluster t c 0) c 0 = t.
Proof.
  intros Hr [Hcom Hnd] Hc Hn. apply (represents_unique 5 cs); [|done].
  apply represents_DelCluster; [by apply represents_AddCluster| |done].
  intros c' [->|?]%elem_of_cons; auto.
Qed.

Lemma del_cluster_undoes_add_witness :
  DelCluster (AddCluster (AddCluster NewClusterInfoNode demo_c2 0) demo_c1 0) demo_c1 0 =
    AddCluster NewClusterInfoNode demo_c2 0.
Proof.
  assert (forall c, c = demo_c1 ∨ c = demo_c2 -> complete c) as Hc.
  { intros c [->| ->] level Hl; do 5 (destruct level as [|level]; [done|]); lia. }
  apply (del_cluster_undoes_add _ [demo_c2]).
  - apply (represents_AddCluster []), (represents_new 5).
  - split; [intros c ->%list_elem_of_singleton; by apply Hc; right|apply NoDup_singleton].
  - by apply Hc; left.
  - by intros ?%list_elem_of_singleton.
Defined.

(** A cluster without a country is counted when it is added but never
    discounted: deleting it changes nothing, so its name and properties stay
    in the root for ever. *)
Theorem incomplete_cluster_never_removed t c :
  GI_Country (C_GeoLocation c) = ""%string ->
  is_Some (clusterMap (AddCluster t c 0) !! C_Name c) ∧
  DelCluster (AddCluster t c 0) c 0 = AddCluster t c 0.
Proof.
  intros Hc.
  assert (AddCluster t c 0 = Node (infoMap t) (add_union (clusterUnionMap t) c) (addMap (clusterMap t) (C_Name c))) as ->.
  { unfold AddCluster. change (5 - 0)%nat with 5%nat. rewrite add_cluster_S. cbv zeta.
    change (getGeoLocationKey c (5 - 5)) with (GI_Country (C_GeoLocation c)). by rewrite Hc. }
  split; [unfold addMap; cbn [clusterMap]; destruct (clusterMap t !! C_Name c); by rewrite lookup_insert_eq|].
  unfold DelCluster. change (5 - 0)%nat with 5%nat. rewrite del_cluster_S. cbv zeta.
  change (getGeoLocationKey c (5 - 5)) with (GI_Country (C_GeoLocation c)). by rewrite Hc.
Qed.

Lemma incomplete_cluster_never_removed_witness :
  let c := demo_cluster "" "W" "WA" "Seattle" "c1" 7 in
  clusterMap (DelCluster (AddCluster NewClusterInfoNode c 0) c 0) = {["c1"%string := 1]}.
Proof.
  cbv zeta.
  destruct (incomplete_cluster_never_removed NewClusterInfoNode (demo_cluster "" "W" "WA" "Seattle" "c1" 7) eq_refl) as [_ H].
  rewrite H. vm_compute. reflexivity.
Defined.
