(* ===== verification/SchedulerController.v ===== *)
(** * The scheduler controller

    Models [globalscheduler/controllers/scheduler/scheduler_controller.go]: the
    informer handlers that keep the cluster tree and the list of schedulers, and
    the division of the tree's nodes among the schedulers.

    The API server is a parameter: a state type with a [Get] and an [Update]
    call.  The theorems show that after a successful division every live cluster
    is assigned to a scheduler, and what happens to schedulers beyond the number
    of nodes. *)
From S2P Require Import Prelude Common ApiTypes ClusterTree.

Local Open Scope Z_scope.

(** ** State *)

(** The tree, the schedulers and the keys put into the work queue
    (scheduler_controller.go:58-82). *)
Record SchedulerController := mkSC {
  countryNode : ClusterInfoNode;
  schedulers : list Scheduler;
  workqueue : list string }.

(** The sets a scheduler's share is collected in (scheduler_controller.go:416-425 balance). *)
Record combined := mkCombined {
  cb_clusters : gset string; cb_GeoLocation : gset GeolocationInfo; cb_Region : gset RegionInfo;
  cb_Operator : gset OperatorInfo; cb_Flavor : gset FlavorInfo; cb_Storage : gset StorageSpec;
  cb_EipCapacity : gset Z; cb_CPUCapacity : gset Z; cb_MemCapacity : gset Z; cb_ServerPrice : gset Z }.

Definition no_share : combined := mkCombined ∅ ∅ ∅ ∅ ∅ ∅ ∅ ∅ ∅ ∅.

(** (scheduler_controller.go:428-457 balance) *)
Definition combine_node (acc : combined) (node : ClusterInfoNode) : combined :=
  let u := clusterUnionMap node in
  mkCombined (cb_clusters acc ∪ dom (clusterMap node)) (cb_GeoLocation acc ∪ dom (GeoLocationMap u))
    (cb_Region acc ∪ dom (RegionMap u)) (cb_Operator acc ∪ dom (OperatorMap u))
    (cb_Flavor acc ∪ dom (FlavorMap u)) (cb_Storage acc ∪ dom (StorageMap u))
    (cb_EipCapacity acc ∪ dom (EipCapacityMap u)) (cb_CPUCapacity acc ∪ dom (CPUCapacityMap u))
    (cb_MemCapacity acc ∪ dom (MemCapacityMap u)) (cb_ServerPrice acc ∪ dom (ServerPriceMap u)).

(** The nodes of an index range; an index out of range panics
    (scheduler_controller.go:427-458 balance). *)
Definition combine (nodes : list ClusterInfoNode) (bound : Z * Z) : option combined :=
  foldl (fun acc idx => acc ← acc; node ← nodes !! Z.to_nat idx; Some (combine_node acc node))
    (Some no_share) (seqZ bound.1 (bound.2 - bound.1 + 1)).

Section Controller.
(** The API server: its state, reading a scheduler, and storing one. *)
Context {W : Type} (api_Get : W -> string -> string -> result Scheduler)
  (api_Update : W -> string -> Scheduler -> W * result Scheduler).
(** The orders in which maps are visited. *)
Context (range_children : gmap string ClusterInfoNode -> list (string * ClusterInfoNode))
  (range_keys : forall (K : Type) (EK : EqDecision K) (CK : Countable K), gset K -> list K).

(** (scheduler_controller.go:514-520) *)
Definition getMapKeys (m : gset Z) : list Z := range_keys _ _ _ m.

(** (scheduler_controller.go:463-503 balance) *)
Definition with_share (latest : Scheduler) (cb : combined) : Scheduler :=
  mkScheduler (S_Name latest) (S_Namespace latest) (S_Location latest) (S_Tag latest)
    (range_keys _ _ _ (cb_clusters cb))
    (mkUnion (range_keys _ _ _ (cb_GeoLocation cb)) (range_keys _ _ _ (cb_Region cb)) (range_keys _ _ _ (cb_Operator cb))
       (range_keys _ _ _ (cb_Flavor cb)) (range_keys _ _ _ (cb_Storage cb)) (getMapKeys (cb_EipCapacity cb))
       (getMapKeys (cb_CPUCapacity cb)) (getMapKeys (cb_MemCapacity cb)) (getMapKeys (cb_ServerPrice cb)))
    (S_IpAddress latest) (S_PortNumber latest).

(** The assignment of one scheduler after the other, from [schedulerIdx] on
    (scheduler_controller.go:415-511 balance). *)
Fixpoint balance_loop (namespace : string) (nodes : list ClusterInfoNode) (bounds : list (Z * Z))
    (schedulerIdx : nat) (ss : list Scheduler) (w : W) : option (W * list Scheduler * result unit) :=
  match bounds with
  | [] => Some (w, ss, Ok tt)
  | nodeIdxBound :: bounds =>
      cb ← combine nodes nodeIdxBound;
      s ← ss !! schedulerIdx;
      match api_Get w namespace (S_Name s) with
      | Err _ => Some (w, ss, Err ("Failed to get scheduler " +:+ S_Name s))
      | Ok latestScheduler =>
          let '(w, r) := api_Update w namespace (with_share latestScheduler cb) in
          match r with
          | Err e => Some (w, ss, Err e)
          | Ok updatedScheduler =>
              balance_loop namespace nodes bounds (S schedulerIdx) (<[schedulerIdx := updatedScheduler]> ss) w
          end
      end
  end.

(** The nodes one level down (scheduler_controller.go:398-405 balance). *)
Definition next_level (nodes : list ClusterInfoNode) : list ClusterInfoNode :=
  nodes ≫= fun node => (range_children (infoMap node)).*2.

(** [fuel] bounds the levels descended (scheduler_controller.go:389-512). *)
Fixpoint balance (fuel : nat) (namespace : string) (nodes : list ClusterInfoNode) (ss : list Scheduler) (w : W) :
    option (W * list Scheduler * result unit) :=
  match fuel with
  | O => None
  | S fuel =>
      let schedulersLen := length ss in
      let nodesLen := length nodes in
      if (Nat.eqb nodesLen 0 || Nat.eqb schedulersLen 0)%bool then Some (w, ss, Ok tt)
      else
        let here := balance_loop namespace nodes (EvenlyDivide (Z.of_nat schedulersLen) (Z.of_nat nodesLen - 1)) 0 ss w in
        if Nat.ltb nodesLen schedulersLen then
          match next_level nodes with
          | [] => here
          | nextLevelNodes => balance fuel namespace nextLevelNodes ss w
          end
        else here
  end.

(** The tree has six levels of nodes. *)
Definition balance_fuel : nat := 6.

(** A balance from the root; an error is logged. *)
Definition rebalance (sc : SchedulerController) (namespace : string) (w : W) :
    option (W * SchedulerController * result unit) :=
  '(w, ss, r) ← balance balance_fuel namespace [countryNode sc] (schedulers sc) w;
  Some (w, mkSC (countryNode sc) ss (workqueue sc), r).

(** ** Handlers *)

(** (scheduler_controller.go:310-321) *)
Definition addCluster (sc : SchedulerController) (cluster : Cluster) (w : W) :
    option (W * SchedulerController * result unit) :=
  rebalance (mkSC (AddCluster (countryNode sc) cluster 0) (schedulers sc) (workqueue sc)) (C_Namespace cluster) w.

(** (scheduler_controller.go:376-387) *)
Definition deleteCluster (sc : SchedulerController) (cluster : Cluster) (w : W) :
    option (W * SchedulerController * result unit) :=
  rebalance (mkSC (DelCluster (countryNode sc) cluster 0) (schedulers sc) (workqueue sc)) (C_Namespace cluster) w.

(** [MetaNamespaceKeyFunc] gives [namespace/name], or the name alone without a
    namespace (scheduler_controller.go:366-374). *)
Definition enqueue (sc : SchedulerController) (s : Scheduler) : SchedulerController :=
  let key := if String.eqb (S_Namespace s) "" then S_Name s else S_Namespace s +:+ "/" +:+ S_Name s in
  mkSC (countryNode sc) (schedulers sc) (workqueue sc ++ [key]).

(** (scheduler_controller.go:323-338) *)
Definition addScheduler (sc : SchedulerController) (s : Scheduler) (w : W) :
    option (W * SchedulerController * result unit) :=
  '(w, sc, r) ← rebalance (mkSC (countryNode sc) (schedulers sc ++ [s]) (workqueue sc)) (S_Namespace s) w;
  Some (w, if is_ok r then enqueue sc s else sc, r).

(** The last element takes the place of the first match, and the slice is cut
    (scheduler_controller.go:347-354 deleteScheduler). *)
Definition remove_scheduler (ss : list Scheduler) (s : Scheduler) : list Scheduler :=
  let same sched := (String.eqb (S_Name s) (S_Name sched) && String.eqb (S_Namespace s) (S_Namespace sched))%bool in
  if existsb same ss then default ss (swap_remove ss (first_index same ss)) else ss.

(** (scheduler_controller.go:343-361) *)
Definition deleteScheduler (sc : SchedulerController) (s : Scheduler) (w : W) :
    option (W * SchedulerController * result unit) :=
  rebalance (mkSC (countryNode sc) (remove_scheduler (schedulers sc) s) (workqueue sc)) (S_Namespace s) w.

(** ** Shares *)

(** The sets contain the name and every property of the cluster. *)
Definition share_has (cb : combined) (c : Cluster) : Prop :=
  C_Name c ∈ cb_clusters cb ∧ C_GeoLocation c ∈ cb_GeoLocation cb ∧ C_Region c ∈ cb_Region cb ∧
  C_Operator c ∈ cb_Operator cb ∧ (forall f, f ∈ C_Flavors c -> f ∈ cb_Flavor cb) ∧
  (forall s, s ∈ C_Storage c -> s ∈ cb_Storage cb) ∧ C_EipCapacity c ∈ cb_EipCapacity cb ∧
  C_CPUCapacity c ∈ cb_CPUCapacity cb ∧ C_MemCapacity c ∈ cb_MemCapacity cb ∧ C_ServerPrice c ∈ cb_ServerPrice cb.

(** The scheduler lists the cluster and its union covers the cluster's properties. *)
Definition serves (s : Scheduler) (c : Cluster) : Prop :=
  let u := S_Union s in
  C_Name c ∈ S_Cluster s ∧ C_GeoLocation c ∈ U_GeoLocation u ∧ C_Region c ∈ U_Region u ∧
  C_Operator c ∈ U_Operator u ∧ (forall f, f ∈ C_Flavors c -> f ∈ U_Flavors u) ∧
  (forall s, s ∈ C_Storage c -> s ∈ U_Storage u) ∧ C_EipCapacity c ∈ U_EipCapacity u ∧
  C_CPUCapacity c ∈ U_CPUCapacity u ∧ C_MemCapacity c ∈ U_MemCapacity u ∧ C_ServerPrice c ∈ U_ServerPrice u.

Lemma combine_node_mono acc node c : share_has acc c -> share_has (combine_node acc node) c.
Proof.
  unfold share_has, combine_node. simpl. intros (? & ? & ? & ? & ? & ? & ? & ? & ? & ?).
  split_and!; intros; apply elem_of_union; left; auto.
Qed.

Lemma represents_dom {levels cs node} : represents levels cs node ->
  clusterUnionMap node = union_of cs ∧ forall name, name ∈ dom (clusterMap node) <-> ∃ c, c ∈ cs ∧ C_Name c = name.
Proof.
  intros Hr. assert (clusterUnionMap node = union_of cs ∧ clusterMap node = counts (C_Name <$> cs)) as [Hu Hc]
    by (destruct levels; by destruct Hr as (? & ? & _)).
  split; [done|]. intros name. rewrite elem_of_dom, Hc, counts_elem, list_elem_of_fmap.
  split; intros (c & ? & ?); by exists c.
Qed.

Lemma combine_node_has levels cs node acc c : represents levels cs node -> c ∈ cs -> share_has (combine_node acc node) c.
Proof.
  intros Hr Hin. destruct (represents_dom Hr) as [Hu Hc]. unfold share_has, combine_node. simpl. rewrite Hu. simpl.
  split_and!; intros; apply elem_of_union; right;
    try (apply elem_of_dom, counts_elem, list_elem_of_fmap_2; done).
  - apply Hc. by exists c.
  - apply elem_of_dom, counts_elem, list_elem_of_bind. by exists c.
  - apply elem_of_dom, counts_elem, list_elem_of_bind. by exists c.
Qed.

(** The nodes stand for parts of [cs] and together for all of it. *)
Definition covers (levels : nat) (nodes : list ClusterInfoNode) (cs : list Cluster) : Prop :=
  (forall node, node ∈ nodes -> ∃ part, represents levels part node ∧ part ⊆ cs) ∧
  (forall c, c ∈ cs -> ∃ node part, node ∈ nodes ∧ represents levels part node ∧ c ∈ part).

Lemma combine_fold levels nodes cs acc idxs : covers levels nodes cs ->
  (forall idx, idx ∈ idxs -> is_Some (nodes !! Z.to_nat idx)) ->
  ∃ cb, foldl (fun acc idx => acc ← acc; node ← nodes !! Z.to_nat idx; Some (combine_node acc node)) (Some acc) idxs = Some cb ∧
    (forall c, share_has acc c -> share_has cb c) ∧
    (forall idx node part c, idx ∈ idxs -> nodes !! Z.to_nat idx = Some node -> represents levels part node -> c ∈ part -> share_has cb c) ∧
    (forall name, name ∈ cb_clusters cb -> name ∈ cb_clusters acc ∨ ∃ c, c ∈ cs ∧ C_Name c = name).
Proof.
  intros Hcov. revert acc. induction idxs as [|idx idxs IH]; intros acc Hidx.
  { exists acc. split_and!; auto. intros ? ? ? ? Hi. by apply elem_of_nil in Hi. }
  destruct (Hidx idx) as [node Hnode]; [by left|]. cbn [foldl]. bind_simpl. rewrite Hnode. bind_simpl.
  destruct (IH (combine_node acc node)) as (cb & -> & Hmono & Hhas & Hnames).
  { intros i Hi. apply Hidx. by right. }
  exists cb. split_and!; [done| | |].
  - intros c Hc. by apply Hmono, combine_node_mono.
  - intros i nd part c Hi Hnd Hr Hc. apply elem_of_cons in Hi as [->|Hi].
    + rewrite Hnode in Hnd. injection Hnd as <-. by eapply Hmono, combine_node_has.
    + by eapply Hhas.
  - intros name [Hn|Hn]%Hnames; [|by right]. simpl in Hn. apply elem_of_union in Hn as [Hn|Hn]; [by left|right].
    apply list_elem_of_lookup_2 in Hnode. destruct (proj1 Hcov node Hnode) as (part & Hr & Hsub).
    destruct (represents_dom Hr) as [_ Hd]. destruct (proj1 (Hd name) Hn) as (c & Hc & Hcn). exists c. auto.
Qed.

Lemma combine_spec levels nodes cs bound : covers levels nodes cs ->
  0 <= bound.1 -> bound.2 < Z.of_nat (length nodes) ->
  ∃ cb, combine nodes bound = Some cb ∧
    (forall idx node part c, bound.1 <= idx <= bound.2 -> nodes !! Z.to_nat idx = Some node ->
       represents levels part node -> c ∈ part -> share_has cb c) ∧
    (forall name, name ∈ cb_clusters cb -> ∃ c, c ∈ cs ∧ C_Name c = name).
Proof.
  intros Hcov H0 H1. destruct (combine_fold levels nodes cs no_share (seqZ bound.1 (bound.2 - bound.1 + 1)) Hcov)
    as (cb & Hcb & _ & Hhas & Hnames).
  { intros idx Hidx%elem_of_seqZ. apply lookup_lt_is_Some_2. lia. }
  exists cb. split_and!; [done| |].
  - intros idx node part c Hidx. apply Hhas, elem_of_seqZ. lia.
  - intros name [Hn|?]%Hnames; [|done]. by apply elem_of_empty in Hn.
Qed.

(** ** The balance *)

Section Balance.
Hypothesis Hkeys : forall K EK CK (X : gset K), range_keys K EK CK X ≡ₚ elements X.
Hypothesis Hchildren : forall m, range_children m ≡ₚ map_to_list m.
(** The API server returns the specification it is given. *)
Hypothesis Hupdate : forall w ns s w' s', api_Update w ns s = (w', Ok s') ->
  S_Cluster s' = S_Cluster s ∧ S_Union s' = S_Union s.

Lemma with_share_serves latest cb c s' : share_has cb c ->
  S_Cluster s' = S_Cluster (with_share latest cb) -> S_Union s' = S_Union (with_share latest cb) -> serves s' c.
Proof.
  intros (? & ? & ? & ? & Hf & Hs & ? & ? & ? & ?) Hc Hu. unfold serves. rewrite Hc, Hu. simpl. unfold getMapKeys.
  split_and!; intros; rewrite Hkeys, elem_of_elements; auto.
Qed.

Lemma balance_loop_spec ns levels nodes cs bounds k ss w : covers levels nodes cs ->
  (forall j b, bounds !! j = Some b -> 0 <= b.1 ∧ b.2 < Z.of_nat (length nodes)) ->
  (k + length bounds <= length ss)%nat ->
  ∃ w' ss' r, balance_loop ns nodes bounds k ss w = Some (w', ss', r) ∧ length ss' = length ss ∧
    (forall i, (i < k ∨ k + length bounds <= i)%nat -> ss' !! i = ss !! i) ∧
    (r = Ok tt -> forall j b, bounds !! j = Some b -> ∃ s, ss' !! (k + j)%nat = Some s ∧
       (forall idx node part c, b.1 <= idx <= b.2 -> nodes !! Z.to_nat idx = Some node ->
          represents levels part node -> c ∈ part -> serves s c) ∧
       (forall name, name ∈ S_Cluster s -> ∃ c, c ∈ cs ∧ C_Name c = name)).
Proof.
  intros Hcov. revert k ss w. induction bounds as [|b bounds IH]; intros k ss w Hb Hlen; cbn [balance_loop].
  { exists w, ss, (Ok tt). split_and!; try done. }
  destruct (Hb 0%nat b eq_refl) as [Hb0 Hb1]. destruct (combine_spec levels nodes cs b Hcov Hb0 Hb1) as (cb & -> & Hhas & Hnames).
  bind_simpl. simpl in Hlen. destruct (lookup_lt_is_Some_2 ss k ltac:(lia)) as [s Hs]. rewrite Hs. bind_simpl.
  destruct (api_Get w ns (S_Name s)) as [latest|e]; [|eexists _, _, _; by split_and!].
  destruct (api_Update w ns (with_share latest cb)) as [w1 [s1|e]] eqn:Hup; [|eexists _, _, _; by split_and!].
  destruct (Hupdate _ _ _ _ _ Hup) as [Hc Hu].
  destruct (IH (S k) (<[k := s1]> ss) w1) as (w' & ss' & r & -> & Hl & Hout & Hin).
  { intros j b' Hj. by apply (Hb (S j)). }
  { rewrite length_insert. lia. }
  exists w', ss', r. split_and!; [done|by rewrite Hl, length_insert| |].
  - intros i Hi. rewrite Hout by (simpl in Hi; lia). apply list_lookup_insert_ne. simpl in Hi. lia.
  - intros Hr j b' Hj. destruct j as [|j]; simpl in Hj.
    + injection Hj as <-. exists s1. rewrite Nat.add_0_r. split_and!.
      * rewrite Hout by lia. apply list_lookup_insert_eq. lia.
      * intros idx node part c Hidx Hnode Hrep Hc'. eapply with_share_serves; eauto.
      * intros name Hn. apply Hnames. rewrite Hc in Hn. simpl in Hn. by rewrite Hkeys, elem_of_elements in Hn.
    + destruct (Hin Hr j b' Hj) as (s' & Hs' & ?). exists s'. by replace (k + S j)%nat with (S k + j)%nat by lia.
Qed.

Lemma next_level_covers n nodes cs : (n < 5)%nat -> (forall c, c ∈ cs -> complete c) ->
  covers (S n) nodes cs -> covers n (next_level nodes) cs.
Proof.
  intros Hn Hcom [Hsub Hall]. unfold next_level. split.
  - intros child (node & Hin & Hnode)%list_elem_of_bind. destruct (Hsub node Hnode) as (part & Hr & Hpart).
    rewrite Hchildren in Hin. apply list_elem_of_fmap in Hin as ([key child'] & -> & Hin%elem_of_map_to_list).
    destruct Hr as (_ & _ & Hr). specialize (Hr key). rewrite Hin in Hr. destruct Hr as (_ & _ & Hr).
    exists (at_key (S n) key part). split; [done|]. intros c [Hc _]%elem_of_at_key. auto.
  - intros c Hc. destruct (Hall c Hc) as (node & part & Hnode & Hr & Hcp).
    destruct Hr as (_ & _ & Hr). set (key := getGeoLocationKey c (5 - S n)). specialize (Hr key).
    destruct (infoMap node !! key) as [child|] eqn:Hch.
    + destruct Hr as (_ & _ & Hr). exists child, (at_key (S n) key part). split_and!; [|done|by apply elem_of_at_key].
      apply list_elem_of_bind. exists node. split; [|done]. rewrite Hchildren. apply list_elem_of_fmap.
      exists (key, child). split; [done|]. by apply elem_of_map_to_list.
    + exfalso. destruct Hr as [Hr|Hr]; [by apply (Hcom c Hc (5 - S n)%nat); [lia|]|].
      assert (c ∈ at_key (S n) key part) as Hck by (by apply elem_of_at_key). rewrite Hr in Hck. by apply elem_of_nil in Hck.
Qed.

(** Some scheduler serves every cluster, and the schedulers at the positions
    that were assigned list live clusters only. *)
Definition balanced (cs : list Cluster) (ss : list Scheduler) : Prop :=
  forall c, c ∈ cs -> ∃ s, s ∈ ss ∧ serves s c.

Lemma balance_here_spec ns levels nodes cs ss w : covers levels nodes cs -> nodes ≠ [] -> ss ≠ [] ->
  Z.of_nat (length ss) <= MaxInt64 -> Z.of_nat (length nodes) <= MaxInt64 ->
  ∃ w' ss' r, balance_loop ns nodes (EvenlyDivide (Z.of_nat (length ss)) (Z.of_nat (length nodes) - 1)) 0 ss w =
      Some (w', ss', r) ∧ length ss' = length ss ∧ (r = Ok tt -> balanced cs ss').
Proof.
  intros Hcov Hne Hss Hb1 Hb2. set (size := Z.of_nat (length ss)) in *. set (upper := Z.of_nat (length nodes) - 1).
  assert (0 < size <= MaxInt64) as Hs by (unfold size in *; destruct ss; simpl in *; [done|lia]).
  assert (0 <= upper <= MaxInt64) as Hu by (unfold upper; destruct nodes; simpl in *; [done|lia]).
  destruct (balance_loop_spec ns levels nodes cs (EvenlyDivide size upper) 0 ss w Hcov) as (w' & ss' & r & -> & Hl & _ & Hin).
  { intros j b [Hj ->]%EvenlyDivide_lookup; [|done|done]. simpl.
    pose proof (range_start_upper size upper Hs Hu (Z.of_nat j) ltac:(lia)). unfold upper in *. lia. }
  { pose proof (EvenlyDivide_length size upper Hs Hu). unfold range_count, size in *. lia. }
  exists w', ss', r. split_and!; try done. intros Hr c Hc.
  destruct (proj2 Hcov c Hc) as (node & part & [i Hi]%list_elem_of_lookup & Hrep & Hcp).
  assert (0 <= Z.of_nat i < range_start size upper (Z.of_nat (Z.to_nat (range_count size upper)))) as Hri.
  { apply lookup_lt_Some in Hi. rewrite Z2Nat.id by (unfold range_count, upper in *; lia).
    rewrite range_start_total by done. unfold upper. lia. }
  apply range_containing in Hri as (k & Hk & Hki).
  destruct (Hin Hr k (range_start size upper (Z.of_nat k), range_start size upper (Z.of_nat k + 1) - 1)) as (s & Hsk & Hserve & _).
  { apply EvenlyDivide_lookup; [done..|]. split; [lia|done]. }
  exists s. split; [by eapply list_elem_of_lookup_2|].
  eapply (Hserve (Z.of_nat i) node part); [simpl; lia|by rewrite Nat2Z.id|done|done].
Qed.

(** The nodes of every level can be counted in an [int64]. *)
Definition levels_small (nodes : list ClusterInfoNode) : Prop :=
  forall k, Z.of_nat (length (Nat.iter k next_level nodes)) <= MaxInt64.

Lemma balance_spec ns fuel levels nodes cs ss w : covers levels nodes cs -> (levels <= 5)%nat -> (levels < fuel)%nat ->
  (forall c, c ∈ cs -> complete c) -> nodes ≠ [] -> ss ≠ [] -> Z.of_nat (length ss) <= MaxInt64 -> levels_small nodes ->
  ∃ w' ss' r, balance fuel ns nodes ss w = Some (w', ss', r) ∧ length ss' = length ss ∧ (r = Ok tt -> balanced cs ss').
Proof.
  revert levels nodes. induction fuel as [|fuel IH]; intros levels nodes Hcov Hl5 Hlf Hcom Hne Hss Hb1 Hsm; [lia|].
  cbn [balance]. destruct (Nat.eqb_spec (length nodes) 0) as [H0|_]; [by apply nil_length_inv in H0|].
  destruct (Nat.eqb_spec (length ss) 0) as [H0|_]; [by apply nil_length_inv in H0|]. simpl orb. cbv iota.
  pose proof (balance_here_spec ns levels nodes cs ss w Hcov Hne Hss Hb1 (Hsm 0%nat)) as Hhere.
  destruct (Nat.ltb (length nodes) (length ss)); [|done].
  destruct (next_level nodes) as [|n0 next] eqn:Hnext; [done|]. rewrite <- Hnext in *.
  destruct levels as [|n].
  { exfalso. assert (n0 ∈ next_level nodes) as Hn0 by (rewrite Hnext; by left).
    apply list_elem_of_bind in Hn0 as (node & Hin & Hnode). destruct (proj1 Hcov node Hnode) as (part & (_ & _ & He) & _).
    rewrite Hchildren, He, map_to_list_empty in Hin. by apply elem_of_nil in Hin. }
  apply (IH n); [|lia|lia|done|by rewrite Hnext|done|done|].
  - apply next_level_covers; [lia|done|done].
  - intros k. rewrite <- Nat.iter_succ_r. apply Hsm.
Qed.
End Balance.
End Controller.

(** ** Properties of the handlers *)

Inductive sc_event :=
  | EvCluster (e : cluster_event)
  | EvAddScheduler (s : Scheduler)
  | EvDeleteScheduler (s : Scheduler).

Section Handlers.
Context {W : Type} (api_Get : W -> string -> string -> result Scheduler)
  (api_Update : W -> string -> Scheduler -> W * result Scheduler)
  (range_children : gmap string ClusterInfoNode -> list (string * ClusterInfoNode))
  (range_keys : forall (K : Type) (EK : EqDecision K) (CK : Countable K), gset K -> list K).

Definition sc_step (sc : SchedulerController) (e : sc_event) (w : W) : option (W * SchedulerController * result unit) :=
  match e with
  | EvCluster (ClusterAdded c) => addCluster api_Get api_Update range_children range_keys sc c w
  | EvCluster (ClusterDeleted c) => deleteCluster api_Get api_Update range_children range_keys sc c w
  | EvAddScheduler s => addScheduler api_Get api_Update range_children range_keys sc s w
  | EvDeleteScheduler s => deleteScheduler api_Get api_Update range_children range_keys sc s w
  end.

(** The live clusters after an event of the controller. *)
Definition sc_live (cs : list Cluster) (e : sc_event) (cs' : list Cluster) : Prop :=
  match e with EvCluster e => live_event cs e cs' | _ => cs' = cs end.

Lemma represents_covers levels cs t : represents levels cs t -> covers levels [t] cs.
Proof.
  intros Hr. split.
  - intros node ->%list_elem_of_singleton. by exists cs.
  - intros c Hc. exists t, cs. split_and!; [by left|done|done].
Qed.

Lemma rebalance_spec sc ns cs w :
  (forall K EK CK (X : gset K), range_keys K EK CK X ≡ₚ elements X) ->
  (forall m, range_children m ≡ₚ map_to_list m) ->
  (forall w ns s w' s', api_Update w ns s = (w', Ok s') -> S_Cluster s' = S_Cluster s ∧ S_Union s' = S_Union s) ->
  represents 5 cs (countryNode sc) -> (forall c, c ∈ cs -> complete c) ->
  Z.of_nat (length (schedulers sc)) <= MaxInt64 -> levels_small range_children [countryNode sc] ->
  ∃ w' sc' r, rebalance api_Get api_Update range_children range_keys sc ns w = Some (w', sc', r) ∧
    countryNode sc' = countryNode sc ∧ length (schedulers sc') = length (schedulers sc) ∧
    (r = Ok tt -> schedulers sc' ≠ [] -> balanced cs (schedulers sc')).
Proof.
  intros Hk Hch Hup Hr Hcom Hb Hsm. unfold rebalance, balance_fuel.
  destruct (decide (schedulers sc = [])) as [He|Hne].
  { rewrite He. cbn [balance]. simpl. eexists _, _, _. split_and!; try done. }
  destruct (balance_spec api_Get api_Update range_children range_keys Hk Hch Hup ns 6 5 [countryNode sc] cs (schedulers sc) w)
    as (w' & ss' & r & -> & Hl & Hbal); [by apply represents_covers|lia|lia|done|done|done|done|done|].
  bind_simpl. eexists _, _, _. split_and!; try done. simpl. auto.
Qed.
End Handlers.

(** C4.  The controller keeps every live cluster served. The live clusters have complete
    locations and different names, an added one too, and a deleted one is live; the API server,
    when it accepts an update, keeps the clusters and the union that were sent; and the
    schedulers and the nodes of a level can be counted in 64 bits. Then handling an event -- a
    cluster or a scheduler added or deleted -- terminates without a panic and leaves a tree
    that stands for the live clusters; and if the handling ends without an error and there is a
    scheduler, then every live cluster is in some scheduler's list and that scheduler's union
    covers all its properties. *)
Theorem live_clusters_are_served {W : Type} (api_Get : W -> string -> string -> result Scheduler)
    (api_Update : W -> string -> Scheduler -> W * result Scheduler) range_children range_keys sc cs e cs' w :
  (forall K EK CK (X : gset K), range_keys K EK CK X ≡ₚ elements X) ->
  (forall m, range_children m ≡ₚ map_to_list m) ->
  (forall w ns s w' s', api_Update w ns s = (w', Ok s') -> S_Cluster s' = S_Cluster s ∧ S_Union s' = S_Union s) ->
  represents 5 cs (countryNode sc) -> live_ok cs -> sc_live cs e cs' ->
  Z.of_nat (S (length (schedulers sc))) <= MaxInt64 ->
  (forall t, represents 5 cs' t -> levels_small range_children [t]) ->
  ∃ w' sc' r, sc_step api_Get api_Update range_children range_keys sc e w = Some (w', sc', r) ∧
    represents 5 cs' (countryNode sc') ∧ live_ok cs' ∧
    (r = Ok tt -> schedulers sc' ≠ [] -> balanced cs' (schedulers sc')).
Proof.
  intros Hk Hch Hup Hr Hok Hlive Hb Hsm.
  assert (live_ok cs' ∧ match e with EvCluster ev => represents 5 cs' (tree_event (countryNode sc) ev) | _ => represents 5 cs' (countryNode sc) end) as [Hok' Hr'].
  { destruct e as [ev|s|s]; [by apply (tree_event_represents cs)|simpl in Hlive; by subst..]. }
  assert (forall t ss wq ns, represents 5 cs' t -> Z.of_nat (length ss) <= MaxInt64 ->
    ∃ w' sc' r, rebalance api_Get api_Update range_children range_keys (mkSC t ss wq) ns w = Some (w', sc', r) ∧
      represents 5 cs' (countryNode sc') ∧ (r = Ok tt -> schedulers sc' ≠ [] -> balanced cs' (schedulers sc'))) as Hreb.
  { intros t ss wq ns Ht Hss. destruct (rebalance_spec api_Get api_Update range_children range_keys (mkSC t ss wq) ns cs' w
      Hk Hch Hup Ht (proj1 Hok') Hss (Hsm t Ht)) as (w' & sc' & r & Hreb & Ht' & _ & Hbal).
    exists w', sc', r. split_and!; [done|by rewrite Ht'|done]. }
  destruct e as [[c|c]|s|s]; cbn [sc_step tree_event] in *.
  - destruct (Hreb (AddCluster (countryNode sc) c 0) (schedulers sc) (workqueue sc) (C_Namespace c) Hr' ltac:(lia)) as (w' & sc' & r & ? & ? & ?).
    by exists w', sc', r.
  - destruct (Hreb (DelCluster (countryNode sc) c 0) (schedulers sc) (workqueue sc) (C_Namespace c) Hr' ltac:(lia)) as (w' & sc' & r & ? & ? & ?).
    by exists w', sc', r.
  - destruct (Hreb (countryNode sc) (schedulers sc ++ [s]) (workqueue sc) (S_Namespace s) Hr') as (w' & sc' & r & Hre & Ht & Hbal).
    { rewrite length_app. simpl. lia. }
    unfold addScheduler. rewrite Hre. bind_simpl. eexists w', _, r. split; [done|].
    by destruct (is_ok r).
  - destruct (Hreb (countryNode sc) (remove_scheduler (schedulers sc) s) (workqueue sc) (S_Namespace s) Hr') as (w' & sc' & r & ? & ? & ?).
    { unfold remove_scheduler. case_match; [|lia]. destruct (swap_remove _ _) as [ss'|] eqn:Hsw; simpl; [|lia].
      unfold swap_remove in Hsw. apply bind_Some in Hsw as (x & Hx & Hsw). destruct (swap_remove_perm _ _ _ Hx) as (l' & Hl & Hp).
      unfold swap_remove in Hl. rewrite Hx in Hl. bind_simpl in Hl. rewrite Hsw in Hl. injection Hl as ->.
      apply Permutation_length in Hp. simpl in Hp. lia. }
    by exists w', sc', r.
Qed.

(** An API server that stores schedulers by name. *)
Definition demo_get (w : gmap string Scheduler) (ns name : string) : result Scheduler :=
  match w !! name with Some s => Ok s | None => Err "not found" end.
Definition demo_update (w : gmap string Scheduler) (ns : string) (s : Scheduler) : gmap string Scheduler * result Scheduler :=
  (<[S_Name s := s]> w, Ok s).
Definition demo_keys (K : Type) (EK : EqDecision K) (CK : Countable K) (X : gset K) : list K := elements X.
Definition demo_scheduler (name : string) (clusters : list string) : Scheduler :=
  mkScheduler name "default" (mkGeolocation "" "" "" "") "" clusters empty_union "" "".

Definition demo_sc : SchedulerController := mkSC NewClusterInfoNode [demo_scheduler "s1" []; demo_scheduler "s2" []] [].
Definition demo_api : gmap string Scheduler :=
  {["s1"%string := demo_scheduler "s1" []; "s2"%string := demo_scheduler "s2" []]}.

Lemma demo_levels_small : levels_small map_to_list [AddCluster NewClusterInfoNode demo_c1 0].
Proof.
  intros k. assert (forall j, Nat.iter j (next_level map_to_list) [] = []) as Hnil.
  { induction j as [|j IH]; [done|]. simpl. by rewrite IH. }
  destruct (decide (k < 6)%nat) as [Hk|Hk].
  - do 6 (destruct k as [|k]; [vm_compute; discriminate|]). lia.
  - replace k with ((k - 6) + 6)%nat by lia. rewrite Nat.iter_add.
    replace (Nat.iter 6 (next_level map_to_list) [AddCluster NewClusterInfoNode demo_c1 0]) with (@nil ClusterInfoNode)
      by (vm_compute; reflexivity).
    rewrite Hnil. vm_compute. discriminate.
Qed.

Lemma live_clusters_are_served_witness :
  ∃ w' sc' r, sc_step demo_get demo_update map_to_list demo_keys demo_sc (EvCluster (ClusterAdded demo_c1)) demo_api =
      Some (w', sc', r) ∧ S_Cluster <$> schedulers sc' = [["c1"%string]; []] ∧ balanced [demo_c1] (schedulers sc').
Proof.
  assert (complete demo_c1) as Hc.
  { intros level Hl. do 5 (destruct level as [|level]; [done|]). lia. }
  destruct (live_clusters_are_served demo_get demo_update map_to_list demo_keys demo_sc [] (EvCluster (ClusterAdded demo_c1))
    [demo_c1] demo_api) as (w' & sc' & r & Hst & _ & _ & Hbal).
  - done.
  - done.
  - intros w ns s w2 s2 [= <- <-]. done.
  - apply (represents_new 5).
  - split; [by intros c ?%elem_of_nil|constructor].
  - apply live_added; [done|by intros ?%elem_of_nil].
  - vm_compute. discriminate.
  - intros t Ht. replace t with (AddCluster NewClusterInfoNode demo_c1 0); [apply demo_levels_small|].
    apply (represents_unique 5 [demo_c1]); [|done]. apply represents_AddCluster, (represents_new 5).
  - assert ((fun '(_, sc, r) => (S_Cluster <$> schedulers sc, r)) <$>
      sc_step demo_get demo_update map_to_list demo_keys demo_sc (EvCluster (ClusterAdded demo_c1)) demo_api =
      Some ([["c1"%string]; []], Ok tt)) as Hv by (vm_compute; reflexivity).
    rewrite Hst in Hv. injection Hv as Hv ->. exists w', sc', (Ok tt). split_and!; [done|done|].
    apply Hbal; [done|]. intros He. by rewrite He in Hv.
Defined.

(** When the last cluster is deleted, only the first scheduler is told: the
    balance has one node to give away and leaves every other scheduler as it
    was, so a scheduler at a later position keeps listing clusters that no
    longer exist. *)
Theorem surplus_schedulers_keep_stale_clusters {W : Type} (api_Get : W -> string -> string -> result Scheduler)
    (api_Update : W -> string -> Scheduler -> W * result Scheduler) range_children range_keys ss ns w w' ss' r i :
  (forall m, range_children m ≡ₚ map_to_list m) ->
  balance api_Get api_Update range_children range_keys balance_fuel ns [NewClusterInfoNode] ss w = Some (w', ss', r) ->
  Z.of_nat (length ss) <= MaxInt64 -> (0 < i)%nat -> ss' !! i = ss !! i.
Proof.
  intros Hch Hbal Hlen Hi. unfold balance_fuel in Hbal. cbn [balance] in Hbal. revert Hbal.
  destruct (Nat.eqb_spec (length ss) 0) as [H0|Hne]; [by intros [= <- <- <-]|].
  change (length [NewClusterInfoNode]) with 1%nat. simpl orb. cbv iota.
  assert (next_level range_children [NewClusterInfoNode] = []) as ->.
  { unfold next_level. simpl. rewrite app_nil_r. pose proof (Hch ∅) as Hp. rewrite map_to_list_empty in Hp.
    apply Permutation_nil_r in Hp. by rewrite Hp. }
  assert (EvenlyDivide (Z.of_nat (length ss)) (Z.of_nat 1 - 1) = [(0, 0)]) as ->.
  { rewrite EvenlyDivide_eq by (unfold MaxInt64 in *; lia). unfold range_count. rewrite Z.min_r by lia.
    simpl. unfold range_start. rewrite Z.div_0_l, Z.mod_0_l by lia. done. }
  assert (forall o, o = Some (w', ss', r) -> o = balance_loop api_Get api_Update range_keys ns [NewClusterInfoNode] [(0, 0)] 0 ss w ->
    ss' !! i = ss !! i) as Hgo.
  { intros o -> Ho. cbn [balance_loop] in Ho. revert Ho. destruct (combine _ _) as [cb|]; [|done]. bind_simpl.
    destruct (ss !! 0%nat) as [s|]; [|done]. bind_simpl.
    destruct (api_Get w ns (S_Name s)) as [latest|e]; [|by intros [= -> -> ->]].
    destruct (api_Update w ns (with_share range_keys latest cb)) as [w1 [s1|e]]; intros [= -> -> ->]; [|done].
    by apply list_lookup_insert_ne; lia. }
  case_match; intros; by eapply Hgo.
Qed.

Lemma surplus_schedulers_keep_stale_clusters_witness :
  ∃ w' ss', balance demo_get demo_update map_to_list demo_keys balance_fuel "default" [NewClusterInfoNode]
      [demo_scheduler "s1" ["c1"%string]; demo_scheduler "s2" ["c1"%string]] demo_api = Some (w', ss', Ok tt) ∧
    ss' !! 1%nat = Some (demo_scheduler "s2" ["c1"%string]).
Proof.
  destruct (balance demo_get demo_update map_to_list demo_keys balance_fuel "default" [NewClusterInfoNode]
    [demo_scheduler "s1" ["c1"%string]; demo_scheduler "s2" ["c1"%string]] demo_api) as [[[w' ss'] r]|] eqn:Hb;
    [|vm_compute in Hb; discriminate].
  exists w', ss'. split.
  - assert (snd <$> balance demo_get demo_update map_to_list demo_keys balance_fuel "default" [NewClusterInfoNode]
      [demo_scheduler "s1" ["c1"%string]; demo_scheduler "s2" ["c1"%string]] demo_api = Some (Ok tt)) as H by (vm_compute; reflexivity).
    rewrite Hb in H. by injection H as ->.
  - rewrite (surplus_schedulers_keep_stale_clusters demo_get demo_update map_to_list demo_keys _ _ _ _ _ _ 1 ltac:(done) Hb);
      [done|vm_compute; discriminate|lia].
Defined.
