(* ===== verification/Partition.v ===== *)
(** * Partitioning work among dispatchers and distributors

    Models the state and handlers of
    [globalscheduler/controllers/dispatcher/dispatcher_controller.go] and the
    rebalancing of
    [globalscheduler/controllers/distributor/distributor_controller.go].  A
    dispatcher serves the clusters whose names lie in its range, a distributor
    the pods whose hash key lies in its range.  The theorems show that after a
    successful balance every known cluster belongs to exactly one dispatcher and
    every hash key to exactly one distributor. *)
From S2P Require Import Prelude Common ApiTypes.

Local Open Scope Z_scope.

(** ** Dispatchers *)

Module Dispatchers.

(** The sorted cluster names and the dispatchers (dispatcher_controller.go:46-64). *)
Record DispatcherController := mkDC { clusters : list string; dispatchers : list Dispatcher }.

(** [dispatcher.Spec.ClusterRange = ...] *)
Definition set_range (d : Dispatcher) (r : string * string) : Dispatcher :=
  mkDispatcher (Di_Name d) (Di_Namespace d) r.1 r.2.

Section Controller.
(** The API server and its update call. *)
Context {W : Type} (api_Update : W -> Dispatcher -> W * result Dispatcher).

(** The range of dispatcher [idx]; an index out of range panics
    (dispatcher_controller.go:208-212 balance). *)
Definition range_of (names : list string) (ranges : list (Z * Z)) (idx : nat) : option (string * string) :=
  match ranges !! idx with
  | Some r => s ← names !! Z.to_nat r.1; e ← names !! Z.to_nat r.2; Some (s, e)
  | None => Some (""%string, ""%string)
  end.

(** The loop over the dispatchers from [idx] on, [todo] of them; the dispatcher
    is changed in place before it is sent (dispatcher_controller.go:207-220 balance). *)
Fixpoint balance_loop (names : list string) (ranges : list (Z * Z)) (todo idx : nat) (ds : list Dispatcher) (w : W) :
    option (W * list Dispatcher * result unit) :=
  match todo with
  | O => Some (w, ds, Ok tt)
  | S todo =>
      dispatcher ← ds !! idx;
      rng ← range_of names ranges idx;
      let dispatcher := set_range dispatcher rng in
      let ds := <[idx := dispatcher]> ds in
      let '(w, r) := api_Update w dispatcher in
      match r with
      | Err e => Some (w, ds, Err ("Failed to update dispatcher with the error error " +:+ e))
      | Ok updatedDispatcher => balance_loop names ranges todo (S idx) (<[idx := updatedDispatcher]> ds) w
      end
  end.

(** (dispatcher_controller.go:200-223) *)
Definition balance (dc : DispatcherController) (w : W) : option (W * DispatcherController * result unit) :=
  if Nat.eqb (length (dispatchers dc)) 0 then Some (w, dc, Ok tt)
  else if Nat.ltb 0 (length (clusters dc)) then
    let ranges := EvenlyDivide (Z.of_nat (length (dispatchers dc))) (Z.of_nat (length (clusters dc)) - 1) in
    '(w, ds, r) ← balance_loop (clusters dc) ranges (length (dispatchers dc)) 0 (dispatchers dc) w;
    Some (w, mkDC (clusters dc) ds, r)
  else Some (w, dc, Ok tt).

(** A balance error ends the process; on success a dispatcher process is started
    (dispatcher_controller.go:96-133). *)
Definition addDispatcher (dc : DispatcherController) (d : Dispatcher) (w : W) :=
  balance (mkDC (clusters dc) (dispatchers dc ++ [d])) w.

(** (dispatcher_controller.go:135-151) *)
Definition deleteDispatcher (dc : DispatcherController) (d : Dispatcher) (w : W) :=
  let same disp := (String.eqb (Di_Namespace disp) (Di_Namespace d) && String.eqb (Di_Name disp) (Di_Name d))%bool in
  let ds := dispatchers dc in
  let ds := if existsb same ds then default ds (swap_remove ds (first_index same ds)) else ds in
  balance (mkDC (clusters dc) ds) w.

(** (dispatcher_controller.go:153-164) *)
Definition addCluster (dc : DispatcherController) (c : Cluster) (w : W) :=
  balance (mkDC (InsertIntoSortedArray (clusters dc) (C_Name c)) (dispatchers dc)) w.

(** (dispatcher_controller.go:166-177) *)
Definition deleteCluster (dc : DispatcherController) (c : Cluster) (w : W) :=
  balance (mkDC (RemoveFromSortedArray (clusters dc) (C_Name c)) (dispatchers dc)) w.

(** The informer events, each handled under the lock; a balance error is fatal,
    here [None], as a panic is (dispatcher_controller.go:179-198 RunController). *)
Inductive event := AddDispatcher (d : Dispatcher) | DeleteDispatcher (d : Dispatcher)
  | AddClusterE (c : Cluster) | DeleteClusterE (c : Cluster).

Definition handle (dc : DispatcherController) (w : W) (e : event) : option (W * DispatcherController) :=
  '(w, dc, r) ← match e with
    | AddDispatcher d => addDispatcher dc d w
    | DeleteDispatcher d => deleteDispatcher dc d w
    | AddClusterE c => addCluster dc c w
    | DeleteClusterE c => deleteCluster dc c w
    end;
  if is_ok r then Some (w, dc) else None.

Fixpoint run (dc : DispatcherController) (w : W) (es : list event) : option (W * DispatcherController) :=
  match es with
  | [] => Some (w, dc)
  | e :: es => '(w, dc) ← handle dc w e; run dc w es
  end.

(** The names of the clusters that exist after the events. *)
Fixpoint live_names (live : list string) (es : list event) : list string :=
  match es with
  | [] => live
  | AddClusterE c :: es => live_names (C_Name c :: live) es
  | DeleteClusterE c :: es => live_names (list_difference live [C_Name c]) es
  | _ :: es => live_names live es
  end.

(** Cluster names are non-empty and a cluster is added once while it lives. *)
Fixpoint fresh_names (live : list string) (es : list event) : Prop :=
  match es with
  | [] => True
  | AddClusterE c :: es => (C_Name c ≠ "")%string ∧ (C_Name c ∉ live) ∧ fresh_names (C_Name c :: live) es
  | DeleteClusterE c :: es => fresh_names (list_difference live [C_Name c]) es
  | _ :: es => fresh_names live es
  end.

(** *** Facts *)

(** The field selector of a dispatcher process: names between the two ends. *)
Definition dispatches (d : Dispatcher) (name : string) : Prop :=
  String.le (ClusterRange_Start d) name ∧ String.le name (ClusterRange_End d).

(** The API server returns the range it is given. *)
Hypothesis Hupdate : forall w d w' d', api_Update w d = (w', Ok d') ->
  ClusterRange_Start d' = ClusterRange_Start d ∧ ClusterRange_End d' = ClusterRange_End d.

Lemma dispatch_loop_spec names ranges todo idx ds w : (idx + todo = length ds)%nat ->
  (forall j, is_Some (range_of names ranges j)) ->
  ∃ w' ds' r, balance_loop names ranges todo idx ds w = Some (w', ds', r) ∧ length ds' = length ds ∧
    (forall i, (i < idx)%nat -> ds' !! i = ds !! i) ∧
    (r = Ok tt -> forall i d, (idx <= i)%nat -> ds' !! i = Some d ->
       range_of names ranges i = Some (ClusterRange_Start d, ClusterRange_End d)) ∧
    ((forall w d, is_ok (api_Update w d).2 = true) -> r = Ok tt).
Proof.
  intros Hlen Hrng. revert idx ds w Hlen. induction todo as [|todo IH]; intros idx ds w Hlen; cbn [balance_loop].
  { exists w, ds, (Ok tt). split_and!; try done. intros _ i d Hi Hd%lookup_lt_Some. lia. }
  destruct (lookup_lt_is_Some_2 ds idx ltac:(lia)) as [d Hd]. rewrite Hd. bind_simpl.
  destruct (Hrng idx) as [rng Hr]. rewrite Hr. bind_simpl.
  destruct (api_Update w (set_range d rng)) as [w1 [u|e]] eqn:Hup.
  - destruct (Hupdate _ _ _ _ Hup) as [Hs He]. rewrite list_insert_insert_eq.
    destruct (IH (S idx) (<[idx := u]> ds) w1) as (w' & ds' & r & -> & Hl & Hlo & Hhi & Hup'); [rewrite length_insert; lia|].
    rewrite length_insert in Hl. exists w', ds', r. split_and!; [done|done| | |done].
    + intros i Hi. rewrite Hlo by lia. apply list_lookup_insert_ne. lia.
    + intros Hok i d' Hi Hd'. destruct (decide (i = idx)) as [->|Hne]; [|apply (Hhi Hok); [lia|done]].
      rewrite Hlo in Hd' by lia. rewrite list_lookup_insert_eq in Hd' by lia. injection Hd' as <-.
      rewrite Hr, Hs, He. by destruct rng.
  - eexists _, _, _. split_and!; [done|by rewrite length_insert| |done|].
    + intros i Hi. apply list_lookup_insert_ne. lia.
    + intros Hall. specialize (Hall w (set_range d rng)). by rewrite Hup in Hall.
Qed.

(** In a sorted slice without repetitions, positions order names. *)
Lemma sorted_positions names i j x y : Sorted String.le names -> NoDup names ->
  names !! i = Some x -> names !! j = Some y -> (String.le x y <-> (i <= j)%nat).
Proof.
  intros Hs Hnd Hx Hy. split; [|by apply (Sorted_lookup_le names)].
  intros Hle. destruct (decide (i <= j)%nat) as [|Hn]; [done|]. exfalso.
  assert (String.le y x) as Hle' by (apply (Sorted_lookup_le names j i); [done..|lia]).
  assert (x = y) as -> by (by apply (anti_symm String.le)).
  assert (i = j) by (by eapply NoDup_lookup). lia.
Qed.

Lemma range_of_total names ranges : (forall j r, ranges !! j = Some r -> 0 <= r.1 <= r.2 ∧ r.2 < Z.of_nat (length names)) ->
  forall j, is_Some (range_of names ranges j).
Proof.
  intros Hb j. unfold range_of. destruct (ranges !! j) as [r|] eqn:Hj; [|done]. apply Hb in Hj.
  destruct (lookup_lt_is_Some_2 names (Z.to_nat r.1) ltac:(lia)) as [s ->].
  destruct (lookup_lt_is_Some_2 names (Z.to_nat r.2) ltac:(lia)) as [e ->]. done.
Qed.

(** A position is in a range exactly when its name is between the range's names. *)
Lemma range_of_dispatches names ranges j d i name : Sorted String.le names -> NoDup names -> ""%string ∉ names ->
  (forall j r, ranges !! j = Some r -> 0 <= r.1 <= r.2 ∧ r.2 < Z.of_nat (length names)) ->
  range_of names ranges j = Some (ClusterRange_Start d, ClusterRange_End d) -> names !! i = Some name ->
  (dispatches d name <-> ∃ r, ranges !! j = Some r ∧ in_range (Z.of_nat i) r).
Proof.
  intros Hs Hnd Hne Hb Hr Hi. unfold range_of in Hr. destruct (ranges !! j) as [r|] eqn:Hj.
  - destruct (names !! Z.to_nat r.1) as [s|] eqn:Es; [|done]. destruct (names !! Z.to_nat r.2) as [e|] eqn:Ee; [|done].
    simpl in Hr. injection Hr as -> ->. unfold dispatches, in_range.
    rewrite (sorted_positions names _ i _ name Hs Hnd Es Hi), (sorted_positions names i _ name _ Hs Hnd Hi Ee).
    apply Hb in Hj. split; [intros; exists r; split; [done|lia]|]. intros (r' & [= <-] & ?). lia.
  - injection Hr as Hs' He'. unfold dispatches. rewrite <- Hs', <- He'. split.
    + intros [_ Hle]. destruct Hne. replace ""%string with name; [by eapply list_elem_of_lookup_2|].
      destruct name; [done|]. by vm_compute in Hle.
    + by intros (r & ? & _).
Qed.

(** The names are sorted, distinct and non-empty. *)
Definition names_ok (names : list string) : Prop :=
  Sorted String.le names ∧ NoDup names ∧ ""%string ∉ names.

(** Every known cluster is served by exactly one dispatcher, when there is one. *)
Definition balanced (dc : DispatcherController) : Prop :=
  dispatchers dc ≠ [] -> forall name, name ∈ clusters dc ->
  ∃ k d, dispatchers dc !! k = Some d ∧ dispatches d name ∧
    forall k' d', dispatchers dc !! k' = Some d' -> dispatches d' name -> k' = k.

(** The ends of the ranges are names of clusters, or empty. *)
Definition named (dc : DispatcherController) : Prop :=
  clusters dc ≠ [] -> forall k d, dispatchers dc !! k = Some d ->
  ClusterRange_Start d ∈ ""%string :: clusters dc ∧ ClusterRange_End d ∈ ""%string :: clusters dc.

Lemma range_of_named names ranges j s e : range_of names ranges j = Some (s, e) -> s ∈ ""%string :: names ∧ e ∈ ""%string :: names.
Proof.
  unfold range_of. destruct (ranges !! j) as [r|]; [|intros [= <- <-]; by split; apply list_elem_of_here].
  destruct (names !! Z.to_nat r.1) as [s'|] eqn:Es; [|done]. destruct (names !! Z.to_nat r.2) as [e'|] eqn:Ee; [|done]. intros [= <- <-].
  split; apply list_elem_of_further; by eapply list_elem_of_lookup_2.
Qed.

(** Ranges that hold the positions hold the names, one dispatcher each. *)
Lemma balanced_of_ranges names ds size upper : names_ok names ->
  size = Z.of_nat (length ds) -> upper = Z.of_nat (length names) - 1 ->
  0 < size <= MaxInt64 -> 0 <= upper <= MaxInt64 ->
  (forall j r, EvenlyDivide size upper !! j = Some r -> 0 <= r.1 <= r.2 ∧ r.2 < Z.of_nat (length names)) ->
  (forall i d, ds !! i = Some d ->
     range_of names (EvenlyDivide size upper) i = Some (ClusterRange_Start d, ClusterRange_End d)) ->
  balanced (mkDC names ds).
Proof.
  intros (Hs & Hnd & Hne) Hsz Hup Hsize Hupper Hb Hr _ name [i Hi]%list_elem_of_lookup. cbn [clusters dispatchers] in *.
  assert (0 <= Z.of_nat i < range_start size upper (Z.of_nat (Z.to_nat (range_count size upper)))) as Hx.
  { apply lookup_lt_Some in Hi. rewrite Z2Nat.id by (unfold range_count in *; lia).
    rewrite range_start_total by done. lia. }
  apply range_containing in Hx as (k & Hk & Hki).
  destruct (lookup_lt_is_Some_2 ds k ltac:(unfold range_count in *; lia)) as [d Hdk]. exists k, d. split_and!; [done| |].
  - apply (range_of_dispatches _ _ k d i name Hs Hnd Hne Hb (Hr k d Hdk) Hi).
    eexists. split; [apply EvenlyDivide_lookup; [done..|]; split; [lia|done]|]. unfold in_range. simpl. lia.
  - intros k' d' Hk' Hd'. apply (range_of_dispatches _ _ k' d' i name Hs Hnd Hne Hb (Hr k' d' Hk') Hi) in Hd'
      as (r' & [Hk'' ->]%EvenlyDivide_lookup & Hin'); [|done|done]. unfold in_range in Hin'. simpl in Hin'.
    destruct (Z.lt_trichotomy (Z.of_nat k) (Z.of_nat k')) as [Hlt|[?|Hlt]]; [|lia|].
    + pose proof (range_start_mono size upper Hsize Hupper (Z.of_nat k + 1) (Z.of_nat k') ltac:(lia)). lia.
    + pose proof (range_start_mono size upper Hsize Hupper (Z.of_nat k' + 1) (Z.of_nat k) ltac:(lia)). lia.
Qed.

(** [balance] never panics, and on success leaves the controller balanced. *)
Lemma dispatch_balance_spec dc w : names_ok (clusters dc) ->
  Z.of_nat (length (clusters dc)) <= MaxInt64 -> Z.of_nat (length (dispatchers dc)) <= MaxInt64 ->
  ∃ w' dc' r, balance dc w = Some (w', dc', r) ∧ clusters dc' = clusters dc ∧
    length (dispatchers dc') = length (dispatchers dc) ∧ (r = Ok tt -> balanced dc' ∧ named dc') ∧
    ((forall w d, is_ok (api_Update w d).2 = true) -> r = Ok tt).
Proof.
  intros Hok Hlc Hld. unfold balance.
  destruct (Nat.eqb_spec (length (dispatchers dc)) 0) as [H0|H0].
  { exists w, dc, (Ok tt). split_and!; try done. apply nil_length_inv in H0. intros _. split; [by intros []|]. intros _ k d. by rewrite H0. }
  destruct (Nat.ltb_spec 0 (length (clusters dc))) as [Hpos|Hz].
  2: { exists w, dc, (Ok tt). split_and!; try done. intros _. assert (clusters dc = []) as Hnil by (destruct (clusters dc); simpl in *; [done|lia]).
       split; [|done]. intros _ name Hin. rewrite Hnil in Hin. by apply elem_of_nil in Hin. }
  set (size := Z.of_nat (length (dispatchers dc))). set (upper := Z.of_nat (length (clusters dc)) - 1).
  assert (0 < size <= MaxInt64) as Hsize by lia. assert (0 <= upper <= MaxInt64) as Hupper by lia.
  assert (forall j r, EvenlyDivide size upper !! j = Some r -> 0 <= r.1 <= r.2 ∧ r.2 < Z.of_nat (length (clusters dc))) as Hb.
  { intros j r [Hj ->]%EvenlyDivide_lookup; [|done|done]. simpl.
    pose proof (range_start_upper size upper Hsize Hupper (Z.of_nat j) ltac:(lia)).
    pose proof (range_start_step size upper Hsize Hupper (Z.of_nat j) ltac:(lia)). unfold upper in *. lia. }
  destruct (dispatch_loop_spec (clusters dc) (EvenlyDivide size upper) (length (dispatchers dc)) 0 (dispatchers dc) w
    eq_refl (range_of_total _ _ Hb)) as (w' & ds' & r & Hbal & Hl & _ & Hr & Hup).
  rewrite Hbal. bind_simpl. eexists _, _, r. split_and!; [done|done|done| |done].
  intros Hr0. split.
  - apply (balanced_of_ranges _ _ size upper); [done|by rewrite Hl|done|done|done|done|]. intros i d. apply (Hr Hr0). lia.
  - intros _ k d Hd. apply (range_of_named _ (EvenlyDivide size upper) k). apply (Hr Hr0); [lia|done].
Qed.

(** *** Events *)

(** What the events preserve: [live] are the clusters that exist, [n] bounds the
    sizes. *)
Definition tracks (live : list string) (n : Z) (dc : DispatcherController) : Prop :=
  names_ok (clusters dc) ∧ (forall x, x ∈ clusters dc <-> x ∈ live) ∧ (balanced dc ∧ named dc) ∧
  Z.of_nat (length (clusters dc)) <= n ∧ Z.of_nat (length (dispatchers dc)) <= n.

Lemma balance_tracks live n dc w : names_ok (clusters dc) -> (forall x, x ∈ clusters dc <-> x ∈ live) ->
  Z.of_nat (length (clusters dc)) <= n -> Z.of_nat (length (dispatchers dc)) <= n -> n <= MaxInt64 ->
  ∃ w' dc' r, balance dc w = Some (w', dc', r) ∧ (r = Ok tt -> tracks live n dc') ∧
    ((forall w d, is_ok (api_Update w d).2 = true) -> r = Ok tt).
Proof.
  intros Hok Hlive Hc Hd Hn. destruct (dispatch_balance_spec dc w Hok) as (w' & dc' & r & -> & Hc' & Hl & Hb & Hup); [lia..|].
  exists w', dc', r. split_and!; [done| |done]. intros Hr. unfold tracks. rewrite Hc', Hl. destruct (Hb Hr). by split_and!.
Qed.

Lemma names_ok_insert names x : names_ok names -> x ≠ ""%string -> x ∉ names -> names_ok (InsertIntoSortedArray names x).
Proof.
  intros (Hs & Hnd & Hne) Hx Hin. destruct (InsertIntoSortedArray_sorted names x Hs) as [Hs' Hp].
  split_and!; [done|rewrite Hp; by constructor|]. rewrite Hp, elem_of_cons. by intros [<-|].
Qed.

(** Removing a name removes it and nothing else. *)
Lemma names_ok_remove names x : names_ok names ->
  names_ok (RemoveFromSortedArray names x) ∧
  (forall y, y ∈ RemoveFromSortedArray names x <-> y ∈ names ∧ y ≠ x) ∧
  (length (RemoveFromSortedArray names x) <= length names)%nat.
Proof.
  intros (Hs & Hnd & Hne). destruct (RemoveFromSortedArray_sorted names x Hs) as (Hs' & Hin & Hout). unfold names_ok.
  destruct (decide (x ∈ names)) as [Hx|Hx].
  - specialize (Hin Hx). set (rest := RemoveFromSortedArray names x) in *.
    assert (forall y, y ∈ names <-> y = x ∨ y ∈ rest) as Helem by (intros y; rewrite Hin; apply elem_of_cons).
    rewrite Helem in Hne.
    assert (NoDup (x :: rest)) as Hnd' by by rewrite <- Hin.
    apply NoDup_cons in Hnd' as [Hx' Hnd']. split_and!; [done|done|tauto| |].
    + intros y. rewrite Helem. split; [|tauto]. intros Hy. split; [tauto|]. by intros ->.
    + rewrite (Permutation_length Hin). simpl. lia.
  - rewrite (Hout Hx) in *. split_and!; [done..| |lia]. intros y. split; [|tauto]. intros Hy. split; [done|]. by intros ->.
Qed.

(** Removing the deleted dispatcher makes the list no longer. *)
Lemma delete_length {A} (f : A -> bool) (l : list A) :
  (length (if existsb f l then default l (swap_remove l (first_index f l)) else l) <= length l)%nat.
Proof.
  destruct (existsb f l); [|done]. destruct (swap_remove l (first_index f l)) as [l'|] eqn:Hsw; [|done]. simpl.
  destruct (l !! first_index f l) as [x|] eqn:Hx; [|unfold swap_remove in Hsw; by rewrite Hx in Hsw].
  destruct (swap_remove_perm l _ x Hx) as (l'' & Hsw' & Hp). rewrite Hsw in Hsw'. injection Hsw' as <-.
  rewrite (Permutation_length Hp). simpl. lia.
Qed.

Definition live_name (live : list string) (e : event) : list string := live_names live [e].

Lemma handle_tracks live n dc w e : tracks live n dc -> n + 1 <= MaxInt64 -> fresh_names live [e] ->
  (forall w' dc', handle dc w e = Some (w', dc') -> tracks (live_name live e) (n + 1) dc') ∧
  ((forall w d, is_ok (api_Update w d).2 = true) -> is_Some (handle dc w e)).
Proof.
  intros (Hok & Hlive & _ & Hc & Hd) Hn Hfresh.
  assert (∃ dc0, names_ok (clusters dc0) ∧ (forall x, x ∈ clusters dc0 <-> x ∈ live_name live e) ∧
    Z.of_nat (length (clusters dc0)) <= n + 1 ∧ Z.of_nat (length (dispatchers dc0)) <= n + 1 ∧
    handle dc w e = ('(w, dc, r) ← balance dc0 w; if is_ok r then Some (w, dc) else None)) as (dc0 & H1 & H2 & H3 & H4 & ->).
  { unfold handle, live_name. destruct e as [d|d|c|c]; simpl in *; eexists; (split_and!; [| | | |reflexivity]); simpl.
    1-3: done || lia. 1: rewrite length_app; simpl; lia. 1-3: done || lia.
    1: match goal with |- context[existsb ?f ?l] => pose proof (delete_length f l) end; lia.
    1: by apply names_ok_insert; [done|tauto|rewrite Hlive; tauto].
    1: intros x; rewrite (proj2 (InsertIntoSortedArray_sorted _ _ (proj1 Hok))), !elem_of_cons, Hlive; done.
    1: rewrite (Permutation_length (proj2 (InsertIntoSortedArray_sorted _ _ (proj1 Hok)))); simpl; lia. 1: lia.
    all: pose proof (names_ok_remove _ (C_Name c) Hok) as (Ha & Hb & Hl); try done; try lia.
    intros x. rewrite Hb, Hlive, list_elem_of_difference, list_elem_of_singleton. done. }
  destruct (balance_tracks (live_name live e) (n + 1) dc0 w) as (w1 & dc1 & r & -> & Ht & Hup); [done..|].
  bind_simpl. split.
  - intros w' dc'. destruct r as [[]|]; simpl; [|done]. intros [= <- <-]. by apply Ht.
  - intros Hall. rewrite (Hup Hall). by eexists.
Qed.

Lemma fresh_names_cons live e es : fresh_names live (e :: es) ->
  fresh_names live [e] ∧ fresh_names (live_name live e) es.
Proof. destruct e; simpl; tauto. Qed.

Lemma run_tracks es : forall live n dc w, tracks live n dc -> n + Z.of_nat (length es) <= MaxInt64 ->
  fresh_names live es ->
  (forall w' dc', run dc w es = Some (w', dc') -> tracks (live_names live es) (n + Z.of_nat (length es)) dc') ∧
  ((forall w d, is_ok (api_Update w d).2 = true) -> is_Some (run dc w es)).
Proof.
  induction es as [|e es IH]; intros live n dc w Ht Hn Hf.
  { simpl. split; [|by eexists]. intros w' dc' [= <- <-]. by rewrite Z.add_0_r. }
  cbn [length] in *. apply fresh_names_cons in Hf as [Hf1 Hf2].
  destruct (handle_tracks live n dc w e Ht ltac:(lia) Hf1) as [H1 H2]. cbn [run].
  replace (live_names live (e :: es)) with (live_names (live_name live e) es) by by destruct e.
  replace (n + Z.of_nat (S (length es))) with (n + 1 + Z.of_nat (length es)) in * by lia. split.
  - intros w' dc' Hrun. destruct (handle dc w e) as [[w1 dc1]|] eqn:Hh; [|done]. bind_simpl in Hrun.
    by apply (IH _ (n + 1) dc1 w1 (H1 _ _ eq_refl) ltac:(lia) Hf2) in Hrun.
  - intros Hall. destruct (H2 Hall) as [[w1 dc1] Hh]. rewrite Hh in *. bind_simpl.
    by apply (IH _ (n + 1) dc1 w1 (H1 _ _ eq_refl)).
Qed.

(** Starting without dispatchers and clusters, after any sequence of informer
    events the controller knows exactly the clusters that exist, and whenever there
    is a dispatcher each of them lies in the cluster range of exactly one
    dispatcher; when the API server accepts the updates no event fails. *)
Theorem clusters_are_partitioned es w : fresh_names [] es -> Z.of_nat (length es) <= MaxInt64 ->
  (forall w' dc', run (mkDC [] []) w es = Some (w', dc') ->
     (forall x, x ∈ clusters dc' <-> x ∈ live_names [] es) ∧
     (dispatchers dc' ≠ [] -> forall name, name ∈ live_names [] es ->
        ∃ k d, dispatchers dc' !! k = Some d ∧ dispatches d name ∧
          forall k' d', dispatchers dc' !! k' = Some d' -> dispatches d' name -> k' = k)) ∧
  ((forall w d, is_ok (api_Update w d).2 = true) -> is_Some (run (mkDC [] []) w es)).
Proof.
  intros Hf Hn. assert (tracks [] 0 (mkDC [] [])) as Ht by (unfold tracks, names_ok; cbn;
    split_and!; [apply Sorted_nil|apply NoDup_nil_2|apply not_elem_of_nil|done|by intros []|done|done|done]).
  destruct (run_tracks es [] 0 (mkDC [] []) w Ht Hn Hf) as [H1 H2]. split; [|done].
  intros w' dc' (_ & Hlive & [Hb _] & _)%H1. split; [done|]. intros Hd name Hin. by apply Hb, Hlive.
Qed.
End Controller.

(** An API server that stores nothing and accepts every update. *)
Definition accept (w : unit) (d : Dispatcher) : unit * result Dispatcher := (w, Ok d).

Definition demo_events : list event :=
  [AddClusterE (demo_cluster "us" "w" "ca" "sf" "c2" 1); AddDispatcher (mkDispatcher "d0" "default" "" "");
   AddDispatcher (mkDispatcher "d1" "default" "" ""); AddClusterE (demo_cluster "us" "w" "ca" "sf" "c1" 1);
   AddClusterE (demo_cluster "us" "w" "ca" "sf" "c3" 1)].

Lemma clusters_are_partitioned_witness :
  (fun p => (fun d => (ClusterRange_Start d, ClusterRange_End d)) <$> dispatchers p.2) <$>
    run accept (mkDC [] []) tt demo_events = Some [("c1", "c2"); ("c3", "c3")]%string ∧
  is_Some (run accept (mkDC [] []) tt demo_events).
Proof.
  split; [vm_compute; reflexivity|]. apply (clusters_are_partitioned accept).
  - intros w d w' d' [= <- <-]. done.
  - cbn. rewrite !not_elem_of_cons. split_and!; done || apply not_elem_of_nil.
  - vm_compute. done.
  - done.
Defined.
End Dispatchers.

(** ** Distributors *)

Module Distributors.

(** [d.Spec.Range = ...], written into the lister's own object. *)
Definition set_range (d : Distributor) (r : Z * Z) : Distributor :=
  mkDistributor (Ds_Name d) (Ds_Namespace d) r.1 r.2.

Section Controller.
(** The API server and its update call. *)
Context {W : Type} (api_Update : W -> Distributor -> W * result Distributor).

(** The loop from index [i] on; the first failing update ends it, leaving the
    later distributors as they are (distributor_controller.go:308-317 rebalance). *)
Fixpoint rebalance_loop (ranges : list (Z * Z)) (i : nat) (ds : list Distributor) (w : W) :
    option (W * list Distributor * result unit) :=
  match ds with
  | [] => Some (w, [], Ok tt)
  | d :: ds =>
      r ← ranges !! i;
      let d := set_range d r in
      let '(w, updated) := api_Update w d in
      match updated with
      | Err e => Some (w, d :: ds, Err e)
      | Ok _ => '(w, ds, res) ← rebalance_loop ranges (S i) ds w; Some (w, d :: ds, res)
      end
  end.

(** [listed] is what the lister returns; the result carries the listed objects
    after the change (distributor_controller.go:296-320). *)
Definition rebalance (listed : result (list Distributor)) (w : W) : option (W * list Distributor * result unit) :=
  match listed with
  | Err e => Some (w, [], Err e)
  | Ok distributors =>
      if Nat.ltb (length distributors) 1 then Some (w, distributors, Ok tt)
      else rebalance_loop (EvenlyDivide (Z.of_nat (length distributors)) MaxInt64) 0 distributors w
  end.

(** [None] when the process ends, by a panic or by [klog.Fatalf]
    (distributor_controller.go:189-230). *)
Definition syncHandlerAndUpdate (got : result (option Distributor)) (listed : result (list Distributor)) (w : W) :
    option (W * list Distributor * result unit) :=
  match got with
  | Err e => Some (w, default [] (match listed with Ok l => Some l | Err _ => None end), Err e)
  | Ok None => Some (w, default [] (match listed with Ok l => Some l | Err _ => None end), Ok tt)
  | Ok (Some _) =>
      '(w, ds, r) ← rebalance listed w;
      if is_ok r then Some (w, ds, Ok tt) else None
  end.

(** The error of the rebalance is dropped (distributor_controller.go:322-334). *)
Definition deleteDistributor (listed : result (list Distributor)) (w : W) : option (W * list Distributor) :=
  '(w, ds, _) ← rebalance listed w; Some (w, ds).

(** *** Facts *)

Lemma rebalance_loop_spec ranges ds : forall i w, (i + length ds <= length ranges)%nat ->
  ∃ w' ds' r, rebalance_loop ranges i ds w = Some (w', ds', r) ∧ Ds_Name <$> ds' = Ds_Name <$> ds ∧
    (r = Ok tt -> forall k d, ds' !! k = Some d -> ranges !! (i + k)%nat = Some (Range_Start d, Range_End d)) ∧
    ((forall w d, is_ok (api_Update w d).2 = true) -> r = Ok tt).
Proof.
  induction ds as [|d ds IH]; intros i w Hlen; cbn [rebalance_loop length] in *.
  { exists w, [], (Ok tt). by split_and!. }
  destruct (lookup_lt_is_Some_2 ranges i ltac:(lia)) as [rng Hr]. rewrite Hr. bind_simpl.
  destruct (api_Update w (set_range d rng)) as [w1 [u|e]] eqn:Hup.
  - destruct (IH (S i) w1 ltac:(lia)) as (w' & ds' & r & -> & Hn & Hrng & Hall). bind_simpl.
    exists w', (set_range d rng :: ds'), r. split_and!; [done|csimpl; by rewrite Hn| |done].
    intros Hok [|k] d'; simpl; [intros [= <-]; rewrite Nat.add_0_r, Hr; by destruct rng|].
    intros Hk. rewrite <- (Hrng Hok k d' Hk). f_equal. lia.
  - eexists _, _, _. split_and!; [done|done|done|]. intros Hall. specialize (Hall w (set_range d rng)). by rewrite Hup in Hall.
Qed.

(** The ranges of the distributors lie one behind the other and fill the non-negative
    numbers. *)
Definition divided (ds : list Distributor) : Prop := let size := Z.of_nat (length ds) in
  0 < size <= MaxInt64 ∧ forall k d, ds !! k = Some d ->
    Range_Start d = range_start size MaxInt64 (Z.of_nat k) ∧ Range_End d = range_start size MaxInt64 (Z.of_nat k + 1) - 1.

Lemma rebalance_divides ds w : ds ≠ [] -> Z.of_nat (length ds) <= MaxInt64 ->
  ∃ w' ds' r, rebalance (Ok ds) w = Some (w', ds', r) ∧ Ds_Name <$> ds' = Ds_Name <$> ds ∧ (r = Ok tt -> divided ds') ∧
    ((forall w d, is_ok (api_Update w d).2 = true) -> r = Ok tt).
Proof.
  intros Hne Hn. cbn [rebalance]. destruct (Nat.ltb_spec (length ds) 1) as [H0|Hpos]; [destruct ds; simpl in *; [done|lia]|].
  set (size := Z.of_nat (length ds)). assert (0 < size <= MaxInt64) as Hsize by lia.
  assert (0 <= MaxInt64 <= MaxInt64) as Hup by done. pose proof (EvenlyDivide_length size MaxInt64 Hsize Hup) as Hlen.
  unfold range_count in Hlen. rewrite Z.min_l in Hlen by lia.
  destruct (rebalance_loop_spec (EvenlyDivide size MaxInt64) ds 0 w ltac:(lia)) as (w' & ds' & r & -> & Hnames & Hr & Hall).
  exists w', ds', r. split_and!; [done|done| |done]. intros Hok.
  assert (length ds' = length ds) as Hl by (rewrite <- (length_fmap Ds_Name ds'), Hnames; apply length_fmap).
  specialize (Hr Hok). cbn [Nat.add] in Hr. unfold divided. rewrite Hl. split; [done|].
  intros k d [_ Heq]%Hr%EvenlyDivide_lookup; [|done|done]. by injection Heq as -> ->.
Qed.

Lemma divided_partition ds h : divided ds -> 0 <= h <= MaxInt64 -> ∃ k d, ds !! k = Some d ∧ Range_Start d <= h <= Range_End d ∧
  forall k' d', ds !! k' = Some d' -> Range_Start d' <= h <= Range_End d' -> k' = k.
Proof.
  intros [Hsize Hrd] Hh. set (size := Z.of_nat (length ds)) in *. assert (0 <= MaxInt64 <= MaxInt64) as Hup by done.
  destruct (range_containing size MaxInt64 (length ds) h) as (k & Hk & Hkh).
  { replace (Z.of_nat (length ds)) with (range_count size MaxInt64) by (unfold range_count; lia).
    rewrite range_start_total by done. lia. }
  destruct (lookup_lt_is_Some_2 ds k ltac:(lia)) as [d Hd]. exists k, d. destruct (Hrd k d Hd) as [Hs He].
  split_and!; [done|lia|lia|]. intros k' d' Hd' Hin. destruct (Hrd k' d' Hd') as [Hs' He'].
  destruct (Z.lt_trichotomy (Z.of_nat k) (Z.of_nat k')) as [Hlt|[?|Hlt]]; [|lia|].
  - pose proof (range_start_mono size MaxInt64 Hsize Hup (Z.of_nat k + 1) (Z.of_nat k') ltac:(lia)). lia.
  - pose proof (range_start_mono size MaxInt64 Hsize Hup (Z.of_nat k' + 1) (Z.of_nat k) ltac:(lia)). lia.
Qed.

Lemma divided_bounds ds k d : divided ds -> ds !! k = Some d -> 0 <= Range_Start d <= MaxInt64 ∧ 0 <= Range_End d <= MaxInt64.
Proof.
  intros [Hsize Hrd] Hd. destruct (Hrd k d Hd) as [-> ->]. apply lookup_lt_Some in Hd. set (size := Z.of_nat (length ds)) in *.
  assert (0 <= MaxInt64 <= MaxInt64) as Hup by done.
  pose proof (range_start_upper size MaxInt64 Hsize Hup (Z.of_nat k) ltac:(unfold range_count; lia)).
  pose proof (range_start_step size MaxInt64 Hsize Hup (Z.of_nat k) ltac:(unfold range_count; lia)). lia.
Qed.

(** A rebalance of at least one distributor never panics, changes no
    distributor's identity, and on success gives every pod hash key to exactly one
    distributor; it succeeds when the API server accepts the updates. *)
Theorem hash_keys_are_partitioned ds w : ds ≠ [] -> Z.of_nat (length ds) <= MaxInt64 ->
  ∃ w' ds' r, rebalance (Ok ds) w = Some (w', ds', r) ∧ Ds_Name <$> ds' = Ds_Name <$> ds ∧
    (r = Ok tt -> forall h, 0 <= h <= MaxInt64 ->
       ∃ k d, ds' !! k = Some d ∧ Range_Start d <= h <= Range_End d ∧
         forall k' d', ds' !! k' = Some d' -> Range_Start d' <= h <= Range_End d' -> k' = k) ∧
    ((forall w d, is_ok (api_Update w d).2 = true) -> r = Ok tt).
Proof.
  intros Hne Hn. destruct (rebalance_divides ds w Hne Hn) as (w' & ds' & r & -> & Hnames & Hdiv & Hall). exists w', ds', r. split_and!; [done|done| |done].
  intros Hok h. by apply divided_partition, Hdiv.
Qed.
End Controller.

Definition demo_distributors : list Distributor :=
  [mkDistributor "a" "default" 0 0; mkDistributor "b" "default" 0 0].

Lemma hash_keys_are_partitioned_witness :
  ∃ w' ds' r, rebalance (fun w d => (w, Ok d)) (Ok demo_distributors) tt = Some (w', ds', r) ∧
    Ds_Name <$> ds' = ["a"; "b"]%string.
Proof.
  destruct (hash_keys_are_partitioned (fun w d => (w, Ok d)) demo_distributors tt) as (w' & ds' & r & Heq & Hn & _);
    [done|vm_compute; done|]. exists w', ds', r. by split.
Defined.
End Distributors.
