(* ===== verification/Openstack.v ===== *)
(** * The OpenStack client

    Models [globalscheduler/controllers/util/openstack/openstack.go]: the requests
    that are sent to a cluster's compute and identity services and how their
    responses are read.  The parser of addresses and the HTTP transport with the service
    behind it are parameters.  A panic of the Go code is [None] of the monad [M]. *)
From S2P Require Import Prelude ApiTypes.

Local Open Scope Z_scope.
#[local] Set Warnings "-register-all".

(** ** Computations with a world and panics *)

(** A computation over the state [S] that may panic. *)
Definition M (S A : Type) : Type := S -> option (A * S).
#[export] Instance M_ret S : MRet (M S) := fun A x s => Some (x, s).
#[export] Instance M_bind S : MBind (M S) := fun A B f m s => '(x, s) ← m s; f x s.
Definition panic {S A} : M S A := fun _ => None.
(** The value of an option, a panic when there is none. *)
Definition must {S A} (o : option A) : M S A := fun s => x ← o; Some (x, s).

(** ** Messages *)

(** A decoded JSON value. *)
Inductive json := JNull | JString (s : string) | JObject (fields : list (string * json)) | JOther.

(** The member of a decoded object, [nil] when it is missing;
    the last of equal names counts. *)
Definition member (fields : list (string * json)) (key : string) : json :=
  match list_find (fun kv => kv.1 = key) (reverse fields) with Some (_, (_, v)) => v | None => JNull end.

(** (openstack.go:30-39) *)
Record server := mkServer {
  Name : string; ImageRef : string; FlavorRef : string; Networks : list (gmap string string);
  SecurityGroups : list (gmap string string); Metadata : gmap string string }.

Inductive body := NoBody | TokenJson | ServerJson (s : server).

Record request := mkRequest { Method : string; URL : string; Header : gmap string string; Body : body }.

(** [RespBody] is the decoded object, [None] when the body does not decode to one. *)
Record response := mkResponse {
  StatusCode : Z; SubjectToken : list string; RespBody : option (list (string * json)) }.

Definition StatusOK : Z := 200.
Definition StatusCreated : Z := 201.
Definition StatusNoContent : Z := 204.
Definition StatusForbidden : Z := 403.

(** ** Operations *)

Section Client.
(** Whether [http.NewRequest] takes an address, and the transport with the service: [Err] is
    a transport error, without a response. *)
Context {W : Type} (NewRequest : string -> bool) (http_Do : request -> W -> result response * W).

(** The error of [http.NewRequest] is dropped: for an address that it refuses the request is
    nil, and setting its header panics. *)
Definition Do (req : request) : M W (result response) := fun w => if NewRequest (URL req) then Some (http_Do req w) else None.

Definition servers_url (host : string) : string := "http://" +:+ host +:+ "/compute/v2.1/servers".
Definition tokens_url (host : string) : string := "http://" +:+ host +:+ "/identity/v3/auth/tokens".

(** (openstack.go:51-70) *)
Definition DeleteInstance (host authToken instanceID : string) : M W (result unit) :=
  resp ← Do (mkRequest "DELETE" (servers_url host +:+ "/" +:+ instanceID) {["X-Auth-Token"%string := authToken]} NoBody);
  mret (match resp with
        | Err e => Err e
        | Ok resp => if StatusCode resp =? StatusNoContent then Ok tt else Err "bad request for HTTP DELETE instance request"
        end).

(** Reading the response of a creation; a server that is not an object or an id
    that is not a string fails its type assertion (openstack.go:110-129 ServerCreate). *)
Definition read_created (resp : result response) : M W (result string) :=
  match resp with
  | Err e => mret (Err e)
  | Ok resp =>
      match RespBody resp with
      | None => mret (Err "unmarshal")
      | Some fields =>
          if StatusCode resp =? StatusForbidden then mret (Err "instance capacity has reached its limit")
          else match member fields "server" with
               | JNull => mret (Err "bad request for server create")
               | JObject serverResponse =>
                   match member serverResponse "id" with JString instanceID => mret (Ok instanceID) | _ => panic end
               | _ => panic
               end
      end
  end.

Definition create_request (host authToken : string) (s : server) : request :=
  mkRequest "POST" (servers_url host) {["Content-Type"%string := "application/json"%string; "X-Auth-Token"%string := authToken]} (ServerJson s).

(** The first flavor and the first network interface are taken unchecked
    (openstack.go:81-130). *)
Definition ServerCreate (host authToken : string) (manifest : Pod) : M W (result string) :=
  flavor ← must (P_FlavorIDs manifest !! 0%nat);
  nic ← must (P_Nics manifest !! 0%nat);
  let serverStruct := mkServer (P_VMName manifest) (P_Image manifest) flavor [{["uuid"%string := nic]}]
    [{["name"%string := P_SecurityGroupId manifest]}] {["ClusterName"%string := P_ClusterName manifest]} in
  resp ← Do (create_request host authToken serverStruct);
  read_created resp.

(** A failed request leaves no response, whose body is closed all the same
    (openstack.go:141-160). *)
Definition TokenExpired (host authToken : string) : M W bool :=
  resp ← Do (mkRequest "HEAD" (tokens_url host)
    {["X-Auth-Token"%string := authToken; "X-Subject-Token"%string := authToken]} NoBody);
  match resp with
  | Err _ => panic
  | Ok resp => mret (negb (StatusCode resp =? StatusOK))
  end.

(** (openstack.go:169-198) *)
Definition RequestToken (host : string) : M W (result string) :=
  resp ← Do (mkRequest "POST" (tokens_url host) {["Content-Type"%string := "application/json"%string]} TokenJson);
  match resp with
  | Err e => mret (Err e)
  | Ok resp =>
      if StatusCode resp =? StatusCreated then t ← must (SubjectToken resp !! 0%nat); mret (Ok t)
      else mret (Err "instance capacity has reached its limit")
  end.

(** (openstack.go:210-258) *)
Definition ServerCreateResources (host authToken clusterName : string) (manifest : Alloc.Resources) : M W (result string) :=
  flavor ← must (Alloc.Flavors manifest !! 0%nat);
  let serverStruct := mkServer (Alloc.R_Name manifest) (Alloc.Image (Alloc.VM manifest)) (Alloc.FlavorId flavor)
    [{["uuid"%string := Alloc.NicName (Alloc.VM manifest)]}]
    [{["name"%string := Alloc.SecurityGroupId (Alloc.VM manifest)]}] {["ClusterName"%string := clusterName]} in
  resp ← Do (create_request host authToken serverStruct);
  read_created resp.
End Client.
