(* ===== verification/DispatcherProcess.v ===== *)
(** * The dispatcher process

    Models [globalscheduler/controllers/dispatcher/dispatcher_process.go]: sending
    bound pods and allocations to the OpenStack service of their cluster, with
    the caches of host addresses and tokens and the latency counters.  Goroutines
    that the handlers start run where they are started; the handlers share no
    state that depends on their interleaving except the counters.  The theorems show
    that a failed allocation is rolled back, what phase an allocation or a pod ends
    in, and that deleting an allocation before any pod divides by zero. *)
From S2P Require Import Prelude ApiTypes Openstack.

Local Open Scope Z_scope.

(** The mutable fields of the process (dispatcher_process.go:42-59). *)
Record Process := mkProcess {
  p_name : string; clusterIpMap : gmap string string; tokenMap : gmap string string;
  totalCreateLatency : Z; totalDeleteLatency : Z; totalPodCreateNum : Z; totalPodDeleteNum : Z;
  totalAllocationCreateNum : Z; totalAllocationDeleteNum : Z }.

Definition set_ip (p : Process) (m : gmap string string) : Process :=
  mkProcess (p_name p) m (tokenMap p) (totalCreateLatency p) (totalDeleteLatency p) (totalPodCreateNum p)
    (totalPodDeleteNum p) (totalAllocationCreateNum p) (totalAllocationDeleteNum p).
Definition set_tokens (p : Process) (m : gmap string string) : Process :=
  mkProcess (p_name p) (clusterIpMap p) m (totalCreateLatency p) (totalDeleteLatency p) (totalPodCreateNum p)
    (totalPodDeleteNum p) (totalAllocationCreateNum p) (totalAllocationDeleteNum p).
(** The six counters at once. *)
Definition set_totals (p : Process) (cl dl pc pd ac ad : Z) : Process :=
  mkProcess (p_name p) (clusterIpMap p) (tokenMap p) cl dl pc pd ac ad.

(** Go's integer division, which panics on zero. *)
Definition quot64 {S} (a b : Z) : M S Z := if b =? 0 then panic else mret (wrap64 (Z.quot a b)).

(** [(now - then) / 1000000], milliseconds from nanoseconds. *)
Definition latency (now since : Z) : Z := Z.quot (wrap64 (now - since)) 1000000.

Definition set_pod_status (pod : Pod) (phase dispatcher instance : string) : Pod :=
  mkPod (P_Name pod) (P_Namespace pod) (P_CreationTime pod) (P_DeletionTime pod) (P_ResourceType pod) (P_GeoLocation pod)
    (P_ClusterName pod) (P_VMName pod) (P_Image pod) (P_FlavorIDs pod) (P_Nics pod) (P_SecurityGroupId pod)
    phase dispatcher instance.

Definition set_phase (a : Alloc.Allocation) (ph : Alloc.AllocationPhase) (dispatcher : string) : Alloc.Allocation :=
  let st := Alloc.Status a in
  Alloc.mkAllocation (Alloc.A_Name a) (Alloc.A_Namespace a) (Alloc.A_Tenant a) (Alloc.CreationTime a) (Alloc.DeletionTime a)
    (Alloc.GroupName a) (Alloc.GroupResources a) (Alloc.A_Selector a) (Alloc.Replicas a)
    (Alloc.mkStatus ph (Alloc.DistributorName st) dispatcher (Alloc.SchedulerName st) (Alloc.ClusterNames st)).

Definition set_resources (a : Alloc.Allocation) (rs : list Alloc.Resources) : Alloc.Allocation :=
  Alloc.mkAllocation (Alloc.A_Name a) (Alloc.A_Namespace a) (Alloc.A_Tenant a) (Alloc.CreationTime a) (Alloc.DeletionTime a)
    (Alloc.GroupName a) rs (Alloc.A_Selector a) (Alloc.Replicas a) (Alloc.Status a).

Definition set_instances (r : Alloc.Resources) (cis : list Alloc.ClusterInstance) : Alloc.Resources :=
  Alloc.mkResources (Alloc.R_Name r) (Alloc.ResourceType r) (Alloc.Flavors r) (Alloc.Storage r) (Alloc.NeedEip r)
    (Alloc.mkVM (Alloc.Image (Alloc.VM r)) (Alloc.SecurityGroupId (Alloc.VM r)) (Alloc.NicName (Alloc.VM r)) cis).

Section Process.
(** The surroundings: addresses and HTTP transport, the clusters, pods and allocations of the API
    server, and the clock. *)
Context {W : Type}.
Context (NewRequest : string -> bool) (http_Do : request -> W -> result response * W).
Context (api_Cluster : string -> W -> result Cluster * W).
Context (api_Clusters : W -> result (list Cluster) * W).
Context (api_UpdatePod : Pod -> W -> result unit * W).
Context (api_UpdateAlloc : Alloc.Allocation -> W -> result unit * W).
Context (time_Now : W -> Z * W).

Record St := mkSt { world : W; proc : Process }.

Definition get_p : M St Process := fun s => Some (proc s, s).
Definition put_p (p : Process) : M St unit := fun s => Some (tt, mkSt (world s) p).
(** A step of the surroundings. *)
Definition env {A} (f : W -> A * W) : M St A := fun s => let '(x, w) := f (world s) in Some (x, mkSt w (proc s)).
(** A call of the OpenStack client. *)
Definition openstack {A} (m : M W A) : M St A := fun s => '(x, w) ← m (world s); Some (x, mkSt w (proc s)).

(** (dispatcher_process.go:306-316) *)
Definition getToken (ip : string) : M St (result string) :=
  p ← get_p;
  match tokenMap p !! ip with
  | Some token => mret (Ok token)
  | None =>
      token ← openstack (RequestToken NewRequest http_Do ip);
      match token with
      | Err e => mret (Err e)
      | Ok token => put_p (set_tokens p (<[ip := token]> (tokenMap p))) ;; mret (Ok token)
      end
  end.

(** (dispatcher_process.go:318-328) *)
Definition getHostIP (clusterName : string) : M St (result string) :=
  p ← get_p;
  match clusterIpMap p !! clusterName with
  | Some ipAddress => mret (Ok ipAddress)
  | None =>
      cluster ← env (api_Cluster clusterName);
      match cluster with
      | Err e => mret (Err e)
      | Ok cluster =>
          put_p (set_ip p (<[clusterName := C_IpAddress cluster]> (clusterIpMap p))) ;; mret (Ok (C_IpAddress cluster))
      end
  end.

(** Both lookups, as every handler makes them. *)
Definition host_and_token (clusterName : string) : M St (option (string * string)) :=
  host ← getHostIP clusterName;
  match host with
  | Err _ => mret None
  | Ok host =>
      token ← getToken host;
      match token with Err _ => mret None | Ok token => mret (Some (host, token)) end
  end.

(** One tick; [order] is the order in which the map is visited
    (dispatcher_process.go:332-339 refreshToken). *)
Fixpoint refresh_tokens (order : list (string * string)) : M St unit :=
  match order with
  | [] => mret tt
  | (ip, token) :: order =>
      expired ← openstack (TokenExpired NewRequest http_Do ip token);
      match expired with
      | true =>
         newToken ← openstack (RequestToken NewRequest http_Do ip);
         match newToken with
         | Ok newToken => p ← get_p; put_p (set_tokens p (<[ip := newToken]> (tokenMap p)))
         | Err _ => mret tt
         end
      | false => mret tt
      end ;;
      refresh_tokens order
  end.
(** (dispatcher_process.go:330-341) *)
Definition refreshToken (range : gmap string string -> list (string * string)) : M St unit :=
  p ← get_p; refresh_tokens (range (tokenMap p)).

(** (dispatcher_process.go:348-353 init) *)
Fixpoint init_clusters (items : list Cluster) : M St unit :=
  match items with
  | [] => mret tt
  | cluster :: items =>
      p ← get_p; put_p (set_ip p (<[C_Name cluster := C_IpAddress cluster]> (clusterIpMap p))) ;;
      getToken (C_IpAddress cluster) ;;
      init_clusters items
  end.
(** A failed listing yields an empty list of items (dispatcher_process.go:343-354). *)
Definition init : M St unit :=
  clusters ← env api_Clusters;
  init_clusters (match clusters with Ok items => items | Err _ => [] end).

(** ** Pods *)

(** The counters and the average of a deletion (dispatcher_process.go:244-256 SendPodToCluster). *)
Definition count_pod_delete (since : Z) : M St Z :=
  p ← get_p;
  let p := set_totals p (totalCreateLatency p) (totalDeleteLatency p) (totalPodCreateNum p)
    (wrap64 (totalPodDeleteNum p + 1)) (totalAllocationCreateNum p) (totalAllocationDeleteNum p) in
  put_p p ;;
  currentTime ← env time_Now;
  let p := set_totals p (totalCreateLatency p) (wrap64 (totalDeleteLatency p + latency currentTime since)) (totalPodCreateNum p)
    (totalPodDeleteNum p) (totalAllocationCreateNum p) (totalAllocationDeleteNum p) in
  put_p p ;; quot64 (totalDeleteLatency p) (totalPodDeleteNum p).

(** (dispatcher_process.go:267-280 SendPodToCluster) *)
Definition count_pod_create (since : Z) : M St Z :=
  p ← get_p;
  let p := set_totals p (totalCreateLatency p) (totalDeleteLatency p) (wrap64 (totalPodCreateNum p + 1))
    (totalPodDeleteNum p) (totalAllocationCreateNum p) (totalAllocationDeleteNum p) in
  put_p p ;;
  currentTime ← env time_Now;
  let p := set_totals p (wrap64 (totalCreateLatency p + latency currentTime since)) (totalDeleteLatency p) (totalPodCreateNum p)
    (totalPodDeleteNum p) (totalAllocationCreateNum p) (totalAllocationDeleteNum p) in
  put_p p ;; quot64 (totalCreateLatency p) (totalPodCreateNum p).

(** The pod as it is left (dispatcher_process.go:230-304). *)
Definition SendPodToCluster (pod : Pod) : M St Pod :=
  ht ← host_and_token (P_ClusterName pod);
  match ht with
  | None => mret pod
  | Some (host, token) =>
      p ← get_p;
      let pod := set_pod_status pod (P_Phase pod) (p_name p) (P_ClusterInstanceId pod) in
      match P_DeletionTime pod with
      | Some podDeleteTime =>
          count_pod_delete podDeleteTime ;;
          openstack (DeleteInstance NewRequest http_Do host token (P_ClusterInstanceId pod)) ;;
          mret pod
      | None =>
          count_pod_create (P_CreationTime pod) ;;
          instanceId ← openstack (ServerCreate NewRequest http_Do host token pod);
          match instanceId with
          | Ok instanceId =>
              let pod := set_pod_status pod "Scheduled" (P_DispatcherName pod) instanceId in
              env (api_UpdatePod pod) ;; mret pod
          | Err _ =>
              let pod := set_pod_status pod "Failed" (P_DispatcherName pod) (P_ClusterInstanceId pod) in
              env (api_UpdatePod pod) ;; mret pod
          end
      end
  end.

(** ** Allocations *)

(** The instances of one resource, in order; the first failure ends the creation.
    The created ids are stored in the allocation (dispatcher_process.go:409-428
    isAllAllocationResourcesCreated). *)
Fixpoint create_instances (resource : Alloc.Resources) (cis : list Alloc.ClusterInstance) :
    M St (list Alloc.ClusterInstance * bool) :=
  match cis with
  | [] => mret ([], true)
  | ci :: cis' =>
      ht ← host_and_token (Alloc.ClusterName ci);
      match ht with
      | None => mret (cis, false)
      | Some (host, token) =>
          instanceId ← openstack (ServerCreateResources NewRequest http_Do host token (Alloc.ClusterName ci) resource);
          match instanceId with
          | Err _ => mret (cis, false)
          | Ok instanceId =>
              rest ← create_instances resource cis';
              mret (Alloc.mkCI (Alloc.ClusterName ci) instanceId :: rest.1, rest.2)
          end
      end
  end.

(** (dispatcher_process.go:408-430 isAllAllocationResourcesCreated) *)
Fixpoint create_resources (rs : list Alloc.Resources) : M St (list Alloc.Resources * bool) :=
  match rs with
  | [] => mret ([], true)
  | resource :: rs' =>
      r ← create_instances resource (Alloc.ClusterInstances (Alloc.VM resource));
      match r.2 with
      | false => mret (set_instances resource r.1 :: rs', false)
      | true => rest ← create_resources rs'; mret (set_instances resource r.1 :: rest.1, rest.2)
      end
  end.

(** (dispatcher_process.go:407-431) *)
Definition isAllAllocationResourcesCreated (alloc : Alloc.Allocation) : M St (Alloc.Allocation * bool) :=
  r ← create_resources (Alloc.GroupResources alloc);
  mret (set_resources alloc r.1, r.2).

(** The instances of the resources, in the order they are visited; an instance
    without an id is passed over, a failing lookup ends the deletion
    (dispatcher_process.go:435-464 deleteAllocationResources). *)
Fixpoint delete_instances (cis : list Alloc.ClusterInstance) : M St unit :=
  match cis with
  | [] => mret tt
  | ci :: cis =>
      if String.eqb (Alloc.InstanceId ci) "" then delete_instances cis
      else
        ht ← host_and_token (Alloc.ClusterName ci);
        match ht with
        | None => mret tt
        | Some (host, token) =>
            openstack (DeleteInstance NewRequest http_Do host token (Alloc.InstanceId ci)) ;;
            delete_instances cis
        end
  end.

Definition instances (rs : list Alloc.Resources) : list Alloc.ClusterInstance :=
  rs ≫= fun r => Alloc.ClusterInstances (Alloc.VM r).

(** (dispatcher_process.go:433-466) *)
Definition deleteAllocationResources (alloc : Alloc.Allocation) : M St unit :=
  delete_instances (instances (Alloc.GroupResources alloc)).

(** The allocation as it is left; its average delete latency is taken over the
    deleted pods (dispatcher_process.go:356-406). *)
Definition SendAllocationToCluster (alloc : Alloc.Allocation) : M St Alloc.Allocation :=
  p ← get_p;
  let alloc := set_phase alloc (Alloc.Phase (Alloc.Status alloc)) (p_name p) in
  match Alloc.DeletionTime alloc with
  | Some allocDeleteTime =>
      put_p (set_totals p (totalCreateLatency p) (totalDeleteLatency p) (totalPodCreateNum p) (totalPodDeleteNum p)
        (totalAllocationCreateNum p) (wrap64 (totalAllocationDeleteNum p + 1))) ;;
      deleteAllocationResources alloc ;;
      currentTime ← env time_Now;
      p ← get_p;
      let p := set_totals p (totalCreateLatency p) (wrap64 (totalDeleteLatency p + latency currentTime allocDeleteTime))
        (totalPodCreateNum p) (totalPodDeleteNum p) (totalAllocationCreateNum p) (totalAllocationDeleteNum p) in
      put_p p ;;
      quot64 (totalDeleteLatency p) (totalPodDeleteNum p) ;;
      put_p (set_totals p (totalCreateLatency p) (totalDeleteLatency p) (totalPodCreateNum p) (totalPodDeleteNum p)
        (wrap64 (totalAllocationCreateNum p + 1)) (totalAllocationDeleteNum p)) ;;
      mret alloc
  | None =>
      let p := set_totals p (totalCreateLatency p) (totalDeleteLatency p) (totalPodCreateNum p) (totalPodDeleteNum p)
        (wrap64 (totalAllocationCreateNum p + 1)) (totalAllocationDeleteNum p) in
      put_p p ;;
      currentTime ← env time_Now;
      let p := set_totals p (wrap64 (totalCreateLatency p + latency currentTime (Alloc.CreationTime alloc)))
        (totalDeleteLatency p) (totalPodCreateNum p) (totalPodDeleteNum p) (totalAllocationCreateNum p) (totalAllocationDeleteNum p) in
      put_p p ;;
      quot64 (totalCreateLatency p) (totalAllocationCreateNum p) ;;
      r ← isAllAllocationResourcesCreated alloc;
      match r.2 with
      | true =>
          let alloc := set_phase r.1 Alloc.AllocationScheduled (p_name p) in
          env (api_UpdateAlloc alloc) ;; mret alloc
      | false =>
          let alloc := set_phase r.1 Alloc.AllocationFailed (p_name p) in
          deleteAllocationResources alloc ;;
          env (api_UpdateAlloc alloc) ;; mret alloc
      end
  end.
End Process.

Arguments mkSt {W}.
Arguments world {W}.
Arguments proc {W}.

(** ** Computations, step by step *)

Lemma bind_Some {S A B} (m : M S A) (f : A -> M S B) s r :
  (m ≫= f) s = Some r -> ∃ x s1, m s = Some (x, s1) ∧ f x s1 = Some r.
Proof.
  unfold mbind, M_bind. destruct (m s) as [[x s1]|]; [|done]. intros H. by exists x, s1.
Qed.

(** Takes a finished computation apart, first step first. *)
Ltac step H :=
  let x := fresh "x" in let s1 := fresh "s" in let E := fresh "E" in
  apply bind_Some in H as (x & s1 & E & H).

(** The observable part of a process state: caches that only grow, and counters. *)
Definition grows (p p' : Process) : Prop :=
  clusterIpMap p ⊆ clusterIpMap p' ∧ tokenMap p ⊆ tokenMap p' ∧ p_name p' = p_name p ∧
  totalPodDeleteNum p' = totalPodDeleteNum p.

#[export] Instance grows_preorder : PreOrder grows.
Proof.
  split; [by intros p|]. intros p1 p2 p3 (? & ? & ? & ?) (? & ? & ? & ?).
  split_and!; [by etrans|by etrans|congruence|congruence].
Qed.

(** The addresses that the caches hold for a cluster. *)
Definition cached (p : Process) (cluster host token : string) : Prop :=
  clusterIpMap p !! cluster = Some host ∧ tokenMap p !! host = Some token.

Lemma cached_grows p p' cluster host token : cached p cluster host token -> grows p p' -> cached p' cluster host token.
Proof. intros [? ?] (? & ? & _). split; by eapply lookup_weaken. Qed.

Lemma grows_set_ip p cn ip : clusterIpMap p !! cn = None -> grows p (set_ip p (<[cn := ip]> (clusterIpMap p))).
Proof. intros. split_and!; [by apply insert_subseteq|done..]. Qed.
Lemma grows_set_tokens p ip t : tokenMap p !! ip = None -> grows p (set_tokens p (<[ip := t]> (tokenMap p))).
Proof. intros. split_and!; [done|by apply insert_subseteq|done..]. Qed.

(** ** Recorded exchanges *)

Definition exchange : Type := request * result response.

Section Recorded.
Context {W : Type}.
Context (NewRequest : string -> bool) (http_Do : request -> W -> result response * W).
Context (api_Cluster : string -> W -> result Cluster * W).
Context (api_UpdateAlloc : Alloc.Allocation -> W -> result unit * W).
Context (time_Now : W -> Z * W).

(** The transport that records its exchanges, and the other surroundings, which do
    not use it. *)
Definition recording (req : request) (w : W * list exchange) : result response * (W * list exchange) :=
  let '(r, w') := http_Do req w.1 in (r, (w', w.2 ++ [(req, r)])).
Definition quiet {A} (f : W -> A * W) (w : W * list exchange) : A * (W * list exchange) :=
  let '(x, w') := f w.1 in (x, (w', w.2)).

Definition cluster_api (n : string) : W * list exchange -> result Cluster * (W * list exchange) := quiet (api_Cluster n).
Definition send_allocation : Alloc.Allocation -> M (St (W := W * list exchange)) Alloc.Allocation :=
  SendAllocationToCluster NewRequest recording cluster_api (fun a => quiet (api_UpdateAlloc a)) (quiet time_Now).

Definition log (s : St (W := W * list exchange)) : list exchange := (world s).2.

(** The id a creation answered, for the exchanges that are creations. *)
Definition created (e : exchange) : option string :=
  match Body e.1 with
  | ServerJson _ => match read_created e.2 tt with Some (Ok id, _) => Some id | _ => None end
  | _ => None
  end.

(** The exchange that created the instance, sent to the cached address. *)
Definition creates (p : Process) (ci : Alloc.ClusterInstance) (e : exchange) : Prop :=
  created e = Some (Alloc.InstanceId ci) ∧ ∃ host token, cached p (Alloc.ClusterName ci) host token ∧
    URL e.1 = servers_url host ∧ Header e.1 !! "X-Auth-Token"%string = Some token.

(** The exchange that deletes the instance, at the cached address. *)
Definition deletes (p : Process) (ci : Alloc.ClusterInstance) (e : exchange) : Prop :=
  ∃ host token, cached p (Alloc.ClusterName ci) host token ∧ Method e.1 = "DELETE"%string ∧
    URL e.1 = servers_url host +:+ "/" +:+ Alloc.InstanceId ci ∧ Header e.1 !! "X-Auth-Token"%string = Some token.

Lemma getHostIP_spec cn s r s' : getHostIP cluster_api cn s = Some (r, s') ->
  log s' = log s ∧ grows (proc s) (proc s') ∧ (forall h, r = Ok h -> clusterIpMap (proc s') !! cn = Some h).
Proof.
  intros E. unfold getHostIP in E. step E. injection E0 as <- <-. destruct (clusterIpMap (proc s) !! cn) as [ip|] eqn:Hip.
  { injection E as <- <-. split_and!; [done|done|]. congruence. }
  step E. unfold env, cluster_api, quiet in E0. destruct (api_Cluster cn (world s).1) as [c w'] eqn:Hc. injection E0 as <- <-.
  destruct c as [c|e]; [|injection E as <- <-; by split_and!].
  step E. injection E0 as <- <-. injection E as <- <-. simpl.
  split_and!; [done|by apply grows_set_ip|]. intros h [= <-]. simpl. by rewrite lookup_insert_eq.
Qed.

(** A request adds its exchange to the record, whatever is made of the response. *)
Lemma recorded_request {A} req (k : result response -> M (W * list exchange) A) w x w' :
  (forall resp w x w', k resp w = Some (x, w') -> w' = w) ->
  (Do NewRequest recording req ≫= k) w = Some (x, w') ->
  ∃ resp, w'.2 = w.2 ++ [(req, resp)] ∧ ∃ w1, k resp w1 = Some (x, w').
Proof.
  intros Hk (resp & w2 & Hdo & Hrest)%bind_Some. unfold Do, recording in Hdo.
  destruct (NewRequest (URL req)); [|done]. destruct (http_Do req w.1) as [resp' w3] eqn:Hhttp. injection Hdo as <- <-.
  exists resp'. rewrite (Hk _ _ _ _ Hrest) at 1. split; [done|]. by exists (w3, w.2 ++ [(req, resp')]).
Qed.

Lemma RequestToken_spec host w x w' : RequestToken NewRequest recording host w = Some (x, w') ->
  ∃ e, w'.2 = w.2 ++ [e] ∧ created e = None.
Proof.
  intros (resp & Hw & _)%recorded_request; [by exists (mkRequest "POST" (tokens_url host)
    {["Content-Type"%string := "application/json"%string]} TokenJson, resp)|].
  intros [resp|e] w1 x1 w1' Hk; [|by injection Hk as <- <-].
  destruct (StatusCode resp =? StatusCreated); [|by injection Hk as <- <-]. step Hk.
  unfold must in E. destruct (SubjectToken resp !! 0%nat); [|done]. injection E as <- <-. by injection Hk as <- <-.
Qed.

Lemma getToken_spec host s r s' : getToken NewRequest recording host s = Some (r, s') ->
  ∃ ex, log s' = log s ++ ex ∧ (forall e, e ∈ ex -> created e = None) ∧ grows (proc s) (proc s') ∧
    (forall t, r = Ok t -> tokenMap (proc s') !! host = Some t).
Proof.
  intros H. unfold getToken in H. step H. injection E as <- <-. destruct (tokenMap (proc s) !! host) as [t|] eqn:Htok.
  { injection H as <- <-. exists []. rewrite app_nil_r. split_and!; [done|by intros ? []%not_elem_of_nil|done|congruence]. }
  step H. unfold openstack in E. destruct (RequestToken NewRequest recording host (world s)) as [[x1 w1]|] eqn:Hreq; [|done].
  injection E as <- <-. apply RequestToken_spec in Hreq as (e & Hw & He). exists [e].
  assert (log s' = w1.2) as -> by (destruct x1; [step H; injection E as <- <-|]; by injection H as <- <-).
  split_and!; [done|by intros e' ->%list_elem_of_singleton| |]; (destruct x1 as [t|]; [step H; injection E as <- <-|]; injection H as <- <-).
  - by apply grows_set_tokens.
  - done.
  - intros t' [= <-]. simpl. by rewrite lookup_insert_eq.
  - done.
Qed.

Lemma host_and_token_spec cn s r s' : host_and_token NewRequest recording cluster_api cn s = Some (r, s') ->
  ∃ ex, log s' = log s ++ ex ∧ (forall e, e ∈ ex -> created e = None) ∧ grows (proc s) (proc s') ∧
    (forall h t, r = Some (h, t) -> cached (proc s') cn h t).
Proof.
  intros H. unfold host_and_token in H. step H. apply getHostIP_spec in E as (Hl & Hg & Hh). destruct x as [host|e].
  2: { injection H as <- <-. exists []. rewrite app_nil_r. split_and!; [done|by intros ? []%not_elem_of_nil|done|done]. }
  specialize (Hh host eq_refl). step H. rewrite <- Hl. apply getToken_spec in E as (ex & Hl1 & Hex & Hg1 & Ht).
  exists ex. destruct x as [token|e]; injection H as <- <-; (split_and!; [done|done|by etrans|]); [|done].
  intros h t [= <- <-]. split; [|by apply Ht]. destruct Hg1 as (Hg1 & _). by eapply lookup_weaken.
Qed.

Lemma read_created_world {V} resp (w w' : V) x : read_created resp w = Some (x, w') ->
  w' = w ∧ forall u : unit, read_created resp u = Some (x, u).
Proof.
  unfold read_created. repeat (case_match || (intros [= <- <-]; by split) || done).
Qed.

Lemma ServerCreateResources_spec host token cn res w x w' :
  ServerCreateResources NewRequest recording host token cn res w = Some (x, w') ->
  ∃ e, w'.2 = w.2 ++ [e] ∧ URL e.1 = servers_url host ∧ Header e.1 !! "X-Auth-Token"%string = Some token ∧
    created e = match x with Ok id => Some id | Err _ => None end.
Proof.
  intros H. unfold ServerCreateResources in H. step H. unfold must in E.
  destruct (Alloc.Flavors res !! 0%nat) as [fl|]; [|done]. injection E as <- <-.
  apply recorded_request in H as (resp & Hw & w1 & Hr).
  2: { intros ? ? ? ? Hk. by apply read_created_world in Hk as [-> _]. }
  eexists. split; [exact Hw|]. split; [done|]. split; [reflexivity|].
  unfold created. cbn [Body fst create_request snd]. apply read_created_world in Hr as [_ Hr]. rewrite Hr. by destruct x.
Qed.

(** The creations among the exchanges. *)
Definition creations (ex : list exchange) : list exchange := filter (fun e => is_Some (created e)) ex.

Lemma creations_app ex1 ex2 : creations (ex1 ++ ex2) = creations ex1 ++ creations ex2.
Proof. apply filter_app. Qed.
Lemma creations_none ex : (forall e, e ∈ ex -> created e = None) -> creations ex = [].
Proof.
  unfold creations. induction ex as [|e ex IH]; intros H; [done|]. rewrite filter_cons_False; [apply IH; intros; apply H; by constructor|].
  rewrite (H e) by constructor. by intros [].
Qed.

(** From [s] to [s'] the instances [cis] became [cis']: the ones in front were created,
    one exchange each, the others are as they were; none is left when [ok]. *)
Definition progress (s : St) (cis : list Alloc.ClusterInstance) (s' : St) (cis' : list Alloc.ClusterInstance) (ok : bool) : Prop :=
  grows (proc s) (proc s') ∧ ∃ ex made before rest,
    log s' = log s ++ ex ∧ cis' = made ++ rest ∧ cis = before ++ rest ∧
    Alloc.ClusterName <$> made = Alloc.ClusterName <$> before ∧ (ok = true -> rest = []) ∧
    Forall2 (creates (proc s')) made (creations ex).

Lemma creates_grows p p' ci e : grows p p' -> creates p ci e -> creates p' ci e.
Proof. intros Hg (Hid & h & t & Hc & Hu). split; [done|]. exists h, t. split; [by eapply cached_grows|done]. Qed.

Lemma progress_stop s s' cis ex : grows (proc s) (proc s') -> log s' = log s ++ ex ->
  (forall e, e ∈ ex -> created e = None) -> progress s cis s' cis false.
Proof.
  intros Hg Hl Hex. split; [done|]. exists ex, [], [], cis. rewrite creations_none by done. by split_and!.
Qed.

Lemma progress_more s s' cis cis' more : progress s cis s' cis' false -> progress s (cis ++ more) s' (cis' ++ more) false.
Proof.
  intros (Hg & ex & made & before & rest & Hl & -> & -> & Hn & _ & Hc). split; [done|].
  exists ex, made, before, (rest ++ more). rewrite <- !app_assoc. by split_and!.
Qed.

Lemma progress_app s1 c1 s2 c1' s3 c2 c2' ok :
  progress s1 c1 s2 c1' true -> progress s2 c2 s3 c2' ok -> progress s1 (c1 ++ c2) s3 (c1' ++ c2') ok.
Proof.
  intros (Hg1 & ex1 & made1 & before1 & rest1 & Hl1 & -> & -> & Hn1 & Hr1 & Hc1)
    (Hg2 & ex2 & made2 & before2 & rest2 & Hl2 & -> & -> & Hn2 & Hr2 & Hc2).
  rewrite (Hr1 eq_refl), !app_nil_r. split; [by etrans|].
  exists (ex1 ++ ex2), (made1 ++ made2), (before1 ++ before2), rest2.
  rewrite Hl2, Hl1, <- !app_assoc, !fmap_app, Hn1, Hn2, creations_app. split_and!; [done..|].
  apply Forall2_app; [|done]. eapply Forall2_impl; [exact Hc1|]. intros ci e. by apply creates_grows.
Qed.

Lemma create_instances_spec res cis : forall s cis' ok s',
  create_instances NewRequest recording cluster_api res cis s = Some ((cis', ok), s') -> progress s cis s' cis' ok.
Proof.
  induction cis as [|ci cis IH]; intros s cis' ok s' H; cbn [create_instances] in H.
  { injection H as <- <- <-. split; [done|]. exists [], [], [], []. rewrite app_nil_r. by split_and!. }
  step H. apply host_and_token_spec in E as (ex & Hl & Hex & Hg & Hc).
  destruct x as [[host token]|]; [|injection H as <- <- <-; by eapply progress_stop].
  specialize (Hc _ _ eq_refl). step H. unfold openstack in E.
  destruct (ServerCreateResources NewRequest recording host token (Alloc.ClusterName ci) res (world s0)) as [[x1 w1]|] eqn:Hsc; [|done].
  injection E as <- <-. apply ServerCreateResources_spec in Hsc as (e & Hw & Hurl & Hhd & Hcr).
  assert (log (mkSt w1 (proc s0)) = log s ++ ex ++ [e]) as Hl1 by (unfold log in *; simpl; by rewrite Hw, Hl, <- app_assoc).
  destruct x1 as [id|err].
  2: { injection H as <- <- <-. eapply progress_stop; [done|exact Hl1|].
    intros e' [?| ->%list_elem_of_singleton]%elem_of_app; [by apply Hex|done]. }
  step H. destruct x as [rest ok']. injection H as <- <- <-. apply IH in E.
  apply (progress_app s [ci] (mkSt w1 (proc s0)) [Alloc.mkCI (Alloc.ClusterName ci) id] s1 cis rest ok'); [|done].
  split; [done|]. eexists _, [_], [ci], []. split_and!; [exact Hl1|done..|].
  rewrite creations_app, creations_none by done. unfold creations. rewrite filter_cons_True by by rewrite Hcr.
  apply Forall2_cons; split; [|constructor]. split; [done|]. by exists host, token.
Qed.

Lemma instances_cons r rs : instances (r :: rs) = Alloc.ClusterInstances (Alloc.VM r) ++ instances rs.
Proof. done. Qed.

Lemma create_resources_spec rs : forall s rs' ok s',
  create_resources NewRequest recording cluster_api rs s = Some ((rs', ok), s') -> progress s (instances rs) s' (instances rs') ok.
Proof.
  induction rs as [|r rs IH]; intros s rs' ok s' H; cbn [create_resources] in H.
  { injection H as <- <- <-. split; [done|]. exists [], [], [], []. rewrite app_nil_r. by split_and!. }
  step H. destruct x as [cis okc]. apply create_instances_spec in E. simpl in H. destruct okc.
  - step H. destruct x as [rs1 ok1]. injection H as <- <- <-. apply IH in E0. rewrite !instances_cons. by eapply progress_app.
  - injection H as <- <- <-. rewrite !instances_cons. by apply progress_more.
Qed.

(** When every instance with an id has its address cached, each gets a delete
    request and nothing else happens. *)
Lemma delete_instances_spec cis : forall s x s', delete_instances NewRequest recording cluster_api cis s = Some (x, s') ->
  (forall ci, ci ∈ cis -> Alloc.InstanceId ci ≠ ""%string -> ∃ h t, cached (proc s) (Alloc.ClusterName ci) h t) ->
  proc s' = proc s ∧ ∃ ex, log s' = log s ++ ex ∧
    Forall2 (deletes (proc s)) (filter (fun ci => Alloc.InstanceId ci ≠ ""%string) cis) ex.
Proof.
  induction cis as [|ci cis IH]; intros s x s' H Hcache; cbn [delete_instances] in H.
  { injection H as <- <-. split; [done|]. exists []. by rewrite app_nil_r. }
  destruct (String.eqb_spec (Alloc.InstanceId ci) "") as [He|Hne].
  { rewrite filter_cons_False by tauto. apply (IH s x s' H). intros ci' Hin. apply Hcache. by constructor. }
  rewrite filter_cons_True by done. step H.
  destruct (Hcache ci ltac:(by constructor) Hne) as (h & t & Hip & Ht).
  assert (x0 = Some (h, t) ∧ s0 = s) as [-> ->].
  { revert E. unfold host_and_token, getHostIP, getToken, get_p, mbind, M_bind, mret, M_ret. simpl.
    rewrite Hip. simpl. rewrite Ht. simpl. by intros [= <- <-]. }
  step H. unfold openstack, DeleteInstance in E0.
  destruct ((Do NewRequest recording _ ≫= _) (world s)) as [[r w1]|] eqn:Hdo in E0; [|done]. injection E0 as <- <-.
  apply recorded_request in Hdo as (resp & Hw & _); [|by intros ? ? ? ? [= _ <-]].
  apply IH in H as (Hp & ex & Hl & Hd); [|simpl; intros ci' Hin; apply Hcache; by constructor]. simpl in *. split; [done|].
  eexists (_ :: ex). unfold log in *. simpl in Hl. rewrite Hl, Hw, <- app_assoc. split; [reflexivity|].
  constructor; [|done]. exists h, t. by split_and!.
Qed.

(** The state in which the creation starts. *)
Lemma send_allocation_create alloc s alloc' s' : Alloc.DeletionTime alloc = None ->
  send_allocation alloc s = Some (alloc', s') ->
  ∃ s0 s1 rs ok, log s0 = log s ∧ grows (proc s) (proc s0) ∧
    create_resources NewRequest recording cluster_api (Alloc.GroupResources alloc) s0 = Some ((rs, ok), s1) ∧
    Alloc.GroupResources alloc' = rs ∧
    (ok = true -> Alloc.Phase (Alloc.Status alloc') = Alloc.AllocationScheduled ∧ log s' = log s1) ∧
    (ok = false -> Alloc.Phase (Alloc.Status alloc') = Alloc.AllocationFailed ∧
       ∃ s2, delete_instances NewRequest recording cluster_api (instances rs) s1 = Some (tt, s2) ∧ log s' = log s2).
Proof.
  intros Hdel H. unfold send_allocation, SendAllocationToCluster in H. step H. injection E as <- <-. simpl in H. rewrite Hdel in H.
  step H. injection E as <- <-. step H. unfold env, quiet in E. simpl in E. destruct (time_Now (world s).1) as [now w1]. injection E as <- <-.
  step H. injection E as <- <-. step H. unfold quot64 in E. destruct (_ =? 0); [done|]. injection E as <- <-.
  step H. unfold isAllAllocationResourcesCreated in E. step E. destruct x0 as [rs ok]. injection E as <- <-.
  eexists _, _, rs, ok. split; [|split; [|split; [exact E0|]]]; [done|done|]. simpl in H. destruct ok; step H.
  - unfold env, quiet in E. destruct (api_UpdateAlloc _ _) as [u w2]. injection E as <- <-. injection H as <- <-. by split_and!.
  - step H. unfold env, quiet in E1. destruct (api_UpdateAlloc _ _) as [u w2]. injection E1 as <- <-. injection H as <- <-.
    split_and!; [done|done|]. intros _. split; [done|]. destruct x. by eexists.
Qed.

(** *** Computations that do not panic *)

(** The service answers with a token when it says it created one, and with the id of
    the server when it describes one. *)
Definition well_formed (resp : response) : Prop :=
  (StatusCode resp = StatusCreated -> SubjectToken resp ≠ []) ∧
  forall fields, RespBody resp = Some fields -> member fields "server" = JNull ∨
    ∃ srv id, member fields "server" = JObject srv ∧ member srv "id" = JString id.

Hypothesis Hservice : forall req w resp w', http_Do req w = (Ok resp, w') -> well_formed resp.

(** The service may answer a creation with this id. *)
Definition answered (id : string) : Prop :=
  ∃ req w resp w' u, http_Do req w = (Ok resp, w') ∧ read_created (Ok resp) () = Some (Ok id, u).

(** Requests can be made to the host, also for the servers that the service names. *)
Definition addressable (host : string) : Prop :=
  NewRequest (tokens_url host) = true ∧ NewRequest (servers_url host) = true ∧
  forall id, answered id -> NewRequest (servers_url host +:+ "/" +:+ id) = true.

Hypothesis Hclusters : forall cn w c w', api_Cluster cn w = (Ok c, w') -> addressable (C_IpAddress c).

(** The hosts in the cache are addressable. *)
Definition known_hosts (s : St (W := W * list exchange)) : Prop :=
  forall cn host, clusterIpMap (proc s) !! cn = Some host -> addressable host.

(** Run with such a cache, the computation does not panic, keeps the cache so and returns a
    result that [Q] holds of. *)
Definition safe {A} (m : M (St (W := W * list exchange)) A) (Q : A -> Prop) : Prop :=
  forall s, known_hosts s -> ∃ x s', m s = Some (x, s') ∧ known_hosts s' ∧ Q x.

Lemma safe_ret {A} (x : A) (Q : A -> Prop) : Q x -> safe (mret x) Q.
Proof. intros HQ s Hs. by exists x, s. Qed.
Lemma safe_bind {A B} (m : M _ A) (f : A -> M _ B) Q R : safe m Q -> (forall x, Q x -> safe (f x) R) -> safe (m ≫= f) R.
Proof. intros Hm Hf s Hs. destruct (Hm s Hs) as (x & s1 & E & Hs1 & Hx). unfold mbind, M_bind. rewrite E. by apply Hf. Qed.
Lemma safe_openstack {A} (m : M (W * list exchange) A) Q : (forall w, ∃ x w', m w = Some (x, w') ∧ Q x) -> safe (openstack m) Q.
Proof. intros Hm s Hs. unfold openstack. destruct (Hm (world s)) as (x & w' & -> & Hx). by exists x, (mkSt w' (proc s)). Qed.

(** What is done with a response matters only for responses of the service. *)
Lemma request_runs {A} req (k : result response -> M (W * list exchange) A) (Q : A -> Prop) w : NewRequest (URL req) = true ->
  (forall resp w, (forall r, resp = Ok r -> well_formed r ∧ ∃ req w w', http_Do req w = (Ok r, w')) -> ∃ x w', k resp w = Some (x, w') ∧ Q x) ->
  ∃ x w', (Do NewRequest recording req ≫= k) w = Some (x, w') ∧ Q x.
Proof.
  intros Hreq Hk. unfold mbind, M_bind, Do, recording. rewrite Hreq. destruct (http_Do req w.1) as [resp w1] eqn:Hh. cbn. apply Hk.
  intros r ->. split; [by eapply Hservice|by eexists _, _, _].
Qed.

Lemma read_created_runs resp (w : W * list exchange) : (forall r, resp = Ok r -> well_formed r ∧ ∃ req w w', http_Do req w = (Ok r, w')) ->
  ∃ x w', read_created resp w = Some (x, w') ∧ forall id, x = Ok id -> answered id.
Proof.
  intros Hr. assert (∃ x w', read_created resp w = Some (x, w')) as (x & w' & E).
  { destruct resp as [r|e]; cbn; [|by eexists _, _]. destruct (Hr r eq_refl) as [[_ Hb] _].
    destruct (RespBody r) as [fields|]; [|by eexists _, _]. destruct (_ =? _); [by eexists _, _|].
    destruct (Hb fields eq_refl) as [->|(srv & id & -> & ->)]; by eexists _, _. }
  exists x, w'. split; [done|]. intros id ->. apply read_created_world in E as [_ E]. destruct resp as [r|e]; [|by specialize (E tt)].
  destruct (Hr r eq_refl) as (_ & req & w0 & w1 & Hh). by exists req, w0, r, w1, tt.
Qed.

Lemma safe_RequestToken host : addressable host -> safe (openstack (RequestToken NewRequest recording host)) (fun _ => True).
Proof.
  intros (Ht & _). apply safe_openstack. intros w. apply request_runs; [done|]. intros [r|e] w1 Hr; [|by eexists _, _].
  destruct (Z.eqb_spec (StatusCode r) StatusCreated) as [Hc|]; [|by eexists _, _]. destruct (Hr r eq_refl) as [[Hs _] _]. specialize (Hs Hc).
  unfold mbind, M_bind, must. destruct (SubjectToken r) as [|t ts]; [done|]. by eexists _, _.
Qed.
Lemma safe_DeleteInstance host token id : addressable host -> answered id -> safe (openstack (DeleteInstance NewRequest recording host token id)) (fun _ => True).
Proof. intros (_ & _ & Hd) Hid. apply safe_openstack. intros w. apply request_runs; [by apply Hd|]. intros resp w1 _. by eexists _, _. Qed.
Lemma safe_ServerCreateResources host token cn res : addressable host -> Alloc.Flavors res ≠ [] ->
  safe (openstack (ServerCreateResources NewRequest recording host token cn res)) (fun x => forall id, x = Ok id -> answered id).
Proof.
  intros (_ & Hs & _) Hf. apply safe_openstack. intros w. unfold ServerCreateResources. destruct (Alloc.Flavors res) as [|fl fls]; [done|].
  apply (request_runs (create_request host token _)); [done|]. intros resp w1. apply read_created_runs.
Qed.

Lemma safe_getHostIP cn : safe (getHostIP cluster_api cn) (fun x => forall host, x = Ok host -> addressable host).
Proof.
  intros s Hs. unfold getHostIP, mbind, M_bind. cbn. destruct (clusterIpMap (proc s) !! cn) as [ip|] eqn:Hip.
  { eexists _, _. split; [done|]. split; [done|]. intros host [= <-]. by apply (Hs cn). }
  unfold env, cluster_api, quiet. destruct (api_Cluster cn (world s).1) as [[c|e] w'] eqn:Hc; cbn; (eexists _, _; split; [done|]; split); [|by intros host [= <-]; eapply Hclusters|done|done].
  intros cn' host. cbn. intros [[_ <-]|[_ Hl]]%lookup_insert_Some; [by eapply Hclusters|by apply (Hs cn')].
Qed.
Lemma safe_getToken host : addressable host -> safe (getToken NewRequest recording host) (fun _ => True).
Proof.
  intros Hh s Hs. unfold getToken, mbind, M_bind. cbn. destruct (tokenMap (proc s) !! host) as [t|]; [by eexists _, _|].
  destruct (safe_RequestToken host Hh s Hs) as (x & s1 & -> & Hs1 & _). cbn. destruct x as [t|e]; cbn; (eexists _, _; split; [done|]; split; [|done]); [|done].
  intros cn h. by apply Hs.
Qed.
Lemma safe_host_and_token cn : safe (host_and_token NewRequest recording cluster_api cn) (fun x => forall host token, x = Some (host, token) -> addressable host).
Proof.
  eapply safe_bind; [apply safe_getHostIP|]. intros [host|e] Hh; [|by apply safe_ret]. specialize (Hh host eq_refl).
  eapply safe_bind; [by apply safe_getToken|]. intros [t|e] _; apply safe_ret; [by intros ? ? [= <- <-]|done].
Qed.

(** An instance has no id or one that the service answered. *)
Definition named (ci : Alloc.ClusterInstance) : Prop := Alloc.InstanceId ci = ""%string ∨ answered (Alloc.InstanceId ci).

Lemma safe_create_instances res cis : Alloc.Flavors res ≠ [] -> Forall named cis -> safe (create_instances NewRequest recording cluster_api res cis) (fun r => Forall named r.1).
Proof.
  intros Hf. induction cis as [|ci cis IH]; intros Hn; cbn [create_instances]; [by apply safe_ret|]. pose proof Hn as [_ Hn']%Forall_cons.
  eapply safe_bind; [apply safe_host_and_token|]. intros [[h t]|] Hh; [|by apply safe_ret].
  eapply safe_bind; [by apply safe_ServerCreateResources; [eapply Hh|]|]. intros [id|e] Hid; [|by apply safe_ret].
  eapply safe_bind; [by apply IH|]. intros [rest ok] Hrest. apply safe_ret. constructor; [right; by apply Hid|done].
Qed.
Lemma safe_create_resources rs : (forall r, r ∈ rs -> Alloc.Flavors r ≠ []) -> Forall named (instances rs) ->
  safe (create_resources NewRequest recording cluster_api rs) (fun r => Forall named (instances r.1)).
Proof.
  induction rs as [|r rs IH]; intros Hf Hn; cbn [create_resources]; [by apply safe_ret|]. rewrite instances_cons in Hn. apply Forall_app in Hn as [Hr Hn].
  eapply safe_bind; [apply safe_create_instances; [apply Hf; constructor|done]|]. intros [cis []] Hcis; cbn [fst snd] in *.
  - eapply safe_bind; [apply IH; [intros; apply Hf; by constructor|done]|]. intros [rest ok] Hrest. apply safe_ret. cbn [fst]. rewrite instances_cons. by apply Forall_app.
  - apply safe_ret. cbn [fst]. rewrite instances_cons. by apply Forall_app.
Qed.
Lemma safe_delete_instances cis : Forall named cis -> safe (delete_instances NewRequest recording cluster_api cis) (fun _ => True).
Proof.
  induction cis as [|ci cis IH]; intros Hn; cbn [delete_instances]; [by apply safe_ret|]. apply Forall_cons in Hn as [Hci Hn].
  destruct (String.eqb_spec (Alloc.InstanceId ci) "") as [|Hne]; [by apply IH|].
  eapply safe_bind; [apply safe_host_and_token|]. intros [[h t]|] Hh; [|by apply safe_ret].
  eapply safe_bind; [apply safe_DeleteInstance; [by eapply Hh|by destruct Hci]|]. intros _ _. by apply IH.
Qed.

Lemma send_allocation_runs alloc s : Alloc.DeletionTime alloc = None ->
  (forall r, r ∈ Alloc.GroupResources alloc -> Alloc.Flavors r ≠ []) -> (forall ci, ci ∈ instances (Alloc.GroupResources alloc) -> Alloc.InstanceId ci = ""%string) ->
  known_hosts s -> 0 <= totalAllocationCreateNum (proc s) < MaxInt64 -> is_Some (send_allocation alloc s).
Proof.
  intros Hdel Hf Hids Hs Hn. unfold send_allocation, SendAllocationToCluster, mbind, M_bind. cbn [get_p mbind option_bind]. simpl. rewrite Hdel. simpl.
  unfold env, quiet. simpl. destruct (time_Now (world s).1) as [now w1]. simpl. unfold quot64. rewrite (wrap64_id (totalAllocationCreateNum (proc s) + 1)) by auto with go.
  destruct (Z.eqb_spec (totalAllocationCreateNum (proc s) + 1) 0); [lia|]. simpl.
  match goal with |- context[isAllAllocationResourcesCreated _ _ _ ?a ?st] => assert (known_hosts st) as Hst by exact Hs; revert Hst; generalize st; intros st0 Hst end.
  unfold isAllAllocationResourcesCreated, mbind, M_bind.
  destruct (safe_create_resources (Alloc.GroupResources alloc) Hf) with (s := st0) as ([rs ok] & st1 & E & Hst1 & Hnamed); [apply Forall_forall; intros ci Hci; left; by apply Hids|done|].
  simpl. rewrite E. simpl. destruct ok; simpl.
  - destruct (api_UpdateAlloc _ _). by eexists.
  - unfold deleteAllocationResources. simpl. destruct (safe_delete_instances _ Hnamed st1 Hst1) as (u & s2 & Hd & _). simpl in Hd. rewrite Hd. simpl.
    destruct (api_UpdateAlloc _ _). by eexists.
Qed.
End Recorded.

(** An instance whose address is cached keeps the exchange that created it, and a
    request that deletes it goes to the same server. *)
Lemma rolled_back p made rest ex1 ex2 : Forall2 (creates p) made (creations ex1) ->
  (forall ci, ci ∈ rest -> Alloc.InstanceId ci = ""%string) ->
  Forall2 (deletes p) (filter (fun ci => Alloc.InstanceId ci ≠ ""%string) (made ++ rest)) ex2 ->
  forall e id, e ∈ ex1 -> created e = Some id -> id ≠ ""%string ->
  ∃ d, d ∈ ex2 ∧ Method d.1 = "DELETE"%string ∧ URL d.1 = URL e.1 +:+ "/" +:+ id ∧
    Header d.1 !! "X-Auth-Token"%string = Header e.1 !! "X-Auth-Token"%string.
Proof.
  intros Hmade Hrest Hdel e id He Hid Hne.
  assert (e ∈ creations ex1) as [k Hk]%list_elem_of_lookup by (apply list_elem_of_filter; by rewrite Hid).
  destruct (Forall2_lookup_r _ _ _ _ _ Hmade Hk) as (ci & Hci & Hcid & h & t & [Hip Htok] & Hurl & Hhd).
  rewrite Hid in Hcid. injection Hcid as Hcid.
  assert (ci ∈ filter (fun ci => Alloc.InstanceId ci ≠ ""%string) (made ++ rest)) as [j Hj]%list_elem_of_lookup.
  { apply list_elem_of_filter. split; [congruence|]. apply elem_of_app. left. by eapply list_elem_of_lookup_2. }
  destruct (Forall2_lookup_l _ _ _ _ _ Hdel Hj) as (d & Hd & h' & t' & [Hip' Htok'] & Hm & Hu & Hh).
  exists d. simplify_map_eq. split_and!; [by eapply list_elem_of_lookup_2|done|congruence|congruence].
Qed.

Lemma creations_ids p made ex : Forall2 (creates p) made (creations ex) -> omap created ex = Alloc.InstanceId <$> made.
Proof.
  revert made. unfold creations. induction ex as [|e ex IH]; intros made Hm; csimpl.
  { by apply Forall2_nil_inv_r in Hm as ->. }
  destruct (created e) as [id|] eqn:Hid.
  - rewrite filter_cons_True in Hm by by rewrite Hid. apply Forall2_cons_inv_r in Hm as (ci & made' & [Hc _] & Hm & ->).
    csimpl. rewrite (IH _ Hm). congruence.
  - apply IH. by rewrite filter_cons_False in Hm by by rewrite Hid; intros [].
Qed.

(** C22.  A new allocation, none of whose instances has an id, is created completely or not at
    all.  Let each of its resources name a flavor, let the service answer well-formed responses,
    let requests be possible to the hosts of all clusters and for the ids that the service
    answers, and let the counter of created allocations be below the largest integer.  Then
    handling the allocation does not panic.  It ends either
    scheduled, with one creation for each of its instances whose ids it stores in
    order, or failed; then every server that was created for it is requested to be
    deleted, at the same host and with the same token. *)
Theorem allocation_all_or_nothing {W} (NewRequest : string -> bool) (http_Do : request -> W -> result response * W)
    (api_Cluster : string -> W -> result Cluster * W) (api_UpdateAlloc : Alloc.Allocation -> W -> result unit * W)
    (time_Now : W -> Z * W) alloc s :
  (forall req w resp w', http_Do req w = (Ok resp, w') -> well_formed resp) ->
  (forall cn w c w', api_Cluster cn w = (Ok c, w') -> addressable NewRequest http_Do (C_IpAddress c)) -> known_hosts NewRequest http_Do s ->
  Alloc.DeletionTime alloc = None -> (forall r, r ∈ Alloc.GroupResources alloc -> Alloc.Flavors r ≠ []) ->
  (forall ci, ci ∈ instances (Alloc.GroupResources alloc) -> Alloc.InstanceId ci = ""%string) ->
  0 <= totalAllocationCreateNum (proc s) < MaxInt64 ->
  ∃ alloc' s' ex1 ex2, send_allocation NewRequest http_Do api_Cluster api_UpdateAlloc time_Now alloc s = Some (alloc', s') ∧
    log s' = log s ++ ex1 ++ ex2 ∧
    Alloc.ClusterName <$> instances (Alloc.GroupResources alloc') = Alloc.ClusterName <$> instances (Alloc.GroupResources alloc) ∧
    ((Alloc.Phase (Alloc.Status alloc') = Alloc.AllocationScheduled ∧ ex2 = [] ∧
        omap created ex1 = Alloc.InstanceId <$> instances (Alloc.GroupResources alloc')) ∨
     (Alloc.Phase (Alloc.Status alloc') = Alloc.AllocationFailed ∧
        forall e id, e ∈ ex1 -> created e = Some id -> id ≠ ""%string ->
        ∃ d, d ∈ ex2 ∧ Method d.1 = "DELETE"%string ∧ URL d.1 = URL e.1 +:+ "/" +:+ id ∧
          Header d.1 !! "X-Auth-Token"%string = Header e.1 !! "X-Auth-Token"%string)).
Proof.
  intros Hserv Hclusters Hhosts Hdel Hfl Hids Hn.
  destruct (send_allocation_runs NewRequest http_Do api_Cluster api_UpdateAlloc time_Now Hserv Hclusters alloc s Hdel Hfl Hids Hhosts Hn) as [[alloc' s'] Hsend].
  destruct (send_allocation_create _ _ _ _ _ _ _ _ _ Hdel Hsend) as (s0 & s1 & rs & ok & Hl0 & _ & Hcr & <- & Hok & Hfail).
  apply create_resources_spec in Hcr as (_ & ex1 & made & before & rest & Hl1 & Hcis & Hcis0 & Hn' & Hr & Hmade).
  exists alloc', s', ex1. rewrite Hcis, Hcis0. destruct ok.
  - destruct (Hok eq_refl) as [Hph Hl]. exists []. rewrite (Hr eq_refl), !app_nil_r.
    split_and!; [done|congruence|done|]. left. split_and!; [done|done|]. by eapply creations_ids.
  - destruct (Hfail eq_refl) as (Hph & s2 & Hdi & Hl2).
    assert (forall ci, ci ∈ rest -> Alloc.InstanceId ci = ""%string) as Hrest.
    { intros ci Hin. apply Hids. rewrite Hcis0. apply elem_of_app. by right. }
    rewrite Hcis in Hdi. apply delete_instances_spec in Hdi as (_ & ex2 & Hl3 & Hd).
    + exists ex2. split_and!; [done|by rewrite Hl2, Hl3, Hl1, Hl0, <- app_assoc|by rewrite !fmap_app, Hn'|]. right. split; [done|]. by eapply rolled_back.
    + intros ci [[k Hk]%list_elem_of_lookup|Hin]%elem_of_app Hne; [|by apply Hrest in Hin].
      destruct (Forall2_lookup_l _ _ _ _ _ Hmade Hk) as (e & _ & _ & h & t & Hc & _). by exists h, t.
Qed.

(** A service whose first server creation answers an id and whose second is refused;
    [w] counts the creations. *)
Definition demo_http (req : request) (w : nat) : result response * nat :=
  match Body req with
  | ServerJson _ =>
      match w with
      | O => (Ok (mkResponse 202 [] (Some [("server", JObject [("id", JString "vm1")])%string])), 1%nat)
      | _ => (Ok (mkResponse 403 [] (Some [])), w)
      end
  | TokenJson => (Ok (mkResponse 201 ["tok"%string] None), w)
  | NoBody => (Ok (mkResponse 204 [] None), w)
  end.
(** Of the refusals of [http.NewRequest]: a space in the address. *)
Definition demo_address (url : string) : bool := match String.index 0 " " url with None => true | Some _ => false end.
Definition demo_cluster_api (n : string) (w : nat) : result Cluster * nat :=
  (Ok (demo_cluster "us" "w" "ca" "sf" n 1), w).
Definition demo_alloc (deleted : option Z) : Alloc.Allocation :=
  Alloc.mkAllocation "a" "default" "t" 0 deleted "g"
    [Alloc.mkResources "r" "vm" [Alloc.mkFlavor "c6.large.2" (Alloc.mkSpot "" 0 0 "")] (Alloc.mkVolume 0 0 0) false
       (Alloc.mkVM "img" "sg" "nic" [Alloc.mkCI "c1" ""; Alloc.mkCI "c2" ""])]
    (Alloc.mkSelector (Alloc.mkGeo "" "" "" "") [] "" "") 1 (Alloc.mkStatus Alloc.AllocationBound "" "" "" []).
Definition demo_process : Process := mkProcess "d" ∅ ∅ 0 0 0 0 0 0.
Definition demo_state : St (W := nat * list exchange) := mkSt (0%nat, []) demo_process.

Lemma allocation_all_or_nothing_witness :
  ∃ alloc' s', send_allocation demo_address demo_http demo_cluster_api (fun _ w => (Ok tt, w)) (fun w => (5, w)) (demo_alloc None) demo_state =
    Some (alloc', s').
Proof.
  destruct (allocation_all_or_nothing demo_address demo_http demo_cluster_api (fun _ w => (Ok tt, w)) (fun w => (5, w)) (demo_alloc None) demo_state)
    as (alloc' & s' & ex1 & ex2 & Hs & _).
  - intros req w resp w'. unfold demo_http. repeat case_match; intros [= <- <-]; (split; [done|]);
      intros fields [= <-]; [right; by eexists _, _|by left].
  - intros cn w c w' [= <- <-]. split; [done|]. split; [done|]. intros id (req & w1 & resp & w1' & u & Hh & Hr).
    revert Hh Hr. unfold demo_http. repeat case_match; intros [= <- <-]; cbn; try done. by intros [= <-].
  - intros cn host Hl. cbn in Hl. by rewrite lookup_empty in Hl.
  - done.
  - intros r ->%list_elem_of_singleton. done.
  - intros ci. cbn. rewrite !elem_of_cons. by intros [->|[->|[]%not_elem_of_nil]].
  - vm_compute. done.
  - by exists alloc', s'.
Defined.

(** In that run the first server is created and then deleted. *)
Example demo_rollback :
  (fun r => (Alloc.Phase (Alloc.Status r.1), (fun e : exchange => (Method e.1, URL e.1)) <$> log r.2)) <$>
    send_allocation demo_address demo_http demo_cluster_api (fun _ w => (Ok tt, w)) (fun w => (5, w)) (demo_alloc None) demo_state =
  Some (Alloc.AllocationFailed,
    [("POST", "http:///identity/v3/auth/tokens"); ("POST", "http:///compute/v2.1/servers");
     ("POST", "http:///compute/v2.1/servers"); ("DELETE", "http:///compute/v2.1/servers/vm1")]%string).
Proof. vm_compute. reflexivity. Qed.

(** ** Panics *)

Lemma delete_instances_grows {W} (NewRequest : string -> bool) (http_Do : request -> W -> result response * W) (api_Cluster : string -> W -> result Cluster * W) cis :
  forall s x s', delete_instances NewRequest (recording http_Do) (cluster_api api_Cluster) cis s = Some (x, s') -> grows (proc s) (proc s').
Proof.
  induction cis as [|ci cis IH]; intros s x s' H; cbn [delete_instances] in H; [by injection H as <- <-|].
  destruct (String.eqb _ _); [by eapply IH|]. step H. apply host_and_token_spec in E as (_ & _ & _ & Hg & _).
  destruct x0 as [[h t]|]; [|by injection H as <- <-]. step H. unfold openstack in E.
  destruct (DeleteInstance _ _ _ _ _ _) as [[r w]|]; [|done]. injection E as <- <-. etrans; [exact Hg|]. by apply IH in H.
Qed.

(** Deleting an allocation divides the delete latency by the number of
    deleted pods: a process that has deleted no pod yet panics. *)
Theorem allocation_delete_divides_by_zero {W} (NewRequest : string -> bool) (http_Do : request -> W -> result response * W)
    (api_Cluster : string -> W -> result Cluster * W) (api_UpdateAlloc : Alloc.Allocation -> W -> result unit * W)
    (time_Now : W -> Z * W) alloc t s :
  Alloc.DeletionTime alloc = Some t -> totalPodDeleteNum (proc s) = 0 ->
  send_allocation NewRequest http_Do api_Cluster api_UpdateAlloc time_Now alloc s = None.
Proof.
  intros Hdel H0. destruct (send_allocation _ _ _ _ _ alloc s) as [r|] eqn:H; [exfalso|done].
  unfold send_allocation, SendAllocationToCluster in H. step H. injection E as <- <-. simpl in H. rewrite Hdel in H.
  step H. injection E as <- <-. step H. apply delete_instances_grows in E as (_ & _ & _ & Hpd). simpl in Hpd.
  step H. unfold env, quiet in E. destruct (time_Now _) as [now w1]. injection E as <- <-.
  step H. injection E as <- <-. step H. injection E as <- <-. step H. unfold quot64 in E. simpl in E.
  rewrite Hpd, H0 in E. done.
Qed.

Lemma allocation_delete_divides_by_zero_witness :
  send_allocation demo_address demo_http demo_cluster_api (fun _ w => (Ok tt, w)) (fun w => (5, w)) (demo_alloc (Some 3)) demo_state = None.
Proof. by apply (allocation_delete_divides_by_zero demo_address demo_http demo_cluster_api _ _ (demo_alloc (Some 3)) 3 demo_state). Defined.

(** The token refresh reads the response of the expiry check even when the
    request failed: one unreachable host in the token cache makes it panic, whatever
    the order in which the cache is visited. *)
Theorem unreachable_host_crashes_refresh {W} (NewRequest : string -> bool) (http_Do : request -> W -> result response * W)
    (range : gmap string string -> list (string * string)) ip token s :
  (forall m, range m ≡ₚ map_to_list m) -> tokenMap (proc s) !! ip = Some token ->
  (forall req w, URL req = tokens_url ip -> is_ok (http_Do req w).1 = false) ->
  refreshToken NewRequest http_Do range s = None.
Proof.
  intros Hrange Htok Hdown. unfold refreshToken, mbind, M_bind. simpl.
  assert ((ip, token) ∈ range (tokenMap (proc s))) as Hin by (rewrite Hrange; by apply elem_of_map_to_list).
  revert Hin. generalize (range (tokenMap (proc s))). intros order. generalize s. clear s Htok Hrange range.
  induction order as [|[ip' token'] order IH]; intros s Hin; [by apply elem_of_nil in Hin|]. 
  destruct (refresh_tokens NewRequest http_Do ((ip', token') :: order) s) as [r|] eqn:H; [exfalso|done].
  cbn [refresh_tokens] in H. step H. apply elem_of_cons in Hin as [[= <- <-]|Hin].
  - unfold openstack, TokenExpired, Do, mbind, M_bind in E. simpl in E.
    destruct (NewRequest _); [|done].
    match type of E with context[http_Do ?req ?w] => specialize (Hdown req w eq_refl); destruct (http_Do req w) as [[resp|e] w1] end; done.
  - step H. by rewrite IH in H.
Qed.

Lemma unreachable_host_crashes_refresh_witness :
  refreshToken demo_address (fun req (w : unit) => (Err "no route to host", w)) map_to_list
    (mkSt tt (set_tokens demo_process {["10.0.0.1"%string := "tok"%string]})) = None.
Proof. by apply (unreachable_host_crashes_refresh _ _ map_to_list "10.0.0.1" "tok"). Defined.

(** A cluster with an address that makes no URL: the dispatcher panics when it is sent a
    pod for the cluster. *)
Theorem refused_address_crashes_dispatcher {W} (NewRequest : string -> bool) (http_Do : request -> W -> result response * W)
    (api_Cluster : string -> W -> result Cluster * W) (api_UpdatePod : Pod -> W -> result unit * W) (time_Now : W -> Z * W) pod host s :
  clusterIpMap (proc s) !! P_ClusterName pod = Some host -> tokenMap (proc s) !! host = None -> NewRequest (tokens_url host) = false ->
  SendPodToCluster NewRequest http_Do api_Cluster api_UpdatePod time_Now pod s = None.
Proof.
  intros Hip Ht Hurl. unfold SendPodToCluster, host_and_token, getHostIP, getToken, mbind, M_bind. cbn. rewrite Hip. cbn. rewrite Ht.
  unfold openstack, RequestToken, mbind, M_bind, Do. cbn. by rewrite Hurl.
Qed.
