(* ===== verification/DistributorProcess.v ===== *)
(** * The distributor process

    Models [globalscheduler/controllers/distributor/distributor_process.go]: the
    list of schedulers kept by the scheduler informer, and the choice of a scheduler
    for a pending pod or a new allocation by its geographic location.  The theorems
    show that a scheduler is found exactly when one matches, that a pod that asks
    for the place of a served cluster finds one, and how the list follows the
    informer. *)
From S2P Require Import Prelude ApiTypes SchedulerController.

(** The mutable fields of the process (distributor_process.go:49-61). *)
Record Process := mkProcess {
  p_namespace : string; p_name : string; schedulers : list Scheduler; rangeStart : Z; rangeEnd : Z }.

Definition set_schedulers (p : Process) (ss : list Scheduler) : Process :=
  mkProcess (p_namespace p) (p_name p) ss (rangeStart p) (rangeEnd p).

(** ** The scheduler informer *)

(** (distributor_process.go:145-153 Run) *)
Definition addScheduler (p : Process) (s : Scheduler) : Process := set_schedulers p (schedulers p ++ [s]).

(** Replaces the first scheduler of that name (distributor_process.go:154-172 Run). *)
Fixpoint replace_first (name : string) (new : Scheduler) (ss : list Scheduler) : list Scheduler :=
  match ss with
  | [] => []
  | item :: ss => if String.eqb (S_Name item) name then new :: ss else item :: replace_first name new ss
  end.
(** (distributor_process.go:154-172 Run) *)
Definition updateScheduler (p : Process) (old new : Scheduler) : Process :=
  set_schedulers p (replace_first (S_Name old) new (schedulers p)).

(** The dynamic values that [reflect.DeepEqual] compares. *)
Inductive value := SchedulerValue (s : Scheduler) | SchedulerPointer (s : Scheduler).

#[export] Instance ClusterUnion_eq_dec : EqDecision ClusterUnion.
Proof. solve_decision. Defined.
#[export] Instance Scheduler_eq_dec : EqDecision Scheduler.
Proof. solve_decision. Defined.
#[export] Instance value_eq_dec : EqDecision value.
Proof. solve_decision. Defined.

(** Values of different types are not deeply equal. *)
Definition DeepEqual (x y : value) : bool := bool_decide (x = y).

(** Compares each item, a struct, with the deleted object, a pointer
    (distributor_process.go:173-187 Run). *)
Definition deleteScheduler (p : Process) (s : Scheduler) : Process :=
  let same item := DeepEqual (SchedulerValue item) (SchedulerPointer s) in
  if existsb same (schedulers p) then
    set_schedulers p (default (schedulers p) (swap_remove (schedulers p) (first_index same (schedulers p))))
  else p.

Inductive informer_event := Added (s : Scheduler) | Updated (old new : Scheduler) | Deleted (s : Scheduler).

Definition handle (p : Process) (e : informer_event) : Process :=
  match e with
  | Added s => addScheduler p s
  | Updated old new => updateScheduler p old new
  | Deleted s => deleteScheduler p s
  end.

(** ** Locations *)

(** (distributor_process.go:306-324) *)
Definition matchGeoLocation (geoLocation : GeolocationInfo) (podLoc : Alloc.GeoLocation) : bool :=
  let empty s := String.eqb s "" in
  if (empty (Alloc.Area podLoc) && empty (Alloc.City podLoc) && empty (Alloc.Province podLoc) && empty (Alloc.Country podLoc))%bool then true
  else if (negb (empty (Alloc.Country podLoc)) && negb (String.eqb (GI_Country geoLocation) (Alloc.Country podLoc)))%bool then false
  else if (negb (empty (Alloc.Area podLoc)) && negb (String.eqb (GI_Area geoLocation) (Alloc.Area podLoc)))%bool then false
  else if (negb (empty (Alloc.Province podLoc)) && negb (String.eqb (GI_Province geoLocation) (Alloc.Province podLoc)))%bool then false
  else if (negb (empty (Alloc.City podLoc)) && negb (String.eqb (GI_City geoLocation) (Alloc.City podLoc)))%bool then false
  else true.

(** The same checks for an allocation (distributor_process.go:399-417). *)
Definition isAllocationGeoLocationMatched (geoLocation : GeolocationInfo) (allocGeoLocation : Alloc.GeoLocation) : bool :=
  let empty s := String.eqb s "" in
  if (empty (Alloc.Area allocGeoLocation) && empty (Alloc.City allocGeoLocation) && empty (Alloc.Province allocGeoLocation)
      && empty (Alloc.Country allocGeoLocation))%bool then true
  else if (negb (empty (Alloc.Country allocGeoLocation)) && negb (String.eqb (GI_Country geoLocation) (Alloc.Country allocGeoLocation)))%bool then false
  else if (negb (empty (Alloc.Area allocGeoLocation)) && negb (String.eqb (GI_Area geoLocation) (Alloc.Area allocGeoLocation)))%bool then false
  else if (negb (empty (Alloc.Province allocGeoLocation)) && negb (String.eqb (GI_Province geoLocation) (Alloc.Province allocGeoLocation)))%bool then false
  else if (negb (empty (Alloc.City allocGeoLocation)) && negb (String.eqb (GI_City geoLocation) (Alloc.City allocGeoLocation)))%bool then false
  else true.

(** (distributor_process.go:297-304) *)
Definition GeoLocationPredicate (scheduler : Scheduler) (pod : Pod) : bool :=
  existsb (fun geoLocation => matchGeoLocation geoLocation (P_GeoLocation pod)) (U_GeoLocation (S_Union scheduler)).

(** The predicates of a process (distributor_process.go:105-107 NewProcess). *)
Definition predicates : list (Scheduler -> Pod -> bool) := [GeoLocationPredicate].

(** (distributor_process.go:287-294) *)
Fixpoint predicatesApply (ps : list (Scheduler -> Pod -> bool)) (scheduler : Scheduler) (pod : Pod) : bool :=
  match ps with
  | [] => true
  | predicate :: ps => if negb (predicate scheduler pod) then false else predicatesApply ps scheduler pod
  end.

(** (distributor_process.go:274-285) *)
Definition runPredicates (ss : list Scheduler) (pod : Pod) : list Scheduler :=
  filter (fun scheduler => predicatesApply predicates scheduler pod = true) ss.

(** ** Choosing a scheduler *)

Section Process.
(** The API server, and the random source with its state. *)
Context {W : Type}.
Context (rand_Intn : nat -> W -> nat * W).
Context (api_Bind : Pod -> string -> string -> W -> result unit * W).
Context (api_UpdateStatus : string -> Pod -> W -> result unit * W).
Context (api_UpdateAlloc : Alloc.Allocation -> W -> result unit * W).

(** A random element; [None] is an index out of range (distributor_process.go:250-257 findFit). *)
Definition pick (fits : list Scheduler) (failure : string) (w : W) : option (result string * W) :=
  match length fits with
  | O => Some (Err failure, w)
  | seed => let '(i, w) := rand_Intn seed w in s ← fits !! i; Some (Ok (S_Name s), w)
  end.

(** (distributor_process.go:250-257) *)
Definition findFit (p : Process) (pod : Pod) (w : W) : option (result string * W) :=
  pick (runPredicates (schedulers p) pod) "failed to find a scheduler that fits pod" w.

(** (distributor_process.go:259-272) *)
Definition bindPod (p : Process) (pod : Pod) (scheduler : string) (w : W) : result unit * W :=
  api_Bind pod scheduler (p_name p) w.

Definition set_pod_phase (pod : Pod) (phase : string) : Pod :=
  mkPod (P_Name pod) (P_Namespace pod) (P_CreationTime pod) (P_DeletionTime pod) (P_ResourceType pod) (P_GeoLocation pod)
    (P_ClusterName pod) (P_VMName pod) (P_Image pod) (P_FlavorIDs pod) (P_Nics pod) (P_SecurityGroupId pod)
    phase (P_DispatcherName pod) (P_ClusterInstanceId pod).

(** The pod as it is left (distributor_process.go:227-248). *)
Definition ScheduleOne (p : Process) (pod : Pod) (w : W) : option (Pod * W) :=
  '(r, w) ← findFit p pod w;
  match r with
  | Err _ => Some (pod, w)
  | Ok scheduler =>
      let '(b, w) := bindPod p pod scheduler w in
      match b with
      | Ok _ => Some (pod, w)
      | Err _ =>
          let pod := set_pod_phase pod "Failed" in
          let '(_, w) := api_UpdateStatus (p_namespace p) pod w in
          Some (pod, w)
      end
  end.

(** Pods of other resource types are not scheduled (distributor_process.go:205-222 initPodInformers). *)
Definition addPod (p : Process) (pod : Pod) (w : W) : option (Pod * W) :=
  if String.eqb (P_ResourceType pod) "vm" then ScheduleOne p pod w else Some (pod, w).

(** (distributor_process.go:380-397) *)
Definition findScheduler (p : Process) (allocation : Alloc.Allocation) (w : W) : option (result string * W) :=
  let loc := Alloc.Sel_GeoLocation (Alloc.A_Selector allocation) in
  pick (filter (fun s => existsb (fun g => isAllocationGeoLocationMatched g loc) (U_GeoLocation (S_Union s)) = true) (schedulers p))
    "failed to find a scheduler that fits allocation" w.

Definition set_status (a : Alloc.Allocation) (st : Alloc.AllocationStatus) : Alloc.Allocation :=
  Alloc.mkAllocation (Alloc.A_Name a) (Alloc.A_Namespace a) (Alloc.A_Tenant a) (Alloc.CreationTime a) (Alloc.DeletionTime a)
    (Alloc.GroupName a) (Alloc.GroupResources a) (Alloc.A_Selector a) (Alloc.Replicas a) st.

(** The allocation as it is left (distributor_process.go:352-378). *)
Definition ScheduleAllocation (p : Process) (alloc : Alloc.Allocation) (w : W) : option (Alloc.Allocation * W) :=
  '(r, w) ← findScheduler p alloc w;
  match r with
  | Err _ => Some (alloc, w)
  | Ok scheduler =>
      let alloc := set_status alloc (Alloc.mkStatus Alloc.AllocationAssigned (p_name p) "" scheduler []) in
      let '(u, w) := api_UpdateAlloc alloc w in
      match u with
      | Ok _ => Some (alloc, w)
      | Err _ =>
          let alloc := set_status alloc (Alloc.mkStatus Alloc.AllocationFailed (p_name p) "" scheduler []) in
          let '(_, w) := api_UpdateAlloc alloc w in
          Some (alloc, w)
      end
  end.
End Process.

(** ** Theorems *)

(** The location that is asked for admits the place: every field it sets agrees. *)
Definition admits (loc : Alloc.GeoLocation) (g : GeolocationInfo) : Prop :=
  (Alloc.Country loc = ""%string ∨ GI_Country g = Alloc.Country loc) ∧ (Alloc.Area loc = ""%string ∨ GI_Area g = Alloc.Area loc) ∧
  (Alloc.Province loc = ""%string ∨ GI_Province g = Alloc.Province loc) ∧ (Alloc.City loc = ""%string ∨ GI_City g = Alloc.City loc).

Lemma matchGeoLocation_spec g loc : matchGeoLocation g loc = true <-> admits loc g.
Proof.
  unfold matchGeoLocation, admits.
  destruct (String.eqb_spec (Alloc.Country loc) ""), (String.eqb_spec (Alloc.Area loc) ""),
    (String.eqb_spec (Alloc.Province loc) ""), (String.eqb_spec (Alloc.City loc) ""); simpl;
    repeat match goal with |- context[String.eqb ?a ?b] => destruct (String.eqb_spec a b); simpl end; intuition congruence.
Qed.

Lemma isAllocationGeoLocationMatched_eq g loc : isAllocationGeoLocationMatched g loc = matchGeoLocation g loc.
Proof. done. Qed.

(** A scheduler of the list has a place that the location admits. *)
Definition covers_location (loc : Alloc.GeoLocation) (s : Scheduler) : Prop :=
  ∃ g, g ∈ U_GeoLocation (S_Union s) ∧ admits loc g.

Lemma existsb_match loc s : existsb (fun g => matchGeoLocation g loc) (U_GeoLocation (S_Union s)) = true <-> covers_location loc s.
Proof.
  rewrite existsb_exists. unfold covers_location. split.
  - intros (g & Hin & Hm). exists g. split; [by apply list_elem_of_In|by apply matchGeoLocation_spec].
  - intros (g & Hin & Hm). exists g. split; [by apply list_elem_of_In|by apply matchGeoLocation_spec].
Qed.

Section Choice.
Context {W : Type} (rand_Intn : nat -> W -> nat * W).
Hypothesis Hrand : forall n w, (0 < n)%nat -> ((rand_Intn n w).1 < n)%nat.

Lemma pick_spec fits e w : ∃ r w', pick rand_Intn fits e w = Some (r, w') ∧
  match r with Ok name => ∃ s, s ∈ fits ∧ S_Name s = name | Err e' => fits = [] ∧ e' = e end.
Proof.
  unfold pick. destruct fits as [|s0 fits]; [by exists (Err e), w|]. cbn [length].
  specialize (Hrand (S (length fits)) w ltac:(lia)). destruct (rand_Intn _ w) as [i w']. simpl in Hrand.
  destruct (lookup_lt_is_Some_2 (s0 :: fits) i) as [s Hs]; [simpl; lia|]. rewrite Hs. bind_simpl.
  exists (Ok (S_Name s)), w'. split; [done|]. exists s. split; [by eapply list_elem_of_lookup_2|done].
Qed.

(** A choice among the schedulers of a list that satisfy [P]. *)
Definition chosen_from (P : Scheduler -> Prop) (ss : list Scheduler) (out : option (result string * W)) : Prop :=
  ∃ r w', out = Some (r, w') ∧
    match r with Ok name => ∃ s, s ∈ ss ∧ P s ∧ S_Name s = name | Err _ => forall s, s ∈ ss -> ~ P s end.

Lemma pick_chosen (P Q : Scheduler -> Prop) `{forall s, Decision (P s)} ss e w : (forall s, P s <-> Q s) ->
  chosen_from Q ss (pick rand_Intn (filter P ss) e w).
Proof.
  intros HPQ. destruct (pick_spec (filter P ss) e w) as (r & w' & Hp & Hr). exists r, w'. split; [done|]. destruct r as [name|e'].
  - destruct Hr as (s & [HP Hin]%list_elem_of_filter & Hn). exists s. by rewrite <- HPQ.
  - destruct Hr as [Hnil _]. intros s Hin HQ%HPQ. assert (s ∈ filter P ss) as Hs by by apply list_elem_of_filter.
    rewrite Hnil in Hs. by apply elem_of_nil in Hs.
Qed.

Lemma findFit_chosen p pod w :
  chosen_from (covers_location (P_GeoLocation pod)) (schedulers p) (findFit rand_Intn p pod w).
Proof. apply pick_chosen. intros s. rewrite <- existsb_match. simpl. unfold GeoLocationPredicate. by destruct (existsb _ _). Qed.

(** Choosing a scheduler for a pod or an allocation never panics and is exact:
    a name that is returned belongs to a scheduler one of whose places the asked
    location admits, and an error means that there is no such scheduler. *)
Theorem scheduler_choice_is_exact p pod alloc w :
  chosen_from (covers_location (P_GeoLocation pod)) (schedulers p) (findFit rand_Intn p pod w) ∧
  chosen_from (covers_location (Alloc.Sel_GeoLocation (Alloc.A_Selector alloc))) (schedulers p) (findScheduler rand_Intn p alloc w).
Proof.
  split; [apply findFit_chosen|]. apply pick_chosen. intros s. apply existsb_match.
Qed.
End Choice.

(** When the schedulers serve the live clusters, which is what the scheduler
    controller establishes, a pod that asks for the place of a live cluster is given
    a scheduler that covers its location. *)
Theorem pod_for_live_cluster_is_assigned {W} (rand_Intn : nat -> W -> nat * W) cs p c pod w :
  (forall n w, (0 < n)%nat -> ((rand_Intn n w).1 < n)%nat) ->
  balanced cs (schedulers p) -> c ∈ cs -> admits (P_GeoLocation pod) (C_GeoLocation c) ->
  ∃ s w', findFit rand_Intn p pod w = Some (Ok (S_Name s), w') ∧ s ∈ schedulers p ∧ covers_location (P_GeoLocation pod) s.
Proof.
  intros Hrand Hb Hc Hadm. destruct (Hb c Hc) as (s & Hs & _ & Hgeo & _).
  destruct (findFit_chosen rand_Intn Hrand p pod w) as (r & w' & Hf & Hr).
  destruct r as [name|e]; [|by destruct (Hr s Hs); exists (C_GeoLocation c)].
  destruct Hr as (s' & Hin & Hcov & <-). by exists s', w'.
Qed.

(** A random source that always answers the last index. *)
Definition demo_rand (n : nat) (w : unit) : nat * unit := (pred n, w).
Definition demo_pod (country city : string) : Pod :=
  mkPod "pod" "default" 0 None "vm" (Alloc.mkGeo city "" "" country) "" "" "" [] [] "" "Pending" "" "".
Definition demo_served (name : string) (c : Cluster) : Scheduler :=
  mkScheduler name "default" (mkGeolocation "" "" "" "") "" [C_Name c]
    (mkUnion [C_GeoLocation c] [C_Region c] [C_Operator c] (C_Flavors c) (C_Storage c) [C_EipCapacity c]
       [C_CPUCapacity c] [C_MemCapacity c] [C_ServerPrice c]) "" "".
Definition demo_bellevue : Cluster := demo_cluster "US" "NW" "Washington" "Bellevue" "c1" 1.
Definition demo_process : Process :=
  mkProcess "default" "d1" [demo_served "s0" (demo_cluster "CN" "N" "Beijing" "Beijing" "c0" 1); demo_served "s1" demo_bellevue] 0 MaxInt64.
Definition demo_alloc (country : string) : Alloc.Allocation :=
  Alloc.mkAllocation "a" "default" "t" 0 None "g" [] (Alloc.mkSelector (Alloc.mkGeo "" "" "" country) [] "" "") 1
    (Alloc.mkStatus Alloc.AllocationNew "" "" "" []).

Lemma demo_rand_ok : forall n w, (0 < n)%nat -> ((demo_rand n w).1 < n)%nat.
Proof. intros n w Hn. simpl. lia. Qed.

Lemma scheduler_choice_is_exact_witness :
  findFit demo_rand demo_process (demo_pod "US" "Bellevue") tt = Some (Ok "s1"%string, tt) ∧
  chosen_from (covers_location (Alloc.mkGeo "" "" "" "FR")) (schedulers demo_process)
    (findScheduler demo_rand demo_process (demo_alloc "FR") tt).
Proof.
  split; [vm_compute; reflexivity|].
  apply (scheduler_choice_is_exact demo_rand demo_rand_ok demo_process (demo_pod "" "") (demo_alloc "FR") tt).
Defined.

Lemma demo_serves name c : serves (demo_served name c) c.
Proof. unfold serves. simpl. split_and!; try (by apply list_elem_of_singleton); done. Qed.

Lemma pod_for_live_cluster_is_assigned_witness :
  ∃ s w', findFit demo_rand demo_process (demo_pod "US" "") tt = Some (Ok (S_Name s), w') ∧
    s ∈ schedulers demo_process ∧ covers_location (Alloc.mkGeo "" "" "" "US") s.
Proof.
  apply (pod_for_live_cluster_is_assigned demo_rand [demo_bellevue] demo_process demo_bellevue (demo_pod "US" "") tt demo_rand_ok).
  - intros c ->%list_elem_of_singleton. exists (demo_served "s1" demo_bellevue). split; [by right; left|apply demo_serves].
  - by left.
  - unfold admits. cbn. tauto.
Defined.

(** *** The scheduler list *)

(** The schedulers that exist according to the informer, by name. *)
Definition informer_step (m : gmap string Scheduler) (e : informer_event) : option (gmap string Scheduler) :=
  match e with
  | Added s => match m !! S_Name s with None => Some (<[S_Name s := s]> m) | Some _ => None end
  | Updated old new =>
      if bool_decide (S_Name old = S_Name new ∧ m !! S_Name old = Some old) then Some (<[S_Name new := new]> m) else None
  | Deleted s => None
  end.
Fixpoint informer_run (m : gmap string Scheduler) (es : list informer_event) : option (gmap string Scheduler) :=
  match es with [] => Some m | e :: es => m ← informer_step m e; informer_run m es end.

(** The list holds the existing schedulers, each once. *)
Definition lists (m : gmap string Scheduler) (ss : list Scheduler) : Prop :=
  NoDup (S_Name <$> ss) ∧ forall s, s ∈ ss <-> m !! S_Name s = Some s.

Lemma replace_first_spec name new ss old : NoDup (S_Name <$> ss) -> old ∈ ss -> S_Name old = name -> S_Name new = name ->
  S_Name <$> replace_first name new ss = S_Name <$> ss ∧
  forall s, s ∈ replace_first name new ss <-> s = new ∨ (s ∈ ss ∧ S_Name s ≠ name).
Proof.
  intros Hnd Hin Hold Hnew. induction ss as [|a ss IH]; [by apply elem_of_nil in Hin|]. csimpl in *.
  apply NoDup_cons in Hnd as [Ha Hnd]. destruct (String.eqb_spec (S_Name a) name) as [Heq|Hne].
  - csimpl. split; [congruence|]. intros s. rewrite !elem_of_cons. split; [|intros [?|[[->|?] ?]]; tauto].
    intros [?|Hs]; [tauto|]. right. split; [tauto|]. intros Hs'. destruct Ha. rewrite Heq, <- Hs'. by apply list_elem_of_fmap_2.
  - apply elem_of_cons in Hin as [->|Hin]; [done|]. destruct (IH Hnd Hin) as [IHn IHs]. csimpl. rewrite IHn. split; [done|].
    intros s. rewrite !elem_of_cons, IHs. split; [intros [->|[?|[? ?]]]; tauto|tauto].
Qed.

Lemma handle_lists p m e m' : lists m (schedulers p) -> informer_step m e = Some m' -> lists m' (schedulers (handle p e)).
Proof.
  intros [Hnd Hel] Hstep. destruct e as [s|old new|s]; simpl in *; [| |done].
  - destruct (m !! S_Name s) eqn:Hm; [done|]. injection Hstep as <-. split.
    + rewrite fmap_app. apply NoDup_app. split_and!; [done| |apply NoDup_singleton].
      intros n (s' & -> & Hin)%list_elem_of_fmap Hn%list_elem_of_singleton. apply Hel in Hin. congruence.
    + intros s'. rewrite elem_of_app, list_elem_of_singleton, Hel. destruct (decide (S_Name s' = S_Name s)) as [He|Hne].
      * rewrite He, lookup_insert_eq, Hm. split; [intros [?| ->]; done|]. intros [= ->]. by right.
      * rewrite lookup_insert_ne by done. split; [by intros [?| ->]|tauto].
  - case_bool_decide as Hc; [|done]. destruct Hc as [Hn Hold]. injection Hstep as <-.
    assert (old ∈ schedulers p) as Hin by by apply Hel.
    destruct (replace_first_spec (S_Name old) new (schedulers p) old Hnd Hin eq_refl (eq_sym Hn)) as [Hnames Hin'].
    split; [by rewrite Hnames|]. intros s. rewrite Hin', Hel, <- Hn. destruct (decide (S_Name s = S_Name old)) as [He|Hne].
    + rewrite He, lookup_insert_eq. split; [intros [->|[_ []]]; done|]. intros [= ->]. by left.
    + rewrite lookup_insert_ne by done. split; [|tauto]. intros [->|[? _]]; [by rewrite Hn in Hne|done].
Qed.

(** As long as no scheduler is deleted, the process's list is exactly the set of
    schedulers that exist, each once and in its newest version, after any sequence of
    informer events. *)
Theorem scheduler_list_follows_informer es m p : informer_run ∅ es = Some m -> schedulers p = [] ->
  NoDup (S_Name <$> schedulers (foldl handle p es)) ∧
  forall s, s ∈ schedulers (foldl handle p es) <-> m !! S_Name s = Some s.
Proof.
  intros Hrun Hp. assert (lists ∅ (schedulers p)) as Hl.
  { rewrite Hp. split; [constructor|]. intros s. rewrite lookup_empty. split; [by intros ?%elem_of_nil|done]. }
  revert Hrun Hl. generalize (∅ : gmap string Scheduler). clear Hp. revert p.
  induction es as [|e es IH]; intros p m0 Hrun Hl; simpl in *; [by injection Hrun as <-|].
  destruct (informer_step m0 e) as [m1|] eqn:Hs; [|done]. simpl in Hrun. by eapply (IH _ m1), handle_lists.
Qed.

Definition demo_informer_events : list informer_event :=
  [Added (demo_scheduler "s1" []); Added (demo_scheduler "s2" []); Updated (demo_scheduler "s1" []) (demo_scheduler "s1" ["c1"%string])].

Lemma scheduler_list_follows_informer_witness :
  ∃ m, informer_run ∅ demo_informer_events = Some m ∧
    NoDup (S_Name <$> schedulers (foldl handle (mkProcess "default" "d1" [] 0 1) demo_informer_events)).
Proof.
  destruct (informer_run ∅ demo_informer_events) as [m|] eqn:Hr; [|by vm_compute in Hr].
  exists m. split; [done|]. apply (scheduler_list_follows_informer demo_informer_events m (mkProcess "default" "d1" [] 0 1) Hr eq_refl).
Defined.

(** Deleting a scheduler never removes it from the list: the handler compares
    structs with a pointer, which are never deeply equal. *)
Theorem deleted_scheduler_stays p s : handle p (Deleted s) = p.
Proof.
  unfold handle, deleteScheduler. destruct (existsb _ (schedulers p)) eqn:He; [|done].
  apply existsb_exists in He as (item & _ & He). unfold DeepEqual in He. by case_bool_decide.
Qed.
