(* ===== verification/SiteTree.v ===== *)
(** * The site tree

    Models [globalscheduler/pkg/scheduler/internal/cache/site_tree.go]: the sites
    arranged by zone, with the round-robin iterator that gives the scheduler its
    order of sites.  The theorem shows that, whatever was added and removed before,
    a round of the iterator visits every site exactly once. *)
From S2P Require Import Prelude Types.

(** (site_tree.go:42-45) *)
Record siteArray := mkArray { siteIDs : list string; lastIndex : nat }.

(** (site_tree.go:32-37) *)
Record siteTree := mkTree { tree : gmap string siteArray; zones : list string; zoneIndex : nat; numSites : Z }.

(** The next site of a zone, whether the zone is exhausted, and the zone after the
    call (site_tree.go:47-58 next). *)
Definition array_next (na : siteArray) : string * bool * siteArray :=
  if Nat.eqb (length (siteIDs na)) 0 then (""%string, false, na)
  else match siteIDs na !! lastIndex na with
       | None => (""%string, true, na)
       | Some siteID => (siteID, false, mkArray (siteIDs na) (S (lastIndex na)))
       end.

(** (site_tree.go:73-88) *)
Definition addSite (nt : siteTree) (site : Site) : siteTree :=
  let zone := GetZoneKey site in
  match tree nt !! zone with
  | Some na =>
      if existsb (fun siteID => String.eqb siteID (SiteID site)) (siteIDs na) then nt
      else mkTree (<[zone := mkArray (siteIDs na ++ [SiteID site]) (lastIndex na)]> (tree nt)) (zones nt) (zoneIndex nt) (numSites nt + 1)
  | None =>
      mkTree (<[zone := mkArray [SiteID site] 0]> (tree nt)) (zones nt ++ [zone]) (zoneIndex nt) (numSites nt + 1)
  end.

(** (site_tree.go:61-69) *)
Definition newSiteCacheTree (sites : list Site) : siteTree := foldl addSite (mkTree ∅ [] 0 0) sites.

(** [append(l\[:i\], l\[i+1:\]...)] at the first element equal to [x]. *)
Fixpoint remove_first (x : string) (l : list string) : list string :=
  match l with
  | [] => []
  | y :: l => if String.eqb y x then l else y :: remove_first x l
  end.

(** (site_tree.go:112-120) *)
Definition removeZone (nt : siteTree) (zone : string) : siteTree :=
  mkTree (delete zone (tree nt)) (remove_first zone (zones nt)) (zoneIndex nt) (numSites nt).

(** (site_tree.go:91-108) *)
Definition removeSite (nt : siteTree) (n : Site) : siteTree * result unit :=
  let zone := GetZoneKey n in
  let missing := (nt, Err ("site " +:+ SiteID n +:+ " in group " +:+ zone +:+ " was not found")) in
  match tree nt !! zone with
  | None => missing
  | Some na =>
      if existsb (fun siteID => String.eqb siteID (SiteID n)) (siteIDs na) then
        let ids := remove_first (SiteID n) (siteIDs na) in
        let nt := mkTree (<[zone := mkArray ids (lastIndex na)]> (tree nt)) (zones nt) (zoneIndex nt) (numSites nt) in
        let nt := if Nat.eqb (length ids) 0 then removeZone nt zone else nt in
        (mkTree (tree nt) (zones nt) (zoneIndex nt) (numSites nt - 1), Ok tt)
      else missing
  end.

(** The callers pass an old site that is not nil (site_tree.go:123-139). *)
Definition updateSite (nt : siteTree) (old new : Site) : siteTree :=
  if String.eqb (GetZoneKey old) (GetZoneKey new) then nt
  else addSite (removeSite nt old).1 new.

(** (site_tree.go:141-146) *)
Definition resetExhausted (nt : siteTree) : siteTree :=
  mkTree ((fun na => mkArray (siteIDs na) 0) <$> tree nt) (zones nt) 0 (numSites nt).

(** The loop of [next]; [None] is a zone without an array, or too little fuel
    (site_tree.go:155-172 next). *)
Fixpoint next_loop (fuel : nat) (numExhaustedZones : nat) (nt : siteTree) : option (string * siteTree) :=
  match fuel with
  | O => None
  | S fuel =>
      let zi := if Nat.leb (length (zones nt)) (zoneIndex nt) then 0%nat else zoneIndex nt in
      zone ← zones nt !! zi;
      na ← tree nt !! zone;
      let '(siteID, exhausted, na) := array_next na in
      let nt := mkTree (<[zone := na]> (tree nt)) (zones nt) (S zi) (numSites nt) in
      if exhausted then
        let n := S numExhaustedZones in
        next_loop fuel n (if Nat.leb (length (zones nt)) n then resetExhausted nt else nt)
      else Some (siteID, nt)
  end.

(** Every zone is visited at most once before the reset and one after it. *)
Definition next_fuel (nt : siteTree) : nat := S (length (zones nt)).

(** (site_tree.go:150-173) *)
Definition next (nt : siteTree) : option (string * siteTree) :=
  if Nat.eqb (length (zones nt)) 0 then Some (""%string, nt)
  else next_loop (next_fuel nt) 0 nt.

(** [n] calls of [next], as the snapshot makes them. *)
Fixpoint next_n (n : nat) (nt : siteTree) : option (list string * siteTree) :=
  match n with
  | O => Some ([], nt)
  | S n => '(siteID, nt) ← next nt; '(rest, nt) ← next_n n nt; Some (siteID :: rest, nt)
  end.

(** ** The iterator *)

(** A zone has been visited since the last reset. *)
Definition last_of (nt : siteTree) (z : string) : nat :=
  match tree nt !! z with Some na => lastIndex na | None => 0 end.

(** Every zone holds its one site, and the first [k] zones are the visited ones. *)
Definition zones_ok (nt : siteTree) : Prop :=
  NoDup (zones nt) ∧ (forall z, is_Some (tree nt !! z) <-> z ∈ zones nt) ∧
  (forall z na, tree nt !! z = Some na -> siteIDs na = [z] ∧ (lastIndex na <= 1)%nat).
Definition visited_prefix (nt : siteTree) (k : nat) : Prop :=
  forall i z, zones nt !! i = Some z -> last_of nt z = if Nat.ltb i k then 1%nat else 0%nat.
Definition tree_wf (nt : siteTree) : Prop :=
  zones_ok nt ∧ numSites nt = Z.of_nat (length (zones nt)) ∧ ∃ k, (k <= length (zones nt))%nat ∧ visited_prefix nt k.

(** Marking a zone as visited, with the index moved on. *)
Definition mark (nt : siteTree) (z : string) (zi : nat) : siteTree :=
  mkTree (<[z := mkArray [z] 1]> (tree nt)) (zones nt) zi (numSites nt).

Lemma mark_ok nt z zi : zones_ok nt -> z ∈ zones nt -> zones_ok (mark nt z zi).
Proof.
  intros (Hnd & Hdom & Hone) Hz. unfold zones_ok, mark. simpl. split_and!; [done| |].
  - intros z'. destruct (decide (z' = z)) as [->|Hne]; [rewrite lookup_insert_eq; by split|].
    rewrite lookup_insert_ne by done. apply Hdom.
  - intros z' na. destruct (decide (z' = z)) as [->|Hne]; [rewrite lookup_insert_eq; by intros [= <-]|].
    rewrite lookup_insert_ne by done. apply Hone.
Qed.

Lemma last_of_mark nt z zi z' : last_of (mark nt z zi) z' = if decide (z' = z) then 1%nat else last_of nt z'.
Proof.
  unfold last_of, mark. simpl. destruct (decide (z' = z)) as [->|Hne]; [by rewrite lookup_insert_eq|].
  by rewrite lookup_insert_ne.
Qed.

Lemma reset_ok nt : zones_ok nt -> zones_ok (resetExhausted nt).
Proof.
  intros (Hnd & Hdom & Hone). unfold zones_ok, resetExhausted. simpl. split_and!; [done| |].
  - intros z. rewrite lookup_fmap, fmap_is_Some. apply Hdom.
  - intros z na. rewrite lookup_fmap. intros (na' & Hna & ->)%fmap_Some. apply Hone in Hna as [? ?]. simpl. split; [done|lia].
Qed.
Lemma last_of_reset nt z : last_of (resetExhausted nt) z = 0%nat.
Proof. unfold last_of, resetExhausted. simpl. rewrite lookup_fmap. by destruct (tree nt !! z). Qed.

(** The index the loop looks at. *)
Definition position (nt : siteTree) : nat :=
  if Nat.leb (length (zones nt)) (zoneIndex nt) then 0%nat else zoneIndex nt.

(** One turn of the loop at a zone that is not visited. *)
Lemma next_loop_found fuel e nt z : zones_ok nt -> zones nt !! position nt = Some z -> last_of nt z = 0%nat ->
  next_loop (S fuel) e nt = Some (z, mark nt z (S (position nt))).
Proof.
  intros (_ & Hdom & Hone) Hz Hl. cbn [next_loop]. fold (position nt). rewrite Hz. bind_simpl.
  destruct (proj2 (Hdom z)) as [na Hna]; [by eapply list_elem_of_lookup_2|]. rewrite Hna. bind_simpl.
  unfold last_of in Hl. rewrite Hna in Hl. destruct (Hone z na Hna) as [Hids _]. unfold array_next. rewrite Hids, Hl. done.
Qed.

(** One turn at a visited zone. *)
Lemma next_loop_skip fuel e nt z : zones_ok nt -> zones nt !! position nt = Some z -> last_of nt z = 1%nat ->
  next_loop (S fuel) e nt =
  let nt' := mkTree (tree nt) (zones nt) (S (position nt)) (numSites nt) in
  next_loop fuel (S e) (if Nat.leb (length (zones nt)) (S e) then resetExhausted nt' else nt').
Proof.
  intros (_ & Hdom & Hone) Hz Hl. cbn [next_loop]. fold (position nt). rewrite Hz. bind_simpl.
  destruct (proj2 (Hdom z)) as [na Hna]; [by eapply list_elem_of_lookup_2|]. rewrite Hna. bind_simpl.
  unfold last_of in Hl. rewrite Hna in Hl. destruct (Hone z na Hna) as [Hids _]. unfold array_next. rewrite Hids, Hl. simpl.
  rewrite insert_id by done. done.
Qed.

(** [n] steps around a circle of [n] positions reach each of them. *)
Lemma circle n i0 i : (i0 < n)%nat -> (i < n)%nat -> ∃ j, (j < n)%nat ∧ ((i0 + j) mod n = i)%nat.
Proof.
  intros Hi0 Hi. destruct (decide (i0 <= i)%nat).
  - exists (i - i0)%nat. split; [lia|]. replace (i0 + (i - i0))%nat with i by lia. by apply Nat.mod_small.
  - exists (i + n - i0)%nat. split; [lia|]. replace (i0 + (i + n - i0))%nat with (i + 1 * n)%nat by lia.
    rewrite Nat.Div0.mod_add. by apply Nat.mod_small.
Qed.

(** The zone [j] steps after [i0] is visited. *)
Definition seen (nt : siteTree) (i0 j : nat) : Prop :=
  forall z, zones nt !! ((i0 + j) mod length (zones nt))%nat = Some z -> last_of nt z = 1%nat.

Lemma seen_all nt i0 : (i0 < length (zones nt))%nat -> (forall j, (j < length (zones nt))%nat -> seen nt i0 j) ->
  forall z, z ∈ zones nt -> last_of nt z = 1%nat.
Proof.
  intros Hi0 Hseen z [i Hi]%list_elem_of_lookup. destruct (circle (length (zones nt)) i0 i) as (j & Hj & Hji); [done|by eapply lookup_lt_Some|].
  apply (Hseen j Hj). by rewrite Hji.
Qed.

Lemma last_of_cases nt z : zones_ok nt -> last_of nt z = 0%nat ∨ last_of nt z = 1%nat.
Proof.
  intros (_ & _ & Hone). unfold last_of. destruct (tree nt !! z) as [na|] eqn:Hna; [|by left]. apply Hone in Hna as [_ ?]. lia.
Qed.

Lemma position_step nt n zi : length (zones nt) = n -> (0 < n)%nat -> zoneIndex nt = S zi -> (zi < n)%nat -> position nt = (S zi mod n)%nat.
Proof.
  intros Hn Hpos Hz Hlt. unfold position. rewrite Hn, Hz. destruct (Nat.leb_spec n (S zi)).
  - replace (S zi) with n by lia. by rewrite Nat.Div0.mod_same.
  - rewrite Nat.mod_small; lia.
Qed.

(** Having seen [e] visited zones from [i0] on, the loop finds an unvisited one. *)
Lemma next_loop_unvisited i0 m : forall fuel e nt, zones_ok nt -> (e + m = length (zones nt))%nat ->
  (m <= fuel)%nat -> (i0 < length (zones nt))%nat -> position nt = ((i0 + e) mod length (zones nt))%nat ->
  (forall j, (j < e)%nat -> seen nt i0 j) -> (exists z, z ∈ zones nt ∧ last_of nt z = 0%nat) ->
  ∃ z zi, next_loop fuel e nt = Some (z, mark nt z zi) ∧ z ∈ zones nt ∧ last_of nt z = 0%nat.
Proof.
  induction m as [|m IH]; intros fuel e nt Hok Hem Hfuel Hi0 Hpos Hseen (z0 & Hz0 & Hl0).
  { rewrite (seen_all nt i0 Hi0) in Hl0; [done| |done]. intros j Hj. apply Hseen. lia. }
  destruct fuel as [|fuel]; [lia|]. set (n := length (zones nt)) in *.
  assert ((i0 + e) mod n < n)%nat as Hlt by (apply Nat.mod_upper_bound; lia).
  destruct (lookup_lt_is_Some_2 (zones nt) (position nt)) as [z Hz]; [by rewrite Hpos|].
  destruct (last_of_cases nt z Hok) as [Hl|Hl].
  { rewrite (next_loop_found fuel e nt z Hok Hz Hl). exists z, (S (position nt)). split_and!; [done|by eapply list_elem_of_lookup_2|done]. }
  assert (forall j, (j < S e)%nat -> seen nt i0 j) as Hseen'.
  { intros j Hj. destruct (decide (j = e)) as [->|]; [|apply Hseen; lia]. intros z' Hz'. fold n in Hz'. rewrite <- Hpos in Hz'. congruence. }
  rewrite (next_loop_skip fuel e nt z Hok Hz Hl). cbn zeta. destruct (Nat.leb_spec (length (zones nt)) (S e)) as [Hge|Hlt'].
  { rewrite (seen_all nt i0 Hi0) in Hl0; [done| |done]. intros j Hj. apply Hseen'. lia. }
  set (nt' := mkTree (tree nt) (zones nt) (S (position nt)) (numSites nt)).
  destruct (IH fuel (S e) nt') as (z' & zi & Hnext & Hin & Hl'); [done|simpl; lia|lia|done| |done|by exists z0|].
  - rewrite (position_step nt' n (position nt)) by (simpl; lia || done). rewrite Hpos. simpl. fold n.
    rewrite <- Nat.add_1_r, Nat.Div0.add_mod_idemp_l. f_equal. lia.
  - exists z', zi. by split_and!.
Qed.

(** A call on a tree with an unvisited zone returns one and marks it. *)
Lemma next_unvisited nt : zones_ok nt -> (exists z, z ∈ zones nt ∧ last_of nt z = 0%nat) ->
  ∃ z zi, next nt = Some (z, mark nt z zi) ∧ z ∈ zones nt ∧ last_of nt z = 0%nat.
Proof.
  intros Hok (z0 & Hz0 & Hl0). assert (0 < length (zones nt))%nat as Hn by (destruct (zones nt); [by apply elem_of_nil in Hz0|simpl; lia]).
  unfold next, next_fuel. destruct (Nat.eqb_spec (length (zones nt)) 0) as [|_]; [lia|].
  assert (position nt < length (zones nt))%nat as Hpos.
  { unfold position. destruct (Nat.leb_spec (length (zones nt)) (zoneIndex nt)); lia. }
  apply (next_loop_unvisited (position nt) (length (zones nt))); [done|lia|lia|done| |lia|by exists z0].
  rewrite Nat.add_0_r, Nat.mod_small; done.
Qed.

(** On a tree whose zones are all visited the loop comes around and resets. *)
Lemma next_loop_visited i0 m z0 : forall fuel e nt, zones_ok nt -> (e + m = length (zones nt))%nat ->
  (m < fuel)%nat -> (0 < m)%nat -> zones nt !! 0%nat = Some z0 -> position nt = ((i0 + e) mod length (zones nt))%nat ->
  (forall z, z ∈ zones nt -> last_of nt z = 1%nat) ->
  next_loop fuel e nt = Some (z0, mark (resetExhausted nt) z0 1).
Proof.
  induction m as [|m IH]; intros fuel e nt Hok Hem Hfuel Hm Hz0 Hpos Hvis; [lia|].
  destruct fuel as [|fuel]; [lia|]. set (n := length (zones nt)) in *.
  assert ((i0 + e) mod n < n)%nat as Hlt by (apply Nat.mod_upper_bound; lia).
  destruct (lookup_lt_is_Some_2 (zones nt) (position nt)) as [z Hz]; [by rewrite Hpos|].
  rewrite (next_loop_skip fuel e nt z Hok Hz) by (apply Hvis; by eapply list_elem_of_lookup_2). cbn zeta.
  set (nt' := mkTree (tree nt) (zones nt) (S (position nt)) (numSites nt)).
  destruct (Nat.leb_spec (length (zones nt)) (S e)) as [Hge|Hlt'].
  - destruct fuel as [|fuel]; [lia|].
    rewrite (next_loop_found fuel (S e) (resetExhausted nt') z0); [|by apply reset_ok| |apply last_of_reset].
    + unfold mark, resetExhausted, position. simpl. by destruct (Nat.leb _ _).
    + unfold position. simpl. destruct (Nat.leb_spec (length (zones nt)) 0); done.
  - rewrite (IH fuel (S e) nt'); [done|done|simpl; lia|lia|lia|done| |done].
    rewrite (position_step nt' n (position nt)) by (simpl; lia || done). rewrite Hpos. simpl. fold n.
    rewrite <- Nat.add_1_r, Nat.Div0.add_mod_idemp_l. f_equal. lia.
Qed.

Lemma next_visited nt z0 : zones_ok nt -> zones nt !! 0%nat = Some z0 -> (forall z, z ∈ zones nt -> last_of nt z = 1%nat) ->
  next nt = Some (z0, mark (resetExhausted nt) z0 1).
Proof.
  intros Hok Hz0 Hvis. pose proof (lookup_lt_Some _ _ _ Hz0) as Hn.
  unfold next, next_fuel. destruct (Nat.eqb_spec (length (zones nt)) 0) as [|_]; [lia|].
  apply (next_loop_visited (position nt) (length (zones nt))); [done|lia|lia|done|done| |done].
  rewrite Nat.add_0_r, Nat.mod_small; [done|]. unfold position. destruct (Nat.leb_spec (length (zones nt)) (zoneIndex nt)); lia.
Qed.

(** ** Rounds *)

Definition unvisited (nt : siteTree) : list string := filter (fun z => last_of nt z = 0%nat) (zones nt).

Lemma next_n_app a : forall b nt, next_n (a + b) nt =
  ('(l1, nt1) ← next_n a nt; '(l2, nt2) ← next_n b nt1; Some (l1 ++ l2, nt2)).
Proof.
  induction a as [|a IH]; intros b nt; simpl.
  { destruct (next_n b nt) as [[l2 nt2]|]; done. }
  destruct (next nt) as [[z nt1]|]; [simpl|done]. rewrite IH. destruct (next_n a nt1) as [[l1 nt2]|]; [simpl|done].
  destruct (next_n b nt2) as [[l2 nt3]|]; done.
Qed.

Lemma unvisited_mark nt z zi : NoDup (zones nt) -> z ∈ unvisited nt -> unvisited nt ≡ₚ z :: unvisited (mark nt z zi).
Proof.
  intros Hnd Hz. apply NoDup_Permutation.
  - by apply NoDup_filter.
  - apply NoDup_cons. split; [|by apply NoDup_filter].
    intros [Hl _]%list_elem_of_filter. rewrite last_of_mark, decide_True in Hl; done.
  - intros z'. unfold unvisited in *. rewrite elem_of_cons, !list_elem_of_filter, last_of_mark. simpl.
    apply list_elem_of_filter in Hz as [Hl Hin]. destruct (decide (z' = z)) as [->|Hne]; [tauto|]. split; [tauto|]. by intros [->|].
Qed.

(** First the unvisited zones, each once. *)
Lemma next_n_unvisited u : forall nt, zones_ok nt -> length (unvisited nt) = u ->
  ∃ l nt', next_n u nt = Some (l, nt') ∧ l ≡ₚ unvisited nt ∧ zones_ok nt' ∧ zones nt' = zones nt ∧
    numSites nt' = numSites nt ∧ forall z, z ∈ zones nt' -> last_of nt' z = 1%nat.
Proof.
  induction u as [|u IH]; intros nt Hok Hlen.
  { exists [], nt. apply nil_length_inv in Hlen. rewrite Hlen. split_and!; try done. intros z Hz.
    destruct (last_of_cases nt z Hok) as [Hl|]; [|done]. assert (z ∈ unvisited nt) as H0 by by apply list_elem_of_filter.
    rewrite Hlen in H0. by apply elem_of_nil in H0. }
  destruct (next_unvisited nt Hok) as (z & zi & Hn & Hin & Hl).
  { destruct (unvisited nt) as [|z l] eqn:Hu; [done|]. exists z.
    assert (z ∈ unvisited nt) as [? ?]%list_elem_of_filter by (rewrite Hu; by left). done. }
  assert (unvisited nt ≡ₚ z :: unvisited (mark nt z zi)) as Hp by (apply unvisited_mark; [apply Hok|by apply list_elem_of_filter]).
  destruct (IH (mark nt z zi)) as (l & nt' & Hnn & Hl' & Hok' & Hz' & Hns & Hvis); [by apply mark_ok| |].
  { apply Permutation_length in Hp. simpl in Hp. lia. }
  exists (z :: l), nt'. cbn [next_n]. rewrite Hn. bind_simpl. rewrite Hnn. split_and!; try done. by rewrite Hp, Hl'.
Qed.

(** After a reset the zones come in order. *)
Lemma next_n_in_order m : forall j nt, zones_ok nt -> zoneIndex nt = j -> visited_prefix nt j -> (j + m <= length (zones nt))%nat ->
  ∃ nt', next_n m nt = Some (take m (drop j (zones nt)), nt') ∧ zones_ok nt' ∧ zones nt' = zones nt ∧
    numSites nt' = numSites nt ∧ visited_prefix nt' (j + m).
Proof.
  induction m as [|m IH]; intros j nt Hok Hzi Hv Hle.
  { exists nt. rewrite Nat.add_0_r. by split_and!. }
  destruct (lookup_lt_is_Some_2 (zones nt) j ltac:(lia)) as [z Hz].
  assert (position nt = j) as Hpos by (unfold position; rewrite Hzi; destruct (Nat.leb_spec (length (zones nt)) j); lia).
  assert (next nt = Some (z, mark nt z (S j))) as Hn.
  { unfold next, next_fuel. destruct (Nat.eqb_spec (length (zones nt)) 0); [lia|]. rewrite (next_loop_found _ _ _ z); rewrite ?Hpos; [done..|].
    rewrite (Hv j z Hz). by rewrite Nat.ltb_irrefl. }
  assert (visited_prefix (mark nt z (S j)) (S j)) as Hv'.
  { intros i z' Hi. rewrite last_of_mark. simpl in Hi. destruct (decide (z' = z)) as [->|Hne].
    - assert (i = j) as -> by (eapply NoDup_lookup; [apply Hok|done..]). destruct (Nat.ltb_spec j (S j)); [done|lia].
    - rewrite (Hv i z' Hi). assert (i ≠ j) by congruence. destruct (Nat.ltb_spec i j), (Nat.ltb_spec i (S j)); lia. }
  destruct (IH (S j) (mark nt z (S j))) as (nt' & Hnn & Hok' & Hz' & Hns & Hv''); [|done|done|simpl; lia|].
  { apply mark_ok; [done|]. by eapply list_elem_of_lookup_2. }
  exists nt'. cbn [next_n]. rewrite Hn. bind_simpl. rewrite Hnn. cbn [mbind option_bind zones mark].
  rewrite (drop_S _ z j Hz). split_and!; try done. by rewrite Nat.add_succ_r.
Qed.

Lemma unvisited_prefix nt k : NoDup (zones nt) -> visited_prefix nt k -> unvisited nt = drop k (zones nt).
Proof.
  unfold unvisited, visited_prefix. generalize (last_of nt). intros f. revert k.
  induction (zones nt) as [|z zs IH]; intros k Hnd Hv; [by rewrite drop_nil|]. apply NoDup_cons in Hnd as [_ Hnd].
  pose proof (Hv 0%nat z eq_refl) as Hz. destruct k as [|k]; simpl in Hz.
  - rewrite filter_cons_True by done. rewrite drop_0. f_equal. etrans; [apply (IH 0%nat Hnd)|by rewrite drop_0].
    intros i z' Hi. apply (Hv (S i) z' Hi).
  - rewrite filter_cons_False by lia. simpl. apply IH; [done|]. intros i z' Hi. apply (Hv (S i) z' Hi).
Qed.

(** A round of calls returns the zones, each once, and keeps the tree as it is. *)
Lemma round_spec nt : tree_wf nt -> ∃ l nt', next_n (Z.to_nat (numSites nt)) nt = Some (l, nt') ∧ l ≡ₚ zones nt ∧
  tree_wf nt' ∧ zones nt' = zones nt.
Proof.
  intros (Hok & Hnum & k & Hk & Hv). rewrite Hnum, Nat2Z.id. pose proof (unvisited_prefix nt k (proj1 Hok) Hv) as Hun.
  set (n := length (zones nt)) in *. assert (next_n n nt = next_n ((n - k) + k) nt) as -> by (f_equal; lia).
  rewrite next_n_app.
  destruct (next_n_unvisited (n - k) nt Hok) as (l & nt1 & Hn1 & Hl & Hok1 & Hz1 & Hns1 & Hvis); [rewrite Hun, length_drop; lia|].
  rewrite Hn1. bind_simpl. destruct k as [|k].
  { exists (l ++ []), nt1. rewrite app_nil_r. cbn [next_n mbind option_bind]. rewrite app_nil_r. split_and!; [done|by rewrite Hl, Hun, drop_0| |done].
    split_and!; [done|by rewrite Hns1, Hnum, Hz1|]. exists n. rewrite Hz1. split; [done|]. intros i z Hi. rewrite Hvis by by eapply list_elem_of_lookup_2.
    apply lookup_lt_Some in Hi. rewrite Hz1 in Hi. destruct (Nat.ltb_spec i n); [done|lia]. }
  destruct (zones nt) as [|z0 zs] eqn:Hzs; [simpl in n; lia|].
  cbn [next_n]. rewrite (next_visited nt1 z0); [|done|by rewrite Hz1|done]. bind_simpl.
  set (nt2 := mark (resetExhausted nt1) z0 1).
  assert (visited_prefix nt2 1) as Hv2.
  { intros i z Hi. unfold nt2 in *. rewrite last_of_mark, last_of_reset. simpl in Hi. rewrite Hz1 in Hi. destruct i as [|i]; simpl in Hi.
    - injection Hi as ->. by rewrite decide_True.
    - rewrite decide_False; [done|]. intros ->. destruct Hok as (Hnd & _). rewrite Hzs in Hnd. apply NoDup_cons in Hnd as [Hni _].
      apply Hni. by eapply list_elem_of_lookup_2. }
  destruct (next_n_in_order k 1 nt2) as (nt3 & Hn3 & Hok3 & Hz3 & Hns3 & Hv3); [|done|done|simpl; rewrite Hz1; simpl in *; lia|].
  { apply mark_ok; [by apply reset_ok|]. simpl. rewrite Hz1. by left. }
  rewrite Hn3. bind_simpl. eexists _, nt3. split; [done|]. simpl in Hz3, Hns3. rewrite Hz1 in Hz3. split_and!; [|split_and!|done].
  - simpl. rewrite Hz1. simpl. rewrite Hl, Hun. simpl. rewrite drop_0, <- Permutation_middle. apply Permutation_cons; [done|].
    rewrite Permutation_app_comm. by rewrite take_drop.
  - done.
  - rewrite Hns3, Hns1, Hnum, Hz3. done.
  - exists (S k). rewrite Hz3. split; [simpl in *; lia|done].
Qed.

(** ** Changes *)

Lemma addSite_spec nt site : tree_wf nt ->
  tree_wf (addSite nt site) ∧ forall z, z ∈ zones (addSite nt site) <-> z = SiteID site ∨ z ∈ zones nt.
Proof.
  intros (Hok & Hnum & k & Hk & Hv). pose proof Hok as (Hnd & Hdom & Hone). unfold addSite, GetZoneKey.
  destruct (tree nt !! SiteID site) as [na|] eqn:Hna.
  { destruct (Hone _ _ Hna) as [-> _]. simpl. rewrite String.eqb_refl. simpl. split; [by split_and!; [..|exists k]|].
    intros z. split; [tauto|]. intros [->|]; [|done]. apply Hdom. by eexists. }
  assert (SiteID site ∉ zones nt) as Hni by (intros [na Hna']%Hdom; congruence).
  split; [split_and!|]; cbn [zones numSites tree].
  - split_and!; cbn [zones tree].
    + apply NoDup_app. split_and!; [done|by intros x Hx ->%list_elem_of_singleton|apply NoDup_singleton].
    + intros z. rewrite elem_of_app, list_elem_of_singleton, <- Hdom. destruct (decide (z = SiteID site)) as [->|Hne].
      * rewrite lookup_insert_eq. split; [tauto|by eexists].
      * rewrite lookup_insert_ne by done. tauto.
    + intros z na. destruct (decide (z = SiteID site)) as [->|Hne]; [rewrite lookup_insert_eq; intros [= <-]; simpl; by split; [|lia]|].
      rewrite lookup_insert_ne by done. apply Hone.
  - rewrite length_app. simpl. lia.
  - exists k. rewrite length_app. split; [simpl; lia|]. intros i z Hi. cbn [zones] in Hi. unfold last_of. cbn [tree].
    apply lookup_app_Some in Hi as [Hi|[Hge Hi]].
    + rewrite lookup_insert_ne; [by apply Hv|]. intros <-. apply Hni. by eapply list_elem_of_lookup_2.
    + apply list_lookup_singleton_Some in Hi as [Hi <-]. rewrite lookup_insert_eq. simpl. destruct (Nat.ltb_spec i k); [lia|done].
  - intros z. rewrite elem_of_app, list_elem_of_singleton. tauto.
Qed.

Lemma remove_first_split x l : x ∈ l -> NoDup l -> ∃ l1 l2, l = l1 ++ x :: l2 ∧ remove_first x l = l1 ++ l2 ∧ x ∉ l1 ++ l2.
Proof.
  intros Hx Hnd. induction l as [|y l IH]; [by apply elem_of_nil in Hx|]. apply NoDup_cons in Hnd as [Hy Hnd]. simpl.
  destruct (String.eqb_spec y x) as [->|Hne]; [by exists [], l|].
  apply elem_of_cons in Hx as [->|Hx]; [done|]. destruct (IH Hx Hnd) as (l1 & l2 & -> & -> & Hni).
  exists (y :: l1), l2. split_and!; [done|done|]. simpl. rewrite not_elem_of_cons. split; [congruence|done].
Qed.

Lemma removeSite_spec nt site : tree_wf nt ->
  tree_wf (removeSite nt site).1 ∧ (forall z, z ∈ zones (removeSite nt site).1 <-> z ∈ zones nt ∧ z ≠ SiteID site) ∧
  ((removeSite nt site).2 = Ok tt <-> SiteID site ∈ zones nt).
Proof.
  intros (Hok & Hnum & k & Hk & Hv). pose proof Hok as (Hnd & Hdom & Hone). unfold removeSite, GetZoneKey.
  destruct (tree nt !! SiteID site) as [na|] eqn:Hna.
  2: { assert (SiteID site ∉ zones nt) as Hni by (intros [na Hna']%Hdom; congruence). simpl.
    split_and!; [by split_and!; [..|exists k]| |by split]. intros z. split; [|tauto]. intros Hz. split; [done|]. by intros ->. }
  destruct (Hone _ _ Hna) as [-> _]. simpl. rewrite String.eqb_refl. simpl. rewrite delete_insert_eq.
  assert (SiteID site ∈ zones nt) as Hin by (apply Hdom; by eexists).
  destruct (remove_first_split _ _ Hin Hnd) as (l1 & l2 & Hz & -> & Hni).
  assert (forall z, z ∈ l1 ++ l2 <-> z ∈ zones nt ∧ z ≠ SiteID site) as Hel.
  { intros z. rewrite Hz, !elem_of_app, elem_of_cons. rewrite not_elem_of_app in Hni. split; [|tauto].
    intros Hzz. split; [tauto|]. intros ->. tauto. }
  split; [|by split]. split_and!; cbn [zones tree numSites].
  - split_and!; cbn [zones tree].
    + rewrite Hz in Hnd. apply NoDup_app in Hnd as (Hnd1 & Hdis & [_ Hnd2]%NoDup_cons). apply NoDup_app. split_and!; [done| |done].
      intros z Hz1 Hz2. apply (Hdis z Hz1). by constructor.
    + intros z. rewrite Hel, <- Hdom. destruct (decide (z = SiteID site)) as [->|Hne].
      * rewrite lookup_delete_eq. split; [by intros []|tauto].
      * rewrite lookup_delete_ne by done. tauto.
    + intros z na'. rewrite lookup_delete_Some. intros [_ Hz']. by apply Hone.
  - rewrite Hnum, Hz, !length_app. simpl. lia.
  - exists (if Nat.ltb (length l1) k then k - 1 else k)%nat. rewrite Hz, !length_app in Hk. simpl in Hk. rewrite length_app. split.
    { destruct (Nat.ltb_spec (length l1) k); lia. }
    intros i z Hi. cbn [zones] in Hi. unfold last_of. cbn [tree].
    rewrite lookup_delete_ne by (intros <-; apply Hni; by eapply list_elem_of_lookup_2). fold (last_of nt z).
    assert (zones nt !! (if Nat.ltb i (length l1) then i else S i) = Some z) as Hi'.
    { rewrite Hz. apply lookup_app_Some in Hi as [Hi|[Hge Hi]].
      - rewrite (proj2 (Nat.ltb_lt _ _)) by by eapply lookup_lt_Some. by apply lookup_app_l_Some.
      - rewrite (proj2 (Nat.ltb_ge _ _)) by done. rewrite lookup_app_r by lia.
        replace (S i - length l1)%nat with (S (i - length l1))%nat by lia. done. }
    rewrite (Hv _ _ Hi'). destruct (Nat.ltb_spec i (length l1)), (Nat.ltb_spec (length l1) k);
      repeat match goal with |- context[Nat.ltb ?a ?b] => destruct (Nat.ltb_spec a b) end; lia.
Qed.

(** ** Histories *)

(** What happens to the tree: changes of the cache and rounds of the snapshot. *)
Inductive tree_op := OpAdd (site : Site) | OpRemove (site : Site) | OpUpdate (old new : Site) | OpRound.

Definition tree_step (nt : siteTree) (op : tree_op) : option siteTree :=
  match op with
  | OpAdd site => Some (addSite nt site)
  | OpRemove site => Some (removeSite nt site).1
  | OpUpdate old new => Some (updateSite nt old new)
  | OpRound => '(_, nt) ← next_n (Z.to_nat (numSites nt)) nt; Some nt
  end.
Fixpoint tree_run (nt : siteTree) (ops : list tree_op) : option siteTree :=
  match ops with [] => Some nt | op :: ops => nt ← tree_step nt op; tree_run nt ops end.

(** The set of sites that the operations leave. *)
Definition sites_step (sites : gset string) (op : tree_op) : gset string :=
  match op with
  | OpAdd site => {[SiteID site]} ∪ sites
  | OpRemove site => sites ∖ {[SiteID site]}
  | OpUpdate old new => if String.eqb (SiteID old) (SiteID new) then sites else {[SiteID new]} ∪ (sites ∖ {[SiteID old]})
  | OpRound => sites
  end.

Lemma tree_step_spec nt op sites : tree_wf nt -> (forall z, z ∈ zones nt <-> z ∈ sites) ->
  ∃ nt', tree_step nt op = Some nt' ∧ tree_wf nt' ∧ forall z, z ∈ zones nt' <-> z ∈ sites_step sites op.
Proof.
  intros Hwf Hz. destruct op as [site|site|old new|]; simpl.
  - destruct (addSite_spec nt site Hwf) as [H1 H2]. eexists. split_and!; [done|done|]. intros z. by rewrite H2, Hz, elem_of_union, elem_of_singleton.
  - destruct (removeSite_spec nt site Hwf) as (H1 & H2 & _). eexists. split_and!; [done|done|]. intros z. by rewrite H2, Hz, elem_of_difference, elem_of_singleton.
  - unfold updateSite, GetZoneKey. destruct (String.eqb _ _); [by exists nt|].
    destruct (removeSite_spec nt old Hwf) as (H1 & H2 & _). destruct (addSite_spec _ new H1) as [H3 H4].
    eexists. split_and!; [done|done|]. intros z. by rewrite H4, H2, Hz, elem_of_union, elem_of_difference, !elem_of_singleton.
  - destruct (round_spec nt Hwf) as (l & nt' & -> & _ & Hwf' & Hzs). exists nt'. split_and!; [done|done|]. intros z. by rewrite Hzs.
Qed.

(** Whatever sites were added, removed and moved, and however often the sites
    were listed before, a round of the iterator terminates without a panic and
    returns every site of the tree exactly once. *)
Theorem site_round_is_complete ops :
  ∃ nt l nt', tree_run (newSiteCacheTree []) ops = Some nt ∧
    next_n (Z.to_nat (numSites nt)) nt = Some (l, nt') ∧ NoDup l ∧ numSites nt = Z.of_nat (length l) ∧
    forall z, z ∈ l <-> z ∈ foldl sites_step ∅ ops.
Proof.
  assert (∃ nt, tree_run (newSiteCacheTree []) ops = Some nt ∧ tree_wf nt ∧ forall z, z ∈ zones nt <-> z ∈ foldl sites_step ∅ ops) as (nt & Hrun & Hwf & Hz).
  { assert (tree_wf (newSiteCacheTree [])) as Hwf.
    { split_and!; [split_and!; simpl|done|by exists 0%nat]; [constructor| |done]. intros z. rewrite lookup_empty. by split; [intros []|intros ?%elem_of_nil]. }
    assert (forall z, z ∈ zones (newSiteCacheTree []) <-> z ∈ (∅ : gset string)) as Hz by (intros z; simpl; set_solver).
    revert Hwf Hz. generalize (newSiteCacheTree []) (∅ : gset string). induction ops as [|op ops IH]; intros nt sites Hwf Hz; [by exists nt|].
    destruct (tree_step_spec nt op sites Hwf Hz) as (nt' & Hs & Hwf' & Hz'). simpl. rewrite Hs. by apply IH. }
  destruct (round_spec nt Hwf) as (l & nt' & Hn & Hl & _ & _). exists nt, l, nt'. split_and!; [done|done| | |].
  - rewrite Hl. apply Hwf.
  - rewrite (Permutation_length Hl). apply Hwf.
  - intros z. by rewrite Hl.
Qed.
