(* ===== verification/Strconv.v ===== *)
(** * Strings and numbers of the Go library

    The functions of Go's [strings], [strconv] and [regexp] packages (Go 1.12, the
    version of the repository's [go.mod]) that the site cache calls, as executable
    definitions. *)
From S2P Require Import Prelude Types.

Local Open Scope Z_scope.

(** ** Splitting *)

Lemma string_app_assoc (a b c : string) : a +:+ (b +:+ c) = (a +:+ b) +:+ c.
Proof. induction a as [|x a IH]; [done|]. apply (f_equal (String x) IH). Qed.

Lemma string_app_nil (a : string) : a +:+ "" = a.
Proof. induction a as [|x a IH]; [done|]. apply (f_equal (String x) IH). Qed.

(** [strings.Split(s, sep)] for a non-empty separator; [acc] is the piece being read
    and [skip] the number of separator characters still to be passed over. *)
Fixpoint split_from (sep acc s : string) (skip : nat) : list string :=
  match s with
  | EmptyString => [acc]
  | String c s' =>
      match skip with
      | S skip => split_from sep acc s' skip
      | O => if String.prefix sep s then acc :: split_from sep "" s' (pred (String.length sep))
             else split_from sep (acc +:+ String c "") s' 0
      end
  end.
Definition strings_Split (s sep : string) : list string := split_from sep "" s 0.

(** ** Digits *)

Definition digit (c : ascii) : option Z :=
  let n := Z.of_nat (nat_of_ascii c) in
  if (48 <=? n) && (n <=? 57) then Some (n - 48) else None.

(** [strconv.ParseUint] in base ten, without the bound. *)
Fixpoint digits_from (acc : Z) (s : string) : option Z :=
  match s with
  | EmptyString => Some acc
  | String c s => d ← digit c; digits_from (acc * 10 + d) s
  end.

(** An optional sign in front: whether it is a minus, and the rest. *)
Definition split_sign (s : string) : bool * string :=
  match s with
  | String "+" s => (false, s)
  | String "-" s => (true, s)
  | _ => (false, s)
  end.

(** [strconv.ParseInt(s, 10, 64)]; [None] is a syntax or a range error. *)
Definition ParseInt (s : string) : option Z :=
  let '(neg, body) := split_sign s in
  match body with
  | EmptyString => None
  | _ =>
      n ← digits_from 0 body;
      let v := if neg then - n else n in
      if (MinInt64 <=? v) && (v <=? MaxInt64) then Some v else None
  end.

(** ** Formatting *)

Definition digit_char (d : Z) : ascii := ascii_of_nat (Z.to_nat (48 + d)).

(** The decimal digits of a natural number in front of [acc]; a 64-bit number has at most
    twenty. *)
Fixpoint digits_of (fuel : nat) (n : Z) (acc : string) : string :=
  match fuel with
  | O => acc
  | S fuel => let acc := String (digit_char (n `mod` 10)) acc in if n / 10 =? 0 then acc else digits_of fuel (n / 10) acc
  end.

(** [strconv.FormatInt(z, 10)] *)
Definition FormatInt (z : Z) : string := if z <? 0 then String "-" (digits_of 20 (- z) "") else digits_of 20 z "".

(** [strings.Join] *)
Fixpoint Join (l : list string) (sep : string) : string :=
  match l with [] => "" | [s] => s | s :: l => s +:+ sep +:+ Join l sep end.

Lemma join_cons v w l sep : Join (v :: w :: l) sep = v +:+ sep +:+ Join (w :: l) sep.
Proof. done. Qed.

(** Every character is in the class. *)
Fixpoint string_all (p : ascii -> bool) (s : string) : bool :=
  match s with EmptyString => true | String c s => p c && string_all p s end.

Lemma digit_of_char d : 0 <= d < 10 -> digit (digit_char d) = Some d.
Proof.
  intros H. unfold digit, digit_char. rewrite nat_ascii_embedding by lia. rewrite Z2Nat.id by lia.
  destruct (Z.leb_spec 48 (48 + d)), (Z.leb_spec (48 + d) 57); try lia. simpl. f_equal. lia.
Qed.

Lemma digit_of_rest n : digit (digit_char (n `mod` 10)) = Some (n `mod` 10).
Proof. apply digit_of_char. by apply Z.mod_pos_bound. Qed.

(** The digits of a number are read back as the number. *)
Lemma digits_read fuel : forall n s, 0 <= n < 10 ^ Z.of_nat fuel -> digits_from 0 (digits_of fuel n s) = digits_from n s.
Proof.
  induction fuel as [|fuel IH]; intros n s H; cbn [digits_of].
  { change (10 ^ Z.of_nat 0) with 1 in H. by replace n with 0 by lia. }
  rewrite Nat2Z.inj_succ, Z.pow_succ_r in H by lia. pose proof (Z.div_mod n 10 ltac:(lia)) as Hd.
  destruct (Z.eqb_spec (n / 10) 0) as [H0|H0].
  - cbn [digits_from]. rewrite digit_of_rest. bind_simpl. by replace (0 * 10 + n `mod` 10) with n by lia.
  - rewrite IH by (split; [apply Z.div_pos|apply Z.div_lt_upper_bound]; lia). cbn [digits_from]. rewrite digit_of_rest. bind_simpl.
    by replace (n / 10 * 10 + n `mod` 10) with n by lia.
Qed.

Lemma digits_all fuel : forall n s, string_all (fun c => bool_decide (is_Some (digit c))) s = true -> string_all (fun c => bool_decide (is_Some (digit c))) (digits_of fuel n s) = true.
Proof.
  induction fuel as [|fuel IH]; intros n s H; cbn [digits_of]; [done|].
  assert (string_all (fun c => bool_decide (is_Some (digit c))) (String (digit_char (n `mod` 10)) s) = true) as Hs
    by (cbn [string_all]; by rewrite digit_of_rest).
  destruct (_ =? 0); [done|by apply IH].
Qed.

Lemma digits_nonempty fuel n s : (0 < fuel)%nat ∨ s <> ""%string -> digits_of fuel n s <> ""%string.
Proof.
  revert n s. induction fuel as [|fuel IH]; intros n s H; cbn [digits_of]; [destruct H; [lia|done]|].
  destruct (_ =? 0); [done|]. apply IH. by right.
Qed.

Lemma format_digits z : 0 <= z -> let s := digits_of 20 z "" in s <> ""%string ∧ split_sign s = (false, s).
Proof.
  intros Hz s. assert (s <> ""%string) as Hne by (apply digits_nonempty; left; lia). split; [done|].
  pose proof (digits_all 20 z "" eq_refl) as Ha. fold s in Ha. destruct s as [|c s]; [done|]. cbn [string_all] in Ha.
  apply andb_true_iff in Ha as [Hc _]. destruct c as [[] [] [] [] [] [] [] []]; done.
Qed.

(** Printing and reading an integer gives it back. *)
Lemma ParseInt_FormatInt z : int64_range z -> ParseInt (FormatInt z) = Some z.
Proof.
  unfold int64_range, MinInt64, MaxInt64. intros Hz. unfold FormatInt, ParseInt. change (10 ^ 20) with 100000000000000000000 in *.
  destruct (Z.ltb_spec z 0) as [Hneg|Hpos].
  - cbn [split_sign]. destruct (format_digits (- z) ltac:(lia)) as [Hne _]. destruct (digits_of 20 (- z) "") eqn:E; [done|]. rewrite <- E.
    rewrite digits_read by (change (10 ^ Z.of_nat 20) with 100000000000000000000; lia). cbn [digits_from]. bind_simpl. rewrite Z.opp_involutive.
    unfold MinInt64, MaxInt64. destruct (Z.leb_spec (-9223372036854775808) z), (Z.leb_spec z 9223372036854775807); try lia. done.
  - destruct (format_digits z Hpos) as [Hne ->]. destruct (digits_of 20 z "") eqn:E; [done|]. rewrite <- E.
    rewrite digits_read by (change (10 ^ Z.of_nat 20) with 100000000000000000000; lia). cbn [digits_from]. bind_simpl.
    unfold MinInt64, MaxInt64. destruct (Z.leb_spec (-9223372036854775808) z), (Z.leb_spec z 9223372036854775807); try lia. done.
Qed.

(** ** Floating point *)

(** The digits of a mantissa: the value read, the number of digits behind the point,
    whether a point and a digit were seen, and the rest of the text. *)
Fixpoint mantissa (m : Z) (frac : Z) (dot seen : bool) (s : string) : Z * Z * bool * string :=
  match s with
  | EmptyString => (m, frac, seen, s)
  | String c s' =>
      match digit c with
      | Some d => mantissa (m * 10 + d) (if dot then frac + 1 else frac) dot true s'
      | None => if Ascii.eqb c "." && negb dot then mantissa m frac true seen s' else (m, frac, seen, s)
      end
  end.

(** The exponent digits; the value stops growing at 10000. *)
Fixpoint exponent (e : Z) (s : string) : option Z :=
  match s with
  | EmptyString => Some e
  | String c s => d ← digit c; exponent (if e <? 10000 then e * 10 + d else e) s
  end.

(** The exponent part behind the mantissa, 0 when there is none. *)
Definition exponent_part (s : string) : option Z :=
  match s with
  | EmptyString => Some 0
  | String c s =>
      if Ascii.eqb c "e" || Ascii.eqb c "E" then
        let '(neg, body) := split_sign s in
        match body with
        | EmptyString => None
        | _ => e ← exponent 0 body; Some (if neg then - e else e)
        end
      else None
  end.

(** [m * 10^e], correctly rounded to the format. *)
Definition round_decimal (prec emax : Z) (neg : bool) (m e : Z) : spec_float :=
  match m with
  | Zpos p =>
      if 0 <=? e then binary_normalize prec emax ((if neg then -1 else 1) * m * 10 ^ e) 0 neg
      else match 10 ^ (- e) with
           | Zpos q => SFdiv prec emax (S754_finite neg p 0) (S754_finite false q 0)
           | _ => S754_nan
           end
  | _ => S754_zero neg
  end.

Definition lower (c : ascii) : ascii :=
  let n := nat_of_ascii c in if (Nat.leb 65 n && Nat.leb n 90)%bool then ascii_of_nat (n + 32) else c.
Fixpoint to_lower (s : string) : string :=
  match s with EmptyString => EmptyString | String c s => String (lower c) (to_lower s) end.

(** A float32 value as the float64 that represents it. *)
Definition widen (f : spec_float) : float64 :=
  match f with S754_finite s m e => binary_normalize 53 1024 (if s then Zneg m else Zpos m) e s | _ => f end.

Definition is_infinite (f : spec_float) : bool := match f with S754_infinity _ => true | _ => false end.

(** [strconv.ParseFloat(s, bitSize)]: the value returned and whether there is an error.
    A syntax error returns zero, a range error an infinity. *)
Definition ParseFloat (s : string) (bitSize : Z) : float64 * bool :=
  let '(neg, body) := split_sign s in
  let word := to_lower body in
  if (String.eqb word "inf" || String.eqb word "infinity")%bool then (S754_infinity neg, false)
  else if (String.eqb (to_lower s) "nan")%bool then (S754_nan, false)
  else
    let '(m, frac, seen, rest) := mantissa 0 0 false false body in
    match (if seen then exponent_part rest else None) with
    | None => (fzero, true)
    | Some e =>
        let f := if bitSize =? 32 then widen (round_decimal 24 128 neg m (e - frac)) else round_decimal 53 1024 neg m (e - frac) in
        (f, is_infinite f)
    end.

(** ** The expression of the availability zones *)

Definition is_word (c : ascii) : bool :=
  let n := nat_of_ascii c in
  ((Nat.leb 48 n && Nat.leb n 57) || (Nat.leb 65 n && Nat.leb n 90) || (Nat.leb 97 n && Nat.leb n 122) || Nat.eqb n 95)%bool.

(** The longest prefix of characters in the class, and the rest. *)
Fixpoint span (p : ascii -> bool) (s : string) : string * string :=
  match s with
  | EmptyString => (EmptyString, EmptyString)
  | String c s' => if p c then let '(a, b) := span p s' in (String c a, b) else (EmptyString, s)
  end.

(** A match of the two groups of [([\w-]+)\(([\w]+)\)] that starts here.  The classes do
    not contain the parentheses, so each group is a longest prefix. *)
Definition match_here (s : string) : option (string * string) :=
  let '(g1, rest) := span (fun c => is_word c || Ascii.eqb c "-") s in
  match g1, rest with
  | String _ _, String "(" rest =>
      let '(g2, rest) := span is_word rest in
      match g2, rest with String _ _, String ")" _ => Some (g1, g2) | _, _ => None end
  | _, _ => None
  end.

(** [FindStringSubmatch]: the leftmost match. *)
Fixpoint find_submatch (s : string) : option (string * string) :=
  match match_here s with
  | Some m => Some m
  | None => match s with EmptyString => None | String _ s => find_submatch s end
  end.

(** ** Concrete values *)

Example split_types : strings_Split "compute||gpu||io" "||" = ["compute"; "gpu"; "io"]%string.
Proof. reflexivity. Qed.
Example parse_ratio : int64_of_float (fmul (float_of_Z 40) (ParseFloat "1.5" 32).1) = 60.
Proof. vm_compute. reflexivity. Qed.
Example parse_bad_ratio : ParseFloat "x2" 32 = (fzero, true).
Proof. reflexivity. Qed.
Example find_zone : find_submatch "az-1(normal)" = Some ("az-1", "normal")%string.
Proof. reflexivity. Qed.
