(* ===== verification/FieldSelector.v ===== *)
(** * Field selectors

    Models the package [k8s.io/apimachinery/pkg/fields] ([fields.go], [selector.go]), with
    the comparisons this repository adds to it: a process asks the API server for the
    objects of its share by a text such as
    [status.phase=Bound,spec.clusterName=gte:a,spec.clusterName=lte:m], the client parses
    and prints it, and the server parses it again.  Texts are in UTF-8, where copying runes
    copies bytes and the special characters are single bytes.  The theorems show that a
    printed selector is parsed back to one that matches the same objects, and that the
    selectors of the processes select exactly their shares; and they show values that are
    read back as comparisons, a required value that is not required, and that a
    transformation is applied twice. *)
From S2P Require Import Prelude Types Strconv.

Module Fields.

(** ** Sets of fields *)

Section Set_.
(** The order in which Go visits a map. *)
Context (range : gmap string string -> list (string * string)).

(** (fields/fields.go:38-46 String) *)
Definition Set_String (ls : gmap string string) : string :=
  Join (merge_sort String.le ((fun kv => kv.1 +:+ "=" +:+ kv.2) <$> range ls)) ",".
End Set_.

(** (fields/fields.go:49-52) *)
Definition Has (ls : gmap string string) (field : string) : bool := bool_decide (is_Some (ls !! field)).
(** (fields/fields.go:55-57) *)
Definition Get (ls : gmap string string) (field : string) : string := default "" (ls !! field).

(** ** Selectors *)

(** The types that implement the interface. *)
Inductive Selector :=
  | nothingSelector
  | hasTerm (field value : string)
  | notHasTerm (field value : string)
  | lessTerm (field value : string)
  | lessEqualTerm (field value : string)
  | greaterTerm (field value : string)
  | greaterEqualTerm (field value : string)
  | andTerm (t : list Selector)
  | orTerm (t : list Selector).

(** (fields/selector.go:71-73) *)
Definition Nothing : Selector := nothingSelector.
(** (fields/selector.go:76-78) *)
Definition Everything : Selector := orTerm [].

(** Two values are compared as numbers when both are numbers, and as strings otherwise
    (fields/selector.go:183-192 lessTerm.Matches). *)
Definition compare_values (num : Z -> Z -> bool) (str : string -> string -> bool) (l r : string) : bool :=
  match ParseInt l, ParseInt r with Some lvalue, Some rvalue => num lvalue rvalue | _, _ => str l r end.

(** (fields/selector.go:62-62 nothingSelector.Matches) *)
Definition Matches_nothing : bool := false.
(** (fields/selector.go:84-86 hasTerm.Matches) *)
Definition Matches_has (field value : string) (ls : gmap string string) : bool := String.eqb (Get ls field) value.
(** (fields/selector.go:135-137 notHasTerm.Matches) *)
Definition Matches_notHas (field value : string) (ls : gmap string string) : bool := negb (String.eqb (Get ls field) value).
(** (fields/selector.go:183-192 lessTerm.Matches) *)
Definition Matches_less (field value : string) (ls : gmap string string) : bool := compare_values Z.ltb String.ltb (Get ls field) value.
(** (fields/selector.go:238-247 lessEqualTerm.Matches) *)
Definition Matches_lessEqual (field value : string) (ls : gmap string string) : bool := compare_values Z.leb String.leb (Get ls field) value.
(** (fields/selector.go:293-302 greaterTerm.Matches) *)
Definition Matches_greater (field value : string) (ls : gmap string string) : bool :=
  compare_values Z.gtb (fun l r => String.ltb r l) (Get ls field) value.
(** (fields/selector.go:348-357 greaterEqualTerm.Matches) *)
Definition Matches_greaterEqual (field value : string) (ls : gmap string string) : bool :=
  compare_values Z.geb (fun l r => String.leb r l) (Get ls field) value.

(** The last two cases are the loops over the terms (fields/selector.go:401-408 andTerm.Matches). *)
Fixpoint Matches (s : Selector) (ls : gmap string string) : bool :=
  match s with
  | nothingSelector => Matches_nothing
  | hasTerm field value => Matches_has field value ls
  | notHasTerm field value => Matches_notHas field value ls
  | lessTerm field value => Matches_less field value ls
  | lessEqualTerm field value => Matches_lessEqual field value ls
  | greaterTerm field value => Matches_greater field value ls
  | greaterEqualTerm field value => Matches_greaterEqual field value ls
  | andTerm t => forallb (fun q => Matches q ls) t
  | orTerm t => match t with [] => true | _ => existsb (fun q => Matches q ls) t end
  end.

(** (fields/selector.go:410-423 andTerm.Empty) *)
Fixpoint Empty (s : Selector) : bool :=
  match s with
  | andTerm t | orTerm t => forallb Empty t
  | _ => false
  end.

(** The value that a field has to have, and whether there is one; in a list of terms the
    first that is found (fields/selector.go:425-435 andTerm.RequiresExactMatch). *)
Fixpoint RequiresExactMatch (s : Selector) (field : string) : string * bool :=
  match s with
  | hasTerm f value => if String.eqb f field then (value, true) else ("", false)
  | andTerm t | orTerm t =>
      (fix first (t : list Selector) : string * bool :=
         match t with
         | [] => ("", false)
         | q :: t => let r := RequiresExactMatch q field in if r.2 then r else first t
         end) t
  | _ => ("", false)
  end.

Definition TransformFunc : Type := string -> string -> result (string * string).

(** (fields/selector.go:99-108 hasTerm.Transform) *)
Definition transform_term (fn : TransformFunc) (term : string -> string -> Selector) (field value : string) : result Selector :=
  match fn field value with
  | Err e => Err e
  | Ok (field, value) => if (String.eqb field "" && String.eqb value "")%bool then Ok Everything else Ok (term field value)
  end.

(** The terms that are left restrict the selection (fields/selector.go:437-449 andTerm.Transform). *)
Fixpoint Transform (s : Selector) (fn : TransformFunc) : result Selector :=
  let each := fix each (t : list Selector) : result (list Selector) :=
    match t with
    | [] => Ok []
    | s :: t =>
        match Transform s fn with
        | Err e => Err e
        | Ok n => match each t with Err e => Err e | Ok next => Ok (if Empty n then next else n :: next) end
        end
    end in
  match s with
  | nothingSelector => Ok nothingSelector
  | hasTerm field value => transform_term fn hasTerm field value
  | notHasTerm field value => transform_term fn notHasTerm field value
  | lessTerm field value => transform_term fn lessTerm field value
  | lessEqualTerm field value => transform_term fn lessEqualTerm field value
  | greaterTerm field value => transform_term fn greaterTerm field value
  | greaterEqualTerm field value => transform_term fn greaterEqualTerm field value
  | andTerm t => match each t with Err e => Err e | Ok next => Ok (andTerm next) end
  | orTerm t => match each t with Err e => Err e | Ok next => Ok (orTerm next) end
  end.

Inductive Operator := op_Equals | op_NotEquals | op_LessThan | op_LessThanEqual | op_GreaterThan | op_GreaterThanEqual.

Record Requirement := mkRequirement { Field : string; Operator_ : Operator; Value : string }.

(** (fields/selector.go:451-458 andTerm.Requirements) *)
Fixpoint Requirements (s : Selector) : list Requirement :=
  match s with
  | nothingSelector => []
  | hasTerm f v => [mkRequirement f op_Equals v]
  | notHasTerm f v => [mkRequirement f op_NotEquals v]
  | lessTerm f v => [mkRequirement f op_LessThan v]
  | lessEqualTerm f v => [mkRequirement f op_LessThanEqual v]
  | greaterTerm f v => [mkRequirement f op_GreaterThan v]
  | greaterEqualTerm f v => [mkRequirement f op_GreaterThanEqual v]
  | andTerm t | orTerm t => t ≫= Requirements
  end.

(** ** Escaping *)

Definition backslash : ascii := "\".
(** [\], [,], [;] and [=]. *)
Definition special (c : ascii) : bool := (Ascii.eqb c backslash || Ascii.eqb c "," || Ascii.eqb c ";" || Ascii.eqb c "=")%bool.

(** (fields/selector.go:590-592) *)
Fixpoint EscapeValue (s : string) : string :=
  match s with
  | EmptyString => EmptyString
  | String c s => if special c then String backslash (String c (EscapeValue s)) else String c (EscapeValue s)
  end.

Definition InvalidEscapeSequence (sequence : string) : string := "invalid field selector: invalid escape sequence: " +:+ sequence.
Definition UnescapedRune (r : ascii) : string :=
  "invalid field selector: unescaped character in value: " +:+ FormatInt (Z.of_nat (nat_of_ascii r)).

(** The loop; what is written is put in front of what follows
    (fields/selector.go:620-652 UnescapeValue). *)
Fixpoint unescape (inSlash : bool) (s : string) : result string :=
  match s with
  | EmptyString => if inSlash then Err (InvalidEscapeSequence (String backslash "")) else Ok EmptyString
  | String c s =>
      let write (r : result string) := match r with Ok v => Ok (String c v) | Err e => Err e end in
      if inSlash then
        if special c then write (unescape false s) else Err (InvalidEscapeSequence (String backslash (String c "")))
      else if Ascii.eqb c backslash then unescape true s
      else if special c then Err (UnescapedRune c)
      else write (unescape false s)
  end.

(** (fields/selector.go:614-653) *)
Definition UnescapeValue (s : string) : result string :=
  if string_all (fun c => negb (Ascii.eqb c backslash || Ascii.eqb c "," || Ascii.eqb c "=")) s then Ok s else unescape false s.

(** ** Printing *)

(** The operators of the texts. *)
Definition notEqualOperator : string := "!=".
Definition doubleEqualOperator : string := "==".
Definition equalOperator : string := "=".
Definition lessThanOperator : string := "=lt:".
Definition greaterThanOperator : string := "=gt:".
Definition lessThanEqualOperator : string := "=lte:".
Definition greaterThanEqualOperator : string := "=gte:".

(** [fmt.Sprintf] of a field, an operator and an escaped value
    (fields/selector.go:118-120 hasTerm.String). *)
Definition term_String (op field value : string) : string := field +:+ op +:+ EscapeValue value.

(** The cases of a list print its terms with a separator
    (fields/selector.go:460-466 andTerm.String). *)
Fixpoint Selector_String (s : Selector) : string :=
  match s with
  | nothingSelector => ""
  | hasTerm f v => term_String equalOperator f v
  | notHasTerm f v => term_String notEqualOperator f v
  | lessTerm f v => term_String lessThanOperator f v
  | lessEqualTerm f v => term_String lessThanEqualOperator f v
  | greaterTerm f v => term_String greaterThanOperator f v
  | greaterEqualTerm f v => term_String greaterThanEqualOperator f v
  | andTerm t => Join (Selector_String <$> t) ","
  | orTerm t => Join (Selector_String <$> t) ";"
  end.

(** ** Parsing *)

(** The pieces between the separators that no backslash precedes; [acc] is the piece being
    read (fields/selector.go:689-704 splitTermsAndSort). *)
Fixpoint split_unescaped (sep : ascii) (inSlash : bool) (acc s : string) : list string :=
  match s with
  | EmptyString => [acc]
  | String c s =>
      if inSlash then split_unescaped sep false (acc +:+ String c "") s
      else if Ascii.eqb c backslash then split_unescaped sep true (acc +:+ String c "") s
      else if Ascii.eqb c sep then acc :: split_unescaped sep false "" s
      else split_unescaped sep false (acc +:+ String c "") s
  end.

(** The order of equal strings cannot be seen, so any sort is this one
    (fields/selector.go:715-737). *)
Definition splitAndTermsAndSort (fieldSelector : string) : list string :=
  match fieldSelector with "" => [] | _ => merge_sort String.le (split_unescaped "," false "" fieldSelector) end.

(** (fields/selector.go:684-713) *)
Definition splitTermsAndSort (fieldSelector : string) : list (list string) :=
  match fieldSelector with
  | "" => []
  | _ => splitAndTermsAndSort <$> merge_sort String.le (split_unescaped ";" false "" fieldSelector)
  end.

(** (fields/selector.go:752-752 termOperators) *)
Definition termOperators : list string :=
  [lessThanEqualOperator; greaterThanEqualOperator; lessThanOperator; greaterThanOperator; notEqualOperator; doubleEqualOperator; equalOperator].

(** [s] without its first [n] bytes. *)
Fixpoint drop_bytes (n : nat) (s : string) : string :=
  match n, s with S n, String _ s => drop_bytes n s | _, _ => s end.

(** The field, the operator and the rest; [None] is [ok = false]
    (fields/selector.go:757-767). *)
Fixpoint splitTerm (term : string) : option (string * string * string) :=
  match term with
  | EmptyString => None
  | String c rest =>
      match List.find (fun op => String.prefix op term) termOperators with
      | Some op => Some (EmptyString, op, drop_bytes (String.length op) term)
      | None => '(lhs, op, rhs) ← splitTerm rest; Some (String c lhs, op, rhs)
      end
  end.

(** The term of an operator (fields/selector.go:803-820 parseAndSelector). *)
Definition term_of (op field value : string) : option Selector :=
  if String.eqb op notEqualOperator then Some (notHasTerm field value)
  else if String.eqb op doubleEqualOperator then Some (hasTerm field value)
  else if String.eqb op equalOperator then Some (hasTerm field value)
  else if String.eqb op lessThanOperator then Some (lessTerm field value)
  else if String.eqb op lessThanEqualOperator then Some (lessEqualTerm field value)
  else if String.eqb op greaterThanOperator then Some (greaterTerm field value)
  else if String.eqb op greaterThanEqualOperator then Some (greaterEqualTerm field value)
  else None.

(** The loop over the parts (fields/selector.go:790-821 parseAndSelector). *)
Fixpoint parse_parts (all parts : list string) : result (list Selector) :=
  match parts with
  | [] => Ok []
  | part :: parts =>
      let unknown := Err ("invalid selector: '[" +:+ Join all " " +:+ "]'; can't understand '" +:+ part +:+ "'") in
      match part with
      | "" => parse_parts all parts
      | _ =>
          match splitTerm part with
          | None => unknown
          | Some (lhs, op, rhs) =>
              match UnescapeValue rhs with
              | Err e => Err e
              | Ok unescapedRHS =>
                  match term_of op lhs unescapedRHS with
                  | None => unknown
                  | Some item => match parse_parts all parts with Ok items => Ok (item :: items) | Err e => Err e end
                  end
              end
          end
      end
  end.

(** (fields/selector.go:789-826) *)
Definition parseAndSelector (parts : list string) (fn : TransformFunc) : result Selector :=
  match parse_parts parts parts with
  | Err e => Err e
  | Ok [item] => Transform item fn
  | Ok items => Transform (andTerm items) fn
  end.

(** The loop over the alternatives; the message prints the selector that failed to parse,
    which is nil (fields/selector.go:770-781 parseSelector). *)
Fixpoint parse_alternatives (parts : list (list string)) (fn : TransformFunc) : result (list Selector) :=
  match parts with
  | [] => Ok []
  | [] :: parts => parse_alternatives parts fn
  | part :: parts =>
      match parseAndSelector part fn with
      | Err _ => Err ("invalid selector: '%!s(<nil>)'; can't understand '[" +:+ Join part " " +:+ "]'")
      | Ok selector => match parse_alternatives parts fn with Ok items => Ok (selector :: items) | Err e => Err e end
      end
  end.

(** (fields/selector.go:769-787) *)
Definition parseSelector (selector : string) (fn : TransformFunc) : result Selector :=
  match parse_alternatives (splitTermsAndSort selector) fn with
  | Err e => Err e
  | Ok [item] => Transform item fn
  | Ok items => Transform (orTerm items) fn
  end.

Definition identity : TransformFunc := fun lhs rhs => Ok (lhs, rhs).

(** (fields/selector.go:667-672) *)
Definition ParseSelector (selector : string) : result Selector := parseSelector selector identity.
(** A panic is [None] (fields/selector.go:657-663). *)
Definition ParseSelectorOrDie (s : string) : option Selector := match ParseSelector s with Ok selector => Some selector | Err _ => None end.
(** (fields/selector.go:675-677) *)
Definition ParseAndTransformSelector (selector : string) (fn : TransformFunc) : result Selector := parseSelector selector fn.
(** (fields/selector.go:830-832) *)
Definition OneTermEqualSelector (k v : string) : Selector := hasTerm k v.
(** (fields/selector.go:836-838) *)
Definition OneTermNotEqualSelector (k v : string) : Selector := notHasTerm k v.
(** (fields/selector.go:841-843) *)
Definition AndSelectors (selectors : list Selector) : Selector := andTerm selectors.

(** [None] is a nil set (fields/selector.go:565-577). *)
Definition SelectorFromSet (range : gmap string string -> list (string * string)) (ls : option (gmap string string)) : Selector :=
  match ls with
  | None => Everything
  | Some ls => match (fun kv => hasTerm kv.1 kv.2) <$> range ls with [item] => item | items => andTerm items end
  end.

(** ** Values *)

Lemma unescape_escaped v : unescape false (EscapeValue v) = Ok v.
Proof.
  induction v as [|c v IH]; [done|]. cbn [EscapeValue]. destruct (special c) eqn:Hc; cbn [unescape].
  - change (Ascii.eqb backslash backslash) with true. cbn iota. by rewrite Hc, IH.
  - destruct (Ascii.eqb c backslash) eqn:Hb; [by unfold special in Hc; rewrite Hb in Hc|]. by rewrite Hc, IH.
Qed.

Lemma escape_plain v : string_all (fun c => negb (special c)) v = true -> EscapeValue v = v.
Proof. induction v as [|c v IH]; [done|]. cbn [EscapeValue string_all]. intros [Hc Hv]%andb_true_iff. destruct (special c); [done|]. by rewrite IH. Qed.

Lemma unescape_value v : UnescapeValue (EscapeValue v) = Ok v.
Proof.
  unfold UnescapeValue. destruct (string_all _ _) eqn:Ha; [|apply unescape_escaped]. f_equal. apply escape_plain.
  induction v as [|c v IH]; [done|]. cbn [EscapeValue string_all] in *. destruct (special c) eqn:Hc; [done|]. cbn [string_all] in Ha.
  apply andb_true_iff in Ha as [_ Ha]. by rewrite IH.
Qed.

(** ** Splitting *)

(** Passes over a text: whether it ends behind a backslash, or [None] at a separator. *)
Fixpoint passes (sep : ascii) (inSlash : bool) (s : string) : option bool :=
  match s with
  | EmptyString => Some inSlash
  | String c s =>
      if inSlash then passes sep false s
      else if Ascii.eqb c backslash then passes sep true s
      else if Ascii.eqb c sep then None
      else passes sep false s
  end.

(** A piece has no separator and ends behind what it escapes. *)
Definition piece (sep : ascii) (s : string) : Prop := passes sep false s = Some false.

Lemma passes_app sep s t : forall b, passes sep b (s +:+ t) = passes sep b s ≫= fun b => passes sep b t.
Proof.
  induction s as [|c s IH]; intros b; [done|]. change (String c s +:+ t) with (String c (s +:+ t)). cbn [passes].
  destruct b; [apply IH|]. destruct (Ascii.eqb c backslash); [apply IH|]. destruct (Ascii.eqb c sep); [done|apply IH].
Qed.

Lemma piece_app sep s t : piece sep s -> piece sep t -> piece sep (s +:+ t).
Proof. unfold piece. intros Hs Ht. by rewrite passes_app, Hs. Qed.

Lemma piece_plain sep s : string_all (fun c => negb (special c)) s = true -> special sep = true -> piece sep s.
Proof.
  intros Hs Hsep. induction s as [|c s IH]; [done|]. cbn [string_all] in Hs. apply andb_true_iff in Hs as [Hc Hs]. unfold piece. cbn [passes].
  destruct (Ascii.eqb_spec c backslash) as [->|]; [done|]. destruct (Ascii.eqb_spec c sep) as [->|]; [by rewrite Hsep in Hc|]. by apply IH.
Qed.

Lemma piece_escaped sep v : special sep = true -> piece sep (EscapeValue v).
Proof.
  intros Hsep. induction v as [|c v IH]; [done|]. unfold piece. cbn [EscapeValue]. destruct (special c) eqn:Hc; cbn [passes]; [done|].
  destruct (Ascii.eqb_spec c backslash) as [->|]; [done|]. destruct (Ascii.eqb_spec c sep) as [->|]; [by rewrite Hsep in Hc|done].
Qed.

Lemma unescaped_piece sep s rest : forall b b' acc, passes sep b s = Some b' ->
  split_unescaped sep b acc (s +:+ rest) = split_unescaped sep b' (acc +:+ s) rest.
Proof.
  induction s as [|c s IH]; intros b b' acc.
  { intros [= <-]. by rewrite string_app_nil. }
  change (String c s +:+ rest) with (String c (s +:+ rest)). cbn [passes split_unescaped].
  change (acc +:+ String c s) with (acc +:+ (String c "" +:+ s)). rewrite string_app_assoc.
  destruct b; [apply IH|]. destruct (Ascii.eqb c backslash); [apply IH|]. destruct (Ascii.eqb c sep); [done|apply IH].
Qed.

(** Pieces that are joined are split again. *)
Lemma split_join sep ps : forall acc p, sep <> backslash -> Forall (piece sep) (p :: ps) ->
  split_unescaped sep false acc (Join (p :: ps) (String sep "")) = (acc +:+ p) :: ps.
Proof.
  induction ps as [|q ps IH]; intros acc p Hne [Hp Hps]%Forall_cons.
  - cbn [Join]. rewrite <- (string_app_nil p) at 1. by rewrite (unescaped_piece sep p "" false false acc Hp).
  - rewrite join_cons, (unescaped_piece sep p _ false false acc Hp). change (String sep "" +:+ ?x) with (String sep x). cbn [split_unescaped].
    destruct (Ascii.eqb_spec sep backslash); [done|]. rewrite Ascii.eqb_refl. by rewrite (IH ""%string q Hne Hps).
Qed.

Lemma piece_join sep other ps : other <> sep -> other <> backslash -> Forall (piece sep) ps -> piece sep (Join ps (String other "")).
Proof.
  intros Ho Hb. induction 1 as [|p [|q ps] Hp Hps IH]; [done|done|]. rewrite join_cons. apply piece_app; [done|]. apply piece_app; [|apply IH].
  unfold piece. cbn [passes]. by destruct (Ascii.eqb_spec other backslash), (Ascii.eqb_spec other sep).
Qed.

(** ** Terms *)

(** The operator, the field and the value of a term. *)
Definition term_parts (s : Selector) : option (string * string * string) :=
  match s with
  | hasTerm f v => Some (equalOperator, f, v)
  | notHasTerm f v => Some (notEqualOperator, f, v)
  | lessTerm f v => Some (lessThanOperator, f, v)
  | lessEqualTerm f v => Some (lessThanEqualOperator, f, v)
  | greaterTerm f v => Some (greaterThanOperator, f, v)
  | greaterEqualTerm f v => Some (greaterThanEqualOperator, f, v)
  | _ => None
  end.

(** A value that reads as a comparison after the equality sign. *)
Definition comparison (v : string) : bool := existsb (fun p => String.prefix p v) ["lte:"; "gte:"; "lt:"; "gt:"]%string.
Definition field_char (c : ascii) : bool := negb (special c || Ascii.eqb c "!").

(** A term that can be read back. *)
Definition readable (s : Selector) : bool :=
  match term_parts s with
  | Some (op, f, v) => negb (String.eqb f "") && string_all field_char f && negb (String.eqb op equalOperator && comparison v)
  | None => false
  end%bool.

(** A selector that can be read back: alternatives of readable terms that hold together. *)
Definition conjunction (s : Selector) : bool := match s with andTerm (q :: t) => forallb readable (q :: t) | _ => readable s end.
Definition printable (s : Selector) : bool :=
  match s with orTerm t => forallb conjunction t | andTerm [] => true | _ => conjunction s end.

Definition printed_operators : list string :=
  [equalOperator; notEqualOperator; lessThanOperator; lessThanEqualOperator; greaterThanOperator; greaterThanEqualOperator].

Lemma readable_parts s : readable s = true -> ∃ op f v, term_parts s = Some (op, f, v) ∧ f <> ""%string ∧ string_all field_char f = true ∧
  op ∈ printed_operators ∧ (op = equalOperator -> comparison v = false) ∧ Selector_String s = term_String op f v ∧ term_of op f v = Some s.
Proof.
  unfold readable. intros H. destruct s; cbn [term_parts] in H |- *; try done;
    apply andb_true_iff in H as [[Hf Ha]%andb_true_iff Hc]; apply negb_true_iff in Hf, Hc; apply String.eqb_neq in Hf; eexists _, _, _; (split_and!; [done|done|done| |done|done|done]); unfold printed_operators; set_solver.
Qed.

Lemma prefix_escape w v : string_all (fun c => negb (special c)) w = true -> String.prefix w (EscapeValue v) = String.prefix w v.
Proof.
  revert v. induction w as [|c w IH]; intros v; [by destruct v, (EscapeValue _)|]. cbn [string_all]. intros [Hc Hw]%andb_true_iff. destruct v as [|d v]; [done|].
  cbn [EscapeValue]. destruct (special d) eqn:Hd; cbn [String.prefix].
  - destruct (ascii_dec c backslash) as [->|]; [done|]. destruct (ascii_dec c d) as [->|]; [by rewrite Hd in Hc|done].
  - destruct (ascii_dec c d); [by apply IH|done].
Qed.

Lemma no_leading_equals v : String.prefix "=" (EscapeValue v) = false.
Proof. destruct v as [|c v]; [done|]. cbn [EscapeValue]. destruct (special c) eqn:Hc; [done|]. cbn [String.prefix]. by destruct (ascii_dec "=" c) as [<-|]. Qed.

Lemma no_operator c s : field_char c = true -> List.find (fun op => String.prefix op (String c s)) termOperators = None.
Proof.
  unfold field_char, special. intros H. assert (c <> "="%char ∧ c <> "!"%char) as [H1 H2] by (split; intros ->; done).
  cbn [List.find termOperators String.prefix lessThanEqualOperator greaterThanEqualOperator lessThanOperator greaterThanOperator notEqualOperator doubleEqualOperator equalOperator].
  destruct (ascii_dec "=" c) as [<-|]; [done|]. by destruct (ascii_dec "!" c) as [<-|].
Qed.

Lemma split_operator op v : op ∈ printed_operators -> (op = equalOperator -> comparison v = false) -> splitTerm (op +:+ EscapeValue v) = Some (""%string, op, EscapeValue v).
Proof.
  unfold printed_operators. rewrite !elem_of_cons. intros [->|Hop] Hc.
  - specialize (Hc eq_refl). unfold comparison in Hc. cbn [existsb] in Hc. apply orb_false_iff in Hc as (H1 & (H2 & (H3 & (H4 & _)%orb_false_iff)%orb_false_iff)%orb_false_iff).
    change (equalOperator +:+ ?x) with (String "=" x). cbn [splitTerm List.find termOperators].
    change (String.prefix lessThanEqualOperator (String "=" ?x)) with (String.prefix "lte:" x). change (String.prefix greaterThanEqualOperator (String "=" ?x)) with (String.prefix "gte:" x).
    change (String.prefix lessThanOperator (String "=" ?x)) with (String.prefix "lt:" x). change (String.prefix greaterThanOperator (String "=" ?x)) with (String.prefix "gt:" x).
    change (String.prefix doubleEqualOperator (String "=" ?x)) with (String.prefix "=" x). rewrite !prefix_escape by done. rewrite H1, H2, H3, H4, no_leading_equals. cbn.
    by destruct (EscapeValue v).
  - clear Hc. rewrite elem_of_nil in Hop. destruct Hop as [->|[->|[->|[->|[->|[]]]]]]; by destruct (EscapeValue v).
Qed.

(** The first operator in a printed term is the operator of the term. *)
Lemma split_printed op f v : op ∈ printed_operators -> string_all field_char f = true -> (op = equalOperator -> comparison v = false) ->
  splitTerm (term_String op f v) = Some (f, op, EscapeValue v).
Proof.
  intros Hop Hf Hc. unfold term_String. induction f as [|c f IH]; [by apply split_operator|].
  cbn [string_all] in Hf. apply andb_true_iff in Hf as [Hcf Hf]. change (String c f +:+ ?x) with (String c (f +:+ x)). cbn [splitTerm].
  by rewrite (no_operator c _ Hcf), (IH Hf).
Qed.

(** ** Reading back *)

Lemma string_nonempty f t : f <> ""%string -> f +:+ t <> ""%string.
Proof. by destruct f. Qed.

Lemma readable_string s : readable s = true -> Selector_String s <> ""%string ∧ forall sep, sep = ","%char ∨ sep = ";"%char -> piece sep (Selector_String s).
Proof.
  intros (op & f & v & _ & Hf & Hc & Hop & _ & -> & _)%readable_parts. unfold term_String. split; [by apply string_nonempty|].
  intros sep Hsep. assert (special sep = true) as Hs by (by destruct Hsep as [->| ->]).
  apply piece_app; [|apply piece_app; [|by apply piece_escaped]].
  - apply piece_plain; [|done]. clear -Hc. induction f as [|c f IH]; [done|]. cbn [string_all] in *. apply andb_true_iff in Hc as [Hc Hf]. rewrite (IH Hf).
    unfold field_char in Hc. by destruct (special c).
  - unfold printed_operators in Hop. rewrite !elem_of_cons, elem_of_nil in Hop. by destruct Hsep as [->| ->]; destruct Hop as [->|[->|[->|[->|[->|[->|[]]]]]]].
Qed.

Lemma readable_not_empty s : readable s = true -> Empty s = false ∧ Transform s identity = Ok s.
Proof.
  unfold readable. intros H. destruct s as [|f v|f v|f v|f v|f v|f v|t|t]; cbn [term_parts] in H; try done;
    (split; [done|]); cbn; destruct (String.eqb f ""); done.
Qed.

Lemma parse_readable all ts : forallb readable ts = true -> parse_parts all (Selector_String <$> ts) = Ok ts.
Proof.
  induction ts as [|s ts IH]; [done|]. cbn [forallb]. intros [Hs Hts]%andb_true_iff.
  destruct (readable_parts s Hs) as (op & f & v & Hp & Hf & Hc & Hop & Hcmp & Hstr & Hterm). rewrite fmap_cons. cbn [parse_parts].
  rewrite Hstr. rewrite (split_printed op f v Hop Hc Hcmp), unescape_value, Hterm, (IH Hts).
  destruct (term_String op f v) eqn:E; [|done]. by apply string_nonempty in E.
Qed.

(** The transformation of a list of terms keeps those that restrict the selection. *)
Lemma transform_list fn l : Forall (fun s => Empty s = false ∧ Transform s fn = Ok s) l ->
  Transform (andTerm l) fn = Ok (andTerm l) ∧ Transform (orTerm l) fn = Ok (orTerm l).
Proof.
  intros H. cbn [Transform]. match goal with |- context[match ?e l with Ok _ => _ | Err _ => _ end] => assert (e l = Ok l) as -> end; [|done].
  induction H as [|s l [He Ht] _ IH]; [done|]. by rewrite Ht, IH, He.
Qed.

Lemma forallb_elem {A} (f : A -> bool) l : forallb f l = true <-> forall x, x ∈ l -> f x = true.
Proof. rewrite forallb_forall. setoid_rewrite <- list_elem_of_In. done. Qed.

Lemma readable_terms ts : forallb readable ts = true -> Forall (fun s => Empty s = false ∧ Transform s identity = Ok s) ts.
Proof. rewrite forallb_elem. intros H. apply Forall_forall. intros s Hs. by apply readable_not_empty, H. Qed.

(** The terms that a conjunction prints. *)
Definition conjuncts (s : Selector) : list Selector := match s with andTerm t => t | _ => [s] end.

Lemma conjunction_conjuncts s : conjunction s = true -> conjuncts s <> [] ∧ forallb readable (conjuncts s) = true ∧
  Selector_String s = Join (Selector_String <$> conjuncts s) "," ∧ forall ls, Matches s ls = forallb (fun q => Matches q ls) (conjuncts s).
Proof.
  destruct s as [|f v|f v|f v|f v|f v|f v|[|q t]|t]; cbn [conjunction conjuncts]; intros H; try done;
    (split_and!; [done| |done|intros ls; cbn [forallb]; by rewrite ?andb_true_r]); cbn [forallb]; by rewrite ?H.
Qed.

(** What a permutation of readable terms is read as. *)
Lemma parse_and_readable ts : ts <> [] -> forallb readable ts = true ->
  ∃ s, parseAndSelector (Selector_String <$> ts) identity = Ok s ∧ conjunction s = true ∧ conjuncts s = ts.
Proof.
  intros Hne Hts. unfold parseAndSelector. rewrite (parse_readable _ ts Hts). destruct ts as [|s [|s' ts]]; [done| |].
  - exists s. cbn [forallb] in Hts. apply andb_true_iff in Hts as [Hs _]. rewrite (proj2 (readable_not_empty s Hs)). split; [done|].
    destruct s as [|f v|f v|f v|f v|f v|f v|t|t]; done.
  - rewrite (proj1 (transform_list _ _ (readable_terms _ Hts))). by eexists.
Qed.

Lemma forallb_perm {A} (f : A -> bool) l l' : l ≡ₚ l' -> forallb f l = forallb f l'.
Proof. induction 1 as [|x l l' _ IH|x y l|? ? ? _ IH1 _ IH2]; cbn; [done|by rewrite IH| |by rewrite IH1]. by rewrite !andb_assoc, (andb_comm (f x)). Qed.

Lemma existsb_perm {A} (f : A -> bool) l l' : l ≡ₚ l' -> existsb f l = existsb f l'.
Proof. induction 1 as [|x l l' _ IH|x y l|? ? ? _ IH1 _ IH2]; cbn; [done|by rewrite IH| |by rewrite IH1]. by rewrite !orb_assoc, (orb_comm (f x)). Qed.

Lemma sorted_strings {A} (f : A -> string) l : ∃ l', l' ≡ₚ l ∧ merge_sort String.le (f <$> l) = f <$> l'.
Proof. destruct (Permutation_map_inv f l (merge_sort_Permutation String.le (f <$> l))) as (l' & Hl & Hp). exists l'. by split; [symmetry|]. Qed.

(** A printed conjunction is read as one of the same terms. *)
Lemma parse_conjunction s : conjunction s = true -> ∃ part s', splitAndTermsAndSort (Selector_String s) = part ∧ part <> [] ∧
  parseAndSelector part identity = Ok s' ∧ conjunction s' = true ∧ conjuncts s' ≡ₚ conjuncts s.
Proof.
  intros (Hne & Hr & Hstr & _)%conjunction_conjuncts. rewrite Hstr. set (ts := conjuncts s) in *. clearbody ts. clear Hstr.
  assert (Forall (piece ",") (Selector_String <$> ts)) as Hps.
  { apply Forall_fmap, Forall_forall. intros t Ht. apply readable_string; [|by left]. rewrite forallb_elem in Hr. by apply Hr. }
  destruct (sorted_strings Selector_String ts) as (ts' & Hp & Hsort).
  destruct (parse_and_readable ts') as (s' & Hparse & Hc & Hcs); [intros ->; by apply Permutation_nil in Hp|by rewrite (forallb_perm _ _ _ Hp)|].
  exists (Selector_String <$> ts'), s'. split_and!; [|intros ->%fmap_nil_inv; by apply Permutation_nil in Hp|done|done|by rewrite Hcs].
  destruct ts as [|t ts]; [done|]. rewrite <- Hsort. rewrite fmap_cons in Hps |- *. unfold splitAndTermsAndSort. rewrite (split_join "," _ "" _) by done.
  destruct (Join _ _) eqn:E; [|done]. exfalso. cbn [forallb] in Hr. apply andb_true_iff in Hr as [Hr _]. apply readable_string in Hr as [Hr _].
  destruct (Selector_String <$> ts); [done|]. rewrite join_cons in E. by apply string_nonempty in E.
Qed.

Lemma conjunction_not_empty s : conjunction s = true -> Empty s = false ∧ Transform s identity = Ok s.
Proof.
  intros H. destruct s as [|f v|f v|f v|f v|f v|f v|[|q t]|t]; cbn [conjunction] in H; try done; try by apply readable_not_empty.
  split; [|by apply transform_list, readable_terms]. cbn [forallb] in H. apply andb_true_iff in H as [Hq _]. cbn [Empty forallb].
  by rewrite (proj1 (readable_not_empty q Hq)).
Qed.

Lemma conjunction_string s : conjunction s = true -> Selector_String s <> ""%string ∧ piece ";" (Selector_String s).
Proof.
  intros (Hne & Hr & -> & _)%conjunction_conjuncts. rewrite forallb_elem in Hr. split.
  - destruct (conjuncts s) as [|t ts]; [done|]. destruct (readable_string t) as [Ht _]; [apply Hr, list_elem_of_here|]. rewrite fmap_cons.
    destruct (Selector_String <$> ts); [done|]. rewrite join_cons. by apply string_nonempty.
  - apply piece_join; [done|done|]. apply Forall_fmap, Forall_forall. intros t Ht. apply readable_string; [by apply Hr|by right].
Qed.

(** The conjunctions that a selector offers. *)
Definition alternatives (s : Selector) : list Selector := match s with orTerm t => t | andTerm [] => [] | _ => [s] end.

Lemma printable_alternatives s : printable s = true -> forallb conjunction (alternatives s) = true ∧
  Selector_String s = Join (Selector_String <$> alternatives s) ";" ∧
  forall ls, Matches s ls = match alternatives s with [] => true | l => existsb (fun q => Matches q ls) l end.
Proof.
  destruct s as [|f v|f v|f v|f v|f v|f v|[|q t]|[|q t]]; cbn [printable alternatives]; intros H; try done;
    (split_and!; [|done|intros ls; cbn [existsb]; by rewrite ?orb_false_r]); cbn [forallb] in *; rewrite ?H; done.
Qed.

(** The same terms, in another order. *)
Definition same_terms (s s' : Selector) : Prop := conjunction s' = true ∧ conjuncts s' ≡ₚ conjuncts s.

Lemma same_terms_match s s' ls : conjunction s = true -> same_terms s s' -> Matches s' ls = Matches s ls.
Proof.
  intros (_ & _ & _ & Hm)%conjunction_conjuncts [(_ & _ & _ & Hm')%conjunction_conjuncts Hp]. rewrite Hm, Hm'. by apply forallb_perm.
Qed.

Lemma parse_conjunctions l : forallb conjunction l = true ->
  ∃ l', parse_alternatives (splitAndTermsAndSort <$> (Selector_String <$> l)) identity = Ok l' ∧ Forall2 same_terms l l'.
Proof.
  induction l as [|s l IH]; [by exists []|]. cbn [forallb]. intros [Hs Hl]%andb_true_iff. destruct (IH Hl) as (l' & Hparse & Hsame).
  destruct (parse_conjunction s Hs) as (part & s' & Hsplit & Hne & Hs' & Hc & Hp). rewrite !fmap_cons, Hsplit. cbn [parse_alternatives].
  rewrite Hs', Hparse. exists (s' :: l'). split; [by destruct part|]. by constructor.
Qed.

Lemma existsb_same l l' ls : forallb conjunction l = true -> Forall2 same_terms l l' ->
  existsb (fun q => Matches q ls) l' = existsb (fun q => Matches q ls) l.
Proof.
  intros Hl H. induction H as [|s s' l l' Hs _ IH]; [done|]. cbn [forallb existsb] in *. apply andb_true_iff in Hl as [Hc Hl].
  by rewrite (same_terms_match s s' ls Hc Hs), (IH Hl).
Qed.

(** What is read is a list of conjunctions, in the order of their texts. *)
Lemma parse_printed s : printable s = true -> ∃ l l', l ≡ₚ alternatives s ∧ Forall2 same_terms l l' ∧
  ParseSelector (Selector_String s) = Ok (match l' with [item] => item | _ => orTerm l' end).
Proof.
  intros (Hc & Hstr & _)%printable_alternatives. rewrite Hstr. set (alts := alternatives s) in *. clearbody alts. clear Hstr.
  destruct (sorted_strings Selector_String alts) as (l & Hp & Hsort).
  assert (forallb conjunction l = true) as Hl by (by rewrite (forallb_perm _ _ _ Hp)).
  destruct (parse_conjunctions l Hl) as (l' & Hparse & Hsame). exists l, l'. split_and!; [done|done|].
  assert (splitTermsAndSort (Join (Selector_String <$> alts) ";") = splitAndTermsAndSort <$> (Selector_String <$> l)) as Hsplit.
  { assert (Forall (piece ";") (Selector_String <$> alts)) as Hps.
    { apply Forall_fmap, Forall_forall. intros t Ht. rewrite forallb_elem in Hc. by apply conjunction_string, Hc. }
    destruct alts as [|a alts]; [by apply Permutation_nil_r in Hp as ->|]. rewrite <- Hsort. rewrite fmap_cons in Hps |- *. unfold splitTermsAndSort.
    rewrite (split_join ";" _ "" _) by done. destruct (Join _ _) eqn:E; [|done]. exfalso. cbn [forallb] in Hc. apply andb_true_iff in Hc as [Ha _].
    apply conjunction_string in Ha as [Ha _]. destruct (Selector_String <$> alts); [done|]. rewrite join_cons in E. by apply string_nonempty in E. }
  unfold ParseSelector, parseSelector. rewrite Hsplit, Hparse.
  assert (Forall (fun s => Empty s = false ∧ Transform s identity = Ok s) l') as Ht.
  { clear -Hsame. induction Hsame as [|? ? ? ? [Hc _] _ IH]; constructor; [by apply conjunction_not_empty|done]. }
  destruct l' as [|s1 [|s2 l']]; [done| |by apply (transform_list _ (s1 :: s2 :: l'))]. by apply Forall_cons in Ht as [[_ ?] _].
Qed.

(** C33.  A printed selector is read back: when it is an alternative of conjunctions of terms,
    a single conjunction or term, or the empty conjunction, its terms have fields that are not
    empty and hold no operators, and no value that is tested for equality starts like a
    comparison, then parsing the text yields a selector that matches the same sets of fields
    and can be printed and parsed again. *)
Theorem printed_field_selector_parses_back s : printable s = true ->
  ∃ s', ParseSelector (Selector_String s) = Ok s' ∧ printable s' = true ∧ forall ls, Matches s' ls = Matches s ls.
Proof.
  intros Hs. destruct (parse_printed s Hs) as (l & l' & Hp & Hsame & Hparse). destruct (printable_alternatives s Hs) as (Hc & _ & Hm).
  rewrite <- (forallb_perm _ _ _ Hp) in Hc. eexists. split; [done|].
  assert (Forall (fun s => conjunction s = true) l') as Hl' by (clear -Hsame; induction Hsame as [|? ? ? ? [? _]]; by constructor).
  assert (forall ls, Matches (orTerm l') ls = Matches s ls) as Hor.
  { intros ls. rewrite Hm. pose proof (existsb_same l l' ls Hc Hsame) as He. rewrite (existsb_perm _ _ _ Hp) in He.
    destruct Hsame as [|? ? ? ? ? _]; [by apply Permutation_nil in Hp as ->|]. destruct (alternatives s); [by apply Permutation_nil_r in Hp|]. exact He. }
  destruct l' as [|s1 [|s2 l']].
  - split; [done|exact Hor].
  - apply Forall_cons in Hl' as [H1 _]. split; [|intros ls; rewrite <- Hor; cbn; by rewrite orb_false_r].
    destruct s1 as [|f v|f v|f v|f v|f v|f v|[|q t]|t]; done.
  - split; [|exact Hor]. cbn [printable]. rewrite forallb_elem. by rewrite Forall_forall in Hl'.
Qed.

Lemma printed_field_selector_parses_back_witness :
  let s := orTerm [andTerm [hasTerm "status.phase" "a,b"; lessTerm "spec.size" "10"]; notHasTerm "metadata.name" "lt:x"] in
  ∃ s', ParseSelector (Selector_String s) = Ok s' ∧ Matches s' {["status.phase" := "a,b"; "spec.size" := "9"; "metadata.name" := "lt:x"]}%string = true.
Proof.
  intros s. destruct (printed_field_selector_parses_back s) as (s' & Hp & _ & Hm); [reflexivity|]. exists s'. split; [exact Hp|].
  rewrite Hm. vm_compute. reflexivity.
Defined.

(** ** Conjunctions on their way to the server *)

(** A conjunction is read as a conjunction of the same terms. *)
Lemma conjunction_read s : conjunction s = true -> ∃ s', ParseSelector (Selector_String s) = Ok s' ∧ same_terms s s'.
Proof.
  intros Hs. assert (alternatives s = [s]) as Ha by (by destruct s as [|?|?|?|?|?|?|[|??]|?]).
  destruct (parse_printed s) as (l & l' & Hp & Hsame & Hparse); [by destruct s as [|?|?|?|?|?|?|[|??]|?]|].
  rewrite Ha in Hp. apply Permutation_singleton_r in Hp as ->. apply Forall2_cons_inv_l in Hsame as (s' & ? & Hs' & Hnil & ->).
  apply Forall2_nil_inv_l in Hnil as ->. by exists s'.
Qed.

(** A conversion of the labels that knows them all keeps a conjunction. *)
Lemma conjunction_converted fn s : conjunction s = true -> (forall t, t ∈ conjuncts s -> Transform t fn = Ok t) -> Transform s fn = Ok s.
Proof.
  intros Hs Ht. destruct (conjunction_conjuncts s Hs) as (_ & Hr & _). rewrite forallb_elem in Hr.
  destruct s as [|?|?|?|?|?|?|[|q t]|?]; try (apply Ht, list_elem_of_here); [done|]. apply transform_list. apply Forall_forall. intros x Hx.
  split; [by apply readable_not_empty, Hr|by apply Ht].
Qed.

(** Comparing an integer with an integer compares the numbers. *)
Lemma compare_integers num str a b : int64_range a -> int64_range b -> compare_values num str (FormatInt a) (FormatInt b) = num a b.
Proof. intros Ha Hb. unfold compare_values. by rewrite !ParseInt_FormatInt. Qed.

(** ** What goes wrong *)

(** A value that is tested for equality and starts like a comparison is read back as the
    comparison. *)
Theorem equality_reads_as_comparison f v :
  ParseSelector (Selector_String (hasTerm f ("lt:" +:+ v))) = ParseSelector (Selector_String (lessTerm f v)).
Proof. done. Qed.

(** A selector with alternatives claims to require the value of its first alternative,
    and matches sets of fields with the value of the second. *)
Theorem alternative_claims_exact_match f a b ls : Get ls f = b ->
  RequiresExactMatch (orTerm [hasTerm f a; hasTerm f b]) f = (a, true) ∧ Matches (orTerm [hasTerm f a; hasTerm f b]) ls = true.
Proof.
  intros <-. cbn. rewrite String.eqb_refl. split; [done|]. unfold Matches_has. by rewrite String.eqb_refl, orb_true_r.
Qed.

(** The transformation is applied twice to a selector of one term. *)
Theorem transformation_is_applied_twice fn f v s : readable (hasTerm f v) = true -> Transform (hasTerm f v) fn = Ok s ->
  ParseAndTransformSelector (Selector_String (hasTerm f v)) fn = Transform s fn.
Proof.
  intros Hr Hs. destruct (parse_conjunction (hasTerm f v) Hr) as (part & s' & Hsplit & _).
  destruct (readable_string _ Hr) as [Hne Hpiece].
  assert (splitAndTermsAndSort (Selector_String (hasTerm f v)) = [Selector_String (hasTerm f v)]) as Hpart.
  { unfold splitAndTermsAndSort. pose proof (split_join "," [] "" (Selector_String (hasTerm f v)) ltac:(done) ltac:(by repeat constructor; apply Hpiece; left)) as Hj.
    cbn [Join] in Hj. rewrite Hj. by destruct (Selector_String _). }
  unfold ParseAndTransformSelector, parseSelector, splitTermsAndSort.
  pose proof (split_join ";" [] "" (Selector_String (hasTerm f v)) ltac:(done) ltac:(by repeat constructor; apply Hpiece; right)) as Hj. cbn [Join] in Hj.
  destruct (Selector_String (hasTerm f v)) eqn:E; [done|]. rewrite Hj. change (merge_sort String.le ["" +:+ ?x]) with [x]. rewrite fmap_cons, Hpart. cbn [fmap list_fmap parse_alternatives].
  unfold parseAndSelector. rewrite <- E. pose proof (parse_readable [Selector_String (hasTerm f v)] [hasTerm f v]) as Hp. cbn [forallb] in Hp. rewrite Hr in Hp. specialize (Hp eq_refl).
  change (Selector_String <$> [hasTerm f v]) with [Selector_String (hasTerm f v)] in Hp. by rewrite Hp, Hs.
Qed.
End Fields.
