(* ===== verification/EtcdStore.v ===== *)
(** * The storage of the API server

    Models the storage of objects in etcd
    ([k8s.io/apiserver/pkg/storage/etcd3/store.go], with the preconditions of
    [storage/interfaces.go] and the suggestion that [storage/cacher/cacher.go] passes down).  etcd, its leases, the codec, the
    versioner and the transformer of the stored values are parameters; the record [laws]
    states what the storage relies on: a transaction compares the revision of a key and
    writes in one step, and a revision belongs to one value.  The theorems show that an
    update of an object is atomic, whatever other clients do in the meantime and however old
    the cached object is that it starts from; that it returns unless others interfere for
    ever; and that a precondition is held against the cached object. *)
From S2P Require Import Prelude Types.

Local Open Scope Z_scope.

Module Etcd.

Section Store.
(** Objects, the world with etcd in it, and leases. *)
Context {obj W lease : Type}.
(** The codec, the versioner and the metadata of an object. *)
Context (Encode : obj -> result string) (Decode : string -> result obj) (zero : obj).
Context (ObjectResourceVersion : obj -> result Z) (PrepareObjectForStorage : obj -> result obj) (UpdateObject : obj -> Z -> obj).
Context (GetUID GetResourceVersion : obj -> string).
(** The transformer of values, by key; the flag is whether a value has to be written again. *)
Context (TransformFromStorage : string -> string -> result (string * bool)) (TransformToStorage : string -> string -> result string).

(** A value with the revision in which it was written; [None] when there is no such key. *)
Definition KeyValue : Type := option (string * Z).

(** The answer of a transaction: the revision of the write, or the current value. *)
Inductive TxnResponse := Succeeded (revision : Z) | Conflict (current : KeyValue).

(** The client of etcd: reading a key; writing a value, with a lease or without, when the
    revision of the key is as given, zero for no such key, and reading it otherwise; deleting
    it likewise; and the lease of a time to live. *)
Context (KV_Get : W -> string -> result KeyValue * W).
Context (Txn_Put : W -> string -> Z -> string -> option lease -> result TxnResponse * W).
Context (Txn_Delete : W -> string -> Z -> result TxnResponse * W).
Context (GetLease : W -> Z -> result lease * W).

(** (etcd3/store.go:95-101) *)
Record objState := mkState { st_obj : obj; st_rev : Z; st_data : string; st_stale : bool }.

(** (storage/interfaces.go:111-118) *)
Record Preconditions := mkPreconditions { pre_UID : option string; pre_ResourceVersion : option string }.

(** The error, if any (storage/interfaces.go:126-153 Preconditions.Check). *)
Definition Check (p : option Preconditions) (key : string) (o : obj) : option string :=
  match p with
  | None => None
  | Some p =>
      let differs want have := match want with Some w => negb (String.eqb w have) | None => false end in
      if differs (pre_UID p) (GetUID o) then Some ("Precondition failed: UID in precondition: " +:+ default "" (pre_UID p) +:+ ", UID in object meta: " +:+ GetUID o)
      else if differs (pre_ResourceVersion p) (GetResourceVersion o)
      then Some ("Precondition failed: ResourceVersion in precondition: " +:+ default "" (pre_ResourceVersion p) +:+ ", ResourceVersion in object meta: " +:+ GetResourceVersion o)
      else None
  end.

(** (etcd3/store.go:1194-1205) *)
Definition decode (value : string) (rev : Z) : result obj := match Decode value with Ok o => Ok (UpdateObject o rev) | Err e => Err e end.

Definition NewKeyNotFoundError (key : string) : string := "key not found: " +:+ key.
Definition NewKeyExistsError (key : string) : string := "key exists: " +:+ key.

(** (etcd3/store.go:219-242 store.Get) *)
Definition Get (w : W) (key : string) (ignoreNotFound : bool) : result obj * W :=
  match KV_Get w key with
  | (Err e, w) => (Err e, w)
  | (Ok None, w) => (if ignoreNotFound then Ok zero else Err (NewKeyNotFoundError key), w)
  | (Ok (Some (value, rev)), w) =>
      (match TransformFromStorage key value with Ok (data, _) => decode data rev | Err e => Err e end, w)
  end.

(** (etcd3/store.go:978-1010) *)
Definition getState (getResp : KeyValue) (key : string) (ignoreNotFound : bool) : result objState :=
  match getResp with
  | None => if negb ignoreNotFound then Err (NewKeyNotFoundError key) else Ok (mkState zero 0 "" false)
  | Some (value, rev) =>
      match TransformFromStorage key value with
      | Err e => Err e
      | Ok (data, stale) => match decode data rev with Ok o => Ok (mkState o rev data stale) | Err e => Err e end
      end
  end.

(** (etcd3/store.go:1012-1036) *)
Definition getStateFromObject (o : obj) : result objState :=
  match ObjectResourceVersion o with
  | Err e => Err ("couldn't get resource version: " +:+ e)
  | Ok rv =>
      match PrepareObjectForStorage o with
      | Err e => Err ("PrepareObjectForStorage failed: " +:+ e)
      | Ok o => match Encode o with Ok data => Ok (mkState (UpdateObject o rv) rv data false) | Err e => Err e end
      end
  end.

(** An update takes the object with its revision and yields the new object and optional times
    to live. *)
Definition UpdateFunc : Type := obj -> Z -> result (obj * option Z * option Z).

(** (storage/util.go:32-37) *)
Definition SimpleUpdate (fn : obj -> result obj) : UpdateFunc := fun input _ => match fn input with Ok out => Ok (out, None, None) | Err e => Err e end.

(** (etcd3/store.go:1038-1057) *)
Definition updateState (st : objState) (userUpdate : UpdateFunc) : result (obj * Z * Z) :=
  match userUpdate (st_obj st) (st_rev st) with
  | Err e => Err e
  | Ok (ret, ttlPtr, updateTtlPtr) =>
      match PrepareObjectForStorage ret with
      | Err e => Err ("PrepareObjectForStorage failed: " +:+ e)
      | Ok ret => Ok (ret, default 0 ttlPtr, default 0 updateTtlPtr)
      end
  end.

(** (etcd3/store.go:1061-1070) *)
Definition ttlOpts (w : W) (ttl : Z) : result (option lease) * W :=
  if ttl =? 0 then (Ok None, w)
  else match GetLease w ttl with (Ok id, w) => (Ok (Some id), w) | (Err e, w) => (Err e, w) end.

(** (etcd3/store.go:353-361 GuaranteedUpdate) *)
Definition getCurrentState (w : W) (key : string) (ignoreNotFound : bool) : result objState * W :=
  match KV_Get w key with
  | (Err e, w) => (Err e, w)
  | (Ok getResp, w) => (getState getResp key ignoreNotFound, w)
  end.

(** The options of the write: an update's time to live replaces that of the object
    (etcd3/store.go:435-445 GuaranteedUpdate). *)
Definition write_opts (w : W) (ttl updatettl : Z) : result (option lease) * W :=
  match ttlOpts w ttl with
  | (Err e, w) => (Err e, w)
  | (Ok opts, w) => if 0 <? updatettl then ttlOpts w updatettl else (Ok opts, w)
  end.

(** The result of a turn of the loop: an answer, or the state to try again with. *)
Inductive turn := Answer (r : result obj) | Retry (st : objState).

(** The transaction (etcd3/store.go:430-474 GuaranteedUpdate). *)
Definition write (w : W) (key : string) (ignoreNotFound : bool) (st : objState) (data : string) (ttl updatettl : Z) : turn * W :=
  match TransformToStorage key data with
  | Err e => (Answer (Err e), w)
  | Ok newData =>
      match write_opts w ttl updatettl with
      | (Err e, w) => (Answer (Err e), w)
      | (Ok opts, w) =>
          match Txn_Put w key (st_rev st) newData opts with
          | (Err e, w) => (Answer (Err e), w)
          | (Ok (Conflict current), w) => (match getState current key ignoreNotFound with Err e => Answer (Err e) | Ok st => Retry st end, w)
          | (Ok (Succeeded revision), w) => (Answer (decode data revision), w)
          end
      end
  end.

(** The write is left out when nothing changes (etcd3/store.go:424-428 GuaranteedUpdate). *)
Definition write_or_skip (w : W) (key : string) (ignoreNotFound : bool) (st : objState) (data : string) (ttl updatettl : Z) : turn * W :=
  if negb (st_stale st) && (updatettl =? 0) then (Answer (decode (st_data st) (st_rev st)), w) else write w key ignoreNotFound st data ttl updatettl.

(** One turn (etcd3/store.go:381-474 GuaranteedUpdate). *)
Definition update_turn (w : W) (key : string) (ignoreNotFound : bool) (preconditions : option Preconditions) (tryUpdate : UpdateFunc)
    (origState : objState) (mustCheckData : bool) : turn * W :=
  match Check preconditions key (st_obj origState) with
  | Some e => (Answer (Err e), w)
  | None =>
      match updateState origState tryUpdate with
      | Err e =>
          if negb mustCheckData then (Answer (Err e), w)
          else match getCurrentState w key ignoreNotFound with (Err e, w) => (Answer (Err e), w) | (Ok st, w) => (Retry st, w) end
      | Ok (ret, ttl, updatettl) =>
          match Encode ret with
          | Err e => (Answer (Err e), w)
          | Ok data =>
              if negb (st_stale origState) && String.eqb data (st_data origState) then
                if mustCheckData then
                  match getCurrentState w key ignoreNotFound with
                  | (Err e, w) => (Answer (Err e), w)
                  | (Ok st, w) => if negb (String.eqb data (st_data st)) then (Retry st, w) else write_or_skip w key ignoreNotFound st data ttl updatettl
                  end
                else write_or_skip w key ignoreNotFound origState data ttl updatettl
              else write w key ignoreNotFound origState data ttl updatettl
          end
      end
  end.

(** The loop; [None] is that it has not ended after so many turns.  A state to try again
    with was just read (etcd3/store.go:380-475 GuaranteedUpdate). *)
Fixpoint update_loop (fuel : nat) (w : W) (key : string) (ignoreNotFound : bool) (preconditions : option Preconditions) (tryUpdate : UpdateFunc)
    (origState : objState) (mustCheckData : bool) : option (result obj * W) :=
  match fuel with
  | O => None
  | S fuel =>
      match update_turn w key ignoreNotFound preconditions tryUpdate origState mustCheckData with
      | (Answer r, w) => Some (r, w)
      | (Retry st, w) => update_loop fuel w key ignoreNotFound preconditions tryUpdate st false
      end
  end.

(** The object that is returned (etcd3/store.go:341-476). *)
Definition GuaranteedUpdate (fuel : nat) (w : W) (key : string) (ignoreNotFound : bool) (preconditions : option Preconditions) (tryUpdate : UpdateFunc)
    (suggestion : option obj) : option (result obj * W) :=
  match suggestion with
  | Some o =>
      match getStateFromObject o with
      | Err e => Some (Err e, w)
      | Ok origState => update_loop fuel w key ignoreNotFound preconditions tryUpdate origState true
      end
  | None =>
      match getCurrentState w key ignoreNotFound with
      | (Err e, w) => Some (Err e, w)
      | (Ok origState, w) => update_loop fuel w key ignoreNotFound preconditions tryUpdate origState false
      end
  end.

(** The watch cache passes the object that it has (storage/cacher/cacher.go:699-712
    Cacher.GuaranteedUpdate). *)
Definition Cacher_GuaranteedUpdate (fuel : nat) (watchCache : string -> option obj) (w : W) (key : string) (ignoreNotFound : bool)
    (preconditions : option Preconditions) (tryUpdate : UpdateFunc) : option (result obj * W) :=
  GuaranteedUpdate fuel w key ignoreNotFound preconditions tryUpdate (watchCache key).

(** (etcd3/store.go:249-287 store.Create) *)
Definition create_prepared (w : W) (key : string) (o : obj) (ttl : Z) : result obj * W :=
  match PrepareObjectForStorage o with
  | Err e => (Err ("PrepareObjectForStorage failed: " +:+ e), w)
  | Ok o =>
      match Encode o with
      | Err e => (Err e, w)
      | Ok data =>
          match ttlOpts w ttl with
          | (Err e, w) => (Err e, w)
          | (Ok opts, w) =>
              match TransformToStorage key data with
              | Err e => (Err e, w)
              | Ok newData =>
                  match Txn_Put w key 0 newData opts with
                  | (Err e, w) => (Err e, w)
                  | (Ok (Conflict _), w) => (Err (NewKeyExistsError key), w)
                  | (Ok (Succeeded revision), w) => (decode data revision, w)
                  end
              end
          end
      end
  end.

(** (etcd3/store.go:245-287 store.Create) *)
Definition Create (w : W) (key : string) (o : obj) (ttl : Z) : result obj * W :=
  match ObjectResourceVersion o with
  | Ok version =>
      if negb (version =? 0) then (Err "resourceVersion should not be set on objects to be created"%string, w)
      else create_prepared w key o ttl
  | Err _ => create_prepared w key o ttl
  end.

(** The loop of the deletion, from what was read (etcd3/store.go:306-337 conditionalDelete). *)
Fixpoint delete_loop (fuel : nat) (w : W) (key : string) (preconditions : option Preconditions) (validateDeletion : obj -> option string) (getResp : KeyValue) :
    option (result obj * W) :=
  match fuel with
  | O => None
  | S fuel =>
      match getState getResp key false with
      | Err e => Some (Err e, w)
      | Ok origState =>
          match Check preconditions key (st_obj origState) with
          | Some e => Some (Err e, w)
          | None =>
              match validateDeletion (st_obj origState) with
              | Some e => Some (Err e, w)
              | None =>
                  match Txn_Delete w key (st_rev origState) with
                  | (Err e, w) => Some (Err e, w)
                  | (Ok (Conflict current), w) => delete_loop fuel w key preconditions validateDeletion current
                  | (Ok (Succeeded _), w) => Some (decode (st_data origState) (st_rev origState), w)
                  end
              end
          end
      end
  end.

(** (etcd3/store.go:299-338) *)
Definition conditionalDelete (fuel : nat) (w : W) (key : string) (preconditions : option Preconditions) (validateDeletion : obj -> option string) : option (result obj * W) :=
  match KV_Get w key with
  | (Err e, w) => Some (Err e, w)
  | (Ok getResp, w) => delete_loop fuel w key preconditions validateDeletion getResp
  end.

(** ** What the storage relies on *)

Definition revision_of (kv : KeyValue) : Z := match kv with Some (_, rev) => rev | None => 0 end.

(** [look] is what etcd holds and [reach] the passing of time, in which other clients may
    write.  A read returns what etcd holds when it answers.  A transaction that succeeds
    finds the revision it compares with at some moment, and in one step replaces the value
    of its key and nothing else; one that does not succeed returns another revision, which
    etcd holds when it answers.  A revision is positive and belongs to one value of its key. *)
Record laws (valid : W -> Prop) (look : W -> string -> KeyValue) (reach : W -> W -> Prop) : Prop := {
  reach_refl : forall w, valid w -> reach w w;
  reach_trans : forall w1 w2 w3, reach w1 w2 -> reach w2 w3 -> reach w1 w3;
  get_law : forall w key r w', valid w -> KV_Get w key = (r, w') -> valid w' ∧ reach w w' ∧ forall kv, r = Ok kv -> look w' key = kv;
  lease_law : forall w ttl r w', valid w -> GetLease w ttl = (r, w') -> valid w' ∧ reach w w';
  put_law : forall w key rev value opts revision w', valid w -> Txn_Put w key rev value opts = (Ok (Succeeded revision), w') ->
    ∃ w0, valid w0 ∧ reach w w0 ∧ revision_of (look w0 key) = rev ∧ look w' key = Some (value, revision) ∧ forall key', key' <> key -> look w' key' = look w0 key';
  put_conflict_law : forall w key rev value opts current w', valid w -> Txn_Put w key rev value opts = (Ok (Conflict current), w') ->
    valid w' ∧ reach w w' ∧ look w' key = current ∧ revision_of current <> rev;
  delete_law : forall w key rev revision w', valid w -> Txn_Delete w key rev = (Ok (Succeeded revision), w') ->
    ∃ w0, valid w0 ∧ reach w w0 ∧ revision_of (look w0 key) = rev ∧ look w' key = None ∧ forall key', key' <> key -> look w' key' = look w0 key';
  delete_conflict_law : forall w key rev current w', valid w -> Txn_Delete w key rev = (Ok (Conflict current), w') ->
    valid w' ∧ reach w w' ∧ look w' key = current ∧ revision_of current <> rev;
  positive_law : forall w key value rev, valid w -> look w key = Some (value, rev) -> 0 < rev;
  revision_law : forall w w' key value value' rev, valid w -> valid w' -> reach w w' -> look w key = Some (value, rev) -> look w' key = Some (value', rev) -> value = value' }.

Section Atomic.
Context (valid : W -> Prop) (look : W -> string -> KeyValue) (reach : W -> W -> Prop).
Hypothesis etcd : laws valid look reach.
(** The versioner reads the version that it sets. *)
Hypothesis version_read : forall o rev, ObjectResourceVersion (UpdateObject o rev) = Ok rev.

(** The object that etcd holds. *)
Definition current (w : W) (key : string) (ignoreNotFound : bool) : result objState := getState (look w key) key ignoreNotFound.

(** A cached object is one that etcd held. *)
Definition was_held (w : W) (key : string) (o : obj) : Prop := ∃ w1 st ign, valid w1 ∧ reach w1 w ∧ is_Some (look w1 key) ∧ current w1 key ign = Ok st ∧ st_obj st = o.

(** An object that etcd held has nothing but its version that the preparation for the storage
    takes away, as self links are not stored; so setting the version gives the object back. *)
Hypothesis version_restored : forall w key o o' rev, was_held w key o -> ObjectResourceVersion o = Ok rev -> PrepareObjectForStorage o = Ok o' -> UpdateObject o' rev = o.

(** The update makes these data of an object, and these times to live. *)
Definition makes (pre : option Preconditions) (tryUpdate : UpdateFunc) (key : string) (st : objState) (data : string) (ttl updatettl : Z) : Prop :=
  Check pre key (st_obj st) = None ∧ ∃ ret, updateState st tryUpdate = Ok (ret, ttl, updatettl) ∧ Encode ret = Ok data.

(** The data are what the update makes of the object that etcd holds; or etcd holds these
    data, and the update made them of an object with the same data. *)
Definition justified (pre : option Preconditions) (tryUpdate : UpdateFunc) (key : string) (ign : bool) (w0 : W) (data : string) : Prop :=
  ∃ st st0 ttl updatettl, makes pre tryUpdate key st data ttl updatettl ∧ current w0 key ign = Ok st0 ∧
    (st_obj st = st_obj st0 ∧ st_rev st = st_rev st0 ∨ data = st_data st ∧ data = st_data st0).

(** At some moment [w0] the data are written and nothing else changes, or etcd holds them
    already. *)
Definition updates_at (key : string) (ign : bool) (w0 : W) (data : string) (out : obj) (w' : W) : Prop :=
  (∃ value rev, TransformToStorage key data = Ok value ∧ look w' key = Some (value, rev) ∧ decode data rev = Ok out ∧ forall key', key' <> key -> look w' key' = look w0 key') ∨
  (w' = w0 ∧ ∃ st, current w0 key ign = Ok st ∧ st_data st = data ∧ decode data (st_rev st) = Ok out).

(** The state was read at some moment. *)
Definition was_read (w : W) (key : string) (ign : bool) (st : objState) : Prop :=
  ∃ w1 st1, valid w1 ∧ reach w1 w ∧ current w1 key ign = Ok st1 ∧ st_obj st1 = st_obj st ∧ st_rev st1 = st_rev st.

Lemma state_revision kv key ign st : getState kv key ign = Ok st -> st_rev st = revision_of kv.
Proof.
  unfold getState. destruct kv as [[value rev]|]; [|by destruct ign; intros [= <-]]. destruct (TransformFromStorage _ _) as [[data stale]|]; [|done].
  destruct (decode data rev); [|done]. by intros [= <-].
Qed.

(** A key that has the revision of a state has its value. *)
Lemma same_revision w1 w0 key ign st1 : valid w1 -> valid w0 -> reach w1 w0 -> current w1 key ign = Ok st1 -> revision_of (look w0 key) = st_rev st1 ->
  look w0 key = look w1 key.
Proof.
  intros Hv1 Hv0 Hr Hc Hrev. rewrite (state_revision _ _ _ _ Hc) in Hrev.
  destruct (look w1 key) as [[v1 r1]|] eqn:E1, (look w0 key) as [[v0 r0]|] eqn:E0; cbn in Hrev; try done.
  - subst r0. by rewrite (revision_law _ _ _ etcd w1 w0 key v1 v0 r1).
  - pose proof (positive_law _ _ _ etcd w1 key v1 r1 Hv1 E1). lia.
  - pose proof (positive_law _ _ _ etcd w0 key v0 r0 Hv0 E0). lia.
Qed.

Lemma suggestion_read w key o ign st : was_held w key o -> getStateFromObject o = Ok st -> was_read w key ign st.
Proof.
  intros Hheld. pose proof Hheld as (w1 & st1 & ign1 & Hv & Hr & [[value rev] Hl] & Hc & Ho). unfold getStateFromObject.
  assert (ObjectResourceVersion o = Ok (st_rev st1)) as Hver.
  { subst o. unfold current in Hc. rewrite Hl in Hc. cbn in Hc. destruct (TransformFromStorage _ _) as [[data stale]|]; [|done].
    unfold decode in Hc. destruct (Decode data); [|done]. injection Hc as <-. cbn. apply version_read. }
  rewrite Hver. destruct (PrepareObjectForStorage o) as [o'|] eqn:Hp; [|done]. destruct (Encode o'); [|done]. intros [= <-].
  exists w1, st1. cbn. split_and!; [done|done| |by rewrite (version_restored w key o o' _ Hheld Hver Hp)|done]. unfold current in *. rewrite Hl in Hc |- *. exact Hc.
Qed.

(** What a turn of the loop ends with. *)
Definition turn_ok (pre : option Preconditions) (tryUpdate : UpdateFunc) (key : string) (ign : bool) (w : W) (t : turn) (w' : W) : Prop :=
  match t with
  | Answer (Err _) => True
  | Answer (Ok out) => ∃ w0 data, valid w0 ∧ reach w w0 ∧ justified pre tryUpdate key ign w0 data ∧ updates_at key ign w0 data out w'
  | Retry st => valid w' ∧ reach w w' ∧ current w' key ign = Ok st
  end.

Lemma turn_later pre tryUpdate key ign w w1 t w' : reach w w1 -> turn_ok pre tryUpdate key ign w1 t w' -> turn_ok pre tryUpdate key ign w t w'.
Proof.
  intros Hr. destruct t as [[out|]|st]; cbn; [|done|].
  - intros (w0 & d & ? & ? & ? & ?). exists w0, d. split_and!; try done. by eapply (reach_trans _ _ _ etcd).
  - intros (? & ? & ?). split_and!; try done. by eapply (reach_trans _ _ _ etcd).
Qed.

Lemma opts_ok w ttl updatettl r w' : valid w -> write_opts w ttl updatettl = (r, w') -> valid w' ∧ reach w w'.
Proof.
  intros Hv. assert (forall w t r w', valid w -> ttlOpts w t = (r, w') -> valid w' ∧ reach w w') as Hone.
  { intros w1 t r1 w1' Hv1. unfold ttlOpts. destruct (t =? 0); [intros [= <- <-]; split; [done|by apply (reach_refl _ _ _ etcd)]|].
    destruct (GetLease w1 t) as [r0 w2] eqn:E. apply (lease_law _ _ _ etcd) in E as [? ?]; [|done]. by destruct r0; intros [= <- <-]. }
  unfold write_opts. destruct (ttlOpts w ttl) as [r1 w1] eqn:E1. apply Hone in E1 as [Hv1 Hr1]; [|done].
  destruct r1 as [opts|]; [|by intros [= <- <-]]. destruct (0 <? updatettl); [|by intros [= <- <-]]. intros [Hv2 Hr2]%Hone; [|done].
  split; [done|by eapply (reach_trans _ _ _ etcd)].
Qed.

(** The transaction writes data that are justified by the state that it names. *)
Lemma write_ok pre tryUpdate key ign w st data ttl updatettl t w' : valid w ->
  (forall w0, valid w0 -> reach w w0 -> revision_of (look w0 key) = st_rev st -> justified pre tryUpdate key ign w0 data) ->
  write w key ign st data ttl updatettl = (t, w') -> turn_ok pre tryUpdate key ign w t w'.
Proof.
  intros Hv Hj. unfold write. destruct (TransformToStorage key data) as [newData|] eqn:Ht; [|by intros [= <- <-]].
  destruct (write_opts w ttl updatettl) as [r1 w1] eqn:E1. apply opts_ok in E1 as [Hv1 Hr1]; [|done]. destruct r1 as [opts|]; [|by intros [= <- <-]].
  destruct (Txn_Put w1 key (st_rev st) newData opts) as [r2 w2] eqn:E2. destruct r2 as [[revision|cur]|]; [| |by intros [= <- <-]].
  - intros [= <- <-]. apply (put_law _ _ _ etcd) in E2 as (w0 & Hv0 & Hr0 & Hrev & Hl & Hothers); [|done].
    unfold turn_ok. destruct (decode data revision) as [out|] eqn:Hd; [|done]. assert (reach w w0) as Hr by (by eapply (reach_trans _ _ _ etcd)).
    exists w0, data. split_and!; [done|done|by apply Hj|]. left. by exists newData, revision.
  - apply (put_conflict_law _ _ _ etcd) in E2 as (Hv2 & Hr2 & Hl & _); [|done]. intros [= <- <-].
    destruct (getState cur key ign) as [st2|] eqn:Hs; [|done]. split_and!; [done|by eapply (reach_trans _ _ _ etcd)|]. unfold current. by rewrite Hl.
Qed.

Lemma write_or_skip_ok pre tryUpdate key ign w st data ttl updatettl t w' : valid w -> current w key ign = Ok st -> data = st_data st ->
  (forall w0, valid w0 -> reach w w0 -> revision_of (look w0 key) = st_rev st -> justified pre tryUpdate key ign w0 data) ->
  write_or_skip w key ign st data ttl updatettl = (t, w') -> turn_ok pre tryUpdate key ign w t w'.
Proof.
  intros Hv Hc Hd Hj. unfold write_or_skip. destruct (_ && _); [|by apply write_ok]. intros [= <- <-]. unfold turn_ok.
  destruct (decode (st_data st) (st_rev st)) as [out|] eqn:Hdec; [|done]. exists w, data. split_and!; [done|by apply (reach_refl _ _ _ etcd)| |].
  - apply Hj; [done|by apply (reach_refl _ _ _ etcd)|]. symmetry. exact (state_revision _ _ _ _ Hc).
  - right. split; [done|]. exists st. by rewrite Hd.
Qed.

Lemma read_now w key ign r w' : valid w -> getCurrentState w key ign = (r, w') ->
  valid w' ∧ reach w w' ∧ forall st, r = Ok st -> current w' key ign = Ok st.
Proof.
  intros Hv. unfold getCurrentState. destruct (KV_Get w key) as [r0 w0] eqn:E. apply (get_law _ _ _ etcd) in E as (Hv0 & Hr0 & Hl); [|done].
  destruct r0 as [kv|]; intros [= <- <-]; split_and!; try done. intros st Hs. unfold current. by rewrite (Hl kv eq_refl).
Qed.

Lemma turn_is_ok pre tryUpdate key ign w st must t w' : valid w -> was_read w key ign st -> (must = false -> current w key ign = Ok st) ->
  update_turn w key ign pre tryUpdate st must = (t, w') -> turn_ok pre tryUpdate key ign w t w'.
Proof.
  intros Hv (w1 & st1 & Hv1 & Hr1 & Hc1 & Ho1 & Hrev1) Hnow. unfold update_turn. destruct (Check pre key (st_obj st)) eqn:Hcheck; [by intros [= <- <-]|].
  destruct (updateState st tryUpdate) as [[[ret ttl] ut]|] eqn:Hup.
  2: { destruct must; cbn [negb]; [|by intros [= <- <-]]. destruct (getCurrentState w key ign) as [r w2] eqn:E. apply read_now in E as (Hv2 & Hr2 & Hl2); [|done].
       destruct r as [st2|]; intros [= <- <-]; [|done]. split_and!; [done|done|by apply Hl2]. }
  destruct (Encode ret) as [data|] eqn:Henc; [|by intros [= <- <-]].
  assert (makes pre tryUpdate key st data ttl ut) as Hmakes by (split; [done|by exists ret]).
  assert (forall w0, valid w0 -> reach w w0 -> revision_of (look w0 key) = st_rev st -> justified pre tryUpdate key ign w0 data) as Hj.
  { intros w0 Hv0 Hr0 Hrev0. exists st, st1, ttl, ut. split_and!; [done| |by left]. unfold current in *.
    rewrite (same_revision w1 w0 key ign st1); [done..|by eapply (reach_trans _ _ _ etcd)|done|congruence]. }
  destruct (negb (st_stale st) && String.eqb data (st_data st)) eqn:Hsame; [|by apply write_ok].
  apply andb_true_iff in Hsame as [_ Hsame%String.eqb_eq]. destruct must; [|by apply write_or_skip_ok; [|apply Hnow| |]].
  destruct (getCurrentState w key ign) as [r w2] eqn:E. apply read_now in E as (Hv2 & Hr2 & Hl2); [|done].
  destruct r as [st2|]; [|by intros [= <- <-]]. specialize (Hl2 st2 eq_refl). destruct (String.eqb_spec data (st_data st2)) as [Hd2|]; cbn [negb].
  2: { intros [= <- <-]. by split_and!. }
  intros Hw. apply (write_or_skip_ok pre tryUpdate) in Hw; [|done|done|done|].
  - by apply turn_later with w2.
  - intros w0 Hv0 Hr0 Hrev0. exists st, st2, ttl, ut. split_and!; [done| |by right]. unfold current in *.
    by rewrite (same_revision w2 w0 key ign st2).
Qed.

Lemma loop_is_atomic pre tryUpdate key ign fuel : forall w st must out w', valid w -> was_read w key ign st -> (must = false -> current w key ign = Ok st) ->
  update_loop fuel w key ign pre tryUpdate st must = Some (Ok out, w') ->
  ∃ w0 data, valid w0 ∧ reach w w0 ∧ justified pre tryUpdate key ign w0 data ∧ updates_at key ign w0 data out w'.
Proof.
  induction fuel as [|fuel IH]; intros w st must out w' Hv Hread Hnow; [done|]. cbn [update_loop].
  destruct (update_turn w key ign pre tryUpdate st must) as [t w1] eqn:E. apply turn_is_ok in E; [|done..]. destruct t as [r|st1].
  - intros [= -> <-]. exact E.
  - destruct E as (Hv1 & Hr1 & Hc1). intros Hl%IH; [|done| |done].
    + exact (turn_later _ _ _ _ w w1 (Answer (Ok out)) w' Hr1 Hl).
    + exists w1, st1. split_and!; try done. by apply (reach_refl _ _ _ etcd).
Qed.

(** C19.  An update that returns an object is atomic: at one moment etcd holds an object, the
    update makes data of it and they are written in that moment, with nothing else changed; or
    etcd already holds the data that the update makes of an object with the same data. This
    holds for any interference by other clients, and whether or not the update starts with a
    cached object, which may be old but is one that etcd held; the objects that etcd held have
    no self links. *)
Theorem guaranteed_update_is_atomic fuel w key ign pre tryUpdate suggestion out w' : valid w -> (forall o, suggestion = Some o -> was_held w key o) ->
  GuaranteedUpdate fuel w key ign pre tryUpdate suggestion = Some (Ok out, w') ->
  ∃ w0 data, valid w0 ∧ reach w w0 ∧ justified pre tryUpdate key ign w0 data ∧ updates_at key ign w0 data out w'.
Proof.
  intros Hv Hheld. unfold GuaranteedUpdate. destruct suggestion as [o|].
  - destruct (getStateFromObject o) as [st|] eqn:Hs; [|done]. apply loop_is_atomic; [done| |done]. by eapply suggestion_read; [apply Hheld|].
  - destruct (getCurrentState w key ign) as [r w1] eqn:E. apply read_now in E as (Hv1 & Hr1 & Hc1); [|done]. destruct r as [st|]; [|done]. specialize (Hc1 st eq_refl).
    intros Hl%loop_is_atomic; [|done| |done].
    + exact (turn_later _ _ _ _ w w1 (Answer (Ok out)) w' Hr1 Hl).
    + exists w1, st. split_and!; try done. by apply (reach_refl _ _ _ etcd).
Qed.

(** ** Creation and deletion *)

(** An object is created only where there is none. *)
Lemma create_is_atomic w key o ttl out w' : valid w -> Create w key o ttl = (Ok out, w') ->
  ∃ w0 data value rev, valid w0 ∧ reach w w0 ∧ look w0 key = None ∧ TransformToStorage key data = Ok value ∧ look w' key = Some (value, rev) ∧ decode data rev = Ok out.
Proof.
  intros Hv. assert (forall r, create_prepared w key o ttl = r -> r = (Ok out, w') -> ∃ w0 data value rev, valid w0 ∧ reach w w0 ∧ look w0 key = None ∧
    TransformToStorage key data = Ok value ∧ look w' key = Some (value, rev) ∧ decode data rev = Ok out) as Hprep.
  { intros r <-. unfold create_prepared. destruct (PrepareObjectForStorage o) as [o'|]; [|done]. destruct (Encode o') as [data|]; [|done].
    destruct (ttlOpts w ttl) as [r1 w1] eqn:E1. assert (valid w1 ∧ reach w w1) as [Hv1 Hr1].
    { apply (opts_ok w ttl 0 r1 w1 Hv). unfold write_opts. rewrite E1. by destruct r1. }
    destruct r1 as [opts|]; [|done]. destruct (TransformToStorage key data) as [value|] eqn:Ht; [|done].
    destruct (Txn_Put w1 key 0 value opts) as [[[rev|cur]|e] w2] eqn:E2; [|done|done]. intros [= Hd <-].
    apply (put_law _ _ _ etcd) in E2 as (w0 & Hv0 & Hr0 & Hrev & Hl & _); [|done]. exists w0, data, value, rev.
    split_and!; try done; [by eapply (reach_trans _ _ _ etcd)|]. destruct (look w0 key) as [[v0 r0]|] eqn:E0; [|done].
    pose proof (positive_law _ _ _ etcd w0 key v0 r0 Hv0 E0). cbn in Hrev. lia. }
  unfold Create. destruct (ObjectResourceVersion o) as [version|]; [destruct (negb _); [done|]|]; by apply Hprep.
Qed.

(** A deletion that succeeds deletes an object that satisfies the precondition and the
    validation at that moment. *)
Lemma delete_is_atomic pre validate key fuel : forall w kv out w', valid w -> look w key = kv -> delete_loop fuel w key pre validate kv = Some (Ok out, w') ->
  ∃ w0 st, valid w0 ∧ reach w w0 ∧ current w0 key false = Ok st ∧ Check pre key (st_obj st) = None ∧ validate (st_obj st) = None ∧
    look w' key = None ∧ forall key', key' <> key -> look w' key' = look w0 key'.
Proof.
  induction fuel as [|fuel IH]; intros w kv out w' Hv Hl; [done|]. cbn [delete_loop]. destruct (getState kv key false) as [st|] eqn:Hs; [|done].
  destruct (Check pre key (st_obj st)) eqn:Hc; [done|]. destruct (validate (st_obj st)) eqn:Hval; [done|].
  destruct (Txn_Delete w key (st_rev st)) as [[[rev|cur]|e] w1] eqn:E; [| |done].
  - intros [= _ <-]. apply (delete_law _ _ _ etcd) in E as (w0 & Hv0 & Hr0 & Hrev & Hgone & Hothers); [|done]. exists w0, st.
    assert (current w key false = Ok st) as Hcur by (unfold current; by rewrite Hl). split_and!; try done.
    unfold current. by rewrite (same_revision w w0 key false st).
  - apply (delete_conflict_law _ _ _ etcd) in E as (Hv1 & Hr1 & Hl1 & _); [|done]. intros (w0 & st0 & Hv0 & Hr0 & H)%IH; [|done|done].
    exists w0, st0. split_and!; [done|by eapply (reach_trans _ _ _ etcd)|apply H..].
Qed.

(** ** The loop ends *)

Section Progress.
(** etcd answers, and the codec and the transformer accept what is stored. *)
Hypothesis get_answers : forall w key, ∃ kv w', KV_Get w key = (Ok kv, w').
Hypothesis put_answers : forall w key rev value opts, ∃ r w', Txn_Put w key rev value opts = (Ok r, w').
Hypothesis stored_readable : forall w key ign value rev, valid w -> look w key = Some (value, rev) -> ∃ st, getState (Some (value, rev)) key ign = Ok st.
Hypothesis objects_stored : forall o, ∃ o' data, PrepareObjectForStorage o = Ok o' ∧ Encode o' = Ok data ∧ forall rev, is_ok (decode data rev) = true.
Hypothesis values_stored : forall key data, ∃ value, TransformToStorage key data = Ok value.
(** What is left of the interference of other clients: a transaction fails against a state
    that was current only when another client has written in between. *)
Context (budget : W -> nat).
Hypothesis reach_budget : forall w w', reach w w' -> (budget w' <= budget w)%nat.
Hypothesis conflict_budget : forall w key rev value opts cur w', valid w -> revision_of (look w key) = rev -> Txn_Put w key rev value opts = (Ok (Conflict cur), w') ->
  (budget w' < budget w)%nat.

(** The object was not there at some moment, or the update refused the object of that
    moment. *)
Definition refused (fn : obj -> result obj) (key : string) (ign : bool) (w : W) (e : string) : Prop :=
  ∃ w0, valid w0 ∧ reach w w0 ∧ (ign = false ∧ look w0 key = None ∧ e = NewKeyNotFoundError key ∨ ∃ st, current w0 key ign = Ok st ∧ fn (st_obj st) = Err e).

Definition turn_ends (fn : obj -> result obj) (key : string) (ign : bool) (w : W) (strict : bool) (t : turn) (w' : W) : Prop :=
  match t with
  | Answer (Err e) => refused fn key ign w e
  | Answer (Ok _) => True
  | Retry st => valid w' ∧ reach w w' ∧ current w' key ign = Ok st ∧ (strict = true -> (budget w' < budget w)%nat)
  end.

Lemma refused_later fn key ign w w1 e : reach w w1 -> refused fn key ign w1 e -> refused fn key ign w e.
Proof. intros Hr (w0 & Hv0 & Hr0 & H). exists w0. split_and!; [done|by eapply (reach_trans _ _ _ etcd)|done]. Qed.

Lemma state_read w key ign : valid w -> (∃ st, current w key ign = Ok st) ∨ current w key ign = Err (NewKeyNotFoundError key) ∧ ign = false ∧ look w key = None.
Proof.
  intros Hv. unfold current. destruct (look w key) as [[value rev]|] eqn:E; [left; by apply (stored_readable w)|]. cbn. destruct ign; [left; by eexists|by right].
Qed.

Lemma write_ends fn key ign w st data strict t w' : valid w -> (strict = true -> revision_of (look w key) = st_rev st) -> (forall rev, is_ok (decode data rev) = true) ->
  write w key ign st data 0 0 = (t, w') -> turn_ends fn key ign w strict t w'.
Proof.
  intros Hv Hnow Hdec. unfold write. destruct (values_stored key data) as [value ->]. change (write_opts w 0 0) with ((Ok None, w) : result (option lease) * W). cbn iota.
  destruct (put_answers w key (st_rev st) value None) as (r & w1 & E). rewrite E. destruct r as [rev|cur]; intros [= <- <-].
  - specialize (Hdec rev). by destruct (decode data rev).
  - pose proof E as E'. apply (put_conflict_law _ _ _ etcd) in E' as (Hv1 & Hr1 & Hl & _); [|done].
    destruct (state_read w1 key ign Hv1) as [[st1 Hst]|(Herr & Hi & Hno)]; unfold current in *; rewrite Hl in *.
    + rewrite Hst. split_and!; try done; [unfold current; by rewrite Hl|]. intros Hs. by eapply conflict_budget; [|apply Hnow|].
    + rewrite Herr. exists w1. split_and!; try done. left. by split_and!; [|rewrite Hl|].
Qed.

Lemma read_ends fn w key ign r w' : valid w -> getCurrentState w key ign = (r, w') ->
  valid w' ∧ reach w w' ∧ match r with Ok st => current w' key ign = Ok st | Err e => refused fn key ign w e end.
Proof.
  intros Hv E. pose proof E as E'. apply read_now in E' as (Hv' & Hr & Hl); [|done]. split_and!; [done|done|]. destruct r as [st|e]; [by apply Hl|].
  unfold getCurrentState in E. destruct (get_answers w key) as (kv & w3 & Eg). rewrite Eg in E. injection E as Er <-.
  apply (get_law _ _ _ etcd) in Eg as (_ & _ & Hkv); [|done]. specialize (Hkv kv eq_refl). exists w3. split_and!; [done|done|]. left.
  destruct (state_read w3 key ign Hv') as [[? H]|(H & ? & ?)]; unfold current in H; rewrite Hkv, Er in H; [done|]. injection H as ->. done.
Qed.

Lemma turn_does_end fn key ign w st must t w' : valid w -> (must = false -> current w key ign = Ok st) ->
  update_turn w key ign None (SimpleUpdate fn) st must = (t, w') -> turn_ends fn key ign w (negb must) t w'.
Proof.
  intros Hv Hnow. unfold update_turn, updateState, SimpleUpdate. cbn [Check]. destruct (fn (st_obj st)) as [o|e] eqn:Hfn.
  2: { destruct must; cbn [negb].
       - destruct (getCurrentState w key ign) as [r w2] eqn:E. apply (read_ends fn) in E as (Hv2 & Hr2 & Hl2); [|done].
         destruct r as [st2|e2]; intros [= <- <-]; [by split_and!|done].
       - intros [= <- <-]. exists w. split_and!; [done|by apply (reach_refl _ _ _ etcd)|]. right. exists st. split; [by apply Hnow|done]. }
  destruct (objects_stored o) as (o' & data & -> & -> & Hdec). cbn [default].
  assert (must = false -> revision_of (look w key) = st_rev st) as Hrev by (intros Hm; symmetry; exact (state_revision _ _ _ _ (Hnow Hm))).
  destruct (negb (st_stale st) && String.eqb data (st_data st)) eqn:Hsame.
  2: { apply write_ends; [done| |done]. destruct must; [done|]. intros _. by apply Hrev. }
  apply andb_true_iff in Hsame as [_ Hsame%String.eqb_eq]. unfold write_or_skip. change (0 =? 0) with true. rewrite andb_true_r. destruct must.
  - destruct (getCurrentState w key ign) as [r w2] eqn:E. apply (read_ends fn) in E as (Hv2 & Hr2 & Hl2); [|done].
    destruct r as [st2|e2]; [|by intros [= <- <-]]. destruct (String.eqb_spec data (st_data st2)) as [Hd|]; cbn [negb]; [|intros [= <- <-]; by split_and!].
    destruct (st_stale st2); cbn [negb].
    + intros Hw. apply (write_ends fn key ign w2 st2 data false) in Hw; [|done|done|done]. destruct t as [[|e]|st4]; [done|by apply refused_later with w2|].
      destruct Hw as (? & ? & ? & _). split_and!; try done. by eapply (reach_trans _ _ _ etcd).
    + intros [= <- <-]. specialize (Hdec (st_rev st2)). rewrite <- Hd. by destruct (decode _ _).
  - destruct (st_stale st); cbn [negb]; [apply write_ends; [done| |done]; intros _; by apply Hrev|]. intros [= <- <-].
    specialize (Hdec (st_rev st)). rewrite <- Hsame. by destruct (decode _ _).
Qed.

Lemma loop_ends fn key ign fuel : forall w st must, valid w -> (must = false -> current w key ign = Ok st) -> ((if must then 1 else 0) + budget w < fuel)%nat ->
  ∃ r w', update_loop fuel w key ign None (SimpleUpdate fn) st must = Some (r, w') ∧ forall e, r = Err e -> refused fn key ign w e.
Proof.
  induction fuel as [|fuel IH]; intros w st must Hv Hnow Hf; [lia|]. cbn [update_loop].
  destruct (update_turn w key ign None (SimpleUpdate fn) st must) as [t w1] eqn:E. apply turn_does_end in E; [|done..]. destruct t as [r|st1].
  - exists r, w1. split; [done|]. intros e ->. exact E.
  - destruct E as (Hv1 & Hr1 & Hc1 & Hb). pose proof (reach_budget w w1 Hr1) as Hle.
    destruct (IH w1 st1 false Hv1 (fun _ => Hc1)) as (r & w' & -> & He); [destruct must; [lia|]; specialize (Hb eq_refl); lia|].
    exists r, w'. split; [done|]. intros e Hr. apply refused_later with w1; [done|by apply He].
Qed.

(** C20.  An update without preconditions and without times to live ends when etcd answers,
    the codec and the transformer accept every object and all that is stored, and the other
    clients do not interfere for ever: as many turns as there are interferences left, and two more, are enough.  An error that it
    returns is then not due to an old cached object: at some moment since the call etcd held no
    object, or the update refused the object that etcd held. *)
Theorem guaranteed_update_returns w key ign fn suggestion : valid w -> (forall o, suggestion = Some o -> is_ok (getStateFromObject o) = true) ->
  ∃ r w', GuaranteedUpdate (budget w + 2) w key ign None (SimpleUpdate fn) suggestion = Some (r, w') ∧ forall e, r = Err e -> refused fn key ign w e.
Proof.
  intros Hv Hs. unfold GuaranteedUpdate. destruct suggestion as [o|].
  - specialize (Hs o eq_refl). destruct (getStateFromObject o) as [st|]; [|done]. apply loop_ends; [done|done|lia].
  - destruct (getCurrentState w key ign) as [r w1] eqn:E. apply (read_ends fn) in E as (Hv1 & Hr1 & Hl1); [|done]. pose proof (reach_budget w w1 Hr1).
    destruct r as [st|e]; [|eexists _, _; split; [done|]; by intros e' [= <-]].
    destruct (loop_ends fn key ign (budget w + 2) w1 st false Hv1 (fun _ => Hl1)) as (r & w' & -> & He); [lia|].
    exists r, w'. split; [done|]. intros e Hr. apply refused_later with w1; [done|by apply He].
Qed.
End Progress.
End Atomic.

(** A precondition is held against the cached object before etcd is asked, so that an object
    that satisfies it is refused when the cache is behind. *)
Theorem stale_cache_fails_precondition fuel w key ign pre tryUpdate o st e : getStateFromObject o = Ok st -> Check pre key (st_obj st) = Some e ->
  GuaranteedUpdate (S fuel) w key ign pre tryUpdate (Some o) = Some (Err e, w).
Proof. intros Hs Hc. unfold GuaranteedUpdate. rewrite Hs. cbn [update_loop]. unfold update_turn. by rewrite Hc. Qed.
End Store.

(** ** A concrete etcd *)

(** Values with their revisions, the last revision, and what other clients write before each
    of the following requests is answered. *)
Record demo_world := mkWorld { dw_kvs : gmap string (string * Z); dw_revision : Z; dw_plan : list (list (string * option string)) }.

Definition demo_apply (w : demo_world) (change : string * option string) : demo_world :=
  let rev := dw_revision w + 1 in
  mkWorld (match change.2 with Some v => <[change.1 := (v, rev)]> (dw_kvs w) | None => delete change.1 (dw_kvs w) end) rev (dw_plan w).

Definition demo_others (w : demo_world) : demo_world :=
  match dw_plan w with [] => w | cs :: plan => foldl demo_apply (mkWorld (dw_kvs w) (dw_revision w) plan) cs end.

Definition demo_look (w : demo_world) (key : string) : KeyValue := dw_kvs w !! key.
Definition demo_Get (w : demo_world) (key : string) : result KeyValue * demo_world := let w := demo_others w in (Ok (demo_look w key), w).
Definition demo_Put (w : demo_world) (key : string) (rev : Z) (value : string) (opts : option unit) : result TxnResponse * demo_world :=
  let w := demo_others w in
  if revision_of (demo_look w key) =? rev then (Ok (Succeeded (dw_revision w + 1)), demo_apply w (key, Some value)) else (Ok (Conflict (demo_look w key)), w).
Definition demo_Delete (w : demo_world) (key : string) (rev : Z) : result TxnResponse * demo_world :=
  let w := demo_others w in
  if revision_of (demo_look w key) =? rev then (Ok (Succeeded (dw_revision w + 1)), demo_apply w (key, None)) else (Ok (Conflict (demo_look w key)), w).
Definition demo_Lease (w : demo_world) (ttl : Z) : result unit * demo_world := (Ok tt, w).

Definition demo_valid (w : demo_world) : Prop := map_Forall (fun _ (v : string * Z) => 0 < v.2 <= dw_revision w) (dw_kvs w) ∧ 0 <= dw_revision w.
Definition demo_reach (w w' : demo_world) : Prop := dw_revision w <= dw_revision w' ∧ (length (dw_plan w') <= length (dw_plan w))%nat ∧
  forall key v r, demo_look w' key = Some (v, r) -> demo_look w key = Some (v, r) ∨ dw_revision w < r.

Lemma demo_reach_refl w : demo_reach w w.
Proof. split_and!; [lia|lia|by left]. Qed.

Lemma demo_reach_trans w1 w2 w3 : demo_reach w1 w2 -> demo_reach w2 w3 -> demo_reach w1 w3.
Proof.
  intros (H1 & H2 & H3) (H1' & H2' & H3'). split_and!; [lia|lia|]. intros key v r H. apply H3' in H as [H|H]; [by apply H3|right; lia].
Qed.

Lemma demo_apply_ok w c : demo_valid w -> demo_valid (demo_apply w c) ∧ demo_reach w (demo_apply w c).
Proof.
  intros [Hv Hr]. unfold demo_valid, demo_reach, demo_look, demo_apply. cbn [dw_kvs dw_revision dw_plan]. destruct c as [k [v|]]; cbn [fst snd].
  - split_and!; [|lia|lia|done|].
    + apply map_Forall_lookup. intros k' [v' r'] H. destruct (decide (k' = k)) as [->|]; [rewrite lookup_insert_eq in H; injection H as <- <-; cbn; lia|].
      rewrite lookup_insert_ne in H by done. specialize (Hv k' _ H). cbn in *. lia.
    + intros k' v' r' H. destruct (decide (k' = k)) as [->|]; [rewrite lookup_insert_eq in H; injection H as <- <-; right; lia|].
      rewrite lookup_insert_ne in H by done. by left.
  - split_and!; [|lia|lia|done|].
    + apply map_Forall_lookup. intros k' [v' r'] H. apply lookup_delete_Some in H as [_ H]. specialize (Hv k' _ H). cbn in *. lia.
    + intros k' v' r' H. apply lookup_delete_Some in H as [_ H]. by left.
Qed.

Lemma demo_others_ok w : demo_valid w -> demo_valid (demo_others w) ∧ demo_reach w (demo_others w) ∧ (dw_plan w = [] -> demo_others w = w) ∧
  (dw_plan w <> [] -> (length (dw_plan (demo_others w)) < length (dw_plan w))%nat).
Proof.
  intros Hv. unfold demo_others. destruct (dw_plan w) as [|cs plan] eqn:Hp.
  { split_and!; [done|apply demo_reach_refl|done|done]. }
  assert (forall cs w0, demo_valid w0 -> demo_valid (foldl demo_apply w0 cs) ∧ demo_reach w0 (foldl demo_apply w0 cs)) as Hfold.
  { clear. induction cs as [|c cs IH]; intros w0 Hv0; [split; [done|apply demo_reach_refl]|]. cbn [foldl].
    destruct (demo_apply_ok w0 c Hv0) as [Hv1 Hr1]. destruct (IH _ Hv1) as [Hv2 Hr2]. split; [done|by eapply demo_reach_trans]. }
  destruct (Hfold cs (mkWorld (dw_kvs w) (dw_revision w) plan) Hv) as [Hv' (H1 & H2 & H3)]. cbn [dw_kvs dw_revision dw_plan] in *.
  split_and!; [done| |done|]; [split_and!; [done|rewrite Hp; cbn; lia|done]|]. intros _. cbn. lia.
Qed.

Lemma demo_laws : laws demo_Get demo_Put demo_Delete demo_Lease demo_valid demo_look demo_reach.
Proof.
  split.
  - intros w _. apply demo_reach_refl.
  - apply demo_reach_trans.
  - intros w key r w' Hv [= <- <-]. destruct (demo_others_ok w Hv) as (H1 & H2 & _). split_and!; try done. by intros kv [= <-].
  - intros w ttl r w' Hv [= <- <-]. split; [done|apply demo_reach_refl].
  - intros w key rev value opts revision w' Hv. unfold demo_Put. destruct (demo_others_ok w Hv) as (H1 & H2 & _).
    destruct (Z.eqb_spec (revision_of (demo_look (demo_others w) key)) rev) as [He|]; [|done]. intros [= <- <-]. exists (demo_others w).
    unfold demo_look, demo_apply in *. cbn. split_and!; try done; [by rewrite lookup_insert_eq|]. intros k' Hk. by rewrite lookup_insert_ne.
  - intros w key rev value opts cur w' Hv. unfold demo_Put. destruct (demo_others_ok w Hv) as (H1 & H2 & _).
    destruct (Z.eqb_spec (revision_of (demo_look (demo_others w) key)) rev) as [He|]; [done|]. by intros [= <- <-].
  - intros w key rev revision w' Hv. unfold demo_Delete. destruct (demo_others_ok w Hv) as (H1 & H2 & _).
    destruct (Z.eqb_spec (revision_of (demo_look (demo_others w) key)) rev) as [He|]; [|done]. intros [= <- <-]. exists (demo_others w).
    unfold demo_look, demo_apply in *. cbn. split_and!; try done; [by rewrite lookup_delete_eq|]. intros k' Hk. by rewrite lookup_delete_ne.
  - intros w key rev cur w' Hv. unfold demo_Delete. destruct (demo_others_ok w Hv) as (H1 & H2 & _).
    destruct (Z.eqb_spec (revision_of (demo_look (demo_others w) key)) rev) as [He|]; [done|]. by intros [= <- <-].
  - intros w key value rev [Hv _] H. by specialize (Hv key _ H) as [? _].
  - intros w w' key value value' rev [Hv _] _ (_ & _ & Hr) Hl Hl'. specialize (Hv key _ Hl). cbn in Hv. apply Hr in Hl' as [Hl'|?]; [|lia]. congruence.
Qed.

(** An object is a text with a version. *)
Definition demo_object : Type := string * Z.
Definition demo_Encode (o : demo_object) : result string := Ok o.1.
Definition demo_Decode (s : string) : result demo_object := Ok (s, 0).
Definition demo_Version (o : demo_object) : result Z := Ok o.2.
Definition demo_Prepare (o : demo_object) : result demo_object := Ok (o.1, 0).
Definition demo_SetVersion (o : demo_object) (rev : Z) : demo_object := (o.1, rev).
Definition demo_From (key value : string) : result (string * bool) := Ok (value, false).
Definition demo_To (key data : string) : result string := Ok data.
Definition demo_append (o : demo_object) : result demo_object := if String.eqb o.1 "closed" then Err "closed"%string else Ok (o.1 +:+ "!", o.2).

Definition demo_update fuel w suggestion :=
  GuaranteedUpdate demo_Encode demo_Decode ("", 0)%string demo_Version demo_Prepare demo_SetVersion (fun _ => ""%string) (fun _ => ""%string) demo_From demo_To
    demo_Get demo_Put demo_Lease fuel w "k" false None (SimpleUpdate demo_append) suggestion.

(** The cached object is old, and another client writes before the first transaction. *)
Definition demo_start : demo_world := mkWorld {["k" := ("b", 2)]}%string 2 [[("k", Some "c")]]%string.

Lemma demo_start_valid : demo_valid demo_start.
Proof. split; [|by vm_compute]. apply map_Forall_singleton. by vm_compute. Qed.

Lemma demo_held : was_held (W := demo_world) demo_Decode ("", 0)%string demo_SetVersion demo_From demo_valid demo_look demo_reach demo_start "k" ("b", 2)%string.
Proof.
  exists demo_start, (mkState ("b", 2)%string 2 "b" false), false. split_and!; [exact demo_start_valid|apply demo_reach_refl|by eexists|done|done].
Qed.

Lemma demo_suggestion o : Some ("b", 2)%string = Some o ->
  was_held (W := demo_world) demo_Decode ("", 0)%string demo_SetVersion demo_From demo_valid demo_look demo_reach demo_start "k" o.
Proof. intros [= <-]. exact demo_held. Qed.

Lemma demo_restored o o' rev : demo_Version o = Ok rev -> demo_Prepare o = Ok o' -> demo_SetVersion o' rev = o.
Proof. destruct o as [v r]. by intros [= <-] [= <-]. Qed.

Lemma demo_update_result : demo_update 3 demo_start (Some ("b", 2)%string) = Some (Ok ("c!", 4)%string, mkWorld {["k" := ("c!", 4)]}%string 4 []).
Proof. vm_compute. reflexivity. Qed.

Lemma guaranteed_update_is_atomic_witness : ∃ w0 data, demo_valid w0 ∧ demo_reach demo_start w0 ∧
  justified demo_Encode demo_Decode ("", 0)%string demo_Prepare demo_SetVersion (fun _ => ""%string) (fun _ => ""%string) demo_From demo_look None (SimpleUpdate demo_append) "k" false w0 data.
Proof.
  destruct (guaranteed_update_is_atomic demo_Encode demo_Decode ("", 0)%string demo_Version demo_Prepare demo_SetVersion (fun _ => ""%string) (fun _ => ""%string) demo_From demo_To
    demo_Get demo_Put demo_Delete demo_Lease demo_valid demo_look demo_reach demo_laws (fun o rev => eq_refl) (fun _ _ o o' rev _ => demo_restored o o' rev) 3 demo_start "k" false None (SimpleUpdate demo_append)
    (Some ("b", 2)%string) _ _ demo_start_valid demo_suggestion demo_update_result) as (w0 & data & Hv & Hr & Hj & _).
  exists w0, data. split; [exact Hv|]. split; [exact Hr|exact Hj].
Defined.

Lemma demo_conflict w key rev value opts cur w' : demo_valid w -> revision_of (demo_look w key) = rev -> demo_Put w key rev value opts = (Ok (Conflict cur), w') ->
  (length (dw_plan w') < length (dw_plan w))%nat.
Proof.
  intros Hv Hrev. unfold demo_Put. destruct (demo_others_ok w Hv) as (_ & _ & H1 & H2). destruct (Z.eqb_spec (revision_of (demo_look (demo_others w) key)) rev) as [|Hne]; [done|].
  intros [= _ <-]. apply H2. intros Hnil. by rewrite (H1 Hnil) in Hne.
Qed.

Lemma guaranteed_update_returns_witness : ∃ r w', demo_update 3 demo_start (Some ("b", 2)%string) = Some (r, w') ∧ forall e, r = Err e -> False.
Proof.
  destruct (guaranteed_update_returns demo_Encode demo_Decode ("", 0)%string demo_Version demo_Prepare demo_SetVersion (fun _ => ""%string) (fun _ => ""%string) demo_From demo_To
    demo_Get demo_Put demo_Delete demo_Lease demo_valid demo_look demo_reach demo_laws) with (budget := fun w => length (dw_plan w)) (w := demo_start) (key := "k"%string) (ign := false)
    (fn := demo_append) (suggestion := Some ("b", 2)%string) as (r & w' & E & _).
  - intros w key. by eexists _, _.
  - intros w key rev value opts. unfold demo_Put. destruct (_ =? _); by eexists _, _.
  - intros w key ign value rev _ _. by eexists.
  - intros o. by eexists _, _.
  - intros key data. by eexists.
  - by intros w w' (_ & H & _).
  - exact demo_conflict.
  - exact demo_start_valid.
  - by intros o [= <-].
  - exists r, w'. split; [exact E|]. change (demo_update 3 demo_start (Some ("b", 2)%string) = Some (r, w')) in E. rewrite demo_update_result in E. injection E as <- _. done.
Defined.
End Etcd.
