(* ===== verification/Revision.v ===== *)
(** * Revisions of several storages

    Models [apimachinery/pkg/util/diff/compare.go], by which the watch cache and the watchers
    tell which of two revisions is newer: plain numbers of one etcd, or numbers that are made
    of a time, the id of a storage cluster and a sequence number.  On the revisions of one
    source this is the order of the numbers; between clusters it is not an order. *)
From S2P Require Import Prelude Types Strconv.

Local Open Scope Z_scope.

Definition allowedNTPDiffInMilliSecond : Z := 5000.

(** A revision of a time in nanoseconds, a cluster and a sequence number
    (util/diff/compare.go:128-137). *)
Definition getRevisionNumber (testTimeInNano clusterId seq : Z) : Z :=
  let revision := wrap64 (Z.quot testTimeInNano 1000000) in
  let revision := wrap64 (wrap64 (Z.shiftl revision 6) + clusterId) in
  let revision := wrap64 (wrap64 (Z.shiftl revision 13) + seq) in
  revision `mod` 2 ^ 64.

(** Midnight of 2020-05-10 (util/diff/compare.go:28-28). *)
Definition v2MinRevision : Z := getRevisionNumber 1589068800000000000 0 1.

(** (util/diff/compare.go:109-111) *)
Definition extractClusterId (rev : Z) : Z := Z.shiftr rev 13 `mod` 64.

(** (util/diff/compare.go:124-126) *)
Definition extractMilliSecond (rev : Z) : Z := Z.shiftr rev 19.

(** (util/diff/compare.go:66-102) *)
Definition revisionCompare (revision1 revision2 : Z) : Z * bool :=
  let isSameCluster := extractClusterId revision1 =? extractClusterId revision2 in
  if isSameCluster then (if revision1 <? revision2 then -1 else if revision1 =? revision2 then 0 else 1, true)
  else
    let ms1 := extractMilliSecond revision1 in let ms2 := extractMilliSecond revision2 in
    if ms1 =? ms2 then (0, false)
    else
      let '(result, absDiff) := if ms1 <? ms2 then (-1, ms2 - ms1) else (1, ms1 - ms2) in
      (if absDiff <? allowedNTPDiffInMilliSecond then 0 else result, false).

(** (util/diff/compare.go:45-56) *)
Definition RevisionIsNewer (revision1 revision2 : Z) : bool :=
  if (revision1 <? v2MinRevision) || (revision2 <? v2MinRevision) then revision2 <? revision1
  else
    let '(result, isSameCluster) := revisionCompare revision1 revision2 in
    if (isSameCluster : bool) then 0 <? result else 0 <=? result.

(** [strconv.ParseUint] in base ten. *)
Definition ParseUint (s : string) : result Z :=
  match s with
  | EmptyString => Err "invalid syntax"
  | _ => match digits_from 0 s with None => Err "invalid syntax" | Some n => if n <? 2 ^ 64 then Ok n else Err "value out of range" end
  end.

(** (util/diff/compare.go:30-41) *)
Definition RevisionStrIsNewer (rev1 rev2 : string) : result bool :=
  match ParseUint rev1 with
  | Err e => Err e
  | Ok revision1 => match ParseUint rev2 with Err e => Err e | Ok revision2 => Ok (RevisionIsNewer revision1 revision2) end
  end.

(** (util/diff/compare.go:113-122) *)
Definition GetClusterIdFromString (stringValue : string) : result Z :=
  match ParseInt stringValue with
  | Some clusterId =>
      if negb ((-128 <=? clusterId) && (clusterId <=? 127)) then Err "value out of range"
      else if (clusterId <? 0) || (63 <? clusterId) then Err "Cluster id needs to be 0 - 63." else Ok clusterId
  | None => Err "invalid syntax"
  end.

(** ** The parts of a revision *)

Lemma shifts ms c seq : 0 <= c < 64 -> 0 <= seq < 8192 -> let rev := (ms * 64 + c) * 8192 + seq in extractClusterId rev = c ∧ extractMilliSecond rev = ms.
Proof.
  intros Hc Hs rev. unfold extractClusterId, extractMilliSecond. rewrite !Z.shiftr_div_pow2 by lia. subst rev. change (2 ^ 13) with 8192. change (2 ^ 19) with (8192 * 64).
  rewrite <- Z.div_div by lia. rewrite Z.div_add_l, (Z.div_small seq), Z.add_0_r by lia. split.
  - by rewrite Z.add_comm, Z.mod_add, Z.mod_small by lia.
  - rewrite Z.div_add_l, Z.div_small by lia. lia.
Qed.

(** The number of a time before the year 2527 is exact and holds its parts. *)
Lemma revision_parts nano c seq : 0 <= nano < 2 ^ 44 * 1000000 -> 0 <= c < 64 -> 0 <= seq < 8192 ->
  let rev := getRevisionNumber nano c seq in
  rev = (nano / 1000000 * 64 + c) * 8192 + seq ∧ extractClusterId rev = c ∧ extractMilliSecond rev = nano / 1000000.
Proof.
  intros Hn Hc Hs. assert (0 <= nano / 1000000 < 2 ^ 44) as Hms by (split; [apply Z.div_pos; lia|apply Z.div_lt_upper_bound; lia]).
  assert (getRevisionNumber nano c seq = (nano / 1000000 * 64 + c) * 8192 + seq) as E.
  { unfold getRevisionNumber. rewrite Z.quot_div_nonneg by lia. set (ms := nano / 1000000) in *. rewrite (wrap64_id ms) by (unfold int64_range, MinInt64, MaxInt64; lia).
    rewrite !Z.shiftl_mul_pow2 by lia. change (2 ^ 6) with 64. change (2 ^ 13) with 8192. rewrite (wrap64_id (ms * 64)), (wrap64_id (ms * 64 + c)) by (unfold int64_range, MinInt64, MaxInt64; lia).
    rewrite (wrap64_id ((ms * 64 + c) * 8192)), (wrap64_id ((ms * 64 + c) * 8192 + seq)) by (unfold int64_range, MinInt64, MaxInt64; lia). apply Z.mod_small. lia. }
  cbn zeta. rewrite E. split; [done|]. by apply shifts.
Qed.

(** ** One source *)

(** The revisions come from one etcd with plain numbers, or from one cluster. *)
Definition one_source (P : Z -> Prop) : Prop :=
  (forall r, P r -> r < v2MinRevision) ∨ ∃ c, forall r, P r -> v2MinRevision <= r ∧ extractClusterId r = c.

Lemma newer_of_one_source P a b : one_source P -> P a -> P b -> RevisionIsNewer a b = (b <? a).
Proof.
  intros [Hplain|[c Hc]] Ha Hb; unfold RevisionIsNewer.
  - specialize (Hplain a Ha). by destruct (Z.ltb_spec a v2MinRevision); [|lia].
  - apply Hc in Ha as [Ha Hca], Hb as [Hb Hcb]. destruct (Z.ltb_spec a v2MinRevision), (Z.ltb_spec b v2MinRevision); [lia..|]. cbn [orb]. unfold revisionCompare.
    rewrite Hca, Hcb, Z.eqb_refl. destruct (Z.ltb_spec a b), (Z.eqb_spec a b), (Z.ltb_spec b a); done || lia.
Qed.

(** ** Several clusters *)

(** Revisions of two clusters less than five seconds apart are each newer than the other. *)
Theorem clusters_are_mutually_newer a b : v2MinRevision <= a -> v2MinRevision <= b -> extractClusterId a <> extractClusterId b ->
  Z.abs (extractMilliSecond a - extractMilliSecond b) < allowedNTPDiffInMilliSecond -> RevisionIsNewer a b = true ∧ RevisionIsNewer b a = true.
Proof.
  intros Ha Hb Hc Hms. assert (forall x y, v2MinRevision <= x -> v2MinRevision <= y -> extractClusterId x <> extractClusterId y ->
    Z.abs (extractMilliSecond x - extractMilliSecond y) < allowedNTPDiffInMilliSecond -> RevisionIsNewer x y = true) as H.
  { intros x y Hx Hy Hxy Hd. unfold RevisionIsNewer, revisionCompare. destruct (Z.ltb_spec x v2MinRevision), (Z.ltb_spec y v2MinRevision); [lia..|]. cbn [orb].
    destruct (Z.eqb_spec (extractClusterId x) (extractClusterId y)); [done|]. destruct (Z.eqb_spec (extractMilliSecond x) (extractMilliSecond y)); [done|].
    destruct (Z.ltb_spec (extractMilliSecond x) (extractMilliSecond y)).
    - destruct (Z.ltb_spec (extractMilliSecond y - extractMilliSecond x) allowedNTPDiffInMilliSecond); [done|lia].
    - destruct (Z.ltb_spec (extractMilliSecond x - extractMilliSecond y) allowedNTPDiffInMilliSecond); [done|lia]. }
  split; apply H; try done; lia.
Qed.
