(* ===== verification/WatchCache.v ===== *)
(** * The watch cache of the API server

    Models [apiserver/pkg/storage/cacher/watch_cache.go]: the latest objects of a resource
    with a sliding window of the latest changes, a cyclic buffer of revisions and a map from
    revisions to events.  The theorem shows that a client that asks for the changes since a
    revision gets exactly those, in order, or is told that the revision is too old; and that
    two changes of one revision break this. *)
From S2P Require Import Prelude Types IndexedStore Informer Revision.

Abbreviation attrs := (gmap string string).

Section Cache.
Context {obj : Type} (range : forall A : Type, gmap string A -> list (string * A)).
(** The key of an object in the storage, its labels and fields, and its version. *)
Context (keyFunc : obj -> result string) (getAttrs : obj -> result (attrs * attrs)) (ObjectResourceVersion : obj -> result Z).

Local Open Scope Z_scope.

(** (cacher/watch_cache.go:68-73) *)
Record storeElement := mkElem { el_Key : string; el_Object : obj; el_Labels : attrs; el_Fields : attrs }.

(** [ce_Prev] is the previous object, its labels and its fields, if there is one
    (cacher/watch_cache.go:51-61). *)
Record watchCacheEvent := mkCacheEvent {
  ce_Type : EventType; ce_Object : obj; ce_Labels : attrs; ce_Fields : attrs; ce_Prev : option (obj * attrs * attrs); ce_Key : string; ce_Version : Z }.

(** (cacher/watch_cache.go:88-141) *)
Record watchCache := mkWatchCache {
  wc_capacity : nat; wc_cache : gmap Z watchCacheEvent; revCache : list Z; startIndex : nat; endIndex : nat;
  wc_store : threadSafeMap storeElement; wc_resourceVersion : Z; listResourceVersion : Z }.

(** (cacher/watch_cache.go:143-166) *)
Definition newWatchCache (capacity : nat) : watchCache := mkWatchCache capacity ∅ (replicate capacity 0) 0 0 (NewThreadSafeStore ∅ ∅) 0 0.

Definition set_window (w : watchCache) (c : gmap Z watchCacheEvent) (rc : list Z) (s e : nat) : watchCache :=
  mkWatchCache (wc_capacity w) c rc s e (wc_store w) (wc_resourceVersion w) (listResourceVersion w).
Definition set_store (w : watchCache) (st : threadSafeMap storeElement) (rv lrv : Z) : watchCache :=
  mkWatchCache (wc_capacity w) (wc_cache w) (revCache w) (startIndex w) (endIndex w) st rv lrv.

(** A position of the cyclic buffer; a buffer without room has none. *)
Definition position (w : watchCache) (i : nat) : option nat := if Nat.eqb (wc_capacity w) 0 then None else Some (i mod wc_capacity w)%nat.

(** (cacher/watch_cache.go:276-286) *)
Definition updateCache (w : watchCache) (event : watchCacheEvent) : option watchCache :=
  w ← (if Nat.eqb (endIndex w) (startIndex w + wc_capacity w) then
         i ← position w (startIndex w); revToRemove ← revCache w !! i;
         Some (set_window w (delete revToRemove (wc_cache w)) (revCache w) (S (startIndex w)) (endIndex w))
       else Some w);
  i ← position w (endIndex w);
  Some (set_window w (<[ce_Version event := event]> (wc_cache w)) (<[i := ce_Version event]> (revCache w)) (startIndex w) (S (endIndex w))).

(** The change that the reflector has been told of. *)
Definition updateFunc (t : EventType) (st : threadSafeMap storeElement) (elem : storeElement) : option (threadSafeMap storeElement) :=
  match t with
  | WatchDeleted => ts_Delete range st (el_Key elem)
  | WatchAdded => ts_Add range st (el_Key elem) elem
  | _ => ts_Update range st (el_Key elem) elem
  end.

(** The cache after the event, and the event that its handler gets
    (cacher/watch_cache.go:218-273 processEvent). *)
Definition wc_processEvent (w : watchCache) (t : EventType) (object : obj) (resourceVersion : Z) : option (result (watchCache * watchCacheEvent)) :=
  match keyFunc object with
  | Err e => Some (Err ("couldn't compute key: " +:+ e))
  | Ok key =>
      match getAttrs object with
      | Err e => Some (Err e)
      | Ok (ls, fs) =>
          let elem := mkElem key object ls fs in
          let prev := (fun p => (el_Object p, el_Labels p, el_Fields p)) <$> ts_Get (wc_store w) key in
          let event := mkCacheEvent t object ls fs prev key resourceVersion in
          w ← updateCache w event;
          st ← updateFunc t (wc_store w) elem;
          Some (Ok (set_store w st resourceVersion (listResourceVersion w), event))
      end
  end.

(** The three methods differ in the type only (cacher/watch_cache.go:169-214 Add). *)
Definition wc_change (w : watchCache) (t : EventType) (object : obj) : option (result (watchCache * watchCacheEvent)) :=
  match ObjectResourceVersion object with Err e => Some (Err e) | Ok resourceVersion => wc_processEvent w t object resourceVersion end.

(** (cacher/watch_cache.go:379-399 Replace) *)
Fixpoint store_elements (objs : list obj) : result (list storeElement) :=
  match objs with
  | [] => Ok []
  | o :: objs =>
      match keyFunc o with
      | Err e => Err ("couldn't compute key: " +:+ e)
      | Ok key =>
          match getAttrs o with
          | Err e => Err e
          | Ok (ls, fs) => match store_elements objs with Err e => Err e | Ok l => Ok (mkElem key o ls fs :: l) end
          end
      end
  end.

(** The events of before stay in the map (cacher/watch_cache.go:373-417 Replace). *)
Definition wc_Replace (w : watchCache) (objs : list obj) (version : Z) : option (result watchCache) :=
  match store_elements objs with
  | Err e => Some (Err e)
  | Ok toReplace =>
      st ← ts_Replace range (wc_store w) (foldl (fun m elem => <[el_Key elem := elem]> m) ∅ toReplace);
      Some (Ok (mkWatchCache (wc_capacity w) (wc_cache w) (revCache w) 0 0 st version version))
  end.

(** A list that asks for a version waits until the cache has it: [None] is that it waits on.
    (cacher/watch_cache.go:328-335) *)
Definition WaitUntilFreshAndList (timed_out : bool) (w : watchCache) (resourceVersion : Z) : option (result (list storeElement * Z)) :=
  if wc_resourceVersion w <? resourceVersion then if timed_out then Some (Err "Too large resource version") else None
  else Some (Ok (ts_List range (wc_store w), wc_resourceVersion w)).

(** (cacher/watch_cache.go:338-346) *)
Definition WaitUntilFreshAndGet (timed_out : bool) (w : watchCache) (resourceVersion : Z) (key : string) : option (result (option storeElement * Z)) :=
  if wc_resourceVersion w <? resourceVersion then if timed_out then Some (Err "Too large resource version") else None
  else Some (Ok (ts_Get (wc_store w) key, wc_resourceVersion w)).

(** The revision at a place of the window. *)
Definition revision_at (w : watchCache) (i : nat) : Z := default 0 (j ← position w (startIndex w + i); revCache w !! j).

(** The oldest revision that can be delivered (cacher/watch_cache.go:426-445
    GetAllEventsSinceThreadUnsafe). *)
Definition oldest (w : watchCache) : option Z :=
  let size := (endIndex w - startIndex w)%nat in
  if Nat.leb (wc_capacity w) size then Some (revision_at w 0)
  else if 0 <? listResourceVersion w then Some (listResourceVersion w + 1)
  else if Nat.ltb 0 size then Some (revision_at w 0)
  else None.

(** The present objects as additions (cacher/watch_cache.go:448-475
    GetAllEventsSinceThreadUnsafe). *)
Fixpoint initial_events (rv : Z) (items : list storeElement) : result (list watchCacheEvent) :=
  match items with
  | [] => Ok []
  | elem :: items =>
      match getAttrs (el_Object elem) with
      | Err e => Err e
      | Ok (ls, fs) =>
          match initial_events rv items with
          | Err e => Err e
          | Ok l => Ok (mkCacheEvent WatchAdded (el_Object elem) ls fs None (el_Key elem) rv :: l)
          end
      end
  end.

(** An event that is missing in the map is a nil in the result
    (cacher/watch_cache.go:425-496). *)
Definition GetAllEventsSinceThreadUnsafe (w : watchCache) (resourceVersion : Z) : result (list (option watchCacheEvent)) :=
  let size := (endIndex w - startIndex w)%nat in
  match oldest w with
  | None => Err "watch cache isn't correctly initialized"
  | Some oldest =>
      if resourceVersion =? 0 then
        match initial_events (wc_resourceVersion w) (ts_List range (wc_store w)) with Err e => Err e | Ok l => Ok (Some <$> l) end
      else if resourceVersion <? (oldest - 1) `mod` 2 ^ 64 then Err "too old resource version"
      else
        let first := sort_Search size (fun i => RevisionIsNewer (revision_at w i) resourceVersion) in
        Ok ((fun i => wc_cache w !! revision_at w (first + i)) <$> seq 0 (size - first))
  end.

(** ** The window *)

Local Open Scope nat_scope.

(** The buffer holds these events, from the oldest on. *)
Record window_ok (w : watchCache) (l : list watchCacheEvent) : Prop := {
  wo_room : 0 < wc_capacity w;
  wo_buffer : length (revCache w) = wc_capacity w;
  wo_size : endIndex w = startIndex w + length l;
  wo_fits : length l <= wc_capacity w;
  wo_events : forall i e, l !! i = Some e -> revision_at w i = ce_Version e ∧ wc_cache w !! ce_Version e = Some e }.

(** The last events, as many as there is room for. *)
Definition last_events (capacity : nat) (hist : list watchCacheEvent) : list watchCacheEvent := drop (length hist - capacity) hist.

Lemma cyclic_places_differ a b c : a < b < a + c -> a mod c <> b mod c.
Proof. intros H E. pose proof (Nat.div_mod_eq a c). pose proof (Nat.div_mod_eq b c). assert (a / c < b / c ∨ b / c <= a / c) as [|] by lia; nia. Qed.

Lemma evict_ok w e0 l : window_ok w (e0 :: l) -> NoDup (ce_Version <$> e0 :: l) ->
  window_ok (set_window w (delete (ce_Version e0) (wc_cache w)) (revCache w) (S (startIndex w)) (endIndex w)) l.
Proof.
  intros [Hroom Hbuf Hsize Hfits Hev] Hnd. cbn [length] in *. split; cbn; [done|done|lia|lia|]. intros i e Hi. destruct (Hev (S i) e Hi) as [Hr Hc]. split.
  - rewrite <- Hr. unfold revision_at, position. cbn. by rewrite Nat.add_succ_r.
  - rewrite lookup_delete_ne; [done|]. intros E. cbn in Hnd. apply NoDup_cons in Hnd as [Hno _]. apply Hno. rewrite E. by apply list_elem_of_fmap_2, list_elem_of_lookup_2 with i.
Qed.

Lemma push_ok w l e : window_ok w l -> length l < wc_capacity w -> ce_Version e ∉ ce_Version <$> l -> ∃ i, position w (endIndex w) = Some i ∧
  window_ok (set_window w (<[ce_Version e := e]> (wc_cache w)) (<[i := ce_Version e]> (revCache w)) (startIndex w) (S (endIndex w))) (l ++ [e]).
Proof.
  intros [Hroom Hbuf Hsize Hfits Hev] Hlt Hno. assert (forall j, position w j = Some (j mod wc_capacity w)) as Hpos.
  { intros j. unfold position. destruct (Nat.eqb_spec (wc_capacity w) 0); [lia|done]. }
  exists (endIndex w mod wc_capacity w). split; [apply Hpos|]. split; cbn; [done|by rewrite length_insert|rewrite length_app; cbn; lia|rewrite length_app; cbn; lia|].
  assert (endIndex w mod wc_capacity w < length (revCache w)) as Hin by (rewrite Hbuf; apply Nat.mod_upper_bound; lia).
  intros i e' Hi. apply lookup_app_Some in Hi as [Hi|[Hge Hi]].
  - destruct (Hev i e' Hi) as [Hr Hc]. pose proof (lookup_lt_Some _ _ _ Hi). split.
    + rewrite <- Hr. unfold revision_at. change (position (set_window _ _ _ _ _) ?x) with (position w x). cbn. rewrite Hpos. cbn. rewrite list_lookup_insert_ne; [done|].
      rewrite Hsize. intros E. symmetry in E. revert E. apply cyclic_places_differ. lia.
    + rewrite lookup_insert_ne; [done|]. intros E. apply Hno. rewrite E. by apply list_elem_of_fmap_2, list_elem_of_lookup_2 with i.
  - apply list_lookup_singleton_Some in Hi as [Hi <-]. assert (i = length l) as -> by lia. split; [|by rewrite lookup_insert_eq].
    unfold revision_at. change (position (set_window _ _ _ _ _) ?x) with (position w x). cbn. rewrite Hpos, <- Hsize. cbn. by rewrite list_lookup_insert_eq.
Qed.

Lemma updateCache_ok w hist e : window_ok w (last_events (wc_capacity w) hist) -> NoDup (ce_Version <$> hist ++ [e]) ->
  ∃ w', updateCache w e = Some w' ∧ window_ok w' (last_events (wc_capacity w) (hist ++ [e])) ∧
    wc_capacity w' = wc_capacity w ∧ wc_store w' = wc_store w ∧ wc_resourceVersion w' = wc_resourceVersion w ∧ listResourceVersion w' = listResourceVersion w.
Proof.
  intros Hok Hnd. assert (forall n, NoDup (ce_Version <$> drop n hist) ∧ ce_Version e ∉ ce_Version <$> drop n hist) as Hfresh.
  { intros n. rewrite fmap_app in Hnd. apply NoDup_app in Hnd as (H1 & H2 & _). rewrite <- (take_drop n hist), fmap_app in H1. apply NoDup_app in H1 as (_ & _ & H1).
    split; [done|]. intros Hin. apply (H2 (ce_Version e)); [|by left]. rewrite <- (take_drop n hist), fmap_app. apply elem_of_app. by right. }
  unfold updateCache. pose proof (wo_size _ _ Hok) as Hsize. pose proof (wo_room _ _ Hok) as Hroom. unfold last_events in *. rewrite length_drop in Hsize.
  destruct (Nat.eqb_spec (endIndex w) (startIndex w + wc_capacity w)) as [Hfull|Hnot].
  - destruct (drop (length hist - wc_capacity w) hist) as [|e0 l] eqn:Hl.
    { apply (f_equal length) in Hl. rewrite length_drop in Hl. cbn in Hl. lia. }
    destruct (wo_events _ _ Hok 0 e0 eq_refl) as [Hr _]. unfold revision_at in Hr. rewrite Nat.add_0_r in Hr.
    unfold position in *. destruct (Nat.eqb_spec (wc_capacity w) 0); [lia|]. bind_simpl in *. pose proof (Nat.mod_upper_bound (startIndex w) (wc_capacity w) ltac:(lia)) as Hlt.
    rewrite <- (wo_buffer _ _ Hok) in Hlt at 2. apply lookup_lt_is_Some in Hlt as [v Hv]. rewrite Hv in Hr |- *. cbn in Hr. subst v. bind_simpl.
    assert (drop (S (length hist - wc_capacity w)) hist = l) as Hl'.
    { change (S (length hist - wc_capacity w)) with (1 + (length hist - wc_capacity w)). rewrite Nat.add_comm, <- drop_drop, Hl. done. }
    pose proof (evict_ok w e0 l Hok) as Hev. rewrite <- Hl in Hev. specialize (Hev (proj1 (Hfresh _))). pose proof (wo_fits _ _ Hok) as Hfits. cbn [length] in Hfits.
    destruct (push_ok _ l e Hev) as (i & Hi & Hw); [cbn; lia|rewrite <- Hl'; apply Hfresh|]. cbn [wc_capacity set_window endIndex] in Hi |- *. unfold position in Hi. cbn [wc_capacity set_window] in Hi.
    destruct (Nat.eqb_spec (wc_capacity w) 0); [lia|]. bind_simpl. injection Hi as <-.
    eexists. split; [reflexivity|]. split; [|done]. rewrite length_app. cbn [length].
    replace (length hist + 1 - wc_capacity w) with (S (length hist - wc_capacity w)) by (apply (f_equal length) in Hl; rewrite length_drop in Hl; cbn in Hl; lia).
    rewrite drop_app_le, Hl'; [exact Hw|]. apply (f_equal length) in Hl. rewrite length_drop in Hl. cbn in Hl. lia.
  - bind_simpl. assert (length hist < wc_capacity w) as Hlen by lia. replace (length hist - wc_capacity w) with 0 in Hok by lia. rewrite drop_0 in Hok.
    destruct (push_ok w hist e Hok Hlen) as (i & Hi & Hw); [rewrite <- (drop_0 hist); apply Hfresh|]. rewrite Hi. bind_simpl. eexists. split; [reflexivity|]. split; [|done].
    rewrite length_app. cbn [length]. replace (length hist + 1 - wc_capacity w) with 0 by lia. by rewrite drop_0.
Qed.

(** ** The objects *)

Local Open Scope Z_scope.

Hypothesis Hrange : forall A (m : gmap string A), range A m ≡ₚ map_to_list m.

Lemma range_nothing A : range A ∅ = [].
Proof. apply Permutation_nil. by rewrite Hrange, map_to_list_empty. Qed.

Lemma no_indices (st : threadSafeMap storeElement) ix old elem key : indexers st = ∅ -> updateIndices range (indexers st) ix old elem key = Some ix.
Proof.
  intros Hi. unfold updateIndices, insert_into_indices, deleteFromIndices. rewrite Hi, range_nothing. by destruct old.
Qed.

(** A store without indexers changes as a map. *)
Lemma updateFunc_ok t (st : threadSafeMap storeElement) elem : indexers st = ∅ -> ∃ st', updateFunc t st elem = Some st' ∧ indexers st' = ∅ ∧
  store_items st' = match t with WatchDeleted => delete (el_Key elem) (store_items st) | _ => <[el_Key elem := elem]> (store_items st) end.
Proof.
  intros Hi. unfold updateFunc, ts_Add, ts_Update, ts_Delete, deleteFromIndices.
  destruct t; rewrite ?no_indices by done; bind_simpl; try (eexists; split; [reflexivity|]; split; done).
  destruct (store_items st !! el_Key elem) eqn:E; [|eexists; split; [reflexivity|]; split; [done|]; by rewrite delete_id].
  rewrite Hi, range_nothing. bind_simpl. by eexists.
Qed.

Lemma replace_ok (st : threadSafeMap storeElement) items : indexers st = ∅ -> ∃ st', ts_Replace range st items = Some st' ∧ indexers st' = ∅ ∧ store_items st' = items.
Proof.
  intros Hi. unfold ts_Replace. assert (forall l ix, foldl (fun acc (e : string * storeElement) => ix ← acc; updateIndices range (indexers st) ix None e.2 e.1) (Some ix) l = Some ix) as ->.
  { intros l. induction l as [|e l IH]; intros ix; [done|]. cbn [foldl]. bind_simpl. rewrite no_indices by done. apply IH. }
  bind_simpl. by eexists.
Qed.

(** ** A history of changes *)

Definition element_of (e : watchCacheEvent) : storeElement := mkElem (ce_Key e) (ce_Object e) (ce_Labels e) (ce_Fields e).

(** What an event does to the objects. *)
Definition apply_event (m : gmap string storeElement) (e : watchCacheEvent) : gmap string storeElement :=
  match ce_Type e with WatchDeleted => delete (ce_Key e) m | _ => <[ce_Key e := element_of e]> m end.

Definition is_change (t : EventType) : Prop := t = WatchAdded ∨ t = WatchModified ∨ t = WatchDeleted.

(** Each event has the object that it replaces. *)
Fixpoint coherent (m : gmap string storeElement) (hist : list watchCacheEvent) : Prop :=
  match hist with
  | [] => True
  | e :: hist => is_change (ce_Type e) ∧ ce_Prev e = ((fun p => (el_Object p, el_Labels p, el_Fields p)) <$> m !! ce_Key e) ∧ coherent (apply_event m e) hist
  end.

Definition well_keyed (m : gmap string storeElement) : Prop := forall k el, m !! k = Some el -> el_Key el = k.

(** The cache has listed some objects and then seen these events. *)
Record serves (w : watchCache) (base : gmap string storeElement) (hist : list watchCacheEvent) : Prop := {
  sv_window : window_ok w (last_events (wc_capacity w) hist);
  sv_store : store_items (wc_store w) = foldl apply_event base hist;
  sv_indexers : indexers (wc_store w) = ∅;
  sv_sorted : StronglySorted Z.lt (listResourceVersion w :: (ce_Version <$> hist));
  sv_listed : 0 < listResourceVersion w;
  sv_version : last (listResourceVersion w :: (ce_Version <$> hist)) = Some (wc_resourceVersion w);
  sv_bound : wc_resourceVersion w < 2 ^ 64;
  sv_coherent : coherent base hist;
  sv_keyed : well_keyed base }.

Lemma coherent_app m h e : coherent m h -> is_change (ce_Type e) -> ce_Prev e = ((fun p => (el_Object p, el_Labels p, el_Fields p)) <$> foldl apply_event m h !! ce_Key e) ->
  coherent m (h ++ [e]).
Proof. revert m. induction h as [|e' h IH]; intros m; cbn; [done|]. intros (? & ? & ?) ? ?. split_and!; [done|done|by apply IH]. Qed.

Lemma well_keyed_apply m e : well_keyed m -> well_keyed (apply_event m e).
Proof.
  intros Hm k el. unfold apply_event. destruct (ce_Type e); try (intros [[<- <-]|[? ?]]%lookup_insert_Some; [done|by apply Hm]). intros [_ H]%lookup_delete_Some. by apply Hm.
Qed.

Lemma well_keyed_history m h : well_keyed m -> well_keyed (foldl apply_event m h).
Proof. revert m. induction h as [|e h IH]; intros m Hm; [done|]. apply IH, well_keyed_apply, Hm. Qed.

Lemma sorted_snoc (l : list Z) x y : StronglySorted Z.lt l -> last l = Some x -> x < y -> StronglySorted Z.lt (l ++ [y]).
Proof.
  intros Hs. revert x. induction Hs as [|a l Hs IH Ha]; intros x Hl Hlt; [done|]. destruct l as [|b l].
  - injection Hl as ->. repeat constructor. done.
  - change (last (b :: l) = Some x) in Hl. constructor; [by apply (IH x)|]. apply (Forall_app _ (b :: l)). split; [done|]. constructor; [|done].
    apply last_Some_elem_of in Hl. rewrite Forall_forall in Ha. specialize (Ha x Hl). lia.
Qed.

Lemma sorted_nodup (l : list Z) : StronglySorted Z.lt l -> NoDup l.
Proof.
  induction 1 as [|a l Hs IH Ha]; constructor; [|done]. intros Hin. rewrite Forall_forall in Ha. specialize (Ha a Hin). lia.
Qed.

(** An event with a later revision. *)
Lemma processEvent_ok w base hist t o rv key ls fs : serves w base hist -> is_change t -> wc_resourceVersion w < rv < 2 ^ 64 -> keyFunc o = Ok key -> getAttrs o = Ok (ls, fs) ->
  let e := mkCacheEvent t o ls fs ((fun p => (el_Object p, el_Labels p, el_Fields p)) <$> foldl apply_event base hist !! key) key rv in
  ∃ w', wc_processEvent w t o rv = Some (Ok (w', e)) ∧ serves w' base (hist ++ [e]) ∧ wc_capacity w' = wc_capacity w ∧ listResourceVersion w' = listResourceVersion w ∧ wc_resourceVersion w' = rv.
Proof.
  intros [Hw Hst Hix Hs Hl Hv Hb Hc Hk] Ht [Hrv Hrv'] Hkey Hattrs e. unfold wc_processEvent. rewrite Hkey, Hattrs. unfold ts_Get. rewrite Hst. cbn zeta. fold e.
  assert (StronglySorted Z.lt (listResourceVersion w :: (ce_Version <$> hist ++ [e]))) as Hs'.
  { rewrite fmap_app. apply (sorted_snoc (listResourceVersion w :: (ce_Version <$> hist)) (wc_resourceVersion w) rv Hs Hv Hrv). }
  destruct (updateCache_ok w hist e Hw) as (w1 & -> & Hw1 & Hcap & Hst1 & _ & Hl1); [apply StronglySorted_inv in Hs' as [Hs' _]; by apply sorted_nodup|]. bind_simpl.
  destruct (updateFunc_ok t (wc_store w1) (mkElem key o ls fs)) as (st & -> & Hix' & Hitems); [by rewrite Hst1|]. bind_simpl.
  eexists. split; [reflexivity|]. split; [|done]. split; cbn; rewrite ?Hl1, ?Hcap; try done.
  - destruct Hw1 as [? ? ? ? He]. by split; cbn; rewrite ?Hcap in *.
  - rewrite Hitems, Hst1, Hst, foldl_app. cbn. unfold apply_event. by destruct t.
  - rewrite fmap_app. exact (last_snoc rv (listResourceVersion w :: (ce_Version <$> hist))).
  - by apply coherent_app.
Qed.

(** A list that was accepted. *)
Lemma Replace_ok w objs l version : (0 < wc_capacity w)%nat -> length (revCache w) = wc_capacity w -> indexers (wc_store w) = ∅ -> 0 < version < 2 ^ 64 -> store_elements objs = Ok l ->
  ∃ w', wc_Replace w objs version = Some (Ok w') ∧ serves w' (foldl (fun m elem => <[el_Key elem := elem]> m) ∅ l) [] ∧
    wc_capacity w' = wc_capacity w ∧ listResourceVersion w' = version ∧ wc_resourceVersion w' = version.
Proof.
  intros Hcap Hbuf Hix [Hv Hv'] Hl. unfold wc_Replace. rewrite Hl. destruct (replace_ok (wc_store w) (foldl (fun m elem => <[el_Key elem := elem]> m) ∅ l) Hix) as (st & -> & Hix' & Hitems).
  bind_simpl. eexists. split; [reflexivity|]. split; [|done]. split; cbn; try done.
  - split; cbn; rewrite ?drop_nil; [done|done|done|cbn; lia|by intros i e].
  - repeat constructor.
  - assert (forall m, well_keyed m -> well_keyed (foldl (fun m elem => <[el_Key elem := elem]> m) m l)) as H; [|apply H; intros k el He; by rewrite lookup_empty in He].
    clear. induction l as [|el l IH]; intros m Hm; [done|]. apply IH. intros k el' [[<- <-]|[_ H]]%lookup_insert_Some; [done|by apply Hm].
Qed.

(** ** Requests *)

Lemma newer_events l rv n : (n <= length l)%nat -> (forall i e, l !! i = Some e -> (i < n)%nat -> ce_Version e <= rv) -> (forall i e, l !! i = Some e -> (n <= i)%nat -> rv < ce_Version e) ->
  filter (fun e => rv < ce_Version e) l = drop n l.
Proof.
  revert n. induction l as [|e l IH]; intros n Hn Hlo Hhi; [by rewrite drop_nil|]. rewrite filter_cons. destruct n as [|n].
  - rewrite decide_True by (by apply (Hhi O e)). rewrite drop_0. f_equal. rewrite <- (drop_0 l) at 2. apply IH; [cbn; lia|intros; lia|]. intros i e' Hi _. by apply (Hhi (S i)); [|lia].
  - rewrite decide_False by (pose proof (Hlo O e eq_refl); lia). cbn. apply IH; [cbn in Hn; lia|intros i e' Hi ?; apply (Hlo (S i)); [done|lia]|intros i e' Hi ?; apply (Hhi (S i)); [done|lia]].
Qed.

(** The revision of which the changes can be asked for. *)
Definition horizon (w : watchCache) (hist : list watchCacheEvent) : Z :=
  match last_events (wc_capacity w) hist with e :: _ => if Nat.leb (wc_capacity w) (length hist) then ce_Version e - 1 else listResourceVersion w | [] => listResourceVersion w end.

Lemma none_newer l rv : (forall e, e ∈ l -> ce_Version e <= rv) -> filter (fun e => rv < ce_Version e) l = [].
Proof.
  induction l as [|e l IH]; intros Hl; [done|]. rewrite filter_cons, decide_False by (specialize (Hl e ltac:(left)); lia). apply IH. intros e' He. apply Hl. by right.
Qed.

Lemma sorted_last_max (l : list Z) x z : StronglySorted Z.lt l -> last l = Some x -> z ∈ l -> z <= x.
Proof.
  intros Hs. induction Hs as [|a l Hs IH Ha]; intros Hl Hz; [done|]. destruct l as [|b l]; [injection Hl as ->; apply list_elem_of_singleton in Hz; lia|].
  change (last (b :: l) = Some x) in Hl. apply elem_of_cons in Hz as [->|Hz]; [|by apply IH]. apply last_Some_elem_of in Hl. rewrite Forall_forall in Ha. specialize (Ha x Hl). lia.
Qed.

Section Request.
Context (w : watchCache) (base : gmap string storeElement) (hist : list watchCacheEvent).
Hypothesis Hserves : serves w base hist.

Let l := last_events (wc_capacity w) hist.

Lemma window_size : (endIndex w - startIndex w)%nat = length l.
Proof. rewrite (wo_size _ _ (sv_window _ _ _ Hserves)). unfold l. lia. Qed.

Lemma window_full : Nat.leb (wc_capacity w) (length l) = Nat.leb (wc_capacity w) (length hist).
Proof. unfold l, last_events. rewrite length_drop. destruct (Nat.leb_spec (wc_capacity w) (length hist)), (Nat.leb_spec (wc_capacity w) (length hist - (length hist - wc_capacity w))); done || lia. Qed.

Lemma versions_sorted i j e e' : hist !! i = Some e -> hist !! j = Some e' -> (i < j)%nat -> ce_Version e < ce_Version e'.
Proof.
  intros Hi Hj Hlt. destruct (StronglySorted_inv (sv_sorted _ _ _ Hserves)) as [Hs _]. clear -Hs Hi Hj Hlt. revert i j Hi Hj Hlt.
  induction hist as [|a h IH]; intros i j Hi Hj Hlt; [done|]. cbn in Hs. apply StronglySorted_inv in Hs as [Hs Ha]. destruct i as [|i], j as [|j]; [lia| |lia|].
  - injection Hi as ->. rewrite Forall_forall in Ha. apply Ha. by apply list_elem_of_fmap_2, list_elem_of_lookup_2 with j.
  - apply (IH Hs i j); [done|done|lia].
Qed.

Lemma versions_positive e : e ∈ hist -> listResourceVersion w < ce_Version e.
Proof. intros He. destruct (StronglySorted_inv (sv_sorted _ _ _ Hserves)) as [_ Ha]. rewrite Forall_forall in Ha. by apply Ha, list_elem_of_fmap_2. Qed.

Lemma versions_bounded e : e ∈ hist -> ce_Version e <= wc_resourceVersion w.
Proof.
  intros He. apply (sorted_last_max _ _ _ (sv_sorted _ _ _ Hserves) (sv_version _ _ _ Hserves)). apply elem_of_cons. right. by apply list_elem_of_fmap_2.
Qed.

Lemma list_bounded : listResourceVersion w <= wc_resourceVersion w.
Proof. apply (sorted_last_max _ _ _ (sv_sorted _ _ _ Hserves) (sv_version _ _ _ Hserves)). left. Qed.

Lemma oldest_is : oldest w = Some (horizon w hist + 1) ∧ 0 < horizon w hist < 2 ^ 64.
Proof.
  pose proof (sv_listed _ _ _ Hserves). pose proof (sv_bound _ _ _ Hserves). pose proof list_bounded. pose proof (wo_room _ _ (sv_window _ _ _ Hserves)) as Hroom.
  unfold oldest, horizon. rewrite window_size, window_full. fold l. destruct l as [|e l'] eqn:El.
  - destruct (Nat.leb_spec (wc_capacity w) (length hist)) as [Hfull|_].
    { unfold l, last_events in El. apply (f_equal length) in El. rewrite length_drop in El. cbn in El. lia. }
    destruct (Z.ltb_spec 0 (listResourceVersion w)); [split; [done|lia]|lia].
  - assert (e ∈ hist) as He. { apply (list_elem_of_lookup_2 _ (length hist - wc_capacity w + 0)). rewrite <- lookup_drop. change (l !! O = Some e). by rewrite El. }
    pose proof (versions_positive e He). pose proof (versions_bounded e He).
    destruct (wo_events _ _ (sv_window _ _ _ Hserves) O e) as [Hr _]; [change (l !! O = Some e); by rewrite El|]. rewrite Hr.
    destruct (Nat.leb_spec (wc_capacity w) (length hist)); [split; [f_equal; lia|lia]|]. destruct (Z.ltb_spec 0 (listResourceVersion w)); [split; [done|lia]|lia].
Qed.

Lemma outside_window i e : (i < length hist - wc_capacity w)%nat -> hist !! i = Some e -> ce_Version e <= horizon w hist.
Proof.
  intros Hi He. unfold horizon. fold l. destruct l as [|e0 l'] eqn:El.
  - pose proof (wo_room _ _ (sv_window _ _ _ Hserves)). unfold l, last_events in El. apply (f_equal length) in El. rewrite length_drop in El. cbn in El. lia.
  - assert (hist !! (length hist - wc_capacity w)%nat = Some e0) as H0. { replace (length hist - wc_capacity w)%nat with (length hist - wc_capacity w + 0)%nat by lia. rewrite <- lookup_drop. change (l !! O = Some e0). by rewrite El. }
    pose proof (versions_sorted i _ e e0 He H0 Hi). destruct (Nat.leb_spec (wc_capacity w) (length hist)); lia.
Qed.

(** Exactly the later events are returned, or the revision is too old. *)
Lemma request_ok (P : Z -> Prop) rv : one_source P -> (forall e, e ∈ hist -> P (ce_Version e)) -> P rv -> 0 < rv ->
  GetAllEventsSinceThreadUnsafe w rv = if rv <? horizon w hist then Err "too old resource version" else Ok (Some <$> filter (fun e => rv < ce_Version e) hist).
Proof.
  intros Hone HP Hrv Hpos. destruct oldest_is as [Hold Hh]. unfold GetAllEventsSinceThreadUnsafe. rewrite Hold, window_size. destruct (Z.eqb_spec rv 0); [lia|].
  replace (horizon w hist + 1 - 1) with (horizon w hist) by lia. rewrite Z.mod_small by lia. destruct (Z.ltb_spec rv (horizon w hist)) as [|Hge]; [done|].
  assert (forall i e, l !! i = Some e -> hist !! (length hist - wc_capacity w + i)%nat = Some e) as Hl by (intros i e; unfold l, last_events; by rewrite lookup_drop).
  assert (forall i e, l !! i = Some e -> RevisionIsNewer (revision_at w i) rv = (rv <? ce_Version e)) as Hnewer.
  { intros i e Hi. destruct (wo_events _ _ (sv_window _ _ _ Hserves) i e Hi) as [-> _]. apply (newer_of_one_source P); [done| |done]. apply HP. by eapply list_elem_of_lookup_2, Hl. }
  set (f := fun i => RevisionIsNewer (revision_at w i) rv). destruct (sort_Search_spec (length l) f) as (Hn & Hlo & Hhi).
  { intros a b Hab Hb Ha. destruct (lookup_lt_is_Some_2 l a ltac:(lia)) as [ea Ea], (lookup_lt_is_Some_2 l b Hb) as [eb Eb]. unfold f in *. rewrite (Hnewer a ea Ea) in Ha. rewrite (Hnewer b eb Eb).
    apply Z.ltb_lt in Ha. apply Z.ltb_lt. destruct (decide (a = b)) as [->|]; [congruence|]. pose proof (versions_sorted _ _ ea eb (Hl _ _ Ea) (Hl _ _ Eb) ltac:(lia)). lia. }
  set (first := sort_Search (length l) f) in *. f_equal. rewrite <- (take_drop (length hist - wc_capacity w) hist), filter_app. fold (last_events (wc_capacity w) hist). fold l.
  assert (filter (fun e => rv < ce_Version e) (take (length hist - wc_capacity w) hist) = []) as ->.
  { apply none_newer. intros e [i Hi]%list_elem_of_lookup. apply lookup_take_Some in Hi as [Hi Hlt]. pose proof (outside_window i e Hlt Hi). lia. }
  cbn [app]. rewrite (newer_events l rv first Hn).
  - apply list_eq. intros i. rewrite !list_lookup_fmap, lookup_drop. destruct (decide (i < length l - first)%nat) as [Hi|Hi].
    + rewrite lookup_seq_lt by done. cbn. destruct (lookup_lt_is_Some_2 l (first + i) ltac:(lia)) as [e He]. rewrite He. cbn. destruct (wo_events _ _ (sv_window _ _ _ Hserves) _ _ He) as [-> ->]. done.
    + rewrite lookup_seq_ge by lia. rewrite lookup_ge_None_2 by lia. done.
  - intros i e Hi Hlt. specialize (Hlo i Hlt). unfold f in Hlo. rewrite (Hnewer i e Hi) in Hlo. by apply Z.ltb_ge in Hlo.
  - intros i e Hi Hge'. pose proof (lookup_lt_Some _ _ _ Hi) as Hlt. specialize (Hhi i (conj Hge' Hlt)). unfold f in Hhi. rewrite (Hnewer i e Hi) in Hhi. by apply Z.ltb_lt in Hhi.
Qed.
End Request.

(** ** From the start *)

(** Changes one after the other, with the events that the handler gets. *)
Fixpoint wc_changes (w : watchCache) (cs : list (EventType * obj)) : option (result (watchCache * list watchCacheEvent)) :=
  match cs with
  | [] => Some (Ok (w, []))
  | (t, o) :: cs =>
      r ← wc_change w t o;
      match r with
      | Err e => Some (Err e)
      | Ok (w, event) => r ← wc_changes w cs; Some match r with Ok (w, events) => Ok (w, event :: events) | Err e => Err e end
      end
  end.

(** The changes have rising versions. *)
Fixpoint rising (v : Z) (cs : list (EventType * obj)) : Prop :=
  match cs with
  | [] => True
  | (t, o) :: cs => is_change t ∧ is_ok (keyFunc o) = true ∧ is_ok (getAttrs o) = true ∧ ∃ rv, ObjectResourceVersion o = Ok rv ∧ v < rv < 2 ^ 64 ∧ rising rv cs
  end.

Lemma changes_ok cs : forall w base hist, serves w base hist -> rising (wc_resourceVersion w) cs ->
  ∃ w' events, wc_changes w cs = Some (Ok (w', events)) ∧ serves w' base (hist ++ events) ∧ wc_capacity w' = wc_capacity w ∧ listResourceVersion w' = listResourceVersion w ∧
    Forall2 (fun e c => ce_Type e = c.1 ∧ ce_Object e = c.2 ∧ ObjectResourceVersion c.2 = Ok (ce_Version e)) events cs.
Proof.
  induction cs as [|[t o] cs IH]; intros w base hist Hs Hr; cbn [wc_changes].
  { exists w, []. rewrite app_nil_r. split_and!; [done|done|done|done|constructor]. }
  destruct Hr as (Ht & Hkey & Hattrs & rv & Hrv & Hlt & Hr). unfold wc_change. rewrite Hrv.
  destruct (keyFunc o) as [key|] eqn:Ek; [|done]. destruct (getAttrs o) as [[ls fs]|] eqn:Ea; [|done].
  destruct (processEvent_ok w base hist t o rv key ls fs Hs Ht Hlt Ek Ea) as (w1 & -> & Hs1 & Hc1 & Hl1 & Hv1). set (e := mkCacheEvent _ _ _ _ _ _ _) in *. bind_simpl.
  destruct (IH w1 base (hist ++ [e]) Hs1) as (w2 & events & -> & Hs2 & Hc2 & Hl2 & Hall); [by rewrite Hv1|]. bind_simpl.
  exists w2, (e :: events). split_and!; [done|by rewrite <- app_assoc in Hs2|congruence|congruence|]. constructor; [|done]. by split_and!.
Qed.

(** C14.  The watch cache serves every change: after a list and any changes with rising
    versions of one source, a request for the changes since a version returns exactly those
    with a later version, in order and none missing; or it is refused, which happens only
    when the version is older than the list or than all that the full window holds.  The
    objects are those of the list with all changes made. *)
Theorem watch_cache_serves_every_change (capacity : nat) objs l version cs P : (0 < capacity)%nat -> store_elements objs = Ok l -> 0 < version < 2 ^ 64 -> rising version cs -> one_source P ->
  ∃ w0 w events, wc_Replace (newWatchCache capacity) objs version = Some (Ok w0) ∧ wc_changes w0 cs = Some (Ok (w, events)) ∧
    Forall2 (fun e c => ce_Type e = c.1 ∧ ce_Object e = c.2 ∧ ObjectResourceVersion c.2 = Ok (ce_Version e)) events cs ∧
    store_items (wc_store w) = foldl apply_event (foldl (fun m elem => <[el_Key elem := elem]> m) ∅ l) events ∧
    forall rv, 0 < rv -> P rv -> (forall e, e ∈ events -> P (ce_Version e)) ->
      let too_old := rv < version ∨ ∃ e, events !! (length events - capacity)%nat = Some e ∧ (capacity <= length events)%nat ∧ rv < ce_Version e - 1 in
      (too_old -> is_ok (GetAllEventsSinceThreadUnsafe w rv) = false) ∧
      (~ too_old -> GetAllEventsSinceThreadUnsafe w rv = Ok (Some <$> filter (fun e => rv < ce_Version e) events)).
Proof.
  intros Hcap Hl Hv Hr Hone. destruct (Replace_ok (newWatchCache capacity) objs l version) as (w0 & Hw0 & Hs0 & Hc0 & Hl0 & Hv0); [done|apply length_replicate|done|done|done|].
  destruct (changes_ok cs w0 _ [] Hs0) as (w & events & Hrun & Hs & Hc & Hlv & Hall); [by rewrite Hv0|]. cbn [app] in Hs. exists w0, w, events.
  split_and!; [done|done|done|exact (sv_store _ _ _ Hs)|]. intros rv Hpos HP HPe too_old. rewrite (request_ok w _ events Hs P rv Hone HPe HP Hpos).
  assert (too_old <-> rv < horizon w events) as Hiff.
  { unfold too_old, horizon. rewrite Hc, Hc0, Hlv, Hl0. cbn [wc_capacity newWatchCache]. destruct (last_events capacity events) as [|e0 l0] eqn:El; unfold last_events in El.
    - apply (f_equal length) in El as Hlen. rewrite length_drop in Hlen. cbn in Hlen. split; [|by left]. intros [?|(e & He & Hfull & _)]; [done|]. apply lookup_lt_Some in He. lia.
    - assert (events !! (length events - capacity)%nat = Some e0) as H0 by (rewrite <- (Nat.add_0_r (_ - _)), <- lookup_drop, El; done).
      pose proof (versions_positive w _ events Hs e0 (list_elem_of_lookup_2 _ _ _ H0)) as Hpe. rewrite Hlv, Hl0 in Hpe.
      destruct (Nat.leb_spec capacity (length events)) as [Hfull|Hnot]; split.
      + intros [?|(e & He & _ & ?)]; [lia|]. rewrite H0 in He. injection He as <-. done.
      + intros ?. right. by exists e0.
      + intros [?|(e & He & ? & ?)]; [done|lia].
      + by left. }
  destruct (Z.ltb_spec rv (horizon w events)) as [Hlt|Hge]; split.
  - done.
  - intros Hno. by apply Hiff in Hlt.
  - intros Hold. apply Hiff in Hold. lia.
  - done.
Qed.
End Cache.

(** ** Examples *)

(** An object is a name with a version. *)
Definition versioned : Type := string * Z.
Definition versioned_key (o : versioned) : result string := Ok o.1.
Definition versioned_attrs (o : versioned) : result (attrs * attrs) := Ok (∅, {["metadata.name" := o.1]}).
Definition versioned_version (o : versioned) : result Z := Ok o.2.
Definition visit_map (A : Type) (m : gmap string A) : list (string * A) := map_to_list m.

Definition demo_changes : list (EventType * versioned) := [(WatchAdded, ("b", 2)); (WatchModified, ("a", 3)); (WatchDeleted, ("b", 4))]%string%Z.

Lemma watch_cache_serves_every_change_witness : ∃ w0 w events,
  wc_Replace visit_map versioned_key versioned_attrs (newWatchCache 2) [("a"%string, 1%Z)] 1 = Some (Ok w0) ∧
  wc_changes visit_map versioned_key versioned_attrs versioned_version w0 demo_changes = Some (Ok (w, events)) ∧
  GetAllEventsSinceThreadUnsafe visit_map versioned_attrs w 2 = Ok (Some <$> filter (fun e => 2 < ce_Version e)%Z events) ∧
  is_ok (GetAllEventsSinceThreadUnsafe visit_map versioned_attrs w 1) = false.
Proof.
  destruct (watch_cache_serves_every_change visit_map versioned_key versioned_attrs versioned_version (fun A m => reflexivity _) 2 [("a"%string, 1%Z)]
    [mkElem "a" ("a"%string, 1%Z) ∅ {["metadata.name" := "a"%string]}] 1 demo_changes (fun r => (r < 100)%Z)) as (w0 & w & events & Hw0 & Hrun & Hall & _ & Hreq).
  - lia.
  - reflexivity.
  - lia.
  - cbn. split; [by left|]. split; [done|]. split; [done|]. exists 2%Z. split; [done|]. split; [lia|]. split; [by right; left|]. split; [done|]. split; [done|]. exists 3%Z.
    split; [done|]. split; [lia|]. split; [by right; right|]. split; [done|]. split; [done|]. exists 4%Z. split; [done|]. split; [lia|done].
  - left. intros r Hr. assert (100 < v2MinRevision)%Z by reflexivity. lia.
  - exists w0, w, events. split; [exact Hw0|]. split; [exact Hrun|].
    assert (map ce_Version events = [2; 3; 4]%Z) as Hv.
    { apply Forall2_cons_inv_r in Hall as (e1 & l1 & (_ & _ & [= H1]) & Hall & ->). apply Forall2_cons_inv_r in Hall as (e2 & l2 & (_ & _ & [= H2]) & Hall & ->).
      apply Forall2_cons_inv_r in Hall as (e3 & l3 & (_ & _ & [= H3]) & Hall & ->). apply Forall2_nil_inv_r in Hall as ->. cbn. congruence. }
    destruct events as [|e1 [|e2 [|e3 [|]]]]; [done|done|done| |done]. injection Hv as H1 H2 H3.
    assert (forall e, e ∈ [e1; e2; e3] -> (ce_Version e < 100)%Z) as HP by (intros e; rewrite !elem_of_cons, elem_of_nil; intros [->|[->|[->|[]]]]; lia).
    split.
    + apply (proj2 (Hreq 2%Z ltac:(lia) ltac:(lia) HP)). intros [?|(e & [= <-] & _ & ?)]; lia.
    + apply (proj1 (Hreq 1%Z ltac:(lia) ltac:(lia) HP)). right. exists e2. split; [done|]. split; [cbn; lia|]. lia.
Defined.

(** Two changes with one revision share a place in the map: the first one is lost, and the
    second one is returned twice. *)
Theorem equal_revisions_lose_a_change : ∃ w0 w e1 e2,
  wc_Replace visit_map versioned_key versioned_attrs (newWatchCache 4) [] 1 = Some (Ok w0) ∧
  wc_changes visit_map versioned_key versioned_attrs versioned_version w0 [(WatchAdded, ("a", 2)); (WatchAdded, ("b", 2))]%string%Z = Some (Ok (w, [e1; e2])) ∧
  ce_Key e1 = "a"%string ∧ ce_Key e2 = "b"%string ∧ GetAllEventsSinceThreadUnsafe visit_map versioned_attrs w 1 = Ok [Some e2; Some e2].
Proof. eexists _, _, _, _. split; [reflexivity|]. split; [reflexivity|]. split; [reflexivity|]. split; reflexivity. Qed.
