(* ===== verification/Cacher.v ===== *)
(** * The cacher of the API server

    Models [apiserver/pkg/storage/cacher/cacher.go]: lists and watches of a resource are
    served from its watch cache, and the events of the cache are dispatched to the watchers
    that may be interested, by the value of an indexed field.  A watcher filters what it gets
    by its selector, so that an object may appear and disappear for it without being created
    or deleted.  The theorems show that a watcher is sent exactly the changes of what it
    selects, in order, from the version on that it asked for, while watchers come and go and
    whatever is slow; that no event is written to a closed watcher; and three ways in which a
    watcher is left without an event.  Bookmarks are not modelled. *)
From S2P Require Import Prelude Types IndexedStore Informer Revision WatchCache.
From S2P Require FieldSelector.
Import FieldSelector.

Local Open Scope Z_scope.

(** ** Selection *)

(** (cacher/util.go:24-46) *)
Definition hasPathPrefix (s pathPrefix : string) : bool :=
  if negb (String.prefix pathPrefix s) then false
  else
    let pathPrefixLength := String.length pathPrefix in
    if Nat.eqb (String.length s) pathPrefixLength then true
    else if match pathPrefix with EmptyString => false | _ => match String.get (pathPrefixLength - 1) pathPrefix with Some c => Ascii.eqb c "/" | None => false end end then true
    else match String.get pathPrefixLength s with Some c => Ascii.eqb c "/" | None => false end.

(** Labels, fields and the indexed fields; the selector of labels is a parameter
    (storage/selection_predicate.go:88-96). *)
Record SelectionPredicate := mkPredicate { Label_Matches : attrs -> bool; Label_Empty : bool; pred_Field : Fields.Selector; IndexFields : list string }.

(** (storage/selection_predicate.go:118-127) *)
Definition MatchesObjectAttributes (s : SelectionPredicate) (l f : attrs) : bool :=
  if Label_Empty s && Fields.Empty (pred_Field s) then true else Label_Matches s l && Fields.Matches (pred_Field s) f.

(** The values of the indexed fields that the selector requires
    (storage/selection_predicate.go:146-154). *)
Definition MatcherIndex (s : SelectionPredicate) : list string :=
  omap (fun field => let '(value, ok) := Fields.RequiresExactMatch (pred_Field s) field in if (ok : bool) then Some value else None) (IndexFields s).

(** (cacher/cacher.go:937-945) *)
Definition filterWithAttrsFunction (key : string) (p : SelectionPredicate) (objKey : string) (l f : attrs) : bool :=
  hasPathPrefix objKey key && MatchesObjectAttributes p l f.

Section Cacher.
Context {obj : Type}.
#[local] Abbreviation wevent := (watchCacheEvent (obj := obj)).
#[local] Abbreviation welem := (storeElement (obj := obj)).
Context (range : forall A : Type, gmap string A -> list (string * A)) (order : gset nat -> list nat).
Context (keyFunc : obj -> result string) (getAttrs : obj -> result (attrs * attrs)) (UpdateObject : obj -> Z -> obj).
(** The values by which watchers are indexed, if they are. *)
Context (triggerFunc : option (obj -> list string)).

(** ** Watchers *)

(** The channel [cw_input] with its size, what has been put into the channel of results so
    far, the events of the start that are left, and the version from which on events are
    passed on; [cw_trigger] is the value
    by which it is indexed (cacher/cacher.go:1037-1052). *)
Record cacheWatcher := mkWatcher {
  cw_filter : string -> attrs -> attrs -> bool; cw_trigger : option string; cw_version : Z; cw_size : nat; cw_init : list (option wevent); cw_input : list wevent;
  cw_result : list (EventType * obj); cw_stopped : bool }.

Definition set_channels (w : cacheWatcher) (init : list (option wevent)) (input : list wevent) (result : list (EventType * obj)) : cacheWatcher :=
  mkWatcher (cw_filter w) (cw_trigger w) (cw_version w) (cw_size w) init input result (cw_stopped w).

(** (cacher/cacher.go:1082-1090 stop) *)
Definition stop (w : cacheWatcher) : cacheWatcher := mkWatcher (cw_filter w) (cw_trigger w) (cw_version w) (cw_size w) (cw_init w) (cw_input w) (cw_result w) true.

(** What becomes of an event behind the filter (cacher/cacher.go:1143-1173). *)
Definition convertToWatchEvent (filter : string -> attrs -> attrs -> bool) (event : wevent) : option (EventType * obj) :=
  let curObjPasses := match ce_Type event with WatchDeleted => false | _ => filter (ce_Key event) (ce_Labels event) (ce_Fields event) end in
  let oldObjPasses := match ce_Prev event with Some (_, ls, fs) => filter (ce_Key event) ls fs | None => false end in
  match curObjPasses, oldObjPasses with
  | false, false => None
  | true, false => Some (WatchAdded, ce_Object event)
  | true, true => Some (WatchModified, ce_Object event)
  | false, true => (fun p => (WatchDeleted, UpdateObject p.1.1 (ce_Version event))) <$> ce_Prev event
  end.

(** Nothing is sent any more when the watcher is stopped (cacher/cacher.go:1176-1205). *)
Definition sendWatchCacheEvent (w : cacheWatcher) (event : wevent) : list (EventType * obj) :=
  match convertToWatchEvent (cw_filter w) event with Some e => if cw_stopped w then cw_result w else cw_result w ++ [e] | None => cw_result w end.

(** One turn of the watcher: an event of the start, or one of the channel.  A nil event
    panics (cacher/cacher.go:1207-1255 process). *)
Definition process_turn (w : cacheWatcher) : option cacheWatcher :=
  match cw_init w with
  | None :: _ => None
  | Some event :: init => Some (set_channels w init (cw_input w) (sendWatchCacheEvent w event))
  | [] =>
      match cw_input w with
      | [] => Some w
      | event :: input => Some (set_channels w [] input (if RevisionIsNewer (ce_Version event) (cw_version w) then sendWatchCacheEvent w event else cw_result w))
      end
  end.

(** ** The cacher *)

(** The watchers are kept by their number: those without an indexed value, and those of each
    value.  While an event is dispatched, [c_dispatch] has it with the watchers that it is
    still to be given to; then stopped watchers wait in [watchersToStop]
    (cacher/cacher.go:219-289). *)
Record Cacher := mkCacher {
  c_watchCache : watchCache (obj := obj); incoming : list wevent; watcherIdx : nat; watcher_objs : gmap nat cacheWatcher;
  allWatchers : gset nat; valueWatchers : gmap string (gset nat); c_dispatch : option (wevent * list nat); watchersToStop : list nat }.

Definition set_cache (c : Cacher) (w : watchCache) (q : list wevent) : Cacher :=
  mkCacher w q (watcherIdx c) (watcher_objs c) (allWatchers c) (valueWatchers c) (c_dispatch c) (watchersToStop c).
Definition set_watchers (c : Cacher) (os : gmap nat cacheWatcher) (all : gset nat) (vs : gmap string (gset nat)) (ts : list nat) : Cacher :=
  mkCacher (c_watchCache c) (incoming c) (watcherIdx c) os all vs (c_dispatch c) ts.
Definition set_dispatch (c : Cacher) (q : list wevent) (os : gmap nat cacheWatcher) (d : option (wevent * list nat)) (ts : list nat) : Cacher :=
  mkCacher (c_watchCache c) q (watcherIdx c) os (allWatchers c) (valueWatchers c) d ts.

Definition NewCacher (capacity : nat) : Cacher := mkCacher (newWatchCache capacity) [] 0 ∅ ∅ ∅ None [].

(** (cacher/cacher.go:132-141 indexedWatchers.addWatcher) *)
Definition addWatcher (c : Cacher) (w : cacheWatcher) : Cacher :=
  let number := watcherIdx c in let value := cw_trigger w in
  mkCacher (c_watchCache c) (incoming c) (S number) (<[number := w]> (watcher_objs c))
    (match value with None => {[number]} ∪ allWatchers c | Some _ => allWatchers c end)
    (match value with None => valueWatchers c | Some v => <[v := {[number]} ∪ default ∅ (valueWatchers c !! v)]> (valueWatchers c) end)
    (c_dispatch c) (watchersToStop c).

(** A watcher is not stopped while an event is dispatched (cacher/cacher.go:897-903). *)
Definition stopWatcherThreadUnsafe (c : Cacher) (number : nat) : Cacher :=
  match c_dispatch c with
  | Some _ => set_watchers c (watcher_objs c) (allWatchers c) (valueWatchers c) (watchersToStop c ++ [number])
  | None => set_watchers c (alter stop number (watcher_objs c)) (allWatchers c) (valueWatchers c) (watchersToStop c)
  end.

(** (cacher/cacher.go:143-152 indexedWatchers.deleteWatcher) *)
Definition forgetWatcher (c : Cacher) (number : nat) (value : option string) : Cacher :=
  match value with
  | None =>
      if bool_decide (number ∈ allWatchers c) then
        stopWatcherThreadUnsafe (set_watchers c (watcher_objs c) (allWatchers c ∖ {[number]}) (valueWatchers c) (watchersToStop c)) number
      else c
  | Some v =>
      let ws := default ∅ (valueWatchers c !! v) in
      if bool_decide (number ∈ ws) then
        let rest := ws ∖ {[number]} in
        let vs := if bool_decide (rest = ∅) then delete v (valueWatchers c) else <[v := rest]> (valueWatchers c) in
        stopWatcherThreadUnsafe (set_watchers c (watcher_objs c) (allWatchers c) vs (watchersToStop c)) number
      else set_watchers c (watcher_objs c) (allWatchers c) (if bool_decide (ws = ∅) then delete v (valueWatchers c) else valueWatchers c) (watchersToStop c)
  end.

(** The numbers of a map of watchers of each value. *)
Definition numbers (vs : gmap string (gset nat)) : gset nat := ⋃ (map_to_list vs).*2.

(** (cacher/cacher.go:154-163 indexedWatchers.terminateAll) *)
Definition terminateAllWatchers (c : Cacher) : Cacher :=
  let all := order (allWatchers c ∪ numbers (valueWatchers c)) in
  foldl stopWatcherThreadUnsafe (set_watchers c (watcher_objs c) ∅ ∅ (watchersToStop c)) all.

(** (cacher/cacher.go:719-743 triggerValues) *)
Definition triggerValues (event : wevent) : list string * bool :=
  match triggerFunc with
  | None => ([], false)
  | Some f =>
      let result := match f (ce_Object event) with v :: _ => [v] | [] => [] end in
      let result := match ce_Prev event with
        | None => result
        | Some (prev, _, _) =>
            match f prev with
            | v :: _ => match result with r :: _ => if String.eqb r v then result else result ++ [v] | [] => [v] end
            | [] => result
            end
        end in
      (result, Nat.ltb 0 (length result))
  end.

(** The watchers that may be interested (cacher/cacher.go:850-874 startDispatching). *)
Definition interested (c : Cacher) (event : wevent) : list nat :=
  let '(values, supported) := triggerValues event in
  order (allWatchers c) ++
    (if (supported : bool) then values ≫= (fun v => order (default ∅ (valueWatchers c !! v)))
     else (range _ (valueWatchers c)).*2 ≫= order).

(** The next event (cacher/cacher.go:830-875). *)
Definition startDispatching (c : Cacher) : Cacher :=
  match c_dispatch c, incoming c with
  | None, event :: q => set_dispatch c q (watcher_objs c) (Some (event, interested c event)) (watchersToStop c)
  | _, _ => c
  end.

(** The event is given to the next watcher; a watcher without room is forgotten when the time
    is up.  Writing to a closed channel panics (cacher/cacher.go:1102-1132 add). *)
Definition deliver (timed_out : bool) (c : Cacher) : option Cacher :=
  match c_dispatch c with
  | Some (event, number :: rest) =>
      w ← watcher_objs c !! number;
      if cw_stopped w then None
      else if Nat.ltb (length (cw_input w)) (cw_size w) then
        Some (set_dispatch c (incoming c) (<[number := set_channels w (cw_init w) (cw_input w ++ [event]) (cw_result w)]> (watcher_objs c)) (Some (event, rest)) (watchersToStop c))
      else if timed_out then Some (forgetWatcher (set_dispatch c (incoming c) (watcher_objs c) (Some (event, rest)) (watchersToStop c)) number (cw_trigger w))
      else Some c
  | _ => Some c
  end.

(** (cacher/cacher.go:881-889) *)
Definition finishDispatching (c : Cacher) : Cacher :=
  match c_dispatch c with
  | Some (_, []) => set_dispatch c (incoming c) (foldl (fun os number => alter stop number os) (watcher_objs c) (watchersToStop c)) None []
  | _ => c
  end.

(** (cacher/cacher.go:426-445 Watch) *)
Definition chanSize (trigger : option string) : nat := match triggerFunc, trigger with Some _, None => 1000 | _, _ => 10 end.

(** A watcher starts with the events since its version, and remembers the last of them,
    which panics when that is nil (cacher/cacher.go:413-496). *)
Definition Watch (c : Cacher) (key : string) (watchRV : Z) (pred : SelectionPredicate) : option (result (Cacher * nat)) :=
  match GetAllEventsSinceThreadUnsafe range getAttrs (c_watchCache c) watchRV with
  | Err e => Some (Err e)
  | Ok initEvents =>
      version ← match last initEvents with Some (Some e) => Some (ce_Version e) | Some None => None | None => Some watchRV end;
      let trigger := head (MatcherIndex pred) in
      Some (Ok (addWatcher c (mkWatcher (filterWithAttrsFunction key pred) trigger version (chanSize trigger) initEvents [] [] false), watcherIdx c))
  end.

(** The reflector has been told of a change (cacher/cacher.go:745-751 processEvent). *)
Definition c_change (c : Cacher) (t : EventType) (o : obj) (rv : Z) : option (result Cacher) :=
  r ← wc_processEvent range keyFunc getAttrs (c_watchCache c) t o rv;
  Some match r with Ok (w, event) => Ok (set_cache c w (incoming c ++ [event])) | Err e => Err e end.

(** The reflector has listed the objects. *)
Definition c_replace (c : Cacher) (objs : list obj) (version : Z) : option (result Cacher) :=
  r ← wc_Replace range keyFunc getAttrs (c_watchCache c) objs version;
  Some match r with Ok w => Ok (set_cache c w (incoming c)) | Err e => Err e end.

(** An object as of a version, from the cache (cacher/cacher.go:534-552 Get). *)
Definition c_Get (timed_out : bool) (c : Cacher) (key : string) (getRV : Z) (ignoreNotFound : bool) : option (result (option obj)) :=
  match WaitUntilFreshAndGet timed_out (c_watchCache c) getRV key with
  | None => None
  | Some (Err e) => Some (Err e)
  | Some (Ok (Some elem, _)) => Some (Ok (Some (el_Object elem)))
  | Some (Ok (None, _)) => Some (if ignoreNotFound then Ok None else Err "key not found")
  end.

(** The list of one object (cacher/cacher.go:598-621 GetToList). *)
Definition c_GetToList (timed_out : bool) (c : Cacher) (key : string) (listRV : Z) (pred : SelectionPredicate) : option (result (list obj * Z)) :=
  match WaitUntilFreshAndGet timed_out (c_watchCache c) listRV key with
  | None => None
  | Some (Err e) => Some (Err e)
  | Some (Ok (elem, rv)) =>
      Some (Ok (match elem with Some elem => if filterWithAttrsFunction key pred (el_Key elem) (el_Labels elem) (el_Fields elem) then [el_Object elem] else [] | None => [] end, rv))
  end.

(** A list of the selected objects, with the version that it has, from the cache
    (cacher/cacher.go:667-696 List). *)
Definition c_List (timed_out : bool) (c : Cacher) (key : string) (listRV : Z) (pred : SelectionPredicate) : option (result (list obj * Z)) :=
  match WaitUntilFreshAndList range timed_out (c_watchCache c) listRV with
  | None => None
  | Some (Err e) => Some (Err e)
  | Some (Ok (elems, rv)) => Some (Ok (el_Object <$> filter (fun elem : welem => filterWithAttrsFunction key pred (el_Key elem) (el_Labels elem) (el_Fields elem) = true) elems, rv))
  end.

(** ** Runs of the cacher *)

(** The cache is being listed again, after all watchers were stopped; it serves requests;
    or its reflector has lost the storage (cacher/cacher.go:369-395 startCaching). *)
Inductive phase := Restarting | Serving | Broken.

(** The cacher with its phase, and what has happened since the last list: the objects of
    the list, the events, and the versions that the watchers asked for. *)
Record state := mkRun { rs_phase : phase; rs_c : Cacher; rs_base : gmap string welem; rs_hist : list wevent; rs_start : gmap nat Z }.

(** The versions that occur, and what a selector promises of an indexed field. *)
Context (P : Z -> Prop).
Definition event_ok (e : wevent) : Prop :=
  (keyFunc (ce_Object e) = Ok (ce_Key e) ∧ getAttrs (ce_Object e) = Ok (ce_Labels e, ce_Fields e)) ∧ forall o ls fs, ce_Prev e = Some (o, ls, fs) -> keyFunc o = Ok (ce_Key e) ∧ getAttrs o = Ok (ls, fs).
Definition trigger_ok (pred : SelectionPredicate) (key : string) : Prop := forall e, event_ok e -> is_Some (convertToWatchEvent (filterWithAttrsFunction key pred) e) ->
  match head (MatcherIndex pred) with Some v => v ∈ (triggerValues e).1 ∨ (triggerValues e).2 = false | None => True end.

Inductive cacher_step : state -> state -> Prop :=
  | step_change c base hist start t o rv w' e (Ht : is_change t) (Hrv : wc_resourceVersion (c_watchCache c) < rv < 2 ^ 64) (HP : P rv)
      (Hrun : wc_processEvent range keyFunc getAttrs (c_watchCache c) t o rv = Some (Ok (w', e))) :
      cacher_step (mkRun Serving c base hist start) (mkRun Serving (set_cache c w' (incoming c ++ [e])) base (hist ++ [e]) start)
  | step_open c base hist start key rv pred c' n (Hrv : 0 < rv) (HP : P rv) (Htrig : trigger_ok pred key) (Hrun : Watch c key rv pred = Some (Ok (c', n))) :
      cacher_step (mkRun Serving c base hist start) (mkRun Serving c' base hist (<[n := rv]> start))
  | step_dispatch ph c base hist start : cacher_step (mkRun ph c base hist start) (mkRun ph (startDispatching c) base hist start)
  | step_deliver ph c base hist start timed_out c' (Hrun : deliver timed_out c = Some c') : cacher_step (mkRun ph c base hist start) (mkRun ph c' base hist start)
  | step_finish ph c base hist start : cacher_step (mkRun ph c base hist start) (mkRun ph (finishDispatching c) base hist start)
  | step_turn ph c base hist start n w w' (Hw : watcher_objs c !! n = Some w) (Hrun : process_turn w = Some w') :
      cacher_step (mkRun ph c base hist start) (mkRun ph (set_watchers c (<[n := w']> (watcher_objs c)) (allWatchers c) (valueWatchers c) (watchersToStop c)) base hist start)
  | step_stop ph c base hist start n w (Hw : watcher_objs c !! n = Some w) : cacher_step (mkRun ph c base hist start) (mkRun ph (forgetWatcher c n (cw_trigger w)) base hist start)
  | step_break c base hist start : cacher_step (mkRun Serving c base hist start) (mkRun Broken c base hist start)
  | step_restart c base hist start : cacher_step (mkRun Broken c base hist start) (mkRun Restarting (terminateAllWatchers c) base hist start)
  | step_relist c base hist start objs elems version c' (Hv : wc_resourceVersion (c_watchCache c) <= version) (Hv' : 0 < version < 2 ^ 64) (HP : P version)
      (Hel : store_elements keyFunc getAttrs objs = Ok elems) (Hrun : c_replace c objs version = Some (Ok c')) :
      cacher_step (mkRun Restarting c base hist start) (mkRun Serving c' (foldl (fun m elem => <[el_Key elem := elem]> m) ∅ elems) [] start).

(** ** The invariant *)

Hypothesis Hrange : forall A (m : gmap string A), range A m ≡ₚ map_to_list m.
Hypothesis Horder : forall s, order s ≡ₚ elements s.
Hypothesis Hone : one_source P.

(** The watcher is indexed. *)
Definition registered (c : Cacher) (n : nat) (w : cacheWatcher) : Prop :=
  watcher_objs c !! n = Some w ∧ match cw_trigger w with None => n ∈ allWatchers c | Some v => n ∈ default ∅ (valueWatchers c !! v) end.

(** The event that is being dispatched, if the watcher has not been given it yet. *)
Definition current (c : Cacher) (n : nat) : list wevent :=
  match c_dispatch c with Some (e, rest) => if decide (n ∈ rest) then [e] else [] | None => [] end.

Definition newer (w : cacheWatcher) (es : list wevent) : list wevent := filter (fun e : wevent => cw_version w < ce_Version e) es.
Definition converted (w : cacheWatcher) (es : list wevent) : list (EventType * obj) := omap (convertToWatchEvent (cw_filter w)) es.

(** What the watcher was sent and what it will be sent are the changes since its start. *)
Record follows_from (c : Cacher) (hist : list wevent) (n : nat) (w : cacheWatcher) (rv : Z) : Prop := {
  ff_version : P (cw_version w) ∧ listResourceVersion (c_watchCache c) <= cw_version w ∧ (cw_version w = rv ∨ rv < cw_version w <= wc_resourceVersion (c_watchCache c));
  ff_size : (0 < cw_size w)%nat;
  ff_input : Forall (fun e : wevent => P (ce_Version e)) (cw_input w);
  ff_trigger : forall e, event_ok e -> is_Some (convertToWatchEvent (cw_filter w) e) -> match cw_trigger w with Some v => v ∈ (triggerValues e).1 ∨ (triggerValues e).2 = false | None => True end;
  ff_events : ∃ init, cw_init w = Some <$> init ∧
    cw_result w ++ converted w (init ++ newer w (cw_input w ++ current c n ++ incoming c)) = converted w (filter (fun e : wevent => rv < ce_Version e) hist) }.

Definition event_good (c : Cacher) (e : wevent) : Prop := event_ok e ∧ P (ce_Version e) ∧ ce_Version e <= wc_resourceVersion (c_watchCache c).
Definition elem_ok (el : welem) : Prop := keyFunc (el_Object el) = Ok (el_Key el) ∧ getAttrs (el_Object el) = Ok (el_Labels el, el_Fields el).

(** The indices of watchers, and the watchers that are open. *)
Record index_ok (c : Cacher) : Prop := {
  ix_all : forall n, n ∈ allWatchers c -> ∃ w, registered c n w ∧ cw_trigger w = None;
  ix_values : forall v ns n, valueWatchers c !! v = Some ns -> n ∈ ns -> ∃ w, registered c n w ∧ cw_trigger w = Some v;
  ix_open : forall n w, registered c n w -> cw_stopped w = false;
  ix_fresh : forall n, is_Some (watcher_objs c !! n) -> (n < watcherIdx c)%nat;
  ix_stop : forall n w, n ∈ watchersToStop c -> (n < watcherIdx c)%nat ∧ ~ registered c n w;
  ix_rest : forall e rest, c_dispatch c = Some (e, rest) -> NoDup rest ∧ forall n, n ∈ rest -> ∃ w, watcher_objs c !! n = Some w ∧ cw_stopped w = false }.

(** The events that wait are old ones, and then the last ones of the history. *)
Definition waiting (c : Cacher) (hist : list wevent) : Prop :=
  ∃ old k, incoming c = old ++ drop k hist ∧ Forall (fun e : wevent => ce_Version e <= listResourceVersion (c_watchCache c)) old.

Record inv (s : state) : Prop := {
  in_buffer : (0 < wc_capacity (c_watchCache (rs_c s)))%nat ∧ length (revCache (c_watchCache (rs_c s))) = wc_capacity (c_watchCache (rs_c s)) ∧ indexers (wc_store (c_watchCache (rs_c s))) = ∅;
  in_serves : rs_phase s <> Restarting -> serves (c_watchCache (rs_c s)) (rs_base s) (rs_hist s);
  in_waiting : rs_phase s <> Restarting -> waiting (rs_c s) (rs_hist s);
  in_history : Forall (event_good (rs_c s)) (rs_hist s);
  in_good : Forall (event_good (rs_c s)) (incoming (rs_c s)) ∧ forall e rest, c_dispatch (rs_c s) = Some (e, rest) -> event_good (rs_c s) e;
  in_elems : map_Forall (fun _ => elem_ok) (store_items (wc_store (c_watchCache (rs_c s))));
  in_index : index_ok (rs_c s);
  in_start : forall n w, registered (rs_c s) n w -> rs_phase s <> Restarting ∧ ∃ rv, rs_start s !! n = Some rv ∧ follows_from (rs_c s) (rs_hist s) n w rv }.

(** ** What is kept *)

Lemma registered_unique c n w w' : registered c n w -> registered c n w' -> w = w'.
Proof. intros [H _] [H' _]. congruence. Qed.

(** ** The interested watchers *)

Lemma elem_of_order n s : n ∈ order s <-> n ∈ s.
Proof. by rewrite Horder, elem_of_elements. Qed.

Lemma trigger_values_distinct e : NoDup (triggerValues e).1.
Proof.
  unfold triggerValues. destruct triggerFunc as [f|]; [|constructor]. cbn [fst]. destruct (f (ce_Object e)) as [|r ?]; destruct (ce_Prev e) as [[[prev ?] ?]|]; try (repeat constructor; set_solver).
  - destruct (f prev); [constructor|apply NoDup_singleton].
  - destruct (f prev) as [|v ?]; [apply NoDup_singleton|]. destruct (String.eqb_spec r v) as [|Hne]; [apply NoDup_singleton|]. constructor; [set_solver|apply NoDup_singleton].
Qed.

Lemma interested_registered c e n : index_ok c -> n ∈ interested c e -> ∃ w, registered c n w.
Proof.
  intros Hix. unfold interested. destruct (triggerValues e) as [values supported]. rewrite elem_of_app, elem_of_order. intros [Hn|Hn].
  - destruct (ix_all _ Hix n Hn) as (w & Hw & _). by exists w.
  - destruct supported.
    + apply list_elem_of_bind in Hn as (v & Hn & _). apply elem_of_order in Hn. destruct (valueWatchers c !! v) as [ns|] eqn:E; [|set_solver]. destruct (ix_values _ Hix v ns n E Hn) as (w & Hw & _). by exists w.
    + apply list_elem_of_bind in Hn as (ns & Hn & Hns). apply elem_of_order in Hn. apply list_elem_of_fmap in Hns as ([v ns'] & -> & Hin). rewrite Hrange, elem_of_map_to_list in Hin.
      destruct (ix_values _ Hix v ns' n Hin Hn) as (w & Hw & _). by exists w.
Qed.

Lemma interested_complete c e n w : registered c n w -> match cw_trigger w with Some v => v ∈ (triggerValues e).1 ∨ (triggerValues e).2 = false | None => True end -> n ∈ interested c e.
Proof.
  intros [_ Hr] Ht. unfold interested. destruct (triggerValues e) as [values supported]. cbn in Ht. rewrite elem_of_app, elem_of_order. destruct (cw_trigger w) as [v|]; [|by left].
  right. destruct Ht as [Hv| ->].
  - destruct supported; [apply list_elem_of_bind; exists v; by rewrite elem_of_order|]. apply list_elem_of_bind. destruct (valueWatchers c !! v) as [ns|] eqn:E; [|set_solver]. exists ns. rewrite elem_of_order. split; [done|].
    apply list_elem_of_fmap. exists (v, ns). by rewrite Hrange, elem_of_map_to_list.
  - apply list_elem_of_bind. destruct (valueWatchers c !! v) as [ns|] eqn:E; [|set_solver]. exists ns. rewrite elem_of_order. split; [done|].
    apply list_elem_of_fmap. exists (v, ns). by rewrite Hrange, elem_of_map_to_list.
Qed.

Lemma bind_nodup {A} (l : list A) (g : A -> list nat) : NoDup l -> (forall x, NoDup (g x)) -> (forall x y n, x ∈ l -> y ∈ l -> n ∈ g x -> n ∈ g y -> x = y) -> NoDup (l ≫= g).
Proof.
  intros Hl Hg Hd. induction Hl as [|x l Hx Hl IH]; [constructor|]. cbn. apply NoDup_app. split_and!; [done| |].
  - intros n Hn (y & Hy & Hin)%list_elem_of_bind. assert (x = y) as -> by (apply (Hd x y n); [left|by right|done|done]). done.
  - apply IH. intros y z n Hy Hz. apply Hd; by right.
Qed.

Lemma interested_distinct c e : index_ok c -> NoDup (interested c e).
Proof.
  intros Hix. unfold interested. pose proof (trigger_values_distinct e) as Hd. destruct (triggerValues e) as [values supported]. cbn in Hd.
  assert (forall s, NoDup (order s)) as Ho by (intros s; rewrite Horder; apply NoDup_elements).
  assert (forall v v' n, n ∈ default ∅ (valueWatchers c !! v) -> n ∈ default ∅ (valueWatchers c !! v') -> v = v') as Hv.
  { intros v v' n Hn Hn'. destruct (valueWatchers c !! v) as [ns|] eqn:E; [|set_solver]. destruct (valueWatchers c !! v') as [ns'|] eqn:E'; [|set_solver].
    destruct (ix_values _ Hix v ns n E Hn) as (w & Hw & Ht). destruct (ix_values _ Hix v' ns' n E' Hn') as (w' & Hw' & Ht'). pose proof (registered_unique _ _ _ _ Hw Hw'). congruence. }
  assert (forall v n, n ∈ allWatchers c -> n ∈ default ∅ (valueWatchers c !! v) -> False) as Hall.
  { intros v n Hn Hn'. destruct (valueWatchers c !! v) as [ns|] eqn:E; [|set_solver]. destruct (ix_values _ Hix v ns n E Hn') as (w & Hw & Ht). destruct (ix_all _ Hix n Hn) as (w' & Hw' & Ht').
    pose proof (registered_unique _ _ _ _ Hw Hw'). congruence. }
  apply NoDup_app. split; [apply Ho|]. split.
  - intros n Hn%elem_of_order. destruct supported; intros (x & Hx & Hin)%list_elem_of_bind; apply elem_of_order in Hx; [by apply (Hall x n)|].
    apply list_elem_of_fmap in Hin as ([v ns] & -> & Hin). rewrite Hrange, elem_of_map_to_list in Hin. apply (Hall v n Hn). by rewrite Hin.
  - destruct supported.
    + apply bind_nodup; [done|intros x; apply Ho|]. intros x y n _ _ Hx%elem_of_order Hy%elem_of_order. by apply (Hv x y n).
    + assert (forall l : list (string * gset nat), l.*2 ≫= order = l ≫= (fun p => order p.2)) as -> by (intros l; induction l as [|p l IH]; [done|]; cbn; by f_equal).
      apply bind_nodup; [rewrite Hrange; apply NoDup_map_to_list|intros x; apply Ho|].
      intros [x nx] [y ny] n Hx Hy Hnx%elem_of_order Hny%elem_of_order. rewrite Hrange, elem_of_map_to_list in Hx, Hy.
      assert (x = y) as -> by (apply (Hv x y n); [by rewrite Hx|by rewrite Hy]). congruence.
Qed.

(** ** Stopping watchers *)

Lemma forget_same c n t : let c' := forgetWatcher c n t in
  c_watchCache c' = c_watchCache c ∧ incoming c' = incoming c ∧ watcherIdx c' = watcherIdx c ∧ c_dispatch c' = c_dispatch c ∧
  (forall m, m <> n -> watcher_objs c' !! m = watcher_objs c !! m) ∧ (is_Some (watcher_objs c' !! n) -> is_Some (watcher_objs c !! n)) ∧ (is_Some (c_dispatch c) -> watcher_objs c' = watcher_objs c).
Proof.
  unfold forgetWatcher, stopWatcherThreadUnsafe. destruct t as [v|]; cbn zeta; case_bool_decide; cbn; try done; destruct (c_dispatch c) eqn:E; cbn; try done.
  - split_and!; try done; [intros m Hm; by apply lookup_alter_ne|rewrite lookup_alter_eq; by destruct (watcher_objs c !! n)].
  - split_and!; try done; [intros m Hm; by apply lookup_alter_ne|rewrite lookup_alter_eq; by destruct (watcher_objs c !! n)].
Qed.

Lemma stop_index c n : allWatchers (stopWatcherThreadUnsafe c n) = allWatchers c ∧ valueWatchers (stopWatcherThreadUnsafe c n) = valueWatchers c.
Proof. unfold stopWatcherThreadUnsafe. by destruct (c_dispatch c). Qed.

Lemma forget_index c n t : let c' := forgetWatcher c n t in
  (forall m, m ∈ allWatchers c' <-> m ∈ allWatchers c ∧ (t = None -> m <> n)) ∧
  (forall v m, m ∈ default ∅ (valueWatchers c' !! v) <-> m ∈ default ∅ (valueWatchers c !! v) ∧ (t = Some v -> m <> n)).
Proof.
  unfold forgetWatcher. destruct t as [u|]; cbn zeta; case_bool_decide as Hin.
  - rewrite (proj1 (stop_index _ _)), (proj2 (stop_index _ _)). cbn. split; [intros m; split; [done|by intros [? _]]|]. intros v m. destruct (decide (u = v)) as [->|Hne].
    + case_bool_decide as He; rewrite ?lookup_delete_eq, ?lookup_insert_eq; cbn.
      * split; [by intros ?%elem_of_empty|]. intros [Hm Hmn]. rewrite <- He. apply elem_of_difference. rewrite elem_of_singleton. by split; [|apply Hmn].
      * rewrite elem_of_difference, elem_of_singleton. split; [by intros [? ?]|]. intros [? Hmn]. by split; [|apply Hmn].
    + case_bool_decide as He; rewrite ?lookup_delete_ne, ?lookup_insert_ne by done; (split; [|by intros [? _]]; intros ?; split; [done|]; congruence).
  - cbn. split; [intros m; split; [done|by intros [? _]]|]. intros v m. destruct (decide (u = v)) as [->|Hne].
    + case_bool_decide as He; [rewrite lookup_delete_eq, He; cbn; split; [by intros ?%elem_of_empty|by intros [?%elem_of_empty _]]|].
      split; [|by intros [? _]]. intros Hm. split; [done|]. intros _ ->. done.
    + case_bool_decide as He; rewrite ?lookup_delete_ne by done; (split; [|by intros [? _]]; intros ?; split; [done|]; congruence).
  - rewrite (proj1 (stop_index _ _)), (proj2 (stop_index _ _)). cbn. split.
    + intros m. rewrite elem_of_difference, elem_of_singleton. split; [by intros [? ?]|]. intros [? Hmn]. by split; [|apply Hmn].
    + intros v m. split; [done|by intros [? _]].
  - split; [|intros v m; split; [done|by intros [? _]]]. intros m. split; [|by intros [? _]]. intros Hm. split; [done|]. intros _ ->. done.
Qed.

Lemma forget_trigger c n w w' : watcher_objs c !! n = Some w -> watcher_objs (forgetWatcher c n (cw_trigger w)) !! n = Some w' -> cw_trigger w' = cw_trigger w.
Proof.
  intros Hw. unfold forgetWatcher, stopWatcherThreadUnsafe. destruct (cw_trigger w) eqn:Et; cbn zeta; case_bool_decide; cbn; try (intros; congruence);
    destruct (c_dispatch c); cbn; try (intros; congruence); rewrite lookup_alter_eq, Hw; intros [= <-]; done.
Qed.

(** A forgotten watcher is no longer indexed, the others are. *)
Lemma forget_registered c n w m w' : watcher_objs c !! n = Some w -> registered (forgetWatcher c n (cw_trigger w)) m w' <-> registered c m w' ∧ (m <> n).
Proof.
  intros Hw. destruct (forget_same c n (cw_trigger w)) as (_ & _ & _ & _ & Hsame & _ & _). destruct (forget_index c n (cw_trigger w)) as [Hall Hval]. unfold registered.
  destruct (decide (m = n)) as [->|Hne].
  - split; [|by intros [_ []]]. intros [Hw' Hin]. exfalso. rewrite (forget_trigger c n w w' Hw Hw') in Hin. destruct (cw_trigger w) as [u|].
    + apply Hval in Hin as [_ Hin]. by apply Hin.
    + apply Hall in Hin as [_ Hin]. by apply Hin.
  - rewrite Hsame by done. destruct (cw_trigger w') as [u|].
    + rewrite Hval. split; [by intros (? & ? & _)|]. intros [[? ?] _]. by split_and!.
    + rewrite Hall. split; [by intros (? & ? & _)|]. intros [[? ?] _]. by split_and!.
Qed.

Lemma forget_stops c n w m : m ∈ watchersToStop (forgetWatcher c n (cw_trigger w)) -> m ∈ watchersToStop c ∨ m = n.
Proof.
  unfold forgetWatcher, stopWatcherThreadUnsafe. destruct (cw_trigger w); cbn zeta; case_bool_decide; cbn; try (intros ?; by left); destruct (c_dispatch c); cbn; try (intros ?; by left); rewrite elem_of_app, list_elem_of_singleton; done.
Qed.

Lemma forget_index_ok c n w : index_ok c -> watcher_objs c !! n = Some w -> index_ok (forgetWatcher c n (cw_trigger w)).
Proof.
  intros Hix Hw. destruct (forget_same c n (cw_trigger w)) as (_ & _ & Hidx & Hd & Hsame & Hn & Hobjs). destruct (forget_index c n (cw_trigger w)) as [Hall Hval].
  pose proof (fun m w' => forget_registered c n w m w' Hw) as Hreg. split.
  - intros m [Hm Hne]%Hall. destruct (ix_all _ Hix m Hm) as (w' & Hw' & Ht). exists w'. split; [|done]. apply Hreg. split; [done|]. intros ->. apply Hne; [|done]. destruct Hw' as [? _]. congruence.
  - intros v ns m Hv Hm. assert (m ∈ default ∅ (valueWatchers (forgetWatcher c n (cw_trigger w)) !! v)) as [Hin Hne]%Hval by (by rewrite Hv).
    destruct (valueWatchers c !! v) as [ns'|] eqn:E; [|by apply elem_of_empty in Hin]. destruct (ix_values _ Hix v ns' m E Hin) as (w' & Hw' & Ht). exists w'. split; [|done].
    apply Hreg. split; [done|]. intros ->. apply Hne; [|done]. destruct Hw' as [? _]. congruence.
  - intros m w' [Hw' _]%Hreg. by apply (ix_open _ Hix m).
  - intros m Hm. rewrite Hidx. apply (ix_fresh _ Hix). destruct (decide (m = n)) as [->|Hne]; [by apply Hn|by rewrite Hsame in Hm].
  - intros m w' [Hm| ->]%forget_stops; rewrite Hidx, Hreg.
    + destruct (ix_stop _ Hix m w' Hm) as [? Hno]. split; [done|]. by intros [? _].
    + split; [apply (ix_fresh _ Hix); by rewrite Hw|]. by intros [_ ?].
  - intros e rest He. rewrite Hd in He. destruct (ix_rest _ Hix e rest He) as [Hnd Hrest]. split; [done|]. rewrite Hobjs by (by rewrite He). done.
Qed.

(** ** Each step *)

Lemma follows_same c c' hist n w rv : listResourceVersion (c_watchCache c') = listResourceVersion (c_watchCache c) -> wc_resourceVersion (c_watchCache c') = wc_resourceVersion (c_watchCache c) ->
  current c' n = current c n -> incoming c' = incoming c -> follows_from c hist n w rv -> follows_from c' hist n w rv.
Proof. intros Hl Hv Hc Hi [H1 Hz H2 H3 H4]. split; [by rewrite Hl, Hv|done|done|done|by rewrite Hc, Hi]. Qed.

(** Steps of watchers and of the dispatch. *)
Lemma inv_watchers ph c c' base hist start : inv (mkRun ph c base hist start) -> c_watchCache c' = c_watchCache c -> incoming c' = incoming c ->
  (forall e rest', c_dispatch c' = Some (e, rest') -> ∃ rest, c_dispatch c = Some (e, rest)) -> index_ok c' ->
  (forall n w, registered c' n w -> ∃ w0, registered c n w0 ∧ forall rv, follows_from c hist n w0 rv -> follows_from c' hist n w rv) -> inv (mkRun ph c' base hist start).
Proof.
  intros [Hb Hs Hw Hh [Hg Hcur] He Hix Hst] Hc Hi Hd Hix' Hreg. cbn [rs_c rs_phase rs_base rs_hist rs_start] in *. assert (forall e, event_good c e -> event_good c' e) as Hgood by (intros e; unfold event_good; by rewrite Hc).
  split; cbn [rs_c rs_phase rs_base rs_hist rs_start]; rewrite ?Hc; try done.
  - intros Hp. destruct (Hw Hp) as (old & k & ? & ?). exists old, k. by rewrite Hi, Hc.
  - eapply Forall_impl; [exact Hh|done].
  - rewrite Hi. split; [eapply Forall_impl; [exact Hg|done]|]. intros e rest' H'. destruct (Hd e rest' H') as [rest H]. by eapply Hgood, Hcur.
  - intros n w [w0 [Hr0 Hf]]%Hreg. destruct (Hst n w0 Hr0) as (Hp & rv & Hrv & Hff). split; [done|]. exists rv. split; [done|]. by apply Hf.
Qed.

(** One watcher changes its channels. *)
Section Update.
Context (c c' : Cacher) (n0 : nat) (w0 w0' : cacheWatcher).
Hypothesis Hw0 : watcher_objs c !! n0 = Some w0.
Hypothesis Hsame : cw_trigger w0' = cw_trigger w0 ∧ cw_stopped w0' = cw_stopped w0.
Hypothesis Hobjs : watcher_objs c' = <[n0 := w0']> (watcher_objs c).
Hypothesis Hrest : allWatchers c' = allWatchers c ∧ valueWatchers c' = valueWatchers c ∧ watchersToStop c' = watchersToStop c ∧ watcherIdx c' = watcherIdx c.
Hypothesis Hdisp : forall e rest', c_dispatch c' = Some (e, rest') -> ∃ rest, c_dispatch c = Some (e, rest) ∧ (NoDup rest -> NoDup rest') ∧ forall n, n ∈ rest' -> n ∈ rest.

Lemma registered_update n w : registered c' n w <-> n = n0 ∧ w = w0' ∧ registered c n0 w0 ∨ n <> n0 ∧ registered c n w.
Proof.
  destruct Hrest as (Ha & Hv & _ & _), Hsame as [Ht _]. unfold registered. rewrite Hobjs, Ha, Hv. destruct (decide (n = n0)) as [->|Hne].
  - rewrite lookup_insert_eq. split; [|by intros [(_ & -> & _ & ?)|[? _]]; [by rewrite Ht|done]]. intros [[= <-] Hin]. left. rewrite Ht in Hin. by split_and!.
  - rewrite lookup_insert_ne by done. split; [by right|]. by intros [[? _]|[_ ?]].
Qed.

Lemma index_update : index_ok c -> index_ok c'.
Proof.
  intros Hix. destruct Hrest as (Ha & Hv & Hts & Hidx), Hsame as [Ht Hstop]. assert (forall n w, registered c n w -> ∃ w', registered c' n w' ∧ cw_trigger w' = cw_trigger w) as Hreg.
  { intros n w Hr. destruct (decide (n = n0)) as [->|Hne]; [|exists w; split; [|done]; apply registered_update; by right]. exists w0'. split.
    - apply registered_update. left. split_and!; [done|done|]. destruct Hr as [Hw Hr]. assert (w = w0) as -> by congruence. by split.
    - destruct Hr as [Hw _]. congruence. }
  split.
  - rewrite Ha. intros n Hn. destruct (ix_all _ Hix n Hn) as (w & Hw & Htw). destruct (Hreg n w Hw) as (w' & ? & ?). exists w'. split; [done|congruence].
  - rewrite Hv. intros v ns n Hns Hn. destruct (ix_values _ Hix v ns n Hns Hn) as (w & Hw & Htw). destruct (Hreg n w Hw) as (w' & ? & ?). exists w'. split; [done|congruence].
  - intros n w [(-> & -> & Hr)|[_ Hr]]%registered_update; [|by apply (ix_open _ Hix n)]. rewrite Hstop. by apply (ix_open _ Hix n0).
  - rewrite Hobjs, Hidx. intros n [w Hn]. apply (ix_fresh _ Hix). apply lookup_insert_Some in Hn as [[-> _]|[_ Hn]]; [by rewrite Hw0|by rewrite Hn].
  - rewrite Hts, Hidx. intros n w Hn. split; [by apply (ix_stop _ Hix n w)|]. intros [(-> & -> & Hr)|[_ Hr]]%registered_update; [by apply (ix_stop _ Hix n0 w0 Hn) in Hr|by apply (ix_stop _ Hix n w Hn) in Hr].
  - intros e rest' He. destruct (Hdisp e rest' He) as (rest & Hd & Hnd & Hsub). destruct (ix_rest _ Hix e rest Hd) as [Hnd0 Hopen]. split; [by apply Hnd|]. intros n Hn. rewrite Hobjs.
    destruct (Hopen n (Hsub n Hn)) as (w & Hw & Hs). destruct (decide (n = n0)) as [->|Hne]; [|rewrite lookup_insert_ne by done; by exists w]. rewrite lookup_insert_eq. exists w0'. split; [done|congruence].
Qed.
End Update.

Lemma inv_deliver ph c base hist start timed_out c' : inv (mkRun ph c base hist start) -> deliver timed_out c = Some c' -> inv (mkRun ph c' base hist start).
Proof.
  intros Hinv. unfold deliver. destruct (c_dispatch c) as [[e [|n0 rest]]|] eqn:Hd; [by intros [= <-]| |by intros [= <-]].
  pose proof (in_index _ Hinv) as Hix. cbn in Hix. destruct (ix_rest _ Hix _ _ Hd) as [Hnd Hopen]. destruct (Hopen n0 ltac:(left)) as (w0 & Hw0 & Hstop). rewrite Hw0. bind_simpl. rewrite Hstop.
  apply NoDup_cons in Hnd as [Hn0 Hnd].
  destruct (Nat.ltb _ _); [|destruct timed_out; [|by intros [= <-]]]; intros [= <-].
  - set (w0' := set_channels w0 _ _ _). set (c' := set_dispatch _ _ _ _ _).
    assert (forall e0 rest', c_dispatch c' = Some (e0, rest') -> ∃ rest0, c_dispatch c = Some (e0, rest0) ∧ (NoDup rest0 -> NoDup rest') ∧ forall n, n ∈ rest' -> n ∈ rest0) as Hdisp.
    { intros e0 rest' [= <- <-]. exists (n0 :: rest). split_and!; [done|by intros [_ ?]%NoDup_cons|by right]. }
    pose proof (registered_update c c' n0 w0 w0' Hw0 (conj eq_refl eq_refl) eq_refl (conj eq_refl (conj eq_refl (conj eq_refl eq_refl)))) as Hreg.
    apply (inv_watchers ph c c'); [done|done|done|intros e0 rest' H'; destruct (Hdisp e0 rest' H') as (r & ? & _); by exists r| |].
    + by apply (index_update c c' n0 w0 w0').
    + intros n w [(-> & -> & Hr)|[Hne Hr]]%Hreg.
      * exists w0. split; [done|]. intros rv [H1 Hz H2 H3 (init & Hi & Heq)]. split; [done|done| |done|].
        { apply Forall_app. split; [done|]. constructor; [|done]. by destruct (proj2 (in_good _ Hinv) e _ Hd) as (_ & ? & _). }
        exists init. split; [done|]. refine (eq_trans _ Heq). assert (cw_input w0' ++ current c' n0 ++ incoming c' = cw_input w0 ++ current c n0 ++ incoming c) as ->; [|done].
        unfold current. rewrite Hd. cbn [c_dispatch c' set_dispatch]. rewrite decide_False by done. rewrite decide_True by (by left).
        change (incoming c') with (incoming c). change (cw_input w0') with (cw_input w0 ++ [e]). by rewrite <- app_assoc.
      * exists w. split; [done|]. intros rv. apply follows_same; try done. unfold current. rewrite Hd. cbn [c_dispatch c' set_dispatch]. destruct (decide (n ∈ rest)), (decide (n ∈ n0 :: rest)) as [Hin|Hin]; try done.
        { exfalso. apply Hin. by right. } { apply elem_of_cons in Hin as [->|?]; done. }
  - set (c1 := set_dispatch _ _ _ _ _). assert (index_ok c1) as Hix1.
    { destruct Hix. split; try done. intros e0 rest' [= <- <-]. split; [done|]. intros n Hn. apply Hopen. by right. }
    destruct (forget_same c1 n0 (cw_trigger w0)) as (F1 & F2 & F3 & F4 & _).
    apply (inv_watchers ph c); [done|done|done|intros e0 rest' H'; rewrite F4 in H'; injection H' as <- <-; by exists (n0 :: rest)|by apply forget_index_ok|].
    intros n w Hr%forget_registered; [|done]. destruct Hr as [Hr Hne]. exists w. split; [done|]. intros rv. apply follows_same; [by rewrite F1|by rewrite F1| |by rewrite F2].
    unfold current. rewrite F4, Hd. cbn [c_dispatch c1 set_dispatch]. destruct (decide (n ∈ rest)), (decide (n ∈ n0 :: rest)) as [Hin|Hin]; try done.
    { exfalso. apply Hin. by right. } { apply elem_of_cons in Hin as [->|?]; done. }
Qed.

Lemma converted_app w l l' : converted w (l ++ l') = converted w l ++ converted w l'.
Proof. apply omap_app. Qed.

Lemma newer_app w l l' : newer w (l ++ l') = newer w l ++ newer w l'.
Proof. apply filter_app. Qed.

Lemma send_converted w e : cw_stopped w = false -> sendWatchCacheEvent w e = cw_result w ++ converted w [e].
Proof. intros Hs. unfold sendWatchCacheEvent, converted. cbn. destruct (convertToWatchEvent _ _); [by rewrite Hs|by rewrite app_nil_r]. Qed.

Lemma turn_same w w' : process_turn w = Some w' -> cw_trigger w' = cw_trigger w ∧ cw_stopped w' = cw_stopped w ∧ cw_filter w' = cw_filter w ∧ cw_version w' = cw_version w ∧ cw_size w' = cw_size w.
Proof. unfold process_turn. destruct (cw_init w) as [|[e|] ?]; [destruct (cw_input w)| |done]; by intros [= <-]. Qed.

(** A turn passes on the next event that is to be sent. *)
Lemma turn_follows c hist n w w' rv c' : cw_stopped w = false -> process_turn w = Some w' -> c_watchCache c' = c_watchCache c -> incoming c' = incoming c -> current c' n = current c n ->
  follows_from c hist n w rv -> follows_from c' hist n w' rv.
Proof.
  intros Hopen Hturn Hc Hi Hcur [H1 Hz H2 H3 (init & Hinit & Heq)]. destruct (turn_same w w' Hturn) as (Ht & Hs & Hf & Hv & Hsz).
  assert (∃ init', cw_init w' = Some <$> init' ∧ Forall (fun e : wevent => P (ce_Version e)) (cw_input w') ∧
    forall tl, cw_result w' ++ converted w (init' ++ newer w (cw_input w' ++ tl)) = cw_result w ++ converted w (init ++ newer w (cw_input w ++ tl))) as (init' & Hi' & Hin' & Htl).
  { unfold process_turn in Hturn. rewrite Hinit in Hturn. destruct init as [|e init]; cbn [fmap list_fmap] in Hturn.
    - destruct (cw_input w) as [|e input] eqn:Ein; injection Hturn as <-; [exists []; by rewrite Ein|]. exists []. cbn [cw_input cw_init cw_result set_channels]. apply Forall_cons in H2 as [HPe H2].
      split_and!; [done|done|]. intros tl. cbn [app]. unfold newer. rewrite filter_cons. rewrite (newer_of_one_source P _ _ Hone HPe (proj1 H1)).
      destruct (Z.ltb_spec (cw_version w) (ce_Version e)); [rewrite decide_True by done|by rewrite decide_False by lia]. rewrite send_converted by done.
      rewrite <- app_assoc. f_equal. exact (eq_sym (converted_app w [e] _)).
    - injection Hturn as <-. exists init. cbn [cw_input cw_init cw_result set_channels]. split_and!; [done|done|]. intros tl. rewrite send_converted by done.
      rewrite <- app_assoc. f_equal. exact (eq_sym (converted_app w [e] _)). }
  split; [by rewrite Hv, Hc|by rewrite Hsz|done|by rewrite Ht, Hf|]. exists init'. split; [done|]. unfold converted, newer in *. rewrite Hf, Hv, Hi, Hcur. by rewrite Htl.
Qed.

Lemma inv_turn ph c base hist start n w w' : inv (mkRun ph c base hist start) -> watcher_objs c !! n = Some w -> process_turn w = Some w' ->
  inv (mkRun ph (set_watchers c (<[n := w']> (watcher_objs c)) (allWatchers c) (valueWatchers c) (watchersToStop c)) base hist start).
Proof.
  intros Hinv Hw Hturn. destruct (turn_same w w' Hturn) as (Ht & Hs & _ & _). set (c' := set_watchers _ _ _ _ _). pose proof (in_index _ Hinv) as Hix. cbn in Hix.
  apply (inv_watchers ph c c'); [done|done|done|intros e rest H'; by exists rest| |].
  - apply (index_update c c' n w w'); try done. intros e rest H'. by exists rest.
  - intros m u [(-> & -> & Hr)|[Hne Hr]]%(registered_update c c' n w w'); try done.
    + exists w. split; [done|]. intros rv. apply turn_follows; try done. by apply (ix_open _ Hix n).
    + exists u. split; [done|]. intros rv. by apply follows_same.
Qed.

Lemma inv_stop ph c base hist start n w : inv (mkRun ph c base hist start) -> watcher_objs c !! n = Some w -> inv (mkRun ph (forgetWatcher c n (cw_trigger w)) base hist start).
Proof.
  intros Hinv Hw. destruct (forget_same c n (cw_trigger w)) as (F1 & F2 & F3 & F4 & _). apply (inv_watchers ph c); [done|done|done|intros e rest H'; rewrite F4 in H'; by exists rest| |].
  - apply forget_index_ok; [exact (in_index _ Hinv)|done].
  - intros m u [Hr _]%forget_registered; [|done]. exists u. split; [done|]. intros rv. apply follows_same; [by rewrite F1|by rewrite F1|unfold current; by rewrite F4|done].
Qed.

Lemma stopped_all (l : list nat) : forall (os : gmap nat cacheWatcher) n, foldl (fun os number => alter stop number os) os l !! n = if decide (n ∈ l) then stop <$> os !! n else os !! n.
Proof.
  induction l as [|m l IH]; intros os n; [done|]. cbn [foldl]. rewrite IH. destruct (decide (n = m)) as [->|Hne].
  - rewrite lookup_alter_eq. rewrite (decide_True (P := m ∈ m :: l)) by (by left). destruct (decide (m ∈ l)); [|done]. by destruct (os !! m) as [[]|].
  - rewrite lookup_alter_ne by done. destruct (decide (n ∈ l)) as [Hin|Hin], (decide (n ∈ m :: l)) as [Hin'|Hin']; try done; [by destruct Hin'; right|by apply elem_of_cons in Hin' as [|]].
Qed.

Lemma inv_finish ph c base hist start : inv (mkRun ph c base hist start) -> inv (mkRun ph (finishDispatching c) base hist start).
Proof.
  intros Hinv. unfold finishDispatching. destruct (c_dispatch c) as [[e [|? ?]]|] eqn:Hd; try done. set (c' := set_dispatch _ _ _ _ _). pose proof (in_index _ Hinv) as Hix. cbn in Hix.
  assert (forall n w, registered c' n w <-> registered c n w) as Hreg.
  { intros n w. unfold registered. change (watcher_objs c') with (foldl (fun os number => alter stop number os) (watcher_objs c) (watchersToStop c)). rewrite stopped_all.
    destruct (decide (n ∈ watchersToStop c)) as [Hin|_]; [|done]. split.
    - intros [(w0 & Hw0 & ->)%fmap_Some Hr]. exfalso. apply (proj2 (ix_stop _ Hix n w0 Hin)). split; [exact Hw0|exact Hr].
    - intros Hr. exfalso. by apply (proj2 (ix_stop _ Hix n w Hin)). }
  apply (inv_watchers ph c c'); [done|done|done|done| |].
  - split.
    + intros n Hn. destruct (ix_all _ Hix n Hn) as (w & ? & ?). exists w. by rewrite Hreg.
    + intros v ns n Hv Hn. destruct (ix_values _ Hix v ns n Hv Hn) as (w & ? & ?). exists w. by rewrite Hreg.
    + intros n w Hr%Hreg. by apply (ix_open _ Hix n).
    + intros n Hn. apply (ix_fresh _ Hix). change (is_Some (foldl (fun os number => alter stop number os) (watcher_objs c) (watchersToStop c) !! n)) in Hn. rewrite stopped_all in Hn.
      destruct (decide (n ∈ watchersToStop c)); [by destruct (watcher_objs c !! n); [|destruct Hn]|done].
    + by intros n w ?%elem_of_nil.
    + done.
  - intros n w Hr%Hreg. exists w. split; [done|]. intros rv. apply follows_same; try done. unfold current. by rewrite Hd.
Qed.

Lemma inv_dispatch ph c base hist start : inv (mkRun ph c base hist start) -> inv (mkRun ph (startDispatching c) base hist start).
Proof.
  intros Hinv. unfold startDispatching. destruct (c_dispatch c) eqn:Hd; [done|]. destruct (incoming c) as [|e q] eqn:Hq; [done|]. set (c' := set_dispatch _ _ _ _ _).
  destruct Hinv as [Hb Hs Hw Hh [Hg Hcur] He Hix Hst]. cbn [rs_c rs_phase rs_base rs_hist rs_start] in *. rewrite Hq in Hg. apply Forall_cons in Hg as [Hge Hg].
  split; cbn [rs_c rs_phase rs_base rs_hist rs_start]; try done.
  - intros Hp. destruct (Hw Hp) as (old & k & Heq & Hold). rewrite Hq in Heq. destruct old as [|o old].
    + exists [], (S k). split; [|constructor]. change (S k) with (1 + k)%nat. rewrite Nat.add_comm, <- drop_drop. cbn in Heq. by rewrite <- Heq.
    + apply Forall_cons in Hold as [_ Hold]. exists old, k. split; [|done]. by injection Heq.
  - split; [done|]. intros e' rest [= <- <-]. exact Hge.
  - destruct Hix as [X1 X2 X3 X4 X5 X6]. split; try done. intros e' rest [= <- <-]. split; [by apply interested_distinct|]. intros n Hn.
    destruct (interested_registered c e n) as (w & Hr); [done|done|]. exists w. split; [by destruct Hr|by apply (X3 n)].
  - intros n w Hr. destruct (Hst n w Hr) as (Hp & rv & Hrv & [H1 Hz H2 H3 (init & Hi & Heq)]). split; [done|]. exists rv. split; [done|]. split; try done. exists init. split; [done|].
    rewrite <- Heq. f_equal. unfold current. rewrite Hd, Hq. change (incoming c') with q. change (c_dispatch c') with (Some (e, interested c e)). cbn [app]. destruct (decide _) as [Hin|Hin]; [done|].
    rewrite !converted_app, !newer_app, !converted_app. do 2 f_equal. cbn [app]. unfold newer. rewrite filter_cons. destruct (decide _); [|done].
    unfold converted. cbn [omap list_omap]. destruct (convertToWatchEvent (cw_filter w) e) eqn:Ec; [|done]. destruct Hin. apply (interested_complete c e n w Hr). apply H3; [apply Hge|by rewrite Ec].
Qed.

Lemma stop_each (l : list nat) : forall c, foldl stopWatcherThreadUnsafe c l =
  match c_dispatch c with
  | Some _ => set_watchers c (watcher_objs c) (allWatchers c) (valueWatchers c) (watchersToStop c ++ l)
  | None => set_watchers c (foldl (fun os number => alter stop number os) (watcher_objs c) l) (allWatchers c) (valueWatchers c) (watchersToStop c)
  end.
Proof.
  induction l as [|n l IH]; intros c; cbn [foldl].
  - destruct c as [? ? ? ? ? ? [?|] ?]; cbn; [by rewrite app_nil_r|done].
  - rewrite IH. unfold stopWatcherThreadUnsafe. destruct (c_dispatch c) eqn:Hd; cbn; rewrite Hd; cbn; [by rewrite <- app_assoc|done].
Qed.

Lemma indexed_fresh c n : index_ok c -> n ∈ order (allWatchers c ∪ numbers (valueWatchers c)) -> (n < watcherIdx c)%nat.
Proof.
  intros Hix Hn%elem_of_order. apply (ix_fresh _ Hix). apply elem_of_union in Hn as [Hn|Hn].
  - destruct (ix_all _ Hix n Hn) as (w & [Hw _] & _). by exists w.
  - unfold numbers in Hn. apply elem_of_union_list in Hn as (ns & Hns & Hn). apply list_elem_of_fmap in Hns as ([v ns'] & -> & Hin). apply elem_of_map_to_list in Hin.
    destruct (ix_values _ Hix v ns' n Hin Hn) as (w & [Hw _] & _). by exists w.
Qed.

Lemma inv_restart c base hist start : inv (mkRun Broken c base hist start) -> inv (mkRun Restarting (terminateAllWatchers c) base hist start).
Proof.
  intros [Hb Hs Hw Hh [Hg Hcur] He Hix Hst]. cbn [rs_c rs_phase rs_base rs_hist rs_start] in *. unfold terminateAllWatchers. pose proof (fun n => indexed_fresh c n Hix) as Hfresh. set (all := order _) in *.
  rewrite stop_each. cbn [c_dispatch set_watchers watcher_objs allWatchers valueWatchers watchersToStop].
  assert (forall c', allWatchers c' = ∅ -> valueWatchers c' = ∅ -> forall n w, ~ registered c' n w) as Hno.
  { intros c' Ha Hv n w [_ Hr]. rewrite Ha, Hv in Hr. destruct (cw_trigger w); [rewrite lookup_empty in Hr|]; by apply elem_of_empty in Hr. }
  destruct Hix as [X1 X2 X3 X4 X5 X6]. destruct (c_dispatch c) as [[e rest]|] eqn:Hd; split; cbn [rs_c rs_phase rs_base rs_hist rs_start]; try done.
  - split; [done|]. intros e' rest' H. cbn in H. rewrite Hd in H. by eapply Hcur.
  - split; cbn; try done.
    + by intros n w Hr%Hno.
    + intros n w Hn. split; [|by apply Hno]. apply elem_of_app in Hn as [Hn|Hn]; [by apply (X5 n w)|by apply Hfresh].
    + rewrite Hd. intros e' rest' [= <- <-]. by apply X6 with e.
  - by intros n w ?%Hno.
  - split; [done|]. intros e' rest' H. cbn in H. by rewrite Hd in H.
  - split; cbn; try done.
    + by intros n w Hr%Hno.
    + intros n Hn. rewrite stopped_all in Hn. apply X4. destruct (decide (n ∈ all)); [by destruct (watcher_objs c !! n); [|destruct Hn]|done].
    + intros n w Hn. split; [by apply (X5 n w)|by apply Hno].
    + by rewrite Hd.
  - by intros n w ?%Hno.
Qed.

Lemma listed_elem_ok objs : forall l, store_elements keyFunc getAttrs objs = Ok l -> Forall elem_ok l.
Proof.
  induction objs as [|o objs IH]; intros l; cbn; [intros [= <-]; constructor|]. destruct (keyFunc o) eqn:Ek; [|done]. destruct (getAttrs o) as [[ls fs]|] eqn:Ea; [|done].
  destruct (store_elements _ _ _) as [l'|]; [|done]. intros [= <-]. constructor; [exact (conj Ek Ea)|by apply IH].
Qed.

Lemma inserted_elem_ok l : Forall elem_ok l -> forall m : gmap string welem, map_Forall (fun (_ : string) => elem_ok) m -> map_Forall (fun (_ : string) => elem_ok) (foldl (fun m elem => <[el_Key elem := elem]> m) m l).
Proof. induction 1 as [|el l Hel Hl IH]; intros m Hm; [done|]. cbn. apply IH. by apply map_Forall_insert_2. Qed.

Lemma inv_relist c base hist start objs elems version c' : wc_resourceVersion (c_watchCache c) <= version -> 0 < version < 2 ^ 64 -> P version ->
  store_elements keyFunc getAttrs objs = Ok elems -> c_replace c objs version = Some (Ok c') -> inv (mkRun Restarting c base hist start) ->
  inv (mkRun Serving c' (foldl (fun m elem => <[el_Key elem := elem]> m) ∅ elems) [] start).
Proof.
  intros Hv Hv' HP Hel Hrun [(Hb1 & Hb2 & Hb3) Hs Hw Hh [Hg Hcur] He Hix Hst]. cbn [rs_c rs_phase rs_base rs_hist rs_start] in *.
  unfold c_replace in Hrun. destruct (Replace_ok range keyFunc getAttrs Hrange (c_watchCache c) objs elems version Hb1 Hb2 Hb3 Hv' Hel) as (w' & Hw' & Hserves & Hcap & Hl & Hr).
  rewrite Hw' in Hrun. bind_simpl in Hrun. injection Hrun as <-.
  assert (forall e, event_good c e -> event_good (set_cache c w' (incoming c)) e) as Hgood by (intros e (? & ? & ?); split_and!; [done|done|]; cbn; lia).
  split; cbn [rs_c rs_phase rs_base rs_hist rs_start c_watchCache set_cache incoming c_dispatch]; try done.
  - pose proof (sv_window _ _ _ Hserves) as [? ? _ _ _]. pose proof (sv_indexers _ _ _ Hserves). by split_and!.
  - intros _. exists (incoming c), O. split; [by rewrite drop_nil, app_nil_r|]. cbn. rewrite Hl. eapply Forall_impl; [exact Hg|]. intros e (_ & _ & ?). cbn. lia.
  - split; [eapply Forall_impl; [exact Hg|exact Hgood]|]. intros e rest Hd. by eapply Hgood, Hcur.
  - rewrite (sv_store _ _ _ Hserves). cbn. apply inserted_elem_ok; [by eapply listed_elem_ok|done].
  - by destruct Hix; split.
  - intros n w Hr'. exfalso. by apply (proj1 (Hst n w Hr')).
Qed.

Lemma follows_change c c' hist n w rv e : c_dispatch c' = c_dispatch c -> incoming c' = incoming c ++ [e] -> listResourceVersion (c_watchCache c') = listResourceVersion (c_watchCache c) ->
  wc_resourceVersion (c_watchCache c) < ce_Version e -> wc_resourceVersion (c_watchCache c') = ce_Version e -> follows_from c hist n w rv -> follows_from c' (hist ++ [e]) n w rv.
Proof.
  intros Hd Hi Hl Hlt Hv [(H0 & H1 & H1') Hz H2 H3 (init & Hinit & Heq)]. split; [split_and!; [done|by rewrite Hl|]; destruct H1' as [?|?]; [by left|right; rewrite Hv; lia]|done|done|done|].
  exists init. split; [done|]. unfold current. rewrite Hd, Hi, filter_app, (converted_app w (filter _ hist)), <- Heq. fold (current c n). rewrite !app_assoc. rewrite newer_app, app_assoc, converted_app, !app_assoc. f_equal.
  unfold newer. rewrite !filter_cons, !filter_nil. destruct (decide (cw_version w < ce_Version e)), (decide (rv < ce_Version e)); try done; lia.
Qed.

Lemma inv_change c base hist start t o rv w' e : is_change t -> wc_resourceVersion (c_watchCache c) < rv < 2 ^ 64 -> P rv -> wc_processEvent range keyFunc getAttrs (c_watchCache c) t o rv = Some (Ok (w', e)) ->
  inv (mkRun Serving c base hist start) -> inv (mkRun Serving (set_cache c w' (incoming c ++ [e])) base (hist ++ [e]) start).
Proof.
  intros Ht Hrv HP Hrun [Hb Hs Hw Hh [Hg Hcur] He Hix Hst]. cbn [rs_c rs_phase rs_base rs_hist rs_start] in *. specialize (Hs ltac:(done)). specialize (Hw ltac:(done)).
  assert (∃ key ls fs, keyFunc o = Ok key ∧ getAttrs o = Ok (ls, fs)) as (key & ls & fs & Hk & Ha).
  { unfold wc_processEvent in Hrun. destruct (keyFunc o) as [key|]; [|done]. destruct (getAttrs o) as [[ls fs]|]; [|done]. by exists key, ls, fs. }
  destruct (processEvent_ok range keyFunc getAttrs Hrange (c_watchCache c) base hist t o rv key ls fs Hs Ht Hrv Hk Ha) as (w1 & Hrun' & Hs' & Hcap & Hl & Hv).
  rewrite Hrun' in Hrun. injection Hrun as <- <-. set (e := mkCacheEvent _ _ _ _ _ _ _) in *. set (c' := set_cache c w1 _).
  assert (event_ok e) as Hok. { split; [exact (conj Hk Ha)|]. intros o' ls' fs'. cbn. rewrite <- (sv_store _ _ _ Hs). destruct (store_items _ !! key) as [el|] eqn:El; [|done]. intros [= <- <- <-]. assert (el_Key el = key) as <- by (apply (well_keyed_history base hist (sv_keyed _ _ _ Hs)); by rewrite <- (sv_store _ _ _ Hs)). by apply (He (el_Key el) el). }
  assert (forall e', event_good c e' -> event_good c' e') as Hgood by (intros e' (? & ? & ?); split_and!; [done|done|]; cbn; lia). assert (event_good c' e) as Hge by (split_and!; [done|done|]; cbn; lia).
  split; cbn [rs_c rs_phase rs_base rs_hist rs_start c_watchCache c' set_cache incoming c_dispatch]; try done.
  - pose proof (sv_window _ _ _ Hs') as [? ? _ _ _]. pose proof (sv_indexers _ _ _ Hs'). by split_and!.
  - intros _. destruct Hw as (old & k & Heq & Hold). exists old, (k `min` length hist)%nat. cbn. rewrite Heq, Hl. split; [|done]. rewrite drop_app_le by lia. rewrite app_assoc. do 2 f_equal.
    destruct (decide (k <= length hist)%nat); [by rewrite Nat.min_l|]. rewrite Nat.min_r by lia. by rewrite !drop_ge by lia.
  - apply Forall_app. split; [eapply Forall_impl; [exact Hh|exact Hgood]|by constructor].
  - split; [apply Forall_app; split; [eapply Forall_impl; [exact Hg|exact Hgood]|by constructor]|]. intros e' rest Hd. by eapply Hgood, Hcur.
  - rewrite (sv_store _ _ _ Hs'), foldl_app, <- (sv_store _ _ _ Hs). cbn. unfold apply_event. destruct (ce_Type e); try (apply map_Forall_insert_2; [exact (conj Hk Ha)|done]). by apply map_Forall_delete.
  - by destruct Hix; split.
  - intros n w Hr. destruct (Hst n w Hr) as (_ & rv0 & Hrv0 & Hf). split; [done|]. exists rv0. split; [done|]. apply (follows_change c); try done. cbn. lia.
Qed.

Lemma horizon_listed w base (hist : list wevent) : serves w base hist -> listResourceVersion w <= horizon w hist.
Proof.
  intros Hs. unfold horizon. destruct (last_events (wc_capacity w) hist) as [|e l] eqn:El; [done|]. destruct (Nat.leb _ _); [|done].
  assert (e ∈ hist) as Hin. { apply (list_elem_of_lookup_2 _ (length hist - wc_capacity w + 0)). rewrite <- lookup_drop. unfold last_events in El. by rewrite El. }
  pose proof (versions_positive _ _ _ Hs e Hin). lia.
Qed.

(** No event of the history is newer than the version that a new watcher starts from. *)
Lemma start_version w base (hist : list wevent) rv : serves w base hist -> let init := filter (fun e : wevent => rv < ce_Version e) hist in
  let version := match last (Some <$> init) with Some (Some e) => ce_Version e | _ => rv end in
  rv <= version ∧ (version = rv ∨ ∃ e, e ∈ hist ∧ version = ce_Version e ∧ rv < ce_Version e) ∧ forall e, e ∈ hist -> ce_Version e <= version.
Proof.
  intros Hs init version. destruct (last init) as [el|] eqn:El.
  - assert (version = ce_Version el) as Hver by (unfold version; by rewrite fmap_last, El). apply last_Some in El as [l' El].
    assert (el ∈ init) as Hin by (rewrite El; apply elem_of_app; right; by left). apply list_elem_of_filter in Hin as [Hlt Hin]. rewrite Hver. split; [lia|]. split; [right; by exists el|].
    intros e Hine. destruct (decide (rv < ce_Version e)) as [Hlte|]; [|lia]. assert (e ∈ init) as Hei by (by apply list_elem_of_filter).
    assert (StronglySorted Z.lt (ce_Version <$> init)) as Hsort.
    { destruct (StronglySorted_inv (sv_sorted _ _ _ Hs)) as [Hso _]. unfold init. clear -Hso. induction hist as [|a h IH]; [constructor|]. cbn in Hso. apply StronglySorted_inv in Hso as [Hso Ha].
      rewrite filter_cons. destruct (decide _); [|by apply IH]. cbn. constructor; [by apply IH|]. rewrite Forall_fmap, Forall_forall in Ha |- *. intros x [_ Hx]%list_elem_of_filter. by apply Ha. }
    apply (sorted_last_max (ce_Version <$> init)); [done| |by apply list_elem_of_fmap_2]. rewrite El, fmap_app. apply last_snoc.
  - assert (version = rv) as -> by (unfold version; by rewrite fmap_last, El). split; [lia|]. split; [by left|]. intros e Hin. apply last_None in El. destruct (decide (rv < ce_Version e)); [|lia].
    assert (e ∈ init) as Hi by (by apply list_elem_of_filter). rewrite El in Hi. by apply elem_of_nil in Hi.
Qed.

(** A new watcher is registered, the others stay. *)
Lemma add_registered c w n u : index_ok c -> registered (addWatcher c w) n u <-> n = watcherIdx c ∧ u = w ∨ n <> watcherIdx c ∧ registered c n u.
Proof.
  intros Hix. assert (watcher_objs c !! watcherIdx c = None) as Hfresh. { destruct (watcher_objs c !! watcherIdx c) eqn:E; [|done]. pose proof (ix_fresh _ Hix (watcherIdx c) ltac:(by rewrite E)). lia. }
  unfold registered. cbn. destruct (decide (n = watcherIdx c)) as [->|Hne].
  - rewrite lookup_insert_eq. split; [intros [[= <-] _]; by left|]. intros [[_ ->]|[? _]]; [|done]. split; [done|]. destruct (cw_trigger w) as [v|]; [rewrite lookup_insert_eq; cbn|]; apply elem_of_union; left; by apply elem_of_singleton.
  - rewrite lookup_insert_ne by done. split.
    + intros [Hu Hr]. right. split; [done|]. split; [done|]. destruct (cw_trigger u) as [v|], (cw_trigger w) as [v'|]; try done.
      * destruct (decide (v' = v)) as [->|]; [rewrite lookup_insert_eq in Hr; cbn in Hr; apply elem_of_union in Hr as [Hr|Hr]; [by apply elem_of_singleton in Hr|done]|by rewrite lookup_insert_ne in Hr].
      * apply elem_of_union in Hr as [Hr|Hr]; [by apply elem_of_singleton in Hr|done].
    + intros [[? _]|[_ [Hu Hr]]]; [done|]. split; [done|]. destruct (cw_trigger u) as [v|], (cw_trigger w) as [v'|]; try done.
      * destruct (decide (v' = v)) as [->|]; [rewrite lookup_insert_eq; cbn; apply elem_of_union; by right|by rewrite lookup_insert_ne].
      * apply elem_of_union. by right.
Qed.

Lemma add_index_ok c w : index_ok c -> cw_stopped w = false -> index_ok (addWatcher c w).
Proof.
  intros Hix Hopen. pose proof (fun n u => add_registered c w n u Hix) as Hreg. assert (forall n u, registered c n u -> registered (addWatcher c w) n u) as Hold.
  { intros n u Hr. apply Hreg. right. split; [|done]. intros ->. pose proof (ix_fresh _ Hix (watcherIdx c)) as Hf. destruct Hr as [Hr _]. rewrite Hr in Hf. specialize (Hf ltac:(done)). lia. }
  assert (registered (addWatcher c w) (watcherIdx c) w) as Hnew by (apply Hreg; by left). split.
  - intros n. cbn. destruct (cw_trigger w) eqn:Et; rewrite ?elem_of_union, ?elem_of_singleton; intros Hn; [|destruct Hn as [->|Hn]; [by exists w|]]; destruct (ix_all _ Hix n Hn) as (u & ? & ?); exists u; by split; [apply Hold|].
  - intros v ns n. cbn. destruct (cw_trigger w) as [v'|] eqn:Et.
    + rewrite lookup_insert_Some. intros [[<- <-]|[_ Hv]] Hn.
      * apply elem_of_union in Hn as [->%elem_of_singleton|Hn]; [by exists w|]. destruct (valueWatchers c !! v') as [ns|] eqn:E; [|by apply elem_of_empty in Hn].
        destruct (ix_values _ Hix v' ns n E Hn) as (u & ? & ?); exists u; by split; [apply Hold|].
      * destruct (ix_values _ Hix v ns n Hv Hn) as (u & ? & ?); exists u; by split; [apply Hold|].
    + intros Hv Hn. destruct (ix_values _ Hix v ns n Hv Hn) as (u & ? & ?); exists u; by split; [apply Hold|].
  - intros n u [[-> ->]|[_ Hr]]%Hreg; [done|by apply (ix_open _ Hix n)].
  - intros n [u Hn]. cbn in Hn |- *. apply lookup_insert_Some in Hn as [[<- _]|[_ Hn]]; [lia|]. pose proof (ix_fresh _ Hix n ltac:(by rewrite Hn)). lia.
  - intros n u Hn. cbn in Hn. destruct (ix_stop _ Hix n u Hn) as [Hlt Hno]. split; [cbn; lia|]. intros [[-> _]|[_ Hr]]%Hreg; [lia|done].
  - intros e rest He. cbn in He. destruct (ix_rest _ Hix e rest He) as [Hnd Hr]. split; [done|]. intros n Hn. destruct (Hr n Hn) as (u & Hu & Hs). exists u. split; [|done]. cbn. rewrite lookup_insert_ne; [done|].
    intros <-. pose proof (ix_fresh _ Hix (watcherIdx c) ltac:(by rewrite Hu)). lia.
Qed.

Lemma inv_open c base hist start key rv pred c' n : 0 < rv -> P rv -> trigger_ok pred key -> Watch c key rv pred = Some (Ok (c', n)) ->
  inv (mkRun Serving c base hist start) -> inv (mkRun Serving c' base hist (<[n := rv]> start)).
Proof.
  intros Hpos HP Htrig Hrun [Hb Hs Hw Hh [Hg Hcur] He Hix Hst]. cbn [rs_c rs_phase rs_base rs_hist rs_start] in *. pose proof (Hs ltac:(done)) as Hs0. destruct (Hw ltac:(done)) as (old & k & Hinc & Hold).
  assert (forall e, e ∈ hist -> P (ce_Version e)) as HPh by (intros e Hin; rewrite Forall_forall in Hh; by apply Hh).
  unfold Watch in Hrun. rewrite (request_ok range getAttrs (c_watchCache c) base hist Hs0 P rv Hone HPh HP Hpos) in Hrun. pose proof (horizon_listed _ _ _ Hs0) as Hhor.
  destruct (Z.ltb_spec rv (horizon (c_watchCache c) hist)) as [|Hge]; [done|]. destruct (start_version _ _ _ rv Hs0) as (Hv1 & Hv2 & Hv3). set (init := filter _ hist) in *.
  set (version := match last (Some <$> init) with Some (Some e) => ce_Version e | _ => rv end) in *. assert (match last (Some <$> init) with Some (Some e) => Some (ce_Version e) | Some None => None | None => Some rv end = Some version) as Hver by (unfold version; rewrite fmap_last; by destruct (last init)).
  rewrite Hver in Hrun. bind_simpl in Hrun. set (w := mkWatcher _ _ _ _ _ _ _ _) in Hrun. injection Hrun as <- <-. set (c' := addWatcher c w).
  assert (newer w (incoming c) = []) as Hnone.
  { rewrite Hinc. apply none_newer. intros e [Hin|Hin]%elem_of_app; change (cw_version w) with version.
    - rewrite Forall_forall in Hold. specialize (Hold e Hin). cbn in Hold. lia.
    - apply Hv3. apply list_elem_of_lookup in Hin as [i Hi]. rewrite lookup_drop in Hi. by eapply list_elem_of_lookup_2. }
  split; cbn [rs_c rs_phase rs_base rs_hist rs_start]; try done.
  - by apply add_index_ok.
  - intros m u [[-> ->]|[Hne Hr]]%add_registered; [| |done].
    + split; [done|]. exists rv. rewrite lookup_insert_eq. split; [done|]. split.
      * change (cw_version w) with version. change (c_watchCache c') with (c_watchCache c). destruct Hv2 as [->|(e & Hin & -> & Hlt)]; [split_and!; [done|lia|by left]|].
        split_and!; [by apply HPh|lia|right]. pose proof (versions_bounded _ _ _ Hs0 e Hin). lia.
      * cbn. unfold chanSize. destruct triggerFunc, (head _); lia.
      * constructor.
      * exact Htrig.
      * exists init. split; [done|]. change (cw_result w) with (@nil (EventType * obj)). cbn [app]. f_equal. change (incoming c') with (incoming c). change (cw_input w) with (@nil wevent). cbn [app].
        assert (current c' (watcherIdx c) = []) as ->; [|cbn [app]; by rewrite Hnone, app_nil_r]. unfold current. change (c_dispatch c') with (c_dispatch c). destruct (c_dispatch c) as [[e rest]|] eqn:Hd; [|done].
        rewrite decide_False; [done|]. intros Hin. destruct (proj2 (ix_rest _ Hix e rest Hd) _ Hin) as (u & Hu & _). pose proof (ix_fresh _ Hix _ (mk_is_Some _ _ Hu)). lia.
    + destruct (Hst m u Hr) as (_ & rv0 & Hrv0 & Hf). split; [done|]. exists rv0. rewrite lookup_insert_ne by done. split; [done|]. by apply (follows_same c).
Qed.

Lemma inv_step s s' : inv s -> cacher_step s s' -> inv s'.
Proof.
  intros Hinv Hstep. destruct Hstep.
  - by eapply inv_change.
  - by eapply inv_open.
  - by apply inv_dispatch.
  - by eapply inv_deliver.
  - by apply inv_finish.
  - by eapply inv_turn.
  - by apply inv_stop.
  - destruct Hinv as [Hb Hs Hw Hh Hg He Hix Hst]. cbn in *. split; cbn; try done; [intros _; by apply Hs|intros _; by apply Hw|].
    intros n w Hr. destruct (Hst n w Hr) as (_ & rv & ? & ?). split; [done|]. by exists rv.
  - by apply inv_restart.
  - by eapply inv_relist.
Qed.

(** ** Catching up *)

(** A run that only passes on what is there, and stops no watcher. *)
Definition calm_run (ph : phase) (base : gmap string welem) (hist : list wevent) (start : gmap nat Z) (c c' : Cacher) : Prop :=
  rtc cacher_step (mkRun ph c base hist start) (mkRun ph c' base hist start) ∧ forall m u, registered c m u -> ∃ u', registered c' m u' ∧ cw_filter u' = cw_filter u.

Lemma inv_steps s s' : inv s -> rtc cacher_step s s' -> inv s'.
Proof. intros Hinv. induction 1 as [|s s1 s' Hstep _ IH]; [done|]. by apply IH, (inv_step s). Qed.

Section Calm.
Context (ph : phase) (base : gmap string welem) (hist : list wevent) (start : gmap nat Z).
#[local] Abbreviation inv_of c := (inv (mkRun ph c base hist start)).
#[local] Abbreviation calm := (calm_run ph base hist start).

Lemma calm_refl c : calm c c.
Proof. split; [apply rtc_refl|]. intros m u Hr. by exists u. Qed.

Lemma calm_trans c1 c2 c3 : calm c1 c2 -> calm c2 c3 -> calm c1 c3.
Proof.
  intros [H1 R1] [H2 R2]. split; [by eapply rtc_trans|]. intros m u Hr. destruct (R1 m u Hr) as (u1 & Hr1 & E1). destruct (R2 m u1 Hr1) as (u2 & Hr2 & E2). exists u2. split; [done|congruence].
Qed.

Lemma calm_inv c c' : inv_of c -> calm c c' -> inv_of c'.
Proof. intros Hinv [Hr _]. by apply (inv_steps _ _ Hinv). Qed.

Lemma calm_step c c' : cacher_step (mkRun ph c base hist start) (mkRun ph c' base hist start) ->
  (forall m u, registered c m u -> ∃ u', registered c' m u' ∧ cw_filter u' = cw_filter u) -> calm c c'.
Proof. intros Hs Hr. split; [by apply rtc_once|done]. Qed.

(** A watcher passes on all it has. *)
Lemma flush n : forall k c w, inv_of c -> registered c n w -> (length (cw_init w) + length (cw_input w))%nat = k ->
  ∃ c' w', calm c c' ∧ c_dispatch c' = c_dispatch c ∧ incoming c' = incoming c ∧ registered c' n w' ∧ cw_init w' = [] ∧ cw_input w' = [].
Proof.
  induction k as [|k IH]; intros c w Hinv Hr Hk.
  - exists c, w. split; [apply calm_refl|]. destruct (cw_init w), (cw_input w); done.
  - destruct (in_start _ Hinv n w Hr) as (_ & rv & _ & Hf). destruct (ff_events _ _ _ _ _ Hf) as (init & Hinit & _).
    assert (∃ w1, process_turn w = Some w1 ∧ (length (cw_init w1) + length (cw_input w1))%nat = k) as (w1 & Hturn & Hk1).
    { unfold process_turn. rewrite Hinit in Hk |- *. destruct init as [|e init]; cbn in Hk |- *; [|eexists; split; [reflexivity|]; cbn; lia]. destruct (cw_input w) as [|e input]; cbn in Hk; [done|]. eexists. split; [reflexivity|]. cbn. lia. }
    destruct (turn_same w w1 Hturn) as (Ht & Hs & Hfl & _). set (c1 := set_watchers c (<[n := w1]> (watcher_objs c)) (allWatchers c) (valueWatchers c) (watchersToStop c)).
    pose proof (registered_update c c1 n w w1 (proj1 Hr) (conj Ht Hs) eq_refl (conj eq_refl (conj eq_refl (conj eq_refl eq_refl)))) as Hreg.
    assert (calm c c1) as Hcalm.
    { apply calm_step; [by apply (step_turn ph c base hist start n w w1 (proj1 Hr))|]. intros m u Hm. destruct (decide (m = n)) as [->|Hne]; [|exists u; split; [apply Hreg; by right|done]].
      assert (u = w) as -> by (by eapply registered_unique). exists w1. split; [apply Hreg; by left|done]. }
    destruct (IH c1 w1 (calm_inv _ _ Hinv Hcalm) ltac:(apply Hreg; by left) Hk1) as (c' & w' & Hc' & Hd & Hi & Hrest). exists c', w'. split; [by eapply calm_trans|done].
Qed.

(** The next watcher gets the event. *)
Lemma give_next c e n0 rest : inv_of c -> c_dispatch c = Some (e, n0 :: rest) -> ∃ c', calm c c' ∧ c_dispatch c' = Some (e, rest) ∧ incoming c' = incoming c.
Proof.
  intros Hinv Hd. destruct (proj2 (ix_rest _ (in_index _ Hinv) e _ Hd) n0 ltac:(left)) as (w0 & Hw0 & Hopen). cbn [rs_c] in Hw0.
  assert (registered c n0 w0 ∨ forall u, ~ registered c n0 u) as [Hr|Hno].
  { destruct (cw_trigger w0) as [v|] eqn:Et; [destruct (decide (n0 ∈ default ∅ (valueWatchers c !! v))) as [Hin|Hin]|destruct (decide (n0 ∈ allWatchers c)) as [Hin|Hin]];
      (left; split; [done|by rewrite Et]) || (right; intros u [Hu Hru]; assert (u = w0) as -> by congruence; by rewrite Et in Hru). }
  - destruct (flush n0 _ c w0 Hinv Hr eq_refl) as (c1 & w1 & Hc1 & Hd1 & Hi1 & Hr1 & Hz1 & Hz2). pose proof (calm_inv _ _ Hinv Hc1) as Hinv1. rewrite Hd in Hd1.
    destruct (in_start _ Hinv1 n0 w1 Hr1) as (_ & rv & _ & Hf). pose proof (ff_size _ _ _ _ _ Hf) as Hsize. pose proof (ix_open _ (in_index _ Hinv1) n0 w1 Hr1) as Hop.
    set (w2 := set_channels w1 (cw_init w1) (cw_input w1 ++ [e]) (cw_result w1)). set (c2 := set_dispatch c1 (incoming c1) (<[n0 := w2]> (watcher_objs c1)) (Some (e, rest)) (watchersToStop c1)).
    assert (deliver false c1 = Some c2) as Hdel. { unfold deliver. rewrite Hd1, (proj1 Hr1). bind_simpl. rewrite Hop. by destruct (Nat.ltb_spec (length (cw_input w1)) (cw_size w1)); [|rewrite Hz2 in *; cbn in *; lia]. }
    exists c2. split; [|done]. apply (calm_trans _ c1); [done|]. apply calm_step; [by eapply step_deliver|].
    pose proof (registered_update c1 c2 n0 w1 w2 (proj1 Hr1) (conj eq_refl eq_refl) eq_refl (conj eq_refl (conj eq_refl (conj eq_refl eq_refl)))) as Hreg.
    intros m u Hm. destruct (decide (m = n0)) as [->|Hne]; [|exists u; split; [apply Hreg; by right|done]]. assert (u = w1) as -> by (by eapply registered_unique). exists w2. split; [apply Hreg; by left|done].
  - assert (∃ c', deliver true c = Some c' ∧ c_dispatch c' = Some (e, rest) ∧ incoming c' = incoming c ∧ forall m u, m <> n0 -> registered c m u -> registered c' m u) as (c' & Hdel & Hd' & Hi' & Hreg).
    { unfold deliver. rewrite Hd, Hw0. bind_simpl. rewrite Hopen. destruct (Nat.ltb _ _).
      - eexists. split; [reflexivity|]. split; [done|]. split; [done|]. intros m u Hne [Hu Hr]. split; [|done]. cbn. by rewrite lookup_insert_ne.
      - eexists. split; [reflexivity|]. match goal with |- context [forgetWatcher ?c1 _ _] => destruct (forget_same c1 n0 (cw_trigger w0)) as (_ & F2 & _ & F4 & _); rewrite F2, F4; split; [done|]; split; [done|];
          intros m u Hne Hr; apply forget_registered; [done|]; by split end. }
    exists c'. split; [|done]. apply calm_step; [by eapply step_deliver|]. intros m u Hm. exists u. split; [|done]. apply Hreg; [|done]. intros ->. by apply (Hno u).
Qed.

Lemma give_all rest : forall c e, inv_of c -> c_dispatch c = Some (e, rest) -> ∃ c', calm c c' ∧ c_dispatch c' = Some (e, []) ∧ incoming c' = incoming c.
Proof.
  induction rest as [|n0 rest IH]; intros c e Hinv Hd; [exists c; split; [apply calm_refl|done]|]. destruct (give_next c e n0 rest Hinv Hd) as (c1 & Hc1 & Hd1 & Hi1).
  destruct (IH c1 e (calm_inv _ _ Hinv Hc1) Hd1) as (c2 & Hc2 & Hd2 & Hi2). exists c2. split; [by eapply calm_trans|]. split; [done|congruence].
Qed.

Lemma finish_registered c m u : index_ok c -> registered c m u -> registered (finishDispatching c) m u.
Proof.
  intros Hix Hr. unfold finishDispatching. destruct (c_dispatch c) as [[e [|? ?]]|]; try done. destruct Hr as [Hu Hin]. split; [|done]. cbn. rewrite stopped_all, decide_False; [done|].
  intros Hst. by apply (proj2 (ix_stop _ Hix m u Hst)).
Qed.

Lemma finish_one c : inv_of c -> ∃ c', calm c c' ∧ c_dispatch c' = None ∧ incoming c' = incoming c.
Proof.
  intros Hinv. destruct (c_dispatch c) as [[e rest]|] eqn:Hd; [|exists c; split; [apply calm_refl|done]]. destruct (give_all rest c e Hinv Hd) as (c1 & Hc1 & Hd1 & Hi1).
  exists (finishDispatching c1). split; [|unfold finishDispatching; by rewrite Hd1]. apply (calm_trans _ c1); [done|]. apply calm_step; [apply step_finish|].
  intros m u Hr. exists u. split; [|done]. apply finish_registered; [exact (in_index _ (calm_inv _ _ Hinv Hc1))|done].
Qed.

Lemma drain_all k : forall c, inv_of c -> length (incoming c) = k -> ∃ c', calm c c' ∧ c_dispatch c' = None ∧ incoming c' = [].
Proof.
  induction k as [|k IH]; intros c Hinv Hk; destruct (finish_one c Hinv) as (c1 & Hc1 & Hd1 & Hi1).
  - exists c1. split; [done|]. split; [done|]. rewrite Hi1. by apply nil_length_inv.
  - destruct (incoming c) as [|e q] eqn:Hq; [done|]. assert (calm c1 (startDispatching c1)) as Hc2.
    { apply calm_step; [apply step_dispatch|]. intros m u Hr. exists u. split; [|done]. unfold startDispatching. by rewrite Hd1, Hi1. }
    destruct (IH (startDispatching c1)) as (c3 & Hc3 & ? & ?); [eapply calm_inv; [exact Hinv|by eapply calm_trans]|unfold startDispatching; rewrite Hd1, Hi1; cbn in *; lia|].
    exists c3. split; [|done]. by eapply calm_trans; [|eapply calm_trans].
Qed.
End Calm.

(** ** What a watcher sees *)

Definition start_state (capacity : nat) : state := mkRun Restarting (NewCacher capacity) ∅ [] ∅.
Definition reachable (capacity : nat) (s : state) : Prop := rtc cacher_step (start_state capacity) s.

Lemma reachable_inv capacity s : (0 < capacity)%nat -> reachable capacity s -> inv s.
Proof.
  intros Hcap. apply inv_steps. assert (forall n w, ~ registered (NewCacher capacity) n w) as Hno by (intros n w [Hw _]; cbn in Hw; by rewrite lookup_empty in Hw).
  split; cbn [start_state rs_c rs_phase rs_base rs_hist rs_start]; try done.
  - split_and!; [done|apply length_replicate|done].
  - split.
    + by intros n ?%elem_of_empty.
    + intros v ns n Hv. cbn in Hv. by rewrite lookup_empty in Hv.
    + by intros n w ?%Hno.
    + intros n [w Hw]. cbn in Hw. by rewrite lookup_empty in Hw.
    + by intros n w ?%elem_of_nil.
    + done.
  - by intros n w ?%Hno.
Qed.

(** The objects that pass a filter. *)
Definition selected (passes : string -> attrs -> attrs -> bool) (m : gmap string welem) : gmap string obj :=
  omap (fun el => if passes (el_Key el) (el_Labels el) (el_Fields el) then Some (el_Object el) else None) m.

(** What a client makes of an event. *)
Definition replay (m : gmap string obj) (e : EventType * obj) : gmap string obj :=
  match keyFunc e.2 with Ok k => match e.1 with WatchDeleted => delete k m | _ => <[k := e.2]> m end | Err _ => m end.

(** The objects at a version since the last list. *)
Definition objects_at (s : state) (rv : Z) : gmap string welem := foldl apply_event (rs_base s) (filter (fun e : wevent => ce_Version e <= rv) (rs_hist s)).

(** The version of an object is no part of its key. *)
Definition stable_keys : Prop := forall o v, keyFunc (UpdateObject o v) = keyFunc o.

Lemma selected_insert passes m el : selected passes (<[el_Key el := el]> m) =
  if passes (el_Key el) (el_Labels el) (el_Fields el) then <[el_Key el := el_Object el]> (selected passes m) else delete (el_Key el) (selected passes m).
Proof.
  unfold selected. destruct (passes _ _ _) eqn:E; [by rewrite (omap_insert_Some _ _ _ _ (el_Object el)) by (cbn; by rewrite E)|].
  by rewrite omap_insert_None by (cbn; by rewrite E).
Qed.

Lemma selected_lookup passes m k : well_keyed m -> selected passes m !! k = match m !! k with Some el => if passes k (el_Labels el) (el_Fields el) then Some (el_Object el) else None | None => None end.
Proof. intros Hk. unfold selected. rewrite lookup_omap. destruct (m !! k) as [el|] eqn:E; [|done]. cbn. by rewrite (Hk k el E). Qed.

Lemma delete_unselected passes m k : well_keyed m -> match m !! k with Some el => passes k (el_Labels el) (el_Fields el) = false | None => True end -> delete k (selected passes m) = selected passes m.
Proof. intros Hk Hp. apply delete_id. rewrite selected_lookup by done. destruct (m !! k); [by rewrite Hp|done]. Qed.

(** One event keeps the view of the client. *)
Lemma replay_event passes m e : stable_keys -> well_keyed m -> coherent m [e] -> event_ok e ->
  foldl replay (selected passes m) (omap (convertToWatchEvent passes) [e]) = selected passes (apply_event m e).
Proof.
  intros Hst Hk (Ht & Hprev & _) [[Hkey Ha] Hpk]. unfold apply_event. cbn [omap list_omap]. unfold convertToWatchEvent. rewrite Hprev.
  assert (forall prev, m !! ce_Key e = Some prev -> keyFunc (el_Object prev) = Ok (ce_Key e)) as Hpkey.
  { intros prev Hp. rewrite Hp in Hprev. cbn in Hprev. by eapply Hpk. }
  pose proof (delete_unselected passes m (ce_Key e) Hk) as Hdel. pose proof (selected_insert passes m (element_of e)) as Hins. cbn [el_Key element_of el_Labels el_Fields el_Object] in Hins.
  destruct (ce_Type e) eqn:Et; try (by destruct Ht as [?|[?|?]]).
  - rewrite Hins. destruct (m !! ce_Key e) as [prev|] eqn:Ep; cbn [fmap option_fmap option_map]; cbv beta iota.
    + destruct (passes (ce_Key e) (ce_Labels e) (ce_Fields e)), (passes (ce_Key e) (el_Labels prev) (el_Fields prev)); cbn; unfold replay; cbn [fst snd]; rewrite ?Hst, ?Hkey, ?(Hpkey prev) by done; try done. symmetry. by apply Hdel.
    + destruct (passes (ce_Key e) (ce_Labels e) (ce_Fields e)); cbn; unfold replay; cbn [fst snd]; rewrite ?Hkey; try done. symmetry. by apply Hdel.
  - rewrite Hins. destruct (m !! ce_Key e) as [prev|] eqn:Ep; cbn [fmap option_fmap option_map]; cbv beta iota.
    + destruct (passes (ce_Key e) (ce_Labels e) (ce_Fields e)), (passes (ce_Key e) (el_Labels prev) (el_Fields prev)); cbn; unfold replay; cbn [fst snd]; rewrite ?Hst, ?Hkey, ?(Hpkey prev) by done; try done. symmetry. by apply Hdel.
    + destruct (passes (ce_Key e) (ce_Labels e) (ce_Fields e)); cbn; unfold replay; cbn [fst snd]; rewrite ?Hkey; try done. symmetry. by apply Hdel.
  - assert (selected passes (delete (ce_Key e) m) = delete (ce_Key e) (selected passes m)) as -> by apply omap_delete. destruct (m !! ce_Key e) as [prev|] eqn:Ep; cbn [fmap option_fmap option_map]; cbv beta iota.
    + destruct (passes (ce_Key e) (el_Labels prev) (el_Fields prev)); cbn; [unfold replay; cbn [fst snd]; by rewrite Hst, (Hpkey prev)|]. symmetry. by apply Hdel.
    + symmetry. by apply Hdel.
Qed.

Lemma coherent_split (es : list wevent) : forall (m : gmap string welem) es', coherent m (es ++ es') <-> coherent m es ∧ coherent (foldl apply_event m es) es'.
Proof. induction es as [|e es IH]; intros m es'; cbn; [tauto|]. rewrite IH. tauto. Qed.

Lemma replay_events passes es : stable_keys -> Forall event_ok es -> forall m, well_keyed m -> coherent m es ->
  foldl replay (selected passes m) (omap (convertToWatchEvent passes) es) = selected passes (foldl apply_event m es).
Proof.
  intros Hst. induction 1 as [|e es He Hes IH]; intros m Hk Hc; [done|]. apply (coherent_split [e]) in Hc as [Hc1 Hc2]. cbn [foldl] in Hc2 |- *.
  assert (omap (convertToWatchEvent passes) (e :: es) = omap (convertToWatchEvent passes) [e] ++ omap (convertToWatchEvent passes) es) as -> by (apply (omap_app _ [e])).
  rewrite foldl_app, replay_event by done. apply IH; [by apply well_keyed_apply|done].
Qed.

Lemma history_split w base (hist : list wevent) rv : serves w base hist -> filter (fun e : wevent => ce_Version e <= rv) hist ++ filter (fun e : wevent => rv < ce_Version e) hist = hist.
Proof.
  intros Hs. destruct (StronglySorted_inv (sv_sorted _ _ _ Hs)) as [Hso _]. clear -Hso. induction hist as [|e h IH]; [done|]. cbn in Hso. apply StronglySorted_inv in Hso as [Hso Ha]. rewrite !filter_cons.
  destruct (decide (ce_Version e <= rv)) as [Hle|Hgt]; [rewrite decide_False by lia; cbn; by rewrite IH|]. rewrite decide_True by lia.
  assert (filter (fun e : wevent => ce_Version e <= rv) h = []) as Hnil.
  { clear IH Hso. induction h as [|a h IH]; [done|]. cbn in Ha. apply Forall_cons in Ha as [? ?]. rewrite filter_cons, decide_False by lia. by apply IH. }
  rewrite Hnil in IH |- *. cbn in IH |- *. by rewrite IH by done.
Qed.

Lemma changes_replay s rv passes : stable_keys -> inv s -> rs_phase s <> Restarting ->
  foldl replay (selected passes (objects_at s rv)) (omap (convertToWatchEvent passes) (filter (fun e : wevent => rv < ce_Version e) (rs_hist s))) = selected passes (store_items (wc_store (c_watchCache (rs_c s)))).
Proof.
  intros Hst Hinv Hp. pose proof (in_serves _ Hinv Hp) as Hs. pose proof (history_split _ _ _ rv Hs) as Hsplit. pose proof (sv_coherent _ _ _ Hs) as Hc. rewrite <- Hsplit in Hc. apply coherent_split in Hc as [_ Hc].
  rewrite replay_events; [|done| |apply well_keyed_history, (sv_keyed _ _ _ Hs)|exact Hc].
  - unfold objects_at. rewrite <- foldl_app, Hsplit. by rewrite (sv_store _ _ _ Hs).
  - pose proof (in_history _ Hinv) as Hh. rewrite Forall_forall in Hh |- *. intros e [_ Hin]%list_elem_of_filter. by apply Hh.
Qed.

(** The changes that a watcher from a version is to be sent. *)
Definition changes_since (s : state) (passes : string -> attrs -> attrs -> bool) (rv : Z) : list (EventType * obj) :=
  omap (convertToWatchEvent passes) (filter (fun e : wevent => rv < ce_Version e) (rs_hist s)).

Lemma catch_up s n w rv : inv s -> registered (rs_c s) n w -> rs_start s !! n = Some rv ->
  ∃ c' w', rtc cacher_step s (mkRun (rs_phase s) c' (rs_base s) (rs_hist s) (rs_start s)) ∧ registered c' n w' ∧ cw_filter w' = cw_filter w ∧ cw_result w' = changes_since s (cw_filter w) rv.
Proof.
  destruct s as [ph c base hist start]. cbn [rs_c rs_phase rs_base rs_hist rs_start]. intros Hinv Hr Hrv.
  destruct (drain_all ph base hist start _ c Hinv eq_refl) as (c1 & Hc1 & Hd1 & Hi1). destruct (proj2 Hc1 n w Hr) as (w1 & Hr1 & Hf1). pose proof (calm_inv _ _ _ _ _ _ Hinv Hc1) as Hinv1.
  destruct (flush ph base hist start n _ c1 w1 Hinv1 Hr1 eq_refl) as (c2 & w2 & Hc2 & Hd2 & Hi2 & Hr2 & Hz1 & Hz2). destruct (proj2 Hc2 n w1 Hr1) as (w2' & Hr2' & Hf2).
  assert (w2' = w2) as -> by (by eapply registered_unique). pose proof (calm_inv _ _ _ _ _ _ Hinv1 Hc2) as Hinv2. exists c2, w2.
  split; [eapply rtc_trans; [apply Hc1|apply Hc2]|]. split; [done|]. split; [congruence|].
  destruct (in_start _ Hinv2 n w2 Hr2) as (_ & rv' & Hrv' & Hff). cbn [rs_start rs_c rs_hist] in *. assert (rv' = rv) as -> by congruence. destruct (ff_events _ _ _ _ _ Hff) as (init & Hinit & Heq).
  rewrite Hz1 in Hinit. destruct init; [|done]. unfold current in Heq. rewrite Hz2, Hd2, Hd1, Hi2, Hi1 in Heq. cbn [app] in Heq. unfold newer in Heq. rewrite filter_nil in Heq. cbn in Heq. rewrite app_nil_r in Heq.
  rewrite Heq. unfold converted, changes_since. cbn. congruence.
Qed.

(** C9.  A watcher sees what it selects. Take any run of the cacher in which the changes and
    lists that the storage reports have versions of one source, those of changes strictly
    rising and those of lists not falling, and in which watches are opened while the cacher
    serves, from a version above 0, and with a selector that matches an event only if one of
    the event's values of the indexed field is the one that the watch is indexed by; keys do
    not depend on versions. However slow the dispatch and the watchers are and whoever else
    watches: what a watcher that has not been dropped has been sent is always a beginning of
    the list of the changes of its selection since the version it asked for. Replayed on the
    objects that it selects at that version, that list gives exactly the objects that it
    selects now. And the cacher can always pass on what is missing, without dropping the
    watcher. *)
Theorem watcher_sees_what_it_selects capacity s n w : (0 < capacity)%nat -> stable_keys -> reachable capacity s -> registered (rs_c s) n w ->
  ∃ rv, rs_start s !! n = Some rv ∧ cw_result w `prefix_of` changes_since s (cw_filter w) rv ∧
    foldl replay (selected (cw_filter w) (objects_at s rv)) (changes_since s (cw_filter w) rv) = selected (cw_filter w) (store_items (wc_store (c_watchCache (rs_c s)))) ∧
    ∃ c' w', rtc cacher_step s (mkRun (rs_phase s) c' (rs_base s) (rs_hist s) (rs_start s)) ∧ registered c' n w' ∧ cw_filter w' = cw_filter w ∧ cw_result w' = changes_since s (cw_filter w) rv.
Proof.
  intros Hcap Hst Hs Hr. pose proof (reachable_inv _ _ Hcap Hs) as Hinv. destruct (in_start _ Hinv n w Hr) as (Hp & rv & Hrv & Hf). exists rv. split; [done|]. split; [|split].
  - destruct (ff_events _ _ _ _ _ Hf) as (init & _ & Heq). eexists. symmetry. exact Heq.
  - by apply changes_replay.
  - by apply (catch_up s n w rv).
Qed.

(** C13.  The cacher does not panic in runs in which the changes and lists that the storage
    reports have versions of one source, those of changes strictly rising and those of lists
    not falling, and in which watches are opened while it serves, from a version above 0 and
    with a selector that its index value does not narrow: in every state of such a run, the
    event that is dispatched is never written to the closed channel of a watcher, no watcher
    that is served comes upon a nil event, and a watch from a version above 0 never finds one,
    unless the cache is being listed again. *)
Theorem cacher_never_panics capacity s : (0 < capacity)%nat -> reachable capacity s ->
  (forall timed_out, is_Some (deliver timed_out (rs_c s))) ∧
  (forall n w, registered (rs_c s) n w -> is_Some (process_turn w)) ∧
  (forall key rv pred, rs_phase s <> Restarting -> 0 < rv -> P rv -> is_Some (Watch (rs_c s) key rv pred)).
Proof.
  intros Hcap Hs. pose proof (reachable_inv _ _ Hcap Hs) as Hinv. split; [|split].
  - intros timed_out. unfold deliver. destruct (c_dispatch (rs_c s)) as [[e [|n0 rest]]|] eqn:Hd; [done| |done].
    destruct (proj2 (ix_rest _ (in_index _ Hinv) e _ Hd) n0 ltac:(left)) as (w0 & -> & Hopen). bind_simpl. rewrite Hopen. destruct (Nat.ltb _ _); [done|]. by destruct timed_out.
  - intros n w Hr. destruct (in_start _ Hinv n w Hr) as (_ & rv & _ & Hf). destruct (ff_events _ _ _ _ _ Hf) as (init & Hinit & _). unfold process_turn. rewrite Hinit. destruct init; [|done]. cbn. by destruct (cw_input w).
  - intros key rv pred Hp Hpos HP. pose proof (in_serves _ Hinv Hp) as Hsv. unfold Watch.
    rewrite (request_ok range getAttrs _ _ _ Hsv P rv Hone) by (try done; intros e Hin; pose proof (in_history _ Hinv) as Hh; rewrite Forall_forall in Hh; by apply Hh).
    destruct (rv <? _); [done|]. rewrite fmap_last. by destruct (last _).
Qed.

(** ** Selectors *)

(** A selector without alternatives. *)
Fixpoint conjunctive (s : Fields.Selector) : bool := match s with Fields.orTerm t => false | Fields.andTerm t => forallb conjunctive t | _ => true end.

Lemma exact_match_holds s field v ls : conjunctive s = true -> Fields.RequiresExactMatch s field = (v, true) -> Fields.Matches s ls = true -> Fields.Get ls field = v.
Proof.
  revert s. fix IH 1. intros [| f u | | | | | |t|t]; cbn [conjunctive Fields.RequiresExactMatch Fields.Matches]; try done.
  - intros _. destruct (String.eqb_spec f field) as [->|]; [|done]. intros [= ->]. unfold Fields.Matches_has. by intros ?%String.eqb_eq.
  - revert t. fix IHt 1. intros [|q t]; cbn; [done|]. intros [Hq Ht]%andb_true_iff Hr [Hmq Hmt]%andb_true_iff. destruct (Fields.RequiresExactMatch q field) as [u found] eqn:E. cbn in Hr. destruct found.
    + injection Hr as ->. by apply (IH q).
    + by apply (IHt t).
Qed.

Lemma empty_requires_nothing s field : Fields.Empty s = true -> (Fields.RequiresExactMatch s field).2 = false.
Proof.
  revert s. fix IH 1. intros [| f u | | | | | |t|t]; cbn [Fields.Empty]; try done; (revert t; fix IHt 1; intros [|q t]; cbn; [done|]; intros [Hq Ht]%andb_true_iff; rewrite (IH q Hq); exact (IHt t Ht)).
Qed.

(** The field by which watchers are indexed has the value that the trigger function gives. *)
Definition triggers_on (f : obj -> list string) (field : string) : Prop := triggerFunc = Some f ∧ forall o ls fs, getAttrs o = Ok (ls, fs) -> f o = [Fields.Get fs field].

Lemma conjunctive_triggers f field pred key : triggers_on f field -> conjunctive (pred_Field pred) = true -> IndexFields pred = [field] -> trigger_ok pred key.
Proof.
  intros [Htf Hf] Hc Hi e [[_ Ha] Hprev] Hsome. unfold MatcherIndex. rewrite Hi. cbn [omap list_omap]. destruct (Fields.RequiresExactMatch (pred_Field pred) field) as [v found] eqn:E. destruct found; [|done]. cbn [head].
  assert (forall ls fs, filterWithAttrsFunction key pred (ce_Key e) ls fs = true -> Fields.Get fs field = v) as Hval.
  { intros ls fs Hp. unfold filterWithAttrsFunction in Hp. apply andb_true_iff in Hp as [_ Hp]. unfold MatchesObjectAttributes in Hp.
    assert (Fields.Matches (pred_Field pred) fs = true) as Hm; [|by eapply exact_match_holds]. destruct (Label_Empty pred && _) eqn:Em; [|by apply andb_true_iff in Hp as [_ ?]].
    apply andb_true_iff in Em as [_ Em]. pose proof (empty_requires_nothing _ field Em) as Hno. by rewrite E in Hno. }
  left. unfold triggerValues. rewrite Htf, (Hf _ _ _ Ha). unfold convertToWatchEvent in Hsome. cbn [fst].
  set (cur := match ce_Type e with WatchDeleted => false | _ => filterWithAttrsFunction key pred (ce_Key e) (ce_Labels e) (ce_Fields e) end) in Hsome.
  assert (cur = true -> Fields.Get (ce_Fields e) field = v) as Hcur by (unfold cur; destruct (ce_Type e); try done; apply Hval).
  destruct (ce_Prev e) as [[[prev pls] pfs]|] eqn:Ep.
  - destruct (Hprev _ _ _ eq_refl) as [_ Hpa]. rewrite (Hf _ _ _ Hpa). specialize (Hval pls pfs). destruct cur; [specialize (Hcur eq_refl); subst v; destruct (String.eqb _ _); left|].
    destruct (filterWithAttrsFunction _ _ _ _ _); [specialize (Hval eq_refl); subst v|by destruct Hsome]. destruct (String.eqb_spec (Fields.Get (ce_Fields e) field) (Fields.Get pfs field)) as [->|]; [left|right; left].
  - destruct cur; [specialize (Hcur eq_refl); subst v; left|by destruct Hsome].
Qed.
End Cacher.

(** ** Examples *)

(** An object has a name, a node and a version; watchers are indexed by the node. *)
Record placed := mkPlaced { pl_name : string; pl_node : string; pl_version : Z }.
Definition placed_key (o : placed) : result string := Ok (String "/" (pl_name o)).
Definition placed_attrs (o : placed) : result (attrs * attrs) := Ok (∅, {["spec.nodeName" := pl_node o]}).
Definition placed_update (o : placed) (v : Z) : placed := mkPlaced (pl_name o) (pl_node o) v.
Definition placed_trigger : option (placed -> list string) := Some (fun o => [pl_node o]).
Definition visit_numbers (s : gset nat) : list nat := elements s.
Definition small (r : Z) : Prop := r < 100.

Lemma small_one_source : one_source small.
Proof. left. intros r Hr. assert (100 < v2MinRevision) by reflexivity. unfold small in Hr. lia. Qed.

#[local] Abbreviation demo_reachable := (reachable visit_map visit_numbers placed_key placed_attrs placed_update placed_trigger small).

(** The objects of a node. *)
Definition on_node (node : string) : SelectionPredicate := mkPredicate (fun _ => true) true (Fields.hasTerm "spec.nodeName" node) ["spec.nodeName"%string].

Lemma on_node_triggers node key : trigger_ok placed_key placed_attrs placed_update placed_trigger (on_node node) key.
Proof. by apply (conjunctive_triggers _ _ _ _ (fun o => [pl_node o]) "spec.nodeName"); [split; [|intros o ls fs [= <- <-]]|..]. Qed.

Definition or_new (c : option (result (Cacher (obj := placed)))) : Cacher := match c with Some (Ok c) => c | _ => NewCacher 2 end.
Definition listed : Cacher := or_new (c_replace visit_map placed_key placed_attrs (NewCacher 2) [mkPlaced "a" "x" 1] 1).
Definition watched (c : Cacher) (rv : Z) (pred : SelectionPredicate) : Cacher :=
  match Watch visit_map placed_attrs placed_trigger c EmptyString rv pred with Some (Ok (c, _)) => c | _ => c end.
Definition changed (c : Cacher) (t : EventType) (o : placed) : Cacher := or_new (c_change visit_map placed_key placed_attrs c t o (pl_version o)).

(** An object of another node is moved to the node, and back. *)
Definition demo_event1 : watchCacheEvent := mkCacheEvent WatchModified (mkPlaced "a" "y" 2) ∅ {["spec.nodeName" := "y"%string]} (Some (mkPlaced "a" "x" 1, ∅, {["spec.nodeName" := "x"%string]})) "/a" 2.
Definition demo_base : gmap string storeElement := {["/a"%string := mkElem "/a" (mkPlaced "a" "x" 1) ∅ {["spec.nodeName" := "x"%string]}]}.
Definition demo_cacher : Cacher := changed (watched listed 1 (on_node "y")) WatchModified (mkPlaced "a" "y" 2).

Lemma demo_cacher_run : demo_reachable 2 (mkRun Serving demo_cacher demo_base [demo_event1] {[0%nat := 1]}).
Proof.
  eapply rtc_l; [apply (step_relist _ _ _ _ _ _ _ (NewCacher 2) ∅ [] ∅ [mkPlaced "a" "x" 1] [mkElem "/a" (mkPlaced "a" "x" 1) ∅ {["spec.nodeName" := "x"%string]}] 1 listed); try done; vm_compute; reflexivity|].
  eapply rtc_l; [eapply (step_open _ _ _ _ _ _ _ listed _ _ _ EmptyString 1 (on_node "y") (watched listed 1 (on_node "y")) 0); [lia|done|apply on_node_triggers|vm_compute; reflexivity]|].
  eapply rtc_l; [|apply rtc_refl]. apply (step_change _ _ _ _ _ _ _ (watched listed 1 (on_node "y")) _ [] _ WatchModified (mkPlaced "a" "y" 2) 2 (c_watchCache demo_cacher) demo_event1); [by right; left|by vm_compute|done|vm_compute; reflexivity].
Qed.

Lemma watcher_sees_what_it_selects_witness : ∃ w, registered demo_cacher 0 w ∧ ∃ c' w',
  rtc (cacher_step visit_map visit_numbers placed_key placed_attrs placed_update placed_trigger small)
    (mkRun Serving demo_cacher demo_base [demo_event1] {[0%nat := 1]}) (mkRun Serving c' demo_base [demo_event1] {[0%nat := 1]}) ∧ registered c' 0 w' ∧ cw_result w' = [(WatchAdded, mkPlaced "a" "y" 2)].
Proof.
  assert (∃ w, registered demo_cacher 0 w ∧ cw_filter w = filterWithAttrsFunction EmptyString (on_node "y")) as (w & Hr & Hf) by (eexists; split; [split; [vm_compute; reflexivity|vm_compute; reflexivity]|reflexivity]).
  exists w. split; [exact Hr|].
  destruct (watcher_sees_what_it_selects visit_map visit_numbers placed_key placed_attrs placed_update placed_trigger small (fun A m => reflexivity _) (fun s => reflexivity _) small_one_source 2
    _ 0 _ ltac:(lia) (fun o v => eq_refl) demo_cacher_run Hr) as (rv & Hrv & _ & _ & c' & w' & Hrun & Hr' & _ & Hres).
  exists c', w'. split; [exact Hrun|]. split; [exact Hr'|]. rewrite Hres, Hf. cbn [rs_start] in Hrv. rewrite lookup_singleton_eq in Hrv. injection Hrv as <-. vm_compute. reflexivity.
Defined.

Lemma cacher_never_panics_witness : is_Some (deliver false (startDispatching visit_map visit_numbers placed_trigger demo_cacher)) ∧ is_Some (Watch visit_map placed_attrs placed_trigger demo_cacher EmptyString 1 (on_node "x")).
Proof.
  split.
  - apply (cacher_never_panics visit_map visit_numbers placed_key placed_attrs placed_update placed_trigger small (fun A m => reflexivity _) (fun s => reflexivity _) small_one_source 2
      (mkRun Serving (startDispatching visit_map visit_numbers placed_trigger demo_cacher) demo_base [demo_event1] {[0%nat := 1]}) ltac:(lia)).
    eapply rtc_r; [exact demo_cacher_run|apply step_dispatch].
  - apply (cacher_never_panics visit_map visit_numbers placed_key placed_attrs placed_update placed_trigger small (fun A m => reflexivity _) (fun s => reflexivity _) small_one_source 2
      _ ltac:(lia) demo_cacher_run); [done|lia|unfold small; lia].
Defined.
