(* ===== verification/CacherClients.v ===== *)
(** * Clients of the API server's cacher

    Composes the cacher ([Cacher]) with the informers of the clients ([Informer]): an informer
    that lists from the cacher and then watches it from the version of the list holds exactly
    the objects that its selector selects.  The pods of the API server have an index by which
    their watchers are found.  Examples show what is lost when a selector has alternatives,
    when a watch begins while the cache is listed again, and when it begins at version 0. *)
From S2P Require Import Prelude Types IndexedStore DeltaFifo Informer Revision WatchCache Cacher.
From S2P Require FieldSelector.
Import FieldSelector.

Local Open Scope Z_scope.

Section Clients.
Context {obj : Type}.
#[local] Abbreviation wevent := (watchCacheEvent (obj := obj)).
#[local] Abbreviation welem := (storeElement (obj := obj)).
Context (range : forall A : Type, gmap string A -> list (string * A)) (order : gset nat -> list nat).
Context (keyFunc : obj -> result string) (getAttrs : obj -> result (attrs * attrs)) (UpdateObject : obj -> Z -> obj) (triggerFunc : option (obj -> list string)) (P : Z -> Prop).
Hypothesis Hrange : forall A (m : gmap string A), range A m ≡ₚ map_to_list m.
Hypothesis Horder : forall s, order s ≡ₚ elements s.
Hypothesis Hone : one_source P.

#[local] Abbreviation step := (cacher_step range order keyFunc getAttrs UpdateObject triggerFunc P).
#[local] Abbreviation run_inv := (inv keyFunc getAttrs UpdateObject triggerFunc P).

(** ** Lists *)

(** The objects of a list are those that it selects, each once, and the version is that of
    the cache. *)
Lemma List_selects c base hist timed_out key v pred items rv : serves (c_watchCache c) base hist -> c_List range timed_out c key v pred = Some (Ok (items, rv)) ->
  rv = wc_resourceVersion (c_watchCache c) ∧ ∃ elems : list welem, items = el_Object <$> elems ∧ NoDup (el_Key <$> elems) ∧
    forall el, el ∈ elems <-> store_items (wc_store (c_watchCache c)) !! el_Key el = Some el ∧ filterWithAttrsFunction key pred (el_Key el) (el_Labels el) (el_Fields el) = true.
Proof.
  intros Hs. unfold c_List, WaitUntilFreshAndList. destruct (_ <? v); [by destruct timed_out|]. intros [= <- <-]. split; [done|]. eexists. split; [reflexivity|].
  set (m := store_items (wc_store (c_watchCache c))). assert (well_keyed m) as Hk by (unfold m; rewrite (sv_store _ _ _ Hs); apply well_keyed_history, (sv_keyed _ _ _ Hs)).
  assert (el_Key <$> (range _ m).*2 = (range _ m).*1) as Hkeys.
  { rewrite <- list_fmap_compose. apply list_fmap_ext. intros i [k el] Hi. cbn. apply Hk. apply elem_of_map_to_list. rewrite <- Hrange. by eapply list_elem_of_lookup_2. }
  split.
  - assert (NoDup (el_Key <$> ts_List range (wc_store (c_watchCache c)))) as Hnd by (unfold ts_List; fold m; rewrite Hkeys, Hrange; apply NoDup_fst_map_to_list).
    eapply sublist_NoDup; [apply Hnd|]. apply fmap_sublist, sublist_filter.
  - intros el. rewrite list_elem_of_filter. unfold ts_List. fold m. rewrite list_elem_of_fmap. split.
    + intros [Hp ([k el'] & -> & Hin)]. rewrite Hrange, elem_of_map_to_list in Hin. pose proof (Hk k el' Hin) as <-. done.
    + intros [Hin Hp]. split; [done|]. exists (el_Key el, el). split; [done|]. by rewrite Hrange, elem_of_map_to_list.
Qed.

(** ** An informer of the cacher *)

Section Informers.
(** The keys of the informers, which are the paths of the storage without a part that all have. *)
Context (clientKey : obj -> result string) (path : string -> string) {Hinj : Inj (=) (=) path} (versionOf : obj -> string).
Hypothesis Hpath : forall o k, keyFunc o = Ok k -> ∃ id, clientKey o = Ok id ∧ k = path id.

(** The same objects by both keys. *)
Definition same_objects (server m : gmap string obj) : Prop := forall id, server !! id = m !! path id.

(** The reflector is given the events. *)
Definition feed (i : sharedIndexInformer obj) (r : Reflector obj) (es : list (EventType * obj)) : Reflector obj :=
  foldl (fun r e => (watchHandlerHelper clientKey range (indexer i) r (mkEvent e.1 (Some (e.2, versionOf e.2)))).1) r es.

(** The cache has not been listed again in between. *)
Definition same_list (s1 s2 : state (obj := obj)) : Prop :=
  listResourceVersion (c_watchCache (rs_c s2)) = listResourceVersion (c_watchCache (rs_c s1)) ∧ rs_base s2 = rs_base s1 ∧ rs_hist s1 `prefix_of` rs_hist s2.

Definition client_id (o : obj) : string := match clientKey o with Ok id => id | Err _ => EmptyString end.

Lemma client_path o k : keyFunc o = Ok k -> clientKey o = Ok (client_id o) ∧ path (client_id o) = k.
Proof. intros Hk. destruct (Hpath o k Hk) as (id & Hid & ->). unfold client_id. by rewrite Hid. Qed.

Lemma selected_lists c base hist timed_out key v pred items rv : serves (c_watchCache c) base hist -> map_Forall (fun _ => elem_ok keyFunc getAttrs) (store_items (wc_store (c_watchCache c))) ->
  c_List range timed_out c key v pred = Some (Ok (items, rv)) ->
  ∃ server, lists clientKey items server ∧ same_objects server (selected (filterWithAttrsFunction key pred) (store_items (wc_store (c_watchCache c)))).
Proof.
  intros Hs He Hl. destruct (List_selects c base hist timed_out key v pred items rv Hs Hl) as (_ & elems & -> & Hnd & Hin). clear Hl. set (m := store_items (wc_store (c_watchCache c))) in *.
  assert (well_keyed m) as Hk by (unfold m; rewrite (sv_store _ _ _ Hs); apply well_keyed_history, (sv_keyed _ _ _ Hs)).
  assert (forall el, el ∈ elems -> clientKey (el_Object el) = Ok (client_id (el_Object el)) ∧ path (client_id (el_Object el)) = el_Key el) as Hkey.
  { intros el [Hel _]%Hin. by apply client_path, (He (el_Key el) el). }
  assert (NoDup (client_id ∘ el_Object <$> elems)) as Hnd'.
  { apply (NoDup_fmap_1 path). rewrite <- list_fmap_compose. erewrite list_fmap_ext; [exact Hnd|]. intros i el Hi. cbn. apply Hkey. by eapply list_elem_of_lookup_2. }
  set (server := list_to_map ((fun el => (client_id (el_Object el), el_Object el)) <$> elems) : gmap string obj).
  assert (forall id o, server !! id = Some o <-> ∃ el, el ∈ elems ∧ id = client_id (el_Object el) ∧ o = el_Object el) as Hserver.
  { intros id o. unfold server. rewrite <- elem_of_list_to_map by (by rewrite <- list_fmap_compose). rewrite list_elem_of_fmap. split; [intros (el & [= -> ->] & Hel); by exists el|intros (el & Hel & -> & ->); by exists el]. }
  exists server. split; [split|].
  - rewrite Forall_fmap, Forall_forall. intros el Hel. cbn. by rewrite (proj1 (Hkey el Hel)).
  - assert (omap (fun o => match clientKey o with Ok k => Some k | Err _ => None end) (el_Object <$> elems) = client_id ∘ el_Object <$> elems) as ->; [|done].
    clear -Hkey. induction elems as [|el elems IH]; [done|]. destruct (Hkey el ltac:(left)) as [Hel _]. cbn. rewrite Hel. cbn. f_equal. apply IH. intros el' Hel'. apply Hkey. by right.
  - intros id o. rewrite Hserver, list_elem_of_fmap. split.
    + intros (el & Hel & -> & ->). split; [by exists el|]. by apply Hkey.
    + intros [(el & -> & Hel) Hid]. exists el. split; [done|]. split; [|done]. rewrite (proj1 (Hkey el Hel)) in Hid. by injection Hid.
  - intros id. apply option_eq. intros o. rewrite Hserver, selected_lookup by done. split.
    + intros (el & Hel & -> & ->). rewrite (proj2 (Hkey el Hel)). apply Hin in Hel as [-> ->]. done.
    + destruct (m !! path id) as [el|] eqn:Ek; [|done]. pose proof (Hk _ el Ek) as Hek. rewrite <- Hek in Ek |- *. destruct (filterWithAttrsFunction _ _ _ _ _) eqn:Ep; [|done]. intros [= <-].
      assert (el ∈ elems) as Hel by (by apply Hin). exists el. split; [done|]. split; [|done]. apply (inj path). by rewrite (proj2 (Hkey el Hel)).
Qed.

Lemma listed_objects s1 s2 rv : run_inv s1 -> run_inv s2 -> rs_phase s1 = Serving -> rs_phase s2 <> Restarting -> same_list s1 s2 -> rv = wc_resourceVersion (c_watchCache (rs_c s1)) ->
  objects_at s2 rv = store_items (wc_store (c_watchCache (rs_c s1))).
Proof.
  intros Hi1 Hi2 Hp1 Hp2 (Hlv & Hb & more & Hh) ->. pose proof (in_serves _ _ _ _ _ _ Hi1 ltac:(by rewrite Hp1)) as Hs1. pose proof (in_serves _ _ _ _ _ _ Hi2 Hp2) as Hs2.
  unfold objects_at. rewrite (sv_store _ _ _ Hs1), Hb, Hh, filter_app. pose proof (sv_sorted _ _ _ Hs2) as Hsort. rewrite Hlv, Hh, fmap_app in Hsort.
  assert (filter (fun e : wevent => ce_Version e <= wc_resourceVersion (c_watchCache (rs_c s1))) (rs_hist s1) = rs_hist s1) as ->.
  { pose proof (versions_bounded _ _ _ Hs1) as Hb1. clear -Hb1. induction (rs_hist s1) as [|e h IH]; [done|]. rewrite filter_cons, decide_True by (apply Hb1; left). f_equal. apply IH. intros e' He'. apply Hb1. by right. }
  assert (filter (fun e : wevent => ce_Version e <= wc_resourceVersion (c_watchCache (rs_c s1))) more = []) as ->; [|by rewrite app_nil_r].
  assert (forall e, e ∈ more -> wc_resourceVersion (c_watchCache (rs_c s1)) < ce_Version e) as Hmore.
  { intros e He. apply (StronglySorted_app_1_elem_of Z.lt (listResourceVersion (c_watchCache (rs_c s1)) :: (ce_Version <$> rs_hist s1)) (ce_Version <$> more)); [exact Hsort| |by apply list_elem_of_fmap_2].
    apply last_Some_elem_of, (sv_version _ _ _ Hs1). }
  clear -Hmore. induction more as [|e h IH]; [done|]. rewrite filter_cons, decide_False by (pose proof (Hmore e ltac:(left)); lia). apply IH. intros e' He'. apply Hmore. by right.
Qed.

Lemma fed_follows ticks i es : forall server m r, (forall t o, (t, o) ∈ es -> is_change t ∧ is_ok (keyFunc o) = true) -> same_objects server m -> follows clientKey (server, r, i) ->
  ∃ server', rtc (informer_step clientKey range ticks) (server, r, i) (server', feed i r es, i) ∧ same_objects server' (foldl (replay keyFunc) m es).
Proof.
  induction es as [|[t o] es IH]; intros server m r Hes Hm Hf; [exists server; split; [apply rtc_refl|done]|]. destruct (Hes t o ltac:(left)) as [Ht Hk]. destruct (keyFunc o) as [k|] eqn:Ek; [|done]. cbn [foldl feed].
  destruct (client_path o k Ek) as [Hid Hp]. assert (same_objects (server_event server t (client_id o) o) (replay keyFunc m (t, o))) as Hrep.
  { intros id. unfold replay. cbn [fst snd]. rewrite Ek, <- Hp. destruct t; cbn [server_event]; (destruct (decide (client_id o = id)) as [->|Hne];
      [by rewrite ?lookup_insert_eq, ?lookup_delete_eq|rewrite ?lookup_insert_ne, ?lookup_delete_ne by (done || by intros ?%(inj path)); apply Hm]). }
  pose proof (step_watch clientKey range ticks server r i t o (versionOf o) (client_id o) Ht Hid) as Hstep.
  destruct (IH _ _ (watchHandlerHelper clientKey range (indexer i) r (mkEvent t (Some (o, versionOf o)))).1 (fun t' o' Hin => Hes t' o' (list_elem_of_further _ _ _ Hin)) Hrep) as (server' & Hrun & Hm'); [by eapply follows_step|].
  exists server'. split; [|done]. by eapply rtc_l.
Qed.

(** What a watcher is sent are changes of objects with a key. *)
Lemma changes_have_keys s passes rv t o : run_inv s -> stable_keys keyFunc UpdateObject -> rs_phase s <> Restarting -> (t, o) ∈ changes_since UpdateObject s passes rv -> is_change t ∧ is_ok (keyFunc o) = true.
Proof.
  intros Hinv Hst Hp. unfold changes_since. rewrite list_elem_of_omap. intros (e & Hin & Hc). apply list_elem_of_filter in Hin as [_ Hin]. pose proof (in_history _ _ _ _ _ _ Hinv) as Hh. rewrite Forall_forall in Hh.
  destruct (Hh e Hin) as [[[Hk _] Hpk] _]. unfold convertToWatchEvent in Hc. destruct (match ce_Type e with WatchDeleted => false | _ => _ end).
  - destruct (match ce_Prev e with Some _ => _ | None => false end); injection Hc as <- <-; rewrite Hk; (split; [unfold is_change; tauto|done]).
  - destruct (ce_Prev e) as [[[o' ls] fs]|]; [|done]. destruct (passes _ _ _); [|done]. injection Hc as <- <-. cbn. rewrite Hst, (proj1 (Hpk o' ls fs eq_refl)). split; [unfold is_change; tauto|done].
Qed.

(** An informer of the cacher holds its selection.  It lists the objects that its
    selector selects, and then watches from the version of the list; the cache is not listed
    again in between.  Whatever happens meanwhile, the cacher can send it all that is missing;
    when its reflector has been given that and its queue is drained, no step of which fails,
    its store has exactly the objects that are selected now. *)
Lemma informer_holds_its_selection capacity ticks fs ls check s1 timed_out key v pred items rv version s2 n w : (0 < capacity)%nat -> stable_keys keyFunc UpdateObject -> total_indexers fs ->
  rtc step (start_state capacity) s1 -> rs_phase s1 = Serving -> c_List range timed_out (rs_c s1) key v pred = Some (Ok (items, rv)) ->
  rtc step s1 s2 -> same_list s1 s2 -> registered (rs_c s2) n w -> rs_start s2 !! n = Some rv -> cw_filter w = filterWithAttrsFunction key pred ->
  let i := new_informer fs ls check in let r1 := (list_objects clientKey range (indexer i) new_reflector items version).1 in
  ∃ c3 w3, rtc step s2 (mkRun (rs_phase s2) c3 (rs_base s2) (rs_hist s2) (rs_start s2)) ∧ registered c3 n w3 ∧
    let r := feed i r1 (cw_result w3) in
    ∃ server, rtc (informer_step clientKey range ticks) (∅, new_reflector, i) (server, r, i) ∧
    ∃ f' i', drain clientKey range (length (fifo_queue (r_store r))) (r_store r) i = Some (f', i') ∧ fifo_queue f' = [] ∧
      forall id, store_items (indexer i') !! id = Plain <$> selected (filterWithAttrsFunction key pred) (store_items (wc_store (c_watchCache (rs_c s2)))) !! path id.
Proof.
  intros Hcap Hst Hfs Hs1 Hp1 Hl Hs2 Hsame Hr Hrv Hfilter i r1.
  assert (run_inv s1) as Hi1 by (by eapply reachable_inv). assert (run_inv s2) as Hi2 by (by eapply inv_steps).
  destruct (in_start _ _ _ _ _ _ Hi2 n w Hr) as (Hp2 & _). pose proof (in_serves _ _ _ _ _ _ Hi1 ltac:(by rewrite Hp1)) as Hsv1.
  destruct (catch_up range order keyFunc getAttrs UpdateObject triggerFunc P Hrange Horder Hone s2 n w rv Hi2 Hr Hrv) as (c3 & w3 & Hrun3 & Hr3 & _ & Hres). exists c3, w3. split; [done|]. split; [done|]. rewrite Hres. intros r.
  pose proof (new_follows clientKey range Hrange fs ls check Hfs) as Hf0. destruct (selected_lists _ _ _ _ _ _ _ _ _ Hsv1 (in_elems _ _ _ _ _ _ Hi1) Hl) as (server1 & Hlists & Hsame1).
  assert (informer_step clientKey range ticks (∅, new_reflector, i) (server1, r1, i)) as Hlist by (apply step_list; [done|]; intros id; destruct (server1 !! id); [done|]; cbn; unfold pending; cbn; by rewrite lookup_empty).
  pose proof (follows_step clientKey range Hrange ticks _ _ Hlist Hf0) as Hf1.
  destruct (fed_follows ticks i (changes_since UpdateObject s2 (cw_filter w) rv) _ _ r1 (fun t o => changes_have_keys s2 (cw_filter w) rv t o Hi2 Hst Hp2) Hsame1 Hf1) as (server2 & Hfed & Hsame2). fold r in Hfed.
  exists server2. split; [by eapply rtc_l|]. pose proof (run_follows clientKey range Hrange ticks _ _ Hfed Hf1) as [Hc Hso Hpend]. cbn [fst snd] in *.
  destruct (drain_ok clientKey range Hrange _ (r_store r) i eq_refl Hc Hso) as (f' & i' & Hd & Hq & _ & _ & Hitems). exists f', i'. split_and!; [done|done|].
  intros id. rewrite Hitems, Hpend, (Hsame2 id). do 2 f_equal. destruct (List_selects _ _ _ _ _ _ _ _ _ Hsv1 Hl) as [Hver _].
  rewrite <- (listed_objects s1 s2 rv Hi1 Hi2 Hp1 Hp2 Hsame Hver), Hfilter. by eapply changes_replay.
Qed.
End Informers.
End Clients.

(** ** What a watcher misses *)

(** A selector with two alternatives for the indexed field is indexed by the first of them:
    an event of the second is not given to the watcher, though it selects it. *)
Definition either_node : SelectionPredicate :=
  mkPredicate (fun _ => true) true (Fields.orTerm [Fields.hasTerm "spec.nodeName" "x"; Fields.hasTerm "spec.nodeName" "y"]) ["spec.nodeName"%string].

Theorem alternatives_miss_events : ∃ w e, watcher_objs (changed (watched listed 1 either_node) WatchAdded (mkPlaced "b" "y" 2)) !! 0%nat = Some w ∧
  incoming (changed (watched listed 1 either_node) WatchAdded (mkPlaced "b" "y" 2)) = [e] ∧
  convertToWatchEvent placed_update (cw_filter w) e = Some (WatchAdded, mkPlaced "b" "y" 2) ∧ cw_stopped w = false ∧
  interested visit_map visit_numbers placed_trigger (changed (watched listed 1 either_node) WatchAdded (mkPlaced "b" "y" 2)) e = [].
Proof. eexists _, _. split; [vm_compute; reflexivity|]. split; [vm_compute; reflexivity|]. split; [vm_compute; reflexivity|]. split; vm_compute; reflexivity. Qed.

(** A watch that has waited until the cache is ready may be added after the watchers were
    stopped and before the cache is listed again.  It stays, is not told of what the list
    changed, and nothing is left to be dispatched. *)
Definition relisted : Cacher :=
  or_new (c_replace visit_map placed_key placed_attrs (watched (terminateAllWatchers visit_numbers listed) 1 (on_node "y")) [mkPlaced "a" "y" 5] 5).

Theorem watch_during_relist_misses_changes : ∃ w, registered relisted 0 w ∧ cw_stopped w = false ∧ cw_init w = [] ∧ cw_input w = [] ∧ cw_result w = [] ∧ incoming relisted = [] ∧ c_dispatch relisted = None ∧
  selected (cw_filter w) (store_items (wc_store (c_watchCache relisted))) = {["/a"%string := mkPlaced "a" "y" 5]}.
Proof. eexists. split; [split; [vm_compute; reflexivity|vm_compute; reflexivity]|]. do 6 (split; [vm_compute; reflexivity|]). vm_compute. reflexivity. Qed.

(** A watch from version 0 begins with the present objects.  When there are none, it keeps the
    version 0, and is sent the events from before the list that are still to be dispatched:
    here the addition of an object that is gone. *)
Definition emptied : Cacher :=
  or_new (c_replace visit_map placed_key placed_attrs (terminateAllWatchers visit_numbers (changed listed WatchAdded (mkPlaced "b" "y" 2))) [] 9).

Definition given (c : Cacher) : Cacher := match deliver false (startDispatching visit_map visit_numbers placed_trigger c) with Some c => c | None => c end.

Theorem watch_from_zero_sees_old_events : ∃ w, watcher_objs (given (watched emptied 0 (on_node "y"))) !! 0%nat = Some w ∧
  (cw_result <$> process_turn placed_update w) = Some [(WatchAdded, mkPlaced "b" "y" 2)] ∧ selected (cw_filter w) (store_items (wc_store (c_watchCache emptied))) = ∅.
Proof. eexists. split; [vm_compute; reflexivity|]. split; vm_compute; reflexivity. Qed.
