(* ===== verification/EtcdWatch.v ===== *)
(** * Watches of etcd

    Models [apiserver/pkg/storage/etcd3/watcher.go] and [event.go]: how the events of etcd
    become changes of objects, and which keys the watches of an API server with a part of the
    data cover.  etcd, the transformer of values and the codec are parameters; [written] states
    what is relied on of a watch of etcd: every write is reported once, in the order of the
    revisions, with the value that it replaced.  The theorems show that the watch cache of an
    API server, fed by such a watch from the revision of its list on, holds at every moment the
    objects that etcd holds; that a filtered watch is a correct account of the selected
    objects; and that the API servers whose parts follow each other watch every key once,
    apart from those that all are to watch. *)
From S2P Require Import Prelude Types Strconv IndexedStore Informer Revision WatchCache Cacher.
From S2P Require FieldSelector.
Import FieldSelector.

Local Open Scope Z_scope.


(** ** Parts of the data *)

(** (storage/interfaces.go:264-266) *)
Record Interval := mkInterval { iv_Begin : string; iv_End : string }.

(** (core/v1/types.go:6107-6126) *)
Record DataPartitionConfig := mkDataPartition { RangeStart : string; IsRangeStartValid : bool; RangeEnd : string; IsRangeEndValid : bool }.

(** (etcd3/watcher.go:549-551) *)
Record keyRange := mkKeyRange { kr_begin : string; kr_end : string }.

Definition systemTenant : string := "default/".

(** The first key behind those with a prefix: the last byte that can be raised is raised
    (clientv3/op.go:365-378 getPrefix). *)
Fixpoint raise_last (reversed : list ascii) : option (list ascii) :=
  match reversed with
  | [] => None
  | c :: rest => if Nat.ltb (nat_of_ascii c) 255 then Some (ascii_of_nat (S (nat_of_ascii c)) :: rest) else raise_last rest
  end.

(** (clientv3/op.go:361-363) *)
Definition GetPrefixRangeEnd (prefix : string) : string :=
  match raise_last (reverse (String.list_ascii_of_string prefix)) with Some l => String.string_of_list_ascii (reverse l) | None => String zero EmptyString end.

(** (etcd3/watcher.go:162-185) *)
Definition updatePartitionConfig (partitionConfig : gmap string Interval) (dp : DataPartitionConfig) : gmap string Interval :=
  let interval := mkInterval (if IsRangeStartValid dp then RangeStart dp else EmptyString) (if IsRangeEndValid dp then RangeEnd dp else EmptyString) in
  (fun _ => interval) <$> partitionConfig.

(** (etcd3/watcher.go:324-366) *)
Definition getKeyAndOptFromPartitionConfig (partitionConfig : gmap string Interval) (key : string) : list keyRange :=
  match partitionConfig !! key with
  | None => [mkKeyRange key EmptyString]
  | Some val =>
      let updatedKey := if String.eqb (iv_Begin val) "" then key else key +:+ iv_Begin val in
      let updatedEnd :=
        if negb (String.eqb (iv_End val) "") then key +:+ iv_End val
        else if negb (String.eqb (iv_Begin val) "") then GetPrefixRangeEnd key
        else key in
      if negb (String.eqb updatedKey updatedEnd) then
        let systemTenantKey := key +:+ systemTenant in
        mkKeyRange updatedKey updatedEnd ::
        (if String.ltb systemTenantKey updatedKey || String.leb updatedEnd systemTenantKey then [mkKeyRange systemTenantKey (GetPrefixRangeEnd systemTenantKey)] else [])
      else if String.eqb updatedKey key then [mkKeyRange key EmptyString]
      else []
  end.

(** The keys of a watch of all below a key: a range, or all with the prefix
    (etcd3/watcher.go:281-293 startWatching). *)
Definition watches_key (key : string) (kr : keyRange) (k : string) : bool :=
  if negb (String.eqb (kr_begin kr) "") && negb (String.eqb (kr_end kr) "") then String.leb (kr_begin kr) k && String.ltb k (kr_end kr)
  else String.prefix key k.

(** An API server with a part of the data watches a key. *)
Definition server_watches (key : string) (val : Interval) (k : string) : bool := existsb (fun kr => watches_key key kr k) (getKeyAndOptFromPartitionConfig {[key := val]} key).

(** *** The order of keys *)

Lemma ltb_leb s t : String.ltb s t = negb (String.leb t s).
Proof. unfold String.ltb, String.leb. rewrite (String.compare_antisym t s). by destruct (String.compare s t). Qed.

Lemma compare_strip a s t : String.compare (a +:+ s) (a +:+ t) = String.compare s t.
Proof. induction a as [|c a IH]; [done|]. change (String c a +:+ ?x) with (String c (a +:+ x)). cbn. unfold Ascii.compare. by rewrite N.compare_refl. Qed.

Lemma leb_strip a s t : String.leb (a +:+ s) (a +:+ t) = String.leb s t.
Proof. unfold String.leb. by rewrite compare_strip. Qed.

Lemma ltb_strip a s t : String.ltb (a +:+ s) (a +:+ t) = String.ltb s t.
Proof. unfold String.ltb. by rewrite compare_strip. Qed.

Lemma leb_trans s t u : String.leb s t = true -> String.leb t u = true -> String.leb s u = true.
Proof. intros H1 H2. apply Is_true_true. transitivity t; by apply Is_true_true. Qed.

Lemma leb_prefix p k : String.prefix p k = true -> String.leb p k = true.
Proof.
  revert k. induction p as [|c p IH]; intros k; [by destruct k|]. destruct k as [|d k]; [done|]. cbn. destruct (ascii_dec c d) as [<-|]; [|done]. intros Hp%IH. revert Hp. unfold String.leb. cbn. unfold Ascii.compare. by rewrite N.compare_refl.
Qed.

Lemma raised_end t c : Nat.ltb (nat_of_ascii c) 255 = true -> GetPrefixRangeEnd (t +:+ String c EmptyString) = t +:+ String (ascii_of_nat (S (nat_of_ascii c))) EmptyString.
Proof.
  intros Hc. unfold GetPrefixRangeEnd. assert (forall u, String.list_ascii_of_string (t +:+ u) = String.list_ascii_of_string t ++ String.list_ascii_of_string u) as -> by (intros u; induction t as [|d t IH]; [done|]; change (String d t +:+ u) with (String d (t +:+ u)); cbn; by rewrite IH).
  cbn [String.list_ascii_of_string]. rewrite reverse_snoc. cbn [raise_last]. rewrite Hc, reverse_cons, reverse_involutive. clear Hc. induction t as [|d t IH]; [done|]. change (String d t +:+ ?u) with (String d (t +:+ u)). cbn. by rewrite IH.
Qed.

(** The keys from a key up to the end of its prefix are those with the prefix. *)
Lemma prefix_range t c k : Nat.ltb (nat_of_ascii c) 255 = true ->
  String.leb (t +:+ String c EmptyString) k && String.ltb k (GetPrefixRangeEnd (t +:+ String c EmptyString)) = String.prefix (t +:+ String c EmptyString) k.
Proof.
  intros Hc. rewrite raised_end by done. apply Nat.ltb_lt in Hc. revert k. induction t as [|d t IH]; intros k.
  - change ("" +:+ ?x) with x. destruct k as [|e k]; [done|]. unfold String.leb, String.ltb. cbn. unfold Ascii.compare.
    assert (N_of_ascii (ascii_of_nat (S (nat_of_ascii c))) = N.succ (N_of_ascii c)) as ->.
    { rewrite <- (N2Nat.id (N_of_ascii (ascii_of_nat _))). change (N.to_nat (N_of_ascii ?x)) with (nat_of_ascii x). rewrite nat_ascii_embedding by lia. unfold nat_of_ascii. lia. }
    destruct (ascii_dec c e) as [<-|Hne].
    + rewrite N.compare_refl. rewrite (proj2 (N.compare_lt_iff _ _) (N.lt_succ_diag_r _)). by destruct k.
    + assert (N_of_ascii c <> N_of_ascii e) as Hn by (intros H; apply Hne; rewrite <- (ascii_N_embedding c), <- (ascii_N_embedding e); by rewrite H).
      destruct (N.compare_spec (N_of_ascii c) (N_of_ascii e)); [done| |done]. destruct (N.compare_spec (N_of_ascii e) (N.succ (N_of_ascii c))); [|lia|done]. by destruct k.
  - change (String d t +:+ ?x) with (String d (t +:+ x)). destruct k as [|e k]; [done|]. cbn [String.prefix]. unfold String.leb, String.ltb in *. cbn [String.compare]. unfold Ascii.compare. destruct (ascii_dec d e) as [<-|Hne].
    + rewrite N.compare_refl. apply IH.
    + assert (N_of_ascii d <> N_of_ascii e) as Hn by (intros H; apply Hne; rewrite <- (ascii_N_embedding d), <- (ascii_N_embedding e); by rewrite H).
      destruct (N.compare_spec (N_of_ascii d) (N_of_ascii e)); [done| |done]. by destruct (N.compare_spec (N_of_ascii e) (N_of_ascii d)); [lia..|].
Qed.


Lemma prefix_before p e r : String.ltb p e = true -> String.prefix p e = false -> String.prefix p r = true -> String.ltb r e = true.
Proof.
  revert e r. induction p as [|c p IH]; intros e r; [intros _; by destruct e|]. destruct e as [|d e], r as [|c' r]; try done. cbn [String.prefix]. unfold String.ltb in *. cbn [String.compare]. unfold Ascii.compare.
  destruct (ascii_dec c c') as [<-|]; [|done]. destruct (ascii_dec c d) as [<-|Hne]; [rewrite N.compare_refl; apply IH|]. by destruct (N.compare_spec (N_of_ascii c) (N_of_ascii d)) as [H|H|H]; [apply (f_equal ascii_of_N) in H; rewrite !ascii_N_embedding in H|..].
Qed.

Definition in_interval (val : Interval) (rest : string) : bool := String.leb (iv_Begin val) rest && (String.eqb (iv_End val) "" || String.ltb rest (iv_End val)).

Lemma app_not_empty a b : String.eqb (a +:+ String "/" b) "" = false.
Proof. by destruct a. Qed.

Lemma app_prefix a b : String.prefix a (a +:+ b) = true.
Proof. induction a as [|c a IH]; [by destruct b|]. change (String c a +:+ b) with (String c (a +:+ b)). cbn. by destruct (ascii_dec c c). Qed.

Lemma ltb_not_equal s t : String.ltb s t = true -> String.eqb s t = false.
Proof. intros H. destruct (String.eqb_spec s t) as [->|]; [|done]. rewrite ltb_leb in H. apply negb_true_iff in H. assert (String.leb t t = true) by (apply Is_true_true; reflexivity). congruence. Qed.

Section Directory.
Context (dir : string).
Let key := dir +:+ "/".

Lemma below_end rest : String.ltb (key +:+ rest) (GetPrefixRangeEnd key) = true.
Proof. pose proof (prefix_range dir "/" (key +:+ rest) eq_refl) as H. fold key in H. rewrite app_prefix in H. by apply andb_true_iff in H as [_ ?]. Qed.

Lemma prefix_app_strip a p r : String.prefix (a +:+ p) (a +:+ r) = String.prefix p r.
Proof. induction a as [|c a IH]; [done|]. change (String c a +:+ ?x) with (String c (a +:+ x)). cbn. by destruct (ascii_dec c c). Qed.

Lemma system_range rest : watches_key key (mkKeyRange (key +:+ systemTenant) (GetPrefixRangeEnd (key +:+ systemTenant))) (key +:+ rest) = String.prefix systemTenant rest.
Proof.
  assert (key +:+ systemTenant = (key +:+ "default") +:+ "/") as Hsys by (unfold systemTenant; rewrite <- string_app_assoc; done).
  unfold watches_key. cbn [kr_begin kr_end]. assert (String.eqb (key +:+ systemTenant) "" = false) as -> by (by rewrite Hsys, app_not_empty).
  assert (String.eqb (GetPrefixRangeEnd (key +:+ systemTenant)) "" = false) as -> by (rewrite Hsys, raised_end by done; by destruct (key +:+ "default")). cbn [negb andb].
  rewrite Hsys, prefix_range by done. rewrite <- Hsys. apply prefix_app_strip.
Qed.

Lemma key_not_empty rest : String.eqb (key +:+ rest) "" = false.
Proof. unfold key. rewrite <- string_app_assoc. apply app_not_empty. Qed.

(** An API server watches the keys of its interval and those that all watch. *)
Lemma server_watches_exact val rest : String.eqb (iv_End val) "" || String.ltb (iv_Begin val) (iv_End val) = true ->
  String.prefix systemTenant (iv_Begin val) = false -> String.prefix systemTenant (iv_End val) = false ->
  server_watches key val (key +:+ rest) = in_interval val rest || String.prefix systemTenant rest.
Proof.
  destruct val as [b e]. cbn [iv_Begin iv_End]. intros Hval Hb He. unfold server_watches, getKeyAndOptFromPartitionConfig, in_interval. rewrite lookup_singleton_eq. cbn [iv_Begin iv_End].
  assert ((if String.eqb b "" then key else key +:+ b) = key +:+ b) as -> by (destruct (String.eqb_spec b "") as [->|]; [|done]; clear; induction key as [|c k IH]; [done|]; change (String c k +:+ ?x) with (String c (k +:+ x)); by f_equal).
  destruct (String.eqb_spec e "") as [->|Hne]; cbn [negb orb] in Hval |- *.
  - destruct (String.eqb_spec b "") as [->|Hbne]; cbn [negb].
    + assert (key +:+ "" = key) as -> by (clear; induction key as [|c k IH]; [done|]; change (String c k +:+ ?x) with (String c (k +:+ x)); by f_equal). rewrite String.eqb_refl. cbn [negb existsb]. unfold watches_key. cbn [kr_begin kr_end]. rewrite andb_false_r, app_prefix. by destruct rest.
    + rewrite (ltb_not_equal _ _ (below_end b)). cbn [negb existsb]. rewrite ltb_strip. assert (String.leb (GetPrefixRangeEnd key) (key +:+ systemTenant) = false) as -> by (pose proof (below_end systemTenant) as H; rewrite ltb_leb in H; by apply negb_true_iff in H).
      unfold watches_key at 1. cbn [kr_begin kr_end]. rewrite key_not_empty. assert (String.eqb (GetPrefixRangeEnd key) "" = false) as -> by (unfold key; rewrite raised_end by done; by destruct dir). cbn [negb andb]. rewrite leb_strip, below_end, !andb_true_r, orb_false_r.
      destruct (String.ltb systemTenant b) eqn:Es; cbn [existsb]; rewrite ?system_range, ?orb_false_r; [done|]. destruct (String.prefix systemTenant rest) eqn:Ep; [|by rewrite orb_false_r]. rewrite orb_true_r. rewrite ltb_leb in Es. apply negb_false_iff in Es. by apply (leb_trans _ systemTenant), leb_prefix.
  - assert (String.eqb (key +:+ b) (key +:+ e) = false) as -> by (apply ltb_not_equal; by rewrite ltb_strip). cbn [negb existsb]. rewrite ltb_strip, leb_strip. unfold watches_key at 1. cbn [kr_begin kr_end]. rewrite !key_not_empty. cbn [negb andb].
    rewrite leb_strip, ltb_strip. destruct (String.ltb systemTenant b || String.leb e systemTenant) eqn:Es; cbn [existsb]; rewrite ?system_range, ?orb_false_r; [done|].
    destruct (String.prefix systemTenant rest) eqn:Ep; [|by rewrite orb_false_r]. rewrite orb_true_r. apply orb_false_iff in Es as [Es1 Es2]. rewrite ltb_leb in Es1. apply negb_false_iff in Es1.
    rewrite (leb_trans b systemTenant rest Es1 (leb_prefix _ _ Ep)). cbn [andb]. apply (prefix_before systemTenant); [rewrite ltb_leb; by rewrite Es2|done|done].
Qed.

(** Parts of the data that follow each other. *)
Fixpoint intervals (from : string) (bs : list string) : list Interval := match bs with [] => [mkInterval from EmptyString] | b :: bs => mkInterval from b :: intervals b bs end.
Fixpoint ascending (from : string) (bs : list string) : Prop := match bs with [] => True | b :: bs => String.ltb from b = true ∧ ascending b bs end.

Lemma below_all from bs rest : ascending from bs -> String.ltb rest from = true -> forall val, val ∈ intervals from bs -> in_interval val rest = false.
Proof.
  revert from. induction bs as [|b bs IH]; intros from Ha Hr val; cbn [intervals]; assert (String.leb from rest = false) as Hf by (rewrite ltb_leb in Hr; by apply negb_true_iff in Hr).
  - rewrite list_elem_of_singleton. intros ->. unfold in_interval. cbn. by rewrite Hf.
  - destruct Ha as [Hlt Ha]. rewrite elem_of_cons. intros [->|Hin]; [unfold in_interval; cbn; by rewrite Hf|]. apply (IH b Ha); [|done]. rewrite ltb_leb in Hr, Hlt |- *. apply negb_true_iff in Hr, Hlt. apply negb_true_iff.
    destruct (String.leb b rest) eqn:E; [|done]. assert (String.leb from b = true) as Hfb. { destruct (String.leb_total from b); [done|congruence]. } pose proof (leb_trans _ _ _ Hfb E). congruence.
Qed.

Lemma one_interval bs rest : forall from, ascending from bs -> (forall b, b ∈ bs -> b <> EmptyString) -> String.leb from rest = true -> ∃ i, (i < length (intervals from bs))%nat ∧ forall j val, intervals from bs !! j = Some val -> in_interval val rest = bool_decide (j = i).
Proof.
  induction bs as [|b bs IH]; intros from Ha Hne Hr; cbn [intervals].
  - exists O. split; [cbn; lia|]. intros [|j] val; [intros [= <-]; unfold in_interval; cbn; by rewrite Hr|done].
  - destruct Ha as [Hlt Ha]. assert (String.eqb b "" = false) as Hb by (apply String.eqb_neq, Hne; left). destruct (String.ltb rest b) eqn:El.
    + exists O. split; [cbn; lia|]. intros [|j] val; [intros [= <-]; unfold in_interval; cbn; by rewrite Hr, El, Hb|]. cbn. intros Hj. rewrite bool_decide_eq_false_2 by done. apply (below_all b bs rest Ha El). by eapply list_elem_of_lookup_2.
    + rewrite ltb_leb in El. apply negb_false_iff in El. destruct (IH b Ha ltac:(intros; apply Hne; by right) El) as (i & Hi & Hall). exists (S i). split; [cbn; lia|]. intros [|j] val; cbn.
      * intros [= <-]. unfold in_interval. cbn. rewrite Hb, ltb_leb, El. cbn. by rewrite andb_false_r.
      * intros Hj. rewrite (Hall j val Hj). by destruct (decide (j = i)) as [->|]; [rewrite !bool_decide_eq_true_2|rewrite !bool_decide_eq_false_2 by congruence].
Qed.

(** C18.  API servers whose parts of the data follow each other watch every key: a key below a
    path is watched by exactly one of them, and a key that all are to watch by each, when no
    part begins or ends within the latter. *)
Theorem partitions_watch_every_key bs rest : ascending "" bs -> (forall b, b ∈ bs -> String.prefix systemTenant b = false) ->
  if String.prefix systemTenant rest then forall val, val ∈ intervals "" bs -> server_watches key val (key +:+ rest) = true
  else ∃ i, (i < length (intervals "" bs))%nat ∧ forall j val, intervals "" bs !! j = Some val -> server_watches key val (key +:+ rest) = bool_decide (j = i).
Proof.
  intros Ha Hsys. assert (forall from, String.prefix systemTenant from = false -> ascending from bs -> forall val, val ∈ intervals from bs ->
    (String.eqb (iv_End val) "" || String.ltb (iv_Begin val) (iv_End val) = true) ∧ String.prefix systemTenant (iv_Begin val) = false ∧ String.prefix systemTenant (iv_End val) = false) as Hval.
  { clear Ha. induction bs as [|b bs IH]; intros from Hfrom Ha val; cbn [intervals].
    - rewrite list_elem_of_singleton. by intros ->.
    - destruct Ha as [Hlt Ha]. rewrite elem_of_cons. intros [->|Hin]; [cbn; rewrite Hlt, orb_true_r; split_and!; [done|done|apply Hsys; left]|]. apply (IH (fun b' Hb' => Hsys b' (list_elem_of_further _ _ _ Hb')) b); [apply Hsys; left|done|done]. }
  specialize (Hval "" eq_refl Ha). destruct (String.prefix systemTenant rest) eqn:Ep.
  - intros val Hin. destruct (Hval val Hin) as (H1 & H2 & H3). by rewrite (server_watches_exact val rest H1 H2 H3), Ep, orb_true_r.
  - assert (forall b, b ∈ bs -> b <> EmptyString) as Hne.
    { clear -Ha. revert Ha. generalize EmptyString at 1. induction bs as [|b bs IH]; intros from Ha b' Hin; [by apply elem_of_nil in Hin|]. destruct Ha as [Hlt Ha]. apply elem_of_cons in Hin as [->|Hin]; [intros ->; by destruct from|by apply (IH b)]. }
    destruct (one_interval bs rest "" Ha Hne ltac:(by destruct rest)) as (i & Hi & Hall). exists i. split; [done|]. intros j val Hj. destruct (Hval val ltac:(by eapply list_elem_of_lookup_2)) as (H1 & H2 & H3).
    rewrite (server_watches_exact val rest H1 H2 H3), Ep, orb_false_r. by apply Hall.
Qed.
End Directory.

(** ** Events *)

(** What is read of an event of etcd; [me_put] is false for a deletion. *)
Record mvcc_event := mkMvcc { me_put : bool; me_key : string; me_value : string; me_CreateRevision : Z; me_ModRevision : Z; me_PrevKv : option string }.

(** (clientv3/watch.go:103-105) *)
Definition IsCreate (e : mvcc_event) : bool := me_put e && (me_CreateRevision e =? me_ModRevision e).

(** (etcd3/event.go:25-32) *)
Record event := mkEtcdEvent { ev_key : string; ev_value : string; ev_prevValue : string; ev_rev : Z; ev_isDeleted : bool; ev_isCreated : bool }.

(** (etcd3/event.go:35-44) *)
Definition parseKV (key value : string) (ModRevision : Z) : event := mkEtcdEvent key value EmptyString ModRevision false true.

(** (etcd3/event.go:46-63) *)
Definition parseEvent (e : mvcc_event) : result event :=
  if negb (IsCreate e) && bool_decide (me_PrevKv e = None) then Err "etcd event received with PrevKv=nil"
  else Ok (mkEtcdEvent (me_key e) (me_value e) (default EmptyString (me_PrevKv e)) (me_ModRevision e) (negb (me_put e)) (IsCreate e)).

Section Watcher.
Context {obj : Type}.
#[local] Abbreviation wevent := (watchCacheEvent (obj := obj)).
#[local] Abbreviation welem := (storeElement (obj := obj)).
Context (TransformFromStorage : string -> string -> result (string * bool)) (Decode : string -> result obj) (UpdateObject : obj -> Z -> obj) (getAttrs : obj -> result (attrs * attrs)).

(** (storage/selection_predicate.go:157-159 Empty) *)
Definition pred_Empty (s : SelectionPredicate) : bool := Label_Empty s && Fields.Empty (pred_Field s).

(** (storage/selection_predicate.go:101-114 Matches) *)
Definition pred_Matches (s : SelectionPredicate) (o : obj) : result bool :=
  if pred_Empty s then Ok true
  else match getAttrs o with Err e => Err e | Ok (l, f) => Ok (Label_Matches s l && Fields.Matches (pred_Field s) f) end.

(** (etcd3/watcher.go:528-547) *)
Definition decodeObj (data : string) (rev : Z) : result obj := match Decode data with Err e => Err e | Ok o => Ok (UpdateObject o rev) end.

Definition stored_object (key value : string) (rev : Z) : result obj := match TransformFromStorage key value with Err e => Err e | Ok (data, _) => decodeObj data rev end.

Section Channel.
Context (pred : SelectionPredicate).

(** (etcd3/watcher.go:405-407) *)
Definition acceptAll : bool := pred_Empty pred.

(** No object has no attributes (etcd3/watcher.go:397-403 filter). *)
Definition wc_filter (o : option obj) : bool :=
  if pred_Empty pred then true else match o with None => false | Some o => match pred_Matches pred o with Ok matched => matched | Err _ => false end end.

(** The present and the previous object; the previous one is decoded only when it is needed,
    with the revision of the event (etcd3/watcher.go:497-526). *)
Definition prepareObjs (e : event) : result (option obj * option obj) :=
  match (if ev_isDeleted e then Ok None else match stored_object (ev_key e) (ev_value e) (ev_rev e) with Ok o => Ok (Some o) | Err e => Err e end) with
  | Err err => Err err
  | Ok curObj =>
      if negb (String.eqb (ev_prevValue e) "") && (ev_isDeleted e || negb acceptAll) then
        match stored_object (ev_key e) (ev_prevValue e) (ev_rev e) with Ok oldObj => Ok (curObj, Some oldObj) | Err err => Err err end
      else Ok (curObj, None)
  end.

(** (etcd3/watcher.go:410-464) *)
Definition transform (e : event) : result (option (EventType * option obj)) :=
  match prepareObjs e with
  | Err err => Err err
  | Ok (curObj, oldObj) =>
      Ok (if ev_isDeleted e then if wc_filter oldObj then Some (WatchDeleted, oldObj) else None
          else if ev_isCreated e then if wc_filter curObj then Some (WatchAdded, curObj) else None
          else if acceptAll then Some (WatchModified, curObj)
          else match wc_filter curObj, wc_filter oldObj with
               | true, true => Some (WatchModified, curObj)
               | true, false => Some (WatchAdded, curObj)
               | false, true => Some (WatchDeleted, oldObj)
               | false, false => None
               end)
  end.

(** What a watch sends of the events of etcd; an error ends it
    (etcd3/watcher.go:293-312 startWatching). *)
Fixpoint watching (es : list mvcc_event) : list (EventType * option obj) * option string :=
  match es with
  | [] => ([], None)
  | e :: es =>
      match parseEvent e with
      | Err err => ([], Some err)
      | Ok e =>
          match transform e with
          | Err err => ([], Some err)
          | Ok res => let '(sent, err) := watching es in (option_list res ++ sent, err)
          end
      end
  end.
End Channel.

(** ** What etcd holds *)

(** A value with the revisions of its creation and of its last change. *)
#[local] Abbreviation kv := (string * Z * Z)%type.

Definition put_event (m : gmap string kv) (e : mvcc_event) : gmap string kv :=
  if me_put e then <[me_key e := (me_value e, me_CreateRevision e, me_ModRevision e)]> m else delete (me_key e) m.

(** The events are the writes since a revision, each with what it replaced.  A write is a
    transaction of one key, so the revisions rise. *)
Fixpoint written (m : gmap string kv) (rev : Z) (es : list mvcc_event) : Prop :=
  match es with
  | [] => True
  | e :: es =>
      rev < me_ModRevision e < 2 ^ 63 ∧ me_PrevKv e = (fun x => x.1.1) <$> m !! me_key e ∧
      (if me_put e then me_CreateRevision e = match m !! me_key e with None => me_ModRevision e | Some (_, c, _) => c end else is_Some (m !! me_key e)) ∧
      written (put_event m e) (me_ModRevision e) es
  end.

Definition created_before (m : gmap string kv) (rev : Z) : Prop := map_Forall (fun _ x => x.1.2 <= rev) m.


(** ** The account of a watch *)

Context (keyFunc : obj -> result string) (root : string -> string) {Hroot : Inj (=) (=) root}.
(** The version of an object is no part of its key and of its attributes. *)
Hypothesis Hkeys : forall o v, keyFunc (UpdateObject o v) = keyFunc o.
Hypothesis Hattrs : forall o v, getAttrs (UpdateObject o v) = getAttrs o.

(** A value that can be read, of an object with attributes whose path is the key. *)
Definition readable_value (key value : string) : Prop := value <> EmptyString ∧
  ∃ data stale o k, TransformFromStorage key value = Ok (data, stale) ∧ Decode data = Ok o ∧ keyFunc o = Ok k ∧ key = root k ∧ is_ok (getAttrs o) = true.
Definition readable_kvs (m : gmap string kv) : Prop := map_Forall (fun key x => readable_value key x.1.1) m.
Definition readable_events (es : list mvcc_event) : Prop := Forall (fun e => me_put e = true -> readable_value (me_key e) (me_value e)) es.

Lemma stored_readable key value : readable_value key value -> ∃ o k, keyFunc o = Ok k ∧ key = root k ∧ is_ok (getAttrs o) = true ∧ forall rev, stored_object key value rev = Ok (UpdateObject o rev).
Proof. intros (_ & data & stale & o & k & Ht & Hd & Hk & -> & Ha). exists o, k. split_and!; try done. intros rev. unfold stored_object, decodeObj. by rewrite Ht, Hd. Qed.

(** The object under a path. *)
Definition etcd_object (m : gmap string kv) (k : string) : option obj :=
  match m !! root k with Some (value, _, rev) => match stored_object (root k) value rev with Ok o => Some o | Err _ => None end | None => None end.

Section Account.
Context (pred : SelectionPredicate).

Definition passes (o : option obj) : bool := match o with Some _ => wc_filter pred o | None => false end.

Lemma passes_version o v v' : passes (Some (UpdateObject o v)) = passes (Some (UpdateObject o v')).
Proof. unfold passes, wc_filter, pred_Matches. by rewrite !Hattrs. Qed.

(** The objects under the path of an event before and after it, with its revision. *)
Definition before (m : gmap string kv) (e : mvcc_event) : option obj :=
  match m !! me_key e with Some (value, _, _) => match stored_object (me_key e) value (me_ModRevision e) with Ok o => Some o | Err _ => None end | None => None end.
Definition now (e : mvcc_event) : option obj := if me_put e then match stored_object (me_key e) (me_value e) (me_ModRevision e) with Ok o => Some o | Err _ => None end else None.

Lemma transformed m rev e : written m rev [e] -> created_before m rev -> readable_kvs m -> readable_events [e] -> ∃ pe, parseEvent e = Ok pe ∧
  transform pred pe = Ok (match passes (now e), passes (before m e) with
    | true, true => Some (WatchModified, now e) | true, false => Some (WatchAdded, now e) | false, true => Some (WatchDeleted, before m e) | false, false => None end).
Proof.
  intros (Hrev & Hprev & Hput & _) Hc Hm He. unfold parseEvent. apply Forall_cons in He as [He _]. assert (IsCreate e = me_put e && bool_decide (m !! me_key e = None)) as Hcreate.
  { unfold IsCreate. destruct (me_put e); [|done]. cbn. rewrite Hput. destruct (m !! me_key e) as [[[v c] md]|] eqn:E; [|by rewrite Z.eqb_refl]. pose proof (Hc _ _ E) as Hle. cbn in Hle. by destruct (Z.eqb_spec c (me_ModRevision e)); [lia|]. }
  assert (negb (IsCreate e) && bool_decide (me_PrevKv e = None) = false) as ->.
  { rewrite Hcreate, Hprev. destruct (me_put e), (m !! me_key e) as [x|] eqn:E; done || by destruct Hput. }
  eexists. split; [reflexivity|]. rewrite Hcreate, Hprev. unfold transform, prepareObjs, before, now. cbn [ev_isDeleted ev_isCreated ev_key ev_value ev_prevValue ev_rev].
  destruct (m !! me_key e) as [[[v c] md]|] eqn:E; cbn [fmap option_fmap option_map default fst snd from_option id].
  - destruct (Hm _ _ E) as [Hne Hread]. cbn in Hne, Hread. destruct (stored_readable (me_key e) v (conj Hne Hread)) as (o & k & Hk & Hkey & Ha & Ho). rewrite (Ho (me_ModRevision e)), (proj2 (String.eqb_neq v "") Hne). cbn [negb andb].
    destruct (me_put e); cbn [negb orb andb].
    + destruct (stored_readable _ _ (He eq_refl)) as (o' & k' & _ & _ & _ & Ho'). rewrite (Ho' (me_ModRevision e)). unfold acceptAll, passes. destruct (pred_Empty pred) eqn:Ep; cbn [negb].
      * unfold wc_filter. by rewrite Ep.
      * by destruct (wc_filter pred (Some (UpdateObject o' _))), (wc_filter pred (Some (UpdateObject o _))).
    + unfold passes. by destruct (wc_filter pred (Some (UpdateObject o _))).
  - rewrite bool_decide_eq_true_2 by done. destruct (me_put e); [|by destruct Hput]. cbn [negb orb andb]. destruct (stored_readable _ _ (He eq_refl)) as (o' & k' & _ & _ & _ & Ho'). rewrite (Ho' (me_ModRevision e)). reflexivity.
Qed.

Lemma readable_after m e : readable_kvs m -> readable_events [e] -> readable_kvs (put_event m e).
Proof. intros Hm [He _]%Forall_cons. unfold put_event. destruct (me_put e) eqn:Ep; [apply map_Forall_insert_2; [by apply He|done]|by apply map_Forall_delete]. Qed.

Lemma created_after m rev e : written m rev [e] -> created_before m rev -> created_before (put_event m e) (me_ModRevision e).
Proof.
  intros (Hrev & _ & Hput & _) Hc. assert (created_before m (me_ModRevision e)) as Hc' by (intros k x Hx; specialize (Hc k x Hx); cbn in *; lia). unfold put_event.
  destruct (me_put e); [|by apply map_Forall_delete]. apply map_Forall_insert_2; [|done]. cbn. rewrite Hput. destruct (m !! me_key e) as [[[v c] md]|] eqn:E; [|lia]. by specialize (Hc' _ _ E).
Qed.

(** The selected object under a path. *)
Definition selected_object (m : gmap string kv) (k : string) : option obj := let o := etcd_object m k in if passes o then o else None.

(** What a client makes of an event. *)
Definition note (view : gmap string obj) (e : EventType * option obj) : gmap string obj := match e.2 with Some o => replay keyFunc view (e.1, o) | None => view end.

Lemma event_object m rev e : written m rev [e] -> readable_kvs m -> readable_events [e] -> ∃ k, me_key e = root k ∧
  (forall o, now e = Some o -> keyFunc o = Ok k) ∧ (forall o, before m e = Some o -> keyFunc o = Ok k) ∧ etcd_object (put_event m e) k = now e ∧
  passes (before m e) = passes (etcd_object m k) ∧ forall k', k' <> k -> etcd_object (put_event m e) k' = etcd_object m k'.
Proof.
  intros (_ & _ & Hput & _) Hm He. apply Forall_cons in He as [He _]. assert (∃ k, me_key e = root k) as [k Hk].
  { destruct (me_put e) eqn:Ep; [destruct (stored_readable _ _ (He eq_refl)) as (_ & k & _ & Hk & _); by exists k|]. destruct Hput as [x Hx]. destruct (stored_readable _ _ (Hm _ _ Hx)) as (_ & k & _ & Hk & _). by exists k. }
  exists k. split; [done|]. unfold now, before, etcd_object, put_event. rewrite Hk in *. split_and!.
  - intros o. destruct (me_put e); [|done]. destruct (stored_readable _ _ (He eq_refl)) as (o' & k' & Hk' & Heq & _ & ->). intros [= <-]. apply (inj root) in Heq as <-. by rewrite Hkeys.
  - intros o. destruct (m !! root k) as [[[v c] md]|] eqn:E; [|done]. destruct (stored_readable _ _ (Hm _ _ E)) as (o' & k' & Hk' & Heq & _ & ->). intros [= <-]. apply (inj root) in Heq as <-. by rewrite Hkeys.
  - destruct (me_put e); [by rewrite lookup_insert_eq|by rewrite lookup_delete_eq].
  - destruct (m !! root k) as [[[v c] md]|] eqn:E; [|done]. destruct (stored_readable _ _ (Hm _ _ E)) as (o' & k' & _ & _ & _ & Ho). cbn in Ho. rewrite !Ho. apply passes_version.
  - intros k' Hne. destruct (me_put e); [rewrite lookup_insert_ne|rewrite lookup_delete_ne]; try done; by intros ?%(inj root).
Qed.
End Account.


Lemma watching_sent pred e es pe res sent : parseEvent e = Ok pe -> transform pred pe = Ok res -> watching pred es = (sent, None) -> watching pred (e :: es) = (option_list res ++ sent, None).
Proof. intros He Hres Hs. cbn [watching]. by rewrite He, Hres, Hs. Qed.

(** C15.  A filtered watch of etcd is a correct account of the selected objects, when the
    values can be decoded: the writes since a revision, each with what it replaced, become
    additions, changes and deletions of the objects that the selector selects, such that
    whoever knows these objects at that revision and notes the events knows them afterwards;
    and the watch does not fail. *)
Theorem filtered_watch_is_an_account pred es : forall m rev view, written m rev es -> created_before m rev -> readable_kvs m -> readable_events es ->
  (forall k, view !! k = selected_object pred m k) ->
  ∃ sent, watching pred es = (sent, None) ∧ Forall (fun e => is_Some e.2) sent ∧ forall k, foldl note view sent !! k = selected_object pred (foldl put_event m es) k.
Proof.
  induction es as [|e es IH]; intros m rev view Hw Hc Hm He Hview; [by exists []|]. cbn [written] in Hw. destruct Hw as (Hrev & Hprev & Hput & Hw). apply Forall_cons in He as [He Hes].
  assert (written m rev [e]) as Hw1 by exact (conj Hrev (conj Hprev (conj Hput I))). assert (readable_events [e]) as He1 by exact (Forall_cons_2 _ _ _ He (Forall_nil_2 _)).
  destruct (transformed pred m rev e Hw1 Hc Hm He1) as (pe & Hpe & Htr). destruct (event_object pred m rev e Hw1 Hm He1) as (k & Hk & Hknow & Hkbefore & Hnow & Hpass & Hother).
  set (res := match passes pred (now e), passes pred (before m e) with true, true => _ | _, _ => _ end) in Htr.
  assert (Forall (fun x => is_Some x.2) (option_list res) ∧ forall k', foldl note view (option_list res) !! k' = selected_object pred (put_event m e) k') as [Hsome Hview'].
  { assert (forall k', k' <> k -> view !! k' = selected_object pred (put_event m e) k') as Hrest by (intros k' Hne; unfold selected_object; rewrite Hother by done; apply Hview).
    assert (selected_object pred (put_event m e) k = if passes pred (now e) then now e else None) as Hsel by (unfold selected_object; by rewrite Hnow). specialize (Hview k). unfold selected_object in Hview. rewrite <- Hpass in Hview. unfold res.
    destruct (passes pred (now e)) eqn:En, (passes pred (before m e)) eqn:Eb.
    - destruct (now e) as [o|] eqn:Eo; [|done]. split; [by repeat constructor|]. intros k'. cbn. unfold note, replay. cbn [fst snd]. rewrite (Hknow o eq_refl). destruct (decide (k' = k)) as [->|Hne]; [by rewrite lookup_insert_eq|rewrite lookup_insert_ne by done; by apply Hrest].
    - destruct (now e) as [o|] eqn:Eo; [|done]. split; [by repeat constructor|]. intros k'. cbn. unfold note, replay. cbn [fst snd]. rewrite (Hknow o eq_refl). destruct (decide (k' = k)) as [->|Hne]; [by rewrite lookup_insert_eq|rewrite lookup_insert_ne by done; by apply Hrest].
    - destruct (before m e) as [o|] eqn:Eo; [|done]. split; [by repeat constructor|]. intros k'. cbn. unfold note, replay. cbn [fst snd]. rewrite (Hkbefore o eq_refl). destruct (decide (k' = k)) as [->|Hne]; [by rewrite lookup_delete_eq|rewrite lookup_delete_ne by done; by apply Hrest].
    - split; [constructor|]. intros k'. cbn. destruct (decide (k' = k)) as [->|Hne]; [by rewrite Hview|by apply Hrest]. }
  destruct (IH (put_event m e) (me_ModRevision e) (foldl note view (option_list res)) Hw (created_after m rev e Hw1 Hc) (readable_after m e Hm He1) Hes Hview') as (sent & Hsent & Hall & Hfinal).
  exists (option_list res ++ sent). split; [by apply (watching_sent pred e es pe)|]. split; [by apply Forall_app|]. intros k'. rewrite foldl_app. apply Hfinal.
Qed.

(** ** The watch cache *)

Section Cache.
Context (range : forall A : Type, gmap string A -> list (string * A)) (ObjectResourceVersion : obj -> result Z).
Hypothesis Hrange : forall A (m : gmap string A), range A m ≡ₚ map_to_list m.
Hypothesis Hversion : forall o v, ObjectResourceVersion (UpdateObject o v) = Ok v.

(** The predicate of the cacher's reflector. *)
Definition Everything : SelectionPredicate := mkPredicate (fun _ => true) true Fields.Everything [].

Definition mirrors (w : watchCache (obj := obj)) (m : gmap string kv) : Prop := forall k, (el_Object <$> store_items (wc_store w) !! k) = etcd_object m k.

Lemma everything_passes o : passes Everything (Some o) = true.
Proof. done. Qed.

(** One write. *)
Lemma fed_write w base hist m e : serves w base hist -> mirrors w m -> written m (wc_resourceVersion w) [e] -> created_before m (wc_resourceVersion w) -> readable_kvs m -> readable_events [e] ->
  ∃ pe t o w' ev, parseEvent e = Ok pe ∧ transform Everything pe = Ok (Some (t, Some o)) ∧ is_change t ∧ ObjectResourceVersion o = Ok (me_ModRevision e) ∧
    wc_change range keyFunc getAttrs ObjectResourceVersion w t o = Some (Ok (w', ev)) ∧ serves w' base (hist ++ [ev]) ∧ wc_resourceVersion w' = me_ModRevision e ∧ mirrors w' (put_event m e).
Proof.
  intros Hs Hmir Hw1 Hc Hm He1. destruct (transformed Everything m _ e Hw1 Hc Hm He1) as (pe & Hpe & Htr). destruct (event_object Everything m _ e Hw1 Hm He1) as (k & Hk & Hknow & Hkbefore & Hnow & _ & Hother).
  assert (∃ o t, is_change t ∧ transform Everything pe = Ok (Some (t, Some (UpdateObject o (me_ModRevision e)))) ∧ keyFunc o = Ok k ∧ is_ok (getAttrs o) = true ∧
    etcd_object (put_event m e) k = match t with WatchDeleted => None | _ => Some (UpdateObject o (me_ModRevision e)) end) as (o & t & Ht & Htrans & Hko & Ha & Hafter).
  { destruct Hw1 as (_ & _ & Hput & _). apply Forall_cons in He1 as [He1 _]. rewrite Hnow, Htr. unfold now in *. destruct (me_put e) eqn:Ep.
    - destruct (stored_readable _ _ (He1 eq_refl)) as (o & k' & Hk' & Heq & Ha & Ho). rewrite Ho in *. specialize (Hknow _ eq_refl). rewrite Hkeys in Hknow. rewrite everything_passes.
      destruct (passes Everything (before m e)); [exists o, WatchModified|exists o, WatchAdded]; (split; [unfold is_change; tauto|done]).
    - destruct (m !! me_key e) as [[[v c] md]|] eqn:Hx; [|by destruct Hput]. destruct (stored_readable _ _ (Hm _ _ Hx)) as (o & k' & Hk' & Heq & Ha & Ho). cbn in Ho.
      assert (before m e = Some (UpdateObject o (me_ModRevision e))) as Hb by (unfold before; by rewrite Hx, Ho). specialize (Hkbefore _ Hb). rewrite Hkeys in Hkbefore. rewrite Hb, everything_passes.
      exists o, WatchDeleted. split; [unfold is_change; tauto|done]. }
  destruct (getAttrs o) as [[ls fs]|] eqn:Ea; [|done]. destruct Hw1 as (Hrev & _). assert (keyFunc (UpdateObject o (me_ModRevision e)) = Ok k) as Hku by (by rewrite Hkeys). assert (getAttrs (UpdateObject o (me_ModRevision e)) = Ok (ls, fs)) as Hau by (by rewrite Hattrs).
  destruct (processEvent_ok range keyFunc getAttrs Hrange w base hist t _ (me_ModRevision e) k ls fs Hs Ht ltac:(lia) Hku Hau) as (w' & Hrun & Hs' & _ & _ & Hv). set (ev := mkCacheEvent _ _ _ _ _ _ _) in *.
  exists pe, t, (UpdateObject o (me_ModRevision e)), w', ev. split_and!; try done; [unfold wc_change; by rewrite Hversion|].
  intros k'. rewrite (sv_store _ _ _ Hs'), foldl_app. cbn [foldl]. rewrite <- (sv_store _ _ _ Hs). unfold apply_event. change (ce_Key ev) with k. change (ce_Type ev) with t. destruct (decide (k' = k)) as [->|Hne].
  - rewrite Hafter. by destruct t; rewrite ?lookup_insert_eq, ?lookup_delete_eq.
  - rewrite Hother, <- Hmir by done. by destruct t; rewrite ?lookup_insert_ne, ?lookup_delete_ne by done.
Qed.

Lemma fed_writes es : forall w base hist m, serves w base hist -> mirrors w m -> written m (wc_resourceVersion w) es -> created_before m (wc_resourceVersion w) -> readable_kvs m -> readable_events es ->
  ∃ cs w' events, watching Everything es = ((fun c => (c.1, Some c.2)) <$> cs, None) ∧ wc_changes range keyFunc getAttrs ObjectResourceVersion w cs = Some (Ok (w', events)) ∧
    serves w' base (hist ++ events) ∧ mirrors w' (foldl put_event m es) ∧ (fun c => ObjectResourceVersion c.2) <$> cs = (fun e => Ok (me_ModRevision e)) <$> es.
Proof.
  induction es as [|e es IH]; intros w base hist m Hs Hmir Hw Hc Hm He.
  { exists [], w, []. rewrite app_nil_r. by split_and!. }
  cbn [written] in Hw. destruct Hw as (Hrev & Hprev & Hput & Hw). apply Forall_cons in He as [He Hes]. assert (written m (wc_resourceVersion w) [e]) as Hw1 by exact (conj Hrev (conj Hprev (conj Hput I))). assert (readable_events [e]) as He1 by exact (Forall_cons_2 _ _ _ He (Forall_nil_2 _)).
  destruct (fed_write w base hist m e Hs Hmir Hw1 Hc Hm He1) as (pe & t & o & w1 & ev & Hpe & Htr & Ht & Hov & Hrun & Hs1 & Hv1 & Hmir1).
  destruct (IH w1 base (hist ++ [ev]) (put_event m e) Hs1 Hmir1) as (cs & w' & events & Hsent & Hruns & Hs' & Hmir' & Hvers); [by rewrite Hv1|rewrite Hv1; by eapply created_after|by apply readable_after|done|].
  exists ((t, o) :: cs), w', (ev :: events). split_and!.
  - by rewrite (watching_sent Everything e es pe _ _ Hpe Htr Hsent).
  - cbn [wc_changes]. rewrite Hrun. bind_simpl. by rewrite Hruns.
  - by rewrite <- app_assoc in Hs'.
  - done.
  - cbn. by rewrite Hov, Hvers.
Qed.

(** The objects of a list by their keys. *)
Definition listed_map (l : list welem) : gmap string welem := foldl (fun m elem => <[el_Key elem := elem]> m) ∅ l.

(** The watch cache follows etcd: when an API server has listed the objects that etcd holds at
    a revision and is fed by a watch from that revision on, then after any writes, none of
    which is refused or lost, the cache holds under each key exactly the object that etcd holds
    under its path, in its present version. *)
Lemma cache_follows_etcd capacity objs l m rev es : (0 < capacity)%nat -> 0 < rev < 2 ^ 63 -> store_elements keyFunc getAttrs objs = Ok l ->
  (forall k, (el_Object <$> listed_map l !! k) = etcd_object m k) ->
  written m rev es -> created_before m rev -> readable_kvs m -> readable_events es ->
  ∃ w0 cs w events, wc_Replace range keyFunc getAttrs (newWatchCache capacity) objs rev = Some (Ok w0) ∧ watching Everything es = ((fun c => (c.1, Some c.2)) <$> cs, None) ∧
    wc_changes range keyFunc getAttrs ObjectResourceVersion w0 cs = Some (Ok (w, events)) ∧
    (forall k, (el_Object <$> store_items (wc_store w) !! k) = etcd_object (foldl put_event m es) k) ∧ serves w (listed_map l) events ∧
    ce_Version <$> events = me_ModRevision <$> es.
Proof.
  intros Hcap Hrev Hl Hlist Hw Hc Hm He. destruct (Replace_ok range keyFunc getAttrs Hrange (newWatchCache capacity) objs l rev) as (w0 & Hw0 & Hs0 & _ & _ & Hv0); [done|apply length_replicate|done|lia|done|].
  destruct (fed_writes es w0 _ [] m Hs0) as (cs & w & events & Hsent & Hrun & Hs & Hmir & Hvers); [intros k; by rewrite (sv_store _ _ _ Hs0)|by rewrite Hv0..|done|done|].
  exists w0, cs, w, events. split_and!; try done. clear -Hrun Hvers. revert w0 events es Hrun Hvers. induction cs as [|[t o] cs IH]; intros w0 events es Hrun Hvers.
  - cbn in Hrun. injection Hrun as _ <-. by destruct es.
  - destruct es as [|e es]; [done|]. cbn in Hvers. injection Hvers as Ho Hvers. cbn [wc_changes] in Hrun. unfold wc_change in Hrun. rewrite Ho in Hrun. unfold wc_processEvent in Hrun.
    destruct (keyFunc o); [|done]. destruct (getAttrs o) as [[ls fs]|]; [|done]. destruct (updateCache w0 _) as [w1|]; [|done]. bind_simpl in Hrun. destruct (updateFunc range t _ _) as [st|]; [|done]. bind_simpl in Hrun.
    destruct (wc_changes _ _ _ _ _ cs) as [[[w2 evs]|]|] eqn:Er; [|done|done]. bind_simpl in Hrun. injection Hrun as <- <-. cbn. f_equal. by eapply IH.
Qed.
End Cache.
End Watcher.

(** ** Examples *)

(** A value is the name of an object, one character long, with its node. *)
Definition placed_decode (value : string) : result placed := match value with String name node => Ok (mkPlaced (String name EmptyString) node 0) | EmptyString => Err "empty value" end.
Definition placed_transform (key value : string) : result (string * bool) := Ok (value, false).
Definition placed_root (k : string) : string := "/registry/pods" +:+ k.
Definition placed_version (o : placed) : result Z := Ok (pl_version o).

#[local] Instance placed_root_inj : Inj (=) (=) placed_root.
Proof. intros k k' [= Heq]. exact Heq. Qed.

Definition demo_kvs : gmap string (string * Z * Z) := {["/registry/pods/a"%string := ("ax"%string, 1, 1)]}.
Definition demo_writes : list mvcc_event :=
  [mkMvcc true "/registry/pods/b" "by" 2 2 None; mkMvcc true "/registry/pods/a" "ay" 1 3 (Some "ax"%string); mkMvcc false "/registry/pods/b" "" 0 4 (Some "by"%string)].

Lemma demo_written : written demo_kvs 1 demo_writes.
Proof. cbn [written demo_writes me_ModRevision]. split_and!; try lia; try reflexivity; try done. by exists ("by"%string, 2, 2). Qed.

Lemma placed_readable name node : readable_value placed_transform placed_decode placed_attrs placed_key placed_root ("/registry/pods/" +:+ String name EmptyString) (String name node).
Proof. split; [done|]. by exists (String name node), false, (mkPlaced (String name EmptyString) node 0), (String "/" (String name EmptyString)). Qed.

Lemma demo_readable_kvs : readable_kvs placed_transform placed_decode placed_attrs placed_key placed_root demo_kvs.
Proof. apply map_Forall_singleton. exact (placed_readable "a" "x"). Qed.

Lemma demo_readable_events : readable_events placed_transform placed_decode placed_attrs placed_key placed_root demo_writes.
Proof. apply Forall_cons_2; [intros _; exact (placed_readable "b" "y")|]. apply Forall_cons_2; [intros _; exact (placed_readable "a" "y")|]. apply Forall_cons_2; [intros H; discriminate H|apply Forall_nil_2]. Qed.

Lemma demo_created : created_before demo_kvs 1.
Proof. by apply map_Forall_singleton. Qed.

Lemma filtered_watch_is_an_account_witness : ∃ sent, watching placed_transform placed_decode placed_update placed_attrs (on_node "y") demo_writes = (sent, None) ∧
  foldl (note placed_key) ∅ sent !! "/a"%string = Some (mkPlaced "a" "y" 3) ∧ foldl (note placed_key) ∅ sent !! "/b"%string = None.
Proof.
  destruct (filtered_watch_is_an_account placed_transform placed_decode placed_update placed_attrs placed_key placed_root (fun o v => eq_refl) (fun o v => eq_refl) (on_node "y") demo_writes demo_kvs 1 ∅
    demo_written demo_created demo_readable_kvs demo_readable_events) as (sent & Hsent & _ & Hview).
  - intros k. rewrite lookup_empty. unfold selected_object, etcd_object, demo_kvs. destruct (decide (placed_root k = "/registry/pods/a"%string)) as [->|Hne]; [reflexivity|by rewrite lookup_singleton_ne].
  - exists sent. split; [exact Hsent|]. split; rewrite Hview; reflexivity.
Defined.

Lemma partitions_watch_every_key_witness : ∃ i, (i < 3)%nat ∧ forall j val, intervals "" ["f"; "m"]%string !! j = Some val -> server_watches "/registry/pods/" val "/registry/pods/gold/web/p1" = bool_decide (j = i).
Proof.
  pose proof (partitions_watch_every_key "/registry/pods" ["f"; "m"]%string "gold/web/p1") as H. destruct H as (i & Hi & Hall).
  - by split_and!.
  - intros b Hb. rewrite !elem_of_cons, elem_of_nil in Hb. by destruct Hb as [->|[->|[]]].
  - exists i. split; [exact Hi|]. exact Hall.
Defined.
