(* ===== verification/EtcdList.v ===== *)
(** * Lists of etcd

    Models the lists of [apiserver/pkg/storage/etcd3/store.go]: the choice of the storage
    clusters for a key, the pages that are read of each of them, the tokens by which a client
    asks for the next page, and [client-go/tools/pager/pager.go], by which the reflector of the
    watch cache reads all pages.  etcd, the codec, the transformer of values and the text of
    tokens (JSON in base64) are parameters; [range_laws] states what is relied on of a range
    read.  The theorems show that the pages of a list are together exactly the objects that
    etcd held at one revision, in the order of their keys and each once; that a watch cache
    that starts from these pages and follows the watch of that revision holds what etcd holds;
    that a list without pages over several storage clusters has the objects of all of them; and
    when a list reads the cluster of every key below its path. *)
From S2P Require Import Prelude Types Strconv IndexedStore Informer Revision WatchCache Cacher EtcdWatch.
From S2P Require FieldSelector.
Import FieldSelector.

Local Open Scope Z_scope.

(** ** Storage clusters *)

(** A pattern in which a dot stands for any character but a newline. *)
Fixpoint match_here (pattern s : string) : bool :=
  match pattern, s with
  | EmptyString, _ => true
  | String p pattern, String c s => (if Ascii.eqb p "." then negb (Ascii.eqb c "010") else Ascii.eqb p c) && match_here pattern s
  | _, EmptyString => false
  end.

(** [regexp.MatchString] for such a pattern. *)
Fixpoint MatchString (pattern s : string) : bool :=
  match_here pattern s || match s with EmptyString => false | String _ s => MatchString pattern s end.

(** (etcd3/store.go:1073-1078) *)
Definition regexPrefixToCheck : list string :=
  ["services/specs/"; "services/endpoints/"; "apiregistration.k8s.io/apiservices/"; "apiextensions.k8s.io/customresourcedefinitions/"]%string.

(** (etcd3/store.go:1156-1161) *)
Definition getTenantForKey (segs : list string) (posToGet : nat) : string := if Nat.ltb (length segs) (posToGet + 1) then EmptyString else default EmptyString (segs !! posToGet).

Section Routing.
(** The prefix of all keys, the data clusters and the cluster that a tenant is assigned to. *)
Context (pathPrefix : string) (dataClusterClients : gset Z) (GetClusterIdFromTenantHandler : string -> Z).

(** (etcd3/store.go:1142-1154) *)
Definition getClientForTenant (tenant : string) : Z :=
  let clusterId := GetClusterIdFromTenantHandler tenant in
  if clusterId =? 0 then 0 else if bool_decide (clusterId ∈ dataClusterClients) then clusterId else 0.

(** The number of characters before the first segment (etcd3/store.go:1098-1107
    getClientAndClusterIdFromKey). *)
Definition lenPrefix : nat :=
  let n := String.length pathPrefix in
  if Nat.ltb 0 n && negb (String.eqb (String.substring (n - 1) 1 pathPrefix) "/") then S n else n.

(** The number of the cluster, 0 for the system cluster (etcd3/store.go:1097-1139). *)
Definition getClientAndClusterIdFromKey (key : string) : Z :=
  if Nat.ltb (String.length key) lenPrefix then 0
  else
    let concisedKey := String.substring lenPrefix (String.length key - lenPrefix) key in
    let segs := strings_Split concisedKey "/" in
    if Nat.leb (length segs) 2 then 0
    else
      let tenant := if existsb (fun prefix => MatchString prefix key) regexPrefixToCheck then getTenantForKey segs 2 else getTenantForKey segs 1 in
      if String.eqb tenant "" then 0 else getClientForTenant tenant.

(** The clusters that a list reads (etcd3/store.go:1163-1191). *)
Definition getClientsFromKey (key : string) : gset Z :=
  let clusterId := getClientAndClusterIdFromKey key in
  if negb (clusterId =? 0) then {[clusterId]}
  else if String.prefix "/registry/events/" key then {[0]}
  else {[0]} ∪ dataClusterClients.
End Routing.

(** ** Paths *)

(** [path.Clean] of a path that begins with a slash, by its segments; the argument is what
    follows the slash. *)
Definition clean_segment (out : list string) (seg : string) : list string :=
  if String.eqb seg "" || String.eqb seg "." then out else if String.eqb seg ".." then tail out else seg :: out.
Definition Clean_rooted (rest : string) : string := String "/" (Join (reverse (foldl clean_segment [] (strings_Split rest "/"))) "/").

(** [strings.TrimPrefix] *)
Definition TrimPrefix (s prefix : string) : string :=
  if String.prefix prefix s then String.substring (String.length prefix) (String.length s - String.length prefix) s else s.

(** What follows the first character. *)
Definition after_slash (key : string) : string := match key with EmptyString => EmptyString | String _ s => s end.

(** A key with a slash at its end. *)
Definition with_slash (key : string) : string :=
  if String.eqb (String.substring (String.length key - 1) 1 key) "/" then key else key +:+ "/".

(** A key below the prefix of all keys: [path.Join] of both, where the prefix begins with a
    slash, as [path.Join] of a slash and the configured one (etcd3/store.go:624-626 List). *)
Definition join_prefix (pathPrefix key : string) : string :=
  if String.eqb pathPrefix "" then key else Clean_rooted (after_slash (pathPrefix +:+ "/" +:+ key)).
Arguments join_prefix : simpl never.

Definition next_key (lastKey : string) : string := lastKey +:+ String zero EmptyString.

(** ** Answers *)

(** What a list fails with: an expired version with a token to go on, a bad request, or
    something else. *)
Inductive list_error := ResourceExpired (message continue : string) | BadRequest (message : string) | OtherError (message : string).
Inductive outcome (A : Type) := Done (a : A) | Failed (e : list_error).
Arguments Done {A} a.
Arguments Failed {A} e.

(** A call has panicked, goes on, or has returned. *)
Inductive run (A : Type) := Panicked | Pending | Returned (a : A).
Arguments Panicked {A}.
Arguments Pending {A}.
Arguments Returned {A} a.

(** A list with its version, the token for what remains of it, and the number of objects that
    remain. *)
Record api_list {obj : Type} := mkList { li_Items : list obj; li_ResourceVersion : Z; li_Continue : string; li_RemainingItemCount : option Z }.
Arguments api_list : clear implicits.
Arguments mkList {obj} _ _ _ _.

(** (etcd3/store.go:527-533) *)
Record continueToken := mkToken { ClusterId : Z; APIVersion : string; tk_ResourceVersion : Z; StartKey : string; continueKey : string }.

(** (etcd3/store.go:753-761) *)
Record listPartitionResult := mkPartitionResult { lr_clusterId : Z; lr_returnedRV : Z; lr_hasNext : bool; lr_remainingItemCount : option Z; lr_key : string; lr_keyPrefix : string }.

(** What is read of the answer to a range read, and its options: the keys before an end, at
    most so many, at a revision; 0 is no limit and the present revision. *)
Definition key_value : Type := string * string * Z.
Record GetResponse := mkGetResponse { Kvs : list key_value; More : bool; Count : Z; Header_Revision : Z }.
Record OpOptions := mkOp { op_end : string; op_limit : Z; op_rev : Z }.

(** The error of etcd for a revision that it no longer has. *)
Definition ErrCompacted : string := "etcdserver: mvcc: required revision has been compacted".

(** (etcd3/errors.go:34-46) *)
Definition expired : string := "The resourceVersion for the provided list is too old.".
Definition continueExpired : string := "The provided continue parameter is too old to display a consistent list result. You can start a new list without the continue parameter.".
Definition inconsistentContinue : string :=
  "The provided continue parameter is too old to display a consistent list result. You can start a new list without the continue parameter, or use the continue token in this response to retrieve the remainder of the results. Continuing with the provided token results in an inconsistent list - objects that were created, modified, or deleted between the time the first chunk was returned and now may show up in the list.".

Section Lister.
(** Objects and the world with etcd in it. *)
Context {obj W : Type}.
Context (TransformFromStorage : string -> string -> result (string * bool)) (Decode : string -> result obj) (UpdateObject : obj -> Z -> obj) (getAttrs : obj -> result (attrs * attrs)).
(** The text of tokens; a token that is null is read as nil. *)
Context (Marshal : list continueToken -> result string) (Unmarshal : string -> result (list (option continueToken))) (EncodeToString : string -> string) (DecodeString : string -> result string).
(** A range read of a storage cluster. *)
Context (KV_Range : W -> Z -> string -> OpOptions -> result GetResponse * W).
(** Whether the numbers of remaining objects are told, and whether there are pages. *)
Context (RemainingItemCount pagingEnabled : bool).
(** The storage clusters. *)
Context (pathPrefix : string) (dataClusterClients : gset Z) (GetClusterIdFromTenantHandler : string -> Z).
(** The order in which maps are visited. *)
Context (range_ids : gset Z -> list Z) (range_results : gmap Z (outcome listPartitionResult) -> list (Z * outcome listPartitionResult)).

(** *** Tokens *)

(** The checks of one token: the key to start from (etcd3/store.go:548-568 decodeContinue). *)
Definition token_key (keyPrefix : string) (c : continueToken) : result string :=
  if negb (String.eqb (APIVersion c) "meta.k8s.io/v1") then Err "continue key is not valid: server does not recognize this encoded version"
  else if tk_ResourceVersion c =? 0 then Err "continue key is not valid: incorrect encoded start resourceVersion (version meta.k8s.io/v1)"
  else if String.eqb (StartKey c) "" then Err "continue key is not valid: encoded start key empty (version meta.k8s.io/v1)"
  else
    let key := if negb (String.prefix "/" (StartKey c)) then String "/" (StartKey c) else StartKey c in
    let cleaned := Clean_rooted (after_slash key) in
    if negb (String.eqb cleaned key) then Err ("continue key is not valid: " +:+ StartKey c) else Ok (keyPrefix +:+ after_slash cleaned).

(** A nil token panics (etcd3/store.go:546-580 decodeContinue). *)
Fixpoint check_tokens (keyPrefix : string) (foundClusterIds : gset Z) (continueTokens : list (option continueToken)) : option (result (list continueToken)) :=
  match continueTokens with
  | [] => Some (Ok [])
  | None :: _ => None
  | Some c :: rest =>
      match token_key keyPrefix c with
      | Err e => Some (Err e)
      | Ok key =>
          if bool_decide (ClusterId c ∈ foundClusterIds) then Some (Err "continue key is not valid: duplicated cluster id")
          else
            r ← check_tokens keyPrefix ({[ClusterId c]} ∪ foundClusterIds) rest;
            Some (match r with Ok ts => Ok (mkToken (ClusterId c) (APIVersion c) (tk_ResourceVersion c) (StartKey c) key :: ts) | Err e => Err e end)
      end
  end.

(** (etcd3/store.go:537-582) *)
Definition decodeContinue (continueValue keyPrefix : string) : option (result (list continueToken)) :=
  match DecodeString continueValue with
  | Err e => Some (Err ("continue key is not valid: " +:+ e))
  | Ok data => match Unmarshal data with Err e => Some (Err ("continue key is not valid: " +:+ e)) | Ok continueTokens => check_tokens keyPrefix ∅ continueTokens end
  end.

(** (etcd3/store.go:588-601 encodeContinue) *)
Fixpoint tokens_of (listResult : list listPartitionResult) : result (list continueToken) :=
  match listResult with
  | [] => Ok []
  | result :: rest =>
      let nextKey := TrimPrefix (lr_key result) (lr_keyPrefix result) in
      if String.eqb nextKey (lr_key result) then Err "unable to encode next field: the key and key prefix do not match"
      else match tokens_of rest with Err e => Err e | Ok ts => Ok (mkToken (lr_clusterId result) "meta.k8s.io/v1" (lr_returnedRV result) nextKey EmptyString :: ts) end
  end.

(** (etcd3/store.go:585-608) *)
Definition encodeContinue (listResult : list listPartitionResult) : result string :=
  match tokens_of listResult with
  | Err e => Err e
  | Ok continueTokens => match Marshal continueTokens with Err e => Err e | Ok out => Ok (EncodeToString out) end
  end.

(** *** One cluster *)

(** (etcd3/errors.go:59-75) *)
Definition handleCompactedErrorForPaging (continueKey keyPrefix : string) : list_error :=
  match encodeContinue [mkPartitionResult 0 (-1) false None continueKey keyPrefix] with
  | Err _ => ResourceExpired continueExpired EmptyString
  | Ok newToken => ResourceExpired inconsistentContinue newToken
  end.

(** (etcd3/errors.go:48-57) *)
Definition interpretListError (err : string) (paging : bool) (continueKey keyPrefix : string) : list_error :=
  if String.eqb err ErrCompacted then if paging then handleCompactedErrorForPaging continueKey keyPrefix else ResourceExpired expired EmptyString
  else OtherError err.

Section Request.
Context (pred : SelectionPredicate) (Limit : Z) (Continue keyPrefix : string).

(** (etcd3/store.go:635-641 List) *)
Definition paging : bool := pagingEnabled && (0 <? Limit).

Definition full (v : list obj) : bool := paging && (Limit <=? Z.of_nat (length v)).

(** (etcd3/store.go:1207-1219) *)
Definition appendListItem (v : list obj) (data : string) (rev : Z) : result (list obj) :=
  match Decode data with
  | Err e => Err e
  | Ok o => let o := UpdateObject o rev in Ok (match pred_Matches getAttrs pred o with Ok true => v ++ [o] | _ => v end)
  end.

(** Objects are appended until the page is full; with the last key, and whether the page was
    full (etcd3/store.go:847-867 listPartition). *)
Fixpoint append_items (v : list obj) (lastKey : string) (kvs : list key_value) : list obj * outcome (string * bool) :=
  match kvs with
  | [] => (v, Done (lastKey, false))
  | (key, value, ModRevision) :: kvs =>
      if full v then (v, Done (lastKey, true))
      else match TransformFromStorage key value with
           | Err e => (v, Failed (OtherError ("unable to transform key " +:+ key +:+ ": " +:+ e)))
           | Ok (data, _) => match appendListItem v data ModRevision with Err e => (v, Failed (OtherError e)) | Ok v => append_items v key kvs end
           end
  end.

(** What is left to read of a cluster. *)
Record partition := mkPart { pt_key : string; pt_lastKey : string; pt_options : OpOptions; pt_returnedRV : Z; pt_continueKey : string }.

(** One turn of the loop: a read, and the objects of it appended to those of all clusters
    (etcd3/store.go:806-910 listPartition). *)
Definition list_turn (w : W) (v : list obj) (id : Z) (p : partition) : W * list obj * (partition + outcome listPartitionResult) :=
  let '(r, w) := KV_Range w id (pt_key p) (pt_options p) in
  match r with
  | Err e => (w, v, inr (Failed (interpretListError e (negb (String.eqb Continue "")) (pt_continueKey p) keyPrefix)))
  | Ok getResp =>
      if bool_decide (Kvs getResp = []) && More getResp then (w, v, inr (Failed (OtherError "no results were found, but etcd indicated there were more values remaining")))
      else match append_items v (pt_lastKey p) (Kvs getResp) with
           | (v, Failed e) => (w, v, inr (Failed e))
           | (v, Done (lastKey, was_full)) =>
               let hasMore := More getResp || was_full in
               let returnedRV := if pt_returnedRV p =? 0 then Header_Revision getResp else pt_returnedRV p in
               if hasMore && paging && negb (Limit <=? Z.of_nat (length v)) then (w, v, inl (mkPart (next_key lastKey) lastKey (pt_options p) returnedRV (pt_continueKey p)))
               else
                 let remaining := if RemainingItemCount && pred_Empty pred then Some (wrap64 (Count getResp - Limit)) else None in
                 (w, v, inr (Done (if hasMore then mkPartitionResult 0 returnedRV true remaining (next_key lastKey) keyPrefix else mkPartitionResult 0 returnedRV false None EmptyString EmptyString)))
           end
  end.
End Request.

(** *** All clusters *)

(** (etcd3/api_object_versioner.go:86-104) *)
Definition ParseResourceVersion (resourceVersion : string) : result Z :=
  if String.eqb resourceVersion "" || String.eqb resourceVersion "0" then Ok 0 else ParseUint resourceVersion.

(** The clusters of the tokens, by the places of the tokens (etcd3/store.go:660-676 List). *)
Fixpoint token_clients (place : nat) (tokens : list continueToken) : outcome (gset Z) :=
  match tokens with
  | [] => Done ∅
  | _ :: tokens =>
      let clusterId := Z.of_nat place `mod` 256 in
      if negb (Nat.eqb place 0) && negb (bool_decide (clusterId ∈ dataClusterClients)) then Failed (BadRequest ("invalid continue token: <nil>. clusterId " +:+ FormatInt (Z.of_nat place) +:+ " does not exist"))
      else match token_clients (S place) tokens with Done ids => Done ({[clusterId]} ∪ ids) | Failed e => Failed e end
  end.

(** What is to be read of each cluster.  The token of a cluster is that at the place of its
    number, and there is a panic when there is none; the version of one token is kept for the
    clusters that are visited after it (etcd3/store.go:713-729 List). *)
Fixpoint start_parts (tokens : option (list continueToken)) (key : string) (options : OpOptions) (returnedRV : Z) (ids : list Z) : option (list (Z * partition)) :=
  match ids with
  | [] => Some []
  | i :: ids =>
      match tokens with
      | None => ps ← start_parts tokens key options returnedRV ids; Some ((i, mkPart key EmptyString options returnedRV EmptyString) :: ps)
      | Some ts =>
          t ← ts !! Z.to_nat i;
          if 0 <? tk_ResourceVersion t then
            ps ← start_parts tokens key options (tk_ResourceVersion t) ids;
            Some ((i, mkPart (continueKey t) EmptyString (mkOp (op_end options) (op_limit options) (tk_ResourceVersion t)) (tk_ResourceVersion t) (continueKey t)) :: ps)
          else ps ← start_parts tokens key options returnedRV ids; Some ((i, mkPart (continueKey t) EmptyString options returnedRV EmptyString) :: ps)
      end
  end.

#[local] Abbreviation clients_of := (getClientsFromKey pathPrefix dataClusterClients GetClusterIdFromTenantHandler).

(** What is asked of etcd; the key ends with a slash (etcd3/store.go:634-746 List). *)
Definition list_start (Limit : Z) (Continue key resourceVersion : string) : option (outcome (list (Z * partition))) :=
  let options := mkOp (GetPrefixRangeEnd key) (if paging Limit then Limit else 0) 0 in
  if pagingEnabled && negb (String.eqb Continue "") then
    if negb (String.eqb resourceVersion "") && negb (String.eqb resourceVersion "0") then Some (Failed (BadRequest "specifying resource version is not allowed when using continue"))
    else
      r ← decodeContinue Continue key;
      match r with
      | Err e => Some (Failed (BadRequest ("invalid continue token: " +:+ e)))
      | Ok ts =>
          match (if Nat.eqb (length ts) 1 && bool_decide (tk_ResourceVersion <$> head ts = Some (-1)) then Done (clients_of key) else token_clients 0 ts) with
          | Failed e => Some (Failed e)
          | Done clients => ps ← start_parts (Some ts) key options 0 (range_ids clients); Some (Done ps)
          end
      end
  else
    match ParseResourceVersion resourceVersion with
    | Err e => Some (Failed (BadRequest ("invalid resource version: " +:+ e)))
    | Ok fromRV => ps ← start_parts None key (mkOp (op_end options) (op_limit options) (wrap64 fromRV)) (wrap64 fromRV) (range_ids (clients_of key)); Some (Done ps)
    end.

(** The first error of the clusters (etcd3/store.go:764-768 updatelist). *)
Fixpoint results_of (l : list (Z * outcome listPartitionResult)) : outcome (list (Z * listPartitionResult)) :=
  match l with
  | [] => Done []
  | (_, Failed e) :: _ => Failed e
  | (i, Done r) :: l => match results_of l with Done rs => Done ((i, r) :: rs) | Failed e => Failed e end
  end.

Definition uint64 (z : Z) : Z := z `mod` 2 ^ 64.

(** The newest version, the number of what remains and the results with more
    (etcd3/store.go:770-794 updatelist). *)
Definition merge_result (acc : Z * option Z * list listPartitionResult) (r : Z * listPartitionResult) : Z * option Z * list listPartitionResult :=
  let '(returnedRV, remaining, compacted) := acc in
  let '(clusterId, result) := r in
  let returnedRV := if RevisionIsNewer (uint64 (lr_returnedRV result)) (uint64 returnedRV) then lr_returnedRV result else returnedRV in
  if lr_hasNext result then
    let remaining := match lr_remainingItemCount result, remaining with Some c, Some n => Some (wrap64 (n + c)) | Some c, None => Some c | None, n => n end in
    (returnedRV, remaining, compacted ++ [mkPartitionResult clusterId (lr_returnedRV result) true (lr_remainingItemCount result) (lr_key result) (lr_keyPrefix result)])
  else (returnedRV, remaining, compacted).

(** (etcd3/store.go:763-804) *)
Definition updatelist (v : list obj) (listResult : gmap Z (outcome listPartitionResult)) : outcome (api_list obj) :=
  match results_of (range_results listResult) with
  | Failed e => Failed e
  | Done rs =>
      let '(returnedRV, remaining, compacted) := foldl merge_result (0, None, []) rs in
      match compacted with
      | [] => Done (mkList v (uint64 returnedRV) EmptyString None)
      | _ => match encodeContinue compacted with Err e => Failed (OtherError e) | Ok next => Done (mkList v (uint64 returnedRV) next remaining) end
      end
  end.

(** A turn of one of the clusters. *)
Definition list_step (pred : SelectionPredicate) (Limit : Z) (Continue key : string) (st : W * list obj * gmap Z (partition + outcome listPartitionResult)) (id : Z) :
  W * list obj * gmap Z (partition + outcome listPartitionResult) :=
  let '(w, v, parts) := st in
  match parts !! id with
  | Some (inl p) => let '(w, v, r) := list_turn pred Limit Continue key w v id p in (w, v, <[id := r]> parts)
  | _ => st
  end.

Definition finished (p : partition + outcome listPartitionResult) : option (outcome listPartitionResult) := match p with inl _ => None | inr r => Some r end.

(** The list, when the clusters take turns in this order, and the world after it
    (etcd3/store.go:612-751 List). *)
Definition store_List (order : list Z) (w : W) (key resourceVersion : string) (pred : SelectionPredicate) (Limit : Z) (Continue : string) : run (outcome (api_list obj)) * W :=
  let key := with_slash (join_prefix pathPrefix key) in
  match list_start Limit Continue key resourceVersion with
  | None => (Panicked, w)
  | Some (Failed e) => (Returned (Failed e), w)
  | Some (Done ps) =>
      let '(w, v, parts) := foldl (list_step pred Limit Continue key) (w, [], list_to_map (prod_map id inl <$> ps)) order in
      let results := omap finished parts in
      if Nat.eqb (size results) (size parts) then (Returned (updatelist v results), w) else (Pending, w)
  end.

(** ** Pages *)

(** The pages of a list, with a bound on their number; when the version of the list has
    expired it is read at once (tools/pager/pager.go:72-129 List). *)
Fixpoint pager_List (PageFn : W -> Z -> string -> run (outcome (api_list obj)) * W) (FullListIfExpired : bool) (fuel : nat) (w : W) (Limit : Z) (Continue : string) (list : option (list obj * Z)) :
  run (outcome (api_list obj)) * W :=
  match fuel with
  | O => (Pending, w)
  | S fuel =>
      let '(r, w) := PageFn w Limit Continue in
      match r with
      | Returned (Failed e) =>
          match e with
          | ResourceExpired _ _ => if FullListIfExpired then PageFn w 0 EmptyString else (Returned (Failed e), w)
          | _ => (Returned (Failed e), w)
          end
      | Returned (Done m) =>
          let more := negb (String.eqb (li_Continue m) "") in
          match list with
          | None => if more then pager_List PageFn FullListIfExpired fuel w Limit (li_Continue m) (Some (li_Items m, li_ResourceVersion m)) else (Returned (Done m), w)
          | Some (items, rv) =>
              if more then pager_List PageFn FullListIfExpired fuel w Limit (li_Continue m) (Some (items ++ li_Items m, rv))
              else (Returned (Done (mkList (items ++ li_Items m) rv EmptyString None)), w)
          end
      | Panicked => (Panicked, w)
      | Pending => (Pending, w)
      end
  end.

(** A page for the watch cache (cacher/cacher.go:972-985 List). *)
Definition cacherListerWatcher_List (order : list Z) (resourcePrefix : string) (w : W) (Limit : Z) (Continue : string) : run (outcome (api_list obj)) * W :=
  store_List order w resourcePrefix EmptyString Everything Limit Continue.

(** The list of the reflector (tools/cache/reflector.go:297-306
    ListAndWatch). *)
Definition reflector_list (order : list Z) (resourcePrefix : string) (PageSize : Z) (fuel : nat) (w : W) : run (outcome (api_list obj)) * W :=
  pager_List (cacherListerWatcher_List order resourcePrefix) true fuel w PageSize EmptyString None.

(** ** What etcd holds *)

(** A value with the revisions of its creation and of its last change. *)
#[local] Abbreviation kv := (string * Z * Z)%type.

Definition key_before (x y : key_value) : Prop := String.ltb x.1.1 y.1.1 = true.

(** The pairs from a key up to an end, in the order of the keys. *)
Definition is_range (m : gmap string kv) (key end_ : string) (l : list key_value) : Prop :=
  StronglySorted key_before l ∧ forall k value rev, (k, value, rev) ∈ l <-> (∃ created, m !! k = Some (value, created, rev)) ∧ String.leb key k = true ∧ String.ltb k end_ = true.

(** [held] is what a cluster holds at a revision, and [revision] the one that it is at.  A read
    is served at some moment: it answers with the first pairs of the range, at the revision
    that was asked for or at the present one, and tells whether there are more. *)
Record range_laws (valid : W -> Prop) (revision : W -> Z -> Z) (held : Z -> Z -> gmap string kv) : Prop := {
  range_read w id key o resp w' : valid w -> KV_Range w id key o = (Ok resp, w') ->
    valid w' ∧ (forall i, revision w i <= revision w' i) ∧ revision w id <= Header_Revision resp <= revision w' id ∧
    ∃ l, is_range (held id (if op_rev o =? 0 then Header_Revision resp else op_rev o)) key (op_end o) l ∧
      Kvs resp = (if 0 <? op_limit o then take (Z.to_nat (op_limit o)) l else l) ∧ More resp = bool_decide (length (Kvs resp) < length l)%nat ∧ Count resp = Z.of_nat (length l) }.

(** *** Ranges *)

Lemma ltb_irrefl s : String.ltb s s = false.
Proof. rewrite ltb_leb. apply negb_false_iff, Is_true_true. reflexivity. Qed.

Lemma ltb_trans s t u : String.ltb s t = true -> String.ltb t u = true -> String.ltb s u = true.
Proof.
  rewrite !ltb_leb, !negb_true_iff. intros H1 H2. destruct (String.leb u s) eqn:E; [|done]. assert (String.leb s t = true) as H3 by (destruct (String.leb_total s t); congruence). by rewrite (leb_trans _ _ _ E H3) in H2.
Qed.

(** The next key after a key is the least one. *)
Lemma next_key_least k x : String.leb (next_key k) x = String.ltb k x.
Proof.
  unfold next_key. revert x. induction k as [|c k IH]; intros [|d x]; try done.
  - change ("" +:+ ?s) with s. unfold String.leb, String.ltb. cbn. destruct d as [[|] [|] [|] [|] [|] [|] [|] [|]]; try done. by destruct x.
  - change (String c k +:+ ?s) with (String c (k +:+ s)). specialize (IH x). unfold String.leb, String.ltb in *. cbn. by destruct (Ascii.compare c d).
Qed.

#[local] Instance key_before_antisym : AntiSymm (=) key_before.
Proof. intros x y H1 H2. exfalso. pose proof (ltb_trans _ _ _ H1 H2) as H. by rewrite ltb_irrefl in H. Qed.

Lemma pairs_nodup l : StronglySorted key_before l -> NoDup l.
Proof. induction 1 as [|x l Hs IH Hx]; constructor; [|done]. intros Hin. rewrite Forall_forall in Hx. specialize (Hx x Hin). unfold key_before in Hx. by rewrite ltb_irrefl in Hx. Qed.

Lemma range_unique m key end_ l l' : is_range m key end_ l -> is_range m key end_ l' -> l = l'.
Proof.
  intros [Hs Hl] [Hs' Hl']. apply (StronglySorted_unique key_before); [done|done|]. apply NoDup_Permutation; [by apply pairs_nodup..|]. intros [[k value] rev]. by rewrite Hl, Hl'.
Qed.

Lemma sorted_app l1 x l2 : StronglySorted key_before (l1 ++ x :: l2) -> StronglySorted key_before l2 ∧ Forall (fun y => key_before y x) l1 ∧ Forall (key_before x) l2.
Proof.
  induction l1 as [|y l1 IH]; cbn.
  - intros H. apply StronglySorted_inv in H as [H1 H2]. by split_and!.
  - intros H. apply StronglySorted_inv in H as [H1 H2]. destruct (IH H1) as (H3 & H4 & H5). split_and!; try done. constructor; [|done]. apply Forall_app in H2 as [_ H2]. by apply Forall_cons in H2 as [? _].
Qed.

(** The range after one of its keys. *)
Lemma range_after m key end_ l1 x l2 : is_range m key end_ (l1 ++ x :: l2) -> is_range m (next_key x.1.1) end_ l2.
Proof.
  intros [Hs Hl]. destruct (sorted_app l1 x l2 Hs) as (Hs2 & H1 & H2). split; [done|]. intros k value rev. rewrite Forall_forall in H1, H2. rewrite next_key_least.
  assert ((∃ created, m !! x.1.1 = Some (x.1.2, created, x.2)) ∧ String.leb key x.1.1 = true ∧ String.ltb x.1.1 end_ = true) as (_ & Hkx & _) by (destruct x as [[kx vx] rx]; apply Hl, elem_of_app; right; left).
  split.
  - intros Hin. destruct (proj1 (Hl k value rev)) as (Hm & _ & He); [apply elem_of_app; right; by right|]. specialize (H2 _ Hin). by split_and!.
  - intros (Hm & Hlt & He). assert (String.leb key k = true) as Hk by (apply (leb_trans _ x.1.1); [done|]; rewrite ltb_leb, negb_true_iff in Hlt; destruct (String.leb_total x.1.1 k); congruence).
    assert ((k, value, rev) ∈ l1 ++ x :: l2) as Hin by (by apply Hl). apply elem_of_app in Hin as [Hin|Hin].
    + specialize (H1 _ Hin). unfold key_before in H1. cbn in H1. pose proof (ltb_trans _ _ _ H1 Hlt) as H. by rewrite ltb_irrefl in H.
    + apply elem_of_cons in Hin as [<-|Hin]; [|done]. cbn in Hlt. by rewrite ltb_irrefl in Hlt.
Qed.

(** ** One page *)

Definition last_key (d : string) (l : list key_value) : string := match last l with Some x => x.1.1 | None => d end.

Section Page.
Context (pred : SelectionPredicate) (Limit : Z) (Continue keyPrefix : string).
Hypothesis Hpaging : paging Limit = true.

(** The selected object of a pair. *)
Definition item (x : key_value) : list obj :=
  match stored_object TransformFromStorage Decode UpdateObject x.1.1 x.1.2 x.2 with
  | Ok o => match pred_Matches getAttrs pred o with Ok true => [o] | _ => [] end
  | Err _ => []
  end.
Definition matching (l : list key_value) : list obj := concat (item <$> l).
Definition readable_pair (x : key_value) : Prop := is_ok (stored_object TransformFromStorage Decode UpdateObject x.1.1 x.1.2 x.2) = true.

Lemma matching_app l1 l2 : matching (l1 ++ l2) = matching l1 ++ matching l2.
Proof. unfold matching. by rewrite fmap_app, concat_app. Qed.

Lemma item_length x : (length (item x) <= 1)%nat.
Proof. unfold item. destruct (stored_object _ _ _ _ _ _); [|cbn; lia]. by destruct (pred_Matches _ _ _) as [[|]|]; cbn; lia. Qed.

Lemma append_one v lastKey x kvs : readable_pair x -> full Limit v = false -> append_items pred Limit v lastKey (x :: kvs) = append_items pred Limit (v ++ item x) x.1.1 kvs.
Proof.
  destruct x as [[k value] rev]. unfold readable_pair, item, stored_object, decodeObj. cbn [fst snd append_items]. intros Hx ->. destruct (TransformFromStorage k value) as [[data stale]|]; [|done]. unfold appendListItem. destruct (Decode data) as [o|]; [|done].
  destruct (pred_Matches _ _ _) as [[|]|]; by rewrite ?app_nil_r.
Qed.

Lemma full_iff v : full Limit v = (Limit <=? Z.of_nat (length v)).
Proof. unfold full. by rewrite Hpaging. Qed.

(** The pairs whose objects go on the page. *)
Lemma append_items_spec kvs : forall v lastKey, Forall readable_pair kvs -> Z.of_nat (length v) <= Limit ->
  ∃ n, (n <= length kvs)%nat ∧ let v' := v ++ matching (take n kvs) in
    append_items pred Limit v lastKey kvs = (v', Done (last_key lastKey (take n kvs), bool_decide (n < length kvs)%nat)) ∧
    ((n < length kvs)%nat -> full Limit v' = true) ∧ (full Limit v = false -> kvs <> [] -> (0 < n)%nat) ∧ Z.of_nat (length v') <= Limit.
Proof.
  induction kvs as [|x kvs IH]; intros v lastKey Hr Hv.
  { exists O. cbn. unfold matching. cbn. rewrite app_nil_r. split_and!; try done; lia. }
  destruct (full Limit v) eqn:Ef.
  - exists O. cbn [take length]. unfold matching. cbn [fmap list_fmap concat]. rewrite app_nil_r. destruct x as [[k value] rev]. cbn [append_items]. rewrite Ef. split_and!; try done; lia.
  - apply Forall_cons in Hr as [Hx Hr]. destruct (IH (v ++ item x) x.1.1 Hr) as (n & Hn & Happ & Hfull & _ & Hlen).
    { rewrite full_iff in Ef. apply Z.leb_gt in Ef. pose proof (item_length x). rewrite length_app. lia. }
    exists (S n). cbn [length take]. split; [lia|]. cbn zeta in *. assert (v ++ matching (x :: take n kvs) = (v ++ item x) ++ matching (take n kvs)) as -> by (unfold matching; cbn; by rewrite app_assoc). rewrite append_one by done. rewrite Happ. split; [|split; [|split]].
    + do 3 f_equal; [|by destruct (decide (n < length kvs)%nat); [rewrite !bool_decide_eq_true_2 by lia|rewrite !bool_decide_eq_false_2 by lia]].
      unfold last_key. destruct (take n kvs) as [|y l]; [done|]. rewrite (last_cons x), last_cons. by destruct (last l).
    + intros H. apply Hfull. lia.
    + lia.
    + done.
Qed.

Definition returned (p : partition) (resp : GetResponse) : Z := if pt_returnedRV p =? 0 then Header_Revision resp else pt_returnedRV p.

(** One read. *)
Lemma turn_spec w v id p resp w' rest : KV_Range w id (pt_key p) (pt_options p) = (Ok resp, w') -> Kvs resp = take (Z.to_nat Limit) rest -> More resp = bool_decide (length (Kvs resp) < length rest)%nat ->
  Forall readable_pair rest -> Z.of_nat (length v) < Limit ->
  ∃ n remaining, (n <= length rest)%nat ∧ (rest <> [] -> (0 < n)%nat) ∧ let v' := v ++ matching (take n rest) in let k := last_key (pt_lastKey p) (take n rest) in Z.of_nat (length v') <= Limit ∧
    ((n < length rest)%nat -> full Limit v' = true ∨ n = Z.to_nat Limit) ∧
    list_turn pred Limit Continue keyPrefix w v id p = (w', v', 
      if bool_decide (n < length rest)%nat && negb (Limit <=? Z.of_nat (length v')) then inl (mkPart (next_key k) k (pt_options p) (returned p resp) (pt_continueKey p))
      else inr (Done (if bool_decide (n < length rest)%nat then mkPartitionResult 0 (returned p resp) true remaining (next_key k) keyPrefix else mkPartitionResult 0 (returned p resp) false None EmptyString EmptyString))).
Proof.
  intros Hget Hkvs Hmore Hr Hv. destruct (append_items_spec (Kvs resp) v (pt_lastKey p)) as (n & Hn & Happ & Hfull & Hpos & Hlen); [rewrite Hkvs; by apply Forall_take|lia|].
  assert (take n (Kvs resp) = take n rest) as Ht by (rewrite Hkvs, take_take; f_equal; rewrite Hkvs, length_take in Hn; lia). rewrite Ht in *. cbn zeta in *.
  assert (length (Kvs resp) = Z.to_nat Limit `min` length rest)%nat as Hkl by (by rewrite Hkvs, length_take).
  assert (rest <> [] -> (0 < n)%nat) as Hpos'. { intros Hne. apply Hpos; [rewrite full_iff; apply Z.leb_gt; lia|]. intros H0. rewrite H0 in Hkl. cbn in Hkl. destruct rest; [done|]. cbn in Hkl. lia. }
  exists n, (if RemainingItemCount && pred_Empty pred then Some (wrap64 (Count resp - Limit)) else None). split; [lia|]. split; [done|]. split; [done|].
  split; [intros Hless; destruct (decide (n < length (Kvs resp))%nat); [left; by apply Hfull|right; lia]|]. unfold list_turn. rewrite Hget. assert (bool_decide (Kvs resp = []) && More resp = false) as ->.
  { destruct (decide (Kvs resp = [])) as [H0|H0]; [|by rewrite bool_decide_eq_false_2 by done]. rewrite H0 in Hkl. cbn in Hkl. rewrite Hmore, H0, (bool_decide_eq_false_2 (_ < _)%nat), andb_false_r; [done|]. cbn. lia. }
  rewrite Happ, Hpaging. assert (More resp || bool_decide (n < length (Kvs resp))%nat = bool_decide (n < length rest)%nat) as ->.
  { rewrite Hmore. destruct (decide (n < length (Kvs resp))%nat) as [H1|H1]; [rewrite (bool_decide_eq_true_2 _ H1), orb_true_r; symmetry; apply bool_decide_eq_true_2; lia|].
    rewrite (bool_decide_eq_false_2 _ H1), orb_false_r. apply bool_decide_ext. lia. }
  rewrite andb_true_r. fold (returned p resp). by destruct (bool_decide _ && negb _).
Qed.

Lemma last_key_app d l1 l2 : last_key (last_key d l1) l2 = last_key d (l1 ++ l2).
Proof. unfold last_key. rewrite last_app. by destruct (last l2). Qed.

Lemma last_key_split d n (l : list key_value) : (0 < n <= length l)%nat -> ∃ x l1, l = l1 ++ x :: drop n l ∧ last_key d (take n l) = x.1.1 ∧ x ∈ l.
Proof.
  intros Hn. destruct (last (take n l)) as [x|] eqn:E; [|apply last_None in E; destruct l, n; cbn in *; [lia..|done]]. apply last_Some in E as [l1 Hl1]. exists x, l1. assert (l = l1 ++ x :: drop n l) as Hl by (rewrite <- (take_drop n l) at 1; by rewrite Hl1, <- app_assoc). split; [done|].
  split; [unfold last_key; by rewrite Hl1, last_snoc|]. rewrite Hl. apply elem_of_app. right. left.
Qed.

(** The result of a page. *)
Definition page_end (more : bool) (rv : Z) (remaining : option Z) (k : string) : listPartitionResult :=
  if more then mkPartitionResult 0 rv true remaining (next_key k) keyPrefix else mkPartitionResult 0 rv false None EmptyString EmptyString.

Lemma no_more_turns id r order w v : Forall (eq id) order -> foldl (list_step pred Limit Continue keyPrefix) (w, v, {[id := inr r]}) order = (w, v, {[id := inr r]}).
Proof. induction 1 as [|i order <- _ IH]; [done|]. cbn [foldl list_step]. by rewrite lookup_singleton_eq. Qed.

Lemma replicate_all (id : Z) n : Forall (eq id) (replicate n id).
Proof. induction n; by constructor. Qed.

Section Reads.
Context (valid : W -> Prop) (revision : W -> Z -> Z) (held : Z -> Z -> gmap string kv) (id oldest : Z).
Hypothesis Hlaws : range_laws valid revision held.
(** Reads at the present revision and at revisions that are not too old are answered. *)
Hypothesis Hserved : forall w key o, valid w -> op_rev o = 0 ∨ oldest <= op_rev o <= revision w id -> ∃ resp w', KV_Range w id key o = (Ok resp, w').

(** All reads find the same: they ask for one revision, or nothing is written meanwhile. *)
Definition sees (w : W) (o : OpOptions) (m : gmap string kv) : Prop :=
  (0 < op_rev o ∧ oldest <= op_rev o <= revision w id ∧ held id (op_rev o) = m) ∨ (op_rev o = 0 ∧ forall r, revision w id <= r -> held id r = m).

Lemma read_range w key o : valid w -> op_rev o = 0 ∨ oldest <= op_rev o <= revision w id -> op_limit o = Limit ->
  ∃ resp w' rest, KV_Range w id key o = (Ok resp, w') ∧ valid w' ∧ (forall i, revision w i <= revision w' i) ∧ revision w id <= Header_Revision resp <= revision w' id ∧
    is_range (held id (if op_rev o =? 0 then Header_Revision resp else op_rev o)) key (op_end o) rest ∧ Kvs resp = take (Z.to_nat Limit) rest ∧ More resp = bool_decide (length (Kvs resp) < length rest)%nat.
Proof.
  intros Hw Ho Hl. destruct (Hserved w key o Hw Ho) as (resp & w' & Hget). destruct (range_read _ _ _ Hlaws _ _ _ _ _ _ Hw Hget) as (Hw' & Hmono & Hhead & rest & Hrest & Hkvs & Hmore & _). exists resp, w', rest. rewrite Hl in Hkvs.
  assert ((0 <? Limit) = true) as Hpos by (pose proof Hpaging as H; unfold paging in H; apply andb_true_iff in H as [_ H]; exact H). rewrite Hpos in Hkvs. by do 6 (split; [done|]).
Qed.

Lemma read_same w key o m : valid w -> sees w o m -> op_limit o = Limit ->
  ∃ resp w' rest, KV_Range w id key o = (Ok resp, w') ∧ valid w' ∧ (forall i, revision w i <= revision w' i) ∧ revision w id <= Header_Revision resp <= revision w' id ∧
    is_range m key (op_end o) rest ∧ Kvs resp = take (Z.to_nat Limit) rest ∧ More resp = bool_decide (length (Kvs resp) < length rest)%nat ∧ sees w' o m.
Proof.
  intros Hw Hsees Hl. destruct (read_range w key o Hw) as (resp & w' & rest & Hget & Hw' & Hmono & Hhead & Hrest & Hkvs & Hmore); [destruct Hsees as [(_ & H & _)|[H _]]; tauto|done|].
  exists resp, w', rest. split; [done|]. split; [done|]. split; [done|]. split; [done|]. split; [|split; [done|split; [done|]]].
  - destruct Hsees as [(Hp & _ & <-)|[H0 Hm]]; [by rewrite (proj2 (Z.eqb_neq (op_rev o) 0) ltac:(lia)) in Hrest|]. rewrite H0, Z.eqb_refl in Hrest. rewrite Hm in Hrest; [done|lia].
  - pose proof (Hmono id). destruct Hsees as [(Hp & Hb & Hm)|[H0 Hm]]; [left; split_and!; try done; lia|right; split; [done|]]. intros r Hr. apply Hm. lia.
Qed.

(** The turns of a page. *)
Lemma page_loop m fuel : forall w v p rest, valid w -> sees w (pt_options p) m -> op_limit (pt_options p) = Limit -> is_range m (pt_key p) (op_end (pt_options p)) rest -> Forall readable_pair rest ->
  Z.of_nat (length v) < Limit -> 0 < revision w id -> (length rest < fuel)%nat ->
  ∃ n remaining w' rv, (n <= length rest)%nat ∧ (rest <> [] -> (0 < n)%nat) ∧ valid w' ∧ (forall i, revision w i <= revision w' i) ∧
    (if pt_returnedRV p =? 0 then revision w id <= rv <= revision w' id else rv = pt_returnedRV p) ∧ Z.of_nat (length (v ++ matching (take n rest))) <= Limit ∧
    foldl (list_step pred Limit Continue keyPrefix) (w, v, {[id := inl p]}) (replicate fuel id) =
      (w', v ++ matching (take n rest), {[id := inr (Done (page_end (bool_decide (n < length rest)%nat) rv remaining (last_key (pt_lastKey p) (take n rest))))]}).
Proof.
  induction fuel as [|fuel IH]; intros w v p rest Hw Hsees Hl Hrest Hread Hv Hpos Hfuel; [lia|]. cbn [replicate foldl list_step]. rewrite lookup_singleton_eq.
  destruct (read_same w (pt_key p) (pt_options p) m Hw Hsees Hl) as (resp & w1 & rest' & Hget & Hw1 & Hmono & Hhead & Hrest' & Hkvs & Hmore & Hsees1). rewrite (range_unique _ _ _ _ _ Hrest' Hrest) in *. clear rest' Hrest'.
  destruct (turn_spec w v id p resp w1 rest Hget Hkvs Hmore Hread Hv) as (n & remaining & Hn & Hnpos & Hlen & _ & Hturn). cbn zeta in *. rewrite Hturn. set (v1 := v ++ matching (take n rest)) in *. set (k := last_key (pt_lastKey p) (take n rest)) in *. rewrite insert_singleton_eq.
  assert (if pt_returnedRV p =? 0 then revision w id <= returned p resp <= revision w1 id else returned p resp = pt_returnedRV p) as Hrv by (unfold returned; by destruct (pt_returnedRV p =? 0)).
  destruct (bool_decide (n < length rest)%nat && negb (Limit <=? Z.of_nat (length v1))) eqn:Egoon.
  - apply andb_true_iff in Egoon as [Eless Eroom]. apply bool_decide_eq_true in Eless. apply negb_true_iff, Z.leb_gt in Eroom. assert (0 < n)%nat as Hn0 by (apply Hnpos; intros ->; cbn in Eless; lia).
    destruct (last_key_split (pt_lastKey p) n rest ltac:(lia)) as (x & l1 & Hsplit & Hk & _). fold k in Hk.
    destruct (IH w1 v1 (mkPart (next_key k) k (pt_options p) (returned p resp) (pt_continueKey p)) (drop n rest)) as (n2 & rem2 & w2 & rv & Hn2 & _ & Hw2 & Hmono2 & Hrv2 & Hlen2 & Hrun); cbn [pt_key pt_options]; try done.
    { rewrite Hk. apply (range_after m (pt_key p) _ l1). by rewrite <- Hsplit. } { by apply Forall_drop. } { specialize (Hmono id). lia. } { rewrite length_drop. lia. }
    cbn [pt_returnedRV pt_lastKey] in *. rewrite length_drop in Hn2. assert (take (n + n2) rest = take n rest ++ take n2 (drop n rest)) as Ht by (by rewrite take_take_drop).
    exists (n + n2)%nat, rem2, w2, rv. split; [lia|]. split; [lia|]. split; [done|]. split; [intros i; specialize (Hmono i); specialize (Hmono2 i); lia|]. split.
    { assert ((returned p resp =? 0) = false) as Hne by (apply Z.eqb_neq; unfold returned; destruct (Z.eqb_spec (pt_returnedRV p) 0); lia). rewrite Hne in Hrv2. specialize (Hmono2 id). destruct (pt_returnedRV p =? 0); [lia|congruence]. }
    rewrite Ht, matching_app, app_assoc, <- last_key_app. fold v1 k. split; [done|]. rewrite Hrun. do 5 f_equal. apply bool_decide_ext. rewrite length_drop. lia.
  - exists n, remaining, w1, (returned p resp). split_and!; try done. rewrite no_more_turns by apply replicate_all. done.
Qed.

Lemma sorted_keys l : StronglySorted key_before l -> NoDup ((fun x : key_value => x.1.1) <$> l).
Proof.
  induction 1 as [|x l Hs IH Hx]; [constructor|]. cbn. constructor; [|done]. rewrite list_elem_of_fmap. intros (y & Hk & Hy). rewrite Forall_forall in Hx. specialize (Hx y Hy). unfold key_before in Hx. rewrite <- Hk in Hx. by rewrite ltb_irrefl in Hx.
Qed.

Lemma range_size m key end_ l : is_range m key end_ l -> (length l <= size m)%nat.
Proof.
  intros [Hs Hl]. rewrite <- (length_fmap (fun x : key_value => x.1.1) l), <- size_dom. rewrite <- (size_list_to_set (C := gset string)) by (by apply sorted_keys). apply subseteq_size. intros k. rewrite elem_of_list_to_set, list_elem_of_fmap.
  intros ([[k' value] rev] & -> & Hin). apply Hl in Hin as ((created & Hm) & _). by apply elem_of_dom_2 in Hm.
Qed.

(** Without a selector every object of a pair is on the page. *)
Lemma matching_empty l : pred_Empty pred = true -> Forall readable_pair l -> length (matching l) = length l.
Proof.
  intros He. induction 1 as [|x l Hx Hl IH]; [done|]. unfold matching in *. cbn. rewrite length_app, IH. unfold readable_pair, item, pred_Matches in *. rewrite He. by destruct (stored_object _ _ _ _ _ _).
Qed.

(** A page without a selector takes one turn; one with a selector can take several. *)
Definition quiet (w : W) (o : OpOptions) (fuel : nat) : Prop := (pred_Empty pred = true ∧ (0 < fuel)%nat) ∨ (∃ m, sees w o m ∧ (size m < fuel)%nat).

Lemma any_page w p fuel : valid w -> pt_returnedRV p = op_rev (pt_options p) -> op_limit (pt_options p) = Limit ->
  op_rev (pt_options p) = 0 ∨ (0 < op_rev (pt_options p) ∧ oldest <= op_rev (pt_options p) <= revision w id) -> 0 < revision w id -> oldest <= revision w id -> quiet w (pt_options p) fuel ->
  (forall r rest, oldest <= r -> is_range (held id r) (pt_key p) (op_end (pt_options p)) rest -> Forall readable_pair rest) ->
  ∃ r rest n remaining w', valid w' ∧ (forall i, revision w i <= revision w' i) ∧ (if op_rev (pt_options p) =? 0 then revision w id <= r <= revision w' id else r = op_rev (pt_options p)) ∧
    is_range (held id r) (pt_key p) (op_end (pt_options p)) rest ∧ (n <= length rest)%nat ∧ (rest <> [] -> (0 < n)%nat) ∧ Z.of_nat (length (matching (take n rest))) <= Limit ∧
    foldl (list_step pred Limit Continue keyPrefix) (w, [], {[id := inl p]}) (replicate fuel id) =
      (w', matching (take n rest), {[id := inr (Done (page_end (bool_decide (n < length rest)%nat) r remaining (last_key (pt_lastKey p) (take n rest))))]}).
Proof.
  intros Hw Hrv Hl Ho Hpos Hold Hquiet Hread. assert (0 < Limit) as HLimit by (pose proof Hpaging as H; unfold paging in H; apply andb_true_iff in H as [_ H]; by apply Z.ltb_lt).
  destruct Hquiet as [[Hempty Hfuel]|(m & Hsees & Hsize)].
  - destruct (read_range w (pt_key p) (pt_options p) Hw ltac:(tauto) Hl) as (resp & w' & rest & Hget & Hw' & Hmono & Hhead & Hrest & Hkvs & Hmore). set (r := if op_rev (pt_options p) =? 0 then _ else _) in Hrest.
    assert (if op_rev (pt_options p) =? 0 then revision w id <= r <= revision w' id else r = op_rev (pt_options p)) as Hr by (unfold r; by destruct (op_rev (pt_options p) =? 0)).
    assert (returned p resp = r) as Hreturned by (unfold returned; by rewrite Hrv). assert (Forall readable_pair rest) as Hrest_read by (apply (Hread r); [destruct (Z.eqb_spec (op_rev (pt_options p)) 0); lia|done]).
    destruct (turn_spec w [] id p resp w' rest Hget Hkvs Hmore Hrest_read ltac:(cbn; lia)) as (n & remaining & Hn & Hnpos & Hlen & Hfull & Hturn). cbn zeta in *. rewrite Hreturned in Hturn.
    exists r, rest, n, remaining, w'. split; [done|]. split; [done|]. split; [done|]. split; [done|]. split; [done|]. split; [done|]. split; [done|]. destruct fuel as [|fuel]; [lia|]. cbn [replicate foldl list_step]. rewrite lookup_singleton_eq, Hturn, insert_singleton_eq. cbn [app].
    assert (bool_decide (n < length rest)%nat && negb (Limit <=? Z.of_nat (length (matching (take n rest)))) = false) as ->.
    { destruct (decide (n < length rest)%nat) as [Hless|]; [|by rewrite bool_decide_eq_false_2]. rewrite bool_decide_eq_true_2 by done. cbn [andb]. apply negb_false_iff, Z.leb_le. specialize (Hfull Hless). rewrite full_iff in Hfull. cbn [app] in Hfull.
      destruct Hfull as [Hfull| ->]; [by apply Z.leb_le in Hfull|]. rewrite matching_empty, length_take by (done || by apply Forall_take). lia. }
    by rewrite no_more_turns by apply replicate_all.
  - destruct (read_same w (pt_key p) (pt_options p) m Hw Hsees Hl) as (_ & _ & rest & _ & _ & _ & _ & Hrest & _).
    assert (∃ r0, oldest <= r0 ∧ held id r0 = m) as (r0 & Hr0 & Hm0) by (destruct Hsees as [(_ & Hb & Hm)|[_ Hm]]; [exists (op_rev (pt_options p)); split; [lia|done]|exists (revision w id); split; [done|by apply Hm]]).
    destruct (page_loop m fuel w [] p rest Hw Hsees Hl Hrest) as (n & remaining & w' & rv & Hn & Hnpos & Hw' & Hmono & Hrvs & Hlen & Hrun); [apply (Hread r0); by rewrite ?Hm0|cbn; lia|done|pose proof (range_size _ _ _ _ Hrest); lia|].
    rewrite Hrv in Hrvs. exists rv, rest, n, remaining, w'. assert (held id rv = m) as ->; [|by do 7 (split; [done|])].
    destruct Hsees as [(Hp & _ & Hm)|[H0 Hm]]; [by rewrite (proj2 (Z.eqb_neq (op_rev (pt_options p)) 0) ltac:(lia)) in Hrvs; subst rv|]. rewrite H0 in Hrvs. cbn in Hrvs. apply Hm. lia.
Qed.
End Reads.
End Page.

(** ** The token of a page *)

Lemma split_next acc c s : split_from "/" acc (String c s) 0 = if Ascii.eqb c "/" then acc :: split_from "/" "" s 0 else split_from "/" (acc +:+ String c "") s 0.
Proof. cbn [split_from String.prefix]. destruct (ascii_dec "/" c) as [<-|Hne]; [by destruct s|]. by rewrite (proj2 (Ascii.eqb_neq c "/") (not_eq_sym Hne)). Qed.

Lemma split_not_nil s : forall acc, split_from "/" acc s 0 <> [].
Proof. induction s as [|c s IH]; intros acc; [done|]. rewrite split_next. by destruct (Ascii.eqb c "/"). Qed.

Lemma join_split s : forall acc, Join (split_from "/" acc s 0) "/" = acc +:+ s.
Proof.
  induction s as [|c s IH]; intros acc; [by rewrite string_app_nil|]. rewrite split_next. destruct (Ascii.eqb_spec c "/") as [->|_]; [|by rewrite IH, <- string_app_assoc].
  pose proof (split_not_nil s "") as Hne. specialize (IH EmptyString). destruct (split_from "/" "" s 0) as [|v l]; [done|]. rewrite join_cons, IH. done.
Qed.

Lemma split_snoc d s : d <> "/"%char -> forall acc, ∃ l x, split_from "/" acc s 0 = l ++ [x] ∧ split_from "/" acc (s +:+ String d "") 0 = l ++ [x +:+ String d ""].
Proof.
  intros Hd. induction s as [|c s IH]; intros acc.
  - exists [], acc. split; [done|]. change ("" +:+ ?x) with x. rewrite split_next. by rewrite (proj2 (Ascii.eqb_neq d "/") Hd).
  - change (String c s +:+ ?x) with (String c (s +:+ x)). rewrite !split_next. destruct (Ascii.eqb c "/"); [|apply IH]. destruct (IH EmptyString) as (l & x & -> & ->). by exists (acc :: l), x.
Qed.

(** No segment of the path is empty or stands for another. *)
Definition clean_path (s : string) : Prop := Forall (fun seg => seg <> EmptyString ∧ seg <> "."%string ∧ seg <> ".."%string) (strings_Split s "/").

Lemma clean_segments segs : forall out, Forall (fun seg => seg <> EmptyString ∧ seg <> "."%string ∧ seg <> ".."%string) segs -> foldl clean_segment out segs = reverse segs ++ out.
Proof.
  induction segs as [|seg segs IH]; intros out Hs; [done|]. apply Forall_cons in Hs as [(H1 & H2 & H3) Hs]. cbn [foldl]. rewrite IH by done. rewrite reverse_cons, <- app_assoc. unfold clean_segment.
  by rewrite (proj2 (String.eqb_neq _ _) H1), (proj2 (String.eqb_neq _ _) H2), (proj2 (String.eqb_neq _ _) H3).
Qed.

Lemma clean_is_clean s : clean_path s -> Clean_rooted s = String "/" s.
Proof. intros Hs. unfold Clean_rooted. rewrite clean_segments, app_nil_r, reverse_involutive by done. unfold strings_Split. by rewrite join_split. Qed.

Lemma clean_next s : clean_path s -> clean_path (next_key s).
Proof.
  intros Hs. unfold clean_path, strings_Split, next_key in *. destruct (split_snoc zero s ltac:(done) "") as (l & x & Hl & ->). rewrite Hl in Hs. apply Forall_app in Hs as [Hl' Hx]. apply Forall_app. split; [done|]. constructor; [|constructor].
  split_and!; intros He; (destruct x as [|a [|b [|c x]]]; try discriminate He); by injection He.
Qed.

Lemma clean_no_slash s : clean_path s -> String.prefix "/" s = false.
Proof. unfold clean_path, strings_Split. destruct s as [|c s]; [done|]. rewrite split_next. cbn [String.prefix]. destruct (Ascii.eqb_spec c "/") as [->|Hne]; [by intros [[? _] _]%Forall_cons|]. intros _. destruct (ascii_dec "/" c) as [<-|]; done. Qed.

Lemma substring_all s : String.substring 0 (String.length s) s = s.
Proof. induction s as [|c s IH]; [done|]. cbn. by rewrite IH. Qed.

Lemma substring_drop p : forall s n, String.substring (String.length p) n (p +:+ s) = String.substring 0 n s.
Proof. induction p as [|c p IH]; intros s n; [done|]. change (String c p +:+ s) with (String c (p +:+ s)). cbn. apply IH. Qed.

Lemma length_append p s : String.length (p +:+ s) = (String.length p + String.length s)%nat.
Proof. induction p as [|c p IH]; [done|]. change (String c p +:+ s) with (String c (p +:+ s)). cbn. by rewrite IH. Qed.

Lemma trim_prefix p s : TrimPrefix (p +:+ s) p = s.
Proof. unfold TrimPrefix. rewrite app_prefix, length_append, substring_drop. replace (String.length p + String.length s - String.length p)%nat with (String.length s) by lia. apply substring_all. Qed.

(** Characters that JSON keeps. *)
Definition plain_text (s : string) : bool := string_all (fun c => N.ltb (N_of_ascii c) 128) s.

Section Tokens.
(** What is written as a token is read back. *)
Hypothesis Htext : forall ts, Forall (fun t => plain_text (StartKey t) = true ∧ continueKey t = EmptyString) ts ->
  ∃ data, Marshal ts = Ok data ∧ EncodeToString data <> EmptyString ∧ DecodeString (EncodeToString data) = Ok data ∧ Unmarshal data = Ok (Some <$> ts).

(** A result whose next key is below the prefix. *)
Definition token_fits (keyPrefix : string) (r : listPartitionResult) : Prop :=
  lr_keyPrefix r = keyPrefix ∧ lr_returnedRV r <> 0 ∧ ∃ rest, lr_key r = keyPrefix +:+ rest ∧ rest <> EmptyString ∧ clean_path rest ∧ plain_text rest = true.

Definition token_of (r : listPartitionResult) (key : string) : continueToken := mkToken (lr_clusterId r) "meta.k8s.io/v1" (lr_returnedRV r) (TrimPrefix (lr_key r) (lr_keyPrefix r)) key.

Lemma tokens_checked keyPrefix rs : forall found, Forall (token_fits keyPrefix) rs -> NoDup (lr_clusterId <$> rs) -> (forall r, r ∈ rs -> lr_clusterId r ∉ found) ->
  check_tokens keyPrefix found (Some <$> ((fun r => token_of r EmptyString) <$> rs)) = Some (Ok ((fun r => token_of r (lr_key r)) <$> rs)).
Proof.
  induction rs as [|r rs IH]; intros found Hr Hnd Hfound; [done|]. apply Forall_cons in Hr as [(Hp & Hrv & rest & Hkey & Hne & Hclean & _) Hr]. cbn in Hnd. apply NoDup_cons in Hnd as [Hnew Hnd]. cbn [fmap list_fmap check_tokens].
  assert (token_key keyPrefix (token_of r EmptyString) = Ok (lr_key r)) as ->.
  { unfold token_key, token_of. cbn [APIVersion tk_ResourceVersion StartKey]. rewrite Hp, Hkey, trim_prefix, (proj2 (Z.eqb_neq _ _) Hrv), (proj2 (String.eqb_neq _ _) Hne). cbn [negb]. rewrite (clean_no_slash _ Hclean). cbv beta iota zeta delta [negb after_slash]. rewrite (clean_is_clean _ Hclean). by rewrite !String.eqb_refl. }
  cbn [ClusterId token_of]. rewrite bool_decide_eq_false_2 by (apply Hfound; left). rewrite IH; [done|done|done|]. intros r' Hin. rewrite elem_of_union, elem_of_singleton. intros [Heq|Hin']; [apply Hnew; apply list_elem_of_fmap; by exists r'|]. apply (Hfound r'); [by right|done].
Qed.

Lemma next_differs keyPrefix rest : keyPrefix <> EmptyString -> String.eqb rest (keyPrefix +:+ rest) = false.
Proof. intros Hne. apply String.eqb_neq. intros Heq. apply (f_equal String.length) in Heq. rewrite length_append in Heq. destruct keyPrefix; [done|]. cbn in Heq. lia. Qed.

Lemma tokens_read_back keyPrefix rs : keyPrefix <> EmptyString -> Forall (token_fits keyPrefix) rs -> NoDup (lr_clusterId <$> rs) ->
  ∃ text, encodeContinue rs = Ok text ∧ text <> EmptyString ∧ decodeContinue text keyPrefix = Some (Ok ((fun r => token_of r (lr_key r)) <$> rs)).
Proof.
  intros Hne Hr Hnd. assert (tokens_of rs = Ok ((fun r => token_of r EmptyString) <$> rs)) as Hts.
  { clear Hnd. induction Hr as [|r rs (Hp & _ & rest & Hkey & _) _ IH]; [done|]. cbn [tokens_of]. rewrite IH. unfold token_of. rewrite Hp, Hkey, trim_prefix, next_differs by done. cbn. unfold token_of. by rewrite Hp, Hkey, trim_prefix. }
  destruct (Htext ((fun r => token_of r EmptyString) <$> rs)) as (data & Hm & Hd & Hdec & Hun).
  { apply Forall_fmap. eapply Forall_impl; [exact Hr|]. intros r (Hp & _ & rest & Hkey & _ & _ & Hplain). cbn. by rewrite Hp, Hkey, trim_prefix. }
  exists (EncodeToString data). unfold encodeContinue, decodeContinue. rewrite Hts, Hm, Hdec, Hun. split; [done|]. split; [done|]. apply tokens_checked; [done|done|]. intros r _. apply not_elem_of_empty.
Qed.
End Tokens.

(** ** The pages of one cluster *)

Lemma with_slash_ends d : ∃ t, with_slash d = t +:+ "/".
Proof.
  unfold with_slash. destruct (String.eqb_spec (String.substring (String.length d - 1) 1 d) "/") as [He|_]; [|by exists d]. induction d as [|c d IH]; [done|]. destruct d as [|c' d].
  - cbn in He. injection He as ->. by exists EmptyString.
  - destruct IH as [t Ht]; [cbn in He |- *; by rewrite Nat.sub_0_r in *|]. exists (String c t). change (String c t +:+ "/") with (String c (t +:+ "/")). by rewrite Ht.
Qed.

Lemma prefix_rest p : forall k, String.prefix p k = true -> ∃ s, k = p +:+ s.
Proof. induction p as [|c p IH]; intros k Hp; [by exists k|]. destruct k as [|d k]; [done|]. cbn in Hp. destruct (ascii_dec c d) as [<-|]; [|done]. destruct (IH k Hp) as [s ->]. by exists s. Qed.

Lemma newer_than_none r : 0 < r < 2 ^ 63 -> uint64 r = r ∧ RevisionIsNewer (uint64 r) (uint64 0) = true.
Proof.
  intros Hr. assert (uint64 r = r) as Hu by (unfold uint64; apply Z.mod_small; lia). split; [done|]. rewrite Hu. change (uint64 0) with 0. unfold RevisionIsNewer. assert ((0 <? v2MinRevision) = true) as -> by reflexivity. rewrite orb_true_r. apply Z.ltb_lt. lia.
Qed.

Lemma prefix_in_range d k : String.leb (with_slash d) k = true -> String.ltb k (GetPrefixRangeEnd (with_slash d)) = true -> ∃ s, k = with_slash d +:+ s.
Proof. destruct (with_slash_ends d) as [t Ht]. intros H1 H2. apply prefix_rest. rewrite Ht in *. by rewrite <- prefix_range, H1, H2. Qed.

(** The selected objects of all pairs below a path. *)
Lemma matching_elem pred d m rest o : is_range m (with_slash d) (GetPrefixRangeEnd (with_slash d)) rest -> o ∈ matching pred rest <->
  ∃ k value created rev, m !! (with_slash d +:+ k) = Some (value, created, rev) ∧ stored_object TransformFromStorage Decode UpdateObject (with_slash d +:+ k) value rev = Ok o ∧ pred_Matches getAttrs pred o = Ok true.
Proof.
  intros [_ Hl]. unfold matching. rewrite list_elem_of_In, in_concat. split.
  - intros (l & Hin & Ho). apply list_elem_of_In, list_elem_of_fmap in Hin as ([[k value] rev] & -> & Hx). apply Hl in Hx as ((created & Hm) & H1 & H2). destruct (prefix_in_range d k H1 H2) as [s ->].
    unfold item in Ho. cbn [fst snd] in Ho. destruct (stored_object _ _ _ _ _ _) as [o'|] eqn:Eo; [|done]. destruct (pred_Matches getAttrs pred o') as [[|]|] eqn:Ep; [|done|done]. destruct Ho as [<-|[]]. by exists s, value, created, rev.
  - intros (s & value & created & rev & Hm & Ho & Hp). exists (item pred (with_slash d +:+ s, value, rev)). split.
    + apply list_elem_of_In, list_elem_of_fmap. exists (with_slash d +:+ s, value, rev). split; [done|]. apply Hl. split; [by exists created|]. destruct (with_slash_ends d) as [t Ht]. pose proof (prefix_range t "/" (with_slash d +:+ s) eq_refl) as H. rewrite Ht in H |- *. rewrite app_prefix in H. by apply andb_true_iff in H.
    + unfold item. cbn [fst snd]. rewrite Ho, Hp. by left.
Qed.

Section Single.
Context (pred : SelectionPredicate) (Limit : Z) (resource : string) (turns : nat).
Context (valid : W -> Prop) (revision : W -> Z -> Z) (held : Z -> Z -> gmap string kv) (oldest : Z).
Hypothesis Hpaging : paging Limit = true.
Hypothesis Hlaws : range_laws valid revision held.
Hypothesis Hserved : forall w key o, valid w -> op_rev o = 0 ∨ oldest <= op_rev o <= revision w 0 -> ∃ resp w', KV_Range w 0 key o = (Ok resp, w').
Hypothesis Hrevisions : forall w, valid w -> 0 < oldest <= revision w 0 ∧ revision w 0 < 2 ^ 63.
Hypothesis Htext : forall ts, Forall (fun t => plain_text (StartKey t) = true ∧ continueKey t = EmptyString) ts ->
  ∃ data, Marshal ts = Ok data ∧ EncodeToString data <> EmptyString ∧ DecodeString (EncodeToString data) = Ok data ∧ Unmarshal data = Ok (Some <$> ts).
Hypothesis Hids : forall s, range_ids s ≡ₚ elements s.
Hypothesis Hresults : forall m, range_results m ≡ₚ map_to_list m.
Hypothesis Hone : dataClusterClients = ∅.
(** The path that is listed. *)
#[local] Abbreviation dir := (join_prefix pathPrefix resource).
(** The objects below the path can be read and have plain keys. *)
Hypothesis Hobjects : forall r rest value created rev, oldest <= r -> held 0 r !! (with_slash dir +:+ rest) = Some (value, created, rev) -> readable_pair (with_slash dir +:+ rest, value, rev) ∧ clean_path rest ∧ plain_text rest = true.

#[local] Abbreviation key := (with_slash dir).
#[local] Abbreviation end_ := (GetPrefixRangeEnd (with_slash dir)).

(** The pairs of a range below the path. *)
Lemma range_objects r from rest : oldest <= r -> String.leb key from = true -> is_range (held 0 r) from end_ rest ->
  Forall readable_pair rest ∧ forall x, x ∈ rest -> ∃ s, x.1.1 = key +:+ s ∧ clean_path s ∧ plain_text s = true.
Proof.
  intros Hr Hfrom [_ Hl]. rewrite Forall_forall. assert (forall x, x ∈ rest -> readable_pair x ∧ ∃ s, x.1.1 = key +:+ s ∧ clean_path s ∧ plain_text s = true) as H; [|by split; intros x Hx; apply H].
  intros [[k value] rev] Hin. apply Hl in Hin as ((created & Hm) & H1 & H2). destruct (prefix_in_range dir k (leb_trans _ _ _ Hfrom H1) H2) as [s ->]. destruct (Hobjects r s value created rev Hr Hm) as (H3 & H4 & H5). split; [done|]. by exists s.
Qed.

Lemma next_key_app p s : next_key (p +:+ s) = p +:+ next_key s.
Proof. unfold next_key. by rewrite <- string_app_assoc. Qed.

Lemma plain_next s : plain_text s = true -> plain_text (next_key s) = true.
Proof. unfold plain_text, next_key. induction s as [|c s IH]; [done|]. change (String c s +:+ ?x) with (String c (s +:+ x)). cbn. rewrite !andb_true_iff. intros [H1 H2]. split; [done|by apply IH]. Qed.

Lemma one_client k : getClientsFromKey pathPrefix dataClusterClients GetClusterIdFromTenantHandler k = {[0]}.
Proof.
  unfold getClientsFromKey. assert (getClientAndClusterIdFromKey pathPrefix dataClusterClients GetClusterIdFromTenantHandler k = 0) as ->.
  { unfold getClientAndClusterIdFromKey, getClientForTenant. rewrite Hone. repeat case_match; done || (rewrite bool_decide_eq_false_2 in * by set_solver; done). }
  cbn. rewrite Hone. destruct (String.prefix _ k); [done|]. apply leibniz_equiv. set_solver.
Qed.

Lemma ids_one : range_ids {[0]} = [0].
Proof. apply Permutation_singleton_r. by rewrite (Hids {[0]}), elements_singleton. Qed.

Lemma results_one r : range_results {[0 := r]} = [(0, r)].
Proof. apply Permutation_singleton_r. by rewrite (Hresults {[0 := r]}), map_to_list_singleton. Qed.

(** The list that is made of the result of a page. *)
Lemma page_made r more remaining k v s : 0 < r < 2 ^ 63 -> k = key +:+ s -> clean_path s -> plain_text s = true ->
  ∃ text remaining', updatelist v {[0 := Done (page_end key more r remaining k)]} = Done (mkList v r text remaining') ∧
    if more then text <> EmptyString ∧ ∃ sk, decodeContinue text key = Some (Ok [mkToken 0 "meta.k8s.io/v1" r sk (next_key k)]) else text = EmptyString ∧ remaining' = None.
Proof.
  intros Hr -> Hclean Hplain. unfold updatelist. rewrite results_one. cbn [results_of foldl merge_result]. assert (lr_returnedRV (page_end key more r remaining (key +:+ s)) = r) as -> by (by destruct more).
  destruct (newer_than_none r Hr) as [Hu ->].
  destruct more; cbn [page_end lr_hasNext lr_remainingItemCount lr_key lr_keyPrefix]; [|rewrite Hu; by exists EmptyString, None].
  destruct (tokens_read_back Htext key [mkPartitionResult 0 r true remaining (next_key (key +:+ s)) key]) as (text & Henc & Hne & Hdec).
  - destruct (with_slash_ends dir) as [t ->]. by destruct t.
  - constructor; [|constructor]. split; [done|]. split; [cbn; lia|]. exists (next_key s). cbn. rewrite next_key_app. split; [done|]. split; [unfold next_key; by destruct s|]. split; [by apply clean_next|by apply plain_next].
  - cbn. apply NoDup_singleton.
  - cbn [app]. rewrite Henc, Hu. eexists text, _. split; [reflexivity|]. split; [done|]. cbn in Hdec. eexists. exact Hdec.
Qed.

#[local] Abbreviation settled := (quiet pred revision held 0 oldest).

(** One page of the list. *)
Lemma listed_page w p Continue resourceVersion : valid w -> list_start Limit Continue key resourceVersion = Some (Done [(0, p)]) -> op_limit (pt_options p) = Limit -> op_end (pt_options p) = end_ ->
  pt_returnedRV p = op_rev (pt_options p) -> op_rev (pt_options p) = 0 ∨ oldest <= op_rev (pt_options p) <= revision w 0 -> String.leb key (pt_key p) = true -> settled w (pt_options p) turns ->
  ∃ r rest n remaining text w', valid w' ∧ revision w 0 <= revision w' 0 ∧ (if op_rev (pt_options p) =? 0 then revision w 0 <= r <= revision w' 0 else r = op_rev (pt_options p)) ∧
    is_range (held 0 r) (pt_key p) end_ rest ∧ (n <= length rest)%nat ∧ (rest <> [] -> (0 < n)%nat) ∧ Z.of_nat (length (matching pred (take n rest))) <= Limit ∧
    store_List (replicate turns 0) w resource resourceVersion pred Limit Continue = (Returned (Done (mkList (matching pred (take n rest)) r text remaining)), w') ∧
    if bool_decide (n < length rest)%nat then text <> EmptyString ∧ ∃ k sk, decodeContinue text key = Some (Ok [mkToken 0 "meta.k8s.io/v1" r sk k]) ∧ is_range (held 0 r) k end_ (drop n rest) ∧ String.leb key k = true else text = EmptyString ∧ remaining = None.
Proof.
  intros Hw Hstart Hl He Hrv Ho Hfrom Hquiet. destruct (Hrevisions w Hw) as [Hold Hmax].
  destruct (any_page pred Limit Continue key Hpaging valid revision held 0 oldest Hlaws Hserved w p turns Hw Hrv Hl) as (r & rest & n & remaining & w' & Hw' & Hmono & Hr & Hrest & Hn & Hnpos & Hlen & Hrun); [destruct Ho; [by left|right; lia]|lia|lia|done| |].
  { intros r rest Hr Hrest. rewrite He in Hrest. by apply (range_objects r (pt_key p)). }
  rewrite He in Hrest. destruct (Hrevisions w' Hw') as [Hold' Hmax']. assert (0 < r < 2 ^ 63 ∧ oldest <= r) as [Hr63 Hold'']. { pose proof (Hmono 0). destruct (Z.eqb_spec (op_rev (pt_options p)) 0); [lia|]. destruct Ho; lia. }
  destruct (range_objects r (pt_key p) rest Hold'' Hfrom Hrest) as [_ Hplain]. set (more := bool_decide (n < length rest)%nat) in *. set (k := last_key (pt_lastKey p) (take n rest)) in *.
  assert (more = true -> ∃ x l1, rest = l1 ++ x :: drop n rest ∧ k = x.1.1 ∧ ∃ s, k = key +:+ s ∧ clean_path s ∧ plain_text s = true) as Hlast.
  { intros Hmore. apply bool_decide_eq_true in Hmore. destruct (last_key_split (pt_lastKey p) n rest) as (x & l1 & Hsplit & Hk & Hin). { split; [apply Hnpos; intros ->; cbn in Hmore; lia|done]. } exists x, l1. split; [done|]. split; [done|]. unfold k. rewrite Hk. by apply Hplain. }
  assert (∃ text remaining', updatelist (matching pred (take n rest)) {[0 := Done (page_end key more r remaining k)]} = Done (mkList (matching pred (take n rest)) r text remaining') ∧
    if more then text <> EmptyString ∧ ∃ sk, decodeContinue text key = Some (Ok [mkToken 0 "meta.k8s.io/v1" r sk (next_key k)]) else text = EmptyString ∧ remaining' = None) as (text & remaining' & Hup & Htok).
  { destruct more eqn:Em; [destruct (Hlast eq_refl) as (x & l1 & _ & _ & s & Hs & Hc & Hp); by apply (page_made r true remaining k _ s)|].
    change (page_end key false r remaining k) with (page_end key false r remaining (key +:+ "a")). apply (page_made r false remaining (key +:+ "a") _ "a"); [done|done|by repeat constructor|done]. }
  exists r, rest, n, remaining', text, w'. split; [done|]. split; [done|]. split; [done|]. split; [done|]. split; [done|]. split; [done|]. split; [done|]. split.
  - unfold store_List. rewrite Hstart. assert ((list_to_map (prod_map id inl <$> [(0, p)]) : gmap Z (partition + outcome listPartitionResult)) = {[0 := inl p]}) as -> by (cbn; by rewrite insert_empty). rewrite Hrun. rewrite omap_singleton. cbn [finished]. rewrite !map_size_singleton. cbn [Nat.eqb]. by rewrite Hup.
  - fold more. destruct more eqn:Em; [|exact Htok]. destruct Htok as (Hne & sk & Hdec). split; [done|]. destruct (Hlast eq_refl) as (x & l1 & Hsplit & Hk & s & Hs & _ & _). exists (next_key k), sk. split; [done|]. split; [rewrite Hk; apply (range_after _ (pt_key p) _ l1); by rewrite <- Hsplit|].
    rewrite Hs, next_key_app. apply leb_prefix, app_prefix.
Qed.

(** A page of the objects below the path, at the present version. *)
Definition page_fn (w : W) (Limit : Z) (Continue : string) : run (outcome (api_list obj)) * W := store_List (replicate turns 0) w resource EmptyString pred Limit Continue.

Lemma pager_more full fuel : forall w Continue acc l w', pager_List page_fn full fuel w Limit Continue acc = (Returned l, w') -> forall fuel', (fuel <= fuel')%nat -> pager_List page_fn full fuel' w Limit Continue acc = (Returned l, w').
Proof.
  induction fuel as [|fuel IH]; intros w Continue acc l w' Hrun fuel' Hle; [done|]. destruct fuel' as [|fuel']; [lia|]. cbn [pager_List] in *. destruct (page_fn w Limit Continue) as [[| |[m|e]] w1]; try done.
  destruct acc as [[items rv]|], (negb (String.eqb (li_Continue m) "")); try done; apply (IH _ _ _ _ _ Hrun); lia.
Qed.

Lemma has_pages : pagingEnabled = true.
Proof. pose proof Hpaging as H. unfold paging in H. by apply andb_true_iff in H as [H _]. Qed.

Lemma first_start : list_start Limit EmptyString key EmptyString = Some (Done [(0, mkPart key EmptyString (mkOp end_ Limit 0) 0 EmptyString)]).
Proof. unfold list_start. rewrite has_pages, Hpaging. cbn [negb String.eqb andb]. rewrite one_client, ids_one. reflexivity. Qed.

Lemma next_start text r sk k : text <> EmptyString -> 0 < r -> decodeContinue text key = Some (Ok [mkToken 0 "meta.k8s.io/v1" r sk k]) ->
  list_start Limit text key EmptyString = Some (Done [(0, mkPart k EmptyString (mkOp end_ Limit r) r k)]).
Proof.
  intros Hne Hr Hdec. unfold list_start. rewrite has_pages, Hpaging, (proj2 (String.eqb_neq _ _) Hne), Hdec. cbn [negb String.eqb andb]. bind_simpl. cbn [length Nat.eqb head fmap option_fmap option_map tk_ResourceVersion andb].
  rewrite bool_decide_eq_false_2 by (intros [= ?]; lia). cbn [token_clients Nat.eqb negb andb]. change (Z.of_nat 0 `mod` 256) with 0. rewrite (union_empty_r_L {[0]}), ids_one. cbn [start_parts]. change (Z.to_nat 0) with O. cbn [lookup list_lookup]. bind_simpl. cbn [tk_ResourceVersion continueKey op_end op_limit].
  by rewrite (proj2 (Z.ltb_lt 0 r) Hr).
Qed.

(** The turns suffice for the pages at a revision. *)
Definition steady (r : Z) : Prop := (pred_Empty pred = true ∧ (0 < turns)%nat) ∨ (size (held 0 r) < turns)%nat.

Lemma pages_from full r : steady r -> 0 < r -> forall fuel w rest text sk k items rv, valid w -> text <> EmptyString -> decodeContinue text key = Some (Ok [mkToken 0 "meta.k8s.io/v1" r sk k]) ->
  is_range (held 0 r) k end_ rest -> String.leb key k = true -> oldest <= r <= revision w 0 -> (length rest < fuel)%nat ->
  ∃ w', valid w' ∧ revision w 0 <= revision w' 0 ∧ pager_List page_fn full fuel w Limit text (Some (items, rv)) = (Returned (Done (mkList (items ++ matching pred rest) rv EmptyString None)), w').
Proof.
  intros Hsteady Hr. induction fuel as [|fuel IH]; intros w rest text sk k items rv Hw Hne Hdec Hrest Hfrom Hold Hfuel; [lia|].
  destruct (listed_page w (mkPart k EmptyString (mkOp end_ Limit r) r k) text EmptyString) as (r' & rest' & n & remaining & text' & w1 & Hw1 & Hmono & Hr' & Hrest' & Hn & Hnpos & _ & Hlist & Hnext);
    cbn [pt_options pt_returnedRV pt_key op_limit op_end op_rev]; [done|by apply (next_start text r sk k)|done|done|done|by right|done| |].
  { destruct Hsteady as [?|?]; [by left|right]. exists (held 0 r). split; [left; by cbn|done]. }
  cbn [pt_options pt_key op_rev] in *. rewrite (proj2 (Z.eqb_neq r 0) ltac:(lia)) in Hr'. subst r'. rewrite (range_unique _ _ _ _ _ Hrest' Hrest) in *. clear rest' Hrest'. cbn [pager_List]. unfold page_fn at 1. rewrite Hlist. cbn [li_Continue li_Items].
  destruct (decide (n < length rest)%nat) as [Hless|Hall].
  - rewrite bool_decide_eq_true_2 in Hnext by done. destruct Hnext as (Hne' & k' & sk' & Hdec' & Hrest' & Hfrom'). rewrite (proj2 (String.eqb_neq _ _) Hne'). cbn [negb].
    assert (0 < n)%nat as Hn0 by (apply Hnpos; intros ->; cbn in Hless; lia).
    destruct (IH w1 (drop n rest) text' sk' k' (items ++ matching pred (take n rest)) rv Hw1 Hne' Hdec' Hrest' Hfrom') as (w' & Hw' & Hmono' & Hrun); [lia|rewrite length_drop; lia|].
    exists w'. split; [done|]. split; [lia|]. rewrite Hrun. by rewrite <- app_assoc, <- matching_app, take_drop.
  - rewrite bool_decide_eq_false_2 in Hnext by done. destruct Hnext as [-> ->]. cbn. exists w1. split; [done|]. split; [done|]. by rewrite take_ge by lia.
Qed.

(** Nothing is written while a page with a selector is read. *)
Definition calm (w : W) : Prop := (pred_Empty pred = true ∧ (0 < turns)%nat) ∨ ((forall r, revision w 0 <= r -> held 0 r = held 0 (revision w 0)) ∧ (size (held 0 (revision w 0)) < turns)%nat).

Lemma pages_complete full w : valid w -> calm w -> ∃ r rest w', revision w 0 <= r <= revision w' 0 ∧ valid w' ∧ is_range (held 0 r) key end_ rest ∧
  forall fuel, (length rest < fuel)%nat -> pager_List page_fn full fuel w Limit EmptyString None = (Returned (Done (mkList (matching pred rest) r EmptyString None)), w').
Proof.
  intros Hw Hcalm. destruct (Hrevisions w Hw) as [Hold _].
  destruct (listed_page w (mkPart key EmptyString (mkOp end_ Limit 0) 0 EmptyString) EmptyString EmptyString) as (r & rest & n & remaining & text & w1 & Hw1 & Hmono & Hr & Hrest & Hn & Hnpos & _ & Hlist & Hnext);
    cbn [pt_options pt_returnedRV pt_key op_limit op_end op_rev]; [done|apply first_start|done|done|done|by left|apply Is_true_true; reflexivity| |].
  { destruct Hcalm as [?|[Hsame Hsize]]; [by left|right]. exists (held 0 (revision w 0)). split; [by right|done]. }
  cbn [pt_options pt_key op_rev] in *. cbn in Hr. assert (steady r) as Hsteady. { destruct Hcalm as [?|[Hsame Hsize]]; [by left|right]. by rewrite Hsame by lia. }
  destruct (decide (n < length rest)%nat) as [Hless|Hall].
  - rewrite bool_decide_eq_true_2 in Hnext by done. destruct Hnext as (Hne & k & sk & Hdec & Hrest' & Hfrom). assert (0 < n)%nat as Hn0 by (apply Hnpos; intros ->; cbn in Hless; lia).
    destruct (pages_from full r Hsteady ltac:(lia) (length rest) w1 (drop n rest) text sk k (matching pred (take n rest)) r Hw1 Hne Hdec Hrest' Hfrom ltac:(lia) ltac:(rewrite length_drop; lia)) as (w' & Hw' & Hmono' & Hrun).
    exists r, rest, w'. split; [lia|]. split; [done|]. split; [done|]. intros [|fuel] Hfuel; [lia|]. cbn [pager_List]. unfold page_fn at 1. rewrite Hlist. cbn [li_Continue li_Items li_ResourceVersion]. rewrite (proj2 (String.eqb_neq _ _) Hne). cbn [negb].
    rewrite <- matching_app, take_drop in Hrun. apply (pager_more full (length rest)); [done|lia].
  - rewrite bool_decide_eq_false_2 in Hnext by done. destruct Hnext as [-> ->]. exists r, rest, w1. split; [lia|]. split; [done|]. split; [done|]. intros [|fuel] Hfuel; [lia|]. cbn [pager_List]. unfold page_fn at 1. rewrite Hlist. cbn. by rewrite take_ge by lia.
Qed.

(** C12.  The pages of a list are one snapshot. With one etcd, without data clusters, that
    serves reads of the present and of its revisions since the oldest kept one, and with
    readable values under plain keys: a client that reads all pages of the objects below a
    path, whatever is written meanwhile if it selects all of them, and if nothing is written
    while it reads when it selects some, gets exactly the selected objects that etcd held at
    one revision of that time, in the order of their keys and each once, with that revision as
    the version of the list; with a number of pages that is at most one more than that of the
    objects. *)
Theorem pages_are_the_list full w : valid w -> calm w -> ∃ r rest w', revision w 0 <= r <= revision w' 0 ∧ valid w' ∧ is_range (held 0 r) key end_ rest ∧
  (forall o, o ∈ matching pred rest <-> ∃ k value created rev, held 0 r !! (key +:+ k) = Some (value, created, rev) ∧ stored_object TransformFromStorage Decode UpdateObject (key +:+ k) value rev = Ok o ∧ pred_Matches getAttrs pred o = Ok true) ∧
  forall fuel, (length rest < fuel)%nat -> pager_List page_fn full fuel w Limit EmptyString None = (Returned (Done (mkList (matching pred rest) r EmptyString None)), w').
Proof.
  intros Hw Hcalm. destruct (pages_complete full w Hw Hcalm) as (r & rest & w' & Hr & Hw' & Hrest & Hrun). exists r, rest, w'. split; [done|]. split; [done|]. split; [done|]. split; [|done]. intros o. by apply matching_elem.
Qed.
End Single.

(** ** Lists of several clusters *)

Section Clusters.
Context (pred : SelectionPredicate) (Limit : Z) (resource : string).
Context (valid : W -> Prop) (revision : W -> Z -> Z) (held : Z -> Z -> gmap string kv).
(** A list without pages. *)
Hypothesis Hwhole : paging Limit = false.
Hypothesis Hlaws : range_laws valid revision held.
Hypothesis Hserved : forall w id key o, valid w -> op_rev o = 0 -> ∃ resp w', KV_Range w id key o = (Ok resp, w').
Hypothesis Hrevisions : forall w id, valid w -> 0 < revision w id < 2 ^ 63.
Hypothesis Hids : forall s, range_ids s ≡ₚ elements s.
Hypothesis Hresults : forall m, range_results m ≡ₚ map_to_list m.
#[local] Abbreviation dir := (join_prefix pathPrefix resource).
Hypothesis Hobjects : forall id r k value created rev, held id r !! k = Some (value, created, rev) -> String.prefix (with_slash dir) k = true -> readable_pair (k, value, rev).

#[local] Abbreviation key := (with_slash dir).
#[local] Abbreviation end_ := (GetPrefixRangeEnd (with_slash dir)).
#[local] Abbreviation clients := (getClientsFromKey pathPrefix dataClusterClients GetClusterIdFromTenantHandler (with_slash dir)).

(** What is to be read of each cluster, and the result of one. *)
Definition whole : partition := mkPart key EmptyString (mkOp end_ 0 0) 0 EmptyString.
Definition whole_result (r : Z) : listPartitionResult := mkPartitionResult 0 r false None EmptyString EmptyString.

Lemma append_all kvs : forall v lastKey, Forall readable_pair kvs -> ∃ k, append_items pred Limit v lastKey kvs = (v ++ matching pred kvs, Done (k, false)).
Proof.
  induction kvs as [|x kvs IH]; intros v lastKey Hr; [exists lastKey; unfold matching; cbn; by rewrite app_nil_r|]. apply Forall_cons in Hr as [Hx Hr]. rewrite append_one; [|done|unfold full; by rewrite Hwhole]. destruct (IH (v ++ item pred x) x.1.1 Hr) as [k Hk]. exists k. rewrite Hk. unfold matching. cbn. by rewrite app_assoc.
Qed.

(** The read of one cluster. *)
Lemma whole_turn w v id : valid w -> ∃ r rest w', valid w' ∧ (forall i, revision w i <= revision w' i) ∧ revision w id <= r <= revision w' id ∧ is_range (held id r) key end_ rest ∧
  list_turn pred Limit EmptyString key w v id whole = (w', v ++ matching pred rest, inr (Done (whole_result r))).
Proof.
  intros Hw. destruct (Hserved w id key (mkOp end_ 0 0) Hw eq_refl) as (resp & w' & Hget). destruct (range_read _ _ _ Hlaws _ _ _ _ _ _ Hw Hget) as (Hw' & Hmono & Hhead & rest & Hrest & Hkvs & Hmore & _). cbn in Hrest, Hkvs.
  exists (Header_Revision resp), rest, w'. split; [done|]. split; [done|]. split; [done|]. split; [done|]. unfold list_turn, whole. cbn [pt_key pt_options pt_continueKey pt_lastKey pt_returnedRV]. rewrite Hget, Hmore, Hkvs, (bool_decide_eq_false_2 (_ < _)%nat), andb_false_r by lia.
  destruct (append_all rest v EmptyString) as [k ->]; [|done]. apply Forall_forall. intros [[k value] rev] Hin. apply Hrest in Hin as ((created & Hm) & H1 & H2). apply (Hobjects id (Header_Revision resp) k value created rev Hm).
  destruct (with_slash_ends dir) as [t Ht]. rewrite Ht in *. by rewrite <- prefix_range, H1, H2.
Qed.

(** The clusters that have been read, with their revisions and what was found. *)
Record read_so_far (w0 w : W) (v : list obj) (parts : gmap Z (partition + outcome listPartitionResult)) (seen : gset Z) (rs : Z -> Z) (found : Z -> list key_value) : Prop := {
  rd_valid : valid w;
  rd_time : forall i, revision w0 i <= revision w i;
  rd_clients : seen ⊆ clients;
  rd_parts : forall i, parts !! i = if decide (i ∈ seen) then Some (inr (Done (whole_result (rs i)))) else if decide (i ∈ clients) then Some (inl whole) else None;
  rd_found : forall i, i ∈ seen -> revision w0 i <= rs i <= revision w i ∧ is_range (held i (rs i)) key end_ (found i);
  rd_items : v ≡ₚ concat ((fun i => matching pred (found i)) <$> elements seen) }.

Lemma read_next w0 w v parts seen rs found id : read_so_far w0 w v parts seen rs found ->
  ∃ w' v' parts' rs' found', list_step pred Limit EmptyString key (w, v, parts) id = (w', v', parts') ∧ read_so_far w0 w' v' parts' (if decide (id ∈ clients) then {[id]} ∪ seen else seen) rs' found'.
Proof.
  intros Hso. cbn [list_step]. rewrite (rd_parts _ _ _ _ _ _ _ Hso id). destruct (decide (id ∈ seen)) as [Hin|Hnew].
  { exists w, v, parts, rs, found. split; [done|]. destruct (decide (id ∈ clients)); [|done]. rewrite (subseteq_union_1_L {[id]} seen); [done|]. by apply singleton_subseteq_l. }
  destruct (decide (id ∈ clients)) as [Hc|Hc]; [|by exists w, v, parts, rs, found]. destruct Hso as [Hw Htime Hsub Hparts Hfound Hitems]. destruct (whole_turn w v id Hw) as (r & rest & w' & Hw' & Hmono & Hr & Hrest & Hturn). rewrite Hturn. assert (forall i, i ∈ ({[id]} ∪ seen : gset Z) <-> i = id ∨ i ∈ seen) as Hmem by (intros i; by rewrite elem_of_union, elem_of_singleton).
  exists w', (v ++ matching pred rest), (<[id := inr (Done (whole_result r))]> parts), (fun i => if decide (i = id) then r else rs i), (fun i => if decide (i = id) then rest else found i). split; [done|]. split.
  - done.
  - intros i. specialize (Htime i). specialize (Hmono i). lia.
  - apply union_subseteq. split; [by apply singleton_subseteq_l|done].
  - intros i. destruct (decide (i = id)) as [->|Hne]; [rewrite lookup_insert_eq, decide_True by (apply Hmem; tauto); done|]. rewrite lookup_insert_ne, Hparts by done. destruct (decide (i ∈ seen)); [rewrite (decide_True (P := i ∈ {[id]} ∪ seen)) by (apply Hmem; tauto); cbn beta; by destruct (decide (i = id))|by rewrite (decide_False (P := i ∈ {[id]} ∪ seen)) by (rewrite Hmem; tauto)].
  - intros i Hi. destruct (decide (i = id)) as [->|Hne]; [split; [specialize (Htime id); lia|done]|]. destruct (Hfound i) as [H1 H2]; [apply Hmem in Hi; tauto|]. split; [specialize (Hmono i); lia|done].
  - rewrite elements_union_singleton by done. cbn. rewrite decide_True by done. rewrite Hitems, (comm (++)). f_equiv. apply reflexive_eq. f_equal. apply list_fmap_ext. intros j i Hj. rewrite decide_False; [done|]. intros ->. apply list_elem_of_lookup_2, elem_of_elements in Hj. done.
Qed.

Lemma read_all w0 order : forall w v parts seen rs found, read_so_far w0 w v parts seen rs found ->
  ∃ w' v' parts' seen' rs' found', foldl (list_step pred Limit EmptyString key) (w, v, parts) order = (w', v', parts') ∧ read_so_far w0 w' v' parts' seen' rs' found' ∧ forall i, i ∈ seen' <-> i ∈ seen ∨ (i ∈ order ∧ i ∈ clients).
Proof.
  induction order as [|id order IH]; intros w v parts seen rs found Hso; [exists w, v, parts, seen, rs, found; split; [done|]; split; [done|]; intros i; rewrite elem_of_nil; tauto|]. cbn [foldl].
  destruct (read_next w0 w v parts seen rs found id Hso) as (w1 & v1 & parts1 & rs1 & found1 & -> & Hso1). destruct (IH _ _ _ _ _ _ Hso1) as (w' & v' & parts' & seen' & rs' & found' & -> & Hso' & Hdone).
  exists w', v', parts', seen', rs', found'. split; [done|]. split; [done|]. intros i. rewrite Hdone, elem_of_cons. destruct (decide (id ∈ clients)); rewrite ?elem_of_union, ?elem_of_singleton; naive_solver.
Qed.

Lemma whole_start : list_start Limit EmptyString key EmptyString = Some (Done ((fun i => (i, whole)) <$> range_ids clients)).
Proof.
  unfold list_start. rewrite Hwhole. cbn [negb String.eqb andb]. rewrite andb_false_r. cbn [ParseResourceVersion String.eqb orb op_end op_limit]. change (wrap64 0) with 0. fold whole.
  assert (forall ids, start_parts None key (mkOp end_ 0 0) 0 ids = Some ((fun i => (i, whole)) <$> ids)) as ->; [|done]. intros ids. induction ids as [|i ids IH]; [done|]. cbn [start_parts]. by rewrite IH.
Qed.

Lemma started ids i : (list_to_map (prod_map id inl <$> ((fun i => (i, whole)) <$> ids)) : gmap Z (partition + outcome listPartitionResult)) !! i = if decide (i ∈ ids) then Some (inl whole) else None.
Proof.
  induction ids as [|j ids IH]; [done|]. cbn. destruct (decide (i = j)) as [->|Hne]; [rewrite lookup_insert_eq, decide_True; [done|left]|]. rewrite lookup_insert_ne by done. cbn in IH. rewrite IH.
  destruct (decide (i ∈ ids)); [rewrite decide_True; [done|by right]|]. rewrite decide_False; [done|]. by rewrite elem_of_cons; intros [?|?].
Qed.

Lemma merge_whole l : Forall (fun x : Z * listPartitionResult => lr_hasNext x.2 = false) l -> forall acc, ∃ rv, foldl merge_result (acc, None, []) l = (rv, None, []) ∧ (rv = acc ∨ ∃ x, x ∈ l ∧ rv = lr_returnedRV x.2).
Proof.
  induction 1 as [|[i r] l Hr Hl IH]; intros acc; [exists acc; split; [done|by left]|]. cbn [foldl merge_result]. cbn in Hr. rewrite Hr. set (acc' := if RevisionIsNewer _ _ then _ else _). destruct (IH acc') as (rv & -> & Hrv). exists rv. split; [done|]. destruct Hrv as [->|(x & Hx & ->)].
  - unfold acc'. destruct (RevisionIsNewer _ _); [right; exists (i, r); split; [left|done]|by left].
  - right. exists x. split; [by right|done].
Qed.

Lemma results_whole (l : list (Z * outcome listPartitionResult)) rs : (forall i r, (i, r) ∈ l -> r = Done (whole_result (rs i))) -> results_of l = Done ((fun x => (x.1, whole_result (rs x.1))) <$> l).
Proof.
  induction l as [|[i r] l IH]; intros Hl; [done|]. rewrite (Hl i r) by left. cbn [results_of]. rewrite IH; [done|]. intros j r' Hj. apply Hl. by right.
Qed.

(** The version of the list is one of those of the clusters. *)
Lemma merged_version l : l <> [] -> Forall (fun x : Z * listPartitionResult => lr_hasNext x.2 = false ∧ 0 < lr_returnedRV x.2 < 2 ^ 63) l ->
  ∃ rv, foldl merge_result (0, None, []) l = (rv, None, []) ∧ uint64 rv = rv ∧ ∃ x, x ∈ l ∧ rv = lr_returnedRV x.2.
Proof.
  intros Hne Hl. destruct l as [|[i r] l]; [done|]. pose proof Hl as [[Hr1 Hr2] Hl']%Forall_cons. cbn in Hr1, Hr2. cbn [foldl merge_result]. rewrite Hr1. destruct (newer_than_none _ Hr2) as [_ ->].
  destruct (merge_whole l) with (acc := lr_returnedRV r) as (rv & Hrun & Hrv); [eapply Forall_impl; [exact Hl'|]; by intros x [? _]|]. exists rv. split; [done|].
  assert (∃ x, x ∈ (i, r) :: l ∧ rv = lr_returnedRV x.2) as (x & Hx & ->) by (destruct Hrv as [->|(x & Hx & ->)]; [exists (i, r); split; [left|done]|exists x; split; [by right|done]]).
  split; [|by exists x]. rewrite Forall_forall in Hl. destruct (Hl x Hx) as [_ H]. by destruct (newer_than_none _ H).
Qed.

Lemma clusters_listed order w : valid w -> (forall id, id ∈ clients -> id ∈ order) -> ∃ rs found w' v rv id, valid w' ∧ (forall i, i ∈ clients -> revision w i <= rs i <= revision w' i ∧ is_range (held i (rs i)) key end_ (found i)) ∧
  store_List order w resource EmptyString pred Limit EmptyString = (Returned (Done (mkList v rv EmptyString None)), w') ∧ v ≡ₚ concat ((fun i => matching pred (found i)) <$> elements clients) ∧ id ∈ clients ∧ rv = rs id.
Proof.
  intros Hw Horder. set (parts := list_to_map (prod_map id inl <$> ((fun i => (i, whole)) <$> range_ids clients)) : gmap Z (partition + outcome listPartitionResult)).
  destruct (read_all w order w [] parts ∅ (fun _ => 0) (fun _ => [])) as (w' & v & parts' & seen & rs & found & Hrun & Hso & Hseen).
  { split; [done|done|apply empty_subseteq| | |done]; [|intros i Hi; by apply not_elem_of_empty in Hi]. intros i. rewrite decide_False by apply not_elem_of_empty. unfold parts. rewrite started. destruct (decide (i ∈ clients)) as [Hc|Hc]; [rewrite decide_True|rewrite decide_False]; try done; by rewrite Hids, elem_of_elements. }
  assert (seen = clients) as ->. { apply set_eq. intros i. rewrite Hseen. split; [intros [Hi|[_ ?]]; [by apply not_elem_of_empty in Hi|done]|]. intros Hi. right. split; [by apply Horder|done]. }
  destruct Hso as [Hw' Htime _ Hparts Hfound Hitems]. assert (forall i, omap finished parts' !! i = if decide (i ∈ clients) then Some (Done (whole_result (rs i))) else None) as Hres.
  { intros i. rewrite lookup_omap, Hparts. destruct (decide (i ∈ clients)); [done|]. by rewrite ?decide_False. }
  assert (size (omap finished parts') = size parts') as Hsize. { rewrite <- !size_dom. f_equal. apply set_eq. intros i. rewrite !elem_of_dom, Hres, Hparts. destruct (decide (i ∈ clients)); [done|]. by rewrite ?decide_False. }
  assert (results_of (range_results (omap finished parts')) = Done ((fun x => (x.1, whole_result (rs x.1))) <$> range_results (omap finished parts'))) as Hof.
  { apply results_whole. intros i r Hin. rewrite Hresults, elem_of_map_to_list, Hres in Hin. destruct (decide (i ∈ clients)); [by injection Hin|done]. }
  assert (∃ c, c ∈ clients) as [c Hc]. { unfold getClientsFromKey. destruct (negb _); [eexists; by apply elem_of_singleton|]. exists 0. destruct (String.prefix _ _); [by apply elem_of_singleton|]. apply elem_of_union. left. by apply elem_of_singleton. }
  assert ((c, Done (whole_result (rs c))) ∈ range_results (omap finished parts')) as Hin by (by rewrite Hresults, elem_of_map_to_list, Hres, decide_True).
  destruct (merged_version ((fun x => (x.1, whole_result (rs x.1))) <$> range_results (omap finished parts'))) as (rv & Hmerge & Hu & x & Hx & Hrv).
  { intros H. apply fmap_nil_inv in H. rewrite H in Hin. by apply elem_of_nil in Hin. }
  { apply Forall_fmap, Forall_forall. intros [i r] Hi. split; [done|]. cbn. rewrite Hresults, elem_of_map_to_list, Hres in Hi. destruct (decide (i ∈ clients)) as [Hci|]; [|done]. destruct (Hfound i Hci) as [Hr _]. pose proof (Hrevisions w i Hw). pose proof (Hrevisions w' i Hw'). lia. }
  apply list_elem_of_fmap in Hx as ([i r] & -> & Hi). rewrite Hresults, elem_of_map_to_list, Hres in Hi. destruct (decide (i ∈ clients)) as [Hci|]; [|done].
  exists rs, found, w', v, rv, i. split; [done|]. split; [done|]. split; [|done]. unfold store_List. rewrite whole_start. fold parts. rewrite Hrun, Hsize, Nat.eqb_refl. unfold updatelist. by rewrite Hof, Hmerge, Hu.
Qed.

(** *** The cluster of a key *)

Definition patterned (k : string) : bool := existsb (fun prefix => MatchString prefix k) regexPrefixToCheck.

Lemma match_here_app p : forall s t, match_here p s = true -> match_here p (s +:+ t) = true.
Proof. induction p as [|c p IH]; intros s t; [done|]. destruct s as [|d s]; [done|]. change (String d s +:+ t) with (String d (s +:+ t)). cbn. rewrite !andb_true_iff. intros [H1 H2]. split; [done|by apply IH]. Qed.

Lemma MatchString_app p s t : MatchString p s = true -> MatchString p (s +:+ t) = true.
Proof.
  induction s as [|c s IH].
  - cbn [MatchString]. rewrite orb_false_r. intros H. apply (match_here_app _ _ t) in H. change ("" +:+ t) with t in *. destruct t; cbn [MatchString]; by rewrite H.
  - change (String c s +:+ t) with (String c (s +:+ t)). cbn [MatchString]. rewrite !orb_true_iff. intros [H|H]; [left; apply (match_here_app _ _ t H)|right; by apply IH].
Qed.

Lemma patterned_app k rest : (patterned (k +:+ rest) = true -> patterned k = true) -> patterned (k +:+ rest) = patterned k.
Proof.
  intros H. destruct (patterned k) eqn:E; [|destruct (patterned (k +:+ rest)); [by specialize (H eq_refl)|done]]. apply existsb_exists in E as (p & Hp & Hm). apply existsb_exists. exists p. split; [done|]. by apply MatchString_app.
Qed.

Lemma split_dir rest s : forall acc, split_from "/" acc (s +:+ String "/" rest) 0 = split_from "/" acc s 0 ++ split_from "/" "" rest 0.
Proof.
  induction s as [|c s IH]; intros acc; [change ("" +:+ ?x) with x; by rewrite split_next|]. change (String c s +:+ ?x) with (String c (s +:+ x)). rewrite !split_next. destruct (Ascii.eqb c "/"); [cbn; by rewrite IH|apply IH].
Qed.

Lemma cut_at n : forall s, (n <= String.length s)%nat -> ∃ a b, s = a +:+ b ∧ String.length a = n.
Proof.
  induction n as [|n IH]; intros s Hn; [by exists EmptyString, s|]. destruct s as [|c s]; [cbn in Hn; lia|]. destruct (IH s) as (a & b & -> & Ha); [cbn in Hn; lia|]. exists (String c a), b. split; [done|]. cbn. by rewrite Ha.
Qed.

Lemma ends_in_slash a : forall b t, b <> EmptyString -> a +:+ b = t +:+ "/" -> ∃ b', b = b' +:+ "/".
Proof.
  induction a as [|c a IH]; intros b t Hb Heq; [by exists t|]. change (String c a +:+ b) with (String c (a +:+ b)) in Heq. destruct t as [|d t].
  - change ("" +:+ "/") with "/" in Heq. injection Heq as _ Heq. destruct a; [|done]. by destruct b.
  - change (String d t +:+ "/") with (String d (t +:+ "/")) in Heq. injection Heq as _ Heq. by apply (IH b t).
Qed.

Lemma substring_rest a b : String.substring (String.length a) (String.length (a +:+ b) - String.length a) (a +:+ b) = b.
Proof. rewrite substring_drop, length_append. replace (String.length a + String.length b - String.length a)%nat with (String.length b) by lia. apply substring_all. Qed.

(** The tenant of a path is that of every key below it. *)
Lemma tenant_below (l l' : list string) n : getTenantForKey (l ++ [EmptyString]) n <> EmptyString -> getTenantForKey (l ++ l') n = getTenantForKey (l ++ [EmptyString]) n.
Proof.
  unfold getTenantForKey. rewrite !length_app. cbn [length]. destruct (Nat.ltb_spec (length l + 1) (n + 1)) as [H|H]; [done|]. destruct (decide (n = length l)) as [->|Hne]; [by rewrite list_lookup_middle by done|]. intros _.
  destruct (Nat.ltb_spec (length l + length l') (n + 1)) as [H'|H']; [lia|]. by rewrite !lookup_app_l by lia.
Qed.

#[local] Abbreviation route := (getClientAndClusterIdFromKey pathPrefix dataClusterClients GetClusterIdFromTenantHandler).

Definition route_segments (pattern : bool) (segs : list string) : Z :=
  if Nat.leb (length segs) 2 then 0
  else let tenant := getTenantForKey segs (if pattern then 2 else 1) in if String.eqb tenant "" then 0 else getClientForTenant dataClusterClients GetClusterIdFromTenantHandler tenant.

Lemma route_of a b : String.length a = lenPrefix pathPrefix -> route (a +:+ b) = route_segments (patterned (a +:+ b)) (strings_Split b "/").
Proof.
  intros Ha. unfold getClientAndClusterIdFromKey, route_segments. rewrite <- Ha, substring_rest. rewrite (proj2 (Nat.ltb_ge _ _)) by (rewrite length_append; lia). fold (patterned (a +:+ b)). by destruct (patterned (a +:+ b)).
Qed.

Lemma route_below rest : (patterned (key +:+ rest) = true -> patterned key = true) -> route key <> 0 -> route (key +:+ rest) = route key.
Proof.
  intros Hpat Hroute. destruct (Nat.ltb_spec (String.length key) (lenPrefix pathPrefix)) as [H|H]; [unfold getClientAndClusterIdFromKey in Hroute; by rewrite (proj2 (Nat.ltb_lt _ _) H) in Hroute|].
  destruct (cut_at _ _ H) as (a & b & Hkey & Ha). destruct (with_slash_ends dir) as [t Ht]. apply patterned_app in Hpat. rewrite Hkey in *. clear Hkey H. rewrite <- string_app_assoc in *. rewrite !route_of in * by done. rewrite Hpat. revert Hroute.
  destruct b as [|c b]; [done|]. destruct (ends_in_slash a (String c b) t ltac:(done) Ht) as [b' ->]. clear. rewrite <- string_app_assoc. change ("/" +:+ rest) with (String "/" rest). unfold strings_Split. rewrite !split_dir. cbn [split_from].
  set (l := split_from "/" "" b' 0). set (l' := split_from "/" "" rest 0). match goal with |- context [patterned ?x] => generalize (patterned x) end. intros pattern. unfold route_segments. set (n := if pattern then 2%nat else 1%nat). intros Hroute.
  assert ((0 < length l')%nat) as Hl' by (pose proof (split_not_nil rest "") as H; unfold l'; destruct (split_from "/" "" rest 0); [done|cbn; lia]). rewrite !length_app in *. cbn [length] in *.
  destruct (Nat.leb_spec (length l + 1) 2) as [|H2]; [done|]. rewrite (proj2 (Nat.leb_gt _ _)) by lia. cbn zeta in *. destruct (String.eqb_spec (getTenantForKey (l ++ [EmptyString]) n) "") as [|Hne]; [done|]. rewrite tenant_below by done. by rewrite (proj2 (String.eqb_neq _ _) Hne).
Qed.

(** A list reads the cluster of every key below its path. *)
Lemma route_is_read rest : (patterned (key +:+ rest) = true -> patterned key = true) -> String.prefix "/registry/events/" key = false -> route (key +:+ rest) ∈ clients.
Proof.
  intros Hpat Hevents. unfold getClientsFromKey. destruct (Z.eqb_spec (route key) 0) as [_|Hne]; cbn [negb]; [|rewrite route_below by done; by apply elem_of_singleton]. rewrite Hevents, elem_of_union, elem_of_singleton. generalize (key +:+ rest). intros k.
  unfold getClientAndClusterIdFromKey. destruct (Nat.ltb _ _); [by left|]. destruct (Nat.leb _ 2); [by left|]. cbn zeta. match goal with |- context [String.eqb ?t _] => generalize t end.
  intros tenant. destruct (String.eqb tenant ""); [by left|]. unfold getClientForTenant. destruct (_ =? 0); [by left|]. destruct (bool_decide _) eqn:E; [right; by apply bool_decide_eq_true in E|by left].
Qed.

(** C16.  A list without pages has the objects of all storage clusters: in whatever order the
    clusters are read and their objects appended, the list returns; its objects are the
    selected ones that each cluster held below the path at some revision of that time; and it
    has every selected object that is, all the time, stored below the path in the cluster to
    which its key is assigned, when the path is not that of events and no key below it is the
    first to be taken for one with a prefix. *)
Theorem clusters_are_listed order w : valid w -> (forall id, id ∈ clients -> id ∈ order) -> String.prefix "/registry/events/" key = false ->
  ∃ v rv w', store_List order w resource EmptyString pred Limit EmptyString = (Returned (Done (mkList v rv EmptyString None)), w') ∧
    (forall o, o ∈ v -> ∃ id r k value created rev, id ∈ clients ∧ revision w id <= r <= revision w' id ∧ held id r !! (key +:+ k) = Some (value, created, rev) ∧
       stored_object TransformFromStorage Decode UpdateObject (key +:+ k) value rev = Ok o ∧ pred_Matches getAttrs pred o = Ok true) ∧
    forall k value created rev o, (patterned (key +:+ k) = true -> patterned key = true) -> (forall r, revision w (route (key +:+ k)) <= r -> held (route (key +:+ k)) r !! (key +:+ k) = Some (value, created, rev)) ->
      stored_object TransformFromStorage Decode UpdateObject (key +:+ k) value rev = Ok o -> pred_Matches getAttrs pred o = Ok true -> o ∈ v.
Proof.
  intros Hw Horder Hevents. destruct (clusters_listed order w Hw Horder) as (rs & found & w' & v & rv & id & Hw' & Hfound & Hrun & Hv & _ & _). exists v, rv, w'. split; [done|]. split.
  - intros o Ho. rewrite Hv, list_elem_of_In, in_concat in Ho. destruct Ho as (l & Hl & Ho). apply list_elem_of_In, list_elem_of_fmap in Hl as (i & -> & Hi). apply elem_of_elements in Hi. destruct (Hfound i Hi) as [Hr Hrange]. apply list_elem_of_In, (matching_elem pred dir (held i (rs i)) (found i) o Hrange) in Ho as (k & value & created & rev & H1 & H2 & H3).
    by exists i, (rs i), k, value, created, rev.
  - intros k value created rev o Hpat Hheld Ho Hp. pose proof (route_is_read k Hpat Hevents) as Hi. destruct (Hfound _ Hi) as [Hr Hrange]. rewrite Hv, list_elem_of_In, in_concat. eexists. split; [apply list_elem_of_In, list_elem_of_fmap; eexists; split; [reflexivity|]; by apply elem_of_elements|].
    apply list_elem_of_In, (matching_elem pred dir _ _ o Hrange). exists k, value, created, rev. split; [|done]. apply Hheld. lia.
Qed.
End Clusters.
End Lister.

(** ** Examples *)

(** A token as a text of digits. *)
Fixpoint digits_text (p : positive) : string := match p with xH => "." | xO p => String "0" (digits_text p) | xI p => String "1" (digits_text p) end.
Fixpoint text_digits (s : string) : option positive :=
  match s with
  | String "0" s => xO <$> text_digits s
  | String "1" s => xI <$> text_digits s
  | String "." EmptyString => Some xH
  | _ => None
  end.

Lemma text_read p : text_digits (digits_text p) = Some p.
Proof. induction p as [p IH|p IH|]; cbn; [by rewrite IH..|done]. Qed.

Definition token_fields (t : continueToken) : Z * string * Z * string := (ClusterId t, APIVersion t, tk_ResourceVersion t, StartKey t).
Definition digits_Marshal (ts : list continueToken) : result string := Ok (digits_text (encode (token_fields <$> ts))).
Definition digits_Unmarshal (s : string) : result (list (option continueToken)) :=
  match p ← text_digits s; decode p with
  | Some l => Ok ((fun '(c, v, rv, start) => Some (mkToken c v rv start EmptyString)) <$> (l : list (Z * string * Z * string)))
  | None => Err "invalid token"
  end.

Lemma digits_text_ok ts : Forall (fun t => plain_text (StartKey t) = true ∧ continueKey t = EmptyString) ts ->
  ∃ data, digits_Marshal ts = Ok data ∧ id data <> EmptyString ∧ Ok (id data) = Ok data ∧ digits_Unmarshal data = Ok (Some <$> ts).
Proof.
  intros Hts. eexists. split; [reflexivity|]. split; [by destruct (encode (token_fields <$> ts))|]. split; [done|]. unfold digits_Unmarshal. rewrite text_read. bind_simpl. rewrite decode_encode. f_equal. induction Hts as [|[c v rv start k] ts [_ Hk] _ IH]; [done|]. cbn in Hk |- *. subst k. by rewrite IH.
Qed.

(** A store in memory: the pairs of each cluster and revision in the order of their keys, and
    the revision at the time of each read. *)
Section Memory.
Context (contents : Z -> Z -> list (string * (string * Z * Z))) (rev_at : nat -> Z).
Hypothesis Hsorted : forall id r, StronglySorted (fun x y => String.ltb x.1 y.1 = true) (contents id r).
Hypothesis Hrising : forall w, rev_at w <= rev_at (S w).

Definition mem_held (id r : Z) : gmap string (string * Z * Z) := list_to_map (contents id r).
Definition mem_pairs (id r : Z) (key end_ : string) : list key_value :=
  (fun x => (x.1, x.2.1.1, x.2.2)) <$> filter (fun x => String.leb key x.1 && String.ltb x.1 end_ = true) (contents id r).
Definition mem_Range (w : nat) (id : Z) (key : string) (o : OpOptions) : result GetResponse * nat :=
  let l := mem_pairs id (if op_rev o =? 0 then rev_at w else op_rev o) key (op_end o) in
  let kvs := if 0 <? op_limit o then take (Z.to_nat (op_limit o)) l else l in
  (Ok (mkGetResponse kvs (bool_decide (length kvs < length l)%nat) (Z.of_nat (length l)) (rev_at w)), S w).

Lemma mem_range id r key end_ : is_range (mem_held id r) key end_ (mem_pairs id r key end_).
Proof.
  split.
  - unfold mem_pairs. specialize (Hsorted id r). induction Hsorted as [|x l Hl IH Hx]; [constructor|]. rewrite filter_cons. destruct (decide _); [|done]. cbn. constructor; [done|]. apply Forall_fmap, Forall_forall. intros y Hy. apply list_elem_of_filter in Hy as [_ Hy]. rewrite Forall_forall in Hx. by apply Hx.
  - intros k value rev. unfold mem_pairs, mem_held. rewrite list_elem_of_fmap.
    assert (NoDup (contents id r).*1) as Hnd. { specialize (Hsorted id r). induction Hsorted as [|x l Hl IH Hx]; [constructor|]. cbn. constructor; [|done]. rewrite list_elem_of_fmap. intros (y & Heq & Hy). rewrite Forall_forall in Hx. specialize (Hx y Hy). cbn in Hx. rewrite <- Heq in Hx. by rewrite ltb_irrefl in Hx. }
    split.
    + intros ([k' [[v c] md]] & [= -> -> ->] & Hin). apply list_elem_of_filter in Hin as [Hr Hin]. apply andb_true_iff in Hr. split; [exists c; by apply elem_of_list_to_map_1|done].
    + intros ((c & Hm) & H1 & H2). exists (k, (value, c, rev)). split; [done|]. apply list_elem_of_filter. split; [cbn; by rewrite H1, H2|]. by apply elem_of_list_to_map_2.
Qed.

Lemma mem_laws : range_laws mem_Range (fun _ => True) (fun w _ => rev_at w) mem_held.
Proof.
  split. intros w id key o resp w' _ [= <- <-]. split; [done|]. split; [intros _; apply Hrising|]. cbn [Header_Revision Kvs More Count]. split; [split; [lia|apply Hrising]|]. eexists. split; [apply mem_range|]. done.
Qed.
End Memory.

Definition demo_contents (id r : Z) : list (string * (string * Z * Z)) :=
  if id =? 0 then [("/registry/pods/a", ("ax", 1, 1)); ("/registry/pods/b", ("by", 2, 2)); ("/registry/pods/c", ("cy", 3, 3))]%string
  else [("/registry/pods/gold/d", ("dy", 4, 4))]%string.

Lemma demo_sorted id r : StronglySorted (fun x y : string * (string * Z * Z) => String.ltb x.1 y.1 = true) (demo_contents id r).
Proof. unfold demo_contents. destruct (id =? 0); by repeat constructor. Qed.

#[local] Abbreviation demo_Range := (mem_Range demo_contents (fun _ => 5)).
#[local] Abbreviation demo_held := (mem_held demo_contents).
#[local] Abbreviation demo_laws := (mem_laws demo_contents (fun _ => 5) demo_sorted (fun _ => Z.le_refl 5)).

Lemma demo_objects r rest value created rev : demo_held 0 r !! (with_slash "/registry/pods" +:+ rest) = Some (value, created, rev) ->
  readable_pair placed_transform placed_decode placed_update (with_slash "/registry/pods" +:+ rest, value, rev) ∧ clean_path rest ∧ plain_text rest = true.
Proof.
  intros Hm. apply elem_of_list_to_map_2 in Hm. change (with_slash "/registry/pods" +:+ rest) with ("/registry/pods/" +:+ rest) in *. cbn in Hm. rewrite !elem_of_cons, elem_of_nil in Hm. destruct Hm as [[= Hr -> -> ->]|[[= Hr -> -> ->]|[[= Hr -> -> ->]|[]]]]; change ("" +:+ rest) with rest in Hr; subst rest; (split; [done|]; split; [by repeat constructor|done]).
Qed.

Lemma pages_are_the_list_witness : ∃ w', pager_List (page_fn placed_transform placed_decode placed_update placed_attrs digits_Marshal digits_Unmarshal id Ok demo_Range true true "/registry" ∅ (fun _ => 0) elements map_to_list (on_node "y") "/pods" 4) true 4 0%nat 1 EmptyString None =
  (Returned (Done (mkList [mkPlaced "b" "y" 2; mkPlaced "c" "y" 3] 5 EmptyString None)), w').
Proof.
  destruct (pages_are_the_list placed_transform placed_decode placed_update placed_attrs digits_Marshal digits_Unmarshal id Ok demo_Range true true "/registry" ∅ (fun _ => 0) elements map_to_list
    (on_node "y") 1 "/pods" 4 (fun _ => True) (fun _ _ => 5) demo_held 1 eq_refl demo_laws) with (full := true) (w := 0%nat) as (r & rest & w' & Hr & _ & Hrest & _ & Hrun).
  - intros w key o _ _. by do 2 eexists.
  - intros w _. lia.
  - exact digits_text_ok.
  - done.
  - done.
  - done.
  - intros r rest value created rev _. apply demo_objects.
  - done.
  - right. split; [done|]. vm_compute. lia.
  - exists w'. assert (r = 5) as -> by lia. rewrite (range_unique _ _ _ _ _ Hrest (mem_range demo_contents demo_sorted 0 5 _ _)) in Hrun. apply Hrun. vm_compute. lia.
Defined.

Lemma clusters_are_listed_witness : ∃ v rv w', store_List placed_transform placed_decode placed_update placed_attrs digits_Marshal digits_Unmarshal id Ok demo_Range true true "/registry" {[1]} (fun t => if String.eqb t "gold" then 1 else 0) elements map_to_list
  [1; 0] 0%nat "/pods" EmptyString (on_node "y") 0 EmptyString = (Returned (Done (mkList v rv EmptyString None)), w') ∧ mkPlaced "b" "y" 2 ∈ v ∧ mkPlaced "d" "y" 4 ∈ v.
Proof.
  destruct (clusters_are_listed placed_transform placed_decode placed_update placed_attrs digits_Marshal digits_Unmarshal id Ok demo_Range true true "/registry" {[1]} (fun t => if String.eqb t "gold" then 1 else 0) elements map_to_list
    (on_node "y") 0 "/pods" (fun _ => True) (fun _ _ => 5) demo_held eq_refl demo_laws) with (order := [1; 0]) (w := 0%nat) as (v & rv & w' & Hrun & _ & Hall).
  - intros w id key o _ _. by do 2 eexists.
  - intros w id _. lia.
  - done.
  - done.
  - intros id r k value created rev Hm _. apply elem_of_list_to_map_2 in Hm. unfold demo_contents in Hm. destruct (id =? 0); rewrite !elem_of_cons, elem_of_nil in Hm; naive_solver.
  - done.
  - intros i Hi. assert (i = 0 ∨ i = 1) as Hi' by (change (i ∈ ({[0; 1]} : gset Z)) in Hi; set_solver). destruct Hi' as [->| ->]; [right; left|left].
  - done.
  - exists v, rv, w'. split; [exact Hrun|]. split; [apply (Hall "b" "by" 2 2)|apply (Hall "gold/d" "dy" 4 4)]; done.
Defined.

(** ** Where lists go wrong *)

#[local] Abbreviation demo_List ids tenants Range := (store_List placed_transform placed_decode placed_update placed_attrs digits_Marshal digits_Unmarshal id Ok Range true true "/registry" ids tenants elements map_to_list).
#[local] Abbreviation gold_clusters := (fun t => if String.eqb t "gold" || String.eqb t "services" then 1 else 0).

(** Between the two reads of a page the objects a and b change places. *)
Definition moving_contents (_ r : Z) : list (string * (string * Z * Z)) :=
  if r <=? 2 then [("/registry/pods/a", ("ax", 1, 1)); ("/registry/pods/b", ("by", 2, 2))]%string
  else if r =? 3 then [("/registry/pods/a", ("ay", 1, 3)); ("/registry/pods/b", ("by", 2, 2))]%string
  else [("/registry/pods/a", ("ay", 1, 3)); ("/registry/pods/b", ("bx", 2, 4))]%string.

(** A page with a selector can be read at several revisions: here it is empty, with the version
    2, although at every revision some object is selected. *)
Lemma page_mixes_revisions : ∃ w, demo_List ∅ (fun _ => 0) (mem_Range moving_contents (fun w => if Nat.eqb w 0 then 2 else 4)) [0; 0] 0%nat "/pods" EmptyString (on_node "y") 1 EmptyString =
    (Returned (Done (mkList [] 2 EmptyString None)), w) ∧
  forall r, matching placed_transform placed_decode placed_update placed_attrs (on_node "y") (mem_pairs moving_contents 0 r "/registry/pods/" "/registry/pods0") <> [].
Proof.
  eexists. split; [reflexivity|]. intros r. unfold mem_pairs, moving_contents. destruct (r <=? 2); [discriminate|]. destruct (r =? 3); discriminate.
Qed.

(** Pages of several storage clusters fail: when the objects of one cluster have filled
    the page, another that has more has no last key, and the list returns an error; and the
    token that a client is given to go on after its version has expired makes the list panic. *)
Theorem pages_of_clusters_fail : ∃ contents w token,
  demo_List {[1]} gold_clusters (mem_Range contents (fun _ => 5)) [0; 1] 0%nat "/pods" EmptyString Everything 1 EmptyString = (Returned (Failed (OtherError "unable to encode next field: the key and key prefix do not match")), w) ∧
  handleCompactedErrorForPaging digits_Marshal id "/registry/pods/b" "/registry/pods/" = ResourceExpired inconsistentContinue token ∧
  (demo_List {[1]} gold_clusters (mem_Range contents (fun _ => 5)) [0; 1] 0%nat "/pods" EmptyString Everything 1 token).1 = Panicked.
Proof.
  exists demo_contents, 2%nat, (match handleCompactedErrorForPaging digits_Marshal id "/registry/pods/b" "/registry/pods/" with ResourceExpired _ token => token | _ => EmptyString end).
  split; [vm_compute; reflexivity|]. split; vm_compute; reflexivity.
Qed.

(** The patterns are looked for anywhere in a key: a pod of the tenant services in its
    namespace specs is stored in the cluster of a tenant specs, where a list of the pods of its
    tenant does not look for it. *)
Lemma pattern_hides_objects : let clusters := getClientsFromKey "/registry" {[1; 2]} (fun t => if String.eqb t "services" then 1 else if String.eqb t "specs" then 2 else 0) "/registry/pods/services/" in
  clusters = {[1]} ∧ getClientAndClusterIdFromKey "/registry" {[1; 2]} (fun t => if String.eqb t "services" then 1 else if String.eqb t "specs" then 2 else 0) "/registry/pods/services/specs/p" = 2.
Proof. by vm_compute. Qed.

(** A client that asks for the pages of a version is refused the second one. *)
Lemma second_page_of_version_refused token : token <> EmptyString -> (demo_List ∅ (fun _ => 0) demo_Range [0] 0%nat "/pods" "5" Everything 1 token).1 = Returned (Failed (BadRequest "specifying resource version is not allowed when using continue")).
Proof. intros Hne. unfold store_List, list_start. rewrite (proj2 (String.eqb_neq _ _) Hne). reflexivity. Qed.
