(* ===== verification/EtcdCache.v ===== *)
(** * The watch cache over etcd

    The composition of [EtcdList], [EtcdWatch] and [WatchCache]: the reflector of the cacher
    reads the pages of a path ([cacher.go], [reflector.go], [pager.go], [etcd3/store.go]),
    fills the watch cache with them and follows the watch of the version of the list
    ([etcd3/watcher.go]).  The theorem shows that the cache then holds, at every moment of the
    watch, exactly the objects that etcd holds below the path. *)
From S2P Require Import Prelude Types Strconv IndexedStore Informer Revision WatchCache Cacher EtcdWatch EtcdList.
From S2P Require FieldSelector.
Import FieldSelector.

Local Open Scope Z_scope.

#[local] Abbreviation kv := (string * Z * Z)%type.

(** What is held below a path. *)
Definition below (dir : string) (m : gmap string kv) : gmap string kv := filter (fun x => String.prefix (with_slash dir) x.1 = true) m.

Section Cache.
Context {obj W : Type}.
#[local] Abbreviation welem := (storeElement (obj := obj)).
Context (TransformFromStorage : string -> string -> result (string * bool)) (Decode : string -> result obj) (UpdateObject : obj -> Z -> obj) (getAttrs : obj -> result (attrs * attrs)).
Context (keyFunc : obj -> result string) (root : string -> string) {Hroot : Inj (=) (=) root}.
Hypothesis Hkeys : forall o v, keyFunc (UpdateObject o v) = keyFunc o.
Hypothesis Hattrs : forall o v, getAttrs (UpdateObject o v) = getAttrs o.

#[local] Abbreviation readable := (readable_value TransformFromStorage Decode getAttrs keyFunc root).
#[local] Abbreviation stored := (stored_object TransformFromStorage Decode UpdateObject).

(** *** The list as elements of the cache *)

Definition listed_as (x : key_value) (e : welem) : Prop := x.1.1 = root (el_Key e) ∧ stored x.1.1 x.1.2 x.2 = Ok (el_Object e).

Lemma list_elements l : Forall (fun x : key_value => readable x.1.1 x.1.2) l -> ∃ es, store_elements keyFunc getAttrs (matching TransformFromStorage Decode UpdateObject getAttrs Everything l) = Ok es ∧ Forall2 listed_as l es.
Proof.
  induction 1 as [|[[k value] rev] l Hx _ (es & Hes & Hall)]; [exists []; by split|]. cbn in Hx. destruct (stored_readable TransformFromStorage Decode UpdateObject getAttrs keyFunc root k value Hx) as (o & key & Hk & Hroot' & Ha & Ho).
  change (matching ?a ?b ?c ?d ?e ((k, value, rev) :: l)) with (item a b c d e (k, value, rev) ++ matching a b c d e l). unfold item. cbn [fst snd]. rewrite (Ho rev). assert (pred_Matches getAttrs Everything (UpdateObject o rev) = Ok true) as -> by reflexivity. cbn [app store_elements]. rewrite Hkeys, Hk, Hattrs. destruct (getAttrs o) as [[ls fs]|]; [|done].
  rewrite Hes. eexists. split; [reflexivity|]. constructor; [|done]. split; [done|]. cbn. by rewrite (Ho rev).
Qed.

Lemma listed_lookup (es : list welem) k e : NoDup (el_Key <$> es) -> listed_map es !! k = Some e <-> e ∈ es ∧ el_Key e = k.
Proof.
  unfold listed_map. assert (forall m : gmap string welem, NoDup (el_Key <$> es) -> foldl (fun m elem => <[el_Key elem := elem]> m) m es !! k = Some e <-> (e ∈ es ∧ el_Key e = k) ∨ ((k ∉ (el_Key <$> es)) ∧ m !! k = Some e)) as H.
  { induction es as [|x es IH]; intros m Hnd; cbn.
    - split; [intros Hm; right; split; [apply not_elem_of_nil|done]|]. intros [[Hin _]|[_ ?]]; [by apply elem_of_nil in Hin|done].
    - cbn in Hnd. apply NoDup_cons in Hnd as [Hx Hnd]. rewrite (IH _ Hnd), !elem_of_cons. destruct (decide (el_Key x = k)) as [<-|Hne].
      + rewrite lookup_insert_eq. split.
        * intros [[Hin Hk]|[_ [= <-]]]; [left; split; [by right|done]|left; split; [by left|done]].
        * intros [[[->|Hin] Hk]|[Hn _]]; [by right|left; by split|]. by destruct Hn; left.
      + rewrite lookup_insert_ne by done. split.
        * intros [[Hin Hk]|[Hn Hm]]; [left; split; [by right|done]|right; split; [|done]]. by intros [->|?].
        * intros [[[->|Hin] Hk]|[Hn Hm]]; [done|left; by split|right; split; [|done]]. intros ?. apply Hn. by right. }
  intros Hnd. rewrite (H ∅ Hnd), lookup_empty. naive_solver.
Qed.

(** The list of a path gives the cache the objects that etcd holds below it. *)
Lemma list_mirrors dir m rest : is_range m (with_slash dir) (GetPrefixRangeEnd (with_slash dir)) rest -> (forall k value created rev, below dir m !! k = Some (value, created, rev) -> readable k value) ->
  ∃ es, store_elements keyFunc getAttrs (matching TransformFromStorage Decode UpdateObject getAttrs Everything rest) = Ok es ∧
    forall k, (el_Object <$> listed_map es !! k) = etcd_object TransformFromStorage Decode UpdateObject root (below dir m) k.
Proof.
  intros [Hs Hl] Hread. assert (forall k value rev, (k, value, rev) ∈ rest <-> ∃ created, below dir m !! k = Some (value, created, rev)) as Hin.
  { destruct (with_slash_ends dir) as [t Ht]. intros k value rev. rewrite Hl. unfold below. pose proof (prefix_range t "/" k eq_refl) as Hp. rewrite <- Ht in Hp. split.
    - intros ((c & Hm) & H1 & H2). exists c. apply map_lookup_filter_Some. split; [done|]. cbn. by rewrite <- Hp, H1, H2.
    - intros (c & Hm). apply map_lookup_filter_Some in Hm as [Hm Hpre]. cbn in Hpre. rewrite <- Hp in Hpre. apply andb_true_iff in Hpre. split; [by exists c|done]. }
  destruct (list_elements rest) as (es & Hes & Hall). { apply Forall_forall. intros [[k value] rev] Hx. apply Hin in Hx as [created Hx]. cbn. by apply (Hread k value created rev). }
  assert (NoDup (el_Key <$> es)) as Hnd. { apply (NoDup_fmap_1 root). pose proof (sorted_keys rest Hs) as Hnd. replace (root <$> (el_Key <$> es)) with ((fun x : key_value => x.1.1) <$> rest); [done|]. clear -Hall. induction Hall as [|x e l es [Hx _] _ IH]; [done|]. cbn. by rewrite Hx, IH. }
  exists es. split; [done|]. intros k. unfold etcd_object. destruct (below dir m !! root k) as [[[value created] rev]|] eqn:E.
  - assert ((root k, value, rev) ∈ rest) as Hx by (apply Hin; by exists created). apply list_elem_of_lookup in Hx as [i Hx]. destruct (Forall2_lookup_l _ _ _ _ _ Hall Hx) as (e & He & Hk & Ho). cbn in Hk, Ho. rewrite Ho. apply (inj root) in Hk.
    assert (listed_map es !! k = Some e) as ->; [|done]. apply listed_lookup; [done|]. split; [by eapply list_elem_of_lookup_2|done].
  - destruct (listed_map es !! k) as [e|] eqn:Ee; [|done]. apply listed_lookup in Ee as [He <-]; [|done]. apply list_elem_of_lookup in He as [i He]. destruct (Forall2_lookup_r _ _ _ _ _ Hall He) as ([[k value] rev] & Hx & Hk & _). cbn in Hk. subst k.
    apply list_elem_of_lookup_2, Hin in Hx as [created Hx]. by rewrite Hx in E.
Qed.

(** *** From the list to the watch *)

Context (range : forall A : Type, gmap string A -> list (string * A)) (ObjectResourceVersion : obj -> result Z).
Hypothesis Hrange : forall A (m : gmap string A), range A m ≡ₚ map_to_list m.
Hypothesis Hversion : forall o v, ObjectResourceVersion (UpdateObject o v) = Ok v.
Context (Marshal : list continueToken -> result string) (Unmarshal : string -> result (list (option continueToken))) (EncodeToString : string -> string) (DecodeString : string -> result string).
Hypothesis Htext : forall ts, Forall (fun t => plain_text (StartKey t) = true ∧ continueKey t = EmptyString) ts ->
  ∃ data, Marshal ts = Ok data ∧ EncodeToString data <> EmptyString ∧ DecodeString (EncodeToString data) = Ok data ∧ Unmarshal data = Ok (Some <$> ts).
Context (KV_Range : W -> Z -> string -> OpOptions -> result GetResponse * W) (RemainingItemCount : bool) (pathPrefix : string) (GetClusterIdFromTenantHandler : string -> Z).
Context (range_ids : gset Z -> list Z) (range_results : gmap Z (outcome listPartitionResult) -> list (Z * outcome listPartitionResult)).
Hypothesis Hids : forall s, range_ids s ≡ₚ elements s.
Hypothesis Hresults : forall m, range_results m ≡ₚ map_to_list m.
(** One storage cluster, whose revisions since [oldest] can be read. *)
Context (valid : W -> Prop) (revision : W -> Z -> Z) (held : Z -> Z -> gmap string kv) (oldest : Z).
Hypothesis Hlaws : range_laws KV_Range valid revision held.
Hypothesis Hserved : forall w key o, valid w -> op_rev o = 0 ∨ oldest <= op_rev o <= revision w 0 -> ∃ resp w', KV_Range w 0 key o = (Ok resp, w').
Hypothesis Hrevisions : forall w, valid w -> 0 < oldest <= revision w 0 ∧ revision w 0 < 2 ^ 63.
Hypothesis Hcreated : forall r, oldest <= r -> created_before (held 0 r) r.

#[local] Abbreviation dir_of prefix := (join_prefix pathPrefix prefix).

(** C11.  The watch cache is filled and follows, with one etcd, without data clusters, that
    serves reads of the present and of its revisions since the oldest kept one, and with
    readable values under plain keys: the reflector of the cacher, reading the pages of a path
    while others write, ends with a list, with any size of the pages; and when the cache is
    filled with it and given the events of the watch from its version on, then after any writes
    below the path no event was refused or lost, and the cache holds under each key exactly the
    object that etcd holds under its path, in its present version. *)
Theorem cache_is_filled_and_follows capacity resourcePrefix PageSize turns w : (0 < capacity)%nat -> 0 < PageSize -> (0 < turns)%nat -> valid w ->
  (forall r rest value created rev, oldest <= r -> held 0 r !! (with_slash (dir_of resourcePrefix) +:+ rest) = Some (value, created, rev) -> readable (with_slash (dir_of resourcePrefix) +:+ rest) value ∧ clean_path rest ∧ plain_text rest = true) ->
  ∃ r objs w', revision w 0 <= r <= revision w' 0 ∧
    (∃ n, forall fuel, (n <= fuel)%nat -> reflector_list TransformFromStorage Decode UpdateObject getAttrs Marshal Unmarshal EncodeToString DecodeString KV_Range RemainingItemCount true pathPrefix ∅ GetClusterIdFromTenantHandler range_ids range_results
       (replicate turns 0) resourcePrefix PageSize fuel w = (Returned (Done (mkList objs r EmptyString None)), w')) ∧
    forall es, written (below (dir_of resourcePrefix) (held 0 r)) r es -> readable_events TransformFromStorage Decode getAttrs keyFunc root es ->
      ∃ wc0 cs wc events, wc_Replace range keyFunc getAttrs (newWatchCache capacity) objs r = Some (Ok wc0) ∧ watching TransformFromStorage Decode UpdateObject getAttrs Everything es = ((fun c => (c.1, Some c.2)) <$> cs, None) ∧
        wc_changes range keyFunc getAttrs ObjectResourceVersion wc0 cs = Some (Ok (wc, events)) ∧ ce_Version <$> events = me_ModRevision <$> es ∧
        forall k, (el_Object <$> store_items (wc_store wc) !! k) = etcd_object TransformFromStorage Decode UpdateObject root (foldl put_event (below (dir_of resourcePrefix) (held 0 r)) es) k.
Proof.
  intros Hcap Hsize Hturns Hw Hobjects. destruct (Hrevisions w Hw) as [Hold _].
  destruct (pages_complete TransformFromStorage Decode UpdateObject getAttrs Marshal Unmarshal EncodeToString DecodeString KV_Range RemainingItemCount true pathPrefix ∅ GetClusterIdFromTenantHandler range_ids range_results
    Everything PageSize resourcePrefix turns valid revision held oldest) with (full := true) (w := w) as (r & rest & w' & Hr & Hw' & Hrest & Hrun); try done.
  { unfold paging. by apply Z.ltb_lt. }
  { intros r rest value created rev Hr Hm. destruct (Hobjects r rest value created rev Hr Hm) as (Hv & Hc & Hp). split; [|done]. destruct (stored_readable TransformFromStorage Decode UpdateObject getAttrs keyFunc root _ _ Hv) as (o & k & _ & _ & _ & Ho). unfold readable_pair. cbn [fst snd]. by rewrite Ho. }
  { by left. }
  destruct (Hrevisions w' Hw') as [_ Hmax]. assert (forall k value created rev, below (dir_of resourcePrefix) (held 0 r) !! k = Some (value, created, rev) -> readable k value) as Hread.
  { intros k value created rev Hm. apply map_lookup_filter_Some in Hm as [Hm Hp]. cbn in Hp. destruct (prefix_rest _ _ Hp) as [s ->]. by destruct (Hobjects r s value created rev ltac:(lia) Hm) as [? _]. }
  destruct (list_mirrors (dir_of resourcePrefix) (held 0 r) rest Hrest Hread) as (l & Hl & Hlist). exists r, (matching TransformFromStorage Decode UpdateObject getAttrs Everything rest), w'. split; [done|]. split; [exists (S (length rest)); intros fuel Hfuel; apply Hrun; lia|].
  intros es Hes He. destruct (cache_follows_etcd TransformFromStorage Decode UpdateObject getAttrs keyFunc root Hkeys Hattrs range ObjectResourceVersion Hrange Hversion capacity (matching TransformFromStorage Decode UpdateObject getAttrs Everything rest) l (below (dir_of resourcePrefix) (held 0 r)) r es) as (wc0 & cs & wc & events & H1 & H2 & H3 & H4 & _ & H6); try done.
  - lia.
  - intros k x Hx. apply map_lookup_filter_Some in Hx as [Hx _]. exact (Hcreated r ltac:(lia) k x Hx).
  - intros k [[value created] rev] Hx. by apply (Hread k value created rev).
  - by exists wc0, cs, wc, events.
Qed.

(** *** The cacher fed by etcd *)

Section Fed.
Context (order : gset nat -> list nat) (triggerFunc : option (obj -> list string)) (P : Z -> Prop).
Hypothesis Horder : forall s, order s ≡ₚ elements s.
Hypothesis Hone : one_source P.

#[local] Abbreviation wevent := (watchCacheEvent (obj := obj)).
#[local] Abbreviation step := (cacher_step range order keyFunc getAttrs UpdateObject triggerFunc P).
#[local] Abbreviation object := (etcd_object TransformFromStorage Decode UpdateObject root).
#[local] Abbreviation good_kvs := (readable_kvs TransformFromStorage Decode getAttrs keyFunc root).

(** A step of the cacher with what etcd held at the version of its cache: its reflector has
    listed what etcd holds at some revision; it has got the event of the next write; or the
    cacher does something else. *)
Inductive fed_step : state (obj := obj) * gmap string kv -> state (obj := obj) * gmap string kv -> Prop :=
  | fed_list c base hist start m objs elems version c' m' (Hv : wc_resourceVersion (c_watchCache c) <= version) (Hv' : 0 < version < 2 ^ 63) (HP : P version)
      (Hel : store_elements keyFunc getAttrs objs = Ok elems) (Hm : forall k, (el_Object <$> listed_map elems !! k) = object m' k) (Hc : created_before m' version) (Hr : good_kvs m')
      (Hrun : c_replace range keyFunc getAttrs c objs version = Some (Ok c')) :
      fed_step (mkRun Restarting c base hist start, m) (mkRun Serving c' (listed_map elems) [] start, m')
  | fed_event c base hist start m e pe t o w' ev (He : written m (wc_resourceVersion (c_watchCache c)) [e]) (Hr : readable_events TransformFromStorage Decode getAttrs keyFunc root [e]) (HP : P (me_ModRevision e))
      (Hpe : parseEvent e = Ok pe) (Htr : transform TransformFromStorage Decode UpdateObject getAttrs Everything pe = Ok (Some (t, Some o)))
      (Hrun : wc_change range keyFunc getAttrs ObjectResourceVersion (c_watchCache c) t o = Some (Ok (w', ev))) :
      fed_step (mkRun Serving c base hist start, m) (mkRun Serving (set_cache c w' (incoming c ++ [ev])) base (hist ++ [ev]) start, put_event m e)
  | fed_other s s' m (Hstep : step s s') (Hsame : c_watchCache (rs_c s') = c_watchCache (rs_c s)) : fed_step (s, m) (s', m).

(** The cache holds the objects of etcd. *)
Record fed_ok (x : state (obj := obj) * gmap string kv) : Prop := {
  fo_inv : inv keyFunc getAttrs UpdateObject triggerFunc P x.1;
  fo_mirror : mirrors TransformFromStorage Decode UpdateObject root (c_watchCache (rs_c x.1)) x.2;
  fo_created : created_before x.2 (wc_resourceVersion (c_watchCache (rs_c x.1)));
  fo_good : good_kvs x.2 }.

Lemma fed_start capacity : (0 < capacity)%nat -> fed_ok (start_state capacity, ∅).
Proof.
  intros Hcap. split; cbn.
  - apply (reachable_inv range order keyFunc getAttrs UpdateObject triggerFunc P Hrange Horder Hone capacity); [done|apply rtc_refl].
  - intros k. unfold etcd_object. by rewrite !lookup_empty.
  - apply map_Forall_empty.
  - apply map_Forall_empty.
Qed.

(** Every step of the fed cacher is one of the cacher, and keeps this. *)
Lemma fed_keeps x y : fed_ok x -> fed_step x y -> step x.1 y.1 ∧ fed_ok y.
Proof.
  intros [Hinv Hmir Hcr Hgood] Hstep. assert (step x.1 y.1 -> inv keyFunc getAttrs UpdateObject triggerFunc P y.1) as Hkeep by (intros H; eapply inv_steps; [done|done|done|exact Hinv|by apply rtc_once]).
  destruct Hstep as [c base hist start m objs elems version c' m' Hv Hv' HP Hel Hm Hc Hr Hrun|c base hist start m e pe t o w' ev He Hr HP Hpe Htr Hrun|s s' m Hstep Hsame]; cbn [fst snd rs_c] in *.
  - assert (step (mkRun Restarting c base hist start) (mkRun Serving c' (listed_map elems) [] start)) as Hs by (apply (step_relist _ _ _ _ _ _ _ _ _ _ _ objs elems version); [done|lia|done|done|done]). split; [done|].
    unfold c_replace in Hrun. destruct (in_buffer _ _ _ _ _ _ Hinv) as (Hb1 & Hb2 & Hb3). cbn [rs_c] in *. destruct (Replace_ok range keyFunc getAttrs Hrange (c_watchCache c) objs elems version Hb1 Hb2 Hb3 ltac:(lia) Hel) as (w' & Hw' & Hsv & _ & _ & Hver).
    rewrite Hw' in Hrun. bind_simpl in Hrun. injection Hrun as <-. split; cbn; [by apply Hkeep| |by rewrite Hver|done]. intros k. rewrite (sv_store _ _ _ Hsv). apply Hm.
  - pose proof (in_serves _ _ _ _ _ _ Hinv ltac:(done)) as Hsv. cbn [rs_c rs_base rs_hist] in Hsv.
    destruct (EtcdWatch.fed_write TransformFromStorage Decode UpdateObject getAttrs keyFunc root Hkeys Hattrs range ObjectResourceVersion Hrange Hversion (c_watchCache c) base hist m e Hsv Hmir He Hcr Hgood Hr) as (pe2 & t2 & o2 & w2 & ev2 & Hpe2 & Htr2 & Ht & Hov & Hrun2 & _ & Hver & Hmir2).
    rewrite Hpe2 in Hpe. injection Hpe as <-. rewrite Htr2 in Htr. injection Htr as <- <-. rewrite Hrun2 in Hrun. injection Hrun as <- <-. pose proof He as (Hrev & _).
    assert (step (mkRun Serving c base hist start) (mkRun Serving (set_cache c w2 (incoming c ++ [ev2])) base (hist ++ [ev2]) start)) as Hs by (apply (step_change _ _ _ _ _ _ _ c base hist start t2 o2 (me_ModRevision e)); [done|lia|done|]; unfold wc_change in Hrun2; by rewrite Hov in Hrun2).
    split; [done|]. split; cbn; [by apply Hkeep|done| |by apply readable_after]. rewrite Hver. by eapply created_after.
  - split; [done|]. split; cbn; [by apply Hkeep|..]; by rewrite ?Hsame.
Qed.

Lemma fed_run x y : rtc fed_step x y -> fed_ok x -> rtc step x.1 y.1 ∧ fed_ok y.
Proof.
  induction 1 as [x|x y z Hxy _ IH]; intros Hx; [split; [apply rtc_refl|done]|]. destruct (fed_keeps x y Hx Hxy) as [H1 Hy]. destruct (IH Hy) as [H2 Hz]. split; [by eapply rtc_l|done].
Qed.

(** The next write can always be taken in. *)
Lemma fed_progress s m e : fed_ok (s, m) -> rs_phase s = Serving -> written m (wc_resourceVersion (c_watchCache (rs_c s))) [e] -> readable_events TransformFromStorage Decode getAttrs keyFunc root [e] -> P (me_ModRevision e) ->
  ∃ s', fed_step (s, m) (s', put_event m e) ∧ rs_phase s' = Serving.
Proof.
  intros [Hinv Hmir Hcr Hgood] Hp He Hr HP. destruct s as [ph c base hist start]. cbn [rs_phase fst snd rs_c] in *. subst ph. pose proof (in_serves _ _ _ _ _ _ Hinv ltac:(done)) as Hsv. cbn [rs_c rs_base rs_hist] in Hsv.
  destruct (EtcdWatch.fed_write TransformFromStorage Decode UpdateObject getAttrs keyFunc root Hkeys Hattrs range ObjectResourceVersion Hrange Hversion (c_watchCache c) base hist m e Hsv Hmir He Hcr Hgood Hr) as (pe & t & o & w' & ev & Hpe & Htr & _ & _ & Hrun & _).
  eexists. split; [by eapply fed_event|done].
Qed.
End Fed.
End Cache.

(** ** Examples *)

(** A pod that changes its node while the cache follows. *)
Definition demo_move : list mvcc_event := [mkMvcc true "/registry/pods/a" "ay" 1 6 (Some "ax"%string)].

Lemma cache_is_filled_and_follows_witness : ∃ r objs w', (∃ n, forall fuel, (n <= fuel)%nat ->
    reflector_list placed_transform placed_decode placed_update placed_attrs digits_Marshal digits_Unmarshal id Ok (mem_Range demo_contents (fun _ => 5)) true true "/registry" ∅ (fun _ => 0) elements map_to_list (replicate 1 0) "/pods" 2 fuel 0%nat =
      (Returned (Done (mkList objs r EmptyString None)), w')) ∧
  ∃ wc0 cs wc events, wc_Replace visit_map placed_key placed_attrs (newWatchCache 2) objs r = Some (Ok wc0) ∧ watching placed_transform placed_decode placed_update placed_attrs Everything demo_move = ((fun c => (c.1, Some c.2)) <$> cs, None) ∧
    wc_changes visit_map placed_key placed_attrs placed_version wc0 cs = Some (Ok (wc, events)) ∧
    (el_Object <$> store_items (wc_store wc) !! "/a"%string) = Some (mkPlaced "a" "y" 6) ∧ (el_Object <$> store_items (wc_store wc) !! "/b"%string) = Some (mkPlaced "b" "y" 2).
Proof.
  assert (forall r rest value created rev, 3 <= r -> mem_held demo_contents 0 r !! (with_slash "/registry/pods" +:+ rest) = Some (value, created, rev) ->
    readable_value placed_transform placed_decode placed_attrs placed_key placed_root (with_slash "/registry/pods" +:+ rest) value ∧ clean_path rest ∧ plain_text rest = true) as Hobjects.
  { intros r rest value created rev _ Hm. split; [|by eapply demo_objects]. apply elem_of_list_to_map_2 in Hm. change (with_slash "/registry/pods" +:+ rest) with ("/registry/pods/" +:+ rest) in *. cbn in Hm. rewrite !elem_of_cons, elem_of_nil in Hm.
    destruct Hm as [[= Hr -> -> ->]|[[= Hr -> -> ->]|[[= Hr -> -> ->]|[]]]]; change ("" +:+ rest) with rest in Hr; subst rest; apply placed_readable. }
  destruct (cache_is_filled_and_follows placed_transform placed_decode placed_update placed_attrs placed_key placed_root (fun o v => eq_refl) (fun o v => eq_refl) visit_map placed_version (fun A m => reflexivity _) (fun o v => eq_refl)
    digits_Marshal digits_Unmarshal id Ok digits_text_ok (mem_Range demo_contents (fun _ => 5)) true "/registry" (fun _ => 0) elements map_to_list (fun s => reflexivity _) (fun m => reflexivity _)
    (fun _ => True) (fun _ _ => 5) (mem_held demo_contents) 3 (mem_laws demo_contents (fun _ => 5) demo_sorted (fun _ => Z.le_refl 5))) with (capacity := 2%nat) (resourcePrefix := "/pods"%string) (PageSize := 2) (turns := 1%nat) (w := 0%nat)
    as (r & objs & w' & Hr & Hlist & Hfollow).
  - intros w key o _ _. by do 2 eexists.
  - intros w _. lia.
  - intros r Hr k [[value created] rev] Hm. apply elem_of_list_to_map_2 in Hm. cbn in Hm. rewrite !elem_of_cons, elem_of_nil in Hm. destruct Hm as [[= _ _ -> _]|[[= _ _ -> _]|[[= _ _ -> _]|[]]]]; cbn; lia.
  - lia.
  - lia.
  - lia.
  - done.
  - exact Hobjects.
  - assert (r = 5) as -> by lia. exists 5, objs, w'. split; [exact Hlist|]. destruct (Hfollow demo_move) as (wc0 & cs & wc & events & H1 & H2 & H3 & _ & H4).
    + cbn [written demo_move me_ModRevision]. split_and!; try lia; reflexivity || done.
    + apply Forall_cons_2; [|apply Forall_nil_2]. intros _. exact (placed_readable "a" "y").
    + exists wc0, cs, wc, events. split; [exact H1|]. split; [exact H2|]. split; [exact H3|]. split; rewrite H4; reflexivity.
Defined.
