(* ===== verification/StorageClusters.v ===== *)
(** * Tenants and their storage clusters

    Models [apiserver/pkg/storage/storagecluster]: the manager that follows the tenants and
    the storage clusters they are assigned to, and the one that follows the storage clusters
    and announces them; and, of [storagebackend/factory/etcd3.go] and [etcd3/store.go], the
    clients that a storage makes of the announcements.  Both give [EtcdList] its data clusters
    and the cluster of a tenant.

    After any histories of notifications with rising versions the objects of a tenant go to
    the server of its storage cluster.  The last section shows what happens to tenants whose
    versions do not rise, as in the first list of an informer, to a change of address that is
    announced before it is recorded, and to the watches of a storage. *)
From S2P Require Import Prelude Types Strconv DeltaFifo Revision EtcdList.

Local Open Scope Z_scope.

(** ** Versions *)

Definition MaxUint64 : Z := 2 ^ 64 - 1.

(** The loop of [strconv.ParseUint], which stops at the first digit that is too much. *)
Fixpoint parse_digits (acc : Z) (s : string) : option Z :=
  match s with
  | EmptyString => Some acc
  | String c s =>
      match digit c with
      | None => None
      | Some d => if MaxUint64 <? acc * 10 + d then Some MaxUint64 else parse_digits (acc * 10 + d) s
      end
  end.

(** The number that [strconv.ParseInt(s, 10, 64)] returns whatever error comes with it. *)
Definition ParseInt_value (s : string) : Z :=
  let '(neg, body) := split_sign s in
  match body with
  | EmptyString => 0
  | _ =>
      match parse_digits 0 body with
      | None => 0
      | Some un => if (neg : bool) then (if 2 ^ 63 <? un then MinInt64 else - un) else (if 2 ^ 63 <=? un then MaxInt64 else un)
      end
  end.

(** [diff.RevisionIsNewer(uint64(a), uint64(b))] *)
Definition revision_newer (a b : Z) : bool := RevisionIsNewer (uint64 a) (uint64 b).

(** The object of a notification of a deletion, when there is one
    (storagecluster/tenantstoragemapmanager.go:226-237 deleteTenant). *)
Definition deleted_object {A} (obj : Object A) : option A :=
  match obj with
  | Plain o => Some o
  | FinalStateUnknown _ (Some (Plain o)) => Some o
  | FinalStateUnknown _ _ => None
  end.

(** ** Tenants *)

(** What the manager reads of a tenant. *)
Record Tenant := mkTenant { tn_Name : string; tn_deleting : bool; tn_StorageClusterId : string; tn_ResourceVersion : string }.

(** (storagecluster/tenantstoragemapmanager.go:37-40) *)
Record tenantStorage := mkTenantStorage { ts_clusterId : string; ts_rev : Z }.

(** (storagecluster/tenantstoragemapmanager.go:42-50) *)
Record TenantStorageMapManager := mkTenantManager { tenantToClusterMap : gmap string tenantStorage; tm_rev : Z }.

(** (storagecluster/tenantstoragemapmanager.go:67-70 NewTenantStorageMapManager) *)
Definition new_tenant_manager : TenantStorageMapManager := mkTenantManager ∅ 0.

(** The entries of the listed tenants, and the tenants with a version that is no number; the
    version of the manager stays (storagecluster/tenantstoragemapmanager.go:102-131). *)
Definition syncTenants (m : TenantStorageMapManager) (tenants : list Tenant) : TenantStorageMapManager * list string :=
  foldl (fun '(m, aggErr) tenant =>
    let '(rev, aggErr) := match ParseInt (tn_ResourceVersion tenant) with Some rev => (rev, aggErr) | None => (-1, aggErr ++ [tn_Name tenant]) end in
    (mkTenantManager (<[tn_Name tenant := mkTenantStorage (tn_StorageClusterId tenant) rev]> (tenantToClusterMap m)) (tm_rev m), aggErr)) (m, []) tenants.

(** (storagecluster/tenantstoragemapmanager.go:133-173) *)
Definition addTenant (m : TenantStorageMapManager) (tenant : Tenant) : TenantStorageMapManager :=
  if tn_deleting tenant then m
  else
    match ParseInt (tn_ResourceVersion tenant) with
    | None => m
    | Some rev =>
        if revision_newer (tm_rev m) rev then m
        else
          match tenantToClusterMap m !! tn_Name tenant with
          | Some _ => m
          | None => mkTenantManager (<[tn_Name tenant := mkTenantStorage (tn_StorageClusterId tenant) rev]> (tenantToClusterMap m)) rev
          end
    end.

(** The deferred function writes the new entry on every way out
    (storagecluster/tenantstoragemapmanager.go:175-223). *)
Definition updateTenant (m : TenantStorageMapManager) (oldTenant curTenant : Tenant) : TenantStorageMapManager :=
  if String.eqb (tn_ResourceVersion curTenant) (tn_ResourceVersion oldTenant) then m
  else
    let oldRev := ParseInt_value (tn_ResourceVersion oldTenant) in
    match ParseInt (tn_ResourceVersion curTenant) with
    | None => m
    | Some newRev =>
        if revision_newer oldRev newRev then m
        else
          let kept := if negb (String.eqb (tn_Name curTenant) (tn_Name oldTenant)) then delete (tn_Name oldTenant) (tenantToClusterMap m) else tenantToClusterMap m in
          mkTenantManager (<[tn_Name curTenant := mkTenantStorage (tn_StorageClusterId curTenant) newRev]> kept) newRev
    end.

(** (storagecluster/tenantstoragemapmanager.go:225-257) *)
Definition deleteTenant (m : TenantStorageMapManager) (obj : Object Tenant) : TenantStorageMapManager :=
  match deleted_object obj with
  | None => m
  | Some tenant =>
      match ParseInt (tn_ResourceVersion tenant) with
      | None => m
      | Some rev => if revision_newer (tm_rev m) rev then m else mkTenantManager (delete (tn_Name tenant) (tenantToClusterMap m)) (tm_rev m)
      end
  end.

(** (storagecluster/tenantstoragemapmanager.go:259-273) *)
Definition GetClusterIdFromTenant (m : TenantStorageMapManager) (tenant : string) : Z :=
  match tenantToClusterMap m !! tenant with
  | Some st => match GetClusterIdFromString (ts_clusterId st) with Ok clusterId => clusterId | Err _ => 0 end
  | None => 0
  end.

(** ** Storage clusters *)

(** What the manager reads of a storage cluster. *)
Record StorageCluster := mkCluster { sc_Name : string; sc_deleting : bool; sc_StorageClusterId : string; sc_ServiceAddress : string; sc_ResourceVersion : string }.

(** (storagecluster/storageclustermanager.go:38-46) *)
Record StorageClusterManager := mkClusterManager { backendClusters : gmap Z StorageCluster; sm_rev : Z }.

(** (storagecluster/storageclustermanager.go:61-64 NewStorageClusterManager) *)
Definition new_cluster_manager : StorageClusterManager := mkClusterManager ∅ 0.

(** (storagecluster/update.go:27-35) *)
Record StorageClusterAction := mkAction { StorageClusterId : Z; ServerAddresses : list string; Action : string }.

(** The announcement, which a storage takes from its channel; [None] is the panic for a
    cluster that is not there (storagecluster/storageclustermanager.go:267-277). *)
Definition updateBackendStorageConfig (s : StorageClusterManager) (storageClusterId : Z) (action : string) : option StorageClusterAction :=
  cluster ← backendClusters s !! storageClusterId;
  Some (mkAction storageClusterId [sc_ServiceAddress cluster] action).

Section Sync.
(** The order in which a map is ranged over. *)
Context (range : gmap Z StorageCluster -> list (Z * StorageCluster)).

(** The clusters of the list, one after the other (storagecluster/storageclustermanager.go:110-124
    syncClusters). *)
Definition sync_cluster (acc : option (StorageClusterManager * list string)) (cluster : StorageCluster) : option (StorageClusterManager * list string) :=
  '(s, aggErr) ← acc;
  match GetClusterIdFromString (sc_StorageClusterId cluster) with
  | Err _ => None
  | Ok clusterId =>
      let clusters := <[clusterId := cluster]> (backendClusters s) in
      Some (match ParseInt (sc_ResourceVersion cluster) with
            | None => (mkClusterManager clusters (sm_rev s), aggErr ++ [sc_Name cluster])
            | Some newRev => (mkClusterManager clusters (if sm_rev s <? newRev then newRev else sm_rev s), aggErr)
            end)
  end.

(** The manager, the clusters with a version that is no number, and the announcements
    (storagecluster/storageclustermanager.go:96-131). *)
Definition syncClusters (s : StorageClusterManager) (clusters : list StorageCluster) : option (StorageClusterManager * list string * list StorageClusterAction) :=
  '(s, aggErr) ← foldl sync_cluster (Some (s, [])) clusters;
  actions ← mapM (fun kv => updateBackendStorageConfig s kv.1 "ADD") (range (backendClusters s));
  Some (s, aggErr, actions).
End Sync.

(** [None] is a fatal log (storagecluster/storageclustermanager.go:133-170). *)
Definition addCluster (s : StorageClusterManager) (c : StorageCluster) : option (StorageClusterManager * list StorageClusterAction) :=
  if sc_deleting c then Some (s, [])
  else
    match ParseInt (sc_ResourceVersion c) with
    | None => Some (s, [])
    | Some rev =>
        if revision_newer (sm_rev s) rev then Some (s, [])
        else
          match GetClusterIdFromString (sc_StorageClusterId c) with
          | Err _ => None
          | Ok clusterId =>
              match backendClusters s !! clusterId with
              | Some _ => Some (s, [])
              | None =>
                  let clusters := <[clusterId := c]> (backendClusters s) in
                  action ← updateBackendStorageConfig (mkClusterManager clusters (sm_rev s)) clusterId "ADD";
                  Some (mkClusterManager clusters rev, [action])
              end
          end
    end.

(** A change of address is announced by a goroutine that does not hold the lock: [late] says
    whether it reads the clusters after the new one is recorded
    (storagecluster/storageclustermanager.go:172-218). *)
Definition updateCluster (late : bool) (s : StorageClusterManager) (oldCluster curCluster : StorageCluster) : option (StorageClusterManager * list StorageClusterAction) :=
  if String.eqb (sc_ResourceVersion curCluster) (sc_ResourceVersion oldCluster) then Some (s, [])
  else
    let oldRev := ParseInt_value (sc_ResourceVersion oldCluster) in
    match ParseInt (sc_ResourceVersion curCluster) with
    | None => Some (s, [])
    | Some newRev =>
        if revision_newer oldRev newRev then Some (s, [])
        else if negb (String.eqb (sc_StorageClusterId curCluster) "") && String.eqb (sc_StorageClusterId curCluster) (sc_StorageClusterId oldCluster) then
          match GetClusterIdFromString (sc_StorageClusterId curCluster) with
          | Err _ => None
          | Ok clusterId =>
              let recorded := mkClusterManager (<[clusterId := curCluster]> (backendClusters s)) newRev in
              if negb (String.eqb (sc_ServiceAddress curCluster) (sc_ServiceAddress oldCluster)) then
                action ← updateBackendStorageConfig (if late then recorded else s) clusterId "UPDATE";
                Some (recorded, [action])
              else Some (recorded, [])
          end
        else Some (s, [])
    end.

(** An old version is only logged (storagecluster/storageclustermanager.go:220-265). *)
Definition deleteCluster (s : StorageClusterManager) (obj : Object StorageCluster) : option (StorageClusterManager * list StorageClusterAction) :=
  match deleted_object obj with
  | None => Some (s, [])
  | Some cluster =>
      match ParseInt (sc_ResourceVersion cluster) with
      | None => Some (s, [])
      | Some rev =>
          match GetClusterIdFromString (sc_StorageClusterId cluster) with
          | Err _ => None
          | Ok clusterId =>
              match backendClusters s !! clusterId with
              | Some _ =>
                  action ← updateBackendStorageConfig s clusterId "DELETE";
                  Some (mkClusterManager (delete clusterId (backendClusters s)) rev, [action])
              | None => Some (s, [])
              end
          end
      end
  end.

(** ** Notifications *)

Inductive notification (A : Type) := NotifyAdd (a : A) | NotifyUpdate (old cur : A) | NotifyDelete (obj : Object A).
Arguments NotifyAdd {A} a.
Arguments NotifyUpdate {A} old cur.
Arguments NotifyDelete {A} obj.

(** (storagecluster/tenantstoragemapmanager.go:72-76 NewTenantStorageMapManager) *)
Definition tenant_handler (m : TenantStorageMapManager) (n : notification Tenant) : TenantStorageMapManager :=
  match n with NotifyAdd t => addTenant m t | NotifyUpdate old cur => updateTenant m old cur | NotifyDelete obj => deleteTenant m obj end.

(** (storagecluster/storageclustermanager.go:66-70 NewStorageClusterManager) *)
Definition cluster_handler (late : bool) (s : StorageClusterManager) (n : notification StorageCluster) : option (StorageClusterManager * list StorageClusterAction) :=
  match n with NotifyAdd c => addCluster s c | NotifyUpdate old cur => updateCluster late s old cur | NotifyDelete obj => deleteCluster s obj end.

(** ** The clients of a storage *)

(** The data clusters of a storage: the addresses of the clients, of the clients that the
    destroy functions close and of the clients of the watchers; the data clusters that each
    open watch follows; and the addresses of closed clients (etcd3/store.go:69-92 store). *)
Record DataClients := mkClients {
  dataClusterClients : gmap Z (list string);
  dataClusterDestroyFunc : gmap Z (list string);
  dataClusterWatchers : gmap Z (list string);
  open_watches : list (list (Z * list string));
  closed_clients : list (list string);
}.

(** How a step of the storage ends: normally, in a fatal log, or not at all. *)
Inductive outcome (A : Type) := Ran (a : A) | Exits | Blocks.
Arguments Ran {A} a.
Arguments Exits {A}.
Arguments Blocks {A}.

(** The watch that takes the identifier of the new cluster opens a watch there
    (etcd3/store.go:964-973 watch). *)
Definition take_cluster (s : DataClients) (clusterId : Z) (w : list (Z * list string)) : list (Z * list string) :=
  match dataClusterWatchers s !! clusterId with Some c => w ++ [(clusterId, c)] | None => w end.

(** The send on the channel waits for a watch, and [who] says which of the open ones takes
    it (etcd3/store.go:143-165). *)
Definition AddDataClient (who : nat) (s : DataClients) (c : list string) (clusterId : Z) : result (outcome DataClients) :=
  match dataClusterClients s !! clusterId with
  | Some _ => Err "Trying to add client for existed storage cluster id"
  | None =>
      let s := mkClients (<[clusterId := c]> (dataClusterClients s)) (<[clusterId := c]> (dataClusterDestroyFunc s)) (<[clusterId := c]> (dataClusterWatchers s)) (open_watches s) (closed_clients s) in
      Ok (match open_watches s with
          | [] => Blocks
          | _ => Ran (mkClients (dataClusterClients s) (dataClusterDestroyFunc s) (dataClusterWatchers s) (alter (take_cluster s clusterId) (who mod length (open_watches s))%nat (open_watches s)) (closed_clients s))
          end)
  end.

(** (etcd3/store.go:179-184 UpdateDataClient) *)
Definition close_client (s : DataClients) (clusterId : Z) : list (list string) :=
  match dataClusterDestroyFunc s !! clusterId with Some c => closed_clients s ++ [c] | None => closed_clients s end.

(** (etcd3/store.go:167-192) *)
Definition UpdateDataClient (who : nat) (s : DataClients) (c : list string) (clusterId : Z) : result (outcome DataClients) :=
  match dataClusterClients s !! clusterId with
  | None => AddDataClient who s c clusterId
  | Some existingClient =>
      if bool_decide (existingClient = c) then Ok (Ran s)
      else Ok (Ran (mkClients (<[clusterId := c]> (dataClusterClients s)) (<[clusterId := c]> (dataClusterDestroyFunc s)) (dataClusterWatchers s) (open_watches s) (close_client s clusterId)))
  end.

(** (etcd3/store.go:194-211) *)
Definition DeleteDataClient (s : DataClients) (clusterId : Z) : DataClients :=
  match dataClusterClients s !! clusterId with
  | Some _ => mkClients (delete clusterId (dataClusterClients s)) (dataClusterDestroyFunc s) (dataClusterWatchers s) (open_watches s) (close_client s clusterId)
  | None => s
  end.

(** The goroutine of a new watch follows the data clusters that are added from then on
    (etcd3/store.go:963-974 watch). *)
Definition open_watch (s : DataClients) : DataClients :=
  mkClients (dataClusterClients s) (dataClusterDestroyFunc s) (dataClusterWatchers s) (open_watches s ++ [[]]) (closed_clients s).

Section Storage.
(** The servers of the system cluster, whether a client can be made for a list of servers,
    and the watch that takes the next new cluster. *)
Context (SystemClusterServerList : list string) (newETCD3StorageHelper : list string -> bool) (who : nat).

Definition or_fatal {A} (r : result (outcome A)) : outcome A := match r with Ok o => o | Err _ => Exits end.

(** The announcement that a storage takes from its channel (storagebackend/factory/etcd3.go:209-240
    newETCD3Storage). *)
Definition handle_action (s : DataClients) (action : StorageClusterAction) : outcome DataClients :=
  if String.eqb (Action action) "ADD" then
    match ServerAddresses action, SystemClusterServerList with
    | address :: _, system :: _ =>
        if String.eqb address system then Ran s
        else if newETCD3StorageHelper (ServerAddresses action) then or_fatal (AddDataClient who s (ServerAddresses action) (StorageClusterId action)) else Exits
    | _, _ => Exits
    end
  else if String.eqb (Action action) "UPDATE" then
    if newETCD3StorageHelper (ServerAddresses action) then or_fatal (UpdateDataClient who s (ServerAddresses action) (StorageClusterId action)) else Exits
  else if String.eqb (Action action) "DELETE" then Ran (DeleteDataClient s (StorageClusterId action))
  else Ran s.

(** A storage takes the announcements of a notification in their order. *)
Fixpoint handle_actions (s : DataClients) (actions : list StorageClusterAction) : outcome DataClients :=
  match actions with
  | [] => Ran s
  | action :: actions => match handle_action s action with Ran s => handle_actions s actions | o => o end
  end.

(** The notifications of the storage clusters, each with the moment at which the goroutine
    reads, and a storage that has taken the announcements before the next notification. *)
Fixpoint follow_clusters (m : StorageClusterManager) (s : DataClients) (ns : list (bool * notification StorageCluster)) : outcome (StorageClusterManager * DataClients) :=
  match ns with
  | [] => Ran (m, s)
  | (late, n) :: ns =>
      match cluster_handler late m n with
      | None => Exits
      | Some (m, actions) => match handle_actions s actions with Ran s => follow_clusters m s ns | Exits => Exits | Blocks => Blocks end
      end
  end.

(** The server that the objects of a tenant go to: that of the client chosen for it. *)
Definition server_of (m : TenantStorageMapManager) (s : DataClients) (tenant : string) : list string :=
  let clusterId := getClientForTenant (dom (dataClusterClients s)) (GetClusterIdFromTenant m) tenant in
  if clusterId =? 0 then SystemClusterServerList else default SystemClusterServerList (dataClusterClients s !! clusterId).
End Storage.

(** ** Histories *)

Section Histories.
(** Objects with their keys, their versions and what a change keeps; the versions of one
    source. *)
Context {K A : Type} `{Countable K} (key : A -> option K) (version : A -> string) (deleting : A -> bool) (keeps : A -> A -> Prop) (P : Z -> Prop).

(** [a] has the version [rev], later than [r]. *)
Definition later (r rev : Z) (a : A) : Prop := ParseInt (version a) = Some rev ∧ P rev ∧ r < rev < 2 ^ 63.

(** The notifications of a server that numbers its changes: the objects that are left and
    the last version. *)
Inductive history : list (notification A) -> gmap K A -> Z -> Prop :=
  | history_nil : history [] ∅ 0
  | history_add ns live r rev a k : history ns live r -> later r rev a -> key a = Some k -> deleting a = false -> live !! k = None ->
      history (ns ++ [NotifyAdd a]) (<[k := a]> live) rev
  | history_update ns live r rev old cur k : history ns live r -> later r rev cur -> key cur = Some k -> live !! k = Some old -> keeps old cur ->
      history (ns ++ [NotifyUpdate old cur]) (<[k := cur]> live) rev
  | history_delete ns live r rev old a k : history ns live r -> later r rev a -> key a = Some k -> live !! k = Some old ->
      history (ns ++ [NotifyDelete (Plain a)]) (delete k live) rev.

#[local] Lemma still_older (live : gmap K A) r rev k a : (forall k a, live !! k = Some a -> key a = Some k ∧ ∃ v, ParseInt (version a) = Some v ∧ P v ∧ 0 < v <= r) ->
  r < rev -> live !! k = Some a -> key a = Some k ∧ ∃ v, ParseInt (version a) = Some v ∧ P v ∧ 0 < v <= rev.
Proof. intros IH Hr Ha. destruct (IH k a Ha) as (Hk & v & Hv & HPv & Hle). split; [done|]. exists v. split; [done|split; [done|lia]]. Qed.

(** The last version is that of the source, and no object that is left has a later one. *)
Lemma history_versions ns live r : history ns live r -> (r = 0 ∨ P r) ∧ 0 <= r < 2 ^ 63 ∧
  forall k a, live !! k = Some a -> key a = Some k ∧ ∃ v, ParseInt (version a) = Some v ∧ P v ∧ 0 < v <= r.
Proof.
  induction 1 as [|ns live r rev a k _ (Hp & Hl & IH) (Hv & HP & [Hr ?]) Hk _ _|ns live r rev old a k _ (Hp & Hl & IH) (Hv & HP & [Hr ?]) Hk _ _|ns live r rev old a k _ (Hp & Hl & IH) (Hv & HP & [Hr ?]) _ _].
  - split; [by left|]. split; [lia|]. intros k a Ha. by rewrite lookup_empty in Ha.
  - split; [by right|]. split; [lia|]. intros k' a' [[<- <-]|[_ Ha]]%lookup_insert_Some; [split; [done|exists rev; split; [done|split; [done|lia]]]|].
    by apply (still_older live r).
  - split; [by right|]. split; [lia|]. intros k' a' [[<- <-]|[_ Ha]]%lookup_insert_Some; [split; [done|exists rev; split; [done|split; [done|lia]]]|].
    by apply (still_older live r).
  - split; [by right|]. split; [lia|]. intros k' a' [_ Ha]%lookup_delete_Some.
    by apply (still_older live r).
Qed.
End Histories.

(** ** Versions that rise *)

Lemma digits_from_grows s : forall acc n, 0 <= acc -> digits_from acc s = Some n -> acc <= n.
Proof.
  induction s as [|c s IH]; intros acc n Hacc E; cbn [digits_from] in E; [by simplify_eq|].
  destruct (digit c) as [d|] eqn:Hd; [|done]. bind_simpl in E. assert (0 <= d) as Hd0 by (unfold digit in Hd; repeat case_match; simplify_eq; lia).
  apply IH in E; lia.
Qed.

Lemma parse_digits_exact s : forall acc n, 0 <= acc -> digits_from acc s = Some n -> n <= MaxUint64 -> parse_digits acc s = Some n.
Proof.
  induction s as [|c s IH]; intros acc n Hacc E Hn; cbn [digits_from parse_digits] in *; [done|].
  destruct (digit c) as [d|] eqn:Hd; [|done]. bind_simpl in E. assert (0 <= d) as Hd0 by (unfold digit in Hd; repeat case_match; simplify_eq; lia).
  pose proof (digits_from_grows s (acc * 10 + d) n ltac:(lia) E). destruct (Z.ltb_spec MaxUint64 (acc * 10 + d)); [lia|]. apply IH; [lia|done..].
Qed.

(** A number that is read without an error is the number returned. *)
Lemma ParseInt_value_exact s v : ParseInt s = Some v -> ParseInt_value s = v.
Proof.
  unfold ParseInt, ParseInt_value. destruct (split_sign s) as [neg body]. destruct body as [|c body]; [done|].
  destruct (digits_from 0 (String c body)) as [n|] eqn:E; [|done]. bind_simpl. intros Hv.
  pose proof (digits_from_grows _ _ _ (Z.le_refl 0) E) as Hn. unfold MinInt64, MaxInt64 in *.
  rewrite (parse_digits_exact _ 0 n) by (try done; unfold MaxUint64; destruct neg; case_match; simplify_eq; lia).
  destruct neg; repeat case_match; simplify_eq; lia.
Qed.

Lemma later_is_not_older P a b : one_source P -> a = 0 ∨ P a -> P b -> 0 <= a <= b -> b < 2 ^ 63 -> revision_newer a b = false.
Proof.
  intros HP Ha Hb Hab Hb'. unfold revision_newer, uint64. rewrite !Z.mod_small by lia. destruct Ha as [->|Ha].
  - unfold RevisionIsNewer. assert ((0 <? v2MinRevision) = true) as -> by reflexivity. cbn [orb]. apply Z.ltb_ge. lia.
  - rewrite (newer_of_one_source P) by done. apply Z.ltb_ge. lia.
Qed.

(** Two versions that are read as different numbers are different. *)
Lemma versions_differ a b x y : ParseInt a = Some x -> ParseInt b = Some y -> x <> y -> String.eqb a b = false.
Proof. intros Ha Hb Hxy. apply String.eqb_neq. intros ->. congruence. Qed.

(** ** The manager of the tenants *)

(** The entry of a tenant. *)
Definition entry_of (t : Tenant) : tenantStorage := mkTenantStorage (tn_StorageClusterId t) (ParseInt_value (tn_ResourceVersion t)).

Definition tenant_history := history (fun t => Some (tn_Name t)) tn_ResourceVersion tn_deleting (fun _ _ => True).

Lemma entry_value t rev : ParseInt (tn_ResourceVersion t) = Some rev -> entry_of t = mkTenantStorage (tn_StorageClusterId t) rev.
Proof. intros E. unfold entry_of. by rewrite (ParseInt_value_exact _ _ E). Qed.

(** The manager has the entries of the tenants that are left. *)
Lemma tenants_are_followed P ns live r : one_source P -> tenant_history P ns live r ->
  let m := foldl tenant_handler new_tenant_manager ns in tenantToClusterMap m = entry_of <$> live ∧ 0 <= tm_rev m <= r ∧ (tm_rev m = 0 ∨ P (tm_rev m)).
Proof.
  intros HP Hh. induction Hh as [|ns live r rev a k Hh (Hm & Hr & Hs) (Hv & HPv & Hlt) Hk Hd Hn|ns live r rev old a k Hh (Hm & Hr & Hs) (Hv & HPv & Hlt) Hk Ho _|ns live r rev old a k Hh (Hm & Hr & Hs) (Hv & HPv & Hlt) Hk Ho];
    cbn zeta; [rewrite fmap_empty; cbn; auto with lia|rewrite foldl_app; cbn [foldl tenant_handler]; set (m := foldl _ _ ns) in *; injection Hk as <-..].
  - unfold addTenant. rewrite Hd, Hv, (later_is_not_older P) by (done || lia). rewrite Hm, lookup_fmap, Hn. cbn [fmap option_fmap option_map tenantToClusterMap tm_rev].
    rewrite fmap_insert. rewrite (entry_value _ _ Hv). auto with lia.
  - destruct (history_versions _ _ _ _ _ _ _ _ Hh) as (_ & _ & Hold). destruct (Hold _ _ Ho) as (Hk & v & Hvo & HPo & Hle).
    unfold updateTenant. rewrite (versions_differ _ _ _ _ Hv Hvo), Hv, (ParseInt_value_exact _ _ Hvo), (later_is_not_older P) by (done || lia || auto).
    injection Hk as Hk. rewrite Hk, String.eqb_refl. cbn [negb tenantToClusterMap tm_rev]. rewrite Hm, fmap_insert. rewrite (entry_value _ _ Hv). auto with lia.
  - unfold deleteTenant. cbn [deleted_object]. rewrite Hv, (later_is_not_older P) by (done || lia). cbn [tenantToClusterMap tm_rev]. rewrite Hm, fmap_delete. split; [done|]. split; [lia|done].
Qed.

(** ** The clients of a storage follow the storage clusters *)

Section Follow.
Context (system : string) (others : list string) (newETCD3StorageHelper : list string -> bool) (who : nat).

#[local] Abbreviation handle := (handle_action (system :: others) newETCD3StorageHelper who).
#[local] Abbreviation follow := (follow_clusters (system :: others) newETCD3StorageHelper who).

(** The client of a cluster; only that of a cluster on the server of the system may be
    missing. *)
Definition served (c : option StorageCluster) (client : option (list string)) : Prop :=
  match c with
  | Some c => client = Some [sc_ServiceAddress c] ∨ (client = None ∧ sc_ServiceAddress c = system)
  | None => client = None
  end.

Definition follows (live : gmap Z StorageCluster) (s : DataClients) : Prop :=
  (forall id, served (live !! id) (dataClusterClients s !! id)) ∧ open_watches s <> [].

Lemma served_insert (live : gmap Z StorageCluster) (clients : gmap Z (list string)) id c client : (forall i, served (live !! i) (clients !! i)) -> served (Some c) (Some client) ->
  forall i, served (<[id := c]> live !! i) (<[id := client]> clients !! i).
Proof. intros Hs Hc i. destruct (decide (id = i)) as [<-|Hi]; [by rewrite !lookup_insert_eq|by rewrite !lookup_insert_ne]. Qed.

(** A client that is added takes one of the watches. *)
Lemma AddDataClient_runs s c id : dataClusterClients s !! id = None -> open_watches s <> [] ->
  ∃ s', AddDataClient who s c id = Ok (Ran s') ∧ dataClusterClients s' = <[id := c]> (dataClusterClients s) ∧ open_watches s' <> [].
Proof.
  intros Hid Hw. unfold AddDataClient. rewrite Hid. cbn [open_watches dataClusterClients]. destruct (open_watches s) as [|w ws] eqn:E; [done|].
  eexists. split; [done|]. split; [done|]. cbn [open_watches]. intros Hnil. apply (f_equal length) in Hnil. by rewrite length_alter in Hnil.
Qed.

Lemma add_is_followed live s id c : follows live s -> live !! id = None -> newETCD3StorageHelper [sc_ServiceAddress c] = true ->
  ∃ s', handle s (mkAction id [sc_ServiceAddress c] "ADD") = Ran s' ∧ follows (<[id := c]> live) s'.
Proof.
  intros [Hs Hw] Hid Hc. pose proof (Hs id) as Hn. rewrite Hid in Hn. unfold handle_action. cbn [Action ServerAddresses StorageClusterId String.eqb Ascii.eqb Bool.eqb].
  destruct (String.eqb_spec (sc_ServiceAddress c) system) as [Hsys|_].
  - exists s. split; [done|]. split; [|done]. intros i. destruct (decide (id = i)) as [<-|Hi]; [|by rewrite lookup_insert_ne].
    rewrite lookup_insert_eq. by right.
  - rewrite Hc. destruct (AddDataClient_runs s [sc_ServiceAddress c] id Hn Hw) as (s' & -> & Hs' & Hw'). exists s'. split; [done|]. split; [|done].
    rewrite Hs'. apply served_insert; [done|by left].
Qed.

Lemma update_is_followed live s id old cur : follows live s -> live !! id = Some old -> newETCD3StorageHelper [sc_ServiceAddress cur] = true ->
  ∃ s', handle s (mkAction id [sc_ServiceAddress cur] "UPDATE") = Ran s' ∧ follows (<[id := cur]> live) s'.
Proof.
  intros [Hs Hw] Hid Hc. unfold handle_action. cbn [Action ServerAddresses StorageClusterId String.eqb Ascii.eqb Bool.eqb].
  rewrite Hc. unfold UpdateDataClient. destruct (dataClusterClients s !! id) as [client|] eqn:Hcl.
  - case_bool_decide as Hsame.
    + exists s. split; [done|]. split; [|done]. rewrite <- (insert_id (dataClusterClients s) id client Hcl). apply served_insert; [done|left; by subst].
    + eexists. split; [done|]. split; [|done]. apply served_insert; [done|by left].
  - destruct (AddDataClient_runs s [sc_ServiceAddress cur] id Hcl Hw) as (s' & -> & Hs' & Hw'). exists s'. split; [done|]. split; [|done].
    rewrite Hs'. apply served_insert; [done|by left].
Qed.

Lemma delete_is_followed live s id address : follows live s ->
  ∃ s', handle s (mkAction id address "DELETE") = Ran s' ∧ follows (delete id live) s'.
Proof.
  intros [Hs Hw]. eexists. split; [reflexivity|]. cbn [StorageClusterId]. unfold DeleteDataClient.
  destruct (dataClusterClients s !! id) eqn:Hcl; (split; [|done]); intros i; cbn [dataClusterClients];
    (destruct (decide (id = i)) as [<-|Hi]; [by rewrite !lookup_delete_eq|by rewrite !lookup_delete_ne]).
Qed.

Lemma same_address_is_followed live s id old cur : follows live s -> live !! id = Some old -> sc_ServiceAddress cur = sc_ServiceAddress old -> follows (<[id := cur]> live) s.
Proof.
  intros [Hs Hw] Hid Ha. split; [|done]. intros i. destruct (decide (id = i)) as [<-|Hi]; [|by rewrite lookup_insert_ne].
  specialize (Hs id). rewrite Hid in Hs. rewrite lookup_insert_eq. cbn [served] in *. by rewrite Ha.
Qed.

Lemma follow_app m s ns ns' : follow m s (ns ++ ns') = match follow m s ns with Ran (m, s) => follow m s ns' | Exits => Exits | Blocks => Blocks end.
Proof.
  revert m s. induction ns as [|[late n] ns IH]; intros m s; cbn [app follow_clusters]; [done|].
  destruct (cluster_handler late m n) as [[m' actions]|]; [|done]. destruct (handle_actions _ _ _ s actions); [apply IH|done..].
Qed.

Definition cluster_key (c : StorageCluster) : option Z := match GetClusterIdFromString (sc_StorageClusterId c) with Ok id => Some id | Err _ => None end.

Definition cluster_history := history cluster_key sc_ResourceVersion sc_deleting (fun old cur => sc_StorageClusterId cur = sc_StorageClusterId old).

(** A client can be made for the addresses of a notification. *)
Definition reachable (n : notification StorageCluster) : Prop :=
  match n with
  | NotifyAdd c => newETCD3StorageHelper [sc_ServiceAddress c] = true
  | NotifyUpdate _ cur => newETCD3StorageHelper [sc_ServiceAddress cur] = true
  | NotifyDelete _ => True
  end.

(** What the manager and the storage know of the clusters that are left. *)
Definition known (P : Z -> Prop) (live : gmap Z StorageCluster) (r : Z) (m : StorageClusterManager) (s : DataClients) : Prop :=
  backendClusters m = live ∧ 0 <= sm_rev m <= r ∧ (sm_rev m = 0 ∨ P (sm_rev m)) ∧ follows live s.

Lemma cluster_id c id : cluster_key c = Some id -> GetClusterIdFromString (sc_StorageClusterId c) = Ok id ∧ String.eqb (sc_StorageClusterId c) "" = false.
Proof. unfold cluster_key. destruct (GetClusterIdFromString _) eqn:E; [|done]. intros [= ->]. split; [done|]. apply String.eqb_neq. intros Hnil. by rewrite Hnil in E. Qed.

Lemma add_is_known P live r rev m s c id : one_source P -> known P live r m s -> later sc_ResourceVersion P r rev c -> cluster_key c = Some id -> sc_deleting c = false ->
  live !! id = None -> reachable (NotifyAdd c) -> ∃ m' s', follow m s [(true, NotifyAdd c)] = Ran (m', s') ∧ known P (<[id := c]> live) rev m' s'.
Proof.
  intros HP (Hm & Hr & Hsrc & Hf) (Hv & HPv & Hlt) Hid Hd Hn Hc. apply cluster_id in Hid as [Hid _]. cbn [follow_clusters cluster_handler]. unfold addCluster.
  rewrite Hd, Hv, (later_is_not_older P), Hid, Hm, Hn by (done || lia). unfold updateBackendStorageConfig. cbn [backendClusters]. rewrite lookup_insert_eq. bind_simpl. cbn [handle_actions].
  destruct (add_is_followed live s id c Hf Hn Hc) as (s' & -> & Hs'). eexists _, s'. split; [done|]. split; [done|]. cbn [sm_rev]. split; [lia|]. split; [by right|done].
Qed.

Lemma update_is_known P live r rev m s old cur id : one_source P -> known P live r m s -> later sc_ResourceVersion P r rev cur -> cluster_key cur = Some id ->
  live !! id = Some old -> sc_StorageClusterId cur = sc_StorageClusterId old -> (∃ v, ParseInt (sc_ResourceVersion old) = Some v ∧ P v ∧ 0 < v <= r) -> reachable (NotifyUpdate old cur) ->
  ∃ m' s', follow m s [(true, NotifyUpdate old cur)] = Ran (m', s') ∧ known P (<[id := cur]> live) rev m' s'.
Proof.
  intros HP (Hm & Hr & Hsrc & Hf) (Hv & HPv & Hlt) Hid Ho Hsame (v & Hvo & HPo & Hle) Hc. apply cluster_id in Hid as [Hid Hne]. cbn [follow_clusters cluster_handler]. unfold updateCluster.
  rewrite (versions_differ _ _ _ _ Hv Hvo), Hv, (ParseInt_value_exact _ _ Hvo), (later_is_not_older P) by (done || lia || auto).
  rewrite Hne, <- Hsame, String.eqb_refl, Hid, Hm. cbn [negb andb].
  destruct (String.eqb_spec (sc_ServiceAddress cur) (sc_ServiceAddress old)) as [Ha|_]; cbn [negb].
  - cbn [handle_actions]. eexists _, s. split; [done|]. split; [done|]. cbn [sm_rev]. split; [lia|]. split; [by right|by apply (same_address_is_followed live s id old)].
  - unfold updateBackendStorageConfig. cbn [backendClusters]. rewrite lookup_insert_eq. bind_simpl. cbn [handle_actions].
    destruct (update_is_followed live s id old cur Hf Ho Hc) as (s' & -> & Hs'). eexists _, s'. split; [done|]. split; [done|]. cbn [sm_rev]. split; [lia|]. split; [by right|done].
Qed.

Lemma delete_is_known P live r rev m s old c id : known P live r m s -> later sc_ResourceVersion P r rev c -> cluster_key c = Some id -> live !! id = Some old ->
  ∃ m' s', follow m s [(true, NotifyDelete (Plain c))] = Ran (m', s') ∧ known P (delete id live) rev m' s'.
Proof.
  intros (Hm & Hr & Hsrc & Hf) (Hv & HPv & Hlt) Hid Ho. apply cluster_id in Hid as [Hid _]. cbn [follow_clusters cluster_handler]. unfold deleteCluster.
  cbn [deleted_object]. rewrite Hv, Hid, Hm, Ho. unfold updateBackendStorageConfig. rewrite Hm, Ho. bind_simpl. cbn [handle_actions].
  destruct (delete_is_followed live s id [sc_ServiceAddress old] Hf) as (s' & -> & Hs'). eexists _, s'. split; [done|]. split; [done|]. cbn [sm_rev]. split; [lia|]. split; [by right|done].
Qed.

(** The goroutines that read late keep the storage up to date. *)
Lemma clusters_are_followed P ns live r s : one_source P -> cluster_history P ns live r -> Forall reachable ns -> dataClusterClients s = ∅ -> open_watches s <> [] ->
  ∃ m' s', follow new_cluster_manager s (pair true <$> ns) = Ran (m', s') ∧ known P live r m' s'.
Proof.
  intros HP Hh Hreach Hs Hw. induction Hh as [|ns live r rev a k Hh IH Hl Hk Hd Hn|ns live r rev old a k Hh IH Hl Hk Ho Hsame|ns live r rev old a k Hh IH Hl Hk Ho].
  { exists new_cluster_manager, s. split; [done|]. split; [done|]. split; [cbn; lia|]. split; [by left|]. split; [|done]. intros id. rewrite Hs. by rewrite !lookup_empty. }
  all: apply Forall_app in Hreach as [Hreach [Hc _]%Forall_cons]; destruct (IH Hreach) as (m & s' & E & Hk'); rewrite fmap_app, follow_app, E; cbn [fmap list_fmap].
  - by apply (add_is_known P live r).
  - apply (update_is_known P live r); try done. destruct (history_versions _ _ _ _ _ _ _ _ Hh) as (_ & _ & Hold). by destruct (Hold _ _ Ho).
  - by apply (delete_is_known P live r rev m s' old).
Qed.

(** ** Where the objects of a tenant go *)

(** The storage cluster of a tenant, when both are there; the number 0 is the system. *)
Definition home (tenants : gmap string Tenant) (clusters : gmap Z StorageCluster) (tenant : string) : option StorageCluster :=
  t ← tenants !! tenant; id ← match GetClusterIdFromString (tn_StorageClusterId t) with Ok id => Some id | Err _ => None end;
  if id =? 0 then None else clusters !! id.

Definition goes_home (server : list string) (c : option StorageCluster) : Prop :=
  match c with
  | Some c => server = [sc_ServiceAddress c] ∨ (sc_ServiceAddress c = system ∧ server = system :: others)
  | None => server = system :: others
  end.

(** C17.  Let the API server have been notified of any tenants and of any storage clusters, in
    histories of additions, changes and deletions with rising versions of one source, in which
    an added object is not being deleted, live clusters have different and valid identifiers
    and a change keeps the identifier; let a client be made for every address and let the
    storage have an open watch. If each announcement of a changed address is made after the
    change is recorded, then nothing is fatal and nothing blocks, and the objects of every
    tenant go to the server of the storage cluster that the tenant is assigned to now, at the
    address that the cluster has now; those of a tenant that is unknown or deleted, or whose
    cluster is unknown, deleted or has an identifier that is not valid, go to the system
    cluster. *)
Theorem tenants_reach_their_clusters P Q tns tenants tr cns clusters cr s : one_source P -> one_source Q ->
  tenant_history P tns tenants tr -> cluster_history Q cns clusters cr -> Forall reachable cns -> dataClusterClients s = ∅ -> open_watches s <> [] ->
  ∃ m' s', follow new_cluster_manager s (pair true <$> cns) = Ran (m', s') ∧
    forall tenant, goes_home (server_of (system :: others) (foldl tenant_handler new_tenant_manager tns) s' tenant) (home tenants clusters tenant).
Proof.
  intros HP HQ Ht Hc Hreach Hs Hw. destruct (clusters_are_followed Q cns clusters cr s) as (m' & s' & E & _ & _ & _ & Hf & _); [done..|].
  exists m', s'. split; [done|]. intros tenant. destruct (tenants_are_followed P tns tenants tr HP Ht) as [Hm _].
  unfold server_of, getClientForTenant, home, GetClusterIdFromTenant. rewrite Hm, lookup_fmap. destruct (tenants !! tenant) as [t|]; cbn; [|done].
  destruct (GetClusterIdFromString (tn_StorageClusterId t)) as [id|]; cbn; [|done]. destruct (Z.eqb_spec id 0) as [|Hne]; [done|].
  specialize (Hf id). destruct (clusters !! id) as [c|]; cbn [served goes_home] in *.
  - destruct Hf as [Hf|[Hf Hsys]].
    + rewrite bool_decide_eq_true_2 by (apply elem_of_dom; by rewrite Hf). destruct (Z.eqb_spec id 0); [done|]. rewrite Hf. by left.
    + rewrite bool_decide_eq_false_2 by (rewrite elem_of_dom, Hf; by intros []). by right.
  - by rewrite bool_decide_eq_false_2 by (rewrite elem_of_dom, Hf; by intros []).
Qed.
End Follow.

(** A tenant of a cluster that moves from one server to another. *)
Lemma tenants_reach_their_clusters_witness :
  let tns := [NotifyAdd (mkTenant "gold" false "2" "3")] in
  let cns := [NotifyAdd (mkCluster "two" false "2" "10.0.0.2" "5"); NotifyUpdate (mkCluster "two" false "2" "10.0.0.2" "5") (mkCluster "two" false "2" "10.0.0.7" "6")] in
  ∃ m' s', follow_clusters ["10.0.0.1"] (fun _ => true) 0 new_cluster_manager (open_watch (mkClients ∅ ∅ ∅ [] [])) (pair true <$> cns) = Ran (m', s') ∧
    server_of ["10.0.0.1"] (foldl tenant_handler new_tenant_manager tns) s' "gold" = ["10.0.0.7"] ∧ server_of ["10.0.0.1"] (foldl tenant_handler new_tenant_manager tns) s' "silver" = ["10.0.0.1"].
Proof.
  intros tns cns.
  destruct (tenants_reach_their_clusters "10.0.0.1" [] (fun _ => true) 0 (fun r => r < 100) (fun r => r < 100) tns (<["gold" := mkTenant "gold" false "2" "3"]> ∅) 3
    cns (<[2 := mkCluster "two" false "2" "10.0.0.7" "6"]> (<[2 := mkCluster "two" false "2" "10.0.0.2" "5"]> ∅)) 6 (open_watch (mkClients ∅ ∅ ∅ [] []))) as (m' & s' & E & Hhome).
  - left. intros r Hr. cbn in Hr. apply (Z.lt_le_trans _ 100); [done|by vm_compute].
  - left. intros r Hr. cbn in Hr. apply (Z.lt_le_trans _ 100); [done|by vm_compute].
  - apply (history_add _ _ _ _ _ [] ∅ 0 3 (mkTenant "gold" false "2" "3") "gold"); [apply history_nil|split; [done|lia]|done..].
  - apply (history_update _ _ _ _ _ [_] _ 5 6 _ _ 2); [apply (history_add _ _ _ _ _ [] ∅ 0 5 (mkCluster "two" false "2" "10.0.0.2" "5") 2); [apply history_nil|split; [done|lia]|done..]|split; [done|lia]|done..].
  - by repeat constructor.
  - done.
  - done.
  - exists m', s'. split; [exact E|]. split; [|exact (Hhome "silver")]. by destruct (Hhome "gold") as [H|[H _]].
Defined.

(** ** Versions that do not rise *)

(** A tenant with a version before that of the manager is left out when it is added. *)
Theorem older_tenant_is_left_out m t rev : ParseInt (tn_ResourceVersion t) = Some rev -> revision_newer (tm_rev m) rev = true -> addTenant m t = m.
Proof. intros Hv Hr. unfold addTenant. rewrite Hv, Hr. by destruct (tn_deleting t). Qed.

(** The list of an informer is in the order of the names: of two tenants, the one that was
    changed later and comes first hides the other, whose objects go to the system cluster. *)
Theorem listed_tenant_is_lost :
  let m := foldl tenant_handler new_tenant_manager [NotifyAdd (mkTenant "gold" false "2" "7"); NotifyAdd (mkTenant "silver" false "2" "5")] in
  GetClusterIdFromTenant m "gold" = 2 ∧ GetClusterIdFromTenant m "silver" = 0.
Proof. by vm_compute. Qed.

(** A tenant that a new list no longer has is deleted with its last known version; after any
    later tenant it stays. *)
Theorem tombstone_is_left_out m t k rev : ParseInt (tn_ResourceVersion t) = Some rev -> revision_newer (tm_rev m) rev = true ->
  deleteTenant m (FinalStateUnknown k (Some (Plain t))) = m.
Proof. intros Hv Hr. unfold deleteTenant. cbn [deleted_object]. by rewrite Hv, Hr. Qed.

(** The same versions do not keep a cluster: it is deleted, and the version of the manager goes
    back. *)
Theorem old_deletion_is_made s c id old rev : ParseInt (sc_ResourceVersion c) = Some rev -> GetClusterIdFromString (sc_StorageClusterId c) = Ok id -> backendClusters s !! id = Some old ->
  ∃ actions, deleteCluster s (Plain c) = Some (mkClusterManager (delete id (backendClusters s)) rev, actions).
Proof. intros Hv Hid Ho. unfold deleteCluster, updateBackendStorageConfig. cbn [deleted_object]. rewrite Hv, Hid, Ho. bind_simpl. by eexists. Qed.

(** A change of cluster that is logged as not supported is made. *)
Theorem unsupported_move_is_made m old cur rev : String.eqb (tn_ResourceVersion cur) (tn_ResourceVersion old) = false -> ParseInt (tn_ResourceVersion cur) = Some rev ->
  revision_newer (ParseInt_value (tn_ResourceVersion old)) rev = false -> tn_Name cur = tn_Name old ->
  tenantToClusterMap (updateTenant m old cur) !! tn_Name cur = Some (mkTenantStorage (tn_StorageClusterId cur) rev).
Proof. intros Hne Hv Hr Hn. unfold updateTenant. rewrite Hne, Hv, Hr. apply lookup_insert_eq. Qed.

(** ** Announcements that are early, and watches *)

(** The announcement that is made before the new address is recorded carries the old one, and
    the storage keeps its client. *)
Theorem early_announcement_is_lost system helper who m s old cur id rev : String.eqb (sc_ResourceVersion cur) (sc_ResourceVersion old) = false -> ParseInt (sc_ResourceVersion cur) = Some rev ->
  revision_newer (ParseInt_value (sc_ResourceVersion old)) rev = false -> sc_StorageClusterId cur = sc_StorageClusterId old -> GetClusterIdFromString (sc_StorageClusterId cur) = Ok id ->
  sc_ServiceAddress cur <> sc_ServiceAddress old -> backendClusters m !! id = Some old -> helper [sc_ServiceAddress old] = true -> dataClusterClients s !! id = Some [sc_ServiceAddress old] ->
  follow_clusters system helper who m s [(false, NotifyUpdate old cur)] = Ran (mkClusterManager (<[id := cur]> (backendClusters m)) rev, s).
Proof.
  intros Hne Hv Hr Hsame Hid Ha Hm Hc Hs. cbn [follow_clusters cluster_handler]. unfold updateCluster. rewrite Hne, Hv, Hr, <- Hsame, String.eqb_refl, Hid.
  assert (String.eqb (sc_StorageClusterId cur) "" = false) as -> by (apply String.eqb_neq; intros Hnil; by rewrite Hnil in Hid).
  apply String.eqb_neq in Ha as ->. cbn [negb andb]. unfold updateBackendStorageConfig. rewrite Hm. bind_simpl. cbn [handle_actions].
  unfold handle_action. cbn [Action ServerAddresses StorageClusterId String.eqb Ascii.eqb Bool.eqb]. rewrite Hc. unfold UpdateDataClient. rewrite Hs. by rewrite bool_decide_eq_true_2.
Qed.

(** When a cluster moves, its old client is closed, and the watches go on with that client. *)
Theorem watches_keep_closed_client who s id old new s' : dataClusterClients s !! id = Some old -> dataClusterDestroyFunc s !! id = Some old -> old <> new ->
  UpdateDataClient who s new id = Ok (Ran s') -> old ∈ closed_clients s' ∧ open_watches s' = open_watches s ∧ dataClusterWatchers s' = dataClusterWatchers s.
Proof.
  intros Hc Hd Hne. unfold UpdateDataClient, close_client. rewrite Hc, Hd, bool_decide_eq_false_2 by done. intros [= <-]. cbn. split; [|done]. set_solver.
Qed.

(** Of the open watches of a storage one learns of a new cluster, the others do not. *)
Theorem one_watch_learns_of_cluster who s c id s' : AddDataClient who s c id = Ok (Ran s') ->
  ∃ i w, open_watches s !! i = Some w ∧ open_watches s' = <[i := w ++ [(id, c)]]> (open_watches s).
Proof.
  unfold AddDataClient. destruct (dataClusterClients s !! id); [done|]. cbn [open_watches]. intros [= E]. destruct (open_watches s) as [|w0 ws] eqn:Hw; [done|]. rewrite <- Hw in *. injection E as <-.
  set (i := (who mod length (open_watches s))%nat). assert (i < length (open_watches s))%nat as Hi by (apply Nat.mod_upper_bound; by rewrite Hw).
  destruct (lookup_lt_is_Some_2 _ _ Hi) as [w Hlw]. exists i, w. split; [done|]. cbn [open_watches]. apply list_eq. intros j.
  destruct (decide (j = i)) as [->|Hj].
  - rewrite list_lookup_alter_eq, list_lookup_insert_eq, Hlw by done. cbn. unfold take_cluster. cbn [dataClusterWatchers]. by rewrite lookup_insert_eq.
  - by rewrite list_lookup_alter_ne, list_lookup_insert_ne.
Qed.

(** Without an open watch the storage waits, and holds its lock. *)
Theorem cluster_waits_for_a_watch who s c id : dataClusterClients s !! id = None -> open_watches s = [] -> AddDataClient who s c id = Ok Blocks.
Proof. intros Hid Hw. unfold AddDataClient. by rewrite Hid, Hw. Qed.
