(* ===== verification/StringSets.v ===== *)
(** * Sets of strings

    Models [globalscheduler/pkg/scheduler/utils/sets/string.go], sets as maps with empty
    values.  A set here is a finite set with the loops of the code over its elements; the
    order in which the loops visit them is a parameter.  The theorem shows that the loops
    compute the operations on sets. *)
From S2P Require Import Prelude.

Local Open Scope Z_scope.

Section Sets.
(** The order in which [range] visits the keys. *)
Context (range : gset string -> list string).

(** (sets/string.go:47-52) *)
Definition Insert (s : gset string) (items : list string) : gset string := foldl (fun s item => {[item]} ∪ s) s items.

(** (sets/string.go:28-32) *)
Definition NewString (items : list string) : gset string := Insert ∅ items.

(** (sets/string.go:55-60 Delete) *)
Definition set_Delete (s : gset string) (items : list string) : gset string := foldl (fun s item => s ∖ {[item]}) s items.

(** (sets/string.go:63-66) *)
Definition Has (s : gset string) (item : string) : bool := bool_decide (item ∈ s).

(** (sets/string.go:69-76) *)
Fixpoint HasAll (s : gset string) (items : list string) : bool :=
  match items with [] => true | item :: items => if negb (Has s item) then false else HasAll s items end.

(** (sets/string.go:79-86) *)
Fixpoint HasAny (s : gset string) (items : list string) : bool :=
  match items with [] => false | item :: items => if Has s item then true else HasAny s items end.

(** (sets/string.go:89-97) *)
Definition Difference (s s2 : gset string) : gset string :=
  foldl (fun result key => if negb (Has s2 key) then Insert result [key] else result) (NewString []) (range s).

(** (sets/string.go:100-109 Union) *)
Definition Union_ (s1 s2 : gset string) : gset string :=
  foldl (fun result key => Insert result [key]) (foldl (fun result key => Insert result [key]) (NewString []) (range s1)) (range s2).

(** (sets/string.go:183-185 Len) *)
Definition set_Len (s : gset string) : nat := size s.

(** (sets/string.go:112-128 Intersection) *)
Definition Intersection_ (s1 s2 : gset string) : gset string :=
  let '(walk, other) := if Nat.ltb (set_Len s1) (set_Len s2) then (s1, s2) else (s2, s1) in
  foldl (fun result key => if Has other key then Insert result [key] else result) (NewString []) (range walk).

(** (sets/string.go:131-138) *)
Definition IsSuperset (s1 s2 : gset string) : bool := forallb (Has s1) (range s2).

(** (sets/string.go:143-145 Equal) *)
Definition set_Equal (s1 s2 : gset string) : bool := Nat.eqb (size s1) (size s2) && IsSuperset s1 s2.

(** (sets/string.go:154-161 List) *)
Definition set_List (s : gset string) : list string := merge_sort String.le (range s).

(** (sets/string.go:164-170) *)
Definition UnsortedList (s : gset string) : list string := range s.

(** (sets/string.go:173-180) *)
Definition PopAny (s : gset string) : gset string * option string :=
  match range s with [] => (s, None) | key :: _ => (set_Delete s [key], Some key) end.

(** ** The loops compute the operations *)

Hypothesis Hrange : forall s, range s ≡ₚ elements s.

Lemma range_elem s x : x ∈ range s <-> x ∈ s.
Proof. by rewrite Hrange, elem_of_elements. Qed.

(** Inserting the elements that pass a test. *)
Lemma fold_insert (test : string -> bool) l : forall acc x,
  x ∈ foldl (fun result key => if test key then Insert result [key] else result) acc l <-> x ∈ acc ∨ (x ∈ l ∧ test x = true).
Proof.
  induction l as [|y l IH]; intros acc x; cbn [foldl]; [set_solver|]. rewrite IH, elem_of_cons.
  destruct (test y) eqn:Hy; cbn [Insert foldl]; [rewrite elem_of_union, elem_of_singleton|].
  - split; [intros [[->|?]|[? ?]]|intros [?|[[->|?] ?]]]; auto.
  - split; [intros [?|[? ?]]|intros [?|[[->|?] ?]]]; auto. congruence.
Qed.

Lemma has_all s items : HasAll s items = true <-> forall x, x ∈ items -> x ∈ s.
Proof.
  induction items as [|y items IH]; cbn [HasAll]; [split; [by intros _ x ?%elem_of_nil|done]|].
  unfold Has. case_bool_decide as Hy; cbn [negb].
  - rewrite IH. split; [intros H x [->|?]%elem_of_cons; auto|intros H x ?; apply H; by right].
  - split; [done|]. intros H. destruct Hy. apply H. by left.
Qed.

Lemma has_any s items : HasAny s items = true <-> ∃ x, x ∈ items ∧ x ∈ s.
Proof.
  induction items as [|y items IH]; cbn [HasAny]; [split; [done|by intros (x & ?%elem_of_nil & _)]|].
  unfold Has. case_bool_decide as Hy.
  - split; [|done]. intros _. exists y. split; [by left|done].
  - rewrite IH. split; [intros (x & ? & ?); exists x; split; [by right|done]|intros (x & [->|?]%elem_of_cons & ?); [done|by exists x]].
Qed.

Lemma insert_all items : forall s, Insert s items = s ∪ list_to_set items.
Proof.
  clear Hrange range. induction items as [|y items IH]; intros s; cbn [Insert foldl list_to_set]; [set_solver|]. fold (Insert ({[y]} ∪ s) items). rewrite IH. set_solver.
Qed.

Lemma delete_all items : forall s, set_Delete s items = s ∖ list_to_set items.
Proof.
  clear Hrange range. induction items as [|y items IH]; intros s; cbn [set_Delete foldl list_to_set]; [set_solver|]. fold (set_Delete (s ∖ {[y]}) items). rewrite IH. set_solver.
Qed.

(** The loops over the keys of a set compute the set operations, in whatever order
    the keys are visited: membership, difference, union, intersection, inclusion and
    equality are those of sets; [List] returns every element once in ascending order; and
    [PopAny] takes one element out and fails only on the empty set. *)
Theorem string_sets_are_sets s1 s2 items :
  (HasAll s1 items = true <-> forall x, x ∈ items -> x ∈ s1) ∧ (HasAny s1 items = true <-> ∃ x, x ∈ items ∧ x ∈ s1) ∧
  Insert s1 items = s1 ∪ list_to_set items ∧ set_Delete s1 items = s1 ∖ list_to_set items ∧
  Difference s1 s2 = s1 ∖ s2 ∧ Union_ s1 s2 = s1 ∪ s2 ∧ Intersection_ s1 s2 = s1 ∩ s2 ∧
  (IsSuperset s1 s2 = true <-> s2 ⊆ s1) ∧ (set_Equal s1 s2 = true <-> s1 = s2) ∧
  (Sorted String.le (set_List s1) ∧ set_List s1 ≡ₚ elements s1) ∧
  match PopAny s1 with (s', Some x) => x ∈ s1 ∧ s' = s1 ∖ {[x]} | (s', None) => s1 = ∅ ∧ s' = ∅ end.
Proof.
  assert (IsSuperset s1 s2 = true <-> s2 ⊆ s1) as Hsup.
  { unfold IsSuperset. rewrite forallb_forall. unfold Has. split.
    - intros H x Hx. apply range_elem, list_elem_of_In in Hx. exact (bool_decide_eq_true_1 _ (H x Hx)).
    - intros H x Hx%list_elem_of_In%range_elem. by apply bool_decide_eq_true_2, H. }
  split_and!; [apply has_all|apply has_any|apply insert_all|apply delete_all| | | |done| | | |].
  - apply set_eq. intros x. unfold Difference. rewrite (fold_insert (fun key => negb (Has s2 key))), range_elem. unfold NewString, Has. cbn [Insert foldl].
    rewrite elem_of_difference, negb_true_iff, bool_decide_eq_false. set_solver.
  - apply set_eq. intros x. unfold Union_. rewrite !(fold_insert (fun _ => true)), !range_elem. unfold NewString. cbn [Insert foldl]. set_solver.
  - apply set_eq. intros x. unfold Intersection_. destruct (Nat.ltb _ _); rewrite (fold_insert (Has _)), range_elem; unfold NewString, Has; cbn [Insert foldl];
      rewrite bool_decide_eq_true; set_solver.
  - unfold set_Equal. rewrite andb_true_iff, Nat.eqb_eq, Hsup. split; [|by intros ->]. intros [Hsize Hsub].
    apply leibniz_equiv. symmetry. apply set_subseteq_size_equiv; [done|lia].
  - apply Sorted_merge_sort, _.
  - unfold set_List. by rewrite merge_sort_Permutation.
  - unfold PopAny. pose proof (Hrange s1) as Hp. destruct (range s1) as [|x l] eqn:Hr.
    + symmetry in Hp. apply Permutation_nil_r, elements_empty_inv in Hp. apply leibniz_equiv in Hp. done.
    + split; [apply range_elem; rewrite Hr; by left|done].
Qed.

End Sets.

Lemma string_sets_are_sets_witness : Difference elements {["a"; "b"]} {["b"; "c"]} = ({["a"]} : gset string)%string ∧
  Intersection_ elements {["a"; "b"]} {["b"; "c"]} = ({["b"]} : gset string)%string.
Proof.
  destruct (string_sets_are_sets elements (fun s => reflexivity _) {["a"; "b"]} {["b"; "c"]} [])%string as (_ & _ & _ & _ & Hd & _ & Hi & _).
  rewrite Hd, Hi. split; vm_compute; reflexivity.
Defined.
