(* ===== verification/SiteCacheInfo.v ===== *)
(** * The cached information of a site

    Models [globalscheduler/pkg/scheduler/sitecacheinfo/sitecache_info.go]: the
    aggregated resources of a site, the number of instances of each flavor they
    allow, and the generation that tells the snapshot what has changed.  The maps
    of pointers to resources are maps of values: the modelled operations keep one
    pointer per key.  Nil dereferences are [None].  The deduction made by the binder
    ([DeductSiteResInfo]) is in [Binder]. *)
From S2P Require Import Prelude Types Strconv.

Local Open Scope Z_scope.

(** (types/types.go:335-347) *)
Record AllocationRatio := mkAllocationRatio {
  CoreAllocationRatio : string; MemAllocationRatio : string; AR_AvailabilityZone : string; AR_Flavor : string }.

(** (types/types.go:349-357) *)
Record NetMetricData := mkNetMetricData { NM_City : string; Delay : float64; Lossrate : float64 }.

(** (sitecache_info.go:56-97) *)
Record SiteCacheInfo := mkSiteCacheInfo {
  SCI_Site : option Site; RequestedResources : gmap string CPUAndMemory; TotalResources : gmap string CPUAndMemory;
  RequestedStorage : gmap string float64; TotalStorage : gmap string float64; RequestedFlavor : gmap string Z;
  AllocatableFlavor : gmap string Z; AllocatableSpotFlavor : gmap string SpotResource; stacks : list Stack;
  eipPool : option EipPool; Qos : gmap string float64; generation : Z }.

(** (sitecache_info.go:532-544) *)
Definition NewSiteCacheInfo : SiteCacheInfo := mkSiteCacheInfo None ∅ ∅ ∅ ∅ ∅ ∅ ∅ [] None ∅ 0.

(** The value that [nextGeneration] returns after [g] (sitecache_info.go:51-53). *)
Definition nextGeneration (g : Z) : Z := wrap64 (g + 1).

(** (sitecache_info.go:100-105) *)
Definition GetGeneration (n : SiteCacheInfo) : Z := generation n.
(** (sitecache_info.go:522-527) *)
Definition GetSite (n : SiteCacheInfo) : option Site := SCI_Site n.
(** (sitecache_info.go:514-519) *)
Definition Stacks (n : SiteCacheInfo) : list Stack := stacks n.

(** The copy has a copy of the site without its hosts, no stacks, no address pool and
    generation 0; an information without a site cannot be copied (sitecache_info.go:120-182). *)
Definition Clone (n : SiteCacheInfo) : option SiteCacheInfo :=
  site ← SCI_Site n;
  Some (mkSiteCacheInfo (Some (Site_Clone site)) (RequestedResources n) (TotalResources n) (RequestedStorage n) (TotalStorage n)
    (RequestedFlavor n) (AllocatableFlavor n) (AllocatableSpotFlavor n) [] None (Qos n) 0).

Definition set_generation (n : SiteCacheInfo) (g : Z) : SiteCacheInfo :=
  mkSiteCacheInfo (SCI_Site n) (RequestedResources n) (TotalResources n) (RequestedStorage n) (TotalStorage n)
    (RequestedFlavor n) (AllocatableFlavor n) (AllocatableSpotFlavor n) (stacks n) (eipPool n) (Qos n) g.
Definition set_requested (n : SiteCacheInfo) (m : gmap string CPUAndMemory) : SiteCacheInfo :=
  mkSiteCacheInfo (SCI_Site n) m (TotalResources n) (RequestedStorage n) (TotalStorage n)
    (RequestedFlavor n) (AllocatableFlavor n) (AllocatableSpotFlavor n) (stacks n) (eipPool n) (Qos n) (generation n).
Definition set_storage (n : SiteCacheInfo) (requested total : gmap string float64) : SiteCacheInfo :=
  mkSiteCacheInfo (SCI_Site n) (RequestedResources n) (TotalResources n) requested total
    (RequestedFlavor n) (AllocatableFlavor n) (AllocatableSpotFlavor n) (stacks n) (eipPool n) (Qos n) (generation n).
Definition set_allocatable (n : SiteCacheInfo) (m : gmap string Z) : SiteCacheInfo :=
  mkSiteCacheInfo (SCI_Site n) (RequestedResources n) (TotalResources n) (RequestedStorage n) (TotalStorage n)
    (RequestedFlavor n) m (AllocatableSpotFlavor n) (stacks n) (eipPool n) (Qos n) (generation n).

(** [g] is the new generation, here and below (sitecache_info.go:185-188). *)
Definition AddStack (n : SiteCacheInfo) (stack : Stack) (g : Z) : SiteCacheInfo :=
  mkSiteCacheInfo (SCI_Site n) (RequestedResources n) (TotalResources n) (RequestedStorage n) (TotalStorage n)
    (RequestedFlavor n) (AllocatableFlavor n) (AllocatableSpotFlavor n) (stacks n ++ [stack]) (eipPool n) (Qos n) g.

(** Nothing is removed (sitecache_info.go:191-193). *)
Definition RemoveStack (n : SiteCacheInfo) (stack : Stack) : SiteCacheInfo := n.

(** (sitecache_info.go:195-209) *)
Definition getCondOperationAz (condAzStr : string) : gmap string string :=
  foldl (fun azMaps asStr => match find_submatch asStr with Some (az, flag) => <[az := flag]> azMaps | None => azMaps end)
    ∅ (strings_Split condAzStr ",").

(** Whether a flavor is sold on a host of the site (sitecache_info.go:234-258 getSupportFlavorsBySite). *)
Definition sold_on (site : Site) (regionFlv : RegionFlavor) (host : Host) : bool :=
  let az := RA_AvailabilityZone (Site_RegionAzMap site) in
  let specs := Flavor_OsExtraSpecs (RF_Flavor regionFlv) in
  if negb (String.eqb (RA_Region (Site_RegionAzMap site)) (RF_Region regionFlv)) then false
  else if IsContain (strings_Split (Host_ResourceType host) FlavorDelimiter) (OS_ResourceType specs) then
    match getCondOperationAz (CondOperationAz specs) !! az with
    | Some flag => negb (String.eqb flag "sellout") && negb (String.eqb flag "abandon")
    | None => negb (String.eqb (CondOperationStatus specs) "abandon")
    end
  else false.

(** (sitecache_info.go:214-226 getSupportFlavorsBySite) *)
Definition addFlavrFunc (flavorSlice : list TypedFlavor) (flv : TypedFlavor) : list TypedFlavor :=
  if existsb (fun one => String.eqb (Flavor_ID one) (Flavor_ID flv)) flavorSlice then flavorSlice else flavorSlice ++ [flv].

(** [flavors] is the list the flavor informer's store returns; with no flavor the
    site is not read (sitecache_info.go:211-264). *)
Definition getSupportFlavorsBySite (flavors : list RegionFlavor) (n : SiteCacheInfo) : option (list TypedFlavor) :=
  match flavors with
  | [] => Some []
  | _ =>
      site ← GetSite n;
      Some (foldl (fun acc fla =>
        foldl (fun acc host => if sold_on site fla host then addFlavrFunc acc (RF_Flavor fla) else acc) acc (Hosts site)) [] flavors)
  end.

Definition cpu_add (a b : CPUAndMemory) : CPUAndMemory :=
  mkCPUAndMemory (wrap64 (VCPU a + VCPU b)) (wrap64 (Memory a + Memory b)).

(** The sum over the entries whose resource types contain the given one; the order of
    the map does not matter (sitecache_info.go:266-277 getTotalResourceByResType). *)
Definition resource_by_type (m : gmap string CPUAndMemory) (resType : string) : CPUAndMemory :=
  map_fold (fun tempResType resInfo ret =>
    if IsContain (strings_Split tempResType FlavorDelimiter) resType then cpu_add ret resInfo else ret) (mkCPUAndMemory 0 0) m.
(** (sitecache_info.go:266-277) *)
Definition getTotalResourceByResType (n : SiteCacheInfo) : string -> CPUAndMemory := resource_by_type (TotalResources n).
(** (sitecache_info.go:279-290) *)
Definition getRequestResourceByResType (n : SiteCacheInfo) : string -> CPUAndMemory := resource_by_type (RequestedResources n).

(** (sitecache_info.go:292-301) *)
Definition updateRequestResourceByResType (n : SiteCacheInfo) (resType : string) (res : CPUAndMemory) : SiteCacheInfo :=
  set_requested n (<[resType := res]>
    (filter (fun kv => IsContain (strings_Split kv.1 FlavorDelimiter) resType = false) (RequestedResources n))).

(** The instances of a flavor that the free resources allow; [None] when the flavor is
    passed over (sitecache_info.go:308-328 updateFlavor). *)
Definition flavor_count (n : SiteCacheInfo) (flv : TypedFlavor) : option Z :=
  vCPUInt ← ParseInt (Vcpus flv);
  if vCPUInt <=? 0 then None
  else if Ram flv <=? 0 then None
  else
    let totalRes := getTotalResourceByResType n (OS_ResourceType (Flavor_OsExtraSpecs flv)) in
    let requestRes := getRequestResourceByResType n (OS_ResourceType (Flavor_OsExtraSpecs flv)) in
    if (VCPU totalRes <=? 0) || (Memory totalRes <=? 0) then None
    else
      let count := Z.quot (wrap64 (VCPU totalRes - VCPU requestRes)) vCPUInt in
      let memCount := Z.quot (wrap64 (Memory totalRes - Memory requestRes)) (Ram flv) in
      Some (if memCount <? count then memCount else count).

(** (sitecache_info.go:329-334 updateFlavor) *)
Definition count_flavor (n : SiteCacheInfo) (m : gmap string Z) (flv : TypedFlavor) : gmap string Z :=
  match flavor_count n flv with
  | Some count => <[Flavor_ID flv := wrap64 (default 0 (m !! Flavor_ID flv) + count)]> m
  | None => m
  end.

(** (sitecache_info.go:303-336) *)
Definition updateFlavor (flavors : list RegionFlavor) (n : SiteCacheInfo) : option SiteCacheInfo :=
  supportFlavors ← getSupportFlavorsBySite flavors n;
  Some (set_allocatable n (foldl (count_flavor n) ∅ supportFlavors)).

(** One host: its resources are added to those of its type
    (sitecache_info.go:348-370 SetSite). *)
Definition add_host (acc : gmap string CPUAndMemory * gmap string CPUAndMemory) (no : Host) :
    gmap string CPUAndMemory * gmap string CPUAndMemory :=
  let '(requested, total) := acc in
  let rt := Host_ResourceType no in
  let allocationRatio :=
    if String.eqb (CPUAllocationRatio no) "" then float_of_Z 1 else (ParseFloat (CPUAllocationRatio no) 32).1 in
  let zero := mkCPUAndMemory 0 0 in
  (<[rt := cpu_add (default zero (requested !! rt)) (mkCPUAndMemory (UsedVCPUs no) (UsedMem no))]> requested,
   <[rt := cpu_add (default zero (total !! rt))
       (mkCPUAndMemory (int64_of_float (fmul (float_of_Z (TotalVCPUs no)) allocationRatio)) (TotalMem no))]> total).

(** (sitecache_info.go:339-375) *)
Definition SetSite (flavors : list RegionFlavor) (n : SiteCacheInfo) (site : Site) (g : Z) : option SiteCacheInfo :=
  let '(requested, total) := foldl add_host (∅, ∅) (Hosts site) in
  let n := mkSiteCacheInfo (Some site) requested total (RequestedStorage n) (TotalStorage n) ∅ ∅ (SpotResources site)
    (stacks n) (eipPool n) (Qos n) (generation n) in
  n ← updateFlavor flavors n;
  Some (set_generation n g).

(** (sitecache_info.go:378-383) *)
Definition UpdateSiteWithEipPool (n : SiteCacheInfo) (pool : EipPool) (g : Z) : SiteCacheInfo :=
  mkSiteCacheInfo (SCI_Site n) (RequestedResources n) (TotalResources n) (RequestedStorage n) (TotalStorage n)
    (RequestedFlavor n) (AllocatableFlavor n) (AllocatableSpotFlavor n) (stacks n) (Some pool) (Qos n) g.

Definition fltb (a b : float64) : bool := SFltb a b.

(** One pool of the site's zone (sitecache_info.go:390-403 UpdateSiteWithVolumePool). *)
Definition add_pool (az : string) (acc : gmap string float64 * gmap string float64) (storage : VolumePoolInfo) :
    gmap string float64 * gmap string float64 :=
  let '(allocatable, requested) := acc in
  if String.eqb az (VP_AvailabilityZone storage) then
    let voType := VP_VolumeType storage in
    let totalDisks :=
      if fltb fzero (MaxOverSubscriptionRatio storage)
      then fmul (TotalCapacityGb storage) (MaxOverSubscriptionRatio storage) else TotalCapacityGb storage in
    (<[voType := fadd (default fzero (allocatable !! voType)) totalDisks]> allocatable,
     <[voType := fadd (default fzero (requested !! voType)) (ProvisionedCapacityGb storage)]> requested)
  else acc.

(** The site is read for each pool (sitecache_info.go:386-410). *)
Definition UpdateSiteWithVolumePool (n : SiteCacheInfo) (volumePool : RegionVolumePool) (g : Z) : option SiteCacheInfo :=
  '(allocatable, requested) ← match StoragePools volumePool with
    | [] => Some (∅, ∅)
    | pools => site ← GetSite n; Some (foldl (add_pool (RA_AvailabilityZone (Site_RegionAzMap site))) (∅, ∅) pools)
    end;
  Some (set_generation (set_storage n requested allocatable) g).

(** (sitecache_info.go:414-425 UpdateSiteWithResInfo) *)
Definition add_requested (requested : gmap string CPUAndMemory) (resType : string) (res : CPUAndMemory) : gmap string CPUAndMemory :=
  map_imap (fun reqType reqRes =>
    Some (if IsContain (strings_Split reqType FlavorDelimiter) resType then cpu_add reqRes res else reqRes)) requested.

(** Both loops add to independent entries, so that the orders of the maps do not matter
    (sitecache_info.go:413-439). *)
Definition UpdateSiteWithResInfo (flavors : list RegionFlavor) (n : SiteCacheInfo) (resInfo : AllResInfo) (g : Z) : option SiteCacheInfo :=
  let requested := map_fold (fun resType res m => add_requested m resType res) (RequestedResources n) (CpuAndMem resInfo) in
  let storage := map_fold (fun volType used m => <[volType := fadd (default fzero (RequestedStorage n !! volType)) used]> m)
    (RequestedStorage n) (AllRes_Storage resInfo) in
  n ← updateFlavor flavors (set_storage (set_requested n requested) storage (TotalStorage n));
  Some (set_generation n g).

(** The generation stays as it is; [qosWeight] is the configured weight of the loss rate
    (sitecache_info.go:442-452). *)
Definition UpdateQos (qosWeight : float64) (n : SiteCacheInfo) (metrics : list NetMetricData) : SiteCacheInfo :=
  let qosMap := foldl (fun m metric => <[NM_City metric := fadd (Delay metric) (fmul qosWeight (Lossrate metric))]> m) ∅ metrics in
  mkSiteCacheInfo (SCI_Site n) (RequestedResources n) (TotalResources n) (RequestedStorage n) (TotalStorage n)
    (RequestedFlavor n) (AllocatableFlavor n) (AllocatableSpotFlavor n) (stacks n) (eipPool n) qosMap (generation n).

(** The store of the flavor informer by key, and its listing
    (informers/factory.go:164-183). *)
Definition GetFlavor (store : gmap string RegionFlavor) (flavors : list RegionFlavor) (flavorID region : string) : option TypedFlavor :=
  if negb (String.eqb region "") then RF_Flavor <$> store !! (region +:+ "--" +:+ flavorID)
  else RF_Flavor <$> head (filter (fun f => Flavor_ID (RF_Flavor f) = flavorID) flavors).

(** The used share of one resource type; invalid entries are passed over
    (sitecache_info.go:465-489 UpdateSiteWithRatio). *)
Definition apply_ratio (n : SiteCacheInfo) (resType : string) (value : AllocationRatio) : SiteCacheInfo :=
  let totalRes := getTotalResourceByResType n resType in
  if (VCPU totalRes <=? 0) || (Memory totalRes <=? 0) then n
  else
    let '(cpuRatio, err) := ParseFloat (CoreAllocationRatio value) 64 in
    if err then n
    else
      let '(memRatio, err) := ParseFloat (MemAllocationRatio value) 64 in
      if err then n
      else updateRequestResourceByResType n resType
             (mkCPUAndMemory (int64_of_float (fmul (float_of_Z (VCPU totalRes)) cpuRatio))
                (int64_of_float (fmul (float_of_Z (Memory totalRes)) memRatio))).

(** [range] is the order in which the collected ratios are visited
    (sitecache_info.go:455-495). *)
Definition UpdateSiteWithRatio (store : gmap string RegionFlavor) (flavors : list RegionFlavor)
    (range : gmap string AllocationRatio -> list (string * AllocationRatio)) (n : SiteCacheInfo) (ratios : list AllocationRatio) (g : Z) :
    option SiteCacheInfo :=
  resTypeMapRatio ← match ratios with
    | [] => Some ∅
    | _ =>
        site ← GetSite n;
        Some (foldl (fun m resAllo =>
          match GetFlavor store flavors (AR_Flavor resAllo) (RA_Region (Site_RegionAzMap site)) with
          | Some flavorInfo => <[OS_ResourceType (Flavor_OsExtraSpecs flavorInfo) := resAllo]> m
          | None => m
          end) ∅ ratios)
    end;
  n ← updateFlavor flavors (foldl (fun n kv => apply_ratio n kv.1 kv.2) n (range resTypeMapRatio));
  Some (set_generation n g).

(** (sitecache_info.go:498-503) *)
Definition UpdateSpotResources (n : SiteCacheInfo) (spotRes : gmap string SpotResource) (g : Z) : SiteCacheInfo :=
  mkSiteCacheInfo (SCI_Site n) (RequestedResources n) (TotalResources n) (RequestedStorage n) (TotalStorage n)
    (RequestedFlavor n) (AllocatableFlavor n) spotRes (stacks n) (eipPool n) (Qos n) g.

(** (sitecache_info.go:547-553) *)
Definition GetStackKey (stack : Stack) : result string :=
  if String.eqb (UID stack) "" then Err "Cannot get cache key for stack with empty UID" else Ok (UID stack).

(** ** Flavors *)

Lemma addFlavr_ids acc flv : NoDup (Flavor_ID <$> acc) -> NoDup (Flavor_ID <$> addFlavrFunc acc flv).
Proof.
  intros Hnd. unfold addFlavrFunc. destruct (existsb _ acc) eqn:He; [done|]. rewrite fmap_app. apply NoDup_app.
  split_and!; [done| |apply NoDup_singleton]. intros id (one & -> & Hin)%list_elem_of_fmap Hid%list_elem_of_singleton.
  assert (existsb (fun one => String.eqb (Flavor_ID one) (Flavor_ID flv)) acc = true) as He'; [|congruence].
  apply existsb_exists. exists one. split; [by apply list_elem_of_In|]. by apply String.eqb_eq.
Qed.

(** The supported flavors have different ids. *)
Lemma support_ids flavors n fs : getSupportFlavorsBySite flavors n = Some fs -> NoDup (Flavor_ID <$> fs).
Proof.
  unfold getSupportFlavorsBySite. destruct flavors as [|f flavors]; [intros [= <-]; constructor|].
  destruct (GetSite n) as [site|]; [|done]. bind_simpl. intros [= <-].
  assert (forall l acc, NoDup (Flavor_ID <$> acc) -> NoDup (Flavor_ID <$> foldl (fun acc fla =>
    foldl (fun acc host => if sold_on site fla host then addFlavrFunc acc (RF_Flavor fla) else acc) acc (Hosts site)) acc l)) as H.
  { clear. induction l as [|fla l IH]; intros acc Hacc; [done|]. simpl. apply IH. clear IH. revert acc Hacc.
    induction (Hosts site) as [|h hs IHh]; intros acc Hacc; [done|]. simpl. apply IHh.
    destruct (sold_on site fla h); [by apply addFlavr_ids|done]. }
  apply (H (f :: flavors) []). constructor.
Qed.

Lemma wrap64_quot z v : 0 < v -> wrap64 (Z.quot (wrap64 z) v) = Z.quot (wrap64 z) v.
Proof.
  intros Hv. apply wrap64_id. pose proof (wrap64_range z) as Hr. unfold int64_range, MinInt64, MaxInt64 in *.
  pose proof (Z.quot_rem' (wrap64 z) v). pose proof (Z.rem_bound_abs (wrap64 z) v ltac:(lia)).
  pose proof (Z.quot_pos (wrap64 z) v). pose proof (Z.quot_opp_l (wrap64 z) v ltac:(lia)).
  pose proof (Z.quot_pos (- wrap64 z) v). nia.
Qed.

Lemma flavor_count_range n flv c : flavor_count n flv = Some c -> wrap64 c = c.
Proof.
  unfold flavor_count. destruct (ParseInt (Vcpus flv)) as [v|]; [|done]. bind_simpl.
  destruct (Z.leb_spec v 0); [done|]. destruct (Z.leb_spec (Ram flv) 0); [done|]. destruct (_ || _); [done|].
  intros [= <-]. destruct (_ <? _); by apply wrap64_quot.
Qed.

(** The fold over flavors with different ids stores each count once. *)
Lemma flavor_fold n (fs : list TypedFlavor) : forall m : gmap string Z, NoDup (Flavor_ID <$> fs) -> (forall flv, flv ∈ fs -> m !! Flavor_ID flv = None) ->
  forall id c, foldl (count_flavor n) m fs !! id = Some c <->
    m !! id = Some c ∨ ∃ flv, flv ∈ fs ∧ Flavor_ID flv = id ∧ flavor_count n flv = Some c.
Proof.
  induction fs as [|flv fs IH]; intros m Hnd Hm id c; csimpl in *.
  { split; [tauto|]. intros [?|(? & []%elem_of_nil & _)]; done. }
  apply NoDup_cons in Hnd as [Hni Hnd].
  assert (forall flv', flv' ∈ fs -> Flavor_ID flv' ≠ Flavor_ID flv) as Hne.
  { intros flv' Hin He. apply Hni. rewrite <- He. by apply list_elem_of_fmap_2. }
  assert (forall P : TypedFlavor -> Prop, (∃ f, f ∈ flv :: fs ∧ P f) <-> P flv ∨ ∃ f, f ∈ fs ∧ P f) as Hex.
  { intros P. setoid_rewrite elem_of_cons. split; [intros (f & [->|?] & ?); eauto|intros [?|(f & ? & ?)]; eauto]. }
  rewrite Hex. unfold count_flavor at 2. destruct (flavor_count n flv) as [count|] eqn:Hc.
  - rewrite (Hm flv) by by constructor. simpl. rewrite (flavor_count_range n flv) by done. rewrite IH; [|done|].
    2: { intros flv' Hin. rewrite lookup_insert_ne by (symmetry; by apply Hne). apply Hm. by constructor. }
    destruct (decide (Flavor_ID flv = id)) as [<-|Hid].
    + rewrite lookup_insert_eq, (Hm flv) by by constructor. intuition congruence.
    + rewrite lookup_insert_ne by done. intuition congruence.
  - rewrite IH; [|done|intros flv' Hin; apply Hm; by constructor]. intuition congruence.
Qed.

(** Free virtual CPUs and memory for a resource type. *)
Definition free_cpu (n : SiteCacheInfo) (rt : string) : Z := VCPU (getTotalResourceByResType n rt) - VCPU (getRequestResourceByResType n rt).
Definition free_mem (n : SiteCacheInfo) (rt : string) : Z := Memory (getTotalResourceByResType n rt) - Memory (getRequestResourceByResType n rt).

Lemma quot_fits a v k : 0 <= a -> 0 < v -> 0 <= k -> (k <= Z.quot a v <-> k * v <= a).
Proof.
  intros Ha Hv Hk. rewrite Z.quot_div_nonneg by lia. split; intros H.
  - pose proof (Z.mul_div_le a v Hv). nia.
  - apply Z.div_le_lower_bound; lia.
Qed.

(** After a change of the resources, the allocatable flavors are exactly the
    supported ones with positive requirements and resources, and the number stored for
    one is the greatest number of instances that fit into both the free virtual CPUs
    and the free memory of its resource type. *)
Theorem allocatable_flavor_is_exact flavors n n' fs :
  getSupportFlavorsBySite flavors n = Some fs -> updateFlavor flavors n = Some n' ->
  (forall id c, AllocatableFlavor n' !! id = Some c <-> ∃ flv, flv ∈ fs ∧ Flavor_ID flv = id ∧ flavor_count n flv = Some c) ∧
  (forall flv c, flavor_count n flv = Some c ->
     let rt := OS_ResourceType (Flavor_OsExtraSpecs flv) in
     0 <= free_cpu n rt <= MaxInt64 -> 0 <= free_mem n rt <= MaxInt64 ->
     ∃ v, ParseInt (Vcpus flv) = Some v ∧ 0 < v ∧ 0 < Ram flv ∧
       forall k, 0 <= k -> (k <= c <-> k * v <= free_cpu n rt ∧ k * Ram flv <= free_mem n rt)).
Proof.
  intros Hfs Hup. split.
  - intros id c. unfold updateFlavor in Hup. rewrite Hfs in Hup. injection Hup as <-. cbn [set_allocatable AllocatableFlavor].
    rewrite flavor_fold; [|by eapply support_ids|by intros; apply lookup_empty]. rewrite lookup_empty. split; [by intros [|]|tauto].
  - intros flv c Hc rt Hcpu Hmem. unfold flavor_count in Hc. destruct (ParseInt (Vcpus flv)) as [v|]; [|done]. bind_simpl in Hc.
    destruct (Z.leb_spec v 0); [done|]. destruct (Z.leb_spec (Ram flv) 0); [done|]. destruct (_ || _); [done|].
    fold rt in Hc. fold (free_cpu n rt) in Hc. fold (free_mem n rt) in Hc.
    rewrite !wrap64_id in Hc by auto with go. exists v. split_and!; [done|done|done|]. intros k Hk.
    rewrite <- (quot_fits (free_cpu n rt) v k), <- (quot_fits (free_mem n rt) (Ram flv) k) by lia.
    injection Hc as <-. destruct (Z.ltb_spec (Z.quot (free_mem n rt) (Ram flv)) (Z.quot (free_cpu n rt) v)); lia.
Qed.

(** A site with one host of ten virtual CPUs and 64 units of memory, half used, and two flavors. *)
Definition demo_site (id region az : string) : Site :=
  mkSite id "cluster" "default" no_geo (mkRegionAz region az) "op" SiteStatusNormal [] "" ∅
    [mkHost "h1" 10 5 64 32 "compute||io" ""].
Definition demo_flavor (id vcpus : string) (ram : Z) (region rt condAz : string) : RegionFlavor :=
  mkRegionFlavor (region +:+ "--" +:+ id) region (mkTypedFlavor id vcpus ram (mkOsExtraSpecs rt "normal" condAz)).
Definition demo_flavors : list RegionFlavor :=
  [demo_flavor "f1" "2" 4 "r1" "compute" ""; demo_flavor "f2" "1" 16 "r1" "io" "az1(normal),az2(sellout)";
   demo_flavor "f3" "1" 1 "r1" "io" "az1(sellout)"].

Lemma allocatable_flavor_is_exact_witness :
  ∃ n n' fs, SetSite demo_flavors NewSiteCacheInfo (demo_site "s1" "r1" "az1") 1 = Some n ∧
    getSupportFlavorsBySite demo_flavors n = Some fs ∧ updateFlavor demo_flavors n = Some n' ∧
    AllocatableFlavor n' = {["f1"%string := 2; "f2"%string := 2]} ∧
    (forall id c, AllocatableFlavor n' !! id = Some c <-> ∃ flv, flv ∈ fs ∧ Flavor_ID flv = id ∧ flavor_count n flv = Some c).
Proof.
  destruct (SetSite demo_flavors NewSiteCacheInfo (demo_site "s1" "r1" "az1") 1) as [n|] eqn:Hn; [|by vm_compute in Hn].
  destruct (getSupportFlavorsBySite demo_flavors n) as [fs|] eqn:Hfs; [|vm_compute in Hn; injection Hn as <-; by vm_compute in Hfs].
  destruct (updateFlavor demo_flavors n) as [n'|] eqn:Hn'; [|vm_compute in Hn; injection Hn as <-; by vm_compute in Hn'].
  exists n, n', fs. split_and!; [done|done|done| |by apply (allocatable_flavor_is_exact demo_flavors n n' fs Hfs Hn')].
  vm_compute in Hn. injection Hn as <-. vm_compute in Hn'. injection Hn' as <-. vm_compute. reflexivity.
Defined.
