(* ===== verification/Cache.v ===== *)
(** * The scheduler cache and its snapshot

    Models [globalscheduler/pkg/scheduler/internal/cache/cache.go] and [snapshot.go]:
    the site informations in a doubly linked list with the most recently updated one at
    the head, the stacks assumed and added, and the incremental snapshot that a
    scheduling cycle starts with.  List items and snapshot entries live in heaps indexed
    by addresses, so that the sharing of pointers is the code's.  [None] is a panic or a
    deadlock.  [CacheProofs] shows that the list operations keep a well-formed list, that
    the incremental snapshot equals a full copy as long as only updates with a new
    generation are made, and that forgetting a stack breaks this; [CacheStacks] follows
    the assumed stacks. *)
From S2P Require Import Prelude Types Strconv SiteTree SiteCacheInfo.

Local Open Scope Z_scope.

(** ** State *)

(** (cache.go:90-94) *)
Record siteCacheInfoListItem := mkItem { info : SiteCacheInfo; it_next : option nat; it_prev : option nat }.

(** (cache.go:118-124) *)
Record StackState := mkStackState { ss_stack : Stack; deadline : option Z; bindingFinished : bool }.

(** The items of the list are in [heap]; [gen] is the package's generation counter
    (cache.go:96-116). *)
Record schedulerCache := mkCache {
  heap : gmap nat siteCacheInfoListItem; fresh : nat; gen : Z;
  assumedStacks : gset string; stackStates : gmap string StackState;
  siteCacheInfos : gmap string nat; headSiteCacheInfo : option nat;
  regionToSite : gmap string (gset string); siteTreeOf : siteTree }.

(** (cache.go:126-138) *)
Definition newSchedulerCache (g : Z) : schedulerCache := mkCache ∅ 0 g ∅ ∅ ∅ None ∅ (newSiteCacheTree []).

Definition set_list (c : schedulerCache) (h : gmap nat siteCacheInfoListItem) (head : option nat) : schedulerCache :=
  mkCache h (fresh c) (gen c) (assumedStacks c) (stackStates c) (siteCacheInfos c) head (regionToSite c) (siteTreeOf c).
Definition set_stacks (c : schedulerCache) (assumed : gset string) (states : gmap string StackState) : schedulerCache :=
  mkCache (heap c) (fresh c) (gen c) assumed states (siteCacheInfos c) (headSiteCacheInfo c) (regionToSite c) (siteTreeOf c).
Definition set_tree (c : schedulerCache) (t : siteTree) : schedulerCache :=
  mkCache (heap c) (fresh c) (gen c) (assumedStacks c) (stackStates c) (siteCacheInfos c) (headSiteCacheInfo c) (regionToSite c) t.
Definition set_regions (c : schedulerCache) (r : gmap string (gset string)) : schedulerCache :=
  mkCache (heap c) (fresh c) (gen c) (assumedStacks c) (stackStates c) (siteCacheInfos c) (headSiteCacheInfo c) r (siteTreeOf c).

Definition set_next (n : option nat) (it : siteCacheInfoListItem) : siteCacheInfoListItem := mkItem (info it) n (it_prev it).
Definition set_prev (p : option nat) (it : siteCacheInfoListItem) : siteCacheInfoListItem := mkItem (info it) (it_next it) p.
Definition set_info (i : SiteCacheInfo) (it : siteCacheInfoListItem) : siteCacheInfoListItem := mkItem i (it_next it) (it_prev it).

(** [p.field = v] for a pointer that may be nil; nothing when it is, as the code checks. *)
Definition at_ptr (p : option nat) (f : siteCacheInfoListItem -> siteCacheInfoListItem) (h : gmap nat siteCacheInfoListItem) :
    gmap nat siteCacheInfoListItem :=
  match p with Some a => alter f a h | None => h end.

(** ** The list *)

(** (cache.go:150-173) *)
Definition moveSiteCacheInfoToHead (c : schedulerCache) (siteID : string) : option schedulerCache :=
  match siteCacheInfos c !! siteID with
  | None => Some c
  | Some ni =>
      if decide (headSiteCacheInfo c = Some ni) then Some c
      else
        it ← heap c !! ni;
        let h := at_ptr (it_prev it) (set_next (it_next it)) (heap c) in
        it ← h !! ni;
        let h := at_ptr (it_next it) (set_prev (it_prev it)) h in
        let h := at_ptr (headSiteCacheInfo c) (set_prev (Some ni)) h in
        let h := alter (set_next (headSiteCacheInfo c)) ni h in
        let h := alter (set_prev None) ni h in
        Some (set_list c h (Some ni))
  end.

(** (cache.go:178-196) *)
Definition removeSiteCacheInfoFromList (c : schedulerCache) (siteID : string) : option schedulerCache :=
  match siteCacheInfos c !! siteID with
  | None => Some c
  | Some ni =>
      it ← heap c !! ni;
      let h := at_ptr (it_prev it) (set_next (it_next it)) (heap c) in
      it ← h !! ni;
      let h := at_ptr (it_next it) (set_prev (it_prev it)) h in
      it ← h !! ni;
      let head := if decide (headSiteCacheInfo c = Some ni) then it_next it else headSiteCacheInfo c in
      Some (mkCache h (fresh c) (gen c) (assumedStacks c) (stackStates c) (delete siteID (siteCacheInfos c)) head
        (regionToSite c) (siteTreeOf c))
  end.

(** A new item under the site's name (cache.go:141-145 newSiteCacheInfoListItem). *)
Definition new_item (c : schedulerCache) (siteID : string) : nat * schedulerCache :=
  let a := fresh c in
  (a, mkCache (<[a := mkItem NewSiteCacheInfo None None]> (heap c)) (S a) (gen c) (assumedStacks c) (stackStates c)
        (<[siteID := a]> (siteCacheInfos c)) (headSiteCacheInfo c) (regionToSite c) (siteTreeOf c)).

(** The item of a site, created when it is missing. *)
Definition item_of (c : schedulerCache) (siteID : string) : nat * schedulerCache :=
  match siteCacheInfos c !! siteID with Some a => (a, c) | None => new_item c siteID end.

(** A method of the information at [a]: [f] gets the information and, when it takes one,
    the next generation; [bump] tells whether it takes one. *)
Definition update_info (c : schedulerCache) (a : nat) (bump : bool) (f : SiteCacheInfo -> Z -> option SiteCacheInfo) : option schedulerCache :=
  it ← heap c !! a;
  let g := if bump then nextGeneration (gen c) else gen c in
  i ← f (info it) g;
  Some (mkCache (<[a := set_info i it]> (heap c)) (fresh c) g (assumedStacks c) (stackStates c) (siteCacheInfos c)
    (headSiteCacheInfo c) (regionToSite c) (siteTreeOf c)).

(** ** Stacks *)

(** (cache.go:367-375 addStack) *)
Definition add_stack (c : schedulerCache) (stack : Stack) : option schedulerCache :=
  let siteID := Selected_SiteID (Stack_Selected stack) in
  let '(n, c) := item_of c siteID in
  c ← update_info c n true (fun i g => Some (AddStack i stack g));
  moveSiteCacheInfoToHead c siteID.

(** The information's [RemoveStack] changes nothing, its generation neither
    (cache.go:390-400 removeStack). *)
Definition remove_stack (c : schedulerCache) (stack : Stack) : option schedulerCache :=
  let siteID := Selected_SiteID (Stack_Selected stack) in
  match siteCacheInfos c !! siteID with
  | None => Some c
  | Some n =>
      c ← update_info c n false (fun i _ => Some (RemoveStack i stack));
      moveSiteCacheInfoToHead c siteID
  end.

(** (cache.go:378-384 updateStack) *)
Definition update_stack (c : schedulerCache) (oldStack newStack : Stack) : option schedulerCache :=
  c ← remove_stack c oldStack; add_stack c newStack.

(** (cache.go:320-343) *)
Definition ForgetStack (c : schedulerCache) (stack : Stack) : option (schedulerCache * result unit) :=
  match GetStackKey stack with
  | Err e => Some (c, Err e)
  | Ok key =>
      if bool_decide (is_Some (stackStates c !! key) ∧ key ∈ assumedStacks c) then
        c ← remove_stack c stack;
        Some (set_stacks c (assumedStacks c ∖ {[key]}) (delete key (stackStates c)), Ok tt)
      else Some (c, Err ("stack " +:+ key +:+ " wasn't assumed so cannot be forgotten"))
  end.

(** (cache.go:346-364) *)
Definition AssumeStack (c : schedulerCache) (stack : Stack) : option (schedulerCache * result unit) :=
  match GetStackKey stack with
  | Err e => Some (c, Err e)
  | Ok key =>
      match stackStates c !! key with
      | Some _ => Some (c, Err ("stack " +:+ key +:+ " is in the cache, so can't be assumed"))
      | None =>
          c ← add_stack c stack;
          Some (set_stacks c ({[key]} ∪ assumedStacks c) (<[key := mkStackState stack None false]> (stackStates c)), Ok tt)
      end
  end.

#[export] Instance Selected_eq_dec : EqDecision Selected.
Proof. solve_decision. Defined.

(** A stack that was assumed on another site is removed there, and then the method
    calls itself while it holds the lock, which blocks for ever: [None]
    (cache.go:403-439 AddStack). *)
Definition Cache_AddStack (c : schedulerCache) (stack : Stack) : option (schedulerCache * result unit) :=
  match GetStackKey stack with
  | Err e => Some (c, Err e)
  | Ok key =>
      match stackStates c !! key with
      | None =>
          c ← add_stack c stack;
          Some (set_stacks c (assumedStacks c) (<[key := mkStackState stack None false]> (stackStates c)), Ok tt)
      | Some currState =>
          if decide (key ∈ assumedStacks c) then
            if decide (Stack_Selected (ss_stack currState) = Stack_Selected stack) then
              Some (set_stacks c (assumedStacks c ∖ {[key]})
                (<[key := mkStackState stack None (bindingFinished currState)]> (stackStates c)), Ok tt)
            else None
          else Some (c, Err ("stack " +:+ key +:+ " was already in added state"))
      end
  end.

(** (cache.go:442-468) *)
Definition UpdateStack (c : schedulerCache) (oldStack newStack : Stack) : option (schedulerCache * result unit) :=
  match GetStackKey oldStack with
  | Err e => Some (c, Err e)
  | Ok key =>
      match stackStates c !! key with
      | Some currState =>
          if decide (key ∈ assumedStacks c) then Some (c, Err ("pod " +:+ key +:+ " is not added to scheduler cache, so cannot be updated"))
          else
            c ← update_stack c oldStack newStack;
            Some (set_stacks c (assumedStacks c)
              (<[key := mkStackState newStack (deadline currState) (bindingFinished currState)]> (stackStates c)), Ok tt)
      | None => Some (c, Err ("pod " +:+ key +:+ " is not added to scheduler cache, so cannot be updated"))
      end
  end.

(** (cache.go:471-499 RemoveStack) *)
Definition Cache_RemoveStack (c : schedulerCache) (stack : Stack) : option (schedulerCache * result unit) :=
  match GetStackKey stack with
  | Err e => Some (c, Err e)
  | Ok key =>
      match stackStates c !! key with
      | Some currState =>
          if decide (key ∈ assumedStacks c) then Some (c, Err ("stack " +:+ key +:+ " is not found in scheduler cache, so cannot be removed from it"))
          else
            c ← remove_stack c (ss_stack currState);
            Some (set_stacks c (assumedStacks c) (delete key (stackStates c)), Ok tt)
      | None => Some (c, Err ("stack " +:+ key +:+ " is not found in scheduler cache, so cannot be removed from it"))
      end
  end.

(** (cache.go:502-516) *)
Definition IsAssumedStack (c : schedulerCache) (stack : Stack) : result bool :=
  match GetStackKey stack with Err e => Err e | Ok key => Ok (bool_decide (key ∈ assumedStacks c)) end.

(** (cache.go:520-535) *)
Definition GetStack (c : schedulerCache) (stack : Stack) : result Stack :=
  match GetStackKey stack with
  | Err e => Err e
  | Ok key =>
      match stackStates c !! key with
      | Some st => Ok (ss_stack st)
      | None => Err ("stack " +:+ key +:+ " does not exist in scheduler cache")
      end
  end.

(** ** Sites *)

(** (cache.go:595-601) *)
Definition updateRegionToSite (c : schedulerCache) (site : Site) : schedulerCache :=
  let region := RA_Region (Site_RegionAzMap site) in
  set_regions c (<[region := {[SiteID site]} ∪ default ∅ (regionToSite c !! region)]> (regionToSite c)).

(** (cache.go:603-609) *)
Definition deleteRegionToSite (c : schedulerCache) (site : Site) : schedulerCache :=
  let region := RA_Region (Site_RegionAzMap site) in
  match regionToSite c !! region with
  | None => c
  | Some ids => set_regions c (<[region := ids ∖ {[SiteID site]}]> (regionToSite c))
  end.

(** [flavors] is what the flavor informer's store lists at the call
    (cache.go:537-552). *)
Definition AddSite (flavors : list RegionFlavor) (c : schedulerCache) (site : Site) : option schedulerCache :=
  let '(n, c) := item_of c (SiteID site) in
  c ← moveSiteCacheInfoToHead c (SiteID site);
  let c := set_tree c (addSite (siteTreeOf c) site) in
  let c := updateRegionToSite c site in
  update_info c n true (fun i g => SetSite flavors i site g).

(** (cache.go:554-570) *)
Definition UpdateSite (flavors : list RegionFlavor) (c : schedulerCache) (oldSite newSite : Site) : option schedulerCache :=
  let '(n, c) := match siteCacheInfos c !! SiteID newSite with
    | Some a => (a, c)
    | None => let '(a, c) := new_item c (SiteID newSite) in (a, set_tree c (addSite (siteTreeOf c) newSite))
    end in
  c ← moveSiteCacheInfoToHead c (SiteID newSite);
  let c := set_tree c (updateSite (siteTreeOf c) oldSite newSite) in
  let c := updateRegionToSite (deleteRegionToSite c oldSite) newSite in
  update_info c n true (fun i g => SetSite flavors i newSite g).

(** (cache.go:578-593) *)
Definition RemoveSite (c : schedulerCache) (site : Site) : option (schedulerCache * result unit) :=
  match siteCacheInfos c !! SiteID site with
  | None => Some (c, Err ("site " +:+ SiteID site +:+ " is not found"))
  | Some _ =>
      c ← removeSiteCacheInfoFromList c (SiteID site);
      let '(t, r) := removeSite (siteTreeOf c) site in
      let c := set_tree c t in
      match r with
      | Err e => Some (c, Err e)
      | Ok _ => Some (deleteRegionToSite c site, Ok tt)
      end
  end.

(** An update of a site's information that then moves it to the head. *)
Definition update_site (c : schedulerCache) (siteID : string) (bump : bool) (f : SiteCacheInfo -> Z -> option SiteCacheInfo) :
    option (schedulerCache * result unit) :=
  match siteCacheInfos c !! siteID with
  | None => Some (c, Err ("site " +:+ siteID +:+ " is not found"))
  | Some a => c ← update_info c a bump f; c ← moveSiteCacheInfoToHead c siteID; Some (c, Ok tt)
  end.

(** (cache.go:612-627 UpdateSiteWithEipPool) *)
Definition Cache_UpdateSiteWithEipPool (c : schedulerCache) (siteID : string) (pool : EipPool) : option (schedulerCache * result unit) :=
  update_site c siteID true (fun i g => Some (UpdateSiteWithEipPool i pool g)).

(** (cache.go:630-645 UpdateSiteWithVolumePool) *)
Definition Cache_UpdateSiteWithVolumePool (c : schedulerCache) (siteID : string) (pool : RegionVolumePool) : option (schedulerCache * result unit) :=
  update_site c siteID true (fun i g => UpdateSiteWithVolumePool i pool g).

(** Every site of a region, in the order [ids]; errors are logged. *)
Definition update_region (f : schedulerCache -> string -> option (schedulerCache * result unit)) (c : schedulerCache) (ids : list string) :
    option schedulerCache :=
  foldl (fun c id => c ← c; '(c, _) ← f c id; Some c) (Some c) ids.

(** [range] is the order in which the region's sites are visited (cache.go:648-666). *)
Definition UpdateEipPool (range : gset string -> list string) (c : schedulerCache) (pool : EipPool) : option schedulerCache :=
  match regionToSite c !! Eip_Region pool with
  | None => Some c
  | Some siteIDs => update_region (fun c id => Cache_UpdateSiteWithEipPool c id pool) c (range siteIDs)
  end.

(** (cache.go:669-687) *)
Definition UpdateVolumePool (range : gset string -> list string) (c : schedulerCache) (pool : RegionVolumePool) : option schedulerCache :=
  match regionToSite c !! RVP_Region pool with
  | None => Some c
  | Some siteIDs => update_region (fun c id => Cache_UpdateSiteWithVolumePool c id pool) c (range siteIDs)
  end.

(** An unknown site is no error (cache.go:690-708 UpdateSiteWithResInfo). *)
Definition Cache_UpdateSiteWithResInfo (flavors : list RegionFlavor) (c : schedulerCache) (siteID : string) (resInfo : AllResInfo) :
    option schedulerCache :=
  '(c, _) ← update_site c siteID true (fun i g => UpdateSiteWithResInfo flavors i resInfo g); Some c.

(** The generation is not renewed (cache.go:710-728 UpdateQos). *)
Definition Cache_UpdateQos (qosWeight : float64) (c : schedulerCache) (siteID : string) (metrics : list NetMetricData) : option schedulerCache :=
  '(c, _) ← update_site c siteID false (fun i _ => Some (UpdateQos qosWeight i metrics)); Some c.

(** The first site of the region and zone in the order [ids] of the map; a site
    information without a site is dereferenced (cache.go:735-746 UpdateSiteWithRatio). *)
Fixpoint find_zone (c : schedulerCache) (region az : string) (ids : list (string * nat)) : option (option (string * nat)) :=
  match ids with
  | [] => Some None
  | (_, a) :: ids =>
      it ← heap c !! a;
      site ← GetSite (info it);
      let ra := Site_RegionAzMap site in
      if (String.eqb (RA_Region ra) region && String.eqb (RA_AvailabilityZone ra) az)%bool then Some (Some (SiteID site, a))
      else find_zone c region az ids
  end.

Definition update_zone (range : gmap string nat -> list (string * nat)) (c : schedulerCache) (region az : string)
    (f : SiteCacheInfo -> Z -> option SiteCacheInfo) : option schedulerCache :=
  found ← find_zone c region az (range (siteCacheInfos c));
  match found with
  | None => Some c
  | Some (id, a) => c ← update_info c a true f; moveSiteCacheInfoToHead c id
  end.

(** (cache.go:731-749 UpdateSiteWithRatio) *)
Definition Cache_UpdateSiteWithRatio (range : gmap string nat -> list (string * nat)) (store : gmap string RegionFlavor)
    (flavors : list RegionFlavor) (range_ratios : gmap string AllocationRatio -> list (string * AllocationRatio))
    (c : schedulerCache) (region az : string) (ratios : list AllocationRatio) : option schedulerCache :=
  update_zone range c region az (fun i g => UpdateSiteWithRatio store flavors range_ratios i ratios g).

(** (cache.go:752-770 UpdateSpotResources) *)
Definition Cache_UpdateSpotResources (range : gmap string nat -> list (string * nat)) (c : schedulerCache) (region az : string)
    (spotRes : gmap string SpotResource) : option schedulerCache :=
  update_zone range c region az (fun i g => Some (UpdateSpotResources i spotRes g)).

(** ** Expiry *)

(** (cache.go:832-839) *)
Definition expireStack (c : schedulerCache) (key : string) (ps : StackState) : option schedulerCache :=
  c ← remove_stack c (ss_stack ps);
  Some (set_stacks c (assumedStacks c ∖ {[key]}) (delete key (stackStates c))).

(** The deadline is read once the binding has finished; a key without a state is fatal
    (cache.go:808-830 cleanupAssumedStacks). *)
Fixpoint cleanup_keys (c : schedulerCache) (now : Z) (keys : list string) : option schedulerCache :=
  match keys with
  | [] => Some c
  | key :: keys =>
      ps ← stackStates c !! key;
      if negb (bindingFinished ps) then cleanup_keys c now keys
      else
        d ← deadline ps;
        if d <? now then c ← expireStack c key ps; cleanup_keys c now keys
        else cleanup_keys c now keys
  end.
(** (cache.go:808-830) *)
Definition cleanupAssumedStacks (range : gset string -> list string) (c : schedulerCache) (now : Z) : option schedulerCache :=
  cleanup_keys c now (range (assumedStacks c)).

(** ** Listings *)

(** The stacks of all informations that satisfy the filter (cache.go:846-865). *)
Definition FilteredList (range : gmap string nat -> list (string * nat)) (c : schedulerCache) (stackFilter : Stack -> bool) : option (list Stack) :=
  foldr (fun kv acc => acc ← acc; it ← heap c !! kv.2; Some (filter (fun s => stackFilter s = true) (Stacks (info it)) ++ acc))
    (Some []) (range (siteCacheInfos c)).

(** (cache.go:773-789) *)
Definition GetRegions (range : gmap string nat -> list (string * nat)) (c : schedulerCache) : option (gmap string CloudRegion) :=
  foldl (fun ret kv =>
    ret ← ret; it ← heap c !! kv.2; site ← GetSite (info it);
    let ra := Site_RegionAzMap site in
    let cr := default (mkCloudRegion (RA_Region ra) []) (ret !! RA_Region ra) in
    Some (<[RA_Region ra := mkCloudRegion (CR_Region cr) (CR_AvailabilityZone cr ++ [RA_AvailabilityZone ra])]> ret))
    (Some ∅) (range (siteCacheInfos c)).

(** ** The snapshot *)

(** The entries are in [entries]; the list shares them with the map
    (snapshot.go:30-42). *)
Record Snapshot := mkSnapshot {
  entries : gmap nat SiteCacheInfo; snap_fresh : nat; SiteCacheInfoMap : gmap string nat; SiteCacheInfoList : list nat;
  RegionFlavorMap : gmap string RegionFlavor; FlavorMap : gmap string RegionFlavor; snap_generation : Z }.

(** (snapshot.go:47-54) *)
Definition NewEmptySnapshot : Snapshot := mkSnapshot ∅ 0 ∅ [] ∅ ∅ 0.

Definition set_entries (s : Snapshot) (e : gmap nat SiteCacheInfo) (f : nat) (m : gmap string nat) : Snapshot :=
  mkSnapshot e f m (SiteCacheInfoList s) (RegionFlavorMap s) (FlavorMap s) (snap_generation s).
Definition set_snap_list (s : Snapshot) (l : list nat) : Snapshot :=
  mkSnapshot (entries s) (snap_fresh s) (SiteCacheInfoMap s) l (RegionFlavorMap s) (FlavorMap s) (snap_generation s).
Definition set_snap_generation (s : Snapshot) (g : Z) : Snapshot :=
  mkSnapshot (entries s) (snap_fresh s) (SiteCacheInfoMap s) (SiteCacheInfoList s) (RegionFlavorMap s) (FlavorMap s) g.

(** One information of the walk: its copy overwrites the entry, a new one when there is
    none; whether a new one was made (cache.go:245-257 UpdateSnapshot). *)
Definition copy_entry (s : Snapshot) (i : SiteCacheInfo) (all : bool) : option (Snapshot * bool) :=
  match GetSite i with
  | None => Some (s, all)
  | Some np =>
      clone ← Clone i;
      match SiteCacheInfoMap s !! SiteID np with
      | Some existing => Some (set_entries s (<[existing := clone]> (entries s)) (snap_fresh s) (SiteCacheInfoMap s), all)
      | None =>
          let existing := snap_fresh s in
          Some (set_entries s (<[existing := clone]> (entries s)) (S existing) (<[SiteID np := existing]> (SiteCacheInfoMap s)), true)
      end
  end.

(** The walk from the head; it stops at the first information that is not newer than the
    snapshot.  [fuel] bounds the length of the list (cache.go:239-258 UpdateSnapshot). *)
Fixpoint copy_walk (fuel : nat) (c : schedulerCache) (p : option nat) (snapshotGeneration : Z) (s : Snapshot) (all : bool) :
    option (Snapshot * bool) :=
  match fuel, p with
  | _, None => Some (s, all)
  | O, Some _ => None
  | S fuel, Some a =>
      it ← heap c !! a;
      if GetGeneration (info it) <=? snapshotGeneration then Some (s, all)
      else '(s, all) ← copy_entry s (info it) all; copy_walk fuel c (it_next it) snapshotGeneration s all
  end.

(** (cache.go:306-317 removeDeletedSiteCacheInfosFromSnapshot) *)
Fixpoint remove_deleted (c : schedulerCache) (toDelete : Z) (names : list string) (m : gmap string nat) : gmap string nat :=
  match names with
  | [] => m
  | name :: names =>
      if toDelete <=? 0 then m
      else match siteCacheInfos c !! name with
           | None => remove_deleted c (toDelete - 1) names (delete name m)
           | Some _ => remove_deleted c toDelete names m
           end
  end.
(** (cache.go:306-317 removeDeletedSiteCacheInfosFromSnapshot) *)
Definition removeDeletedSiteCacheInfosFromSnapshot (range : gmap string nat -> list (string * nat)) (c : schedulerCache) (s : Snapshot) : Snapshot :=
  let m := SiteCacheInfoMap s in
  set_entries s (entries s) (snap_fresh s)
    (remove_deleted c (Z.of_nat (size m) - Z.of_nat (size (siteCacheInfos c))) (range m).*1 m).

(** (cache.go:289-303) *)
Definition updateSiteCacheInfoSnapshotList (c : schedulerCache) (s : Snapshot) : option (schedulerCache * Snapshot) :=
  '(ids, t) ← next_n (Z.to_nat (numSites (siteTreeOf c))) (siteTreeOf c);
  Some (set_tree c t, set_snap_list s (omap (fun id => SiteCacheInfoMap s !! id) ids)).

(** (cache.go:226-287) *)
Definition UpdateSnapshot (range : gmap string nat -> list (string * nat)) (c : schedulerCache) (s : Snapshot) :
    option (schedulerCache * Snapshot * result unit) :=
  '(s, all) ← copy_walk (size (heap c)) c (headSiteCacheInfo c) (snap_generation s) s false;
  s ← match headSiteCacheInfo c with
      | Some a => it ← heap c !! a; Some (set_snap_generation s (GetGeneration (info it)))
      | None => Some s
      end;
  let shrunk := Nat.ltb (size (siteCacheInfos c)) (size (SiteCacheInfoMap s)) in
  let s := if shrunk then removeDeletedSiteCacheInfosFromSnapshot range c s else s in
  '(c, s) ← if (all || shrunk)%bool then updateSiteCacheInfoSnapshotList c s else Some (c, s);
  if bool_decide (Z.of_nat (length (SiteCacheInfoList s)) = numSites (siteTreeOf c)) then Some (c, s, Ok tt)
  else '(c, s) ← updateSiteCacheInfoSnapshotList c s; Some (c, s, Err "snapshot state is not consistent").

(** (snapshot.go:128-133 Get) *)
Definition Snapshot_Get (s : Snapshot) (siteID : string) : result SiteCacheInfo :=
  match SiteCacheInfoMap s !! siteID ≫= fun a => entries s !! a with
  | Some v => Ok v
  | None => Err ("sitecacheinfo not found for site ID " +:+ siteID)
  end.
(** (snapshot.go:118-120 List) *)
Definition Snapshot_List (s : Snapshot) : list SiteCacheInfo := omap (fun a => entries s !! a) (SiteCacheInfoList s).
