(* ===== verification/CacheProofs.v ===== *)
(** * Correctness of the scheduler cache

    The doubly linked list of [Cache] represents a list of addresses that its operations
    rearrange; the generations decrease along it as long as every move to the head
    comes with a new generation.  This is what makes the incremental snapshot of
    [UpdateSnapshot] a full copy of the cache, and what forgetting a stack breaks. *)
From S2P Require Import Prelude Types Strconv SiteTree SiteCacheInfo Cache.

Local Open Scope Z_scope.

(** ** Linked segments *)

Abbreviation hp := (gmap nat siteCacheInfoListItem).

Definition hd_or (l : list nat) (nxt : option nat) : option nat := match l with [] => nxt | b :: _ => Some b end.
Definition last_or (prev : option nat) (l : list nat) : option nat := match last l with Some a => Some a | None => prev end.

(** The items at [l] are linked to each other, between [prev] and [nxt]. *)
Fixpoint dseg (h : hp) (prev : option nat) (l : list nat) (nxt : option nat) : Prop :=
  match l with
  | [] => True
  | a :: l => ∃ it, h !! a = Some it ∧ it_prev it = prev ∧ it_next it = hd_or l nxt ∧ dseg h (Some a) l nxt
  end.

Lemma hd_or_app l1 l2 n : hd_or (l1 ++ l2) n = hd_or l1 (hd_or l2 n).
Proof. by destruct l1. Qed.
Lemma last_or_cons p a l : last_or p (a :: l) = last_or (Some a) l.
Proof. unfold last_or. rewrite last_cons. by destruct (last l). Qed.

Lemma dseg_app h l1 : forall p l2 n, dseg h p (l1 ++ l2) n <-> dseg h p l1 (hd_or l2 n) ∧ dseg h (last_or p l1) l2 n.
Proof.
  induction l1 as [|a l1 IH]; intros p l2 n; simpl; [tauto|]. rewrite last_or_cons. split.
  - intros (it & Ha & Hp & Hn & Hs). apply IH in Hs as [Hs1 Hs2]. rewrite hd_or_app in Hn. split; [|done]. by exists it.
  - intros [(it & Ha & Hp & Hn & Hs1) Hs2]. exists it. rewrite hd_or_app. split_and!; try done. by apply IH.
Qed.

Lemma dseg_frame h h' l : forall p n, (forall a, a ∈ l -> h' !! a = h !! a) -> dseg h p l n -> dseg h' p l n.
Proof.
  induction l as [|a l IH]; intros p n Hf Hs; [done|]. destruct Hs as (it & Ha & Hp & Hn & Hs). exists it.
  split_and!; [rewrite Hf; [done|by left]|done|done|]. apply IH; [|done]. intros b Hb. apply Hf. by right.
Qed.

Lemma dseg_lookup h l : forall p n a, dseg h p l n -> a ∈ l -> is_Some (h !! a).
Proof.
  induction l as [|b l IH]; intros p n a Hs Ha; [by apply elem_of_nil in Ha|]. destruct Hs as (it & Hb & _ & _ & Hs).
  apply elem_of_cons in Ha as [->|Ha]; [by exists it|by eapply IH].
Qed.

(** Setting the forward pointer of the last item. *)
Lemma dseg_set_next h l a p n n' : dseg h p (l ++ [a]) n -> NoDup (l ++ [a]) -> dseg (alter (set_next n') a h) p (l ++ [a]) n'.
Proof.
  rewrite !dseg_app. intros [Hl (it & Ha & Hp & _ & _)] Hnd. simpl in *. split.
  - eapply dseg_frame; [|exact Hl]. intros b Hb. apply lookup_alter_ne. intros <-.
    apply NoDup_app in Hnd as (_ & Hd & _). apply (Hd a Hb). by left.
  - exists (set_next n' it). rewrite lookup_alter_eq, Ha. by split_and!.
Qed.

(** Setting the backward pointer of the first item. *)
Lemma dseg_set_prev h l a p p' n : dseg h p (a :: l) n -> NoDup (a :: l) -> dseg (alter (set_prev p') a h) p' (a :: l) n.
Proof.
  intros (it & Ha & _ & Hn & Hs) [Hni _]%NoDup_cons. exists (set_prev p' it). rewrite lookup_alter_eq, Ha.
  split_and!; [done|done|done|]. eapply dseg_frame; [|exact Hs]. intros b Hb. apply lookup_alter_ne. congruence.
Qed.

(** ** Informations *)

(** The information stored at an address. *)
Definition info_at (h : hp) (a : nat) : option SiteCacheInfo := info <$> h !! a.

(** A change of the links only. *)
Definition same_infos (h h' : hp) : Prop := forall a, info_at h' a = info_at h a.

#[export] Instance same_infos_preorder : PreOrder same_infos.
Proof. split; [by intros h a|]. intros h1 h2 h3 H1 H2 a. by rewrite H2, H1. Qed.

Lemma same_infos_alter f a h : (forall it, info (f it) = info it) -> same_infos h (alter f a h).
Proof.
  intros Hf b. unfold info_at. destruct (decide (a = b)) as [<-|Hne].
  - rewrite lookup_alter_eq. destruct (h !! a); simpl; [by rewrite Hf|done].
  - by rewrite lookup_alter_ne.
Qed.
Lemma same_infos_at_ptr p f h : (forall it, info (f it) = info it) -> same_infos h (at_ptr p f h).
Proof. destruct p; [apply same_infos_alter|done]. Qed.

Lemma at_ptr_ne p f h a : p ≠ Some a -> at_ptr p f h !! a = h !! a.
Proof. destruct p as [b|]; [|done]. intros Hne. apply lookup_alter_ne. congruence. Qed.

(** ** Unlinking and pushing *)

(** Taking an item out of a list. *)
Lemma dseg_unlink h l1 ni l2 it : dseg h None (l1 ++ ni :: l2) None -> NoDup (l1 ++ ni :: l2) -> h !! ni = Some it ->
  let h1 := at_ptr (it_prev it) (set_next (it_next it)) h in
  let h2 := at_ptr (it_next it) (set_prev (it_prev it)) h1 in
  it_prev it = last_or None l1 ∧ it_next it = hd_or l2 None ∧ h1 !! ni = Some it ∧ h2 !! ni = Some it ∧
  dseg h2 None (l1 ++ l2) None ∧ same_infos h h2.
Proof.
  intros Hs Hnd Hit h1 h2. apply dseg_app in Hs as [Hs1 (it' & Hni & Hp & Hn & Hs2)].
  rewrite Hit in Hni. injection Hni as <-. simpl in Hs1, Hn.
  apply NoDup_app in Hnd as (Hnd1 & Hdis & [Hni2 Hnd2]%NoDup_cons).
  assert (it_prev it ≠ Some ni) as Hpn.
  { rewrite Hp. unfold last_or. destruct (last l1) as [b|] eqn:Hb; [|done]. intros [= ->].
    apply last_Some_elem_of in Hb. apply (Hdis ni Hb). by left. }
  assert (it_next it ≠ Some ni) as Hnn by (rewrite Hn; destruct l2 as [|b l2]; [done|]; intros [= ->]; apply Hni2; by left).
  assert (h1 !! ni = Some it) as H1 by (unfold h1; by rewrite at_ptr_ne).
  assert (h2 !! ni = Some it) as H2 by (unfold h2; by rewrite at_ptr_ne).
  split_and!; [done|done|done|done| |etrans; by apply same_infos_at_ptr].
  (* the front now ends at [l2]'s head, the back starts after [l1]'s end *)
  assert (dseg h1 None l1 (hd_or l2 None) ∧ dseg h1 (Some ni) l2 None) as [Hf Hb].
  { unfold h1. rewrite Hp. destruct l1 as [|b l1 _] using rev_ind; [by simpl|]. unfold last_or. rewrite last_snoc. simpl. split.
    - rewrite <- Hn. by eapply dseg_set_next.
    - eapply dseg_frame; [|exact Hs2]. intros a Ha. apply lookup_alter_ne. intros <-. apply (Hdis b); [apply elem_of_app; right; by left|by right]. }
  apply dseg_app. unfold h2. rewrite Hn. destruct l2 as [|b l2]; simpl in *; [by split|]. split.
  - eapply dseg_frame; [|exact Hf]. intros a Ha. apply lookup_alter_ne. intros <-. apply (Hdis b Ha). right. by left.
  - rewrite Hp. by eapply (dseg_set_prev h1 l2 b (Some ni)).
Qed.

(** Putting an item in front. *)
Lemma dseg_push h l ni it : dseg h None l None -> NoDup l -> ni ∉ l -> h !! ni = Some it ->
  let h' := alter (set_prev None) ni (alter (set_next (hd_or l None)) ni (at_ptr (hd_or l None) (set_prev (Some ni)) h)) in
  dseg h' None (ni :: l) None ∧ same_infos h h'.
Proof.
  intros Hs Hnd Hni Hit h'. split.
  2: { unfold h'. etrans; [by apply (same_infos_at_ptr (hd_or l None) (set_prev (Some ni)))|].
    etrans; by apply same_infos_alter. }
  exists (set_prev None (set_next (hd_or l None) it)). unfold h'. rewrite !lookup_alter_eq.
  rewrite at_ptr_ne by (destruct l as [|b l]; [done|]; intros [= ->]; apply Hni; by left).
  rewrite Hit. split_and!; [done|done|done|]. eapply dseg_frame.
  { intros a Ha. rewrite !lookup_alter_ne by congruence. reflexivity. }
  destruct l as [|b l]; [done|]. simpl. by eapply dseg_set_prev.
Qed.

(** ** The list operations *)

(** The cache's list holds the addresses [l], in order. *)
Definition list_ok (c : schedulerCache) (l : list nat) : Prop :=
  dseg (heap c) None l None ∧ headSiteCacheInfo c = hd_or l None ∧ NoDup l.

Lemma move_to_head c l id ni : list_ok c l -> siteCacheInfos c !! id = Some ni ->
  ni ∈ l ∨ ((ni ∉ l) ∧ ∃ i, heap c !! ni = Some (mkItem i None None)) ->
  ∃ h' l', moveSiteCacheInfoToHead c id = Some (set_list c h' (Some ni)) ∧ list_ok (set_list c h' (Some ni)) (ni :: l') ∧
    same_infos (heap c) h' ∧ sublist l' l ∧ forall a, a ∈ l' <-> a ∈ l ∧ a ≠ ni.
Proof.
  intros (Hs & Hhd & Hnd) Hid Hni. unfold moveSiteCacheInfoToHead. rewrite Hid.
  destruct (decide (headSiteCacheInfo c = Some ni)) as [Hh|Hh].
  { rewrite Hhd in Hh. destruct l as [|a l]; [done|]. simpl in Hh. injection Hh as ->. exists (heap c), l.
    apply NoDup_cons in Hnd as [Hni' Hnd]. split_and!; [|split_and!|done|by apply sublist_cons|].
    - destruct c; simpl in *; by rewrite Hhd.
    - done.
    - done.
    - by constructor.
    - intros a. rewrite elem_of_cons. split; [|tauto]. intros Ha. split; [tauto|]. by intros ->. }
  destruct Hni as [Hin|(Hnin & i & Hit)].
  - apply list_elem_of_split in Hin as (l1 & l2 & ->).
    destruct (dseg_lookup _ _ _ _ ni Hs) as [it Hit]; [apply elem_of_app; right; by left|].
    destruct (dseg_unlink _ _ _ _ it Hs Hnd Hit) as (Hp & Hn & H1 & H2 & Hs' & Hsame).
    rewrite Hit. bind_simpl. rewrite H1. bind_simpl.
    set (h2 := at_ptr (it_next it) _ _) in *.
    assert (NoDup (l1 ++ l2) ∧ ni ∉ l1 ++ l2) as [Hnd' Hni'].
    { rewrite <- Permutation_middle in Hnd. apply NoDup_cons in Hnd. tauto. }
    assert (headSiteCacheInfo c = hd_or (l1 ++ l2) None) as Hhd'.
    { rewrite Hhd. destruct l1 as [|b l1]; [|done]. simpl in *. by rewrite Hhd in Hh. }
    rewrite Hhd'. destruct (dseg_push h2 (l1 ++ l2) ni it Hs' Hnd' Hni' H2) as [Hpush Hsame2].
    eexists _, (l1 ++ l2). split_and!; [reflexivity|split_and!; [exact Hpush|done|by constructor]|by etrans| |].
    + apply sublist_app; [done|]. by apply sublist_cons.
    + intros a. rewrite !elem_of_app, elem_of_cons. split; [|tauto]. intros Ha. split; [tauto|]. intros ->. apply Hni'. by apply elem_of_app.
  - rewrite Hit. cbn [mbind option_bind it_prev it_next at_ptr]. rewrite Hit. cbn [mbind option_bind it_prev it_next at_ptr].
    rewrite Hhd. destruct (dseg_push (heap c) l ni _ Hs Hnd Hnin Hit) as [Hpush Hsame].
    eexists _, l. split_and!; [reflexivity|split_and!; [exact Hpush|done|by constructor]|done|done|].
    intros a. split; [|tauto]. intros Ha. split; [done|]. by intros ->.
Qed.

Lemma remove_from_list c l id ni : list_ok c l -> siteCacheInfos c !! id = Some ni -> ni ∈ l ->
  ∃ h' l', let c' := mkCache h' (fresh c) (gen c) (assumedStacks c) (stackStates c) (delete id (siteCacheInfos c)) (hd_or l' None)
        (regionToSite c) (siteTreeOf c) in
    removeSiteCacheInfoFromList c id = Some c' ∧ list_ok c' l' ∧ same_infos (heap c) h' ∧ sublist l' l ∧
    forall a, a ∈ l' <-> a ∈ l ∧ a ≠ ni.
Proof.
  intros (Hs & Hhd & Hnd) Hid Hin. unfold removeSiteCacheInfoFromList. rewrite Hid.
  apply list_elem_of_split in Hin as (l1 & l2 & ->).
  destruct (dseg_lookup _ _ _ _ ni Hs) as [it Hit]; [apply elem_of_app; right; by left|].
  destruct (dseg_unlink _ _ _ _ it Hs Hnd Hit) as (Hp & Hn & H1 & H2 & Hs' & Hsame).
  rewrite Hit. bind_simpl. rewrite H1. bind_simpl. rewrite H2. bind_simpl.
  set (h2 := at_ptr (it_next it) _ _) in *. exists h2, (l1 ++ l2).
  assert (NoDup (l1 ++ l2) ∧ ni ∉ l1 ++ l2) as [Hnd' Hni'].
  { rewrite <- Permutation_middle in Hnd. apply NoDup_cons in Hnd. tauto. }
  assert ((if decide (headSiteCacheInfo c = Some ni) then it_next it else headSiteCacheInfo c) = hd_or (l1 ++ l2) None) as ->.
  { rewrite Hhd, Hn. destruct l1 as [|b l1]; simpl; [by rewrite decide_True|]. rewrite decide_False; [done|].
    intros [= ->]. apply Hni'. apply elem_of_app. left. by left. }
  split_and!; [done|done|done| |].
  - apply sublist_app; [done|]. by apply sublist_cons.
  - intros a. rewrite !elem_of_app, elem_of_cons. split; [|tauto]. intros Ha. split; [tauto|]. intros ->. apply Hni'. by apply elem_of_app.
Qed.

(** ** The invariant *)

Definition gen_at (h : hp) (a : nat) : Z := match info_at h a with Some i => GetGeneration i | None => 0 end.

(** Every site has its item in the list, generations decrease along the list and are
    bounded by the counter, and the tree holds the same sites. *)
Record cache_wf (c : schedulerCache) (l : list nat) : Prop := {
  wf_list : list_ok c l;
  wf_dom : forall a, a ∈ l <-> ∃ id, siteCacheInfos c !! id = Some a;
  wf_inj : forall id id' a, siteCacheInfos c !! id = Some a -> siteCacheInfos c !! id' = Some a -> id = id';
  wf_fresh : forall a, (fresh c <= a)%nat -> heap c !! a = None;
  wf_sorted : StronglySorted (fun a b => gen_at (heap c) b < gen_at (heap c) a) l;
  wf_gen : forall a, a ∈ l -> 0 < gen_at (heap c) a <= gen c;
  wf_site : forall id a, siteCacheInfos c !! id = Some a ->
    ∃ i s, info_at (heap c) a = Some i ∧ GetSite i = Some s ∧ SiteID s = id;
  wf_tree : tree_wf (siteTreeOf c) ∧ forall z, z ∈ zones (siteTreeOf c) <-> is_Some (siteCacheInfos c !! z);
  wf_counter : 0 <= gen c }.

Lemma StronglySorted_sublist {A} (R : A -> A -> Prop) l' l : sublist l' l -> StronglySorted R l -> StronglySorted R l'.
Proof.
  induction 1 as [|x l1 l2 Hsub IH|x l1 l2 Hsub IH]; intros Hs; [constructor| |].
  - apply StronglySorted_inv in Hs as [Hs Hx]. constructor; [by apply IH|]. rewrite Forall_forall in *.
    intros y Hy. apply Hx. by eapply elem_of_sublist.
  - apply StronglySorted_inv in Hs as [Hs _]. by apply IH.
Qed.

Lemma StronglySorted_ext {A} (R R' : A -> A -> Prop) l :
  (forall x y, x ∈ l -> y ∈ l -> R x y -> R' x y) -> StronglySorted R l -> StronglySorted R' l.
Proof.
  induction l as [|x l IH]; intros HR Hs; [constructor|]. apply StronglySorted_inv in Hs as [Hs Hx]. constructor.
  - apply IH; [|done]. intros y z Hy Hz. apply HR; by right.
  - rewrite Forall_forall in *. intros y Hy. apply HR; [by left|by right|by apply Hx].
Qed.

(** One site gets the newest generation and its item comes to the head. *)
Lemma wf_touch c l c' l' id ni i' s : cache_wf c l ->
  siteCacheInfos c !! id = Some ni ∨ (siteCacheInfos c !! id = None ∧ ni = fresh c) ->
  siteCacheInfos c' = <[id := ni]> (siteCacheInfos c) -> list_ok c' (ni :: l') ->
  sublist l' l -> (forall a, a ∈ l' <-> a ∈ l ∧ a ≠ ni) ->
  info_at (heap c') ni = Some i' -> GetGeneration i' = gen c' -> GetSite i' = Some s -> SiteID s = id ->
  (forall a, a ≠ ni -> info_at (heap c') a = info_at (heap c) a) -> gen c < gen c' ->
  (forall a, (fresh c' <= a)%nat -> heap c' !! a = None) ->
  (tree_wf (siteTreeOf c') ∧ forall z, z ∈ zones (siteTreeOf c') <-> is_Some (siteCacheInfos c' !! z)) ->
  cache_wf c' (ni :: l').
Proof.
  intros Hwf Hni Hmap Hlist Hsub Hl' Hi' Hg Hs Hsid Hother Hgen Hfresh Htree.
  assert (forall id', siteCacheInfos c !! id' = Some ni -> id' = id) as Hinj.
  { intros id' Hid'. destruct Hni as [Hni|[_ ->]]; [by eapply (wf_inj c l)|].
    destruct (wf_site c l Hwf _ _ Hid') as (i & _ & Hi & _). unfold info_at in Hi. by rewrite (wf_fresh c l Hwf) in Hi. }
  assert (forall a, a ∈ l' -> gen_at (heap c') a = gen_at (heap c) a) as Hgl.
  { intros a [_ Hne]%Hl'. unfold gen_at. by rewrite Hother. }
  assert (gen_at (heap c') ni = gen c') as Hgn by (unfold gen_at; by rewrite Hi').
  split; [done|..|done|].
  - intros a. rewrite elem_of_cons, Hl', (wf_dom c l Hwf), Hmap. split.
    + intros [->|[[id' Hid'] Hne]]; [exists id; by rewrite lookup_insert_eq|]. exists id'. rewrite lookup_insert_ne; [done|].
      intros <-. destruct Hni as [Hni|[Hni _]]; congruence.
    + intros [id' Hid']. destruct (decide (id' = id)) as [->|Hne]; [rewrite lookup_insert_eq in Hid'; left; congruence|].
      rewrite lookup_insert_ne in Hid' by done. right. split; [by exists id'|]. intros ->. by apply Hinj in Hid'.
  - intros id1 id2 a. rewrite Hmap, !lookup_insert_Some.
    intros [[<- <-]|[Hn1 H1]] [[<- Heq]|[Hn2 H2]]; [done|by apply Hinj in H2|rewrite <- Heq in H1; by apply Hinj in H1|by eapply (wf_inj c l)].
  - done.
  - constructor.
    + eapply StronglySorted_ext; [|eapply StronglySorted_sublist; [exact Hsub|apply (wf_sorted c l Hwf)]].
      intros a b Ha Hb. by rewrite (Hgl a Ha), (Hgl b Hb).
    + apply Forall_forall. intros a Ha. rewrite (Hgl a Ha), Hgn. apply Hl' in Ha as [Ha _]. apply (wf_gen c l Hwf) in Ha. lia.
  - intros a [->|Ha]%elem_of_cons; [rewrite Hgn; pose proof (wf_counter c l Hwf); lia|].
    rewrite (Hgl a Ha). apply Hl' in Ha as [Ha _]. apply (wf_gen c l Hwf) in Ha. lia.
  - intros id' a. rewrite Hmap, lookup_insert_Some. intros [[<- <-]|[Hne Ha]]; [by exists i', s|].
    rewrite Hother; [by apply (wf_site c l Hwf)|]. intros ->. by apply Hinj in Ha.
  - pose proof (wf_counter c l Hwf). lia.
Qed.

(** ** Updates *)

Lemma dseg_set_info h a it i l : forall p n, dseg h p l n -> h !! a = Some it -> dseg (<[a := set_info i it]> h) p l n.
Proof.
  induction l as [|b l IH]; intros p n Hs Ha; [done|]. destruct Hs as (it' & Hb & Hp & Hn & Hs).
  destruct (decide (a = b)) as [->|Hne].
  - exists (set_info i it). rewrite lookup_insert_eq. rewrite Ha in Hb. injection Hb as <-. split_and!; [done..|by apply IH].
  - exists it'. rewrite lookup_insert_ne by done. split_and!; [done..|by apply IH].
Qed.

Lemma info_at_set h a it i b : info_at (<[a := set_info i it]> h) b = if decide (a = b) then Some i else info_at h b.
Proof.
  unfold info_at. destruct (decide (a = b)) as [->|Hne]; [by rewrite lookup_insert_eq|by rewrite lookup_insert_ne].
Qed.

(** The information of a site. *)
Definition site_info (c : schedulerCache) (id : string) : option SiteCacheInfo := siteCacheInfos c !! id ≫= info_at (heap c).

(** What changed got a generation newer than the counter was. *)
Definition advances (c c' : schedulerCache) : Prop :=
  gen c <= gen c' ∧ forall id i, site_info c' id = Some i -> gen c < GetGeneration i ∨ site_info c id = Some i.

#[export] Instance advances_preorder : PreOrder advances.
Proof.
  split; [by intros c; split; [|right]|]. intros c1 c2 c3 [Hg1 H1] [Hg2 H2]. split; [lia|].
  intros id i Hi. destruct (H2 id i Hi) as [|Hi2]; [left; lia|]. destruct (H1 id i Hi2) as [|]; [left; lia|by right].
Qed.

(** A method that keeps the site, does not panic on an information with a site, and
    stores the generation it is given. *)
Definition keeps_site (f : SiteCacheInfo -> Z -> option SiteCacheInfo) : Prop :=
  forall i g s, GetSite i = Some s -> ∃ i' s', f i g = Some i' ∧ GetGeneration i' = g ∧ GetSite i' = Some s' ∧ SiteID s' = SiteID s.

(** A step of the cache: it does not panic, keeps the invariant, and advances. *)
Definition good_step (c : schedulerCache) (k : Z) (out : option schedulerCache) : Prop :=
  ∃ c' l', out = Some c' ∧ cache_wf c' l' ∧ advances c c' ∧ gen c' <= gen c + k ∧
    assumedStacks c' = assumedStacks c ∧ stackStates c' = stackStates c.

Lemma next_gen c : 0 <= gen c -> gen c + 1 <= MaxInt64 -> nextGeneration (gen c) = gen c + 1.
Proof. intros H0 H1. apply wrap64_id. int64. Qed.

Lemma update_then_move c l id a f : cache_wf c l -> siteCacheInfos c !! id = Some a -> keeps_site f -> gen c + 1 <= MaxInt64 ->
  good_step c 1 (update_info c a true f ≫= fun c => moveSiteCacheInfoToHead c id).
Proof.
  intros Hwf Hid Hf Hroom. destruct (wf_site c l Hwf id a Hid) as (i & s & Hi & Hs & Hsid).
  destruct (Hf i (gen c + 1) s Hs) as (i' & s' & Hfi & Hg & Hs' & Hsid').
  unfold info_at in Hi. destruct (heap c !! a) as [it|] eqn:Hit; [|done]. injection Hi as Hi.
  unfold update_info. rewrite Hit. bind_simpl. rewrite next_gen by (done || apply (wf_counter c l Hwf)). rewrite Hi, Hfi. bind_simpl.
  set (c1 := mkCache _ _ _ _ _ _ _ _ _).
  assert (list_ok c1 l) as Hl1 by (destruct (wf_list c l Hwf) as (? & ? & ?); split_and!; [by apply dseg_set_info|done|done]).
  destruct (move_to_head c1 l id a Hl1 Hid) as (h' & l' & Hm & Hlok & Hsame & Hsub & Hl').
  { left. apply (wf_dom c l Hwf). by exists id. }
  assert (forall b, info_at h' b = if decide (a = b) then Some i' else info_at (heap c) b) as Hinfo.
  { intros b. rewrite Hsame. simpl. apply info_at_set. }
  exists (set_list c1 h' (Some a)), (a :: l'). split_and!; [exact Hm| |split; simpl|simpl; lia|done|done].
  - eapply (wf_touch c l _ l' id a i' s' Hwf); simpl; [by left|by rewrite insert_id|done|done|done| |done|done|congruence| |lia| |apply (wf_tree c l Hwf)].
    + rewrite Hinfo. by rewrite decide_True.
    + intros b Hne. rewrite Hinfo. by rewrite decide_False.
    + intros b Hb. pose proof (Hinfo b) as Hib. rewrite decide_False in Hib.
      * unfold info_at in Hib. rewrite (wf_fresh c l Hwf) in Hib by done. by apply fmap_None in Hib.
      * intros ->. rewrite (wf_fresh c l Hwf) in Hit; done.
  - lia.
  - unfold site_info. simpl. intros id' j. destruct (siteCacheInfos c !! id') as [b|]; [|done]. bind_simpl. rewrite Hinfo.
    destruct (decide (a = b)); [|by right]. intros [= <-]. left. lia.
Qed.

Lemma insert_dom {A} (m : gmap string A) k v z : is_Some (<[k := v]> m !! z) <-> z = k ∨ is_Some (m !! z).
Proof.
  destruct (decide (z = k)) as [->|Hne]; [rewrite lookup_insert_eq; split; [by left|by eexists]|].
  rewrite lookup_insert_ne by done. tauto.
Qed.

(** The item of a site is there, in the list or new. *)
Definition item_ready (c : schedulerCache) (l : list nat) (id : string) (n : nat) (c0 : schedulerCache) : Prop :=
  list_ok c0 l ∧ siteCacheInfos c0 = <[id := n]> (siteCacheInfos c) ∧ siteCacheInfos c0 !! id = Some n ∧
  (siteCacheInfos c !! id = Some n ∨ (siteCacheInfos c !! id = None ∧ n = fresh c)) ∧
  (n ∈ l ∨ ((n ∉ l) ∧ ∃ i, heap c0 !! n = Some (mkItem i None None))) ∧ is_Some (heap c0 !! n) ∧
  (forall b, b ≠ n -> info_at (heap c0) b = info_at (heap c) b) ∧ gen c0 = gen c ∧
  (forall b, (fresh c0 <= b)%nat -> heap c0 !! b = None) ∧ assumedStacks c0 = assumedStacks c ∧ stackStates c0 = stackStates c.

Lemma item_of_ready c l id : cache_wf c l -> item_ready c l id (item_of c id).1 (item_of c id).2.
Proof.
  intros Hwf. unfold item_of. destruct (siteCacheInfos c !! id) as [a|] eqn:Hid.
  - assert (a ∈ l) as Ha by (apply (wf_dom c l Hwf); by exists id).
    split_and!; simpl; try done; [apply (wf_list c l Hwf)|by rewrite insert_id|by left|by left| |apply (wf_fresh c l Hwf)].
    destruct (wf_list c l Hwf) as (Hs & _). by eapply dseg_lookup.
  - assert (fresh c ∉ l) as Hnl.
    { intros [id' Hid']%(wf_dom c l Hwf). destruct (wf_site c l Hwf _ _ Hid') as (i & _ & Hi & _).
      unfold info_at in Hi. by rewrite (wf_fresh c l Hwf) in Hi. }
    assert (forall b, b ≠ fresh c -> <[fresh c := mkItem NewSiteCacheInfo None None]> (heap c) !! b = heap c !! b) as Hne.
    { intros b Hb. by apply lookup_insert_ne. }
    split_and!; simpl; try done.
    + destruct (wf_list c l Hwf) as (Hs & Hh & Hnd). split_and!; [|done|done]. eapply dseg_frame; [|exact Hs].
      intros b Hb. apply Hne. by intros ->.
    + by rewrite lookup_insert_eq.
    + by right.
    + right. split; [done|]. exists NewSiteCacheInfo. by rewrite lookup_insert_eq.
    + by rewrite lookup_insert_eq.
    + intros b Hb. unfold info_at. by rewrite Hne.
    + intros b Hb. rewrite Hne by lia. apply (wf_fresh c l Hwf). lia.
Qed.

(** The item is moved to the head and then gets its new information. *)
Lemma move_then_update c l id n c0 t' r' f s : cache_wf c l -> item_ready c l id n c0 -> gen c + 1 <= MaxInt64 ->
  (forall i g, ∃ i', f i g = Some i' ∧ GetGeneration i' = g ∧ GetSite i' = Some s) -> SiteID s = id ->
  tree_wf t' -> (forall z, z ∈ zones t' <-> is_Some (<[id := n]> (siteCacheInfos c) !! z)) ->
  good_step c 1 (moveSiteCacheInfoToHead c0 id ≫= fun c1 => update_info (set_regions (set_tree c1 t') r') n true f).
Proof.
  intros Hwf (Hl0 & Hmap & Hid & Hold & Hin & [it0 Hit0] & Hother & Hgen & Hfresh & Has & Hst) Hroom Hf Hsid Ht Hz.
  destruct (move_to_head c0 l id n Hl0 Hid Hin) as (h' & l' & -> & Hlok & Hsame & Hsub & Hl'). bind_simpl.
  assert (is_Some (h' !! n)) as [it Hit].
  { pose proof (Hsame n) as Hn. unfold info_at in Hn. rewrite Hit0 in Hn. destruct (h' !! n); [done|discriminate Hn]. }
  unfold update_info. simpl. rewrite Hit. bind_simpl. rewrite Hgen, next_gen by (done || apply (wf_counter c l Hwf)).
  destruct (Hf (info it) (gen c + 1)) as (i' & -> & Hg & Hs). bind_simpl.
  assert (forall b, info_at (<[n := set_info i' it]> h') b = if decide (n = b) then Some i' else info_at (heap c0) b) as Hinfo.
  { intros b. rewrite info_at_set. by rewrite Hsame. }
  eexists _, (n :: l'). split_and!; [reflexivity| |split; simpl|simpl; lia|done|done].
  - eapply (wf_touch c l _ l' id n i' s Hwf); simpl; [done|done| |done|done| |done|done|done| |lia| |by rewrite Hmap].
    + destruct Hlok as (Hs1 & Hh1 & Hnd1). split_and!; [|done|done]. by apply (dseg_set_info h' n it i' (n :: l')).
    + rewrite Hinfo. by rewrite decide_True.
    + intros b Hne. rewrite Hinfo, decide_False by done. by apply Hother.
    + intros b Hb. pose proof (Hinfo b) as Hib. rewrite decide_False in Hib.
      * unfold info_at in Hib. rewrite Hfresh in Hib by done. by apply fmap_None in Hib.
      * intros ->. rewrite Hfresh in Hit0; done.
  - lia.
  - unfold site_info. simpl. rewrite Hmap. intros id' j. destruct (<[id := n]> (siteCacheInfos c) !! id') as [b|] eqn:Hb; [|done].
    bind_simpl. rewrite Hinfo. destruct (decide (n = b)) as [<-|Hnb]; [intros [= <-]; left; lia|].
    apply lookup_insert_Some in Hb as [[_ ->]|[_ Hb]]; [done|]. rewrite Hb. bind_simpl. rewrite Hother by done. by right.
Qed.

Lemma SetSite_total flavors i site g : ∃ i', SetSite flavors i site g = Some i' ∧ GetGeneration i' = g ∧ GetSite i' = Some site.
Proof.
  unfold SetSite. destruct (foldl add_host (∅, ∅) (Hosts site)) as [req tot].
  unfold updateFlavor, getSupportFlavorsBySite. destruct flavors; simpl; by eexists.
Qed.

Lemma AddSite_good flavors c l site : cache_wf c l -> gen c + 1 <= MaxInt64 -> good_step c 1 (AddSite flavors c site).
Proof.
  intros Hwf Hroom. pose proof (item_of_ready c l (SiteID site) Hwf) as Hready. unfold AddSite.
  destruct (item_of c (SiteID site)) as [n c0] eqn:Hio. simpl in Hready.
  assert (siteTreeOf c0 = siteTreeOf c ∧ regionToSite c0 = regionToSite c) as [Ht Hr].
  { unfold item_of in Hio. destruct (siteCacheInfos c !! SiteID site); by injection Hio as _ <-. }
  destruct (addSite_spec (siteTreeOf c) site (proj1 (wf_tree c l Hwf))) as [Htw Hz].
  pose proof (move_then_update c l (SiteID site) n c0 (addSite (siteTreeOf c) site)
    (regionToSite (updateRegionToSite c site)) (fun i g => SetSite flavors i site g) site Hwf Hready Hroom) as H.
  destruct Hready as (Hl0 & Hmap & Hid & _ & Hin & _).
  destruct (move_to_head c0 l (SiteID site) n Hl0 Hid Hin) as (h' & l' & Hm & _). rewrite Hm in *.
  bind_simpl in *. replace (updateRegionToSite _ site) with
    (set_regions (set_tree (set_list c0 h' (Some n)) (addSite (siteTreeOf c) site)) (regionToSite (updateRegionToSite c site))).
  - apply H; [intros i g; apply SetSite_total|done|done|]. intros z. by rewrite Hz, (proj2 (wf_tree c l Hwf) z), insert_dom.
  - unfold updateRegionToSite. simpl. by rewrite Ht, Hr.
Qed.

Lemma UpdateSite_good flavors c l old new : cache_wf c l -> gen c + 1 <= MaxInt64 -> SiteID old = SiteID new ->
  good_step c 1 (UpdateSite flavors c old new).
Proof.
  intros Hwf Hroom Hsame. pose proof (item_of_ready c l (SiteID new) Hwf) as Hready. unfold UpdateSite.
  set (t' := match siteCacheInfos c !! SiteID new with Some _ => siteTreeOf c | None => addSite (siteTreeOf c) new end).
  set (r' := regionToSite (updateRegionToSite (deleteRegionToSite c old) new)).
  assert (tree_wf t' ∧ forall z n, z ∈ zones t' <-> is_Some (<[SiteID new := n]> (siteCacheInfos c) !! z)) as [Htw Hz].
  { destruct (wf_tree c l Hwf) as [Htw Hz]. destruct (addSite_spec (siteTreeOf c) new Htw) as [Htw' Hz'].
    unfold t'. destruct (siteCacheInfos c !! SiteID new) as [a|] eqn:Hnew; (split; [done|]); intros z n.
    - rewrite Hz, insert_dom. split; [tauto|]. intros [->|]; [by rewrite Hnew|done].
    - by rewrite Hz', Hz, insert_dom. }
  assert (exists n c0, item_of c (SiteID new) = (n, c0) ∧ regionToSite c0 = regionToSite c ∧
    match siteCacheInfos c !! SiteID new with
    | Some a => (a, c) | None => let '(a, c) := new_item c (SiteID new) in (a, set_tree c (addSite (siteTreeOf c) new)) end = (n, set_tree c0 t'))
    as (n & c0 & Hio & Hr & ->).
  { unfold item_of, t'. destruct (siteCacheInfos c !! SiteID new); [by exists n, c; destruct c|]. eexists _, _. by split_and!. }
  rewrite Hio in Hready. simpl in Hready.
  assert (item_ready c l (SiteID new) n (set_tree c0 t')) as Hready' by exact Hready.
  pose proof (move_then_update c l (SiteID new) n (set_tree c0 t') t' r' (fun i g => SetSite flavors i new g) new Hwf Hready' Hroom) as H.
  destruct Hready' as (Hl0 & Hmap & Hid & _ & Hin & _).
  destruct (move_to_head (set_tree c0 t') l (SiteID new) n Hl0 Hid Hin) as (h' & l' & Hm & _). rewrite Hm in *.
  bind_simpl in *. replace (updateRegionToSite _ new) with
    (set_regions (set_tree (set_list (set_tree c0 t') h' (Some n)) t') r').
  - apply H; [intros i g; apply SetSite_total|done|done|]. intros z. apply Hz.
  - unfold r', updateRegionToSite, deleteRegionToSite, updateSite, GetZoneKey. rewrite Hsame, String.eqb_refl. simpl. rewrite Hr.
    destruct (regionToSite c !! RA_Region (Site_RegionAzMap old)); [done|]. simpl. by rewrite Hr.
Qed.

Lemma RemoveSite_good c l site : cache_wf c l -> ∃ r, good_step c 0 (fst <$> RemoveSite c site) ∧ snd <$> RemoveSite c site = Some r.
Proof.
  intros Hwf. unfold RemoveSite. destruct (siteCacheInfos c !! SiteID site) as [a|] eqn:Hid.
  2: { eexists. split; [|reflexivity]. exists c, l. split_and!; [done|done|done|lia|done|done]. }
  destruct (remove_from_list c l (SiteID site) a (wf_list c l Hwf) Hid) as (h' & l' & Hrm & Hlok & Hsame & Hsub & Hl').
  { apply (wf_dom c l Hwf). by exists (SiteID site). }
  rewrite Hrm. bind_simpl.
  destruct (removeSite_spec (siteTreeOf c) site (proj1 (wf_tree c l Hwf))) as (Htw & Hz & Hres). cbn [siteTreeOf].
  destruct (removeSite (siteTreeOf c) site) as [t r] eqn:Hrt. simpl in Htw, Hz, Hres.
  assert (r = Ok tt) as -> by (apply Hres, (proj2 (wf_tree c l Hwf)); by eexists).
  eexists. split; [|reflexivity]. simpl. eexists _, l'. split; [reflexivity|].
  assert (forall b, b ∈ l' -> gen_at h' b = gen_at (heap c) b) as Hg by (intros b Hb; unfold gen_at; by rewrite Hsame).
  set (c' := deleteRegionToSite _ site).
  assert (heap c' = h' ∧ fresh c' = fresh c ∧ gen c' = gen c ∧ siteCacheInfos c' = delete (SiteID site) (siteCacheInfos c) ∧
    headSiteCacheInfo c' = hd_or l' None ∧ siteTreeOf c' = t ∧ assumedStacks c' = assumedStacks c ∧ stackStates c' = stackStates c)
    as (E1 & E2 & E3 & E4 & E5 & E6 & E7 & E8).
  { unfold c', deleteRegionToSite. simpl. by destruct (regionToSite c !! _). }
  split_and!; [split; rewrite ?E1, ?E2, ?E3, ?E4, ?E6|split; rewrite ?E3; [lia|]|lia|done|done].
  - destruct Hlok as (Hs & _ & Hnd). unfold list_ok. rewrite E1, E5. by split_and!.
  - intros b. rewrite Hl', (wf_dom c l Hwf). split.
    + intros [[id Hb] Hne]. exists id. rewrite lookup_delete_ne; [done|]. intros <-. congruence.
    + intros [id [Hne Hb]%lookup_delete_Some]. split; [by exists id|]. intros ->. apply Hne. by eapply (wf_inj c l Hwf).
  - intros id id' b [_ H1]%lookup_delete_Some [_ H2]%lookup_delete_Some. by eapply (wf_inj c l Hwf).
  - intros b Hb. pose proof (Hsame b) as Hib. unfold info_at in Hib. rewrite (wf_fresh c l Hwf b Hb) in Hib. by apply fmap_None in Hib.
  - eapply StronglySorted_ext; [|eapply StronglySorted_sublist; [exact Hsub|apply (wf_sorted c l Hwf)]].
    intros x y Hx Hy. by rewrite (Hg x Hx), (Hg y Hy).
  - intros b Hb. rewrite (Hg b Hb). apply (wf_gen c l Hwf). by apply Hl' in Hb as [? _].
  - intros id b [_ Hb]%lookup_delete_Some. rewrite Hsame. by apply (wf_site c l Hwf).
  - split; [done|]. intros z. rewrite Hz, (proj2 (wf_tree c l Hwf)). destruct (decide (z = SiteID site)) as [->|Hne].
    + rewrite lookup_delete_eq. split; [tauto|by intros []].
    + rewrite lookup_delete_ne by done. tauto.
  - apply (wf_counter c l Hwf).
  - unfold site_info. rewrite E4, E1. intros id i. destruct (delete (SiteID site) (siteCacheInfos c) !! id) as [b|] eqn:Hb; [|done].
    apply lookup_delete_Some in Hb as [_ ->]. bind_simpl. rewrite Hsame. by right.
Qed.

(** ** Methods of the informations *)

Lemma updateFlavor_total flavors n s : SCI_Site n = Some s ->
  ∃ n', updateFlavor flavors n = Some n' ∧ SCI_Site n' = Some s.
Proof.
  intros Hs. unfold updateFlavor, getSupportFlavorsBySite, GetSite. rewrite Hs. destruct flavors; simpl; by eexists.
Qed.

Lemma keeps_AddStack stack : keeps_site (fun i g => Some (AddStack i stack g)).
Proof. intros i g s Hs. by eexists _, s. Qed.
Lemma keeps_Eip pool : keeps_site (fun i g => Some (UpdateSiteWithEipPool i pool g)).
Proof. intros i g s Hs. by eexists _, s. Qed.
Lemma keeps_Spot spotRes : keeps_site (fun i g => Some (UpdateSpotResources i spotRes g)).
Proof. intros i g s Hs. by eexists _, s. Qed.
Lemma keeps_Volume pool : keeps_site (fun i g => UpdateSiteWithVolumePool i pool g).
Proof.
  intros i g s Hs. unfold UpdateSiteWithVolumePool. rewrite Hs. destruct (StoragePools pool) as [|p ps]; simpl; [by eexists _, s|].
  destruct (foldl _ _ ps) as [x y]. by eexists _, s.
Qed.
Lemma keeps_Res flavors res : keeps_site (fun i g => UpdateSiteWithResInfo flavors i res g).
Proof.
  intros i g s Hs. unfold UpdateSiteWithResInfo.
  match goal with |- context[updateFlavor flavors ?n] => destruct (updateFlavor_total flavors n s Hs) as (n' & Hn & Hs') end.
  rewrite Hn. by eexists _, s.
Qed.
Lemma keeps_Ratio store flavors range ratios : keeps_site (fun i g => UpdateSiteWithRatio store flavors range i ratios g).
Proof.
  intros i g s Hs. unfold UpdateSiteWithRatio. rewrite Hs.
  assert (forall l n, SCI_Site n = Some s -> SCI_Site (foldl (fun n (kv : string * AllocationRatio) => apply_ratio n kv.1 kv.2) n l) = Some s) as Hfold.
  { induction l as [|[k v] l IH]; intros n Hn; [done|]. simpl. apply IH. unfold apply_ratio. by repeat case_match. }
  destruct ratios as [|r rs]; bind_simpl;
    match goal with |- context[updateFlavor flavors ?n] => destruct (updateFlavor_total flavors n s) as (n' & Hn & Hs') end;
    try (by apply Hfold); rewrite Hn; by eexists _, s.
Qed.
Create HintDb keeps discriminated.
#[export] Hint Resolve keeps_AddStack keeps_Eip keeps_Spot keeps_Volume keeps_Res keeps_Ratio : keeps.

(** ** Operations *)

Lemma good_refl c l k : cache_wf c l -> 0 <= k -> good_step c k (Some c).
Proof. intros Hwf Hk. exists c, l. split_and!; [done|done|done|lia|done|done]. Qed.

Lemma update_site_good c l id f : cache_wf c l -> keeps_site f -> gen c + 1 <= MaxInt64 ->
  ∃ r, good_step c 1 (fst <$> update_site c id true f) ∧ snd <$> update_site c id true f = Some r.
Proof.
  intros Hwf Hf Hroom. unfold update_site. destruct (siteCacheInfos c !! id) as [a|] eqn:Hid.
  - pose proof (update_then_move c l id a f Hwf Hid Hf Hroom) as (c' & l' & Hout & Hrest).
    destruct (update_info c a true f) as [c1|]; [|done]. bind_simpl in *. rewrite Hout. bind_simpl.
    eexists. split; [|reflexivity]. by exists c', l'.
  - eexists. split; [|reflexivity]. by eapply good_refl.
Qed.

Lemma update_region_good (F : schedulerCache -> string -> option (schedulerCache * result unit)) ids :
  (forall c l id, cache_wf c l -> gen c + 1 <= MaxInt64 -> ∃ r, good_step c 1 (fst <$> F c id) ∧ snd <$> F c id = Some r) ->
  forall c l, cache_wf c l -> gen c + Z.of_nat (length ids) <= MaxInt64 -> good_step c (Z.of_nat (length ids)) (update_region F c ids).
Proof.
  intros HF. unfold update_region. induction ids as [|id ids IH]; intros c l Hwf Hroom; cbn [length] in *; [by eapply good_refl|]. simpl.
  destruct (HF c l id Hwf ltac:(lia)) as (r & (c1 & l1 & H1 & Hwf1 & Hadv1 & Hg1 & Ha1 & Hs1) & _).
  destruct (F c id) as [[c1' r']|]; [|done]. injection H1 as ->. bind_simpl.
  destruct (IH c1 l1 Hwf1 ltac:(lia)) as (c2 & l2 & H2 & Hwf2 & Hadv2 & Hg2 & Ha2 & Hs2).
  exists c2, l2. split_and!; [done|done|by etrans|lia|congruence|congruence].
Qed.

(** Every site information has a site, so that the search for a zone does not panic. *)
Lemma find_zone_total c l region az ids : cache_wf c l -> (forall id a, (id, a) ∈ ids -> siteCacheInfos c !! id = Some a) ->
  ∃ r, find_zone c region az ids = Some r ∧ match r with Some (id, a) => siteCacheInfos c !! id = Some a | None => True end.
Proof.
  intros Hwf. induction ids as [|[id a] ids IH]; intros Hids; [by exists None|]. simpl.
  destruct (wf_site c l Hwf id a) as (i & s & Hi & Hs & Hsid); [apply Hids; by left|].
  unfold info_at in Hi. destruct (heap c !! a) as [it|]; [|done]. injection Hi as Hi. bind_simpl. rewrite Hi, Hs. bind_simpl.
  destruct (_ && _); [|apply IH; intros; apply Hids; by right]. exists (Some (SiteID s, a)). split; [done|]. rewrite Hsid. apply Hids. by left.
Qed.

Lemma update_zone_good range c l region az f : (forall m, range m ≡ₚ map_to_list m) -> cache_wf c l -> keeps_site f -> gen c + 1 <= MaxInt64 ->
  good_step c 1 (update_zone range c region az f).
Proof.
  intros Hrange Hwf Hf Hroom. unfold update_zone.
  destruct (find_zone_total c l region az (range (siteCacheInfos c)) Hwf) as (r & -> & Hr).
  { intros id a Hin. rewrite Hrange in Hin. by apply elem_of_map_to_list. }
  bind_simpl. destruct r as [[id a]|]; [by eapply update_then_move|by eapply good_refl].
Qed.

Lemma add_stack_good c l stack : cache_wf c l -> is_Some (siteCacheInfos c !! Selected_SiteID (Stack_Selected stack)) ->
  gen c + 1 <= MaxInt64 -> good_step c 1 (add_stack c stack).
Proof.
  intros Hwf [a Ha] Hroom. unfold add_stack, item_of. rewrite Ha. eapply update_then_move; eauto with keeps.
Qed.

Lemma wf_set_stacks c l A S : cache_wf c l -> cache_wf (set_stacks c A S) l.
Proof. intros [H1 H2 H3 H4 H5 H6 H7 H8 H9]. by split. Qed.

(** ** The walk of the snapshot *)

(** Entries of different sites are different, and every entry exists. *)
Definition snap_struct (s : Snapshot) : Prop :=
  (forall id id' e, SiteCacheInfoMap s !! id = Some e -> SiteCacheInfoMap s !! id' = Some e -> id = id') ∧
  (forall id e, SiteCacheInfoMap s !! id = Some e -> (e < snap_fresh s)%nat ∧ is_Some (entries s !! e)).

(** The entry of a site. *)
Definition entry (s : Snapshot) (id : string) : option SiteCacheInfo := SiteCacheInfoMap s !! id ≫= fun e => entries s !! e.

(** What a copy changes: the entry of its site. *)
Lemma copy_entry_spec s i site all : snap_struct s -> GetSite i = Some site ->
  ∃ s' all', copy_entry s i all = Some (s', all') ∧ snap_struct s' ∧ entry s' (SiteID site) = Clone i ∧
    (forall id, id ≠ SiteID site -> entry s' id = entry s id) ∧
    (forall id, is_Some (SiteCacheInfoMap s' !! id) <-> id = SiteID site ∨ is_Some (SiteCacheInfoMap s !! id)) ∧
    SiteCacheInfoList s' = SiteCacheInfoList s ∧ snap_generation s' = snap_generation s ∧
    (all' = false -> all = false ∧ SiteCacheInfoMap s' = SiteCacheInfoMap s).
Proof.
  intros [Hinj Hex] Hs. unfold copy_entry. rewrite Hs. destruct (Clone i) as [cl|] eqn:Hcl; [|unfold Clone, GetSite in *; by rewrite Hs in Hcl].
  bind_simpl. unfold entry.
  destruct (SiteCacheInfoMap s !! SiteID site) as [e|] eqn:He.
  - eexists _, _. split; [reflexivity|]. split_and!; simpl; [|rewrite He; simpl; by rewrite lookup_insert_eq| | |done|done|done].
    + split; simpl; [done|]. intros id e' He'. destruct (Hex id e' He') as [? ?]. split; [done|].
      destruct (decide (e = e')) as [<-|]; [by rewrite lookup_insert_eq|by rewrite lookup_insert_ne].
    + intros id Hne. destruct (SiteCacheInfoMap s !! id) as [e'|] eqn:He'; [|done]. simpl. rewrite lookup_insert_ne; [done|].
      intros <-. apply Hne. by eapply Hinj.
    + intros id. split; [tauto|]. intros [->|]; [by rewrite He|done].
  - eexists _, _. split; [reflexivity|]. split_and!; simpl; [|rewrite lookup_insert_eq; simpl; by rewrite lookup_insert_eq| | |done|done|done].
    + split; simpl.
      * intros id id' e'. rewrite !lookup_insert_Some. intros [[<- <-]|[Hn1 H1]] [[<- Heq]|[Hn2 H2]]; [done| | |by eapply Hinj].
        -- apply Hex in H2 as [? _]. lia.
        -- apply Hex in H1 as [? _]. lia.
      * intros id e'. rewrite lookup_insert_Some. intros [[<- <-]|[_ He']]; [split; [lia|by rewrite lookup_insert_eq]|].
        destruct (Hex id e' He') as [? ?]. split; [lia|]. rewrite lookup_insert_ne by lia. done.
    + intros id Hne. rewrite lookup_insert_ne by done. destruct (SiteCacheInfoMap s !! id) as [e'|] eqn:He'; [|done]. simpl.
      rewrite lookup_insert_ne; [done|]. apply Hex in He' as [? _]. lia.
    + intros id. apply insert_dom.
Qed.

(** The sites of a list of items. *)
Definition sites_of (c : schedulerCache) (l : list nat) (id : string) : Prop := ∃ a, a ∈ l ∧ siteCacheInfos c !! id = Some a.

Lemma copy_walk_spec c l0 G : cache_wf c l0 -> forall l p fuel s all, dseg (heap c) p l None -> (forall a, a ∈ l -> a ∈ l0) ->
  StronglySorted (fun a b => gen_at (heap c) b < gen_at (heap c) a) l -> (length l <= fuel)%nat -> snap_struct s ->
  ∃ s' all', copy_walk fuel c (hd_or l None) G s all = Some (s', all') ∧ snap_struct s' ∧
    (forall id i, sites_of c l id -> site_info c id = Some i -> G < GetGeneration i -> entry s' id = Clone i) ∧
    (forall id, (forall i, sites_of c l id -> site_info c id = Some i -> GetGeneration i <= G) -> entry s' id = entry s id) ∧
    (forall id, is_Some (SiteCacheInfoMap s !! id) -> is_Some (SiteCacheInfoMap s' !! id)) ∧
    (forall id, is_Some (SiteCacheInfoMap s' !! id) -> is_Some (SiteCacheInfoMap s !! id) ∨ is_Some (siteCacheInfos c !! id)) ∧
    SiteCacheInfoList s' = SiteCacheInfoList s ∧ snap_generation s' = snap_generation s ∧
    (all' = false -> all = false ∧ SiteCacheInfoMap s' = SiteCacheInfoMap s).
Proof.
  intros Hwf. induction l as [|a l IH]; intros p fuel s all Hs Hl Hsort Hfuel Hst.
  { exists s, all. split; [by destruct fuel|]. split_and!; try done; [|tauto]. intros id i (a & []%elem_of_nil & _). }
  destruct fuel as [|fuel]; [simpl in Hfuel; lia|]. simpl. destruct Hs as (it & Ha & _ & Hn & Hs). rewrite Ha. bind_simpl.
  assert (a ∈ l0) as [id0 Hid0]%(wf_dom c l0 Hwf) by (apply Hl; by left).
  destruct (wf_site c l0 Hwf id0 a Hid0) as (i0 & site & Hi0 & Hsite & Hsid).
  assert (info it = i0) as Hit by (unfold info_at in Hi0; rewrite Ha in Hi0; by injection Hi0). rewrite Hit.
  assert (site_info c id0 = Some i0) as Hsi0 by (unfold site_info; rewrite Hid0; done).
  assert (gen_at (heap c) a = GetGeneration i0) as Hga by (unfold gen_at; by rewrite Hi0).
  apply StronglySorted_inv in Hsort as [Hsort Hhead]. rewrite Forall_forall in Hhead.
  assert (forall id i b, b ∈ l -> siteCacheInfos c !! id = Some b -> site_info c id = Some i -> GetGeneration i < GetGeneration i0) as Hlater.
  { intros id i b Hb Hid Hi. specialize (Hhead b Hb). unfold site_info in Hi. rewrite Hid in Hi. bind_simpl in Hi.
    unfold gen_at in Hhead at 1. rewrite Hi in Hhead. lia. }
  destruct (Z.leb_spec (GetGeneration i0) G) as [Hle|Hgt].
  { (* the walk stops: nothing further on is newer *)
    exists s, all. assert (forall id i, sites_of c (a :: l) id -> site_info c id = Some i -> GetGeneration i <= G) as Hold.
    { intros id i (b & [->|Hb]%elem_of_cons & Hid) Hi; [assert (id = id0) as -> by (by eapply (wf_inj c l0 Hwf)); congruence|].
      pose proof (Hlater id i b Hb Hid Hi). lia. }
    split_and!; try done; [|tauto]. intros id i Hso Hi Hg. pose proof (Hold id i Hso Hi). lia. }
  destruct (copy_entry_spec s i0 site all Hst Hsite) as (s1 & all1 & -> & Hst1 & He1 & Ho1 & Hm1 & Hl1 & Hg1 & Ha1). bind_simpl.
  rewrite Hn. destruct (IH (Some a) fuel s1 all1) as (s' & all' & Hw & Hst' & Hnew & Hsame & Hm2 & Hm3 & Hl2 & Hg2 & Ha2);
    [done|intros b Hb; apply Hl; by right|done|simpl in Hfuel; lia|done|].
  rewrite Hsid in He1, Ho1, Hm1.
  assert (a ∉ l) as Hna.
  { intros Hin. specialize (Hhead a Hin). lia. }
  exists s', all'. split; [exact Hw|]. split_and!; [done| | | | |congruence|congruence|].
  - intros id i (b & [->|Hb]%elem_of_cons & Hid) Hi Hg; [|apply Hnew; [by exists b|done|done]].
    assert (id = id0) as -> by (by eapply (wf_inj c l0 Hwf)). rewrite Hsi0 in Hi. injection Hi as <-. rewrite Hsame; [done|].
    intros i (b & Hb & Hidb) Hi. congruence.
  - intros id Hold. assert (id ≠ id0) as Hne.
    { intros ->. assert (GetGeneration i0 <= G) by (apply (Hold i0); [exists a; split; [by left|done]|done]). lia. }
    rewrite Hsame; [by apply Ho1|]. intros i (b & Hb & Hid) Hi. apply Hold; [|done]. exists b. split; [by right|done].
  - intros id Hid. apply Hm2, Hm1. by right.
  - intros id [[->|Hid]%Hm1|?]%Hm3; [right; by rewrite Hid0|by left|by right].
  - intros Hf. destruct (Ha2 Hf) as [Hf1 Heq]. destruct (Ha1 Hf1) as [Hf0 Heq0]. split; [done|congruence].
Qed.

(** ** Removed sites and the list *)

(** The names of a list that the cache does not know. *)
Definition missing (c : schedulerCache) (names : list string) : list string :=
  filter (fun name => siteCacheInfos c !! name = None) names.

Lemma remove_deleted_spec c names : forall n m, Z.of_nat (length (missing c names)) <= n ->
  forall id, remove_deleted c n names m !! id = if decide (id ∈ missing c names) then None else m !! id.
Proof.
  unfold missing. induction names as [|name names IH]; intros n m Hn id; cbn [remove_deleted].
  { rewrite filter_nil. by rewrite decide_False by apply not_elem_of_nil. }
  destruct (siteCacheInfos c !! name) as [a|] eqn:Hname.
  - rewrite filter_cons_False in * by congruence. destruct (Z.leb_spec n 0) as [Hz|Hpos]; [|by apply IH].
    rewrite decide_False; [done|]. destruct (filter _ names) as [|x l]; [apply not_elem_of_nil|simpl in Hn; lia].
  - rewrite filter_cons_True in * by done. cbn [length] in Hn. destruct (Z.leb_spec n 0); [lia|].
    rewrite IH by lia. repeat case_decide; rewrite ?elem_of_cons in *; try done; try tauto.
    + destruct (decide (id = name)) as [->|]; [apply lookup_delete_eq|tauto].
    + rewrite lookup_delete_ne; [done|]. intros <-. tauto.
Qed.

(** When the snapshot has all sites of the cache, the number of sites to delete is the
    number of those that the cache does not know. *)
Lemma missing_length (c : schedulerCache) (m : gmap string nat) names : names ≡ₚ (map_to_list m).*1 ->
  (forall id, is_Some (siteCacheInfos c !! id) -> is_Some (m !! id)) ->
  (length (missing c names) + size (siteCacheInfos c) = size m)%nat.
Proof.
  intros Hnames Hsub. assert (dom (siteCacheInfos c) ⊆ dom m) as Hd by (intros id; rewrite !elem_of_dom; apply Hsub).
  assert (NoDup (missing c names)) as Hnd by (apply NoDup_filter; rewrite Hnames; apply NoDup_fst_map_to_list).
  assert (list_to_set (missing c names) = dom m ∖ dom (siteCacheInfos c)) as Hset.
  { apply set_eq. intros id. unfold missing.
    rewrite elem_of_list_to_set, list_elem_of_filter, Hnames, elem_of_difference, !elem_of_dom. split.
    - intros [Hn ([k v] & -> & Hkv)%list_elem_of_fmap]. apply elem_of_map_to_list in Hkv. simpl in *. rewrite Hn, Hkv. split; [done|by intros []].
    - intros [[v Hv] Hn]. split; [by apply eq_None_not_Some|]. apply list_elem_of_fmap. exists (id, v). split; [done|by apply elem_of_map_to_list]. }
  rewrite <- (size_list_to_set (C := gset string) (missing c names) Hnd), Hset, <- !size_dom.
  pose proof (size_difference (dom m) (dom (siteCacheInfos c)) Hd). pose proof (subseteq_size _ _ Hd). lia.
Qed.

(** A map whose entries are distinct, listed by distinct keys that include all of its keys. *)
Lemma omap_lookup_complete (m : gmap string nat) ids : NoDup ids ->
  (forall id id' e, m !! id = Some e -> m !! id' = Some e -> id = id') -> (forall id, id ∈ ids <-> is_Some (m !! id)) ->
  let l := omap (fun id => m !! id) ids in
  NoDup l ∧ length l = length ids ∧ forall e, e ∈ l <-> ∃ id, m !! id = Some e.
Proof.
  intros Hnd Hinj Hids l. assert (forall e, e ∈ l <-> ∃ id, m !! id = Some e) as Hel.
  { intros e. unfold l. rewrite list_elem_of_omap. split; [intros (id & _ & ?); by exists id|]. intros [id He]. exists id. split; [apply Hids; by eexists|done]. }
  assert (forall ids', (forall id, id ∈ ids' -> is_Some (m !! id)) -> NoDup ids' ->
    NoDup (omap (fun id => m !! id) ids') ∧ length (omap (fun id => m !! id) ids') = length ids') as H.
  { clear l Hel. induction ids' as [|id ids' IH]; intros Hin Hnd'; [by split; [constructor|]|]. csimpl.
    apply NoDup_cons in Hnd' as [Hni Hnd']. destruct (Hin id) as [e He]; [by left|]. rewrite He.
    destruct (IH ltac:(intros; apply Hin; by right) Hnd') as [IH1 IH2]. split; [|by simpl; rewrite IH2].
    constructor; [|done]. intros (id' & Hid' & He')%list_elem_of_omap. apply Hni. by rewrite (Hinj id id' e He He'). }
  destruct (H ids) as [H1 H2]; [intros id; by rewrite Hids|done|]. by split_and!.
Qed.

(** The snapshot list holds the entries of the map, each once. *)
Definition list_complete (s : Snapshot) : Prop :=
  NoDup (SiteCacheInfoList s) ∧ forall e, e ∈ SiteCacheInfoList s <-> ∃ id, SiteCacheInfoMap s !! id = Some e.

(** A snapshot of an earlier state of the cache. *)
Record snap_ok (c : schedulerCache) (s : Snapshot) : Prop := {
  so_struct : snap_struct s;
  so_current : forall id i, site_info c id = Some i -> GetGeneration i <= snap_generation s -> entry s id = Clone i;
  so_generation : snap_generation s <= gen c;
  so_list : list_complete s }.

(** Advancing the cache keeps an earlier snapshot an earlier snapshot. *)
Lemma snap_ok_advances c c' s : snap_ok c s -> advances c c' -> snap_ok c' s.
Proof.
  intros [H1 H2 H3 H4] [Hg Ha]. split; [done| |lia|done]. intros id i Hi Hle. destruct (Ha id i Hi) as [|Hi']; [lia|by apply H2].
Qed.

(** A full copy of the cache: every site with its information, and nothing else, and the
    list has each entry once. *)
Definition full_copy (c : schedulerCache) (s : Snapshot) : Prop :=
  (forall id, entry s id = site_info c id ≫= Clone) ∧
  (forall id, is_Some (SiteCacheInfoMap s !! id) <-> is_Some (siteCacheInfos c !! id)) ∧ list_complete s.

Lemma rebuild_list c l s : cache_wf c l -> snap_struct s ->
  (forall id, is_Some (SiteCacheInfoMap s !! id) <-> is_Some (siteCacheInfos c !! id)) ->
  ∃ t l', updateSiteCacheInfoSnapshotList c s = Some (set_tree c t, set_snap_list s l') ∧ cache_wf (set_tree c t) l ∧
    list_complete (set_snap_list s l') ∧ Z.of_nat (length l') = numSites t.
Proof.
  intros Hwf [Hinj _] Hdom. destruct (wf_tree c l Hwf) as [Ht Hz].
  destruct (round_spec (siteTreeOf c) Ht) as (ids & t & Hn & Hp & Htw & Hzs). unfold updateSiteCacheInfoSnapshotList. rewrite Hn. bind_simpl.
  assert (NoDup ids) as Hnd by (rewrite Hp; apply Ht).
  destruct (omap_lookup_complete (SiteCacheInfoMap s) ids Hnd Hinj) as (H1 & H2 & H3).
  { intros id. by rewrite Hp, Hz, Hdom. }
  eexists t, _. split; [done|]. split_and!; [|by split|].
  - destruct Hwf as [W1 W2 W3 W4 W5 W6 W7 W8 W9]. split; try done. simpl. rewrite Hzs. by split.
  - rewrite H2. destruct Htw as (_ & -> & _). rewrite Hzs. by rewrite (Permutation_length Hp).
Qed.

(** ** The snapshot is a copy *)

Lemma list_length_heap c l : cache_wf c l -> (length l <= size (heap c))%nat.
Proof.
  intros Hwf. destruct (wf_list c l Hwf) as (Hs & _ & Hnd). rewrite <- size_dom, <- (size_list_to_set (C := gset nat) l Hnd).
  apply subseteq_size. intros a Ha%elem_of_list_to_set. apply elem_of_dom. by eapply dseg_lookup.
Qed.

Lemma zones_size c l : cache_wf c l -> numSites (siteTreeOf c) = Z.of_nat (size (siteCacheInfos c)).
Proof.
  intros Hwf. destruct (wf_tree c l Hwf) as [((Hnd & _) & -> & _) Hz]. f_equal.
  rewrite <- size_dom, <- (size_list_to_set (C := gset string) _ Hnd). f_equal. apply set_eq. intros z.
  by rewrite elem_of_list_to_set, elem_of_dom.
Qed.

Lemma list_complete_length s : snap_struct s -> list_complete s -> length (SiteCacheInfoList s) = size (SiteCacheInfoMap s).
Proof.
  intros [Hinj _] [Hnd Hel]. set (m := SiteCacheInfoMap s) in *.
  destruct (omap_lookup_complete m (map_to_list m).*1 (NoDup_fst_map_to_list m) Hinj) as (H1 & H2 & H3).
  { intros id. rewrite list_elem_of_fmap. split.
    - intros ([k v] & -> & Hkv%elem_of_map_to_list). by eexists.
    - intros [v Hv]. exists (id, v). split; [done|by apply elem_of_map_to_list]. }
  rewrite length_fmap, length_map_to_list in H2. rewrite <- H2. apply Permutation_length, NoDup_Permutation; [done|done|].
  intros e. by rewrite Hel, H3.
Qed.

(** After the walk every site of the cache has its copy. *)
Lemma walk_current c l s : cache_wf c l -> snap_ok c s ->
  ∃ s1 all, copy_walk (size (heap c)) c (headSiteCacheInfo c) (snap_generation s) s false = Some (s1, all) ∧ snap_struct s1 ∧
    (forall id i, site_info c id = Some i -> entry s1 id = Clone i) ∧
    (forall id, is_Some (siteCacheInfos c !! id) -> is_Some (SiteCacheInfoMap s1 !! id)) ∧
    SiteCacheInfoList s1 = SiteCacheInfoList s ∧ snap_generation s1 = snap_generation s ∧
    (all = false -> SiteCacheInfoMap s1 = SiteCacheInfoMap s).
Proof.
  intros Hwf [Hst Hcur Hgen Hlist]. destruct (wf_list c l Hwf) as (Hs & Hhd & Hnd). rewrite Hhd.
  destruct (copy_walk_spec c l (snap_generation s) Hwf l None (size (heap c)) s false Hs) as
    (s1 & all & Hw & Hst1 & Hnew & Hsame & _ & _ & Hl1 & Hg1 & Ha1); [done|apply (wf_sorted c l Hwf)|by apply list_length_heap|done|].
  assert (forall id i, site_info c id = Some i -> entry s1 id = Clone i) as Hent.
  { intros id i Hi. assert (sites_of c l id) as Hso.
    { unfold site_info in Hi. destruct (siteCacheInfos c !! id) as [a|] eqn:Ha; [|done]. exists a. split; [apply (wf_dom c l Hwf); by exists id|done]. }
    destruct (decide (snap_generation s < GetGeneration i)) as [Hg|Hg]; [by apply Hnew|].
    rewrite Hsame; [apply Hcur; [done|lia]|]. intros i' _ Hi'. rewrite Hi in Hi'. injection Hi' as <-. lia. }
  exists s1, all. split_and!; [done|done|done| |done|done|by intros [_ ?]%Ha1].
  intros id [a Ha]. destruct (wf_site c l Hwf id a Ha) as (i & site & Hi & Hsi & _).
  assert (site_info c id = Some i) as Hinfo by (unfold site_info; by rewrite Ha).
  apply Hent in Hinfo. unfold entry in Hinfo. destruct (SiteCacheInfoMap s1 !! id); [done|]. simpl in Hinfo.
  unfold Clone, GetSite in *. by rewrite Hsi in Hinfo.
Qed.

(** Deleting the sites that are gone leaves the sites of the cache. *)
Lemma shrink_spec range c l s : (forall m, range m ≡ₚ map_to_list m) -> cache_wf c l -> snap_struct s ->
  (forall id, is_Some (siteCacheInfos c !! id) -> is_Some (SiteCacheInfoMap s !! id)) ->
  let shrunk := Nat.ltb (size (siteCacheInfos c)) (size (SiteCacheInfoMap s)) in
  let s' := if shrunk then removeDeletedSiteCacheInfosFromSnapshot range c s else s in
  snap_struct s' ∧ (forall id, is_Some (SiteCacheInfoMap s' !! id) <-> is_Some (siteCacheInfos c !! id)) ∧
  (forall id, is_Some (siteCacheInfos c !! id) -> entry s' id = entry s id) ∧
  SiteCacheInfoList s' = SiteCacheInfoList s ∧ snap_generation s' = snap_generation s.
Proof.
  intros Hrange Hwf Hst Hsub shrunk s'. set (m := SiteCacheInfoMap s) in *. set (names := (range m).*1).
  assert (names ≡ₚ (map_to_list m).*1) as Hnames by (unfold names; by rewrite Hrange).
  pose proof (missing_length c m names Hnames Hsub) as Hlen. unfold s', shrunk. destruct (Nat.ltb_spec (size (siteCacheInfos c)) (size m)) as [Hlt|Hge].
  - unfold removeDeletedSiteCacheInfosFromSnapshot. fold m names.
    assert (forall id, remove_deleted c (Z.of_nat (size m) - Z.of_nat (size (siteCacheInfos c))) names m !! id =
      if decide (id ∈ missing c names) then None else m !! id) as Hrd by (apply remove_deleted_spec; lia).
    assert (forall id, id ∈ missing c names <-> siteCacheInfos c !! id = None ∧ is_Some (m !! id)) as Hmis.
    { intros id. unfold missing. rewrite list_elem_of_filter, Hnames, list_elem_of_fmap. split.
      - intros [? ([k v] & -> & Hkv%elem_of_map_to_list)]. split; [done|by eexists].
      - intros [? [v Hv]]. split; [done|]. exists (id, v). split; [done|by apply elem_of_map_to_list]. }
    destruct Hst as [Hinj Hex]. split_and!; [split|..|done|done]; cbn [set_entries SiteCacheInfoMap entries snap_fresh].
    + intros id id' e. rewrite !Hrd. case_decide; [done|]. case_decide; [done|]. apply Hinj.
    + intros id e. rewrite Hrd. case_decide; [done|]. apply Hex.
    + intros id. rewrite Hrd. case_decide as Hd; rewrite Hmis in Hd.
      * destruct Hd as [-> _]. by split; intros [].
      * split; [|apply Hsub]. intros Hid. destruct (siteCacheInfos c !! id) eqn:Hc; [by eexists|]. destruct Hd. by split.
    + intros id [a Ha]. unfold entry. cbn [set_entries SiteCacheInfoMap entries]. rewrite Hrd, decide_False; [done|]. rewrite Hmis. intros [? _]. congruence.
  - split_and!; [done| |done|done|done]. intros id. split; [|apply Hsub]. fold m. intros Hid. destruct (siteCacheInfos c !! id) eqn:Hc; [by eexists|exfalso].
    assert (missing c names = []) as Hnil by (apply nil_length_inv; lia).
    assert (id ∈ missing c names) as Hin; [|rewrite Hnil in Hin; by apply elem_of_nil in Hin].
    destruct Hid as [v Hv]. apply list_elem_of_filter. split; [done|]. rewrite Hnames. apply list_elem_of_fmap.
    exists (id, v). split; [done|by apply elem_of_map_to_list].
Qed.

Lemma UpdateSnapshot_spec range c l s : (forall m, range m ≡ₚ map_to_list m) -> cache_wf c l -> snap_ok c s ->
  ∃ t s', UpdateSnapshot range c s = Some (set_tree c t, s', Ok tt) ∧ cache_wf (set_tree c t) l ∧
    full_copy (set_tree c t) s' ∧ snap_ok (set_tree c t) s'.
Proof.
  intros Hrange Hwf Hok. destruct (walk_current c l s Hwf Hok) as (s1 & all & Hw & Hst1 & Hent1 & Hdom1 & Hl1 & Hg1 & Ha1).
  unfold UpdateSnapshot. rewrite Hw. bind_simpl.
  assert (∃ g, match headSiteCacheInfo c with
      | Some a => it ← heap c !! a; Some (set_snap_generation s1 (GetGeneration (info it))) | None => Some s1 end =
      Some (set_snap_generation s1 g) ∧ g <= gen c) as (g & -> & Hgc).
  { destruct (wf_list c l Hwf) as (Hs & -> & _). destruct l as [|a l]; simpl.
    - exists (snap_generation s1). split; [by destruct s1|rewrite Hg1; apply (so_generation c s Hok)].
    - destruct Hs as (it & Ha & _). rewrite Ha. simpl. eexists. split; [done|].
      pose proof (wf_gen c (a :: l) Hwf a ltac:(by left)) as Hga. unfold gen_at, info_at in Hga. rewrite Ha in Hga. simpl in Hga. lia. }
  bind_simpl. set (s2 := set_snap_generation s1 g).
  destruct (shrink_spec range c l s2 Hrange Hwf Hst1 Hdom1) as (Hst3 & Hdom3 & Hent3 & Hl3 & Hg3).
  set (shrunk := Nat.ltb _ _) in *. set (s3 := if shrunk then _ else s2) in *.
  assert (forall id, entry s3 id = site_info c id ≫= Clone) as Hcopy.
  { intros id. destruct (siteCacheInfos c !! id) as [a|] eqn:Ha.
    - destruct (wf_site c l Hwf id a Ha) as (i & _ & Hi & _). assert (site_info c id = Some i) as Hinfo by (unfold site_info; by rewrite Ha).
      rewrite Hent3 by (by rewrite Ha). rewrite Hinfo. simpl. change (entry s2 id) with (entry s1 id). by apply Hent1.
    - unfold site_info, entry. rewrite Ha. simpl. destruct (SiteCacheInfoMap s3 !! id) eqn:Hm; [|done].
      assert (is_Some (siteCacheInfos c !! id)) as [? ?] by (apply Hdom3; by rewrite Hm). congruence. }
  assert (∃ t l', (if (all || shrunk)%bool then updateSiteCacheInfoSnapshotList c s3 else Some (c, s3)) =
      Some (set_tree c t, set_snap_list s3 l') ∧ cache_wf (set_tree c t) l ∧ list_complete (set_snap_list s3 l') ∧
      Z.of_nat (length l') = numSites t) as (t & l' & -> & Hwf' & Hlc & Hlen).
  { destruct (all || shrunk)%bool eqn:Hall; [by apply (rebuild_list c l)|]. apply orb_false_iff in Hall as [-> Hsh].
    exists (siteTreeOf c), (SiteCacheInfoList s3). unfold s3 in *. rewrite Hsh in *. destruct (so_list c s Hok) as [Hnd Hel].
    assert (list_complete s2) as Hlc by (unfold s2; split; simpl; rewrite Hl1; [done|]; intros e; by rewrite Hel, (Ha1 eq_refl)).
    split_and!; [by destruct c, s2|by destruct c|by destruct s2|]. rewrite (list_complete_length s2 Hst1 Hlc), (zones_size c l Hwf).
    f_equal. rewrite <- !size_dom. f_equal. apply set_eq. intros id. by rewrite !elem_of_dom, Hdom3. }
  bind_simpl. rewrite bool_decide_true by done. exists t, (set_snap_list s3 l'). split; [done|]. split; [done|].
  assert (full_copy (set_tree c t) (set_snap_list s3 l')) as Hfull by (split_and!; [exact Hcopy|exact Hdom3|done]).
  split; [done|]. split; [done| |simpl; rewrite Hg3; simpl; lia|done].
  intros id i Hi _. destruct Hfull as [Hf _]. rewrite Hf. unfold site_info in *. simpl in *. by rewrite Hi.
Qed.

(** ** Histories *)

(** The operations that renew the generation of the site they change. *)
Inductive cache_op :=
  | OAddSite (flavors : list RegionFlavor) (site : Site)
  | OUpdateSite (flavors : list RegionFlavor) (old new : Site)
  | ORemoveSite (site : Site)
  | OAssumeStack (stack : Stack)
  | OAddStack (stack : Stack)
  | OEipPool (pool : EipPool)
  | OVolumePool (pool : RegionVolumePool)
  | OResInfo (flavors : list RegionFlavor) (siteID : string) (resInfo : AllResInfo)
  | ORatio (store : gmap string RegionFlavor) (flavors : list RegionFlavor) (region az : string) (ratios : list AllocationRatio)
  | OSpot (region az : string) (spotRes : gmap string SpotResource).

Section Histories.
(** The orders in which the maps and sets are visited. *)
Context (range : gmap string nat -> list (string * nat)) (range_ids : gset string -> list string)
  (range_ratios : gmap string AllocationRatio -> list (string * AllocationRatio)).

Definition cache_step (c : schedulerCache) (o : cache_op) : option schedulerCache :=
  match o with
  | OAddSite flavors site => AddSite flavors c site
  | OUpdateSite flavors old new => UpdateSite flavors c old new
  | ORemoveSite site => fst <$> RemoveSite c site
  | OAssumeStack stack => fst <$> AssumeStack c stack
  | OAddStack stack => fst <$> Cache_AddStack c stack
  | OEipPool pool => UpdateEipPool range_ids c pool
  | OVolumePool pool => UpdateVolumePool range_ids c pool
  | OResInfo flavors siteID resInfo => Cache_UpdateSiteWithResInfo flavors c siteID resInfo
  | ORatio store flavors region az ratios => Cache_UpdateSiteWithRatio range store flavors range_ratios c region az ratios
  | OSpot region az spotRes => Cache_UpdateSpotResources range c region az spotRes
  end.

(** How often the generation can be renewed. *)
Definition op_cost (c : schedulerCache) (o : cache_op) : Z :=
  match o with
  | OEipPool pool => Z.of_nat (size (default ∅ (regionToSite c !! Eip_Region pool)))
  | OVolumePool pool => Z.of_nat (size (default ∅ (regionToSite c !! RVP_Region pool)))
  | _ => 1
  end.

(** An update keeps the site's id; a stack is placed on a known site, and not added on
    another site than it was assumed on; the counter does not overflow. *)
Definition op_ok (c : schedulerCache) (o : cache_op) : Prop :=
  gen c + op_cost c o <= MaxInt64 ∧
  match o with
  | OUpdateSite _ old new => SiteID old = SiteID new
  | OAssumeStack stack => is_Some (siteCacheInfos c !! Selected_SiteID (Stack_Selected stack))
  | OAddStack stack => is_Some (siteCacheInfos c !! Selected_SiteID (Stack_Selected stack)) ∧
      forall st, stackStates c !! UID stack = Some st -> Stack_Selected (ss_stack st) = Stack_Selected stack
  | _ => True
  end.

Hypothesis Hrange : forall m, range m ≡ₚ map_to_list m.
Hypothesis Hids : forall X, range_ids X ≡ₚ elements X.

(** A step that keeps the invariant and advances. *)
Definition fine_step (c : schedulerCache) (out : option schedulerCache) : Prop :=
  ∃ c' l', out = Some c' ∧ cache_wf c' l' ∧ advances c c'.

Lemma good_fine c k out : good_step c k out -> fine_step c out.
Proof. intros (c' & l' & ? & ? & ? & _). by exists c', l'. Qed.

Lemma fine_stacks c l A S : cache_wf c l -> fine_step c (Some (set_stacks c A S)).
Proof. intros Hwf. exists (set_stacks c A S), l. split_and!; [done|by apply wf_set_stacks|by split; [|right]]. Qed.

Lemma fine_add c l stack A S : cache_wf c l -> is_Some (siteCacheInfos c !! Selected_SiteID (Stack_Selected stack)) ->
  gen c + 1 <= MaxInt64 -> fine_step c (add_stack c stack ≫= fun c' => Some (set_stacks c' (A c') (S c'))).
Proof.
  intros Hwf Hsite Hroom. destruct (add_stack_good c l stack Hwf Hsite Hroom) as (c' & l' & -> & Hwf' & Hadv & _).
  bind_simpl. exists (set_stacks c' (A c') (S c')), l'. split_and!; [done|by apply wf_set_stacks|exact Hadv].
Qed.

Lemma fine_region c l (F : schedulerCache -> string -> option (schedulerCache * result unit)) X : cache_wf c l ->
  (forall c l id, cache_wf c l -> gen c + 1 <= MaxInt64 -> ∃ r, good_step c 1 (fst <$> F c id) ∧ snd <$> F c id = Some r) ->
  gen c + Z.of_nat (size X) <= MaxInt64 -> fine_step c (update_region F c (range_ids X)).
Proof using Hids.
  intros Hwf HF Hroom. eapply good_fine, update_region_good; [done|done|].
  rewrite (Permutation_length (Hids X)). exact Hroom.
Qed.

Lemma cache_step_fine c l o : cache_wf c l -> op_ok c o -> fine_step c (cache_step c o).
Proof using Hrange Hids.
  intros Hwf [Hroom Hok]. destruct o as [flavors site|flavors old new|site|stack|stack|pool|pool|flavors id res|store flavors region az ratios|region az spot];
    simpl in *.
  - by eapply good_fine, AddSite_good.
  - by eapply good_fine, UpdateSite_good.
  - destruct (RemoveSite_good c l site Hwf) as (r & Hg & _). by eapply good_fine.
  - unfold AssumeStack. destruct (GetStackKey stack) as [key|e]; [|by eapply good_fine, good_refl].
    destruct (stackStates c !! key); [by eapply good_fine, good_refl|].
    destruct (fine_add c l stack (fun c' => {[key]} ∪ assumedStacks c') (fun c' => <[key := mkStackState stack None false]> (stackStates c')) Hwf Hok Hroom)
      as (c' & l' & Hc' & Hrest). destruct (add_stack c stack) as [c1|]; [|done]. exists c', l'. split; [exact Hc'|done].
  - destruct Hok as [Hsite Hsel]. unfold Cache_AddStack, GetStackKey in *. destruct (String.eqb_spec (UID stack) ""); [by eapply good_fine, good_refl|].
    destruct (stackStates c !! UID stack) as [st|] eqn:Hst.
    + rewrite (Hsel st eq_refl). destruct (decide (UID stack ∈ assumedStacks c)); [|by eapply good_fine, good_refl].
      rewrite decide_True by done. by eapply fine_stacks.
    + destruct (fine_add c l stack (fun c' => assumedStacks c') (fun c' => <[UID stack := mkStackState stack None false]> (stackStates c')) Hwf Hsite Hroom)
        as (c' & l' & Hc' & Hrest). destruct (add_stack c stack) as [c1|]; [|done]. exists c', l'. split; [exact Hc'|done].
  - unfold UpdateEipPool. destruct (regionToSite c !! Eip_Region pool) as [X|]; [|by eapply good_fine, good_refl].
    eapply fine_region; [done| |exact Hroom]. intros. eapply update_site_good; eauto with keeps.
  - unfold UpdateVolumePool. destruct (regionToSite c !! RVP_Region pool) as [X|]; [|by eapply good_fine, good_refl].
    eapply fine_region; [done| |exact Hroom]. intros. eapply update_site_good; eauto with keeps.
  - unfold Cache_UpdateSiteWithResInfo. destruct (update_site_good c l id _ Hwf (keeps_Res flavors res) Hroom) as (r & Hg & _).
    eapply good_fine. destruct (update_site _ _ _ _) as [[c1 r1]|]; exact Hg.
  - eapply good_fine, update_zone_good; eauto with keeps.
  - eapply good_fine, update_zone_good; eauto with keeps.
Qed.

(** The states of a cache and its snapshot. *)
Inductive reach : schedulerCache -> Snapshot -> Prop :=
  | reach_new g : 0 <= g -> reach (newSchedulerCache g) NewEmptySnapshot
  | reach_op c s o c' : reach c s -> op_ok c o -> cache_step c o = Some c' -> reach c' s
  | reach_snapshot c s c' s' r : reach c s -> UpdateSnapshot range c s = Some (c', s', r) -> reach c' s'.

Lemma new_wf g : 0 <= g -> cache_wf (newSchedulerCache g) [] ∧ snap_ok (newSchedulerCache g) NewEmptySnapshot.
Proof.
  intros Hg. split; split; simpl; try done.
  - split_and!; [done|done|constructor].
  - intros a. split; [by intros ?%elem_of_nil|]. intros [id Hid]. by rewrite lookup_empty in Hid.
  - constructor.
  - intros a Ha. by apply elem_of_nil in Ha.
  - split; [|intros z; rewrite lookup_empty; split; [by intros ?%elem_of_nil|by intros []]].
    split_and!; [split_and!; simpl; [constructor| |]|done|by exists 0%nat].
    + intros z. rewrite lookup_empty. split; [by intros []|by intros ?%elem_of_nil].
    + intros z na. by rewrite lookup_empty.
  - split; simpl; [constructor|]. intros e. split; [by intros ?%elem_of_nil|]. intros [id Hid]. by rewrite lookup_empty in Hid.
Qed.

Lemma reach_wf c s : reach c s -> (∃ l, cache_wf c l) ∧ snap_ok c s.
Proof using Hrange Hids.
  induction 1 as [g Hg|c s o c' _ [[l Hwf] Hok] Ho Hstep|c s c' s' r _ [[l Hwf] Hok] Hsnap].
  - destruct (new_wf g Hg) as [? ?]. split; [by eexists|done].
  - destruct (cache_step_fine c l o Hwf Ho) as (c1 & l1 & Hs & Hwf1 & Hadv). rewrite Hs in Hstep. injection Hstep as <-.
    split; [by eexists|]. by eapply snap_ok_advances.
  - destruct (UpdateSnapshot_spec range c l s Hrange Hwf Hok) as (t & s1 & Hs & Hwf1 & _ & Hok1). rewrite Hs in Hsnap. injection Hsnap as <- <- <-.
    split; [by eexists|done].
Qed.

End Histories.

(** ** Concrete histories *)

Definition demo_selected (siteID : string) : Selected := mkSelected siteID "r1" "az1" "" "".
Definition demo_placed (siteID uid : string) : Stack :=
  mkStack "stack" ∅ [] no_selector (demo_selected siteID) uid 0 "t" "ns".
Definition demo_ids (X : gset string) : list string := elements X.

Definition run_ops (c : schedulerCache) (os : list cache_op) : schedulerCache :=
  foldl (fun c o => default c (cache_step map_to_list demo_ids map_to_list c o)) c os.

Definition demo_c1 : schedulerCache :=
  run_ops (newSchedulerCache 0) [OAddSite [] (demo_site "a" "r1" "az1"); OAddSite [] (demo_site "b" "r1" "az2"); OAssumeStack (demo_placed "b" "u1")].
Definition demo_snap : schedulerCache * Snapshot :=
  match UpdateSnapshot map_to_list demo_c1 NewEmptySnapshot with Some (c, s, _) => (c, s) | None => (demo_c1, NewEmptySnapshot) end.
(** After the snapshot the spot resources of site [a] change. *)
Definition demo_spot : gmap string SpotResource :=
  let p := mkPreemptible "" false fzero ∅ in {["f1"%string := mkSpotResource p p p p p p p p]}.
Definition demo_c2 : schedulerCache := run_ops demo_snap.1 [OSpot "r1" "az1" demo_spot].

Lemma demo_reach : reach map_to_list demo_ids map_to_list demo_c2 demo_snap.2.
Proof.
  assert (reach map_to_list demo_ids map_to_list demo_c1 NewEmptySnapshot) as H1.
  { set (c0 := newSchedulerCache 0).
    set (ca := run_ops c0 [OAddSite [] (demo_site "a" "r1" "az1")]). set (cb := run_ops ca [OAddSite [] (demo_site "b" "r1" "az2")]).
    eapply (reach_op _ _ _ cb _ (OAssumeStack (demo_placed "b" "u1"))); [|split; [vm_compute; discriminate|]|vm_compute; reflexivity].
    - eapply (reach_op _ _ _ ca _ (OAddSite [] (demo_site "b" "r1" "az2"))); [|split; [vm_compute; discriminate|done]|vm_compute; reflexivity].
      eapply (reach_op _ _ _ c0 _ (OAddSite [] (demo_site "a" "r1" "az1"))); [|split; [vm_compute; discriminate|done]|vm_compute; reflexivity].
      by apply reach_new.
    - vm_compute. by eexists. }
  assert (reach map_to_list demo_ids map_to_list demo_snap.1 demo_snap.2) as H2.
  { eapply (reach_snapshot _ _ _ _ _ _ _ (Ok tt) H1). vm_compute. reflexivity. }
  eapply (reach_op _ _ _ _ _ (OSpot "r1" "az1" demo_spot) _ H2); [split; [vm_compute; discriminate|done]|vm_compute; reflexivity].
Qed.


(** ** Moves without a new generation *)

Lemma remove_deleted_sub c names : forall n m id e, remove_deleted c n names m !! id = Some e -> m !! id = Some e.
Proof.
  induction names as [|name names IH]; intros n m id e; cbn [remove_deleted]; [done|].
  destruct (n <=? 0); [done|]. destruct (siteCacheInfos c !! name); [apply IH|]. intros H%IH. by apply lookup_delete_Some in H as [_ ?].
Qed.

(** The removal of a stack moves its site to the head as it is. *)
Lemma remove_stack_spec c l stack a : cache_wf c l -> siteCacheInfos c !! Selected_SiteID (Stack_Selected stack) = Some a ->
  ∃ h' l', remove_stack c stack = Some (set_list c h' (Some a)) ∧ same_infos (heap c) h' ∧ list_ok (set_list c h' (Some a)) (a :: l').
Proof.
  intros Hwf Ha. unfold remove_stack. rewrite Ha. unfold update_info, RemoveStack.
  destruct (wf_site c l Hwf _ a Ha) as (i & s & Hi & _). unfold info_at in Hi. destruct (heap c !! a) as [it|] eqn:Hit; [|done].
  bind_simpl. rewrite insert_id by (rewrite Hit; by destruct it).
  replace (mkCache _ _ _ _ _ _ _ _ _) with c by by destruct c. destruct (move_to_head c l _ a (wf_list c l Hwf) Ha) as (h' & l' & -> & Hl & Hs & _).
  { left. apply (wf_dom c l Hwf). by eexists. }
  by exists h', l'.
Qed.

(** A snapshot whose walk stops at the head takes over nothing. *)
Lemma stopped_snapshot range c s c' s' r a it : headSiteCacheInfo c = Some a -> heap c !! a = Some it ->
  GetGeneration (info it) <= snap_generation s -> UpdateSnapshot range c s = Some (c', s', r) ->
  forall id, is_Some (SiteCacheInfoMap s' !! id) -> entry s' id = entry s id.
Proof.
  intros Hhd Ha Hg Hup. unfold UpdateSnapshot in Hup. rewrite Hhd in Hup.
  assert (∃ n, size (heap c) = S n) as [n Hn].
  { destruct (size (heap c)) eqn:Hsz; [|by eexists]. apply map_size_empty_inv in Hsz. by rewrite Hsz, lookup_empty in Ha. }
  rewrite Hn in Hup. cbn [copy_walk] in Hup. rewrite Ha in Hup. bind_simpl in Hup.
  rewrite (proj2 (Z.leb_le _ _) Hg) in Hup. bind_simpl in Hup.
  set (s2 := set_snap_generation s (GetGeneration (info it))) in *. set (shrunk := Nat.ltb _ _) in *.
  set (s3 := if shrunk then _ else s2) in *.
  assert (entries s' = entries s3 ∧ SiteCacheInfoMap s' = SiteCacheInfoMap s3) as [He Hm].
  { unfold updateSiteCacheInfoSnapshotList in Hup. revert Hup. destruct (false || shrunk)%bool.
    - destruct (next_n _ (siteTreeOf c)) as [[ids t]|]; [|done]. bind_simpl. case_bool_decide; [by intros [= <- <- <-]|].
      simpl. destruct (next_n _ t) as [[ids' t']|]; [|done]. by intros [= <- <- <-].
    - bind_simpl. case_bool_decide; [by intros [= <- <- <-]|].
      destruct (next_n _ (siteTreeOf c)) as [[ids' t']|]; [|done]. by intros [= <- <- <-]. }
  intros id [e Hid]. unfold entry. rewrite He, Hm. rewrite Hm in Hid. rewrite Hid. simpl.
  assert (SiteCacheInfoMap s !! id = Some e ∧ entries s3 = entries s) as [-> ->]; [|done].
  unfold s3 in *. destruct shrunk; [|done]. unfold removeDeletedSiteCacheInfosFromSnapshot in Hid. simpl in Hid.
  apply remove_deleted_sub in Hid. done.
Qed.

(** Forgetting a stack hides updates from the snapshot.  The site of the stack comes
    to the head of the list with its old generation; when the last snapshot had seen that
    generation, the next snapshot copies nothing, whatever other sites were updated in
    between, and reports no error for it. *)
Theorem forgotten_stack_hides_updates range range_ids range_ratios c s stack i c1 c2 s2 r :
  (forall m, range m ≡ₚ map_to_list m) -> (forall X, range_ids X ≡ₚ elements X) -> reach range range_ids range_ratios c s ->
  site_info c (Selected_SiteID (Stack_Selected stack)) = Some i -> GetGeneration i <= snap_generation s ->
  ForgetStack c stack = Some (c1, Ok tt) -> UpdateSnapshot range c1 s = Some (c2, s2, r) ->
  forall id, is_Some (SiteCacheInfoMap s2 !! id) -> entry s2 id = entry s id.
Proof.
  intros Hrange Hids Hreach Hi Hg Hforget Hup. destruct (reach_wf _ _ _ Hrange Hids c s Hreach) as [[l Hwf] _].
  unfold site_info in Hi. destruct (siteCacheInfos c !! _) as [a|] eqn:Ha; [|done]. bind_simpl in Hi.
  destruct (remove_stack_spec c l stack a Hwf Ha) as (h' & l' & Hrm & Hsame & Hs & _).
  unfold ForgetStack in Hforget. destruct (GetStackKey stack) as [key|]; [|done]. destruct (bool_decide _); [|done].
  rewrite Hrm in Hforget. bind_simpl in Hforget. injection Hforget as <-.
  destruct Hs as (it & Hit & _). refine (stopped_snapshot range _ s c2 s2 r a it _ _ _ Hup); [done|exact Hit|].
  pose proof (Hsame a) as Hia. unfold info_at in Hia. simpl in Hit. rewrite Hit in Hia. unfold info_at in Hi. rewrite Hi in Hia.
  injection Hia as ->. done.
Qed.

Definition demo_forgotten : schedulerCache :=
  match ForgetStack demo_c2 (demo_placed "b" "u1") with Some (c, _) => c | None => demo_c2 end.

(** Site [a] was updated after the snapshot, and the snapshot taken after the stack on
    site [b] was forgotten still has the old information. *)
Lemma forgotten_stack_hides_updates_witness :
  ∃ c2 s2, UpdateSnapshot map_to_list demo_forgotten demo_snap.2 = Some (c2, s2, Ok tt) ∧
    entry s2 "a" = entry demo_snap.2 "a" ∧
    AllocatableSpotFlavor <$> site_info demo_forgotten "a" = Some demo_spot ∧ AllocatableSpotFlavor <$> entry s2 "a" = Some ∅.
Proof.
  destruct (UpdateSnapshot map_to_list demo_forgotten demo_snap.2) as [[[c2 s2] r]|] eqn:Hup; [|by vm_compute in Hup].
  assert ((fun x => (snd x, AllocatableSpotFlavor <$> entry x.1.2 "a", bool_decide (is_Some (SiteCacheInfoMap x.1.2 !! "a"%string)))) <$>
    UpdateSnapshot map_to_list demo_forgotten demo_snap.2 = Some (Ok tt, Some ∅, true)) as Hc by (vm_compute; reflexivity).
  rewrite Hup in Hc. cbn [fmap option_fmap option_map fst snd] in Hc. injection Hc as -> Hspot Hin%bool_decide_eq_true. exists c2, s2. split_and!; [done| |vm_compute; reflexivity|exact Hspot].
  destruct (site_info demo_c2 "b") as [i|] eqn:Hi; [|by vm_compute in Hi].
  apply (forgotten_stack_hides_updates map_to_list demo_ids map_to_list demo_c2 demo_snap.2 (demo_placed "b" "u1") i demo_forgotten c2 s2 (Ok tt)
    (fun m => reflexivity _) (fun X => reflexivity _) demo_reach Hi); [|vm_compute; reflexivity|exact Hup|].
  - assert (GetGeneration <$> site_info demo_c2 "b" = Some 3) as Hgi by (vm_compute; reflexivity). rewrite Hi in Hgi. injection Hgi as ->.
    vm_compute. discriminate.
  - exact Hin.
Defined.
