(* ===== verification/CacheStacks.v ===== *)
(** * The life of an assumed stack in the scheduler cache

    Follows the stacks of [internal/cache/cache.go] through every method of the cache,
    those that break the order of the list included.  An assumed stack always has a
    state, so the periodic cleanup never meets its fatal case; and no method marks the
    binding of a stack as finished, so the cleanup never expires one. *)
From S2P Require Import Prelude Types Strconv SiteTree SiteCacheInfo Cache CacheProofs.

Local Open Scope Z_scope.

(** ** What leaves the stacks alone *)

Definition keeps_stacks (c : schedulerCache) (out : option schedulerCache) : Prop :=
  forall c', out = Some c' -> assumedStacks c' = assumedStacks c ∧ stackStates c' = stackStates c.

Create HintDb stacks discriminated.

Lemma ks_same c c' : assumedStacks c' = assumedStacks c -> stackStates c' = stackStates c -> keeps_stacks c (Some c').
Proof. by intros ? ? ? [= <-]. Qed.

Lemma ks_none c : keeps_stacks c None.
Proof. done. Qed.

Lemma ks_bind c m k : keeps_stacks c m -> (forall c', keeps_stacks c' (k c')) -> keeps_stacks c (m ≫= k).
Proof. intros Hm Hk c'. destruct m as [c1|]; [|done]. destruct (Hm c1 eq_refl) as [<- <-]. apply Hk. Qed.

(** A bind on something that is not a cache. *)
Lemma ks_bind_any {A} c (m : option A) k : (forall x, keeps_stacks c (k x)) -> keeps_stacks c (m ≫= k).
Proof. intros H. destruct m; [apply H|done]. Qed.

#[export] Hint Resolve ks_same ks_none : stacks.

Lemma ks_move c id : keeps_stacks c (moveSiteCacheInfoToHead c id).
Proof.
  unfold moveSiteCacheInfoToHead. destruct (siteCacheInfos c !! id); [|by apply ks_same]. case_decide; [by apply ks_same|].
  do 2 (apply ks_bind_any; intros ?). by apply ks_same.
Qed.

Lemma ks_remove_item c id : keeps_stacks c (removeSiteCacheInfoFromList c id).
Proof.
  unfold removeSiteCacheInfoFromList. destruct (siteCacheInfos c !! id); [|by apply ks_same].
  do 3 (apply ks_bind_any; intros ?). by apply ks_same.
Qed.

Lemma ks_update_info c a bump f : keeps_stacks c (update_info c a bump f).
Proof. unfold update_info. do 2 (apply ks_bind_any; intros ?). by apply ks_same. Qed.

#[export] Hint Resolve ks_move ks_remove_item ks_update_info : stacks.

Lemma item_of_stacks c id : assumedStacks (item_of c id).2 = assumedStacks c ∧ stackStates (item_of c id).2 = stackStates c.
Proof. unfold item_of, new_item. by destruct (siteCacheInfos c !! id). Qed.

Lemma ks_from c c1 out : assumedStacks c1 = assumedStacks c -> stackStates c1 = stackStates c -> keeps_stacks c1 out -> keeps_stacks c out.
Proof. intros H1 H2 H c' Hc'. destruct (H c' Hc') as [-> ->]. done. Qed.

Lemma ks_add c stack : keeps_stacks c (add_stack c stack).
Proof.
  unfold add_stack. pose proof (item_of_stacks c (Selected_SiteID (Stack_Selected stack))) as [H1 H2].
  destruct (item_of c _) as [n c1]. apply (ks_from c c1); [done|done|]. apply ks_bind; eauto with stacks.
Qed.

Lemma ks_remove c stack : keeps_stacks c (remove_stack c stack).
Proof. unfold remove_stack. destruct (siteCacheInfos c !! _); [apply ks_bind|]; eauto with stacks. Qed.

Lemma ks_regions c site : assumedStacks (deleteRegionToSite c site) = assumedStacks c ∧ stackStates (deleteRegionToSite c site) = stackStates c.
Proof. unfold deleteRegionToSite. by destruct (regionToSite c !! _). Qed.

Lemma ks_AddSite flavors c site : keeps_stacks c (AddSite flavors c site).
Proof.
  unfold AddSite. pose proof (item_of_stacks c (SiteID site)) as [H1 H2]. destruct (item_of c _) as [n c1].
  apply (ks_from c c1); [done|done|]. apply ks_bind; [by auto with stacks|]. intros c2.
  eapply ks_from; [| |apply ks_update_info]; done.
Qed.

Lemma ks_UpdateSite flavors c old new : keeps_stacks c (UpdateSite flavors c old new).
Proof.
  unfold UpdateSite.
  assert (∃ n c1, (match siteCacheInfos c !! SiteID new with
    | Some a => (a, c)
    | None => let '(a, c) := new_item c (SiteID new) in (a, set_tree c (addSite (siteTreeOf c) new)) end) = (n, c1) ∧
    assumedStacks c1 = assumedStacks c ∧ stackStates c1 = stackStates c) as (n & c1 & -> & H1 & H2).
  { destruct (siteCacheInfos c !! SiteID new) as [a|]; simpl; by eexists _, _. }
  apply (ks_from c c1); [done|done|]. apply ks_bind; [by auto with stacks|]. intros c2.
  eapply ks_from; [| |apply ks_update_info]; simpl; [by rewrite (proj1 (ks_regions _ old))|by rewrite (proj2 (ks_regions _ old))].
Qed.

Lemma ks_RemoveSite c site : keeps_stacks c (fst <$> RemoveSite c site).
Proof.
  unfold RemoveSite. destruct (siteCacheInfos c !! _); [|by apply ks_same].
  pose proof (ks_remove_item c (SiteID site)) as H. destruct (removeSiteCacheInfoFromList c _) as [c1|]; [|done]. bind_simpl.
  destruct (H c1 eq_refl) as [H1 H2]. destruct (removeSite _ _) as [t [[]|e]]; apply (ks_from c c1); try done; [|by apply ks_same].
  destruct (ks_regions (set_tree c1 t) site) as [H3 H4]. by apply ks_same.
Qed.

Lemma ks_update_site c id bump f : keeps_stacks c (fst <$> update_site c id bump f).
Proof.
  unfold update_site. destruct (siteCacheInfos c !! id); [|by apply ks_same].
  pose proof (ks_update_info c n bump f) as H. destruct (update_info c n bump f) as [c1|]; [|done]. bind_simpl.
  destruct (H c1 eq_refl) as [H1 H2]. apply (ks_from c c1); [done|done|]. pose proof (ks_move c1 id) as Hm.
  destruct (moveSiteCacheInfoToHead c1 id); [|done]. exact Hm.
Qed.

Lemma ks_update_region F c ids : (forall c id, keeps_stacks c (fst <$> F c id)) -> keeps_stacks c (update_region F c ids).
Proof.
  intros HF. unfold update_region. assert (keeps_stacks c (Some c)) as H0 by by apply ks_same.
  revert H0. generalize (Some c) as m. induction ids as [|id ids IH]; intros m Hm; simpl; [done|].
  apply IH. destruct m as [c1|]; [|done]. bind_simpl. destruct (Hm c1 eq_refl) as [H1 H2]. apply (ks_from c c1); [done|done|].
  pose proof (HF c1 id) as H. destruct (F c1 id) as [[c2 r]|]; [|done]. exact H.
Qed.

Lemma ks_update_zone range c region az f : keeps_stacks c (update_zone range c region az f).
Proof.
  unfold update_zone. apply ks_bind_any. intros [[id a]|]; [|by apply ks_same]. apply ks_bind; eauto with stacks.
Qed.

Lemma ks_fst_bind c (m : option (schedulerCache * result unit)) : keeps_stacks c (fst <$> m) -> keeps_stacks c ('(c, _) ← m; Some c).
Proof. by destruct m as [[? ?]|]. Qed.

#[export] Hint Resolve ks_add ks_remove ks_AddSite ks_UpdateSite ks_RemoveSite ks_update_site ks_update_zone ks_fst_bind : stacks.

(** ** Every method of the cache *)

Inductive any_op :=
  | Op (o : cache_op)
  | OForgetStack (stack : Stack)
  | OUpdateStack (oldStack newStack : Stack)
  | ORemoveStack (stack : Stack)
  | OQos (qosWeight : float64) (siteID : string) (metrics : list NetMetricData)
  | OCleanup (now : Z).

Section AnyHistory.
Context (range : gmap string nat -> list (string * nat)) (range_ids : gset string -> list string)
  (range_ratios : gmap string AllocationRatio -> list (string * AllocationRatio)).
Hypothesis Hids : forall X, range_ids X ≡ₚ elements X.

Definition any_step (c : schedulerCache) (o : any_op) : option schedulerCache :=
  match o with
  | Op o => cache_step range range_ids range_ratios c o
  | OForgetStack stack => fst <$> ForgetStack c stack
  | OUpdateStack old new => fst <$> UpdateStack c old new
  | ORemoveStack stack => fst <$> Cache_RemoveStack c stack
  | OQos w siteID metrics => Cache_UpdateQos w c siteID metrics
  | OCleanup now => cleanupAssumedStacks range_ids c now
  end.

Definition any_steps (c : schedulerCache) (os : list any_op) : option schedulerCache := foldl (fun m o => c ← m; any_step c o) (Some c) os.

(** An assumed stack has a state, and no binding is marked as finished. *)
Record binding_open (c : schedulerCache) : Prop := {
  bo_state : forall key, key ∈ assumedStacks c -> is_Some (stackStates c !! key);
  bo_open : forall key st, stackStates c !! key = Some st -> bindingFinished st = false }.

Lemma bo_keeps c out c' : keeps_stacks c out -> out = Some c' -> binding_open c -> binding_open c'.
Proof. intros H Hc' [H1 H2]. destruct (H c' Hc') as [Ha Hs]. split; rewrite ?Ha, Hs; done. Qed.

(** A stack gets a state, and may be assumed. *)
Lemma bo_insert c c1 key st A : binding_open c -> assumedStacks c1 = assumedStacks c -> stackStates c1 = stackStates c ->
  bindingFinished st = false -> A ⊆ {[key]} ∪ assumedStacks c -> binding_open (set_stacks c1 A (<[key := st]> (stackStates c1))).
Proof.
  intros [H1 H2] Ha Hs Hst HA. split; simpl; rewrite Hs.
  - intros k [->%elem_of_singleton|Hk]%HA%elem_of_union; [by rewrite lookup_insert_eq|].
    destruct (decide (k = key)) as [->|]; [by rewrite lookup_insert_eq|]. rewrite lookup_insert_ne by done. by apply H1.
  - intros k st' [[<- <-]|[_ Hk]]%lookup_insert_Some; [done|by eapply H2].
Qed.

(** A stack loses its state. *)
Lemma bo_delete c c1 key A : binding_open c -> assumedStacks c1 = assumedStacks c -> stackStates c1 = stackStates c ->
  A ⊆ assumedStacks c -> key ∉ A -> binding_open (set_stacks c1 A (delete key (stackStates c1))).
Proof.
  intros [H1 H2] Ha Hs HA Hkey. split; simpl; rewrite Hs.
  - intros k Hk. rewrite lookup_delete_ne by (intros <-; done). by apply H1, HA.
  - intros k st' [_ Hk]%lookup_delete_Some. by eapply H2.
Qed.

Lemma cleanup_nothing c now keys : binding_open c -> (forall key, key ∈ keys -> key ∈ assumedStacks c) -> cleanup_keys c now keys = Some c.
Proof.
  intros Hbo. induction keys as [|key keys IH]; intros Hk; [done|]. cbn [cleanup_keys].
  destruct (bo_state c Hbo key) as [st Hst]; [apply Hk; by left|]. rewrite Hst. bind_simpl.
  rewrite (bo_open c Hbo key st Hst). cbn [negb]. apply IH. intros k ?. apply Hk. by right.
Qed.

Lemma cleanup_idle c now : binding_open c -> cleanupAssumedStacks range_ids c now = Some c.
Proof using Hids. intros Hbo. apply cleanup_nothing; [done|]. intros key Hkey. by rewrite (Hids _), elem_of_elements in Hkey. Qed.

Lemma ks_cache_step c o : match o with OAssumeStack _ | OAddStack _ => True | _ => keeps_stacks c (cache_step range range_ids range_ratios c o) end.
Proof.
  destruct o; simpl; auto with stacks.
  - unfold UpdateEipPool. destruct (regionToSite c !! _); [|by apply ks_same]. apply ks_update_region. intros. apply ks_update_site.
  - unfold UpdateVolumePool. destruct (regionToSite c !! _); [|by apply ks_same]. apply ks_update_region. intros. apply ks_update_site.
  - apply ks_fst_bind, ks_update_site.
  - apply ks_update_zone.
  - apply ks_update_zone.
Qed.

Lemma bo_new g : binding_open (newSchedulerCache g).
Proof. split; simpl; [intros key; rewrite elem_of_empty; done|intros key st; by rewrite lookup_empty]. Qed.

Lemma bo_assume c stack c' : fst <$> AssumeStack c stack = Some c' -> binding_open c -> binding_open c'.
Proof.
  intros Hc' Hbo. unfold AssumeStack in Hc'. destruct (GetStackKey stack) as [key|]; [|by injection Hc' as <-].
  destruct (stackStates c !! key); [by injection Hc' as <-|]. destruct (add_stack c stack) as [c1|] eqn:Hadd; [|done].
  destruct (ks_add c stack c1 Hadd) as [Ha Hs]. injection Hc' as <-. apply (bo_insert c c1); [done|done|done|done|]. by rewrite Ha.
Qed.

Lemma bo_add c stack c' : fst <$> Cache_AddStack c stack = Some c' -> binding_open c -> binding_open c'.
Proof.
  intros Hc' Hbo. unfold Cache_AddStack in Hc'. destruct (GetStackKey stack) as [key|]; [|by injection Hc' as <-].
  destruct (stackStates c !! key) as [st|] eqn:Hst.
  - case_decide; [|by injection Hc' as <-]. case_decide; [|done]. injection Hc' as <-.
    apply (bo_insert c c); [done|done|done|exact (bo_open c Hbo _ _ Hst)|].
    intros k [Hk _]%elem_of_difference. apply elem_of_union. by right.
  - destruct (add_stack c stack) as [c1|] eqn:Hadd; [|done]. destruct (ks_add c stack c1 Hadd) as [Ha Hs]. injection Hc' as <-.
    apply (bo_insert c c1); [done|done|done|done|]. rewrite Ha. apply union_subseteq_r.
Qed.

Lemma bo_forget c stack c' : fst <$> ForgetStack c stack = Some c' -> binding_open c -> binding_open c'.
Proof.
  intros Hc' Hbo. unfold ForgetStack in Hc'. destruct (GetStackKey stack) as [key|]; [|by injection Hc' as <-].
  destruct (bool_decide _); [|by injection Hc' as <-]. destruct (remove_stack c stack) as [c1|] eqn:Hrm; [|done].
  destruct (ks_remove c stack c1 Hrm) as [Ha Hs]. injection Hc' as <-. apply (bo_delete c c1); [done|done|done| |]; rewrite Ha.
  - intros k [Hk _]%elem_of_difference. done.
  - apply not_elem_of_difference. right. by apply elem_of_singleton.
Qed.

Lemma bo_update c old new c' : fst <$> UpdateStack c old new = Some c' -> binding_open c -> binding_open c'.
Proof.
  intros Hc' Hbo. unfold UpdateStack in Hc'. destruct (GetStackKey old) as [key|]; [|by injection Hc' as <-].
  destruct (stackStates c !! key) as [st|] eqn:Hst; [|by injection Hc' as <-]. case_decide; [by injection Hc' as <-|].
  destruct (update_stack c old new) as [c1|] eqn:Hup; [|done].
  assert (keeps_stacks c (update_stack c old new)) as Hks by (apply ks_bind; auto with stacks).
  destruct (Hks c1 Hup) as [Ha Hs]. injection Hc' as <-. apply (bo_insert c c1); [done|done|done|exact (bo_open c Hbo _ _ Hst)|].
  rewrite Ha. apply union_subseteq_r.
Qed.

Lemma bo_remove c stack c' : fst <$> Cache_RemoveStack c stack = Some c' -> binding_open c -> binding_open c'.
Proof.
  intros Hc' Hbo. unfold Cache_RemoveStack in Hc'. destruct (GetStackKey stack) as [key|]; [|by injection Hc' as <-].
  destruct (stackStates c !! key) as [st|] eqn:Hst; [|by injection Hc' as <-]. case_decide; [by injection Hc' as <-|].
  destruct (remove_stack c (ss_stack st)) as [c1|] eqn:Hrm; [|done].
  destruct (ks_remove c _ c1 Hrm) as [Ha Hs]. injection Hc' as <-. apply (bo_delete c c1); [done|done|done| |]; by rewrite Ha.
Qed.

Lemma bo_step c o c' : any_step c o = Some c' -> binding_open c -> binding_open c'.
Proof using Hids.
  destruct o as [o|stack|old new|stack|w id metrics|now]; simpl; intros Hc' Hbo.
  - pose proof (ks_cache_step c o) as Hks. destruct o; try (by eapply bo_keeps); [by eapply bo_assume|by eapply bo_add].
  - by eapply bo_forget.
  - by eapply bo_update.
  - by eapply bo_remove.
  - eapply bo_keeps; [|exact Hc'|done]. apply ks_fst_bind, ks_update_site.
  - rewrite cleanup_idle in Hc' by done. by injection Hc' as <-.
Qed.

Lemma bo_steps os : forall c c', any_steps c os = Some c' -> binding_open c -> binding_open c'.
Proof using Hids.
  unfold any_steps. intros c c'. assert (forall m : option schedulerCache, (forall c1, m = Some c1 -> binding_open c1) ->
    foldl (fun m o => c ← m; any_step c o) m os = Some c' -> binding_open c') as H; [|intros ? ?; eapply H; [|done]; by intros ? [= <-]].
  induction os as [|o os IH]; simpl; intros m Hm Hc'; [by apply Hm|]. apply (IH _) in Hc'; [done|].
  intros c1. destruct m as [c0|]; [|done]. intros Hs. eapply bo_step; [exact Hs|by apply Hm].
Qed.

(** The periodic cleanup never expires an assumed stack.  After any sequence of the
    cache's methods every assumed stack has a state, so the cleanup does not abort; but
    nothing marks a binding as finished, so at whatever time it runs it leaves the cache
    as it was.  A stack that is assumed and then neither added nor forgotten stays. *)
Theorem assumed_stacks_never_expire g os c now : any_steps (newSchedulerCache g) os = Some c ->
  cleanupAssumedStacks range_ids c now = Some c ∧ forall key, key ∈ assumedStacks c -> is_Some (stackStates c !! key).
Proof using Hids.
  intros Hc. assert (binding_open c) as Hbo by (eapply bo_steps; [exact Hc|apply bo_new]).
  split; [by apply cleanup_idle|apply (bo_state c Hbo)].
Qed.

End AnyHistory.

Definition demo_history : list any_op :=
  [Op (OAddSite [] (demo_site "a" "r1" "az1")); Op (OAssumeStack (demo_placed "a" "u1")); Op (OAssumeStack (demo_placed "a" "u2"));
   OForgetStack (demo_placed "a" "u1"); OCleanup 5].

Lemma assumed_stacks_never_expire_witness :
  ∃ c, any_steps map_to_list demo_ids map_to_list (newSchedulerCache 0) demo_history = Some c ∧
    assumedStacks c = {["u2"%string]} ∧ cleanupAssumedStacks demo_ids c 1000000 = Some c.
Proof.
  destruct (any_steps map_to_list demo_ids map_to_list (newSchedulerCache 0) demo_history) as [c|] eqn:Hc; [|by vm_compute in Hc].
  exists c. split_and!; [done| |].
  - assert (assumedStacks <$> any_steps map_to_list demo_ids map_to_list (newSchedulerCache 0) demo_history = Some {["u2"%string]}) as H
      by (vm_compute; reflexivity). rewrite Hc in H. by injection H.
  - apply (assumed_stacks_never_expire map_to_list demo_ids map_to_list (fun X => reflexivity _) 0 demo_history c 1000000 Hc).
Defined.
