(* ===== verification/Labels.v ===== *)
(** * Label requirements

    Models the requirements of [globalscheduler/pkg/scheduler/labels/selector.go] and the
    label sets of [labels.go]: what the affinity of stacks is written in.  A requirement
    that [NewRequirement] accepts has one of nine operators; [Matches] is shown to decide
    the relation each of them stands for.  The text form of selectors is in [LabelParser]. *)
From S2P Require Import Prelude Types Strconv.

Local Open Scope Z_scope.

(** ** Operators *)

(** (labels/operator.go:19-31) *)
Inductive Operator := DoesNotExist | Equals | DoubleEquals | In | NotEquals | NotIn | Exists | GreaterThan | LessThan.

(** The operator written as a string; any other string is not recognized
    (labels/operator.go:21-31 Operator). *)
Definition operator_of (s : string) : option Operator :=
  if String.eqb s "!" then Some DoesNotExist else if String.eqb s "=" then Some Equals
  else if String.eqb s "==" then Some DoubleEquals else if String.eqb s "in" then Some In
  else if String.eqb s "!=" then Some NotEquals else if String.eqb s "notin" then Some NotIn
  else if String.eqb s "exists" then Some Exists else if String.eqb s "gt" then Some GreaterThan
  else if String.eqb s "lt" then Some LessThan else None.

(** ** Requirements *)

(** (labels/selector.go:131-138) *)
Record Requirement := mkRequirement { key : string; operator : Operator; strValues : list string }.

(** (labels/selector.go:31-31) *)
Definition LabelValueMaxLength : nat := 63.

(** (labels/selector.go:36-41) *)
Definition IsValidLabelValue (value : string) : result unit :=
  if Nat.ltb LabelValueMaxLength (String.length value) then Err "must be no more than 63 characters" else Ok tt.

(** (labels/selector.go:898-904) *)
Definition validateLabelKey (k : string) : result unit :=
  if String.eqb k "" then Err "invalid label key " else Ok tt.

(** (labels/selector.go:906-911) *)
Definition validateLabelValue (k v : string) : result unit := IsValidLabelValue v.

(** The number and the form of the values an operator asks for
    (labels/selector.go:175-199 NewRequirement). *)
Definition validate_values (op : Operator) (vals : list string) : result unit :=
  match op with
  | In | NotIn => if Nat.eqb (length vals) 0 then Err "for 'in', 'notin' operators, values set can't be empty" else Ok tt
  | Equals | DoubleEquals | NotEquals =>
      if Nat.eqb (length vals) 1 then Ok tt else Err "exact-match compatibility requires one single value"
  | Exists | DoesNotExist => if Nat.eqb (length vals) 0 then Ok tt else Err "values set must be empty for exists and does not exist"
  | GreaterThan | LessThan =>
      if Nat.eqb (length vals) 1 then
        if forallb (fun v => bool_decide (is_Some (ParseInt v))) vals then Ok tt
        else Err "for 'Gt', 'Lt' operators, the value must be an integer"
      else Err "for 'Gt', 'Lt' operators, exactly one value is required"
  end.

(** The first error among the values (labels/selector.go:201-205 NewRequirement). *)
Fixpoint validate_each (k : string) (vals : list string) : result unit :=
  match vals with
  | [] => Ok tt
  | v :: vals => match validateLabelValue k v with Err e => Err e | Ok _ => validate_each k vals end
  end.

(** (labels/selector.go:171-207) *)
Definition NewRequirement (k : string) (op : string) (vals : list string) : result Requirement :=
  match validateLabelKey k with
  | Err e => Err e
  | Ok _ =>
      match operator_of op with
      | None => Err ("operator '" +:+ op +:+ "' is not recognized")
      | Some o =>
          match validate_values o vals with
          | Err e => Err e
          | Ok _ => match validate_each k vals with Err e => Err e | Ok _ => Ok (mkRequirement k o vals) end
          end
      end
  end.

(** (labels/selector.go:209-216) *)
Definition hasValue (r : Requirement) (value : string) : bool := existsb (fun v => String.eqb v value) (strValues r).

(** [ls] is a set of labels (labels/selector.go:229-275 Matches). *)
Definition Requirement_Matches (r : Requirement) (ls : gmap string string) : bool :=
  match operator r with
  | In | Equals | DoubleEquals => match ls !! key r with None => false | Some v => hasValue r v end
  | NotIn | NotEquals => match ls !! key r with None => true | Some v => negb (hasValue r v) end
  | Exists => bool_decide (is_Some (ls !! key r))
  | DoesNotExist => negb (bool_decide (is_Some (ls !! key r)))
  | GreaterThan | LessThan =>
      match ls !! key r with
      | None => false
      | Some v =>
          match ParseInt v, strValues r with
          | Some lsValue, [s] =>
              match ParseInt s with
              | Some rValue => match operator r with GreaterThan => rValue <? lsValue | _ => lsValue <? rValue end
              | None => false
              end
          | _, _ => false
          end
      end
  end.

(** ** Selectors *)

(** The requirements, all of which must hold (labels/selector.go:100-100). *)
Definition internalSelector : Type := list Requirement.

(** (labels/selector.go:96-98) *)
Definition NewSelector : internalSelector := [].

(** (labels/selector.go:124-124 Less) *)
Definition by_key (a b : Requirement) : Prop := String.leb (key a) (key b) = true.
#[export] Instance by_key_dec a b : Decision (by_key a b).
Proof. unfold by_key. apply _. Defined.

(** [sort.Sort] leaves the order of requirements with equal keys open; here they keep
    it.  [Matches] does not depend on the order (labels/selector.go:364-379 Add). *)
Definition Selector_Add (lsel : internalSelector) (reqs : list Requirement) : internalSelector := merge_sort by_key (lsel ++ reqs).

(** (labels/selector.go:297-302 Empty) *)
Definition Selector_Empty (lsel : internalSelector) : bool := Nat.eqb (length lsel) 0.

(** (labels/selector.go:384-391 Matches) *)
Definition Selector_Matches (lsel : internalSelector) (ls : gmap string string) : bool := forallb (fun r => Requirement_Matches r ls) lsel.

(** ** Meaning *)

(** What a requirement asks of the value of its key. *)
Definition meaning (op : Operator) (vals : list string) (v : option string) : Prop :=
  match op with
  | In | Equals | DoubleEquals => ∃ x, v = Some x ∧ x ∈ vals
  | NotIn | NotEquals => forall x, v = Some x -> x ∉ vals
  | Exists => is_Some v
  | DoesNotExist => v = None
  | GreaterThan => ∃ x n s m, v = Some x ∧ ParseInt x = Some n ∧ vals = [s] ∧ ParseInt s = Some m ∧ m < n
  | LessThan => ∃ x n s m, v = Some x ∧ ParseInt x = Some n ∧ vals = [s] ∧ ParseInt s = Some m ∧ n < m
  end.

Lemma hasValue_spec r v : hasValue r v = true <-> v ∈ strValues r.
Proof.
  unfold hasValue. rewrite existsb_exists. split.
  - intros (x & Hx & ->%String.eqb_eq). by apply list_elem_of_In.
  - intros Hv. exists v. split; [by apply list_elem_of_In|apply String.eqb_refl].
Qed.

Lemma compare_meaning (cmp : Z -> Z -> bool) (rel : Z -> Z -> Prop) v vals : (forall n m, cmp n m = true <-> rel n m) ->
  match ParseInt v, vals with
  | Some n, [s] => match ParseInt s with Some m => cmp n m | None => false end
  | _, _ => false
  end = true <-> ∃ x n s m, Some v = Some x ∧ ParseInt x = Some n ∧ vals = [s] ∧ ParseInt s = Some m ∧ rel n m.
Proof.
  intros Hcmp. split.
  - destruct (ParseInt v) as [n|] eqn:Hn; [|done]. destruct vals as [|s [|]]; [done| |done].
    destruct (ParseInt s) as [m|] eqn:Hm; [|done]. intros ?%Hcmp. by exists v, n, s, m.
  - intros (x & n & s & m & [= <-] & -> & -> & -> & ?%Hcmp). done.
Qed.

(** [Matches] decides the meaning. *)
Lemma requirement_meaning r ls : Requirement_Matches r ls = true <-> meaning (operator r) (strValues r) (ls !! key r).
Proof.
  assert (forall v, (∃ x, Some v = Some x ∧ x ∈ strValues r) <-> v ∈ strValues r) as Hin.
  { intros v. split; [by intros (x & [= <-] & ?)|by exists v]. }
  assert (forall v, (forall x, Some v = Some x -> x ∉ strValues r) <-> v ∉ strValues r) as Hnot.
  { intros v. split; [auto|by intros ? x [= <-]]. }
  unfold Requirement_Matches, meaning. destruct (operator r), (ls !! key r) as [v|];
    rewrite ?negb_true_iff, <- ?not_true_iff_false, ?bool_decide_eq_true, ?hasValue_spec, ?Hin, ?Hnot;
    try (by split; [|intros (? & ? & ?)]); try (by split; [|intros (? & ? & ? & ? & ? & ?)]);
    try (by split; intros; eauto).
  - split; [intros H; exfalso; by apply H|done].
  - apply (compare_meaning (fun n m => m <? n) (fun n m => m < n)). intros n m. apply Z.ltb_lt.
  - apply (compare_meaning (fun n m => n <? m) (fun n m => n < m)). intros n m. apply Z.ltb_lt.
Qed.

Lemma selector_add_matches lsel reqs ls :
  Selector_Matches (Selector_Add lsel reqs) ls = true <-> forall r, r ∈ lsel ++ reqs -> Requirement_Matches r ls = true.
Proof.
  unfold Selector_Matches, Selector_Add. rewrite forallb_forall.
  split; intros H r Hr; apply H; apply list_elem_of_In in Hr || apply list_elem_of_In; by rewrite merge_sort_Permutation in *.
Qed.
