(* ===== verification/LabelParser.v ===== *)
(** * The text of label selectors

    Models the lexer, the parser and the printer of
    [globalscheduler/pkg/scheduler/labels/selector.go] and the label sets of [labels.go].
    The lexer's position is the rest of the string: [unread] gives back the character that
    was read last.  The parser's position is the rest of the scanned items; reading past
    them is a panic.  The theorems show that the parser returns for every input, and that
    what the printer writes is parsed back to the same requirements. *)
From S2P Require Import Prelude Types Strconv StringSets Labels.

Local Open Scope Z_scope.

(** ** Tokens *)

(** (labels/selector.go:423-454) *)
Inductive Token := ErrorToken | EndOfStringToken | ClosedParToken | CommaToken | DoesNotExistToken | DoubleEqualsToken | EqualsToken
  | GreaterThanToken | IdentifierToken | InToken | LessThanToken | NotEqualsToken | NotInToken | OpenParToken.

#[export] Instance Token_eq_dec : EqDecision Token.
Proof. solve_decision. Defined.

(** (labels/selector.go:458-470) *)
Definition string2token (s : string) : option Token :=
  if String.eqb s ")" then Some ClosedParToken else if String.eqb s "," then Some CommaToken
  else if String.eqb s "!" then Some DoesNotExistToken else if String.eqb s "==" then Some DoubleEqualsToken
  else if String.eqb s "=" then Some EqualsToken else if String.eqb s ">" then Some GreaterThanToken
  else if String.eqb s "in" then Some InToken else if String.eqb s "<" then Some LessThanToken
  else if String.eqb s "!=" then Some NotEqualsToken else if String.eqb s "notin" then Some NotInToken
  else if String.eqb s "(" then Some OpenParToken else None.

(** A token with its literal (labels/selector.go:473-476). *)
Definition ScannedItem : Type := Token * string.

Definition NUL : ascii := ascii_of_nat 0.

(** (labels/selector.go:479-481) *)
Definition isWhitespace (ch : ascii) : bool :=
  Ascii.eqb ch " " || Ascii.eqb ch (ascii_of_nat 9) || Ascii.eqb ch (ascii_of_nat 13) || Ascii.eqb ch (ascii_of_nat 10).

(** (labels/selector.go:484-490) *)
Definition isSpecialSymbol (ch : ascii) : bool :=
  Ascii.eqb ch "=" || Ascii.eqb ch "!" || Ascii.eqb ch "(" || Ascii.eqb ch ")" || Ascii.eqb ch "," || Ascii.eqb ch ">" || Ascii.eqb ch "<".

(** ** The lexer *)

Definition push (buffer : string) (ch : ascii) : string := buffer +:+ String ch "".

(** The loop of [scanIDOrKeyword]: the characters read and the rest; a NUL character is
    taken for the end and is passed over (labels/selector.go:519-531 scanIDOrKeyword). *)
Fixpoint scan_word (buffer s : string) : string * string :=
  match s with
  | EmptyString => (buffer, EmptyString)
  | String ch rest =>
      if Ascii.eqb ch NUL then (buffer, rest)
      else if isSpecialSymbol ch || isWhitespace ch then (buffer, s)
      else scan_word (push buffer ch) rest
  end.

(** (labels/selector.go:518-537) *)
Definition scanIDOrKeyword (s : string) : ScannedItem * string :=
  let '(w, rest) := scan_word "" s in
  match string2token w with Some tok => ((tok, w), rest) | None => ((IdentifierToken, w), rest) end.

(** (labels/selector.go:542-561 scanSpecialSymbol) *)
Fixpoint scan_symbol (last : option ScannedItem) (buffer s : string) : option ScannedItem * string * string :=
  match s with
  | EmptyString => (last, buffer, EmptyString)
  | String ch rest =>
      if Ascii.eqb ch NUL then (last, buffer, rest)
      else if isSpecialSymbol ch then
        let buffer := push buffer ch in
        match string2token buffer with
        | Some tok => scan_symbol (Some (tok, buffer)) buffer rest
        | None => match last with Some _ => (last, buffer, s) | None => scan_symbol None buffer rest end
        end
      else (last, buffer, s)
  end.

(** (labels/selector.go:541-566) *)
Definition scanSpecialSymbol (s : string) : ScannedItem * string :=
  match scan_symbol None "" s with
  | (Some item, _, rest) => (item, rest)
  | (None, buffer, rest) => ((ErrorToken, "error expected: keyword found '" +:+ buffer +:+ "'"), rest)
  end.

(** (labels/selector.go:570-577) *)
Fixpoint skipWhiteSpaces (s : string) : string :=
  match s with String ch rest => if isWhitespace ch then skipWhiteSpaces rest else s | EmptyString => EmptyString end.

(** (labels/selector.go:581-592) *)
Definition Lex (s : string) : ScannedItem * string :=
  match skipWhiteSpaces s with
  | EmptyString => ((EndOfStringToken, ""), EmptyString)
  | String ch rest =>
      if Ascii.eqb ch NUL then ((EndOfStringToken, ""), rest)
      else if isSpecialSymbol ch then scanSpecialSymbol (String ch rest)
      else scanIDOrKeyword (String ch rest)
  end%string.

(** The items up to the end of the string (labels/selector.go:641-649 scan). *)
Fixpoint scan_loop (fuel : nat) (s : string) : option (list ScannedItem) :=
  match fuel with
  | O => None
  | S fuel =>
      let '(item, rest) := Lex s in
      if decide (item.1 = EndOfStringToken) then Some [item]
      else items ← scan_loop fuel rest; Some (item :: items)
  end.

(** Every item takes a character (labels/selector.go:641-649). *)
Definition scan (s : string) : option (list ScannedItem) := scan_loop (S (String.length s)) s.

(** ** The parser *)

(** The token in the context of values: [in] and [notin] are identifiers
    (labels/selector.go:617-622 lookahead). *)
Definition as_value (tok : Token) : Token := match tok with InToken | NotInToken => IdentifierToken | _ => tok end.

(** The outcome of a parsing function: a panic, an error, or a value with the rest of the
    items. *)
Abbreviation parsed A := (option (result (A * list ScannedItem))).

Definition fail {A} (msg : string) : parsed A := Some (Err msg).
Definition give {A} (a : A) (items : list ScannedItem) : parsed A := Some (Ok (a, items)).

(** The current item in the context of values (labels/selector.go:615-624). *)
Definition lookahead (items : list ScannedItem) : option (Token * string) := '(tok, lit) ← head items; Some (as_value tok, lit).

(** The current item and those after it (labels/selector.go:627-637). *)
Definition consume (items : list ScannedItem) : option (Token * string * list ScannedItem) :=
  match items with [] => None | (tok, lit) :: items => Some (as_value tok, lit, items) end.

(** The key after the negation, if there is one
    (labels/selector.go:722-734 parseKeyAndInferOperator). *)
Definition parse_key (negated : bool) (tok : Token) (literal : string) (items : list ScannedItem) : parsed (string * option Operator) :=
  if decide (tok = IdentifierToken) then
    match validateLabelKey literal with
    | Err e => fail e
    | Ok _ =>
        '(t, _) ← lookahead items;
        give (literal, if negated then Some DoesNotExist else if decide (t = EndOfStringToken ∨ t = CommaToken) then Some Exists else None) items
    end
  else fail ("found '" +:+ literal +:+ "', expected: identifier").

(** The operator is the empty string when none is inferred
    (labels/selector.go:715-735). *)
Definition parseKeyAndInferOperator (items : list ScannedItem) : parsed (string * option Operator) :=
  '(tok, literal, items) ← consume items;
  if decide (tok = DoesNotExistToken) then '(tok, literal, items) ← consume items; parse_key true tok literal items
  else parse_key false tok literal items.

(** The token is not in the context of values (labels/selector.go:739-761). *)
Definition parseOperator (items : list ScannedItem) : parsed Operator :=
  match items with
  | [] => None
  | (tok, lit) :: items =>
      match tok with
      | InToken => give In items
      | EqualsToken => give Equals items
      | DoubleEqualsToken => give DoubleEquals items
      | GreaterThanToken => give GreaterThan items
      | LessThanToken => give LessThan items
      | NotInToken => give NotIn items
      | NotEqualsToken => give NotEquals items
      | _ => fail ("found '" +:+ lit +:+ "', expected: '=', '!=', '==', 'in', notin'")
      end
  end.

(** After an identifier of the list, and after a comma (labels/selector.go:790-823). *)
Fixpoint parseIdentifiersList (s : gset string) (items : list ScannedItem) : parsed (gset string) :=
  match items with
  | [] => None
  | (tok, lit) :: items =>
      match as_value tok with
      | IdentifierToken =>
          let s := Insert s [lit] in
          '(tok2, lit2) ← lookahead items;
          match tok2 with
          | CommaToken => parseIdentifiersList s items
          | ClosedParToken => give s items
          | _ => fail ("found '" +:+ lit2 +:+ "', expected: ',' or ')'")
          end
      | CommaToken =>
          let s := if Nat.eqb (set_Len s) 0 then Insert s [""] else s in
          match items with
          | [] => None
          | (tok2, _) :: items' =>
              match as_value tok2 with
              | ClosedParToken => give (Insert s [""]) items
              | CommaToken => parseIdentifiersList (Insert s [""]) items'
              | _ => parseIdentifiersList s items
              end
          end
      | _ => fail ("found '" +:+ lit +:+ "', expected: ',', or identifier")
      end
  end%string.

(** (labels/selector.go:764-786) *)
Definition parseValues (items : list ScannedItem) : parsed (gset string) :=
  '(tok, lit, items) ← consume items;
  if decide (tok = OpenParToken) then
    '(tok, lit) ← lookahead items;
    match tok with
    | IdentifierToken | CommaToken =>
        r ← parseIdentifiersList ∅ items;
        match r with
        | Err e => fail e
        | Ok (s, items) =>
            '(tok, _, items) ← consume items;
            if decide (tok = ClosedParToken) then give s items else fail ("found '" +:+ lit +:+ "', expected: ')'")
        end
    | ClosedParToken => '(_, _, items) ← consume items; give (NewString [""]) items
    | _ => fail ("found '" +:+ lit +:+ "', expected: ',', ')' or identifier")
    end
  else fail ("found '" +:+ lit +:+ "' expected: '('").

(** (labels/selector.go:826-841) *)
Definition parseExactValue (items : list ScannedItem) : parsed (gset string) :=
  '(tok, _) ← lookahead items;
  if decide (tok = EndOfStringToken ∨ tok = CommaToken) then give (NewString [""]) items
  else '(tok, lit, items) ← consume items;
    if decide (tok = IdentifierToken) then give (NewString [lit]) items
    else fail ("found '" +:+ lit +:+ "', expected: identifier").

(** The strings of the operators (labels/operator.go:21-31 Operator). *)
Definition operator_string (op : Operator) : string :=
  match op with
  | DoesNotExist => "!" | Equals => "=" | DoubleEquals => "==" | In => "in" | NotEquals => "!=" | NotIn => "notin"
  | Exists => "exists" | GreaterThan => "gt" | LessThan => "lt"
  end.

(** The requirement built from what was parsed (labels/selector.go:691-709 parseRequirement). *)
Definition build (key : string) (op : Operator) (vals : list string) (items : list ScannedItem) : parsed Requirement :=
  match NewRequirement key (operator_string op) vals with Err e => fail e | Ok r => give r items end.

Section Parser.
(** The order in which [range] visits a set. *)
Context (range : gset string -> list string).

(** (labels/selector.go:686-710) *)
Definition parseRequirement (items : list ScannedItem) : parsed Requirement :=
  r ← parseKeyAndInferOperator items;
  match r with
  | Err e => fail e
  | Ok (key, Some op, items) => build key op [] items
  | Ok (key, None, items) =>
      r ← parseOperator items;
      match r with
      | Err e => fail e
      | Ok (op, items) =>
          r ← match op with In | NotIn => parseValues items | _ => parseExactValue items end;
          match r with Err e => fail e | Ok (values, items) => build key op (set_List range values) items end
      end
  end.

(** One requirement per turn (labels/selector.go:657-683 parse). *)
Fixpoint parse_loop (fuel : nat) (requirements : internalSelector) (items : list ScannedItem) : option (result internalSelector) :=
  match fuel with
  | O => None
  | S fuel =>
      '(tok, lit) ← lookahead items;
      match tok with
      | IdentifierToken | DoesNotExistToken =>
          r ← parseRequirement items;
          match r with
          | Err e => Some (Err ("unable to parse requirement: " +:+ e))
          | Ok (r, items) =>
              let requirements := requirements ++ [r] in
              '(t, l, items) ← consume items;
              match t with
              | EndOfStringToken => Some (Ok requirements)
              | CommaToken =>
                  '(t2, l2) ← lookahead items;
                  if decide (t2 = IdentifierToken ∨ t2 = DoesNotExistToken) then parse_loop fuel requirements items
                  else Some (Err ("found '" +:+ l2 +:+ "', expected: identifier after ','"))
              | _ => Some (Err ("found '" +:+ l +:+ "', expected: ',' or 'end of string'"))
              end
          end
      | EndOfStringToken => Some (Ok requirements)
      | _ => Some (Err ("found '" +:+ lit +:+ "', expected: !, identifier, or 'end of string'"))
      end
  end.

(** Every turn takes an item (labels/selector.go:653-684 parse). *)
Definition parser_parse (s : string) : option (result internalSelector) := items ← scan s; parse_loop (length items) [] items.

(** The requirements are sorted as in [Selector_Add] (labels/selector.go:888-896). *)
Definition parse (selector : string) : option (result internalSelector) :=
  r ← parser_parse selector;
  Some (match r with Err e => Err e | Ok items => Ok (merge_sort by_key items) end).

(** No requirements are a nil slice (labels/selector.go:871-882). *)
Definition Parse (selector : string) : option (result internalSelector) :=
  r ← parse selector;
  Some (match r with Err e => Err e | Ok [] => Err "parse failed" | Ok sel => Ok sel end).

(** (labels/selector.go:955-957) *)
Definition ParseToRequirements (selector : string) : option (result internalSelector) := parse selector.
End Parser.

(** ** Printing *)


(** [sort.StringsAreSorted] and [sort.Strings] (labels/selector.go:353-361). *)
Definition safeSort (l : list string) : list string := if decide (Sorted String.le l) then l else merge_sort String.le l.

(** What is written between the key and the values, and after them
    (labels/selector.go:314-348 String). *)
Definition operator_text (op : Operator) : string * string :=
  match op with
  | Equals => ("=", "") | DoubleEquals => ("==", "") | NotEquals => ("!=", "") | In => (" in (", ")") | NotIn => (" notin (", ")")
  | GreaterThan => (">", "") | LessThan => ("<", "") | Exists | DoesNotExist => ("", "")
  end.

(** (labels/selector.go:337-343 String) *)
Definition values_text (l : list string) : string := match l with [v] => v | _ => Join (safeSort l) "," end.

(** (labels/selector.go:307-350 String) *)
Definition Requirement_String (r : Requirement) : string :=
  match operator r with
  | DoesNotExist => "!" +:+ key r
  | Exists => key r
  | op => key r +:+ (operator_text op).1 +:+ values_text (strValues r) +:+ (operator_text op).2
  end.

(** (labels/selector.go:397-403 String) *)
Definition Selector_String (lsel : internalSelector) : string := Join (Requirement_String <$> lsel) ",".

(** ** Selectors of sets *)

(** The first requirement on the label decides (labels/selector.go:407-420). *)
Fixpoint RequiresExactMatch (lsel : internalSelector) (label : string) : string * bool :=
  match lsel with
  | [] => ("", false)
  | r :: lsel =>
      if String.eqb (key r) label then
        match operator r, strValues r with
        | (Equals | DoubleEquals | In), [v] => (v, true)
        | _, _ => ("", false)
        end
      else RequiresExactMatch lsel label
  end%string.

(** (labels/selector.go:288-294 Values) *)
Definition Requirement_Values (r : Requirement) : gset string := NewString (strValues r).

Section LabelSets.
(** The order in which [range] visits a map. *)
Context (range : gmap string string -> list (string * string)).

(** The loop over the labels gives up at the first that is refused
    (labels/selector.go:920-928 SelectorFromSet). *)
Fixpoint set_requirements (l : list (string * string)) : option (list Requirement) :=
  match l with
  | [] => Some []
  | (label, value) :: l =>
      match NewRequirement label "=" [value] with Ok r => rs ← set_requirements l; Some (r :: rs) | Err _ => None end
  end.

(** (labels/selector.go:915-932) *)
Definition SelectorFromSet (ls : gmap string string) : internalSelector :=
  if Nat.eqb (size ls) 0 then [] else match set_requirements (range ls) with Some rs => merge_sort by_key rs | None => [] end.

(** (labels/selector.go:937-948) *)
Definition SelectorFromValidatedSet (ls : gmap string string) : internalSelector :=
  if Nat.eqb (size ls) 0 then [] else merge_sort by_key ((fun lv => mkRequirement lv.1 Equals [lv.2]) <$> range ls).

(** (labels/labels.go:39-47 String) *)
Definition Set_String (ls : gmap string string) : string :=
  Join (merge_sort String.le ((fun kv => kv.1 +:+ "=" +:+ kv.2) <$> range ls)) ",".

(** (labels/labels.go:75-81) *)
Definition FormatLabels (labelMap : gmap string string) : string :=
  let l := Set_String labelMap in if String.eqb l "" then "<none>" else l.

(** (labels/labels.go:85-102) *)
Definition Conflicts (labels1 labels2 : gmap string string) : bool :=
  let '(small, big) := if Nat.ltb (size labels2) (size labels1) then (labels2, labels1) else (labels1, labels2) in
  existsb (fun kv => match big !! kv.1 with Some val => negb (String.eqb val kv.2) | None => false end) (range small).

(** (labels/labels.go:106-116) *)
Definition Merge (labels1 labels2 : gmap string string) : gmap string string :=
  let put := foldl (fun m kv => <[kv.1 := kv.2]> m) in put (put ∅ (range labels1)) (range labels2).

(** The loop of [Equal] and of [AreLabelsInWhiteList]
    (labels/labels.go:124-133 Equal). *)
Definition all_in (l : list (string * string)) (labels : gmap string string) : bool :=
  forallb (fun kv => match labels !! kv.1 with Some value => String.eqb value kv.2 | None => false end) l.

(** (labels/labels.go:119-134 Equal) *)
Definition labels_Equal (labels1 labels2 : gmap string string) : bool :=
  if negb (Nat.eqb (size labels1) (size labels2)) then false else all_in (range labels1) labels2.

(** (labels/labels.go:138-153) *)
Definition AreLabelsInWhiteList (labels whitelist : gmap string string) : bool :=
  if Nat.eqb (size whitelist) 0 then true else all_in (range labels) whitelist.
End LabelSets.

(** ** The lexer and the parser return *)

Lemma scan_word_length s : forall buffer w rest, scan_word buffer s = (w, rest) -> (String.length rest <= String.length s)%nat.
Proof.
  induction s as [|ch s IH]; intros buffer w rest H; cbn in H; [simplify_eq; done|].
  repeat case_match; simplify_eq; cbn; [lia|lia|]. apply IH in H. lia.
Qed.

Lemma scan_symbol_length s : forall last buffer r, scan_symbol last buffer s = r -> (String.length r.2 <= String.length s)%nat.
Proof.
  induction s as [|ch s IH]; intros last buffer r H; cbn in H; [subst; done|].
  repeat case_match; subst; cbn; try lia; (etransitivity; [by eapply IH|lia]).
Qed.

Lemma skip_length s : (String.length (skipWhiteSpaces s) <= String.length s)%nat.
Proof. induction s as [|ch s IH]; cbn; [done|]. case_match; cbn; lia. Qed.

(** Every item but the last takes at least one character. *)
Lemma lex_shorter s item rest : Lex s = (item, rest) -> item.1 = EndOfStringToken ∨ (String.length rest < String.length s)%nat.
Proof.
  unfold Lex. pose proof (skip_length s) as Hl. destruct (skipWhiteSpaces s) as [|ch s'] eqn:E; intros H; [simplify_eq; by left|].
  destruct (Ascii.eqb ch NUL) eqn:Enul; [simplify_eq; by left|]. right. cbn in Hl.
  destruct (isSpecialSymbol ch) eqn:Esp.
  - unfold scanSpecialSymbol in H. cbn in H. rewrite Enul, Esp in H.
    enough (String.length rest <= String.length s')%nat by lia.
    destruct (string2token _); match type of H with context [scan_symbol ?a ?b ?c] => pose proof (scan_symbol_length c a b _ eq_refl) as Hs;
      destruct (scan_symbol a b c) as [[[?|] ?] ?] end; by simplify_eq.
  - unfold scanIDOrKeyword in H. cbn in H. rewrite Enul, Esp in H. destruct (isWhitespace ch) eqn:Ew.
    { exfalso. clear -E Ew. induction s as [|c s IH]; cbn in E; [done|]. case_match; [auto|congruence]. }
    cbn in H. destruct (scan_word _ s') as [w r] eqn:Esc. apply scan_word_length in Esc. case_match; simplify_eq; lia.
Qed.

(** The items of a string, as the lexer gives them. *)
Inductive lexes : string -> list ScannedItem -> Prop :=
| lexes_end s lit rest : Lex s = ((EndOfStringToken, lit), rest) -> lexes s [(EndOfStringToken, lit)]
| lexes_item s item rest items : Lex s = (item, rest) -> item.1 ≠ EndOfStringToken -> lexes rest items -> lexes s (item :: items).

Lemma lexes_scan_loop s items : lexes s items -> forall fuel, (String.length s < fuel)%nat -> scan_loop fuel s = Some items.
Proof.
  induction 1 as [s lit rest HL|s item rest items HL Hne Hlex IH]; intros [|fuel] Hf; try lia; cbn; rewrite HL; [done|].
  destruct (lex_shorter _ _ _ HL) as [?|Hlt]; [done|]. rewrite decide_False by done. by rewrite IH by lia.
Qed.

Lemma lexes_scan s items : lexes s items -> scan s = Some items.
Proof. intros H. apply (lexes_scan_loop _ _ H). lia. Qed.

Lemma lexes_total s : ∃ items, lexes s items.
Proof.
  induction s as [s IH] using (well_founded_induction (well_founded_ltof _ String.length)). unfold ltof in IH.
  destruct (Lex s) as [[tok lit] rest] eqn:HL. destruct (decide (tok = EndOfStringToken)) as [->|Hne].
  - eexists. by eapply lexes_end.
  - destruct (lex_shorter _ _ _ HL) as [?|Hlt]; [done|]. destruct (IH _ Hlt) as (items & Hi). eexists. by eapply lexes_item.
Qed.

(** The parser may not pass the end of the string: it is the last item, and the only one
    of its kind that matters. *)
Definition ends (items : list ScannedItem) : Prop := ∃ lit, last items = Some (EndOfStringToken, lit).

Lemma lexes_ends s items : lexes s items -> ends items.
Proof. induction 1 as [s lit rest HL|s item rest items HL Hne Hlex (lit & IH)]; [by exists lit|]. exists lit. by rewrite last_cons, IH. Qed.

Lemma ends_inv items : ends items -> ∃ tok lit rest, items = (tok, lit) :: rest ∧ (tok ≠ EndOfStringToken -> ends rest).
Proof.
  intros (l & H). destruct items as [|[tok lit] rest]; [done|]. exists tok, lit, rest. split; [done|]. intros Hne. exists l.
  rewrite last_cons in H. destruct (last rest); congruence.
Qed.

(** The outcome is an error, or it leaves fewer than [n] items. *)
Definition safe {A} (n : nat) (p : parsed A) : Prop :=
  match p with None => False | Some (Err _) => True | Some (Ok (_, rest)) => ends rest ∧ (length rest < n)%nat end.

Lemma safe_mono {A} n m (p : parsed A) : (n <= m)%nat -> safe n p -> safe m p.
Proof. destruct p as [[[a rest]|e]|]; cbn; intuition lia. Qed.

Ltac next_item H :=
  let tok := fresh "tok" in let lit := fresh "lit" in let rest := fresh "rest" in let E := fresh "E" in let Hr := fresh "Hr" in
  apply ends_inv in H as (tok & lit & rest & E & Hr); subst.

Lemma parse_key_safe negated tok lit items : (tok = IdentifierToken -> ends items) -> safe (S (length items)) (parse_key negated tok lit items).
Proof.
  intros H. unfold parse_key. case_decide as Et; [|done]. case_match; [|done]. specialize (H Et). assert (Hi := H). next_item H.
  cbn. auto with lia.
Qed.

Lemma key_safe items : ends items -> safe (length items) (parseKeyAndInferOperator items).
Proof.
  intros H. next_item H. unfold parseKeyAndInferOperator. cbn. destruct (decide (as_value tok = DoesNotExistToken)) as [Ed|Ed].
  - assert (ends rest) as H by (apply Hr; by destruct tok). next_item H. cbn.
    eapply safe_mono, parse_key_safe; [lia|]. intros Ei. apply Hr0. by destruct tok0.
  - apply parse_key_safe. intros Ei. apply Hr. by destruct tok.
Qed.

Lemma operator_safe items : ends items -> safe (length items) (parseOperator items).
Proof. intros H. next_item H. destruct tok; cbn; auto with lia. Qed.

Lemma identifiers_safe items : forall s, ends items -> safe (length items) (parseIdentifiersList s items).
Proof.
  induction items as [items IH] using (well_founded_induction (well_founded_ltof _ length)). unfold ltof in IH.
  intros s H. next_item H. cbn [parseIdentifiersList length].
  destruct (as_value tok) eqn:Et; try done.
  - assert (ends rest) as H by (apply Hr; by destruct tok). assert (He := H). next_item H.
    destruct (as_value tok0) eqn:Et0; try (eapply safe_mono, IH; cbn; [lia..|done]); cbn; [auto with lia|].
    eapply safe_mono, IH; [lia|cbn; lia|apply Hr0; by destruct tok0].
  - assert (ends rest) as H by (apply Hr; by destruct tok). assert (He := H). next_item H. cbn [lookahead head mbind option_bind].
    destruct (as_value tok0); try done; [cbn; auto with lia|]. eapply safe_mono, IH; cbn; [lia..|done].
Qed.

Lemma values_safe items : ends items -> safe (length items) (parseValues items).
Proof.
  intros H. next_item H. unfold parseValues. cbn [consume mbind option_bind length].
  case_decide as Eo; [|done]. assert (ends rest) as H by (apply Hr; by destruct tok). assert (He := H). next_item H.
  cbn [lookahead head mbind option_bind].
  assert (∀ p : parsed (gset string), safe (length ((tok0, lit0) :: rest0)) p ->
    safe (S (length ((tok0, lit0) :: rest0))) (r ← p; match r with
      | Err e => fail e
      | Ok (s, items) => '(tok, _, items) ← consume items;
          if decide (tok = ClosedParToken) then give s items else fail ("found '" +:+ lit0 +:+ "', expected: ')'")
      end)) as Hthen.
  { intros [[[s items]|e]|]; cbn; [|done..]. intros [Hi Hl]. next_item Hi. cbn in *. case_decide as Ec; [|done]. cbn.
    split; [apply Hr1; by destruct tok1|lia]. }
  destruct (as_value tok0) eqn:Et0; try done; try (by apply Hthen, identifiers_safe).
  cbn. split; [apply Hr0; by destruct tok0|lia].
Qed.

Lemma exact_safe items : ends items -> safe (S (length items)) (parseExactValue items).
Proof.
  intros H. assert (He := H). next_item H. unfold parseExactValue. cbn. case_decide; cbn; [auto with lia|].
  case_decide as Ei; [|done]. cbn. split; [apply Hr; by destruct tok|lia].
Qed.

Lemma build_safe k op vals items n : ends items -> (length items < n)%nat -> safe n (build k op vals items).
Proof. intros. unfold build. by case_match. Qed.

Section Returns.
Context (range : gset string -> list string).

Lemma requirement_safe items : ends items -> safe (length items) (parseRequirement range items).
Proof.
  intros H. unfold parseRequirement. pose proof (key_safe items H) as Hk.
  destruct (parseKeyAndInferOperator items) as [[[[k [op|]] rest]|e]|]; cbn in *; try done; [destruct Hk; by apply build_safe|].
  destruct Hk as [He Hl]. pose proof (operator_safe rest He) as Ho.
  destruct (parseOperator rest) as [[[op rest']|e]|]; cbn in *; try done. destruct Ho as [He' Hl'].
  assert (safe (S (length rest')) (match op with In | NotIn => parseValues rest' | _ => parseExactValue rest' end)) as Hv.
  { destruct op; try (by apply exact_safe); eapply safe_mono, values_safe; auto. }
  destruct (match op with In | NotIn => _ | _ => _ end) as [[[vs rest'']|e]|]; cbn in *; try done.
  destruct Hv. apply build_safe; [done|lia].
Qed.

Lemma parse_loop_total fuel : forall reqs items, ends items -> (length items <= fuel)%nat -> is_Some (parse_loop range fuel reqs items).
Proof.
  induction fuel as [|fuel IH]; intros reqs items H Hf; assert (He := H); next_item H; cbn in Hf; [lia|].
  cbn [parse_loop lookahead head mbind option_bind].
  pose proof (requirement_safe _ He) as Hs. set (p := parseRequirement _ _) in *. clearbody p.
  assert (is_Some (r ← p; match r with
      | Err e => Some (Err ("unable to parse requirement: " +:+ e))
      | Ok (r, items) => '(t, l, items) ← consume items;
          match t with
          | EndOfStringToken => Some (Ok (reqs ++ [r]))
          | CommaToken => '(t2, l2) ← lookahead items;
              if decide (t2 = IdentifierToken ∨ t2 = DoesNotExistToken) then parse_loop range fuel (reqs ++ [r]) items
              else Some (Err ("found '" +:+ l2 +:+ "', expected: identifier after ','"))
          | _ => Some (Err ("found '" +:+ l +:+ "', expected: ',' or 'end of string'"))
          end
      end)) as Hthen.
  { destruct p as [[[r items]|e]|]; cbn in *; try done. destruct Hs as [Hi Hl]. next_item Hi. cbn.
    destruct (as_value tok0) eqn:Et; try done. assert (ends rest0) as Hi by (apply Hr0; by destruct tok0). assert (Hi' := Hi).
    next_item Hi. cbn in *. case_decide; [|done]. apply IH; [done|cbn; lia]. }
  destruct (as_value tok); done.
Qed.

Lemma parse_total s : is_Some (parse range s).
Proof.
  destruct (lexes_total s) as (items & Hi). unfold parse, parser_parse. rewrite (lexes_scan _ _ Hi). cbn.
  destruct (parse_loop_total (length items) [] items (lexes_ends _ _ Hi)) as [r ->]; [done|]. cbn. by eexists.
Qed.
End Returns.

(** ** What is printed is lexed *)

Definition word_char (c : ascii) : bool := negb (Ascii.eqb c NUL || isSpecialSymbol c || isWhitespace c).
Fixpoint word (s : string) : bool := match s with EmptyString => true | String c s => word_char c && word s end.

(** A word ends before this text. *)
Definition delimiter (s : string) : Prop := match s with EmptyString => True | String c _ => isSpecialSymbol c = true ∨ isWhitespace c = true end.

(** A symbol ends before this text. *)
Definition calm (s : string) : Prop := match s with EmptyString => True | String c _ => c ≠ NUL ∧ c ≠ "="%char end.

Definition word_token (w : string) : Token := match string2token w with Some tok => tok | None => IdentifierToken end.
Definition word_item (w : string) : ScannedItem := (word_token w, w).

Lemma word_char_false c : word_char c = true -> Ascii.eqb c NUL = false ∧ isSpecialSymbol c = false ∧ isWhitespace c = false.
Proof. unfold word_char. rewrite negb_true_iff, !orb_false_iff. tauto. Qed.

Lemma word_char_calm c s : word_char c = true -> calm (String c s).
Proof.
  intros (Hn & Hs & _)%word_char_false. cbn. split; [|by intros ->]. intros ->. by rewrite Ascii.eqb_refl in Hn.
Qed.

Lemma delimiter_not_nul c s : delimiter (String c s) -> Ascii.eqb c NUL = false.
Proof. cbn. destruct (Ascii.eqb_spec c NUL) as [->|]; [|done]. by intros [?|?]. Qed.

Lemma calm_word w rest : word w = true -> calm rest -> calm (w +:+ rest).
Proof. destruct w as [|c w]; [done|]. cbn [word]. rewrite andb_true_iff. intros [Hc _] _. by apply word_char_calm. Qed.

Lemma scan_word_app w : forall buffer rest, word w = true -> delimiter rest -> scan_word buffer (w +:+ rest) = (buffer +:+ w, rest).
Proof.
  induction w as [|c w IH]; intros buffer rest Hw Hd.
  - rewrite string_app_nil. destruct rest as [|c rest]; [done|]. change ("" +:+ String c rest) with (String c rest). cbn [scan_word].
    rewrite (delimiter_not_nul _ _ Hd). destruct Hd as [->| ->]; [done|]. by rewrite orb_true_r.
  - apply andb_true_iff in Hw as [Hc Hw]. apply word_char_false in Hc as (Hn & Hs & Hb).
    change (String c w +:+ rest) with (String c (w +:+ rest)). cbn [scan_word]. rewrite Hn, Hs, Hb. cbn [orb]. rewrite IH by done.
    unfold push. by rewrite <- string_app_assoc.
Qed.

Lemma lex_word w rest : w ≠ ""%string -> word w = true -> delimiter rest -> Lex (w +:+ rest) = (word_item w, rest).
Proof.
  intros Hne Hw Hd. destruct w as [|c w]; [done|]. pose proof Hw as Hw'. cbn in Hw'. apply andb_true_iff in Hw' as [Hc _].
  apply word_char_false in Hc as (Hn & Hs & Hb). unfold Lex.
  change (String c w +:+ rest) with (String c (w +:+ rest)). cbn [skipWhiteSpaces]. rewrite Hb, Hn, Hs.
  change (String c (w +:+ rest)) with (String c w +:+ rest). unfold scanIDOrKeyword. rewrite scan_word_app by done.
  unfold word_item, word_token. change ("" +:+ String c w) with (String c w). by destruct (string2token _).
Qed.

(** A word may be a keyword, but never a symbol. *)
Lemma word_is_identifier w : word w = true -> as_value (word_token w) = IdentifierToken ∧ word_token w ≠ EndOfStringToken.
Proof.
  intros Hw. unfold word_token, string2token.
  repeat match goal with |- context [String.eqb ?a ?b] => destruct (String.eqb_spec a b) as [->|]; [done|] end. done.
Qed.

Definition symbols : list (string * Token) :=
  [(")", ClosedParToken); (",", CommaToken); ("!", DoesNotExistToken); ("==", DoubleEqualsToken); ("=", EqualsToken);
   (">", GreaterThanToken); ("<", LessThanToken); ("!=", NotEqualsToken); ("(", OpenParToken)]%string.

Lemma special_cases c : isSpecialSymbol c = true -> c ∈ ["="; "!"; "("; ")"; ","; ">"; "<"]%char.
Proof. unfold isSpecialSymbol. rewrite !orb_true_iff, !Ascii.eqb_eq, !elem_of_cons. tauto. Qed.

(** No symbol is a proper prefix of another, but for the sign of equality after it. *)
Lemma symbol_stops sym tok rest : (sym, tok) ∈ symbols -> calm rest -> scan_symbol (Some (tok, sym)) sym rest =
  (Some (tok, sym), match rest with String c _ => if isSpecialSymbol c then push sym c else sym | EmptyString => sym end, rest).
Proof.
  intros Hs Hc. destruct rest as [|c rest]; [done|]. destruct Hc as [Hn He]. apply Ascii.eqb_neq in Hn. cbn [scan_symbol]. rewrite Hn.
  destruct (isSpecialSymbol c) eqn:Esp; [|done]. apply special_cases in Esp. clear Hn.
  assert (string2token (push sym c) = None) as ->; [|done]. unfold symbols in Hs. rewrite !elem_of_cons, elem_of_nil in Hs.
  rewrite !elem_of_cons, elem_of_nil in Esp.
  naive_solver.
Qed.

Lemma lex_symbol sym tok rest : (sym, tok) ∈ symbols -> calm rest -> Lex (sym +:+ rest) = ((tok, sym), rest).
Proof.
  intros Hs Hc. transitivity (match scan_symbol (Some (tok, sym)) sym rest with
    | (Some item, _, rest) => (item, rest)
    | (None, buffer, rest) => ((ErrorToken, "error expected: keyword found '" +:+ buffer +:+ "'"), rest)
    end); [|by rewrite symbol_stops].
  unfold symbols in Hs. rewrite !elem_of_cons, elem_of_nil in Hs. naive_solver.
Qed.

Lemma lexes_word w rest items : w ≠ ""%string -> word w = true -> delimiter rest -> lexes rest items -> lexes (w +:+ rest) (word_item w :: items).
Proof. intros Hne Hw Hd H. eapply lexes_item; [by apply lex_word|by apply (word_is_identifier w)|done]. Qed.

Lemma lexes_symbol sym tok rest items : (sym, tok) ∈ symbols -> calm rest -> lexes rest items -> lexes (sym +:+ rest) ((tok, sym) :: items).
Proof.
  intros Hs Hc H. eapply lexes_item; [by apply lex_symbol| |done]. unfold symbols in Hs. rewrite !elem_of_cons, elem_of_nil in Hs. naive_solver.
Qed.

Lemma lexes_space s items : lexes s items -> lexes (" " +:+ s) items.
Proof. destruct 1; [eapply lexes_end|eapply lexes_item]; eauto. Qed.

(** The items of a value: none for the empty one. *)
Definition value_items (v : string) : list ScannedItem := if decide (v = "")%string then [] else [word_item v].

Fixpoint join_items (l : list string) : list ScannedItem :=
  match l with [] => [] | [v] => value_items v | v :: l => value_items v ++ (CommaToken, ","%string) :: join_items l end.

Lemma lexes_value v rest items : word v = true -> delimiter rest -> lexes rest items -> lexes (v +:+ rest) (value_items v ++ items).
Proof. intros Hw Hd H. unfold value_items. case_decide as E; [by subst|]. by apply lexes_word. Qed.

Lemma calm_join l rest : Forall (fun v => word v = true) l -> calm rest -> calm (Join l "," +:+ rest).
Proof.
  intros H Hc. destruct l as [|v [|w l]]; [done| |]; apply Forall_cons_1 in H as [Hv _]; [by apply calm_word|].
  rewrite join_cons, <- string_app_assoc. by apply calm_word.
Qed.

Lemma lexes_join l rest items : Forall (fun v => word v = true) l -> delimiter rest -> calm rest -> lexes rest items ->
  lexes (Join l "," +:+ rest) (join_items l ++ items).
Proof.
  intros H Hd Hc Hl. induction H as [|v l Hv H IH]; [done|]. destruct l as [|w l]; [by apply lexes_value|].
  rewrite join_cons, <- !string_app_assoc. cbn [join_items]. rewrite <- app_assoc. apply lexes_value; [done|by left|].
  rewrite <- app_comm_cons. apply lexes_symbol; [unfold symbols; set_solver|by apply calm_join|done].
Qed.

(** The items of an operator, and what closes it. *)
Definition operator_items (op : Operator) : list ScannedItem :=
  match op with
  | Equals => [(EqualsToken, "=")] | DoubleEquals => [(DoubleEqualsToken, "==")] | NotEquals => [(NotEqualsToken, "!=")]
  | In => [(InToken, "in"); (OpenParToken, "(")] | NotIn => [(NotInToken, "notin"); (OpenParToken, "(")]
  | GreaterThan => [(GreaterThanToken, ">")] | LessThan => [(LessThanToken, "<")] | Exists | DoesNotExist => []
  end%string.
Definition closing_items (op : Operator) : list ScannedItem := match op with In | NotIn => [(ClosedParToken, ")")] | _ => [] end%string.

Definition requirement_items (r : Requirement) : list ScannedItem :=
  match operator r with
  | DoesNotExist => [(DoesNotExistToken, "!"%string); word_item (key r)]
  | Exists => [word_item (key r)]
  | op => word_item (key r) :: operator_items op ++ join_items (merge_sort String.le (strValues r)) ++ closing_items op
  end.

(** The text ends or goes on after a comma. *)
Definition follows (rest : string) : Prop := rest = ""%string ∨ ∃ s, rest = "," +:+ s.

Lemma follows_delimiter rest : follows rest -> delimiter rest ∧ calm rest.
Proof. intros [->|(s & ->)]; repeat split; try done. by left. Qed.

Lemma lexes_closing op rest items : follows rest -> lexes rest items ->
  let s := (operator_text op).2 +:+ rest in delimiter s ∧ calm s ∧ lexes s (closing_items op ++ items).
Proof.
  intros [Hd Hc]%follows_delimiter Hl.
  destruct op; cbn [operator_text snd closing_items]; try (by change ("" +:+ rest) with rest);
    (split; [by left|]; split; [done|]; apply lexes_symbol; [unfold symbols; set_solver|done|done]).
Qed.

Lemma lexes_operator op s items : op ≠ Exists -> op ≠ DoesNotExist -> calm s -> lexes s items ->
  let t := (operator_text op).1 +:+ s in delimiter t ∧ lexes t (operator_items op ++ items).
Proof.
  intros H1 H2 Hc Hl. destruct op; cbn [operator_text fst operator_items]; try done;
    try (split; [by left|]; apply lexes_symbol; [unfold symbols; set_solver|done|done]).
  - split; [by right|]. change (" in (" +:+ s) with (" " +:+ ("in" +:+ (" " +:+ ("(" +:+ s)))).
    apply lexes_space. apply (lexes_word "in"); [done|done|by right|]. apply lexes_space, lexes_symbol; [unfold symbols; set_solver|done..].
  - split; [by right|]. change (" notin (" +:+ s) with (" " +:+ ("notin" +:+ (" " +:+ ("(" +:+ s)))).
    apply lexes_space. apply (lexes_word "notin"); [done|done|by right|]. apply lexes_space, lexes_symbol; [unfold symbols; set_solver|done..].
Qed.

Lemma sort_sorted l : Sorted String.le l -> merge_sort String.le l = l.
Proof.
  intros H. apply (Sorted_unique String.le); [apply (Sorted_merge_sort _)|done|apply merge_sort_Permutation].
Qed.

Lemma safe_sort l : safeSort l = merge_sort String.le l.
Proof. unfold safeSort. case_decide; [by rewrite sort_sorted|done]. Qed.

Lemma values_text_join l : values_text l = Join (merge_sort String.le l) ",".
Proof. unfold values_text. destruct l as [|v [|w l]]; by rewrite ?safe_sort. Qed.

(** A requirement that [NewRequirement] accepts, whose key and values are words, none of the
    values given twice. *)
Definition printable (r : Requirement) : Prop :=
  NewRequirement (key r) (operator_string (operator r)) (strValues r) = Ok r ∧ word (key r) = true ∧
  Forall (fun v => word v = true) (strValues r) ∧ NoDup (strValues r).

#[export] Instance Operator_eq_dec : EqDecision Operator.
Proof. solve_decision. Defined.
#[export] Instance Requirement_eq_dec : EqDecision Requirement.
Proof. solve_decision. Defined.
#[export] Instance result_eq_dec {A} `{EqDecision A} : EqDecision (result A).
Proof. solve_decision. Defined.
#[export] Instance printable_dec r : Decision (printable r).
Proof. unfold printable. apply _. Defined.

Lemma printable_key r : printable r -> key r ≠ ""%string ∧ validateLabelKey (key r) = Ok tt.
Proof.
  intros (H & _). unfold NewRequirement, validateLabelKey in *. destruct (String.eqb_spec (key r) ""); [done|]. by split.
Qed.

Lemma lexes_requirement r rest items : printable r -> follows rest -> lexes rest items ->
  lexes (Requirement_String r +:+ rest) (requirement_items r ++ items).
Proof.
  intros Hp Hf Hl. destruct (printable_key r Hp) as [Hk _]. destruct Hp as (_ & Hw & Hvals & _).
  destruct (follows_delimiter _ Hf) as [Hd Hc]. destruct (lexes_closing (operator r) rest items Hf Hl) as (Hd2 & Hc2 & Hl2).
  assert (Forall (λ v, word v = true) (merge_sort String.le (strValues r))) as Hs by (by rewrite merge_sort_Permutation).
  unfold Requirement_String, requirement_items. rewrite values_text_join. destruct (decide (operator r = Exists ∨ operator r = DoesNotExist)) as [[E|E]|E].
  - rewrite E. by apply lexes_word.
  - rewrite E, <- string_app_assoc. apply lexes_symbol; [unfold symbols; set_solver|by apply calm_word|]. by apply lexes_word.
  - destruct (lexes_operator (operator r) _ _ ltac:(tauto) ltac:(tauto) (calm_join _ _ Hs Hc2) (lexes_join _ _ _ Hs Hd2 Hc2 Hl2)) as [Hd3 Hl3].
    pose proof (lexes_word _ _ _ Hk Hw Hd3 Hl3) as H. rewrite !string_app_assoc in H.
    destruct (operator r); try tauto; rewrite <- app_comm_cons, <- !app_assoc, !string_app_assoc; exact H.
Qed.

(** The items of a selector. *)
Fixpoint selector_items (lsel : internalSelector) : list ScannedItem :=
  match lsel with
  | [] => [(EndOfStringToken, ""%string)]
  | [r] => requirement_items r ++ [(EndOfStringToken, ""%string)]
  | r :: lsel => requirement_items r ++ (CommaToken, ","%string) :: selector_items lsel
  end.

Lemma requirement_calm r rest : printable r -> calm (Requirement_String r +:+ rest).
Proof.
  intros Hp. destruct (printable_key r Hp) as [Hk _]. destruct Hp as (_ & Hw & _). unfold Requirement_String.
  destruct (key r) as [|c s]; [done|]. cbn in Hw. apply andb_true_iff in Hw as [Hw _].
  destruct (operator r); rewrite <- ?string_app_assoc; try (by apply word_char_calm). done.
Qed.

Lemma lexes_selector lsel : Forall printable lsel -> lexes (Selector_String lsel) (selector_items lsel).
Proof.
  unfold Selector_String. induction 1 as [|r lsel Hr H IH]; [by eapply lexes_end|]. destruct lsel as [|r' lsel].
  - cbn. rewrite <- (string_app_nil (Requirement_String r)). apply lexes_requirement; [done|by left|by eapply lexes_end].
  - rewrite !fmap_cons, join_cons. apply lexes_requirement; [done|right; eauto|]. apply Forall_cons_1 in H as [Hr' _].
    apply lexes_symbol; [unfold symbols; set_solver| |done]. destruct lsel as [|r'' lsel].
    + cbn. rewrite <- (string_app_nil (Requirement_String r')). by apply requirement_calm.
    + rewrite fmap_cons, join_cons. by apply requirement_calm.
Qed.

(** ** What is printed is parsed *)

Lemma lookahead_word v items : word v = true -> lookahead (word_item v :: items) = Some (IdentifierToken, v).
Proof. intros [H _]%word_is_identifier. cbn. by rewrite H. Qed.

Lemma consume_word v items : word v = true -> consume (word_item v :: items) = Some (IdentifierToken, v, items).
Proof. intros [H _]%word_is_identifier. cbn. by rewrite H. Qed.

Lemma insert_not_empty s v : set_Len (Insert s [v]) ≠ 0%nat.
Proof. unfold set_Len, Insert. cbn. intros E%size_empty_iff. set_solver. Qed.

(** A value that is not the empty string. *)
Definition proper (v : string) : Prop := v ≠ ""%string ∧ word v = true.

Lemma join_head v l : proper v -> ∃ items, join_items (v :: l) = word_item v :: items.
Proof. intros [Hv _]. destruct l; cbn [join_items]; unfold value_items at 1; rewrite decide_False by done; eauto. Qed.

Lemma identifiers_comma s v items : proper v ->
  parseIdentifiersList s ((CommaToken, ","%string) :: word_item v :: items) =
  parseIdentifiersList (if Nat.eqb (set_Len s) 0 then Insert s [""%string] else s) (word_item v :: items).
Proof. intros [_ [Hv _]%word_is_identifier]. cbn. by rewrite Hv. Qed.

Lemma identifiers_list l rest : forall v s, Forall proper (v :: l) ->
  parseIdentifiersList s (join_items (v :: l) ++ (ClosedParToken, ")"%string) :: rest) = give (Insert s (v :: l)) ((ClosedParToken, ")"%string) :: rest).
Proof.
  induction l as [|w l IH]; intros v s [Hv H]%Forall_cons_1.
  - cbn. unfold value_items. rewrite decide_False by apply Hv. cbn. by rewrite (proj1 (word_is_identifier v (proj2 Hv))).
  - assert (join_items (v :: w :: l) = word_item v :: (CommaToken, ","%string) :: join_items (w :: l)) as ->.
    { cbn [join_items]. unfold value_items at 1. by rewrite decide_False by apply Hv. }
    transitivity (parseIdentifiersList (Insert s [v]) ((CommaToken, ","%string) :: join_items (w :: l) ++ (ClosedParToken, ")"%string) :: rest)).
    { rewrite <- app_comm_cons. cbn. by rewrite (proj1 (word_is_identifier v (proj2 Hv))). }
    destruct (join_head w l) as [items E]; [by inversion H|].
    rewrite E. rewrite <- app_comm_cons, identifiers_comma by (by inversion H).
    rewrite (proj2 (Nat.eqb_neq _ _) (insert_not_empty s v)), app_comm_cons, <- E. by rewrite IH.
Qed.

Lemma le_empty s : String.le s "" -> s = ""%string.
Proof. by destruct s. Qed.

(** In a sorted list without repetitions only the first value may be empty. *)
Lemma sorted_proper v l : StronglySorted String.le (v :: l) -> NoDup (v :: l) -> Forall (fun v => word v = true) l -> Forall proper l.
Proof.
  intros [_ Hle]%StronglySorted_inv [Hv _]%NoDup_cons Hw. rewrite Forall_forall in *. intros x Hx. split; [|by apply Hw].
  intros ->. apply Hv. specialize (Hle _ Hx). by apply le_empty in Hle as ->.
Qed.

Lemma values_parsed l rest : l ≠ [] -> StronglySorted String.le l -> NoDup l -> Forall (fun v => word v = true) l ->
  parseValues ((OpenParToken, "("%string) :: join_items l ++ (ClosedParToken, ")"%string) :: rest) = give (NewString l) rest.
Proof.
  intros Hne Hs Hnd Hw. destruct l as [|v l]; [done|]. apply Forall_cons_1 in Hw as [Hv Hw].
  pose proof (sorted_proper _ _ Hs Hnd Hw) as Hp. unfold parseValues. cbn [consume as_value mbind option_bind]. rewrite decide_True by done.
  destruct (decide (v = ""%string)) as [->|Hne'].
  - destruct l as [|w l]; [done|]. change (join_items ("" :: w :: l)%string) with ((CommaToken, ","%string) :: join_items (w :: l)).
    pose proof (identifiers_list l rest w (NewString [""%string]) Hp) as Hi.
    apply Forall_cons_1 in Hp as [Hw' _]. destruct (join_head w l Hw') as [items E]. rewrite E in Hi |- *.
    rewrite <- !app_comm_cons in Hi |- *. cbn [lookahead head mbind option_bind as_value]. change ((word_item w :: items) ++ ?x) with (word_item w :: items ++ x).
    rewrite identifiers_comma by done. change (Nat.eqb (set_Len ∅) 0) with true.
    change (if true then Insert ∅ [""%string] else ∅) with (NewString [""%string]). by rewrite Hi.
  - assert (Forall proper (v :: l)) as Hp' by (by constructor). pose proof (identifiers_list l rest v ∅ Hp') as Hi.
    destruct (join_head v l) as [items E]; [done|].
    rewrite E in Hi |- *. rewrite <- app_comm_cons in Hi |- *. rewrite lookahead_word by done. bind_simpl. by rewrite Hi.
Qed.

(** The requirement with its values in order. *)
Definition normal (r : Requirement) : Requirement := mkRequirement (key r) (operator r) (merge_sort String.le (strValues r)).

Lemma operator_of_string op : operator_of (operator_string op) = Some op.
Proof. by destruct op. Qed.

Lemma validate_each_perm k l l' : l ≡ₚ l' -> validate_each k l = Ok tt -> validate_each k l' = Ok tt.
Proof.
  assert (forall l, validate_each k l = Ok tt <-> Forall (fun v => validateLabelValue k v = Ok tt) l) as H.
  { intros x. induction x as [|v x IH]; cbn; [by split; constructor|]. rewrite Forall_cons, <- IH.
    destruct (validateLabelValue k v) as [[]|e]; split; [auto|tauto|done|by intros []]. }
  rewrite !H. by intros ->.
Qed.

Lemma validate_values_perm op l l' : l ≡ₚ l' -> validate_values op l = Ok tt -> validate_values op l' = Ok tt.
Proof.
  intros Hp H. pose proof (Permutation_length Hp) as E. destruct op; cbn in *; rewrite <- ?E; try done.
  all: destruct (Nat.eqb_spec (length l) 1) as [E1|]; [|done]; destruct l as [|v [|]]; try done;
    apply Permutation_singleton_l in Hp; by subst.
Qed.

Lemma new_requirement_values k op vals r : NewRequirement k (operator_string op) vals = Ok r -> validate_values op vals = Ok tt ∧ validate_each k vals = Ok tt.
Proof.
  unfold NewRequirement. rewrite operator_of_string. destruct (validateLabelKey k); [|done].
  destruct (validate_values op vals) as [[]|]; [|done]. by destruct (validate_each k vals) as [[]|].
Qed.

Lemma build_ok r vals rest : printable r -> strValues r ≡ₚ vals ->
  build (key r) (operator r) vals rest = give (mkRequirement (key r) (operator r) vals) rest.
Proof.
  intros Hp Hperm. destruct (printable_key r Hp) as [_ Hk]. destruct Hp as ([Hv He]%new_requirement_values & _).
  unfold build, NewRequirement. rewrite Hk, operator_of_string, (validate_values_perm _ _ _ Hperm Hv). by rewrite (validate_each_perm _ _ _ Hperm He).
Qed.

(** A requirement ends before these items. *)
Definition boundary (items : list ScannedItem) : Prop :=
  ∃ tok lit rest, items = (tok, lit) :: rest ∧ (tok = EndOfStringToken ∨ tok = CommaToken).

Lemma boundary_lookahead items : boundary items -> ∃ tok lit, lookahead items = Some (tok, lit) ∧ (tok = EndOfStringToken ∨ tok = CommaToken).
Proof. intros (tok & lit & rest & -> & H). exists tok, lit. split; [|done]. by destruct H as [->| ->]. Qed.

Lemma exact_parsed v rest : word v = true -> boundary rest -> parseExactValue (value_items v ++ rest) = give (NewString [v]) rest.
Proof.
  intros Hw Hb. unfold parseExactValue, value_items. case_decide as E.
  - destruct (boundary_lookahead _ Hb) as (tok & lit & Hl & Ht). cbn [app]. rewrite Hl. bind_simpl. by rewrite decide_True, E.
  - cbn [app]. rewrite lookahead_word, consume_word by done. bind_simpl. by rewrite decide_False by (by intros []).
Qed.

Section RoundTrip.
Context (range : gset string -> list string).
Hypothesis range_elements : forall s, range s ≡ₚ elements s.

Lemma list_of_new l : NoDup l -> set_List range (NewString l) = merge_sort String.le l.
Proof.
  intros H. unfold set_List, NewString. rewrite insert_all, left_id_L by apply _.
  apply (Sorted_unique String.le); [apply (Sorted_merge_sort _)..|]. by rewrite !merge_sort_Permutation, range_elements, elements_list_to_set.
Qed.

Lemma key_parsed k items : word k = true -> validateLabelKey k = Ok tt ->
  parseKeyAndInferOperator (word_item k :: items) =
  ('(t, _) ← lookahead items; give (k, if decide (t = EndOfStringToken ∨ t = CommaToken) then Some Exists else None) items).
Proof.
  intros Hw Hk. unfold parseKeyAndInferOperator. rewrite consume_word by done. bind_simpl. rewrite decide_False by done.
  unfold parse_key. by rewrite decide_True, Hk.
Qed.

Lemma negated_key_parsed k items : word k = true -> validateLabelKey k = Ok tt -> is_Some (lookahead items) ->
  parseKeyAndInferOperator ((DoesNotExistToken, "!"%string) :: word_item k :: items) = give (k, Some DoesNotExist) items.
Proof.
  intros Hw Hk [[t l] Hl]. unfold parseKeyAndInferOperator.
  change (consume ((DoesNotExistToken, "!"%string) :: ?x)) with (Some (DoesNotExistToken, "!"%string, x)). bind_simpl.
  rewrite decide_True by done. rewrite consume_word by done. bind_simpl. unfold parse_key. rewrite decide_True, Hk by done. by rewrite Hl.
Qed.

Lemma unary_parsed r rest : printable r -> boundary rest -> operator r = Exists ∨ operator r = DoesNotExist ->
  parseRequirement range (requirement_items r ++ rest) = give (normal r) rest.
Proof.
  intros Hp Hb Hop. destruct (printable_key r Hp) as [_ Hk]. destruct (boundary_lookahead _ Hb) as (tok & lit & Hl & Ht).
  assert (strValues r = []) as Hnil.
  { destruct Hp as ([Hv _]%new_requirement_values & _). destruct Hop as [Eo|Eo]; rewrite Eo in Hv; cbn in Hv; by destruct (strValues r). }
  pose proof (build_ok r [] rest Hp ltac:(by rewrite Hnil)) as Hbuild. destruct Hp as (_ & Hw & _).
  unfold requirement_items, parseRequirement, normal. rewrite Hnil. destruct Hop as [Eo|Eo]; rewrite Eo in Hbuild |- *; cbn [app].
  - rewrite key_parsed, Hl by done. bind_simpl. by rewrite decide_True.
  - rewrite negated_key_parsed by eauto. done.
Qed.

Lemma binary_parsed k op tok sym items : word k = true -> validateLabelKey k = Ok tt -> parseOperator ((tok, sym) :: items) = give op items ->
  parseRequirement range (word_item k :: (tok, sym) :: items) =
  (r ← match op with In | NotIn => parseValues items | _ => parseExactValue items end;
   match r with Err e => fail e | Ok (values, items) => build k op (set_List range values) items end).
Proof.
  intros Hw Hk Ho. unfold parseRequirement. rewrite key_parsed by done. cbn [lookahead head mbind option_bind].
  rewrite decide_False by (destruct tok; naive_solver). cbn [give mbind option_bind]. by rewrite Ho.
Qed.

Lemma exact_requirement_parsed r rest : printable r -> boundary rest -> operator r ∈ [Equals; DoubleEquals; NotEquals; GreaterThan; LessThan] ->
  parseRequirement range (requirement_items r ++ rest) = give (normal r) rest.
Proof.
  intros Hp Hb Hop. destruct (printable_key r Hp) as [_ Hk]. assert (∃ v, strValues r = [v]) as [v Ev].
  { destruct Hp as ([Hv _]%new_requirement_values & _). rewrite !elem_of_cons, elem_of_nil in Hop.
    destruct Hop as [Eo|[Eo|[Eo|[Eo|[Eo|[]]]]]]; rewrite Eo in Hv; cbn in Hv; destruct (strValues r) as [|v []]; by eauto. }
  pose proof (build_ok r [v] rest Hp ltac:(by rewrite Ev)) as Hbuild. destruct Hp as (_ & Hw & Hvs & _).
  rewrite Ev in Hvs. apply Forall_cons_1 in Hvs as [Hv _]. pose proof (exact_parsed v rest Hv Hb) as Hx.
  unfold requirement_items, normal. rewrite Ev. change (merge_sort String.le [v]) with [v].
  rewrite !elem_of_cons, elem_of_nil in Hop. destruct Hop as [Eo|[Eo|[Eo|[Eo|[Eo|[]]]]]]; rewrite Eo in Hbuild |- *.
  all: cbn [operator_items closing_items join_items]; rewrite app_nil_r; cbn [app]; erewrite binary_parsed by done.
  all: rewrite Hx; cbn [give mbind option_bind]; rewrite list_of_new by apply NoDup_singleton; done.
Qed.

Lemma set_requirement_parsed r rest : printable r -> operator r = In ∨ operator r = NotIn ->
  parseRequirement range (requirement_items r ++ rest) = give (normal r) rest.
Proof.
  intros Hp Hop. destruct (printable_key r Hp) as [_ Hk]. unfold normal. set (l := merge_sort String.le (strValues r)).
  assert (l ≡ₚ strValues r) as Hl by apply merge_sort_Permutation. pose proof (build_ok r l rest Hp (symmetry Hl)) as Hbuild.
  destruct Hp as ([Hv _]%new_requirement_values & Hw & Hvs & Hnd). rewrite <- Hl in Hvs, Hnd.
  assert (l ≠ []) as Hne.
  { intros E. rewrite E in Hl. apply Permutation_nil_l in Hl. destruct Hop as [Eo|Eo]; rewrite Eo, <- Hl in Hv; done. }
  pose proof (values_parsed l rest Hne (StronglySorted_merge_sort _ _) Hnd Hvs) as Hx.
  assert (set_List range (NewString l) = l) as Hset by (rewrite list_of_new by done; apply sort_sorted, (Sorted_merge_sort _)).
  unfold requirement_items. fold l. destruct Hop as [Eo|Eo]; rewrite Eo in Hbuild |- *.
  all: cbn [operator_items closing_items app]; rewrite <- app_assoc; cbn [app]; erewrite binary_parsed by done.
  all: etransitivity; [exact (f_equal (fun p => p ≫= _) Hx)|]; cbn [give mbind option_bind]; by rewrite Hset.
Qed.

Lemma requirement_parsed r rest : printable r -> boundary rest -> parseRequirement range (requirement_items r ++ rest) = give (normal r) rest.
Proof.
  intros Hp Hb. destruct (operator r) eqn:E;
    first [apply unary_parsed; tauto|apply set_requirement_parsed; tauto|apply exact_requirement_parsed; [done..|rewrite E; set_solver]].
Qed.

Lemma requirement_head r rest : printable r ->
  ∃ tok lit, lookahead (requirement_items r ++ rest) = Some (tok, lit) ∧ (tok = IdentifierToken ∨ tok = DoesNotExistToken).
Proof.
  intros (_ & Hw & _). destruct (decide (operator r = DoesNotExist)) as [E|E].
  - unfold requirement_items. rewrite E. eauto 10.
  - exists IdentifierToken, (key r). split; [|by left]. unfold requirement_items. destruct (operator r); try done; by apply lookahead_word.
Qed.

Lemma selector_head r lsel : printable r ->
  ∃ tok lit, lookahead (selector_items (r :: lsel)) = Some (tok, lit) ∧ (tok = IdentifierToken ∨ tok = DoesNotExistToken).
Proof. intros Hp. destruct lsel; by apply requirement_head. Qed.

Lemma selector_parsed lsel : lsel ≠ [] -> Forall printable lsel -> forall fuel reqs, (length lsel <= fuel)%nat ->
  parse_loop range fuel reqs (selector_items lsel) = Some (Ok (reqs ++ (normal <$> lsel))).
Proof.
  intros Hne H. destruct lsel as [|r lsel]; [done|]. clear Hne. revert r H. induction lsel as [|r' lsel IH]; intros r H [|fuel] reqs Hf; cbn in Hf; try lia.
  - apply Forall_cons_1 in H as [Hr _]. destruct (selector_head r [] Hr) as (tok & lit & Hl & Ht). cbn [parse_loop]. rewrite Hl.
    cbn [selector_items]. bind_simpl. rewrite requirement_parsed by (done || (do 3 eexists; eauto)). by destruct Ht as [->| ->].
  - apply Forall_cons_1 in H as [Hr H]. destruct (selector_head r (r' :: lsel) Hr) as (tok & lit & Hl & Ht).
    cbn [parse_loop]. rewrite Hl. change (selector_items (r :: r' :: lsel)) with (requirement_items r ++ (CommaToken, ","%string) :: selector_items (r' :: lsel)).
    bind_simpl. rewrite requirement_parsed by (done || (do 3 eexists; eauto)).
    destruct (selector_head r' lsel) as (tok' & lit' & Hl' & Ht'); [by inversion H|].
    cbn [give mbind option_bind consume as_value]. rewrite Hl'. bind_simpl. rewrite decide_True by done.
    rewrite IH by (done || cbn; lia). rewrite <- app_assoc. by destruct Ht as [->| ->].
Qed.

Lemma selector_items_length lsel : Forall printable lsel -> (length lsel <= length (selector_items lsel))%nat.
Proof.
  induction 1 as [|r lsel Hr H IH]; [cbn; lia|]. destruct lsel; cbn [selector_items length] in *; rewrite length_app; cbn in *; lia.
Qed.

(** The order of the values does not matter. *)
Lemma normal_matches r ls : Requirement_Matches (normal r) ls = Requirement_Matches r ls.
Proof.
  apply eq_true_iff_eq. rewrite !requirement_meaning. unfold normal. cbn [key operator strValues].
  pose proof (merge_sort_Permutation String.le (strValues r)) as Hp.
  assert (forall x, x ∈ merge_sort String.le (strValues r) <-> x ∈ strValues r) as Hin by (intros x; by rewrite Hp).
  assert (forall x, merge_sort String.le (strValues r) = [x] <-> strValues r = [x]) as Hone.
  { intros x. split; intros E; [rewrite E in Hp; by apply Permutation_singleton_l in Hp|by rewrite E]. }
  unfold meaning. destruct (operator r); by setoid_rewrite Hin || by setoid_rewrite Hone || done.
Qed.

Lemma sorted_selector_matches lsel ls : Selector_Matches (merge_sort by_key (normal <$> lsel)) ls = Selector_Matches lsel ls.
Proof.
  apply eq_true_iff_eq. unfold Selector_Matches. rewrite !forallb_forall. setoid_rewrite <- list_elem_of_In.
  setoid_rewrite merge_sort_Permutation. setoid_rewrite list_elem_of_fmap.
  split; [intros H r Hr; rewrite <- normal_matches; apply H; eauto|intros H r (r' & -> & Hr); rewrite normal_matches; auto].
Qed.

(** C32.  The text of a selector is parsed back to it: for a selector with at least one
    requirement, whose requirements [NewRequirement] accepts, whose keys and values hold no
    symbol, blank or NUL and whose values are not repeated, [Parse] of what [String] wrote
    gives those requirements, sorted by key and with the values of each in order, and they
    match the same labels. Keys and values that are keywords ([in], [notin]) and empty values
    are read back too. *)
Theorem printed_selector_parses_back lsel : lsel ≠ [] -> Forall printable lsel ->
  Parse range (Selector_String lsel) = Some (Ok (merge_sort by_key (normal <$> lsel))) ∧
  forall ls, Selector_Matches (merge_sort by_key (normal <$> lsel)) ls = Selector_Matches lsel ls.
Proof.
  intros Hne H. split; [|apply sorted_selector_matches]. unfold Parse, parse, parser_parse.
  rewrite (lexes_scan _ _ (lexes_selector _ H)). bind_simpl. rewrite selector_parsed by auto using selector_items_length. cbn.
  destruct (merge_sort by_key (normal <$> lsel)) eqn:E; [|done]. exfalso. apply Hne.
  pose proof (merge_sort_Permutation by_key (normal <$> lsel)) as Hp. rewrite E in Hp. by apply Permutation_nil_l, eq_sym, fmap_nil_inv in Hp.
Qed.
End RoundTrip.

Lemma printed_selector_parses_back_witness :
  let lsel := [mkRequirement "zone" In ["b"; "a"; ""]; mkRequirement "in" NotIn ["notin"]; mkRequirement "disk" Equals [""];
               mkRequirement "cores" GreaterThan ["-4"]; mkRequirement "gone" DoesNotExist []; mkRequirement "there" Exists []]%string in
  Selector_String lsel = "zone in (,a,b),in notin (notin),disk=,cores>-4,!gone,there"%string ∧
  Parse elements (Selector_String lsel) = Some (Ok (merge_sort by_key (normal <$> lsel))).
Proof.
  intros lsel. split; [vm_compute; reflexivity|].
  apply (printed_selector_parses_back elements (fun s => reflexivity _) lsel); [done|]. apply (bool_decide_unpack _). vm_compute. exact I.
Defined.

(** Some of what [NewRequirement] accepts cannot be read back: a selector without
    requirements is refused although its text is that of a selector that matches
    everything, and so is a set that holds the empty value three times. *)
Lemma empty_selector_is_refused : Parse elements (Selector_String NewSelector) = Some (Err "parse failed"%string).
Proof. vm_compute. reflexivity. Qed.

Lemma repeated_empty_value_is_refused : let r := mkRequirement "k" In [""; ""; ""]%string in
  NewRequirement "k" "in" (strValues r) = Ok r ∧ ∃ e, Parse elements (Requirement_String r) = Some (Err e).
Proof. split; [done|]. eexists. vm_compute. reflexivity. Qed.

(** The parser terminates without a panic on every input: the lexer reaches the end of
    the string, the parser never reads past the last item, and the outcome is a selector
    or an error. *)
Theorem selector_parser_returns range s : is_Some (Parse range s).
Proof. unfold Parse. destruct (parse_total range s) as [r ->]. cbn. by eexists. Qed.
