(* ===== verification/Framework.v ===== *)
(** * The plugin framework of the scheduler

    Models [globalscheduler/pkg/scheduler/framework/interfaces]: the statuses of
    [interface.go], the cycle state of [cycle_state.go] and the running of the plugins in
    [framework.go].  A plugin is a record of the methods it implements; a method that can
    panic returns an option.  The goroutines that filter and score the sites in parallel
    run here one site after the other, in an order that is a parameter: the plugins share
    only the cycle state, which they change under its lock, one site's entry each.
    [FrameworkProofs] and [FilterProofs] hold the theorems. *)
From S2P Require Import Prelude Types Strconv SiteTree SiteCacheInfo Cache.

Local Open Scope Z_scope.

(** ** Statuses *)

(** (interfaces/interface.go:70-93) *)
Inductive Code := Success | Error | Unschedulable | UnschedulableAndUnresolvable | Wait | Skip.

#[export] Instance Code_eq_dec : EqDecision Code.
Proof. solve_decision. Defined.

(** (interfaces/interface.go:116-119 Status) *)
Record StatusData := mkStatus { code : Code; reasons : list string }.

(** A pointer that may be nil. *)
Definition Status : Type := option StatusData.

(** (interfaces/interface.go:122-127 Code) *)
Definition Status_Code (s : Status) : Code := match s with None => Success | Some s => code s end.

(** [strings.Join]. *)
Definition strings_Join (l : list string) (sep : string) : string := String.concat sep l.

(** (interfaces/interface.go:130-135) *)
Definition Message (s : Status) : string := match s with None => "" | Some s => strings_Join (reasons s) ", " end.

(** (interfaces/interface.go:148-150) *)
Definition IsSuccess (s : Status) : bool := bool_decide (Status_Code s = Success).

(** (interfaces/interface.go:153-156) *)
Definition IsUnschedulable (s : Status) : bool :=
  bool_decide (Status_Code s = Unschedulable ∨ Status_Code s = UnschedulableAndUnresolvable).

(** The error, if any (interfaces/interface.go:160-165). *)
Definition AsError (s : Status) : option string := if IsSuccess s then None else Some (Message s).

(** (interfaces/interface.go:168-173) *)
Definition NewStatus (c : Code) (rs : list string) : Status := Some (mkStatus c rs).

(** The status map holds no nil (interfaces/interface.go:177-177). *)
Abbreviation PluginToStatus := (gmap string StatusData).

(** What one status adds to the final one and to the three flags
    (interfaces/interface.go:188-200 Merge). *)
Definition merge_step (acc : StatusData * (bool * bool * bool)) (s : StatusData) : StatusData * (bool * bool * bool) :=
  let '(final, (hasError, hasUnresolvable, hasUnschedulable)) := acc in
  (mkStatus (code s) (reasons final ++ reasons s),
   match code s with
   | Error => (true, hasUnresolvable, hasUnschedulable)
   | UnschedulableAndUnresolvable => (hasError, true, hasUnschedulable)
   | Unschedulable => (hasError, hasUnresolvable, true)
   | _ => (hasError, hasUnresolvable, hasUnschedulable)
   end).

(** [range] is the order of the map (interfaces/interface.go:181-210). *)
Definition Merge (range : PluginToStatus -> list (string * StatusData)) (p : PluginToStatus) : Status :=
  if Nat.eqb (size p) 0 then None
  else
    let '(final, (hasError, hasUnresolvable, hasUnschedulable)) := foldl merge_step (mkStatus Success [], (false, false, false)) (range p).*2 in
    let c := if (hasError : bool) then Error
      else if (hasUnresolvable : bool) then UnschedulableAndUnresolvable
      else if (hasUnschedulable : bool) then Unschedulable
      else code final in
    Some (mkStatus c (reasons final)).

(** ** Scores *)

(** (interfaces/interface.go:38-44) *)
Record SiteScore := mkSiteScore { SS_SiteID : string; SS_Region : string; SS_AZ : string; SS_Score : Z; StackCount : Z }.

Definition set_score (s : SiteScore) (z : Z) : SiteScore := mkSiteScore (SS_SiteID s) (SS_Region s) (SS_AZ s) z (StackCount s).
Definition set_count (s : SiteScore) (z : Z) : SiteScore := mkSiteScore (SS_SiteID s) (SS_Region s) (SS_AZ s) (SS_Score s) z.

(** (interfaces/interface.go:102-111) *)
Definition MaxSiteScore : Z := 100.
Definition MinSiteScore : Z := 0.
Definition MaxTotalScore : Z := MaxInt64.

(** ** The cycle state *)

(** (interfaces/cycle_state.go:35-38) *)
Record FlavorInfo := mkFlavorInfo { FI_Flavor : Flavor; FI_Count : Z }.

(** The combination of flavors that the flavor plugin tries
    (flavor/flavor.go:73-76). *)
Record FlavorAggregate := mkAggregate { Agg_Flavors : list FlavorInfo; Weight : Z }.

(** (interfaces/cycle_state.go:148-152) *)
Record SiteSelectorInfo := mkSelectorInfo { Sel_Flavors : list FlavorInfo; VolumeType : list string; StackMaxCount : Z }.

(** The flavors of one resource with their total size (siteresources/fit.go:56-60). *)
Record FlavorInfos := mkFlavorInfos { Fit_Flavors : list Flavor; Fit_CPU : CPUAndMemory; Fit_Count : Z }.

(** What the plugins store: the pointer types that implement the interface
    (interfaces/cycle_state.go:41-46). *)
Inductive StateData :=
  | FlavorAggregates (aggregates : list FlavorAggregate)
  | SiteResFilterState (infos : list FlavorInfos)
  | SiteSelectorInfos (infos : gmap string SiteSelectorInfo).

(** (interfaces/cycle_state.go:55-60) *)
Abbreviation CycleState := (gmap string StateData).

(** (interfaces/cycle_state.go:63-67) *)
Definition NewCycleState : CycleState := ∅.

(** (interfaces/cycle_state.go:102-111) *)
Definition Read (c : CycleState) (key : string) : result StateData :=
  match c !! key with Some v => Ok v | None => Err "not found" end.

(** (interfaces/cycle_state.go:116-118) *)
Definition Write (c : CycleState) (key : string) (val : StateData) : CycleState := <[key := val]> c.

Definition SiteTempSelectorKey : string := "SiteTempSelected".

(** A value handed to [UpdateSiteSelectorState]; the maps that the plugins pass hold a
    list of flavors, an [int] or a [float64]. *)
Inductive update_value := UFlavors (flvs : list FlavorInfo) | UInt (n : Z) | UFloat (f : float64).

(** One entry of the update: [None] for a value of the wrong type
    (interfaces/cycle_state.go:187-207 UpdateSiteSelectorState). *)
Definition update_entry (info : SiteSelectorInfo) (entry : string * update_value) : option SiteSelectorInfo :=
  if String.eqb entry.1 "Flavors" then
    match entry.2 with UFlavors flvs => Some (mkSelectorInfo flvs (VolumeType info) (StackMaxCount info)) | _ => None end
  else if String.eqb entry.1 "StackMaxCount" then
    match entry.2 with
    | UInt count =>
        Some (if (StackMaxCount info =? 0) || (count <? StackMaxCount info)
              then mkSelectorInfo (Sel_Flavors info) (VolumeType info) count else info)
    | _ => None
    end
  else Some info.

(** [updateInfo] lists the entries in the order in which they are visited.  When nothing
    is stored yet an empty entry is written, but the value read before, a nil interface,
    is then not of the expected type, so the update itself is lost; a value of the
    wrong type leaves the state as it is (interfaces/cycle_state.go:162-215). *)
Definition UpdateSiteSelectorState (st : CycleState) (siteID : string) (updateInfo : list (string * update_value)) :
    CycleState * result unit :=
  match Read st SiteTempSelectorKey with
  | Err _ =>
      (Write st SiteTempSelectorKey (SiteSelectorInfos {[siteID := mkSelectorInfo [] [] 0]}), Err "convert to SiteSelectorInfos error")
  | Ok (SiteSelectorInfos s) =>
      let selectInfo := default (mkSelectorInfo [] [] 0) (s !! siteID) in
      match foldl (fun acc e => acc ← acc; update_entry acc e) (Some selectInfo) updateInfo with
      | None => (st, Err "convert error")
      | Some selectInfo => (Write st SiteTempSelectorKey (SiteSelectorInfos (<[siteID := selectInfo]> s)), Ok tt)
      end
  | Ok _ => (st, Err "convert to SiteSelectorInfos error")
  end.

(** (interfaces/cycle_state.go:217-234) *)
Definition GetSiteSelectorState (st : CycleState) (siteID : string) : result SiteSelectorInfo :=
  match Read st SiteTempSelectorKey with
  | Err e => Err ("error reading SiteTempSelected from cycleState: " +:+ e)
  | Ok (SiteSelectorInfos s) =>
      match s !! siteID with Some value => Ok value | None => Err ("siteID(" +:+ siteID +:+ ") not found") end
  | Ok _ => Err "convert to SiteSelectorInfos error"
  end.

(** ** Plugins *)

(** (types/types.go:132-137) *)
Record Allocation := mkAllocation { Allocation_ID : string; Allocation_Stack : Stack; Allocation_Selector : Selector; Replicas : Z }.

(** What a plugin reaches through its handle and the global flavor cache: the snapshot,
    the scheduler's cache, the flavors of the flavor cache by region and by id, and the
    flavors that the flavor informer lists. *)
Record World := mkWorld {
  w_snapshot : Snapshot; w_cache : schedulerCache; w_RegionFlavorMap : gmap string RegionFlavor;
  w_FlavorMap : gmap string RegionFlavor; w_flavors : list RegionFlavor }.

(** The values of a context. *)
Abbreviation Context_ := (gmap string string).

(** A plugin with the methods of the interfaces it implements.  A site information is
    passed to [Filter] and returned with the changes made to it; [Score] gets nil for a
    site that is not in the map; [Bind] gets the address of the information in the
    snapshot, nil when there is none, and returns the changed stack.  No plugin of the
    repository implements the other interfaces. *)
Record Plugin := mkPlugin {
  PreFilter : option (World -> CycleState -> Stack -> option (CycleState * Status));
  Filter : option (Context_ -> World -> CycleState -> Stack -> SiteCacheInfo -> option (CycleState * SiteCacheInfo * Status));
  PreScore : option (World -> CycleState -> Stack -> list Site -> option (CycleState * Status));
  Score : option (World -> CycleState -> Stack -> option SiteCacheInfo -> option (CycleState * Z * Status));
  Bind : option (World -> CycleState -> Stack -> option nat -> option (World * Stack * Status));
  PluginStrategy : option (World -> CycleState -> Allocation -> list SiteScore -> option (list SiteScore * Status));
  Less : option (StackInfo -> StackInfo -> bool) }.

Definition no_plugin : Plugin := mkPlugin None None None None None None None.

(** The extension points (interfaces/framework.go:552-567 getExtensionPoints). *)
Inductive ExtensionPoint :=
  | EPreFilter | EFilter | EReserve | EPreScore | EScore | EPreBind | EBind | EPostBind | EUnreserve | EPermit | EQueueSort | EStrategy.

#[export] Instance ExtensionPoint_eq_dec : EqDecision ExtensionPoint.
Proof. solve_decision. Defined.

(** (interfaces/framework.go:552-567) *)
Definition getExtensionPoints : list ExtensionPoint :=
  [EPreFilter; EFilter; EReserve; EPreScore; EScore; EPreBind; EBind; EPostBind; EUnreserve; EPermit; EQueueSort; EStrategy].

(** [reflect.TypeOf(pg).Implements(pluginType)]. *)
Definition implements (pg : Plugin) (e : ExtensionPoint) : bool :=
  match e with
  | EPreFilter => bool_decide (is_Some (PreFilter pg))
  | EFilter => bool_decide (is_Some (Filter pg))
  | EPreScore => bool_decide (is_Some (PreScore pg))
  | EScore => bool_decide (is_Some (Score pg))
  | EBind => bool_decide (is_Some (Bind pg))
  | EQueueSort => bool_decide (is_Some (Less pg))
  | EStrategy => bool_decide (is_Some (PluginStrategy pg))
  | _ => false
  end.

(** A configured plugin: name and weight (types/types.go:290-295 Plugin). *)
Record PluginRef := mkPluginRef { Ref_Name : string; Ref_Weight : Z }.

(** The enabled plugins of each extension point, [None] for a nil set
    (types/types.go:239-276). *)
Definition Plugins : Type := ExtensionPoint -> option (list PluginRef).

(** The plugins of each extension point with their names, and the weights
    (interfaces/framework.go:43-64). *)
Record framework := mkFramework {
  points : ExtensionPoint -> list (string * Plugin); pluginNameToWeightMap : gmap string Z; runAllFilters : bool }.

(** (interfaces/framework.go:569-588) *)
Definition pluginsNeeded (plugins : Plugins) : gmap string PluginRef :=
  foldl (fun pgMap e => foldl (fun pgMap pg => <[Ref_Name pg := pg]> pgMap) pgMap (default [] (plugins e))) ∅ getExtensionPoints.

(** The enabled plugins one by one; [seen] are the names already in the list
    (interfaces/framework.go:97-125 updatePluginList). *)
Fixpoint enable_plugins (e : ExtensionPoint) (pluginsMap : gmap string Plugin) (seen : gset string) (enabled : list PluginRef) :
    result (list (string * Plugin)) :=
  match enabled with
  | [] => Ok []
  | ep :: enabled =>
      match pluginsMap !! Ref_Name ep with
      | None => Err (Ref_Name ep +:+ " does not exist")
      | Some pg =>
          if negb (implements pg e) then Err ("plugin " +:+ Ref_Name ep +:+ " does not extend plugin")
          else if bool_decide (Ref_Name ep ∈ seen) then Err ("plugin " +:+ Ref_Name ep +:+ " already registered")
          else
            match enable_plugins e pluginsMap ({[Ref_Name ep]} ∪ seen) enabled with
            | Err m => Err m
            | Ok pgs => Ok ((Ref_Name ep, pg) :: pgs)
            end
      end
  end.

(** (interfaces/framework.go:97-125) *)
Definition updatePluginList (e : ExtensionPoint) (pluginSet : option (list PluginRef)) (pluginsMap : gmap string Plugin) :
    result (list (string * Plugin)) :=
  match pluginSet with None => Ok [] | Some enabled => enable_plugins e pluginsMap ∅ enabled end.

(** The plugins of the registry that are needed, with their weights, while the total
    cannot overflow; a weight of zero counts as one.  The factories do not fail
    (interfaces/framework.go:153-178 NewFramework). *)
Fixpoint init_plugins (needed : gmap string PluginRef) (registry : list (string * Plugin))
    (pluginsMap : gmap string Plugin) (weights : gmap string Z) (totalPriority : Z) : result (gmap string Plugin * gmap string Z) :=
  match registry with
  | [] => Ok (pluginsMap, weights)
  | (name, p) :: registry =>
      match needed !! name with
      | None => init_plugins needed registry pluginsMap weights totalPriority
      | Some ref =>
          let weight := if Ref_Weight ref =? 0 then 1 else Ref_Weight ref in
          if wrap64 (MaxTotalScore - totalPriority) <? weight * MaxSiteScore then Err "total score of Score plugins could overflow"
          else init_plugins needed registry (<[name := p]> pluginsMap) (<[name := weight]> weights) (wrap64 (totalPriority + weight * MaxSiteScore))
      end
  end.

(** (interfaces/framework.go:180-184 NewFramework) *)
Fixpoint fill_points (plugins : Plugins) (pluginsMap : gmap string Plugin) (es : list ExtensionPoint) :
    result (ExtensionPoint -> list (string * Plugin)) :=
  match es with
  | [] => Ok (fun _ => [])
  | e :: es =>
      match updatePluginList e (plugins e) pluginsMap with
      | Err m => Err m
      | Ok pgs =>
          match fill_points plugins pluginsMap es with
          | Err m => Err m
          | Ok points => Ok (fun e' => if decide (e' = e) then pgs else points e')
          end
      end
  end.

(** The registry in the order in which it is visited; a plugin's [Name] is its name in
    the registry, so every score plugin has a weight (interfaces/framework.go:130-202). *)
Definition NewFramework (registry : list (string * Plugin)) (plugins : Plugins) : result framework :=
  match init_plugins (pluginsNeeded plugins) registry ∅ ∅ 0 with
  | Err m => Err m
  | Ok (pluginsMap, weights) =>
      match fill_points plugins pluginsMap getExtensionPoints with
      | Err m => Err m
      | Ok points =>
          if existsb (fun pg => default 0 (weights !! pg.1) =? 0) (points EScore) then Err "score plugin is not configured with weight"
          else if Nat.eqb (length (points EQueueSort)) 0 then Err "no queue sort plugin is enabled"
          else if Nat.ltb 1 (length (points EQueueSort)) then Err "only one queue sort plugin can be enabled"
          else if Nat.eqb (length (points EBind)) 0 then Err "at least one bind plugin is needed"
          else Ok (mkFramework points weights false)
      end
  end.

(** ** Running the plugins *)

Section Run.
(** A plugin at an extension point has the method of its interface: [enable_plugins]
    checks it. *)
Context (ctx : Context_) (f : framework).

(** (interfaces/framework.go:224-247 RunPreFilterPlugins) *)
Fixpoint run_prefilter (w : World) (st : CycleState) (stack : Stack) (pls : list (string * Plugin)) : option (CycleState * Status) :=
  match pls with
  | [] => Some (st, None)
  | (name, pl) :: pls =>
      run ← PreFilter pl;
      '(st, status) ← run w st stack;
      if IsSuccess status then run_prefilter w st stack pls
      else if IsUnschedulable status then
        Some (st, NewStatus (Status_Code status) ["rejected by " +:+ name +:+ " at prefilter: " +:+ Message status])
      else Some (st, NewStatus Error ["error while running " +:+ name +:+ " prefilter plugin: " +:+ Message status])
  end.
(** (interfaces/framework.go:224-242) *)
Definition RunPreFilterPlugins (w : World) (st : CycleState) (stack : Stack) : option (CycleState * Status) :=
  run_prefilter w st stack (points f EPreFilter).

(** [statuses] are the failures so far (interfaces/framework.go:253-288 RunFilterPlugins). *)
Fixpoint run_filter (w : World) (st : CycleState) (stack : Stack) (info : SiteCacheInfo) (statuses : PluginToStatus)
    (pls : list (string * Plugin)) : option (CycleState * SiteCacheInfo * PluginToStatus) :=
  match pls with
  | [] => Some (st, info, statuses)
  | (name, pl) :: pls =>
      run ← Filter pl;
      '(st, info, pluginStatus) ← run ctx w st stack info;
      match pluginStatus with
      | None => run_filter w st stack info statuses pls
      | Some s =>
          if IsSuccess pluginStatus then run_filter w st stack info statuses pls
          else if IsUnschedulable pluginStatus then
            let statuses := <[name := s]> statuses in
            if runAllFilters f then run_filter w st stack info statuses pls else Some (st, info, statuses)
          else Some (st, info, {[name := mkStatus Error ["running " +:+ name +:+ " filter plugin: " +:+ Message pluginStatus]]})
      end
  end.
(** (interfaces/framework.go:253-283) *)
Definition RunFilterPlugins (w : World) (st : CycleState) (stack : Stack) (info : SiteCacheInfo) :
    option (CycleState * SiteCacheInfo * PluginToStatus) :=
  run_filter w st stack info ∅ (points f EFilter).

(** (interfaces/framework.go:292-314 RunPreScorePlugins) *)
Fixpoint run_prescore (w : World) (st : CycleState) (stack : Stack) (sites : list Site) (pls : list (string * Plugin)) :
    option (CycleState * Status) :=
  match pls with
  | [] => Some (st, None)
  | (name, pl) :: pls =>
      run ← PreScore pl;
      '(st, status) ← run w st stack sites;
      if IsSuccess status then run_prescore w st stack sites pls
      else Some (st, NewStatus Error ["error while running " +:+ name +:+ " prescore plugin: " +:+ Message status])
  end.
(** (interfaces/framework.go:292-309) *)
Definition RunPreScorePlugins (w : World) (st : CycleState) (stack : Stack) (sites : list Site) : option (CycleState * Status) :=
  run_prescore w st stack sites (points f EPreScore).

Abbreviation PluginToSiteScores := (gmap string (list SiteScore)).

(** The score plugins on the site at [index] (interfaces/framework.go:331-344 RunScorePlugins). *)
Fixpoint score_site (w : World) (st : CycleState) (stack : Stack) (index : nat) (siteID : string) (info : option SiteCacheInfo)
    (scores : PluginToSiteScores) (pls : list (string * Plugin)) : option (CycleState * PluginToSiteScores * option string) :=
  match pls with
  | [] => Some (st, scores, None)
  | (name, pl) :: pls =>
      run ← Score pl;
      '(st, s, status) ← run w st stack info;
      if IsSuccess status then
        score_site w st stack index siteID info (alter (fun l => <[index := mkSiteScore siteID "" "" s 0]> l) name scores) pls
      else Some (st, scores, Some (Message status))
  end.

(** The sites at the indices [order]; after an error the context is cancelled
    (interfaces/framework.go:331-344 RunScorePlugins). *)
Fixpoint score_sites (w : World) (st : CycleState) (stack : Stack) (sites : list Site) (lookup_info : string -> option SiteCacheInfo)
    (scores : PluginToSiteScores) (order : list nat) : option (CycleState * PluginToSiteScores * option string) :=
  match order with
  | [] => Some (st, scores, None)
  | index :: order =>
      site ← sites !! index;
      '(st, scores, err) ← score_site w st stack index (SiteID site) (lookup_info (SiteID site)) scores (points f EScore);
      match err with
      | Some e => Some (st, scores, Some e)
      | None => score_sites w st stack sites lookup_info scores order
      end
  end.

(** (interfaces/framework.go:358-368 RunScorePlugins) *)
Fixpoint apply_weight (name : string) (weight : Z) (l : list SiteScore) : result (list SiteScore) :=
  match l with
  | [] => Ok []
  | s :: l =>
      if (MaxSiteScore <? SS_Score s) || (SS_Score s <? MinSiteScore) then Err ("score plugin " +:+ name +:+ " returns an invalid score")
      else
        match apply_weight name weight l with
        | Err m => Err m
        | Ok l => Ok (set_score s (wrap64 (SS_Score s * weight)) :: l)
        end
  end.

(** (interfaces/framework.go:352-369 RunScorePlugins) *)
Fixpoint apply_weights (scores : PluginToSiteScores) (pls : list (string * Plugin)) : result PluginToSiteScores :=
  match pls with
  | [] => Ok scores
  | (name, _) :: pls =>
      match apply_weight name (default 0 (pluginNameToWeightMap f !! name)) (default [] (scores !! name)) with
      | Err m => Err m
      | Ok l => apply_weights (<[name := l]> scores) pls
      end
  end.

(** An error carries the message of the error status (interfaces/framework.go:320-377). *)
Definition RunScorePlugins (w : World) (st : CycleState) (stack : Stack) (sites : list Site)
    (lookup_info : string -> option SiteCacheInfo) (order : list nat) : option (CycleState * result PluginToSiteScores) :=
  let scores := foldl (fun m pl => <[pl.1 := replicate (length sites) (mkSiteScore "" "" "" 0 0)]> m) ∅ (points f EScore) in
  '(st, scores, err) ← score_sites w st stack sites lookup_info scores order;
  match err with
  | Some e => Some (st, Err ("error while running score plugin: " +:+ e))
  | None =>
      match apply_weights scores (points f EScore) with
      | Err e => Some (st, Err ("error while applying score defaultWeights: " +:+ e))
      | Ok scores => Some (st, Ok scores)
      end
  end.

(** (interfaces/framework.go:408-431 RunBindPlugins) *)
Fixpoint run_bind (w : World) (st : CycleState) (stack : Stack) (info : option nat) (status : Status) (pls : list (string * Plugin)) :
    option (World * Stack * Status) :=
  match pls with
  | [] => Some (w, stack, status)
  | (name, bp) :: pls =>
      run ← Bind bp;
      '(w, stack, status) ← run w st stack info;
      if bool_decide (Status_Code status = Skip) then run_bind w st stack info status pls
      else if IsSuccess status then Some (w, stack, status)
      else Some (w, stack, NewStatus Error ["plugin " +:+ name +:+ " failed to bind pod: " +:+ Message status])
  end.
(** (interfaces/framework.go:408-426) *)
Definition RunBindPlugins (w : World) (st : CycleState) (stack : Stack) (info : option nat) : option (World * Stack * Status) :=
  match points f EBind with
  | [] => Some (w, stack, NewStatus Skip [""%string])
  | pls => run_bind w st stack info None pls
  end.

(** (interfaces/framework.go:496-513 RunStrategyPlugins) *)
Fixpoint run_strategy (w : World) (st : CycleState) (allocations : Allocation) (countList : list SiteScore) (pls : list (string * Plugin)) :
    option (list SiteScore * Status) :=
  match pls with
  | [] => Some (countList, None)
  | (name, pl) :: pls =>
      run ← PluginStrategy pl;
      '(countList, status) ← run w st allocations countList;
      if IsSuccess status then run_strategy w st allocations countList pls
      else Some ([], NewStatus Error ["plugin " +:+ name +:+ " failed to Strategy: " +:+ Message status])
  end.
(** (interfaces/framework.go:496-513) *)
Definition RunStrategyPlugins (w : World) (st : CycleState) (allocations : Allocation) (siteScoreList : list SiteScore) :
    option (list SiteScore * Status) :=
  run_strategy w st allocations siteScoreList (points f EStrategy).

(** (interfaces/framework.go:532-534) *)
Definition HasFilterPlugins : bool := Nat.ltb 0 (length (points f EFilter)).
(** (interfaces/framework.go:537-539) *)
Definition HasScorePlugins : bool := Nat.ltb 0 (length (points f EScore)).

End Run.
