(* ===== verification/Floats.v ===== *)
(** * Floating point in the scheduler plugins

    The functions of Go's [math] package that the plugins use on [float64], arithmetic on
    [float32], and the facts that make them exact on small integers: an integer below
    [2^53] is converted without rounding, so that comparisons, minima and the conversion
    back are those of the integers. *)
From S2P Require Import Prelude Types Strconv.

Local Open Scope Z_scope.

(** ** Operations *)

Definition is_nan (f : float64) : bool := match f with S754_nan => true | _ => false end.
Definition signbit (f : float64) : bool :=
  match f with S754_zero s | S754_infinity s | S754_finite s _ _ => s | S754_nan => false end.
Definition fltb : float64 -> float64 -> bool := SFltb.

(** [math.MaxFloat64]. *)
Definition MaxFloat64 : float64 := S754_finite false 9007199254740991 971.

(** [math.Min]. *)
Definition math_Min (x y : float64) : float64 :=
  match x, y with
  | S754_infinity true, _ | _, S754_infinity true => S754_infinity true
  | S754_nan, _ | _, S754_nan => S754_nan
  | S754_zero s, S754_zero _ => if s then x else y
  | _, _ => if fltb x y then x else y
  end.

(** [math.Max]. *)
Definition math_Max (x y : float64) : float64 :=
  match x, y with
  | S754_infinity false, _ | _, S754_infinity false => S754_infinity false
  | S754_nan, _ | _, S754_nan => S754_nan
  | S754_zero s, S754_zero _ => if s then y else x
  | _, _ => if fltb y x then x else y
  end.

(** [math.Floor]. *)
Definition math_Floor (x : float64) : float64 :=
  match x with
  | S754_finite s m e =>
      if 0 <=? e then x
      else
        let q := Zpos m / 2 ^ (- e) in
        if (s : bool) then
          let q := if Zpos m mod 2 ^ (- e) =? 0 then q else q + 1 in float_of_Z (- q)
        else float_of_Z q
  | _ => x
  end.

(** [float32]: conversion from an integer, division, comparison; a [float32] is also a
    [float64] after [widen]. *)
Definition float32_of_Z (z : Z) : spec_float := binary_normalize 24 128 z 0 false.
Definition fdiv32 : spec_float -> spec_float -> spec_float := SFdiv 24 128.

(** [math.Pow(2, n)] for an integer [n >= 0]: exact up to the largest exponent. *)
Definition pow2 (n : Z) : float64 := if n <=? 1023 then S754_finite false 4503599627370496 (n - 52) else S754_infinity false.

(** ** Exactness on small integers *)

Lemma digits_bounds m : 2 ^ (Zpos (digits2_pos m) - 1) <= Zpos m < 2 ^ Zpos (digits2_pos m).
Proof.
  assert (forall p, 2 ^ (Zpos (Pos.succ p) - 1) = 2 * 2 ^ (Zpos p - 1) ∧ 2 ^ Zpos (Pos.succ p) = 2 * 2 ^ Zpos p) as Hs.
  { intros p. rewrite Pos2Z.inj_succ. split; rewrite <- Z.pow_succ_r by lia; f_equal; lia. }
  induction m as [m IH|m IH|]; cbn [digits2_pos]; [| |done].
  - destruct (Hs (digits2_pos m)) as [-> ->]. lia.
  - destruct (Hs (digits2_pos m)) as [-> ->]. lia.
Qed.

Lemma iter_xO m d : Zpos (Pos.iter xO m d) = Zpos m * 2 ^ Zpos d.
Proof.
  induction d as [|d IH] using Pos.peano_ind; [simpl; lia|].
  rewrite Pos.iter_succ, Pos2Z.inj_xO, IH, Pos2Z.inj_succ, Z.pow_succ_r by lia. lia.
Qed.

Lemma digits_unique m k : 0 < k -> 2 ^ (k - 1) <= Zpos m < 2 ^ k -> Zpos (digits2_pos m) = k.
Proof.
  intros Hk [Hlo Hhi]. pose proof (digits_bounds m) as [Hlo' Hhi']. set (d := Zpos (digits2_pos m)) in *.
  assert (0 < d) by (unfold d; lia).
  assert (k - 1 < d) by (apply (Z.pow_lt_mono_r_iff 2); lia). assert (d - 1 < k) by (apply (Z.pow_lt_mono_r_iff 2); lia). lia.
Qed.

(** A mantissa of full length is not rounded. *)
Lemma round_full m e : 2 ^ 52 <= Zpos m < 2 ^ 53 -> -52 <= e <= 0 ->
  binary_round_aux 53 1024 false (Zpos m) e loc_Exact = S754_finite false m e.
Proof.
  intros Hm He. assert (shr_fexp 53 1024 (Zpos m) e loc_Exact = (Build_shr_record (Zpos m) false false, e)) as Hshr.
  { unfold shr_fexp, shr, Zdigits2. rewrite (digits_unique m 53) by lia.
    replace (fexp 53 1024 (53 + e) - e) with 0 by (unfold fexp, emin; lia). done. }
  unfold binary_round_aux. rewrite Hshr. cbn [shr_m loc_of_shr_record round_nearest_even shr_r shr_s]. rewrite Hshr. cbn [shr_m].
  by rewrite (proj2 (Z.leb_le e (1024 - 53))) by lia.
Qed.

(** The form of a converted positive integer. *)
Lemma float_of_pos m : Zpos m < 2 ^ 53 -> ∃ M e, float_of_Z (Zpos m) = S754_finite false M e ∧
  -52 <= e <= 0 ∧ 2 ^ 52 <= Zpos M < 2 ^ 53 ∧ Zpos M = Zpos m * 2 ^ (- e).
Proof.
  intros Hm. pose proof (digits_bounds m) as [Hlo Hhi]. set (d := Zpos (digits2_pos m)) in *.
  assert (1 <= d) by (unfold d; lia). assert (d - 1 < 53) by (apply (Z.pow_lt_mono_r_iff 2); lia).
  unfold float_of_Z, binary_normalize, binary_round. fold d. replace (fexp 53 1024 (d + 0)) with (d - 53) by (unfold fexp, emin; lia).
  unfold shl_align. rewrite Z.sub_0_r. destruct (d - 53) as [|p|p] eqn:Hd; [|lia|].
  - exists m, 0. replace d with 53 in * by lia. rewrite round_full by lia. split_and!; [done|lia|lia|lia|lia|lia].
  - exists (Pos.iter xO m p), (Zneg p). assert (Zpos (Pos.iter xO m p) = Zpos m * 2 ^ Zpos p) as HM by apply iter_xO.
    assert (2 ^ 52 <= Zpos (Pos.iter xO m p) < 2 ^ 53) as Hb.
    { rewrite HM. replace 53 with (d + Zpos p) by lia. replace 52 with (d - 1 + Zpos p) by lia. rewrite !Z.pow_add_r by lia. nia. }
    rewrite round_full by lia. split_and!; [done|lia|lia|lia|lia|done].
Qed.

Lemma int_of_float z : 0 <= z < 2 ^ 53 -> int64_of_float (float_of_Z z) = z.
Proof.
  intros [H0 H1]. destruct z as [|m|m]; [done| |lia]. destruct (float_of_pos m H1) as (M & e & -> & He & HM & HMe).
  unfold int64_of_float. assert (Zpos M / 2 ^ (- e) = Zpos m) as Hdiv by (rewrite HMe; apply Z.div_mul; lia).
  rewrite (proj2 (Z.leb_le MinInt64 _)), (proj2 (Z.leb_le _ MaxInt64)); cbn [andb];
    (destruct (Z.leb_spec 0 e) as [He0|He0]; [replace e with 0 in * by lia; rewrite Z.mul_1_r in *|rewrite Hdiv]); unfold MinInt64, MaxInt64; lia.
Qed.

Lemma float_ltb a b : 0 <= a < 2 ^ 53 -> 0 <= b < 2 ^ 53 -> fltb (float_of_Z a) (float_of_Z b) = (a <? b).
Proof.
  intros [Ha Ha'] [Hb Hb']. unfold fltb, SFltb. destruct a as [|a|a]; [|destruct b as [|b|b]|lia].
  - destruct b as [|b|b]; [done| |lia]. by destruct (float_of_pos b Hb') as (M & e & -> & _).
  - by destruct (float_of_pos a Ha') as (M & e & -> & _).
  - destruct (float_of_pos a Ha') as (M & e & -> & He & HM & HMe), (float_of_pos b Hb') as (N & k & -> & Hk & HN & HNk).
    cbn [SFcompare]. destruct (Z.compare_spec e k) as [->|Hlt|Hgt].
    + change (Pos.compare_cont Eq M N) with (Pos.compare M N).
      assert (0 < 2 ^ (- k)) by lia.
      destruct (Pos.compare_spec M N), (Z.ltb_spec (Zpos a) (Zpos b)); try done; exfalso; nia.
    + symmetry. apply Z.ltb_lt. assert (2 ^ (- e) = 2 ^ (- k) * 2 ^ (k - e)) as Hp by (rewrite <- Z.pow_add_r by lia; f_equal; lia).
      assert (2 <= 2 ^ (k - e)) by (change 2 with (2 ^ 1) at 1; apply Z.pow_le_mono_r; lia).
      assert (0 < 2 ^ (- k)) by lia. assert (2 ^ 53 = 2 * 2 ^ 52) by done. nia.
    + symmetry. apply Z.ltb_ge. assert (2 ^ (- k) = 2 ^ (- e) * 2 ^ (e - k)) as Hp by (rewrite <- Z.pow_add_r by lia; f_equal; lia).
      assert (2 <= 2 ^ (e - k)) by (change 2 with (2 ^ 1) at 1; apply Z.pow_le_mono_r; lia).
      assert (0 < 2 ^ (- e)) by lia. assert (2 ^ 53 = 2 * 2 ^ 52) by done. nia.
  - lia.
Qed.

Lemma math_Min_exact a b : 0 <= a < 2 ^ 53 -> 0 <= b < 2 ^ 53 -> math_Min (float_of_Z a) (float_of_Z b) = float_of_Z (Z.min a b).
Proof.
  intros Ha Hb. pose proof (float_ltb a b Ha Hb) as Hlt. destruct a as [|a|a]; [|destruct b as [|b|b]|lia].
  - destruct b as [|b|b]; [done| |lia]. destruct (float_of_pos b (proj2 Hb)) as (M & e & Hf & _). by rewrite Hf.
  - destruct (float_of_pos a (proj2 Ha)) as (M & e & Hf & _). by rewrite Hf.
  - destruct (float_of_pos a (proj2 Ha)) as (M & e & Hf & _), (float_of_pos b (proj2 Hb)) as (N & k & Hg & _).
    unfold math_Min. rewrite Hf, Hg in Hlt |- *. rewrite Hlt. destruct (Z.ltb_spec (Zpos a) (Zpos b)); [rewrite Z.min_l by lia|rewrite Z.min_r by lia]; done.
  - lia.
Qed.

Lemma math_Max_exact a b : 0 <= a < 2 ^ 53 -> 0 <= b < 2 ^ 53 -> math_Max (float_of_Z a) (float_of_Z b) = float_of_Z (Z.max a b).
Proof.
  intros Ha Hb. pose proof (float_ltb b a Hb Ha) as Hlt. destruct a as [|a|a]; [|destruct b as [|b|b]|lia].
  - destruct b as [|b|b]; [done| |lia]. destruct (float_of_pos b (proj2 Hb)) as (M & e & Hf & _). by rewrite Hf.
  - destruct (float_of_pos a (proj2 Ha)) as (M & e & Hf & _). by rewrite Hf.
  - destruct (float_of_pos a (proj2 Ha)) as (M & e & Hf & _), (float_of_pos b (proj2 Hb)) as (N & k & Hg & _).
    unfold math_Max. rewrite Hf, Hg in Hlt |- *. rewrite Hlt. destruct (Z.ltb_spec (Zpos b) (Zpos a)); [rewrite Z.max_l by lia|rewrite Z.max_r by lia]; done.
  - lia.
Qed.

Lemma math_Min_start a : 0 <= a < 2 ^ 53 -> math_Min MaxFloat64 (float_of_Z a) = float_of_Z a.
Proof.
  intros [H0 H1]. destruct a as [|a|a]; [done| |lia]. destruct (float_of_pos a H1) as (M & e & -> & He & _).
  unfold math_Min, MaxFloat64, fltb, SFltb. cbn [SFcompare]. by rewrite (proj2 (Z.compare_gt_iff 971 e)) by lia.
Qed.

(** ** Non-negative numbers *)

(** Zero, infinity, or a number whose mantissa has at most 53 bits. *)
Definition nonneg_float (f : float64) : Prop :=
  match f with S754_zero false | S754_infinity false => True | S754_finite false m _ => Zpos m < 2 ^ 53 | _ => False end.

Lemma shr_1_half r : 0 <= shr_m r -> shr_m (shr_1 r) = shr_m r / 2.
Proof.
  destruct r as [m r s]. simpl. intros Hm. destruct m as [|[p|p|]|p]; try done; try lia; cbn [shr_m].
  - rewrite Pos2Z.inj_xI, Z.add_comm, Z.mul_comm, Z.div_add by lia. done.
  - rewrite Pos2Z.inj_xO, Z.mul_comm, Z.div_mul by lia. done.
Qed.

Lemma shr_iter p : forall r, 0 <= shr_m r -> shr_m (iter_pos shr_1 p r) = shr_m r / 2 ^ Zpos p.
Proof.
  induction p as [p IH|p IH|]; intros r Hr; cbn [iter_pos].
  - assert (0 <= shr_m (shr_1 r)) by (rewrite shr_1_half by done; by apply Z.div_pos).
    rewrite IH by (rewrite IH by done; apply Z.div_pos; lia). rewrite IH, shr_1_half by done.
    rewrite !Z.div_div by lia. f_equal. replace (Zpos p~1) with (1 + Zpos p + Zpos p) by lia. rewrite !Z.pow_add_r by lia. lia.
  - rewrite IH by (rewrite IH by done; apply Z.div_pos; lia). rewrite IH by done. rewrite Z.div_div, <- Z.pow_add_r by lia. f_equal. f_equal. lia.
  - rewrite shr_1_half by done. done.
Qed.

(** Shifting to the exponent leaves at most 53 bits. *)
Lemma shr_fexp_small m e l : 0 <= m -> 0 <= shr_m (shr_fexp 53 1024 m e l).1 < 2 ^ 53.
Proof.
  intros Hm. assert (forall l, shr_m (shr_record_of_loc m l) = m) as Hrec by (by intros [|[]]).
  assert (m < 2 ^ Zdigits2 m ∧ 0 <= Zdigits2 m) as [Hd Hd0].
  { destruct m as [|m|m]; [done| |lia]. pose proof (digits_bounds m). simpl. lia. }
  unfold shr_fexp. set (d := Zdigits2 m) in *. set (n := fexp 53 1024 (d + e) - e). assert (d - 53 <= n) as Hn by (unfold n, fexp; lia).
  unfold shr. destruct n as [|p|p]; cbn [fst]; rewrite ?shr_iter; rewrite ?Hrec; try done.
  - split; [done|]. eapply Z.lt_le_trans; [exact Hd|]. apply Z.pow_le_mono_r; lia.
  - split; [apply Z.div_pos; lia|]. apply Z.div_lt_upper_bound; [lia|]. rewrite <- Z.pow_add_r by lia.
    eapply Z.lt_le_trans; [exact Hd|]. apply Z.pow_le_mono_r; lia.
  - split; [done|]. eapply Z.lt_le_trans; [exact Hd|]. apply Z.pow_le_mono_r; lia.
Qed.

Lemma round_nonneg m e l : 0 <= m -> nonneg_float (binary_round_aux 53 1024 false m e l).
Proof.
  intros Hm. unfold binary_round_aux. pose proof (shr_fexp_small m e l Hm) as H1. destruct (shr_fexp 53 1024 m e l) as [r e1]. cbn [fst] in H1.
  assert (0 <= round_nearest_even (shr_m r) (loc_of_shr_record r)) as H2.
  { unfold round_nearest_even. destruct (loc_of_shr_record r) as [|[]]; try lia. destruct (Z.even _); lia. }
  pose proof (shr_fexp_small _ e1 loc_Exact H2) as H3. destruct (shr_fexp 53 1024 _ e1 loc_Exact) as [r2 e2]. cbn [fst] in H3.
  destruct (shr_m r2) as [|p|p]; [done| |lia]. destruct (e2 <=? 1024 - 53); simpl; [lia|done].
Qed.

Lemma normalize_nonneg z e : 0 <= z -> nonneg_float (binary_normalize 53 1024 z e false).
Proof.
  intros Hz. destruct z as [|m|m]; [done| |lia]. unfold binary_normalize, binary_round.
  destruct (shl_align _ _ _) as [mz ez]. apply round_nonneg. lia.
Qed.

Lemma fmul_nonneg a b : 0 <= a < 2 ^ 53 -> 0 <= b < 2 ^ 53 -> nonneg_float (fmul (float_of_Z a) (float_of_Z b)).
Proof.
  intros [Ha Ha'] [Hb Hb']. unfold fmul. destruct a as [|a|a]; [|destruct b as [|b|b]|lia].
  - destruct b as [|b|b]; [done| |lia]. by destruct (float_of_pos b Hb') as (M & e & -> & _).
  - by destruct (float_of_pos a Ha') as (M & e & -> & _).
  - destruct (float_of_pos a Ha') as (M & e & -> & _), (float_of_pos b Hb') as (N & k & -> & _). apply round_nonneg. lia.
  - lia.
Qed.

Lemma fdiv_nonneg x b : nonneg_float x -> 0 < b < 2 ^ 53 -> nonneg_float (fdiv x (float_of_Z b)).
Proof.
  intros Hx [Hb Hb']. destruct b as [|b|b]; [lia| |lia]. destruct (float_of_pos b Hb') as (N & k & -> & _).
  destruct x as [[]|[]| |[] m e]; try done. unfold fdiv, SFdiv. destruct (SFdiv_core_binary 53 1024 (Zpos m) e (Zpos N) k) as [[q e'] l] eqn:Hq.
  apply round_nonneg. unfold SFdiv_core_binary in Hq. set (s := e - k - _) in Hq. set (m' := match s with Z0 => Zpos m | Zpos _ => Z.shiftl (Zpos m) s | Zneg _ => 0 end) in Hq.
  assert (0 <= m') as Hm' by (unfold m'; destruct s; [lia|apply Z.shiftl_nonneg; lia|lia]).
  pose proof (Z_div_mod m' (Zpos N) ltac:(lia)) as Hdm. destruct (Z.div_eucl m' (Zpos N)) as [q0 r]. injection Hq as <- _ _. nia.
Qed.

Lemma fadd_half_nonneg x : nonneg_float x -> nonneg_float (fadd x (fdiv (float_of_Z 1) (float_of_Z 2))).
Proof.
  intros Hx. change (fdiv (float_of_Z 1) (float_of_Z 2)) with (S754_finite false 4503599627370496 (-53)).
  destruct x as [[]|[]| |[] m e]; try done. unfold fadd, SFadd. cbn [cond_Zopp]. apply normalize_nonneg. lia.
Qed.

Lemma int_of_finite M : Zpos M < 2 ^ 53 -> int64_of_float (S754_finite false M 0) = Zpos M.
Proof.
  intros HM. unfold int64_of_float. change (0 <=? 0) with true. cbn iota zeta. rewrite Z.mul_1_r.
  by rewrite (proj2 (Z.leb_le MinInt64 _)), (proj2 (Z.leb_le _ MaxInt64)) by (unfold MinInt64, MaxInt64; lia).
Qed.

(** A share between one and the limit. *)
Lemma share_bounds x m : nonneg_float x -> 0 <= m < 2 ^ 53 ->
  Z.min 1 m <= int64_of_float (math_Min (math_Max (math_Floor x) (float_of_Z 1)) (float_of_Z m)) <= m.
Proof.
  intros Hx Hm. assert (forall q, 0 <= q < 2 ^ 53 ->
    Z.min 1 m <= int64_of_float (math_Min (math_Max (float_of_Z q) (float_of_Z 1)) (float_of_Z m)) <= m) as Hint.
  { intros q Hq. rewrite math_Max_exact, math_Min_exact, int_of_float by lia. lia. }
  assert (int64_of_float (float_of_Z m) = m) as Hlim by by apply int_of_float.
  destruct x as [[]|[]| |[] M e]; try done; cbn [math_Floor].
  - apply (Hint 0). lia.
  - replace (math_Min (math_Max (S754_infinity false) (float_of_Z 1)) (float_of_Z m)) with (float_of_Z m); [lia|].
    destruct m as [|m|m]; [done| |lia]. by destruct (float_of_pos m (proj2 Hm)) as (N & k & -> & _).
  - simpl in Hx. destruct (Z.leb_spec 0 e) as [He|He].
    + assert (math_Max (S754_finite false M e) (float_of_Z 1) = S754_finite false M e) as ->.
      { change (float_of_Z 1) with (S754_finite false 4503599627370496 (-52)). unfold math_Max, fltb, SFltb. cbn [SFcompare].
        by rewrite (proj2 (Z.compare_lt_iff (-52) e)) by lia. }
      destruct m as [|m|m]; [done| |lia]. destruct (float_of_pos m (proj2 Hm)) as (N & k & Hf & Hk & HN & HNm). rewrite Hf in *.
      unfold math_Min. destruct (fltb (S754_finite false M e) (S754_finite false N k)) eqn:Hlt; [|lia].
      unfold fltb, SFltb in Hlt. cbn [SFcompare] in Hlt. destruct (Z.compare_spec e k) as [->|?|?]; [|lia|done].
      replace k with 0 in * by lia. change (Pos.compare_cont Eq M N) with (Pos.compare M N) in Hlt.
      destruct (Pos.compare_spec M N); try done. rewrite Z.mul_1_r in HNm. rewrite int_of_finite by done. lia.
    + apply Hint. split; [apply Z.div_pos; lia|]. apply Z.div_lt_upper_bound; [lia|]. assert (0 < 2 ^ (- e)) by lia. nia.
Qed.

(** ** Products with powers of two *)

Lemma shr_exact p : forall m, iter_pos shr_1 p (Build_shr_record (Zpos (Pos.iter xO m p)) false false) = Build_shr_record (Zpos m) false false.
Proof.
  assert (forall p m, iter_pos shr_1 p (shr_1 m) = shr_1 (iter_pos shr_1 p m)) as Hc.
  { clear. intros p. induction p as [p IH|p IH|]; intros m; simpl; by rewrite ?IH. }
  assert (forall p m, iter_pos shr_1 (Pos.succ p) m = iter_pos shr_1 p (shr_1 m)) as Hs.
  { clear -Hc. intros p. induction p as [p IH|p IH|]; intros m; cbn [Pos.succ]; [|done|done]. change (iter_pos shr_1 (Pos.succ p) (iter_pos shr_1 (Pos.succ p) m) = iter_pos shr_1 p (iter_pos shr_1 p (shr_1 (shr_1 m)))). by rewrite !IH, <- Hc. }
  induction p as [|p IH] using Pos.peano_ind; intros m; [done|].
  rewrite Hs, Pos.iter_succ. cbn [shr_1]. apply IH.
Qed.

Lemma digits_mul m p : Zpos (digits2_pos (Pos.iter xO m p)) = Zpos (digits2_pos m) + Zpos p.
Proof.
  induction p as [|p IH] using Pos.peano_ind; [simpl; lia|].
  rewrite Pos.iter_succ. cbn [digits2_pos]. lia.
Qed.

Lemma shl_full M : 2 ^ 52 <= Zpos M < 2 ^ 53 -> (M * 4503599627370496)%positive = Pos.iter xO M 52.
Proof. intros _. apply Pos2Z.inj. rewrite iter_xO. lia. Qed.

Lemma fmul_pow2 M e k : 2 ^ 52 <= Zpos M < 2 ^ 53 -> -52 <= e <= 0 -> 0 <= k ->
  fmul (S754_finite false M e) (pow2 k) = if e + k <=? 971 then S754_finite false M (e + k) else S754_infinity false.
Proof.
  intros HM He Hk. unfold fmul, pow2. destruct (Z.leb_spec k 1023); cbn [SFmul]; cycle 1.
  { destruct (Z.leb_spec (e + k) 971); [lia|done]. }
  cbn [xorb]. rewrite Pos2Z.inj_mul, <- Pos2Z.inj_mul, shl_full by done. set (m := Pos.iter xO M 52).
  assert (Zpos (digits2_pos M) = 53) as Hd by (by apply digits_unique).
  assert (forall z, shr_fexp 53 1024 (Zpos m) (e + (k - 52)) loc_Exact = z -> z = (Build_shr_record (Zpos M) false false, e + k)) as Hshr.
  { intros z <-. unfold shr_fexp, fexp, emin. cbn [Zdigits2]. unfold m. rewrite digits_mul, Hd.
    replace (Z.max (53 + 52 + (e + (k - 52)) - 53) (3 - 1024 - 53) - (e + (k - 52))) with 52 by lia.
    cbn [shr shr_record_of_loc]. rewrite shr_exact. f_equal. lia. }
  unfold binary_round_aux. rewrite (Hshr _ eq_refl).
  assert (shr_fexp 53 1024 (Zpos M) (e + k) loc_Exact = (Build_shr_record (Zpos M) false false, e + k)) as Hshr'.
  { unfold shr_fexp, fexp, emin. cbn [Zdigits2]. rewrite Hd.
    replace (Z.max (53 + (e + k) - 53) (3 - 1024 - 53) - (e + k)) with 0 by lia. done. }
  cbn [shr_m loc_of_shr_record round_nearest_even]. rewrite Hshr'. cbn [shr_m]. done.
Qed.

Lemma compare_top M : match (4503599627370496 ?= M)%positive with Lt => true | _ => false end = (2 ^ 63 <? Zpos M * 2 ^ 11).
Proof.
  rewrite Pos2Z.inj_compare. generalize (Zpos M). intros z.
  destruct (Z.compare_spec 4503599627370496 z) as [H|H|H].
  - symmetry. apply Z.ltb_ge. lia.
  - symmetry. apply Z.ltb_lt. lia.
  - symmetry. apply Z.ltb_ge. lia.
Qed.

(** The product of a small integer and a power of two, compared with the largest
    [int64] and converted to one. *)
Lemma scale_exact b k : 0 < b < 2 ^ 53 -> 0 <= k -> b * 2 ^ k ≠ 2 ^ 63 ->
  fltb (float_of_Z MaxInt64) (fmul (float_of_Z b) (pow2 k)) = (2 ^ 63 <? b * 2 ^ k) ∧
  (b * 2 ^ k < 2 ^ 63 -> int64_of_float (fmul (float_of_Z b) (pow2 k)) = b * 2 ^ k).
Proof.
  intros [H0 H1] Hk Hne. destruct b as [|m|m]; [lia| |lia].
  destruct (float_of_pos m H1) as (M & e & -> & He & HM & HMe). rewrite fmul_pow2 by done.
  change (float_of_Z MaxInt64) with (S754_finite false 4503599627370496 11).
  set (j := e + k). assert (0 <= j -> Zpos m * 2 ^ k = Zpos M * 2 ^ j) as Hpos.
  { intros Hj. rewrite HMe, <- Z.mul_assoc, <- Z.pow_add_r by lia. do 2 f_equal. lia. }
  assert (j < 0 -> Zpos M = Zpos m * 2 ^ k * 2 ^ (- j)) as Hneg.
  { intros Hj. rewrite HMe, <- Z.mul_assoc, <- Z.pow_add_r by lia. do 2 f_equal. lia. }
  assert (11 < j -> 2 ^ 63 < Zpos m * 2 ^ k) as Hbig.
  { intros Hj. rewrite Hpos by lia. pose proof (Z.pow_le_mono_r 2 12 j ltac:(lia) ltac:(lia)). nia. }
  assert (j < 11 -> Zpos m * 2 ^ k < 2 ^ 63) as Hsmall.
  { intros Hj. destruct (Z.lt_ge_cases j 0).
    - pose proof (Z.pow_pos_nonneg 2 (- j) ltac:(lia) ltac:(lia)). specialize (Hneg ltac:(lia)). nia.
    - rewrite Hpos by lia. pose proof (Z.pow_le_mono_r 2 j 10 ltac:(lia) ltac:(lia)). nia. }
  split.
  - destruct (Z.leb_spec j 971); cycle 1; [rewrite (proj2 (Z.ltb_lt _ _)) by (apply Hbig; lia); done|].
    unfold fltb, SFltb. cbn [SFcompare]. destruct (Z.compare_spec 11 j) as [Hj|Hj|Hj].
    + subst j. rewrite <- Hj in Hpos. change (Pos.compare_cont Eq 4503599627370496 M) with (4503599627370496 ?= M)%positive.
      rewrite Hpos, <- compare_top by lia. by destruct (4503599627370496 ?= M)%positive.
    + rewrite (proj2 (Z.ltb_lt _ _)) by (by apply Hbig). done.
    + rewrite (proj2 (Z.ltb_ge _ _)) by (apply Z.lt_le_incl; by apply Hsmall). done.
  - intros Hlt. destruct (Z.leb_spec j 971); [|lia]. unfold int64_of_float.
    assert ((if 0 <=? j then Zpos M * 2 ^ j else Zpos M / 2 ^ (- j)) = Zpos m * 2 ^ k) as ->.
    { destruct (Z.leb_spec 0 j); [by rewrite Hpos|]. rewrite Hneg by lia. apply Z.div_mul. lia. }
    pose proof (Z.pow_pos_nonneg 2 k ltac:(lia) ltac:(lia)).
    rewrite (proj2 (Z.leb_le MinInt64 _)), (proj2 (Z.leb_le _ MaxInt64)) by (unfold MinInt64, MaxInt64; lia). done.
Qed.
