(* ===== verification/WorkQueue.v ===== *)
(** * The work queues of the controllers

    Models the package [staging/src/k8s.io/client-go/util/workqueue], from which the
    controllers and the scheduler take their queues of events: the queue with its dirty
    and processing sets ([queue.go]), the queue of delayed items ([delaying_queue.go])
    and the rate limiters ([default_rate_limiters.go], [rate_limiting_queue.go]).

    The queue is specified by a machine with one of four phases per item; [queue.go]
    refines it.  The delayed items wait in a map by item, which is what the heap of
    [delaying_queue.go] contains; the order in which the heap gives them out is a
    parameter.  The token bucket of [golang.org/x/time/rate] is a parameter as well.
    Metrics are left out. *)
From S2P Require Import Prelude Types Strconv Floats.

Local Open Scope Z_scope.

Section Queue.
Context {t : Type} `{Countable t}.

(** (workqueue/queue.go:65-88 Type) *)
Record Type_ := mkType { queue : list t; dirty : gset t; processing : gset t; shuttingDown : bool }.

(** (workqueue/queue.go:49-60 newQueue) *)
Definition newQueue : Type_ := mkType [] ∅ ∅ false.

(** (workqueue/queue.go:94-97) *)
Definition has (s : gset t) (item : t) : bool := bool_decide (item ∈ s).

(** (workqueue/queue.go:108-127 Add) *)
Definition wq_Add (q : Type_) (item : t) : Type_ :=
  if shuttingDown q then q
  else if has (dirty q) item then q
  else
    let d := {[item]} ∪ dirty q in
    if has (processing q) item then mkType (queue q) d (processing q) (shuttingDown q)
    else mkType (queue q ++ [item]) d (processing q) (shuttingDown q).

(** (workqueue/queue.go:132-136 Len) *)
Definition wq_Len (q : Type_) : nat := length (queue q).

(** The outcome of [Get]: an item, the order to end, or that the caller waits. *)
Inductive got := Got (item : t) | Shutdown | Waits.

(** (workqueue/queue.go:141-160 Get) *)
Definition wq_Get (q : Type_) : Type_ * got :=
  match queue q with
  | [] => if shuttingDown q then (q, Shutdown) else (q, Waits)
  | item :: rest => (mkType rest (dirty q ∖ {[item]}) ({[item]} ∪ processing q) (shuttingDown q), Got item)
  end.

(** (workqueue/queue.go:165-176 Done) *)
Definition wq_Done (q : Type_) (item : t) : Type_ :=
  mkType (if has (dirty q) item then queue q ++ [item] else queue q) (dirty q) (processing q ∖ {[item]}) (shuttingDown q).

(** (workqueue/queue.go:181-186 ShutDown) *)
Definition wq_ShutDown (q : Type_) : Type_ := mkType (queue q) (dirty q) (processing q) true.

(** (workqueue/queue.go:188-193) *)
Definition ShuttingDown (q : Type_) : bool := shuttingDown q.

(** ** The rate limiters *)

(** (workqueue/default_rate_limiters.go:67-73) *)
Record ItemExponentialFailureRateLimiter := mkExponential { failures : gmap t Z; baseDelay : Z; maxDelay : Z }.

(** (workqueue/default_rate_limiters.go:77-83) *)
Definition NewItemExponentialFailureRateLimiter (base max : Z) : ItemExponentialFailureRateLimiter := mkExponential ∅ base max.

(** [When] counts the failure and returns the delay
    (workqueue/default_rate_limiters.go:89-108 ItemExponentialFailureRateLimiter.When). *)
Definition exponential_When (r : ItemExponentialFailureRateLimiter) (item : t) : ItemExponentialFailureRateLimiter * Z :=
  let exp := default 0 (failures r !! item) in
  let r' := mkExponential (<[item := wrap64 (exp + 1)]> (failures r)) (baseDelay r) (maxDelay r) in
  let backoff := fmul (float_of_Z (baseDelay r)) (pow2 exp) in
  if fltb (float_of_Z MaxInt64) backoff then (r', maxDelay r)
  else
    let calculated := int64_of_float backoff in
    if maxDelay r <? calculated then (r', maxDelay r) else (r', calculated).

(** (workqueue/default_rate_limiters.go:110-115 ItemExponentialFailureRateLimiter.NumRequeues) *)
Definition exponential_NumRequeues (r : ItemExponentialFailureRateLimiter) (item : t) : Z := default 0 (failures r !! item).

(** (workqueue/default_rate_limiters.go:117-122 ItemExponentialFailureRateLimiter.Forget) *)
Definition exponential_Forget (r : ItemExponentialFailureRateLimiter) (item : t) : ItemExponentialFailureRateLimiter :=
  mkExponential (delete item (failures r)) (baseDelay r) (maxDelay r).

(** (workqueue/default_rate_limiters.go:125-132) *)
Record ItemFastSlowRateLimiter := mkFastSlow { fs_failures : gmap t Z; maxFastAttempts : Z; fastDelay : Z; slowDelay : Z }.

(** (workqueue/default_rate_limiters.go:145-156 ItemFastSlowRateLimiter.When) *)
Definition fastslow_When (r : ItemFastSlowRateLimiter) (item : t) : ItemFastSlowRateLimiter * Z :=
  let n := wrap64 (default 0 (fs_failures r !! item) + 1) in
  (mkFastSlow (<[item := n]> (fs_failures r)) (maxFastAttempts r) (fastDelay r) (slowDelay r),
   if n <=? maxFastAttempts r then fastDelay r else slowDelay r).

(** The limiters of [DefaultControllerRateLimiter]: the exponential one, and a token
    bucket of which only the delay it asks for is seen. *)
Context {bucket : Type} (Reserve_Delay : bucket -> bucket * Z).

(** (workqueue/default_rate_limiters.go:39-45) *)
Definition DefaultControllerRateLimiter (b : bucket) : ItemExponentialFailureRateLimiter * bucket :=
  (NewItemExponentialFailureRateLimiter 5000000 1000000000000, b).

(** (workqueue/default_rate_limiters.go:179-189 MaxOfRateLimiter.When) *)
Definition maxof_When (r : ItemExponentialFailureRateLimiter * bucket) (item : t) : (ItemExponentialFailureRateLimiter * bucket) * Z :=
  let '(e, d1) := exponential_When r.1 item in
  let '(b, d2) := Reserve_Delay r.2 in
  let ret := if 0 <? d1 then d1 else 0 in
  ((e, b), if ret <? d2 then d2 else ret).

(** (workqueue/default_rate_limiters.go:195-205 MaxOfRateLimiter.NumRequeues) *)
Definition maxof_NumRequeues (r : ItemExponentialFailureRateLimiter * bucket) (item : t) : Z :=
  let curr := exponential_NumRequeues r.1 item in if 0 <? curr then curr else 0.

(** (workqueue/default_rate_limiters.go:207-211 MaxOfRateLimiter.Forget) *)
Definition maxof_Forget (r : ItemExponentialFailureRateLimiter * bucket) (item : t) : ItemExponentialFailureRateLimiter * bucket :=
  (exponential_Forget r.1 item, r.2).

(** ** The delayed items *)

(** The channel of new entries (at most 1000) and the entries that wait, by item
    (workqueue/delaying_queue.go:62-90). *)
Record delayingType := mkDelaying { Interface : Type_; waitingForAddCh : list (t * Z); waitingEntryByData : gmap t Z }.

(** The channel blocks the caller when it is full (workqueue/delaying_queue.go:150-170). *)
Definition AddAfter (now : Z) (q : delayingType) (item : t) (duration : Z) : option delayingType :=
  if ShuttingDown (Interface q) then Some q
  else if duration <=? 0 then Some (mkDelaying (wq_Add (Interface q) item) (waitingForAddCh q) (waitingEntryByData q))
  else if (length (waitingForAddCh q) <? 1000)%nat
  then Some (mkDelaying (Interface q) (waitingForAddCh q ++ [(item, now + duration)]) (waitingEntryByData q))
  else None.

(** An entry that already waits keeps the earlier time (workqueue/delaying_queue.go:250-264 insert). *)
Definition insert_entry (known : gmap t Z) (entry : t * Z) : gmap t Z :=
  match known !! entry.1 with
  | Some readyAt => if entry.2 <? readyAt then <[entry.1 := entry.2]> known else known
  | None => <[entry.1 := entry.2]> known
  end.

(** The entries are popped from the heap while they are ready
    (workqueue/delaying_queue.go:197-206 waitingLoop). *)
Fixpoint add_ready (now : Z) (q : Type_) (known : gmap t Z) (heap : list (t * Z)) : Type_ * gmap t Z :=
  match heap with
  | [] => (q, known)
  | e :: heap => if now <? e.2 then (q, known) else add_ready now (wq_Add q e.1) (delete e.1 known) heap
  end.

(** One entry received from the channel (workqueue/delaying_queue.go:225-230 waitingLoop). *)
Definition receive_entry (now : Z) (acc : Type_ * gmap t Z) (e : t * Z) : Type_ * gmap t Z :=
  if now <? e.2 then (acc.1, insert_entry acc.2 e) else (wq_Add acc.1 e.1, acc.2).

(** One round of the loop, which ends when the queue is shut down.  [heap] is the order in
    which the heap gives out its entries, [now] the time at the start and [clk] the times
    at which the entries of the channel are received; [fired] is whether a timer ends the
    wait instead of the channel (workqueue/delaying_queue.go:189-246 waitingLoop). *)
Definition waiting_step (heap : gmap t Z -> list (t * Z)) (now : Z) (clk : nat -> Z) (fired : bool) (q : delayingType) : delayingType :=
  if ShuttingDown (Interface q) then q
  else
    let '(i, known) := add_ready now (Interface q) (waitingEntryByData q) (heap (waitingEntryByData q)) in
    if fired then mkDelaying i (waitingForAddCh q) known
    else
      let '(i, known) := foldl (fun acc ne => receive_entry ne.1 acc ne.2) (i, known) (imap (fun n e => (clk n, e)) (waitingForAddCh q)) in
      mkDelaying i [] known.

(** ** The rate-limiting queue *)

(** (workqueue/rate_limiting_queue.go:52-56) *)
Record rateLimitingType := mkRateLimiting { DelayingInterface : delayingType; rateLimiter : ItemExponentialFailureRateLimiter * bucket }.

(** (workqueue/rate_limiting_queue.go:59-61) *)
Definition AddRateLimited (now : Z) (q : rateLimitingType) (item : t) : option rateLimitingType :=
  let '(r, d) := maxof_When (rateLimiter q) item in
  q' ← AddAfter now (DelayingInterface q) item d; Some (mkRateLimiting q' r).

(** (workqueue/rate_limiting_queue.go:67-69 Forget) *)
Definition rl_Forget (q : rateLimitingType) (item : t) : rateLimitingType :=
  mkRateLimiting (DelayingInterface q) (maxof_Forget (rateLimiter q) item).

End Queue.
Arguments Type_ _ {_ _}.
Arguments got : clear implicits.
Arguments ItemExponentialFailureRateLimiter _ {_ _}.
Arguments delayingType _ {_ _}.
Arguments rateLimitingType _ {_ _} _.

(** ** The queue refines one phase per item

    An item is idle, queued, handed out, or handed out and added again. *)
Inductive phase := Idle | Queued | Processing | Redo.

#[export] Instance phase_eq_dec : EqDecision phase.
Proof. solve_decision. Defined.

Section Spec.
Context {t : Type} `{Countable t}.
Implicit Types (q : Type_ t) (x y item : t).

Definition phase_of q x : phase :=
  match has (dirty q) x, has (processing q) x with
  | false, false => Idle | true, false => Queued | false, true => Processing | true, true => Redo
  end.

(** The calls, and what [Get] returns. *)
Inductive wq_op := OAdd (x : t) | OGet | ODone (x : t) | OShutDown.

Definition wq_exec q (o : wq_op) : Type_ t * option (got t) :=
  match o with
  | OAdd x => (wq_Add q x, None)
  | OGet => let '(q, g) := wq_Get q in (q, Some g)
  | ODone x => (wq_Done q x, None)
  | OShutDown => (wq_ShutDown q, None)
  end.

Fixpoint wq_run q (ops : list wq_op) : Type_ t * list (got t) :=
  match ops with
  | [] => (q, [])
  | o :: ops =>
      let '(q, g) := wq_exec q o in
      let '(q, gs) := wq_run q ops in (q, option_list g ++ gs)
  end.

(** A caller marks as done only what it was handed out. *)
Definition wq_legal q (o : wq_op) : bool := match o with ODone x => has (processing q) x | _ => true end.

Fixpoint wq_legal_run q (ops : list wq_op) : bool :=
  match ops with [] => true | o :: ops => wq_legal q o && wq_legal_run (wq_exec q o).1 ops end.

(** How a call moves the phase of an item. *)
Definition phase_step (down : bool) (o : wq_op) (g : option (got t)) (y : t) (p : phase) : phase :=
  match o, g with
  | OAdd x, _ => if down then p else if decide (y = x) then match p with Idle => Queued | Processing => Redo | p => p end else p
  | OGet, Some (Got x) => if decide (y = x) then Processing else p
  | ODone x, _ => if decide (y = x) then match p with Processing => Idle | Redo => Queued | p => p end else p
  | _, _ => p
  end.

(** The slice holds the queued items, each once. *)
Definition wq_ok q : Prop := NoDup (queue q) ∧ forall x, x ∈ queue q <-> phase_of q x = Queued.

Lemma has_spec (s : gset t) x : has s x = true <-> x ∈ s.
Proof. unfold has. by rewrite bool_decide_eq_true. Qed.

Lemma phase_queued q x : phase_of q x = Queued <-> x ∈ dirty q ∧ x ∉ processing q.
Proof.
  unfold phase_of, has. repeat case_bool_decide; naive_solver.
Qed.

Lemma newQueue_ok : wq_ok (newQueue (t := t)).
Proof. split; [constructor|]. intros x. rewrite phase_queued. simpl. set_solver. Qed.

Lemma NoDup_snoc (l : list t) x : NoDup l -> x ∉ l -> NoDup (l ++ [x]).
Proof.
  intros Hl Hx. apply NoDup_app. split; [done|]. split; [|apply NoDup_singleton].
  intros y Hy ->%list_elem_of_singleton. done.
Qed.

Lemma wq_exec_ok q o : wq_ok q -> wq_legal q o = true -> wq_ok (wq_exec q o).1.
Proof.
  intros [Hnd Hq] Hl. assert (forall x, x ∈ queue q <-> x ∈ dirty q ∧ x ∉ processing q) as Hm.
  { intros x. by rewrite Hq, phase_queued. }
  clear Hq. destruct o as [x| |x|]; cbn [wq_exec fst] in *.
  - unfold wq_Add, has. destruct (shuttingDown q); [by split; [|intros y; rewrite phase_queued]|].
    repeat case_bool_decide; split; cbn [queue dirty processing]; try done; try (intros y; rewrite phase_queued); cbn [queue dirty processing]; try done.
    + rewrite Hm. set_solver.
    + apply NoDup_snoc; [done|]. rewrite Hm. set_solver.
    + rewrite elem_of_app, list_elem_of_singleton, Hm. set_solver.
  - unfold wq_Get. destruct (queue q) as [|x rest] eqn:Hqq.
    { destruct (shuttingDown q); cbn [fst]; split; rewrite Hqq; try done; intros y; rewrite phase_queued; apply Hm. }
    apply NoDup_cons in Hnd as [Hx Hnd]. split; cbn [fst queue]; [done|]. intros y. rewrite phase_queued.
    cbn [dirty processing]. pose proof (Hm y) as Hy. rewrite elem_of_cons in Hy. destruct (decide (y = x)) as [->|]; set_solver.
  - unfold wq_legal in Hl. apply has_spec in Hl. unfold wq_Done, has. assert (x ∉ queue q) by (rewrite Hm; naive_solver).
    case_bool_decide; split; cbn [queue]; try done; try (intros y; rewrite phase_queued); cbn [queue dirty processing].
    + by apply NoDup_snoc.
    + rewrite elem_of_app, list_elem_of_singleton, Hm. destruct (decide (y = x)) as [->|]; set_solver.
    + rewrite Hm. destruct (decide (y = x)) as [->|]; set_solver.
  - split; [done|]. intros y. rewrite phase_queued. apply Hm.
Qed.

Lemma phase_exec q o y : wq_ok q -> phase_of (wq_exec q o).1 y = phase_step (shuttingDown q) o (wq_exec q o).2 y (phase_of q y).
Proof.
  intros [Hnd Hq]. destruct o as [x| |x|]; cbn [wq_exec fst snd phase_step].
  - unfold wq_Add, phase_of, has. destruct (shuttingDown q); [done|]. repeat case_bool_decide; cbn [dirty processing] in *;
      repeat case_bool_decide; destruct (decide (y = x)) as [->|]; set_solver.
  - unfold wq_Get. destruct (queue q) as [|x rest] eqn:Hqq.
    { by destruct (shuttingDown q). }
    cbn [fst snd phase_step]. assert (phase_of q x = Queued) as Hx by (apply Hq; constructor).
    apply phase_queued in Hx. unfold phase_of, has. cbn [dirty processing].
    repeat case_bool_decide; destruct (decide (y = x)) as [->|]; set_solver.
  - unfold wq_Done, phase_of, has. cbn [dirty processing]. repeat case_bool_decide; destruct (decide (y = x)) as [->|]; set_solver.
  - done.
Qed.

Lemma wq_run_ok ops : forall q, wq_ok q -> wq_legal_run q ops = true -> wq_ok (wq_run q ops).1.
Proof.
  induction ops as [|o ops IH]; intros q Hq Hl; [done|]. cbn [wq_legal_run wq_run] in *.
  apply andb_true_iff in Hl as [Ho Hl]. pose proof (wq_exec_ok q o Hq Ho) as Hq'.
  destruct (wq_exec q o) as [q' g]. specialize (IH q' Hq' Hl). by destruct (wq_run q' ops).
Qed.

(** The queue is first in, first out, whatever is called meanwhile. *)
Lemma wq_run_fifo ops : forall q i x g, queue q !! i = Some x -> (wq_run q ops).2 !! i = Some g -> g = Got x.
Proof.
  induction ops as [|o ops IH]; intros q i x g Hi Hg; [done|]. cbn [wq_run] in Hg.
  assert (forall q', queue q' !! i = Some x -> wq_exec q o = (q', None) -> g = Got x) as Hsame.
  { intros q' Hi' He. rewrite He in Hg. apply (IH q' i x g Hi'). by destruct (wq_run q' ops). }
  destruct o as [y| |y|].
  - apply (Hsame (wq_Add q y)); [|done]. unfold wq_Add. repeat case_match; cbn [queue]; try done. by apply lookup_app_l_Some.
  - cbn [wq_exec] in Hg. unfold wq_Get in Hg. destruct (queue q) as [|y rest]; [done|].
    destruct (wq_run _ ops) as [q' gs] eqn:Hr in Hg. destruct i as [|i]; simplify_eq/=; [done|].
    match type of Hr with wq_run ?q1 _ = _ => apply (IH q1 i x g) end; [done|by rewrite Hr].
  - apply (Hsame (wq_Done q y)); [|done]. unfold wq_Done. cbn [queue]. destruct (has (dirty q) y); [by apply lookup_app_l_Some|done].
  - by apply (Hsame (wq_ShutDown q)).
Qed.

(** C26.  On a new work queue, after any calls in which an item is only marked as done
    while it is handed out: the slice holds exactly the queued items, each once; [Add],
    [Get], [Done] and [ShutDown] move the phase of each item as the machine of phases says
    (an item added while it is handed out is queued again when it is done, and no item is
    handed out twice at once); and [Get] waits or ends its caller only when no item is
    queued. *)
Theorem work_queue_refines_phases (ops : list wq_op) (o : wq_op) :
  let q := (wq_run newQueue ops).1 in
  wq_legal_run newQueue ops = true ->
  NoDup (queue q) ∧ (forall x, x ∈ queue q <-> phase_of q x = Queued) ∧
  (forall y, phase_of (wq_exec q o).1 y = phase_step (shuttingDown q) o (wq_exec q o).2 y (phase_of q y)) ∧
  match (wq_Get q).2 with
  | Got x => phase_of q x = Queued
  | Shutdown => shuttingDown q = true ∧ forall x, phase_of q x ≠ Queued
  | Waits => shuttingDown q = false ∧ forall x, phase_of q x ≠ Queued
  end.
Proof.
  intros q Hl. pose proof (wq_run_ok ops newQueue newQueue_ok Hl) as Hok. fold q in Hok.
  destruct (Hok) as [Hnd Hq]. split_and!; [done|done|intros y; by apply phase_exec|].
  unfold wq_Get. destruct (queue q) as [|x rest] eqn:He.
  - assert (forall x, phase_of q x ≠ Queued) as Hno by (intros x Hx%Hq; by apply elem_of_nil in Hx).
    by destruct (shuttingDown q).
  - cbn [snd]. apply Hq. constructor.
Qed.

(** Added work is handed out: after an [Add] on a queue that is not shut down, the item
    is either at some place [i] of the queue, and then the [i+1]-th [Get] from now on
    returns it whatever else is called, or it is handed out, and then marking it as done
    puts it at the end of the queue. *)
Theorem added_item_is_handed_out (ops : list wq_op) (x : t) :
  let q := wq_Add (wq_run newQueue ops).1 x in
  wq_legal_run newQueue ops = true -> shuttingDown (wq_run newQueue ops).1 = false ->
  (∃ i, queue q !! i = Some x ∧ forall later g, (wq_run q later).2 !! i = Some g -> g = Got x) ∨
  (x ∈ processing q ∧ ∃ l, queue (wq_Done q x) = l ++ [x]).
Proof.
  intros q Hl Hs. pose proof (wq_run_ok ops newQueue newQueue_ok Hl) as Hok.
  set (q0 := (wq_run newQueue ops).1) in *. pose proof (wq_exec_ok q0 (OAdd x) Hok eq_refl) as [_ Hq].
  change (wq_exec q0 (OAdd x)).1 with q in Hq. assert (x ∈ dirty q) as Hd.
  { unfold q, wq_Add. rewrite Hs. destruct (has (dirty q0) x) eqn:Hh; [by apply has_spec|].
    destruct (has (processing q0) x); cbn [dirty]; set_solver. }
  destruct (decide (x ∈ processing q)) as [Hp|Hp].
  - right. split; [done|]. unfold wq_Done. rewrite (proj2 (has_spec (dirty q) x) Hd). by exists (queue q).
  - left. assert (x ∈ queue q) as [i Hi]%list_elem_of_lookup by (apply Hq, phase_queued; done).
    exists i. split; [done|]. intros later g. by apply wq_run_fifo.
Qed.

End Spec.
Arguments wq_op : clear implicits.

Lemma work_queue_refines_phases_witness :
  let q := (wq_run newQueue [OAdd 1%nat; OAdd 2%nat; OGet; OAdd 1%nat]).1 in
  NoDup (queue q) ∧ phase_of q 1%nat = Redo ∧ phase_of (wq_exec q (ODone 1%nat)).1 1%nat = Queued.
Proof.
  pose proof (work_queue_refines_phases [OAdd 1%nat; OAdd 2%nat; OGet; OAdd 1%nat] (ODone 1%nat) ltac:(vm_compute; reflexivity)) as (Hnd & _ & Hph & _).
  intros q. split; [exact Hnd|]. split; [vm_compute; reflexivity|].
  etransitivity; [exact (Hph 1%nat)|]. vm_compute. reflexivity.
Defined.

Lemma added_item_is_handed_out_witness :
  (∃ i, queue (wq_Add (wq_run newQueue [OAdd 1%nat]).1 2%nat) !! i = Some 2%nat ∧
    forall later g, (wq_run (wq_Add (wq_run newQueue [OAdd 1%nat]).1 2%nat) later).2 !! i = Some g -> g = Got 2%nat) ∨
  2%nat ∈ processing (wq_Add (wq_run newQueue [OAdd 1%nat]).1 2%nat).
Proof.
  destruct (added_item_is_handed_out [OAdd 1%nat] 2%nat ltac:(vm_compute; reflexivity) ltac:(vm_compute; reflexivity)) as [Hi|[Hp _]];
    [left; exact Hi|right; exact Hp].
Defined.

(** ** Delayed items arrive *)

Section Delays.
Context {t : Type} `{Countable t}.
Implicit Types (q : Type_ t) (x : t).

(** The heap gives out every entry once, the earliest first. *)
Definition heap_order (heap : gmap t Z -> list (t * Z)) : Prop :=
  forall m, heap m ≡ₚ map_to_list m ∧ StronglySorted (fun a b => a.2 <= b.2) (heap m).

(** An item waits to be added at [r] at the latest, or is added. *)
Definition promised q (known : gmap t Z) x r : Prop := x ∈ dirty q ∨ ∃ r', known !! x = Some r' ∧ r' <= r.

Lemma wq_Add_live q x : shuttingDown q = false ->
  shuttingDown (wq_Add q x) = false ∧ x ∈ dirty (wq_Add q x) ∧ dirty q ⊆ dirty (wq_Add q x).
Proof.
  intros Hs. unfold wq_Add. rewrite Hs. destruct (has (dirty q) x) eqn:Hh.
  - apply has_spec in Hh. done.
  - destruct (has (processing q) x); cbn [dirty shuttingDown]; set_solver.
Qed.

Lemma add_ready_spec now heap : forall q known, StronglySorted (fun a b => a.2 <= b.2) heap -> shuttingDown q = false ->
  let '(q', known') := add_ready now q known heap in
  shuttingDown q' = false ∧ dirty q ⊆ dirty q' ∧ (forall e, e ∈ heap -> e.2 <= now -> e.1 ∈ dirty q') ∧
  (forall x r, known !! x = Some r -> x ∈ dirty q' ∨ known' !! x = Some r).
Proof.
  induction heap as [|e heap IH]; intros q known Hs Hq; cbn [add_ready].
  { split_and!; [done|done| |naive_solver]. intros e He. by apply elem_of_nil in He. }
  apply StronglySorted_inv in Hs as [Hs Hall]. destruct (Z.ltb_spec now e.2) as [Hlt|Hle].
  - split_and!; [done|done| |naive_solver]. intros e' [->|He']%elem_of_cons Hle; [lia|].
    rewrite Forall_forall in Hall. specialize (Hall e' He'). lia.
  - destruct (wq_Add_live q e.1 Hq) as (Hq' & Hin & Hsub). specialize (IH (wq_Add q e.1) (delete e.1 known) Hs Hq').
    destruct (add_ready now _ _ heap) as [q' known']. destruct IH as (Hs' & Hd' & Hr & Hk). split_and!; [done|set_solver| |].
    + intros e' [->|He']%elem_of_cons Hle'; [set_solver|by apply Hr].
    + intros x r Hx. destruct (decide (x = e.1)) as [->|Hne]; [left; set_solver|]. apply Hk. by rewrite lookup_delete_ne.
Qed.

Lemma receive_keeps now acc e x r : shuttingDown acc.1 = false -> promised acc.1 acc.2 x r ∨ e = (x, r) ->
  shuttingDown (receive_entry now acc e).1 = false ∧ promised (receive_entry now acc e).1 (receive_entry now acc e).2 x r.
Proof.
  intros Hs Hp. unfold receive_entry. destruct (Z.ltb_spec now e.2) as [Hlt|Hle]; cbn [fst snd].
  - split; [done|]. unfold promised, insert_entry. destruct Hp as [[Hd|(r' & Hk & Hr)]| ->]; [by left| |]; right.
    + destruct (decide (e.1 = x)) as [He|He].
      * rewrite He, Hk. destruct (Z.ltb_spec e.2 r'); [|naive_solver]. exists e.2. rewrite lookup_insert_eq. split; [done|lia].
      * exists r'. split; [|done]. repeat case_match; rewrite ?lookup_insert_ne; done.
    + cbn [fst snd]. destruct (acc.2 !! x) as [r'|] eqn:Hk; [destruct (Z.ltb_spec r r')|]; [exists r|exists r'|exists r];
        rewrite ?lookup_insert_eq, ?Hk; split; done || lia.
  - destruct (wq_Add_live acc.1 e.1 Hs) as (? & ? & ?). split; [done|].
    destruct Hp as [[Hd|Hk]| ->]; [left; set_solver|by right|by left].
Qed.

Definition receive_all (clk : nat -> Z) (acc : Type_ t * gmap t Z) (ch : list (t * Z)) : Type_ t * gmap t Z :=
  foldl (fun acc ne => receive_entry ne.1 acc ne.2) acc (imap (fun n e => (clk n, e)) ch).

Lemma receive_all_keeps ch x r : forall clk acc, shuttingDown acc.1 = false -> promised acc.1 acc.2 x r ∨ (x, r) ∈ ch ->
  shuttingDown (receive_all clk acc ch).1 = false ∧ promised (receive_all clk acc ch).1 (receive_all clk acc ch).2 x r.
Proof.
  induction ch as [|e ch IH]; intros clk acc Hs Hp.
  { destruct Hp as [Hp|Hx]; [done|by apply elem_of_nil in Hx]. }
  change (receive_all clk acc (e :: ch)) with (receive_all (clk ∘ S) (receive_entry (clk 0%nat) acc e) ch).
  rewrite elem_of_cons in Hp. apply IH.
  - unfold receive_entry. destruct (_ <? _); [done|]. by apply wq_Add_live.
  - destruct Hp as [Hp|[Hx|Hx]]; [left|left|by right]; apply receive_keeps; auto.
Qed.

(** A round keeps the promises and takes over the channel's. *)
Lemma waiting_step_keeps heap now clk fired (q : delayingType t) x r : heap_order heap -> shuttingDown (Interface q) = false ->
  (promised (Interface q) (waitingEntryByData q) x r ∨ (x, r) ∈ waitingForAddCh q) ->
  let q' := waiting_step heap now clk fired q in
  shuttingDown (Interface q') = false ∧
  (promised (Interface q') (waitingEntryByData q') x r ∨ (fired = true ∧ (x, r) ∈ waitingForAddCh q')).
Proof.
  intros Hh Hs Hp. unfold waiting_step, ShuttingDown. rewrite Hs. destruct (Hh (waitingEntryByData q)) as [Hperm Hsort].
  pose proof (add_ready_spec now _ (Interface q) (waitingEntryByData q) Hsort Hs) as Hr.
  destruct (add_ready now _ _ _) as [i known]. destruct Hr as (Hs' & Hd & _ & Hk).
  assert (promised i known x r ∨ (x, r) ∈ waitingForAddCh q) as Hp'.
  { destruct Hp as [[Hx|(r' & Hx & Hle)]|Hx]; [left; left; set_solver| |by right].
    left. destruct (Hk x r' Hx); [by left|right; by exists r']. }
  clear Hp Hk Hd Hs Hsort Hperm. destruct fired; [naive_solver|].
  pose proof (receive_all_keeps (waitingForAddCh q) x r clk (i, known) Hs' Hp') as [Hs1 Hp1]. unfold receive_all in *.
  destruct (foldl _ _ _) as [i1 known1]. auto.
Qed.

Lemma receive_all_dirty ch x : forall clk acc, shuttingDown acc.1 = false -> x ∈ dirty acc.1 -> x ∈ dirty (receive_all clk acc ch).1.
Proof.
  induction ch as [|e ch IH]; intros clk acc Hs Hx; [done|].
  change (receive_all clk acc (e :: ch)) with (receive_all (clk ∘ S) (receive_entry (clk 0%nat) acc e) ch).
  destruct (wq_Add_live acc.1 e.1 Hs) as (? & ? & ?). unfold receive_entry. destruct (_ <? _); apply IH; cbn [fst]; set_solver.
Qed.

(** A round that starts late enough keeps the promise. *)
Lemma waiting_step_adds heap now clk fired (q : delayingType t) x r : heap_order heap -> shuttingDown (Interface q) = false ->
  promised (Interface q) (waitingEntryByData q) x r -> r <= now -> x ∈ dirty (Interface (waiting_step heap now clk fired q)).
Proof.
  intros Hh Hs Hp Hle. unfold waiting_step, ShuttingDown. rewrite Hs. destruct (Hh (waitingEntryByData q)) as [Hperm Hsort].
  pose proof (add_ready_spec now _ (Interface q) (waitingEntryByData q) Hsort Hs) as Hr.
  destruct (add_ready now _ _ _) as [i known]. destruct Hr as (Hs' & Hd & Hr & Hk). assert (x ∈ dirty i) as Hx.
  { destruct Hp as [Hx|(r' & Hx & Hle')]; [set_solver|]. apply (Hr (x, r')); [|simpl; lia].
    rewrite Hperm. by apply elem_of_map_to_list. }
  destruct fired; [done|]. pose proof (receive_all_dirty (waitingForAddCh q) x clk (i, known) Hs' Hx) as Hx'.
  unfold receive_all in *. by destruct (foldl _ _ _).
Qed.

(** The delay of the default limiter: 5 milliseconds, doubled with each failure, cut at
    1000 seconds; the conversions to and from [float64] are exact. *)
Lemma default_delay (r : ItemExponentialFailureRateLimiter t) x k :
  baseDelay r = 5000000 -> maxDelay r = 1000000000000 -> default 0 (failures r !! x) = k -> 0 <= k < MaxInt64 ->
  (exponential_When r x).2 = Z.min (5000000 * 2 ^ k) 1000000000000 ∧
  exponential_NumRequeues (exponential_When r x).1 x = k + 1.
Proof.
  intros Hb Hm Hk Hr. unfold exponential_When. rewrite Hb, Hm, Hk.
  destruct (scale_exact 5000000 k ltac:(lia) ltac:(lia) ltac:(lia)) as [Hlt Hint]. rewrite Hlt. unfold exponential_NumRequeues.
  split; [|repeat case_match; cbn [fst failures]; rewrite lookup_insert_eq; apply wrap64_id; int64].
  destruct (Z.ltb_spec (2 ^ 63) (5000000 * 2 ^ k)) as [Hbig|Hsmall]; [cbn [snd]; lia|].
  rewrite Hint by lia. destruct (Z.ltb_spec 1000000000000 (5000000 * 2 ^ k)); cbn [snd]; lia.
Qed.

(** A failed item is retried.  [AddRateLimited] with the default limiter counts the
    failure and asks for the greater of the token bucket's delay and 5 milliseconds
    doubled with each earlier failure, at most 1000 seconds (the arithmetic in [float64]
    is exact and never overflows); when the waiting loop has received the entry and makes
    a round after that delay, the item is added to the queue. *)
Theorem failed_item_is_retried {bucket} (Reserve_Delay : bucket -> bucket * Z) (q : rateLimitingType t bucket) x k now :
  let d := Z.max (Z.min (5000000 * 2 ^ k) 1000000000000) (Reserve_Delay (rateLimiter q).2).2 in
  baseDelay (rateLimiter q).1 = 5000000 -> maxDelay (rateLimiter q).1 = 1000000000000 ->
  default 0 (failures (rateLimiter q).1 !! x) = k -> 0 <= k < MaxInt64 ->
  shuttingDown (Interface (DelayingInterface q)) = false -> (length (waitingForAddCh (DelayingInterface q)) < 1000)%nat ->
  ∃ q1 : rateLimitingType t bucket, AddRateLimited Reserve_Delay now q x = Some q1 ∧ maxof_NumRequeues (rateLimiter q1) x = k + 1 ∧
    forall heap now1 clk1 now2 clk2 fired, heap_order heap -> now + d <= now2 ->
      x ∈ dirty (Interface (waiting_step heap now2 clk2 fired (waiting_step heap now1 clk1 false (DelayingInterface q1)))).
Proof.
  intros d Hb Hm Hk Hr Hs Hch. destruct (default_delay _ x k Hb Hm Hk Hr) as [Hd Hn].
  assert (0 < 5000000 * 2 ^ k) as Hpos by (pose proof (Z.pow_pos_nonneg 2 k); lia).
  assert (∃ r, maxof_When Reserve_Delay (rateLimiter q) x = (r, d) ∧ r.1 = (exponential_When (rateLimiter q).1 x).1) as (r & Hw & Hr1).
  { unfold maxof_When. destruct (exponential_When (rateLimiter q).1 x) as [e d1]. subst d. cbn [snd] in Hd.
    destruct (Reserve_Delay (rateLimiter q).2) as [b d2]. cbn [snd]. rewrite <- Hd. rewrite (proj2 (Z.ltb_lt 0 d1)) by lia.
    exists (e, b). split; [|done]. f_equal. destruct (Z.ltb_spec d1 d2); lia. }
  unfold AddRateLimited. rewrite Hw. unfold AddAfter, ShuttingDown. rewrite Hs, (proj2 (Z.leb_gt d 0)) by lia.
  rewrite (proj2 (Nat.ltb_lt _ _) Hch). bind_simpl. eexists. split; [done|]. cbn [rateLimiter DelayingInterface]. split.
  - unfold maxof_NumRequeues. rewrite Hr1, Hn. rewrite (proj2 (Z.ltb_lt _ _)) by lia. done.
  - intros heap now1 clk1 now2 clk2 fired Hh Hle. set (q1 := mkDelaying _ _ _).
    destruct (waiting_step_keeps heap now1 clk1 false q1 x (now + d) Hh Hs) as [Hs1 [Hp|[]]]; [|by apply (waiting_step_adds _ _ _ _ _ _ (now + d))|done].
    right. cbn [waitingForAddCh q1]. apply elem_of_app. right. by apply list_elem_of_singleton.
Qed.

End Delays.

Definition earlier (a b : nat * Z) : Prop := a.2 <= b.2.

#[export] Instance earlier_dec a b : Decision (earlier a b).
Proof. unfold earlier. apply _. Defined.

Definition demo_heap (m : gmap nat Z) : list (nat * Z) := merge_sort earlier (map_to_list m).

Lemma demo_heap_order : heap_order demo_heap.
Proof.
  intros m. split; [apply merge_sort_Permutation|]. apply Sorted_StronglySorted; [intros a b c; lia|].
  assert (Total earlier) by (intros a b; unfold earlier; lia). apply (Sorted_merge_sort earlier).
Qed.

Lemma failed_item_is_retried_witness :
  let q := mkRateLimiting (mkDelaying newQueue [] ∅) (DefaultControllerRateLimiter tt) in
  ∃ q1, AddRateLimited (fun b => (b, 0)) 7 q 3%nat = Some q1 ∧ maxof_NumRequeues (rateLimiter q1) 3%nat = 1 ∧
    3%nat ∈ dirty (Interface (waiting_step demo_heap 5000007 (fun _ => 9) true (waiting_step demo_heap 8 (fun _ => 8) false (DelayingInterface q1)))).
Proof.
  intros q. destruct (failed_item_is_retried (fun b => (b, 0)) q 3%nat 0 7 eq_refl eq_refl eq_refl ltac:(unfold MaxInt64; lia) eq_refl ltac:(simpl; lia)) as (q1 & H1 & H2 & H3).
  exists q1. split; [exact H1|]. split; [exact H2|]. apply H3; [exact demo_heap_order|vm_compute; discriminate].
Defined.
