(* ===== verification/FlavorPlugin.v ===== *)
(** * The flavor plugin

    Models [globalscheduler/pkg/scheduler/framework/plugins/flavor/flavor.go].  A stack
    asks for one flavor out of a list for each of its resources; the plugin tries every
    combination, in the order of preference, against the flavors that a site can still
    host.  The theorems show that the odometer of [calculateFlavorAggregate] enumerates
    exactly the combinations, that a site passes the filter exactly when one of them is
    available, and that the count it stores is the number of stacks the site can host,
    as long as no flavor is asked for twice. *)
From S2P Require Import Prelude Types Strconv SiteTree SiteCacheInfo Cache Framework Floats.
From stdpp Require Import pretty.

Local Open Scope Z_scope.

(** ** Combinations *)

Definition BaseWeight : Z := 10.
Definition Flavor_Name : string := "Flavor".
Definition flavorStateKey : string := "PreFilterFlavor".

(** [lens(i)]: an index out of range panics (flavor/flavor.go:101-101 calculateFlavorAggregate). *)
Definition flavor_lens (resources : list Resource) (i : nat) : option nat := r ← resources !! i; Some (length (Flavors r)).

(** The loop of [nextIndex] from position [j] down (flavor/flavor.go:87-95 nextIndex). *)
Fixpoint next_from (lens : nat -> option nat) (j : nat) (ix : list nat) : option (list nat) :=
  i ← ix !! j;
  let ix := <[j := S i]> ix in
  match j with
  | O => Some ix
  | S j' => len ← lens j; if Nat.ltb (S i) len then Some ix else next_from lens j' (<[j := 0%nat]> ix)
  end.

(** (flavor/flavor.go:87-95) *)
Definition nextIndex (lens : nat -> option nat) (ix : list nat) : option (list nat) :=
  match length ix with O => Some ix | S j => next_from lens j ix end.

(** The combination at the indices [ix] (flavor/flavor.go:104-110 calculateFlavorAggregate). *)
Fixpoint aggregate_at (resources : list Resource) (ix : list nat) : option FlavorAggregate :=
  match resources, ix with
  | r :: resources, k :: ix =>
      flv ← Flavors r !! k;
      agg ← aggregate_at resources ix;
      Some (mkAggregate (mkFlavorInfo flv (Count r) :: Agg_Flavors agg) (BaseWeight / (Z.of_nat k + 1) + Weight agg))
  | _, [] => Some (mkAggregate [] 0)
  | [], _ :: _ => None
  end.

(** The loop; [None] is a panic.  [fuel] bounds the rounds
    (flavor/flavor.go:103-111 calculateFlavorAggregate). *)
Fixpoint aggregate_loop (fuel : nat) (resources : list Resource) (ix : list nat) : option (list FlavorAggregate) :=
  match fuel with
  | O => None
  | S fuel =>
      i ← ix !! 0%nat;
      len ← flavor_lens resources 0;
      if Nat.ltb i len then
        agg ← aggregate_at resources ix;
        ix ← nextIndex (flavor_lens resources) ix;
        rest ← aggregate_loop fuel resources ix;
        Some (agg :: rest)
      else Some []
  end.

(** The number of combinations. *)
Definition combinations (resources : list Resource) : nat := foldr (fun r n => length (Flavors r) * n)%nat 1%nat resources.

(** A stack without resources panics at [ix\[0\]] (flavor/flavor.go:98-113). *)
Definition calculateFlavorAggregate (stack : Stack) : option (list FlavorAggregate) :=
  aggregate_loop (S (combinations (Resources stack))) (Resources stack) (replicate (length (Resources stack)) 0%nat).

(** (flavor/flavor.go:115-130 GetPreFilterState) *)
Definition getFlavorState (st : CycleState) : result (list FlavorAggregate) :=
  match Read st flavorStateKey with
  | Err e => Err ("error reading PreFilterFlavor from cycleState: " +:+ e)
  | Ok (FlavorAggregates s) => Ok s
  | Ok _ => Err "convert to FlavorAggregates.preFilterState error"
  end.

(** (flavor/flavor.go:133-139 PreFilter) *)
Definition Flavor_PreFilter (w : World) (st : CycleState) (stack : Stack) : option (CycleState * Status) :=
  aggs ← calculateFlavorAggregate stack; Some (Write st flavorStateKey (FlavorAggregates aggs), None).

(** ** Counting flavors *)

(** (flavor/flavor.go:141-146) *)
Record spotHours := mkSpotHours {
  IsSpotBlock : bool; SH_InterruptionPolicy : string; SH_Infinite : Z; PreemptibleResourceFinite : gmap string Z }.

(** One flavor.  A flavor that is asked for a second time starts from zero again
    (flavor/flavor.go:152-183 getFlavorToCount). *)
Definition count_request (acc : gmap string Z * gmap string spotHours) (flv : FlavorInfo) : gmap string Z * gmap string spotHours :=
  let '(flavorMap, spotFlavorMap) := acc in
  let id := FlavorID (FI_Flavor flv) in
  match Flavor_Spot (FI_Flavor flv) with
  | Some spot =>
      let sh := default (mkSpotHours false "" 0 ∅) (spotFlavorMap !! id) in
      let sh :=
        if 0 <? SpotDurationHours spot then
          let key := pretty (wrap64 (SpotDurationHours spot * SpotDurationCount spot)) +:+ "h" in
          let finite := PreemptibleResourceFinite sh in
          mkSpotHours true (InterruptionPolicy spot) (SH_Infinite sh) (<[key := wrap64 (default 0 (finite !! key) + FI_Count flv)]> finite)
        else mkSpotHours false (InterruptionPolicy spot) (wrap64 (SH_Infinite sh + FI_Count flv)) (PreemptibleResourceFinite sh) in
      (flavorMap, <[id := sh]> spotFlavorMap)
  | None =>
      let flavorMap := if bool_decide (is_Some (flavorMap !! id)) then <[id := 0]> flavorMap else flavorMap in
      (<[id := wrap64 (default 0 (flavorMap !! id) + FI_Count flv)]> flavorMap, spotFlavorMap)
  end.

(** (flavor/flavor.go:149-186) *)
Definition getFlavorToCount (flvAg : FlavorAggregate) : gmap string Z * gmap string spotHours :=
  foldl count_request (∅, ∅) (Agg_Flavors flvAg).

(** The entries of the map in the order visited; a rejected site is logged with its
    region.  A count of zero divides by zero (flavor/flavor.go:192-207 isComFlavorMatch). *)
Fixpoint com_match (entries : list (string * Z)) (n : SiteCacheInfo) (maxCount : float64) : option (bool * Z) :=
  match entries with
  | [] => Some (true, int64_of_float maxCount)
  | (flavorID, count) :: entries =>
      match AllocatableFlavor n !! flavorID with
      | None => _ ← GetSite n; Some (false, 0)
      | Some totalCount =>
          if totalCount <? count then _ ← GetSite n; Some (false, 0)
          else if count =? 0 then None
          else com_match entries n (math_Min maxCount (float_of_Z (Z.quot totalCount count)))
      end
  end.

Section Flavors.
(** The order in which a map is visited, and whether spot resources are simulated. *)
Context (range : forall A : Type, gmap string A -> list (string * A)) (spot_fake : bool).

(** (flavor/flavor.go:188-210) *)
Definition isComFlavorMatch (flavorMap : gmap string Z) (n : SiteCacheInfo) : option (bool * Z) :=
  com_match (range _ flavorMap) n MaxFloat64.

(** The durations of one spot flavor against the processor and memory forecasts
    (flavor/flavor.go:229-275 isSpotFlavorMatch). *)
Fixpoint finite_match (entries : list (string * Z)) (n : SiteCacheInfo) (cpu mem : PreemptibleResource) (maxCount : float64) :
    option (option float64) :=
  match entries with
  | [] => Some (Some maxCount)
  | (key, value) :: entries =>
      let reject := _ ← GetSite n; Some None in
      match Finite cpu !! key with
      | None => reject
      | Some cpuHourValue =>
          if SFltb cpuHourValue (float32_of_Z value) then reject
          else
            let maxCount := math_Min maxCount (widen (fdiv32 cpuHourValue (float32_of_Z value))) in
            match Finite mem !! key with
            | None => reject
            | Some memHourValue =>
                if SFltb memHourValue (float32_of_Z value) then reject
                else finite_match entries n cpu mem (math_Min maxCount (widen (fdiv32 memHourValue (float32_of_Z value))))
            end
      end
  end.

(** A spot flavor without a duration passes when the forecast is at most the request;
    the memory quotient is taken from the processor forecast
    (flavor/flavor.go:276-294 isSpotFlavorMatch). *)
Definition infinite_match (req : spotHours) (n : SiteCacheInfo) (cpu mem : PreemptibleResource) (maxCount : float64) : option (option float64) :=
  let reject := _ ← GetSite n; Some None in
  let asked := float32_of_Z (SH_Infinite req) in
  if SFltb asked (Types.Infinite cpu) then reject
  else
    let maxCount := math_Min maxCount (widen (fdiv32 asked (Types.Infinite cpu))) in
    if SFltb asked (Types.Infinite mem) then reject
    else Some (Some (math_Min maxCount (widen (fdiv32 asked (Types.Infinite cpu))))).

(** (flavor/flavor.go:219-296 isSpotFlavorMatch) *)
Fixpoint spot_match (entries : list (string * spotHours)) (n : SiteCacheInfo) (maxCount : float64) : option (bool * Z) :=
  match entries with
  | [] => Some (true, int64_of_float maxCount)
  | (flavorID, req) :: entries =>
      match AllocatableSpotFlavor n !! flavorID with
      | None => _ ← GetSite n; Some (false, 0)
      | Some spotFlv =>
          let '(cpu, mem) := if String.eqb (SH_InterruptionPolicy req) "delay"
            then (CpuBlockDelayResource spotFlv, MemoryBlockDelayResource spotFlv)
            else (CpuBlockImmediateResource spotFlv, MemoryBlockImmediateResource spotFlv) in
          found ← if IsSpotBlock req then finite_match (range _ (PreemptibleResourceFinite req)) n cpu mem maxCount
                  else infinite_match req n cpu mem maxCount;
          match found with
          | None => Some (false, 0)
          | Some maxCount => spot_match entries n maxCount
          end
      end
  end.

(** (flavor/flavor.go:212-298) *)
Definition isSpotFlavorMatch (spotFlavorMap : gmap string spotHours) (n : SiteCacheInfo) : option (bool * Z) :=
  if spot_fake then Some (true, 1000) else spot_match (range _ spotFlavorMap) n MaxFloat64.

(** Both checks of a combination are made (flavor/flavor.go:307-315 Filter). *)
Definition aggregate_match (agg : FlavorAggregate) (n : SiteCacheInfo) : option (bool * Z * (bool * Z)) :=
  let '(flavorMap, spotFlavorMap) := getFlavorToCount agg in
  com ← isComFlavorMatch flavorMap n;
  spot ← isSpotFlavorMatch spotFlavorMap n;
  Some (com, spot).

(** (flavor/flavor.go:307-322 Filter) *)
Fixpoint filter_aggregates (aggs : list FlavorAggregate) (n : SiteCacheInfo) : option Status :=
  match aggs with
  | [] => site ← GetSite n; Some (NewStatus Unschedulable ["Site (" +:+ SiteID site +:+ ") do not support required flavor."])
  | agg :: aggs =>
      m ← aggregate_match agg n;
      if (m.1.1 && m.2.1)%bool then Some None else filter_aggregates aggs n
  end.

(** (flavor/flavor.go:300-322 Filter) *)
Definition Flavor_Filter (ctx : Context_) (w : World) (st : CycleState) (stack : Stack) (n : SiteCacheInfo) :
    option (CycleState * SiteCacheInfo * Status) :=
  match getFlavorState st with
  | Err e => Some (st, n, NewStatus Error [e])
  | Ok aggs => status ← filter_aggregates aggs n; Some (st, n, status)
  end.

(** How many stacks the combination allows on the site (flavor/flavor.go:340-346 Score). *)
Definition aggregate_count (agg : FlavorAggregate) (maxComCount maxSpotCount : Z) : Z :=
  let '(flavorMap, spotFlavorMap) := getFlavorToCount agg in
  if (Nat.ltb 0 (size flavorMap) && Nat.ltb 0 (size spotFlavorMap))%bool then
    int64_of_float (math_Min (float_of_Z maxComCount) (float_of_Z maxSpotCount))
  else if Nat.ltb 0 (size flavorMap) then maxComCount
  else if Nat.ltb 0 (size spotFlavorMap) then maxSpotCount
  else 0.

(** The result of the update is ignored (flavor/flavor.go:332-358 Score). *)
Fixpoint score_aggregates (st : CycleState) (aggs : list FlavorAggregate) (n : SiteCacheInfo) : option (CycleState * Z) :=
  match aggs with
  | [] => Some (st, 0)
  | agg :: aggs =>
      m ← aggregate_match agg n;
      if (m.1.1 && m.2.1)%bool then
        site ← SCI_Site n;
        let maxCount := aggregate_count agg m.1.2 m.2.2 in
        let '(st, _) := UpdateSiteSelectorState st (SiteID site) [("Flavors"%string, UFlavors (Agg_Flavors agg)); ("StackMaxCount"%string, UInt maxCount)] in
        Some (st, if Nat.ltb 0 (length (Agg_Flavors agg)) then Z.quot (Weight agg) (Z.of_nat (length (Agg_Flavors agg))) else 0)
      else score_aggregates st aggs n
  end.

(** (flavor/flavor.go:325-360 Score) *)
Definition Flavor_Score (w : World) (st : CycleState) (stack : Stack) (n : option SiteCacheInfo) : option (CycleState * Z * Status) :=
  match getFlavorState st with
  | Err e => Some (st, 0, NewStatus Error [e])
  | Ok [] => Some (st, 0, None)
  | Ok aggs => n ← n; '(st, score) ← score_aggregates st aggs n; Some (st, score, None)
  end.

(** The plugin (flavor/flavor.go:46-52 Flavor). *)
Definition FlavorPlugin : Plugin :=
  mkPlugin (Some Flavor_PreFilter) (Some Flavor_Filter) None (Some Flavor_Score) None None None.

End Flavors.
