(* ===== verification/FlavorProofs.v ===== *)
(** * Correctness of the flavor plugin

    The enumeration of [FlavorPlugin] is the lexicographic product of the flavors of the
    resources, and its filter and its count of stacks are exact. *)
From S2P Require Import Prelude Types Strconv SiteTree SiteCacheInfo Cache Framework Floats FlavorPlugin.

Local Open Scope Z_scope.

(** ** The odometer *)

(** All index lists below [lens], in lexicographic order. *)
Fixpoint all_ix (lens : list nat) : list (list nat) :=
  match lens with
  | [] => [[]]
  | n :: lens => seq 0 n ≫= fun k => cons k <$> all_ix lens
  end.

(** The index lists from [ix] on. *)
Fixpoint from_ix (lens ix : list nat) : list (list nat) :=
  match lens, ix with
  | n :: lens, k :: ix => (cons k <$> from_ix lens ix) ++ (seq (S k) (n - S k) ≫= fun k' => cons k' <$> all_ix lens)
  | _, _ => [[]]
  end.

(** Counting up with a carry out of the first position. *)
Fixpoint bump (lens ix : list nat) : list nat * bool :=
  match lens, ix with
  | n :: lens, k :: ix =>
      let '(t, c) := bump lens ix in
      if (c : bool) then if Nat.ltb (S k) n then (S k :: t, false) else (0%nat :: t, true) else (k :: t, false)
  | _, _ => ([], true)
  end.

(** The same without a limit on the first position. *)
Definition next_ix (lens ix : list nat) : list nat :=
  match lens, ix with
  | _ :: lens, k :: ix => let '(t, c) := bump lens ix in (if (c : bool) then S k else k) :: t
  | _, _ => []
  end.

Lemma bump_snoc lens : forall ix n k, length lens = length ix ->
  bump (lens ++ [n]) (ix ++ [k]) = if Nat.ltb (S k) n then (ix ++ [S k], false) else let '(t, c) := bump lens ix in (t ++ [0%nat], c).
Proof.
  induction lens as [|m lens IH]; intros [|i ix] n k Hlen; try done; simpl.
  injection Hlen as Hlen. rewrite (IH ix n k Hlen). destruct (Nat.ltb (S k) n); [done|].
  destruct (bump lens ix) as [t c]. by destruct c; [destruct (Nat.ltb (S i) m)|].
Qed.

Lemma next_snoc lens : forall ix n k, lens ≠ [] -> length lens = length ix ->
  next_ix (lens ++ [n]) (ix ++ [k]) = if Nat.ltb (S k) n then ix ++ [S k] else next_ix lens ix ++ [0%nat].
Proof.
  destruct lens as [|m lens]; intros [|i ix] n k Hne Hlen; try done. injection Hlen as Hlen. simpl.
  rewrite (bump_snoc lens ix n k Hlen). destruct (Nat.ltb (S k) n); [done|]. by destruct (bump lens ix).
Qed.

(** The loop over positions is [next_ix]. *)
Lemma next_from_spec (L : list nat) : forall j a b, length a = S j -> (S j <= length L)%nat ->
  next_from (fun i => L !! i) j (a ++ b) = Some (next_ix (take (S j) L) a ++ b).
Proof.
  induction j as [|j IH]; intros a b Ha HL.
  - destruct a as [|x [|]]; try done. destruct L as [|n L]; simpl in *; [lia|]. done.
  - destruct a as [|x a _] using rev_ind; [done|]. rewrite length_app in Ha. simpl in Ha. assert (length a = S j) as Ha' by lia.
    destruct (lookup_lt_is_Some_2 L (S j)) as [n Hn]; [lia|]. rewrite (take_S_r L (S j) n Hn).
    assert (forall y z, <[S j := z]> (a ++ y :: b) = a ++ z :: b) as Hins.
    { intros y z. rewrite insert_app_r_alt by lia. by replace (S j - length a)%nat with 0%nat by lia. }
    rewrite next_snoc; [|by destruct L|rewrite length_take; lia]. rewrite <- app_assoc. change ([x] ++ b) with (x :: b).
    cbn [next_from]. rewrite (list_lookup_middle a b x (S j)) by lia. bind_simpl. rewrite Hn. bind_simpl. rewrite !Hins.
    destruct (Nat.ltb (S x) n); [by rewrite <- app_assoc|]. rewrite (IH a (0%nat :: b)) by lia. by rewrite <- app_assoc.
Qed.

Lemma nextIndex_spec (L ix : list nat) : length ix = length L -> nextIndex (fun i => L !! i) ix = Some (next_ix L ix).
Proof.
  intros Hlen. unfold nextIndex. destruct (length ix) as [|j] eqn:Hj.
  - destruct ix; [|done]. destruct L; done.
  - pose proof (next_from_spec L j ix [] Hj) as H. rewrite !app_nil_r in H. rewrite H by lia. by rewrite take_ge by lia.
Qed.

(** ** The enumeration *)

Lemma from_zero lens : Forall (fun n => (0 < n)%nat) lens -> from_ix lens (replicate (length lens) 0%nat) = all_ix lens.
Proof.
  induction 1 as [|n lens Hn _ IH]; [done|]. simpl. rewrite IH. destruct n as [|n]; [lia|]. simpl. by rewrite Nat.sub_0_r.
Qed.

Definition valid_ix (lens ix : list nat) : Prop := Forall2 (fun n k => (k < n)%nat) lens ix.

(** Counting up moves to the next list, or wraps around after the last. *)
Lemma bump_spec lens ix : valid_ix lens ix ->
  let '(t, c) := bump lens ix in
  if (c : bool) then from_ix lens ix = [ix] ∧ t = replicate (length lens) 0%nat
  else from_ix lens ix = ix :: from_ix lens t ∧ valid_ix lens t.
Proof.
  induction 1 as [|n k lens ix Hk Hv IH]; [done|]. simpl. destruct (bump lens ix) as [t c]. destruct c.
  - destruct IH as [Hf ->]. rewrite Hf. destruct (Nat.ltb_spec (S k) n) as [Hlt|Hge].
    + assert (Forall (fun n => (0 < n)%nat) lens) as Hpos.
      { apply Forall_lookup. intros i m Hm. destruct (Forall2_lookup_l _ _ _ _ _ Hv Hm) as (y & _ & ?). lia. }
      rewrite from_zero by done. split; [|constructor; [done|]].
      * simpl. f_equal. replace (n - S k)%nat with (S (n - S (S k))) by lia. done.
      * clear -Hpos. induction Hpos; simpl; by constructor.
    + replace (n - S k)%nat with 0%nat by lia. done.
  - destruct IH as [Hf Ht]. rewrite Hf. split; [done|by constructor].
Qed.

(** One step at the top: the first index may reach its limit. *)
Lemma next_ix_spec n k lens ix : (k < n)%nat -> valid_ix lens ix -> ∃ k' t, next_ix (n :: lens) (k :: ix) = k' :: t ∧ valid_ix lens t ∧
  from_ix (n :: lens) (k :: ix) = (k :: ix) :: (if Nat.ltb k' n then from_ix (n :: lens) (k' :: t) else []).
Proof.
  intros Hk Hv. pose proof (bump_spec lens ix Hv) as H. simpl. destruct (bump lens ix) as [t c]. destruct c.
  - destruct H as [Hf ->]. exists (S k), (replicate (length lens) 0%nat). rewrite Hf.
    assert (Forall (fun n => (0 < n)%nat) lens) as Hpos.
    { apply Forall_lookup. intros i m Hm. destruct (Forall2_lookup_l _ _ _ _ _ Hv Hm) as (y & _ & ?). lia. }
    split_and!; [done|clear -Hpos; induction Hpos; simpl; by constructor|]. rewrite from_zero by done. simpl. f_equal.
    destruct (Nat.ltb_spec (S k) n); [|by replace (n - S k)%nat with 0%nat by lia].
    by replace (n - S k)%nat with (S (n - S (S k))) by lia.
  - destruct H as [Hf Ht]. exists k, t. rewrite Hf. split_and!; [done|done|]. by rewrite (proj2 (Nat.ltb_lt k n) Hk).
Qed.

Definition lens_of (resources : list Resource) : list nat := (fun r => length (Flavors r)) <$> resources.

Lemma flavor_lens_spec resources i : flavor_lens resources i = lens_of resources !! i.
Proof. unfold flavor_lens, lens_of. rewrite list_lookup_fmap. by destruct (resources !! i). Qed.

Lemma next_from_ext lens lens' j : (forall i, lens i = lens' i) -> forall ix, next_from lens j ix = next_from lens' j ix.
Proof. intros H. induction j as [|j IH]; intros ix; simpl; [done|]. rewrite H. destruct (ix !! S j); [|done]. bind_simpl. destruct (lens' (S j)); [|done]. bind_simpl. by rewrite IH. Qed.

Lemma nextIndex_lens resources ix : nextIndex (flavor_lens resources) ix = nextIndex (fun i => lens_of resources !! i) ix.
Proof. unfold nextIndex. destruct (length ix); [done|]. apply next_from_ext, flavor_lens_spec. Qed.

Lemma aggregate_at_total resources ix : valid_ix (lens_of resources) ix -> is_Some (aggregate_at resources ix).
Proof.
  revert ix. induction resources as [|r resources IH]; intros ix Hv; inversion Hv as [|? k ? ix' Hk Hv']; subst; [by eexists|].
  cbn [aggregate_at]. destruct (lookup_lt_is_Some_2 _ _ Hk) as [flv ->]. bind_simpl. destruct (IH _ Hv') as [agg ->]. by eexists.
Qed.

Lemma loop_spec resources n lens : lens_of resources = n :: lens -> forall fuel k ix, valid_ix lens ix -> (k < n)%nat ->
  (length (from_ix (n :: lens) (k :: ix)) < fuel)%nat ->
  aggregate_loop fuel resources (k :: ix) = mapM (aggregate_at resources) (from_ix (n :: lens) (k :: ix)).
Proof.
  intros HL. induction fuel as [|fuel IH]; intros k ix Hv Hk Hfuel; [lia|].
  destruct (next_ix_spec n k lens ix Hk Hv) as (k' & t & Hnext & Ht & Hf). rewrite Hf in Hfuel |- *.
  cbn [aggregate_loop]. rewrite flavor_lens_spec, HL. bind_simpl. cbn [lookup list_lookup]. bind_simpl.
  rewrite (proj2 (Nat.ltb_lt k n) Hk), nextIndex_lens, HL, nextIndex_spec by (simpl; f_equal; symmetry; by eapply Forall2_length).
  rewrite Hnext. cbn [mapM]. destruct (aggregate_at resources (k :: ix)) as [agg|]; [|done]. bind_simpl.
  destruct (Nat.ltb_spec k' n) as [Hk'|Hk'].
  - rewrite IH; [done|done|done|]. simpl in Hfuel |- *. lia.
  - destruct fuel as [|fuel]; [simpl in Hfuel; lia|]. cbn [aggregate_loop]. rewrite flavor_lens_spec, HL. cbn [lookup list_lookup]. bind_simpl.
    by rewrite (proj2 (Nat.ltb_ge k' n) Hk').
Qed.

Lemma length_all_ix lens : length (all_ix lens) = foldr Nat.mul 1%nat lens.
Proof.
  induction lens as [|n lens IH]; [done|]. simpl. rewrite <- IH. generalize (all_ix lens) as l. intros l. generalize 0%nat as s.
  induction n as [|n IHn]; intros s; [done|]. simpl. rewrite length_app, length_fmap, IHn. done.
Qed.

Lemma combinations_lens resources : combinations resources = foldr Nat.mul 1%nat (lens_of resources).
Proof. unfold combinations, lens_of. induction resources as [|r resources IH]; simpl; [done|]. by rewrite IH. Qed.

Lemma valid_zero lens : Forall (fun n => (0 < n)%nat) lens -> valid_ix lens (replicate (length lens) 0%nat).
Proof. induction 1; simpl; by constructor. Qed.

(** The enumeration in terms of index lists. *)
Lemma calculate_spec stack r rs : Resources stack = r :: rs -> Forall (fun n => (0 < n)%nat) (lens_of rs) ->
  calculateFlavorAggregate stack = mapM (aggregate_at (Resources stack)) (all_ix (lens_of (Resources stack))).
Proof.
  intros Hr Hpos. unfold calculateFlavorAggregate. rewrite combinations_lens, Hr. cbn [length replicate].
  set (resources := r :: rs) in *. assert (lens_of resources = length (Flavors r) :: lens_of rs) as HL by done.
  assert (replicate (length rs) 0%nat = replicate (length (lens_of rs)) 0%nat) as -> by (unfold lens_of; by rewrite length_fmap).
  destruct (length (Flavors r)) as [|n] eqn:Hn.
  - rewrite HL. cbn [foldr]. cbn [aggregate_loop]. rewrite flavor_lens_spec, HL. done.
  - assert (from_ix (S n :: lens_of rs) (0%nat :: replicate (length (lens_of rs)) 0%nat) = all_ix (S n :: lens_of rs)) as Hfrom.
    { apply (from_zero (S n :: lens_of rs)). constructor; [lia|done]. }
    rewrite (loop_spec resources (S n) (lens_of rs) HL); [by rewrite Hfrom, HL|by apply valid_zero|lia|].
    rewrite Hfrom, length_all_ix, HL. lia.
Qed.

Lemma all_ix_valid lens ix : ix ∈ all_ix lens <-> valid_ix lens ix.
Proof.
  revert ix. induction lens as [|n lens IH]; intros ix; cbn [all_ix].
  - rewrite list_elem_of_singleton. split; [intros ->; constructor|by inversion 1].
  - rewrite list_elem_of_bind. split.
    + intros (k & (t & -> & Ht)%list_elem_of_fmap & Hk%elem_of_seq). constructor; [lia|by apply IH].
    + inversion 1 as [|? k ? t Hk Ht]; subst. exists k. split; [apply list_elem_of_fmap; exists t; split; [done|by apply IH]|apply elem_of_seq; lia].
Qed.

(** What a combination chooses: a flavor of each resource, with its count. *)
Definition choice (resources : list Resource) (fis : list FlavorInfo) : Prop :=
  Forall2 (fun r fi => FI_Flavor fi ∈ Flavors r ∧ FI_Count fi = Count r) resources fis.

Lemma aggregate_choice resources fis :
  (∃ ix agg, valid_ix (lens_of resources) ix ∧ aggregate_at resources ix = Some agg ∧ Agg_Flavors agg = fis) <-> choice resources fis.
Proof.
  revert fis. induction resources as [|r resources IH]; intros fis; split.
  - intros (ix & agg & Hv & Hagg & <-). inversion Hv; subst. injection Hagg as <-. constructor.
  - inversion 1. exists [], (mkAggregate [] 0). split_and!; [constructor|done|done].
  - intros (ix & agg & Hv & Hagg & <-). inversion Hv as [|? k ? t Hk Ht]; subst. cbn [aggregate_at] in Hagg.
    destruct (Flavors r !! k) as [flv|] eqn:Hflv; [|done]. bind_simpl in Hagg.
    destruct (aggregate_at resources t) as [agg'|] eqn:Hagg'; [|done]. injection Hagg as <-.
    constructor; [split; [by eapply list_elem_of_lookup_2|done]|]. apply IH. by exists t, agg'.
  - inversion 1 as [|? fi ? fis' [[k Hk]%list_elem_of_lookup Hc] Hrest]; subst. destruct (proj2 (IH fis') Hrest) as (t & agg & Ht & Hagg & <-).
    exists (k :: t), (mkAggregate (mkFlavorInfo (FI_Flavor fi) (Count r) :: Agg_Flavors agg) (BaseWeight / (Z.of_nat k + 1) + Weight agg)).
    split_and!; [constructor; [by eapply lookup_lt_Some|done]| |].
    + cbn [aggregate_at]. rewrite Hk. bind_simpl. by rewrite Hagg.
    + cbn [Agg_Flavors]. f_equal. destruct fi. by f_equal.
Qed.

Lemma combinations_pos resources : (forall r, r ∈ resources -> Flavors r ≠ []) -> (0 < combinations resources)%nat.
Proof.
  induction resources as [|r resources IH]; intros H; simpl; [lia|]. assert (0 < length (Flavors r))%nat.
  { specialize (H r (list_elem_of_here _ _)). destruct (Flavors r); simpl; [done|lia]. }
  assert (0 < combinations resources)%nat by (apply IH; intros ? ?; apply H; by right). unfold combinations in *. nia.
Qed.

Lemma calculate_total stack r rs : Resources stack = r :: rs -> (forall r', r' ∈ rs -> Flavors r' ≠ []) ->
  ∃ aggs, calculateFlavorAggregate stack = Some aggs ∧ length aggs = combinations (Resources stack) ∧
    mapM (aggregate_at (Resources stack)) (all_ix (lens_of (Resources stack))) = Some aggs ∧
    forall fis, (∃ agg, agg ∈ aggs ∧ Agg_Flavors agg = fis) <-> choice (Resources stack) fis.
Proof.
  intros Hr Hne. assert (Forall (fun n => (0 < n)%nat) (lens_of rs)) as Hpos.
  { apply Forall_fmap, Forall_forall. intros r' Hr'. specialize (Hne r' Hr'). simpl. destruct (Flavors r'); simpl; [done|lia]. }
  rewrite (calculate_spec stack r rs Hr Hpos), combinations_lens, <- length_all_ix. set (L := lens_of (Resources stack)).
  destruct (mapM (aggregate_at (Resources stack)) (all_ix L)) as [aggs|] eqn:Hm.
  - apply mapM_Some in Hm. exists aggs. split_and!; [done|symmetry; by eapply Forall2_length|done|]. intros fis. rewrite <- aggregate_choice. split.
    + intros (agg & [i Hi]%list_elem_of_lookup & <-). destruct (Forall2_lookup_r _ _ _ _ _ Hm Hi) as (ix & Hix & Hagg).
      exists ix, agg. split_and!; [|done|done]. apply all_ix_valid. by eapply list_elem_of_lookup_2.
    + intros (ix & agg & [i Hi]%all_ix_valid%list_elem_of_lookup & Hagg & <-). destruct (Forall2_lookup_l _ _ _ _ _ Hm Hi) as (agg' & Hi' & Hagg').
      exists agg'. split; [by eapply list_elem_of_lookup_2|congruence].
  - exfalso. apply mapM_None in Hm. apply Exists_exists in Hm as (ix & Hix%all_ix_valid & Hnone).
    destruct (aggregate_at_total _ _ Hix) as [agg Hagg]. by rewrite Hagg in Hnone.
Qed.

(** The flavor plugin tries every combination once.  For a stack whose resources all
    name flavors, [calculateFlavorAggregate] returns the combinations in lexicographic
    order, as many as the product of the numbers of flavors, and a list of flavors with
    counts is tried exactly when it takes one flavor of each resource.  A stack without
    resources makes it panic. *)
Theorem flavor_combinations_are_complete stack :
  (Resources stack = [] -> calculateFlavorAggregate stack = None) ∧
  (forall r rs, Resources stack = r :: rs -> (forall r', r' ∈ rs -> Flavors r' ≠ []) ->
    ∃ aggs, calculateFlavorAggregate stack = Some aggs ∧ length aggs = combinations (Resources stack) ∧
      mapM (aggregate_at (Resources stack)) (all_ix (lens_of (Resources stack))) = Some aggs ∧
      forall fis, (∃ agg, agg ∈ aggs ∧ Agg_Flavors agg = fis) <-> choice (Resources stack) fis).
Proof.
  split; [intros Hr; unfold calculateFlavorAggregate; by rewrite Hr|]. intros r rs. apply calculate_total.
Qed.

(** ** Matching a combination *)

Section Match.
Context (range : forall A : Type, gmap string A -> list (string * A)) (spot_fake : bool).
Hypothesis Hrange : forall A m, range A m ≡ₚ map_to_list m.

(** Flavors that are asked for once each, without spot resources, at least one instance. *)
Record plain (fis : list FlavorInfo) : Prop := {
  plain_some : fis ≠ [];
  plain_spot : forall fi, fi ∈ fis -> Flavor_Spot (FI_Flavor fi) = None;
  plain_count : forall fi, fi ∈ fis -> 1 <= FI_Count fi <= MaxInt64;
  plain_once : NoDup ((fun fi => FlavorID (FI_Flavor fi)) <$> fis) }.

(** The site can host [k] stacks with these flavors. *)
Definition hosts (n : SiteCacheInfo) (fis : list FlavorInfo) (k : Z) : Prop :=
  forall fi, fi ∈ fis -> ∃ t, AllocatableFlavor n !! FlavorID (FI_Flavor fi) = Some t ∧ k * FI_Count fi <= t.

(** The site has enough of one flavor. *)
Definition available (n : SiteCacheInfo) (e : string * Z) : Prop :=
  match AllocatableFlavor n !! e.1 with Some t => e.2 <= t | None => False end.
#[local] Instance available_dec n e : Decision (available n e).
Proof. unfold available. destruct (AllocatableFlavor n !! e.1); apply _. Defined.

Lemma available_spec n e : available n e <-> ∃ t, AllocatableFlavor n !! e.1 = Some t ∧ e.2 <= t.
Proof. unfold available. destruct (AllocatableFlavor n !! e.1) as [t|]; split; [by exists t|by intros (? & [= <-] & ?)|done|by intros (? & ? & ?)]. Qed.

(** A site whose counts are small enough to be compared exactly. *)
Record counted (n : SiteCacheInfo) : Prop := {
  counted_site : is_Some (GetSite n);
  counted_small : forall id t, AllocatableFlavor n !! id = Some t -> t < 2 ^ 53 }.

Lemma com_match_no n entries m : counted n -> (forall e, e ∈ entries -> 1 <= e.2) ->
  (∃ e, e ∈ entries ∧ forall t, AllocatableFlavor n !! e.1 = Some t -> t < e.2) -> com_match entries n m = Some (false, 0).
Proof.
  intros [[site Hsite] _]. revert m. induction entries as [|[id c] entries IH]; intros m Hpos (e & He & Ht); [by apply elem_of_nil in He|].
  cbn [com_match]. rewrite Hsite. destruct (AllocatableFlavor n !! id) as [t|] eqn:Hid; [|done].
  destruct (Z.ltb_spec t c) as [|Hge]; [done|]. pose proof (Hpos (id, c) (list_elem_of_here _ _)) as Hc. simpl in Hc.
  destruct (Z.eqb_spec c 0); [lia|]. apply IH; [intros e' ?; apply Hpos; by right|].
  apply elem_of_cons in He as [->|He]; [specialize (Ht t Hid); simpl in Ht; lia|by exists e].
Qed.

(** All available: the count is the least quotient, here characterised by what it allows. *)
Lemma com_match_yes n entries m : counted n -> 0 <= m < 2 ^ 53 ->
  (forall e, e ∈ entries -> 1 <= e.2 ∧ ∃ t, AllocatableFlavor n !! e.1 = Some t ∧ e.2 <= t) ->
  ∃ k, com_match entries n (float_of_Z m) = Some (true, k) ∧
    forall j, 0 <= j -> (j <= k <-> j <= m ∧ forall e t, e ∈ entries -> AllocatableFlavor n !! e.1 = Some t -> j * e.2 <= t).
Proof.
  intros Hn. revert m. induction entries as [|[id c] entries IH]; intros m Hm Hall.
  { exists m. cbn [com_match]. rewrite int_of_float by done. split; [done|]. intros j Hj. split; [intros ?; split; [done|by intros e t ?%elem_of_nil]|tauto]. }
  destruct (Hall (id, c) (list_elem_of_here _ _)) as (Hc & t & Ht & Hct). simpl in *. cbn [com_match]. rewrite Ht.
  destruct (Z.ltb_spec t c); [lia|]. destruct (Z.eqb_spec c 0); [lia|]. pose proof (counted_small n Hn id t Ht).
  assert (0 <= Z.quot t c < 2 ^ 53) as Hq by (rewrite Z.quot_div_nonneg by lia; split; [apply Z.div_pos|apply Z.div_lt_upper_bound]; nia).
  rewrite math_Min_exact by done. destruct (IH (Z.min m (Z.quot t c))) as (k & -> & Hk); [lia|intros e ?; apply Hall; by right|].
  exists k. split; [done|]. intros j Hj. rewrite (Hk j Hj). assert (j <= Z.quot t c <-> j * c <= t) as Hqj by (apply quot_fits; lia). split.
  - intros [Hle Hrest]. split; [lia|]. intros e t' [->|He]%elem_of_cons Ht'; [|by eapply Hrest]. simpl in *. rewrite Ht in Ht'. injection Ht' as <-. apply Hqj. lia.
  - intros [Hle Hrest]. split; [|intros e t' He; apply Hrest; by right]. apply Z.min_glb; [done|]. apply Hqj. apply (Hrest (id, c) t); [by left|done].
Qed.

Lemma com_match_start n e entries : counted n -> (forall e', e' ∈ e :: entries -> 1 <= e'.2 ∧ ∃ t, AllocatableFlavor n !! e'.1 = Some t ∧ e'.2 <= t) ->
  ∃ k, com_match (e :: entries) n MaxFloat64 = Some (true, k) ∧
    forall j, 0 <= j -> (j <= k <-> forall e' t, e' ∈ e :: entries -> AllocatableFlavor n !! e'.1 = Some t -> j * e'.2 <= t).
Proof.
  intros Hn Hall. destruct e as [id c]. destruct (Hall (id, c) (list_elem_of_here _ _)) as (Hc & t & Ht & Hct). simpl in Hc, Ht, Hct.
  pose proof (counted_small n Hn id t Ht).
  assert (0 <= Z.quot t c < 2 ^ 53) as Hq by (rewrite Z.quot_div_nonneg by lia; split; [apply Z.div_pos|apply Z.div_lt_upper_bound]; nia).
  destruct (com_match_yes n entries (Z.quot t c) Hn Hq) as (k & Hk & Hj); [intros e' ?; apply Hall; by right|].
  exists k. split.
  { cbn [com_match]. rewrite Ht. destruct (Z.ltb_spec t c); [lia|]. destruct (Z.eqb_spec c 0); [lia|]. by rewrite math_Min_start. }
  intros j Hj0. rewrite (Hj j Hj0). assert (j <= Z.quot t c <-> j * c <= t) as Hqj by (apply quot_fits; lia). split.
  - intros [Hle Hrest] e' t' [->|He]%elem_of_cons Ht'; [|by eapply Hrest]. simpl in *. rewrite Ht in Ht'. injection Ht' as <-. by apply Hqj.
  - intros Hrest. split; [apply Hqj, (Hrest (id, c) t); [by left|done]|]. intros e' t' He. apply Hrest. by right.
Qed.

(** Without repetitions the map of requests holds the counts. *)
Lemma count_fold fis : forall m, (forall fi, fi ∈ fis -> Flavor_Spot (FI_Flavor fi) = None) ->
  (forall fi, fi ∈ fis -> 1 <= FI_Count fi <= MaxInt64) -> NoDup ((fun fi => FlavorID (FI_Flavor fi)) <$> fis) ->
  (forall fi, fi ∈ fis -> m !! FlavorID (FI_Flavor fi) = None) ->
  ∃ m', foldl count_request (m, ∅) fis = (m', ∅) ∧
    forall id c, m' !! id = Some c <-> m !! id = Some c ∨ ∃ fi, fi ∈ fis ∧ FlavorID (FI_Flavor fi) = id ∧ FI_Count fi = c.
Proof.
  induction fis as [|fi fis IH]; intros m Hspot Hcount Hnd Hm.
  { exists m. split; [done|]. intros id c. split; [by left|]. intros [?|(? & []%elem_of_nil & _)]. done. }
  apply NoDup_cons in Hnd as [Hnotin Hnd]. cbn [foldl]. assert (count_request (m, ∅) fi = (<[FlavorID (FI_Flavor fi) := FI_Count fi]> m, ∅)) as ->.
  { unfold count_request. rewrite (Hspot fi) by (by left). rewrite (Hm fi) by (by left). rewrite bool_decide_eq_false_2 by (by intros [? ?]).
    rewrite (Hm fi) by (by left). simpl. rewrite wrap64_id; [done|]. pose proof (Hcount fi (list_elem_of_here _ _)). int64. }
  destruct (IH (<[FlavorID (FI_Flavor fi) := FI_Count fi]> m)) as (m' & Hm' & Hspec);
    [intros ? ?; apply Hspot; by right|intros ? ?; apply Hcount; by right|done| |].
  { intros fi' Hfi'. rewrite lookup_insert_ne; [apply Hm; by right|]. intros Heq. apply Hnotin. rewrite Heq. by apply (list_elem_of_fmap_2 (fun fi => FlavorID (FI_Flavor fi))). }
  exists m'. split; [done|]. intros id c. rewrite Hspec, lookup_insert_Some. split.
  - intros [[[<- <-]|[_ ?]]|(fi' & ? & ? & ?)]; [right; exists fi; by split; [left|]|by left|right; exists fi'; by split; [right|]].
  - intros [Hid|(fi' & [->|?]%elem_of_cons & <- & <-)]; [|by left; left|right; by exists fi']. left. right. split; [|done].
    intros Heq. rewrite <- Heq, (Hm fi) in Hid; [done|by left].
Qed.

Lemma range_empty A : range A ∅ = [].
Proof using Hrange. apply Permutation_nil_r. by rewrite Hrange, map_to_list_empty. Qed.

(** The two checks of a plain combination. *)
Lemma aggregate_match_spec agg n : plain (Agg_Flavors agg) -> counted n ->
  ∃ com spot, aggregate_match range spot_fake agg n = Some (com, spot) ∧ spot.1 = true ∧ (com.1 = true <-> hosts n (Agg_Flavors agg) 1) ∧
    (com.1 = true -> aggregate_count agg com.2 spot.2 = com.2 ∧ forall k, 0 <= k -> (k <= com.2 <-> hosts n (Agg_Flavors agg) k)).
Proof using Hrange.
  intros [Hsome Hspot Hcount Honce] Hn. destruct (count_fold (Agg_Flavors agg) ∅ Hspot Hcount Honce) as (m & Hm & Hspec);
    [intros; apply lookup_empty|]. unfold aggregate_match, aggregate_count, getFlavorToCount. rewrite Hm.
  assert (forall id c, (id, c) ∈ range _ m <-> ∃ fi, fi ∈ Agg_Flavors agg ∧ FlavorID (FI_Flavor fi) = id ∧ FI_Count fi = c) as Hr.
  { intros id c. rewrite Hrange, elem_of_map_to_list, Hspec, lookup_empty. split; [by intros [|]|by right]. }
  assert (∃ spot, isSpotFlavorMatch range spot_fake ∅ n = Some spot ∧ spot.1 = true) as (spot & Hs & Hs1).
  { unfold isSpotFlavorMatch. destruct spot_fake; [by eexists|]. rewrite range_empty. by eexists. }
  assert (∃ e es, range _ m = e :: es) as (e & es & Hes).
  { destruct (Agg_Flavors agg) as [|fi fis]; [done|]. destruct (range _ m) as [|e es] eqn:He; [|by eexists _, _].
    exfalso. apply (elem_of_nil (FlavorID (FI_Flavor fi), FI_Count fi)). apply Hr. exists fi. by split; [left|]. }
  assert ((0 <? size m)%nat = true) as Hsize.
  { apply Nat.ltb_lt. rewrite <- length_map_to_list, <- (Permutation_length (Hrange _ m)), Hes. simpl. lia. }
  unfold isComFlavorMatch. rewrite Hs, Hsize, map_size_empty. cbn [andb Nat.ltb Nat.leb]. rewrite Hes in Hr |- *.
  assert (forall e', e' ∈ e :: es -> 1 <= e'.2) as Hpos.
  { intros [id c] He'. apply Hr in He' as (fi & Hfi & <- & <-). apply Hcount in Hfi. simpl. lia. }
  destruct (decide (Forall (available n) (e :: es))) as [Hall|Hnot].
  - rewrite Forall_forall in Hall. setoid_rewrite available_spec in Hall.
    destruct (com_match_start n e es Hn) as (k & Hk & Hspec'); [intros e' He'; split; [by apply Hpos|by apply Hall]|].
    exists (true, k), spot. rewrite Hk. bind_simpl. split_and!; [done|done| |].
    + split; [intros _ fi Hfi|done]. destruct (Hall (FlavorID (FI_Flavor fi), FI_Count fi)) as (t & Ht & Hle); [apply Hr; by exists fi|].
      exists t. split; [done|]. simpl in Hle. lia.
    + intros _. split; [done|]. intros j Hj. simpl. rewrite (Hspec' j Hj). split.
      * intros H fi Hfi. assert ((FlavorID (FI_Flavor fi), FI_Count fi) ∈ e :: es) as He by (apply Hr; by exists fi).
        destruct (Hall _ He) as (t & Ht & _). exists t. split; [done|]. apply (H _ t He Ht).
      * intros H [id c] t He Ht. apply Hr in He as (fi & Hfi & <- & <-). destruct (H fi Hfi) as (t' & Ht' & ?). simpl in *. rewrite Ht in Ht'.
        by injection Ht' as <-.
  - apply not_Forall_Exists in Hnot; [|apply _]. apply Exists_exists in Hnot as ([id c] & He & Hbad).
    change (¬ available n (id, c)) in Hbad. rewrite available_spec in Hbad.
    exists (false, 0), spot. rewrite com_match_no; [|done|done|].
    + split_and!; [done|done| |done]. split; [done|]. intros H. exfalso. apply Hbad. apply Hr in He as (fi & Hfi & <- & <-).
      destruct (H fi Hfi) as (t & Ht & ?). exists t. simpl. split; [done|lia].
    + exists (id, c). split; [done|]. simpl in *. intros t Ht. apply Znot_ge_lt. intros ?. apply Hbad. exists t. split; [done|lia].
Qed.

Lemma filter_aggregates_spec aggs n : (forall agg, agg ∈ aggs -> plain (Agg_Flavors agg)) -> counted n ->
  ∃ status, filter_aggregates range spot_fake aggs n = Some status ∧
    (IsSuccess status = true <-> ∃ agg, agg ∈ aggs ∧ hosts n (Agg_Flavors agg) 1).
Proof using Hrange.
  intros Hplain Hn. induction aggs as [|agg aggs IH]; cbn [filter_aggregates].
  { destruct (counted_site n Hn) as [site ->]. eexists. split; [done|]. split; [done|by intros (? & []%elem_of_nil & _)]. }
  destruct (aggregate_match_spec agg n (Hplain agg (list_elem_of_here _ _)) Hn) as (com & spot & -> & Hs & Hc & _). bind_simpl. simpl.
  rewrite Hs, andb_true_r. destruct com.1.
  - exists None. split; [done|]. split; [intros _; exists agg; split; [by left|by apply Hc]|done].
  - destruct IH as (status & -> & Hst); [intros ? ?; apply Hplain; by right|]. exists status. split; [done|]. rewrite Hst. split.
    + intros (agg' & ? & ?). exists agg'. by split; [right|].
    + intros (agg' & [->|?]%elem_of_cons & Hh); [by apply Hc in Hh|by exists agg'].
Qed.

(** What the score stores for a site without an entry, or with an empty one. *)
Lemma score_aggregates_spec st aggs n site s : (forall agg, agg ∈ aggs -> plain (Agg_Flavors agg)) -> counted n -> GetSite n = Some site ->
  st !! SiteTempSelectorKey = Some (SiteSelectorInfos s) -> StackMaxCount (default (mkSelectorInfo [] [] 0) (s !! SiteID site)) = 0 ->
  (∃ agg, agg ∈ aggs ∧ hosts n (Agg_Flavors agg) 1) ->
  ∃ agg info, agg ∈ aggs ∧ hosts n (Agg_Flavors agg) 1 ∧
    score_aggregates range spot_fake st aggs n = Some (Write st SiteTempSelectorKey (SiteSelectorInfos (<[SiteID site := info]> s)),
      Z.quot (Weight agg) (Z.of_nat (length (Agg_Flavors agg)))) ∧
    Sel_Flavors info = Agg_Flavors agg ∧ (forall k, 0 <= k -> (k <= StackMaxCount info <-> hosts n (Agg_Flavors agg) k)) ∧
    ∃ pre post, aggs = pre ++ agg :: post ∧ forall a, a ∈ pre -> ¬ hosts n (Agg_Flavors a) 1.
Proof using Hrange.
  intros Hplain Hn Hsite Hst H0 (agg0 & Hin & Hh0). induction aggs as [|agg aggs IH]; [by apply elem_of_nil in Hin|]. cbn [score_aggregates].
  destruct (aggregate_match_spec agg n (Hplain agg (list_elem_of_here _ _)) Hn) as (com & spot & -> & Hs & Hc & Hk). bind_simpl. simpl.
  rewrite Hs, andb_true_r. destruct (com.1) eqn:Hcom.
  - destruct (Hk eq_refl) as [Hcount Hk']. change (SCI_Site n) with (GetSite n). rewrite Hsite. bind_simpl. rewrite Hcount.
    unfold UpdateSiteSelectorState, Read. rewrite Hst. cbn [foldl mbind option_bind update_entry String.eqb fst snd]. simpl. rewrite H0. simpl.
    assert ((0 <? length (Agg_Flavors agg))%nat = true) as ->.
    { apply Nat.ltb_lt. destruct (Agg_Flavors agg) eqn:Hf; [|simpl; lia]. by apply (plain_some _ (Hplain agg (list_elem_of_here _ _))) in Hf. }
    eexists agg, _. split_and!; [by left|by apply Hc|done|done|done|]. exists [], aggs. split; [done|by intros ? ?%elem_of_nil].
  - destruct IH as (agg' & info & ? & ? & ? & ? & ? & pre & post & -> & Hpre); [intros ? ?; apply Hplain; by right| |].
    + apply elem_of_cons in Hin as [->|?]; [by apply Hc in Hh0|done].
    + exists agg', info. split_and!; [by right|done|done|done|done|]. exists (agg :: pre), post. split; [done|].
      intros a [->|?]%elem_of_cons; [intros Hh; by apply Hc in Hh|auto].
Qed.

(** What is asked of the flavors of a stack: every resource names flavors, and every
    combination is plain. *)
Definition plain_stack (stack : Stack) : Prop :=
  Resources stack ≠ [] ∧ (forall r, r ∈ Resources stack -> Flavors r ≠ []) ∧ forall fis, choice (Resources stack) fis -> plain fis.

Lemma plain_aggregates stack : plain_stack stack -> ∃ aggs, calculateFlavorAggregate stack = Some aggs ∧ aggs ≠ [] ∧
  (forall agg, agg ∈ aggs -> plain (Agg_Flavors agg)) ∧ forall fis, (∃ agg, agg ∈ aggs ∧ Agg_Flavors agg = fis) <-> choice (Resources stack) fis.
Proof.
  intros (Hne & Hfl & Hplain). destruct (Resources stack) as [|r rs] eqn:Hr; [done|].
  destruct (calculate_total stack r rs Hr) as (aggs & Hagg & Hlen & _ & Hch); [intros r' ?; apply Hfl; by right|].
  exists aggs. rewrite Hr in Hch, Hlen. split_and!; [done| |intros agg ?; apply Hplain, Hch; by exists agg|exact Hch].
  intros ->. simpl in Hlen. pose proof (combinations_pos (r :: rs) Hfl). simpl in H. lia.
Qed.

End Match.

(** C31.  The flavor plugin accepts a site exactly when it can host the stack, and stores how
    many. For a stack whose resources all name flavors and ask for at least one instance,
    without spot resources, that asks for no flavor twice, a site whose flavor counts are below
    2^53, and a cycle state with an empty entry for the site: the filter succeeds on the site
    exactly when some choice of one flavor per resource is available there; and when it does,
    scoring the site stores such a choice together with the greatest number of stacks for which
    the allocatable flavors suffice. *)
Theorem flavor_plugin_is_exact range spot_fake ctx w st stack n site s :
  (forall A m, range A m ≡ₚ map_to_list m) -> plain_stack stack -> counted n -> GetSite n = Some site ->
  st !! SiteTempSelectorKey = Some (SiteSelectorInfos s) -> s !! SiteID site = Some (mkSelectorInfo [] [] 0) ->
  let fits := ∃ fis, choice (Resources stack) fis ∧ hosts n fis 1 in
  ∃ st1 status, Flavor_PreFilter w st stack = Some (st1, None) ∧ Flavor_Filter range spot_fake ctx w st1 stack n = Some (st1, n, status) ∧
    (IsSuccess status = true <-> fits) ∧
    (fits -> ∃ st2 score info, Flavor_Score range spot_fake w st1 stack (Some n) = Some (st2, score, None) ∧
      GetSiteSelectorState st2 (SiteID site) = Ok info ∧ choice (Resources stack) (Sel_Flavors info) ∧
      forall k, 0 <= k -> (k <= StackMaxCount info <-> hosts n (Sel_Flavors info) k)).
Proof.
  intros Hrange Hstack Hn Hsite Hst Hs fits. destruct (plain_aggregates stack Hstack) as (aggs & Hagg & Hne & Hplain & Hch).
  assert (fits <-> ∃ agg, agg ∈ aggs ∧ hosts n (Agg_Flavors agg) 1) as Hfits.
  { split; [intros (fis & (agg & ? & <-)%Hch & ?); by exists agg|intros (agg & ? & ?); exists (Agg_Flavors agg); split; [apply Hch; by exists agg|done]]. }
  destruct (filter_aggregates_spec range spot_fake Hrange aggs n Hplain Hn) as (status & Hfilter & Hok).
  set (st1 := Write st flavorStateKey (FlavorAggregates aggs)). exists st1, status.
  assert (getFlavorState st1 = Ok aggs) as Hget by (unfold getFlavorState, Read, st1, Write; by rewrite lookup_insert_eq).
  assert (st1 !! SiteTempSelectorKey = Some (SiteSelectorInfos s)) as Hst1 by (unfold st1, Write; by rewrite lookup_insert_ne).
  split_and!; [unfold Flavor_PreFilter; by rewrite Hagg|unfold Flavor_Filter; by rewrite Hget, Hfilter|by rewrite Hok, Hfits|].
  intros (agg0 & ? & ?)%Hfits. destruct (score_aggregates_spec range spot_fake Hrange st1 aggs n site s Hplain Hn Hsite Hst1) as
    (agg & info & Hin & _ & Hscore & Hsel & Hk & _); [by rewrite Hs|by exists agg0|].
  eexists _, _, info. unfold Flavor_Score. rewrite Hget. destruct aggs as [|a aggs]; [done|]. bind_simpl. rewrite Hscore. bind_simpl.
  split_and!; [done| |apply Hch; by exists agg|by rewrite Hsel].
  unfold GetSiteSelectorState, Read, Write. rewrite lookup_insert_eq. cbn beta iota. by rewrite lookup_insert_eq.
Qed.

Definition demo_resource (name : string) (ids : list string) (count : Z) : Resource :=
  mkResource name "vm" ((fun id => mkFlavor id None) <$> ids) ∅ false count "".
Definition demo_request (rs : list Resource) : Stack := mkStack "p" ∅ rs no_selector no_selected "u" 0 "t" "n".
Definition demo_two : Stack := demo_request [demo_resource "web" ["f1"; "f2"] 2; demo_resource "db" ["f3"] 1].
Definition demo_info (flavors : gmap string Z) : SiteCacheInfo :=
  mkSiteCacheInfo (Some (demo_site "a" "r1" "az1")) ∅ ∅ ∅ ∅ ∅ flavors ∅ [] None ∅ 0.
Definition demo_world : World := mkWorld NewEmptySnapshot (newSchedulerCache 0) ∅ ∅ [].

Lemma demo_two_choice fis : choice (Resources demo_two) fis ->
  fis = [mkFlavorInfo (mkFlavor "f1" None) 2; mkFlavorInfo (mkFlavor "f3" None) 1] ∨
  fis = [mkFlavorInfo (mkFlavor "f2" None) 2; mkFlavorInfo (mkFlavor "f3" None) 1].
Proof.
  intros H. inversion H as [|? [f1 c1] ? ? [H1 H2] Hr]; subst. inversion Hr as [|? [f2 c2] ? ? [H3 H4] Hr2]; subst. inversion Hr2; subst.
  simpl in *. subst. apply list_elem_of_singleton in H3 as ->. apply elem_of_cons in H1 as [->| ->%list_elem_of_singleton]; [by left|by right].
Qed.

Lemma demo_two_plain : plain_stack demo_two.
Proof.
  split_and!; [done|intros r [->|[->|[]%elem_of_nil]%elem_of_cons]%elem_of_cons; done|].
  intros fis [->| ->]%demo_two_choice; split; try done.
  all: try (intros fi [->|[->|[]%elem_of_nil]%elem_of_cons]%elem_of_cons; simpl; unfold MaxInt64; done || lia).
  all: simpl; apply NoDup_cons; split; [by rewrite list_elem_of_singleton|apply NoDup_singleton].
Qed.

Lemma flavor_combinations_are_complete_witness :
  calculateFlavorAggregate (demo_request []) = None ∧
  ∃ aggs, calculateFlavorAggregate demo_two = Some aggs ∧ length aggs = 2%nat.
Proof.
  split; [apply (proj1 (flavor_combinations_are_complete (demo_request []))); reflexivity|].
  destruct (proj2 (flavor_combinations_are_complete demo_two) (demo_resource "web" ["f1"; "f2"] 2) [demo_resource "db" ["f3"] 1] eq_refl) as (aggs & H1 & H2 & _).
  - intros r [->|[]%elem_of_nil]%elem_of_cons. discriminate.
  - exists aggs. split; [exact H1|exact H2].
Defined.

(** The first flavor is short; the second allows three stacks, the database two. *)
Definition demo_three : SiteCacheInfo := demo_info {["f1"%string := 1; "f2"%string := 6; "f3"%string := 2]}.
Definition demo_selectors : gmap string SiteSelectorInfo := {["a"%string := mkSelectorInfo [] [] 0]}.
Definition demo_state : CycleState := {[SiteTempSelectorKey := SiteSelectorInfos demo_selectors]}.

Lemma demo_three_counted : counted demo_three.
Proof.
  split; [by eexists|]. intros id t Ht. change (AllocatableFlavor demo_three) with (list_to_map [("f1"%string, 1); ("f2"%string, 6); ("f3"%string, 2)] : gmap string Z) in Ht.
  apply elem_of_list_to_map_2 in Ht. repeat (apply elem_of_cons in Ht as [[= -> ->]|Ht]; [lia|]). by apply elem_of_nil in Ht.
Qed.

Lemma flavor_plugin_is_exact_witness :
  ∃ st1 status, Flavor_PreFilter demo_world demo_state demo_two = Some (st1, None) ∧
    Flavor_Filter (fun A (m : gmap string A) => map_to_list m) false ∅ demo_world st1 demo_two demo_three = Some (st1, demo_three, status) ∧
    IsSuccess status = true.
Proof.
  destruct (flavor_plugin_is_exact (fun A (m : gmap string A) => map_to_list m) false ∅ demo_world demo_state demo_two demo_three (demo_site "a" "r1" "az1")
    demo_selectors (fun A m => reflexivity _) demo_two_plain demo_three_counted eq_refl
    ltac:(vm_compute; reflexivity) ltac:(vm_compute; reflexivity)) as (st1 & status & Hpre & Hfilter & Hok & _).
  exists st1, status. split_and!; [exact Hpre|exact Hfilter|]. apply Hok.
  exists [mkFlavorInfo (mkFlavor "f2" None) 2; mkFlavorInfo (mkFlavor "f3" None) 1]. split; [repeat constructor|].
  intros fi [->|[->|[]%elem_of_nil]%elem_of_cons]%elem_of_cons; [exists 6|exists 2]; split; [reflexivity|simpl; lia|reflexivity|simpl; lia].
Defined.

(** Two stacks fit: the database flavor is the bottleneck. *)
Example demo_capacity :
  ('(st1, _) ← Flavor_PreFilter demo_world demo_state demo_two;
   '(st2, score, _) ← Flavor_Score (fun A (m : gmap string A) => map_to_list m) false demo_world st1 demo_two (Some demo_three);
   match GetSiteSelectorState st2 "a" with Ok info => Some (score, StackMaxCount info) | Err _ => None end) = Some (7, 2).
Proof. vm_compute. reflexivity. Qed.

(** A flavor that two resources of a stack ask for is counted once.  The request for
    it is reset to zero when it is met again, so a site is accepted that has room for the
    last resource only. *)
Theorem repeated_flavor_is_undercounted range spot_fake ctx w st stack r1 r2 id t n :
  (forall A m, range A m ≡ₚ map_to_list m) -> Resources stack = [r1; r2] ->
  Flavors r1 = [mkFlavor id None] -> Flavors r2 = [mkFlavor id None] -> 1 <= Count r1 <= MaxInt64 -> 1 <= Count r2 <= MaxInt64 ->
  counted n -> AllocatableFlavor n !! id = Some t -> Count r2 <= t ->
  ∃ st1, Flavor_PreFilter w st stack = Some (st1, None) ∧ Flavor_Filter range spot_fake ctx w st1 stack n = Some (st1, n, None).
Proof.
  intros Hrange Hrs Hf1 Hf2 Hc1 Hc2 Hn Ht Hle.
  set (agg := mkAggregate [mkFlavorInfo (mkFlavor id None) (Count r1); mkFlavorInfo (mkFlavor id None) (Count r2)] 20).
  assert (calculateFlavorAggregate stack = Some [agg]) as Hcalc.
  { rewrite (calculate_spec stack r1 [r2] Hrs); unfold lens_of; rewrite ?Hrs; simpl; rewrite ?Hf1, ?Hf2; simpl; [|repeat constructor].
    done. }
  assert (getFlavorToCount agg = ({[id := Count r2]}, ∅)) as Hcount.
  { unfold getFlavorToCount, agg. cbn [Agg_Flavors foldl]. unfold count_request. cbn [FI_Flavor FlavorID Flavor_Spot FI_Count].
    rewrite lookup_empty, (bool_decide_eq_false_2 (is_Some None)) by (by intros [? ?]). cbn [from_option].
    rewrite lookup_insert_eq, (bool_decide_eq_true_2 (is_Some _)), lookup_insert_eq by (by eexists).
    cbn [from_option]. unfold Datatypes.id. rewrite !wrap64_id by int64. by rewrite !insert_insert_eq, insert_empty. }
  exists (Write st flavorStateKey (FlavorAggregates [agg])). split; [unfold Flavor_PreFilter; by rewrite Hcalc|].
  unfold Flavor_Filter, getFlavorState, Read, Write. rewrite lookup_insert_eq. cbn [filter_aggregates]. unfold aggregate_match. rewrite Hcount.
  assert (range Z {[id := Count r2]} = [(id, Count r2)]) as Hr by (apply Permutation_singleton_r; by rewrite Hrange, map_to_list_singleton).
  unfold isComFlavorMatch. rewrite Hr. destruct (com_match_start n (id, Count r2) [] Hn) as (k & -> & _).
  { intros e ->%list_elem_of_singleton. split; [simpl; lia|by exists t]. }
  bind_simpl. unfold isSpotFlavorMatch. destruct spot_fake; [done|]. by rewrite range_empty.
Qed.

(** Three instances of a flavor are left; four are asked for. *)
Lemma repeated_flavor_is_undercounted_witness :
  ∃ st1, Flavor_PreFilter demo_world ∅ (demo_request [demo_resource "web" ["f1"] 2; demo_resource "db" ["f1"] 2]) = Some (st1, None) ∧
    Flavor_Filter (fun A (m : gmap string A) => map_to_list m) false ∅ demo_world st1
      (demo_request [demo_resource "web" ["f1"] 2; demo_resource "db" ["f1"] 2]) (demo_info {["f1"%string := 3]})
      = Some (st1, demo_info {["f1"%string := 3]}, None).
Proof.
  apply (repeated_flavor_is_undercounted (fun A (m : gmap string A) => map_to_list m) false ∅ demo_world ∅
    (demo_request [demo_resource "web" ["f1"] 2; demo_resource "db" ["f1"] 2]) (demo_resource "web" ["f1"] 2) (demo_resource "db" ["f1"] 2) "f1" 3
    (demo_info {["f1"%string := 3]}) (fun A m => reflexivity _) eq_refl eq_refl eq_refl); try (simpl; unfold MaxInt64; lia); [|reflexivity].
  split; [by eexists|]. intros id t Ht. simpl in Ht. apply lookup_singleton_Some in Ht as [_ <-]. lia.
Defined.
