(* ===== verification/Plugins.v ===== *)
(** * The other filter and score plugins

    Models the plugins under [globalscheduler/pkg/scheduler/framework/plugins] except the
    flavor plugin, the strategies and the binder: availability, location and operator,
    region and zone, volumes, addresses, exclusive sites, resource fit, stack affinity and
    least allocation.  What each filter decides is proved in [FilterProofs]. *)
From S2P Require Import Prelude Types Strconv SiteTree SiteCacheInfo Cache Labels Framework Floats.

Local Open Scope Z_scope.

(** A filter that reads the site and changes nothing. *)
Definition pure_filter (check : Context_ -> Stack -> SiteCacheInfo -> option Status) :
    Context_ -> World -> CycleState -> Stack -> SiteCacheInfo -> option (CycleState * SiteCacheInfo * Status) :=
  fun ctx w st stack n => status ← check ctx stack n; Some (st, n, status).

Definition filter_plugin (f : Context_ -> World -> CycleState -> Stack -> SiteCacheInfo -> option (CycleState * SiteCacheInfo * Status)) : Plugin :=
  mkPlugin None (Some f) None None None None None.

(** ** Site availability *)

(** [strings.HasSuffix]. *)
Definition strings_HasSuffix (s suffix : string) : bool :=
  Nat.leb (String.length suffix) (String.length s) &&
  String.eqb (String.substring (String.length s - String.length suffix) (String.length suffix) s) suffix.

(** (siteavailability/siteavailability.go:45-65 Filter) *)
Definition SiteAvailability_check (ctx : Context_) (stack : Stack) (n : SiteCacheInfo) : option Status :=
  site ← GetSite n;
  if String.eqb (Site_Status site) SiteStatusOffline || String.eqb (Site_Status site) SiteStatusSellout then
    Some (NewStatus Unschedulable ["Site(" +:+ SiteID site +:+ ") status is " +:+ Site_Status site +:+ ", not available!"])
  else
    let asked := Sel_SiteID (Stack_Selector stack) in
    if negb (String.eqb asked "") && negb (String.eqb asked (SiteID site)) &&
       negb (String.prefix asked (SiteID site) && strings_HasSuffix asked SiteDelimiter)
    then Some (NewStatus Unschedulable ["Site(" +:+ SiteID site +:+ ") not suitable!"])
    else Some None.

Definition SiteAvailabilityPlugin : Plugin := filter_plugin (pure_filter SiteAvailability_check).

(** ** Location and operator *)

Definition asks (wanted have : string) : bool := negb (String.eqb wanted "") && negb (String.eqb wanted have).

(** (locationandoperator/locationandoperator.go:43-71) *)
Definition locationEqual (stack : Stack) (n : SiteCacheInfo) : option (bool * Status) :=
  let want := Sel_GeoLocation (Stack_Selector stack) in
  if (String.eqb (Country want) "" && String.eqb (Area want) "" && String.eqb (Province want) "" && String.eqb (City want) "")%bool
  then Some (true, None)
  else
    site ← GetSite n;
    let have := Site_GeoLocation site in
    if asks (Country want) (Country have) then Some (false, NewStatus Unschedulable ["stack country not equal site county."%string])
    else if asks (Area want) (Area have) then Some (false, NewStatus Unschedulable ["stack area not equal site area."%string])
    else if asks (Province want) (Province have) then Some (false, NewStatus Unschedulable ["stack province not equal site province."%string])
    else if asks (City want) (City have) then Some (false, NewStatus Unschedulable ["stack city not equal site city."%string])
    else Some (true, None).

(** (locationandoperator/locationandoperator.go:102-114 Filter) *)
Definition LocationAndOperator_check (ctx : Context_) (stack : Stack) (n : SiteCacheInfo) : option Status :=
  '(ok, status) ← locationEqual stack n;
  if negb (ok : bool) then Some status
  else if String.eqb (Sel_Operator (Stack_Selector stack)) "" then Some None
  else
    site ← GetSite n;
    if String.eqb (Sel_Operator (Stack_Selector stack)) (Site_Operator site) then Some None
    else Some (NewStatus Unschedulable ["stack operator not equal site operator."%string]).

(** ** Region and zone *)

(** (regionandaz/regionandaz.go:52-69) *)
Definition regionEqual (region : CloudRegion) (n : SiteCacheInfo) : option bool :=
  if String.eqb (CR_Region region) "" && Nat.eqb (length (CR_AvailabilityZone region)) 0 then Some true
  else
    site ← GetSite n;
    let have := Site_RegionAzMap site in
    if asks (CR_Region region) (RA_Region have) then Some false
    else match CR_AvailabilityZone region with
      | [] => Some true
      | azs => Some (bool_decide (RA_AvailabilityZone have ∈ azs))
      end.

(** (regionandaz/regionandaz.go:79-85 Filter) *)
Fixpoint any_region (regions : list CloudRegion) (n : SiteCacheInfo) : option bool :=
  match regions with
  | [] => Some false
  | region :: regions => m ← regionEqual region n; if (m : bool) then Some true else any_region regions n
  end.

(** (regionandaz/regionandaz.go:72-92 Filter) *)
Definition RegionAndAz_check (ctx : Context_) (stack : Stack) (n : SiteCacheInfo) : option Status :=
  match Sel_Regions (Stack_Selector stack) with
  | [] => Some None
  | regions =>
      m ← any_region regions n;
      if (m : bool) then Some None else Some (NewStatus Unschedulable ["stack region not equal site region."%string])
  end.

(** ** Exclusive sites *)

(** The first white list of the attributes (exclusivesite/exclusivesite.go:52-66 Filter). *)
Fixpoint exclusive_list (attrs : list SiteAttribute) : option string :=
  match attrs with
  | [] => None
  | a :: attrs => if String.eqb (SA_Key a) "exclusive_domains" then Some (SA_Value a) else exclusive_list attrs
  end.

(** A domain on the white list is turned away (exclusivesite/exclusivesite.go:46-69 Filter). *)
Definition ExclusiveSite_check (ctx : Context_) (stack : Stack) (n : SiteCacheInfo) : option Status :=
  let domainID := default ""%string (ctx !! "domain_id"%string) in
  site ← GetSite n;
  match exclusive_list (SiteAttributes site) with
  | Some whiteList =>
      if bool_decide (domainID ∈ strings_Split whiteList ",") then Some (NewStatus Unschedulable ["site is exclusive site."%string]) else Some None
  | None => Some None
  end.

Definition ExclusiveSitePlugin : Plugin := filter_plugin (pure_filter ExclusiveSite_check).

(** ** Addresses *)

(** The addresses are not checked (network/eip.go:40-54 Filter). *)
Definition EipAvailability_check (ctx : Context_) (stack : Stack) (n : SiteCacheInfo) : option Status := Some None.

Definition EipAvailabilityPlugin : Plugin := filter_plugin (pure_filter EipAvailability_check).

Section Plugins.
(** The order in which a map is visited. *)
Context (range : forall A : Type, gmap string A -> list (string * A)).

(** ** Volumes *)

(** One resource: a type that was asked for before starts from zero again
    (volume/volume.go:49-58 calculateStackStorageRequest). *)
Definition add_volumes (ret : gmap string float64) (server : Resource) : gmap string float64 :=
  foldl (fun ret '(volType, size) =>
    let ret := if bool_decide (is_Some (ret !! volType)) then <[volType := fzero]> ret else ret in
    <[volType := fadd (default fzero (ret !! volType)) (fmul (float_of_Z (Count server)) (float_of_Z size))]> ret) ret (range _ (Storage server)).

(** (volume/volume.go:47-61 calculateStackStorageRequest) *)
Definition volume_request (stack : Stack) : gmap string float64 := foldl add_volumes ∅ (Resources stack).

(** The requested types against the site (volume/volume.go:70-98 Filter). *)
Fixpoint volume_match (entries : list (string * float64)) (n : SiteCacheInfo) (maxCount : float64) : option (float64 + Status) :=
  match entries with
  | [] => Some (inl maxCount)
  | (volType, size) :: entries =>
      let reject := site ← GetSite n; Some (inr (NewStatus Unschedulable ["Site (" +:+ SiteID site +:+ ") do not support required volume"])) in
      match TotalStorage n !! volType with
      | None => reject
      | Some allocatableSize =>
          let requestedSize := default fzero (RequestedStorage n !! volType) in
          if fltb allocatableSize (fadd requestedSize size) then reject
          else
            let quotient := fdiv (fsub allocatableSize requestedSize) size in
            let maxCount := if fltb fzero size then math_Min maxCount quotient else maxCount in
            volume_match entries n (math_Min maxCount quotient)
      end
  end.

(** The count is passed on as a [float64]; the result of the update is ignored
    (volume/volume.go:64-101 Filter). *)
Definition Volume_Filter (ctx : Context_) (w : World) (st : CycleState) (stack : Stack) (n : SiteCacheInfo) :
    option (CycleState * SiteCacheInfo * Status) :=
  m ← volume_match (range _ (volume_request stack)) n MaxFloat64;
  match m with
  | inr status => Some (st, n, status)
  | inl maxCount =>
      site ← GetSite n;
      let '(st, _) := UpdateSiteSelectorState st (SiteID site) [("StackMaxCount"%string, UFloat maxCount)] in
      Some (st, n, None)
  end.

(** (volume/volume.go:104-123 Score) *)
Definition Volume_Score (w : World) (st : CycleState) (stack : Stack) (n : option SiteCacheInfo) : option (CycleState * Z * Status) :=
  n ← n;
  let total m := foldl (fun acc e => fadd acc e.2) fzero (range _ m) in
  let requested := total (RequestedStorage n) in
  let allocatable := total (TotalStorage n) in
  if negb (fltb fzero allocatable) && negb (is_nan allocatable) then Some (st, 0, None)
  else Some (st, int64_of_float (fdiv (fmul (fsub allocatable requested) (float_of_Z MaxSiteScore)) allocatable), None).

Definition VolumePlugin : Plugin := mkPlugin None (Some Volume_Filter) None (Some Volume_Score) None None None.

(** ** Resource requests *)

(** (cache.go:51-67 GetFlavor) *)
Definition FlavorCache_GetFlavor (w : World) (flavorID region : string) : option RegionFlavor :=
  if String.eqb region "" then w_FlavorMap w !! flavorID else w_RegionFlavorMap w !! (region +:+ FlavorDelimiter +:+ flavorID).

(** One flavor of a resource; the sizes of all its flavors are added up
    (siteresources/fit.go:90-110 calculateStackResourceRequest). *)
Definition add_flavor (w : World) (count : Z) (infos : FlavorInfos) (flv : Flavor) : FlavorInfos :=
  let spot_hours := match Flavor_Spot flv with Some spot => negb (SpotDurationHours spot =? 0) | None => false end in
  if (spot_hours : bool) then infos
  else
    match FlavorCache_GetFlavor w (FlavorID flv) "" with
    | None => infos
    | Some flvObj =>
        match ParseInt (Vcpus (RF_Flavor flvObj)) with
        | None => infos
        | Some vCPUInt =>
            mkFlavorInfos (Fit_Flavors infos ++ [mkFlavor (Flavor_ID (RF_Flavor flvObj)) (Flavor_Spot flv)])
              (mkCPUAndMemory (wrap64 (VCPU (Fit_CPU infos) + vCPUInt)) (wrap64 (Memory (Fit_CPU infos) + Ram (RF_Flavor flvObj)))) count
        end
    end.

(** (siteresources/fit.go:85-115) *)
Definition calculateStackResourceRequest (w : World) (stack : Stack) : list FlavorInfos :=
  (fun server => foldl (add_flavor w (Count server)) (mkFlavorInfos [] (mkCPUAndMemory 0 0) 0) (Flavors server)) <$> Resources stack.

Definition fitStateKey : string := "PreFilterSiteResourcesFit".

(** (siteresources/fit.go:131-137 PreFilter) *)
Definition Fit_PreFilter (w : World) (st : CycleState) (stack : Stack) : option (CycleState * Status) :=
  Some (Write st fitStateKey (SiteResFilterState (calculateStackResourceRequest w stack)), None).

(** The first flavor with room is requested (siteresources/fit.go:167-186 Filter). *)
Fixpoint fit_flavor (flvs : list Flavor) (count : Z) (n : SiteCacheInfo) : option SiteCacheInfo :=
  match flvs with
  | [] => None
  | flv :: flvs =>
      let priced := match Flavor_Spot flv with Some spot => negb (String.eqb (MaxPrice spot) "") | None => false end in
      match AllocatableFlavor n !! FlavorID flv with
      | Some totalCount =>
          let requestedCount := default 0 (RequestedFlavor n !! FlavorID flv) in
          if negb priced && (count <? wrap64 (totalCount - requestedCount)) then
            Some (mkSiteCacheInfo (SCI_Site n) (RequestedResources n) (TotalResources n) (RequestedStorage n) (TotalStorage n)
              (<[FlavorID flv := wrap64 (requestedCount + count)]> (RequestedFlavor n)) (AllocatableFlavor n)
              (AllocatableSpotFlavor n) (stacks n) (eipPool n) (Qos n) (generation n))
          else fit_flavor flvs count n
      | None => fit_flavor flvs count n
      end
  end.

(** What was requested before a failure stays requested; the map of requested flavors
    must not be nil (siteresources/fit.go:164-196 Filter). *)
Fixpoint fit_all (infos : list FlavorInfos) (n : SiteCacheInfo) : option (SiteCacheInfo * Status) :=
  match infos with
  | [] => Some (n, None)
  | flvs :: infos =>
      match fit_flavor (Fit_Flavors flvs) (Fit_Count flvs) n with
      | Some n => fit_all infos n
      | None => site ← GetSite n; Some (n, NewStatus Unschedulable ["Site (" +:+ SiteID site +:+ ") do not support required flavor."])
      end
  end.

(** (siteresources/fit.go:158-199 Filter) *)
Definition Fit_Filter (ctx : Context_) (w : World) (st : CycleState) (stack : Stack) (n : SiteCacheInfo) :
    option (CycleState * SiteCacheInfo * Status) :=
  match Read st fitStateKey with
  | Err e => Some (st, n, NewStatus Error ["error reading PreFilterSiteResourcesFit from cycleState: " +:+ e])
  | Ok (SiteResFilterState s) => '(n, status) ← fit_all s n; Some (st, n, status)
  | Ok _ => Some (st, n, NewStatus Error ["convert to SiteResourcesFit.preFilterState error"%string])
  end.

Definition FitPlugin : Plugin := mkPlugin (Some Fit_PreFilter) (Some Fit_Filter) None None None None None.

(** ** Least allocation *)

(** The type is looked for only when the flavor is not found; its region is then read
    through a nil pointer (siteresources/resource_allocation.go:90-106). *)
Definition getResourceType (w : World) (flavorID : string) (n : SiteCacheInfo) : option string :=
  site ← GetSite n;
  match FlavorCache_GetFlavor w flavorID (RA_Region (Site_RegionAzMap site)) with
  | Some _ => Some ""%string
  | None => match Hosts site with [] => Some ""%string | _ => None end
  end.

(** The sum over the entries that list the resource type
    (siteresources/resource_allocation.go:117-122 calculateCpuAllocatableRequest). *)
Definition sum_of_type (field : CPUAndMemory -> Z) (resourceType : string) (m : gmap string CPUAndMemory) (acc : Z) : Z :=
  foldl (fun acc e => if IsContain (strings_Split e.1 FlavorDelimiter) resourceType then wrap64 (acc + field e.2) else acc) acc (range _ m).

(** For every flavor of the request, the totals and the requests of its type
    (siteresources/resource_allocation.go:108-133 calculateCpuAllocatableRequest). *)
Fixpoint allocatable_request (w : World) (field : CPUAndMemory -> Z) (n : SiteCacheInfo) (flvs : list Flavor) (acc : Z * Z) : option (Z * Z) :=
  match flvs with
  | [] => Some acc
  | flv :: flvs =>
      resourceType ← getResourceType w (FlavorID flv) n;
      allocatable_request w field n flvs
        (sum_of_type field resourceType (TotalResources n) acc.1, sum_of_type field resourceType (RequestedResources n) acc.2)
  end.

(** (siteresources/resource_allocation.go:108-133) *)
Definition calculateCpuAllocatableRequest (w : World) (n : SiteCacheInfo) (stack : Stack) : option (Z * Z) :=
  allocatable_request w VCPU n (calculateStackResourceRequest w stack ≫= Fit_Flavors) (0, 0).
(** (siteresources/resource_allocation.go:135-159) *)
Definition calculateMemoryAllocatableRequest (w : World) (n : SiteCacheInfo) (stack : Stack) : option (Z * Z) :=
  allocatable_request w Memory n (calculateStackResourceRequest w stack ≫= Fit_Flavors) (0, 0).

(** (siteresources/resource_allocation.go:75-88 calculateStackStorageRequest) *)
Definition storage_request (stack : Stack) : gmap string Z :=
  foldl (fun ret server => foldl (fun ret '(volType, size) =>
    let ret := if bool_decide (is_Some (ret !! volType)) then <[volType := 0]> ret else ret in
    <[volType := wrap64 (default 0 (ret !! volType) + size)]> ret) ret (range _ (Storage server))) ∅ (Resources stack).

(** (siteresources/resource_allocation.go:161-175) *)
Definition calculateStorageAllocatableRequest (n : SiteCacheInfo) (stack : Stack) : Z * Z :=
  foldl (fun '(allocatable, requested) '(volType, size) =>
    let allocatable := match TotalStorage n !! volType with Some v => wrap64 (allocatable + int64_of_float v) | None => allocatable end in
    let requested := match RequestedStorage n !! volType with Some v => wrap64 (requested + int64_of_float v) | None => requested end in
    (allocatable, wrap64 (requested + size))) (0, 0) (range _ (storage_request stack)).

(** (siteresources/least_allocated.go:82-91) *)
Definition leastRequestedScore (requested capacity : Z) : Z :=
  if capacity =? 0 then 0
  else if capacity <? requested then 0
  else Z.quot (wrap64 (wrap64 (capacity - requested) * MaxSiteScore)) capacity.

(** The weights are those of memory, processors, storage and addresses; the last has
    no capacity (siteresources/least_allocated.go:68-77). *)
Definition leastResourceScorer (memory cpu storage : Z * Z) : Z :=
  Z.quot (wrap64 (leastRequestedScore memory.2 memory.1 * 10 + leastRequestedScore cpu.2 cpu.1 * 10
    + leastRequestedScore storage.2 storage.1 * 5 + leastRequestedScore 0 0 * 1)) 26.

(** (siteresources/resource_allocation.go:49-73 score) *)
Definition LeastAllocated_Score (w : World) (st : CycleState) (stack : Stack) (n : option SiteCacheInfo) : option (CycleState * Z * Status) :=
  match n ≫= GetSite with
  | None => Some (st, 0, NewStatus Error ["site not found"%string])
  | Some _ =>
      n ← n;
      cpu ← calculateCpuAllocatableRequest w n stack;
      memory ← calculateMemoryAllocatableRequest w n stack;
      Some (st, leastResourceScorer memory cpu (calculateStorageAllocatableRequest n stack), None)
  end.

Definition LeastAllocatedPlugin : Plugin := mkPlugin None None None (Some LeastAllocated_Score) None None None.

End Plugins.

(** ** Affinity *)

(** The selector of the requirements, or the first error
    (stackaffinity/stackaffinity.go:45-55 getAffinityScore). *)
Fixpoint affinity_selector (affs : list LabelRequirement) (selector : internalSelector) : result internalSelector :=
  match affs with
  | [] => Ok selector
  | aff :: affs =>
      match NewRequirement (LR_Key aff) (LR_Operator aff) (StrValues aff) with
      | Err e => Err "requirement failed."
      | Ok r => affinity_selector affs (Selector_Add selector [r])
      end
  end.

(** (stackaffinity/stackaffinity.go:44-70) *)
Definition getAffinityScore (stack : Stack) (n : SiteCacheInfo) : Z * Status :=
  match affinity_selector (StackAffinity (Stack_Selector stack)) NewSelector with
  | Err e => (0, NewStatus Error [e])
  | Ok selector =>
      if Nat.eqb (length (Stacks n)) 0 || Selector_Empty selector then (0, None)
      else (if existsb (fun s => Selector_Matches selector (Labels s)) (Stacks n) then MaxSiteScore else 0, None)
  end.

(** (stackaffinity/stackaffinity.go:72-96) *)
Definition getAntiAffinityScore (stack : Stack) (n : SiteCacheInfo) : Z * Status :=
  match affinity_selector (StackAntiAffinity (Stack_Selector stack)) NewSelector with
  | Err e => (0, NewStatus Error [e])
  | Ok selector =>
      if Nat.eqb (length (Stacks n)) 0 || Selector_Empty selector then (MaxSiteScore, None)
      else (if existsb (fun s => Selector_Matches selector (Labels s)) (Stacks n) then 0 else MaxSiteScore, None)
  end.

(** (stackaffinity/stackaffinity.go:99-119 Score) *)
Definition StackAffinity_Score (w : World) (st : CycleState) (stack : Stack) (n : option SiteCacheInfo) : option (CycleState * Z * Status) :=
  match n with
  | Some n =>
      match GetSite n with
      | None => Some (st, 0, NewStatus Error ["site not found"%string])
      | Some _ =>
          let '(affinityScore, status) := getAffinityScore stack n in
          match status with
          | Some _ => Some (st, 0, status)
          | None =>
              let '(antiaffinityScore, status) := getAntiAffinityScore stack n in
              match status with
              | Some _ => Some (st, 0, status)
              | None => Some (st, Z.quot (affinityScore + antiaffinityScore) 2, None)
              end
          end
      end
  | None => Some (st, 0, NewStatus Error ["site not found"%string])
  end.

Definition StackAffinityPlugin : Plugin := mkPlugin None None None (Some StackAffinity_Score) None None None.
