(* ===== verification/Strategy.v ===== *)
(** * The strategies

    Models the strategy functions of
    [framework/plugins/locationandoperator/locationandoperator.go] and
    [framework/plugins/regionandaz/regionandaz.go]: how the replicas of an allocation are
    divided among the sites that passed the filters, by the number of stacks each can host.
    The theorems show that the centralised strategy hands out exactly the replicas asked
    for, within what each site can host, whenever the sites together can host them; that
    the discrete strategy can hand out too few although they can; and that the region
    strategy keeps exactly the sites of one region that suffices. *)
From S2P Require Import Prelude Types Strconv SiteTree SiteCacheInfo Cache Labels Framework Floats Plugins.

Local Open Scope Z_scope.

Definition StrategyCentralize : string := "centralize".
Definition StrategyRegionAlone : string := "alone".

(** ** Location strategy *)

(** The total over the sites that have a state
    (locationandoperator/locationandoperator.go:124-132 Strategy). *)
Fixpoint total_count (st : CycleState) (sites : list SiteScore) (total : Z) : Z :=
  match sites with
  | [] => total
  | s :: sites =>
      match GetSiteSelectorState st (SS_SiteID s) with
      | Err _ => total_count st sites total
      | Ok info => total_count st sites (wrap64 (total + StackMaxCount info))
      end
  end.

(** (locationandoperator/locationandoperator.go:140-154 Strategy) *)
Fixpoint centralize (st : CycleState) (sites : list SiteScore) (count : Z) : list SiteScore :=
  match sites with
  | [] => []
  | s :: sites =>
      match GetSiteSelectorState st (SS_SiteID s) with
      | Err _ => centralize st sites count
      | Ok info =>
          let stackCount := int64_of_float (math_Min (float_of_Z count) (float_of_Z (StackMaxCount info))) in
          let count := wrap64 (count - stackCount) in
          set_count s stackCount :: (if count <=? 0 then [] else centralize st sites count)
      end
  end.

(** The share of one site (locationandoperator/locationandoperator.go:163-167 Strategy). *)
Definition discrete_share (count total maxCount : Z) : Z :=
  let half := fdiv (float_of_Z 1) (float_of_Z 2) in
  let share := math_Max (math_Floor (fadd (fdiv (fmul (float_of_Z count) (float_of_Z maxCount)) (float_of_Z total)) half)) (float_of_Z 1) in
  int64_of_float (math_Min share (float_of_Z maxCount)).

(** (locationandoperator/locationandoperator.go:156-175 Strategy) *)
Fixpoint discrete (st : CycleState) (sites : list SiteScore) (count total currentCount : Z) : list SiteScore :=
  match sites with
  | [] => []
  | s :: sites =>
      match GetSiteSelectorState st (SS_SiteID s) with
      | Err _ => discrete st sites count total currentCount
      | Ok info =>
          let stackCount := discrete_share count total (StackMaxCount info) in
          let currentCount := wrap64 (currentCount - stackCount) in
          set_count s stackCount :: (if currentCount <=? 0 then [] else discrete st sites count total currentCount)
      end
  end.

(** (locationandoperator/locationandoperator.go:117-178 Strategy) *)
Definition LocationAndOperator_Strategy (w : World) (st : CycleState) (allocations : Allocation) (siteScoreList : list SiteScore) :
    option (list SiteScore * Status) :=
  let count := Replicas allocations in
  let totalCount := total_count st siteScoreList 0 in
  if totalCount <? count then Some ([], NewStatus Unschedulable ["not find host"%string])
  else if String.eqb (LocationStrategy (Sel_Strategy (Allocation_Selector allocations))) StrategyCentralize
  then Some (centralize st siteScoreList count, None)
  else Some (discrete st siteScoreList count totalCount count, None).

Definition LocationAndOperatorPlugin : Plugin :=
  mkPlugin None (Some (pure_filter LocationAndOperator_check)) None None None (Some LocationAndOperator_Strategy) None.

(** ** Region strategy *)

(** (regionandaz/regionandaz.go:39-42) *)
Record RegionMap := mkRegionMap { rm_count : Z; rm_siteScoreList : list SiteScore }.

(** The sites by region (regionandaz/regionandaz.go:103-124 Strategy). *)
Fixpoint group_regions (w : World) (st : CycleState) (sites : list SiteScore) (regionMap : gmap string RegionMap) : option (gmap string RegionMap) :=
  match sites with
  | [] => Some regionMap
  | s :: sites =>
      match GetSiteSelectorState st (SS_SiteID s), Snapshot_Get (w_snapshot w) (SS_SiteID s) with
      | Ok info, Ok n =>
          site ← GetSite n;
          let region := RA_Region (Site_RegionAzMap site) in
          let tempRegion := default (mkRegionMap 0 []) (regionMap !! region) in
          group_regions w st sites
            (<[region := mkRegionMap (wrap64 (rm_count tempRegion + StackMaxCount info)) (rm_siteScoreList tempRegion ++ [s])]> regionMap)
      | _, _ => group_regions w st sites regionMap
      end
  end.

(** The region with the greatest count that suffices, the first such in the order of
    the map (regionandaz/regionandaz.go:126-137 Strategy). *)
Definition best_region (replicas : Z) (entries : list (string * RegionMap)) : string * Z :=
  foldl (fun '(finalRegion, maxCount) '(region, info) =>
    if rm_count info <? replicas then (finalRegion, maxCount)
    else if maxCount <? rm_count info then (region, rm_count info)
    else (finalRegion, maxCount)) (""%string, 0) entries.

Section Strategy.
Context (range : forall A : Type, gmap string A -> list (string * A)).

(** (regionandaz/regionandaz.go:95-145 Strategy) *)
Definition RegionAndAz_Strategy (w : World) (st : CycleState) (allocations : Allocation) (siteScoreList : list SiteScore) :
    option (list SiteScore * Status) :=
  if negb (String.eqb (RegionStrategy (Sel_Strategy (Allocation_Selector allocations))) StrategyRegionAlone) then Some (siteScoreList, None)
  else
    regionMap ← group_regions w st siteScoreList ∅;
    let finalRegion := (best_region (Replicas allocations) (range _ regionMap)).1 in
    if String.eqb finalRegion "" then Some ([], NewStatus Unschedulable ["region Capability cannot meet the needs"%string])
    else Some (default [] (rm_siteScoreList <$> regionMap !! finalRegion), None).

Definition RegionAndAzPlugin : Plugin :=
  mkPlugin None (Some (pure_filter RegionAndAz_check)) None None None (Some RegionAndAz_Strategy) None.
End Strategy.

(** ** What the strategies hand out *)

(** The number of stacks the cycle state allows on a site. *)
Definition cap (st : CycleState) (s : SiteScore) : option Z :=
  match GetSiteSelectorState st (SS_SiteID s) with Ok info => Some (StackMaxCount info) | Err _ => None end.

Definition caps_sum (st : CycleState) (sites : list SiteScore) : Z := foldr (fun s acc => default 0 (cap st s) + acc) 0 sites.
Fixpoint counts_sum (sites : list SiteScore) : Z := match sites with [] => 0 | s :: sites => StackCount s + counts_sum sites end.

(** Counts that are small enough for exact floating point. *)
Definition small_caps (st : CycleState) (sites : list SiteScore) : Prop :=
  (forall s c, s ∈ sites -> cap st s = Some c -> 0 <= c < 2 ^ 53) ∧ caps_sum st sites < 2 ^ 53.

(** [l] gives some of the sites, in their order, a count within their capacity. *)
Inductive within (st : CycleState) : list SiteScore -> list SiteScore -> Prop :=
  | within_nil sites : within st sites []
  | within_skip s sites l : within st sites l -> within st (s :: sites) l
  | within_take s sites l c k : cap st s = Some c -> 0 <= k <= c -> within st sites l ->
      within st (s :: sites) (set_count s k :: l).

Lemma small_caps_cons st s sites : small_caps st (s :: sites) -> small_caps st sites ∧ 0 <= default 0 (cap st s) < 2 ^ 53 ∧ 0 <= caps_sum st sites.
Proof.
  intros [Hb Hsum]. assert (forall l, (forall s c, s ∈ l -> cap st s = Some c -> 0 <= c < 2 ^ 53) -> 0 <= caps_sum st l) as Hpos.
  { intros l. induction l as [|x l IH]; intros Hl; simpl; [done|]. assert (0 <= caps_sum st l) by (apply IH; intros ? ? ?; apply Hl; by right).
    unfold caps_sum in *. destruct (cap st x) as [c|] eqn:Hc; simpl; [specialize (Hl x c (list_elem_of_here _ _) Hc)|]; lia. }
  assert (0 <= default 0 (cap st s) < 2 ^ 53) by (destruct (cap st s) as [c|] eqn:Hc; simpl; [apply (Hb s c (list_elem_of_here _ _) Hc)|lia]).
  assert (0 <= caps_sum st sites) by (apply Hpos; intros ? ? ?; apply Hb; by right).
  split_and!; [split; [intros ? ? ?; apply Hb; by right|]|lia|lia|done]. unfold caps_sum in *. simpl in Hsum. lia.
Qed.

Lemma total_count_spec st sites : forall acc, small_caps st sites -> 0 <= acc -> acc + caps_sum st sites <= MaxInt64 ->
  total_count st sites acc = acc + caps_sum st sites.
Proof.
  induction sites as [|s sites IH]; intros acc Hs Hacc Hsum; simpl; [lia|]. destruct (small_caps_cons st s sites Hs) as (Hs' & Hc & Hpos).
  unfold caps_sum in *. simpl in Hsum. unfold cap in *. destruct (GetSiteSelectorState st (SS_SiteID s)) as [info|]; simpl in *.
  - rewrite wrap64_id by int64. rewrite IH; [lia|done|lia|lia].
  - apply IH; [done|lia|lia].
Qed.

Lemma centralize_spec st sites : forall count, small_caps st sites -> 0 <= count <= caps_sum st sites ->
  within st sites (centralize st sites count) ∧ counts_sum (centralize st sites count) = count.
Proof.
  induction sites as [|s sites IH]; intros count Hs Hcount; simpl in *; [split; [constructor|lia]|].
  destruct (small_caps_cons st s sites Hs) as (Hs' & Hc & Hpos). assert (caps_sum st (s :: sites) < 2 ^ 53) as Hsum by apply Hs. unfold caps_sum in Hsum, Hcount. simpl in Hsum.
  fold (caps_sum st sites) in Hsum, Hcount. unfold cap in Hsum, Hcount, Hc. destruct (GetSiteSelectorState st (SS_SiteID s)) as [info|] eqn:Hst; simpl in *.
  - rewrite math_Min_exact, int_of_float by lia. set (k := Z.min count (StackMaxCount info)). rewrite wrap64_id by (unfold k; int64).
    assert (cap st s = Some (StackMaxCount info)) as Hcap by (unfold cap; by rewrite Hst).
    destruct (Z.leb_spec (count - k) 0) as [Hle|Hgt].
    + split; [eapply within_take; [exact Hcap|unfold k; lia|constructor]|]. unfold counts_sum. simpl. unfold k in *. lia.
    + destruct (IH (count - k)) as [Hw Hsum']; [done|unfold k in *; lia|].
      split; [eapply within_take; [exact Hcap|unfold k; lia|exact Hw]|]. unfold counts_sum in *. simpl. lia.
  - destruct (IH count) as [Hw ?]; [done|lia|]. split; [by apply within_skip|done].
Qed.

Lemma discrete_share_bounds count total m : 0 <= count < 2 ^ 53 -> 0 < total < 2 ^ 53 -> 0 <= m < 2 ^ 53 ->
  Z.min 1 m <= discrete_share count total m <= m.
Proof. intros Hc Ht Hm. apply share_bounds; [|done]. apply fadd_half_nonneg, fdiv_nonneg; [by apply fmul_nonneg|done]. Qed.

Lemma discrete_spec st sites count total : 0 <= count < 2 ^ 53 -> 0 < total < 2 ^ 53 -> forall current, small_caps st sites -> 0 <= current < 2 ^ 53 ->
  within st sites (discrete st sites count total current) ∧ 0 <= counts_sum (discrete st sites count total current) ∧
  (current = 1 -> 1 <= caps_sum st sites -> 1 <= counts_sum (discrete st sites count total current)).
Proof.
  intros Hcount Htotal. induction sites as [|s sites IH]; intros current Hs Hcur; simpl; [split_and!; [constructor|done|unfold caps_sum; simpl; lia]|].
  destruct (small_caps_cons st s sites Hs) as (Hs' & Hc & Hpos). unfold caps_sum. simpl. fold (caps_sum st sites). unfold cap in Hc |- *.
  destruct (GetSiteSelectorState st (SS_SiteID s)) as [info|] eqn:Hst; simpl in *; [|destruct (IH current) as (Hw & ? & ?); [done|done|]; split_and!; [by apply within_skip|done|auto]].
  pose proof (discrete_share_bounds count total (StackMaxCount info) Hcount Htotal Hc) as Hk. set (k := discrete_share _ _ _) in *.
  assert (cap st s = Some (StackMaxCount info)) as Hcap by (unfold cap; by rewrite Hst). rewrite wrap64_id by int64.
  destruct (Z.leb_spec (current - k) 0) as [Hle|Hgt].
  - unfold counts_sum. simpl. split_and!; [eapply within_take; [exact Hcap|lia|constructor]|lia|lia].
  - destruct (IH (current - k)) as (Hw & H0 & H1); [done|lia|]. unfold counts_sum in *. simpl.
    split_and!; [eapply within_take; [exact Hcap|lia|exact Hw]|lia|]. intros -> Hsum. assert (k = 0) as Hk0 by lia. rewrite Hk0 in *. simpl in *.
    assert (StackMaxCount info = 0) by lia. specialize (H1 eq_refl ltac:(lia)). lia.
Qed.

Lemma location_strategy_spec (w : World) (st : CycleState) (alloc : Allocation) (sites : list SiteScore)
  (Hs : small_caps st sites) (Hr : 1 <= Replicas alloc) :
  (caps_sum st sites < Replicas alloc ->
     LocationAndOperator_Strategy w st alloc sites = Some ([], NewStatus Unschedulable ["not find host"%string])) ∧
  (Replicas alloc <= caps_sum st sites ->
     ∃ l, LocationAndOperator_Strategy w st alloc sites = Some (l, None) ∧ within st sites l ∧
       (LocationStrategy (Sel_Strategy (Allocation_Selector alloc)) = StrategyCentralize -> counts_sum l = Replicas alloc) ∧
       (Replicas alloc = 1 -> 1 <= counts_sum l)).
Proof.
  assert (caps_sum st sites < 2 ^ 53) as Hsum by apply Hs. unfold LocationAndOperator_Strategy.
  rewrite total_count_spec by (first [done | int64]). rewrite Z.add_0_l. split; intros Hc.
  - by rewrite (proj2 (Z.ltb_lt _ _) Hc).
  - rewrite (proj2 (Z.ltb_ge _ _)) by lia. destruct (String.eqb_spec (LocationStrategy (Sel_Strategy (Allocation_Selector alloc))) StrategyCentralize) as [Heq|Hne].
    + destruct (centralize_spec st sites (Replicas alloc)) as [Hw Hn]; [done|lia|]. eexists. split_and!; [done|done|done|lia].
    + destruct (discrete_spec st sites (Replicas alloc) (caps_sum st sites) ltac:(lia) ltac:(lia) (Replicas alloc)) as (Hw & _ & H1); [done|lia|].
      eexists. split_and!; [done|done|done|]. intros Heq. apply H1; lia.
Qed.

(** C34.  The location strategy fails exactly when the sites together cannot host the
    replicas asked for.  Otherwise it gives some of the sites, in the order it got them, a
    number of stacks between 0 and what the site can host.  Centralised, these numbers add
    up to exactly the replicas asked for; and a single replica is always given a site. *)
Theorem location_strategy_divides (w : World) (st : CycleState) (alloc : Allocation) (sites : list SiteScore)
  (Hs : small_caps st sites) (Hr : 1 <= Replicas alloc) :
  (caps_sum st sites < Replicas alloc ->
     LocationAndOperator_Strategy w st alloc sites = Some ([], NewStatus Unschedulable ["not find host"%string])) ∧
  (Replicas alloc <= caps_sum st sites ->
     ∃ l, LocationAndOperator_Strategy w st alloc sites = Some (l, None) ∧ within st sites l ∧
       (LocationStrategy (Sel_Strategy (Allocation_Selector alloc)) = StrategyCentralize -> counts_sum l = Replicas alloc) ∧
       (Replicas alloc = 1 -> 1 <= counts_sum l)).
Proof. by apply location_strategy_spec. Qed.

Definition demo_score (id : string) : SiteScore := mkSiteScore id "" "" 0 0.
Definition demo_caps (l : list (string * Z)) : CycleState :=
  {[SiteTempSelectorKey := SiteSelectorInfos (list_to_map ((fun '(id, n) => (id, mkSelectorInfo [] [] n)) <$> l))]}.
Definition demo_allocation (location region : string) (replicas : Z) : Allocation :=
  mkAllocation "id" (mkStack "p" ∅ [] no_selector no_selected "u" 0 "t" "n")
    (mkSelector no_geo [] "" "" (mkStrategy location region) [] []) replicas.
Definition demo_empty_world : World := mkWorld NewEmptySnapshot (newSchedulerCache 0) ∅ ∅ [].

Lemma demo_caps_small l sites : (forall id n, (id, n) ∈ l -> 0 <= n < 2 ^ 53) -> caps_sum (demo_caps l) sites < 2 ^ 53 -> small_caps (demo_caps l) sites.
Proof.
  intros Hl Hsum. split; [|done]. intros s c _. unfold cap, GetSiteSelectorState, Read, demo_caps. rewrite lookup_singleton_eq. simpl.
  destruct (list_to_map _ !! SS_SiteID s) as [info|] eqn:Hi; simpl; [|done]. intros [= <-].
  apply elem_of_list_to_map_2 in Hi. apply list_elem_of_fmap in Hi as ([id n] & [= _ ->] & Hn). apply (Hl id n Hn).
Qed.

Lemma location_strategy_divides_witness :
  LocationAndOperator_Strategy demo_empty_world (demo_caps [("a"%string, 3); ("b"%string, 4)]) (demo_allocation StrategyCentralize "" 8)
    [demo_score "a"; demo_score "b"] = Some ([], NewStatus Unschedulable ["not find host"%string]) ∧
  ∃ l, LocationAndOperator_Strategy demo_empty_world (demo_caps [("a"%string, 3); ("b"%string, 4)]) (demo_allocation StrategyCentralize "" 5)
    [demo_score "a"; demo_score "b"] = Some (l, None) ∧ counts_sum l = 5.
Proof.
  assert (small_caps (demo_caps [("a"%string, 3); ("b"%string, 4)]) [demo_score "a"; demo_score "b"]) as Hs.
  { apply demo_caps_small; [|reflexivity]. intros id n. rewrite !elem_of_cons, elem_of_nil. intros [[= -> ->]|[[= -> ->]|[]]]; lia. }
  split.
  - refine (proj1 (location_strategy_divides _ _ _ _ Hs _) _); [discriminate|reflexivity].
  - destruct (proj2 (location_strategy_divides demo_empty_world _ (demo_allocation StrategyCentralize "" 5) _ Hs ltac:(discriminate)) ltac:(discriminate)) as (l & H1 & _ & H2 & _).
    exists l. split; [exact H1|apply H2; reflexivity].
Defined.

(** The discrete strategy can hand out too few stacks: three sites that can host a
    hundred stacks each are given three each when ten are asked for.  (Each share is
    rounded to the nearest integer and nothing is added for what the rounding loses.) *)
Theorem discrete_strategy_falls_short (w : World) :
  ∃ l, LocationAndOperator_Strategy w (demo_caps [("a"%string, 100); ("b"%string, 100); ("c"%string, 100)]) (demo_allocation "discrete" "" 10)
    [demo_score "a"; demo_score "b"; demo_score "c"] = Some (l, None) ∧ StackCount <$> l = [3; 3; 3].
Proof. eexists. split; [vm_compute; reflexivity|reflexivity]. Qed.

(** ** The region strategy *)

(** The region of a site of the snapshot. *)
Definition region_of (w : World) (s : SiteScore) : option string :=
  match Snapshot_Get (w_snapshot w) (SS_SiteID s) with Ok n => RA_Region ∘ Site_RegionAzMap <$> GetSite n | Err _ => None end.
Definition in_region (w : World) (st : CycleState) (r : string) (s : SiteScore) : Prop := is_Some (cap st s) ∧ region_of w s = Some r.
#[export] Instance in_region_dec w st r s : Decision (in_region w st r s).
Proof. unfold in_region. apply _. Defined.
Abbreviation members w st r sites := (filter (in_region w st r) sites).

(** Every information of the snapshot has its site. *)
Definition sited (w : World) : Prop := forall id n, Snapshot_Get (w_snapshot w) id = Ok n -> is_Some (GetSite n).

(** [m] has an entry for each region of the sites [pre], with its sites and their sum. *)
Definition grouped (w : World) (st : CycleState) (pre : list SiteScore) (m : gmap string RegionMap) : Prop :=
  forall r, m !! r = match members w st r pre with [] => None | l => Some (mkRegionMap (caps_sum st l) l) end.

Lemma caps_sum_app st l l' : caps_sum st (l ++ l') = caps_sum st l + caps_sum st l'.
Proof. unfold caps_sum. induction l as [|x l IH]; simpl; [done|]. lia. Qed.

Lemma small_caps_app st l l' : small_caps st (l ++ l') -> small_caps st l.
Proof.
  intros [Hb Hsum]. split; [intros s c Hs; apply Hb, elem_of_app; by left|]. rewrite caps_sum_app in Hsum.
  assert (0 <= caps_sum st l'); [|lia]. assert (forall s c, s ∈ l' -> cap st s = Some c -> 0 <= c) as Hp by (intros s c Hs Hc; apply (Hb s c); [apply elem_of_app; by right|done]).
  clear Hb Hsum. unfold caps_sum. induction l' as [|x l' IH]; simpl; [done|]. assert (0 <= default 0 (cap st x)) by (destruct (cap st x) as [c|] eqn:Hc; simpl; [apply (Hp x c (list_elem_of_here _ _) Hc)|lia]).
  specialize (IH (fun s c Hs => Hp s c (list_elem_of_further _ _ _ Hs))). lia.
Qed.

Lemma small_caps_members w st r sites : small_caps st sites -> 0 <= caps_sum st (members w st r sites) <= caps_sum st sites.
Proof.
  induction sites as [|s sites IH]; intros Hs; [done|]. destruct (small_caps_cons _ _ _ Hs) as (Hs' & Hc & _). specialize (IH Hs').
  rewrite filter_cons. destruct (decide _); unfold caps_sum in *; simpl; lia.
Qed.

Lemma group_regions_spec w st sites : sited w -> forall pre m, small_caps st (pre ++ sites) -> grouped w st pre m ->
  ∃ m', group_regions w st sites m = Some m' ∧ grouped w st (pre ++ sites) m'.
Proof.
  intros Hw. induction sites as [|s sites IH]; intros pre m Hs Hm; simpl; [exists m; by rewrite app_nil_r|].
  assert (forall m', grouped w st (pre ++ [s]) m' -> ∃ m'', group_regions w st sites m' = Some m'' ∧ grouped w st (pre ++ s :: sites) m'') as Hstep.
  { intros m' Hm'. destruct (IH (pre ++ [s]) m') as (m'' & ? & ?); [by rewrite <-app_assoc|done|]. exists m''. by rewrite <-app_assoc in *. }
  assert ((forall r, ¬ in_region w st r s) -> grouped w st (pre ++ [s]) m) as Hskip.
  { intros Hno r. rewrite filter_app, filter_cons_False, app_nil_r by apply Hno. apply Hm. }
  destruct (GetSiteSelectorState st (SS_SiteID s)) as [info|] eqn:Hst; [|apply Hstep, Hskip; intros r [[? Hc] _]; unfold cap in Hc; by rewrite Hst in Hc].
  destruct (Snapshot_Get (w_snapshot w) (SS_SiteID s)) as [n|] eqn:Hn; [|apply Hstep, Hskip; intros r [_ Hr]; unfold region_of in Hr; by rewrite Hn in Hr].
  destruct (Hw _ _ Hn) as [site Hsite]. rewrite Hsite. bind_simpl. apply Hstep. clear Hstep Hskip IH. intros r.
  assert (cap st s = Some (StackMaxCount info)) as Hcap by (unfold cap; by rewrite Hst).
  assert (region_of w s = Some (RA_Region (Site_RegionAzMap site))) as Hreg by (unfold region_of; by rewrite Hn, Hsite).
  assert (small_caps st (pre ++ [s])) as Hs1 by (apply (small_caps_app st (pre ++ [s]) sites); by rewrite <-app_assoc).
  pose proof (small_caps_members w st r _ Hs1) as Hbound. destruct Hs1 as [_ Hs1].
  rewrite filter_app in Hbound |- *. destruct (decide (r = RA_Region (Site_RegionAzMap site))) as [->|Hne].
  - rewrite lookup_insert_eq, filter_cons_True in * by (split; [by eexists|done]). rewrite Hm. rewrite caps_sum_app in Hbound.
    rewrite filter_nil in *.
    assert (caps_sum st [s] = StackMaxCount info) as Hone by (unfold caps_sum; simpl; rewrite Hcap; simpl; lia). rewrite Hone in Hbound.
    destruct (members w st _ pre) as [|x l]; cbn [app default from_option Datatypes.id rm_count rm_siteScoreList].
    + rewrite wrap64_id by (change (caps_sum st []) with 0 in Hbound; int64). rewrite Hone. by rewrite Z.add_0_l.
    + rewrite wrap64_id by int64. f_equal. f_equal. change (x :: l ++ [s]) with ((x :: l) ++ [s]). by rewrite caps_sum_app, Hone.
  - rewrite lookup_insert_ne by done. rewrite filter_cons_False, filter_nil, app_nil_r by (intros [_ Hr]; rewrite Hreg in Hr; congruence). apply Hm.
Qed.

(** What the scan of the regions has found. *)
Definition best_so_far (replicas : Z) (seen : list (string * RegionMap)) (res : string * Z) : Prop :=
  (res = (""%string, 0) ∧ (forall e, e ∈ seen -> rm_count e.2 < replicas)) ∨
  (∃ info, (res.1, info) ∈ seen ∧ rm_count info = res.2 ∧ replicas <= res.2 ∧ (forall e, e ∈ seen -> rm_count e.2 <= res.2)).

Lemma best_region_spec replicas entries : 1 <= replicas -> best_so_far replicas entries (best_region replicas entries).
Proof.
  intros Hr. unfold best_region. assert (best_so_far replicas [] (""%string, 0)) as H0 by (left; split; [done|]; intros e He; by apply elem_of_nil in He).
  change entries with ([] ++ entries) at 1. generalize dependent (""%string, 0). generalize (@nil (string * RegionMap)) as seen.
  induction entries as [|[r info] entries IH]; intros seen [fr mc] Hseen; simpl; [by rewrite app_nil_r|].
  replace (seen ++ (r, info) :: entries) with ((seen ++ [(r, info)]) ++ entries) by by rewrite <-app_assoc.
  apply IH. clear IH.
  assert (forall P : string * RegionMap -> Prop, (forall e, e ∈ seen -> P e) -> P (r, info) -> forall e, e ∈ seen ++ [(r, info)] -> P e) as Hall
    by (intros P H1 H2 e [He| ->%list_elem_of_singleton]%elem_of_app; auto).
  destruct Hseen as [[[= -> ->] Hlt]|(i & Hin & Hi & Hle & Hmax)]; simpl in *.
  - destruct (Z.ltb_spec (rm_count info) replicas) as [Hc|Hc]; [left; split; [done|]; by apply Hall|].
    rewrite (proj2 (Z.ltb_lt _ _)) by lia. right. exists info. simpl. split_and!; [apply elem_of_app; right; by apply list_elem_of_singleton|done|done|].
    apply Hall; [intros e He; specialize (Hlt e He); lia|done].
  - assert ((fr, i) ∈ seen ++ [(r, info)]) as Hin' by (apply elem_of_app; by left).
    destruct (Z.ltb_spec (rm_count info) replicas) as [Hc|Hc]; [right; exists i; split_and!; [done|done|done|]; apply Hall; [done|simpl; lia]|].
    destruct (Z.ltb_spec mc (rm_count info)) as [Hc'|Hc'].
    + right. exists info. simpl. split_and!; [apply elem_of_app; right; by apply list_elem_of_singleton|done|lia|].
      apply Hall; [intros e He; specialize (Hmax e He); lia|done].
    + right. exists i. split_and!; [done|done|done|]. by apply Hall.
Qed.

(** With the region strategy "alone" and every region named, the strategy keeps exactly
    the sites of one region, in their order: a region that can host all replicas, and that
    can host the most of all regions.  It fails exactly when no region can host them. *)
Theorem region_strategy_keeps_one_region (range : forall A : Type, gmap string A -> list (string * A)) (w : World) (st : CycleState)
  (alloc : Allocation) (sites : list SiteScore) (Hrange : forall A (m : gmap string A), range A m ≡ₚ map_to_list m)
  (Hw : sited w) (Hs : small_caps st sites) (Hr : 1 <= Replicas alloc) (Hnamed : forall s, s ∈ sites -> region_of w s <> Some ""%string)
  (Halone : RegionStrategy (Sel_Strategy (Allocation_Selector alloc)) = StrategyRegionAlone) :
  ((forall r, caps_sum st (members w st r sites) < Replicas alloc) ∧
     RegionAndAz_Strategy range w st alloc sites = Some ([], NewStatus Unschedulable ["region Capability cannot meet the needs"%string])) ∨
  (∃ r, Replicas alloc <= caps_sum st (members w st r sites) ∧
     (forall r', caps_sum st (members w st r' sites) <= caps_sum st (members w st r sites)) ∧
     RegionAndAz_Strategy range w st alloc sites = Some (members w st r sites, None)).
Proof.
  unfold RegionAndAz_Strategy. rewrite Halone. cbn [negb String.eqb]. rewrite String.eqb_refl. cbn [negb].
  destruct (group_regions_spec w st sites Hw [] ∅ Hs) as (m & -> & Hm); [done|]. simpl in Hm. bind_simpl.
  assert (forall r info, (r, info) ∈ range _ m <-> m !! r = Some info) as Hentry by (intros r info; by rewrite Hrange, elem_of_map_to_list).
  assert (forall r, members w st r sites = [] ∨ m !! r = Some (mkRegionMap (caps_sum st (members w st r sites)) (members w st r sites))) as Hget.
  { intros r. rewrite (Hm r). destruct (members w st r sites); [by left|by right]. }
  assert (forall r info, m !! r = Some info -> info = mkRegionMap (caps_sum st (members w st r sites)) (members w st r sites)) as Hinfo.
  { intros r info Hi. rewrite (Hm r) in Hi. destruct (members w st r sites); congruence. }
  destruct (best_region_spec (Replicas alloc) (range _ m) Hr) as [[-> Hall]|(info & Hin & Hcount & Hle & Hmax)].
  - left. split; [|done]. intros r. destruct (Hget r) as [->|Hi]; [unfold caps_sum; simpl; lia|]. exact (Hall (r, _) (proj2 (Hentry _ _) Hi)).
  - right. destruct (best_region _ _) as [r c]. simpl in *. apply Hentry in Hin. pose proof (Hinfo _ _ Hin) as ->. simpl in Hcount. subst c.
    exists r. split_and!; [done| |].
    + intros r'. destruct (Hget r') as [->|Hi]; [change (caps_sum st []) with 0; lia|]. exact (Hmax (r', _) (proj2 (Hentry _ _) Hi)).
    + destruct (String.eqb_spec r "") as [->|_]; [|by rewrite Hin]. exfalso. destruct (Hget ""%string) as [He|_]; [rewrite He in Hle; unfold caps_sum in Hle; simpl in Hle; lia|].
      destruct (members w st "" sites) as [|s l] eqn:He; [unfold caps_sum in Hle; simpl in Hle; lia|].
      assert (s ∈ members w st "" sites) as [[_ Hreg] Hsin]%list_elem_of_filter by (rewrite He; apply list_elem_of_here). by apply (Hnamed s).
Qed.

Definition demo_region_info (id region : string) : SiteCacheInfo :=
  mkSiteCacheInfo (Some (demo_site id region "az")) ∅ ∅ ∅ ∅ ∅ ∅ ∅ [] None ∅ 0.
Definition demo_region_snapshot : Snapshot :=
  mkSnapshot (list_to_map [(0%nat, demo_region_info "a" "r1"); (1%nat, demo_region_info "b" "r2"); (2%nat, demo_region_info "c" "r2")])
    3 (list_to_map [("a"%string, 0%nat); ("b"%string, 1%nat); ("c"%string, 2%nat)]) [0; 1; 2]%nat ∅ ∅ 0.
Definition demo_region_world : World := mkWorld demo_region_snapshot (newSchedulerCache 0) ∅ ∅ [].
Definition demo_regions : list SiteScore := [demo_score "a"; demo_score "b"; demo_score "c"].
Definition demo_region_caps : CycleState := demo_caps [("a"%string, 3); ("b"%string, 2); ("c"%string, 2)].

Lemma demo_region_sited : sited demo_region_world.
Proof.
  intros id n. unfold Snapshot_Get. destruct (SiteCacheInfoMap _ !! id) as [a|]; bind_simpl; [|done].
  destruct (entries _ !! a) as [v|] eqn:Hv; [|done]. intros [= <-]. apply elem_of_list_to_map_2 in Hv.
  rewrite !elem_of_cons, elem_of_nil in Hv. destruct Hv as [[= _ ->]|[[= _ ->]|[[= _ ->]|[]]]]; by eexists.
Qed.

Lemma region_strategy_keeps_one_region_witness :
  (∃ r, Replicas (demo_allocation "" StrategyRegionAlone 4) <= caps_sum demo_region_caps (members demo_region_world demo_region_caps r demo_regions)) ∧
  SS_SiteID <$> default [] (fst <$> RegionAndAz_Strategy (fun A (m : gmap string A) => map_to_list m) demo_region_world demo_region_caps
    (demo_allocation "" StrategyRegionAlone 4) demo_regions) = ["b"%string; "c"%string].
Proof.
  split; [|vm_compute; reflexivity].
  destruct (region_strategy_keeps_one_region (fun A (m : gmap string A) => map_to_list m) demo_region_world demo_region_caps
    (demo_allocation "" StrategyRegionAlone 4) demo_regions (fun A m => reflexivity _) demo_region_sited) as [[_ H]|(r & H & _)].
  - apply demo_caps_small; [|reflexivity]. intros id n. rewrite !elem_of_cons, elem_of_nil. intros [[= -> ->]|[[= -> ->]|[[= -> ->]|[]]]]; lia.
  - discriminate.
  - intros s Hs. unfold demo_regions in Hs. rewrite !elem_of_cons, elem_of_nil in Hs. destruct Hs as [->|[->|[->|[]]]]; vm_compute; discriminate.
  - reflexivity.
  - vm_compute in H. discriminate.
  - exists r. exact H.
Defined.
