(* ===== verification/Binder.v ===== *)
(** * The binder

    Models [framework/plugins/defaultbinder/default_binder.go] and the deduction it makes,
    [DeductSiteResInfo], [updateSiteFlavor] and [deductFlavor] of
    [sitecacheinfo/sitecache_info.go]: placing a stack on a site of the snapshot and taking
    its processors and memory from what the site can still host.  The theorem shows that
    the deduction is exact for the flavors of the configuration on a site whose capacity
    has been collected. *)
From S2P Require Import Prelude Types Strconv SiteTree SiteCacheInfo Cache Framework Plugins.

Local Open Scope Z_scope.

(** ** Deduction *)

Definition DefaultResourceType : string := "vm".

(** (utils/utils.go:261-270) *)
Definition GetRegionName (siteID : string) : string :=
  if String.eqb siteID "" then "" else default ""%string (head (strings_Split siteID SiteDelimiter)).

Definition set_requested_flavor (n : SiteCacheInfo) (m : gmap string Z) : SiteCacheInfo :=
  mkSiteCacheInfo (SCI_Site n) (RequestedResources n) (TotalResources n) (RequestedStorage n) (TotalStorage n)
    m (AllocatableFlavor n) (AllocatableSpotFlavor n) (stacks n) (eipPool n) (Qos n) (generation n).

(** One instance of every flavor is taken (sitecache_info.go:646-662). *)
Definition deductFlavor (n : SiteCacheInfo) : SiteCacheInfo :=
  set_requested_flavor (set_allocatable n ((fun value => wrap64 (value - 1)) <$> AllocatableFlavor n))
    (map_imap (fun key _ => Some (wrap64 (default 0 (RequestedFlavor n !! key) + 1))) (AllocatableFlavor n) ∪ RequestedFlavor n).

(** The resource types against one flavor: [inr] when the deduction ends here, [None]
    when a division by zero panics (sitecache_info.go:621-642 updateSiteFlavor). *)
Fixpoint flavor_types (n : SiteCacheInfo) (flavorid : string) (vCPUInt ram : Z) (resourceTypes : list string) : option (SiteCacheInfo + SiteCacheInfo) :=
  match resourceTypes with
  | [] => Some (inl n)
  | resourceType :: resourceTypes =>
      match TotalResources n !! resourceType with
      | None => Some (inr (deductFlavor n))
      | Some totalRes =>
          let requestRes := default (mkCPUAndMemory 0 0) (RequestedResources n !! resourceType) in
          if (vCPUInt =? 0) || (ram =? 0) then None
          else
            let count := wrap64 (Z.quot (wrap64 (VCPU totalRes - VCPU requestRes)) vCPUInt) in
            let memCount := wrap64 (Z.quot (wrap64 (Memory totalRes - Memory requestRes)) ram) in
            let count := if memCount <? count then memCount else count in
            let old := default 0 (AllocatableFlavor n !! flavorid) in
            flavor_types (set_allocatable n (<[flavorid := if count <? old then count else old]> (AllocatableFlavor n)))
              flavorid vCPUInt ram resourceTypes
      end
  end.

(** The flavors of the site in the order visited (sitecache_info.go:610-643 updateSiteFlavor). *)
Fixpoint flavor_loop (n : SiteCacheInfo) (regionName : string) (resourceTypes : list string) (regionFlavors : gmap string RegionFlavor)
    (ids : list string) : option SiteCacheInfo :=
  match ids with
  | [] => Some n
  | flavorid :: ids =>
      match regionFlavors !! (regionName +:+ FlavorDelimiter +:+ flavorid) with
      | None => Some (deductFlavor n)
      | Some flv =>
          match ParseInt (Vcpus (RF_Flavor flv)) with
          | None => Some (deductFlavor n)
          | Some vCPUInt =>
              r ← flavor_types n flavorid vCPUInt (Ram (RF_Flavor flv)) resourceTypes;
              match r with
              | inr n => Some n
              | inl n => flavor_loop n regionName resourceTypes regionFlavors ids
              end
          end
      end
  end.

Section Binder.
(** The order in which a map is visited. *)
Context (range : forall A : Type, gmap string A -> list (string * A)).

(** (sitecache_info.go:601-644) *)
Definition updateSiteFlavor (n : SiteCacheInfo) (resourceTypes : list string) (regionFlavors : gmap string RegionFlavor) : option SiteCacheInfo :=
  site ← SCI_Site n;
  flavor_loop n (GetRegionName (SiteID site)) resourceTypes regionFlavors (range _ (AllocatableFlavor n)).*1.

(** One resource type of the request.  The values of the map are pointers: the model is
    exact as long as every key is a single resource type, as the keys made here are.  A
    type that is not among the keys of a non-empty map is not recorded
    (sitecache_info.go:557-580 DeductSiteResInfo). *)
Definition deduct_type (acc : SiteCacheInfo * list string) (entry : string * CPUAndMemory) : SiteCacheInfo * list string :=
  let '(n, resourceTypes) := acc in
  let resType := if String.eqb entry.1 "" then DefaultResourceType else entry.1 in
  let resourceTypes := if String.eqb entry.1 "" then resourceTypes ++ [resType] else resourceTypes in
  let requested :=
    if Nat.eqb (size (RequestedResources n)) 0 then {[resType := entry.2]}
    else foldl (fun m '(reqType, reqRes) =>
      if IsContain (strings_Split reqType FlavorDelimiter) resType
      then let r := cpu_add reqRes entry.2 in <[resType := r]> (<[reqType := r]> m)
      else m) (RequestedResources n) (range _ (RequestedResources n)) in
  (set_requested n requested, resourceTypes).

(** [g] is the new generation (sitecache_info.go:555-591). *)
Definition DeductSiteResInfo (n : SiteCacheInfo) (resInfo : AllResInfo) (regionFlavors : gmap string RegionFlavor) (g : Z) : option SiteCacheInfo :=
  let '(n, resourceTypes) := foldl deduct_type (n, []) (range _ (CpuAndMem resInfo)) in
  let storage := foldl (fun m '(volType, used) => <[volType := fadd (default fzero (m !! volType)) used]> m)
    (RequestedStorage n) (range _ (AllRes_Storage resInfo)) in
  n ← updateSiteFlavor (set_storage n storage (TotalStorage n)) resourceTypes regionFlavors;
  Some (set_generation n g).

(** ** Binding *)

Definition set_selected_flavor (r : Resource) (id : string) : Resource :=
  mkResource (Resource_Name r) (ResourceType r) (Flavors r) (Storage r) (NeedEip r) (Count r) id.

(** What one resource adds to the request; a flavor that is unknown or invalid adds
    nothing (default_binder.go:80-103 Bind). *)
Definition request_of (w : World) (region : string) (m : gmap string CPUAndMemory) (r : Resource) (flavorID : string) : gmap string CPUAndMemory :=
  match FlavorCache_GetFlavor w flavorID region with
  | None => m
  | Some flv =>
      match ParseInt (Vcpus (RF_Flavor flv)) with
      | None => m
      | Some vCPUInt =>
          if vCPUInt <=? 0 then m
          else
            let rt := OS_ResourceType (Flavor_OsExtraSpecs (RF_Flavor flv)) in
            let reqRes := default (mkCPUAndMemory 0 0) (m !! rt) in
            <[rt := mkCPUAndMemory (wrap64 (VCPU reqRes + wrap64 (vCPUInt * Count r))) (wrap64 (Memory reqRes + wrap64 (Ram (RF_Flavor flv) * Count r)))]> m
      end
  end.

(** (default_binder.go:80-103 Bind) *)
Fixpoint bind_resources (w : World) (region : string) (m : gmap string CPUAndMemory) (rs : list Resource) (flvs : list FlavorInfo) :
    list Resource * gmap string CPUAndMemory :=
  match rs, flvs with
  | r :: rs, flv :: flvs =>
      let flavorID := FlavorID (FI_Flavor flv) in
      let '(rs, m) := bind_resources w region (request_of w region m r flavorID) rs flvs in
      (set_selected_flavor r flavorID :: rs, m)
  | _, _ => (rs, m)
  end.

Definition set_selected (stack : Stack) (s : Selected) : Stack :=
  mkStack (PodName stack) (Labels stack) (Resources stack) (Stack_Selector stack) s (UID stack) (CreateTime stack) (Tenant stack) (PodNamespace stack).
Definition set_resources (stack : Stack) (rs : list Resource) : Stack :=
  mkStack (PodName stack) (Labels stack) rs (Stack_Selector stack) (Stack_Selected stack) (UID stack) (CreateTime stack) (Tenant stack) (PodNamespace stack).

Definition set_cache_gen (c : schedulerCache) (g : Z) : schedulerCache :=
  mkCache (Cache.heap c) (fresh c) g (assumedStacks c) (stackStates c) (siteCacheInfos c) (headSiteCacheInfo c) (regionToSite c) (siteTreeOf c).
Definition set_world (w : World) (s : Snapshot) (c : schedulerCache) : World :=
  mkWorld s c (w_RegionFlavorMap w) (w_FlavorMap w) (w_flavors w).

(** [info] is the address of the site's information in the snapshot
    (default_binder.go:53-116 Bind). *)
Definition DefaultBinder_Bind (w : World) (st : CycleState) (stack : Stack) (info : option nat) : option (World * Stack * Status) :=
  a ← info;
  n ← entries (w_snapshot w) !! a;
  site ← GetSite n;
  let region := RA_Region (Site_RegionAzMap site) in
  let siteID := SiteID site in
  let stack := set_selected stack (mkSelected siteID region (RA_AvailabilityZone (Site_RegionAzMap site)) (ClusterName site) (ClusterNamespace site)) in
  match GetSiteSelectorState st siteID with
  | Err e => Some (w, stack, NewStatus Error ["getting site " +:+ siteID +:+ " info failed: " +:+ e])
  | Ok selected =>
      if negb (Nat.eqb (length (Resources stack)) (length (Sel_Flavors selected)))
      then Some (w, stack, NewStatus Error ["siteID(" +:+ siteID +:+ ") flavor count not equal to server count!"])
      else
        let '(rs, m) := bind_resources w region ∅ (Resources stack) (Sel_Flavors selected) in
        let resInfo := mkAllResInfo m ∅ 0 in
        c ← Cache_UpdateSiteWithResInfo (w_flavors w) (w_cache w) siteID resInfo;
        let g := nextGeneration (gen c) in
        n ← DeductSiteResInfo n resInfo (RegionFlavorMap (w_snapshot w)) g;
        let s := set_entries (w_snapshot w) (<[a := n]> (entries (w_snapshot w))) (snap_fresh (w_snapshot w)) (SiteCacheInfoMap (w_snapshot w)) in
        Some (set_world w s (set_cache_gen c g), set_resources stack rs, None)
  end.

(** (default_binder.go:34-42) *)
Definition DefaultBinder : Plugin := mkPlugin None None None None (Some DefaultBinder_Bind) None None.

End Binder.

(** ** What a binding takes *)

(** The size of a flavor of the configuration: it has no resource type. *)
Definition flavor_size (m : gmap string RegionFlavor) (region id : string) : option (Z * Z) :=
  flv ← m !! (region +:+ FlavorDelimiter +:+ id);
  v ← ParseInt (Vcpus (RF_Flavor flv));
  if (0 <? v) && (0 <? Ram (RF_Flavor flv)) && String.eqb (OS_ResourceType (Flavor_OsExtraSpecs (RF_Flavor flv))) ""
  then Some (v, Ram (RF_Flavor flv)) else None.

Lemma flavor_size_spec m region id v ram : flavor_size m region id = Some (v, ram) ->
  ∃ flv, m !! (region +:+ FlavorDelimiter +:+ id) = Some flv ∧ ParseInt (Vcpus (RF_Flavor flv)) = Some v ∧
    Ram (RF_Flavor flv) = ram ∧ OS_ResourceType (Flavor_OsExtraSpecs (RF_Flavor flv)) = ""%string ∧ 0 < v ∧ 0 < ram.
Proof.
  unfold flavor_size. destruct (m !! _) as [flv|]; [|done]. bind_simpl. destruct (ParseInt _) as [v'|] eqn:Hv; [|done]. bind_simpl.
  destruct (Z.ltb_spec 0 v'); [|done]. destruct (Z.ltb_spec 0 (Ram (RF_Flavor flv))); [|done]. simpl.
  destruct (String.eqb_spec (OS_ResourceType (Flavor_OsExtraSpecs (RF_Flavor flv))) ""); [|done]. intros [= <- <-]. by exists flv.
Qed.

(** The processors and memory of the chosen flavors. *)
Fixpoint request_sum (m : gmap string RegionFlavor) (region : string) (rs : list Resource) (flvs : list FlavorInfo) : Z * Z :=
  match rs, flvs with
  | r :: rs, flv :: flvs =>
      let s := default (0, 0) (flavor_size m region (FlavorID (FI_Flavor flv))) in
      let rest := request_sum m region rs flvs in
      (s.1 * Count r + rest.1, s.2 * Count r + rest.2)
  | _, _ => (0, 0)
  end.

(** A value far from the bounds of [int64]. *)
Definition modest (z : Z) : Prop := 0 <= z < 2 ^ 60.
Definition modest_res (r : CPUAndMemory) : Prop := modest (VCPU r) ∧ modest (Memory r).

Lemma request_sum_nonneg m region rs : forall flvs, (forall r, r ∈ rs -> 0 <= Count r) ->
  0 <= (request_sum m region rs flvs).1 ∧ 0 <= (request_sum m region rs flvs).2.
Proof.
  induction rs as [|r rs IH]; intros [|flv flvs] Hc; simpl; try lia. destruct (IH flvs) as [H1 H2]; [intros r' Hr'; apply Hc; by right|].
  specialize (Hc r (list_elem_of_here _ _)). destruct (flavor_size m region (FlavorID (FI_Flavor flv))) as [[v ram]|] eqn:Hs; simpl; [|lia].
  apply flavor_size_spec in Hs as (_ & _ & _ & _ & _ & ? & ?). nia.
Qed.

(** The request that [bind_resources] collects. *)
Lemma bind_resources_spec w region rs : region <> ""%string -> forall flvs acc, length rs = length flvs ->
  (forall r, r ∈ rs -> 0 <= Count r) -> (forall fi, fi ∈ flvs -> is_Some (flavor_size (w_RegionFlavorMap w) region (FlavorID (FI_Flavor fi)))) ->
  0 <= acc.1 -> 0 <= acc.2 -> let s := request_sum (w_RegionFlavorMap w) region rs flvs in modest (acc.1 + s.1) -> modest (acc.2 + s.2) ->
  forall m : gmap string CPUAndMemory, default (mkCPUAndMemory 0 0) (m !! ""%string) = mkCPUAndMemory acc.1 acc.2 ->
    FlavorIDSelected <$> (bind_resources w region m rs flvs).1 = (fun fi => FlavorID (FI_Flavor fi)) <$> flvs ∧
    (bind_resources w region m rs flvs).2 = match rs with [] => m | _ => <[""%string := mkCPUAndMemory (acc.1 + s.1) (acc.2 + s.2)]> m end.
Proof.
  intros Hregion. induction rs as [|r rs IH]; intros [|fi flvs] acc Hlen Hc Hf Ha1 Ha2 s Hs1 Hs2 m Hm; try done. simpl in Hlen. simplify_eq.
  destruct (Hf fi (list_elem_of_here _ _)) as [[v ram] Hsize]. assert (0 <= Count r) as Hr by (apply Hc, list_elem_of_here).
  unfold s in *. simpl in Hs1, Hs2 |- *. rewrite Hsize in *. simpl in *.
  apply flavor_size_spec in Hsize as (flv & Hflv & Hv & <- & Hrt & Hv0 & Hram0).
  assert (forall r', r' ∈ rs -> 0 <= Count r') as Hc' by (intros r' Hr'; apply Hc; by right).
  destruct (request_sum_nonneg (w_RegionFlavorMap w) region rs flvs Hc') as [Hn1 Hn2].
  unfold request_of, FlavorCache_GetFlavor. rewrite (proj2 (String.eqb_neq region "")), Hflv by done. rewrite Hv, Hrt, (proj2 (Z.leb_gt _ _)) by done.
  rewrite Hm. cbn [VCPU Memory]. assert (0 <= v * Count r ∧ 0 <= Ram (RF_Flavor flv) * Count r) as [Hp1 Hp2] by nia. unfold modest in *.
  rewrite !(wrap64_id (_ * Count r)) by int64. rewrite !wrap64_id by int64.
  destruct (IH flvs (acc.1 + v * Count r, acc.2 + Ram (RF_Flavor flv) * Count r)) with (m := <[""%string := mkCPUAndMemory (acc.1 + v * Count r) (acc.2 + Ram (RF_Flavor flv) * Count r)]> m)
    as [IH1 IH2]; cbn [fst snd]; [done|done|intros fi' Hfi; apply Hf; by right|lia|lia|lia|lia|by rewrite lookup_insert_eq|].
  destruct (bind_resources _ _ _ _ _) as [rs' m'] eqn:Hb. simpl in *. split; [simpl; f_equal; exact IH1|]. rewrite IH2.
  destruct rs as [|r2 rs]; [|rewrite insert_insert_eq; f_equal; f_equal; lia]. destruct flvs; [|done]. simpl. f_equal. f_equal; lia.
Qed.

(** The instances of a size that fit in what is free. *)
Definition fits (total requested : CPUAndMemory) (size : Z * Z) : Z :=
  Z.min (Z.quot (VCPU total - VCPU requested) size.1) (Z.quot (Memory total - Memory requested) size.2).

Lemma quot_modest a b v : modest a -> 0 <= b < 2 ^ 61 -> 0 < v -> wrap64 (Z.quot (wrap64 (a - b)) v) = Z.quot (a - b) v.
Proof. unfold modest. intros Ha Hb Hv. rewrite wrap64_quot by done. by rewrite wrap64_id by int64. Qed.

Lemma flavor_types_spec n id v ram total requested old :
  TotalResources n !! DefaultResourceType = Some total -> RequestedResources n !! DefaultResourceType = Some requested ->
  modest_res total -> 0 <= VCPU requested < 2 ^ 61 -> 0 <= Memory requested < 2 ^ 61 -> 0 < v -> 0 < ram -> AllocatableFlavor n !! id = Some old ->
  flavor_types n id v ram [DefaultResourceType] =
    Some (inl (set_allocatable n (<[id := Z.min old (fits total requested (v, ram))]> (AllocatableFlavor n)))).
Proof.
  intros Ht Hr [Ht1 Ht2] Hr1 Hr2 Hv Hram Hold. unfold flavor_types. rewrite Ht, Hr. cbn [default from_option]. unfold Datatypes.id.
  rewrite (proj2 (Z.eqb_neq v 0)), (proj2 (Z.eqb_neq ram 0)) by lia. cbn [orb]. rewrite !quot_modest, Hold by done. cbn [from_option].
  do 4 f_equal. unfold fits. cbn [fst snd]. destruct (Z.ltb_spec (Z.quot (Memory total - Memory requested) ram) (Z.quot (VCPU total - VCPU requested) v));
    match goal with |- (if ?a <? ?b then _ else _) = _ => destruct (Z.ltb_spec a b) end; lia.
Qed.

Lemma flavor_loop_spec regionFlavors region total requested ids : modest_res total -> 0 <= VCPU requested < 2 ^ 61 -> 0 <= Memory requested < 2 ^ 61 -> forall n,
  NoDup ids -> TotalResources n !! DefaultResourceType = Some total -> RequestedResources n !! DefaultResourceType = Some requested ->
  (forall id, id ∈ ids -> is_Some (AllocatableFlavor n !! id) ∧ is_Some (flavor_size regionFlavors region id)) ->
  ∃ m, flavor_loop n region [DefaultResourceType] regionFlavors ids = Some (set_allocatable n m) ∧
    (forall id, id ∉ ids -> m !! id = AllocatableFlavor n !! id) ∧
    (forall id old size, id ∈ ids -> AllocatableFlavor n !! id = Some old -> flavor_size regionFlavors region id = Some size ->
       m !! id = Some (Z.min old (fits total requested size))).
Proof.
  intros Ht Hr1 Hr2. induction ids as [|id ids IH]; intros n Hnd Htot Hreq Hids; cbn [flavor_loop].
  { exists (AllocatableFlavor n). split; [by destruct n|]. split; [done|]. intros ? ? ? H. by apply elem_of_nil in H. }
  apply NoDup_cons in Hnd as [Hni Hnd]. destruct (Hids id (list_elem_of_here _ _)) as [[old Hold] [[v ram] Hsize]].
  pose proof (flavor_size_spec _ _ _ _ _ Hsize) as (flv & Hflv & Hv & Hram & _ & Hv0 & Hram0).
  rewrite Hflv, Hv, Hram, (flavor_types_spec n id v ram total requested old) by done. bind_simpl.
  destruct (IH (set_allocatable n (<[id := Z.min old (fits total requested (v, ram))]> (AllocatableFlavor n))) Hnd Htot Hreq) as (m & Hm & Hout & Hin).
  { intros id' Hid'. split; [|by apply Hids; right]. simpl. destruct (decide (id = id')) as [->|Hne]; [rewrite lookup_insert_eq; by eexists|].
    rewrite lookup_insert_ne by done. by apply Hids; right. }
  exists m. split; [rewrite Hm; by destruct n|]. simpl in Hout, Hin. split.
  - intros id' Hid'. rewrite not_elem_of_cons in Hid'. destruct Hid' as [Hne Hni']. rewrite Hout, lookup_insert_ne by done. done.
  - intros id' old' size [->|Hid']%elem_of_cons Hold' Hsize'.
    + rewrite Hout, lookup_insert_eq by done. rewrite Hold in Hold'. rewrite Hsize in Hsize'. by simplify_eq.
    + apply Hin; [done| |done]. rewrite lookup_insert_ne by (intros ->; done). done.
Qed.

(** What the site has requested before and after. *)
Lemma deduct_type_spec range n res : (forall A (m : gmap string A), range A m ≡ₚ map_to_list m) -> modest_res res ->
  (RequestedResources n = ∅ ∨ ∃ r, RequestedResources n = {[DefaultResourceType := r]} ∧ modest_res r) ->
  deduct_type range (n, []) (""%string, res) =
    (set_requested n {[DefaultResourceType := let r := default (mkCPUAndMemory 0 0) (RequestedResources n !! DefaultResourceType) in
       mkCPUAndMemory (VCPU r + VCPU res) (Memory r + Memory res)]}, [DefaultResourceType]).
Proof.
  intros Hrange Hres Hn. unfold deduct_type. cbn [fst snd String.eqb app]. f_equal. f_equal. destruct Hn as [Hn|(r & Hn & Hr)]; rewrite Hn.
  - rewrite map_size_empty. simpl. rewrite lookup_empty. simpl. by destruct res.
  - rewrite map_size_singleton. cbn [Nat.eqb]. rewrite lookup_singleton_eq. pose proof (Hrange _ ({[DefaultResourceType := r]} : gmap string CPUAndMemory)) as Hp.
    rewrite map_to_list_singleton in Hp. apply Permutation_singleton_r in Hp. rewrite Hp. cbn [foldl default from_option]. unfold Datatypes.id.
    change (IsContain (strings_Split DefaultResourceType FlavorDelimiter) DefaultResourceType) with true. cbn iota.
    rewrite insert_insert_eq. unfold singletonM, map_singleton. rewrite insert_insert_eq. unfold modest_res, modest in *. unfold cpu_add. rewrite !wrap64_id by int64. done.
Qed.

(** A site whose capacity has been collected and that hosts only configured flavors. *)
Record collected (regionFlavors : gmap string RegionFlavor) (n : SiteCacheInfo) (site : Site) (total : CPUAndMemory) : Prop := {
  col_site : SCI_Site n = Some site;
  col_region : GetRegionName (SiteID site) = RA_Region (Site_RegionAzMap site);
  col_named : RA_Region (Site_RegionAzMap site) <> ""%string;
  col_total : TotalResources n !! DefaultResourceType = Some total;
  col_modest : modest_res total;
  col_requested : RequestedResources n = ∅ ∨ ∃ r, RequestedResources n = {[DefaultResourceType := r]} ∧ modest_res r;
  col_flavors : forall id, is_Some (AllocatableFlavor n !! id) -> is_Some (flavor_size regionFlavors (RA_Region (Site_RegionAzMap site)) id) }.

Definition requested_of (n : SiteCacheInfo) : CPUAndMemory := default (mkCPUAndMemory 0 0) (RequestedResources n !! DefaultResourceType).

Lemma requested_of_modest n : (RequestedResources n = ∅ ∨ ∃ r, RequestedResources n = {[DefaultResourceType := r]} ∧ modest_res r) -> modest_res (requested_of n).
Proof. unfold requested_of. intros [->|(r & -> & Hr)]; [rewrite lookup_empty; repeat split; done|by rewrite lookup_singleton_eq]. Qed.

Lemma deduct_spec range n site total res regionFlavors g : (forall A (m : gmap string A), range A m ≡ₚ map_to_list m) ->
  collected regionFlavors n site total -> modest_res res ->
  let requested := mkCPUAndMemory (VCPU (requested_of n) + VCPU res) (Memory (requested_of n) + Memory res) in
  ∃ n', DeductSiteResInfo range n (mkAllResInfo {[""%string := res]} ∅ 0) regionFlavors g = Some n' ∧ SCI_Site n' = Some site ∧
    RequestedResources n' = {[DefaultResourceType := requested]} ∧
    forall id, AllocatableFlavor n' !! id = (old ← AllocatableFlavor n !! id; size ← flavor_size regionFlavors (RA_Region (Site_RegionAzMap site)) id; Some (Z.min old (fits total requested size))).
Proof.
  intros Hrange Hc Hres requested. pose proof (requested_of_modest n (col_requested _ _ _ _ Hc)) as [Hq1 Hq2]. destruct Hres as [Hres1 Hres2].
  unfold DeductSiteResInfo. cbn [CpuAndMem AllRes_Storage].
  assert (range _ ({[""%string := res]} : gmap string CPUAndMemory) = [(""%string, res)]) as ->.
  { apply Permutation_singleton_r. rewrite Hrange. by rewrite map_to_list_singleton. }
  assert (range _ (∅ : gmap string float64) = []) as ->. { apply Permutation_nil_r. rewrite Hrange. by rewrite map_to_list_empty. }
  cbn [foldl]. rewrite deduct_type_spec by (done || apply Hc). fold (requested_of n). fold requested.
  set (n1 := set_storage _ _ _). unfold updateSiteFlavor. change (SCI_Site n1) with (SCI_Site n). rewrite (col_site _ _ _ _ Hc). bind_simpl.
  rewrite (col_region _ _ _ _ Hc). change (AllocatableFlavor n1) with (AllocatableFlavor n). unfold modest in *.
  destruct (flavor_loop_spec regionFlavors (RA_Region (Site_RegionAzMap site)) total requested (range _ (AllocatableFlavor n)).*1) with (n := n1) as (m & -> & Hout & Hin).
  - apply Hc.
  - simpl. lia.
  - simpl. lia.
  - rewrite Hrange. apply NoDup_fst_map_to_list.
  - exact (col_total _ _ _ _ Hc).
  - simpl. apply lookup_singleton_eq.
  - intros id ((id' & old) & -> & Hid)%list_elem_of_fmap. rewrite Hrange in Hid. apply elem_of_map_to_list in Hid. simpl.
    split; [by eexists|]. apply Hc. by eexists.
  - bind_simpl. eexists. split_and!; [done|by apply Hc|done|]. intros id. simpl. change (AllocatableFlavor n1) with (AllocatableFlavor n) in *.
    destruct (AllocatableFlavor n !! id) as [old|] eqn:Hold; simpl.
    + destruct (col_flavors _ _ _ _ Hc id) as [size Hsize]; [by eexists|]. rewrite Hsize. simpl. apply Hin; [|done|done].
      apply list_elem_of_fmap. exists (id, old). split; [done|]. rewrite Hrange. by apply elem_of_map_to_list.
    + rewrite Hout; [done|]. intros ((id' & old) & -> & Hid)%list_elem_of_fmap. rewrite Hrange in Hid. apply elem_of_map_to_list in Hid. simpl in Hold. congruence.
Qed.

(** C35.  Binding a stack to a site whose capacity has been collected, with flavors of the
    configuration, succeeds.  The stack is marked with the site and with the chosen flavor
    of each resource; the requested processors and memory of the site grow by exactly those
    of the chosen flavors times their counts; and the count of every flavor becomes the
    lesser of what it was and of the instances that fit in what is then free.  No other
    site changes. *)
Theorem binding_deducts_exactly (range : forall A : Type, gmap string A -> list (string * A)) (w : World) (st : CycleState) (stack : Stack)
  (a : nat) (n : SiteCacheInfo) (site : Site) (total : CPUAndMemory) (sel : SiteSelectorInfo)
  (Hrange : forall A (m : gmap string A), range A m ≡ₚ map_to_list m)
  (Hn : entries (w_snapshot w) !! a = Some n) (Hc : collected (RegionFlavorMap (w_snapshot w)) n site total)
  (Hmap : w_RegionFlavorMap w = RegionFlavorMap (w_snapshot w))
  (Hcache : forall res, is_Some (Cache_UpdateSiteWithResInfo (w_flavors w) (w_cache w) (SiteID site) res))
  (Hsel : GetSiteSelectorState st (SiteID site) = Ok sel) (Hlen : length (Resources stack) = length (Sel_Flavors sel))
  (Hne : Resources stack <> []) (Hcount : forall r, r ∈ Resources stack -> 0 <= Count r)
  (Hsize : forall fi, fi ∈ Sel_Flavors sel -> is_Some (flavor_size (RegionFlavorMap (w_snapshot w)) (RA_Region (Site_RegionAzMap site)) (FlavorID (FI_Flavor fi)))) :
  let asked := request_sum (RegionFlavorMap (w_snapshot w)) (RA_Region (Site_RegionAzMap site)) (Resources stack) (Sel_Flavors sel) in
  let requested := mkCPUAndMemory (VCPU (requested_of n) + asked.1) (Memory (requested_of n) + asked.2) in
  modest asked.1 -> modest asked.2 ->
  ∃ w' stack' n', DefaultBinder_Bind range w st stack (Some a) = Some (w', stack', None) ∧
    Stack_Selected stack' = mkSelected (SiteID site) (RA_Region (Site_RegionAzMap site)) (RA_AvailabilityZone (Site_RegionAzMap site)) (ClusterName site) (ClusterNamespace site) ∧
    FlavorIDSelected <$> Resources stack' = (fun fi => FlavorID (FI_Flavor fi)) <$> Sel_Flavors sel ∧
    entries (w_snapshot w') = <[a := n']> (entries (w_snapshot w)) ∧ requested_of n' = requested ∧
    forall id, AllocatableFlavor n' !! id = (old ← AllocatableFlavor n !! id;
      size ← flavor_size (RegionFlavorMap (w_snapshot w)) (RA_Region (Site_RegionAzMap site)) id; Some (Z.min old (fits total requested size))).
Proof.
  intros asked requested Ha1 Ha2. unfold DefaultBinder_Bind. bind_simpl. rewrite Hn. bind_simpl. unfold GetSite. rewrite (col_site _ _ _ _ Hc). bind_simpl.
  rewrite Hsel. cbn [Resources set_selected]. rewrite (proj2 (Nat.eqb_eq _ _) Hlen). cbn [negb].
  destruct (bind_resources_spec w (RA_Region (Site_RegionAzMap site)) (Resources stack) (col_named _ _ _ _ Hc) (Sel_Flavors sel) (0, 0) Hlen Hcount) with (m := (∅ : gmap string CPUAndMemory))
    as [Hids Hreq]; rewrite ?Hmap; [done|done|done|done|done|done|].
  destruct (bind_resources _ _ _ _ _) as [rs m]. cbn [fst snd] in Hids, Hreq. rewrite Hmap in Hreq.
  destruct (Resources stack) as [|r0 rs0] eqn:Hr; [done|]. rewrite insert_empty, !Z.add_0_l in Hreq. fold asked in Hreq. subst m.
  destruct (Hcache (mkAllResInfo {[""%string := mkCPUAndMemory asked.1 asked.2]} ∅ 0)) as [c ->]. bind_simpl.
  destruct (deduct_spec range n site total (mkCPUAndMemory asked.1 asked.2) (RegionFlavorMap (w_snapshot w)) (nextGeneration (gen c)) Hrange Hc) as (n' & -> & _ & Hreq & Hall); [by split|].
  bind_simpl. eexists _, _, n'. split_and!; [done|done|done|done| |exact Hall]. unfold requested_of. rewrite Hreq. rewrite lookup_singleton_eq. done.
Qed.

(** A region with one flavor of two processors and four units of memory. *)
Definition demo_typed_flavor (id : string) : RegionFlavor := mkRegionFlavor id "" (mkTypedFlavor id "2" 4 (mkOsExtraSpecs "" "" "")).
Definition demo_region_flavors : gmap string RegionFlavor := {["r1||f1"%string := demo_typed_flavor "f1"]}.
Definition demo_bind_site : Site := mkSite "r1--az1" "c" "ns" no_geo (mkRegionAz "r1" "az1") "" SiteStatusNormal [] "" ∅ [].
Definition demo_bind_info : SiteCacheInfo :=
  mkSiteCacheInfo (Some demo_bind_site) ∅ {["vm"%string := mkCPUAndMemory 20 100]} ∅ ∅ ∅ {["f1"%string := 9]} ∅ [] None ∅ 0.
Definition demo_bind_world : World :=
  mkWorld (mkSnapshot {[0%nat := demo_bind_info]} 1 {["r1--az1"%string := 0%nat]} [] demo_region_flavors ∅ 0) (newSchedulerCache 0) demo_region_flavors ∅ [].
Definition demo_bind_flavor : FlavorInfo := mkFlavorInfo (mkFlavor "f1" None) 3.
Definition demo_bind_selected : gmap string SiteSelectorInfo := {["r1--az1"%string := mkSelectorInfo [demo_bind_flavor] [] 3]}.
Definition demo_bind_state : CycleState := {[SiteTempSelectorKey := SiteSelectorInfos demo_bind_selected]}.
Definition demo_bind_stack : Stack := mkStack "p" ∅ [mkResource "web" "" [mkFlavor "f1" None] ∅ false 3 ""] no_selector no_selected "u" 0 "t" "n".

Lemma demo_collected : collected demo_region_flavors demo_bind_info demo_bind_site (mkCPUAndMemory 20 100).
Proof.
  split; try done; [by left|]. intros id [old Hold]. simpl in Hold. apply lookup_singleton_Some in Hold as [<- _]. vm_compute. by eexists.
Qed.

(** Three instances take six of the twenty processors: seven more fit. *)
Lemma binding_deducts_exactly_witness :
  ∃ w' stack' n', DefaultBinder_Bind (fun A (m : gmap string A) => map_to_list m) demo_bind_world demo_bind_state demo_bind_stack (Some 0%nat) = Some (w', stack', None) ∧
    entries (w_snapshot w') = <[0%nat := n']> (entries (w_snapshot demo_bind_world)) ∧ AllocatableFlavor n' !! "f1"%string = Some 7.
Proof.
  destruct (binding_deducts_exactly (fun A (m : gmap string A) => map_to_list m) demo_bind_world demo_bind_state demo_bind_stack 0%nat demo_bind_info
    demo_bind_site (mkCPUAndMemory 20 100) (mkSelectorInfo [demo_bind_flavor] [] 3) (fun A m => reflexivity _) eq_refl demo_collected eq_refl)
    as (w' & stack' & n' & H1 & _ & _ & H2 & _ & H3).
  - intros res. eexists. reflexivity.
  - reflexivity.
  - reflexivity.
  - discriminate.
  - intros r Hr. apply list_elem_of_singleton in Hr. subst r. vm_compute. discriminate.
  - intros fi Hfi. apply list_elem_of_singleton in Hfi. subst fi. vm_compute. eexists. reflexivity.
  - vm_compute. split; [discriminate|reflexivity].
  - vm_compute. split; [discriminate|reflexivity].
  - exists w', stack', n'. split; [exact H1|]. split; [exact H2|]. rewrite H3. vm_compute. reflexivity.
Defined.
