(* ===== verification/ClusterEvents.v ===== *)
(** * Cluster events of the scheduler

    Models how the scheduler keeps the sites of its snapshot: the handlers of the cluster
    informer ([pkg/scheduler/eventhandlers.go]), the worker that takes their events from a
    rate-limiting queue and the reports of the resource collector
    ([pkg/scheduler/scheduler.go]).  The queue holds values of any type, so its items here
    are events or plain keys.  The informer's store is a map from keys to clusters. *)
From S2P Require Import Prelude Types Strconv SiteTree SiteCacheInfo Cache Framework Floats WorkQueue Plugins Binder.
From S2P Require ApiTypes.

Local Open Scope Z_scope.

#[local] Existing Instances ApiTypes.FlavorInfo_eq_dec ApiTypes.StorageSpec_eq_dec ApiTypes.GeolocationInfo_eq_dec
  ApiTypes.RegionInfo_eq_dec ApiTypes.OperatorInfo_eq_dec.

(** ** Events and clusters *)

Definition EventType_Create : Z := 0.
Definition EventType_Update : Z := 1.
Definition EventType_Delete : Z := 2.

(** What the queue can hold: an event of a cluster, or a key alone
    (scheduler/eventhandlers.go:55-58 KeyWithEventType). *)
Inductive work := KeyWithEventType (EventType : Z) (Key : string) | PlainKey (key : string).

#[export] Instance work_eq_dec : EqDecision work.
Proof. solve_decision. Defined.

#[export] Instance work_countable : Countable work.
Proof.
  refine (inj_countable' (fun w => match w with KeyWithEventType e k => inl (e, k) | PlainKey k => inr k end)
    (fun s => match s with inl (e, k) => KeyWithEventType e k | inr k => PlainKey k end) _).
  by intros [].
Defined.

(** A cluster with the tenant of its metadata and its status. *)
Record ClusterObject := mkClusterObject { co_Cluster : ApiTypes.Cluster; co_Tenant : string; co_Status : string }.

(** (tools/cache/store.go:78-96) *)
Definition MetaNamespaceKeyFunc (c : ClusterObject) : string :=
  let metaKey := ApiTypes.C_Name (co_Cluster c) in
  let metaKey := if String.eqb (ApiTypes.C_Namespace (co_Cluster c)) "" then metaKey else ApiTypes.C_Namespace (co_Cluster c) +:+ "/" +:+ metaKey in
  if String.eqb (co_Tenant c) "" || String.eqb (co_Tenant c) "system" then metaKey else co_Tenant c +:+ "/" +:+ metaKey.

(** (tools/cache/store.go:104-130 SplitMetaTenantNamespaceKey) *)
Definition SplitMetaNamespaceKey (key : string) : string * string * option string :=
  match strings_Split key "/" with
  | [name] => ("", name, None)
  | [namespace; name] => (namespace, name, None)
  | [_; namespace; name] => (namespace, name, None)
  | _ => ("", "", Some ("unexpected key format: " +:+ key))
  end%string.

(** [ClusterLister.Clusters(namespace).Get(name)]
    (listers/cluster/v1/cluster.go:93-107 Get). *)
Definition lister_Get (indexer : gmap string ClusterObject) (namespace name : string) : result ClusterObject :=
  match indexer !! (namespace +:+ "/" +:+ name) with Some c => Ok c | None => Err ("cluster " +:+ name +:+ " not found") end.

(** (scheduler/scheduler.go:733-754) *)
Definition convertClusterToSite (c : ApiTypes.Cluster) (status : string) : Site :=
  mkSite (ApiTypes.RI_Region (ApiTypes.C_Region c) +:+ SiteDelimiter +:+ ApiTypes.RI_AvailabilityZone (ApiTypes.C_Region c))
    (ApiTypes.C_Name c) (ApiTypes.C_Namespace c)
    (mkGeo (ApiTypes.GI_Country (ApiTypes.C_GeoLocation c)) (ApiTypes.GI_Area (ApiTypes.C_GeoLocation c))
      (ApiTypes.GI_Province (ApiTypes.C_GeoLocation c)) (ApiTypes.GI_City (ApiTypes.C_GeoLocation c)))
    (mkRegionAz (ApiTypes.RI_Region (ApiTypes.C_Region c)) (ApiTypes.RI_AvailabilityZone (ApiTypes.C_Region c)))
    (ApiTypes.OI_Operator (ApiTypes.C_Operator c)) status [] "" ∅ [].

(** ** The part of the scheduler that follows the clusters *)

(** How a call ends: a nil pointer panics; a call that waits for room in the queue's
    channel blocks. *)
Inductive outcome (A : Type) := Returns (a : A) | Panics | Blocks.
Arguments Returns {A}.
Arguments Panics {A}.
Arguments Blocks {A}.

Section Scheduler.
Context {bucket : Type} (Reserve_Delay : bucket -> bucket * Z).

(** (scheduler/scheduler.go:85-127) *)
Record Scheduler := mkScheduler {
  ClusterQueue : rateLimitingType work bucket; siteCacheInfoSnapshot : Snapshot; deletedClusters : gmap string string }.

Definition set_queue (s : Scheduler) (q : rateLimitingType work bucket) : Scheduler := mkScheduler q (siteCacheInfoSnapshot s) (deletedClusters s).
Definition set_snapshot (s : Scheduler) (snap : Snapshot) : Scheduler := mkScheduler (ClusterQueue s) snap (deletedClusters s).

(** The queue of the scheduler with a call of the embedded interfaces. *)
Definition on_interface (g : Type_ work -> Type_ work) (q : rateLimitingType work bucket) : rateLimitingType work bucket :=
  let d := DelayingInterface q in mkRateLimiting (mkDelaying (g (Interface d)) (waitingForAddCh d) (waitingEntryByData d)) (rateLimiter q).

(** (scheduler/eventhandlers.go:518-520) *)
Definition Enqueue (s : Scheduler) (key : string) (eventType : Z) : Scheduler :=
  set_queue s (on_interface (fun q => wq_Add q (KeyWithEventType eventType key)) (ClusterQueue s)).

(** (scheduler/eventhandlers.go:522-534) *)
Definition verifyClusterInfo (c : ApiTypes.Cluster) : bool :=
  negb (String.eqb (ApiTypes.C_IpAddress c) "" || String.eqb (ApiTypes.RI_Region (ApiTypes.C_Region c)) ""
    || String.eqb (ApiTypes.RI_AvailabilityZone (ApiTypes.C_Region c)) "" || String.eqb (ApiTypes.C_Name c) "").

(** An incomplete cluster is only logged (scheduler/eventhandlers.go:443-456). *)
Definition addCluster (s : Scheduler) (c : ClusterObject) : Scheduler := Enqueue s (MetaNamespaceKeyFunc c) EventType_Create.

Definition spec_of (c : ApiTypes.Cluster) :=
  (ApiTypes.C_IpAddress c, ApiTypes.C_GeoLocation c, ApiTypes.C_Region c, ApiTypes.C_Operator c, ApiTypes.C_Flavors c, ApiTypes.C_Storage c,
   (ApiTypes.C_EipCapacity c, ApiTypes.C_CPUCapacity c, ApiTypes.C_MemCapacity c, ApiTypes.C_ServerPrice c, ApiTypes.C_HomeScheduler c, ApiTypes.C_HomeDispatcher c)).

(** (scheduler/scheduler.go:833-846) *)
Definition getclusterInfo (c : ClusterObject) : result (string * _ * string) :=
  if String.eqb (ApiTypes.C_Name (co_Cluster c)) "" then Err "cluster name is not valid"
  else Ok (ApiTypes.C_Name (co_Cluster c), spec_of (co_Cluster c), co_Status c).

(** Whether something changed (scheduler/scheduler.go:818-830). *)
Definition determineEventType (c1 c2 : ClusterObject) : result bool :=
  match getclusterInfo c1, getclusterInfo c2 with
  | Ok (n1, s1, t1), Ok (n2, s2, t2) => Ok (negb (String.eqb n1 n2 && String.eqb t1 t2 && bool_decide (s1 = s2)))
  | _, _ => Err "It cannot determine null clusters event type"
  end.

(** (scheduler/eventhandlers.go:458-496) *)
Definition updateCluster (s : Scheduler) (old new : ClusterObject) : Scheduler :=
  let key1 := MetaNamespaceKeyFunc old in
  let key2 := MetaNamespaceKeyFunc new in
  if String.eqb key1 "" || String.eqb key2 "" then s
  else match determineEventType old new with Ok true => Enqueue s key2 EventType_Update | _ => s end.

(** (scheduler/eventhandlers.go:498-514) *)
Definition deleteCluster (s : Scheduler) (c : ClusterObject) : Scheduler :=
  if verifyClusterInfo (co_Cluster c) then
    let key := MetaNamespaceKeyFunc c in
    let s := Enqueue s key EventType_Delete in
    let siteID := ApiTypes.RI_Region (ApiTypes.C_Region (co_Cluster c)) +:+ SiteDelimiter +:+ ApiTypes.RI_AvailabilityZone (ApiTypes.C_Region (co_Cluster c)) in
    mkScheduler (ClusterQueue s) (siteCacheInfoSnapshot s) (<[key := siteID]> (deletedClusters s))
  else s.

(** A flavor that is not configured is stored as nil, which every reader takes as missing
    (scheduler/scheduler.go:933-942). *)
Definition UpdateRegionFlavor (s : Snapshot) (region flavorId : string) : Snapshot :=
  mkSnapshot (entries s) (snap_fresh s) (SiteCacheInfoMap s) (SiteCacheInfoList s)
    (partial_alter (fun _ => FlavorMap s !! flavorId) (region +:+ FlavorDelimiter +:+ flavorId) (RegionFlavorMap s)) (FlavorMap s) (snap_generation s).

(** The capacity of one flavor of the cluster, for the information at address [a]
    (scheduler/scheduler.go:864-867 updateStaticSiteResourceInfo). *)
Definition add_flavor (region : string) (a : nat) (s : Snapshot) (flavor : ApiTypes.FlavorInfo) : Snapshot :=
  let s := set_entries s (alter (fun n => set_allocatable n (<[ApiTypes.FI_FlavorID flavor := ApiTypes.FI_TotalCapacity flavor]> (AllocatableFlavor n))) a (entries s))
    (snap_fresh s) (SiteCacheInfoMap s) in
  UpdateRegionFlavor s region (ApiTypes.FI_FlavorID flavor).

(** A new information takes the place of the site's
    (scheduler/scheduler.go:858-868 updateStaticSiteResourceInfo). *)
Definition install_site (s : Snapshot) (c : ApiTypes.Cluster) (status : string) : Snapshot :=
  let site := convertClusterToSite c status in
  let a := snap_fresh s in
  let n := mkSiteCacheInfo (Some site) ∅ ∅ ∅ ∅ ∅ ∅ ∅ [] None ∅ 0 in
  let s := set_entries s (<[a := n]> (entries s)) (S a) (<[SiteID site := a]> (SiteCacheInfoMap s)) in
  foldl (add_flavor (ApiTypes.RI_Region (ApiTypes.C_Region c)) a) s (ApiTypes.C_Flavors c).

(** (scheduler/scheduler.go:849-903) *)
Definition updateStaticSiteResourceInfo (indexer : gmap string ClusterObject) (s : Scheduler) (key : string) (event : Z) (clusterNameSpace clusterName : string) :
    Scheduler * bool :=
  if (event =? EventType_Create) || (event =? EventType_Update) then
    match lister_Get indexer clusterNameSpace clusterName with
    | Err _ => (s, false)
    | Ok c => (set_snapshot s (install_site (siteCacheInfoSnapshot s) (co_Cluster c) (if event =? EventType_Create then "Created" else "Updated")), true)
    end
  else if event =? EventType_Delete then
    match lister_Get indexer clusterNameSpace clusterName with
    | Err _ => (s, false)
    | Ok c =>
        let siteID := default ""%string (deletedClusters s !! key) in
        let snap := siteCacheInfoSnapshot s in
        (mkScheduler (ClusterQueue s) (set_entries snap (entries snap) (snap_fresh snap) (delete siteID (SiteCacheInfoMap snap))) (delete key (deletedClusters s)), true)
    end
  else (s, false).

(** The item goes back with a delay (scheduler/scheduler.go:772-772 processNextClusterItem). *)
Definition retry (now : Z) (s : Scheduler) (item : work) : outcome Scheduler :=
  match AddRateLimited Reserve_Delay now (ClusterQueue s) item with Some q => Returns (set_queue s q) | None => Blocks end.

(** The key is split without a look at the error; the cluster is read again to set the
    status of the copy, through a nil pointer when it is gone
    (scheduler/scheduler.go:780-814). *)
Definition clusterSyncHandler (indexer : gmap string ClusterObject) (now : Z) (s : Scheduler) (eventType : Z) (key : string) : outcome (Scheduler * option string) :=
  if eventType <? 0 then Returns (s, Some "cluster event is not create, update, or delete"%string)
  else
    let '(nameSpace, clusterName, _) := SplitMetaNamespaceKey key in
    let '(s, ok) := updateStaticSiteResourceInfo indexer s key eventType nameSpace clusterName in
    match if (ok : bool) then Returns (set_queue s (rl_Forget (ClusterQueue s) (PlainKey key))) else retry now s (KeyWithEventType eventType key) with
    | Returns s =>
        if eventType =? EventType_Delete then Returns (s, None)
        else match lister_Get indexer nameSpace clusterName with Ok _ => Returns (s, None) | Err _ => Panics end
    | Panics => Panics
    | Blocks => Blocks
    end.

(** The outcome [None] of a call: the worker waits for an item.  [Done] and [Forget] are
    called with the key of the event (scheduler/scheduler.go:762-778). *)
Definition processNextClusterItem (indexer : gmap string ClusterObject) (now : Z) (s : Scheduler) : option (outcome (Scheduler * bool)) :=
  let '(q, g) := wq_Get (Interface (DelayingInterface (ClusterQueue s))) in
  let s := set_queue s (on_interface (fun _ => q) (ClusterQueue s)) in
  match g with
  | Waits => None
  | Shutdown => Some (Returns (s, false))
  | Got (PlainKey _) => Some Panics
  | Got (KeyWithEventType eventType key) =>
      Some match clusterSyncHandler indexer now s eventType key with
      | Returns (s, err) =>
          match match err with Some _ => retry now s (KeyWithEventType eventType key) | None => Returns s end with
          | Returns s =>
              let q := rl_Forget (ClusterQueue s) (PlainKey key) in
              Returns (set_queue s (on_interface (fun q => wq_Done q (PlainKey key)) q), true)
          | Panics => Panics
          | Blocks => Blocks
          end
      | Panics => Panics
      | Blocks => Blocks
      end
  end.

End Scheduler.
Arguments Scheduler : clear implicits.

(** ** Reports of the resource collector *)

(** (types/types.go:422-426) *)
Record AzCpuMem := mkAzCpuMem { AZ : string; CpuCapacity : Z; MemCapacity : Z }.
(** (types/types.go:428-431 Volume) *)
Record VolumeCapacity := mkVolumeCapacity { TypeId : string; StorageCapacity : float64 }.
(** (types/types.go:433-436) *)
Record SiteResource := mkSiteResource { CPUMemResources : list AzCpuMem; VolumeResources : list VolumeCapacity }.

Definition set_totals (n : SiteCacheInfo) (total : gmap string CPUAndMemory) (storage : gmap string float64) : SiteCacheInfo :=
  mkSiteCacheInfo (SCI_Site n) (RequestedResources n) total (RequestedStorage n) storage
    (RequestedFlavor n) (AllocatableFlavor n) (AllocatableSpotFlavor n) (stacks n) (eipPool n) (Qos n) (generation n).

(** One zone of the report; a site that is not known gets an information without a site
    (scheduler/scheduler.go:910-922 UpdateSiteDynamicResource). *)
Definition report_zone (region : string) (volumes : list VolumeCapacity) (s : Snapshot) (siteresource : AzCpuMem) : Snapshot :=
  let siteID := region +:+ SiteDelimiter +:+ AZ siteresource in
  let fill n := set_totals n (<[DefaultResourceType := mkCPUAndMemory (CpuCapacity siteresource) (MemCapacity siteresource)]> (TotalResources n))
    (foldl (fun m v => <[TypeId v := StorageCapacity v]> m) (TotalStorage n) volumes) in
  match SiteCacheInfoMap s !! siteID with
  | Some a => set_entries s (alter fill a (entries s)) (snap_fresh s) (SiteCacheInfoMap s)
  | None => set_entries s (<[snap_fresh s := fill NewSiteCacheInfo]> (entries s)) (S (snap_fresh s)) (<[siteID := snap_fresh s]> (SiteCacheInfoMap s))
  end.

(** (scheduler/scheduler.go:906-924) *)
Definition UpdateSiteDynamicResource (s : Snapshot) (region : string) (resource : SiteResource) : Snapshot :=
  foldl (report_zone region (VolumeResources resource)) s (CPUMemResources resource).

(** (types/types.go:452-456) *)
Record RegionResource := mkRegionResource { RegionName : string; RR_Resource : SiteResource }.

(** The request body, if it could be read, and the scheduler, if there is one; the result is
    the status of the response (service/api_resource.go:27-53). *)
Definition PushRegionResources (body : option (list RegionResource)) (sched : option Snapshot) : option Snapshot * Z :=
  match body, sched with
  | None, _ => (sched, 400)
  | Some _, None => (sched, 500)
  | Some resources, Some s => (Some (foldl (fun s r => UpdateSiteDynamicResource s (RegionName r) (RR_Resource r)) s resources), 201)
  end.

(** The same for one region (service/api_push_snapshot.go:27-52). *)
Definition PushSnapshot (region : string) (body : option SiteResource) (sched : option Snapshot) : option Snapshot * Z :=
  match body, sched with
  | None, _ => (sched, 400)
  | Some _, None => (sched, 500)
  | Some resource, Some s => (Some (UpdateSiteDynamicResource s region resource), 201)
  end.
