(* ===== verification/Collector.v ===== *)
(** * The resource collector

    Models how the resource collector ([resourcecollector/pkg/collector]) learns of clusters
    and reports what their clouds can host: the cache of regions
    ([region/region_cache.go]), the gRPC service that the cluster controller calls
    ([rpcserver/cluster_protocol.go]), the periodic tasks ([task/resource.go],
    [task/aggregate.go]) and the count of unreachable sites ([collector.go]).  What the clouds answer
    and whether the HTTP requests to the schedulers succeed are parameters.  The goroutines
    of a task work on different fields and regions, under the cache's lock; they run here
    one after the other. *)
From S2P Require Import Prelude Types Strconv SiteTree SiteCacheInfo Cache Framework Floats WorkQueue Plugins Binder ClusterEvents.
From S2P Require ApiTypes.

Local Open Scope Z_scope.

(** ** The cache of regions *)

(** (client/typed/typed.go:343-346) *)
Record CpuAndMemResource := mkCpuAndMem { TotalVCPUs : Z; TotalMem : Z }.

#[export] Instance CpuAndMemResource_eq_dec : EqDecision CpuAndMemResource.
Proof. solve_decision. Defined.

(** (client/typed/typed.go:348-351) *)
Record VolumeResource := mkVolumeResource { TotalCapacityGb : float64; VolumeType : string }.

(** What is known of a region; nil maps are empty ones
    (client/typed/typed.go:335-341 RegionResource). *)
Record RegionState := mkRegionState {
  rs_RegionName : string; EipNetworkID : string; HostAzMap : gmap string string;
  CpuAndMemResources : gmap string CpuAndMemResource; rs_VolumeResources : list VolumeResource }.

(** The cache is a map from the names of the regions. *)
Abbreviation RegionResourceCache := (gmap string RegionState).

Definition set_hosts (r : RegionState) (m : gmap string string) : RegionState :=
  mkRegionState (rs_RegionName r) (EipNetworkID r) m (CpuAndMemResources r) (rs_VolumeResources r).
Definition set_zones (r : RegionState) (m : gmap string CpuAndMemResource) : RegionState :=
  mkRegionState (rs_RegionName r) (EipNetworkID r) (HostAzMap r) m (rs_VolumeResources r).
Definition set_volumes (r : RegionState) (l : list VolumeResource) : RegionState :=
  mkRegionState (rs_RegionName r) (EipNetworkID r) (HostAzMap r) (CpuAndMemResources r) l.

(** (region/region_cache.go:31-35) *)
Definition NewRegionCache : RegionResourceCache := ∅.

(** (region/region_cache.go:37-43) *)
Definition AddRegionResource (r : RegionResourceCache) (region : RegionState) : RegionResourceCache :=
  match r !! rs_RegionName region with None => <[rs_RegionName region := region]> r | Some _ => r end.

(** (region/region_cache.go:45-54) *)
Definition RemoveRegionResource (r : RegionResourceCache) (regionName : string) : RegionResourceCache * option string :=
  match r !! regionName with
  | Some _ => (delete regionName r, None)
  | None => (r, Some ("Region " +:+ regionName +:+ " is not found"))
  end.

(** (region/region_cache.go:56-65) *)
Definition AddAvailabilityZone (r : RegionResourceCache) (regionName availabilityZone : string) : RegionResourceCache :=
  match r !! regionName with
  | Some region => <[regionName := set_zones region (<[availabilityZone := mkCpuAndMem 0 0]> (CpuAndMemResources region))]> r
  | None => r
  end.

(** (region/region_cache.go:67-80) *)
Definition RemoveAvailabilityZone (r : RegionResourceCache) (regionName availabilityZone : string) : RegionResourceCache * option string :=
  match r !! regionName with
  | Some region =>
      match CpuAndMemResources region !! availabilityZone with
      | Some _ => (<[regionName := set_zones region (delete availabilityZone (CpuAndMemResources region))]> r, None)
      | None => (r, Some ("availabilityZone " +:+ availabilityZone +:+ " is not found"))
      end
  | None => (r, Some ("regionName " +:+ regionName +:+ " is not found"))
  end.

(** (region/region_cache.go:82-94) *)
Definition UpdateCpuAndMemResource (r : RegionResourceCache) (regionName availabilityZone : string) (new : CpuAndMemResource) : RegionResourceCache * bool :=
  match r !! regionName with
  | Some region =>
      match CpuAndMemResources region !! availabilityZone with
      | Some old =>
          if decide (old = new) then (r, false)
          else (<[regionName := set_zones region (<[availabilityZone := new]> (CpuAndMemResources region))]> r, true)
      | None => (r, false)
      end
  | None => (r, false)
  end.

(** [reflect.DeepEqual] of two slices of volumes; a nil and an empty one differ, but then no
    volume is reported either way. *)
Fixpoint volumes_equal (l l' : list VolumeResource) : bool :=
  match l, l' with
  | [], [] => true
  | v :: l, v' :: l' => SFeqb (TotalCapacityGb v) (TotalCapacityGb v') && String.eqb (VolumeType v) (VolumeType v') && volumes_equal l l'
  | _, _ => false
  end.

(** (region/region_cache.go:96-107) *)
Definition UpdateVolumeResource (r : RegionResourceCache) (regionName : string) (new : list VolumeResource) : RegionResourceCache * bool :=
  match r !! regionName with
  | Some region => if volumes_equal (rs_VolumeResources region) new then (r, false) else (<[regionName := set_volumes region new]> r, true)
  | None => (r, false)
  end.

(** (region/region_cache.go:109-121) *)
Definition AddHostAz (r : RegionResourceCache) (regionName : string) (hosts : list string) (az : string) : RegionResourceCache :=
  let region := default (mkRegionState regionName "" ∅ ∅ []) (r !! regionName) in
  <[regionName := set_hosts region (foldl (fun m host => <[host := az]> m) (HostAzMap region) hosts)]> r.

(** ** The clouds *)

(** What [gophercloud] returns for the address of a cloud: whether the two clients can be
    made; the hypervisors (host name, processors, memory); the storage pools (backend name,
    capacity); and the host aggregates (hosts, zone), [None] when their extraction from the
    answer panics. *)
Record Cloud := mkCloud {
  NewClientSet : string -> bool;
  hypervisors : string -> result (list (string * Z * Z));
  schedulerstats : string -> result (list (string * float64));
  aggregates : string -> option (list (list string * string)) }.

Section Tasks.
(** The order in which a map is visited. *)
Context (range : forall A : Type, gmap string A -> list (string * A)).

(** The resources of the hosts by zone (task/resource.go:139-148 getRegionCpuAndMemResources). *)
Definition sum_host (hosts : gmap string string) (m : gmap string CpuAndMemResource) (h : string * Z * Z) : gmap string CpuAndMemResource :=
  let '(name, vcpus, memoryMB) := h in
  match hosts !! name with
  | Some az =>
      let old := default (mkCpuAndMem 0 0) (m !! az) in
      <[az := mkCpuAndMem (wrap64 (TotalVCPUs old + vcpus)) (wrap64 (TotalMem old + memoryMB))]> m
  | None => m
  end.

(** The cache after the loop and what is reported so far. *)
Definition CpuReport : Type := RegionResourceCache * list AzCpuMem.

(** (task/resource.go:149-154 getRegionCpuAndMemResources) *)
Definition report_cpu (regionName : string) (acc : CpuReport) (e : string * CpuAndMemResource) : CpuReport :=
  let '(az, cmr) := e in
  match UpdateCpuAndMemResource acc.1 regionName az cmr with
  | (r, true) => (r, acc.2 ++ [mkAzCpuMem az (TotalVCPUs cmr) (TotalMem cmr)])
  | (r, false) => (r, acc.2)
  end.

Definition defaultCmd : CpuAndMemResource := mkCpuAndMem 3 512.

(** A zone without resources is given some (task/resource.go:158-163 getRegionCpuAndMemResources). *)
Definition report_default (regionName : string) (acc : CpuReport) (e : string * CpuAndMemResource) : CpuReport :=
  let '(az, cmd) := e in
  if (TotalMem cmd =? 0) && (TotalVCPUs cmd =? 0) then
    ((UpdateCpuAndMemResource acc.1 regionName az defaultCmd).1, acc.2 ++ [mkAzCpuMem az (TotalVCPUs defaultCmd) (TotalMem defaultCmd)])
  else acc.

(** The region's state is the one in the cache, so the second loop sees the updates of the
    first (task/resource.go:122-165). *)
Definition getRegionCpuAndMemResources (cloud : Cloud) (r : RegionResourceCache) (regionName : string) (info : RegionState) : CpuReport :=
  match hypervisors cloud (EipNetworkID info) with
  | Err _ => (r, [])
  | Ok hs =>
      let acc := if Nat.ltb 0 (size (HostAzMap info))
        then foldl (report_cpu regionName) (r, []) (range _ (foldl (sum_host (HostAzMap info)) ∅ hs)) else (r, []) in
      let zones := match acc.1 !! regionName with Some info => CpuAndMemResources info | None => ∅ end in
      foldl (report_default regionName) acc (range _ zones)
  end.

(** What is reported of the volumes: nothing when they have not changed
    (task/resource.go:168-207). *)
Definition getRegionVolumeResources (cloud : Cloud) (r : RegionResourceCache) (regionName : string) (info : RegionState) : RegionResourceCache * list VolumeCapacity :=
  let found := if Nat.eqb (size (HostAzMap info)) 0 then Ok [mkVolumeResource (float_of_Z 22) "lvmdriver-1"]
    else match schedulerstats cloud (EipNetworkID info) with
      | Err e => Err e
      | Ok allStats => Ok ((fun stat => mkVolumeResource stat.2 stat.1) <$> allStats)
      end in
  match found with
  | Err _ => (r, [])
  | Ok volumes =>
      match UpdateVolumeResource r regionName volumes with
      | (r, true) => (r, (fun v => mkVolumeCapacity (VolumeType v) (TotalCapacityGb v)) <$> volumes)
      | (r, false) => (r, [])
      end
  end.

(** One region of the cache; one whose cloud cannot be reached is left out
    (task/resource.go:46-95 SyncResources). *)
Definition sync_region (cloud : Cloud) (acc : RegionResourceCache * list RegionResource) (regionName : string) : RegionResourceCache * list RegionResource :=
  match acc.1 !! regionName with
  | None => acc
  | Some info =>
      if NewClientSet cloud (EipNetworkID info) then
        let '(r, cpuAndMemResources) := getRegionCpuAndMemResources cloud acc.1 (rs_RegionName info) info in
        let '(r, volumeResources) := getRegionVolumeResources cloud r (rs_RegionName info) info in
        if Nat.ltb 0 (length cpuAndMemResources) || Nat.ltb 0 (length volumeResources)
        then (r, acc.2 ++ [mkRegionResource (rs_RegionName info) (mkSiteResource cpuAndMemResources volumeResources)]) else (r, acc.2)
      else acc
  end.

(** The changes since the last time (task/resource.go:45-95 SyncResources). *)
Definition collect (cloud : Cloud) (r : RegionResourceCache) : RegionResourceCache * list RegionResource :=
  foldl (sync_region cloud) (r, []) (range _ r).*1.

(** [json.Marshal] refuses capacities that are not numbers. *)
Definition marshals (resources : list RegionResource) : bool :=
  forallb (fun r => forallb (fun v => negb (is_nan (StorageCapacity v) || is_infinite (StorageCapacity v))) (VolumeResources (RR_Resource r))) resources.

Section Schedulers.
(** The schedulers: [post s endpoint resources] is what a request changes, [None] when the
    transport fails; [NewRequest] tells whether the endpoint is a URL. *)
Context {schedulers : Type} (NewRequest : string -> bool) (post : schedulers -> string -> list RegionResource -> option schedulers).

(** (task/resource.go:103-103 schedulerEndpoint) *)
Definition schedulerEndpoint (scheduler : string * string) : string := scheduler.1 +:+ ":" +:+ scheduler.2 +:+ "/regionresources".

(** The loop over the schedulers.  A request that could not be made is a nil
    pointer, and so is the response of a failed transport: both panic
    (task/resource.go:97-117 SyncResources). *)
Fixpoint send (s : schedulers) (infos : list (string * string)) (resources : list RegionResource) : option schedulers :=
  match infos with
  | [] => Some s
  | scheduler :: infos =>
      if negb (marshals resources) then Some s
      else if NewRequest (schedulerEndpoint scheduler) then s ← post s (schedulerEndpoint scheduler) resources; send s infos resources
      else None
  end.

(** (task/resource.go:35-119) *)
Definition SyncResources (cloud : Cloud) (r : RegionResourceCache) (infos : list (string * string)) (s : schedulers) : option (RegionResourceCache * schedulers) :=
  let '(r, resources) := collect cloud r in
  if Nat.ltb 0 (length resources) then s ← send s infos resources; Some (r, s) else Some (r, s).
End Schedulers.

(** (task/aggregate.go:29-69) *)
Definition BuildHostAzMap (cloud : Cloud) (r : RegionResourceCache) : option RegionResourceCache :=
  foldl (fun acc regionName =>
    r ← acc;
    match r !! regionName with
    | None => Some r
    | Some info =>
        if NewClientSet cloud (EipNetworkID info) then
          found ← aggregates cloud (EipNetworkID info);
          Some (foldl (fun r a => AddHostAz r (rs_RegionName info) a.1 a.2) r found)
        else Some r
    end) (Some r) (range _ r).*1.
End Tasks.

(** ** The gRPC service *)

(** The specification in a message; pointers may be nil. *)
Record ClusterSpecInfo := mkSpecInfo {
  ClusterIpAddress : string; pb_GeoLocation : option ApiTypes.GeolocationInfo; pb_Region : option ApiTypes.RegionInfo;
  pb_Operator : option ApiTypes.OperatorInfo; pb_Flavor : list ApiTypes.FlavorInfo; pb_Storage : list ApiTypes.StorageSpec;
  pb_EipCapacity : Z; pb_CPUCapacity : Z; pb_MemCapacity : Z; pb_ServerPrice : Z; pb_HomeScheduler : string }.

(** The message. *)
Record ClusterProfile := mkProfile { pb_ClusterNameSpace : string; pb_ClusterName : string; ClusterSpec : option ClusterSpecInfo; ClusterStatus : string }.

(** The answer; the code is 1 for success and 0 for an error. *)
Record ReturnMessage := mkReturn { rm_NameSpace : string; rm_Name : string; ReturnCode : Z; rm_Message : string }.

(** The copies of the flavors and the storages have the same fields
    (grpc/cluster/grpc_adaptor.go:58-112). *)
Definition ConvertClusterToClusterProfile (c : ApiTypes.Cluster) (status : string) : ClusterProfile :=
  mkProfile (ApiTypes.C_Namespace c) (ApiTypes.C_Name c)
    (Some (mkSpecInfo (ApiTypes.C_IpAddress c)
      (Some (ApiTypes.mkGeolocation (ApiTypes.GI_City (ApiTypes.C_GeoLocation c)) (ApiTypes.GI_Province (ApiTypes.C_GeoLocation c))
        (ApiTypes.GI_Area (ApiTypes.C_GeoLocation c)) (ApiTypes.GI_Country (ApiTypes.C_GeoLocation c))))
      (Some (ApiTypes.mkRegionInfo (ApiTypes.RI_Region (ApiTypes.C_Region c)) (ApiTypes.RI_AvailabilityZone (ApiTypes.C_Region c))))
      (Some (ApiTypes.mkOperatorInfo (ApiTypes.OI_Operator (ApiTypes.C_Operator c))))
      ((fun f => ApiTypes.mkFlavorInfo (ApiTypes.FI_FlavorID f) (ApiTypes.FI_TotalCapacity f)) <$> ApiTypes.C_Flavors c)
      ((fun s => ApiTypes.mkStorageSpec (ApiTypes.SS_TypeID s) (ApiTypes.SS_StorageCapacity s)) <$> ApiTypes.C_Storage c)
      (ApiTypes.C_EipCapacity c) (ApiTypes.C_CPUCapacity c) (ApiTypes.C_MemCapacity c) (ApiTypes.C_ServerPrice c) (ApiTypes.C_HomeScheduler c)))
    status.

(** (rpcserver/cluster_protocol.go:105-112) *)
Definition getReturnMessageFromError (ns name err : string) : ReturnMessage := mkReturn ns name 0 ("Grpc call failed: " +:+ err).

(** Its map of regions, the addresses and ports of the schedulers and the failures of the sites
    (collector/collector.go:62-74). *)
Record Collector := mkCollector { RegionResourceMap : RegionResourceCache; SchedulerInfoCache : list (string * string); unreachableNum : gmap string Z }.

Definition set_regions (c : Collector) (r : RegionResourceCache) : Collector := mkCollector r (SchedulerInfoCache c) (unreachableNum c).

Section Service.
Context (range : forall A : Type, gmap string A -> list (string * A)).

(** [None] is a panic.  The removal of the zone is followed by that of its region
    (rpcserver/cluster_protocol.go:38-103). *)
Definition SendClusterProfile (cloud : Cloud) (col : option Collector) (profile : ClusterProfile) : option (option Collector * ReturnMessage * option string) :=
  let ns := pb_ClusterNameSpace profile in
  let name := pb_ClusterName profile in
  let failed err := Some (col, getReturnMessageFromError ns name err, Some err) in
  let ok col := Some (Some col, mkReturn ns name 1 "ok", None) in
  match ClusterSpec profile with
  | Some (mkSpecInfo ip (Some _) (Some region) _ _ _ _ _ _ _ _) =>
      if String.eqb ip "" then failed "cluster ip is not set"%string
      else if String.eqb (ApiTypes.RI_Region region) "" || String.eqb (ApiTypes.RI_AvailabilityZone region) "" then failed "cluster region or az is invalid"%string
      else
        match col with
        | None => failed "server internal error"%string
        | Some c =>
            let r := RegionResourceMap c in
            let regionName := ApiTypes.RI_Region region in
            let az := ApiTypes.RI_AvailabilityZone region in
            if String.eqb (ClusterStatus profile) "Created" then
              r ← BuildHostAzMap range cloud (AddAvailabilityZone (AddRegionResource r (mkRegionState regionName ip ∅ ∅ [])) regionName az);
              ok (set_regions c r)
            else if String.eqb (ClusterStatus profile) "Deleted" then
              ok (set_regions c (RemoveRegionResource (RemoveAvailabilityZone r regionName az).1 regionName).1)
            else failed "status error"%string
        end
  | _ => failed "clusterSpec information is incomplete"%string
  end.
End Service.

(** ** Sites that cannot be reached *)

(** The count starts again when the controller is told
    (collector/collector.go:105-114). *)
Definition RecordSiteUnreacheable (MaxUnreachableNum : Z) (c : Collector) (siteID : string) : Collector * bool :=
  let n := wrap64 (default 0 (unreachableNum c !! siteID) + 1) in
  if n =? MaxUnreachableNum then (mkCollector (RegionResourceMap c) (SchedulerInfoCache c) (delete siteID (unreachableNum c)), true)
  else (mkCollector (RegionResourceMap c) (SchedulerInfoCache c) (<[siteID := n]> (unreachableNum c)), false).

(** A scheduler registers, also when it is registered already
    (httpserver/api_register_scheduler.go:28-48 PostSchedulerIpAndPort). *)
Definition PostSchedulerIpAndPort (body : option (string * string)) (col : option Collector) : option Collector * Z :=
  match body, col with
  | None, _ => (col, 400)
  | Some _, None => (col, 500)
  | Some (ipAddress, portNumber), Some c =>
      (Some (mkCollector (RegionResourceMap c) (SchedulerInfoCache c ++ [(ipAddress, portNumber)]) (unreachableNum c)), 200)
  end.
