(* ===== verification/ClusterController.v ===== *)
(** * The cluster controller

    Models [globalscheduler/controllers/cluster/cluster_controller.go]: the handlers of the
    cluster informer put events into a rate-limiting queue, and a worker forwards them to
    the resource collector.  The connection to the collector is a parameter.  The theorems
    of [CollectorProofs] follow a cluster from its event to the collector's cache. *)
From S2P Require Import Prelude Types Strconv SiteTree SiteCacheInfo Cache Framework Floats WorkQueue Plugins Binder ClusterEvents Collector.
From S2P Require ApiTypes.

Local Open Scope Z_scope.

#[local] Existing Instances ApiTypes.FlavorInfo_eq_dec ApiTypes.StorageSpec_eq_dec ApiTypes.GeolocationInfo_eq_dec
  ApiTypes.RegionInfo_eq_dec ApiTypes.OperatorInfo_eq_dec.

Section Controller.
(** The token bucket of the queue, and what a call of the collector changes: the answer is
    only logged; a host that cannot be reached blocks the caller. *)
Context {bucket env : Type} (Reserve_Delay : bucket -> bucket * Z) (rpc : env -> ClusterProfile -> outcome env).

(** (cluster/cluster_controller.go:70-80) *)
Record ClusterController := mkController {
  workqueue : rateLimitingType work bucket; grpcHost : string; ctl_deletedClusters : gmap string ClusterObject }.

Definition set_workqueue (c : ClusterController) (q : rateLimitingType work bucket) : ClusterController := mkController q (grpcHost c) (ctl_deletedClusters c).
Definition set_deleted (c : ClusterController) (m : gmap string ClusterObject) : ClusterController := mkController (workqueue c) (grpcHost c) m.

(** (cluster/cluster_controller.go:193-195 Enqueue) *)
Definition ctl_Enqueue (c : ClusterController) (key : string) (eventType : Z) : ClusterController :=
  set_workqueue c (on_interface (fun q => wq_Add q (KeyWithEventType eventType key)) (workqueue c)).

(** (cluster/cluster_controller.go:370-382 verifyClusterInfo) *)
Definition ctl_verifyClusterInfo (c : ApiTypes.Cluster) : bool :=
  negb (String.eqb (ApiTypes.C_IpAddress c) "" || String.eqb (ApiTypes.RI_Region (ApiTypes.C_Region c)) ""
    || String.eqb (ApiTypes.RI_AvailabilityZone (ApiTypes.C_Region c)) "" || String.eqb (ApiTypes.C_Name c) "").

(** An incomplete cluster is only logged (cluster/cluster_controller.go:119-132 addCluster). *)
Definition ctl_addCluster (c : ClusterController) (o : ClusterObject) : ClusterController := ctl_Enqueue c (MetaNamespaceKeyFunc o) EventType_Create.

(** (cluster/cluster_controller.go:302-315 getclusterInfo) *)
Definition ctl_getclusterInfo (o : ClusterObject) : result (string * _ * string) :=
  if String.eqb (ApiTypes.C_Name (co_Cluster o)) "" then Err "cluster name is not valid"
  else Ok (ApiTypes.C_Name (co_Cluster o), spec_of (co_Cluster o), co_Status o).

(** Whether anything has changed (cluster/cluster_controller.go:287-299 determineEventType). *)
Definition ctl_determineEventType (o1 o2 : ClusterObject) : result bool :=
  match ctl_getclusterInfo o1, ctl_getclusterInfo o2 with
  | Ok i1, Ok i2 => Ok (negb (bool_decide (i1 = i2)))
  | _, _ => Err "It cannot determine null clusters event type"
  end.

(** (cluster/cluster_controller.go:134-172 updateCluster) *)
Definition ctl_updateCluster (c : ClusterController) (old new : ClusterObject) : ClusterController :=
  if String.eqb (MetaNamespaceKeyFunc old) "" || String.eqb (MetaNamespaceKeyFunc new) "" then c
  else match ctl_determineEventType old new with
    | Ok true => ctl_Enqueue c (MetaNamespaceKeyFunc new) EventType_Update
    | _ => c
    end.

(** The cluster is remembered for the worker (cluster/cluster_controller.go:174-189 deleteCluster). *)
Definition ctl_deleteCluster (c : ClusterController) (o : ClusterObject) : ClusterController :=
  if ctl_verifyClusterInfo (co_Cluster o) then
    let key := MetaNamespaceKeyFunc o in
    let c := ctl_Enqueue c key EventType_Delete in
    set_deleted c (<[key := o]> (ctl_deletedClusters c))
  else c.

(** An update is not forwarded (cluster/cluster_controller.go:318-368). *)
Definition gRPCRequest (indexer : gmap string ClusterObject) (c : ClusterController) (e : env) (key : string) (event : Z) (clusterNameSpace clusterName : string) :
    outcome (ClusterController * env * bool) :=
  let connected := negb (String.eqb (grpcHost c) "") in
  if event =? EventType_Create then
    match lister_Get indexer clusterNameSpace clusterName with
    | Err _ => Returns (c, e, false)
    | Ok o =>
        if connected then
          match rpc e (ConvertClusterToClusterProfile (co_Cluster o) "Created") with
          | Returns e => Returns (c, e, true) | Panics => Panics | Blocks => Blocks
          end
        else Returns (c, e, true)
    end
  else if event =? EventType_Update then
    match lister_Get indexer clusterNameSpace clusterName with Err _ => Returns (c, e, false) | Ok _ => Returns (c, e, true) end
  else if event =? EventType_Delete then
    match ctl_deletedClusters c !! key with
    | None => Returns (c, e, false)
    | Some o =>
        if connected then
          match rpc e (ConvertClusterToClusterProfile (co_Cluster o) "Deleted") with
          | Returns e => Returns (set_deleted c (delete key (ctl_deletedClusters c)), e, true) | Panics => Panics | Blocks => Blocks
          end
        else Returns (c, e, true)
    end
  else Returns (c, e, false).

(** The item goes back with a delay (cluster/cluster_controller.go:240-240 processNextWorkItem). *)
Definition ctl_retry (now : Z) (c : ClusterController) (item : work) : outcome ClusterController :=
  match AddRateLimited Reserve_Delay now (workqueue c) item with Some q => Returns (set_workqueue c q) | None => Blocks end.

(** (cluster/cluster_controller.go:248-283) *)
Definition syncHandler (indexer : gmap string ClusterObject) (now : Z) (c : ClusterController) (e : env) (eventType : Z) (key : string) :
    outcome (ClusterController * env * option string) :=
  if eventType <? 0 then Returns (c, e, Some "cluster event is not create, update, or delete"%string)
  else
    let '(nameSpace, clusterName, _) := SplitMetaNamespaceKey key in
    match gRPCRequest indexer c e key eventType nameSpace clusterName with
    | Returns (c, e, ok) =>
        match if (ok : bool) then Returns (set_workqueue c (rl_Forget (workqueue c) (PlainKey key))) else ctl_retry now c (KeyWithEventType eventType key) with
        | Returns c =>
            if eventType =? EventType_Delete then Returns (c, e, None)
            else match lister_Get indexer nameSpace clusterName with Ok _ => Returns (c, e, None) | Err _ => Panics end
        | Panics => Panics
        | Blocks => Blocks
        end
    | Panics => Panics
    | Blocks => Blocks
    end.

(** [None]: the worker waits for an item (cluster/cluster_controller.go:230-246). *)
Definition processNextWorkItem (indexer : gmap string ClusterObject) (now : Z) (c : ClusterController) (e : env) : option (outcome (ClusterController * env * bool)) :=
  let '(q, g) := wq_Get (Interface (DelayingInterface (workqueue c))) in
  let c := set_workqueue c (on_interface (fun _ => q) (workqueue c)) in
  match g with
  | Waits => None
  | Shutdown => Some (Returns (c, e, false))
  | Got (PlainKey _) => Some Panics
  | Got (KeyWithEventType eventType key) =>
      Some match syncHandler indexer now c e eventType key with
      | Returns (c, e, err) =>
          match match err with Some _ => ctl_retry now c (KeyWithEventType eventType key) | None => Returns c end with
          | Returns c =>
              let q := rl_Forget (workqueue c) (PlainKey key) in
              Returns (set_workqueue c (on_interface (fun q => wq_Done q (PlainKey key)) q), e, true)
          | Panics => Panics
          | Blocks => Blocks
          end
      | Panics => Panics
      | Blocks => Blocks
      end
  end.
End Controller.
Arguments ClusterController : clear implicits.
