(* ===== verification/Schedule.v ===== *)
(** * Scheduling an allocation

    Models the scheduling of [globalscheduler/pkg/scheduler/scheduler.go]: filtering the
    sites of the snapshot, scoring and sorting them, dividing the replicas by the strategy
    plugins and binding one stack after the other, with the conversion of allocations to
    stacks.  The goroutines that check the sites are run one site after the other, in an
    order that is a parameter; they stop at the first error.  The replicas of an
    allocation share their resources by pointer, so the flavor selected for one is
    selected for all. *)
From S2P Require Import Prelude Types Strconv SiteTree SiteCacheInfo Cache Labels Framework Plugins Binder.
From S2P Require ApiTypes.

Local Open Scope Z_scope.

Definition set_entry (w : World) (a : nat) (n : SiteCacheInfo) : World :=
  let s := w_snapshot w in
  set_world w (set_entries s (<[a := n]> (entries s)) (snap_fresh s) (SiteCacheInfoMap s)) (w_cache w).

(** (scheduler.go:927-930 UpdateFlavor) *)
Definition UpdateFlavor (config_FlavorMap : gmap string RegionFlavor) (s : Snapshot) : Snapshot :=
  mkSnapshot (entries s) (snap_fresh s) (SiteCacheInfoMap s) (SiteCacheInfoList s) (RegionFlavorMap s) config_FlavorMap (snap_generation s).

(** (internal/cache/cache.go:70-76 UpdateFlavorMap) *)
Definition UpdateFlavorMap (w : World) (regionFlavorMap flavorMap : gmap string RegionFlavor) : World :=
  mkWorld (w_snapshot w) (w_cache w) regionFlavorMap flavorMap (w_flavors w).

Definition set_stack_selector (stack : Stack) (s : Selector) : Stack :=
  mkStack (PodName stack) (Labels stack) (Resources stack) s (Stack_Selected stack) (UID stack) (CreateTime stack) (Tenant stack) (PodNamespace stack).
Definition set_allocation_stack (a : Allocation) (stack : Stack) : Allocation :=
  mkAllocation (Allocation_ID a) stack (Allocation_Selector a) (Replicas a).

(** (scheduler.go:313-321) *)
Definition generateAllocationFromStack (id : string) (stack : Stack) : Allocation := mkAllocation id stack (Stack_Selector stack) 1.

(** One candidate of [selectHost]; [pick] is whether the random number is zero
    (scheduler.go:479-491 selectHost). *)
Definition select_step (acc : Z * string) (ns : SiteScore * bool) : Z * string :=
  if acc.1 <? SS_Score ns.1 then (SS_Score ns.1, SS_SiteID ns.1)
  else if (SS_Score ns.1 =? acc.1) && ns.2 then (acc.1, SS_SiteID ns.1)
  else acc.

(** [picks] are the outcomes of the random choices at each place (scheduler.go:472-493). *)
Definition selectHost (picks : nat -> bool) (siteScoreList : list SiteScore) : result string :=
  match siteScoreList with
  | [] => Err "empty priorityList"
  | s :: rest => Ok (foldl select_step (SS_Score s, SS_SiteID s) (imap (fun i ns => (ns, picks i)) rest)).2
  end.

Section Schedule.
(** The order in which a map is visited; the order in which the workers take the sites;
    [sort.Sort(sort.Reverse(..))]; the configured flavors; the framework. *)
Context (range : forall A : Type, gmap string A -> list (string * A)) (order : nat -> list nat)
  (sort_Reverse : list SiteScore -> list SiteScore) (config_FlavorMap : gmap string RegionFlavor) (f : framework).

(** (scheduler.go:340-355) *)
Definition stackPassesFiltersOnSite (ctx : Context_) (w : World) (st : CycleState) (stack : Stack) (info : SiteCacheInfo) :
    option (CycleState * SiteCacheInfo * (bool * Status * option string)) :=
  '(st, info, statusMap) ← RunFilterPlugins ctx f w st stack info;
  let status := Merge (range _) statusMap in
  if negb (IsSuccess status) && negb (IsUnschedulable status) then Some (st, info, (false, status, AsError status))
  else Some (st, info, (IsSuccess status, status, None)).

(** What the workers have found: the sites that pass, the statuses of the others, and the
    first error. *)
Record found := mkFound { f_state : CycleState; f_world : World; filtered : list Site; f_statuses : gmap string StatusData; f_err : option string }.

(** [checkSite] on the sites at the given places; a nil site panics
    (scheduler.go:390-413 findSitesThatPassFilters). *)
Fixpoint check_sites (ctx : Context_) (stack : Stack) (all : list nat) (acc : found) (places : list nat) : option found :=
  match places with
  | [] => Some acc
  | i :: places =>
      a ← all !! i;
      n ← entries (w_snapshot (f_world acc)) !! a;
      '(st, n, (fits, status, err)) ← stackPassesFiltersOnSite ctx (f_world acc) (f_state acc) stack n;
      let w := set_entry (f_world acc) a n in
      match err with
      | Some e => Some (mkFound st w (filtered acc) (f_statuses acc) (Some e))
      | None =>
          site ← GetSite n;
          check_sites ctx stack all
            (if (fits : bool) then mkFound st w (filtered acc ++ [site]) (f_statuses acc) None
             else mkFound st w (filtered acc)
               (if IsSuccess status then f_statuses acc else match status with Some s => <[SiteID site := s]> (f_statuses acc) | None => f_statuses acc end) None)
            places
      end
  end.

(** The candidates: the site asked for when it exists, else all
    (scheduler.go:360-379 findSitesThatPassFilters). *)
Definition candidates (s : Snapshot) (stack : Stack) : list nat :=
  let siteID := Sel_SiteID (Stack_Selector stack) in
  match SiteCacheInfoMap s !! siteID with
  | Some a => if String.eqb siteID "" then (range _ (SiteCacheInfoMap s)).*2 else [a]
  | None => (range _ (SiteCacheInfoMap s)).*2
  end.

(** (scheduler.go:358-421) *)
Definition findSitesThatPassFilters (ctx : Context_) (w : World) (st : CycleState) (stack : Stack) : option (World * CycleState * result (list Site)) :=
  match candidates (w_snapshot w) stack with
  | [] => Some (w, st, Err ("SiteCacheInfoMap of " +:+ Sel_SiteID (Stack_Selector stack) +:+ " is null"))
  | all =>
      if negb (HasFilterPlugins f) then
        sites ← mapM (fun a => n ← entries (w_snapshot w) !! a; GetSite n) all;
        Some (w, st, Ok sites)
      else
        r ← check_sites ctx stack all (mkFound st w [] ∅ None) (order (length all));
        Some (f_world r, f_state r, match f_err r with Some e => Err e | None => Ok (filtered r) end)
  end.

(** The sum of the weighted scores of the site at place [i]
    (scheduler.go:456-461 prioritizeSites). *)
Definition total_score (scoresMap : gmap string (list SiteScore)) (i : nat) : option Z :=
  foldl (fun acc e => acc ← acc; s ← e.2 !! i; Some (wrap64 (acc + SS_Score s))) (Some 0) (range _ scoresMap).

Definition new_score (site : Site) (score : Z) : SiteScore :=
  mkSiteScore (SiteID site) (RA_Region (Site_RegionAzMap site)) (RA_AvailabilityZone (Site_RegionAzMap site)) score 0.

(** (scheduler.go:428-468) *)
Definition prioritizeSites (ctx : Context_) (w : World) (st : CycleState) (stack : Stack) (sites : list Site) :
    option (CycleState * result (list SiteScore)) :=
  if negb (HasScorePlugins f) then Some (st, Ok ((fun site => mkSiteScore (SiteID site) "" "" 1 0) <$> sites))
  else
    let s := w_snapshot w in
    '(st, scores) ← RunScorePlugins f w st stack sites (fun id => SiteCacheInfoMap s !! id ≫= fun a => entries s !! a) (order (length sites));
    match scores with
    | Err e => Some (st, Err e)
    | Ok scoresMap =>
        l ← mapM (fun '(i, site) => t ← total_score scoresMap i; Some (new_score site t)) (imap pair sites);
        Some (st, Ok (sort_Reverse l))
    end.

(** (scheduler.go:498-509) *)
Definition bind (w : World) (st : CycleState) (stack : Stack) (targetSiteID : string) : option (World * Stack * option string) :=
  '(w, stack, bindStatus) ← RunBindPlugins f w st stack (SiteCacheInfoMap (w_snapshot w) !! targetSiteID);
  if IsSuccess bindStatus then Some (w, stack, None)
  else if bool_decide (Status_Code bindStatus = Error) then Some (w, stack, AsError bindStatus)
  else Some (w, stack, Some ("bind status: " +:+ Message bindStatus)).

(** The stacks bound so far with the resources they share. *)
Record reserved := mkReserved { r_world : World; r_resources : list Resource; r_stacks : list Stack; r_err : option string }.

(** Up to [n] stacks on one site, until there are as many as asked for
    (scheduler.go:589-606 Schedule). *)
Fixpoint bind_site (st : CycleState) (alloc : Allocation) (siteID : string) (n : nat) (r : reserved) : option reserved :=
  match n with
  | O => Some r
  | S n =>
      '(w, newStack, err) ← bind (r_world r) st (set_resources (Allocation_Stack alloc) (r_resources r)) siteID;
      match err with
      | Some e => Some (mkReserved w (Resources newStack) (r_stacks r) (Some e))
      | None =>
          let r := mkReserved w (Resources newStack) (r_stacks r ++ [newStack]) None in
          if Replicas alloc <=? Z.of_nat (length (r_stacks r)) then Some r else bind_site st alloc siteID n r
      end
  end.

(** (scheduler.go:588-611 Schedule) *)
Fixpoint bind_sites (st : CycleState) (alloc : Allocation) (siteCount : list SiteScore) (r : reserved) : option reserved :=
  match siteCount with
  | [] => Some r
  | value :: siteCount =>
      r ← bind_site st alloc (SS_SiteID value) (Z.to_nat (StackCount value)) r;
      match r_err r with
      | Some _ => Some r
      | None => if Replicas alloc <=? Z.of_nat (length (r_stacks r)) then Some r else bind_sites st alloc siteCount r
      end
  end.

(** The stacks of the result point to the same resources. *)
Definition result_stacks (r : reserved) : list Stack := (fun s => set_resources s (r_resources r)) <$> r_stacks r.

(** (scheduler.go:586-619 Schedule) *)
Definition reserve (w : World) (st : CycleState) (alloc : Allocation) (siteCount : list SiteScore) : option (World * list Stack * option string) :=
  r ← bind_sites st alloc siteCount (mkReserved w (Resources (Allocation_Stack alloc)) [] None);
  match r_err r with
  | Some e => Some (r_world r, result_stacks r, Some e)
  | None =>
      if Z.of_nat (length (r_stacks r)) <? Replicas alloc then Some (r_world r, result_stacks r, Some "not find suit host"%string)
      else Some (r_world r, result_stacks r, None)
  end.

(** The stacks of the result and the error.  When the strategy plugins fail the error
    returned is that of the step before, which is nil (scheduler.go:513-619). *)
Definition Schedule (ctx : Context_) (w : World) (allocation : Allocation) : option (World * list Stack * option string) :=
  let s := UpdateFlavor config_FlavorMap (w_snapshot w) in
  let w := UpdateFlavorMap (set_world w s (w_cache w)) (RegionFlavorMap s) (FlavorMap s) in
  '(st, preFilterStatus) ← RunPreFilterPlugins f w NewCycleState (Allocation_Stack allocation);
  if negb (IsSuccess preFilterStatus) then Some (w, [], AsError preFilterStatus)
  else
    let allocation := set_allocation_stack allocation (set_stack_selector (Allocation_Stack allocation) (Allocation_Selector allocation)) in
    '(w, st, found) ← findSitesThatPassFilters ctx w st (Allocation_Stack allocation);
    match found with
    | Err e => Some (w, [], Some e)
    | Ok [] => Some (w, [], Some "filter none site."%string)
    | Ok sites =>
        '(st, prescoreStatus) ← RunPreScorePlugins f w st (Allocation_Stack allocation) sites;
        if negb (IsSuccess prescoreStatus) then Some (w, [], AsError prescoreStatus)
        else
          '(st, scores) ← prioritizeSites ctx w st (Allocation_Stack allocation) sites;
          match scores with
          | Err e => Some (w, [], Some e)
          | Ok priorityList =>
              '(siteCount, strategyStatus) ← RunStrategyPlugins f w st allocation priorityList;
              if negb (IsSuccess strategyStatus) then Some (w, [], None)
              else reserve w st allocation siteCount
          end
    end.

(** ** Allocations *)

(** The id of the last region with its first zone (scheduler.go:1002-1013
    getStackSelectorFromAllocation). *)
Definition region_site (siteID : string) (region : ApiTypes.Alloc.Region) : string :=
  let siteID := ApiTypes.Alloc.RegionName region +:+ SiteDelimiter in
  match ApiTypes.Alloc.AvailabilityZone region with [] => siteID | az :: _ => siteID +:+ az end.

(** (scheduler.go:998-1029) *)
Definition getStackSelectorFromAllocation (selector : ApiTypes.Alloc.Selector) : Selector :=
  let regions := ApiTypes.Alloc.Regions selector in
  let geo := ApiTypes.Alloc.Sel_GeoLocation selector in
  mkSelector (mkGeo (ApiTypes.Alloc.Country geo) (ApiTypes.Alloc.Area geo) (ApiTypes.Alloc.Province geo) (ApiTypes.Alloc.City geo))
    ((fun r => mkCloudRegion (ApiTypes.Alloc.RegionName r) (ApiTypes.Alloc.AvailabilityZone r)) <$> regions)
    (ApiTypes.Alloc.Operator selector) (foldl region_site "" regions) (mkStrategy (ApiTypes.Alloc.LocationStrategy selector) "") [] [].

(** (scheduler.go:1032-1072) *)
Definition getStackResourcesFromAllocationResource (allocRes : ApiTypes.Alloc.Resources) : list Resource :=
  [mkResource (ApiTypes.Alloc.R_Name allocRes) (ApiTypes.Alloc.ResourceType allocRes)
    ((fun flavor => mkFlavor (ApiTypes.Alloc.FlavorId flavor) None) <$> ApiTypes.Alloc.Flavors allocRes) ∅ (ApiTypes.Alloc.NeedEip allocRes) 1 ""].

(** The stack of a resource; [id] is the id of the allocation's metadata, [uid] and [now]
    are the new id and the time
    (scheduler.go:951-965 scheduleAllocation). *)
Definition allocation_of (alloc : ApiTypes.Alloc.Allocation) (resource : ApiTypes.Alloc.Resources) (id uid : string) (now : Z) : Allocation :=
  let selector := getStackSelectorFromAllocation (ApiTypes.Alloc.A_Selector alloc) in
  mkAllocation id
    (mkStack (ApiTypes.Alloc.R_Name resource) ∅ (getStackResourcesFromAllocationResource resource) selector (mkSelected "" "" "" "" "") uid now
       (ApiTypes.Alloc.A_Tenant alloc) (ApiTypes.Alloc.A_Namespace alloc))
    selector (ApiTypes.Alloc.Replicas alloc).

(** The instances of a resource are added to those it has
    (scheduler.go:976-985 scheduleAllocation). *)
Definition add_instances (resource : ApiTypes.Alloc.Resources) (names : list string) : ApiTypes.Alloc.Resources :=
  let vm := ApiTypes.Alloc.VM resource in
  ApiTypes.Alloc.mkResources (ApiTypes.Alloc.R_Name resource) (ApiTypes.Alloc.ResourceType resource) (ApiTypes.Alloc.Flavors resource)
    (ApiTypes.Alloc.Storage resource) (ApiTypes.Alloc.NeedEip resource)
    (ApiTypes.Alloc.mkVM (ApiTypes.Alloc.Image vm) (ApiTypes.Alloc.SecurityGroupId vm) (ApiTypes.Alloc.NicName vm)
       (ApiTypes.Alloc.ClusterInstances vm ++ ((fun n => ApiTypes.Alloc.mkCI n "") <$> names))).

(** The resources in their order, from the [idx]-th on, with the new ids and the times
    read; [false] when one could not be scheduled
    (scheduler.go:948-992 scheduleAllocation). *)
Fixpoint schedule_resources (id : string) (uids : nat -> string) (clk : nat -> Z) (idx : nat) (alloc : ApiTypes.Alloc.Allocation) (w : World) (resources : list ApiTypes.Alloc.Resources) :
    option (World * list ApiTypes.Alloc.Resources * list string * bool) :=
  match resources with
  | [] => Some (w, [], [], true)
  | resource :: resources =>
      if String.eqb (ApiTypes.Alloc.ResourceType resource) "vm" then
        '(w, stacks, err) ← Schedule ∅ w (allocation_of alloc resource id (uids idx) (clk idx));
        match err with
        | Some _ => Some (w, resource :: resources, [], false)
        | None =>
            let names := (fun s => Selected_ClusterName (Stack_Selected s)) <$> stacks in
            '(w, rest, clusterNames, ok) ← schedule_resources id uids clk (S idx) alloc w resources;
            Some (w, add_instances resource names :: rest, names ++ clusterNames, ok)
        end
      else
        '(w, rest, clusterNames, ok) ← schedule_resources id uids clk (S idx) alloc w resources;
        Some (w, resource :: rest, clusterNames, ok)
  end.

Definition set_alloc_result (alloc : ApiTypes.Alloc.Allocation) (resources : list ApiTypes.Alloc.Resources) (phase : ApiTypes.Alloc.AllocationPhase) (names : list string) :
    ApiTypes.Alloc.Allocation :=
  let s := ApiTypes.Alloc.Status alloc in
  ApiTypes.Alloc.mkAllocation (ApiTypes.Alloc.A_Name alloc) (ApiTypes.Alloc.A_Namespace alloc) (ApiTypes.Alloc.A_Tenant alloc)
    (ApiTypes.Alloc.CreationTime alloc) (ApiTypes.Alloc.DeletionTime alloc) (ApiTypes.Alloc.GroupName alloc) resources
    (ApiTypes.Alloc.A_Selector alloc) (ApiTypes.Alloc.Replicas alloc)
    (ApiTypes.Alloc.mkStatus phase (ApiTypes.Alloc.DistributorName s) (ApiTypes.Alloc.DispatcherName s) (ApiTypes.Alloc.SchedulerName s) names).

(** A failure keeps the instances of the resources before it (scheduler.go:945-995). *)
Definition scheduleAllocation (id : string) (uids : nat -> string) (clk : nat -> Z) (w : World) (alloc : ApiTypes.Alloc.Allocation) : option (World * ApiTypes.Alloc.Allocation) :=
  '(w, resources, clusterNames, ok) ← schedule_resources id uids clk 0 alloc w (ApiTypes.Alloc.GroupResources alloc);
  if (ok : bool) then Some (w, set_alloc_result alloc resources ApiTypes.Alloc.AllocationBound clusterNames)
  else Some (w, set_alloc_result alloc resources ApiTypes.Alloc.AllocationNotScheduled (ApiTypes.Alloc.ClusterNames (ApiTypes.Alloc.Status alloc))).

End Schedule.
