(* ===== verification/PodEvents.v ===== *)
(** * Pods of the scheduler

    Models the way of a pod through the scheduler ([pkg/scheduler/eventhandlers.go] and
    [scheduleOne] of [scheduler.go]): the informer's filters and handlers, the conversion
    of a pod to a stack, the worker that takes a stack from the queue, schedules it and
    binds the pod, and the record of a failure.  The API server's client is a parameter. *)
From S2P Require Import Prelude Types Strconv Heap Backoff SchedQueue SiteTree SiteCacheInfo Cache Labels Framework Plugins Binder Schedule.

Local Open Scope Z_scope.

(** ** Pods *)

(** (core/v1/types.go:6178-6184) *)
Record ResourceRegion := mkResourceRegion { Region : string; AvailablityZone : list string }.
(** (core/v1/types.go:6149-6158) *)
Record ResourceSelector := mkResourceSelector { GeoLocation_ : GeoLocation; Regions : list ResourceRegion; Operator_ : string; LocalStrategy : string }.
(** What the scheduler reads of a virtual machine (core/v1/types.go:2427-2434 VirtualMachine). *)
Record VirtualMachine := mkVirtualMachine { VM_Flavors : list string; VM_Selector : ResourceSelector; NeedEIP : bool }.

(** What the scheduler reads of a pod. *)
Record Pod := mkPod {
  P_Name : string; P_Namespace : string; P_Tenant : string; P_UID : string; P_VirtualMachine : option VirtualMachine;
  P_Phase : string; P_AssignedScheduler : string }.

(** What an informer hands to its handlers: a pod, the last known state of a deleted
    object, or something else. *)
Inductive object := APod (pod : Pod) | DeletedFinalStateUnknown (last : option Pod) | OtherObject.

Definition PodAssigned : string := "Assigned".
Definition PodBound : string := "Bound".
Definition PodNoSchedule : string := "NoSchedule".

Definition is_vm (pod : Pod) : bool := match P_VirtualMachine pod with Some _ => true | None => false end.

(** (scheduler/eventhandlers.go:124-126) *)
Definition needToSchedule (pod : Pod) : bool := is_vm pod && String.eqb (P_Phase pod) PodAssigned.
(** (scheduler/eventhandlers.go:129-131) *)
Definition assignedPod (pod : Pod) : bool := is_vm pod && String.eqb (P_Phase pod) PodBound.
(** (scheduler/eventhandlers.go:134-136) *)
Definition responsibleForPod (pod : Pod) (schedulerName : string) : bool := String.eqb schedulerName (P_AssignedScheduler pod).

(** (scheduler/eventhandlers.go:70-84 AddAllEventHandlers) *)
Definition cache_filter (name : string) (o : object) : bool :=
  match o with
  | APod pod | DeletedFinalStateUnknown (Some pod) => assignedPod pod && responsibleForPod pod name
  | _ => false
  end.

(** (scheduler/eventhandlers.go:94-108 AddAllEventHandlers) *)
Definition queue_filter (name : string) (o : object) : bool :=
  match o with
  | APod pod => needToSchedule pod && responsibleForPod pod name
  | DeletedFinalStateUnknown (Some pod) => negb (assignedPod pod) && responsibleForPod pod name
  | _ => false
  end.

(** ** From pods to stacks *)

(** The id of the last region with its first zone
    (scheduler/eventhandlers.go:251-261 getStackSelector). *)
Definition pod_region_site (siteID : string) (value : ResourceRegion) : string :=
  let siteID := Region value +:+ SiteDelimiter in
  match AvailablityZone value with [] => siteID | az :: _ => siteID +:+ az end.

(** (scheduler/eventhandlers.go:247-279) *)
Definition getStackSelector (selector : ResourceSelector) : Selector :=
  mkSelector (GeoLocation_ selector) ((fun r => mkCloudRegion (Region r) (AvailablityZone r)) <$> Regions selector) (Operator_ selector)
    (foldl pod_region_site ""%string (Regions selector)) (mkStrategy (LocalStrategy selector) "") [] [].

(** (scheduler/eventhandlers.go:221-244) *)
Definition getStackResources (name : string) (vmSpec : VirtualMachine) : list Resource :=
  [mkResource name "vm" ((fun id => mkFlavor id None) <$> VM_Flavors vmSpec) ∅ (NeedEIP vmSpec) 1 ""].

(** A pod without a virtual machine is a nil dereference
    (scheduler/eventhandlers.go:207-218). *)
Definition getStackFromPod (pod : Pod) : option Stack :=
  vm ← P_VirtualMachine pod;
  Some (mkStack (P_Name pod) ∅ (getStackResources (P_Name pod) vm) (getStackSelector (VM_Selector vm)) (mkSelected "" "" "" "" "") (P_UID pod) 0 (P_Tenant pod) (P_Namespace pod)).

Definition set_create_time (stack : Stack) (t : Z) : Stack :=
  mkStack (PodName stack) (Labels stack) (Resources stack) (Stack_Selector stack) (Stack_Selected stack) (UID stack) t (Tenant stack) (PodNamespace stack).

(** ** The handlers *)

(** The queue of waiting stacks, and the snapshot and cache. *)
Record PodScheduler := mkPodScheduler { StackQueue : PriorityQueue; ps_World : World }.

Definition set_pod_queue (s : PodScheduler) (p : PriorityQueue) : PodScheduler := mkPodScheduler p (ps_World s).
Definition set_pod_cache (s : PodScheduler) (c : schedulerCache) : PodScheduler := mkPodScheduler (StackQueue s) (set_world (ps_World s) (w_snapshot (ps_World s)) c).
Definition SchedulerCache (s : PodScheduler) : schedulerCache := w_cache (ps_World s).

(** A filter with the handlers behind it: an object that starts or stops to pass the filter
    is an addition or a deletion (tools/cache/controller.go:241-276
    FilteringResourceEventHandler). *)
Section Filtering.
Context {S : Type} (FilterFunc : object -> bool) (AddFunc : S -> object -> option S) (UpdateFunc : S -> object -> object -> option S) (DeleteFunc : S -> object -> option S).

(** (tools/cache/controller.go:247-252) *)
Definition OnAdd (s : S) (obj : object) : option S := if FilterFunc obj then AddFunc s obj else Some s.

(** (tools/cache/controller.go:255-268) *)
Definition OnUpdate (s : S) (oldObj newObj : object) : option S :=
  match FilterFunc newObj, FilterFunc oldObj with
  | true, true => UpdateFunc s oldObj newObj
  | true, false => AddFunc s newObj
  | false, true => DeleteFunc s oldObj
  | false, false => Some s
  end.

(** (tools/cache/controller.go:271-276) *)
Definition OnDelete (s : S) (obj : object) : option S := if FilterFunc obj then DeleteFunc s obj else Some s.
End Filtering.

Section Handlers.
(** The parameters of the scheduling queue. *)
Context (clk : nat -> Z) (queueSortFunc : option (StackInfo -> StackInfo -> bool)) (DeepEqual : option Stack -> option Stack -> bool).

(** An error is logged (scheduler/eventhandlers.go:139-154). *)
Definition addPodToCache (s : PodScheduler) (obj : object) : option PodScheduler :=
  match obj with
  | APod pod => stack ← getStackFromPod pod; '(c, _) ← Cache_AddStack (SchedulerCache s) stack; Some (set_pod_cache s c)
  | _ => Some s
  end.

(** (scheduler/eventhandlers.go:156-174) *)
Definition updatePodInCache (s : PodScheduler) (oldObj newObj : object) : option PodScheduler :=
  match oldObj, newObj with
  | APod oldPod, APod newPod =>
      oldStack ← getStackFromPod oldPod; newStack ← getStackFromPod newPod;
      '(c, _) ← UpdateStack (SchedulerCache s) oldStack newStack; Some (set_pod_cache s c)
  | _, _ => Some s
  end.

(** The pod of a deletion (scheduler/eventhandlers.go:177-192 deletePodFromCache). *)
Definition deleted_pod (obj : object) : option Pod := match obj with APod pod => Some pod | DeletedFinalStateUnknown o => o | OtherObject => None end.

(** (scheduler/eventhandlers.go:176-205) *)
Definition deletePodFromCache (s : PodScheduler) (obj : object) : option PodScheduler :=
  match deleted_pod obj with
  | Some pod => stack ← getStackFromPod pod; '(c, _) ← Cache_RemoveStack (SchedulerCache s) stack; Some (set_pod_cache s c)
  | None => Some s
  end.

(** [now] is the time of the addition (scheduler/eventhandlers.go:281-295). *)
Definition addPodToSchedulingQueue (now : Z) (s : PodScheduler) (obj : object) : option PodScheduler :=
  match obj with
  | APod pod => stack ← getStackFromPod pod; '(p, _) ← pq_Add clk queueSortFunc (StackQueue s) (set_create_time stack now); Some (set_pod_queue s p)
  | _ => Some s
  end.

(** (scheduler/eventhandlers.go:350-377) *)
Definition skipStackUpdate (c : schedulerCache) (stack : Stack) : bool :=
  match IsAssumedStack c stack with
  | Ok true => match GetStack c stack with Ok assumedStack => DeepEqual (Some assumedStack) (Some stack) | Err _ => false end
  | _ => false
  end.

(** (scheduler/eventhandlers.go:297-319) *)
Definition updatePodInSchedulingQueue (s : PodScheduler) (oldObj newObj : object) : option PodScheduler :=
  match oldObj, newObj with
  | APod oldPod, APod newPod =>
      oldStack ← getStackFromPod oldPod; newStack ← getStackFromPod newPod;
      if skipStackUpdate (SchedulerCache s) newStack then Some s
      else '(p, _) ← pq_Update clk queueSortFunc DeepEqual (StackQueue s) (Some oldStack) newStack; Some (set_pod_queue s p)
  | _, _ => Some s
  end.

(** (scheduler/eventhandlers.go:321-343) *)
Definition deletePodFromSchedulingQueue (s : PodScheduler) (obj : object) : option PodScheduler :=
  match deleted_pod obj with
  | Some pod => stack ← getStackFromPod pod; p ← pq_Delete queueSortFunc (StackQueue s) stack; Some (set_pod_queue s p)
  | None => Some s
  end.

(** Both filtered handlers of the pod informer, in the order in which they are added
    (scheduler/eventhandlers.go:67-115 AddAllEventHandlers). *)
Definition pod_added (name : string) (now : Z) (s : PodScheduler) (obj : object) : option PodScheduler :=
  s ← OnAdd (cache_filter name) addPodToCache s obj;
  OnAdd (queue_filter name) (addPodToSchedulingQueue now) s obj.

(** (scheduler/eventhandlers.go:67-115 AddAllEventHandlers) *)
Definition pod_updated (name : string) (now : Z) (s : PodScheduler) (oldObj newObj : object) : option PodScheduler :=
  s ← OnUpdate (cache_filter name) addPodToCache updatePodInCache deletePodFromCache s oldObj newObj;
  OnUpdate (queue_filter name) (addPodToSchedulingQueue now) updatePodInSchedulingQueue deletePodFromSchedulingQueue s oldObj newObj.

(** (scheduler/eventhandlers.go:67-115 AddAllEventHandlers) *)
Definition pod_deleted (name : string) (s : PodScheduler) (obj : object) : option PodScheduler :=
  s ← OnDelete (cache_filter name) deletePodFromCache s obj;
  OnDelete (queue_filter name) deletePodFromSchedulingQueue s obj.

(** ** Binding *)

(** (scheduler/eventhandlers.go:414-425 bindToSite) *)
Record Binding := mkBinding { B_Tenant : string; B_Namespace : string; B_Name : string; B_UID : string; Target : string }.

(** The client of the API server: the phase of a pod, the change of its status, and the
    binding; each by namespace, tenant and name. *)
Context {api : Type} (Pods_Get : api -> string -> string -> string -> result string)
  (PatchPodStatus : api -> string -> string -> string -> string -> string -> api * option string) (Pods_Bind : api -> Binding -> api * option string).

(** (scheduler/eventhandlers.go:388-411) *)
Definition setPodScheduleErr (a : api) (reqStack : Stack) : api * option string :=
  match Pods_Get a (PodNamespace reqStack) (Tenant reqStack) (PodName reqStack) with
  | Err e => (a, Some e)
  | Ok status => PatchPodStatus a (Tenant reqStack) (PodNamespace reqStack) (PodName reqStack) status PodNoSchedule
  end.

Definition binding_of (clusterName : string) (stack : Stack) : Binding := mkBinding (Tenant stack) (PodNamespace stack) (PodName stack) (UID stack) clusterName.

(** A failed binding takes the stack out of the cache (scheduler/eventhandlers.go:413-441). *)
Definition bindToSite (s : PodScheduler) (a : api) (clusterName : string) (assumedStack : Stack) : option (PodScheduler * api * option string) :=
  match Pods_Bind a (binding_of clusterName assumedStack) with
  | (a, None) => Some (s, a, None)
  | (a, Some e) => '(c, _) ← ForgetStack (SchedulerCache s) assumedStack; Some (set_pod_cache s c, a, Some e)
  end.

(** (scheduler/eventhandlers.go:379-386) *)
Fixpoint bindStacks (s : PodScheduler) (a : api) (assumedStacks : list Stack) : option (PodScheduler * api) :=
  match assumedStacks with
  | [] => Some (s, a)
  | newStack :: assumedStacks =>
      '(s, a, _) ← bindToSite s a (Selected_ClusterName (Stack_Selected newStack)) newStack;
      bindStacks s a assumedStacks
  end.

(** ** The worker *)

(** A stack, an error, or that the caller waits (internal/queue/scheduling_queue.go:750-760
    MakeNextStackFunc). *)
Definition NextStack (p : PriorityQueue) : option (PriorityQueue * option (option Stack * option string)) :=
  '(p, r) ← pq_Pop queueSortFunc p;
  match r with
  | Waiting => Some (p, None)
  | PopErr e => Some (p, Some (None, Some e))
  | Popped stack => Some (p, Some (Some stack, None))
  end.

(** [schedule] is the scheduling of an allocation and [uid] a new id.  The worker waits
    ([None] inside), or has handled a stack and says whether it goes on
    (scheduler/scheduler.go:264-310). *)
Definition scheduleOne (schedule : World -> Allocation -> option (World * list Stack * option string)) (uid : string) (s : PodScheduler) (a : api) :
    option (PodScheduler * api * option bool) :=
  '(p, next) ← NextStack (StackQueue s);
  let s := set_pod_queue s p in
  match next with
  | None => Some (s, a, None)
  | Some (None, _) => Some (s, a, Some true)
  | Some (Some _, Some _) => Some (s, a, Some false)
  | Some (Some stack, None) =>
      '(w, stacks, err) ← schedule (ps_World s) (generateAllocationFromStack uid stack);
      let s := mkPodScheduler (StackQueue s) w in
      match err with
      | Some _ => Some (s, (setPodScheduleErr a stack).1, Some true)
      | None => '(s, a) ← bindStacks s a stacks; Some (s, a, Some true)
      end
  end.

End Handlers.
