(* ===== verification/PodStore.v ===== *)
(** * Pods in the API server

    Models what the API server does with pods for the global scheduler: the metadata of a new
    pod with its hash key ([k8s.io/apiserver/pkg/registry/rest], [GetHashOfUUID]), the
    strategies of the registry ([pkg/registry/core/pod/strategy.go]), the binding of a pod to
    a scheduler or a cluster ([pkg/registry/core/pod/storage/storage.go]), the update of its
    status, the client's calls with their tenants, and the fields by which pods are selected.
    An update of a stored pod is one step, as [EtcdStore.Etcd.guaranteed_update_is_atomic]
    shows of the storage.  The validation of a pod is a parameter.  Finalizers, generated
    names and the fields that no process of the global scheduler reads are left out. *)
From S2P Require Import Prelude Types Strconv FieldSelector.
From S2P Require ApiTypes PodEvents.

Local Open Scope Z_scope.

Module Api.

(** ** Pods *)

(** What is read of the metadata of an object. *)
Record ObjectMeta := mkMeta {
  Name : string; Namespace : string; Tenant : string; UID : string; HashKey : Z; ResourceVersion : Z; CreationTimestamp : Z;
  DeletionTimestamp : option Z; Annotations : gmap string string; OwnerReferences : list (string * Z) }.

(** A virtual machine: its own fields, and those that the scheduler reads. *)
Record VirtualMachine := mkVM { vm_Name : string; vm_Image : string; vm_SecurityGroupId : string; vm_Scheduling : PodEvents.VirtualMachine }.

Record PodSpec := mkSpec {
  ClusterName : string; NodeName : string; RestartPolicy : string; SchedulerName : string; ServiceAccountName : string; ResourceType : string;
  VM : option VirtualMachine; Nics : list string }.

Record PodCondition := mkCondition { Condition_Type : string; Condition_Status : string; LastTransitionTime : Z }.

Record PodStatus := mkStatus {
  Phase : string; AssignedScheduler : string; DistributorName : string; DispatcherName : string; ClusterInstanceId : string;
  PodIP : string; NominatedNodeName : string; Conditions : list PodCondition }.

Record Pod := mkPod { meta : ObjectMeta; spec : PodSpec; status : PodStatus }.

#[export] Instance Pod_eq_dec : EqDecision Pod.
Proof. assert (EqDecision PodEvents.ResourceRegion) by solve_decision. assert (EqDecision GeoLocation) by solve_decision.
  assert (EqDecision PodEvents.ResourceSelector) by solve_decision. assert (EqDecision PodEvents.VirtualMachine) by solve_decision.
  assert (EqDecision VirtualMachine) by solve_decision. assert (EqDecision PodCondition) by solve_decision.
  assert (EqDecision PodStatus) by solve_decision. assert (EqDecision PodSpec) by solve_decision. assert (EqDecision ObjectMeta) by solve_decision. solve_decision. Defined.

Definition set_version (p : Pod) (rev : Z) : Pod :=
  let m := meta p in mkPod (mkMeta (Name m) (Namespace m) (Tenant m) (UID m) (HashKey m) rev (CreationTimestamp m) (DeletionTimestamp m) (Annotations m) (OwnerReferences m)) (spec p) (status p).

Definition PodPending : string := "Pending".
Definition PodFailed : string := "Failed".
Definition PodAssigned : string := "Assigned".
Definition PodBound : string := "Bound".
Definition ClusterScheduled : string := "Scheduled".
Definition TenantSystem : string := "system".

(** ** Hash keys *)

(** [fnv.New64a]: the hash of the bytes so far, with one more. *)
Definition fnv_byte (h : Z) (c : ascii) : Z := (Z.lxor h (Z.of_nat (nat_of_ascii c)) * 1099511628211) `mod` 2 ^ 64.
Fixpoint fnv_write (h : Z) (s : string) : Z := match s with EmptyString => h | String c s => fnv_write (fnv_byte h c) s end.
Definition fnv_Sum64 (s : string) : Z := fnv_write 14695981039346656037 s.

(** (meta/fuzzer/fuzzer.go:352-356 GetHashOfUUID) *)
Definition hash_key (rawKey : Z) : Z := wrap64 (if MaxInt64 <? rawKey then rawKey - MaxInt64 else rawKey).

(** (meta/fuzzer/fuzzer.go:346-357) *)
Definition GetHashOfUUID (idToHash : string) : Z := hash_key (fnv_Sum64 idToHash).

(** ** Creating *)

(** The namespace or the tenant of an object, filled from the request; [None] when they
    differ (registry/rest/meta.go:54-59 ValidNamespace). *)
Definition fill_scope (request object : string) : option string :=
  let object := if String.eqb object "" then request else object in if String.eqb request object then Some object else None.

Definition ns_error : string := "the namespace of the provided object does not match the namespace sent on the request".
Definition tenant_error : string := "the tenant of the provided object does not match the tenant sent on the request".

(** (registry/rest/meta.go:32-49) *)
Definition FillObjectMetaSystemFields (now : Z) (newUID : string) (uid_valid : string -> bool) (m : ObjectMeta) : ObjectMeta :=
  let uid := if (String.eqb (UID m) "" || negb (uid_valid (UID m)))%bool then newUID else UID m in
  mkMeta (Name m) (Namespace m) (Tenant m) uid (GetHashOfUUID uid) (ResourceVersion m) now (DeletionTimestamp m) (Annotations m) (OwnerReferences m).

(** (core/pod/strategy.go:71-79 podStrategy.PrepareForCreate) *)
Definition PrepareForCreate (p : Pod) : Pod := mkPod (meta p) (spec p) (mkStatus PodPending "" "" "" "" "" "" []).

Section Server.
(** The validation of a new pod and of a changed status, an error if any, and that of an id. *)
Context (Validate : Pod -> option string) (ValidatePodStatusUpdate : Pod -> Pod -> option string) (uid_valid : string -> bool).

(** In a request for a tenant and a namespace (registry/rest/create.go:77-132). *)
Definition BeforeCreate (tenant ns : string) (now : Z) (newUID : string) (p : Pod) : result Pod :=
  match fill_scope ns (Namespace (meta p)) with
  | None => Err ns_error
  | Some ns =>
      match fill_scope (if String.eqb tenant "" then TenantSystem else tenant) (Tenant (meta p)) with
      | None => Err tenant_error
      | Some tenant =>
          let m := meta p in
          let p := mkPod (mkMeta (Name m) ns tenant (UID m) (HashKey m) (ResourceVersion m) (CreationTimestamp m) None (Annotations m) (OwnerReferences m)) (spec p) (status p) in
          let p := PrepareForCreate p in
          let p := mkPod (FillObjectMetaSystemFields now newUID uid_valid (meta p)) (spec p) (status p) in
          match Validate p with Some e => Err e | None => Ok p end
      end
  end.

(** ** Binding *)

(** (pkg/api/pod/util.go:202-212) *)
Fixpoint GetPodCondition (conditions : list PodCondition) (conditionType : string) : option (nat * PodCondition) :=
  match conditions with
  | [] => None
  | c :: cs => if String.eqb (Condition_Type c) conditionType then Some (O, c) else '(i, c) ← GetPodCondition cs conditionType; Some (S i, c)
  end.

(** The conditions with the new one (pkg/api/pod/util.go:217-241). *)
Definition UpdatePodCondition (now : Z) (conditions : list PodCondition) (type st : string) : list PodCondition :=
  match GetPodCondition conditions type with
  | None => conditions ++ [mkCondition type st now]
  | Some (i, old) => <[i := mkCondition type st (if String.eqb st (Condition_Status old) then LastTransitionTime old else now)]> conditions
  end.

(** The binding of the API: the name of a pod and the target. *)
Record Binding := mkBinding { Binding_Name : string; Target_Kind : string; Target_Name : string; Target_FieldPath : string; Binding_Annotations : gmap string string }.

(** An error, if any (core/validation/validation.go:3951-3960). *)
Definition ValidatePodBinding (b : Binding) : option string :=
  if existsb (String.eqb (Target_Kind b)) [""; "Node"; "Scheduler"; "Cluster"]%string then None else Some "target.kind: Unsupported value"%string.

Definition set_cluster (sp : PodSpec) (name : string) : PodSpec :=
  mkSpec name (NodeName sp) (RestartPolicy sp) (SchedulerName sp) (ServiceAccountName sp) (ResourceType sp) (VM sp) (Nics sp).
Definition set_node (sp : PodSpec) (name : string) : PodSpec :=
  mkSpec (ClusterName sp) name (RestartPolicy sp) (SchedulerName sp) (ServiceAccountName sp) (ResourceType sp) (VM sp) (Nics sp).
Definition set_phase (st : PodStatus) (phase : string) : PodStatus :=
  mkStatus phase (AssignedScheduler st) (DistributorName st) (DispatcherName st) (ClusterInstanceId st) (PodIP st) (NominatedNodeName st) (Conditions st).
Definition set_assigned (st : PodStatus) (scheduler distributor : string) : PodStatus :=
  mkStatus PodAssigned scheduler distributor (DispatcherName st) (ClusterInstanceId st) (PodIP st) (NominatedNodeName st) (Conditions st).
Definition set_conditions (st : PodStatus) (cs : list PodCondition) : PodStatus :=
  mkStatus (Phase st) (AssignedScheduler st) (DistributorName st) (DispatcherName st) (ClusterInstanceId st) (PodIP st) (NominatedNodeName st) cs.

(** The kinds of targets (core/pod/storage/storage.go:192-206 setPodHostAndAnnotations). *)
Definition set_target (p : Pod) (oldMachine targetKind targetName targetFieldPath : string) : result (PodSpec * PodStatus) :=
  if String.eqb targetKind "Scheduler" then Ok (spec p, set_assigned (status p) targetName targetFieldPath)
  else if String.eqb targetKind "Cluster" then Ok (set_cluster (spec p) targetName, set_phase (status p) PodBound)
  else if match VM (spec p) with None => negb (String.eqb (NodeName (spec p)) oldMachine) | Some _ => false end
  then Err ("pod " +:+ Name (meta p) +:+ " is already assigned to node " +:+ NodeName (spec p))
  else Ok (set_node (spec p) targetName, status p).

(** The update that is made of the stored pod (core/pod/storage/storage.go:185-221
    setPodHostAndAnnotations). *)
Definition setPodHostAndAnnotations (now : Z) (oldMachine targetKind targetName targetFieldPath : string) (annotations : gmap string string) (p : Pod) : result Pod :=
  match DeletionTimestamp (meta p) with
  | Some _ => Err ("pod " +:+ Name (meta p) +:+ " is being deleted, cannot be assigned to a host")
  | None =>
      match set_target p oldMachine targetKind targetName targetFieldPath with
      | Err e => Err e
      | Ok (sp, st) =>
          let m := meta p in
          let m := mkMeta (Name m) (Namespace m) (Tenant m) (UID m) (HashKey m) (ResourceVersion m) (CreationTimestamp m) (DeletionTimestamp m) (annotations ∪ Annotations m) (OwnerReferences m) in
          Ok (mkPod m sp (set_conditions st (UpdatePodCondition now (Conditions st) "PodScheduled" "True")))
      end
  end.

(** ** The status *)

(** (core/pod/strategy.go:168-177 podStatusStrategy.PrepareForUpdate) *)
Definition PrepareForStatusUpdate (newPod oldPod : Pod) : Pod :=
  let m := meta newPod in
  mkPod (mkMeta (Name m) (Namespace m) (Tenant m) (UID m) (HashKey m) (ResourceVersion m) (CreationTimestamp m) None (Annotations m) (OwnerReferences (meta oldPod))) (spec oldPod) (status newPod).

(** (registry/rest/update.go:90-172) *)
Definition BeforeUpdate (tenant ns : string) (p old : Pod) : result Pod :=
  match fill_scope ns (Namespace (meta p)) with
  | None => Err ns_error
  | Some ns =>
      match fill_scope (if String.eqb tenant "" then TenantSystem else tenant) (Tenant (meta p)) with
      | None => Err tenant_error
      | Some tenant =>
          let m := meta p in
          let p := mkPod (mkMeta (Name m) ns tenant (UID m) (HashKey m) (ResourceVersion m) (CreationTimestamp m) (DeletionTimestamp m) (Annotations m) (OwnerReferences m)) (spec p) (status p) in
          let p := PrepareForStatusUpdate p old in
          let m := meta p in let mo := meta old in
          let p := mkPod (mkMeta (Name m) (Namespace m) (Tenant m) (if String.eqb (UID m) "" then UID mo else UID m) (if HashKey m =? 0 then HashKey mo else HashKey m) (ResourceVersion m)
            (if CreationTimestamp mo =? 0 then CreationTimestamp m else CreationTimestamp mo) (match DeletionTimestamp mo with Some t => Some t | None => DeletionTimestamp m end)
            (Annotations m) (OwnerReferences m)) (spec p) (status p) in
          match ValidatePodStatusUpdate p old with Some e => Err e | None => Ok p end
      end
  end.

(** The update of an existing pod; it is refused when the pod has changed since it was read,
    unless the new one has no version (registry/generic/registry/store.go:568-637
    Store.Update). *)
Definition update_existing (tenant ns : string) (p existing : Pod) : result Pod :=
  let resourceVersion := ResourceVersion (meta p) in
  if negb (resourceVersion =? 0) && negb (resourceVersion =? ResourceVersion (meta existing)) then Err "the object has been modified; please apply your changes to the latest version and try again"%string
  else BeforeUpdate tenant ns (set_version p (ResourceVersion (meta existing))) existing.

(** ** The server *)

(** The stored pods by tenant, namespace and name, and the last revision. *)
Record server := mkServer { pods : gmap (string * string * string) Pod; revision : Z }.

(** One update of a stored pod; one that changes nothing is not written. *)
Definition update_pod (s : server) (key : string * string * string) (fn : Pod -> result Pod) : result Pod * server :=
  match pods s !! key with
  | None => (Err "not found"%string, s)
  | Some old =>
      match fn old with
      | Err e => (Err e, s)
      | Ok new =>
          if decide (set_version new (ResourceVersion (meta old)) = old) then (Ok old, s)
          else let rev := revision s + 1 in (Ok (set_version new rev), mkServer (<[key := set_version new rev]> (pods s)) rev)
      end
  end.

(** A new pod; the version must not be set. *)
Definition create_pod (s : server) (tenant ns : string) (now : Z) (newUID : string) (p : Pod) : result Pod * server :=
  match BeforeCreate tenant ns now newUID p with
  | Err e => (Err e, s)
  | Ok p =>
      let key := (Tenant (meta p), Namespace (meta p), Name (meta p)) in
      if negb (ResourceVersion (meta p) =? 0) then (Err "resourceVersion should not be set on objects to be created"%string, s)
      else match pods s !! key with
           | Some _ => (Err "already exists"%string, s)
           | None => let rev := revision s + 1 in (Ok (set_version p rev), mkServer (<[key := set_version p rev]> (pods s)) rev)
           end
  end.

(** In a request for a tenant and a namespace (core/pod/storage/storage.go:156-173
    BindingREST.Create). *)
Definition Binding_Create (s : server) (tenant ns : string) (now : Z) (b : Binding) : option string * server :=
  match ValidatePodBinding b with
  | Some e => (Some e, s)
  | None =>
      let '(r, s) := update_pod s (tenant, ns, Binding_Name b)
        (setPodHostAndAnnotations now "" (Target_Kind b) (Target_Name b) (Target_FieldPath b) (Binding_Annotations b)) in
      (match r with Ok _ => None | Err e => Some e end, s)
  end.

(** In a request for a tenant and a namespace (core/pod/storage/storage.go:366-370
    StatusREST.Update). *)
Definition Status_Update (s : server) (tenant ns : string) (p : Pod) : result Pod * server := update_pod s (tenant, ns, Name (meta p)) (update_existing tenant ns p).

(** ** The client *)

(** A client of a namespace and a tenant binds the pod of that tenant
    (typed/core/v1/pod_expansion.go:35-37 pods.Bind). *)
Definition pods_Bind (s : server) (ns tenant : string) (now : Z) (b : Binding) : option string * server := Binding_Create s tenant ns now b.

(** [Pods(namespace)] is the client of the system tenant (typed/core/v1/core_client.go:145-147
    CoreV1Client.Pods). *)
Definition Pods_tenant : string := TenantSystem.

(** The tenant of the pod is used when it has one (typed/core/v1/pod.go:298-317
    pods.UpdateStatus). *)
Definition pods_UpdateStatus (s : server) (ns tenant : string) (p : Pod) : result Pod * server :=
  Status_Update s (if String.eqb (Tenant (meta p)) "" then tenant else Tenant (meta p)) ns p.
End Server.

(** ** Selection *)

(** (registry/generic/matcher.go:42-52) *)
Definition AddObjectMetaFieldsSet (source : gmap string string) (m : ObjectMeta) (hasNamespaceField : bool) : gmap string string :=
  let source := <["metadata.name" := Name m]> source in
  let source := <["metadata.hashkey" := FormatInt (HashKey m)]> source in
  let source := foldl (fun source ownerRef => <["metadata.ownerReferences.hashkey." +:+ ownerRef.1 := FormatInt ownerRef.2]> source) source (OwnerReferences m) in
  if hasNamespaceField then <["metadata.namespace" := Namespace m]> source else source.

(** (core/pod/strategy.go:209-226) *)
Definition PodToSelectableFields (p : Pod) : gmap string string :=
  let s := <["spec.clusterName" := ClusterName (spec p)]> (∅ : gmap string string) in
  let s := <["spec.nodeName" := NodeName (spec p)]> s in
  let s := <["spec.restartPolicy" := RestartPolicy (spec p)]> s in
  let s := <["spec.schedulerName" := SchedulerName (spec p)]> s in
  let s := <["spec.serviceAccountName" := ServiceAccountName (spec p)]> s in
  let s := <["status.assignedScheduler.name" := AssignedScheduler (status p)]> s in
  let s := <["status.phase" := Phase (status p)]> s in
  let s := <["status.podIP" := PodIP (status p)]> s in
  let s := <["status.nominatedNodeName" := NominatedNodeName (status p)]> s in
  AddObjectMetaFieldsSet s (meta p) true.

(** The labels that the server knows for pods (core/v1/conversion.go:60-94
    addConversionFuncs). *)
Definition pod_labels : list string :=
  ["metadata.name"; "metadata.tenant"; "metadata.namespace"; "metadata.hashkey"; "metadata.uid"; "spec.clusterName"; "spec.nodeName"; "spec.restartPolicy"; "spec.schedulerName";
   "spec.serviceAccountName"; "spec.selector.geoLocation.city"; "spec.selector.geoLocation.province"; "spec.selector.geoLocation.area"; "spec.selector.geoLocation.country";
   "spec.selector.regions.region"; "spec.selector.regions.availablityZone"; "spec.selector.operator"; "spec.selector.strategy.localStrategy"; "status.assignedScheduler.name";
   "status.phase"; "status.podIP"; "status.nominatedNodeName"]%string.

(** (core/v1/conversion.go:60-94 addConversionFuncs) *)
Definition ConvertFieldLabel : Fields.TransformFunc := fun label value =>
  if existsb (String.eqb label) pod_labels then Ok (label, value)
  else if String.eqb label "spec.host" then Ok ("spec.nodeName"%string, value)
  else if String.prefix "metadata.ownerReferences." label then Ok (label, value)
  else Err ("field label not supported: " +:+ label).

(** What the server makes of the text of a request (apiserver/pkg/endpoints/handlers/get.go:209-227
    ListResource). *)
Definition request_selector (text : string) : result Fields.Selector :=
  match Fields.ParseSelector text with Ok s => Fields.Transform s ConvertFieldLabel | Err e => Err e end.

(** A process parses its text and dies when it cannot; the client sends what the selector
    prints (tools/cache/listwatch.go:101-106 NewListWatchFromClientWithMultiTenancy). *)
Definition requested (text : string) : option (result Fields.Selector) := s ← Fields.ParseSelectorOrDie text; Some (request_selector (Fields.Selector_String s)).

(** The text for the pods of a distributor (distributor_process.go:200-201 initPodInformers). *)
Definition distributor_pods (start end_ : Z) : string :=
  "status.phase=" +:+ PodPending +:+ ",metadata.hashkey=gte:" +:+ FormatInt start +:+ ",metadata.hashkey=lte:" +:+ FormatInt end_.

(** The text for the pods of a dispatcher (dispatcher_process.go:222-223 initPodInformer). *)
Definition dispatcher_pods (phase start end_ : string) : string :=
  "status.phase=" +:+ phase +:+ ",spec.clusterName=gte:" +:+ start +:+ ",spec.clusterName=lte:" +:+ end_.

(** The pod is selected. *)
Definition selected (s : Fields.Selector) (p : Pod) : bool := Fields.Matches s (PodToSelectableFields p).
End Api.
