(* ===== verification/PodSelection.v ===== *)
(** * Every pod has its process

    Composes the ranges that the controllers give out ([Partition]) with the field selectors
    by which the processes ask for their pods ([FieldSelector], [PodStore]): a pending pod is
    selected by exactly one distributor, and a pod that is bound to a cluster by exactly one
    dispatcher, unless the name of its cluster is a number.  Ranges of such names select
    nothing, and one hash lies in no range. *)
From S2P Require Import Prelude Common ApiTypes Partition Types Strconv FieldSelector PodStore.
Import Fields Api.

Local Open Scope Z_scope.

(** ** A share of the pods *)

(** The pods in a phase with a field between two values. *)
Definition share (phase field lo hi : string) : Selector := andTerm [hasTerm "status.phase" phase; greaterEqualTerm field lo; lessEqualTerm field hi].

(** A value without the characters that are escaped. *)
Definition plain (v : string) : bool := string_all (fun c => negb (special c)) v.

Lemma share_text phase field lo hi : plain phase = true -> plain lo = true -> plain hi = true ->
  Selector_String (share phase field lo hi) = "status.phase=" +:+ phase +:+ "," +:+ field +:+ "=gte:" +:+ lo +:+ "," +:+ field +:+ "=lte:" +:+ hi.
Proof.
  intros Hp Hl Hh. unfold share. cbn [Selector_String fmap list_fmap Join]. unfold term_String. rewrite !escape_plain by done. rewrite <- !string_app_assoc. reflexivity.
Qed.

(** The server is asked for exactly the share. *)
Lemma share_requested phase field lo hi text : existsb (String.eqb field) ["metadata.hashkey"; "spec.clusterName"]%string = true -> comparison phase = false ->
  text = Selector_String (share phase field lo hi) -> ∃ s, requested text = Some (Ok s) ∧ same_terms (share phase field lo hi) s ∧ forall p, selected s p = selected (share phase field lo hi) p.
Proof.
  intros Hf Hc ->. assert (conjunction (share phase field lo hi) = true) as Hconj.
  { unfold share. cbn [conjunction forallb]. unfold readable. cbn [term_parts]. rewrite Hc, andb_false_r. cbn in Hf. destruct (String.eqb_spec field "metadata.hashkey") as [->|]; [done|].
    by destruct (String.eqb_spec field "spec.clusterName") as [->|]. }
  destruct (conjunction_read _ Hconj) as (s1 & H1 & Hs1). destruct (conjunction_read s1 (proj1 Hs1)) as (s2 & H2 & Hs2).
  exists s2. split.
  - unfold requested, ParseSelectorOrDie. rewrite H1. bind_simpl. unfold request_selector. rewrite H2. f_equal. apply conjunction_converted; [apply Hs2|].
    intros t Ht. rewrite (proj2 Hs2), (proj2 Hs1) in Ht. cbn [share conjuncts] in Ht. rewrite !elem_of_cons, elem_of_nil in Ht. cbn in Hf.
    destruct Ht as [->|[->|[->|[]]]]; cbn [Transform transform_term]; unfold transform_term, ConvertFieldLabel; [done| |];
      (destruct (String.eqb_spec field "metadata.hashkey") as [->|]; [done|]; by destruct (String.eqb_spec field "spec.clusterName") as [->|]).
  - split; [split; [apply Hs2|]; etrans; [apply Hs2|apply Hs1]|]. intros p. unfold selected. rewrite (same_terms_match s1 s2) by (apply Hs1 || apply Hs2). by apply same_terms_match.
Qed.

(** ** The fields of a pod *)

Lemma owner_fields refs field : forall source : gmap string string, String.prefix "metadata.ownerReferences.hashkey." field = false ->
  foldl (fun source ownerRef => <["metadata.ownerReferences.hashkey." +:+ ownerRef.1 := FormatInt ownerRef.2]> source) source refs !! field = source !! field.
Proof.
  induction refs as [|[kind h] refs IH]; intros source Hp; [done|]. cbn [foldl fst snd]. rewrite IH by done. apply lookup_insert_ne. intros <-.
  revert Hp. generalize "metadata.ownerReferences.hashkey."%string. intros a. induction a as [|c a IHa]; cbn; [by destruct kind|]. change (String c a +:+ kind) with (String c (a +:+ kind)).
  cbn [String.prefix]. by destruct (ascii_dec c c).
Qed.

Lemma pod_fields p : Get (PodToSelectableFields p) "status.phase" = Phase (status p) ∧ Get (PodToSelectableFields p) "metadata.hashkey" = FormatInt (HashKey (meta p)) ∧
  Get (PodToSelectableFields p) "spec.clusterName" = ClusterName (spec p).
Proof.
  unfold Get, PodToSelectableFields, AddObjectMetaFieldsSet.
  split_and!; rewrite lookup_insert_ne by done; rewrite owner_fields by done; repeat (rewrite lookup_insert_ne by done); by rewrite lookup_insert_eq.
Qed.

Lemma share_selected phase field lo hi p : selected (share phase field lo hi) p =
  (String.eqb (Phase (status p)) phase && Matches_greaterEqual field lo (PodToSelectableFields p) && Matches_lessEqual field hi (PodToSelectableFields p))%bool.
Proof.
  unfold selected, share. cbn [Matches forallb]. unfold Matches_has. destruct (pod_fields p) as (-> & _). by rewrite andb_true_r, andb_assoc.
Qed.

(** ** Distributors *)

Lemma format_plain z : plain (FormatInt z) = true.
Proof.
  assert (forall s, string_all (fun c => bool_decide (is_Some (digit c))) s = true -> plain s = true) as Hd.
  { induction s as [|c s IH]; [done|]. unfold plain. cbn [string_all]. intros [Hc Hs]%andb_true_iff. apply andb_true_iff. split; [|by apply IH].
    apply bool_decide_eq_true in Hc as [d Hc]. by destruct c as [[] [] [] [] [] [] [] []]. }
  unfold FormatInt. destruct (z <? 0); [change (plain (String "-" ?s)) with (plain s)|]; by apply Hd, digits_all.
Qed.

Lemma distributor_selects start end_ : int64_range start -> int64_range end_ -> ∃ s, requested (distributor_pods start end_) = Some (Ok s) ∧ same_terms (share PodPending "metadata.hashkey" (FormatInt start) (FormatInt end_)) s ∧
  forall p, int64_range (HashKey (meta p)) -> selected s p = true <-> Phase (status p) = PodPending ∧ start <= HashKey (meta p) <= end_.
Proof.
  intros Hs He. destruct (share_requested PodPending "metadata.hashkey" (FormatInt start) (FormatInt end_) (distributor_pods start end_)) as (s & Hreq & Hterms & Hsel); [done|done| |].
  { symmetry. apply share_text; [done|apply format_plain..]. }
  exists s. split; [done|]. split; [done|]. intros p Hh. rewrite Hsel, share_selected. unfold Matches_greaterEqual, Matches_lessEqual. destruct (pod_fields p) as (_ & -> & _).
  rewrite !compare_integers by done. rewrite Z.geb_leb, !andb_true_iff, String.eqb_eq, !Z.leb_le. tauto.
Qed.

(** ** Dispatchers *)

Lemma dispatcher_selects phase d : plain phase = true -> comparison phase = false -> plain (ClusterRange_Start d) = true -> plain (ClusterRange_End d) = true ->
  ∃ s, requested (dispatcher_pods phase (ClusterRange_Start d) (ClusterRange_End d)) = Some (Ok s) ∧ same_terms (share phase "spec.clusterName" (ClusterRange_Start d) (ClusterRange_End d)) s ∧
  forall p, ParseInt (ClusterName (spec p)) = None -> selected s p = true <-> Phase (status p) = phase ∧ Dispatchers.dispatches d (ClusterName (spec p)).
Proof.
  intros Hp Hc Hs He. destruct (share_requested phase "spec.clusterName" (ClusterRange_Start d) (ClusterRange_End d) (dispatcher_pods phase (ClusterRange_Start d) (ClusterRange_End d)))
    as (s & Hreq & Hterms & Hsel); [done|done|by symmetry; apply share_text|].
  exists s. split; [done|]. split; [done|]. intros p Hn. rewrite Hsel, share_selected. unfold Matches_greaterEqual, Matches_lessEqual, compare_values, Dispatchers.dispatches.
  destruct (pod_fields p) as (_ & _ & ->). rewrite Hn, !andb_true_iff, String.eqb_eq. unfold String.le. rewrite !Is_true_true. tauto.
Qed.

(** ** Hash keys *)

Lemma fnv_range s : 0 <= fnv_Sum64 s < 2 ^ 64.
Proof.
  unfold fnv_Sum64. assert (0 <= 14695981039346656037 < 2 ^ 64) as H by done. revert H. generalize 14695981039346656037. induction s as [|c s IH]; intros h H; [done|].
  cbn [fnv_write]. apply IH. by apply Z.mod_pos_bound.
Qed.

(** Every hash but the largest is mapped to a non-negative number. *)
Lemma hash_key_range raw : 0 <= raw < 2 ^ 64 - 1 -> 0 <= hash_key raw <= MaxInt64.
Proof.
  intros H. unfold hash_key. rewrite wrap64_id; unfold int64_range, MinInt64, MaxInt64 in *; destruct (Z.ltb_spec 9223372036854775807 raw); lia.
Qed.

Lemma largest_hash : hash_key (2 ^ 64 - 1) = MinInt64.
Proof. reflexivity. Qed.

(** ** One process each *)

(** C6.  When the distributor controller has divided the hash keys among its distributors,
    exactly one of them selects a pending pod, by the text that it sends to the API server:
    whatever the id of the pod is, as long as its hash is not the largest of all. *)
Theorem pending_pod_has_one_distributor {W} (api_Update : W -> Distributor -> W * result Distributor) ds w uid p :
  (forall w d w' d', api_Update w d = (w', Ok d') -> Ds_Name d' = Ds_Name d ∧ Range_Start d' = Range_Start d ∧ Range_End d' = Range_End d) ->
  ds ≠ [] -> Z.of_nat (length ds) <= MaxInt64 -> fnv_Sum64 uid <> 2 ^ 64 - 1 -> HashKey (meta p) = GetHashOfUUID uid -> Phase (status p) = PodPending ->
  ∃ w' ds' r, Distributors.rebalance api_Update (Ok ds) w = Some (w', ds', r) ∧ ((forall w d, is_ok (api_Update w d).2 = true) -> r = Ok tt) ∧
    (r = Ok tt -> ∃ k d, ds' !! k = Some d ∧ (∃ s, requested (distributor_pods (Range_Start d) (Range_End d)) = Some (Ok s) ∧ selected s p = true) ∧
       forall k' d' s', ds' !! k' = Some d' -> requested (distributor_pods (Range_Start d') (Range_End d')) = Some (Ok s') -> selected s' p = true -> k' = k).
Proof.
  intros Hup Hne Hlen Hfnv Hkey Hphase. destruct (Distributors.rebalance_divides api_Update ds w Hne Hlen) as (w' & ds' & r & -> & _ & Hdiv & Hall).
  exists w', ds', r. split_and!; [done|done|]. intros Hok. specialize (Hdiv Hok).
  assert (0 <= HashKey (meta p) <= MaxInt64) as Hh by (rewrite Hkey; apply hash_key_range; pose proof (fnv_range uid); lia).
  assert (forall k d, ds' !! k = Some d -> ∃ s, requested (distributor_pods (Range_Start d) (Range_End d)) = Some (Ok s) ∧ (selected s p = true <-> Range_Start d <= HashKey (meta p) <= Range_End d)) as Hsel.
  { intros k d Hd. destruct (Distributors.divided_bounds ds' k d Hdiv Hd) as [Hs He].
    destruct (distributor_selects (Range_Start d) (Range_End d)) as (s & Hreq & _ & Hs'); [unfold int64_range, MinInt64, MaxInt64 in *; lia..|].
    exists s. split; [done|]. rewrite Hs' by (unfold int64_range, MinInt64, MaxInt64 in *; lia). tauto. }
  destruct (Distributors.divided_partition ds' _ Hdiv Hh) as (k & d & Hd & Hin & Huniq). exists k, d. split; [done|]. split.
  - destruct (Hsel k d Hd) as (s & Hreq & Hs). exists s. split; [done|by apply Hs].
  - intros k' d' s' Hd' Hreq' Hs'. destruct (Hsel k' d' Hd') as (s & Hreq & Hs). rewrite Hreq in Hreq'. injection Hreq' as ->. by apply (Huniq k' d'), Hs.
Qed.

(** C5.  After any sequence of the events of its informers, in which clusters are added with
    new names, exactly one dispatcher of the dispatcher controller selects a pod that is bound
    to a live cluster, by the text that it sends to the API server: when there is a dispatcher,
    the names of the clusters have no special characters and the name of this one is not a
    number. *)
Theorem bound_pod_has_one_dispatcher {W} (api_Update : W -> Dispatcher -> W * result Dispatcher) es w w' dc p :
  (forall w d w' d', api_Update w d = (w', Ok d') -> ClusterRange_Start d' = ClusterRange_Start d ∧ ClusterRange_End d' = ClusterRange_End d) ->
  Dispatchers.fresh_names [] es -> Z.of_nat (length es) <= MaxInt64 -> (forall name, name ∈ Dispatchers.live_names [] es -> plain name = true) ->
  Dispatchers.run api_Update (Dispatchers.mkDC [] []) w es = Some (w', dc) -> Dispatchers.dispatchers dc ≠ [] ->
  Phase (status p) = PodBound -> ClusterName (spec p) ∈ Dispatchers.live_names [] es -> ParseInt (ClusterName (spec p)) = None ->
  ∃ k d, Dispatchers.dispatchers dc !! k = Some d ∧ (∃ s, requested (dispatcher_pods PodBound (ClusterRange_Start d) (ClusterRange_End d)) = Some (Ok s) ∧ selected s p = true) ∧
    forall k' d' s', Dispatchers.dispatchers dc !! k' = Some d' -> requested (dispatcher_pods PodBound (ClusterRange_Start d') (ClusterRange_End d')) = Some (Ok s') ->
      selected s' p = true -> k' = k.
Proof.
  intros Hup Hfresh Hlen Hplain Hrun Hne Hphase Hlive Hnum.
  destruct (Dispatchers.run_tracks api_Update Hup es [] 0 (Dispatchers.mkDC [] []) w) as [Htr _]; [|done|done|].
  { unfold Dispatchers.tracks, Dispatchers.names_ok. cbn. split_and!; [apply Sorted_nil|apply NoDup_nil_2|apply not_elem_of_nil|done|by intros []|done|done|done]. }
  destruct (Htr _ _ Hrun) as (_ & Hnames & [Hb Hnamed] & _).
  assert (Dispatchers.clusters dc ≠ []) as Hcl by (intros Hnil; apply Hnames in Hlive; rewrite Hnil in Hlive; by apply elem_of_nil in Hlive).
  assert (forall name, name ∈ ""%string :: Dispatchers.clusters dc -> plain name = true) as Hpl by (intros name [->|Hin]%elem_of_cons; [done|]; by apply Hplain, Hnames).
  assert (forall k d, Dispatchers.dispatchers dc !! k = Some d -> ∃ s, requested (dispatcher_pods PodBound (ClusterRange_Start d) (ClusterRange_End d)) = Some (Ok s) ∧
    (selected s p = true <-> Dispatchers.dispatches d (ClusterName (spec p)))) as Hsel.
  { intros k d Hd. destruct (Hnamed Hcl k d Hd) as [Hs He]. destruct (dispatcher_selects PodBound d) as (s & Hreq & _ & Hs'); [done|done|by apply Hpl|by apply Hpl|].
    exists s. split; [done|]. rewrite Hs' by done. tauto. }
  destruct (Hb Hne (ClusterName (spec p))) as (k & d & Hd & Hin & Huniq); [by apply Hnames|]. exists k, d. split; [done|]. split.
  - destruct (Hsel k d Hd) as (s & Hreq & Hs). exists s. split; [done|by apply Hs].
  - intros k' d' s' Hd' Hreq' Hs'. destruct (Hsel k' d' Hd') as (s & Hreq & Hs). rewrite Hreq in Hreq'. injection Hreq' as ->. by apply (Huniq k' d'), Hs.
Qed.

(** ** Pods without a process *)

(** The names of the clusters are numbers, which are sorted as strings and compared as
    numbers: the range of the only dispatcher is empty, and no pod that is bound to one of
    the clusters is selected. *)
Theorem numeric_clusters_are_not_dispatched :
  let es := [Dispatchers.AddClusterE (demo_cluster "us" "w" "ca" "sf" "9" 1); Dispatchers.AddClusterE (demo_cluster "us" "w" "ca" "sf" "10" 1);
             Dispatchers.AddDispatcher (mkDispatcher "d0" "default" "" "")] in
  ∃ dc d, Dispatchers.run Dispatchers.accept (Dispatchers.mkDC [] []) tt es = Some (tt, dc) ∧ Dispatchers.dispatchers dc = [d] ∧
    forall phase, plain phase = true -> comparison phase = false ->
    ∃ s, requested (dispatcher_pods phase (ClusterRange_Start d) (ClusterRange_End d)) = Some (Ok s) ∧
      forall p, ClusterName (spec p) ∈ Dispatchers.live_names [] es -> selected s p = false.
Proof.
  intros es. exists (Dispatchers.mkDC ["10"; "9"]%string [mkDispatcher "d0" "default" "10" "9"]), (mkDispatcher "d0" "default" "10" "9").
  split; [vm_compute; reflexivity|]. split; [done|]. intros phase Hp Hc. cbn [ClusterRange_Start ClusterRange_End].
  destruct (share_requested phase "spec.clusterName" "10" "9" (dispatcher_pods phase "10" "9")) as (s & Hreq & _ & Hsel); [done|done|by symmetry; apply share_text|].
  exists s. split; [done|]. intros p Hin. rewrite Hsel, share_selected. unfold Matches_greaterEqual, Matches_lessEqual. destruct (pod_fields p) as (_ & _ & ->).
  assert (ClusterName (spec p) = "10"%string ∨ ClusterName (spec p) = "9"%string) as [-> | ->] by set_solver.
  - change (compare_values Z.leb String.leb "10" "9") with false. by rewrite andb_false_r.
  - change (compare_values Z.geb (fun l r => String.leb r l) "9" "10") with false. by rewrite andb_false_r.
Qed.

(** The pod with the largest hash has a negative hash key, which no distributor of a divided
    range selects. *)
Theorem largest_hash_has_no_distributor ds k d s p : Distributors.divided ds -> ds !! k = Some d -> HashKey (meta p) = hash_key (2 ^ 64 - 1) ->
  requested (distributor_pods (Range_Start d) (Range_End d)) = Some (Ok s) -> selected s p = false.
Proof.
  intros Hdiv Hd Hh Hreq. rewrite largest_hash in Hh. destruct (Distributors.divided_bounds ds k d Hdiv Hd) as [Hs He].
  destruct (distributor_selects (Range_Start d) (Range_End d)) as (s' & Hreq' & _ & Hs'); [unfold int64_range, MinInt64, MaxInt64 in *; lia..|].
  rewrite Hreq in Hreq'. injection Hreq' as <-. destruct (selected s p) eqn:E; [|done]. apply Hs' in E; rewrite Hh in *; [|done].
  unfold MinInt64 in E. lia.
Qed.

(** ** Pods on their way *)

Definition demo_stored (phase cluster : string) : Pod :=
  mkPod (mkMeta "pod" "default" "system" "a-b" (GetHashOfUUID "a-b") 1 1 None ∅ []) (mkSpec cluster "" "Always" "" "" "vm" None []) (mkStatus phase "" "" "" "" "" "" []).

Definition demo_store (w : unit) (d : Distributor) : unit * result Distributor := (w, Ok d).

Lemma pending_pod_has_one_distributor_witness : ∃ w' ds', Distributors.rebalance demo_store (Ok [mkDistributor "x" "default" 0 0; mkDistributor "y" "default" 0 0]) tt = Some (w', ds', Ok tt) ∧
  ∃ k d s, ds' !! k = Some d ∧ requested (distributor_pods (Range_Start d) (Range_End d)) = Some (Ok s) ∧ selected s (demo_stored PodPending "") = true.
Proof.
  destruct (pending_pod_has_one_distributor demo_store [mkDistributor "x" "default" 0 0; mkDistributor "y" "default" 0 0] tt "a-b" (demo_stored PodPending ""))
    as (w' & ds' & r & Hrun & Hok & Hone).
  - by intros w d w' d' [= <- <-].
  - done.
  - by vm_compute.
  - intros H. vm_compute in H. discriminate H.
  - reflexivity.
  - reflexivity.
  - specialize (Hok (fun w d => eq_refl)). subst r. destruct (Hone eq_refl) as (k & d & Hd & (s & Hreq & Hs) & _). exists w', ds'. split; [exact Hrun|]. exists k, d, s. by split_and!.
Defined.

Definition demo_dispatch_events : list Dispatchers.event :=
  [Dispatchers.AddClusterE (demo_cluster "us" "w" "ca" "sf" "c1" 1); Dispatchers.AddDispatcher (mkDispatcher "d0" "default" "" "");
   Dispatchers.AddDispatcher (mkDispatcher "d1" "default" "" ""); Dispatchers.AddClusterE (demo_cluster "us" "w" "ca" "sf" "c2" 1)].
Definition demo_dispatchers : Dispatchers.DispatcherController :=
  Dispatchers.mkDC ["c1"; "c2"]%string [mkDispatcher "d0" "default" "c1" "c1"; mkDispatcher "d1" "default" "c2" "c2"].

Lemma demo_dispatch_run : Dispatchers.run Dispatchers.accept (Dispatchers.mkDC [] []) tt demo_dispatch_events = Some (tt, demo_dispatchers).
Proof. vm_compute. reflexivity. Qed.

Lemma bound_pod_has_one_dispatcher_witness : ∃ k d s, Dispatchers.dispatchers demo_dispatchers !! k = Some d ∧
  requested (dispatcher_pods PodBound (ClusterRange_Start d) (ClusterRange_End d)) = Some (Ok s) ∧ selected s (demo_stored PodBound "c2") = true.
Proof.
  destruct (bound_pod_has_one_dispatcher Dispatchers.accept demo_dispatch_events tt tt demo_dispatchers (demo_stored PodBound "c2")) as (k & d & Hd & (s & Hreq & Hs) & _).
  - intros w d w' d' [= <- <-]. done.
  - cbn. rewrite !not_elem_of_cons. split_and!; done || apply not_elem_of_nil.
  - vm_compute. done.
  - intros name Hin. assert (name = "c1"%string ∨ name = "c2"%string) as [-> | ->] by (cbn in Hin; set_solver); reflexivity.
  - exact demo_dispatch_run.
  - done.
  - reflexivity.
  - cbn. set_solver.
  - reflexivity.
  - exists k, d, s. by split_and!.
Defined.
