(* ===== verification/PodWatch.v ===== *)
(** * The pods behind the API server's cacher

    Composes the keys of the generic registry ([registry/generic/registry/store.go]) and the
    selection of pods ([core/pod/strategy.go], [PodStore], [PodSelection]) with the cacher and
    its clients ([Cacher], [CacherClients]).  The keys of the informers are the paths of the
    storage.  The watchers of pods are found by the node of the pod, and none of a process's
    selectors misses an event; so the informer of a distributor holds exactly the pending pods
    of its range.  The path of a namespace also selects the pods of a tenant of that name, and
    the other way round. *)
From S2P Require Import Prelude Types Common Strconv IndexedStore DeltaFifo Informer FieldSelector PodStore PodSelection Revision WatchCache Cacher CacherClients.
Import Fields.

Local Open Scope Z_scope.

(** ** Keys *)

(** The tenant and the namespace of a request. *)
Record request_context := mkRequest { ctx_tenant : option string; ctx_namespace : option string }.

(** Without a tenant it is the system's (endpoints/request/context.go:71-78). *)
Definition TenantFrom (ctx : request_context) : string := default Api.TenantSystem (ctx_tenant ctx).

(** (validation/path/name.go:31-46) *)
Definition IsValidPathSegmentName (name : string) : list string :=
  if existsb (String.eqb name) ["."; ".."]%string then ["may not be '" +:+ name +:+ "'"]
  else
    (if string_all (fun c => negb (Ascii.eqb c "/")) name then [] else ["may not contain '/'"]) ++
    (if string_all (fun c => negb (Ascii.eqb c "%")) name then [] else ["may not contain '%'"]).

(** (generic/registry/store.go:217-235) *)
Definition NamespaceKeyRootFunc (ctx : request_context) (prefix : string) : string :=
  let te := TenantFrom ctx in
  let key := if String.eqb te "" || String.eqb te Api.TenantSystem then prefix else prefix +:+ "/" +:+ te in
  match ctx_namespace ctx with
  | None => key
  | Some ns => if String.eqb ns "" then key else key +:+ "/" +:+ ns
  end.

(** (generic/registry/store.go:254-280) *)
Definition NamespaceKeyFunc (ctx : request_context) (prefix name : string) : result string :=
  match ctx_namespace ctx with
  | None | Some EmptyString => Err "Namespace parameter required."
  | Some _ =>
      if String.eqb name "" then Err "Name parameter required."
      else match IsValidPathSegmentName name with
           | [] => Ok (NamespaceKeyRootFunc ctx prefix +:+ "/" +:+ name)
           | msgs => Err ("Name parameter invalid: " +:+ Join msgs ";")
           end
  end.

(** The name that a selector requires (storage/selection_predicate.go:131-140). *)
Definition MatchesSingle (s : SelectionPredicate) : option string := let '(name, ok) := RequiresExactMatch (pred_Field s) "metadata.name" in if (ok : bool) then Some name else None.

(** The key that is watched (generic/registry/store.go:1204-1216). *)
Definition WatchPredicate (ctx : request_context) (prefix : string) (p : SelectionPredicate) : string :=
  match MatchesSingle p with
  | Some name => match NamespaceKeyFunc ctx prefix name with Ok key => key | Err _ => NamespaceKeyRootFunc ctx prefix end
  | None => NamespaceKeyRootFunc ctx prefix
  end.

(** ** Pods *)

Section Pods.
(** The path of the resource, and the labels of a pod. *)
Context (prefix : string) (Labels : Api.Pod -> attrs).

(** (generic/registry/store.go:1413-1433 CompleteWithOptions) *)
Definition pod_keyFunc (p : Api.Pod) : result string :=
  NamespaceKeyFunc (mkRequest (Some (Api.Tenant (Api.meta p))) (Some (Api.Namespace (Api.meta p)))) prefix (Api.Name (Api.meta p)).

(** (core/pod/strategy.go:184-190) *)
Definition GetAttrs (p : Api.Pod) : result (attrs * attrs) := Ok (Labels p, Api.PodToSelectableFields p).

(** (core/pod/strategy.go:193-200) *)
Definition MatchPod (label_Matches : attrs -> bool) (label_Empty : bool) (field : Selector) : SelectionPredicate := mkPredicate label_Matches label_Empty field ["spec.nodeName"%string].

(** (core/pod/strategy.go:202-206) *)
Definition NodeNameTriggerFunc (p : Api.Pod) : list string := [Api.NodeName (Api.spec p)].

(** The key of an informer (tools/cache/store.go:78-96 MetaNamespaceKeyFunc). *)
Definition pod_MetaNamespaceKeyFunc (p : Api.Pod) : result string :=
  let metaKey := Api.Name (Api.meta p) in
  let metaKey := if String.eqb (Api.Namespace (Api.meta p)) "" then metaKey else Api.Namespace (Api.meta p) +:+ "/" +:+ metaKey in
  Ok (if String.eqb (Api.Tenant (Api.meta p)) "" || String.eqb (Api.Tenant (Api.meta p)) Api.TenantSystem then metaKey else Api.Tenant (Api.meta p) +:+ "/" +:+ metaKey).

(** The path of a key of an informer. *)
Definition pod_path (id : string) : string := prefix +:+ "/" +:+ id.

#[export] Instance pod_path_inj : Inj (=) (=) pod_path.
Proof. intros a b. unfold pod_path. induction prefix as [|c s IH]; [change (String "/" a = String "/" b -> a = b); congruence|]. change (String c s +:+ ?t) with (String c (s +:+ t)). intros [= H]. by apply IH. Qed.

(** The two keys differ by the path of the resource. *)
Lemma pod_keys_agree p k : pod_keyFunc p = Ok k -> ∃ id, pod_MetaNamespaceKeyFunc p = Ok id ∧ k = pod_path id.
Proof.
  unfold pod_keyFunc, NamespaceKeyFunc, pod_MetaNamespaceKeyFunc, NamespaceKeyRootFunc, TenantFrom, pod_path. cbn [ctx_namespace ctx_tenant from_option default id].
  destruct (Api.Namespace (Api.meta p)) as [|c ns] eqn:En; [done|]. destruct (String.eqb (Api.Name (Api.meta p)) ""); [done|]. destruct (IsValidPathSegmentName _); [|done].
  intros [= <-]. eexists. split; [reflexivity|]. change (String.eqb (String c ns) "") with false. cbn [orb]. destruct (_ || _); rewrite <- ?string_app_assoc; done.
Qed.

Lemma stable_pod_keys : stable_keys pod_keyFunc Api.set_version.
Proof. done. Qed.

Lemma node_field p : Get (Api.PodToSelectableFields p) "spec.nodeName" = Api.NodeName (Api.spec p).
Proof.
  unfold Get, Api.PodToSelectableFields, Api.AddObjectMetaFieldsSet. rewrite lookup_insert_ne by done. rewrite owner_fields by done. repeat (rewrite lookup_insert_ne by done). by rewrite lookup_insert_eq.
Qed.

Lemma pods_trigger : triggers_on GetAttrs (Some NodeNameTriggerFunc) NodeNameTriggerFunc "spec.nodeName".
Proof. split; [done|]. intros p ls fs [= <- <-]. unfold NodeNameTriggerFunc. by rewrite node_field. Qed.

Lemma conjunction_conjunctive s : conjunction s = true -> conjunctive s = true.
Proof.
  assert (forall q, readable q = true -> conjunctive q = true) as Hr by (by intros []). destruct s as [| | | | | | |[|q t]|]; cbn [conjunction]; try done. intros H. cbn [conjunctive].
  induction (q :: t) as [|a l IH]; [done|]. cbn in H |- *. apply andb_true_iff in H as [? ?]. by rewrite Hr, IH.
Qed.

(** No event is missed by a watcher whose selector has no alternatives. *)
Lemma pod_watcher_triggers lm le s key : conjunction s = true -> trigger_ok pod_keyFunc GetAttrs Api.set_version (Some NodeNameTriggerFunc) (MatchPod lm le s) key.
Proof. intros Hs. by apply (conjunctive_triggers _ _ _ _ NodeNameTriggerFunc "spec.nodeName"); [apply pods_trigger|apply conjunction_conjunctive|]. Qed.

Lemma requires_exact s field : conjunction s = true -> (RequiresExactMatch s field).2 = existsb (fun q => (RequiresExactMatch q field).2) (conjuncts s).
Proof.
  destruct s as [| | | | | | |t|]; cbn [conjunction conjuncts existsb]; rewrite ?orb_false_r; try done. intros _. cbn [RequiresExactMatch]. induction t as [|q t IH]; [done|]. cbn [existsb].
  destruct (RequiresExactMatch q field) as [v []]; [done|]. exact IH.
Qed.

(** ** The pods of a path *)

Definition segment (s : string) : bool := string_all (fun c => negb (Ascii.eqb c "/")) s.

Lemma prefix_strip a s t : String.prefix (a +:+ s) (a +:+ t) = String.prefix s t.
Proof. induction a as [|c a IH]; [done|]. change (String c a +:+ ?x) with (String c (a +:+ x)). cbn. by destruct (ascii_dec c c). Qed.

Lemma length_strip a s : String.length (a +:+ s) = (String.length a + String.length s)%nat.
Proof. induction a as [|c a IH]; [done|]. change (String c a +:+ ?x) with (String c (a +:+ x)). cbn. by rewrite IH. Qed.

Lemma get_strip a s n : String.get (String.length a + n) (a +:+ s) = String.get n s.
Proof. induction a as [|c a IH]; [done|]. change (String c a +:+ ?x) with (String c (a +:+ x)). exact IH. Qed.

(** A path goes on behind a prefix that does not end in a slash. *)
Lemma path_prefix_strip a s t : s <> EmptyString -> hasPathPrefix (a +:+ t) (a +:+ s) = hasPathPrefix t s.
Proof.
  intros Hs. unfold hasPathPrefix. rewrite prefix_strip, !length_strip. destruct (String.prefix s t); [|done]. cbn [negb]. assert (0 < String.length s)%nat by (destruct s; [done|cbn; lia]).
  destruct (Nat.eqb_spec (String.length t) (String.length s)), (Nat.eqb_spec (String.length a + String.length t) (String.length a + String.length s)); [done|lia|lia|].
  replace (String.length a + String.length s - 1)%nat with (String.length a + (String.length s - 1))%nat by lia. rewrite !get_strip. destruct s as [|c s]; [done|].
  destruct a as [|c' a]; [done|]. change (String c' a +:+ ?x) with (String c' (a +:+ x)). done.
Qed.

Lemma last_of_segment s : segment s = true -> match String.get (String.length s - 1) s with Some c => Ascii.eqb c "/" | None => false end = false.
Proof.
  induction s as [|c s IH]; [done|]. unfold segment. cbn [string_all]. intros [Hc Hs]%andb_true_iff. destruct s as [|c' s]; [cbn; by destruct (Ascii.eqb c "/")|].
  cbn [String.length]. replace (S (S (String.length s)) - 1)%nat with (S (String.length (String c' s) - 1)) by (cbn; lia). cbn [String.get]. by apply IH.
Qed.

Lemma segment_prefix s : segment s = true -> s <> EmptyString -> forall seg rest, segment seg = true -> hasPathPrefix (seg +:+ "/" +:+ rest) s = String.eqb seg s.
Proof.
  intros Hs Hne seg rest Hseg. unfold hasPathPrefix. pose proof (last_of_segment s Hs) as Hlast. destruct (String.eqb_spec seg s) as [->|Hneq].
  - replace (String.prefix s (s +:+ "/" +:+ rest)) with true by (clear; induction s as [|c s IH]; [done|]; change (String c s +:+ ?x) with (String c (s +:+ x)); cbn; by destruct (ascii_dec c c)). cbn [negb].
    destruct (Nat.eqb _ _); [done|]. destruct s as [|c s]; [done|]. rewrite Hlast. rewrite <- (Nat.add_0_r (String.length _)), get_strip. done.
  - destruct (String.prefix s (seg +:+ "/" +:+ rest)) eqn:Ep; [|done]. cbn [negb]. assert (∃ more, seg = s +:+ more ∧ more <> EmptyString) as (more & -> & Hmore).
    { clear Hlast Hne. revert seg Hseg Hneq Ep. induction s as [|c s IH]; intros seg Hseg Hneq Ep; [by exists seg|]. destruct seg as [|c' seg].
      - change (String.prefix (String c s) (String "/" rest) = true) in Ep. cbn in Ep. destruct (ascii_dec c "/") as [->|]; done.
      - change (String.prefix (String c s) (String c' (seg +:+ "/" +:+ rest)) = true) in Ep. cbn in Ep. destruct (ascii_dec c c') as [<-|]; [|done]. cbn in Hs, Hseg. apply andb_true_iff in Hs as [_ Hs], Hseg as [_ Hseg].
        destruct (IH Hs seg Hseg ltac:(congruence) Ep) as (more & -> & ?). by exists more. }
    rewrite <- string_app_assoc, length_strip. destruct (Nat.eqb_spec (String.length s + String.length (more +:+ "/" +:+ rest)) (String.length s)) as [E|_].
    { destruct more; [done|]. change (String _ more +:+ ?x) with (String a (more +:+ x)) in E. cbn in E. lia. }
    destruct s as [|c s]; [done|]. rewrite Hlast, <- (Nat.add_0_r (String.length _)), get_strip. destruct more as [|c' more]; [done|]. change (String c' more +:+ ?x) with (String c' (more +:+ x)). cbn.
    assert (segment (String c s +:+ String c' more) = true -> negb (Ascii.eqb c' "/") = true) as H.
    { clear. generalize (String c s). intros t. induction t as [|d t IH]; [by intros [? _]%andb_true_iff|]. change (String d t +:+ ?x) with (String d (t +:+ x)). by intros [_ ?]%andb_true_iff; apply IH. }
    specialize (H Hseg). by destruct (Ascii.eqb c' "/").
Qed.

Definition of_system (p : Api.Pod) : bool := String.eqb (Api.Tenant (Api.meta p)) "" || String.eqb (Api.Tenant (Api.meta p)) Api.TenantSystem.

(** C40.  What the path of a namespace selects, for names that are segments of a path: a list
    or a watch of a namespace of the system is given the pods of that namespace, and all pods
    of a tenant of that name; and a list or a watch of all namespaces of a tenant is given its
    pods, and those of the system in the namespace of its name. *)
Theorem path_selects_across_tenants p k name : pod_keyFunc p = Ok k -> segment (Api.Namespace (Api.meta p)) = true -> segment (Api.Tenant (Api.meta p)) = true -> segment name = true -> name <> EmptyString -> name <> Api.TenantSystem ->
  (forall ctx, ctx = mkRequest None (Some name) ∨ ctx = mkRequest (Some name) None ->
    hasPathPrefix k (NamespaceKeyRootFunc ctx prefix) = if of_system p then String.eqb (Api.Namespace (Api.meta p)) name else String.eqb (Api.Tenant (Api.meta p)) name).
Proof.
  intros Hk Hns Hte Hname Hne Hsys ctx Hctx. assert (NamespaceKeyRootFunc ctx prefix = pod_path name) as ->.
  { destruct Hctx as [-> | ->]; unfold NamespaceKeyRootFunc, TenantFrom; cbn [ctx_tenant ctx_namespace default from_option id]; [|rewrite (proj2 (String.eqb_neq name Api.TenantSystem) Hsys), (proj2 (String.eqb_neq name "") Hne)]; [|done].
    cbn [String.eqb orb]. change (String.eqb Api.TenantSystem "" || _) with true. cbn iota. by rewrite (proj2 (String.eqb_neq name "") Hne). }
  revert Hk. unfold pod_keyFunc, NamespaceKeyFunc, NamespaceKeyRootFunc, TenantFrom, pod_path, of_system. cbn [ctx_namespace ctx_tenant from_option default id].
  destruct (Api.Namespace (Api.meta p)) as [|c ns] eqn:En; [done|]. destruct (String.eqb (Api.Name (Api.meta p)) ""); [done|]. destruct (IsValidPathSegmentName _); [|done].
  change (String.eqb (String c ns) "") with false. cbn iota. intros [= <-]. destruct (_ || _) eqn:Et; rewrite <- ?string_app_assoc, !(string_app_assoc prefix "/"), path_prefix_strip by done.
  - by apply segment_prefix.
  - by apply segment_prefix.
Qed.

(** ** The informer of a distributor *)

Lemma below_path a s : hasPathPrefix (a +:+ "/" +:+ s) a = true.
Proof.
  unfold hasPathPrefix. replace (String.prefix a (a +:+ "/" +:+ s)) with true by (clear; induction a as [|c a IH]; [done|]; change (String c a +:+ ?x) with (String c (a +:+ x)); cbn; by destruct (ascii_dec c c)).
  cbn [negb]. destruct (Nat.eqb _ _); [done|]. destruct (match a with EmptyString => false | _ => _ end); [done|]. rewrite <- (Nat.add_0_r (String.length a)), get_strip. done.
Qed.

Lemma root_selects_all id : hasPathPrefix (pod_path id) prefix = true.
Proof. apply below_path. Qed.

Lemma conjunction_restricts s : conjunction s = true -> Empty s = false.
Proof.
  assert (forall q, readable q = true -> Empty q = false) as Hr by (by intros []). destruct s as [| | | | | | |[|q t]|]; cbn [conjunction]; try done. cbn. intros [Hq _]%andb_true_iff. by rewrite Hr.
Qed.

Lemma pod_filter s el key : conjunction s = true -> elem_ok pod_keyFunc GetAttrs el ->
  filterWithAttrsFunction key (MatchPod (fun _ => true) true s) (el_Key el) (el_Labels el) (el_Fields el) = hasPathPrefix (el_Key el) key && Api.selected s (el_Object el).
Proof.
  intros Hs [_ Ha]. injection Ha as _ Hf. unfold filterWithAttrsFunction, MatchesObjectAttributes. cbn [Label_Empty pred_Field MatchPod Label_Matches]. by rewrite (conjunction_restricts s Hs), <- Hf.
Qed.

(** The selector of a distributor requires no name, so all pods are looked at. *)
Lemma share_watches_all phase field lo hi s : field <> "metadata.name"%string -> same_terms (share phase field lo hi) s -> WatchPredicate (mkRequest None None) prefix (MatchPod (fun _ => true) true s) = prefix.
Proof.
  intros Hf [Hc Hp]. unfold WatchPredicate, MatchesSingle. cbn [pred_Field MatchPod]. pose proof (requires_exact s "metadata.name" Hc) as Hr.
  assert (existsb (fun q => (RequiresExactMatch q "metadata.name").2) (conjuncts s) = false) as Hno.
  { apply not_true_iff_false. rewrite existsb_exists. intros (q & Hin & Hq). apply list_elem_of_In in Hin. rewrite Hp in Hin. cbn [share conjuncts] in Hin. rewrite !elem_of_cons, elem_of_nil in Hin. by destruct Hin as [->|[->|[->|[]]]]. }
  rewrite Hno in Hr. destruct (RequiresExactMatch s "metadata.name") as [name found]. cbn in Hr. by subst found.
Qed.

(** ** Lists by name *)

(** A list with a selector that requires a name looks for that object only
    (generic/registry/store.go:407-416 ListPredicate). *)
Definition ListPredicate (range : forall A : Type, gmap string A -> list (string * A)) (timed_out : bool) (c : Cacher (obj := Api.Pod)) (ctx : request_context) (v : Z) (p : SelectionPredicate) : option (result (list Api.Pod * Z)) :=
  match MatchesSingle p with
  | Some name => match NamespaceKeyFunc ctx prefix name with Ok key => c_GetToList timed_out c key v p | Err _ => c_List range timed_out c (NamespaceKeyRootFunc ctx prefix) v p end
  | None => c_List range timed_out c (NamespaceKeyRootFunc ctx prefix) v p
  end.

Definition own_context (p : Api.Pod) : request_context := mkRequest (Some (Api.Tenant (Api.meta p))) (Some (Api.Namespace (Api.meta p))).

Lemma path_of_itself a : hasPathPrefix a a = true.
Proof.
  unfold hasPathPrefix. replace (String.prefix a a) with true by (clear; induction a as [|c a IH]; [done|]; cbn; by destruct (ascii_dec c c)). by rewrite Nat.eqb_refl.
Qed.

Lemma name_field p : Get (Api.PodToSelectableFields p) "metadata.name" = Api.Name (Api.meta p).
Proof. unfold Get, Api.PodToSelectableFields, Api.AddObjectMetaFieldsSet. rewrite lookup_insert_ne by done. rewrite owner_fields by done. repeat (rewrite lookup_insert_ne by done). by rewrite lookup_insert_eq. Qed.

(** The path of a namespace and the name that is required select the object of that key. *)
Lemma named_filter ctx s name key el : conjunctive s = true -> RequiresExactMatch s "metadata.name" = (name, true) -> NamespaceKeyFunc ctx prefix name = Ok key -> elem_ok pod_keyFunc GetAttrs el ->
  (hasPathPrefix (el_Key el) (NamespaceKeyRootFunc ctx prefix) = true -> NamespaceKeyRootFunc (own_context (el_Object el)) prefix = NamespaceKeyRootFunc ctx prefix) ->
  let passes k := filterWithAttrsFunction k (MatchPod (fun _ => true) true s) (el_Key el) (el_Labels el) (el_Fields el) in
  passes (NamespaceKeyRootFunc ctx prefix) = true <-> el_Key el = key ∧ passes key = true.
Proof.
  intros Hs Hname Hkey [Hk Ha] Hown passes. assert (Empty s = false) as He. { destruct (Empty s) eqn:E; [|done]. pose proof (empty_requires_nothing s "metadata.name" E) as Hno. by rewrite Hname in Hno. }
  assert (key = NamespaceKeyRootFunc ctx prefix +:+ "/" +:+ name) as ->.
  { revert Hkey. unfold NamespaceKeyFunc. destruct (ctx_namespace ctx) as [[|]|]; [done| |done]. destruct (String.eqb name ""); [done|]. destruct (IsValidPathSegmentName name); [|done]. by intros [= <-]. }
  unfold passes, filterWithAttrsFunction, MatchesObjectAttributes. cbn [Label_Empty pred_Field MatchPod Label_Matches]. rewrite He. cbn [andb]. rewrite !andb_true_iff. split.
  - intros [Hp Hm]. specialize (Hown Hp). injection Ha as _ Hf. pose proof (exact_match_holds s "metadata.name" name (el_Fields el) Hs Hname Hm) as Hn. rewrite <- Hf, name_field in Hn.
    assert (el_Key el = NamespaceKeyRootFunc ctx prefix +:+ "/" +:+ name) as ->; [|by rewrite path_of_itself].
    revert Hk. unfold pod_keyFunc, NamespaceKeyFunc. fold (own_context (el_Object el)). destruct (ctx_namespace (own_context (el_Object el))) as [[|]|]; [done| |done].
    destruct (String.eqb _ ""); [done|]. destruct (IsValidPathSegmentName _); [|done]. rewrite Hown, Hn. by intros [= <-].
  - intros (-> & _ & Hm). by rewrite below_path.
Qed.

(** A list by name is the list of the namespace: when the selector has no alternatives
    and requires a name, looking for the object of that name only gives the same objects and
    the same version as the list of all objects of the namespace with the selector, unless
    a pod of another tenant has a path below that of the namespace. *)
Theorem named_list_is_the_same (range : forall A : Type, gmap string A -> list (string * A)) timed_out c base hist ctx v s name key : (forall A (m : gmap string A), range A m ≡ₚ map_to_list m) ->
  serves (c_watchCache c) base hist -> map_Forall (fun _ => elem_ok pod_keyFunc GetAttrs) (store_items (wc_store (c_watchCache c))) ->
  conjunctive s = true -> RequiresExactMatch s "metadata.name" = (name, true) -> NamespaceKeyFunc ctx prefix name = Ok key ->
  (forall k el, store_items (wc_store (c_watchCache c)) !! k = Some el -> hasPathPrefix k (NamespaceKeyRootFunc ctx prefix) = true -> NamespaceKeyRootFunc (own_context (el_Object el)) prefix = NamespaceKeyRootFunc ctx prefix) ->
  let pred := MatchPod (fun _ => true) true s in
  ListPredicate range timed_out c ctx v pred = c_List range timed_out c (NamespaceKeyRootFunc ctx prefix) v pred.
Proof.
  intros Hrange Hs He Hc Hname Hkey Hown pred. unfold ListPredicate, MatchesSingle. cbn [pred_Field MatchPod pred]. rewrite Hname, Hkey. unfold c_GetToList, WaitUntilFreshAndGet, ts_Get.
  destruct (c_List range timed_out c (NamespaceKeyRootFunc ctx prefix) v pred) as [[[items rv]|e]|] eqn:El.
  - destruct (List_selects range Hrange c base hist timed_out _ v pred items rv Hs El) as (-> & elems & -> & Hnd & Hin). unfold c_List, WaitUntilFreshAndList in El. destruct (_ <? v); [by destruct timed_out|]. do 3 f_equal.
    set (m := store_items (wc_store (c_watchCache c))) in *. assert (well_keyed m) as Hk by (unfold m; rewrite (sv_store _ _ _ Hs); apply well_keyed_history, (sv_keyed _ _ _ Hs)).
    assert (forall el, m !! el_Key el = Some el -> filterWithAttrsFunction (NamespaceKeyRootFunc ctx prefix) pred (el_Key el) (el_Labels el) (el_Fields el) = true <->
      el_Key el = key ∧ filterWithAttrsFunction key pred (el_Key el) (el_Labels el) (el_Fields el) = true) as Hiff.
    { intros el Hel. apply (named_filter ctx s name key el); [done|done|done|by apply (He (el_Key el))|by apply Hown]. }
    assert (forall el, el ∈ elems -> el_Key el = key) as Honly by (intros el [Hel Hp]%Hin; by apply Hiff in Hp as [? _]).
    assert (forall el, m !! key = Some el -> el_Key el = key) as Hkk by (intros el; apply Hk).
    destruct (m !! key) as [el|] eqn:Em; [specialize (Hkk el eq_refl)|].
    + rewrite <- Hkk in Em. specialize (Hiff el Em). destruct (filterWithAttrsFunction key pred (el_Key el) (el_Labels el) (el_Fields el)) eqn:Ep.
      * assert (el ∈ elems) as Hel by (apply Hin; split; [done|by apply Hiff]). destruct elems as [|a [|b l]]; [by apply elem_of_nil in Hel|apply list_elem_of_singleton in Hel as ->; done|].
        exfalso. cbn in Hnd. apply NoDup_cons in Hnd as [Hno _]. apply Hno. rewrite (Honly a), (Honly b) by (rewrite !elem_of_cons; tauto). left.
      * destruct elems as [|a l]; [done|]. exfalso. pose proof (Honly a ltac:(left)) as Ha. destruct (proj1 (Hin a) ltac:(left)) as [Hma Hpa]. rewrite Ha, <- Hkk, Em in Hma. injection Hma as <-. by apply Hiff in Hpa as [_ ?].
    + destruct elems as [|a l]; [done|]. exfalso. pose proof (Honly a ltac:(left)) as Ha. destruct (proj1 (Hin a) ltac:(left)) as [Hma _]. by rewrite Ha, Em in Hma.
  - unfold c_List, WaitUntilFreshAndList in El. destruct (_ <? v); [by destruct timed_out|done].
  - unfold c_List, WaitUntilFreshAndList in El. destruct (_ <? v); [by destruct timed_out|done].
Qed.

Section Watch.
Context (range : forall A : Type, gmap string A -> list (string * A)) (order : gset nat -> list nat) (P : Z -> Prop) (versionOf : Api.Pod -> string).
Hypothesis Hrange : forall A (m : gmap string A), range A m ≡ₚ map_to_list m.
Hypothesis Horder : forall s, order s ≡ₚ elements s.
Hypothesis Hone : one_source P.

#[local] Abbreviation pod_step := (cacher_step range order pod_keyFunc GetAttrs Api.set_version (Some NodeNameTriggerFunc) P).
#[local] Abbreviation stored s := (store_items (wc_store (c_watchCache (rs_c s)))).

(** The informer of a distributor holds exactly its pods.  The text by which the process
    selects its pods is read by the API server as a selector whose watchers miss no event.
    When the informer lists with it from the cacher and then watches from the version of the
    list, and the cache is not listed again in between, the cacher can send it whatever is
    missing; and when its queue is drained, the informer has a pod under a key if and only if
    the pod is stored under the path of that key, is pending, and has a hash in the range. *)
Lemma distributor_informer_holds_its_pods capacity fs start end_ : (0 < capacity)%nat -> total_indexers fs -> int64_range start -> int64_range end_ ->
  ∃ s, Api.requested (Api.distributor_pods start end_) = Some (Ok s) ∧ let pred := MatchPod (fun _ => true) true s in let key := WatchPredicate (mkRequest None None) prefix pred in
  trigger_ok pod_keyFunc GetAttrs Api.set_version (Some NodeNameTriggerFunc) pred key ∧
  forall ticks ls check s1 timed_out v items rv version s2 n w, rtc pod_step (start_state capacity) s1 -> rs_phase s1 = Serving -> c_List range timed_out (rs_c s1) key v pred = Some (Ok (items, rv)) ->
    rtc pod_step s1 s2 -> same_list s1 s2 -> registered (rs_c s2) n w -> rs_start s2 !! n = Some rv -> cw_filter w = filterWithAttrsFunction key pred ->
    (forall k el, stored s2 !! k = Some el -> int64_range (Api.HashKey (Api.meta (el_Object el)))) ->
    let i := new_informer fs ls check in let r1 := (list_objects pod_MetaNamespaceKeyFunc range (indexer i) new_reflector items version).1 in
    ∃ c3 w3, rtc pod_step s2 (mkRun (rs_phase s2) c3 (rs_base s2) (rs_hist s2) (rs_start s2)) ∧ registered c3 n w3 ∧
      let r := feed range pod_MetaNamespaceKeyFunc versionOf i r1 (cw_result w3) in
      (∃ server, rtc (informer_step pod_MetaNamespaceKeyFunc range ticks) (∅, new_reflector, i) (server, r, i)) ∧
      ∃ f' i', drain pod_MetaNamespaceKeyFunc range (length (fifo_queue (r_store r))) (r_store r) i = Some (f', i') ∧ fifo_queue f' = [] ∧
        forall id p, store_items (indexer i') !! id = Some (Plain p) <->
          (el_Object <$> stored s2 !! pod_path id) = Some p ∧ Api.Phase (Api.status p) = Api.PodPending ∧ start <= Api.HashKey (Api.meta p) <= end_.
Proof.
  intros Hcap Hfs Hs He. destruct (distributor_selects start end_ Hs He) as (s & Hreq & Hterms & Hsel). exists s. split; [done|]. intros pred key. split; [apply pod_watcher_triggers, Hterms|].
  assert (key = prefix) as Hroot by (by apply (share_watches_all Api.PodPending "metadata.hashkey" (FormatInt start) (FormatInt end_) s)). clearbody key. subst key. intros ticks ls check s1 timed_out v items rv version s2 n w Hs1 Hp1 Hl Hs2 Hsame Hr Hrv Hfilter Hhash i r1.
  destruct (informer_holds_its_selection range order pod_keyFunc GetAttrs Api.set_version (Some NodeNameTriggerFunc) P Hrange Horder Hone pod_MetaNamespaceKeyFunc pod_path versionOf
    pod_keys_agree capacity ticks fs ls check s1 timed_out prefix v pred items rv version s2 n w Hcap stable_pod_keys Hfs Hs1 Hp1 Hl Hs2 Hsame Hr Hrv Hfilter)
    as (c3 & w3 & Hrun & Hr3 & server & Hinf & f' & i' & Hd & Hq & Hstore).
  exists c3, w3. split; [done|]. split; [done|]. split; [by exists server|]. exists f', i'. split; [done|]. split; [done|]. intros id p. rewrite Hstore.
  assert (inv pod_keyFunc GetAttrs Api.set_version (Some NodeNameTriggerFunc) P s2) as Hinv by (eapply inv_steps, Hs2; try done; by eapply reachable_inv).
  pose proof (in_serves _ _ _ _ _ _ Hinv (proj1 (in_start _ _ _ _ _ _ Hinv n w Hr))) as Hsv.
  rewrite selected_lookup by (rewrite (sv_store _ _ _ Hsv); apply well_keyed_history, (sv_keyed _ _ _ Hsv)). destruct (stored s2 !! pod_path id) as [el|] eqn:El; [|by split; [|intros [? _]]].
  pose proof (in_elems _ _ _ _ _ _ Hinv (pod_path id) el El) as Hel. assert (el_Key el = pod_path id) as Hkey by (apply (well_keyed_history (rs_base s2) (rs_hist s2) (sv_keyed _ _ _ Hsv)); by rewrite <- (sv_store _ _ _ Hsv)).
  unfold pred. rewrite <- Hkey, (pod_filter s el prefix (proj1 Hterms) Hel), Hkey, root_selects_all. cbn [andb]. pose proof (Hsel (el_Object el) (Hhash _ _ El)) as Hiff. cbn [fmap option_fmap option_map].
  destruct (Api.selected s (el_Object el)); split; cbn.
  - intros [= <-]. split; [done|]. by apply Hiff.
  - by intros [[= ->] _].
  - done.
  - intros [[= <-] Hp]. by apply Hiff in Hp.
Qed.
End Watch.
End Pods.

(** ** Examples *)

Definition pod_of (tenant namespace name : string) (hash version : Z) : Api.Pod :=
  Api.mkPod (Api.mkMeta name namespace tenant "" hash version 0 None ∅ []) (Api.mkSpec "" "" "Always" "" "" "vm" None []) (Api.mkStatus Api.PodPending "" "" "" "" "" "" []).

Lemma path_selects_across_tenants_witness : hasPathPrefix "/pods/blue/default/p" (NamespaceKeyRootFunc (mkRequest None (Some "blue"%string)) "/pods") = true.
Proof. exact (path_selects_across_tenants "/pods" (pod_of "blue" "default" "p" 5 1) "/pods/blue/default/p" "blue" eq_refl eq_refl eq_refl eq_refl ltac:(done) ltac:(done) _ (or_introl eq_refl)). Defined.

Definition no_labels (p : Api.Pod) : attrs := ∅.
Definition no_version (p : Api.Pod) : string := "".
#[local] Abbreviation demo_pod_step := (cacher_step visit_map visit_numbers (pod_keyFunc "/pods") (GetAttrs no_labels) Api.set_version (Some NodeNameTriggerFunc) small).

Definition first_ten : Selector := andTerm [greaterEqualTerm "metadata.hashkey" "0"; lessEqualTerm "metadata.hashkey" "10"; hasTerm "status.phase" "Pending"].
Definition pods_or_new (c : option (result (Cacher (obj := Api.Pod)))) : Cacher := match c with Some (Ok c) => c | _ => NewCacher 2 end.
Definition pods_listed : Cacher := pods_or_new (c_replace visit_map (pod_keyFunc "/pods") (GetAttrs no_labels) (NewCacher 2) [pod_of "system" "default" "a" 5 1] 1).
Definition pods_watched : Cacher :=
  match Watch visit_map (GetAttrs no_labels) (Some NodeNameTriggerFunc) pods_listed "/pods" 1 (MatchPod (fun _ => true) true first_ten) with Some (Ok (c, _)) => c | _ => NewCacher 2 end.
Definition pods_changed : Cacher := pods_or_new (c_change visit_map (pod_keyFunc "/pods") (GetAttrs no_labels) pods_watched WatchAdded (pod_of "blue" "default" "b" 7 2) 2).
Definition pods_event : watchCacheEvent :=
  mkCacheEvent WatchAdded (pod_of "blue" "default" "b" 7 2) ∅ (Api.PodToSelectableFields (pod_of "blue" "default" "b" 7 2)) None "/pods/blue/default/b" 2.
Definition pods_elem : storeElement := mkElem "/pods/default/a" (pod_of "system" "default" "a" 5 1) ∅ (Api.PodToSelectableFields (pod_of "system" "default" "a" 5 1)).
Definition pods_base : gmap string storeElement := {["/pods/default/a"%string := pods_elem]}.
Definition pods_first : state := mkRun Serving pods_listed pods_base [] ∅.
Definition pods_second : state := mkRun Serving pods_changed pods_base [pods_event] {[0%nat := 1]}.

Definition pods_watcher : cacheWatcher (obj := Api.Pod) := mkWatcher (filterWithAttrsFunction "/pods" (MatchPod (fun _ => true) true first_ten)) None 1 1000 [] [] [] false.

Lemma pods_first_run : rtc demo_pod_step (start_state 2) pods_first.
Proof. apply rtc_once, (step_relist _ _ _ _ _ _ _ (NewCacher 2) ∅ [] ∅ [pod_of "system" "default" "a" 5 1] [pods_elem] 1 pods_listed); try done; vm_compute; reflexivity. Qed.

Lemma pods_watched_run : Watch visit_map (GetAttrs no_labels) (Some NodeNameTriggerFunc) pods_listed "/pods" 1 (MatchPod (fun _ => true) true first_ten) = Some (Ok (pods_watched, 0%nat)).
Proof. reflexivity. Qed.

Lemma pods_changed_run : wc_processEvent visit_map (pod_keyFunc "/pods") (GetAttrs no_labels) (c_watchCache pods_watched) WatchAdded (pod_of "blue" "default" "b" 7 2) 2 = Some (Ok (c_watchCache pods_changed, pods_event)).
Proof. reflexivity. Qed.

Lemma pods_changed_state : pods_changed = set_cache pods_watched (c_watchCache pods_changed) (incoming pods_watched ++ [pods_event]).
Proof. reflexivity. Qed.

Lemma pods_changed_store : store_items (wc_store (c_watchCache pods_changed)) = <["/pods/blue/default/b"%string := element_of pods_event]> pods_base.
Proof. reflexivity. Qed.

Lemma pods_second_run : rtc demo_pod_step pods_first pods_second.
Proof.
  eapply rtc_l.
  - eapply (step_open visit_map visit_numbers (pod_keyFunc "/pods") (GetAttrs no_labels) Api.set_version (Some NodeNameTriggerFunc) small pods_listed pods_base [] ∅ "/pods" 1 (MatchPod (fun _ => true) true first_ten) pods_watched 0); [lia|unfold small; lia|by apply pod_watcher_triggers|exact pods_watched_run].
  - apply rtc_once. unfold pods_second. rewrite pods_changed_state. change [pods_event] with ([] ++ [pods_event]) at 2. change {[0%nat := 1]} with (<[0%nat := 1]> (∅ : gmap nat Z)). apply (step_change visit_map visit_numbers (pod_keyFunc "/pods") (GetAttrs no_labels) Api.set_version (Some NodeNameTriggerFunc) small pods_watched pods_base [] (<[0%nat := 1]> ∅) WatchAdded (pod_of "blue" "default" "b" 7 2) 2 (c_watchCache pods_changed) pods_event); [by left|vm_compute; by split|unfold small; lia|exact pods_changed_run].
Qed.

Lemma named_list_is_the_same_witness : ListPredicate "/pods" visit_map false pods_listed (mkRequest None (Some "default"%string)) 0 (MatchPod (fun _ => true) true (hasTerm "metadata.name" "a")) =
  c_List visit_map false pods_listed "/pods/default" 0 (MatchPod (fun _ => true) true (hasTerm "metadata.name" "a")).
Proof.
  assert (inv (pod_keyFunc "/pods") (GetAttrs no_labels) Api.set_version (Some NodeNameTriggerFunc) small pods_first) as Hinv.
  { apply (reachable_inv visit_map visit_numbers _ _ _ _ _ (fun A m => reflexivity _) (fun s => reflexivity _) small_one_source 2); [lia|exact pods_first_run]. }
  apply (named_list_is_the_same "/pods" no_labels visit_map false pods_listed pods_base [] (mkRequest None (Some "default"%string)) 0 (hasTerm "metadata.name" "a") "a" "/pods/default/a" (fun A m => reflexivity _)
    (in_serves _ _ _ _ _ _ Hinv ltac:(done)) (in_elems _ _ _ _ _ _ Hinv) eq_refl eq_refl eq_refl).
  assert (store_items (wc_store (c_watchCache pods_listed)) = pods_base) as -> by (vm_compute; reflexivity). unfold pods_base. by intros k el [<- <-]%lookup_singleton_Some _.
Defined.
