(* ===== verification/PodEtcd.v ===== *)
(** * From etcd to the distributor

    The last composition: pods that are stored in etcd reach the informer of a distributor.
    The cacher of the pods is fed by the lists and the watch of etcd ([EtcdList], [EtcdWatch],
    [EtcdCache]); the informer lists from the cacher with the selector of its process and then
    watches ([PodWatch], [Informer]).  The theorem shows that the informer holds, when all has
    been passed on, exactly the pods that etcd holds, that are pending and whose hash is in the
    range of the distributor. *)
From S2P Require Import Prelude Types Common Strconv IndexedStore DeltaFifo Informer FieldSelector PodStore PodSelection Revision WatchCache Cacher CacherClients EtcdWatch EtcdList EtcdCache PodWatch.
Import Fields.

Local Open Scope Z_scope.

#[local] Abbreviation kv := (string * Z * Z)%type.

(** The version of a pod, as the versioner reads it. *)
Definition pod_version (p : Api.Pod) : result Z := Ok (Api.ResourceVersion (Api.meta p)).

Section Pods.
Context (prefix : string) (GetLabels : Api.Pod -> attrs).
Context (TransformFromStorage : string -> string -> result (string * bool)) (Decode : string -> result Api.Pod) (root : string -> string) {Hroot : Inj (=) (=) root}.
Context (range : forall A : Type, gmap string A -> list (string * A)) (order : gset nat -> list nat) (P : Z -> Prop) (versionOf : Api.Pod -> string).
Hypothesis Hrange : forall A (m : gmap string A), range A m ≡ₚ map_to_list m.
Hypothesis Horder : forall s, order s ≡ₚ elements s.
Hypothesis Hone : one_source P.
(** The version is no label. *)
Hypothesis Hlabels : forall p v, GetLabels (Api.set_version p v) = GetLabels p.

#[local] Abbreviation pod_step := (cacher_step range order (pod_keyFunc prefix) (GetAttrs GetLabels) Api.set_version (Some NodeNameTriggerFunc) P).
#[local] Abbreviation pod_fed := (fed_step TransformFromStorage Decode Api.set_version (GetAttrs GetLabels) (pod_keyFunc prefix) root range pod_version order (Some NodeNameTriggerFunc) P).
#[local] Abbreviation etcd_pod := (etcd_object TransformFromStorage Decode Api.set_version root).

Lemma pod_attrs_stable p v : GetAttrs GetLabels (Api.set_version p v) = GetAttrs GetLabels p.
Proof. unfold GetAttrs. by rewrite Hlabels. Qed.

(** C10.  The informer of a distributor holds exactly its pods of etcd. The text by which the
    process selects its pods is read by the API server as a selector whose watchers miss no
    event. Let the cacher of the pods be filled with lists of one etcd and given the events of
    its writes, whose revisions are of one source and whose values can be read. When the
    informer lists from it and then watches from the version of the list, with the cache not
    listed again in between, then the cacher can send the informer whatever is missing; and
    when its queue is drained, the informer has a pod under a key if and only if etcd holds the
    pod under the path of that key, at the version of the cache, and it is pending and has a
    hash in the range. *)
Theorem distributor_informer_follows_etcd capacity fs start end_ : (0 < capacity)%nat -> total_indexers fs -> int64_range start -> int64_range end_ ->
  ∃ s, Api.requested (Api.distributor_pods start end_) = Some (Ok s) ∧ let pred := MatchPod (fun _ => true) true s in let key := WatchPredicate (mkRequest None None) prefix pred in
  trigger_ok (pod_keyFunc prefix) (GetAttrs GetLabels) Api.set_version (Some NodeNameTriggerFunc) pred key ∧
  forall ls check s1 m1 timed_out v items rv version s2 m2 n w, rtc pod_fed (start_state capacity, ∅) (s1, m1) -> rs_phase s1 = Serving -> c_List range timed_out (rs_c s1) key v pred = Some (Ok (items, rv)) ->
    rtc pod_fed (s1, m1) (s2, m2) -> same_list s1 s2 -> registered (rs_c s2) n w -> rs_start s2 !! n = Some rv -> cw_filter w = filterWithAttrsFunction key pred ->
    (forall k p, etcd_pod m2 k = Some p -> int64_range (Api.HashKey (Api.meta p))) ->
    let i := new_informer fs ls check in let r1 := (list_objects pod_MetaNamespaceKeyFunc range (indexer i) new_reflector items version).1 in
    ∃ c3 w3, rtc pod_step s2 (mkRun (rs_phase s2) c3 (rs_base s2) (rs_hist s2) (rs_start s2)) ∧ registered c3 n w3 ∧
      let r := feed range pod_MetaNamespaceKeyFunc versionOf i r1 (cw_result w3) in
      ∃ f' i', drain pod_MetaNamespaceKeyFunc range (length (fifo_queue (r_store r))) (r_store r) i = Some (f', i') ∧ fifo_queue f' = [] ∧
        forall id p, store_items (indexer i') !! id = Some (Plain p) <->
          etcd_pod m2 (pod_path prefix id) = Some p ∧ Api.Phase (Api.status p) = Api.PodPending ∧ start <= Api.HashKey (Api.meta p) <= end_.
Proof.
  intros Hcap Hfs Hs He. destruct (distributor_informer_holds_its_pods prefix GetLabels range order P versionOf Hrange Horder Hone capacity fs start end_ Hcap Hfs Hs He) as (s & Hreq & Htrig & Hall). exists s. split; [done|]. intros pred key. split; [done|].
  intros ls check s1 m1 timed_out v items rv version s2 m2 n w Hf1 Hp1 Hl Hf2 Hsame Hr Hrv Hfilter Hhash i r1.
  destruct (fed_run TransformFromStorage Decode Api.set_version (GetAttrs GetLabels) (pod_keyFunc prefix) root (fun o v => eq_refl) pod_attrs_stable range pod_version Hrange (fun o v => eq_refl) order (Some NodeNameTriggerFunc) P Horder Hone _ _ Hf1) as [Hs1 Hok1]; [by apply (fed_start TransformFromStorage Decode Api.set_version (GetAttrs GetLabels) (pod_keyFunc prefix) root range Hrange order (Some NodeNameTriggerFunc) P Horder Hone)|].
  destruct (fed_run TransformFromStorage Decode Api.set_version (GetAttrs GetLabels) (pod_keyFunc prefix) root (fun o v => eq_refl) pod_attrs_stable range pod_version Hrange (fun o v => eq_refl) order (Some NodeNameTriggerFunc) P Horder Hone _ _ Hf2 Hok1) as [Hs2 [_ Hmir _ _]]. cbn [fst snd] in *.
  destruct (Hall false ls check s1 timed_out v items rv version s2 n w Hs1 Hp1 Hl Hs2 Hsame Hr Hrv Hfilter) as (c3 & w3 & Hrun & Hr3 & _ & f' & i' & Hd & Hq & Hstore).
  { intros k el Hk. apply (Hhash k). by rewrite <- Hmir, Hk. }
  exists c3, w3. split; [done|]. split; [done|]. exists f', i'. split; [done|]. split; [done|]. intros id p. by rewrite Hstore, Hmir.
Qed.
End Pods.

(** ** Examples *)

(** Two pods by their values. *)
Definition two_pods (value : string) : result Api.Pod :=
  if String.eqb value "a" then Ok (pod_of "system" "default" "a" 5 0) else if String.eqb value "b" then Ok (pod_of "blue" "default" "b" 7 0) else Err "unknown value".
Definition registry_root (k : string) : string := "/registry" +:+ k.

#[local] Instance registry_root_inj : Inj (=) (=) registry_root.
Proof. intros k k' [= Heq]. exact Heq. Qed.

Definition first_kvs : gmap string kv := {["/registry/pods/default/a"%string := ("a"%string, 1, 1)]}.
Definition second_write : mvcc_event := mkMvcc true "/registry/pods/blue/default/b" "b" 2 2 None.

#[local] Abbreviation demo_pod_fed := (fed_step placed_transform two_pods Api.set_version (GetAttrs no_labels) (pod_keyFunc "/pods") registry_root visit_map pod_version visit_numbers (Some NodeNameTriggerFunc) small).

Lemma first_pods_fed : rtc demo_pod_fed (start_state 2, ∅) (pods_first, first_kvs).
Proof.
  apply rtc_once. unfold pods_first. change pods_base with (listed_map [pods_elem]).
  apply (fed_list _ _ _ _ _ _ _ _ _ _ _ (NewCacher 2) ∅ [] ∅ ∅ [pod_of "system" "default" "a" 5 1] [pods_elem] 1 pods_listed); [vm_compute; discriminate|lia|unfold small; lia|reflexivity| | | |reflexivity].
  - intros k. unfold etcd_object, first_kvs, listed_map. cbn [foldl el_Key pods_elem]. destruct (decide (k = "/pods/default/a"%string)) as [->|Hne]; [reflexivity|]. rewrite lookup_insert_ne, lookup_empty by done. rewrite lookup_singleton_ne; [done|]. intros Heq. apply Hne. by apply (inj registry_root).
  - by apply map_Forall_singleton.
  - apply map_Forall_singleton. split; [done|]. by exists "a"%string, false, (pod_of "system" "default" "a" 5 0), "/pods/default/a"%string.
Qed.

Lemma second_pods_fed : rtc demo_pod_fed (pods_first, first_kvs) (pods_second, put_event first_kvs second_write).
Proof.
  eapply rtc_l.
  - apply fed_other with (s' := mkRun Serving pods_watched pods_base [] (<[0%nat := 1]> ∅)); [|reflexivity]. eapply (step_open visit_map visit_numbers (pod_keyFunc "/pods") (GetAttrs no_labels) Api.set_version (Some NodeNameTriggerFunc) small pods_listed pods_base [] ∅ "/pods" 1 (MatchPod (fun _ => true) true first_ten) pods_watched 0); [lia|unfold small; lia|by apply pod_watcher_triggers|exact pods_watched_run].
  - apply rtc_once. unfold pods_second. rewrite pods_changed_state. change [pods_event] with ([] ++ [pods_event]) at 2. change {[0%nat := 1]} with (<[0%nat := 1]> (∅ : gmap nat Z)).
    eapply (fed_event _ _ _ _ _ _ _ _ _ _ _ pods_watched pods_base [] (<[0%nat := 1]> ∅) first_kvs second_write _ WatchAdded (pod_of "blue" "default" "b" 7 2) (c_watchCache pods_changed) pods_event); [|apply Forall_cons_2; [|apply Forall_nil_2]|unfold small; cbn; lia|reflexivity|reflexivity|exact pods_changed_run].
    + split; [vm_compute; by split|]. by split_and!.
    + intros _. split; [done|]. by exists "b"%string, false, (pod_of "blue" "default" "b" 7 0), "/pods/blue/default/b"%string.
Qed.

Lemma distributor_informer_follows_etcd_witness : ∃ (i' : sharedIndexInformer Api.Pod), store_items (indexer i') !! "blue/default/b"%string = Some (Plain (pod_of "blue" "default" "b" 7 2)).
Proof.
  destruct (distributor_informer_follows_etcd "/pods" no_labels placed_transform two_pods registry_root visit_map visit_numbers small no_version (fun A m => reflexivity _) (fun s => reflexivity _) small_one_source (fun p v => eq_refl) 2 ∅ 0 10)
    as (s & Hreq & _ & Hall); [lia|by intros ? ? ? H; rewrite lookup_empty in H|vm_compute; by split|vm_compute; by split|].
  assert (s = first_ten) as -> by (vm_compute in Hreq; by injection Hreq).
  assert (registered pods_changed 0 pods_watcher) as Hr by (split; [reflexivity|vm_compute; reflexivity]).
  destruct (Hall [] 0 pods_first first_kvs false 0 [pod_of "system" "default" "a" 5 1] 1 EmptyString pods_second (put_event first_kvs second_write) 0%nat pods_watcher first_pods_fed eq_refl ltac:(vm_compute; reflexivity) second_pods_fed
    (conj eq_refl (conj eq_refl (ex_intro _ [pods_event] eq_refl))) Hr eq_refl eq_refl) as (c3 & w3 & _ & _ & f' & i' & _ & _ & Hstore).
  { intros k p. unfold etcd_object, put_event, first_kvs. cbn [me_put second_write me_key]. destruct (decide (registry_root k = "/registry/pods/blue/default/b"%string)) as [->|Hne]; [rewrite lookup_insert_eq; intros [= <-]; vm_compute; by split|]. rewrite lookup_insert_ne by done.
    destruct (decide (registry_root k = "/registry/pods/default/a"%string)) as [->|Hne']; [rewrite lookup_singleton_eq; intros [= <-]; vm_compute; by split|by rewrite lookup_singleton_ne]. }
  exists i'. apply Hstore. split; [reflexivity|]. split; [reflexivity|vm_compute; by split].
Defined.
