(* ===== verification/FrameworkProofs.v ===== *)
(** * Scores do not overflow

    The framework refuses weights whose total could overflow; the theorem shows that the
    check suffices: in a framework that [NewFramework] builds, the sum of the weighted
    scores that [prioritizeSites] computes for a site is the sum of the integers. *)
From S2P Require Import Prelude Types Strconv SiteTree SiteCacheInfo Cache Labels Framework Plugins Binder Schedule.

Local Open Scope Z_scope.

Fixpoint zsum (l : list Z) : Z := match l with [] => 0 | x :: l => x + zsum l end.

Lemma zsum_perm l l' : l ≡ₚ l' -> zsum l = zsum l'.
Proof. induction 1; simpl; lia. Qed.

Definition wsum (m : gmap string Z) : Z := zsum (map_to_list m).*2.

Lemma wsum_insert m k w : m !! k = None -> wsum (<[k := w]> m) = w + wsum m.
Proof. intros Hk. unfold wsum. by rewrite (zsum_perm _ _ (fmap_Permutation snd _ _ (map_to_list_insert m k w Hk))). Qed.

Lemma wsum_delete m k w : m !! k = Some w -> wsum m = w + wsum (delete k m).
Proof. intros Hk. rewrite <- (insert_delete_id m k w Hk) at 1. apply wsum_insert, lookup_delete_eq. Qed.

(** Values below the weights of a map add up to less than the weights. *)
Lemma wsum_bound {A} (v : A -> Z) (c : Z) (m : gmap string A) : forall weights, (forall k w, weights !! k = Some w -> 0 < w) -> 0 <= c ->
  (forall k a, m !! k = Some a -> ∃ w, weights !! k = Some w ∧ 0 <= v a <= c * w) ->
  0 <= zsum (v <$> (map_to_list m).*2) <= c * wsum weights.
Proof.
  induction m as [|k a m Hk IH] using map_ind; intros weights Hw Hc Hm.
  - rewrite map_to_list_empty. cbn [fmap list_fmap zsum]. clear Hm. split; [lia|].
    assert (0 <= wsum weights); [|nia]. induction weights as [|k w weights Hk IH] using map_ind; [unfold wsum; rewrite map_to_list_empty; simpl; lia|].
    rewrite wsum_insert by done. specialize (Hw k w (lookup_insert_eq _ _ _)) as Hw'.
    assert (0 <= wsum weights); [|lia]. apply IH. intros k' w' Hk'. apply (Hw k'). rewrite lookup_insert_ne; congruence.
  - rewrite (zsum_perm _ _ (fmap_Permutation v _ _ (fmap_Permutation snd _ _ (map_to_list_insert m k a Hk)))). cbn [fmap list_fmap zsum snd].
    destruct (Hm k a (lookup_insert_eq _ _ _)) as (w & Hkw & Hv). rewrite (wsum_delete weights k w Hkw).
    destruct (IH (delete k weights)) as [H0 H1].
    + intros k' w' [_ ?]%lookup_delete_Some. by eapply Hw.
    + done.
    + intros k' a' Hk'. assert (k <> k') by congruence. destruct (Hm k' a') as (w' & ? & ?); [by rewrite lookup_insert_ne|]. exists w'. by rewrite lookup_delete_ne.
    + lia.
Qed.

(** ** The weights of a framework *)

Definition small_weights (needed : gmap string PluginRef) : Prop := forall name ref, needed !! name = Some ref -> 0 <= Ref_Weight ref < 2 ^ 31.

Definition weights_ok (weights : gmap string Z) : Prop := (forall k w, weights !! k = Some w -> 0 < w) ∧ wsum weights * MaxSiteScore <= MaxTotalScore.

Lemma init_plugins_ok needed registry : small_weights needed -> forall pm weights pm' weights', NoDup registry.*1 ->
  (forall name, name ∈ registry.*1 -> weights !! name = None) -> weights_ok weights -> 0 <= wsum weights ->
  init_plugins needed registry pm weights (wsum weights * MaxSiteScore) = Ok (pm', weights') -> weights_ok weights'.
Proof.
  intros Hsmall. induction registry as [|[name p] registry IH]; intros pm weights pm' weights' Hnd Hnew Hok H0 Hinit; cbn [init_plugins] in Hinit.
  { by injection Hinit as _ <-. }
  apply NoDup_cons in Hnd as [Hni Hnd]. destruct (needed !! name) as [ref|] eqn:Hn; [|eapply IH; [done| |done|done|exact Hinit]; intros ? ?; apply Hnew; by right].
  specialize (Hsmall name ref Hn) as Hw. set (weight := if Ref_Weight ref =? 0 then 1 else Ref_Weight ref) in *.
  assert (0 < weight < 2 ^ 31) as Hweight by (unfold weight; destruct (Z.eqb_spec (Ref_Weight ref) 0); lia).
  destruct Hok as [Hpos Hmax]. unfold MaxTotalScore, MaxSiteScore in *. rewrite wrap64_id in Hinit by (unfold int64_range, MinInt64, MaxInt64 in *; lia).
  destruct (Z.ltb_spec (MaxInt64 - wsum weights * 100) (weight * 100)); [done|].
  assert (weights !! name = None) as Hfresh by (apply Hnew; by left). rewrite wrap64_id in Hinit by (unfold int64_range, MinInt64, MaxInt64 in *; lia).
  replace (wsum weights * 100 + weight * 100) with (wsum (<[name := weight]> weights) * 100) in Hinit by (rewrite wsum_insert by done; lia).
  eapply (IH _ _ _ _ Hnd); [| | |exact Hinit].
  - intros name' Hname. rewrite lookup_insert_ne; [apply Hnew; by right|]. intros <-. done.
  - split; [|rewrite wsum_insert by done; unfold MaxTotalScore, MaxSiteScore; lia]. intros k w. rewrite lookup_insert_Some. intros [[_ <-]|[_ ?]]; [lia|by eapply Hpos].
  - rewrite wsum_insert by done. lia.
Qed.

Lemma enable_plugins_names e pm : forall enabled seen pgs, enable_plugins e pm seen enabled = Ok pgs -> NoDup pgs.*1 ∧ forall name, name ∈ pgs.*1 -> name ∉ seen.
Proof.
  induction enabled as [|ep enabled IH]; intros seen pgs; cbn [enable_plugins].
  { intros [= <-]. split; [constructor|]. intros name Hn. by apply elem_of_nil in Hn. }
  destruct (pm !! Ref_Name ep) as [pg|]; [|done]. destruct (implements pg e); [|done]. cbn [negb]. destruct (bool_decide_reflect (Ref_Name ep ∈ seen)); [done|].
  destruct (enable_plugins e pm _ enabled) as [pgs'|] eqn:He; [|done]. intros [= <-]. destruct (IH _ _ He) as [Hnd Hout]. cbn [fmap list_fmap fst]. split.
  - constructor; [|done]. intros Hin%Hout. set_solver.
  - intros name [->|Hin]%elem_of_cons; [done|]. specialize (Hout name Hin). set_solver.
Qed.

Lemma fill_points_names plugins pm : forall es points, fill_points plugins pm es = Ok points -> forall e, NoDup (points e).*1.
Proof.
  induction es as [|e es IH]; intros points; cbn [fill_points].
  { intros [= <-] e. constructor. }
  destruct (updatePluginList e (plugins e) pm) as [pgs|] eqn:Hu; [|done]. destruct (fill_points plugins pm es) as [points'|] eqn:Hf; [|done].
  intros [= <-] e'. case_decide; [|by apply IH]. unfold updatePluginList in Hu. destruct (plugins e); [by apply enable_plugins_names in Hu as [? _]|].
  injection Hu as <-. constructor.
Qed.

Lemma needed_weights plugins : (forall e refs ref, plugins e = Some refs -> ref ∈ refs -> 0 <= Ref_Weight ref < 2 ^ 31) -> small_weights (pluginsNeeded plugins).
Proof.
  intros Hp. unfold pluginsNeeded. generalize getExtensionPoints. intros es. assert (small_weights (∅ : gmap string PluginRef)) as H0 by (intros name ref; by rewrite lookup_empty).
  revert H0. generalize (∅ : gmap string PluginRef). induction es as [|e es IH]; intros m Hm; [done|]. cbn [foldl]. apply IH.
  assert (forall ref, ref ∈ default [] (plugins e) -> 0 <= Ref_Weight ref < 2 ^ 31) as He.
  { intros ref Hr. destruct (plugins e) as [refs|] eqn:Hpe; [by eapply Hp|by apply elem_of_nil in Hr]. }
  revert m Hm He. induction (default [] (plugins e)) as [|ref refs IHr]; intros m Hm He; [done|]. cbn [foldl]. apply IHr.
  - intros name ref'. rewrite lookup_insert_Some. intros [[_ <-]|[_ ?]]; [apply He; by left|by eapply Hm].
  - intros ref' Hr. apply He. by right.
Qed.

(** What [NewFramework] guarantees of the score plugins. *)
Lemma new_framework_weights registry plugins f : NoDup registry.*1 ->
  (forall e refs ref, plugins e = Some refs -> ref ∈ refs -> 0 <= Ref_Weight ref < 2 ^ 31) -> NewFramework registry plugins = Ok f ->
  weights_ok (pluginNameToWeightMap f) ∧ NoDup (points f EScore).*1 ∧ forall name, name ∈ (points f EScore).*1 -> is_Some (pluginNameToWeightMap f !! name).
Proof.
  intros Hnd Hp. unfold NewFramework. destruct (init_plugins _ _ _ _ _) as [[pm weights]|] eqn:Hi; [|done].
  destruct (fill_points _ _ _) as [points|] eqn:Hf; [|done]. destruct (existsb _ _) eqn:Hex; [done|]. repeat case_match; try done. intros [= <-]. cbn [pluginNameToWeightMap Framework.points].
  split; [|split; [by eapply fill_points_names|]].
  - eapply (init_plugins_ok _ registry (needed_weights plugins Hp) ∅ ∅); [done| | | |exact Hi]; [by intros; apply lookup_empty| |done].
    split; [intros k w; by rewrite lookup_empty|]. by vm_compute.
  - intros name (pg & -> & Hpg)%list_elem_of_fmap. destruct (weights !! pg.1) as [w|] eqn:Hw; [done|]. exfalso.
    assert (existsb (fun pg => default 0 (weights !! pg.1) =? 0) (points EScore) = true); [|congruence]. apply existsb_exists. exists pg.
    split; [by apply list_elem_of_In|]. by rewrite Hw.
Qed.

(** ** The scores of a run *)

(** Every plugin of the list has a score for each of [n] sites, and there is no other. *)
Definition scored (names : list string) (n : nat) (scores : gmap string (list SiteScore)) : Prop :=
  forall name, match scores !! name with Some l => name ∈ names ∧ length l = n | None => name ∉ names end.

Lemma score_site_scored names n w st stack index siteID info pls : forall scores st' scores' e, scored names n scores ->
  score_site w st stack index siteID info scores pls = Some (st', scores', e) -> scored names n scores'.
Proof.
  revert st. induction pls as [|[name pl] pls IH]; intros st scores st' scores' e Hs; cbn [score_site]; [by intros [= _ <- _]|].
  destruct (Score pl) as [run|]; [|done]. bind_simpl. destruct (run _ _ _ _) as [[[st1 s] status]|]; [|done]. bind_simpl.
  destruct (IsSuccess status); [|by intros [= _ <- _]]. apply IH. intros name'. specialize (Hs name'). destruct (decide (name' = name)) as [->|Hne].
  - rewrite lookup_alter_eq. destruct (scores !! name); [|done]. cbn [fmap option_fmap option_map]. by rewrite length_insert.
  - by rewrite lookup_alter_ne.
Qed.

Lemma score_sites_scored f names n w stack sites info order : forall st scores st' scores' e, scored names n scores ->
  score_sites f w st stack sites info scores order = Some (st', scores', e) -> scored names n scores'.
Proof.
  induction order as [|i order IH]; intros st scores st' scores' e Hs; cbn [score_sites]; [by intros [= _ <- _]|].
  destruct (sites !! i); [|done]. bind_simpl. destruct (score_site _ _ _ _ _ _ _ _) as [[[st1 scores1] err]|] eqn:Hsc; [|done]. bind_simpl.
  apply (score_site_scored names n) in Hsc; [|done]. destruct err; [by intros [= _ <- _]|]. by apply IH.
Qed.

(** The weighted score of a plugin for the site at place [i]. *)
Definition score_at (i : nat) (l : list SiteScore) : Z := default 0 (SS_Score <$> l !! i).

Lemma apply_weight_spec name weight l l' : 0 < weight -> weight * MaxSiteScore <= MaxTotalScore -> apply_weight name weight l = Ok l' ->
  length l' = length l ∧ forall i, 0 <= score_at i l' <= MaxSiteScore * weight.
Proof.
  intros Hw Hmax. revert l'. induction l as [|s l IH]; intros l'; cbn [apply_weight].
  { intros [= <-]. split; [done|]. intros i. unfold score_at, MaxSiteScore. rewrite lookup_nil. cbn. lia. }
  destruct (Z.ltb_spec MaxSiteScore (SS_Score s)); [done|]. destruct (Z.ltb_spec (SS_Score s) MinSiteScore); [done|]. cbn [orb].
  destruct (apply_weight name weight l) as [l1|]; [|done]. intros [= <-]. destruct (IH l1 eq_refl) as [Hlen Hall]. split; [simpl; lia|].
  intros [|i]; [|apply Hall]. unfold score_at. cbn [lookup list_lookup fmap option_fmap option_map default]. unfold MaxTotalScore, MaxSiteScore, MinSiteScore in *.
  cbn [SS_Score set_score from_option id]. rewrite wrap64_id; [nia|]. unfold int64_range, MinInt64, MaxInt64 in *. nia.
Qed.

Lemma apply_weights_spec f names n pls : weights_ok (pluginNameToWeightMap f) -> NoDup pls.*1 -> (forall name, name ∈ pls.*1 -> name ∈ names ∧ is_Some (pluginNameToWeightMap f !! name)) ->
  forall scores scores', scored names n scores -> apply_weights f scores pls = Ok scores' ->
  scored names n scores' ∧ (forall name, name ∉ pls.*1 -> scores' !! name = scores !! name) ∧
  forall name l, name ∈ pls.*1 -> scores' !! name = Some l -> ∃ w, pluginNameToWeightMap f !! name = Some w ∧ forall i, 0 <= score_at i l <= MaxSiteScore * w.
Proof.
  intros [Hpos Hmax]. induction pls as [|[name pl] pls IH]; intros Hnd Hin scores scores' Hs; cbn [apply_weights].
  { intros [= <-]. split_and!; [done|done|]. intros name l Hn. by apply elem_of_nil in Hn. }
  apply NoDup_cons in Hnd as [Hni Hnd]. cbn [fmap list_fmap fst] in *. destruct (Hin name (list_elem_of_here _ _)) as [Hname [w Hw]].
  specialize (Hs name) as Hsn. destruct (scores !! name) as [l|] eqn:Hl; [|done]. rewrite Hw. cbn [default from_option id].
  assert (w * MaxSiteScore <= MaxTotalScore) as Hwm.
  { destruct (wsum_bound (fun w => w) 1 {[name := w]} (pluginNameToWeightMap f) Hpos) as [_ Hb]; [lia| |].
    - intros k a. intros [<- <-]%lookup_singleton_Some. exists w. specialize (Hpos _ _ Hw). split; [done|lia].
    - rewrite map_to_list_singleton in Hb. cbn [fmap list_fmap zsum snd] in Hb. unfold MaxSiteScore in *. lia. }
  destruct (apply_weight name w l) as [l1|] eqn:Ha; [|done]. destruct (apply_weight_spec _ _ _ _ (Hpos _ _ Hw) Hwm Ha) as [Hlen Hb]. intros Hrest.
  destruct (IH Hnd (fun n H => Hin n (list_elem_of_further _ _ _ H)) (<[name := l1]> scores) scores') as (H1 & H2 & H3); [|exact Hrest|].
  { intros name'. specialize (Hs name'). destruct (decide (name' = name)) as [->|]; [rewrite lookup_insert_eq; destruct Hsn; split; [done|lia]|by rewrite lookup_insert_ne]. }
  split_and!; [done| |].
  - intros name' [Hne Hout]%not_elem_of_cons. rewrite H2 by done. by rewrite lookup_insert_ne.
  - intros name' l' [->|Hin']%elem_of_cons Hl'; [|by eapply H3]. rewrite H2, lookup_insert_eq in Hl' by done. injection Hl' as <-. by exists w.
Qed.

Lemma initial_scored (pls : list (string * Plugin)) (n : nat) :
  scored pls.*1 n (foldl (fun m pl => <[pl.1 := replicate n (mkSiteScore "" "" "" 0 0)]> m) ∅ pls).
Proof.
  induction pls as [|pl pls IH] using rev_ind; [intros name; cbn [foldl]; rewrite lookup_empty; by intros ?%elem_of_nil|].
  intros name. specialize (IH name). rewrite foldl_app. cbn [foldl]. destruct (decide (name = pl.1)) as [->|Hne].
  - rewrite lookup_insert_eq, length_replicate, fmap_app, elem_of_app. split; [right; apply list_elem_of_here|done].
  - rewrite lookup_insert_ne by done. destruct (foldl _ _ _ !! name); rewrite fmap_app, elem_of_app; [naive_solver|].
    intros [?|Hin%list_elem_of_singleton]; done.
Qed.

(** Additions that stay in range are exact. *)
Lemma fold_exact i (l : list (string * list SiteScore)) : forall acc, (forall e, e ∈ l -> (i < length e.2)%nat ∧ 0 <= score_at i e.2) -> 0 <= acc ->
  acc + zsum (score_at i <$> l.*2) <= MaxInt64 ->
  foldl (fun acc e => acc ← acc; s ← e.2 !! i; Some (wrap64 (acc + SS_Score s))) (Some acc) l = Some (acc + zsum (score_at i <$> l.*2)).
Proof.
  induction l as [|e l IH]; intros acc Hl Hacc Hmax; cbn [foldl fmap list_fmap zsum] in *; [f_equal; lia|].
  destruct (Hl e (list_elem_of_here _ _)) as [Hi H0]. destruct (lookup_lt_is_Some_2 e.2 i Hi) as [s Hs]. rewrite Hs. bind_simpl.
  assert (score_at i e.2 = SS_Score s) as He by (unfold score_at; by rewrite Hs). assert (0 <= zsum (score_at i <$> l.*2)) as Hrest.
  { clear -Hl. induction l as [|e' l IH]; [done|]. cbn [fmap list_fmap zsum]. destruct (Hl e' ltac:(right; left)). specialize (IH ltac:(intros e'' [->|?]%elem_of_cons; apply Hl; [left|right; by right])). lia. }
  rewrite wrap64_id by (unfold int64_range, MinInt64, MaxInt64 in *; lia). rewrite IH; [f_equal; lia|intros e' ?; apply Hl; by right|lia|lia].
Qed.

(** In a framework that [NewFramework] accepts, with the 32-bit weights of a
    configuration, the total of a site's weighted scores never overflows: what
    [prioritizeSites] computes in 64-bit arithmetic, visiting the plugins in any order, is
    the sum of the scores, and it lies between 0 and [MaxInt64]. *)
Theorem weighted_scores_never_overflow range registry plugins f w st stack sites info order st' scores i
  (Hrange : forall A (m : gmap string A), range A m ≡ₚ map_to_list m) (Hnd : NoDup registry.*1)
  (Hweights : forall e refs ref, plugins e = Some refs -> ref ∈ refs -> 0 <= Ref_Weight ref < 2 ^ 31) (Hf : NewFramework registry plugins = Ok f)
  (Hrun : RunScorePlugins f w st stack sites info order = Some (st', Ok scores)) (Hi : (i < length sites)%nat) :
  let total := zsum (score_at i <$> (map_to_list scores).*2) in
  total_score range scores i = Some total ∧ 0 <= total <= MaxInt64.
Proof.
  intros total. destruct (new_framework_weights _ _ _ Hnd Hweights Hf) as (Hok & Hnames & Hsome). unfold RunScorePlugins in Hrun.
  set (scores0 := foldl _ ∅ (points f EScore)) in Hrun. assert (scored (points f EScore).*1 (length sites) scores0) as Hs0 by apply initial_scored.
  destruct (score_sites _ _ _ _ _ _ _ _) as [[[st1 scores1] err]|] eqn:Hsc; [|done]. bind_simpl in Hrun. destruct err; [done|].
  apply (score_sites_scored f (points f EScore).*1 (length sites)) in Hsc; [|done]. destruct (apply_weights f scores1 (points f EScore)) as [scores2|] eqn:Ha; [|done].
  injection Hrun as _ <-. destruct (apply_weights_spec f (points f EScore).*1 (length sites) _ Hok Hnames (fun n H => conj H (Hsome n H)) _ _ Hsc Ha) as (Hs2 & _ & Hb).
  assert (forall name l, scores2 !! name = Some l -> length l = length sites ∧ ∃ w, pluginNameToWeightMap f !! name = Some w ∧ 0 <= score_at i l <= MaxSiteScore * w) as Hall.
  { intros name l Hl. specialize (Hs2 name) as Hn. rewrite Hl in Hn. destruct Hn as [Hn Hlen]. split; [done|]. destruct (Hb name l Hn Hl) as (w' & ? & Hw'). by exists w'. }
  destruct Hok as [Hpos Hmax]. destruct (wsum_bound (score_at i) MaxSiteScore scores2 _ Hpos) as [H0 H1]; [done|intros k l Hl; by destruct (Hall k l Hl)|]. fold total in H0, H1.
  assert (total <= MaxInt64) as Hle by (unfold MaxTotalScore in Hmax; lia). split; [|done]. unfold total_score.
  assert (zsum (score_at i <$> (range _ scores2).*2) = total) as Hperm by (apply zsum_perm; by rewrite Hrange).
  rewrite fold_exact; [by rewrite Hperm| |done|by rewrite Hperm]. intros [name l] He. rewrite Hrange in He. apply elem_of_map_to_list in He.
  destruct (Hall name l He) as (Hlen & w' & _ & ? & _). cbn [snd]. split; [lia|done].
Qed.

(** ** An example *)

Definition demo_scorer (score : Z) : Plugin := mkPlugin None None None (Some (fun _ st _ _ => Some (st, score, None))) None None None.
Definition demo_sorter : Plugin := mkPlugin None None None None None None (Some (fun _ _ => true)).
Definition demo_binder : Plugin := mkPlugin None None None None (Some (fun w _ stack _ => Some (w, stack, None))) None None.
Definition demo_registry : list (string * Plugin) :=
  [("high"%string, demo_scorer 70); ("low"%string, demo_scorer 5); ("sort"%string, demo_sorter); ("bind"%string, demo_binder)].
Definition demo_plugins : Framework.Plugins := fun e =>
  match e with
  | EScore => Some [mkPluginRef "high" 3; mkPluginRef "low" 0]
  | EQueueSort => Some [mkPluginRef "sort" 0]
  | EBind => Some [mkPluginRef "bind" 0]
  | _ => None
  end.

Lemma demo_weights e refs ref : demo_plugins e = Some refs -> ref ∈ refs -> 0 <= Ref_Weight ref < 2 ^ 31.
Proof.
  intros He Hin. destruct e; try discriminate; injection He as <-; repeat (apply elem_of_cons in Hin as [->|Hin]; [simpl; lia|]); by apply elem_of_nil in Hin.
Qed.

Definition demo_site_list : list Site := [mkSite "s1" "" "" (mkGeo "" "" "" "") (mkRegionAz "" "") "" "" [] "" ∅ []].
Definition demo_score_stack : Stack := mkStack "" ∅ [] (mkSelector (mkGeo "" "" "" "") [] "" "" (mkStrategy "" "") [] []) (mkSelected "" "" "" "" "") "" 0 "" "".
Definition demo_score_world : World := mkWorld NewEmptySnapshot (newSchedulerCache 0) ∅ ∅ [].

Definition demo_framework : framework := match NewFramework demo_registry demo_plugins with Ok f => f | Err _ => mkFramework (fun _ => []) ∅ false end.
Definition demo_scored : option (CycleState * result (gmap string (list SiteScore))) :=
  RunScorePlugins demo_framework demo_score_world ∅ demo_score_stack demo_site_list (fun _ => None) [0%nat].

Lemma demo_framework_built : NewFramework demo_registry demo_plugins = Ok demo_framework.
Proof. unfold demo_framework. destruct (NewFramework demo_registry demo_plugins) as [f|e] eqn:Hf; [done|]. by vm_compute in Hf. Qed.

Lemma demo_scores_exist : ∃ st scores, demo_scored = Some (st, Ok scores) ∧ zsum (score_at 0 <$> (map_to_list scores).*2) = 215.
Proof.
  assert (match demo_scored with Some (_, Ok scores) => zsum (score_at 0 <$> (map_to_list scores).*2) | _ => 0 end = 215) as Hs by (vm_compute; reflexivity).
  destruct demo_scored as [[st [scores|]]|]; [by exists st, scores|done..].
Qed.

Lemma weighted_scores_never_overflow_witness : ∃ st scores,
  RunScorePlugins demo_framework demo_score_world ∅ demo_score_stack demo_site_list (fun _ => None) [0%nat] = Some (st, Ok scores) ∧
  total_score (fun A (m : gmap string A) => map_to_list m) scores 0 = Some 215.
Proof.
  destruct demo_scores_exist as (st & scores & Hr & Hsum). exists st, scores. split; [exact Hr|]. rewrite <- Hsum.
  refine (proj1 (weighted_scores_never_overflow (fun A (m : gmap string A) => map_to_list m) demo_registry demo_plugins demo_framework demo_score_world ∅ demo_score_stack
    demo_site_list (fun _ => None) [0%nat] st scores 0 (fun A m => reflexivity _) _ demo_weights demo_framework_built Hr _)).
  - apply (bool_decide_unpack _). vm_compute. exact I.
  - simpl. lia.
Defined.
