(* ===== verification/Deployed.v ===== *)
(** * The deployed framework

    Models the registry of the plugins ([framework/plugins/registry.go]), the default
    configuration with a policy ([algorithmprovider/registry.go]) and the building of the
    framework ([buildFramework] of [scheduler.go]).  The policy file is a parameter of the
    scheduler; [edgecloud_policy] is the one the repository ships.  The lemmas give the
    plugins of each extension point of the framework it builds. *)
From S2P Require Import Prelude Types Strconv SiteTree SiteCacheInfo Cache Labels Framework Floats FlavorPlugin Plugins Strategy Binder.
From S2P Require SchedQueue.

Local Open Scope Z_scope.

(** A predicate or priority of a policy with its weight (types/policy_types.go:38-71 Policy). *)
Record Policy := mkPolicy { Predicates : list string; Priorities : list (string * Z) }.

(** [int32(prioritie.Weight)] *)
Definition wrap32 (z : Z) : Z := (z + 2 ^ 31) mod 2 ^ 32 - 2 ^ 31.

(** (algorithmprovider/registry.go:28-60) *)
Definition getDefaultConfig : Framework.Plugins := fun e =>
  match e with
  | EQueueSort => Some [mkPluginRef "PrioritySort" 0]
  | EPreFilter => Some [mkPluginRef "Flavor" 0]
  | EFilter | EPreScore | EScore => Some []
  | EBind => Some [mkPluginRef "DefaultBinder" 0]
  | EStrategy => Some [mkPluginRef "regionandaz" 0; mkPluginRef "LocationAndOperator" 0]
  | _ => None
  end.

(** (algorithmprovider/registry.go:62-77) *)
Definition GetPlugins (policy : Policy) : Framework.Plugins := fun e =>
  match e with
  | EFilter => Some (default [] (getDefaultConfig EFilter) ++ ((fun name => mkPluginRef name 0) <$> Predicates policy))
  | EScore => Some (default [] (getDefaultConfig EScore) ++ ((fun '(name, weight) => mkPluginRef name (wrap32 weight)) <$> Priorities policy))
  | _ => getDefaultConfig e
  end.

(** (queuesort/priority_sort.go:31-53) *)
Definition PrioritySort : Plugin := mkPlugin None None None None None None (Some SchedQueue.PrioritySort_Less).

Section Deployed.
Context (range : forall A : Type, gmap string A -> list (string * A)) (spot_fake : bool).

(** The registry in one order; it is a map (framework/plugins/registry.go:37-52). *)
Definition NewRegistry : list (string * Plugin) :=
  [("DefaultBinder", DefaultBinder range); ("Flavor", FlavorPlugin range spot_fake); ("LocationAndOperator", LocationAndOperatorPlugin);
   ("EipAvailability", EipAvailabilityPlugin); ("SiteAvailability", SiteAvailabilityPlugin); ("SiteResourcesFit", FitPlugin);
   ("PrioritySort", PrioritySort); ("regionandaz", RegionAndAzPlugin range); ("Volume", VolumePlugin range);
   ("SiteResourcesLeastAllocated", LeastAllocatedPlugin range); ("StackAffinity", StackAffinityPlugin); ("ExclusiveSite", ExclusiveSitePlugin)]%string.

(** The framework of a policy (scheduler.go:621-646). *)
Definition buildFramework (policy : Policy) : result framework := NewFramework NewRegistry (GetPlugins policy).

Definition edgecloud_policy : Policy :=
  mkPolicy ["SiteAvailability"; "LocationAndOperator"; "regionandaz"; "Flavor"; "Volume"; "EipAvailability"; "ExclusiveSite"]
    [("StackAffinity", 1); ("Flavor", 1); ("SiteResourcesLeastAllocated", 1)]%string.

(** What the scheduler reads of a framework. *)
Definition framework_view (r : result framework) :=
  match r with
  | Ok f => Some (runAllFilters f, (fun e => points f e) <$> [EPreFilter; EFilter; EPreScore; EScore; EBind; EStrategy],
      (fun name => pluginNameToWeightMap f !! name) <$> (points f EScore).*1)
  | Err _ => None
  end.

(** The framework that the shipped policy gives. *)
Lemma deployed_framework : framework_view (buildFramework edgecloud_policy) =
  Some (false,
    [ [("Flavor", FlavorPlugin range spot_fake)];
      [("SiteAvailability", SiteAvailabilityPlugin); ("LocationAndOperator", LocationAndOperatorPlugin); ("regionandaz", RegionAndAzPlugin range);
       ("Flavor", FlavorPlugin range spot_fake); ("Volume", VolumePlugin range); ("EipAvailability", EipAvailabilityPlugin); ("ExclusiveSite", ExclusiveSitePlugin)];
      [];
      [("StackAffinity", StackAffinityPlugin); ("Flavor", FlavorPlugin range spot_fake); ("SiteResourcesLeastAllocated", LeastAllocatedPlugin range)];
      [("DefaultBinder", DefaultBinder range)];
      [("regionandaz", RegionAndAzPlugin range); ("LocationAndOperator", LocationAndOperatorPlugin)] ]%string,
    [Some 1; Some 1; Some 1]).
Proof.
  unfold buildFramework, NewRegistry, DefaultBinder, FlavorPlugin, LocationAndOperatorPlugin, EipAvailabilityPlugin, SiteAvailabilityPlugin,
    FitPlugin, PrioritySort, RegionAndAzPlugin, VolumePlugin, LeastAllocatedPlugin, StackAffinityPlugin, ExclusiveSitePlugin, filter_plugin.
  (* The methods are opaque to the computation. *)
  generalize (DefaultBinder_Bind range) as m1, (Flavor_Filter range spot_fake) as m2, (Flavor_Score range spot_fake) as m3,
    (pure_filter LocationAndOperator_check) as m4, LocationAndOperator_Strategy as m5, (pure_filter EipAvailability_check) as m6,
    (pure_filter SiteAvailability_check) as m7, Fit_PreFilter as m8, Fit_Filter as m9, SchedQueue.PrioritySort_Less as m10,
    (pure_filter RegionAndAz_check) as m11, (RegionAndAz_Strategy range) as m12, (Volume_Filter range) as m13, (Volume_Score range) as m14,
    (LeastAllocated_Score range) as m15, StackAffinity_Score as m16, (pure_filter ExclusiveSite_check) as m17, Flavor_PreFilter as m18.
  intros. match goal with |- ?l = ?x => exact (@eq_refl _ x <: l = x) end.
Qed.
(** The plugins of the framework of the shipped policy. *)
Definition policy_framework (f : framework) : Prop := runAllFilters f = false ∧
  points f EPreFilter = [("Flavor"%string, FlavorPlugin range spot_fake)] ∧
  points f EFilter = [("SiteAvailability"%string, SiteAvailabilityPlugin); ("LocationAndOperator"%string, LocationAndOperatorPlugin);
    ("regionandaz"%string, RegionAndAzPlugin range); ("Flavor"%string, FlavorPlugin range spot_fake); ("Volume"%string, VolumePlugin range);
    ("EipAvailability"%string, EipAvailabilityPlugin); ("ExclusiveSite"%string, ExclusiveSitePlugin)] ∧
  points f EPreScore = [] ∧
  points f EScore = [("StackAffinity"%string, StackAffinityPlugin); ("Flavor"%string, FlavorPlugin range spot_fake);
    ("SiteResourcesLeastAllocated"%string, LeastAllocatedPlugin range)] ∧
  points f EBind = [("DefaultBinder"%string, DefaultBinder range)] ∧
  points f EStrategy = [("regionandaz"%string, RegionAndAzPlugin range); ("LocationAndOperator"%string, LocationAndOperatorPlugin)] ∧
  (fun name => pluginNameToWeightMap f !! name) <$> (points f EScore).*1 = [Some 1; Some 1; Some 1].

Lemma built_framework f : buildFramework edgecloud_policy = Ok f -> policy_framework f.
Proof.
  intros Hf. pose proof deployed_framework as H. rewrite Hf in H. clear Hf. unfold framework_view in H. cbn [fmap list_fmap] in H.
  injection H as H1 H2 H3 H4 H5 H6 H7 H8. by split_and!.
Qed.

(** It can be built. *)
Lemma built_exists : ∃ f, buildFramework edgecloud_policy = Ok f.
Proof. pose proof deployed_framework as H. destruct (buildFramework edgecloud_policy) as [f|]; [by exists f|discriminate]. Qed.
End Deployed.
