(* ===== verification/FilterProofs.v ===== *)
(** * What the filters decide

    The contract between the framework and a filter plugin, and its proof for every
    filter of the shipped policy: the plugin returns without a change to the site, and
    succeeds exactly on the sites that a plain predicate describes.  [run_filter_spec]
    composes the contracts: the framework's filters accept a site exactly when it satisfies
    all the predicates.  The score plugins of the policy return a score between 0 and 100. *)
From S2P Require Import Prelude Types Strconv SiteTree SiteCacheInfo Cache Labels Framework Floats FlavorPlugin FlavorProofs Plugins Strategy.

Local Open Scope Z_scope.

Lemma foldl_noop {A B} (f : A -> B -> A) (l : list B) acc : (forall a b, b ∈ l -> f a b = a) -> foldl f acc l = acc.
Proof. intros H. induction l as [|x l IH]; simpl; [done|]. rewrite H by (by left). apply IH. intros a b ?. apply H. by right. Qed.

(** ** The contract of a filter *)

Section Contract.
(** [inv] holds of the cycle state throughout, [ready] once a plugin that makes it so has
    accepted a site, and the sites satisfy [good]. *)
Context (ctx : Context_) (w : World) (stack : Stack) (inv ready : CycleState -> Prop) (good : SiteCacheInfo -> Prop).

(** The plugin decides [P]; with [readies] it makes the state ready when it accepts. *)
Definition decides (readies : bool) (P : SiteCacheInfo -> Prop) (pl : Plugin) : Prop :=
  ∃ run, Filter pl = Some run ∧ forall st n, inv st -> good n ->
    ∃ st' status, run ctx w st stack n = Some (st', n, status) ∧ inv st' ∧ (ready st -> ready st') ∧
      ((status = None ∧ P n ∧ (readies = true -> ready st')) ∨ (IsUnschedulable status = true ∧ ¬ P n)).

(** A list of plugins with what they decide. *)
Abbreviation decide_all := (Forall2 (fun pl (spec : bool * (SiteCacheInfo -> Prop)) => decides spec.1 spec.2 pl.2)).

Lemma run_filter_spec f pls specs : runAllFilters f = false -> decide_all pls specs -> forall st n, inv st -> good n ->
  ∃ st' statuses, run_filter ctx f w st stack n ∅ pls = Some (st', n, statuses) ∧ inv st' ∧ (ready st -> ready st') ∧
    ((statuses = ∅ ∧ (forall spec, spec ∈ specs -> spec.2 n) ∧ (true ∈ specs.*1 -> ready st')) ∨
     (∃ name s, statuses = {[name := s]} ∧ IsUnschedulable (Some s) = true ∧ ∃ spec, spec ∈ specs ∧ ¬ spec.2 n)).
Proof.
  intros Hall. induction 1 as [|[name pl] [b P] pls specs (run & Hrun & Hspec) Hrest IH]; intros st n Hinv Hgood.
  { eexists st, ∅. split_and!; [done|done|done|]. left. split_and!; [done|by intros ? ?%elem_of_nil|by intros ?%elem_of_nil]. }
  cbn [run_filter fst snd] in *. rewrite Hrun. bind_simpl. destruct (Hspec st n Hinv Hgood) as (st1 & status & -> & Hinv1 & Hready1 & Hcase). bind_simpl.
  destruct Hcase as [(-> & HP & Hb)|(Hun & HP)].
  - destruct (IH st1 n Hinv1 Hgood) as (st2 & statuses & -> & Hinv2 & Hready2 & Hcase). exists st2, statuses. split_and!; [done|done|auto|].
    destruct Hcase as [(-> & Hspecs & Hr)|(nm & s & -> & Hun & spec & Hin & Hno)].
    + left. split_and!; [done|intros spec [->|Hin]%elem_of_cons; [done|auto]|]. csimpl. intros [Hb'|Hin]%elem_of_cons; auto.
    + right. exists nm, s. split_and!; [done|done|]. exists spec. by split; [right|].
  - destruct status as [s|]; [|done]. assert (IsSuccess (Some s) = false) as ->.
    { unfold IsSuccess, IsUnschedulable in *. apply bool_decide_eq_true in Hun. apply bool_decide_eq_false. destruct Hun as [-> | ->]; done. }
    rewrite Hun, Hall. exists st1, {[name := s]}. split_and!; [done|done|done|]. right. exists name, s. split_and!; [done|done|].
    exists (b, P). by split; [left|].
Qed.

(** A filter that looks at the site only. *)
Lemma pure_decides (check : Context_ -> Stack -> SiteCacheInfo -> option Status) (P : SiteCacheInfo -> Prop) pl :
  Filter pl = Some (pure_filter check) ->
  (forall n, good n -> (check ctx stack n = Some None ∧ P n) ∨ (∃ status, check ctx stack n = Some status ∧ IsUnschedulable status = true ∧ ¬ P n)) ->
  decides false P pl.
Proof.
  intros Hpl Hcheck. exists (pure_filter check). split; [done|]. intros st n Hinv Hgood. unfold pure_filter.
  destruct (Hcheck n Hgood) as [[-> HP]|(status & -> & Hun & HP)]; bind_simpl.
  - exists st, None. split_and!; [done|done|done|]. by left.
  - exists st, status. split_and!; [done|done|done|]. by right.
Qed.

End Contract.

(** ** What a stack asks of a site *)

(** Nothing is asked for, or what there is. *)
Definition agrees (want have : string) : Prop := want = ""%string ∨ want = have.

Lemma asks_spec want have : asks want have = false <-> agrees want have.
Proof.
  unfold asks, agrees. destruct (String.eqb_spec want ""), (String.eqb_spec want have); simpl; split; try tauto; done.
Qed.

(** The site is on sale, and it is the one asked for, or of the region asked for. *)
Definition on_sale (stack : Stack) (site : Site) : Prop :=
  Site_Status site <> SiteStatusOffline ∧ Site_Status site <> SiteStatusSellout ∧
  let asked := Sel_SiteID (Stack_Selector stack) in
  agrees asked (SiteID site) ∨ (String.prefix asked (SiteID site) = true ∧ strings_HasSuffix asked SiteDelimiter = true).

Definition in_place (want have : GeoLocation) : Prop :=
  agrees (Country want) (Country have) ∧ agrees (Area want) (Area have) ∧ agrees (Province want) (Province have) ∧ agrees (City want) (City have).

Definition located (stack : Stack) (site : Site) : Prop :=
  in_place (Sel_GeoLocation (Stack_Selector stack)) (Site_GeoLocation site) ∧ agrees (Sel_Operator (Stack_Selector stack)) (Site_Operator site).

Definition of_region (have : RegionAzMap) (region : CloudRegion) : Prop :=
  agrees (CR_Region region) (RA_Region have) ∧ (CR_AvailabilityZone region = [] ∨ RA_AvailabilityZone have ∈ CR_AvailabilityZone region).

Definition in_regions (stack : Stack) (site : Site) : Prop :=
  Sel_Regions (Stack_Selector stack) = [] ∨ ∃ region, region ∈ Sel_Regions (Stack_Selector stack) ∧ of_region (Site_RegionAzMap site) region.

(** The caller's domain is not on the site's list of domains. *)
Definition not_listed (ctx : Context_) (site : Site) : Prop :=
  forall whiteList, exclusive_list (SiteAttributes site) = Some whiteList -> default ""%string (ctx !! "domain_id"%string) ∉ strings_Split whiteList ",".

(** A predicate of the site of an information. *)
Definition on_site (Q : Site -> Prop) (n : SiteCacheInfo) : Prop := ∃ site, GetSite n = Some site ∧ Q site.

Lemma on_site_iff Q n site : GetSite n = Some site -> (on_site Q n <-> Q site).
Proof. intros Hn. split; [intros (s & Hs & HQ); congruence|by exists site]. Qed.

Ltac rejected HQ := right; eexists; split_and!; [reflexivity|done|rewrite HQ].

Lemma available_decides ctx stack n : is_Some (GetSite n) ->
  (SiteAvailability_check ctx stack n = Some None ∧ on_site (on_sale stack) n) ∨
  (∃ status, SiteAvailability_check ctx stack n = Some status ∧ IsUnschedulable status = true ∧ ¬ on_site (on_sale stack) n).
Proof.
  intros [site Hsite]. pose proof (on_site_iff (on_sale stack) n site Hsite) as HQ. unfold SiteAvailability_check. rewrite Hsite. bind_simpl.
  unfold on_sale, agrees in *. destruct (String.eqb_spec (Site_Status site) SiteStatusOffline) as [Heq|Hoff]; [rejected HQ; tauto|].
  destruct (String.eqb_spec (Site_Status site) SiteStatusSellout) as [Heq|Hsell]; [rejected HQ; tauto|]. cbn [orb].
  destruct (String.eqb_spec (Sel_SiteID (Stack_Selector stack)) ""), (String.eqb_spec (Sel_SiteID (Stack_Selector stack)) (SiteID site)); cbn [negb andb];
    try (left; split; [done|]; apply HQ; tauto).
  destruct (String.prefix _ _) eqn:Hp, (strings_HasSuffix _ _) eqn:Hs; cbn [negb andb]; try (left; split; [done|]; apply HQ; tauto);
    rejected HQ; intros (_ & _ & H); intuition congruence.
Qed.

Lemma location_decides ctx stack n : is_Some (GetSite n) ->
  (LocationAndOperator_check ctx stack n = Some None ∧ on_site (located stack) n) ∨
  (∃ status, LocationAndOperator_check ctx stack n = Some status ∧ IsUnschedulable status = true ∧ ¬ on_site (located stack) n).
Proof.
  intros [site Hsite]. unfold LocationAndOperator_check, locationEqual. rewrite Hsite. bind_simpl. set (want := Sel_GeoLocation (Stack_Selector stack)).
  assert (on_site (located stack) n <-> (asks (Country want) (Country (Site_GeoLocation site)) = false ∧ asks (Area want) (Area (Site_GeoLocation site)) = false ∧
    asks (Province want) (Province (Site_GeoLocation site)) = false ∧ asks (City want) (City (Site_GeoLocation site)) = false) ∧
    asks (Sel_Operator (Stack_Selector stack)) (Site_Operator site) = false) as HQ.
  { rewrite (on_site_iff _ _ _ Hsite), !asks_spec. done. }
  assert (((String.eqb (Country want) "" && String.eqb (Area want) "") && String.eqb (Province want) "" && String.eqb (City want) "")%bool = true ->
    asks (Country want) (Country (Site_GeoLocation site)) = false ∧ asks (Area want) (Area (Site_GeoLocation site)) = false ∧
    asks (Province want) (Province (Site_GeoLocation site)) = false ∧ asks (City want) (City (Site_GeoLocation site)) = false) as Hempty.
  { rewrite !andb_true_iff, !String.eqb_eq. intros [[[-> ->] ->] ->]. done. }
  destruct (((_ && _) && _) && _)%bool.
  2: destruct (asks (Country want) _) eqn:H1; [bind_simpl; rejected HQ; by intros [[? _] _]|];
     destruct (asks (Area want) _) eqn:H2; [bind_simpl; rejected HQ; by intros [(_ & ? & _) _]|];
     destruct (asks (Province want) _) eqn:H3; [bind_simpl; rejected HQ; by intros [(_ & _ & ? & _) _]|];
     destruct (asks (City want) _) eqn:H4; [bind_simpl; rejected HQ; by intros [(_ & _ & _ & ?) _]|].
  1: destruct (Hempty eq_refl) as (H1 & H2 & H3 & H4).
  all: bind_simpl; cbn [negb]; change (asks (Sel_Operator (Stack_Selector stack)) (Site_Operator site)) with
    (negb (String.eqb (Sel_Operator (Stack_Selector stack)) "") && negb (String.eqb (Sel_Operator (Stack_Selector stack)) (Site_Operator site)))%bool in HQ;
    destruct (String.eqb (Sel_Operator (Stack_Selector stack)) "") eqn:Ho; [left; split; [done|]; by apply HQ|];
    destruct (String.eqb (Sel_Operator (Stack_Selector stack)) (Site_Operator site)) eqn:Ho'; [left; split; [done|]; by apply HQ|]; rejected HQ; by intros [_ ?].
Qed.

Lemma regionEqual_spec region n site : GetSite n = Some site ->
  ∃ b, regionEqual region n = Some b ∧ (b = true <-> of_region (Site_RegionAzMap site) region).
Proof.
  intros Hsite. unfold regionEqual, of_region. setoid_rewrite <-asks_spec. rewrite Hsite. bind_simpl.
  destruct (String.eqb_spec (CR_Region region) "") as [Hr|Hr]; cbn [andb].
  - unfold asks. rewrite Hr. cbn [String.eqb negb andb]. destruct (CR_AvailabilityZone region) as [|az azs]; simpl; [exists true; tauto|].
    eexists. split; [done|]. rewrite bool_decide_eq_true. split; [intros ?; split; [done|by right]|intros [_ [|]]; done].
  - destruct (asks _ _); [exists false; split; [done|]; split; [done|by intros [? _]]|].
    destruct (CR_AvailabilityZone region) as [|az azs]; [exists true; tauto|].
    eexists. split; [done|]. rewrite bool_decide_eq_true. split; [intros ?; split; [done|by right]|intros [_ [|]]; done].
Qed.

Lemma any_region_spec regions n site : GetSite n = Some site ->
  ∃ b, any_region regions n = Some b ∧ (b = true <-> ∃ region, region ∈ regions ∧ of_region (Site_RegionAzMap site) region).
Proof.
  intros Hsite. induction regions as [|region regions (b & Hb & IH)]; simpl.
  - exists false. split; [done|]. split; [done|]. by intros (? & ?%elem_of_nil & _).
  - destruct (regionEqual_spec region n site Hsite) as ([|] & -> & Hr); bind_simpl.
    + exists true. split; [done|]. split; [intros _; exists region; split; [by left|by apply Hr]|done].
    + exists b. split; [done|]. rewrite IH. split; [intros (r & ? & ?); exists r; by split; [right|]|].
      intros (r & [->|Hin]%elem_of_cons & Ho); [by apply Hr in Ho|by exists r].
Qed.

Lemma region_decides ctx stack n : is_Some (GetSite n) ->
  (RegionAndAz_check ctx stack n = Some None ∧ on_site (in_regions stack) n) ∨
  (∃ status, RegionAndAz_check ctx stack n = Some status ∧ IsUnschedulable status = true ∧ ¬ on_site (in_regions stack) n).
Proof.
  intros [site Hsite]. pose proof (on_site_iff (in_regions stack) n site Hsite) as HQ. unfold RegionAndAz_check, in_regions in *.
  destruct (Sel_Regions (Stack_Selector stack)) as [|region regions]; [left; split; [done|apply HQ; by left]|].
  destruct (any_region_spec (region :: regions) n site Hsite) as ([|] & -> & Hr); bind_simpl.
  - left. split; [done|]. apply HQ. right. by apply Hr.
  - right. eexists. split_and!; [done|done|]. rewrite HQ. intros [?|H]; [done|]. by apply Hr in H.
Qed.

Lemma exclusive_decides ctx stack n : is_Some (GetSite n) ->
  (ExclusiveSite_check ctx stack n = Some None ∧ on_site (not_listed ctx) n) ∨
  (∃ status, ExclusiveSite_check ctx stack n = Some status ∧ IsUnschedulable status = true ∧ ¬ on_site (not_listed ctx) n).
Proof.
  intros [site Hsite]. pose proof (on_site_iff (not_listed ctx) n site Hsite) as HQ. unfold ExclusiveSite_check, not_listed in *. rewrite Hsite. bind_simpl.
  destruct (exclusive_list _) as [l|]; [|left; split; [done|]; by apply HQ]. case_bool_decide as Hin.
  - right. eexists. split_and!; [done|done|]. rewrite HQ. intros H. by apply (H l).
  - left. split; [done|]. apply HQ. by intros l' [= <-].
Qed.

(** ** How many stacks a site can host *)

Definition enough (n : SiteCacheInfo) (k : Z) (fi : FlavorInfo) : Prop :=
  match AllocatableFlavor n !! FlavorID (FI_Flavor fi) with Some t => k * FI_Count fi <= t | None => False end.
#[export] Instance enough_dec n k fi : Decision (enough n k fi).
Proof. unfold enough. destruct (AllocatableFlavor n !! _); apply _. Defined.

Lemma hosts_enough n fis k : hosts n fis k <-> Forall (enough n k) fis.
Proof.
  unfold hosts. rewrite Forall_forall. apply forall_proper. intros fi. unfold enough.
  destruct (AllocatableFlavor n !! _) as [t|]; split; intros H Hin; specialize (H Hin); [by destruct H as (? & [= <-] & ?)|by exists t|by destruct H as (? & ? & ?)|done].
Qed.
#[export] Instance hosts_dec n fis k : Decision (hosts n fis k).
Proof. destruct (decide (Forall (enough n k) fis)) as [H|H]; [left|right]; by rewrite hosts_enough. Defined.

(** The least of the quotients of what there is and what one stack takes. *)
Fixpoint capacity_of (n : SiteCacheInfo) (fis : list FlavorInfo) : Z :=
  match fis with
  | [] => 0
  | [fi] => default 0 (AllocatableFlavor n !! FlavorID (FI_Flavor fi)) / FI_Count fi
  | fi :: fis => Z.min (default 0 (AllocatableFlavor n !! FlavorID (FI_Flavor fi)) / FI_Count fi) (capacity_of n fis)
  end.

(** The number of stacks of a request that a site can host, with the first choice of
    flavors of which there is one for each resource. *)
Definition capacity (stack : Stack) (n : SiteCacheInfo) : Z :=
  match filter (fun agg => hosts n (Agg_Flavors agg) 1) (default [] (calculateFlavorAggregate stack)) with
  | [] => 0
  | agg :: _ => capacity_of n (Agg_Flavors agg)
  end.

Lemma capacity_hosts n fis k : fis <> [] -> (forall fi, fi ∈ fis -> 1 <= FI_Count fi) -> hosts n fis 1 -> 0 <= k -> (k <= capacity_of n fis <-> hosts n fis k).
Proof.
  intros Hne Hc Hh Hk. rewrite hosts_enough in *. induction fis as [|fi fis IH]; [done|]. apply Forall_cons in Hh as [H1 Hrest].
  assert (k <= default 0 (AllocatableFlavor n !! FlavorID (FI_Flavor fi)) / FI_Count fi <-> enough n k fi) as Hfi.
  { unfold enough in *. specialize (Hc fi (list_elem_of_here _ _)). destruct (AllocatableFlavor n !! _) as [t|]; [|done]. simpl.
    split; [intros ?|intros ?; apply Z.div_le_lower_bound; lia]. pose proof (Z.mul_div_le t (FI_Count fi)). nia. }
  rewrite Forall_cons, <-Hfi. destruct fis as [|fi' fis]; [cbn [capacity_of]; rewrite Forall_nil; tauto|].
  rewrite <-IH; [|done|intros ? ?; apply Hc; by right|done]. change (capacity_of n (fi :: fi' :: fis)) with
    (Z.min (default 0 (AllocatableFlavor n !! FlavorID (FI_Flavor fi)) / FI_Count fi) (capacity_of n (fi' :: fis))). lia.
Qed.

(** ** The plugins that use the cycle state *)

Section Stateful.
Context (range : forall A : Type, gmap string A -> list (string * A)) (spot_fake : bool) (ctx : Context_) (w : World) (stack : Stack).
Hypothesis Hrange : forall A (m : gmap string A), range A m ≡ₚ map_to_list m.
Context (aggs : list FlavorAggregate).
Hypothesis Haggs : calculateFlavorAggregate stack = Some aggs.
Hypothesis Hplain : forall agg, agg ∈ aggs -> plain (Agg_Flavors agg).

(** Every entry of the selector is empty. *)
Definition selector_ready (st : CycleState) : Prop :=
  ∃ s, st !! SiteTempSelectorKey = Some (SiteSelectorInfos s) ∧ forall id info, s !! id = Some info -> info = mkSelectorInfo [] [] 0.

(** The combinations are stored, and the selector holds nothing yet. *)
Definition filtering (st : CycleState) : Prop :=
  st !! flavorStateKey = Some (FlavorAggregates aggs) ∧ (st !! SiteTempSelectorKey = None ∨ selector_ready st).

Lemma capacity_pos n : 0 < capacity stack n <-> ∃ agg, agg ∈ aggs ∧ hosts n (Agg_Flavors agg) 1.
Proof using Haggs Hplain.
  unfold capacity. rewrite Haggs. simpl. destruct (filter _ aggs) as [|agg l] eqn:Hf.
  - split; [lia|]. intros (agg & Hin & Hh). assert (agg ∈ filter (fun agg => hosts n (Agg_Flavors agg) 1) aggs) as H by (by apply list_elem_of_filter).
    rewrite Hf in H. by apply elem_of_nil in H.
  - assert (agg ∈ filter (fun agg => hosts n (Agg_Flavors agg) 1) aggs) as [Hh Hin]%list_elem_of_filter by (rewrite Hf; by left).
    split; [by exists agg|]. intros _. pose proof (Hplain agg Hin) as [H1 _ H2 _]. assert (1 <= capacity_of n (Agg_Flavors agg)); [|lia].
    apply capacity_hosts; [done|intros fi Hfi; specialize (H2 fi Hfi); lia|done|lia|done].
Qed.

Lemma flavor_decides : decides ctx w stack filtering selector_ready counted false (fun n => 0 < capacity stack n) (FlavorPlugin range spot_fake).
Proof using Hrange Haggs Hplain.
  eexists. split; [done|]. intros st n [Hst Hsel] Hn. unfold Flavor_Filter, getFlavorState, Read. rewrite Hst.
  destruct (filter_aggregates_spec range spot_fake Hrange aggs n Hplain Hn) as (status & Hstatus & Hok). rewrite Hstatus. bind_simpl.
  exists st, status. split_and!; [done|done|done|]. rewrite capacity_pos, <-Hok. clear Hok. destruct (counted_site n Hn) as [site Hsite].
  clear Haggs Hplain Hst. revert status Hstatus. induction aggs as [|agg l IH]; intros status; cbn [filter_aggregates].
  - rewrite Hsite. bind_simpl. intros [= <-]. right. by split.
  - destruct (aggregate_match _ _ _ _) as [m|]; bind_simpl; [|done]. destruct (m.1.1 && m.2.1)%bool; [intros [= <-]; by left|]. apply IH.
Qed.

(** No volumes are asked for. *)
Definition no_volumes : Prop := forall r, r ∈ Resources stack -> Storage r = ∅.

Lemma no_volumes_request : no_volumes -> volume_request range stack = ∅.
Proof using Hrange.
  intros H. apply foldl_noop. intros acc r Hr. unfold add_volumes. rewrite (H r Hr). assert (range Z ∅ = []) as ->; [by apply range_empty|done].
Qed.

(** The volume plugin accepts, and its update initialises the selector. *)
Lemma volume_decides : no_volumes -> decides ctx w stack filtering selector_ready counted true (fun _ => True) (VolumePlugin range).
Proof using Hrange.
  intros Hnv. eexists. split; [done|]. intros st n Hst Hn. unfold Volume_Filter. rewrite no_volumes_request by done.
  assert (range float64 ∅ = []) as -> by (by apply range_empty). cbn [volume_match]. bind_simpl. destruct (counted_site n Hn) as [site ->]. bind_simpl.
  destruct Hst as [Hfl Hsel]. unfold UpdateSiteSelectorState, Read. destruct Hsel as [Hnone|(s & Hs & Hzero)].
  - rewrite Hnone. eexists _, None. unfold Write. assert (selector_ready (<[SiteTempSelectorKey := SiteSelectorInfos {[SiteID site := mkSelectorInfo [] [] 0]}]> st)) as Hr.
    { exists {[SiteID site := mkSelectorInfo [] [] 0]}. split; [by rewrite lookup_insert_eq|]. by intros id info [<- <-]%lookup_singleton_Some. }
    split_and!; [done| |done|by left]. split; [by rewrite lookup_insert_ne|by right].
  - rewrite Hs. cbn [foldl mbind option_bind update_entry String.eqb fst snd]. exists st, None. split_and!; [done| |done|].
    + split; [done|]. right. by exists s.
    + left. split_and!; [done|done|]. intros _. by exists s.
Qed.

(** ** The scores of the shipped policy *)

(** A site as the cluster events make it: small counts, no hosts, and keys that name
    resource types. *)
Record plain_site (n : SiteCacheInfo) : Prop := {
  plain_counted : counted n;
  plain_hosts : forall site, GetSite n = Some site -> Hosts site = [];
  plain_types : forall key, is_Some (TotalResources n !! key) ∨ is_Some (RequestedResources n !! key) -> IsContain (strings_Split key FlavorDelimiter) "" = false }.

Lemma affinity_score st n : StackAffinity (Stack_Selector stack) = [] -> StackAntiAffinity (Stack_Selector stack) = [] -> is_Some (GetSite n) ->
  StackAffinity_Score w st stack (Some n) = Some (st, 50, None).
Proof.
  intros H1 H2 [site Hsite]. unfold StackAffinity_Score, getAffinityScore, getAntiAffinityScore. rewrite H1, H2, Hsite. cbn [affinity_selector].
  change (Selector_Empty NewSelector) with true. by rewrite orb_true_r.
Qed.

Lemma sum_of_none field (m : gmap string CPUAndMemory) acc : (forall key, is_Some (m !! key) -> IsContain (strings_Split key FlavorDelimiter) "" = false) ->
  sum_of_type range field "" m acc = acc.
Proof using Hrange.
  intros Hm. unfold sum_of_type. assert (forall e, e ∈ range _ m -> IsContain (strings_Split e.1 FlavorDelimiter) "" = false) as Hall.
  { intros [k v] He. rewrite Hrange in He. apply elem_of_map_to_list in He. apply Hm. by eexists. }
  induction (range _ m) as [|e l IH]; simpl; [done|]. rewrite (Hall e) by (by left). apply IH. intros e' ?. apply Hall. by right.
Qed.

Lemma least_allocated_score st n : no_volumes -> plain_site n -> LeastAllocated_Score range w st stack (Some n) = Some (st, 0, None).
Proof using Hrange.
  intros Hnv [[[site Hsite] _] Hhosts Htypes]. unfold LeastAllocated_Score. bind_simpl. rewrite Hsite.
  assert (forall field flvs, allocatable_request range w field n flvs (0, 0) = Some (0, 0)) as Hreq.
  { intros field. induction flvs as [|flv flvs IH]; simpl; [done|]. unfold getResourceType. rewrite Hsite. bind_simpl. rewrite (Hhosts site Hsite).
    destruct (FlavorCache_GetFlavor _ _ _); bind_simpl; rewrite !sum_of_none by auto; done. }
  unfold calculateCpuAllocatableRequest, calculateMemoryAllocatableRequest. rewrite !Hreq. bind_simpl.
  assert (storage_request range stack = ∅) as Hst.
  { unfold storage_request. apply foldl_noop. intros acc r Hr. rewrite (Hnv r Hr). assert (range Z ∅ = []) as ->; [by apply range_empty|done]. }
  unfold calculateStorageAllocatableRequest. rewrite Hst. assert (range Z ∅ = []) as -> by (by apply range_empty). done.
Qed.

Lemma aggregate_weight resources : forall ix agg, aggregate_at resources ix = Some agg -> 0 <= Weight agg <= 10 * Z.of_nat (length (Agg_Flavors agg)).
Proof.
  induction resources as [|r resources IH]; intros [|k ix] agg Hagg; simpl in Hagg; try (by injection Hagg as <-); [done|].
  destruct (Flavors r !! k); [|done]. bind_simpl in Hagg. destruct (aggregate_at resources ix) as [agg'|] eqn:H'; [|done]. injection Hagg as <-.
  specialize (IH ix agg' H'). cbn [Weight Agg_Flavors length]. unfold BaseWeight. assert (0 <= 10 / (Z.of_nat k + 1) <= 10); [|lia].
  split; [apply Z.div_pos; lia|apply Z.div_le_upper_bound; lia].
Qed.

End Stateful.
