(* ===== verification/ReserveProofs.v ===== *)
(** * Binding the replicas

    The last stage of [Schedule]: with the default binder, binding a stack to a site that
    the score plugins have measured succeeds, and the loops bind as many stacks as asked
    for, on each site at most the number the strategy gave it. *)
From S2P Require Import Prelude Types Strconv SiteTree SiteCacheInfo Cache Framework Plugins Strategy Binder Schedule.

Local Open Scope Z_scope.

(** ** The binder succeeds *)

(** No flavor of the region map makes the deduction divide by zero. *)
Definition divisible (m : gmap string RegionFlavor) : Prop := forall key flv v,
  m !! key = Some flv -> ParseInt (Vcpus (RF_Flavor flv)) = Some v -> v <> 0 ∧ Ram (RF_Flavor flv) <> 0.

Lemma deductFlavor_site n : SCI_Site (deductFlavor n) = SCI_Site n.
Proof. done. Qed.

Lemma flavor_types_total id v ram types : v <> 0 -> ram <> 0 -> forall n, ∃ r, flavor_types n id v ram types = Some r ∧
  SCI_Site (match r with inl n' | inr n' => n' end) = SCI_Site n.
Proof.
  intros Hv Hram. induction types as [|t types IH]; intros n; simpl; [by eexists|]. destruct (TotalResources n !! t) as [total|]; [|by eexists].
  rewrite (proj2 (Z.eqb_neq v 0) Hv), (proj2 (Z.eqb_neq ram 0) Hram). cbn [orb].
  match goal with |- context [flavor_types ?n' _ _ _ _] => destruct (IH n') as (r & -> & Hr) end. by exists r.
Qed.

Lemma flavor_loop_total region types m ids : divisible m -> forall n, ∃ n', flavor_loop n region types m ids = Some n' ∧ SCI_Site n' = SCI_Site n.
Proof.
  intros Hm. induction ids as [|id ids IH]; intros n; simpl; [by eexists|]. destruct (m !! _) as [flv|] eqn:Hflv; [|by eexists].
  destruct (ParseInt _) as [v|] eqn:Hv; [|by eexists]. destruct (Hm _ _ _ Hflv Hv) as [Hv0 Hram0].
  destruct (flavor_types_total id v (Ram (RF_Flavor flv)) types Hv0 Hram0 n) as ([n1|n1] & -> & H1); bind_simpl; [|by exists n1].
  destruct (IH n1) as (n2 & -> & H2). exists n2. split; [done|]. by rewrite H2.
Qed.

Lemma deduct_types_site range entries : forall acc, SCI_Site (foldl (deduct_type range) acc entries).1 = SCI_Site acc.1.
Proof. induction entries as [|e entries IH]; intros [n types]; simpl; [done|]. by rewrite IH. Qed.

Lemma deduct_total range n site res m g : SCI_Site n = Some site -> divisible m ->
  ∃ n', DeductSiteResInfo range n res m g = Some n' ∧ SCI_Site n' = Some site.
Proof.
  intros Hsite Hm. unfold DeductSiteResInfo. pose proof (deduct_types_site range (range _ (CpuAndMem res)) (n, [])) as H1.
  destruct (foldl _ _ _) as [n1 types]. simpl in H1. unfold updateSiteFlavor. change (SCI_Site (set_storage n1 _ _)) with (SCI_Site n1). rewrite H1, Hsite. bind_simpl.
  match goal with |- context [flavor_loop ?n' ?r ?t ?mm ?ids] => destruct (flavor_loop_total r t mm ids Hm n') as (n2 & -> & H2) end. bind_simpl.
  eexists. split; [done|]. change (SCI_Site n2 = Some site). rewrite H2. simpl. congruence.
Qed.

Lemma bind_resources_length w region rs : forall m flvs, length (bind_resources w region m rs flvs).1 = length rs.
Proof.
  induction rs as [|r rs IH]; intros m [|fl flvs]; simpl; [done..|]. pose proof (IH (request_of w region m r (FlavorID (FI_Flavor fl))) flvs) as H.
  destruct (bind_resources _ _ _ _ _) as [rs' m']. simpl in *. by rewrite H.
Qed.

Definition selected_of (site : Site) : Selected :=
  mkSelected (SiteID site) (RA_Region (Site_RegionAzMap site)) (RA_AvailabilityZone (Site_RegionAzMap site)) (ClusterName site) (ClusterNamespace site).

(** The stack of the same pod. *)
Definition same_pod (s stack : Stack) : Prop :=
  PodName s = PodName stack ∧ Tenant s = Tenant stack ∧ PodNamespace s = PodNamespace stack ∧ UID s = UID stack.

(** The stack placed on a site. *)
Definition copy_on (stack : Stack) (site : Site) (s : Stack) : Prop := Stack_Selected s = selected_of site ∧ same_pod s stack.

(** ** The state of the loops *)

Section Reserve.
Context (range : forall A : Type, gmap string A -> list (string * A)) (f : framework) (st : CycleState) (alloc : Allocation).
Hypothesis Hbind : points f EBind = [("DefaultBinder"%string, DefaultBinder range)].
(** The sites that can be bound to, by id. *)
Context (sites : gmap string Site) (resources : nat).
Hypothesis Hids : forall id site, sites !! id = Some site -> SiteID site = id.
Hypothesis Hmeasured : forall id site, sites !! id = Some site -> ∃ info, GetSiteSelectorState st id = Ok info ∧ length (Sel_Flavors info) = resources.

(** The sites stay where they are, unknown to the cache. *)
Record bindable (w : World) : Prop := {
  b_divisible : divisible (RegionFlavorMap (w_snapshot w));
  b_unknown : forall id, is_Some (sites !! id) -> siteCacheInfos (w_cache w) !! id = None;
  b_sites : forall id site, sites !! id = Some site -> ∃ a n, SiteCacheInfoMap (w_snapshot w) !! id = Some a ∧ entries (w_snapshot w) !! a = Some n ∧ SCI_Site n = Some site }.

Lemma bind_spec w stack id site : bindable w -> sites !! id = Some site -> length (Resources stack) = resources ->
  ∃ w' stack', bind f w st stack id = Some (w', stack', None) ∧ bindable w' ∧ copy_on stack site stack' ∧ length (Resources stack') = resources.
Proof using All.
  intros Hw Hsite Hlen. destruct (b_sites w Hw id site Hsite) as (a & n & Ha & Hn & Hns). pose proof (Hids id site Hsite) as Hid.
  destruct (Hmeasured id site Hsite) as (info & Hinfo & Hflv). unfold bind, RunBindPlugins. rewrite Hbind. cbn [run_bind Bind DefaultBinder]. bind_simpl. rewrite Ha.
  unfold DefaultBinder_Bind. bind_simpl. rewrite Hn. bind_simpl. unfold GetSite. rewrite Hns. bind_simpl. rewrite Hid, Hinfo. cbn [Resources set_selected].
  rewrite (proj2 (Nat.eqb_eq _ _)) by congruence. cbn [negb].
  pose proof (bind_resources_length w (RA_Region (Site_RegionAzMap site)) (Resources stack) ∅ (Sel_Flavors info)) as Hrl. destruct (bind_resources _ _ _ _ _) as [rs m]. simpl in Hrl.
  unfold Cache_UpdateSiteWithResInfo, update_site. rewrite (b_unknown w Hw id) by (by eexists). bind_simpl.
  match goal with |- context [DeductSiteResInfo range n ?res ?mm ?g] => destruct (deduct_total range n site res mm g Hns (b_divisible w Hw)) as (n' & -> & Hn') end. bind_simpl.
  eexists _, _. split_and!; [done| |split; [unfold selected_of; simpl; by rewrite Hid|done]|simpl; congruence].
  destruct Hw as [Hd Hu Hs]. split; simpl; [done|done|]. intros id' site' Hs'. destruct (Hs id' site' Hs') as (a' & n0 & Ha' & Hn0 & Hs0).
  destruct (decide (a = a')) as [<-|Hne]; [|exists a', n0; by rewrite lookup_insert_ne].
  exists a, n'. rewrite lookup_insert_eq. split_and!; [done|done|]. rewrite Hn'. congruence.
Qed.

(** The loops have [r]; [new] stacks are added. *)
Definition extends (r r' : reserved) (new : list Stack) : Prop :=
  bindable (r_world r') ∧ length (r_resources r') = resources ∧ r_err r' = None ∧ r_stacks r' = r_stacks r ++ new.

Definition running (r : reserved) : Prop := bindable (r_world r) ∧ length (r_resources r) = resources ∧ r_err r = None.

Lemma bind_site_spec id site k : sites !! id = Some site -> forall r, running r -> Z.of_nat (length (r_stacks r)) < Replicas alloc ->
  ∃ r' new, bind_site f st alloc id k r = Some r' ∧ extends r r' new ∧ Forall (copy_on (Allocation_Stack alloc) site) new ∧
    Z.of_nat (length new) = Z.min (Z.of_nat k) (Replicas alloc - Z.of_nat (length (r_stacks r))).
Proof using All.
  intros Hsite. induction k as [|k IH]; intros r (Hw & Hl & He) Hlt; cbn [bind_site].
  { exists r, []. split_and!; [done|split_and!; [done..|by rewrite app_nil_r]|constructor|simpl; lia]. }
  destruct (bind_spec (r_world r) (set_resources (Allocation_Stack alloc) (r_resources r)) id site Hw Hsite Hl) as (w' & stack' & -> & Hw' & Hsel & Hl'). bind_simpl.
  change (copy_on (Allocation_Stack alloc) site stack') in Hsel.
  set (r1 := mkReserved w' (Resources stack') (r_stacks r ++ [stack']) None). assert (length (r_stacks r1) = S (length (r_stacks r))) as Hlen by (simpl; rewrite length_app; simpl; lia).
  destruct (Z.leb_spec (Replicas alloc) (Z.of_nat (length (r_stacks r1)))) as [Hle|Hgt].
  - exists r1, [stack']. split_and!; [done|by split_and!|by constructor; [|constructor]|]. cbn [length]. lia.
  - destruct (IH r1) as (r' & new & -> & (H1 & H2 & H3 & H4) & H5 & H6); [by split_and!|lia|].
    exists r', (stack' :: new). split_and!; [done|split_and!; [done|done|done|]|by constructor|cbn [length]; lia]. rewrite H4. simpl. by rewrite <-app_assoc.
Qed.

(** How many stacks of a list are on a site, and how many the strategy gave it. *)
Definition stacks_on (id : string) (stacks : list Stack) : Z := Z.of_nat (length (filter (fun s => Selected_SiteID (Stack_Selected s) = id) stacks)).
Fixpoint given (id : string) (l : list SiteScore) : Z :=
  match l with [] => 0 | v :: l => (if decide (SS_SiteID v = id) then StackCount v else 0) + given id l end.

Lemma stacks_on_app id l l' : stacks_on id (l ++ l') = stacks_on id l + stacks_on id l'.
Proof using. unfold stacks_on. rewrite filter_app, length_app. lia. Qed.

Lemma stacks_on_site id site stack new : Forall (copy_on stack site) new ->
  stacks_on id new = if decide (SiteID site = id) then Z.of_nat (length new) else 0.
Proof using.
  unfold stacks_on. case_decide as Hd; (induction 1 as [|s new [Hs _] _ IH]; [done|]).
  - rewrite filter_cons_True by (by rewrite Hs). cbn [length]. lia.
  - rewrite filter_cons_False by (by rewrite Hs). done.
Qed.

Lemma given_nonneg id l : (forall v, v ∈ l -> 0 <= StackCount v) -> 0 <= given id l ∧ 0 <= counts_sum l.
Proof using.
  induction l as [|v l IH]; intros Hl; simpl; [lia|]. assert (0 <= StackCount v) by (apply Hl; by left).
  destruct IH; [intros ? ?; apply Hl; by right|]. case_decide; lia.
Qed.

Lemma bind_sites_spec l : (forall v, v ∈ l -> is_Some (sites !! SS_SiteID v) ∧ 0 <= StackCount v) -> forall r, running r -> Z.of_nat (length (r_stacks r)) < Replicas alloc ->
  ∃ r' new, bind_sites f st alloc l r = Some r' ∧ extends r r' new ∧
    Z.of_nat (length new) = Z.min (counts_sum l) (Replicas alloc - Z.of_nat (length (r_stacks r))) ∧
    (forall s, s ∈ new -> ∃ id site, sites !! id = Some site ∧ copy_on (Allocation_Stack alloc) site s) ∧ forall id, stacks_on id new <= given id l.
Proof using All.
  induction l as [|v l IH]; intros Hl r Hr Hlt; cbn [bind_sites].
  { destruct Hr as (? & ? & ?). exists r, []. split_and!; [done|split_and!; [done..|by rewrite app_nil_r]|simpl; lia|by intros ? ?%elem_of_nil|done]. }
  destruct (Hl v (list_elem_of_here _ _)) as [[site Hsite] Hcount]. assert (forall v', v' ∈ l -> is_Some (sites !! SS_SiteID v') ∧ 0 <= StackCount v') as Hl' by (intros ? ?; apply Hl; by right).
  pose proof (Hids _ _ Hsite) as Hid. destruct (bind_site_spec (SS_SiteID v) site (Z.to_nat (StackCount v)) Hsite r Hr Hlt) as (r1 & new1 & -> & (Hw1 & Hl1 & He1 & Hs1) & Hsel1 & Hn1).
  bind_simpl. rewrite He1. rewrite Z2Nat.id in Hn1 by done. assert (length (r_stacks r1) = (length (r_stacks r) + length new1)%nat) as Hlen by (by rewrite Hs1, length_app).
  assert (forall s, s ∈ new1 -> ∃ id site, sites !! id = Some site ∧ copy_on (Allocation_Stack alloc) site s) as Hin1.
  { intros s Hs. rewrite Forall_forall in Hsel1. eexists _, site. split; [exact Hsite|auto]. }
  assert (forall id, stacks_on id new1 <= if decide (SS_SiteID v = id) then StackCount v else 0) as Hon1.
  { intros id. rewrite (stacks_on_site id site _ _ Hsel1). rewrite Hid. case_decide; lia. }
  destruct (given_nonneg ""%string l) as [_ Hga]; [intros ? ?; by apply Hl'|].
  destruct (Z.leb_spec (Replicas alloc) (Z.of_nat (length (r_stacks r1)))) as [Hle|Hgt].
  - exists r1, new1. split_and!; [done|by split_and!|cbn [counts_sum]; lia|done|]. intros id. cbn [given]. destruct (given_nonneg id l) as [Hg _]; [intros ? ?; by apply Hl'|].
    specialize (Hon1 id). lia.
  - destruct (IH Hl' r1) as (r2 & new2 & -> & (Hw2 & Hl2 & He2 & Hs2) & Hn2 & Hin2 & Hon2); [by split_and!|lia|].
    exists r2, (new1 ++ new2). split_and!; [done|split_and!; [done..|by rewrite Hs2, Hs1, app_assoc]|rewrite length_app; cbn [counts_sum]; lia| |].
    + intros s [Hs|Hs]%elem_of_app; auto.
    + intros id. rewrite stacks_on_app. cbn [given]. specialize (Hon1 id). specialize (Hon2 id). lia.
Qed.

(** Enough was given: exactly the replicas are bound. *)
Lemma reserve_spec w l : bindable w -> length (Resources (Allocation_Stack alloc)) = resources -> 1 <= Replicas alloc <= counts_sum l ->
  (forall v, v ∈ l -> is_Some (sites !! SS_SiteID v) ∧ 0 <= StackCount v) ->
  ∃ w' stacks, reserve f w st alloc l = Some (w', stacks, None) ∧ Z.of_nat (length stacks) = Replicas alloc ∧
    (forall s, s ∈ stacks -> ∃ id site, sites !! id = Some site ∧ copy_on (Allocation_Stack alloc) site s) ∧ forall id, stacks_on id stacks <= given id l.
Proof using All.
  intros Hw Hlen Hr Hl. unfold reserve. set (r0 := mkReserved _ _ _ _).
  destruct (bind_sites_spec l Hl r0) as (r & new & -> & (_ & _ & He & Hs) & Hn & Hin & Hon); [by split_and!|simpl; lia|]. bind_simpl. simpl in Hs, Hn.
  rewrite He, Hs. rewrite (proj2 (Z.ltb_ge _ _)) by lia. eexists _, _. unfold result_stacks. rewrite Hs. split_and!; [done|rewrite length_fmap; lia| |].
  - intros s (s' & -> & Hs')%list_elem_of_fmap. exact (Hin s' Hs').
  - intros id. specialize (Hon id). assert (stacks_on id ((fun s => set_resources s (r_resources r)) <$> new) = stacks_on id new) as ->; [|done].
    clear. unfold stacks_on. induction new as [|s new IH]; [done|]. csimpl. rewrite !filter_cons. simpl. case_decide; simpl; lia.
Qed.

End Reserve.
