(* ===== verification/ScheduleProofs.v ===== *)
(** * Scheduling, end to end

    The stages of [Schedule] composed.  With the contracts of [FilterProofs] the filters
    keep exactly the suitable sites; the scores keep them all and store what each can host;
    the strategy divides the replicas; and every binding succeeds.  The main theorem states
    what the scheduler of the shipped policy does with an allocation in terms of the
    capacities of the suitable sites. *)
From S2P Require Import Prelude Types Strconv SiteTree SiteCacheInfo Cache Labels Framework Floats FlavorPlugin FlavorProofs Plugins Strategy Binder Schedule Deployed FilterProofs ReserveProofs.

Local Open Scope Z_scope.

(** ** The sites of the snapshot *)

(** The information of a site of the snapshot. *)
Definition info_of (w : World) (id : string) : option SiteCacheInfo := a ← SiteCacheInfoMap (w_snapshot w) !! id; entries (w_snapshot w) !! a.

(** Every site of the snapshot is stored under its id. *)
Definition keyed (w : World) : Prop := forall id a, SiteCacheInfoMap (w_snapshot w) !! id = Some a ->
  ∃ n site, entries (w_snapshot w) !! a = Some n ∧ GetSite n = Some site ∧ SiteID site = id ∧ plain_site n.

Lemma set_entry_id w a n : entries (w_snapshot w) !! a = Some n -> set_entry w a n = w.
Proof. intros H. unfold set_entry, set_world, set_entries. rewrite insert_id by done. by destruct w as [[] ? ? ? ?]. Qed.

(** The ids of the candidates. *)
Definition candidate_ids (range : forall A : Type, gmap string A -> list (string * A)) (s : Snapshot) (stack : Stack) : list string :=
  let siteID := Sel_SiteID (Stack_Selector stack) in
  match SiteCacheInfoMap s !! siteID with
  | Some _ => if String.eqb siteID "" then (range _ (SiteCacheInfoMap s)).*1 else [siteID]
  | None => (range _ (SiteCacheInfoMap s)).*1
  end.

Lemma nodup_places {A} (ids : list A) sel xs : NoDup ids -> NoDup sel -> Forall2 (fun i x => ids !! i = Some x) sel xs -> NoDup xs.
Proof.
  intros Hids Hsel. induction 1 as [|i x sel xs Hi Hrest IH]; [constructor|]. apply NoDup_cons in Hsel as [Hni Hsel]. constructor; [|auto].
  intros [k Hk]%list_elem_of_lookup. destruct (Forall2_lookup_r _ _ _ _ _ Hrest Hk) as (j & Hj & Hjx). apply Hni.
  assert (i = j) as -> by (exact (NoDup_lookup ids i j x Hids Hi Hjx)). by eapply list_elem_of_lookup_2.
Qed.

Section Filtering.
Context (range : forall A : Type, gmap string A -> list (string * A)) (order : nat -> list nat) (f : framework) (ctx : Context_) (w : World) (stack : Stack).
Hypothesis Hrange : forall A (m : gmap string A), range A m ≡ₚ map_to_list m.
Hypothesis Horder : forall n, order n ≡ₚ seq 0 n.
Context (inv ready : CycleState -> Prop) (specs : list (bool * (SiteCacheInfo -> Prop))).
Hypothesis Hall : runAllFilters f = false.
Hypothesis Hfilters : Forall2 (fun pl (spec : bool * (SiteCacheInfo -> Prop)) => decides ctx w stack inv ready plain_site spec.1 spec.2 pl.2) (points f EFilter) specs.
Hypothesis Hreadies : true ∈ specs.*1.

Definition accepted (n : SiteCacheInfo) : Prop := forall spec, spec ∈ specs -> spec.2 n.

Lemma merge_none : Merge (range _) ∅ = None.
Proof. unfold Merge. by rewrite map_size_empty. Qed.

Lemma merge_unschedulable name s : IsUnschedulable (Some s) = true -> ∃ s', Merge (range _) {[name := s]} = Some s' ∧ IsUnschedulable (Some s') = true.
Proof using Hrange.
  intros Hs. unfold Merge. rewrite map_size_singleton. cbn [Nat.eqb].
  assert (range _ {[name := s]} = [(name, s)]) as -> by (apply Permutation_singleton_r; rewrite Hrange; by rewrite map_to_list_singleton).
  cbn. unfold IsUnschedulable in *. apply bool_decide_eq_true in Hs as [Hs|Hs]; simpl in Hs; rewrite Hs; by eexists.
Qed.

Lemma passes_spec st n : inv st -> plain_site n -> ∃ st' fits status,
  stackPassesFiltersOnSite range f ctx w st stack n = Some (st', n, (fits, status, None)) ∧ inv st' ∧ (ready st -> ready st') ∧
  (fits = true <-> accepted n) ∧ (fits = true -> ready st').
Proof using All.
  intros Hinv Hn. unfold stackPassesFiltersOnSite, RunFilterPlugins.
  destruct (run_filter_spec ctx w stack inv ready plain_site f (points f EFilter) specs Hall Hfilters st n Hinv Hn) as (st' & statuses & -> & Hinv' & Hr & Hcase).
  bind_simpl. destruct Hcase as [(-> & Hacc & Hready)|(name & s & -> & Hun & spec & Hspec & Hno)].
  - rewrite merge_none. exists st', true, None. split_and!; [done|done|done|done|auto].
  - destruct (merge_unschedulable name s Hun) as (s' & -> & Hun'). rewrite Hun', andb_false_r. exists st', false, (Some s').
    assert (IsSuccess (Some s') = false) as ->.
    { unfold IsSuccess, IsUnschedulable in *. apply bool_decide_eq_true in Hun'. apply bool_decide_eq_false. destruct Hun' as [-> | ->]; done. }
    split_and!; [done|done|done| |done]. split; [done|]. intros H. by specialize (H spec Hspec).
Qed.

(** The site at a place of the candidates. *)
Definition at_place (all : list nat) (i : nat) (n : SiteCacheInfo) (site : Site) : Prop :=
  ∃ a, all !! i = Some a ∧ entries (w_snapshot w) !! a = Some n ∧ GetSite n = Some site ∧ plain_site n.

Lemma check_sites_spec all places : (forall i, i ∈ places -> ∃ n site, at_place all i n site) -> forall acc,
  f_world acc = w -> inv (f_state acc) -> f_err acc = None ->
  ∃ r sel new, check_sites range f ctx stack all acc places = Some r ∧ f_world r = w ∧ inv (f_state r) ∧ f_err r = None ∧
    (ready (f_state acc) -> ready (f_state r)) ∧ filtered r = filtered acc ++ new ∧ (new <> [] -> ready (f_state r)) ∧
    sel `sublist_of` places ∧ (forall i n site, i ∈ places -> at_place all i n site -> accepted n -> i ∈ sel) ∧
    Forall2 (fun i site => ∃ n, at_place all i n site ∧ accepted n) sel new.
Proof using All.
  induction places as [|i places IH]; intros Hplaces acc Hw Hinv Herr.
  { exists acc, [], []. split_and!; [done|done|done|done|done|by rewrite app_nil_r|done|constructor|by intros ? ? ? ?%elem_of_nil|constructor]. }
  destruct (Hplaces i (list_elem_of_here _ _)) as (n & site & a & Ha & Hn & Hsite & Hplain). assert (at_place all i n site) as Hat by (by exists a).
  cbn [check_sites]. rewrite Ha, Hw. bind_simpl. rewrite Hn. bind_simpl.
  destruct (passes_spec (f_state acc) n Hinv Hplain) as (st' & fits & status & -> & Hinv' & Hr & Hfits & Hready). bind_simpl.
  rewrite Hsite. bind_simpl. rewrite set_entry_id by done. assert (forall j, j ∈ places -> ∃ n site, at_place all j n site) as Hrest by (intros ? ?; apply Hplaces; by right).
  assert (forall n' site', at_place all i n' site' -> n' = n) as Huniq by (intros n' site' (a' & ? & ? & _); congruence).
  destruct fits.
  - destruct (IH Hrest (mkFound st' w (filtered acc ++ [site]) (f_statuses acc) None)) as (r & sel & new & -> & H1 & H2 & H3 & H4 & H5 & H6 & H7 & H8 & H9); [done..|].
    exists r, (i :: sel), (site :: new). simpl in *. split_and!; [done|done|done|done|auto|by rewrite H5, <-app_assoc|auto|by constructor| |].
    + intros j nj sj [->|Hj]%elem_of_cons Hatj Hacc; [by left|right; by eapply H8].
    + constructor; [|done]. exists n. split; [done|]. by apply Hfits.
  - match goal with |- context [check_sites _ _ _ _ _ ?acc' _] => destruct (IH Hrest acc') as (r & sel & new & -> & H1 & H2 & H3 & H4 & H5 & H6 & H7 & H8 & H9) end; [done..|].
    exists r, sel, new. simpl in *. split_and!; [done|done|done|done|auto|done|done|by apply sublist_cons| |done].
    intros j nj sj [->|Hj]%elem_of_cons Hatj Hacc; [|by eapply H8]. exfalso. rewrite (Huniq _ _ Hatj) in Hacc. apply Hfits in Hacc. done.
Qed.

Lemma candidates_ids : Forall2 (fun id a => SiteCacheInfoMap (w_snapshot w) !! id = Some a) (candidate_ids range (w_snapshot w) stack) (candidates range (w_snapshot w) stack).
Proof using Hrange.
  assert (Forall2 (fun id a => SiteCacheInfoMap (w_snapshot w) !! id = Some a) (range _ (SiteCacheInfoMap (w_snapshot w))).*1 (range _ (SiteCacheInfoMap (w_snapshot w))).*2) as Hr.
  { rewrite Forall2_fmap. apply Forall_Forall2_diag, Forall_forall. intros [id a] He. rewrite Hrange in He. by apply elem_of_map_to_list in He. }
  unfold candidate_ids, candidates. destruct (SiteCacheInfoMap _ !! _) as [a|] eqn:Ha; [|done]. destruct (String.eqb _ _); [done|]. by repeat constructor.
Qed.

Lemma candidate_ids_nodup : NoDup (candidate_ids range (w_snapshot w) stack).
Proof using Hrange.
  assert (NoDup (range _ (SiteCacheInfoMap (w_snapshot w))).*1) as Hr by (rewrite Hrange; apply NoDup_fst_map_to_list).
  unfold candidate_ids. destruct (_ !! _); [destruct (String.eqb _ _); [done|apply NoDup_singleton]|done].
Qed.

Lemma place_of_id i id : keyed w -> candidate_ids range (w_snapshot w) stack !! i = Some id ->
  ∃ n site, at_place (candidates range (w_snapshot w) stack) i n site ∧ SiteID site = id ∧ info_of w id = Some n.
Proof using Hrange.
  intros Hk Hi. destruct (Forall2_lookup_l _ _ _ _ _ candidates_ids Hi) as (a & Ha & Hm). destruct (Hk id a Hm) as (n & site & Hn & Hsite & Hid & Hp).
  exists n, site. split_and!; [by exists a|done|]. unfold info_of. rewrite Hm. by bind_simpl.
Qed.

(** Exactly the accepted candidates are found, each once. *)
Lemma find_sites_spec st : keyed w -> inv st -> candidate_ids range (w_snapshot w) stack <> [] -> ∃ sites st',
  findSitesThatPassFilters range order f ctx w st stack = Some (w, st', Ok sites) ∧ inv st' ∧ (sites <> [] -> ready st') ∧ NoDup (SiteID <$> sites) ∧
  forall site, site ∈ sites <-> ∃ n, SiteID site ∈ candidate_ids range (w_snapshot w) stack ∧ info_of w (SiteID site) = Some n ∧ GetSite n = Some site ∧ accepted n.
Proof using All.
  intros Hk Hinv Hne. set (ids := candidate_ids range (w_snapshot w) stack) in *. set (all := candidates range (w_snapshot w) stack).
  pose proof (Forall2_length _ _ _ candidates_ids) as Hlen. fold ids all in Hlen.
  assert (forall i, i ∈ order (length all) <-> is_Some (ids !! i)) as Hplace.
  { intros i. rewrite Horder, elem_of_seq, lookup_lt_is_Some, Hlen. lia. }
  assert (forall i n site, at_place all i n site -> ids !! i = Some (SiteID site) ∧ info_of w (SiteID site) = Some n ∧ GetSite n = Some site) as Hat.
  { intros i n site (a & Ha & Hn & Hsite & _). destruct (lookup_lt_is_Some_2 ids i) as [id Hi]; [rewrite Hlen; by eapply lookup_lt_Some|].
    destruct (place_of_id i id Hk Hi) as (n' & site' & (a' & Ha' & Hn' & Hsite' & _) & <- & Hinfo). fold all in Ha'. assert (site' = site) as -> by congruence.
    split_and!; congruence. }
  destruct (check_sites_spec all (order (length all))) with (acc := mkFound st w [] ∅ None) as (r & sel & new & Hcheck & H1 & H2 & H3 & _ & H5 & H6 & H7 & H8 & H9); [|done..|].
  { intros i [id Hi]%Hplace. destruct (place_of_id i id Hk Hi) as (n & site & ? & _). by exists n, site. }
  exists new, (f_state r). unfold findSitesThatPassFilters. fold all. destruct all as [|a0 all'] eqn:Ea; [by destruct ids|]. rewrite <-Ea in *. clear Ea.
  assert (HasFilterPlugins f = true) as ->.
  { unfold HasFilterPlugins. rewrite (Forall2_length _ _ _ Hfilters). destruct specs; [by apply elem_of_nil in Hreadies|done]. }
  cbn [negb]. rewrite Hcheck. bind_simpl. rewrite H1, H3, H5.
  split_and!; [done|done|done| |].
  - apply (nodup_places ids sel); [apply candidate_ids_nodup|eapply sublist_NoDup; [|exact H7]; rewrite Horder; apply NoDup_seq|].
    rewrite Forall2_fmap_r. eapply Forall2_impl; [exact H9|]. intros i site (n & Hp & _). by apply (Hat i n).
  - intros site. split.
    + intros [k Hk']%list_elem_of_lookup. destruct (Forall2_lookup_r _ _ _ _ _ H9 Hk') as (i & Hi & n & Hp & Hacc). destruct (Hat i n site Hp) as (Hid & Hinfo & Hsite).
      exists n. split_and!; [by eapply list_elem_of_lookup_2|done|done|done].
    + intros (n & [i Hi]%list_elem_of_lookup & Hinfo & Hsite & Hacc). destruct (place_of_id i _ Hk Hi) as (n' & site' & Hp & Hid & Hinfo').
      fold all in Hp. assert (n' = n) as -> by congruence. assert (site' = site) as ->. { destruct Hp as (? & _ & _ & ? & _). congruence. }
      assert (i ∈ sel) as [k Hk']%list_elem_of_lookup by (apply (H8 i n site); [apply Hplace; by eexists|done|done]).
      destruct (Forall2_lookup_l _ _ _ _ _ H9 Hk') as (site' & Hs' & n' & Hp' & _). destruct (Hat i n' site' Hp') as (Hid' & Hinfo'' & Hsite').
      assert (SiteID site' = SiteID site) as Heq by congruence. rewrite Heq in Hinfo''. assert (site' = site) as -> by congruence. by eapply list_elem_of_lookup_2.
Qed.

End Filtering.

(** ** Scoring *)

Section Scoring.
Context (range : forall A : Type, gmap string A -> list (string * A)) (spot_fake : bool) (w : World) (stack : Stack).
Hypothesis Hrange : forall A (m : gmap string A), range A m ≡ₚ map_to_list m.
Hypothesis Hplain : plain_stack stack.
Hypothesis Hvolumes : no_volumes stack.
Hypothesis Haff : StackAffinity (Stack_Selector stack) = [].
Hypothesis Hanti : StackAntiAffinity (Stack_Selector stack) = [].

(** What is stored for a site that has been scored. *)
Definition measured (n : SiteCacheInfo) (info : SiteSelectorInfo) : Prop :=
  choice (Resources stack) (Sel_Flavors info) ∧ StackMaxCount info = capacity stack n.

(** The sites [done] have been measured, the others have no count. *)
Definition scoring (done : list string) (st : CycleState) : Prop := ∃ s aggs,
  calculateFlavorAggregate stack = Some aggs ∧ st !! flavorStateKey = Some (FlavorAggregates aggs) ∧ st !! SiteTempSelectorKey = Some (SiteSelectorInfos s) ∧
  (forall id, id ∉ done -> StackMaxCount (default (mkSelectorInfo [] [] 0) (s !! id)) = 0) ∧
  (forall id, id ∈ done -> ∃ n info, info_of w id = Some n ∧ s !! id = Some info ∧ measured n info).

Lemma capacity_first n aggs pre agg post : calculateFlavorAggregate stack = Some aggs -> aggs = pre ++ agg :: post ->
  (forall a, a ∈ pre -> ¬ hosts n (Agg_Flavors a) 1) -> hosts n (Agg_Flavors agg) 1 -> capacity stack n = capacity_of n (Agg_Flavors agg).
Proof using.
  intros Haggs -> Hpre Hh. unfold capacity. rewrite Haggs. simpl. rewrite filter_app.
  assert (filter (fun agg => hosts n (Agg_Flavors agg) 1) pre = []) as ->.
  { clear Haggs. induction pre as [|a pre IH]; [done|]. rewrite filter_cons_False by (apply Hpre; by left). apply IH. intros ? ?. apply Hpre. by right. }
  simpl. by rewrite filter_cons_True.
Qed.

Lemma flavor_score_spec done st n site : scoring done st -> plain_site n -> GetSite n = Some site -> info_of w (SiteID site) = Some n ->
  SiteID site ∉ done -> 0 < capacity stack n ->
  ∃ st' z, Flavor_Score range spot_fake w st stack (Some n) = Some (st', z, None) ∧ 0 <= z <= 100 ∧ scoring (SiteID site :: done) st'.
Proof using Hrange Hplain.
  intros (s & aggs & Hcalc & Hfl & Hsel & Hzero & Hdone) Hn Hsite Hinfo Hni Hcap.
  destruct (plain_aggregates stack Hplain) as (aggs' & Hcalc' & Hne & Hpl & Hch). assert (aggs' = aggs) as -> by congruence.
  apply (capacity_pos stack aggs Hcalc Hpl) in Hcap. pose proof (plain_counted n Hn) as Hcounted.
  destruct (score_aggregates_spec range spot_fake Hrange st aggs n site s Hpl Hcounted Hsite Hsel (Hzero _ Hni) Hcap)
    as (agg & info & Hin & Hh & Hscore & Hflv & Hk & pre & post & Heq & Hpre).
  unfold Flavor_Score, getFlavorState, Read. rewrite Hfl. destruct aggs as [|a0 aggs0] eqn:Ea; [done|]. rewrite <-Ea in *. bind_simpl. rewrite Hscore. bind_simpl.
  pose proof (Hpl agg Hin) as [Hsome _ Hcount _]. eexists _, _. split; [done|].
  assert (forall fi, fi ∈ Agg_Flavors agg -> 1 <= FI_Count fi) as Hc1 by (intros fi Hfi; specialize (Hcount fi Hfi); lia).
  split.
  - destruct Hplain as (Hr & Hflavors & _). destruct (Resources stack) as [|r rs] eqn:Hrs; [done|].
    destruct (calculate_total stack r rs Hrs) as (aggs1 & Hc1' & _ & Hm & _); [intros r' ?; apply Hflavors; by right|]. assert (aggs1 = aggs) as -> by congruence.
    apply mapM_Some in Hm. apply list_elem_of_lookup in Hin as [k Hin]. destruct (Forall2_lookup_r _ _ _ _ _ Hm Hin) as (ix & _ & Hat).
    apply aggregate_weight in Hat. destruct (Agg_Flavors agg) as [|fi fis]; [done|]. cbn [length] in *. rewrite Z.quot_div_nonneg by lia.
    split; [apply Z.div_pos; lia|]. apply Z.div_le_upper_bound; lia.
  - exists (<[SiteID site := info]> s), aggs. unfold Write. split_and!; [done|by rewrite lookup_insert_ne|by rewrite lookup_insert_eq| |].
    + intros id Hid. rewrite not_elem_of_cons in Hid. destruct Hid as [Hne' Hid]. rewrite lookup_insert_ne by done. auto.
    + intros id [->|Hid]%elem_of_cons.
      * exists n, info. rewrite lookup_insert_eq. split_and!; [done|done|]. split; [apply Hch; exists agg; by split|].
        rewrite (capacity_first n aggs pre agg post) by done. pose proof (fun k => capacity_hosts n (Agg_Flavors agg) k Hsome Hc1 Hh) as Hcap'.
        assert (1 <= StackMaxCount info) by (by apply Hk). assert (1 <= capacity_of n (Agg_Flavors agg)) by (by apply Hcap').
        apply Z.le_antisymm; [apply Hcap'; [lia|apply Hk; lia]|apply Hk; [lia|apply Hcap'; lia]].
      * destruct (Hdone id Hid) as (n' & info' & ? & ? & ?). exists n', info'. rewrite lookup_insert_ne by congruence. done.
Qed.

(** The lists of scores: one for each plugin, one score for each site, within bounds. *)
Definition scores_ok (N : nat) (names : list string) (scores : gmap string (list SiteScore)) : Prop :=
  (forall name, name ∈ names -> is_Some (scores !! name)) ∧
  forall name l, scores !! name = Some l -> length l = N ∧ Forall (fun s => 0 <= SS_Score s <= 100) l.

Lemma scores_ok_alter N names scores name i z id : scores_ok N names scores -> 0 <= z <= 100 ->
  scores_ok N names (alter (fun l => <[i := mkSiteScore id "" "" z 0]> l) name scores).
Proof using.
  intros [Hsome Hok] Hz. split.
  - intros nm Hnm. rewrite lookup_alter. case_decide; [|auto]. destruct (Hsome nm Hnm) as [l Hl]. subst. rewrite Hl. by eexists.
  - intros nm l. rewrite lookup_alter. case_decide as Hd; [subst|apply Hok]. destruct (scores !! nm) as [l'|] eqn:Hl; simpl; [|done]. intros [= <-].
    destruct (Hok nm l' Hl) as [Hlen Hall]. rewrite length_insert. split; [done|]. by apply Forall_insert.
Qed.

Lemma score_site_spec done st n site i scores N names : scoring done st -> plain_site n -> GetSite n = Some site -> info_of w (SiteID site) = Some n ->
  SiteID site ∉ done -> 0 < capacity stack n -> scores_ok N names scores ->
  ∃ st' scores', score_site w st stack i (SiteID site) (Some n) scores
      [("StackAffinity"%string, StackAffinityPlugin); ("Flavor"%string, FlavorPlugin range spot_fake); ("SiteResourcesLeastAllocated"%string, LeastAllocatedPlugin range)]
      = Some (st', scores', None) ∧ scoring (SiteID site :: done) st' ∧ scores_ok N names scores'.
Proof using All.
  intros Hst Hn Hsite Hinfo Hni Hcap Hok. cbn [score_site Score StackAffinityPlugin FlavorPlugin LeastAllocatedPlugin]. bind_simpl.
  rewrite (affinity_score w stack st n Haff Hanti) by (by eexists). bind_simpl. change (IsSuccess None) with true. cbn iota.
  destruct (flavor_score_spec done st n site Hst Hn Hsite Hinfo Hni Hcap) as (st' & z & -> & Hz & Hst'). bind_simpl. change (IsSuccess None) with true. cbn iota.
  rewrite (least_allocated_score range w stack Hrange st' n Hvolumes Hn). bind_simpl. change (IsSuccess None) with true. cbn iota.
  eexists _, _. split_and!; [done|done|]. apply scores_ok_alter; [|lia]. apply scores_ok_alter; [|lia]. apply scores_ok_alter; [done|lia].
Qed.

(** The framework runs the score plugins of the shipped policy. *)
Context (f : framework).
Hypothesis Hscore : points f EScore =
  [("StackAffinity"%string, StackAffinityPlugin); ("Flavor"%string, FlavorPlugin range spot_fake); ("SiteResourcesLeastAllocated"%string, LeastAllocatedPlugin range)].
Hypothesis Hweights : (fun name => pluginNameToWeightMap f !! name) <$> (points f EScore).*1 = [Some 1; Some 1; Some 1].

(** A suitable site of the snapshot. *)
Definition suitable_site (site : Site) : Prop := ∃ n, info_of w (SiteID site) = Some n ∧ GetSite n = Some site ∧ plain_site n ∧ 0 < capacity stack n.

Lemma score_sites_spec (sites : list Site) N names order : (forall site, site ∈ sites -> suitable_site site) -> forall done st scores,
  (forall i, i ∈ order -> ∃ site, sites !! i = Some site ∧ SiteID site ∉ done) -> NoDup ((fun i => SiteID <$> sites !! i) <$> order) ->
  scoring done st -> scores_ok N names scores ->
  ∃ st' scores', score_sites f w st stack sites (info_of w) scores order = Some (st', scores', None) ∧ scores_ok N names scores' ∧
    scoring (reverse (omap (fun i => SiteID <$> sites !! i) order) ++ done) st'.
Proof using All.
  intros Hs. induction order as [|i order IH]; intros done st scores Hord Hnd Hst Hok; cbn [score_sites]; [by eexists st, scores|].
  destruct (Hord i (list_elem_of_here _ _)) as (site & Hi & Hni). rewrite Hi. bind_simpl. apply NoDup_cons in Hnd as [Hnew Hnd].
  destruct (Hs site) as (n & Hinfo & Hsite & Hn & Hcap); [by eapply list_elem_of_lookup_2|]. rewrite Hinfo, Hscore.
  destruct (score_site_spec done st n site i scores N names Hst Hn Hsite Hinfo Hni Hcap Hok) as (st1 & scores1 & -> & Hst1 & Hok1). bind_simpl.
  destruct (IH (SiteID site :: done) st1 scores1) as (st2 & scores2 & -> & Hok2 & Hst2); [|done|done|done|].
  { intros j Hj. destruct (Hord j) as (sj & Hsj & Hnj); [by right|]. exists sj. split; [done|]. rewrite not_elem_of_cons. split; [|done].
    intros Heq. apply Hnew. rewrite Hi. simpl. apply list_elem_of_fmap. exists j. rewrite Hsj. simpl. by rewrite Heq. }
  exists st2, scores2. split_and!; [done|done|]. cbn [omap list_omap]. rewrite Hi. cbn [fmap option_fmap option_map]. by rewrite reverse_cons, <-app_assoc.
Qed.

Lemma apply_weight_one name l : Forall (fun s => 0 <= SS_Score s <= 100) l -> apply_weight name 1 l = Ok l.
Proof using.
  induction 1 as [|s l Hs _ IH]; [done|]. cbn [apply_weight]. unfold MaxSiteScore, MinSiteScore.
  rewrite (proj2 (Z.ltb_ge _ _)), (proj2 (Z.ltb_ge _ _)) by lia. cbn [orb]. rewrite IH. do 2 f_equal. unfold set_score.
  rewrite Z.mul_1_r, wrap64_id by int64. by destruct s.
Qed.

Lemma apply_weights_ok N scores : scores_ok N (points f EScore).*1 scores -> apply_weights f scores (points f EScore) = Ok scores.
Proof using Hweights.
  intros [Hsome Hok]. assert (forall name, name ∈ (points f EScore).*1 -> pluginNameToWeightMap f !! name = Some 1) as Hw.
  { intros name Hn. assert (pluginNameToWeightMap f !! name ∈ (fun name => pluginNameToWeightMap f !! name) <$> (points f EScore).*1) as H by (by apply (list_elem_of_fmap_2 (fun name => pluginNameToWeightMap f !! name))).
    rewrite Hweights in H. rewrite !elem_of_cons, elem_of_nil in H. by destruct H as [|[|[|]]]. }
  clear Hweights Hscore. induction (points f EScore) as [|[name pl] pls IH]; [done|]. cbn [apply_weights]. csimpl in *.
  rewrite (Hw name) by (by left). destruct (Hsome name) as [l Hl]; [by left|]. rewrite Hl. simpl. destruct (Hok name l Hl) as [_ Hb].
  rewrite (apply_weight_one name l Hb), insert_id by done. apply IH; [intros ? ?; apply Hsome; by right|intros ? ?; apply Hw; by right].
Qed.

Lemma total_score_some N names scores i : scores_ok N names scores -> (i < N)%nat -> is_Some (total_score range scores i).
Proof using Hrange.
  intros [_ Hok] Hi. unfold total_score. assert (forall e, e ∈ range _ scores -> is_Some (e.2 !! i)) as Hall.
  { intros [name l] He. rewrite Hrange in He. apply elem_of_map_to_list in He. apply lookup_lt_is_Some. simpl. by rewrite (proj1 (Hok name l He)). }
  generalize 0. induction (range _ scores) as [|e l IH]; intros z; simpl; [by eexists|]. destruct (Hall e) as [s ->]; [by left|]. bind_simpl.
  apply IH. intros e' ?. apply Hall. by right.
Qed.

(** Every site gets its sum. *)
Lemma sum_scores_spec names scores (sites : list Site) : scores_ok (length sites) names scores ->
  ∃ l, mapM (fun '(i, site) => t ← total_score range scores i; Some (new_score site t)) (imap pair sites) = Some l ∧ SS_SiteID <$> l = SiteID <$> sites.
Proof using Hrange.
  intros Hok. assert (Forall (fun p => is_Some ((fun '(i, site) => t ← total_score range scores i; Some (new_score site t)) p)) (imap pair sites)) as [l Hl]%mapM_is_Some.
  { apply Forall_lookup. intros i p Hp. rewrite list_lookup_imap in Hp. destruct (sites !! i) as [site|] eqn:Hi; [|done]. injection Hp as <-.
    destruct (total_score_some _ names scores i Hok) as [t ->]; [by eapply lookup_lt_Some|]. by eexists. }
  exists l. split; [done|]. apply mapM_Some_1 in Hl. apply list_eq. intros i. rewrite !list_lookup_fmap.
  destruct (sites !! i) as [site|] eqn:Hi.
  - destruct (Forall2_lookup_l _ _ _ i (i, site) Hl) as (y & -> & Hy); [by rewrite list_lookup_imap, Hi|].
    destruct (total_score range scores i); [|done]. injection Hy as <-. done.
  - assert (l !! i = None) as ->; [|done]. apply lookup_ge_None. rewrite <-(Forall2_length _ _ _ Hl), length_imap. by apply lookup_ge_None.
Qed.

Lemma initial_scores_ok N : scores_ok N (points f EScore).*1
  (foldl (fun m pl => <[pl.1 := replicate N (mkSiteScore "" "" "" 0 0)]> m) ∅ (points f EScore)).
Proof using.
  assert (forall (pls : list (string * Plugin)) names m, scores_ok N names m -> scores_ok N (names ++ pls.*1) (foldl (fun m pl => <[pl.1 := replicate N (mkSiteScore "" "" "" 0 0)]> m) m pls)) as H.
  { induction pls as [|[name pl] pls IH]; intros names m Hm; csimpl; [by rewrite app_nil_r|].
    replace (names ++ name :: pls.*1) with ((names ++ [name]) ++ pls.*1) by by rewrite <-app_assoc. apply IH. destruct Hm as [Hsome Hok]. split.
    - intros nm [Hnm| ->%list_elem_of_singleton]%elem_of_app; rewrite lookup_insert; case_decide; [by eexists|auto|by eexists|done].
    - intros nm l. rewrite lookup_insert. case_decide; [|apply Hok]. intros [= <-]. rewrite length_replicate. split; [done|]. apply Forall_replicate. simpl. lia. }
  apply (H _ []). split; [by intros ? ?%elem_of_nil|by intros ? ?; rewrite lookup_empty].
Qed.

Lemma prioritize_spec order sort_Reverse ctx st (sites : list Site) : (forall n, order n ≡ₚ seq 0 n) -> (forall l, sort_Reverse l ≡ₚ l) ->
  (forall site, site ∈ sites -> suitable_site site) -> NoDup (SiteID <$> sites) -> scoring [] st ->
  ∃ st' l done, prioritizeSites range order sort_Reverse f ctx w st stack sites = Some (st', Ok l) ∧ scoring done st' ∧
    SS_SiteID <$> l ≡ₚ SiteID <$> sites ∧ forall site, site ∈ sites -> SiteID site ∈ done.
Proof using All.
  intros Horder Hsort Hs Hnd Hst. unfold prioritizeSites, HasScorePlugins. rewrite Hscore. cbn [length Nat.ltb Nat.leb negb]. unfold RunScorePlugins.
  change (fun id => SiteCacheInfoMap (w_snapshot w) !! id ≫= fun a => entries (w_snapshot w) !! a) with (info_of w).
  pose proof (initial_scores_ok (length sites)) as Hinit. set (scores0 := foldl _ _ _) in *.
  destruct (score_sites_spec sites (length sites) (points f EScore).*1 (order (length sites)) Hs [] st scores0) as (st' & scores & -> & Hok & Hst').
  - intros i Hi. rewrite Horder, elem_of_seq in Hi. destruct (lookup_lt_is_Some_2 sites i) as [site Hsite]; [lia|]. exists site. split; [done|]. by intros ?%elem_of_nil.
  - rewrite Horder. apply NoDup_fmap_2_strong; [|apply NoDup_seq]. intros i j Hi%elem_of_seq Hj%elem_of_seq Heq.
    destruct (lookup_lt_is_Some_2 sites i) as [si Hsi]; [lia|]. destruct (lookup_lt_is_Some_2 sites j) as [sj Hsj]; [lia|]. rewrite Hsi, Hsj in Heq. injection Heq as Heq.
    apply (NoDup_lookup (SiteID <$> sites) i j (SiteID si) Hnd); rewrite list_lookup_fmap; [by rewrite Hsi|by rewrite Hsj, Heq].
  - done.
  - done.
  - bind_simpl. rewrite (apply_weights_ok (length sites) scores Hok). bind_simpl.
    destruct (sum_scores_spec _ scores sites Hok) as (l & -> & Hl).
    bind_simpl. eexists st', (sort_Reverse l), _. split_and!; [done|exact Hst'|by rewrite Hsort, Hl|].
    intros site [i Hi]%list_elem_of_lookup. rewrite app_nil_r, elem_of_reverse, list_elem_of_omap. exists i. rewrite Hi. split; [|done].
    rewrite Horder. apply elem_of_seq. apply lookup_lt_Some in Hi. lia.
Qed.

End Scoring.

(** ** What is asked of a site, decidably *)

Section Decisions.
#[local] Arguments agrees : simpl never.
#[export] Instance agrees_dec want have : Decision (agrees want have).
Proof. unfold agrees. apply _. Defined.
#[export] Instance on_sale_dec stack site : Decision (on_sale stack site).
Proof. unfold on_sale. apply _. Defined.
#[export] Instance located_dec stack site : Decision (located stack site).
Proof. unfold located, in_place. apply _. Defined.
#[export] Instance of_region_dec have region : Decision (of_region have region).
Proof. unfold of_region. apply _. Defined.
#[export] Instance in_regions_dec stack site : Decision (in_regions stack site).
Proof.
  unfold in_regions. destruct (decide (Sel_Regions (Stack_Selector stack) = [])) as [H|H]; [by left; left|].
  destruct (decide (List.Exists (of_region (Site_RegionAzMap site)) (Sel_Regions (Stack_Selector stack)))) as [H'|H']; [left; right|right; intros [?|?]; [done|]; apply H'].
  - by apply Exists_exists in H'.
  - by apply Exists_exists.
Defined.
#[export] Instance not_listed_dec ctx site : Decision (not_listed ctx site).
Proof.
  unfold not_listed. destruct (exclusive_list (SiteAttributes site)) as [l|]; [|by left].
  destruct (decide (default ""%string (ctx !! "domain_id"%string) ∈ strings_Split l ",")) as [H|H]; [right; intros Hn; by apply (Hn l)|left; by intros ? [= <-]].
Defined.
#[export] Instance on_site_dec (Q : Site -> Prop) n : (forall site, Decision (Q site)) -> Decision (on_site Q n).
Proof.
  intros HQ. unfold on_site. destruct (GetSite n) as [site|]; [|right; by intros (? & ? & _)].
  destruct (HQ site) as [H|H]; [left; by exists site|right; by intros (? & [= <-] & ?)].
Defined.
End Decisions.

(** The site is on sale, where and what the stack asks for, and can host it. *)
Definition suits (ctx : Context_) (stack : Stack) (n : SiteCacheInfo) : Prop :=
  on_site (on_sale stack) n ∧ on_site (located stack) n ∧ on_site (in_regions stack) n ∧ on_site (not_listed ctx) n ∧ 0 < capacity stack n.
#[export] Instance suits_dec ctx stack n : Decision (suits ctx stack n).
Proof. unfold suits. apply _. Defined.

(** How many stacks the site with this id takes. *)
Definition site_capacity (ctx : Context_) (w : World) (stack : Stack) (id : string) : Z :=
  match info_of w id with Some n => if decide (suits ctx stack n) then capacity stack n else 0 | None => 0 end.

Fixpoint sum_of (g : string -> Z) (ids : list string) : Z := match ids with [] => 0 | id :: ids => g id + sum_of g ids end.

Lemma sum_of_perm g ids ids' : ids ≡ₚ ids' -> sum_of g ids = sum_of g ids'.
Proof. induction 1; simpl; lia. Qed.

(** The ids that [g] does not vanish on give the whole sum. *)
Lemma sum_of_support g ids ids' : NoDup ids -> NoDup ids' -> (forall id, id ∈ ids' -> id ∈ ids) -> (forall id, id ∈ ids -> id ∉ ids' -> g id = 0) -> sum_of g ids = sum_of g ids'.
Proof.
  revert ids'. induction ids as [|id ids IH]; intros ids' Hnd Hnd' Hsub Hzero.
  { destruct ids' as [|x ids']; [done|]. specialize (Hsub x (list_elem_of_here _ _)). by apply elem_of_nil in Hsub. }
  apply NoDup_cons in Hnd as [Hni Hnd]. simpl. destruct (decide (id ∈ ids')) as [Hin|Hout].
  - apply list_elem_of_split in Hin as (l1 & l2 & ->). assert (l1 ++ id :: l2 ≡ₚ id :: l1 ++ l2) as Hp by by rewrite Permutation_middle.
    rewrite (sum_of_perm g _ _ Hp). rewrite Hp in Hnd'. apply NoDup_cons in Hnd' as [Hni' Hnd']. simpl. rewrite (IH (l1 ++ l2)); [done|done|done| |].
    + intros x Hx. assert (x ∈ id :: ids) as [->|?]%elem_of_cons; [apply Hsub; rewrite Hp; by right|done|done].
    + intros x Hx Hx'. apply Hzero; [by right|]. rewrite Hp, elem_of_cons. intros [->|?]; done.
  - rewrite Hzero by (by (left || done)). rewrite (IH ids'); [done|done|done| |intros x ? ?; apply Hzero; [by right|done]].
    intros x Hx. specialize (Hsub x Hx). apply elem_of_cons in Hsub as [->|?]; done.
Qed.

(** ** The pipeline of the shipped policy *)

(** A request as the scheduler makes it from pods and allocations: flavors without spot
    resources, none asked for twice; no volumes; no affinities; no region strategy. *)
Record plain_request (alloc : Allocation) : Prop := {
  pr_stack : plain_stack (Allocation_Stack alloc);
  pr_volumes : no_volumes (Allocation_Stack alloc);
  pr_affinity : StackAffinity (Allocation_Selector alloc) = [];
  pr_anti : StackAntiAffinity (Allocation_Selector alloc) = [];
  pr_region : RegionStrategy (Sel_Strategy (Allocation_Selector alloc)) <> StrategyRegionAlone;
  pr_replicas : 1 <= Replicas alloc }.

(** The stack with the selector of the allocation. *)
Definition request (alloc : Allocation) : Stack := set_stack_selector (Allocation_Stack alloc) (Allocation_Selector alloc).

(** A snapshot that the scheduler can work with: sites stored under their ids and not
    known to the cache, flavors that can be divided by. *)
Record plain_world (w : World) : Prop := {
  pw_keyed : keyed w;
  pw_divisible : divisible (RegionFlavorMap (w_snapshot w));
  pw_unknown : forall id, is_Some (SiteCacheInfoMap (w_snapshot w) !! id) -> siteCacheInfos (w_cache w) !! id = None }.

Section Pipeline.
Context (range : forall A : Type, gmap string A -> list (string * A)) (order : nat -> list nat) (sort_Reverse : list SiteScore -> list SiteScore)
  (config_FlavorMap : gmap string RegionFlavor) (spot_fake : bool) (f : framework) (ctx : Context_) (alloc : Allocation).
Hypothesis Hrange : forall A (m : gmap string A), range A m ≡ₚ map_to_list m.
Hypothesis Horder : forall n, order n ≡ₚ seq 0 n.
Hypothesis Hsort : forall l, sort_Reverse l ≡ₚ l.
Hypothesis Hf : policy_framework range spot_fake f.
Hypothesis Hreq : plain_request alloc.

(** What the filters ask. *)
Definition policy_specs : list (bool * (SiteCacheInfo -> Prop)) :=
  [(false, on_site (on_sale (request alloc))); (false, on_site (located (request alloc))); (false, on_site (in_regions (request alloc)));
   (false, fun n => 0 < capacity (request alloc) n); (true, fun _ => True); (false, fun _ => True); (false, on_site (not_listed ctx))].

Lemma accepted_suits n : accepted policy_specs n <-> suits ctx (request alloc) n.
Proof using.
  unfold accepted, suits, policy_specs. split.
  - intros H. split_and!.
    + by apply (H (false, on_site (on_sale (request alloc)))); rewrite !elem_of_cons; auto.
    + by apply (H (false, on_site (located (request alloc)))); rewrite !elem_of_cons; auto.
    + by apply (H (false, on_site (in_regions (request alloc)))); rewrite !elem_of_cons; auto.
    + by apply (H (false, on_site (not_listed ctx))); rewrite !elem_of_cons; auto 10.
    + by apply (H (false, fun n => 0 < capacity (request alloc) n)); rewrite !elem_of_cons; auto.
  - intros (H1 & H2 & H3 & H4 & H5) spec. rewrite !elem_of_cons, elem_of_nil. intros [->|[->|[->|[->|[->|[->|[->|[]]]]]]]]; done.
Qed.

Lemma policy_decides w aggs : calculateFlavorAggregate (request alloc) = Some aggs -> (forall agg, agg ∈ aggs -> plain (Agg_Flavors agg)) ->
  Forall2 (fun pl (spec : bool * (SiteCacheInfo -> Prop)) => decides ctx w (request alloc) (filtering aggs) selector_ready plain_site spec.1 spec.2 pl.2) (points f EFilter) policy_specs.
Proof using All.
  intros Haggs Hpl. destruct Hf as (_ & _ & -> & _).
  assert (forall b P pl, decides ctx w (request alloc) (filtering aggs) selector_ready counted b P pl -> decides ctx w (request alloc) (filtering aggs) selector_ready plain_site b P pl) as Hmono.
  { intros b P pl (run & Hrun & H). exists run. split; [done|]. intros st n Hst Hn. apply H; [done|by apply plain_counted]. }
  unfold policy_specs. repeat constructor; cbn [fst snd].
  - eapply pure_decides; [done|]. intros n Hn. apply available_decides, (counted_site n (plain_counted n Hn)).
  - eapply pure_decides; [done|]. intros n Hn. apply location_decides, (counted_site n (plain_counted n Hn)).
  - eapply pure_decides; [done|]. intros n Hn. apply region_decides, (counted_site n (plain_counted n Hn)).
  - apply Hmono. by apply flavor_decides.
  - apply Hmono. apply volume_decides; [done|]. exact (pr_volumes alloc Hreq).
  - eapply pure_decides; [done|]. intros n _. left. split; [reflexivity|exact I].
  - eapply pure_decides; [done|]. intros n Hn. apply exclusive_decides, (counted_site n (plain_counted n Hn)).
Qed.

(** ** Capacities and counts *)

Lemma caps_sum_of st g (l : list SiteScore) : (forall s, s ∈ l -> cap st s = Some (g (SS_SiteID s))) -> caps_sum st l = sum_of g (SS_SiteID <$> l).
Proof using.
  induction l as [|s l IH]; intros Hl; [done|]. unfold caps_sum in *. simpl. rewrite (Hl s) by (by left). simpl. rewrite IH; [done|]. intros ? ?. apply Hl. by right.
Qed.

Lemma within_given st g sites l : within st sites l -> (forall s, s ∈ sites -> cap st s = Some (g (SS_SiteID s))) -> (forall id, 0 <= g id) -> NoDup (SS_SiteID <$> sites) ->
  (forall v, v ∈ l -> SS_SiteID v ∈ SS_SiteID <$> sites ∧ 0 <= StackCount v) ∧ forall id, given id l <= g id ∧ (id ∉ SS_SiteID <$> sites -> given id l = 0).
Proof using.
  intros Hw Hcap Hg. induction Hw as [sites|s sites l Hw IH|s sites l c k Hc Hk Hw IH]; intros Hnd.
  - split; [by intros ? ?%elem_of_nil|]. intros id. simpl. specialize (Hg id). split; [lia|done].
  - apply NoDup_cons in Hnd as [_ Hnd]. destruct IH as [H1 H2]; [intros ? ?; apply Hcap; by right|done|]. csimpl. split.
    + intros v Hv. destruct (H1 v Hv). split; [by right|done].
    + intros id. destruct (H2 id). split; [done|]. rewrite not_elem_of_cons. intros [_ ?]. auto.
  - apply NoDup_cons in Hnd as [Hni Hnd]. destruct IH as [H1 H2]; [intros ? ?; apply Hcap; by right|done|]. rewrite (Hcap s) in Hc by (by left). injection Hc as <-. csimpl. split.
    + intros v [->|Hv]%elem_of_cons; [split; [by left|simpl; lia]|]. destruct (H1 v Hv). split; [by right|done].
    + intros id. destruct (H2 id) as [Hle Hzero]. case_decide as Hd; simpl in Hd.
      * subst id. rewrite Hzero by done. split; [lia|]. rewrite not_elem_of_cons. by intros [? _].
      * split; [lia|]. rewrite not_elem_of_cons. intros [_ Hn]. rewrite (Hzero Hn). lia.
Qed.

(** What the strategies of the policy do with the measured sites. *)
Lemma strategy_stage w st g (l : list SiteScore) : (forall s, s ∈ l -> cap st s = Some (g (SS_SiteID s))) -> (forall id, 0 <= g id) -> NoDup (SS_SiteID <$> l) ->
  sum_of g (SS_SiteID <$> l) < 2 ^ 53 -> (forall id, id ∈ SS_SiteID <$> l -> g id <= sum_of g (SS_SiteID <$> l)) ->
  (sum_of g (SS_SiteID <$> l) < Replicas alloc -> ∃ status, RunStrategyPlugins f w st (set_allocation_stack alloc (request alloc)) l = Some ([], status) ∧ IsSuccess status = false) ∧
  (Replicas alloc <= sum_of g (SS_SiteID <$> l) -> ∃ counts, RunStrategyPlugins f w st (set_allocation_stack alloc (request alloc)) l = Some (counts, None) ∧
     (forall v, v ∈ counts -> SS_SiteID v ∈ SS_SiteID <$> l ∧ 0 <= StackCount v) ∧ (forall id, given id counts <= g id) ∧
     (LocationStrategy (Sel_Strategy (Allocation_Selector alloc)) = StrategyCentralize ∨ Replicas alloc = 1 -> Replicas alloc <= counts_sum counts)).
Proof using Hf Hreq.
  intros Hcap Hg Hnd Hsum Hle. assert (small_caps st l) as Hsmall.
  { split; [|by rewrite (caps_sum_of st g)]. intros s c Hs Hc. rewrite (Hcap s Hs) in Hc. injection Hc as <-. specialize (Hg (SS_SiteID s)).
    specialize (Hle (SS_SiteID s) (list_elem_of_fmap_2 SS_SiteID _ _ Hs)). lia. }
  unfold RunStrategyPlugins. destruct Hf as (_ & _ & _ & _ & _ & _ & -> & _). cbn [run_strategy PluginStrategy RegionAndAzPlugin LocationAndOperatorPlugin]. bind_simpl.
  unfold RegionAndAz_Strategy. change (Allocation_Selector (set_allocation_stack alloc (request alloc))) with (Allocation_Selector alloc).
  rewrite (proj2 (String.eqb_neq _ _) (pr_region alloc Hreq)). cbn [negb]. bind_simpl. change (IsSuccess None) with true. cbn iota.
  destruct (location_strategy_spec w st (set_allocation_stack alloc (request alloc)) l Hsmall (pr_replicas alloc Hreq)) as [Hfail Hok]. rewrite (caps_sum_of st g l Hcap) in Hfail, Hok.
  cbn [Replicas Allocation_Selector set_allocation_stack] in Hfail, Hok. split.
  - intros Hlt. rewrite (Hfail Hlt). bind_simpl. by eexists.
  - intros Hge. destruct (Hok Hge) as (counts & -> & Hw & Hcentral & Hone). bind_simpl. change (IsSuccess None) with true. cbn iota.
    destruct (within_given st g l counts Hw Hcap Hg Hnd) as [H1 H2]. exists counts. split_and!; [done|done|intros id; by apply H2|].
    intros [H|H]; [rewrite (Hcentral H); lia|rewrite H; auto].
Qed.

(** ** The stages *)

Context (w : World).
Hypothesis Hw : plain_world w.

(** The world after the flavors have been renewed: its sites are those of [w]. *)
Definition renewed : World :=
  let s := UpdateFlavor config_FlavorMap (w_snapshot w) in UpdateFlavorMap (set_world w s (w_cache w)) (RegionFlavorMap s) (FlavorMap s).

Definition policy_ids : list string := candidate_ids range (w_snapshot w) (request alloc).
Definition policy_capacity (id : string) : Z := site_capacity ctx w (request alloc) id.
Definition policy_total : Z := sum_of policy_capacity policy_ids.

Lemma request_plain : plain_stack (request alloc).
Proof using Hreq. exact (pr_stack alloc Hreq). Qed.

Lemma prefilter_stage : ∃ aggs, calculateFlavorAggregate (request alloc) = Some aggs ∧ (forall agg, agg ∈ aggs -> plain (Agg_Flavors agg)) ∧
  RunPreFilterPlugins f renewed NewCycleState (Allocation_Stack alloc) = Some ({[flavorStateKey := FlavorAggregates aggs]}, None).
Proof using Hf Hreq.
  destruct (plain_aggregates (request alloc) request_plain) as (aggs & Haggs & _ & Hpl & _). exists aggs. split_and!; [done|done|].
  unfold RunPreFilterPlugins. destruct Hf as (_ & -> & _). cbn [run_prefilter PreFilter FlavorPlugin]. bind_simpl. unfold Flavor_PreFilter.
  change (calculateFlavorAggregate (Allocation_Stack alloc)) with (calculateFlavorAggregate (request alloc)). by rewrite Haggs.
Qed.

Lemma policy_capacity_nonneg id : 0 <= policy_capacity id.
Proof using Hreq.
  unfold policy_capacity, site_capacity. destruct (info_of w id) as [n|]; [|done]. case_decide as Hs; [|done]. destruct Hs as (_ & _ & _ & _ & ?). lia.
Qed.

(** The filters find exactly the sites with a capacity. *)
Lemma filter_stage : policy_ids <> [] -> ∃ aggs st sites, RunPreFilterPlugins f renewed NewCycleState (Allocation_Stack alloc) = Some ({[flavorStateKey := FlavorAggregates aggs]}, None) ∧
  findSitesThatPassFilters range order f ctx renewed {[flavorStateKey := FlavorAggregates aggs]} (request alloc) = Some (renewed, st, Ok sites) ∧
  (sites <> [] -> scoring renewed (request alloc) [] st) ∧ NoDup (SiteID <$> sites) ∧
  (forall site, site ∈ sites -> suitable_site renewed (request alloc) site ∧ 0 < policy_capacity (SiteID site) ∧ SiteID site ∈ policy_ids) ∧
  (forall id, id ∈ policy_ids -> 0 < policy_capacity id -> id ∈ SiteID <$> sites).
Proof using All.
  intros Hne. destruct prefilter_stage as (aggs & Haggs & Hpl & Hpre). exists aggs.
  destruct (find_sites_spec range order f ctx renewed (request alloc) Hrange Horder (filtering aggs) selector_ready policy_specs (proj1 Hf) (policy_decides renewed aggs Haggs Hpl)
    ltac:(unfold policy_specs; csimpl; rewrite !elem_of_cons; auto 10) {[flavorStateKey := FlavorAggregates aggs]} (pw_keyed w Hw)) as (sites & st & Hfind & Hinv & Hready & Hnd & Hsites).
  { split; [by rewrite lookup_singleton_eq|left; by rewrite lookup_singleton_ne]. }
  { exact Hne. }
  exists st, sites. split_and!; [done|done| |done| |].
  - intros Hs. destruct (Hready Hs) as (s & Hsel & Hzero). destruct Hinv as [Hfl _]. exists s, aggs. split_and!; [done|done|done| |by intros ? ?%elem_of_nil].
    intros id _. destruct (s !! id) as [info|] eqn:Hi; [|done]. by rewrite (Hzero id info Hi).
  - intros site (n & Hid & Hinfo & Hsite & Hacc%accepted_suits)%Hsites. assert (policy_capacity (SiteID site) = capacity (request alloc) n) as Hcap.
    { unfold policy_capacity, site_capacity. change (info_of w (SiteID site)) with (info_of renewed (SiteID site)). rewrite Hinfo. by rewrite decide_True. }
    assert (0 < capacity (request alloc) n) as Hpos by apply Hacc. split_and!; [|by rewrite Hcap|done].
    exists n. split_and!; [done|done| |done]. change (info_of w (SiteID site) = Some n) in Hinfo. unfold info_of in Hinfo.
    destruct (SiteCacheInfoMap (w_snapshot w) !! SiteID site) as [a|] eqn:Ha; [|done]. bind_simpl in Hinfo.
    destruct (pw_keyed w Hw _ _ Ha) as (n' & ? & Hn' & _ & _ & ?). by assert (n' = n) as -> by congruence.
  - intros id Hid Hpos. unfold policy_capacity, site_capacity in Hpos. destruct (info_of w id) as [n|] eqn:Hinfo; [|lia]. case_decide as Hs; [|lia].
    pose proof Hinfo as Hinfo'. unfold info_of in Hinfo'. destruct (SiteCacheInfoMap (w_snapshot w) !! id) as [a|] eqn:Ha; [|done]. bind_simpl in Hinfo'.
    destruct (pw_keyed w Hw _ _ Ha) as (n' & site & Hn' & Hsite & <- & _). assert (n' = n) as -> by congruence.
    apply (list_elem_of_fmap_2 SiteID). apply Hsites. exists n. split_and!; [done|done|done|by apply accepted_suits].
Qed.

(** The sites by id. *)
Definition by_id (sites : list Site) : gmap string Site := list_to_map ((fun site => (SiteID site, site)) <$> sites).

Lemma by_id_spec (sites : list Site) id site : NoDup (SiteID <$> sites) -> (by_id sites !! id = Some site <-> site ∈ sites ∧ SiteID site = id).
Proof using.
  intros Hnd. unfold by_id. rewrite <-elem_of_list_to_map by (rewrite <-list_fmap_compose; exact Hnd). rewrite list_elem_of_fmap. split.
  - intros (s & [= -> ->] & ?). done.
  - intros [? <-]. by exists site.
Qed.

(** A state in which the sites have been measured. *)
Lemma scored_measured done st (sites : list Site) : scoring renewed (request alloc) done st -> (forall site, site ∈ sites -> SiteID site ∈ done) ->
  (forall site, site ∈ sites -> 0 < policy_capacity (SiteID site)) ->
  forall site, site ∈ sites -> ∃ info, GetSiteSelectorState st (SiteID site) = Ok info ∧ length (Sel_Flavors info) = length (Resources (request alloc)) ∧
    StackMaxCount info = policy_capacity (SiteID site).
Proof using.
  intros (s & aggs & _ & _ & Hsel & _ & Hdone) Hin Hpos site Hsite. destruct (Hdone _ (Hin site Hsite)) as (n & info & Hinfo & Hs & Hch & Hcap).
  exists info. unfold GetSiteSelectorState, Read. rewrite Hsel, Hs. split_and!; [done|symmetry; by eapply Forall2_length|].
  rewrite Hcap. specialize (Hpos site Hsite). unfold policy_capacity, site_capacity in *. change (info_of w (SiteID site)) with (info_of renewed (SiteID site)) in *.
  rewrite Hinfo in *. case_decide; [done|lia].
Qed.

Lemma bindable_sites (sites : list Site) : NoDup (SiteID <$> sites) -> (forall site, site ∈ sites -> suitable_site renewed (request alloc) site) -> bindable (by_id sites) renewed.
Proof using Hw.
  intros Hnd Hs. assert (forall id site, by_id sites !! id = Some site -> ∃ a n, SiteCacheInfoMap (w_snapshot w) !! id = Some a ∧ entries (w_snapshot w) !! a = Some n ∧ SCI_Site n = Some site) as Hsites.
  { intros id site [Hin <-]%(by_id_spec _ _ _ Hnd). destruct (Hs site Hin) as (n & Hinfo & Hsite & _). change (info_of w (SiteID site) = Some n) in Hinfo. unfold info_of in Hinfo.
    destruct (SiteCacheInfoMap (w_snapshot w) !! SiteID site) as [a|] eqn:Ha; [|done]. bind_simpl in Hinfo. by exists a, n. }
  split; [exact (pw_divisible w Hw)| |exact Hsites]. intros id [site Hsite]. destruct (Hsites id site Hsite) as (a & _ & Ha & _). apply (pw_unknown w Hw). by eexists.
Qed.

(** The outcome of [Schedule] by the capacities of the candidates. *)
Definition no_site : Prop := ∃ e, Schedule range order sort_Reverse config_FlavorMap f ctx w alloc = Some (renewed, [], Some e).
Definition placed : Prop := ∃ w' stacks, Schedule range order sort_Reverse config_FlavorMap f ctx w alloc = Some (w', stacks, None) ∧
  Z.of_nat (length stacks) = Replicas alloc ∧ (forall id, stacks_on id stacks <= policy_capacity id) ∧
  forall s, s ∈ stacks -> ∃ n site, info_of w (SiteID site) = Some n ∧ GetSite n = Some site ∧ suits ctx (request alloc) n ∧ copy_on (Allocation_Stack alloc) site s.

Lemma unsuitable_stage : (forall id, id ∈ policy_ids -> policy_capacity id = 0) -> no_site.
Proof using All.
  intros Hzero. unfold no_site, Schedule. fold renewed. destruct (decide (policy_ids = [])) as [He|Hne].
  - destruct prefilter_stage as (aggs & _ & _ & ->). bind_simpl. change (IsSuccess None) with true. cbn [negb]. unfold findSitesThatPassFilters.
    change (Allocation_Stack (set_allocation_stack alloc (set_stack_selector (Allocation_Stack alloc) (Allocation_Selector alloc)))) with (request alloc).
    pose proof (candidates_ids range renewed (request alloc) Hrange) as Hc. change (candidate_ids range (w_snapshot renewed) (request alloc)) with policy_ids in Hc.
    rewrite He in Hc. apply Forall2_nil_inv_l in Hc. rewrite Hc. bind_simpl. by eexists.
  - destruct (filter_stage Hne) as (aggs & st & sites & -> & Hfind & _ & _ & Hsites & _). bind_simpl. change (IsSuccess None) with true. cbn [negb].
    change (Allocation_Stack (set_allocation_stack alloc (set_stack_selector (Allocation_Stack alloc) (Allocation_Selector alloc)))) with (request alloc).
    rewrite Hfind. bind_simpl. destruct sites as [|site sites]; [by eexists|]. exfalso. destruct (Hsites site (list_elem_of_here _ _)) as (_ & Hpos & Hid). specialize (Hzero _ Hid). lia.
Qed.

(** The allocation with its selector in the stack. *)
Definition requested : Allocation := set_allocation_stack alloc (request alloc).

Lemma policy_capacity_le ids id : id ∈ ids -> policy_capacity id <= sum_of policy_capacity ids.
Proof using Hreq.
  revert id. induction ids as [|x ids IH]; intros id; [by intros ?%elem_of_nil|]. assert (0 <= sum_of policy_capacity ids).
  { clear IH. induction ids as [|y ids IH]; simpl; [lia|]. pose proof (policy_capacity_nonneg y). lia. }
  intros [->|Hin]%elem_of_cons; simpl; [lia|]. specialize (IH id Hin). pose proof (policy_capacity_nonneg x). lia.
Qed.

(** When some site is suitable, the strategies get the suitable sites with their
    capacities, and the outcome is theirs. *)
Lemma score_stage id0 : id0 ∈ policy_ids -> 0 < policy_capacity id0 -> ∃ st l (sites : list Site),
  Schedule range order sort_Reverse config_FlavorMap f ctx w alloc =
    ('(siteCount, strategyStatus) ← RunStrategyPlugins f renewed st requested l;
     if negb (IsSuccess strategyStatus) then Some (renewed, [], None) else reserve f renewed st requested siteCount) ∧
  NoDup (SiteID <$> sites) ∧ SS_SiteID <$> l ≡ₚ SiteID <$> sites ∧ sum_of policy_capacity (SS_SiteID <$> l) = policy_total ∧
  (forall s, s ∈ l -> cap st s = Some (policy_capacity (SS_SiteID s))) ∧
  (forall site, site ∈ sites -> suitable_site renewed (request alloc) site ∧ 0 < policy_capacity (SiteID site) ∧
    ∃ info, GetSiteSelectorState st (SiteID site) = Ok info ∧ length (Sel_Flavors info) = length (Resources (request alloc))).
Proof using All.
  intros Hid0 Hpos0. assert (policy_ids <> []) as Hne by (intros He; rewrite He in Hid0; by apply elem_of_nil in Hid0).
  destruct (filter_stage Hne) as (aggs & st & sites & Hpre & Hfind & Hscoring & Hnd & Hsites & Hcomplete).
  assert (sites <> []) as Hsne by (intros ->; specialize (Hcomplete id0 Hid0 Hpos0); by apply elem_of_nil in Hcomplete).
  destruct Hf as (_ & _ & _ & Hprescore & Hscore & _ & _ & Hweights).
  destruct (prioritize_spec range spot_fake renewed (request alloc) Hrange request_plain (pr_volumes alloc Hreq) (pr_affinity alloc Hreq) (pr_anti alloc Hreq) f Hscore Hweights
    order sort_Reverse ctx st sites Horder Hsort (fun site Hin => proj1 (Hsites site Hin)) Hnd (Hscoring Hsne)) as (st' & l & done & Hprio & Hst' & Hl & Hdone).
  pose proof (scored_measured done st' sites Hst' Hdone (fun site Hin => proj1 (proj2 (Hsites site Hin)))) as Hmeasured.
  exists st', l, sites. split_and!; [|done|done| | |].
  - unfold Schedule. fold renewed. rewrite Hpre. bind_simpl. change (IsSuccess None) with true. cbn [negb]. fold (request alloc). fold requested.
    change (Allocation_Stack requested) with (request alloc). rewrite Hfind. bind_simpl. destruct sites as [|s0 sites0] eqn:Es; [done|]. rewrite <-Es in *. clear Es.
    unfold RunPreScorePlugins. rewrite Hprescore. cbn [run_prescore]. bind_simpl. change (IsSuccess None) with true. cbn [negb]. rewrite Hprio. by bind_simpl.
  - rewrite (sum_of_perm _ _ _ Hl). symmetry. apply sum_of_support; [by apply candidate_ids_nodup|done| |].
    + intros id (site & -> & Hin)%list_elem_of_fmap. by apply Hsites.
    + intros id Hid Hout. pose proof (policy_capacity_nonneg id). destruct (decide (0 < policy_capacity id)) as [Hp|]; [by destruct Hout; apply Hcomplete|lia].
  - intros s Hs. assert (SS_SiteID s ∈ SiteID <$> sites) as Hin by (rewrite <-Hl; by apply list_elem_of_fmap_2).
    apply list_elem_of_fmap in Hin as (site & Heq & Hin). destruct (Hmeasured site Hin) as (info & Hinfo & _ & Hmax). unfold cap. rewrite Heq, Hinfo. by rewrite Hmax.
  - intros site Hin. destruct (Hsites site Hin) as (? & ? & _), (Hmeasured site Hin) as (info & ? & ? & _). split_and!; [done|done|by exists info].
Qed.

Lemma suitable_stage id0 : id0 ∈ policy_ids -> 0 < policy_capacity id0 -> policy_total < 2 ^ 53 ->
  (policy_total < Replicas alloc -> Schedule range order sort_Reverse config_FlavorMap f ctx w alloc = Some (renewed, [], None)) ∧
  (Replicas alloc <= policy_total -> LocationStrategy (Sel_Strategy (Allocation_Selector alloc)) = StrategyCentralize ∨ Replicas alloc = 1 -> placed).
Proof using All.
  intros Hid0 Hpos0 Hsmall. destruct (score_stage id0 Hid0 Hpos0) as (st & l & sites & Heq & Hnd & Hl & Htotal & Hcap & Hsites).
  assert (NoDup (SS_SiteID <$> l)) as Hndl by by rewrite Hl.
  destruct (strategy_stage renewed st policy_capacity l Hcap policy_capacity_nonneg Hndl) as [Hfail Hok]; [by rewrite Htotal|by apply policy_capacity_le|]. rewrite Htotal in Hfail, Hok.
  unfold placed. rewrite Heq. fold requested in Hfail, Hok. split.
  - intros Hlt. destruct (Hfail Hlt) as (status & -> & Hst). bind_simpl. by rewrite Hst.
  - intros Hge Hstrategy. destruct (Hok Hge) as (counts & -> & Hin & Hgiven & Henough). bind_simpl. change (IsSuccess None) with true. cbn [negb].
    destruct (reserve_spec range f st requested (proj1 (proj2 (proj2 (proj2 (proj2 (proj2 Hf)))))) (by_id sites) (length (Resources (request alloc)))) with (w := renewed) (l := counts)
      as (w' & stacks & -> & Hlen & Hsel & Hon).
    + intros id site. rewrite by_id_spec by done. tauto.
    + intros id site [Hs <-]%by_id_spec; [|done]. by apply Hsites.
    + apply bindable_sites; [done|]. intros site Hs. by apply Hsites.
    + done.
    + split; [exact (pr_replicas alloc Hreq)|auto].
    + intros v Hv. destruct (Hin v Hv) as [Hvid Hv0]. rewrite Hl in Hvid. apply list_elem_of_fmap in Hvid as (site & Hid & Hs). split; [|done].
      exists site. apply by_id_spec; [done|]. by split.
    + exists w', stacks. split_and!; [done|done|intros id; specialize (Hon id); specialize (Hgiven id); lia|].
      intros s Hs. destruct (Hsel s Hs) as (id & site & [Hsin <-]%by_id_spec & Hselected); [|done]. destruct (Hsites site Hsin) as ((n & Hinfo & Hsite & _) & Hpos & _).
      exists n, site. split_and!; [done|done| |done]. unfold policy_capacity, site_capacity in Hpos. change (info_of w (SiteID site)) with (info_of renewed (SiteID site)) in Hpos.
      rewrite Hinfo in Hpos. case_decide; [done|lia].
Qed.

End Pipeline.

Lemma sum_of_pos g ids : 0 < sum_of g ids -> ∃ id, id ∈ ids ∧ 0 < g id.
Proof.
  induction ids as [|id ids IH]; simpl; [lia|]. intros H. destruct (decide (0 < g id)) as [Hp|Hn]; [exists id; by split; [left|]|].
  destruct IH as (id' & ? & ?); [lia|]. exists id'. by split; [right|].
Qed.

(** C1.  What the scheduler does with an allocation of at least one replica, for the policy the
    repository ships and requests as it makes them from pods and allocations: every resource
    names flavors, without spot resources and none asked for twice, and there are no volumes,
    no affinities and no region strategy of its own. The snapshot is well-formed, and the
    capacities of the candidates add up to less than 2^53. A candidate is suitable when it is
    on sale, where and of the operator and region asked for, open to the caller, and has enough
    of one choice of flavors; its capacity is the number of stacks for which that choice
    suffices. When no candidate is suitable, scheduling fails and places nothing. When the
    capacities add up to the replicas asked for, then with the centralised strategy or for a
    single replica scheduling succeeds with exactly the replicas asked for, every stack is a
    copy of the one asked for that is bound to a suitable site, and no site gets more stacks
    than its capacity. *)
Theorem suitable_allocation_is_placed range order sort_Reverse config_FlavorMap spot_fake f ctx w alloc
  (Hrange : forall A (m : gmap string A), range A m ≡ₚ map_to_list m) (Horder : forall n, order n ≡ₚ seq 0 n) (Hsort : forall l, sort_Reverse l ≡ₚ l)
  (Hf : buildFramework range spot_fake edgecloud_policy = Ok f) (Hreq : plain_request alloc) (Hw : plain_world w) :
  let ids := candidate_ids range (w_snapshot w) (request alloc) in
  let cap := site_capacity ctx w (request alloc) in
  sum_of cap ids < 2 ^ 53 ->
  ((forall id, id ∈ ids -> cap id = 0) -> ∃ w' e, Schedule range order sort_Reverse config_FlavorMap f ctx w alloc = Some (w', [], Some e)) ∧
  (Replicas alloc <= sum_of cap ids -> LocationStrategy (Sel_Strategy (Allocation_Selector alloc)) = StrategyCentralize ∨ Replicas alloc = 1 ->
   ∃ w' stacks, Schedule range order sort_Reverse config_FlavorMap f ctx w alloc = Some (w', stacks, None) ∧
     Z.of_nat (length stacks) = Replicas alloc ∧ (forall id, stacks_on id stacks <= cap id) ∧
     forall s, s ∈ stacks -> ∃ n site, info_of w (SiteID site) = Some n ∧ GetSite n = Some site ∧ suits ctx (request alloc) n ∧ copy_on (Allocation_Stack alloc) site s).
Proof.
  intros ids cap Hsmall. apply built_framework in Hf. split.
  - intros Hzero. eexists. by eapply unsuitable_stage.
  - intros Hle Hstrategy. pose proof (pr_replicas alloc Hreq). destruct (sum_of_pos cap ids) as (id & Hid & Hpos); [lia|].
    by eapply suitable_stage.
Qed.



(** ** A concrete scheduler *)

Definition demo_range (A : Type) (m : gmap string A) : list (string * A) := map_to_list m.
Definition demo_selector (region : string) : ApiTypes.Alloc.Selector :=
  ApiTypes.Alloc.mkSelector (ApiTypes.Alloc.mkGeo "" "" "" "") [ApiTypes.Alloc.mkRegion region []] "" StrategyCentralize.
Definition demo_vm : ApiTypes.Alloc.Resources :=
  ApiTypes.Alloc.mkResources "vm" "vm" [ApiTypes.Alloc.mkFlavor "f1" (ApiTypes.Alloc.mkSpot "" 0 0 "")] (ApiTypes.Alloc.mkVolume 0 0 0) false
    (ApiTypes.Alloc.mkVM "image" "group" "nic" []).
Definition demo_custom (replicas : Z) : ApiTypes.Alloc.Allocation :=
  ApiTypes.Alloc.mkAllocation "a" "ns" "t" 0 None "group" [demo_vm] (demo_selector "r1") replicas
    (ApiTypes.Alloc.mkStatus ApiTypes.Alloc.AllocationAssigned "" "" "" []).

Lemma demo_plain_request replicas : 1 <= replicas -> plain_request (allocation_of (demo_custom replicas) demo_vm "id" "u" 0).
Proof.
  intros Hr. split; [|by intros r ->%list_elem_of_singleton|done..]. split_and!; [done|by intros r ->%list_elem_of_singleton|].
  intros fis Hch. inversion Hch as [|? fi ? fis' [Hfl Hcount] Hrest]; subst. inversion Hrest; subst. apply list_elem_of_singleton in Hfl. simpl in Hcount.
  split; [done|intros fi' ->%list_elem_of_singleton; by rewrite Hfl|intros fi' ->%list_elem_of_singleton; rewrite Hcount; by unfold MaxInt64|apply NoDup_singleton].
Qed.

Lemma demo_plain_world : plain_world demo_bind_world.
Proof.
  split.
  - intros id a Ha. change (({["r1--az1"%string := 0%nat]} : gmap string nat) !! id = Some a) in Ha. apply lookup_singleton_Some in Ha as [<- <-]. exists demo_bind_info, demo_bind_site. split_and!; [done|done|done|]. split.
    + split; [by eexists|]. intros id t Ht. simpl in Ht. apply lookup_singleton_Some in Ht as [<- <-]. lia.
    + by intros site [= <-].
    + intros key [[v Hv]|[v Hv]]; simpl in Hv; [apply lookup_singleton_Some in Hv as [<- _]; reflexivity|]. by rewrite lookup_empty in Hv.
  - intros key flv v Hv. change (demo_region_flavors !! key = Some flv) in Hv. unfold demo_region_flavors in Hv. apply lookup_singleton_Some in Hv as [<- <-]. vm_compute. by intros [= <-].
  - intros id _. apply lookup_empty.
Qed.

(** The site of [demo_bind_world] takes nine stacks: five are placed. *)
Lemma suitable_allocation_is_placed_witness :
  ∃ f w' stacks, Schedule demo_range (seq 0) id ∅ f ∅ demo_bind_world (allocation_of (demo_custom 5) demo_vm "id" "u" 0) = Some (w', stacks, None) ∧ Z.of_nat (length stacks) = 5.
Proof.
  destruct (built_exists demo_range false) as [f Hf].
  destruct (suitable_allocation_is_placed demo_range (seq 0) id ∅ false f ∅ demo_bind_world (allocation_of (demo_custom 5) demo_vm "id" "u" 0) (fun A m => reflexivity _)
    (fun n => reflexivity _) (fun l => reflexivity _) Hf (demo_plain_request 5 ltac:(lia)) demo_plain_world) as [_ H].
  - vm_compute. reflexivity.
  - destruct H as (w' & stacks & H1 & H2 & _); [vm_compute; discriminate|left; reflexivity|]. exists f, w', stacks. split; [exact H1|exact H2].
Defined.

