(* ===== verification/ClusterProofs.v ===== *)
(** * The scheduler's sites follow the clusters

    Theorems about [ClusterEvents]: keys of clusters are split into what they were made
    of; an event that the worker handles installs the site of the cluster with its
    flavors; every sequence of informer events, worker steps, retries and reports for
    known sites keeps the snapshot in the form the scheduling algorithm needs.  The last
    theorems state what goes wrong: a deleted cluster keeps its site, a repeated event is
    never handled, and an event of a vanished cluster crashes the worker. *)
From S2P Require Import Prelude Types Strconv SiteTree SiteCacheInfo Cache Framework FlavorProofs Floats WorkQueue Plugins Binder ClusterEvents.
From S2P Require Import FilterProofs ReserveProofs ScheduleProofs.
From S2P Require ApiTypes.

Local Open Scope Z_scope.

(** ** Keys *)

Fixpoint no_slash (s : string) : bool :=
  match s with EmptyString => true | String c s => negb (Ascii.eqb c "/") && no_slash s end.

Lemma split_piece s : no_slash s = true -> forall acc rest, split_from "/" acc (s +:+ rest) 0 = split_from "/" (acc +:+ s) rest 0.
Proof.
  induction s as [|c s IH]; intros Hs acc rest; [by rewrite string_app_nil|]. cbn [no_slash] in Hs. apply andb_true_iff in Hs as [Hc Hs].
  change (String c s +:+ rest) with (String c (s +:+ rest)). cbn [split_from String.prefix]. destruct (ascii_dec "/" c) as [<-|_]; [done|].
  rewrite IH by done. by rewrite <- string_app_assoc.
Qed.

Lemma split_last s acc : no_slash s = true -> split_from "/" acc s 0 = [acc +:+ s].
Proof. intros Hs. rewrite <- (string_app_nil s) at 1. by rewrite split_piece. Qed.

Lemma split_at_slash s acc rest : no_slash s = true -> split_from "/" acc (s +:+ "/" +:+ rest) 0 = (acc +:+ s) :: split_from "/" "" rest 0.
Proof. intros Hs. rewrite split_piece by done. by destruct rest. Qed.

Definition plain_names (c : ClusterObject) : Prop :=
  no_slash (ApiTypes.C_Name (co_Cluster c)) = true ∧ no_slash (ApiTypes.C_Namespace (co_Cluster c)) = true ∧
  no_slash (co_Tenant c) = true ∧ ApiTypes.C_Namespace (co_Cluster c) <> ""%string.

Lemma split_key c : plain_names c ->
  SplitMetaNamespaceKey (MetaNamespaceKeyFunc c) = (ApiTypes.C_Namespace (co_Cluster c), ApiTypes.C_Name (co_Cluster c), None).
Proof.
  intros (Hn & Hs & Ht & Hne). unfold SplitMetaNamespaceKey, MetaNamespaceKeyFunc, strings_Split.
  rewrite (proj2 (String.eqb_neq _ _) Hne). destruct (_ || _).
  - by rewrite split_at_slash, split_last.
  - by rewrite split_at_slash, split_at_slash, split_last.
Qed.

(** ** What an event installs *)

(** The capacities of a list of flavors, and the flavors a region gets from the
    configuration. *)
Definition capacities (m : gmap string Z) (flavors : list ApiTypes.FlavorInfo) : gmap string Z :=
  foldl (fun m f => <[ApiTypes.FI_FlavorID f := ApiTypes.FI_TotalCapacity f]> m) m flavors.
Definition region_flavors (config : gmap string RegionFlavor) (region : string) (m : gmap string RegionFlavor) (flavors : list ApiTypes.FlavorInfo) : gmap string RegionFlavor :=
  foldl (fun m f => partial_alter (fun _ => config !! ApiTypes.FI_FlavorID f) (region +:+ FlavorDelimiter +:+ ApiTypes.FI_FlavorID f) m) m flavors.

(** The information of the site of a cluster. *)
Definition site_of (c : ApiTypes.Cluster) (status : string) : SiteCacheInfo :=
  mkSiteCacheInfo (Some (convertClusterToSite c status)) ∅ ∅ ∅ ∅ ∅ (capacities ∅ (ApiTypes.C_Flavors c)) ∅ [] None ∅ 0.

Lemma set_allocatable_twice n m m' : set_allocatable (set_allocatable n m) m' = set_allocatable n m'.
Proof. done. Qed.

Lemma add_flavors region a flavors : forall s n, entries s !! a = Some n ->
  foldl (add_flavor region a) s flavors =
    mkSnapshot (<[a := set_allocatable n (capacities (AllocatableFlavor n) flavors)]> (entries s)) (snap_fresh s) (SiteCacheInfoMap s) (SiteCacheInfoList s)
      (region_flavors (FlavorMap s) region (RegionFlavorMap s) flavors) (FlavorMap s) (snap_generation s).
Proof.
  induction flavors as [|f flavors IH]; intros s n Hn; cbn [foldl capacities region_flavors].
  { assert (set_allocatable n (AllocatableFlavor n) = n) as -> by (by destruct n). rewrite insert_id by done. by destruct s. }
  rewrite (IH _ (set_allocatable n (<[ApiTypes.FI_FlavorID f := ApiTypes.FI_TotalCapacity f]> (AllocatableFlavor n)))).
  - unfold add_flavor, UpdateRegionFlavor. cbn [entries set_entries snap_fresh SiteCacheInfoMap SiteCacheInfoList RegionFlavorMap FlavorMap snap_generation].
    f_equal. apply map_eq. intros b. destruct (decide (b = a)) as [->|Hb]; [by rewrite !lookup_insert_eq|].
    rewrite !lookup_insert_ne by done. by rewrite lookup_alter_ne.
  - unfold add_flavor, UpdateRegionFlavor. cbn [entries set_entries]. by rewrite lookup_alter_eq, Hn.
Qed.

Lemma install_site_eq s c status : let a := snap_fresh s in
  install_site s c status =
    mkSnapshot (<[a := site_of c status]> (entries s)) (S a) (<[SiteID (convertClusterToSite c status) := a]> (SiteCacheInfoMap s)) (SiteCacheInfoList s)
      (region_flavors (FlavorMap s) (ApiTypes.RI_Region (ApiTypes.C_Region c)) (RegionFlavorMap s) (ApiTypes.C_Flavors c)) (FlavorMap s) (snap_generation s).
Proof.
  unfold install_site. erewrite add_flavors; [|cbn [entries set_entries]; by rewrite lookup_insert_eq].
  cbn [entries set_entries snap_fresh SiteCacheInfoMap SiteCacheInfoList RegionFlavorMap FlavorMap snap_generation].
  by rewrite insert_insert_eq.
Qed.

(** ** The snapshot stays in the form that scheduling needs *)

(** The clusters count few instances of each flavor. *)
Definition small_cluster (c : ApiTypes.Cluster) : Prop := Forall (fun f => ApiTypes.FI_TotalCapacity f < 2 ^ 53) (ApiTypes.C_Flavors c).

Record snapshot_ok (s : Snapshot) : Prop := {
  so_keyed : forall id a, SiteCacheInfoMap s !! id = Some a -> ∃ n site, entries s !! a = Some n ∧ GetSite n = Some site ∧ SiteID site = id ∧ plain_site n;
  so_fresh : forall a, is_Some (entries s !! a) -> (a < snap_fresh s)%nat;
  so_divisible : divisible (RegionFlavorMap s);
  so_config : divisible (FlavorMap s) }.

Lemma capacities_small flavors : Forall (fun f => ApiTypes.FI_TotalCapacity f < 2 ^ 53) flavors ->
  forall m, (forall id t, m !! id = Some t -> t < 2 ^ 53) -> forall id t, capacities m flavors !! id = Some t -> t < 2 ^ 53.
Proof.
  induction 1 as [|f flavors Hf _ IH]; intros m Hm id t; [apply Hm|]. apply IH. intros id' t'.
  destruct (decide (id' = ApiTypes.FI_FlavorID f)) as [->|Hne]; [by rewrite lookup_insert_eq; intros [= <-]|].
  rewrite lookup_insert_ne by done. apply Hm.
Qed.

Lemma region_flavors_divisible config region flavors : divisible config -> forall m, divisible m -> divisible (region_flavors config region m flavors).
Proof.
  intros Hc. induction flavors as [|f flavors IH]; intros m Hm; [done|]. apply IH. intros key flv v Hk.
  destruct (decide (key = region +:+ FlavorDelimiter +:+ ApiTypes.FI_FlavorID f)) as [->|Hne].
  - rewrite lookup_partial_alter_eq in Hk. by eapply Hc.
  - rewrite lookup_partial_alter_ne in Hk by done. by eapply Hm.
Qed.

Lemma site_of_plain c status : small_cluster c -> plain_site (site_of c status).
Proof.
  intros Hc. split.
  - split; [by eexists|]. cbn [site_of AllocatableFlavor]. apply capacities_small; [done|]. intros id t. by rewrite lookup_empty.
  - by intros site [= <-].
  - intros key [H|H]; cbn in H; rewrite lookup_empty in H; by destruct H.
Qed.

Lemma install_site_ok s c status : snapshot_ok s -> small_cluster c -> snapshot_ok (install_site s c status).
Proof.
  intros [Hk Hf Hd Hcfg] Hc. rewrite install_site_eq. set (a := snap_fresh s).
  assert (entries s !! a = None) as Ha by (apply eq_None_not_Some; intros H%Hf; lia).
  split; cbn [entries snap_fresh SiteCacheInfoMap RegionFlavorMap FlavorMap]; [| |by apply region_flavors_divisible|done].
  - intros id b. destruct (decide (id = SiteID (convertClusterToSite c status))) as [->|Hne].
    + rewrite lookup_insert_eq. intros [= <-]. exists (site_of c status), (convertClusterToSite c status). rewrite lookup_insert_eq.
      split_and!; [done|done|done|by apply site_of_plain].
    + rewrite lookup_insert_ne by done. intros Hb. destruct (Hk id b Hb) as (n & site & Hn & Hrest). exists n, site.
      rewrite lookup_insert_ne by congruence. done.
  - intros b. destruct (decide (b = a)) as [->|Hne]; [lia|]. rewrite lookup_insert_ne by done. intros Hb%Hf. subst a. lia.
Qed.

Lemma vm_type : IsContain (strings_Split DefaultResourceType FlavorDelimiter) "" = false.
Proof. reflexivity. Qed.

(** A report about sites that are known. *)
Definition known_sites (s : Snapshot) (region : string) (resource : SiteResource) : Prop :=
  Forall (fun z => is_Some (SiteCacheInfoMap s !! (region +:+ SiteDelimiter +:+ AZ z))) (CPUMemResources resource).

Lemma report_zone_ok region volumes s z : snapshot_ok s -> is_Some (SiteCacheInfoMap s !! (region +:+ SiteDelimiter +:+ AZ z)) ->
  snapshot_ok (report_zone region volumes s z) ∧ SiteCacheInfoMap (report_zone region volumes s z) = SiteCacheInfoMap s.
Proof.
  intros [Hk Hf Hd Hcfg] [b Hb]. unfold report_zone. rewrite Hb. split; [|done].
  split; cbn [entries set_entries snap_fresh SiteCacheInfoMap RegionFlavorMap FlavorMap]; [| |done|done].
  - intros id a Ha. destruct (Hk id a Ha) as (n & site & Hn & Hs & Hid & [Hc Hh Ht]).
    destruct (decide (a = b)) as [->|Hne]; [|exists n, site; by rewrite lookup_alter_ne].
    eexists _, site. rewrite lookup_alter_eq, Hn. split; [done|]. split_and!; [done|done|]. split.
    + by destruct Hc.
    + done.
    + intros key. cbn [set_totals TotalResources RequestedResources].
      destruct (decide (key = DefaultResourceType)) as [->|Hkey]; [intros _; apply vm_type|]. rewrite lookup_insert_ne by done. apply Ht.
  - intros a Ha. apply Hf. destruct (decide (a = b)) as [->|]; [|by rewrite lookup_alter_ne in Ha].
    rewrite lookup_alter_eq in Ha. by apply fmap_is_Some in Ha.
Qed.

Lemma report_ok region resource s : snapshot_ok s -> known_sites s region resource -> snapshot_ok (UpdateSiteDynamicResource s region resource).
Proof.
  unfold known_sites, UpdateSiteDynamicResource. generalize (CPUMemResources resource). intros zones. revert s.
  induction zones as [|z zones IH]; intros s Hs Hz; [done|]. apply Forall_cons in Hz as [Hz Hzs].
  destruct (report_zone_ok region (VolumeResources resource) s z Hs Hz) as [Hs' Hm]. apply IH; [done|].
  apply (Forall_impl _ _ _ Hzs). intros z'. by rewrite Hm.
Qed.

Section Steps.
Context {bucket : Type} (Reserve_Delay : bucket -> bucket * Z).
Implicit Types (s : Scheduler bucket) (indexer : gmap string ClusterObject).

Definition small_clusters indexer : Prop := forall key c, indexer !! key = Some c -> small_cluster (co_Cluster c).

Lemma static_info_ok indexer s key event ns name s' r : snapshot_ok (siteCacheInfoSnapshot s) -> small_clusters indexer ->
  updateStaticSiteResourceInfo indexer s key event ns name = (s', r) -> snapshot_ok (siteCacheInfoSnapshot s').
Proof.
  intros Hs Hi. unfold updateStaticSiteResourceInfo, lister_Get. destruct (_ || _); [|destruct (_ =? _)].
  - destruct (indexer !! _) as [c|] eqn:Hc; intros [= <- _]; [|done]. cbn [set_snapshot siteCacheInfoSnapshot]. apply install_site_ok; [done|by eapply Hi].
  - destruct (indexer !! _) as [c|] eqn:Hc; intros [= <- _]; [|done]. cbn [siteCacheInfoSnapshot]. destruct Hs as [Hk Hf Hd Hcfg].
    split; cbn [entries set_entries snap_fresh SiteCacheInfoMap RegionFlavorMap FlavorMap]; [|done|done|done].
    intros id a. rewrite lookup_delete_Some. intros [_ Ha]. by apply Hk.
  - by intros [= <- _].
Qed.

Lemma retry_snapshot now s item s' : retry Reserve_Delay now s item = Returns s' -> siteCacheInfoSnapshot s' = siteCacheInfoSnapshot s.
Proof. unfold retry. by destruct (AddRateLimited _ _ _ _) as [q|]; [intros [= <-]|]. Qed.

Lemma handler_ok indexer now s event key s' err : snapshot_ok (siteCacheInfoSnapshot s) -> small_clusters indexer ->
  clusterSyncHandler Reserve_Delay indexer now s event key = Returns (s', err) -> snapshot_ok (siteCacheInfoSnapshot s').
Proof.
  intros Hs Hi. unfold clusterSyncHandler. destruct (event <? 0); [by intros [= <- _]|].
  destruct (SplitMetaNamespaceKey key) as [[ns name] ?]. destruct (updateStaticSiteResourceInfo _ _ _ _ _ _) as [s1 r] eqn:Hu.
  pose proof (static_info_ok _ _ _ _ _ _ _ _ Hs Hi Hu) as Hs1.
  assert (forall s2, match event =? EventType_Delete with true => Returns (s2, None) | false =>
      match lister_Get indexer ns name with Ok _ => Returns (s2, None) | Err _ => Panics end end = Returns (s', err) -> s2 = s') as Hend.
  { intros s2. destruct (_ =? _); [by intros [= -> _]|]. by destruct (lister_Get _ _ _); intros [= -> _]. }
  destruct r.
  - intros <-%Hend. done.
  - destruct (retry _ _ _ _) as [s2| |] eqn:Hr; [|done|done]. intros <-%Hend. by rewrite (retry_snapshot _ _ _ _ Hr).
Qed.

Lemma process_ok indexer now s s' b : snapshot_ok (siteCacheInfoSnapshot s) -> small_clusters indexer ->
  processNextClusterItem Reserve_Delay indexer now s = Some (Returns (s', b)) -> snapshot_ok (siteCacheInfoSnapshot s').
Proof.
  intros Hs Hi. unfold processNextClusterItem. destruct (wq_Get _) as [q g]. destruct g as [[event key|key]| |]; [|done|by intros [= <- _]|done].
  destruct (clusterSyncHandler _ _ _ _ _ _) as [[s1 err]| |] eqn:Hh; [|done|done]. pose proof (λ H, handler_ok _ _ _ _ _ _ _ H Hi Hh) as Hs1.
  specialize (Hs1 Hs). destruct err as [e|].
  - destruct (retry _ _ _ _) as [s2| |] eqn:Hr; [|done|done]. intros [= <- _]. cbn. by rewrite (retry_snapshot _ _ _ _ Hr).
  - by intros [= <- _].
Qed.

(** ** Histories

    The informer keeps its store and calls the handlers; the worker handles one item; the
    waiting loop makes a round; the collector reports known sites. *)
Inductive cluster_step : gmap string ClusterObject * Scheduler bucket -> gmap string ClusterObject * Scheduler bucket -> Prop :=
  | step_add indexer s c : small_cluster (co_Cluster c) ->
      cluster_step (indexer, s) (<[MetaNamespaceKeyFunc c := c]> indexer, addCluster s c)
  | step_update indexer s old new : indexer !! MetaNamespaceKeyFunc old = Some old -> MetaNamespaceKeyFunc new = MetaNamespaceKeyFunc old ->
      small_cluster (co_Cluster new) -> cluster_step (indexer, s) (<[MetaNamespaceKeyFunc new := new]> indexer, updateCluster s old new)
  | step_delete indexer s c : indexer !! MetaNamespaceKeyFunc c = Some c ->
      cluster_step (indexer, s) (delete (MetaNamespaceKeyFunc c) indexer, deleteCluster s c)
  | step_work indexer s now s' b : processNextClusterItem Reserve_Delay indexer now s = Some (Returns (s', b)) ->
      cluster_step (indexer, s) (indexer, s')
  | step_wait indexer s heap now clk fired : heap_order heap ->
      cluster_step (indexer, s) (indexer, set_queue s (mkRateLimiting (waiting_step heap now clk fired (DelayingInterface (ClusterQueue s))) (rateLimiter (ClusterQueue s))))
  | step_report indexer s region resource : known_sites (siteCacheInfoSnapshot s) region resource ->
      cluster_step (indexer, s) (indexer, set_snapshot s (UpdateSiteDynamicResource (siteCacheInfoSnapshot s) region resource)).

(** A scheduler that has just been built with its flavors. *)
Definition new_scheduler (b : bucket) (config : gmap string RegionFlavor) : Scheduler bucket :=
  mkScheduler (mkRateLimiting (mkDelaying newQueue [] ∅) (DefaultControllerRateLimiter b))
    (mkSnapshot ∅ 0 ∅ [] ∅ config 0) ∅.

Lemma new_snapshot_ok b config : divisible config -> snapshot_ok (siteCacheInfoSnapshot (new_scheduler b config)).
Proof.
  intros Hc. split; cbn; [| |by intros key flv v Hk; rewrite lookup_empty in Hk|done].
  - intros id a. by rewrite lookup_empty.
  - intros a [n Hn]. by rewrite lookup_empty in Hn.
Qed.

Lemma step_snapshot_ok e e' : cluster_step e e' -> small_clusters e.1 ∧ snapshot_ok (siteCacheInfoSnapshot e.2) ->
  small_clusters e'.1 ∧ snapshot_ok (siteCacheInfoSnapshot e'.2).
Proof.
  assert (forall indexer key c, small_clusters indexer -> small_cluster (co_Cluster c) -> small_clusters (<[key := c]> indexer)) as Hins.
  { intros indexer key c Hi Hc key' c'. rewrite lookup_insert_Some. intros [[_ <-]|[_ ?]]; [done|by eapply Hi]. }
  intros [indexer s c Hc|indexer s old new Ho Hkey Hc|indexer s c Hc|indexer s now s' b Hp|indexer s heap now clk fired Hh|indexer s region resource Hr] [Hi Hs];
    cbn [fst snd] in *.
  - split; [by apply Hins|done].
  - split; [by apply Hins|]. unfold updateCluster. destruct (_ || _); [done|]. by destruct (determineEventType old new) as [[]|].
  - split; [|by unfold deleteCluster; destruct (verifyClusterInfo _)]. intros key c'. rewrite lookup_delete_Some. intros [_ ?]. by eapply Hi.
  - split; [done|by eapply process_ok].
  - done.
  - split; [done|by apply report_ok].
Qed.

Lemma run_snapshot_ok e e' : rtc cluster_step e e' -> small_clusters e.1 ∧ snapshot_ok (siteCacheInfoSnapshot e.2) ->
  small_clusters e'.1 ∧ snapshot_ok (siteCacheInfoSnapshot e'.2).
Proof. induction 1 as [|e e1 e' Hstep _ IH]; [done|]. intros H. by apply IH, (step_snapshot_ok e e1). Qed.

(** C23.  Take any history, on a new scheduler with configured flavors that can be divided by,
    of events of the informer for clusters that count less than 2^53 instances of each flavor,
    turns of the worker that return, rounds of the waiting loop, and reports for sites that the
    scheduler knows, in any order: the snapshot is in the form that scheduling needs (every
    site is stored under its own id, with small flavor counts and resource types that are
    named, and no flavor divides by zero), so the theorems on scheduling apply to it. *)
Theorem cluster_events_make_schedulable_sites (b : bucket) config indexer s (cache : schedulerCache) regions flavors listed
  (Hconfig : divisible config) (Hrun : rtc cluster_step (∅, new_scheduler b config) (indexer, s))
  (Hcache : siteCacheInfos cache = ∅) :
  plain_world (mkWorld (siteCacheInfoSnapshot s) cache regions flavors listed).
Proof.
  destruct (run_snapshot_ok _ _ Hrun) as [_ [Hk _ Hd _]].
  { split; [|by apply new_snapshot_ok]. intros key c. cbn. by rewrite lookup_empty. }
  split; [done|done|]. intros id _. cbn. by rewrite Hcache, lookup_empty.
Qed.

(** ** Handling one event *)

(** The next item of the worker, and the queue without it. *)
Definition next_item s : option work := head (queue (Interface (DelayingInterface (ClusterQueue s)))).

Lemma lister_of_key indexer c : plain_names c -> co_Tenant c = "system"%string -> indexer !! MetaNamespaceKeyFunc c = Some c ->
  lister_Get indexer (ApiTypes.C_Namespace (co_Cluster c)) (ApiTypes.C_Name (co_Cluster c)) = Ok c.
Proof.
  intros (_ & _ & _ & Hne) Ht. unfold MetaNamespaceKeyFunc, lister_Get. rewrite Ht, (proj2 (String.eqb_neq _ _) Hne).
  change (String.eqb "system" "" || String.eqb "system" "system")%string with true. cbn iota. by intros ->.
Qed.

(** The worker's turn on a creation or an update. *)
Lemma worker_installs indexer now s event c :
  plain_names c -> co_Tenant c = "system"%string -> indexer !! MetaNamespaceKeyFunc c = Some c ->
  (event = EventType_Create ∨ event = EventType_Update) -> next_item s = Some (KeyWithEventType event (MetaNamespaceKeyFunc c)) ->
  ∃ q, processNextClusterItem Reserve_Delay indexer now s = Some (Returns (set_queue (set_snapshot s
    (install_site (siteCacheInfoSnapshot s) (co_Cluster c) (if event =? EventType_Create then "Created" else "Updated"))) q, true)).
Proof.
  intros Hnames Ht Hc Hevent Hnext. unfold processNextClusterItem.
  unfold next_item in Hnext. unfold wq_Get. destruct (queue _) as [|x rest]; [done|]. injection Hnext as ->.
  unfold clusterSyncHandler. rewrite split_key by done. unfold updateStaticSiteResourceInfo. rewrite (lister_of_key indexer c) by done.
  assert ((event <? 0) = false ∧ (event =? EventType_Create) || (event =? EventType_Update) = true ∧ (event =? EventType_Delete) = false) as (-> & -> & ->)
    by (by destruct Hevent as [-> | ->]).
  by eexists.
Qed.

(** When the worker takes the creation or the update of a cluster that is in the
    informer's store, it returns and the snapshot has the site of that cluster under its
    region and zone: its location, operator and the capacity of each flavor, with nothing
    requested yet.  The flavors become known for the region.  No other site changes, and
    the call neither panics nor blocks. *)
Theorem cluster_event_installs_site indexer now s event c :
  plain_names c -> co_Tenant c = "system"%string -> indexer !! MetaNamespaceKeyFunc c = Some c ->
  (event = EventType_Create ∨ event = EventType_Update) -> next_item s = Some (KeyWithEventType event (MetaNamespaceKeyFunc c)) ->
  snapshot_ok (siteCacheInfoSnapshot s) ->
  let region := ApiTypes.RI_Region (ApiTypes.C_Region (co_Cluster c)) in
  let site := convertClusterToSite (co_Cluster c) (if event =? EventType_Create then "Created" else "Updated") in
  ∃ s' a, processNextClusterItem Reserve_Delay indexer now s = Some (Returns (s', true)) ∧
    let snap := siteCacheInfoSnapshot s' in
    SiteCacheInfoMap snap !! SiteID site = Some a ∧
    entries snap !! a = Some (mkSiteCacheInfo (Some site) ∅ ∅ ∅ ∅ ∅ (capacities ∅ (ApiTypes.C_Flavors (co_Cluster c))) ∅ [] None ∅ 0) ∧
    RegionFlavorMap snap = region_flavors (FlavorMap snap) region (RegionFlavorMap (siteCacheInfoSnapshot s)) (ApiTypes.C_Flavors (co_Cluster c)) ∧
    forall id b n, id <> SiteID site -> SiteCacheInfoMap (siteCacheInfoSnapshot s) !! id = Some b -> entries (siteCacheInfoSnapshot s) !! b = Some n ->
      SiteCacheInfoMap snap !! id = Some b ∧ entries snap !! b = Some n.
Proof.
  intros Hnames Ht Hc Hevent Hnext Hok region site. destruct (worker_installs indexer now s event c) as [q Hq]; [done..|].
  eexists _, (snap_fresh (siteCacheInfoSnapshot s)). split; [exact Hq|]. cbn zeta.
  cbn [siteCacheInfoSnapshot set_queue set_snapshot]. rewrite install_site_eq. cbn [SiteCacheInfoMap entries RegionFlavorMap FlavorMap].
  split_and!; [apply lookup_insert_eq|apply lookup_insert_eq|done|]. intros id b n Hid Hb Hn. rewrite lookup_insert_ne by done. split; [done|].
  rewrite lookup_insert_ne; [done|]. intros <-. assert (is_Some (entries (siteCacheInfoSnapshot s) !! snap_fresh (siteCacheInfoSnapshot s))) as Hs by by eexists.
  apply (so_fresh _ Hok) in Hs. lia.
Qed.

(** An event of a cluster that has left the informer's store before the worker comes to
    it crashes the scheduler: after the retry is ordered, the status of a nil copy is
    assigned. *)
Theorem vanished_cluster_crashes_worker indexer now s event c :
  plain_names c -> co_Tenant c = "system"%string -> indexer !! MetaNamespaceKeyFunc c = None ->
  (event = EventType_Create ∨ event = EventType_Update) -> next_item s = Some (KeyWithEventType event (MetaNamespaceKeyFunc c)) ->
  (length (waitingForAddCh (DelayingInterface (ClusterQueue s))) < 1000)%nat ->
  processNextClusterItem Reserve_Delay indexer now s = Some Panics.
Proof.
  intros Hnames Ht Hc Hevent Hnext Hroom. unfold processNextClusterItem.
  unfold next_item in Hnext. unfold wq_Get. destruct (queue _) as [|x rest]; [done|]. injection Hnext as ->.
  assert (lister_Get indexer (ApiTypes.C_Namespace (co_Cluster c)) (ApiTypes.C_Name (co_Cluster c)) = Err ("cluster " +:+ ApiTypes.C_Name (co_Cluster c) +:+ " not found")) as Hl.
  { destruct Hnames as (_ & _ & _ & Hne). unfold MetaNamespaceKeyFunc in Hc. unfold lister_Get. rewrite Ht, (proj2 (String.eqb_neq _ _) Hne) in Hc.
    change (String.eqb "system" "" || String.eqb "system" "system")%string with true in Hc. cbn iota in Hc. by rewrite Hc. }
  unfold clusterSyncHandler. rewrite split_key by done. unfold updateStaticSiteResourceInfo. rewrite Hl.
  assert ((event <? 0) = false ∧ (event =? EventType_Create) || (event =? EventType_Update) = true ∧ (event =? EventType_Delete) = false) as (-> & -> & ->)
    by (by destruct Hevent as [-> | ->]).
  unfold retry, AddRateLimited. destruct (maxof_When _ _ _) as [r d]. unfold AddAfter.
  cbn [ClusterQueue set_queue on_interface DelayingInterface waitingForAddCh Interface].
  rewrite (proj2 (Nat.ltb_lt _ _) Hroom). by destruct (ShuttingDown _), (d <=? 0).
Qed.

(** ** An event is handled once *)

Definition is_event (x : work) : Prop := match x with KeyWithEventType _ _ => True | PlainKey _ => False end.

(** The queue holds events only and is consistent. *)
Definition events_only (i : Type_ work) : Prop := wq_ok i ∧ forall x, (x ∈ dirty i ∨ x ∈ processing i) -> is_event x.

(** What happens to the queue keeps that, and what is handed out stays so. *)
Definition keeps (i i' : Type_ work) : Prop := events_only i -> events_only i' ∧ processing i ⊆ processing i'.

Lemma keeps_refl i : keeps i i.
Proof. done. Qed.

Lemma keeps_trans i1 i2 i3 : keeps i1 i2 -> keeps i2 i3 -> keeps i1 i3.
Proof. intros H12 H23 H1. destruct (H12 H1) as [H2 ?]. destruct (H23 H2). split; [done|set_solver]. Qed.

Lemma keeps_Add i x : is_event x -> keeps i (wq_Add i x).
Proof.
  intros Hx [Hok He]. split; [split; [by apply (wq_exec_ok i (OAdd x))|]|].
  - intros y. unfold wq_Add. repeat case_match; cbn [dirty processing]; try apply He; set_unfold; naive_solver.
  - unfold wq_Add. repeat case_match; done.
Qed.

Lemma keeps_Get i : keeps i (wq_Get i).1.
Proof.
  intros [Hok He]. split; [split; [by pose proof (wq_exec_ok i OGet Hok eq_refl) as H; cbn in H; destruct (wq_Get i)|]|].
  - unfold wq_Get. destruct (queue i) as [|x rest] eqn:Hq; [by destruct (shuttingDown i)|]. cbn [fst dirty processing].
    assert (x ∈ dirty i) by (destruct Hok as [_ Hok]; apply (phase_queued i x), Hok; rewrite Hq; constructor).
    intros y Hy. apply He. set_unfold. naive_solver.
  - unfold wq_Get. destruct (queue i); [by destruct (shuttingDown i)|]. cbn [fst processing]. set_solver.
Qed.

(** Marking a key as done instead of the event does nothing. *)
Lemma keeps_Done i key : events_only i -> wq_Done i (PlainKey key) = i.
Proof.
  intros [_ He]. unfold wq_Done. assert ((PlainKey key ∉ dirty i) ∧ (PlainKey key ∉ processing i)) as [Hd Hp].
  { split; intros H; exact (He (PlainKey key) ltac:(auto)). }
  unfold has. rewrite bool_decide_eq_false_2 by done. replace (processing i ∖ {[PlainKey key]}) with (processing i) by set_solver. by destruct i.
Qed.

Lemma keeps_add_ready now heap : Forall (is_event ∘ fst) heap -> forall i known, keeps i (add_ready now i known heap).1.
Proof.
  induction 1 as [|e heap He _ IH]; intros i known; cbn [add_ready]; [apply keeps_refl|]. destruct (_ <? _); [apply keeps_refl|].
  eapply keeps_trans; [by apply (keeps_Add i e.1)|apply IH].
Qed.

Lemma keeps_receive ch : Forall (is_event ∘ fst) ch -> forall clk acc, keeps acc.1 (receive_all clk acc ch).1.
Proof.
  induction 1 as [|e ch He _ IH]; intros clk acc; [apply keeps_refl|].
  change (receive_all clk acc (e :: ch)) with (receive_all (clk ∘ S) (receive_entry (clk 0%nat) acc e) ch).
  eapply keeps_trans; [|apply IH]. unfold receive_entry. destruct (_ <? _); [apply keeps_refl|by apply keeps_Add].
Qed.

Definition known_events (known : gmap work Z) : Prop := forall x r, known !! x = Some r -> is_event x.

Lemma add_ready_known now heap : forall i known, known_events known -> known_events (add_ready now i known heap).2.
Proof.
  induction heap as [|e heap IH]; intros i known Hk; cbn [add_ready]; [done|]. destruct (_ <? _); [done|].
  apply IH. intros x r. rewrite lookup_delete_Some. intros [_ H]. by eapply Hk.
Qed.

Lemma receive_known ch : Forall (is_event ∘ fst) ch -> forall clk acc, known_events acc.2 -> known_events (receive_all clk acc ch).2.
Proof.
  induction 1 as [|e ch He _ IH]; intros clk acc Hk; [done|].
  change (receive_all clk acc (e :: ch)) with (receive_all (clk ∘ S) (receive_entry (clk 0%nat) acc e) ch). apply IH.
  assert (forall r, known_events (<[e.1 := r]> acc.2)) as Hins.
  { intros r x r'. rewrite lookup_insert_Some. intros [[<- _]|[_ H]]; [done|by eapply Hk]. }
  unfold receive_entry. destruct (_ <? _); [|done]. cbn [snd]. unfold insert_entry. destruct (acc.2 !! e.1); [destruct (_ <? _)|]; done.
Qed.

(** The whole queue. *)
Definition queue_ok (q : rateLimitingType work bucket) : Prop :=
  events_only (Interface (DelayingInterface q)) ∧ Forall (is_event ∘ fst) (waitingForAddCh (DelayingInterface q)) ∧
  known_events (waitingEntryByData (DelayingInterface q)).
Definition in_work (q : rateLimitingType work bucket) : gset work := processing (Interface (DelayingInterface q)).
Definition keeps_queue (q q' : rateLimitingType work bucket) : Prop := queue_ok q -> queue_ok q' ∧ in_work q ⊆ in_work q'.

Lemma keeps_queue_trans q1 q2 q3 : keeps_queue q1 q2 -> keeps_queue q2 q3 -> keeps_queue q1 q3.
Proof. intros H12 H23 H1. destruct (H12 H1) as [H2 ?]. destruct (H23 H2). split; [done|set_solver]. Qed.

Lemma keeps_interface g q : (forall i, keeps i (g i)) -> keeps_queue q (on_interface g q).
Proof. intros Hg (Hi & Hc & Hk). destruct (Hg _ Hi). by split. Qed.

Lemma keeps_AddRateLimited now q x q' : is_event x -> AddRateLimited Reserve_Delay now q x = Some q' -> keeps_queue q q'.
Proof.
  intros Hx. unfold AddRateLimited. destruct (maxof_When _ _ _) as [r d]. unfold AddAfter.
  destruct (ShuttingDown _); [by intros [= <-]|]. destruct (d <=? 0).
  - intros [= <-]. intros (Hi & Hc & Hk). destruct (keeps_Add (Interface (DelayingInterface q)) x Hx Hi). by split.
  - destruct (_ <? _)%nat; [|done]. intros [= <-]. intros (Hi & Hc & Hk). split; [|done]. split; [done|]. split; [|done].
    apply Forall_app. split; [done|]. by constructor.
Qed.

Lemma keeps_waiting heap now clk fired q : heap_order heap ->
  keeps_queue q (mkRateLimiting (waiting_step heap now clk fired (DelayingInterface q)) (rateLimiter q)).
Proof.
  intros Hh (Hi & Hc & Hk). unfold queue_ok, in_work, waiting_step. cbn [DelayingInterface]. destruct (ShuttingDown _); [done|].
  assert (Forall (is_event ∘ fst) (heap (waitingEntryByData (DelayingInterface q)))) as Hheap.
  { apply Forall_forall. intros [x r] Hx. rewrite (proj1 (Hh _)) in Hx. apply elem_of_map_to_list in Hx. by eapply Hk. }
  pose proof (keeps_add_ready now _ Hheap (Interface (DelayingInterface q)) (waitingEntryByData (DelayingInterface q)) Hi) as [Hi1 Hp1].
  pose proof (add_ready_known now (heap (waitingEntryByData (DelayingInterface q))) (Interface (DelayingInterface q)) _ Hk) as Hk1.
  destruct (add_ready now _ _ _) as [i1 known1]. cbn [fst snd] in *. destruct fired; [done|].
  pose proof (keeps_receive _ Hc clk (i1, known1) Hi1) as [Hi2 Hp2]. pose proof (receive_known _ Hc clk (i1, known1) Hk1) as Hk2.
  unfold receive_all in *. destruct (foldl _ _ _) as [i2 known2]. cbn [fst snd] in *. split; [by split|]. cbn [Interface]. set_solver.
Qed.

Lemma keeps_retry now s x s' : is_event x -> retry Reserve_Delay now s x = Returns s' -> keeps_queue (ClusterQueue s) (ClusterQueue s').
Proof.
  intros Hx. unfold retry. destruct (AddRateLimited _ _ _ _) as [q|] eqn:Ha; [|done]. intros [= <-]. by eapply keeps_AddRateLimited.
Qed.

Lemma keeps_handler indexer now s event key s' err : clusterSyncHandler Reserve_Delay indexer now s event key = Returns (s', err) ->
  keeps_queue (ClusterQueue s) (ClusterQueue s').
Proof.
  unfold clusterSyncHandler. destruct (event <? 0); [by intros [= <- _]|].
  destruct (SplitMetaNamespaceKey key) as [[ns name] ?]. destruct (updateStaticSiteResourceInfo _ _ _ _ _ _) as [s1 r] eqn:Hu.
  assert (ClusterQueue s1 = ClusterQueue s) as <-.
  { unfold updateStaticSiteResourceInfo in Hu. repeat case_match; by simplify_eq. }
  destruct r; [|destruct (retry _ _ _ _) as [s2| |] eqn:Hr; [|done|done]; apply keeps_retry in Hr; [|done]];
    destruct (event =? EventType_Delete); [|destruct (lister_Get _ _ _); [|done]| |destruct (lister_Get _ _ _); [|done]]; by intros [= <- _].
Qed.

Lemma process_keeps indexer now s s' b : processNextClusterItem Reserve_Delay indexer now s = Some (Returns (s', b)) -> queue_ok (ClusterQueue s) ->
  queue_ok (ClusterQueue s') ∧ in_work (ClusterQueue s) ⊆ in_work (ClusterQueue s') ∧ forall x, next_item s = Some x -> x ∈ in_work (ClusterQueue s').
Proof.
  intros Hp Hq. unfold processNextClusterItem in Hp. pose proof (keeps_Get (Interface (DelayingInterface (ClusterQueue s)))) as Hget.
  assert (forall x, next_item s = Some x -> x ∈ processing (wq_Get (Interface (DelayingInterface (ClusterQueue s)))).1) as Hnext.
  { unfold next_item, wq_Get. intros x. destruct (queue _); [done|]. intros [= ->]. cbn [fst processing]. set_solver. }
  destruct (wq_Get _) as [i g]. cbn [fst] in *. destruct Hq as (Hi & Hc & Hk). destruct (Hget Hi) as [Hi1 Hp1].
  set (s1 := set_queue s _) in Hp. assert (queue_ok (ClusterQueue s1)) as Hq1 by done.
  destruct g as [[event key|key]| |]; [|done|injection Hp as <- _; done|done].
  destruct (clusterSyncHandler _ _ _ _ _ _) as [[s2 err]| |] eqn:Hh; [|done|done]. destruct (keeps_handler _ _ _ _ _ _ _ Hh Hq1) as [Hq2 Hp2].
  assert (∃ s3, queue_ok (ClusterQueue s3) ∧ in_work (ClusterQueue s2) ⊆ in_work (ClusterQueue s3) ∧
    s' = set_queue s3 (on_interface (fun q => wq_Done q (PlainKey key)) (rl_Forget (ClusterQueue s3) (PlainKey key)))) as (s3 & Hq3 & Hp3 & ->).
  { destruct err as [e|]; [|injection Hp as <- _; by exists s2]. destruct (retry _ _ _ _) as [s3| |] eqn:Hr; [|done|done].
    injection Hp as <- _. apply keeps_retry in Hr; [|done]. exists s3. destruct (Hr Hq2). done. }
  assert (Interface (DelayingInterface (ClusterQueue (set_queue s3 (on_interface (fun q => wq_Done q (PlainKey key)) (rl_Forget (ClusterQueue s3) (PlainKey key))))))
    = Interface (DelayingInterface (ClusterQueue s3))) as Hsame by (cbn; apply keeps_Done; apply Hq3).
  unfold queue_ok, in_work in *. rewrite Hsame. split; [done|]. change (Interface (DelayingInterface (ClusterQueue s1))) with i in *. split; [set_solver|].
  intros x Hx%Hnext. set_solver.
Qed.

Lemma keeps_Enqueue s key event : keeps_queue (ClusterQueue s) (ClusterQueue (Enqueue s key event)).
Proof. apply keeps_interface. intros i. by apply keeps_Add. Qed.

Lemma step_keeps e e' : cluster_step e e' -> keeps_queue (ClusterQueue e.2) (ClusterQueue e'.2).
Proof.
  intros [indexer s c Hc|indexer s old new Ho Hkey Hc|indexer s c Hc|indexer s now s' b Hp|indexer s heap now clk fired Hh|indexer s region resource Hr]; cbn [snd].
  - apply keeps_Enqueue.
  - unfold updateCluster. destruct (_ || _); [done|]. destruct (determineEventType old new) as [[]|]; [apply keeps_Enqueue|done|done].
  - unfold deleteCluster. destruct (verifyClusterInfo _); [apply keeps_Enqueue|done].
  - intros Hq. by destruct (process_keeps _ _ _ _ _ Hp Hq) as (? & ? & _).
  - by apply keeps_waiting.
  - done.
Qed.

Lemma run_keeps e e' : rtc cluster_step e e' -> keeps_queue (ClusterQueue e.2) (ClusterQueue e'.2).
Proof. induction 1 as [|e e1 e' Hstep _ IH]; [done|]. eapply keeps_queue_trans; [by apply step_keeps|done]. Qed.

Lemma new_queue_ok b config : queue_ok (ClusterQueue (new_scheduler b config)).
Proof.
  split; [|split; [constructor|by intros x r; cbn; rewrite lookup_empty]]. split; [apply newQueue_ok|]. cbn. set_solver.
Qed.

(** A new scheduler handles each event of a cluster at most once: when the worker has
    taken it, the same event never comes to the head of the queue again, however often
    the informer or a retry adds it and whatever else happens, because the worker marks
    the key as done and not the event.  A second update of a cluster is never applied,
    and a failed event is never retried. *)
Theorem cluster_event_is_handled_once (b : bucket) config indexer s x now s' r indexer'' s''
  (Hrun : rtc cluster_step (∅, new_scheduler b config) (indexer, s)) (Hnext : next_item s = Some x)
  (Hwork : processNextClusterItem Reserve_Delay indexer now s = Some (Returns (s', r)))
  (Hlater : rtc cluster_step (indexer, s') (indexer'', s'')) :
  (x ∉ queue (Interface (DelayingInterface (ClusterQueue s'')))) ∧ next_item s'' <> Some x.
Proof.
  destruct (run_keeps _ _ Hrun (new_queue_ok b config)) as [Hq _]. destruct (process_keeps _ _ _ _ _ Hwork Hq) as (Hq' & _ & Hx).
  destruct (run_keeps _ _ Hlater Hq') as [[[[_ Hok] _] _] Hsub]. cbn [snd] in *. specialize (Hx x Hnext).
  assert (x ∉ queue (Interface (DelayingInterface (ClusterQueue s'')))) as Hout.
  { rewrite Hok, phase_queued. intros [_ Hp]. apply Hp. by apply Hsub. }
  split; [done|]. unfold next_item. intros Hhead. apply Hout. destruct (queue _); [done|]. injection Hhead as ->. constructor.
Qed.

(** A deleted cluster keeps its site: the informer has removed it from the store when
    the worker handles the deletion, so the worker finds no cluster and leaves the
    snapshot as it is; it reports success.  By the previous theorem the deletion is not
    tried again. *)
Theorem deleted_cluster_keeps_its_site indexer now s c :
  plain_names c -> co_Tenant c = "system"%string -> verifyClusterInfo (co_Cluster c) = true ->
  let s1 := deleteCluster s c in
  next_item s1 = Some (KeyWithEventType EventType_Delete (MetaNamespaceKeyFunc c)) ->
  (length (waitingForAddCh (DelayingInterface (ClusterQueue s))) < 1000)%nat ->
  ∃ s', processNextClusterItem Reserve_Delay (delete (MetaNamespaceKeyFunc c) indexer) now s1 = Some (Returns (s', true)) ∧
    siteCacheInfoSnapshot s' = siteCacheInfoSnapshot s ∧ is_Some (deletedClusters s' !! MetaNamespaceKeyFunc c).
Proof.
  intros Hnames Ht Hv s1 Hnext Hroom. assert (deletedClusters s1 !! MetaNamespaceKeyFunc c <> None ∧ siteCacheInfoSnapshot s1 = siteCacheInfoSnapshot s ∧
    waitingForAddCh (DelayingInterface (ClusterQueue s1)) = waitingForAddCh (DelayingInterface (ClusterQueue s))) as (Hdel & Hsnap & Hch).
  { unfold s1, deleteCluster. rewrite Hv. cbn [deletedClusters siteCacheInfoSnapshot]. by rewrite lookup_insert_eq. }
  clearbody s1. rewrite <- Hsnap, <- Hch in *. unfold processNextClusterItem. unfold next_item in Hnext. unfold wq_Get.
  destruct (queue _) as [|x rest]; [done|]. injection Hnext as ->. unfold clusterSyncHandler. rewrite split_key by done.
  assert (∃ e, lister_Get (delete (MetaNamespaceKeyFunc c) indexer) (ApiTypes.C_Namespace (co_Cluster c)) (ApiTypes.C_Name (co_Cluster c)) = Err e) as [e Hl].
  { destruct Hnames as (_ & _ & _ & Hne). unfold lister_Get, MetaNamespaceKeyFunc. rewrite Ht, (proj2 (String.eqb_neq _ _) Hne).
    change (String.eqb "system" "" || String.eqb "system" "system")%string with true. cbn iota. rewrite lookup_delete_eq. by eexists. }
  unfold updateStaticSiteResourceInfo. rewrite Hl. change (EventType_Delete <? 0) with false. cbn [EventType_Delete EventType_Create EventType_Update Z.eqb Pos.eqb orb].
  unfold retry, AddRateLimited. destruct (maxof_When _ _ _) as [r d]. unfold AddAfter.
  cbn [ClusterQueue set_queue on_interface DelayingInterface waitingForAddCh Interface]. rewrite (proj2 (Nat.ltb_lt _ _) Hroom).
  apply not_eq_None_Some in Hdel. destruct (ShuttingDown _), (d <=? 0); eexists; split; done.
Qed.

End Steps.

(** ** A run *)

Definition demo_config : gmap string RegionFlavor := {["f1"%string := demo_typed_flavor "f1"]}.
Definition demo_bucket (b : unit) : unit * Z := (b, 0).
Definition demo_cluster : ClusterObject :=
  mkClusterObject (ApiTypes.mkCluster "c1" "ns" "10.0.0.1" (ApiTypes.mkGeolocation "city" "province" "area" "country") (ApiTypes.mkRegionInfo "r1" "az1")
    (ApiTypes.mkOperatorInfo "globalscheduler") [ApiTypes.mkFlavorInfo "f1" 100] [] 10 100 1000 1 "" "") "system" "".

Definition demo_new : Scheduler unit := new_scheduler tt demo_config.
Definition demo_store : gmap string ClusterObject := <[MetaNamespaceKeyFunc demo_cluster := demo_cluster]> ∅.
Definition demo_added : Scheduler unit := addCluster demo_new demo_cluster.
Definition demo_worked : Scheduler unit :=
  match processNextClusterItem demo_bucket demo_store 0 demo_added with Some (Returns (s, _)) => s | _ => demo_added end.

Lemma demo_config_divisible : divisible demo_config.
Proof. intros key flv v Hk Hv. unfold demo_config in Hk. apply lookup_singleton_Some in Hk as [_ <-]. vm_compute in Hv. by injection Hv as <-. Qed.

Lemma demo_work : processNextClusterItem demo_bucket demo_store 0 demo_added = Some (Returns (demo_worked, true)).
Proof. vm_compute. reflexivity. Qed.

Lemma demo_run : rtc (cluster_step demo_bucket) (∅, demo_new) (demo_store, demo_added).
Proof. apply rtc_once. apply step_add. repeat constructor. Qed.

Lemma demo_run_worked : rtc (cluster_step demo_bucket) (∅, demo_new) (demo_store, demo_worked).
Proof. eapply rtc_r; [exact demo_run|]. eapply step_work. exact demo_work. Qed.

Lemma demo_names : plain_names demo_cluster.
Proof. split_and!; done. Qed.

Lemma cluster_events_make_schedulable_sites_witness :
  plain_world (mkWorld (siteCacheInfoSnapshot demo_worked) (newSchedulerCache 0) ∅ ∅ []) ∧
  is_Some (SiteCacheInfoMap (siteCacheInfoSnapshot demo_worked) !! "r1--az1"%string).
Proof.
  split; [|vm_compute; by eexists].
  exact (cluster_events_make_schedulable_sites demo_bucket tt demo_config demo_store demo_worked (newSchedulerCache 0) ∅ ∅ []
    demo_config_divisible demo_run_worked eq_refl).
Defined.

Lemma cluster_event_installs_site_witness : ∃ s' a,
  processNextClusterItem demo_bucket demo_store 5 demo_added = Some (Returns (s', true)) ∧
  SiteCacheInfoMap (siteCacheInfoSnapshot s') !! "r1--az1"%string = Some a ∧
  AllocatableFlavor <$> entries (siteCacheInfoSnapshot s') !! a = Some {["f1"%string := 100]}.
Proof.
  destruct (cluster_event_installs_site demo_bucket demo_store 5 demo_added EventType_Create demo_cluster demo_names eq_refl
    (lookup_insert_eq _ _ _) (or_introl eq_refl) eq_refl (new_snapshot_ok tt demo_config demo_config_divisible)) as (s' & a & Hp & Hm & He & _).
  exists s', a. split; [exact Hp|]. split; [exact Hm|]. rewrite He. vm_compute. reflexivity.
Defined.

Lemma vanished_cluster_crashes_worker_witness : processNextClusterItem demo_bucket ∅ 5 demo_added = Some Panics.
Proof.
  exact (vanished_cluster_crashes_worker demo_bucket ∅ 5 demo_added EventType_Create demo_cluster demo_names eq_refl
    (lookup_empty _) (or_introl eq_refl) eq_refl ltac:(vm_compute; lia)).
Defined.

Lemma cluster_event_is_handled_once_witness :
  next_item (addCluster demo_worked demo_cluster) <> next_item demo_added ∧ is_Some (next_item demo_added).
Proof.
  split; [|vm_compute; by eexists].
  refine (proj2 (cluster_event_is_handled_once demo_bucket tt demo_config demo_store demo_added (KeyWithEventType EventType_Create "ns/c1") 0 demo_worked true
    (<[MetaNamespaceKeyFunc demo_cluster := demo_cluster]> demo_store) (addCluster demo_worked demo_cluster) demo_run eq_refl demo_work _)).
  apply rtc_once, step_add. repeat constructor.
Defined.

Lemma deleted_cluster_keeps_its_site_witness : ∃ s',
  processNextClusterItem demo_bucket (delete (MetaNamespaceKeyFunc demo_cluster) demo_store) 9 (deleteCluster demo_worked demo_cluster) = Some (Returns (s', true)) ∧
  is_Some (SiteCacheInfoMap (siteCacheInfoSnapshot s') !! "r1--az1"%string).
Proof.
  destruct (deleted_cluster_keeps_its_site demo_bucket demo_store 9 demo_worked demo_cluster demo_names eq_refl eq_refl eq_refl ltac:(vm_compute; lia))
    as (s' & Hp & Hs & _).
  exists s'. split; [exact Hp|]. rewrite Hs. vm_compute. by eexists.
Defined.
