(* ===== verification/CollectorProofs.v ===== *)
(** * From the clusters to the capacity that the scheduler sees

    Theorems about [Collector] and [ClusterController] with the scheduler's [ClusterEvents]:
    the creation of a cluster reaches the collector's cache, and a report brings the
    scheduler's capacities in line with the cache.  The last theorems state what goes
    wrong: deleting one cluster stops the reports for its whole region, and a cluster that
    is updated loses its capacity. *)
From S2P Require Import Prelude Types Strconv SiteTree SiteCacheInfo Cache Framework FlavorProofs Floats WorkQueue Plugins Binder ClusterEvents.
From S2P Require Import FilterProofs ReserveProofs ScheduleProofs ClusterProofs Collector ClusterController.
From S2P Require ApiTypes.

Local Open Scope Z_scope.

(** ** What a scheduler knows of a zone *)

Definition site_id (region az : string) : string := region +:+ SiteDelimiter +:+ az.

(** The collected processors and memory of a site. *)
Definition total_at (s : Snapshot) (id : string) : option CPUAndMemory :=
  a ← SiteCacheInfoMap s !! id; n ← entries s !! a; TotalResources n !! DefaultResourceType.

(** What reports make of such knowledge. *)
Definition totals : Type := string -> option CPUAndMemory.
Definition tell_zone (region : string) (T : totals) (z : AzCpuMem) : totals :=
  fun id => if decide (id = site_id region (AZ z)) then Some (mkCPUAndMemory (CpuCapacity z) (MemCapacity z)) else T id.
Definition tell (T : totals) (r : RegionResource) : totals := foldl (tell_zone (RegionName r)) T (CPUMemResources (RR_Resource r)).

Lemma report_zone_total region volumes s z id : snapshot_ok s -> is_Some (SiteCacheInfoMap s !! site_id region (AZ z)) ->
  total_at (report_zone region volumes s z) id = tell_zone region (total_at s) z id.
Proof.
  intros [Hk _ _ _] [b Hb]. unfold report_zone, total_at, tell_zone. unfold site_id in *. rewrite Hb. cbn [SiteCacheInfoMap entries set_entries].
  destruct (Hk _ b Hb) as (n & site & Hn & _ & Hid & _). case_decide as E.
  - subst id. rewrite Hb. bind_simpl. rewrite lookup_alter_eq, Hn. cbn [fmap option_fmap option_map mbind option_bind set_totals TotalResources].
    by rewrite lookup_insert_eq.
  - destruct (SiteCacheInfoMap s !! id) as [a|] eqn:Ha; [|done]. bind_simpl. rewrite lookup_alter_ne; [done|]. intros ->.
    destruct (Hk id a Ha) as (n' & site' & Hn' & Hs' & Hid' & _). destruct (Hk _ a Hb) as (n2 & site2 & Hn2 & Hs2 & Hid2 & _). congruence.
Qed.

Definition known_zones (s : Snapshot) (region : string) (zones : list AzCpuMem) : Prop :=
  Forall (fun z => is_Some (SiteCacheInfoMap s !! site_id region (AZ z))) zones.

Lemma report_zones region volumes zones : forall s T, snapshot_ok s -> known_zones s region zones -> (forall id, total_at s id = T id) ->
  let s' := foldl (report_zone region volumes) s zones in
  snapshot_ok s' ∧ SiteCacheInfoMap s' = SiteCacheInfoMap s ∧ forall id, total_at s' id = foldl (tell_zone region) T zones id.
Proof.
  induction zones as [|z zones IH]; intros s T Hs Hz HT; [done|]. apply Forall_cons in Hz as [Hz Hzs]. cbn [foldl].
  destruct (report_zone_ok region volumes s z Hs Hz) as [Hs' Hm].
  destruct (IH (report_zone region volumes s z) (tell_zone region T z)) as (H1 & H2 & H3); [done| | |].
  - apply (Forall_impl _ _ _ Hzs). intros z'. by rewrite Hm.
  - intros id. rewrite report_zone_total by done. unfold tell_zone. by rewrite HT.
  - split; [done|]. split; [congruence|done].
Qed.

(** The request that the collector sends, at a scheduler that receives it. *)
Definition receive (s : Snapshot) (endpoint : string) (resources : list RegionResource) : option Snapshot := (PushRegionResources (Some resources) (Some s)).1.

Lemma receive_total resources : forall s T endpoint, snapshot_ok s -> Forall (fun r => known_zones s (RegionName r) (CPUMemResources (RR_Resource r))) resources ->
  (forall id, total_at s id = T id) ->
  ∃ s', receive s endpoint resources = Some s' ∧ snapshot_ok s' ∧ SiteCacheInfoMap s' = SiteCacheInfoMap s ∧ forall id, total_at s' id = foldl tell T resources id.
Proof.
  induction resources as [|r resources IH]; intros s T endpoint Hs Hk HT; [by exists s|]. apply Forall_cons in Hk as [Hr Hrs].
  destruct (report_zones (RegionName r) (VolumeResources (RR_Resource r)) (CPUMemResources (RR_Resource r)) s T Hs Hr HT) as (H1 & H2 & H3).
  destruct (IH (UpdateSiteDynamicResource s (RegionName r) (RR_Resource r)) (tell T r) endpoint) as (s' & E & Hs' & Hm & Ht); [done| |done|].
  - apply (Forall_impl _ _ _ Hrs). intros r'. unfold known_zones, UpdateSiteDynamicResource. by rewrite H2.
  - exists s'. split; [exact E|]. split; [done|]. split; [|done]. rewrite Hm. exact H2.
Qed.

(** ** What the collector knows of a zone *)

Definition zone_of (r : RegionResourceCache) (region az : string) : option CpuAndMemResource := st ← r !! region; CpuAndMemResources st !! az.

Definition nothing : CpuAndMemResource := mkCpuAndMem 0 0.

(** The knowledge of the scheduler is that of the collector, where it has any. *)
Definition agree (r : RegionResourceCache) (T : totals) : Prop :=
  forall region az c, zone_of r region az = Some c -> c <> nothing -> T (site_id region az) = Some (mkCPUAndMemory (TotalVCPUs c) (TotalMem c)).

(** Regions are stored under their names, and no two zones make the same site. *)
Definition named (r : RegionResourceCache) : Prop := forall region st, r !! region = Some st -> rs_RegionName st = region.
Definition distinct_sites (r : RegionResourceCache) : Prop := forall r1 a1 r2 a2,
  is_Some (zone_of r r1 a1) -> is_Some (zone_of r r2 a2) -> site_id r1 a1 = site_id r2 a2 -> r1 = r2 ∧ a1 = a2.

(** Only the values change. *)
Definition evolves (r r' : RegionResourceCache) : Prop := forall region,
  match r !! region, r' !! region with
  | Some st, Some st' => rs_RegionName st' = rs_RegionName st ∧ EipNetworkID st' = EipNetworkID st ∧ HostAzMap st' = HostAzMap st ∧
      forall az, is_Some (CpuAndMemResources st' !! az) <-> is_Some (CpuAndMemResources st !! az)
  | None, None => True
  | _, _ => False
  end.

#[export] Instance evolves_preorder : PreOrder evolves.
Proof.
  split.
  - intros r region. by destruct (r !! region).
  - intros r1 r2 r3 H12 H23 region. specialize (H12 region). specialize (H23 region).
    destruct (r1 !! region), (r2 !! region), (r3 !! region); try done. destruct H12 as (? & ? & ? & Hz1), H23 as (? & ? & ? & Hz2).
    split_and!; try congruence. intros az. by rewrite Hz2, Hz1.
Qed.

Lemma evolves_zone r r' region az : evolves r r' -> is_Some (zone_of r' region az) <-> is_Some (zone_of r region az).
Proof.
  intros H. specialize (H region). unfold zone_of. destruct (r !! region), (r' !! region); try done. bind_simpl. apply H.
Qed.

Lemma evolves_region r r' region st : evolves r r' -> r !! region = Some st ->
  ∃ st', r' !! region = Some st' ∧ EipNetworkID st' = EipNetworkID st ∧ HostAzMap st' = HostAzMap st.
Proof. intros H Hst. specialize (H region). rewrite Hst in H. destruct (r' !! region) as [st'|]; [|done]. exists st'. naive_solver. Qed.

Lemma evolves_named r r' : evolves r r' -> named r -> named r'.
Proof.
  intros H Hn region st' Hst'. specialize (H region). rewrite Hst' in H. destruct (r !! region) as [st|] eqn:E; [|done].
  destruct H as (-> & _). by apply Hn.
Qed.

Lemma evolves_distinct r r' : evolves r r' -> distinct_sites r -> distinct_sites r'.
Proof. intros H Hd r1 a1 r2 a2. rewrite !(evolves_zone r r') by done. apply Hd. Qed.

(** Updating a zone. *)
Lemma update_cpu r region az new : let res := UpdateCpuAndMemResource r region az new in
  evolves r res.1 ∧
  (forall region' az', zone_of res.1 region' az' =
     if decide (region' = region ∧ az' = az ∧ is_Some (zone_of r region az)) then Some new else zone_of r region' az') ∧
  (res.2 = true -> is_Some (zone_of r region az)) ∧ (res.2 = false -> zone_of r region az = None ∨ zone_of r region az = Some new).
Proof.
  unfold UpdateCpuAndMemResource. cbv zeta. destruct (r !! region) as [st|] eqn:Hst.
  2:{ assert (zone_of r region az = None) as Hz by (unfold zone_of; by rewrite Hst). split_and!; [done| |done|by left].
      intros region' az'. rewrite decide_False; [done|]. intros (_ & _ & [? ?]). congruence. }
  assert (zone_of r region az = CpuAndMemResources st !! az) as Hz by (unfold zone_of; by rewrite Hst).
  destruct (CpuAndMemResources st !! az) as [old|] eqn:Hold.
  2:{ split_and!; [done| |done|by left]. intros region' az'. rewrite decide_False; [done|]. intros (_ & _ & [? ?]). congruence. }
  rewrite Hz. destruct (decide (old = new)) as [->|Hne]; cbn [fst snd].
  { split_and!; [done| |done|by right]. intros region' az'. case_decide as E; [|done]. destruct E as (-> & -> & _). done. }
  split_and!; [| |by intros _; eexists|done].
  - intros region'. destruct (decide (region' = region)) as [->|Hr]; [|rewrite lookup_insert_ne by done; by destruct (r !! region')].
    rewrite lookup_insert_eq, Hst. cbn. split_and!; try done. intros az'. destruct (decide (az' = az)) as [->|Ha].
    + rewrite lookup_insert_eq, Hold. split; by eexists.
    + by rewrite lookup_insert_ne.
  - intros region' az'. unfold zone_of. destruct (decide (region' = region)) as [->|Hr].
    + rewrite lookup_insert_eq, Hst. cbn. destruct (decide (az' = az)) as [->|Ha].
      * rewrite lookup_insert_eq, decide_True; [done|]. split_and!; [done|done|by eexists].
      * rewrite lookup_insert_ne by done. by rewrite decide_False by naive_solver.
    + rewrite lookup_insert_ne by done. by rewrite decide_False by naive_solver.
Qed.

(** A value and its report. *)
Lemma tell_agree r r' T region az new : agree r T -> distinct_sites r -> is_Some (zone_of r region az) ->
  (forall region' az', zone_of r' region' az' = if decide (region' = region ∧ az' = az) then Some new else zone_of r region' az') ->
  agree r' (tell_zone region T (mkAzCpuMem az (TotalVCPUs new) (TotalMem new))).
Proof.
  intros Ha Hd Hz Hz' region' az' c Hc Hne. unfold tell_zone. cbn [AZ CpuCapacity MemCapacity]. rewrite Hz' in Hc. case_decide as E.
  - destruct E as [-> ->]. rewrite decide_True by done. by simplify_eq.
  - rewrite decide_False; [by apply Ha|]. intros Hid. apply E, (Hd region' az' region az); [by eexists|done..].
Qed.

Section Sync.
Context (range : forall A : Type, gmap string A -> list (string * A)).
Hypothesis Hrange : forall A (m : gmap string A), range A m ≡ₚ map_to_list m.

(** The loops over the zones of a region keep the agreement; what they report is known. *)
Definition reporting (r0 : RegionResourceCache) (region : string) (T : totals) (acc : CpuReport) : Prop :=
  evolves r0 acc.1 ∧ agree acc.1 (foldl (tell_zone region) T acc.2) ∧ Forall (fun z => is_Some (zone_of r0 region (AZ z))) acc.2.

Lemma reporting_more r0 region T acc az new : distinct_sites r0 -> reporting r0 region T acc -> is_Some (zone_of acc.1 region az) ->
  reporting r0 region T ((UpdateCpuAndMemResource acc.1 region az new).1, acc.2 ++ [mkAzCpuMem az (TotalVCPUs new) (TotalMem new)]).
Proof.
  intros Hd (He & Ha & Hk) Hz. destruct (update_cpu acc.1 region az new) as (He' & Hz' & _). split_and!; cbn [fst snd].
  - by etrans.
  - rewrite foldl_app. apply (tell_agree acc.1); [done|by eapply evolves_distinct|done|]. intros region' az'. rewrite Hz'.
    destruct (decide (region' = region ∧ az' = az)) as [[-> ->]|E]; [by rewrite decide_True|]. rewrite decide_False by tauto. done.
  - apply Forall_app. split; [done|]. constructor; [|done]. cbn [AZ]. by apply (evolves_zone r0 acc.1).
Qed.

Lemma report_cpu_ok r0 region T l : distinct_sites r0 -> forall acc, reporting r0 region T acc -> reporting r0 region T (foldl (report_cpu region) acc l).
Proof.
  intros Hd. induction l as [|[az cmr] l IH]; intros acc H; [done|]. cbn [foldl]. apply IH. unfold report_cpu.
  pose proof (reporting_more r0 region T acc az cmr Hd H) as Hm. destruct (update_cpu acc.1 region az cmr) as (He & Hz & Ht & Hf).
  destruct (UpdateCpuAndMemResource acc.1 region az cmr) as [r' []] eqn:E; cbn [fst snd] in *; [by apply Hm, Ht|].
  destruct H as (He0 & Ha & Hk). split_and!; cbn [fst snd]; [by etrans| |done]. intros region' az' c Hc Hne. rewrite Hz in Hc.
  case_decide as Hdec; [|by apply Ha]. destruct Hdec as (-> & -> & Hs). simplify_eq. apply Ha; [|done].
  destruct (Hf eq_refl) as [Hn|Hn]; [by rewrite Hn in Hs; destruct Hs|done].
Qed.

Lemma report_default_ok r0 region T l : distinct_sites r0 -> forall acc, reporting r0 region T acc ->
  Forall (fun e => is_Some (zone_of r0 region e.1)) l -> reporting r0 region T (foldl (report_default region) acc l).
Proof.
  intros Hd. induction l as [|[az cmd] l IH]; intros acc H Hl; [done|]. apply Forall_cons in Hl as [Haz Hl]. cbn [foldl]. apply IH; [|done].
  unfold report_default. destruct (_ && _); [|done]. apply reporting_more; [done..|]. destruct H as (He & _). by apply (evolves_zone r0 acc.1).
Qed.

Lemma cpu_report_ok cloud r region info T : distinct_sites r -> agree r T -> r !! region = Some info ->
  reporting r region T (getRegionCpuAndMemResources range cloud r region info).
Proof.
  intros Hd Ha Hst. unfold getRegionCpuAndMemResources. assert (reporting r region T (r, [])) as H0 by (split_and!; done).
  destruct (hypervisors cloud (EipNetworkID info)) as [hs|]; [|done].
  set (acc := if Nat.ltb 0 _ then _ else _). assert (reporting r region T acc) as Hacc.
  { unfold acc. destruct (Nat.ltb 0 _); [by apply report_cpu_ok|done]. }
  apply report_default_ok; [done..|]. destruct Hacc as (He & _). apply Forall_forall. intros [az cmd] Hin. rewrite Hrange in Hin.
  apply elem_of_map_to_list in Hin. apply (evolves_zone r acc.1); [done|]. cbn [fst]. unfold zone_of. destruct (acc.1 !! region); [|done]. by eexists.
Qed.

(** The volumes are kept apart from the zones. *)
Lemma volumes_ok cloud r region info : let res := getRegionVolumeResources cloud r region info in
  evolves r res.1 ∧ forall region' az, zone_of res.1 region' az = zone_of r region' az.
Proof.
  cbv zeta. unfold getRegionVolumeResources. set (found := if Nat.eqb _ 0 then _ else _). destruct found as [volumes|]; [|done].
  unfold UpdateVolumeResource. destruct (r !! region) as [st|] eqn:Hst; [|done]. destruct (volumes_equal _ _); [done|]. cbn [fst]. split.
  - intros region'. destruct (decide (region' = region)) as [->|Hr]; [by rewrite lookup_insert_eq, Hst|].
    rewrite lookup_insert_ne by done. by destruct (r !! region').
  - intros region' az. unfold zone_of. destruct (decide (region' = region)) as [->|Hr]; [by rewrite lookup_insert_eq, Hst|by rewrite lookup_insert_ne].
Qed.

(** The rounds over the regions. *)
Definition collecting (r0 : RegionResourceCache) (T : totals) (acc : RegionResourceCache * list RegionResource) : Prop :=
  evolves r0 acc.1 ∧ agree acc.1 (foldl tell T acc.2) ∧
  Forall (fun r => Forall (fun z => is_Some (zone_of r0 (RegionName r) (AZ z))) (CPUMemResources (RR_Resource r))) acc.2.

Lemma sync_region_ok cloud r0 T acc region : named r0 -> distinct_sites r0 -> collecting r0 T acc -> collecting r0 T (sync_region range cloud acc region).
Proof.
  intros Hn Hd (He & Ha & Hk). unfold sync_region. destruct (acc.1 !! region) as [info|] eqn:Hst; [|done].
  destruct (NewClientSet cloud _); [|done]. rewrite (evolves_named _ _ He Hn region info Hst).
  assert (distinct_sites acc.1) as Hd' by (by eapply evolves_distinct).
  destruct (cpu_report_ok cloud acc.1 region info (foldl tell T acc.2) Hd' Ha Hst) as (He1 & Ha1 & Hk1).
  destruct (getRegionCpuAndMemResources range cloud acc.1 region info) as [r1 zones]. cbn [fst snd] in *.
  destruct (volumes_ok cloud r1 region info) as (He2 & Hz2). destruct (getRegionVolumeResources cloud r1 region info) as [r2 volumes]. cbn [fst snd] in *.
  assert (evolves r0 r2) as He' by (etrans; [done|]; by etrans).
  assert (forall region' az c, zone_of r2 region' az = Some c -> c <> nothing ->
    foldl (tell_zone region) (foldl tell T acc.2) zones (site_id region' az) = Some (mkCPUAndMemory (TotalVCPUs c) (TotalMem c))) as Ha2.
  { intros region' az c. rewrite Hz2. apply Ha1. }
  destruct (_ || _) eqn:Ene; (split_and!; cbn [fst snd]; [done| |]).
  - intros region' az c Hc Hne. rewrite foldl_app. by apply Ha2.
  - apply Forall_app. split; [done|]. constructor; [|done]. cbn [RegionName RR_Resource CPUMemResources].
    apply (Forall_impl _ _ _ Hk1). intros z. by rewrite (evolves_zone r0 acc.1).
  - apply orb_false_iff in Ene as [Ez _]. destruct zones; [|done]. exact Ha2.
  - done.
Qed.

Lemma collect_ok cloud r T : named r -> distinct_sites r -> agree r T -> collecting r T (collect range cloud r).
Proof.
  intros Hn Hd Ha. unfold collect. assert (collecting r T (r, [])) as H by (split_and!; done). revert H.
  generalize (r, @nil RegionResource). generalize ((range RegionState r).*1). intros l. induction l as [|region l IH]; intros acc H; [done|].
  cbn [foldl]. by apply IH, sync_region_ok.
Qed.
(** A zone of a region whose cloud answers has resources afterwards. *)
Definition filled (r : RegionResourceCache) (region : string) : Prop := forall az c, zone_of r region az = Some c -> c <> nothing.

Definition answers (cloud : Cloud) (st : RegionState) : Prop :=
  NewClientSet cloud (EipNetworkID st) = true ∧ is_ok (hypervisors cloud (EipNetworkID st)) = true.

Lemma report_default_fills region l : forall acc, NoDup l.*1 -> (forall az cmd, (az, cmd) ∈ l -> zone_of acc.1 region az = Some cmd) ->
  let r' := (foldl (report_default region) acc l).1 in
  (forall az cmd, (az, cmd) ∈ l -> ∃ c, zone_of r' region az = Some c ∧ c <> nothing) ∧
  (forall region' az, region' <> region ∨ az ∉ l.*1 -> zone_of r' region' az = zone_of acc.1 region' az).
Proof.
  induction l as [|[az cmd] l IH]; intros acc Hnd Hl; cbv zeta; cbn [foldl].
  - split; [by intros az cmd ?%elem_of_nil|done].
  - cbn [fmap list_fmap fst] in Hnd. apply NoDup_cons in Hnd as [Haz Hnd].
    assert (forall region' az', region' <> region ∨ az' <> az -> zone_of (report_default region acc (az, cmd)).1 region' az' = zone_of acc.1 region' az') as Hother.
    { intros region' az' Hne. unfold report_default. destruct (_ && _); [|done]. cbn [fst].
      destruct (update_cpu acc.1 region az defaultCmd) as (_ & Hz & _). rewrite Hz, decide_False; [done|]. naive_solver. }
    assert (∃ c, zone_of (report_default region acc (az, cmd)).1 region az = Some c ∧ c <> nothing) as (c & Hc & Hne).
    { assert (zone_of acc.1 region az = Some cmd) as Hcmd by (apply Hl; by left). unfold report_default. destruct (_ && _) eqn:E; cbn [fst].
      - destruct (update_cpu acc.1 region az defaultCmd) as (_ & Hz & _). exists defaultCmd. rewrite Hz, decide_True; [done|]. by rewrite Hcmd.
      - exists cmd. split; [done|]. intros ->. done. }
    destruct (IH (report_default region acc (az, cmd)) Hnd) as [Hin Hout].
    { intros az' cmd' Hin. rewrite Hother; [by apply Hl; right|]. right. intros ->. apply Haz. by apply (list_elem_of_fmap_2 fst _ (az, cmd')). }
    split.
    + intros az' cmd' [[= -> ->]|Hin']%elem_of_cons; [|by eapply Hin]. exists c. split; [|done]. by rewrite Hout by (by right).
    + intros region' az' Ho. cbn [fmap list_fmap fst] in Ho. rewrite elem_of_cons in Ho. rewrite Hout by naive_solver. apply Hother. naive_solver.
Qed.

Lemma report_cpu_other region l : forall acc region' az, region' <> region -> zone_of (foldl (report_cpu region) acc l).1 region' az = zone_of acc.1 region' az.
Proof.
  induction l as [|[az0 cmr] l IH]; intros acc region' az Hne; [done|]. cbn [foldl]. rewrite IH by done. unfold report_cpu.
  destruct (update_cpu acc.1 region az0 cmr) as (_ & Hz & _). specialize (Hz region' az). rewrite decide_False in Hz by naive_solver.
  destruct (UpdateCpuAndMemResource acc.1 region az0 cmr) as [r' []]; exact Hz.
Qed.

Lemma cpu_report_fills cloud r region info : let r' := (getRegionCpuAndMemResources range cloud r region info).1 in
  (is_ok (hypervisors cloud (EipNetworkID info)) = true -> filled r' region) ∧
  (forall region' az, region' <> region -> zone_of r' region' az = zone_of r region' az).
Proof.
  cbv zeta. unfold getRegionCpuAndMemResources. destruct (hypervisors cloud (EipNetworkID info)) as [hs|]; [|done].
  set (acc := if Nat.ltb 0 _ then _ else _). set (zones := match acc.1 !! region with Some _ => _ | None => _ end).
  assert (forall az cmd, (az, cmd) ∈ range _ zones <-> zone_of acc.1 region az = Some cmd) as Hzones.
  { intros az cmd. rewrite Hrange, elem_of_map_to_list. unfold zones, zone_of. destruct (acc.1 !! region); [done|]. bind_simpl. by rewrite lookup_empty. }
  destruct (report_default_fills region (range _ zones) acc) as [Hin Hout].
  { rewrite Hrange. apply NoDup_fst_map_to_list. }
  { intros az cmd. by apply Hzones. }
  split.
  - intros _ az c Hc. destruct (zone_of acc.1 region az) as [cmd|] eqn:Hz.
    + apply Hzones in Hz. destruct (Hin az cmd Hz) as (c' & Hc' & Hne). congruence.
    + rewrite Hout in Hc; [congruence|]. right. intros ([az' cmd] & -> & Hi)%list_elem_of_fmap. apply Hzones in Hi. cbn in Hz. congruence.
  - intros region' az Hne. rewrite Hout by (by left). unfold acc. destruct (Nat.ltb 0 _); [by apply report_cpu_other|done].
Qed.

Lemma cpu_report_evolves cloud r region info : evolves r (getRegionCpuAndMemResources range cloud r region info).1.
Proof.
  unfold getRegionCpuAndMemResources. destruct (hypervisors cloud (EipNetworkID info)) as [hs|]; [|done].
  set (acc := if Nat.ltb 0 _ then _ else _). generalize (range _ (match acc.1 !! region with Some info => CpuAndMemResources info | None => ∅ end)).
  assert (evolves r acc.1) as H.
  { unfold acc. destruct (Nat.ltb 0 _); [|done]. assert (evolves r (r, @nil AzCpuMem).1) as H0 by done. revert H0. generalize (r, @nil AzCpuMem).
    generalize (range _ (foldl (sum_host (HostAzMap info)) ∅ hs)). intros l. induction l as [|[az cmr] l IH]; intros acc' H0; [done|]. apply IH.
    unfold report_cpu. destruct (update_cpu acc'.1 region az cmr) as (He & _). destruct (UpdateCpuAndMemResource acc'.1 region az cmr) as [r' []]; by etrans. }
  clearbody acc. intros l. revert acc H. induction l as [|[az cmd] l IH]; intros acc H; [done|]. apply IH. unfold report_default. destruct (_ && _); [|done].
  destruct (update_cpu acc.1 region az defaultCmd) as (He & _). by etrans.
Qed.

Lemma sync_region_fills cloud acc region : named acc.1 -> let r' := (sync_region range cloud acc region).1 in
  evolves acc.1 r' ∧ (forall st, acc.1 !! region = Some st -> answers cloud st -> filled r' region) ∧
  (forall region' az, region' <> region -> zone_of r' region' az = zone_of acc.1 region' az).
Proof.
  intros Hn. cbv zeta. unfold sync_region. destruct (acc.1 !! region) as [info|] eqn:Hst; [|done]. rewrite (Hn region info Hst).
  destruct (NewClientSet cloud (EipNetworkID info)) eqn:Hc.
  2:{ split_and!; [done| |done]. intros st [= <-] [Hc' _]. congruence. }
  pose proof (cpu_report_evolves cloud acc.1 region info) as He1. destruct (cpu_report_fills cloud acc.1 region info) as [Hf Ho].
  destruct (getRegionCpuAndMemResources range cloud acc.1 region info) as [r1 zones]. cbn [fst] in *.
  destruct (volumes_ok cloud r1 region info) as (He2 & Hz2). destruct (getRegionVolumeResources cloud r1 region info) as [r2 volumes]. cbn [fst snd] in *.
  assert (forall x, (if Nat.ltb 0 (length zones) || Nat.ltb 0 (length volumes) then (r2, x) else (r2, acc.2)).1 = r2) as E by (intros x; by destruct (_ || _)).
  rewrite E. split_and!; [by etrans| |].
  - intros st [= <-] [_ Hok] az c. rewrite Hz2. by apply Hf.
  - intros region' az Hne. rewrite Hz2. by apply Ho.
Qed.

Lemma sync_regions_fill cloud l : forall acc, NoDup l -> named acc.1 -> let r' := (foldl (sync_region range cloud) acc l).1 in
  (forall region st, region ∈ l -> acc.1 !! region = Some st -> answers cloud st -> filled r' region) ∧
  (forall region az, region ∉ l -> zone_of r' region az = zone_of acc.1 region az).
Proof.
  induction l as [|x l IH]; intros acc Hnd Hn; cbv zeta; cbn [foldl]; [split; [by intros region st ?%elem_of_nil|done]|].
  apply NoDup_cons in Hnd as [Hx Hnd]. destruct (sync_region_fills cloud acc x Hn) as (He & Hf & Ho).
  destruct (IH (sync_region range cloud acc x) Hnd (evolves_named _ _ He Hn)) as [Hin Hout]. split.
  - intros region st [->|Hr]%elem_of_cons Hst Ha.
    + intros az c. rewrite Hout by done. by apply (Hf st).
    + destruct (evolves_region _ _ region st He Hst) as (st' & Hst' & Hip & _). apply (Hin region st'); [done..|]. unfold answers. by rewrite Hip.
  - intros region az [Hne Hr]%not_elem_of_cons. rewrite Hout by done. by apply Ho.
Qed.

Lemma collect_fills cloud r region st : named r -> r !! region = Some st -> answers cloud st -> filled (collect range cloud r).1 region.
Proof.
  intros Hn Hst Ha. destruct (sync_regions_fill cloud (range _ r).*1 (r, [])) as [Hf _].
  - rewrite Hrange. apply NoDup_fst_map_to_list.
  - done.
  - apply (Hf region st); [|done..]. rewrite Hrange. apply list_elem_of_fmap. exists (region, st). split; [done|]. by apply elem_of_map_to_list.
Qed.
(** The pools of the clouds have finite capacities. *)
Definition finite (f : float64) : bool := negb (is_nan f || is_infinite f).
Definition finite_pools (cloud : Cloud) : Prop := forall ip stats, schedulerstats cloud ip = Ok stats -> forallb (fun stat => finite stat.2) stats = true.

Lemma volumes_finite cloud r region info : finite_pools cloud -> forallb (fun v => finite (StorageCapacity v)) (getRegionVolumeResources cloud r region info).2 = true.
Proof.
  intros Hf. unfold getRegionVolumeResources. destruct (Nat.eqb _ 0).
  - by destruct (UpdateVolumeResource r region _) as [r' []].
  - destruct (schedulerstats cloud (EipNetworkID info)) as [stats|] eqn:E; [|done]. apply Hf in E.
    destruct (UpdateVolumeResource r region _) as [r' []]; [|done]. cbn [snd]. induction stats as [|stat stats IH]; [done|]. cbn in *.
    apply andb_true_iff in E as [E1 E2]. rewrite E1. by apply IH.
Qed.

Lemma collect_marshals cloud r : finite_pools cloud -> marshals (collect range cloud r).2 = true.
Proof.
  intros Hf. unfold collect. assert (marshals (r, @nil RegionResource).2 = true) as H by done. revert H.
  generalize (r, @nil RegionResource). generalize ((range RegionState r).*1). intros l. induction l as [|region l IH]; intros acc H; [done|].
  cbn [foldl]. apply IH. unfold sync_region. destruct (acc.1 !! region) as [info|]; [|done]. destruct (NewClientSet _ _); [|done].
  destruct (getRegionCpuAndMemResources _ _ _ _ _) as [r1 zones]. pose proof (volumes_finite cloud r1 (rs_RegionName info) info Hf) as Hv.
  destruct (getRegionVolumeResources _ _ _ _) as [r2 volumes]. destruct (_ || _); [|done]. cbn [snd] in *. unfold marshals in *.
  rewrite forallb_app, H. cbn. by rewrite andb_true_r.
Qed.

(** C24.  A round of the collector brings a scheduler up to date. Let there be one scheduler,
    whose endpoint [http.NewRequest] takes and to which the transport works; let its capacities
    agree with the collector's cache before, its sites be those of the clusters, no two zones
    make the same site, and the pools of the clouds have finite capacities. Then the round
    returns, the capacities agree again, and every zone of a region whose cloud answered has
    one. The scheduler's snapshot stays in the form that scheduling needs. *)
Theorem capacity_reports_reach_scheduler (NewRequest : string -> bool) (cloud : Cloud) (r : RegionResourceCache) (s : Snapshot) (scheduler : string * string)
  (Hn : named r) (Hd : distinct_sites r) (Hs : snapshot_ok s) (Ha : agree r (total_at s)) (Hf : finite_pools cloud)
  (Hknown : forall region az, is_Some (zone_of r region az) -> is_Some (SiteCacheInfoMap s !! site_id region az))
  (Hurl : NewRequest (schedulerEndpoint scheduler) = true) :
  ∃ r' s', SyncResources range NewRequest receive cloud r [scheduler] s = Some (r', s') ∧ evolves r r' ∧
    snapshot_ok s' ∧ SiteCacheInfoMap s' = SiteCacheInfoMap s ∧ agree r' (total_at s') ∧
    forall region st az, r !! region = Some st -> answers cloud st -> is_Some (zone_of r region az) ->
      ∃ c, zone_of r' region az = Some c ∧ total_at s' (site_id region az) = Some (mkCPUAndMemory (TotalVCPUs c) (TotalMem c)).
Proof.
  destruct (collect_ok cloud r (total_at s) Hn Hd Ha) as (He & Hagree & Hk). pose proof (collect_fills cloud r) as Hfills.
  pose proof (collect_marshals cloud r Hf) as Hm. unfold SyncResources. destruct (collect range cloud r) as [r' resources]. cbn [fst snd] in *.
  assert (∃ s', (if Nat.ltb 0 (length resources) then s' ← send NewRequest receive s [scheduler] resources; Some (r', s') else Some (r', s)) = Some (r', s') ∧
    snapshot_ok s' ∧ SiteCacheInfoMap s' = SiteCacheInfoMap s ∧ forall id, total_at s' id = foldl tell (total_at s) resources id) as (s' & E & Hs' & Hmap & Ht).
  { destruct resources as [|x resources]; [by exists s|]. cbn [length Nat.ltb Nat.leb]. cbn [send]. rewrite Hm, Hurl. cbn [negb].
    destruct (receive_total (x :: resources) s (total_at s) (schedulerEndpoint scheduler) Hs) as (s' & -> & H); [|done|by exists s'].
    apply (Forall_impl _ _ _ Hk). intros res Hz. apply (Forall_impl _ _ _ Hz). intros z. apply Hknown. }
  assert (agree r' (total_at s')) as Hagree' by (intros region az c Hc Hne; rewrite Ht; by apply Hagree).
  exists r', s'. split_and!; try done. intros region st az Hst Hans Hz.
  apply (evolves_zone r r') in Hz as [c Hc]; [|done]. exists c. split; [done|]. apply Hagree'; [done|]. by apply (Hfills region st Hn Hst Hans az).
Qed.
End Sync.

(** ** Clusters reach the collector *)

Section Service.
Context (range : forall A : Type, gmap string A -> list (string * A)).
Hypothesis Hrange : forall A (m : gmap string A), range A m ≡ₚ map_to_list m.
Context {bucket : Type} (Reserve_Delay : bucket -> bucket * Z) (cloud : Cloud).

(** A call of the collector's service. *)
Definition collector_rpc (col : option Collector) (profile : ClusterProfile) : outcome (option Collector) :=
  match SendClusterProfile range cloud col profile with Some (col', _, _) => Returns col' | None => Panics end.

(** Every aggregate can be read. *)
Definition readable : Prop := forall ip, is_Some (aggregates cloud ip).

(** Reading the aggregates changes the hosts only. *)
Definition same_zones (r r' : RegionResourceCache) : Prop := forall region,
  match r !! region, r' !! region with
  | Some st, Some st' => rs_RegionName st' = rs_RegionName st ∧ CpuAndMemResources st' = CpuAndMemResources st ∧ EipNetworkID st' = EipNetworkID st
  | None, None => True
  | _, _ => False
  end.

#[local] Instance same_zones_preorder : PreOrder same_zones.
Proof.
  split.
  - intros r region. by destruct (r !! region).
  - intros r1 r2 r3 H12 H23 region. specialize (H12 region). specialize (H23 region).
    destruct (r1 !! region), (r2 !! region), (r3 !! region); try done. destruct H12 as (? & ? & ?), H23 as (? & ? & ?). split_and!; congruence.
Qed.

Lemma same_zones_zone r r' region az : same_zones r r' -> zone_of r' region az = zone_of r region az.
Proof.
  intros H. specialize (H region). unfold zone_of. destruct (r !! region), (r' !! region); try done. bind_simpl. by destruct H as (_ & -> & _).
Qed.

Lemma same_zones_named r r' : same_zones r r' -> named r -> named r'.
Proof.
  intros H Hn region st' Hst'. specialize (H region). rewrite Hst' in H. destruct (r !! region) as [st|] eqn:E; [|done].
  destruct H as (-> & _). by apply Hn.
Qed.

Lemma add_hosts r region found : is_Some (r !! region) -> same_zones r (foldl (fun r a => AddHostAz r region a.1 a.2) r found).
Proof.
  revert r. induction found as [|a found IH]; intros r [st Hst]; [done|]. cbn [foldl].
  assert (same_zones r (AddHostAz r region a.1 a.2)) as Ha.
  { intros region'. unfold AddHostAz. rewrite Hst. destruct (decide (region' = region)) as [->|Hne]; [by rewrite lookup_insert_eq, Hst|].
    rewrite lookup_insert_ne by done. by destruct (r !! region'). }
  etrans; [exact Ha|]. apply IH. unfold AddHostAz. rewrite lookup_insert_eq. by eexists.
Qed.

Lemma build_hosts r : readable -> named r -> ∃ r', BuildHostAzMap range cloud r = Some r' ∧ same_zones r r'.
Proof.
  intros Hread Hn. unfold BuildHostAzMap. generalize ((range RegionState r).*1). intros l.
  assert (forall r1, same_zones r r1 -> ∃ r', foldl (fun acc regionName => r2 ← acc;
    match r2 !! regionName with
    | None => Some r2
    | Some info =>
        if NewClientSet cloud (EipNetworkID info) then
          found ← aggregates cloud (EipNetworkID info);
          Some (foldl (fun r a => AddHostAz r (rs_RegionName info) a.1 a.2) r2 found)
        else Some r2
    end) (Some r1) l = Some r' ∧ same_zones r r') as H; [|by apply H].
  induction l as [|region l IH]; intros r1 H; [by exists r1|]. cbn [foldl mbind option_bind].
  destruct (r1 !! region) as [info|] eqn:Hst; [|by apply IH]. destruct (NewClientSet cloud _); [|by apply IH].
  destruct (Hread (EipNetworkID info)) as [found ->]. cbn [mbind option_bind]. apply IH. etrans; [exact H|]. apply add_hosts.
  rewrite (same_zones_named r r1 H Hn region info Hst), Hst. by eexists.
Qed.

(** The service on the profile of a complete cluster. *)
Lemma send_created c r l u : ctl_verifyClusterInfo c = true -> named r -> readable ->
  let region := ApiTypes.RI_Region (ApiTypes.C_Region c) in
  let az := ApiTypes.RI_AvailabilityZone (ApiTypes.C_Region c) in
  ∃ r', collector_rpc (Some (mkCollector r l u)) (ConvertClusterToClusterProfile c "Created") = Returns (Some (mkCollector r' l u)) ∧ named r' ∧
    forall region' az', zone_of r' region' az' = if decide (region' = region ∧ az' = az) then Some nothing else zone_of r region' az'.
Proof.
  intros Hv Hn Hread region az. unfold collector_rpc, SendClusterProfile, ConvertClusterToClusterProfile. cbn [ClusterSpec ClusterStatus pb_ClusterNameSpace pb_ClusterName].
  unfold ctl_verifyClusterInfo in Hv. rewrite negb_true_iff, !orb_false_iff in Hv. destruct Hv as [[[Hip Hre] Haz] _].
  cbn [ApiTypes.RI_Region ApiTypes.RI_AvailabilityZone]. rewrite Hip, Hre, Haz. cbn [orb RegionResourceMap set_regions SchedulerInfoCache unreachableNum].
  change (String.eqb "Created" "Created") with true. cbn iota. fold region az.
  set (r1 := AddAvailabilityZone _ _ _). assert (named r1 ∧ forall region' az', zone_of r1 region' az' = if decide (region' = region ∧ az' = az) then Some nothing else zone_of r region' az') as [Hn1 Hz1].
  { unfold r1, AddRegionResource. cbn [rs_RegionName]. destruct (r !! region) as [st|] eqn:Hst; unfold AddAvailabilityZone;
      [rewrite Hst|rewrite lookup_insert_eq, insert_insert_eq]; (split; [intros region' st' [[<- <-]|[_ H]]%lookup_insert_Some; [|by apply Hn]|]);
      [cbn; by apply Hn| |done|]; intros region' az'; unfold zone_of; (destruct (decide (region' = region)) as [->|Hr];
      [rewrite lookup_insert_eq, Hst; cbn|rewrite lookup_insert_ne by done; by rewrite decide_False by naive_solver]);
      (destruct (decide (az' = az)) as [->|Ha]; [by rewrite lookup_insert_eq, decide_True|]); rewrite lookup_insert_ne, decide_False by naive_solver; done. }
  destruct (build_hosts r1 Hread Hn1) as (r' & -> & Hs). cbn [mbind option_bind]. exists r'. split; [done|]. split; [by eapply same_zones_named|].
  intros region' az'. rewrite (same_zones_zone r1) by done. apply Hz1.
Qed.

Lemma send_deleted c r l u : ctl_verifyClusterInfo c = true ->
  let region := ApiTypes.RI_Region (ApiTypes.C_Region c) in
  collector_rpc (Some (mkCollector r l u)) (ConvertClusterToClusterProfile c "Deleted") = Returns (Some (mkCollector (delete region r) l u)).
Proof.
  intros Hv region. unfold collector_rpc, SendClusterProfile, ConvertClusterToClusterProfile. cbn [ClusterSpec ClusterStatus pb_ClusterNameSpace pb_ClusterName].
  unfold ctl_verifyClusterInfo in Hv. rewrite negb_true_iff, !orb_false_iff in Hv. destruct Hv as [[[Hip Hre] Haz] _].
  cbn [ApiTypes.RI_Region ApiTypes.RI_AvailabilityZone]. rewrite Hip, Hre, Haz. cbn [orb RegionResourceMap set_regions SchedulerInfoCache unreachableNum].
  change (String.eqb "Deleted" "Created") with false. change (String.eqb "Deleted" "Deleted") with true. cbn iota. fold region.
  do 2 f_equal. f_equal. unfold RemoveAvailabilityZone. destruct (r !! region) as [st|] eqn:Hst.
  - destruct (CpuAndMemResources st !! _); unfold RemoveRegionResource; cbn [fst]; [rewrite lookup_insert_eq; cbn [fst]; by rewrite delete_insert_eq|by rewrite Hst].
  - unfold RemoveRegionResource. cbn [fst]. rewrite Hst. cbn [fst]. by rewrite delete_id.
Qed.

Definition ctl_next (ctl : ClusterController bucket) : option work := head (queue (Interface (DelayingInterface (workqueue ctl)))).

(** One turn of the controller's worker on an event that it forwards. *)
Lemma worker_forwards indexer now ctl event c (col col' : option Collector) status ctl1 :
  plain_names c -> ctl_next ctl = Some (KeyWithEventType event (MetaNamespaceKeyFunc c)) -> 0 <= event ->
  (forall c1, c1 = set_workqueue ctl (workqueue c1) ->
    gRPCRequest collector_rpc indexer c1 col (MetaNamespaceKeyFunc c) event (ApiTypes.C_Namespace (co_Cluster c)) (ApiTypes.C_Name (co_Cluster c)) =
    match collector_rpc col (ConvertClusterToClusterProfile (co_Cluster c) status) with
    | Returns e => Returns (set_workqueue ctl1 (workqueue c1), e, true) | Panics => Panics | Blocks => Blocks end) ->
  collector_rpc col (ConvertClusterToClusterProfile (co_Cluster c) status) = Returns col' ->
  event = EventType_Delete ∨ is_ok (lister_Get indexer (ApiTypes.C_Namespace (co_Cluster c)) (ApiTypes.C_Name (co_Cluster c))) = true ->
  ∃ q, processNextWorkItem Reserve_Delay collector_rpc indexer now ctl col = Some (Returns (set_workqueue ctl1 q, col', true)).
Proof.
  intros Hnames Hnext Hev Hg Hr Hl. unfold processNextWorkItem, wq_Get. unfold ctl_next in Hnext. destruct (queue _) as [|x rest]; [done|]. injection Hnext as ->.
  unfold syncHandler. rewrite (proj2 (Z.ltb_ge event 0) Hev), split_key by done. rewrite Hg, Hr by done.
  destruct (event =? EventType_Delete) eqn:Hd; [by eexists|]. destruct Hl as [->|Hl]; [done|].
  destruct (lister_Get _ _ _) as [o|]; [|done]. by eexists.
Qed.

(** A created cluster reaches the collector: the controller's worker forwards the
    event, and the collector then knows the cluster's zone, with no capacity yet, and all
    the other zones as before.  The worker goes on. *)
Theorem created_cluster_is_collected indexer now ctl c r l u :
  plain_names c -> co_Tenant c = "system"%string -> ctl_verifyClusterInfo (co_Cluster c) = true ->
  indexer !! MetaNamespaceKeyFunc c = Some c -> grpcHost ctl <> ""%string ->
  ctl_next ctl = Some (KeyWithEventType EventType_Create (MetaNamespaceKeyFunc c)) -> named r -> readable ->
  let region := ApiTypes.RI_Region (ApiTypes.C_Region (co_Cluster c)) in
  let az := ApiTypes.RI_AvailabilityZone (ApiTypes.C_Region (co_Cluster c)) in
  ∃ q r', processNextWorkItem Reserve_Delay collector_rpc indexer now ctl (Some (mkCollector r l u)) =
      Some (Returns (set_workqueue ctl q, Some (mkCollector r' l u), true)) ∧ named r' ∧
    forall region' az', zone_of r' region' az' = if decide (region' = region ∧ az' = az) then Some nothing else zone_of r region' az'.
Proof.
  intros Hnames Ht Hv Hi Hh Hnext Hn Hread region az. destruct (send_created (co_Cluster c) r l u Hv Hn Hread) as (r' & Hs & Hn' & Hz).
  pose proof (lister_of_key indexer c Hnames Ht Hi) as Hl.
  destruct (worker_forwards indexer now ctl EventType_Create c (Some (mkCollector r l u)) (Some (mkCollector r' l u)) "Created" ctl) as [q Hq]; [done..| |done| |].
  - intros c1 ->. unfold gRPCRequest. rewrite Hl. cbn [set_workqueue grpcHost]. rewrite (proj2 (String.eqb_neq _ _) Hh). done.
  - right. by rewrite Hl.
  - by exists q, r'.
Qed.

(** The deletion of a cluster ends the reports for its whole region: the worker
    forwards the cluster that the handler remembered, and the collector removes not only
    the zone of the cluster but every other zone of the region as well, although their
    clusters exist. *)
Theorem deleted_cluster_takes_its_region indexer now ctl c r l u :
  plain_names c -> ctl_verifyClusterInfo (co_Cluster c) = true -> grpcHost ctl <> ""%string ->
  let ctl1 := ctl_deleteCluster ctl c in
  ctl_next ctl1 = Some (KeyWithEventType EventType_Delete (MetaNamespaceKeyFunc c)) ->
  let region := ApiTypes.RI_Region (ApiTypes.C_Region (co_Cluster c)) in
  ∃ ctl2 r', processNextWorkItem Reserve_Delay collector_rpc indexer now ctl1 (Some (mkCollector r l u)) =
      Some (Returns (ctl2, Some (mkCollector r' l u), true)) ∧ ctl_deletedClusters ctl2 !! MetaNamespaceKeyFunc c = None ∧
    forall region' az', zone_of r' region' az' = if decide (region' = region) then None else zone_of r region' az'.
Proof.
  intros Hnames Hv Hh ctl1 Hnext region. pose proof (send_deleted (co_Cluster c) r l u Hv) as Hs. set (key := MetaNamespaceKeyFunc c) in *.
  destruct (worker_forwards indexer now ctl1 EventType_Delete c (Some (mkCollector r l u)) (Some (mkCollector (delete region r) l u)) "Deleted"
    (set_deleted ctl1 (delete key (ctl_deletedClusters ctl1)))) as [q Hq]; [done..| |done| |].
  - intros c1 ->. unfold gRPCRequest. cbn [set_workqueue grpcHost ctl_deletedClusters EventType_Delete EventType_Create EventType_Update Z.eqb Pos.eqb]. fold key.
    assert (grpcHost ctl1 = grpcHost ctl ∧ ctl_deletedClusters ctl1 !! key = Some c) as [-> ->].
    { unfold ctl1, ctl_deleteCluster. rewrite Hv. cbn. by rewrite lookup_insert_eq. }
    rewrite (proj2 (String.eqb_neq _ _) Hh). done.
  - by left.
  - eexists _, _. split; [exact Hq|]. split; [cbn; apply lookup_delete_eq|]. intros region' az'. unfold zone_of. fold region.
    case_decide as E; [subst; by rewrite lookup_delete_eq|by rewrite lookup_delete_ne by done].
Qed.

(** Rounds of the collector for one scheduler. *)
Fixpoint rounds (NewRequest : string -> bool) (scheduler : string * string) (n : nat) (r : RegionResourceCache) (s : Snapshot) : option (RegionResourceCache * Snapshot) :=
  match n with
  | O => Some (r, s)
  | S n => '(r, s) ← SyncResources range NewRequest receive cloud r [scheduler] s; rounds NewRequest scheduler n r s
  end.

(** A site loses the reported capacity when the scheduler handles an event of its
    cluster: the worker puts a new information in place of the old one, and while the
    clouds offer what the collector has reported already, no number of further rounds
    brings it back.  This also happens when the report arrives before the scheduler has
    handled the creation of the cluster. *)
Theorem cluster_event_erases_capacity NewRequest scheduler indexer now s event c r n :
  plain_names c -> co_Tenant c = "system"%string -> indexer !! MetaNamespaceKeyFunc c = Some c ->
  (event = EventType_Create ∨ event = EventType_Update) -> next_item s = Some (KeyWithEventType event (MetaNamespaceKeyFunc c)) ->
  collect range cloud r = (r, []) ->
  ∃ s', processNextClusterItem Reserve_Delay indexer now s = Some (Returns (s', true)) ∧
    rounds NewRequest scheduler n r (siteCacheInfoSnapshot s') = Some (r, siteCacheInfoSnapshot s') ∧
    total_at (siteCacheInfoSnapshot s') (site_id (ApiTypes.RI_Region (ApiTypes.C_Region (co_Cluster c))) (ApiTypes.RI_AvailabilityZone (ApiTypes.C_Region (co_Cluster c)))) = None.
Proof.
  intros Hnames Ht Hi Hev Hnext Hr. destruct (worker_installs Reserve_Delay indexer now s event c) as [q Hq]; [done..|]. eexists. split; [exact Hq|]. split.
  - induction n as [|n IH]; [done|]. cbn [rounds]. unfold SyncResources. by rewrite Hr.
  - unfold total_at. cbn [siteCacheInfoSnapshot set_queue set_snapshot]. rewrite install_site_eq. cbn [SiteCacheInfoMap entries]. unfold site_id, convertClusterToSite.
    cbn [SiteID]. rewrite lookup_insert_eq. cbn [mbind option_bind]. by rewrite lookup_insert_eq.
Qed.
End Service.

(** ** A run *)

(** A cloud without aggregates and storage pools. *)
Definition demo_cloud : Cloud := mkCloud (fun _ => true) (fun _ => Ok []) (fun _ => Ok []) (fun _ => Some []).
Definition demo_regions : RegionResourceCache := {["r1"%string := mkRegionState "r1" "10.0.0.1" ∅ {["az1"%string := nothing]} []]}.
Definition demo_scheduler : string * string := ("http://10.0.0.9"%string, "8080"%string).
Definition demo_NewRequest (url : string) : bool := String.prefix "http://" url.
Definition demo_reported : RegionResourceCache := (collect demo_range demo_cloud demo_regions).1.

Lemma demo_visits_all A (m : gmap string A) : demo_range A m ≡ₚ map_to_list m.
Proof. done. Qed.

Lemma demo_zone region az : is_Some (zone_of demo_regions region az) -> region = "r1"%string ∧ az = "az1"%string.
Proof.
  intros [c Hc]. unfold zone_of, demo_regions in Hc. destruct (decide (region = "r1"%string)) as [->|Hr]; [|by rewrite lookup_singleton_ne in Hc by done].
  rewrite lookup_singleton_eq in Hc. cbn in Hc. destruct (decide (az = "az1"%string)) as [->|Ha]; [done|]. by rewrite lookup_singleton_ne in Hc by done.
Qed.

Lemma demo_named : named demo_regions.
Proof. unfold demo_regions. intros region st [<- <-]%lookup_singleton_Some. done. Qed.

Lemma demo_distinct : distinct_sites demo_regions.
Proof. intros r1 a1 r2 a2 [-> ->]%demo_zone [-> ->]%demo_zone _. done. Qed.

Lemma demo_agree T : agree demo_regions T.
Proof.
  intros region az c Hc Hne. exfalso. apply Hne. destruct (demo_zone region az) as [-> ->]; [by eexists|].
  assert (zone_of demo_regions "r1" "az1" = Some nothing) as H by reflexivity. congruence.
Qed.

Lemma demo_snapshot_ok : snapshot_ok (siteCacheInfoSnapshot demo_worked).
Proof.
  apply (run_snapshot_ok demo_bucket (∅, demo_new) (demo_store, demo_worked) demo_run_worked). split.
  - apply map_Forall_empty.
  - apply new_snapshot_ok, demo_config_divisible.
Qed.

Lemma demo_finite : finite_pools demo_cloud.
Proof. by intros ip stats [= <-]. Qed.

Lemma capacity_reports_reach_scheduler_witness : ∃ r' s',
  SyncResources demo_range demo_NewRequest receive demo_cloud demo_regions [demo_scheduler] (siteCacheInfoSnapshot demo_worked) = Some (r', s') ∧
  ∃ c, zone_of r' "r1" "az1" = Some c ∧ total_at s' "r1--az1" = Some (mkCPUAndMemory (TotalVCPUs c) (TotalMem c)).
Proof.
  destruct (capacity_reports_reach_scheduler demo_range demo_visits_all demo_NewRequest demo_cloud demo_regions (siteCacheInfoSnapshot demo_worked) demo_scheduler
    demo_named demo_distinct demo_snapshot_ok (demo_agree _) demo_finite) as (r' & s' & E & _ & _ & _ & _ & H); [|reflexivity|].
  - intros region az [-> ->]%demo_zone. vm_compute. by eexists.
  - exists r', s'. split; [exact E|]. apply (H "r1"%string (mkRegionState "r1" "10.0.0.1" ∅ {["az1"%string := nothing]} []) "az1"%string);
      [reflexivity|split; reflexivity|by eexists].
Defined.

Definition demo_controller : ClusterController unit :=
  ctl_addCluster (mkController (ClusterQueue demo_new) "10.0.0.5" ∅) demo_cluster.

Lemma created_cluster_is_collected_witness : ∃ q r',
  processNextWorkItem demo_bucket (collector_rpc demo_range demo_cloud) demo_store 5 demo_controller (Some (mkCollector ∅ [] ∅)) =
    Some (Returns (set_workqueue demo_controller q, Some (mkCollector r' [] ∅), true)) ∧ zone_of r' "r1" "az1" = Some nothing.
Proof.
  destruct (created_cluster_is_collected demo_range demo_bucket demo_cloud demo_store 5 demo_controller demo_cluster ∅ [] ∅ demo_names eq_refl eq_refl
    (lookup_insert_eq _ _ _)) as (q & r' & E & _ & Hz); [done|reflexivity|by intros region st; rewrite lookup_empty|by eexists|].
  exists q, r'. split; [exact E|]. rewrite Hz. reflexivity.
Defined.

(** Two clusters in one region. *)
Definition demo_two_zones : RegionResourceCache := AddAvailabilityZone demo_regions "r1" "az2".

Lemma deleted_cluster_takes_its_region_witness : is_Some (zone_of demo_two_zones "r1" "az2") ∧ ∃ ctl r',
  processNextWorkItem demo_bucket (collector_rpc demo_range demo_cloud) ∅ 5 (ctl_deleteCluster (mkController (ClusterQueue demo_new) "10.0.0.5" ∅) demo_cluster)
    (Some (mkCollector demo_two_zones [] ∅)) = Some (Returns (ctl, Some (mkCollector r' [] ∅), true)) ∧ zone_of r' "r1" "az2" = None.
Proof.
  split; [vm_compute; by eexists|].
  destruct (deleted_cluster_takes_its_region demo_range demo_bucket demo_cloud ∅ 5 (mkController (ClusterQueue demo_new) "10.0.0.5" ∅) demo_cluster demo_two_zones [] ∅
    demo_names eq_refl) as (ctl & r' & E & _ & Hz); [done|reflexivity|].
  exists ctl, r'. split; [exact E|]. rewrite Hz. reflexivity.
Defined.

Lemma cluster_event_erases_capacity_witness : zone_of demo_reported "r1" "az1" = Some defaultCmd ∧ ∃ s',
  processNextClusterItem demo_bucket demo_store 5 demo_added = Some (Returns (s', true)) ∧
  rounds demo_range demo_cloud demo_NewRequest demo_scheduler 7 demo_reported (siteCacheInfoSnapshot s') = Some (demo_reported, siteCacheInfoSnapshot s') ∧
  total_at (siteCacheInfoSnapshot s') "r1--az1" = None.
Proof.
  split; [vm_compute; reflexivity|].
  exact (cluster_event_erases_capacity demo_range demo_bucket demo_cloud demo_NewRequest demo_scheduler demo_store 5 demo_added EventType_Create demo_cluster demo_reported 7
    demo_names eq_refl (lookup_insert_eq _ _ _) (or_introl eq_refl) eq_refl ltac:(vm_compute; reflexivity)).
Defined.
