(* ===== verification/PodProofs.v ===== *)
(** * Pods are bound or refused

    Theorems about [PodEvents]: the stack of a pod is a request that the scheduling
    theorems cover, so the worker binds each pod it takes to the cluster of a suitable
    site, or records that there is none.  Two theorems state what goes wrong: of several
    regions only the last is considered, and the worker never ends on a closed queue. *)
From S2P Require Import Prelude Types Strconv Heap Backoff SchedQueue SiteTree SiteCacheInfo Cache Labels Framework FlavorProofs Plugins Strategy Binder.
From S2P Require Import Schedule Deployed FilterProofs ReserveProofs ScheduleProofs PodEvents.

Local Open Scope Z_scope.

(** ** The request of a pod *)

(** The stack of a pod with a virtual machine that names flavors, queued at [t]. *)
Definition stack_of (pod : Pod) (vm : VirtualMachine) (t : Z) (stack : Stack) : Prop :=
  P_VirtualMachine pod = Some vm ∧ VM_Flavors vm <> [] ∧ ∃ s, getStackFromPod pod = Some s ∧ stack = set_create_time s t.

Lemma single_resource_plain stack name kind flavors eip label :
  Resources stack = [mkResource name kind ((fun id => mkFlavor id None) <$> flavors) ∅ eip 1 label] -> flavors <> [] -> plain_stack stack.
Proof.
  intros Hr Hne. unfold plain_stack. rewrite Hr. split_and!; [done| |].
  - intros r ->%list_elem_of_singleton. cbn [Flavors]. by destruct flavors.
  - intros fis Hch. inversion Hch as [|? fi ? fis' [Hfl Hcount] Hrest]; subst. inversion Hrest; subst. cbn [Flavors Count] in *.
    apply list_elem_of_fmap in Hfl as (id & Hid & _). split; [done| | |apply NoDup_singleton].
    + intros fi' ->%list_elem_of_singleton. by rewrite Hid.
    + intros fi' ->%list_elem_of_singleton. rewrite Hcount. by unfold MaxInt64.
Qed.

Lemma pod_request pod vm t stack uid : stack_of pod vm t stack ->
  plain_request (generateAllocationFromStack uid stack) ∧ request (generateAllocationFromStack uid stack) = stack.
Proof.
  intros (Hvm & Hfl & s & Hs & ->). unfold getStackFromPod in Hs. rewrite Hvm in Hs. injection Hs as <-. split; [|done]. split; [|by intros r ->%list_elem_of_singleton|done..].
  by eapply single_resource_plain.
Qed.

Section Worker.
Context (range : forall A : Type, gmap string A -> list (string * A)) (order : nat -> list nat) (sort_Reverse : list SiteScore -> list SiteScore)
  (config_FlavorMap : gmap string RegionFlavor) (spot_fake : bool) (f : framework).
Context (queueSortFunc : option (StackInfo -> StackInfo -> bool)).
Context {api : Type} (Pods_Get : api -> string -> string -> string -> result string)
  (PatchPodStatus : api -> string -> string -> string -> string -> string -> api * option string) (Pods_Bind : api -> Binding -> api * option string).

(** The worker with the scheduling algorithm of the repository. *)
Definition worker (uid : string) (s : PodScheduler) (a : api) : option (PodScheduler * api * option bool) :=
  scheduleOne queueSortFunc Pods_Get PatchPodStatus Pods_Bind (Schedule range order sort_Reverse config_FlavorMap f ∅) uid s a.

Lemma worker_turn uid s a p' pod vm t stack
  (Hrange : forall A (m : gmap string A), range A m ≡ₚ map_to_list m) (Horder : forall n, order n ≡ₚ seq 0 n) (Hsort : forall l, sort_Reverse l ≡ₚ l)
  (Hf : buildFramework range spot_fake edgecloud_policy = Ok f) (Hw : plain_world (ps_World s))
  (Hpop : pq_Pop queueSortFunc (StackQueue s) = Some (p', Popped stack)) (Hstack : stack_of pod vm t stack)
  (Haccept : forall cluster, (Pods_Bind a (binding_of cluster stack)).2 = None) :
  let ids := candidate_ids range (w_snapshot (ps_World s)) stack in
  let cap := site_capacity ∅ (ps_World s) stack in
  sum_of cap ids < 2 ^ 53 ->
  ∃ w', let s' := mkPodScheduler p' w' in
    ((∃ id, id ∈ ids ∧ 0 < cap id) -> ∃ n site, info_of (ps_World s) (SiteID site) = Some n ∧ GetSite n = Some site ∧ suits ∅ stack n ∧
       worker uid s a = Some (s', (Pods_Bind a (binding_of (ClusterName site) stack)).1, Some true)) ∧
    ((forall id, id ∈ ids -> cap id = 0) -> worker uid s a = Some (s', (setPodScheduleErr Pods_Get PatchPodStatus a stack).1, Some true)).
Proof.
  intros ids cap Hsmall. apply built_framework in Hf. destruct (pod_request pod vm t stack uid Hstack) as [Hreq _]. clear Hstack.
  unfold worker, scheduleOne, NextStack. rewrite Hpop. bind_simpl. cbn [set_pod_queue ps_World StackQueue].
  destruct stack as [? ? ? ? ? ? ? ? ?]. set (stack := mkStack _ _ _ _ _ _ _ _ _) in *. set (alloc := generateAllocationFromStack uid stack) in *.
  assert (forall id, 0 <= cap id) as Hnn by (intros id; exact (policy_capacity_nonneg ∅ alloc Hreq (ps_World s) id)).
  destruct (decide (List.Exists (fun id => 0 < cap id) ids)) as [(id & Hid & Hcap)%Exists_exists|Hnone].
  - destruct (suitable_stage range order sort_Reverse config_FlavorMap spot_fake f ∅ alloc Hrange Horder Hsort Hf Hreq (ps_World s) Hw id Hid Hcap Hsmall) as [_ Hplaced].
    pose proof (policy_capacity_le ∅ alloc Hreq (ps_World s) ids id Hid : cap id <= sum_of cap ids) as Hle.
    destruct (Hplaced ltac:(change (1 <= sum_of cap ids); lia) (or_intror eq_refl)) as (w' & stacks & Hsched & Hlen & _ & Hstacks).
    change (Replicas alloc) with 1 in Hlen. destruct stacks as [|st [|]]; cbn [length] in Hlen; [lia| |lia].
    destruct (Hstacks st (list_elem_of_here _ _)) as (n & site & Hinfo & Hsite & Hsuits & Hsel & Hn1 & Hn2 & Hn3 & Hn4).
    exists w'. split; [|intros Hnone; specialize (Hnone id Hid); lia]. intros _. exists n, site. split_and!; [done|done|done|].
    rewrite Hsched. bind_simpl. cbn [bindStacks]. unfold bindToSite. rewrite Hsel. cbn [Selected_ClusterName selected_of].
    assert (binding_of (ClusterName site) st = binding_of (ClusterName site) stack) as -> by (unfold binding_of; rewrite Hn1, Hn2, Hn3, Hn4; done).
    specialize (Haccept (ClusterName site)). destruct (Pods_Bind a _) as [a' e]. cbn [snd] in Haccept. subst e. by bind_simpl.
  - assert (forall id, id ∈ ids -> cap id = 0) as Hzero.
    { intros id Hid. specialize (Hnn id). destruct (decide (0 < cap id)); [|lia]. destruct Hnone. apply Exists_exists. by exists id. }
    destruct (unsuitable_stage range order sort_Reverse config_FlavorMap spot_fake f ∅ alloc Hrange Horder Hsort Hf Hreq (ps_World s) Hw Hzero) as [e Hsched].
    eexists. split; [intros (id & Hid & Hp); specialize (Hzero id Hid); lia|]. intros _. rewrite Hsched. by bind_simpl.
Qed.

(** C21.  The worker takes a pod from the queue, on a well-formed snapshot whose candidates'
    capacities add up to less than 2^53, with an API server that accepts bindings. Then: when
    the site of some candidate cluster is suitable for it, the worker asks the API server
    exactly once, to bind the pod to the cluster of a suitable site; when none is, it asks the
    API server only to record that the pod cannot be scheduled. It goes on with the next pod in
    both cases. *)
Theorem pod_is_bound_or_refused uid s a p' pod vm t stack
  (Hrange : forall A (m : gmap string A), range A m ≡ₚ map_to_list m) (Horder : forall n, order n ≡ₚ seq 0 n) (Hsort : forall l, sort_Reverse l ≡ₚ l)
  (Hf : buildFramework range spot_fake edgecloud_policy = Ok f) (Hw : plain_world (ps_World s))
  (Hpop : pq_Pop queueSortFunc (StackQueue s) = Some (p', Popped stack)) (Hstack : stack_of pod vm t stack)
  (Haccept : forall cluster, (Pods_Bind a (binding_of cluster stack)).2 = None) :
  let ids := candidate_ids range (w_snapshot (ps_World s)) stack in
  let cap := site_capacity ∅ (ps_World s) stack in
  sum_of cap ids < 2 ^ 53 ->
  ∃ w', let s' := mkPodScheduler p' w' in
    ((∃ id, id ∈ ids ∧ 0 < cap id) -> ∃ n site, info_of (ps_World s) (SiteID site) = Some n ∧ GetSite n = Some site ∧ suits ∅ stack n ∧
       worker uid s a = Some (s', (Pods_Bind a (binding_of (ClusterName site) stack)).1, Some true)) ∧
    ((forall id, id ∈ ids -> cap id = 0) -> worker uid s a = Some (s', (setPodScheduleErr Pods_Get PatchPodStatus a stack).1, Some true)).
Proof. exact (worker_turn uid s a p' pod vm t stack Hrange Horder Hsort Hf Hw Hpop Hstack Haccept). Qed.

End Worker.

(** ** Several regions *)

Lemma prefix_app a b c : String.prefix (a +:+ b) c = true -> String.prefix a c = true.
Proof.
  revert c. induction a as [|x a IH]; intros c; [by destruct c|]. change (String x a +:+ b) with (String x (a +:+ b)).
  destruct c as [|y c]; [done|]. cbn [String.prefix]. destruct (ascii_dec x y); [apply IH|done].
Qed.

Lemma prefix_refl a : String.prefix a a = true.
Proof. induction a as [|x a IH]; [done|]. cbn [String.prefix]. by destruct (ascii_dec x x). Qed.

(** What is asked for is the last region. *)
Lemma asked_region rs r : ∃ zone, foldl pod_region_site ""%string (rs ++ [r]) = Region r +:+ SiteDelimiter +:+ zone.
Proof.
  rewrite foldl_app. cbn [foldl]. unfold pod_region_site. destruct (AvailablityZone r) as [|az ?].
  - exists ""%string. by induction (Region r) as [|c s IH]; [|apply (f_equal (String c))].
  - exists az. induction (Region r) as [|c s IH]; [done|apply (f_equal (String c) IH)].
Qed.

Lemma stack_site pod vm t stack : stack_of pod vm t stack -> Sel_SiteID (Stack_Selector stack) = foldl pod_region_site ""%string (Regions (VM_Selector vm)).
Proof. intros (Hvm & _ & s & Hs & ->). unfold getStackFromPod in Hs. rewrite Hvm in Hs. by injection Hs as <-. Qed.

(** Of several regions that a pod asks for, only the last is considered: a site that
    passes the filters has an id that starts with the last region of the list, so a
    suitable site in any other region of the list is refused. *)
Theorem only_last_region_is_considered ctx pod vm t stack n site rs r :
  stack_of pod vm t stack -> Regions (VM_Selector vm) = rs ++ [r] -> GetSite n = Some site -> suits ctx stack n ->
  String.prefix (Region r +:+ SiteDelimiter) (SiteID site) = true.
Proof.
  intros Hstack Hr Hsite (Hsale & _). destruct (proj1 (on_site_iff (on_sale stack) n site Hsite) Hsale) as (_ & _ & Hasked).
  cbn zeta in Hasked. rewrite (stack_site _ _ _ _ Hstack), Hr in Hasked.
  destruct (asked_region rs r) as [zone Hz]. rewrite Hz in Hasked. assert (Region r +:+ SiteDelimiter +:+ zone <> ""%string) as Hne by (by destruct (Region r)).
  rewrite string_app_assoc in *. apply (prefix_app _ zone). destruct Hasked as [[He|He]|[Hp _]]; [done|by rewrite <- He; apply prefix_refl|done].
Qed.

(** ** A closed queue *)

(** The worker asks to be called again when the queue is closed and empty, so it never
    ends. *)
Theorem closed_queue_spins_worker {api} queueSortFunc Pods_Get PatchPodStatus Pods_Bind schedule uid s (a : api) :
  closed (StackQueue s) = true -> Len (activeQ (StackQueue s)) = 0%nat ->
  scheduleOne queueSortFunc Pods_Get PatchPodStatus Pods_Bind schedule uid s a = Some (s, a, Some true).
Proof.
  intros Hc Hl. unfold scheduleOne, NextStack, pq_Pop. rewrite Hl, Hc. cbn [Nat.eqb]. bind_simpl. by destruct s.
Qed.

(** ** A worker at work *)

Definition demo_region : ResourceRegion := mkResourceRegion "r1" [].
Definition demo_machine : VirtualMachine := mkVirtualMachine ["f1"%string] (mkResourceSelector (mkGeo "" "" "" "") [mkResourceRegion "r0" []; demo_region] "" "") false.
Definition demo_pod : Pod := mkPod "pod" "ns" "t" "uid" (Some demo_machine) PodAssigned "sched".
Definition demo_pod_stack : Stack :=
  mkStack "pod" ∅ (getStackResources "pod" demo_machine) (getStackSelector (VM_Selector demo_machine)) (mkSelected "" "" "" "" "") "uid" 5 "t" "ns".

(** The API server records the calls. *)
Definition demo_get (a : list Binding) (ns tenant name : string) : result string := Ok PodAssigned.
Definition demo_patch (a : list Binding) (tenant ns name old new : string) : list Binding * option string := (a, None).
Definition demo_api_bind (a : list Binding) (b : Binding) : list Binding * option string := (b :: a, None).

Definition demo_queue : PriorityQueue :=
  match addPodToSchedulingQueue (fun _ => 0) (Some PrioritySort_Less) 5 (mkPodScheduler NewPriorityQueueWithClock demo_bind_world) (APod demo_pod) with
  | Some s => StackQueue s | None => NewPriorityQueueWithClock end.
Definition demo_popped : PriorityQueue := match pq_Pop (Some PrioritySort_Less) demo_queue with Some (p, _) => p | None => demo_queue end.
Definition demo_pod_scheduler : PodScheduler := mkPodScheduler demo_queue demo_bind_world.

Lemma demo_stack_of : stack_of demo_pod demo_machine 5 demo_pod_stack.
Proof. split; [done|]. split; [done|]. by eexists. Qed.

Lemma demo_pop : pq_Pop (Some PrioritySort_Less) demo_queue = Some (demo_popped, Popped demo_pod_stack).
Proof. vm_compute. reflexivity. Qed.

Lemma pod_is_bound_or_refused_witness : ∃ f s' cluster,
  worker demo_range (seq 0) id ∅ f (Some PrioritySort_Less) demo_get demo_patch demo_api_bind "u" demo_pod_scheduler [] =
    Some (s', [binding_of cluster demo_pod_stack], Some true).
Proof.
  destruct (built_exists demo_range false) as [f Hf]. exists f.
  destruct (pod_is_bound_or_refused demo_range (seq 0) id ∅ false f (Some PrioritySort_Less) demo_get demo_patch demo_api_bind "u" demo_pod_scheduler []
    demo_popped demo_pod demo_machine 5 demo_pod_stack (fun A m => reflexivity _) (fun n => reflexivity _) (fun l => reflexivity _) Hf demo_plain_world demo_pop demo_stack_of
    (fun cluster => eq_refl)) as (w' & Hbound & _).
  - vm_compute. reflexivity.
  - destruct Hbound as (n & site & _ & _ & _ & Hw).
    + exists "r1--az1"%string. split; [apply (bool_decide_unpack _); vm_compute; exact I|vm_compute; reflexivity].
    + exists (mkPodScheduler demo_popped w'), (ClusterName site). exact Hw.
Defined.

Lemma only_last_region_is_considered_witness : String.prefix "r1--" (SiteID demo_bind_site) = true ∧ suits ∅ demo_pod_stack demo_bind_info.
Proof.
  assert (suits ∅ demo_pod_stack demo_bind_info) as Hs by (apply (bool_decide_unpack (suits ∅ demo_pod_stack demo_bind_info)); vm_compute; exact I).
  split; [|exact Hs].
  exact (only_last_region_is_considered ∅ demo_pod demo_machine 5 demo_pod_stack demo_bind_info demo_bind_site [mkResourceRegion "r0" []] demo_region
    demo_stack_of eq_refl eq_refl Hs).
Defined.
