(* ===== verification/PodJourney.v ===== *)
(** * The journey of a pod

    Composes the processes with the API server ([PodStore]): a pending pod is assigned to a
    scheduler by the distributor ([DistributorProcess]), queued and bound to a cluster by that
    scheduler ([PodEvents], [PodProofs]), and sent to the cluster's cloud by the dispatcher
    ([DispatcherProcess]), each of which changes the stored pod through the API server.  The
    theorem follows the pod from one end to the other.  Two more show what becomes of the pod
    of another tenant than the system's, which the distributor takes for one of the system's. *)
From S2P Require Import Prelude Types Strconv Heap Backoff SchedQueue SiteTree SiteCacheInfo Cache Labels Framework FlavorProofs Plugins Strategy Binder.
From S2P Require Import Schedule Deployed FilterProofs ReserveProofs ScheduleProofs PodEvents PodProofs.
From S2P Require ApiTypes Openstack DistributorProcess DispatcherProcess PodStore.
Import PodStore.

Local Open Scope Z_scope.
#[local] Existing Instances Openstack.M_ret Openstack.M_bind.

(** ** What the processes see of a stored pod *)

Definition process_geo (g : GeoLocation) : ApiTypes.Alloc.GeoLocation := ApiTypes.Alloc.mkGeo (City g) (Province g) (Area g) (Country g).

(** The distributor and the dispatcher read a pod with a virtual machine. *)
Definition process_pod (p : Api.Pod) (vm : Api.VirtualMachine) : ApiTypes.Pod :=
  ApiTypes.mkPod (Api.Name (Api.meta p)) (Api.Namespace (Api.meta p)) (Api.CreationTimestamp (Api.meta p)) (Api.DeletionTimestamp (Api.meta p)) (Api.ResourceType (Api.spec p))
    (process_geo (GeoLocation_ (VM_Selector (Api.vm_Scheduling vm)))) (Api.ClusterName (Api.spec p)) (Api.vm_Name vm) (Api.vm_Image vm) (VM_Flavors (Api.vm_Scheduling vm))
    (Api.Nics (Api.spec p)) (Api.vm_SecurityGroupId vm) (Api.Phase (Api.status p)) (Api.DispatcherName (Api.status p)) (Api.ClusterInstanceId (Api.status p)).

Definition scheduler_pod (p : Api.Pod) : Pod :=
  mkPod (Api.Name (Api.meta p)) (Api.Namespace (Api.meta p)) (Api.Tenant (Api.meta p)) (Api.UID (Api.meta p)) (Api.vm_Scheduling <$> Api.VM (Api.spec p))
    (Api.Phase (Api.status p)) (Api.AssignedScheduler (Api.status p)).

(** The pod that a dispatcher was given, with the status that it has set. *)
Definition with_status (p : Api.Pod) (v : ApiTypes.Pod) : Api.Pod :=
  let st := Api.status p in
  Api.mkPod (Api.meta p) (Api.spec p) (Api.mkStatus (ApiTypes.P_Phase v) (Api.AssignedScheduler st) (Api.DistributorName st) (ApiTypes.P_DispatcherName v)
    (ApiTypes.P_ClusterInstanceId v) (Api.PodIP st) (Api.NominatedNodeName st) (Api.Conditions st)).

(** ** The calls of the processes *)

Section Journey.
Context (now : Z) (ValidatePodStatusUpdate : Api.Pod -> Api.Pod -> option string).
(** The rest of the world: the random source and the clouds. *)
Context {R H : Type}.

(** The distributor binds with the client of the system tenant
    (distributor_process.go:259-272 bindPod). *)
Definition api_assign (pod : ApiTypes.Pod) (scheduler distributor : string) (w : Api.server * R) : result unit * (Api.server * R) :=
  let '(e, s) := Api.pods_Bind w.1 (ApiTypes.P_Namespace pod) Api.Pods_tenant now (Api.mkBinding (ApiTypes.P_Name pod) "Scheduler" scheduler distributor ∅) in
  (match e with None => Ok tt | Some e => Err e end, (s, w.2)).

(** The scheduler binds with the client of the pod's tenant (scheduler/eventhandlers.go:413-441
    bindToSite). *)
Definition api_bind (s : Api.server) (b : Binding) : Api.server * option string :=
  let '(e, s) := Api.pods_Bind s (B_Namespace b) (B_Tenant b) now (Api.mkBinding (B_Name b) "Cluster" (Target b) "" ∅) in (s, e).

(** The dispatcher updates the status of the pod that it was given
    (dispatcher_process.go:283-300 SendPodToCluster). *)
Definition api_update (p : Api.Pod) (v : ApiTypes.Pod) (w : Api.server * H) : result unit * (Api.server * H) :=
  let '(r, s) := Api.pods_UpdateStatus ValidatePodStatusUpdate w.1 (ApiTypes.P_Namespace v) Api.TenantSystem (with_status p v) in
  (match r with Ok _ => Ok tt | Err e => Err e end, (s, w.2)).

(** ** The pod after each step *)

Definition pod_key (p : Api.Pod) : string * string * string := (Api.Tenant (Api.meta p), Api.Namespace (Api.meta p), Api.Name (Api.meta p)).

Definition scheduled_condition (st : Api.PodStatus) : Api.PodStatus := Api.set_conditions st (Api.UpdatePodCondition now (Api.Conditions st) "PodScheduled" "True").

Definition assigned (p : Api.Pod) (scheduler distributor : string) (rev : Z) : Api.Pod :=
  Api.set_version (Api.mkPod (Api.meta p) (Api.spec p) (scheduled_condition (Api.set_assigned (Api.status p) scheduler distributor))) rev.
Definition bound (p : Api.Pod) (cluster : string) (rev : Z) : Api.Pod :=
  Api.set_version (Api.mkPod (Api.meta p) (Api.set_cluster (Api.spec p) cluster) (scheduled_condition (Api.set_phase (Api.status p) Api.PodBound))) rev.
Definition sent (p : Api.Pod) (dispatcher id : string) (rev : Z) : Api.Pod :=
  let st := Api.status p in
  Api.set_version (Api.mkPod (Api.meta p) (Api.spec p) (Api.mkStatus Api.ClusterScheduled (Api.AssignedScheduler st) (Api.DistributorName st) dispatcher id
    (Api.PodIP st) (Api.NominatedNodeName st) (Api.Conditions st))) rev.

(** One more pod is written. *)
Definition stored (s : Api.server) (p : Api.Pod) : Api.server := Api.mkServer (<[pod_key p := p]> (Api.pods s)) (Api.revision s + 1).

Lemma meta_eta m : Api.mkMeta (Api.Name m) (Api.Namespace m) (Api.Tenant m) (Api.UID m) (Api.HashKey m) (Api.ResourceVersion m) (Api.CreationTimestamp m) (Api.DeletionTimestamp m)
  (∅ ∪ Api.Annotations m) (Api.OwnerReferences m) = m.
Proof. rewrite (left_id_L ∅ (∪)). by destruct m. Qed.

(** A binding of an existing pod that is not being deleted and is in another phase. *)
Lemma bind_changes s p kind target path sp st : Api.pods s !! pod_key p = Some p -> Api.DeletionTimestamp (Api.meta p) = None ->
  existsb (String.eqb kind) [""; "Node"; "Scheduler"; "Cluster"]%string = true -> Api.set_target p "" kind target path = Ok (sp, st) -> Api.Phase st <> Api.Phase (Api.status p) ->
  Api.pods_Bind s (Api.Namespace (Api.meta p)) (Api.Tenant (Api.meta p)) now (Api.mkBinding (Api.Name (Api.meta p)) kind target path ∅) =
    (None, stored s (Api.set_version (Api.mkPod (Api.meta p) sp (scheduled_condition st)) (Api.revision s + 1))).
Proof.
  intros Hp Hd Hk Ht Hph. unfold Api.pods_Bind, Api.Binding_Create, Api.ValidatePodBinding. cbn [Api.Target_Kind Api.Binding_Name Api.Target_Name Api.Target_FieldPath Api.Binding_Annotations]. rewrite Hk.
  unfold Api.update_pod. unfold pod_key in Hp. rewrite Hp. unfold Api.setPodHostAndAnnotations. rewrite Hd, Ht. rewrite <- Hd, meta_eta. rewrite decide_False; [done|].
  intros E. apply (f_equal (fun q => Api.Phase (Api.status q))) in E. cbn in E. by rewrite E in Hph.
Qed.

(** ** The distributor *)

Lemma distributor_assigns (rand_Intn : nat -> Api.server * R -> nat * (Api.server * R)) api_UpdateStatus dp s r p vm :
  (forall n w, (0 < n)%nat -> ((rand_Intn n w).1 < n)%nat) -> (forall n w, (rand_Intn n w).2.1 = w.1) ->
  Api.pods s !! pod_key p = Some p -> Api.Tenant (Api.meta p) = Api.TenantSystem -> Api.DeletionTimestamp (Api.meta p) = None -> Api.Phase (Api.status p) = Api.PodPending ->
  Api.ResourceType (Api.spec p) = "vm"%string ->
  (∃ sch, sch ∈ DistributorProcess.schedulers dp ∧ DistributorProcess.covers_location (ApiTypes.P_GeoLocation (process_pod p vm)) sch) ->
  ∃ sch r', sch ∈ DistributorProcess.schedulers dp ∧ DistributorProcess.covers_location (ApiTypes.P_GeoLocation (process_pod p vm)) sch ∧
    DistributorProcess.addPod rand_Intn api_assign api_UpdateStatus dp (process_pod p vm) (s, r) =
      Some (process_pod p vm, (stored s (assigned p (ApiTypes.S_Name sch) (DistributorProcess.p_name dp) (Api.revision s + 1)), r')).
Proof.
  intros Hrand Hkeep Hp Ht Hd Hph Hvm (sch0 & Hin0 & Hc0). destruct (DistributorProcess.findFit_chosen rand_Intn Hrand dp (process_pod p vm) (s, r)) as (res & w' & Hfit & Hres).
  destruct res as [name|e]; [|by destruct (Hres sch0 Hin0)]. destruct Hres as (sch & Hin & Hcov & <-).
  assert (w'.1 = s) as Hw.
  { unfold DistributorProcess.findFit, DistributorProcess.pick in Hfit. destruct (length _); [done|]. destruct (rand_Intn _ (s, r)) as [i w1] eqn:E.
    destruct (_ !! i); [|done]. injection Hfit as _ <-. specialize (Hkeep (S n) (s, r)). by rewrite E in Hkeep. }
  exists sch, w'.2. split_and!; [done|done|]. unfold DistributorProcess.addPod. cbn [ApiTypes.P_ResourceType process_pod]. rewrite Hvm. cbn [String.eqb Ascii.eqb Bool.eqb].
  unfold DistributorProcess.ScheduleOne. rewrite Hfit. bind_simpl. unfold DistributorProcess.bindPod, api_assign. cbn [ApiTypes.P_Namespace ApiTypes.P_Name process_pod].
  unfold Api.Pods_tenant. rewrite <- Ht, Hw, (bind_changes s p "Scheduler" _ _ (Api.spec p) (Api.set_assigned (Api.status p) (ApiTypes.S_Name sch) (DistributorProcess.p_name dp))); try done.
  by rewrite Hph.
Qed.

(** The pod of another tenant is looked for among those of the system's tenant.  Without a
    pod of its name there the binding fails, and nothing that is stored changes. *)
Theorem other_tenant_is_not_found s r p scheduler distributor : Api.Tenant (Api.meta p) <> Api.TenantSystem ->
  Api.pods s !! (Api.TenantSystem, Api.Namespace (Api.meta p), Api.Name (Api.meta p)) = None -> forall vm,
  api_assign (process_pod p vm) scheduler distributor (s, r) = (Err "not found"%string, (s, r)).
Proof.
  intros Ht Hno vm. unfold api_assign, Api.pods_Bind, Api.Binding_Create. cbn [Api.ValidatePodBinding Api.Target_Kind existsb]. cbn [Api.Binding_Name fst snd ApiTypes.P_Namespace ApiTypes.P_Name process_pod].
  change (Api.ValidatePodBinding _) with (None : option string). cbn iota. unfold Api.update_pod, Api.Pods_tenant. by rewrite Hno.
Qed.

(** With a pending pod of its name there, that pod is assigned in its place. *)
Theorem other_tenant_assigns_its_namesake s r p q scheduler distributor vm : Api.Tenant (Api.meta p) <> Api.TenantSystem ->
  pod_key q = (Api.TenantSystem, Api.Namespace (Api.meta p), Api.Name (Api.meta p)) -> Api.pods s !! pod_key q = Some q ->
  Api.DeletionTimestamp (Api.meta q) = None -> Api.Phase (Api.status q) = Api.PodPending ->
  api_assign (process_pod p vm) scheduler distributor (s, r) = (Ok tt, (stored s (assigned q scheduler distributor (Api.revision s + 1)), r)).
Proof.
  intros _ Hkey Hq Hd Hph. injection Hkey as Ht Hns Hname. unfold api_assign. cbn [ApiTypes.P_Namespace ApiTypes.P_Name process_pod fst]. unfold Api.Pods_tenant. rewrite <- Ht, <- Hns, <- Hname.
  rewrite (bind_changes s q "Scheduler" scheduler distributor (Api.spec q) (Api.set_assigned (Api.status q) scheduler distributor)); try done. by rewrite Hph.
Qed.

(** ** The scheduler *)

Section Queue.
Context (clk : nat -> Z) (queueSortFunc : option (StackInfo -> StackInfo -> bool)) {Hcomp : StrictWeakOrder (comp queueSortFunc)}.

(** A stack that is added to a queue without others is the next to be taken. *)
Lemma added_is_popped q stack : queue_wf queueSortFunc q -> valid_names stack -> objs (activeQ q) = ∅ ->
  ∃ q1 q2, pq_Add clk queueSortFunc q stack = Some (q1, Ok tt) ∧ pq_Pop queueSortFunc q1 = Some (q2, Popped stack).
Proof.
  intros Hwf Hv Hempty. destruct (pq_Add_spec clk queueSortFunc q stack Hwf Hv) as (q1 & Ha & Hwf1 & _).
  assert (∃ si, SI_Stack si = stack ∧ objs (activeQ q1) = <[info_key si := si]> ∅) as (si & Hsi & Hobj).
  { destruct Hwf as (Hwa & Hoa & Hwb & _). unfold pq_Add, newStackInfo, Now in Ha. set (si := mkStackInfo stack _) in Ha. set (p1 := set_reads _ _) in Ha.
    destruct (activeQ_Add_spec queueSortFunc p1 si Hwa Hoa) as (ha & E & _ & _ & Hobjs). rewrite E in Ha. cbn [mbind option_bind is_ok] in Ha.
    set (p2 := match unsched_get _ _ with Some _ => _ | None => _ end) in Ha. assert (activeQ p2 = ha ∧ stackBackoffQ p2 = stackBackoffQ q) as [Hp2 Hp2'] by (unfold p2; by destruct (unsched_get _ _)).
    destruct (backoffQ_Delete_spec p2 si) as (hb & r & E2 & _); [by rewrite Hp2'|]. rewrite E2 in Ha. bind_simpl in Ha. injection Ha as <-.
    exists si. split; [done|]. cbn. rewrite Hp2, Hobjs. cbn. by rewrite Hempty. }
  destruct (pq_Pop_spec queueSortFunc q1 Hwf1) as (q2 & r & Hpop & _ & Hout). exists q1, q2. split; [done|]. rewrite Hpop. do 2 f_equal.
  destruct r as [|msg|st]; [by destruct Hout as (_ & Hno & _); rewrite Hobj in Hno; apply insert_non_empty in Hno..|].
  destruct Hout as (si' & <- & Hl & _). rewrite Hobj in Hl. destruct (decide (info_key si' = info_key si)) as [E|E].
  - rewrite E, lookup_insert_eq in Hl. injection Hl as <-. by rewrite Hsi.
  - rewrite lookup_insert_ne, lookup_empty in Hl by done. done.
Qed.
End Queue.

(** The stack of a stored pod, queued now. *)
Definition pod_stack (p : Api.Pod) (vm : Api.VirtualMachine) : Stack :=
  let v := Api.vm_Scheduling vm in let m := Api.meta p in
  mkStack (Api.Name m) ∅ (getStackResources (Api.Name m) v) (getStackSelector (VM_Selector v)) (mkSelected "" "" "" "" "") (Api.UID m) now (Api.Tenant m) (Api.Namespace m).

Section Scheduler.
Context (range : forall A : Type, gmap string A -> list (string * A)) (order : nat -> list nat) (sort_Reverse : list SiteScore -> list SiteScore)
  (config_FlavorMap : gmap string RegionFlavor) (spot_fake : bool) (f : framework).
Context (clk : nat -> Z) (queueSortFunc : option (StackInfo -> StackInfo -> bool)) (DeepEqual : option Stack -> option Stack -> bool).
Context (Pods_Get : Api.server -> string -> string -> string -> result string)
  (PatchPodStatus : Api.server -> string -> string -> string -> string -> string -> Api.server * option string).

(** A scheduler that can take the pod: nothing is queued, its sites are well-formed, and one
    of the candidates is suitable. *)
Record ready (ps : PodScheduler) (stack : Stack) : Prop := {
  rd_queue : queue_wf queueSortFunc (StackQueue ps);
  rd_idle : objs (activeQ (StackQueue ps)) = ∅;
  rd_world : plain_world (ps_World ps);
  rd_small : sum_of (site_capacity ∅ (ps_World ps) stack) (candidate_ids range (w_snapshot (ps_World ps)) stack) < 2 ^ 53;
  rd_site : ∃ id, id ∈ candidate_ids range (w_snapshot (ps_World ps)) stack ∧ 0 < site_capacity ∅ (ps_World ps) stack id }.

(** The cluster of a suitable site. *)
Definition suitable_cluster (ps : PodScheduler) (stack : Stack) (cluster : string) : Prop :=
  ∃ n site, info_of (ps_World ps) (SiteID site) = Some n ∧ GetSite n = Some site ∧ suits ∅ stack n ∧ ClusterName site = cluster.

Hypothesis Hrange : forall A (m : gmap string A), range A m ≡ₚ map_to_list m.
Hypothesis Horder : forall n, order n ≡ₚ seq 0 n.
Hypothesis Hsort : forall l, sort_Reverse l ≡ₚ l.
Hypothesis Hf : buildFramework range spot_fake edgecloud_policy = Ok f.
Hypothesis Hcomp : StrictWeakOrder (comp queueSortFunc).

Lemma assigned_is_queued ps p name distributor rev vm : Api.VM (Api.spec p) = Some vm -> Api.Phase (Api.status p) = Api.PodPending -> ready ps (pod_stack p vm) -> valid_names (pod_stack p vm) ->
  ∃ q1 q2, pod_updated clk queueSortFunc DeepEqual name now ps (APod (scheduler_pod p)) (APod (scheduler_pod (assigned p name distributor rev))) = Some (set_pod_queue ps q1) ∧
    pq_Pop queueSortFunc q1 = Some (q2, Popped (pod_stack p vm)).
Proof.
  intros Hvm Hph [Hwf Hidle _ _ _] Hv. destruct (added_is_popped clk queueSortFunc (StackQueue ps) (pod_stack p vm) Hwf Hv Hidle) as (q1 & q2 & Hadd & Hpop).
  exists q1, q2. split; [|done].
  assert (cache_filter name (APod (scheduler_pod p)) = false ∧ queue_filter name (APod (scheduler_pod p)) = false) as [Hc0 Hq0].
  { cbn. unfold assignedPod, needToSchedule. cbn [P_Phase scheduler_pod]. rewrite Hph. cbn [String.eqb]. rewrite !andb_false_r. split; reflexivity. }
  assert (cache_filter name (APod (scheduler_pod (assigned p name distributor rev))) = false ∧ queue_filter name (APod (scheduler_pod (assigned p name distributor rev))) = true) as [Hc1 Hq1].
  { cbn. unfold assignedPod, needToSchedule, is_vm, responsibleForPod. cbn. rewrite Hvm. cbn. rewrite String.eqb_refl. split; reflexivity. }
  unfold pod_updated, OnUpdate. rewrite Hc0, Hc1. bind_simpl. rewrite Hq0, Hq1. cbn [addPodToSchedulingQueue getStackFromPod]. unfold getStackFromPod. cbn [P_VirtualMachine scheduler_pod].
  change (Api.VM (Api.spec (assigned p name distributor rev))) with (Api.VM (Api.spec p)). rewrite Hvm. cbn [fmap option_fmap option_map mbind option_bind].
  change (set_create_time _ now) with (pod_stack p vm). rewrite Hadd. by bind_simpl.
Qed.

Lemma scheduler_binds uid ps s p name distributor rev vm q1 q2 : let p1 := assigned p name distributor rev in
  Api.VM (Api.spec p) = Some vm -> VM_Flavors (Api.vm_Scheduling vm) <> [] -> Api.DeletionTimestamp (Api.meta p) = None ->
  ready ps (pod_stack p vm) -> Api.pods s !! pod_key p1 = Some p1 -> pq_Pop queueSortFunc q1 = Some (q2, Popped (pod_stack p vm)) ->
  ∃ ps' cluster, suitable_cluster ps (pod_stack p vm) cluster ∧
    worker range order sort_Reverse config_FlavorMap f queueSortFunc Pods_Get PatchPodStatus api_bind uid (set_pod_queue ps q1) s =
      Some (ps', stored s (bound p1 cluster (Api.revision s + 1)), Some true).
Proof.
  intros p1 Hvm Hfl Hd [_ _ Hw Hsmall Hsite] Hp1 Hpop.
  assert (forall cluster, api_bind s (binding_of cluster (pod_stack p vm)) = (stored s (bound p1 cluster (Api.revision s + 1)), None)) as Hbind.
  { intros cluster. unfold api_bind. cbn [binding_of B_Namespace B_Tenant B_Name Target pod_stack PodNamespace Tenant PodName].
    assert (Api.pods_Bind s (Api.Namespace (Api.meta p)) (Api.Tenant (Api.meta p)) now (Api.mkBinding (Api.Name (Api.meta p)) "Cluster" cluster "" ∅) =
      (None, stored s (bound p1 cluster (Api.revision s + 1)))) as E; [|by rewrite E].
    by apply (bind_changes s p1 "Cluster" cluster "" (Api.set_cluster (Api.spec p1) cluster) (Api.set_phase (Api.status p1) Api.PodBound)). }
  assert (stack_of (scheduler_pod p1) (Api.vm_Scheduling vm) now (pod_stack p vm)) as Hstack.
  { assert (P_VirtualMachine (scheduler_pod p1) = Some (Api.vm_Scheduling vm)) as E by (unfold scheduler_pod; cbn; by rewrite Hvm).
    split; [done|]. split; [done|]. unfold getStackFromPod. rewrite E. eexists. split; reflexivity. }
  destruct (worker_turn range order sort_Reverse config_FlavorMap spot_fake f queueSortFunc Pods_Get PatchPodStatus api_bind uid (set_pod_queue ps q1) s q2 _ _ now (pod_stack p vm)
    Hrange Horder Hsort Hf Hw Hpop Hstack) as (w' & Hyes & _); [intros cluster; by rewrite Hbind|done|].
  destruct (Hyes Hsite) as (n & site & Hinfo & Hget & Hsuits & Hrun). rewrite Hbind in Hrun. exists (mkPodScheduler q2 w'), (ClusterName site). split; [|done].
  exists n, site. split; [exact Hinfo|]. split; [exact Hget|]. split; [exact Hsuits|reflexivity].
Qed.
End Scheduler.

(** ** The dispatcher *)

Section Dispatcher.
Context (NewRequest : string -> bool) (http_Do : Openstack.request -> Api.server * H -> result Openstack.response * (Api.server * H)) (api_Cluster : string -> Api.server * H -> result ApiTypes.Cluster * (Api.server * H))
  (time_Now : Api.server * H -> Z * (Api.server * H)).

(** The response of a cloud that has created a server. *)
Definition creation (resp : Openstack.response) (id : string) : Prop :=
  (Openstack.StatusCode resp =? Openstack.StatusForbidden) = false ∧
  ∃ fields server, Openstack.RespBody resp = Some fields ∧ Openstack.member fields "server" = Openstack.JObject server ∧ Openstack.member server "id" = Openstack.JString id.

(** The dispatcher knows the host of the cluster, whose address makes a URL, and a token, and
    the cloud there creates the
    servers that it is asked for. *)
Definition reachable_cloud (proc : DispatcherProcess.Process) (cluster : string) : Prop :=
  ∃ host token, DispatcherProcess.cached proc cluster host token ∧ NewRequest (Openstack.servers_url host) = true ∧
    forall server s h, ∃ resp id h', http_Do (Openstack.create_request host token server) (s, h) = (Ok resp, (s, h')) ∧ creation resp id.

Hypothesis Htime : forall w, (time_Now w).2.1 = w.1.
(** The validation accepts a change of the status that keeps the conditions and the nominated
    node. *)
Hypothesis Hvalid : forall p st, Api.Conditions st = Api.Conditions (Api.status p) -> Api.NominatedNodeName st = Api.NominatedNodeName (Api.status p) ->
  ValidatePodStatusUpdate (Api.mkPod (Api.meta p) (Api.spec p) st) p = None.

Lemma status_updated s h p v : Api.pods s !! pod_key p = Some p -> Api.Tenant (Api.meta p) = Api.TenantSystem -> Api.DeletionTimestamp (Api.meta p) = None ->
  ApiTypes.P_Namespace v = Api.Namespace (Api.meta p) -> ApiTypes.P_Phase v <> Api.Phase (Api.status p) ->
  api_update p v (s, h) = (Ok tt, (stored s (Api.set_version (with_status p v) (Api.revision s + 1)), h)).
Proof.
  intros Hp Ht Hd Hns Hph. unfold api_update, Api.pods_UpdateStatus, Api.Status_Update. cbn [fst snd]. rewrite Hns. cbn [Api.meta with_status]. rewrite Ht. cbn [String.eqb].
  change (if String.eqb Api.TenantSystem "" then Api.TenantSystem else Api.TenantSystem) with Api.TenantSystem.
  unfold Api.update_pod. unfold pod_key in Hp. rewrite Ht in Hp. rewrite Hp. unfold Api.update_existing. cbn [Api.meta with_status]. rewrite Z.eqb_refl, andb_false_r.
  assert (Api.set_version (with_status p v) (Api.ResourceVersion (Api.meta p)) = with_status p v) as -> by (unfold Api.set_version, with_status; cbn; by destruct (Api.meta p)).
  assert (Api.BeforeUpdate ValidatePodStatusUpdate Api.TenantSystem (Api.Namespace (Api.meta p)) (with_status p v) p = Ok (with_status p v)) as ->.
  { unfold Api.BeforeUpdate, Api.fill_scope. cbn [Api.meta with_status]. rewrite Ht. cbn [String.eqb Api.TenantSystem Ascii.eqb Bool.eqb].
    assert ((if String.eqb (Api.Namespace (Api.meta p)) "" then Api.Namespace (Api.meta p) else Api.Namespace (Api.meta p)) = Api.Namespace (Api.meta p)) as -> by (by destruct (String.eqb _ _)).
    rewrite String.eqb_refl. unfold Api.PrepareForStatusUpdate. cbn [Api.meta Api.spec Api.status Api.Name Api.Namespace Api.Tenant Api.UID Api.HashKey Api.ResourceVersion Api.CreationTimestamp Api.DeletionTimestamp Api.Annotations Api.OwnerReferences].
    match goal with |- match ValidatePodStatusUpdate ?q p with _ => _ end = _ => assert (q = with_status p v) as -> end.
    { unfold with_status. f_equal. rewrite Hd. change "system"%string with Api.TenantSystem. rewrite <- Ht. destruct (Api.meta p) as [? ? ? uid hk ? ct ? ? ?]. cbn in *. subst. f_equal.
      - by destruct (String.eqb uid "").
      - by destruct (hk =? 0).
      - by destruct (ct =? 0). }
    unfold with_status. by rewrite Hvalid. }
  rewrite decide_False; [unfold stored; by rewrite <- Ht|]. intros E. apply (f_equal (fun q => Api.Phase (Api.status q))) in E. cbn in E. done.
Qed.

Lemma M_step {S A B} (m : Openstack.M S A) (k : A -> Openstack.M S B) s x s1 : m s = Some (x, s1) -> mbind k m s = k x s1.
Proof. intros E. unfold mbind, Openstack.M_bind. by rewrite E. Qed.

Lemma server_created host token v s h : ApiTypes.P_FlavorIDs v <> [] -> ApiTypes.P_Nics v <> [] ->
  NewRequest (Openstack.servers_url host) = true -> (forall server s h, ∃ resp id h', http_Do (Openstack.create_request host token server) (s, h) = (Ok resp, (s, h')) ∧ creation resp id) ->
  ∃ id h', Openstack.ServerCreate NewRequest http_Do host token v (s, h) = Some (Ok id, (s, h')).
Proof.
  intros Hf Hn Hurl Hdo. unfold Openstack.ServerCreate. destruct (ApiTypes.P_FlavorIDs v) as [|fl fls]; [done|]. destruct (ApiTypes.P_Nics v) as [|nic nics]; [done|].
  match goal with |- ∃ id h', ?m = _ => change m with ((resp ← Openstack.Do NewRequest http_Do (Openstack.create_request host token
    (Openstack.mkServer (ApiTypes.P_VMName v) (ApiTypes.P_Image v) fl [{["uuid"%string := nic]}] [{["name"%string := ApiTypes.P_SecurityGroupId v]}]
      {["ClusterName"%string := ApiTypes.P_ClusterName v]})); Openstack.read_created resp) (s, h)) end.
  edestruct Hdo as (resp & id & h' & Hr & Hforb & fields & server & Hbody & Hserver & Hid). exists id, h'.
  erewrite M_step by (unfold Openstack.Do, Openstack.create_request; cbn [Openstack.URL]; rewrite Hurl; unfold Openstack.create_request in Hr; by rewrite Hr). unfold Openstack.read_created. by rewrite Hbody, Hforb, Hserver, Hid.
Qed.

Lemma creation_counted since s h proc : 0 <= DispatcherProcess.totalPodCreateNum proc < MaxInt64 ->
  ∃ x h' proc', DispatcherProcess.count_pod_create time_Now since (DispatcherProcess.mkSt (s, h) proc) = Some (x, DispatcherProcess.mkSt (s, h') proc').
Proof.
  intros Hn. destruct (time_Now (s, h)) as [t [s1 h1]] eqn:E. assert (s1 = s) as -> by (specialize (Htime (s, h)); by rewrite E in Htime).
  unfold DispatcherProcess.count_pod_create. erewrite (M_step DispatcherProcess.get_p) by reflexivity. cbn beta zeta. erewrite (M_step (DispatcherProcess.put_p _)) by reflexivity.
  erewrite (M_step (DispatcherProcess.env _)) by (unfold DispatcherProcess.env; cbn [DispatcherProcess.world]; rewrite E; reflexivity). cbn beta zeta.
  erewrite (M_step (DispatcherProcess.put_p _)) by reflexivity. unfold DispatcherProcess.quot64. cbn [DispatcherProcess.set_totals DispatcherProcess.totalPodCreateNum DispatcherProcess.proc DispatcherProcess.world].
  rewrite (wrap64_id (DispatcherProcess.totalPodCreateNum proc + 1)) by (unfold int64_range, MinInt64, MaxInt64 in *; lia).
  destruct (Z.eqb_spec (DispatcherProcess.totalPodCreateNum proc + 1) 0); [lia|]. eexists _, _, _. reflexivity.
Qed.

Lemma dispatcher_sends proc s h p vm : Api.pods s !! pod_key p = Some p -> Api.Tenant (Api.meta p) = Api.TenantSystem -> Api.DeletionTimestamp (Api.meta p) = None ->
  Api.Phase (Api.status p) = Api.PodBound -> VM_Flavors (Api.vm_Scheduling vm) <> [] -> Api.Nics (Api.spec p) <> [] ->
  reachable_cloud proc (Api.ClusterName (Api.spec p)) -> 0 <= DispatcherProcess.totalPodCreateNum proc < MaxInt64 ->
  ∃ id v h' proc', DispatcherProcess.SendPodToCluster NewRequest http_Do api_Cluster (api_update p) time_Now (process_pod p vm) (DispatcherProcess.mkSt (s, h) proc) =
    Some (v, DispatcherProcess.mkSt (stored s (sent p (DispatcherProcess.p_name proc) id (Api.revision s + 1)), h') proc').
Proof.
  intros Hp Ht Hd Hph Hfl Hnic (host & token & [Hip Htok] & Hurl & Hdo) Hn. unfold DispatcherProcess.SendPodToCluster.
  assert (DispatcherProcess.host_and_token NewRequest http_Do api_Cluster (ApiTypes.P_ClusterName (process_pod p vm)) (DispatcherProcess.mkSt (s, h) proc) =
    Some (Some (host, token), DispatcherProcess.mkSt (s, h) proc)) as Hht.
  { unfold DispatcherProcess.host_and_token, DispatcherProcess.getHostIP, DispatcherProcess.getToken, mbind, Openstack.M_bind. cbn. rewrite Hip. cbn. by rewrite Htok. }
  set (v0 := process_pod p vm) in *. set (v1 := DispatcherProcess.set_pod_status v0 (ApiTypes.P_Phase v0) (DispatcherProcess.p_name proc) (ApiTypes.P_ClusterInstanceId v0)).
  destruct (creation_counted (ApiTypes.P_CreationTime v1) s h proc Hn) as (x & h1 & proc1 & Hcount).
  destruct (server_created host token v1 s h1 Hfl Hnic Hurl Hdo) as (id & h2 & Hcreate).
  set (v2 := DispatcherProcess.set_pod_status v1 "Scheduled" (DispatcherProcess.p_name proc) id).
  assert (api_update p v2 (s, h2) = (Ok tt, (stored s (sent p (DispatcherProcess.p_name proc) id (Api.revision s + 1)), h2))) as Hupdate.
  { rewrite (status_updated s h2 p v2); [done..|]. by rewrite Hph. }
  exists id, v2, h2, proc1. rewrite (M_step _ _ _ _ _ Hht). cbn beta iota. erewrite (M_step DispatcherProcess.get_p) by reflexivity. cbn beta zeta. cbn [DispatcherProcess.proc]. fold v1.
  change (ApiTypes.P_DeletionTime v1) with (Api.DeletionTimestamp (Api.meta p)). rewrite Hd. rewrite (M_step _ _ _ _ _ Hcount).
  erewrite (M_step (DispatcherProcess.openstack _)) by (unfold DispatcherProcess.openstack; cbn [DispatcherProcess.world]; rewrite Hcreate; reflexivity).
  cbn beta iota zeta. change (DispatcherProcess.set_pod_status v1 "Scheduled" (ApiTypes.P_DispatcherName v1) id) with v2.
  erewrite (M_step (DispatcherProcess.env _)) by (unfold DispatcherProcess.env; cbn [DispatcherProcess.world]; rewrite Hupdate; reflexivity). reflexivity.
Qed.
End Dispatcher.

Lemma stored_lookup s p : Api.pods (stored s p) !! pod_key p = Some p.
Proof. apply lookup_insert_eq. Qed.

(** ** From a pending pod to its cloud *)

Section Composition.
Context (range : forall A : Type, gmap string A -> list (string * A)) (order : nat -> list nat) (sort_Reverse : list SiteScore -> list SiteScore)
  (config_FlavorMap : gmap string RegionFlavor) (spot_fake : bool) (f : framework).
Context (clk : nat -> Z) (queueSortFunc : option (StackInfo -> StackInfo -> bool)) (DeepEqual : option Stack -> option Stack -> bool).
Context (Pods_Get : Api.server -> string -> string -> string -> result string)
  (PatchPodStatus : Api.server -> string -> string -> string -> string -> string -> Api.server * option string).
Context (rand_Intn : nat -> Api.server * R -> nat * (Api.server * R)) (api_UpdateStatus : string -> ApiTypes.Pod -> Api.server * R -> result unit * (Api.server * R)).
Context (NewRequest : string -> bool) (http_Do : Openstack.request -> Api.server * H -> result Openstack.response * (Api.server * H)) (api_Cluster : string -> Api.server * H -> result ApiTypes.Cluster * (Api.server * H))
  (time_Now : Api.server * H -> Z * (Api.server * H)).

(** What one pod goes through: the distributor assigns it, its scheduler, one of [schedulers],
    sees the change and works on it, and the dispatcher sends the bound pod.  [pod1] to [pod3]
    are what the API server holds after each of them. *)
Definition journey (dp : DistributorProcess.Process) (schedulers : string -> PodScheduler) (proc : DispatcherProcess.Process) (uid : string)
    (s : Api.server) (r : R) (h : H) (pod : Api.Pod) (vm : Api.VirtualMachine) : option (Api.server * PodScheduler * (Api.Pod * Api.Pod * Api.Pod)) :=
  '(_, (s1, r)) ← DistributorProcess.addPod rand_Intn api_assign api_UpdateStatus dp (process_pod pod vm) (s, r);
  pod1 ← Api.pods s1 !! pod_key pod;
  let scheduler := Api.AssignedScheduler (Api.status pod1) in
  ps ← pod_updated clk queueSortFunc DeepEqual scheduler now (schedulers scheduler) (APod (scheduler_pod pod)) (APod (scheduler_pod pod1));
  '(ps, s2, _) ← worker range order sort_Reverse config_FlavorMap f queueSortFunc Pods_Get PatchPodStatus api_bind uid ps s1;
  pod2 ← Api.pods s2 !! pod_key pod;
  '(_, st) ← DispatcherProcess.SendPodToCluster NewRequest http_Do api_Cluster (api_update pod2) time_Now (process_pod pod2 vm) (DispatcherProcess.mkSt (s2, h) proc);
  let s3 := (DispatcherProcess.world st).1 in
  pod3 ← Api.pods s3 !! pod_key pod; Some (s3, ps, (pod1, pod2, pod3)).

(** C2.  A pending pod with a virtual machine reaches the cloud of a cluster that suits it. The
    pod is of the system's tenant and not being deleted, its names have no slash, and it names
    flavors and network interfaces. Some scheduler of the distributor covers its location, and
    each scheduler that does is ready for it: its active queue is empty, its snapshot is
    well-formed with capacities below 2^53, and one of its candidate sites is suitable. For the
    cluster of each suitable site the dispatcher has in its caches a host, to which requests
    can be made, and a token, and the cloud there creates every server that it is asked for;
    the API server accepts changes of the status, and the dispatcher's counter of pods is below
    the largest integer. Then the stored pod is assigned to such a scheduler, then bound to the
    cluster of a site that meets its request, then scheduled with the identifier of a server
    that its cloud created; each step writes it once, and nothing else that is stored changes. *)
Theorem pod_reaches_its_cloud dp schedulers proc uid s r h pod vm
  (Hrange : forall A (m : gmap string A), range A m ≡ₚ map_to_list m) (Horder : forall n, order n ≡ₚ seq 0 n) (Hsort : forall l, sort_Reverse l ≡ₚ l)
  (Hf : buildFramework range spot_fake edgecloud_policy = Ok f) (Hcomp : StrictWeakOrder (comp queueSortFunc))
  (Hrand : forall n w, (0 < n)%nat -> ((rand_Intn n w).1 < n)%nat) (Hkeep : forall n w, (rand_Intn n w).2.1 = w.1) (Htime : forall w, (time_Now w).2.1 = w.1)
  (Hvalid : forall p st, Api.Conditions st = Api.Conditions (Api.status p) -> Api.NominatedNodeName st = Api.NominatedNodeName (Api.status p) ->
    ValidatePodStatusUpdate (Api.mkPod (Api.meta p) (Api.spec p) st) p = None)
  (Hpod : Api.pods s !! pod_key pod = Some pod) (Htenant : Api.Tenant (Api.meta pod) = Api.TenantSystem) (Hlive : Api.DeletionTimestamp (Api.meta pod) = None)
  (Hpending : Api.Phase (Api.status pod) = Api.PodPending) (Htype : Api.ResourceType (Api.spec pod) = "vm"%string) (Hvm : Api.VM (Api.spec pod) = Some vm)
  (Hflavors : VM_Flavors (Api.vm_Scheduling vm) <> []) (Hnics : Api.Nics (Api.spec pod) <> []) (Hnames : valid_names (pod_stack pod vm)) :
  let covering sch := sch ∈ DistributorProcess.schedulers dp ∧ DistributorProcess.covers_location (ApiTypes.P_GeoLocation (process_pod pod vm)) sch in
  (∃ sch, covering sch) -> (forall sch, covering sch -> ready range queueSortFunc (schedulers (ApiTypes.S_Name sch)) (pod_stack pod vm)) ->
  (forall sch cluster, covering sch -> suitable_cluster (schedulers (ApiTypes.S_Name sch)) (pod_stack pod vm) cluster -> reachable_cloud NewRequest http_Do proc cluster) ->
  0 <= DispatcherProcess.totalPodCreateNum proc < MaxInt64 ->
  ∃ s3 ps sch cluster id,
    let pod1 := assigned pod (ApiTypes.S_Name sch) (DistributorProcess.p_name dp) (Api.revision s + 1) in
    let pod2 := bound pod1 cluster (Api.revision s + 2) in
    let pod3 := sent pod2 (DispatcherProcess.p_name proc) id (Api.revision s + 3) in
    covering sch ∧ suitable_cluster (schedulers (ApiTypes.S_Name sch)) (pod_stack pod vm) cluster ∧
    journey dp schedulers proc uid s r h pod vm = Some (s3, ps, (pod1, pod2, pod3)) ∧
    s3 = Api.mkServer (<[pod_key pod := pod3]> (Api.pods s)) (Api.revision s + 3).
Proof.
  intros covering Hex Hready Hcloud Hn.
  destruct (distributor_assigns rand_Intn api_UpdateStatus dp s r pod vm Hrand Hkeep Hpod Htenant Hlive Hpending Htype Hex) as (sch & r' & Hin & Hcov & Hassign).
  set (pod1 := assigned _ _ _ _) in Hassign. specialize (Hready sch (conj Hin Hcov)). specialize (Hcloud sch).
  destruct (assigned_is_queued range clk queueSortFunc DeepEqual Hcomp _ pod (ApiTypes.S_Name sch) (DistributorProcess.p_name dp) (Api.revision s + 1) vm Hvm Hpending Hready Hnames) as (q1 & q2 & Hqueue & Hpop).
  destruct (scheduler_binds range order sort_Reverse config_FlavorMap spot_fake f queueSortFunc Pods_Get PatchPodStatus Hrange Horder Hsort Hf uid _ (stored s pod1) pod (ApiTypes.S_Name sch)
    (DistributorProcess.p_name dp) (Api.revision s + 1) vm q1 q2 Hvm Hflavors Hlive Hready (stored_lookup _ _) Hpop) as (ps & cluster & Hsuit & Hwork).
  fold pod1 in Hwork, Hqueue. set (pod2 := bound _ _ _) in Hwork.
  destruct (dispatcher_sends NewRequest http_Do api_Cluster time_Now Htime Hvalid proc (stored (stored s pod1) pod2) h pod2 vm (stored_lookup _ _) Htenant Hlive eq_refl Hflavors Hnics
    (Hcloud cluster (conj Hin Hcov) Hsuit) Hn) as (id & v & h' & proc' & Hsend).
  set (pod3 := sent _ _ _ _) in Hsend. exists (stored (stored (stored s pod1) pod2) pod3), ps, sch, cluster, id. cbn zeta. split; [by split|]. split; [exact Hsuit|].
  assert (Api.revision s + 1 + 1 = Api.revision s + 2 ∧ Api.revision s + 1 + 1 + 1 = Api.revision s + 3) as [E2 E3] by (split; lia).
  split; [unfold journey; rewrite Hassign; bind_simpl; change (pod_key pod) with (pod_key pod1)|].
  - rewrite stored_lookup. bind_simpl. change (Api.AssignedScheduler (Api.status pod1)) with (ApiTypes.S_Name sch). rewrite Hqueue. bind_simpl. rewrite Hwork. bind_simpl.
    change (pod_key pod1) with (pod_key pod2). rewrite stored_lookup. bind_simpl. rewrite Hsend. bind_simpl. change (pod_key pod2) with (pod_key pod3). cbn [DispatcherProcess.world fst].
    rewrite stored_lookup. bind_simpl. unfold pod3, pod2. cbn [Api.revision stored]. rewrite E3, E2. reflexivity.
  - change (Api.mkServer (<[pod_key pod := pod3]> (<[pod_key pod := pod2]> (<[pod_key pod := pod1]> (Api.pods s)))) (Api.revision s + 1 + 1 + 1) =
      Api.mkServer (<[pod_key pod := sent (bound pod1 cluster (Api.revision s + 2)) (DispatcherProcess.p_name proc) id (Api.revision s + 3)]> (Api.pods s)) (Api.revision s + 3)).
    rewrite !insert_insert_eq. unfold pod3, pod2. cbn [Api.revision stored]. rewrite E3, E2. reflexivity.
Qed.
End Composition.
End Journey.

(** ** A pod on its way *)

Definition demo_journey_vm : Api.VirtualMachine := Api.mkVM "vm" "img" "sg" demo_machine.
Definition demo_pending : Api.Pod :=
  Api.mkPod (Api.mkMeta "pod" "ns" Api.TenantSystem "uid" 7 1 1 None ∅ []) (Api.mkSpec "" "" "Always" "" "" "vm" (Some demo_journey_vm) ["net"%string])
    (Api.mkStatus Api.PodPending "" "" "" "" "" "" []).
Definition demo_server : Api.server := Api.mkServer {[pod_key demo_pending := demo_pending]} 1.
Definition demo_journey_scheduler : ApiTypes.Scheduler :=
  ApiTypes.mkScheduler "sched" "default" (ApiTypes.mkGeolocation "" "" "" "") "" [] (ApiTypes.mkUnion [ApiTypes.mkGeolocation "" "" "" ""] [] [] [] [] [] [] [] []) "" "".
Definition demo_distributor_process : DistributorProcess.Process := DistributorProcess.mkProcess "default" "dist" [demo_journey_scheduler] 0 100.
Definition demo_dispatcher_process : DispatcherProcess.Process := DispatcherProcess.mkProcess "disp" {["c"%string := "1.2.3.4"%string]} {["1.2.3.4"%string := "tok"%string]} 0 0 0 0 0 0.
Definition demo_cloud (req : Openstack.request) (w : Api.server * unit) : result Openstack.response * (Api.server * unit) :=
  (Ok (Openstack.mkResponse 202 [] (Some [("server"%string, Openstack.JObject [("id"%string, Openstack.JString "vm-1")])])), w).
Definition demo_idle (name : string) : PodScheduler := mkPodScheduler NewPriorityQueueWithClock demo_bind_world.
Definition demo_tenant_get (s : Api.server) (ns tenant name : string) : result string := Ok "".
Definition demo_tenant_patch (s : Api.server) (tenant ns name old new : string) : Api.server * option string := (s, None).
Definition demo_rand (n : nat) (w : Api.server * unit) : nat * (Api.server * unit) := (0%nat, w).

Lemma demo_ready : ready demo_range None (demo_idle "") (pod_stack 5 demo_pending demo_journey_vm).
Proof.
  split.
  - exact new_queue_wf.
  - reflexivity.
  - exact demo_plain_world.
  - vm_compute. reflexivity.
  - exists "r1--az1"%string. split; [apply (bool_decide_unpack _); vm_compute; exact I|vm_compute; reflexivity].
Qed.

Lemma demo_cloud_reachable cluster : suitable_cluster (demo_idle "") (pod_stack 5 demo_pending demo_journey_vm) cluster -> reachable_cloud DispatcherProcess.demo_address demo_cloud demo_dispatcher_process cluster.
Proof.
  intros (n & site & Hn & Hsite & _ & <-). unfold info_of in Hn. destruct (SiteCacheInfoMap _ !! SiteID site) as [a|] eqn:Ha; [|done].
  change (({["r1--az1"%string := 0%nat]} : gmap string nat) !! SiteID site = Some a) in Ha. apply lookup_singleton_Some in Ha as [_ <-].
  change (Some demo_bind_info = Some n) in Hn. injection Hn as <-. injection Hsite as <-.
  exists "1.2.3.4"%string, "tok"%string. split; [by split|]. split; [done|]. intros server s []. eexists _, "vm-1"%string, tt. split; [reflexivity|]. split; [done|]. by eexists _, _.
Qed.

Lemma pod_reaches_its_cloud_witness : ∃ f s3 ps pods pod3 instance,
  journey 5 (fun _ _ => None) demo_range (seq 0) id ∅ f (fun _ => 0) None (fun _ _ => false) demo_tenant_get demo_tenant_patch demo_rand (fun _ _ w => (Ok tt, w)) DispatcherProcess.demo_address demo_cloud
    (fun _ w => (Err "gone"%string, w)) (fun w => (9, w)) demo_distributor_process demo_idle demo_dispatcher_process "u" demo_server tt tt demo_pending demo_journey_vm = Some (s3, ps, (pods, pod3)) ∧
  Api.pods s3 !! pod_key demo_pending = Some pod3 ∧ Api.Phase (Api.status pod3) = Api.ClusterScheduled ∧ Api.ClusterInstanceId (Api.status pod3) = instance.
Proof.
  destruct (built_exists demo_range false) as [f Hf]. exists f.
  destruct (pod_reaches_its_cloud 5 (fun _ _ => None) demo_range (seq 0) id ∅ false f (fun _ => 0) None (fun _ _ => false) demo_tenant_get demo_tenant_patch demo_rand
    (fun _ _ w => (Ok tt, w)) DispatcherProcess.demo_address demo_cloud (fun _ w => (Err "gone"%string, w)) (fun w => (9, w)) demo_distributor_process demo_idle demo_dispatcher_process "u" demo_server tt tt
    demo_pending demo_journey_vm (fun A m => reflexivity _) (fun n => reflexivity _) (fun l => reflexivity _) Hf comp_order_none (fun n w Hn => Hn) (fun n w => eq_refl) (fun w => eq_refl)
    (fun p st _ _ => eq_refl) eq_refl eq_refl eq_refl eq_refl eq_refl eq_refl ltac:(discriminate) ltac:(discriminate)) as (s3 & ps & sch & cluster & instance & _ & _ & Hrun & Hs3).
  - vm_compute. repeat split; reflexivity.
  - exists demo_journey_scheduler. split; [apply list_elem_of_here|]. eexists. split; [apply list_elem_of_here|]. vm_compute. repeat split; by left.
  - intros sch _. exact demo_ready.
  - intros sch cluster _. exact (demo_cloud_reachable cluster).
  - vm_compute. split; [discriminate|reflexivity].
  - eexists s3, ps, _, _, instance. split; [exact Hrun|]. rewrite Hs3. split; [apply lookup_insert_eq|]. split; reflexivity.
Defined.

